(* ===== verification/_CoqProject ===== *)
-Q . S2P
Prelude.v
Errors.v
Bytes.v
Cardinality.v
Key.v
Codec.v
TreeInterface.v
RangeMutation.v
RangeMap.v
RangeTheorems.v
PageHeader.v
SlottedPage.v
SlottedFacts.v
SlottedTheorems.v
LayoutFacts.v
CompactFacts.v
Checksum.v
ChecksumFacts.v
Contract.v
ContractFacts.v
Bootstrap.v
BootstrapFacts.v
Machine.v
Mapping.v
MappingFacts.v
Draft.v
WriterCore.v
Store.v
TreePage.v
TreeQuery.v
TreeCursor.v
TreeMutation.v
TreeGap.v
Retirement.v
Concurrent.v
ReaderTable.v
LiveHandles.v
RelyGuarantee.v
ReaderSpecs.v
ReaderSafety.v
WriterSafety.v
TreeSafety.v
TreeFacts.v
TreeReads.v
CursorTheorems.v
RangeCursor.v
Compare.v
CompareFacts.v
TreePageFacts.v
TreeStore.v
TreeUpward.v
TreeDescent.v
TreeEdits.v
TreeTheorems.v
RangeBulk.v
RangeBulkFacts.v
RetirementFacts.v
RetirementTheorems.v
Reclamation.v
BitmapPage.v
DraftStore.v
FreeBitmap.v
DraftPages.v
PublicationFacts.v
CrashTheorems.v
Classify.v
DraftStoreFacts.v
CowTheorems.v
CrashExamples.v
TreeRuns.v
OwnerTable.v
Validation.v
ValidationFacts.v
ValidationTotal.v
MembershipScope.v
MembershipFacts.v
AlgebraScan.v
AlgebraQueue.v
AlgebraFacts.v
AlgebraTheorems.v
