(* ===== verification/Prelude.v ===== *)
(** * The iprange v4 live database in Rocq

    This library models the Rust implementation of the v4 database of iprange
    ([v4/rust/iprange-livedb/src]) and proves what its parts promise.

    ** The program

    A database is one file of 4096-byte pages.  Pages 0 and 1 are meta pages:
    each describes one generation (its transaction number, page count, roots
    and counters), the newer one is current.  All other pages belong to trees:
    the range tree maps disjoint address intervals to values; other trees hold
    feeds, memberships, metadata; a bitmap tree records free pages.  Pages of a
    committed generation are never written in place: a transaction claims pages
    of its own in a draft, and publication flushes them, syncs, and then writes
    the meta page the current generation does not use.

    ** The model

    A fallible function returns [outcome E A]: [Ok], [Err], or [Panic] where
    the code would panic, so the absence of panics is proved and not assumed.
    A method that mutates [self] and can fail is a function of type [io S A]
    ([Machine]), which keeps what was changed before the failure.  Integers
    are [Z], with the width and the checked, saturating or truncating operation
    of the source written out.  A page is the list of its bytes.  Code that is
    not in the repository is a parameter: the crate crc32c (assumed only to
    continue a CRC-32C), the operating system (the list of answers to the
    coming system calls), its randomness, and the polls of cancellation.

    ** Files

    Foundations.  [Prelude]: outcomes, checked arithmetic, list lemmas, the
    tactics and hint databases the other files use.  [Errors] (sdk_error.rs):
    error classes, wire codes, cleanup combination.  [Bytes] (mapped_bytes.rs,
    contract.rs): byte sources and page edits, and the enums of the format.
    [Cardinality] (cardinality.rs), [Key] (key.rs).

    Range map.  [Codec] (fixed_tree.rs [Codec], range_tree.rs): records and
    their cells, with round trips, bounds and exactness of the foundations.
    [TreeInterface]: the class [OrderedTree] of operations the
    range map calls and the class [OrderedTreeLaws] of what it relies on, over
    the sorted list of records, with an instance on lists that shows the laws
    can hold.  [RangeMutation] (range_mutation.rs, range_mutation/assign.rs):
    assign, clear, assign_private, transform.  [RangeMap], [RangeTheorems]: a
    canonical record list denotes a partial function from addresses to values;
    the operations refine updates of that function.

    Pages.  [PageHeader] (page_header.rs); [SlottedPage] (slotted_page.rs) with
    [SlottedFacts], [SlottedTheorems], [LayoutFacts], [CompactFacts]: a page
    denotes the list of its cells, edits refine edits of the list, the
    inspection of an untrusted page is sound.  [Checksum] (checksum.rs,
    page_checksum.rs) with [ChecksumFacts]: all paths compute one CRC-32C,
    sealing validates, one changed byte is detected.

    Opening.  [Contract] (contract.rs) with [ContractFacts]: the meta codec is a
    bijection between records and accepted pages.  [Bootstrap] (bootstrap.rs)
    with [BootstrapFacts]: validation decides the rules of a generation; opening
    selects the current one; commit attempts are resolved.

    Transactions.  [Machine]: the monad, [wp], [keeps R] for code that moves
    its state along a preorder on every path, and [safe] for code that cannot
    panic.  [Mapping] (mapping.rs): the file and its map; [MappingFacts]: what a
    crash can leave of a run, as ageing of pages and lengths by events.  [Draft]
    (draft_store.rs, fixed_tree.rs [RetiredPages], membership_delta.rs
    [Pending]), [WriterCore] (writer_core.rs, writer_core/publication.rs,
    open.rs, close.rs, database_file.rs), [PublicationFacts],
    [CrashTheorems]: publication is atomic and durable under crashes at any
    point; discarding and creating a database.

    Draft pages.  [Store]: the traits Store and BitmapStore as classes, with
    the class [StoreKeeps] of what the page structures rely on.  [DraftStore]
    (draft_store/storage.rs, draft_store.rs), [BitmapPage] (bitmap_page.rs),
    [FreeBitmap] (free_bitmap.rs, free_bitmap/mutation.rs, and the allocator of
    draft_store/storage.rs on top of it), [DraftStoreFacts] (with [edit] of
    writer_core.rs): whatever operations an edit performs, the state
    stays one the crash theorems apply to.

    Recovery.  [Classify] (recovery/classify.rs, recovery.rs, the counters of
    validation/types.rs): the candidates recovery offers
    agree with what a writer opens, and a torn publication leaves the generation
    before.  [CrashExamples] runs a publication and edits and applies the
    theorems to them.

    B+tree.  [TreePage] (fixed_tree/page.rs): search and rewriting of a page.
    [TreeQuery] (fixed_tree/query.rs, format.rs, range_tree.rs [lookup]),
    [TreeCursor] (fixed_tree/cursor.rs, fixed_tree/read.rs): reads.
    [TreeMutation] (fixed_tree.rs, insert.rs, delete.rs, walk.rs): copy-on-write
    paths, insertion, deletion.  [TreeGap] (fixed_tree/gap.rs): insertion into a
    gap of a private tree.  [TreeFacts]: the class [CodecLaws] of what a codec
    promises, the binary search, and [tree_at], the predicate that pages form a
    tree over a list of records.  A page is asked to be [legible], that is, to
    parse and to give its cells; the pages the writer makes are [slotted], which
    says in addition that the cells tile the record area.  [TreeReads],
    [CursorTheorems]: reads refine reads of the list, which is what
    [OrderedTreeLaws] asks; the zipper [context] accounts for the records on
    both sides of a path.  [TreeSafety]: mutations move the store only along
    preorders its operations keep.  A page whose rewriting failed midway is left
    by the model as it was; the code never uses it again, and no theorem speaks
    of its bytes.

    Mutation of trees.  [TreePageFacts]: edits of one page of a tree ([sheet]: a
    page with its cells, level and birth).  [TreeStore]: the class [StoreLaws]
    of what a store promises to the trees it holds, over the finite map of pages
    a client owns and the number of pages the store can still give; shapes of
    trees, the paths to a subtree and the predicate [stands] that owned pages
    form a shape.  [TreeUpward] (splits and fences on the way up), [TreeDescent]
    (copying on the way down), [TreeEdits] (insertion), [TreeTheorems]
    (deletion, replacement, sequences of edits).  [DraftPages]:
    the draft store keeps [StoreLaws], as long as the bitmap of free pages is
    empty and the budget lasts.  [CowTheorems]: copy on write of a transaction
    that starts with that bitmap empty, in its edits and then in its preparation
    for the commit, failures included.  [TreeRuns]: a two-level tree, and transactions that
    change it.

    Ranges of a generation.  [RangeCursor] (range_cursor.rs): the cursor over
    ranges.  [Compare] (workflow/compare.rs, workflow.rs) with [CompareFacts]:
    the sweep over two generations counts every address in its class.
    [RangeBulk] (range_bulk.rs) with [RangeBulkFacts]: a tree built from ordered
    records, level by level.

    Retirement.  [Retirement] (retirement.rs): the ledger of pages that left the
    committed roots, with the choice of what to reclaim.  [RetirementFacts],
    [RetirementTheorems]: the ledger is a tree with a codec of its own; adding a
    page joins it to its neighbours.  [Reclamation]: what is chosen is the
    longest run that no reader needs.

    Live handles.  [Concurrent]: programs of several processes as trees of calls
    on what they share, and the step relation of a system of them.
    [ReaderTable] (live_sidecar.rs, live_sidecar/slot.rs), [LiveHandles]
    (reader_core/live.rs, live_writer.rs and its commit, reclaim and close).
    [RelyGuarantee]: what a process may assume of the others; [ReaderSpecs],
    [ReaderSafety], [WriterSafety]: readers keep their generations in every
    interleaving, failures and deaths of processes included.

    Validation.  [OwnerTable] (validation/membership_table.rs): the hash table in
    which a validation counts references, refining a finite map.  [Validation]
    (validation/context.rs, page.rs, range.rs): the walk over the range tree of
    an untrusted file, with its findings, its owners of pages and its limits.
    [ValidationFacts]: when it ends without a finding, the tree holds a canonical
    map.  [ValidationTotal]: it ends, without a panic, on any bytes.

    Memberships.  [MembershipScope] (heap.rs, feed.rs, cancellation.rs,
    membership_query/scope.rs, cache.rs, decode.rs): a scope resolves feeds to
    positions and a scratch decodes the bitmaps of memberships, which it reads
    through the interface [MembershipView].  [MembershipFacts]: the index, the
    cache and both decoders agree with reading the bits one by one.
    [AlgebraScan] (membership_query/selected.rs, algebra.rs, algebra/scan.rs,
    selection.rs, analysis.rs): the catalog of several databases, the sweep over
    their ranges and its consumers.  [AlgebraQueue]: the event queue, small or a
    heap, and the counters of the global feeds.  [AlgebraFacts]: the selected
    ranges of a scope are the canonical runs of its feeds; a sweep gives every
    address to its consumer in one segment, with the number of sources that hold
    each feed there.  [AlgebraTheorems]: counts and comparisons by selections of
    names are numbers of addresses.

    ** Theorems

    C1, C4, C5 range assignment (refinement, equivalence of the short path,
    termination); C3 the bulk build; C21 the comparison of two maps.  C7, C10,
    C11 slotted pages (invariants, round trip, soundness of inspection);
    C12-C14 checksums; C15, C16 the meta codec; C18-C20 opening; C22
    cardinalities.  C25-C28 crashes and creation; C29 discarding a draft; C30, C31
    recovery; C32, C33 the draft store and edits.  C34-C36 reads of a tree;
    C37, C39 its mutations; C40 no page of another transaction is written, the
    allocator's reserve apart, in a database with an empty bitmap of free pages,
    by edits and the preparation of their commit.  C17, C23 retirement and
    reclamation; C6 live readers among writers.  C2, C9, C24 validation: sound,
    terminating without panic, its table a refinement of a map.  C8 the
    positions of a membership scope, and where their lookup panics; C38 the
    comparison of selections of feeds over several databases.

    ** Bounds and fuel

    Recursion that follows links on pages takes the number of steps the code
    itself counts (the private page count for the dirty chain, the level for a
    bitmap descent, MAX_PATH for a tree descent), so fuel is never a limit the
    code does not have.  Digit loops run over the 39 digits of the buffer.  Loops
    over records take the number of records of the interval; the sweep of a
    comparison takes at most as many rounds as the two maps have records.  An
    insertion or a deletion copies and splits at most one page per level and
    adds one root: [2 * height + 1] pages are enough for it, and [EDIT_PAGES],
    twice MAX_TREE_LEVEL and one, at any height.  A tree of MAX_TREE_LEVEL + 1
    levels can no longer grow, so a sequence of edits is followed up to there.
    A bulk build is given 7 pages for each record and 27 more, and fewer than
    2^42 records, so its tree stays below that height.  The walk of a validation
    descends along the path of 32 places the code has, and its scans take as
    many rounds as the file has pages, of which there are at most 2^32.  A sweep
    takes two rounds for each range of its sources: one begins it, one ends it.  Each
    time a theorem shows that this many rounds are enough.

    ** Not modelled

    The B+tree discharges [OrderedTreeLaws] for its reads (C35) and its edits
    refine the same list operations (C37, C39); the insertions of [TreeGap] are
    kept to the store's preorders but not yet shown to be list operations.
    [StoreLaws] is discharged for drafts whose free bitmap is empty; settling
    reclaimed pages back into that bitmap is not followed, and C40 does not
    cover a transaction that reuses pages of that bitmap.  Of validation, the
    walks over feeds, memberships, structures and bitmaps are left out, as are
    the catalogs and dictionaries themselves, the aggregations, joins and output
    sets of memberships, used-identifier bitmaps, structured
    values, snapshots and immutable output, and the builds of a recovery.
    Outside the model: the C interface and the Go port (other languages,
    conversions), the creation of the sidecar and other directory operations,
    worker processes, zlib, and the texts of messages.  The work counters of the
    code never influence a result and are left out. *)

From stdpp Require Import base tactics numbers list strings.
From Stdlib Require Import ZArith Lia.

#[local] Open Scope Z_scope.

(** ** Outcomes of fallible code

    A Rust [Result<A, E>] is a value of [outcome E A]; a call that panics
    ([expect], an out-of-range slice index) is the third constructor, so that
    the absence of panics is something a theorem has to show. *)

Inductive outcome (E A : Type) : Type :=
| Ok (a : A)
| Err (e : E)
| Panic (msg : string).
Arguments Ok {E A} a.
Arguments Err {E A} e.
Arguments Panic {E A} msg.

#[global] Instance outcome_ret E : MRet (outcome E) := fun A a => Ok a.
#[global] Instance outcome_bind E : MBind (outcome E) := fun A B f m =>
  match m with
  | Ok a => f a
  | Err e => Err e
  | Panic s => Panic s
  end.
#[global] Instance outcome_fmap E : FMap (outcome E) := fun A B f m =>
  match m with
  | Ok a => Ok (f a)
  | Err e => Err e
  | Panic s => Panic s
  end.

(** [Option::ok_or], [Option::expect], [Result::ok], [Result::map_err]. *)
Definition ok_or {E A} (o : option A) (e : E) : outcome E A :=
  match o with Some a => Ok a | None => Err e end.

Definition expect {E A} (o : option A) (msg : string) : outcome E A :=
  match o with Some a => Ok a | None => Panic msg end.

Definition map_err {E F A} (f : E -> F) (m : outcome E A) : outcome F A :=
  match m with Ok a => Ok a | Err e => Err (f e) | Panic s => Panic s end.

Definition is_ok {E A} (m : outcome E A) : bool :=
  match m with Ok _ => true | _ => false end.

(** Unchecked [a - b] on [usize]; an underflow is a panic of the build with
    overflow checks. *)
Definition usub {E} (a b : Z) : outcome E Z :=
  if (b <=? a)%Z then Ok (a - b)%Z else Panic "attempt to subtract with overflow".

(** [if c { return Err(e) }]. *)
Definition guard {E} (c : bool) (e : E) : outcome E unit :=
  if c then Ok tt else Err e.

(** ** Machine integers

    A [w]-bit unsigned integer is a [Z] in [0, 2^w); the width is explicit in
    every operation that can leave the interval. *)

Definition u8_max : Z := 255.
Definition u16_max : Z := 65535.
Definition u32_max : Z := 4294967295.
Definition u64_max : Z := 18446744073709551615.
(** [usize] on the 64-bit targets. *)
Definition usize_max : Z := u64_max.

Definition checked_add (max a b : Z) : option Z :=
  if a + b <=? max then Some (a + b) else None.
Definition checked_sub (a b : Z) : option Z :=
  if b <=? a then Some (a - b) else None.
Definition checked_mul (max a b : Z) : option Z :=
  if a * b <=? max then Some (a * b) else None.
Definition saturating_sub (a b : Z) : Z := if b <=? a then a - b else 0.
Definition saturating_add (max a b : Z) : Z := if a + b <=? max then a + b else max.
Definition overflowing_add (w a b : Z) : Z * bool :=
  ((a + b) mod 2 ^ w, 2 ^ w <=? a + b).
Definition overflowing_sub (w a b : Z) : Z * bool :=
  ((a - b) mod 2 ^ w, a <? b).

(** Unchecked [a + b]; an overflow is a panic of the build with overflow
    checks. *)
Definition uadd {E} (max a b : Z) : outcome E Z :=
  if a + b <=? max then Ok (a + b) else Panic "attempt to add with overflow".

(** [slice[index]]. *)
Definition at_index {E A} (l : list A) (index : Z) : outcome E A := expect (l !! Z.to_nat index) "index out of bounds".

(** [checked_next_power_of_two]. *)
Definition checked_next_power_of_two (v : Z) : option Z :=
  let p := if v <=? 1 then 1 else 2 ^ (Z.log2 (v - 1) + 1) in
  if p <=? u64_max then Some p else None.

Definition b2z (b : bool) : Z := if b then 1 else 0.

(** ** Length and total indexing of lists by [Z] *)

Definition zlen {A} (l : list A) : Z := Z.of_nat (length l).

Definition bget (l : list Z) (i : Z) : Z := nth (Z.to_nat i) l 0.

Definition is_byte (b : Z) : Prop := 0 <= b < 256.

Definition bytes_ok (l : list Z) : Prop := Forall is_byte l.

(** [&l[at..at + n]]. *)
Definition sub (l : list Z) (at_ n : Z) : list Z :=
  take (Z.to_nat n) (drop (Z.to_nat at_) l).

(** [l[at..at + bs.len()].copy_from_slice(bs)], for a range inside [l]. *)
Definition splice (l : list Z) (at_ : Z) (bs : list Z) : list Z :=
  take (Z.to_nat at_) l ++ bs ++ drop (Z.to_nat (at_ + zlen bs)) l.

(** [to_le_bytes] and [from_le_bytes]. *)
Fixpoint le_bytes (n : nat) (v : Z) : list Z :=
  match n with
  | O => []
  | S n' => v mod 256 :: le_bytes n' (v / 256)
  end.

Fixpoint le_val (bs : list Z) : Z :=
  match bs with
  | [] => 0
  | b :: bs' => b + 256 * le_val bs'
  end.

(** ** Automation *)

Create HintDb v4.
Create Rewrite HintDb v4_simp.

(** Turn the boolean comparisons of the context and the goal into the
    propositions they decide. *)
Ltac zb :=
  repeat match goal with
  | H : (_ <=? _) = true |- _ => apply Z.leb_le in H
  | H : (_ <=? _) = false |- _ => apply Z.leb_gt in H
  | H : (_ <? _) = true |- _ => apply Z.ltb_lt in H
  | H : (_ <? _) = false |- _ => apply Z.ltb_ge in H
  | H : (_ =? _) = true |- _ => apply Z.eqb_eq in H
  | H : (_ =? _) = false |- _ => apply Z.eqb_neq in H
  | H : _ && _ = true |- _ => apply andb_true_iff in H; destruct H
  | H : _ || _ = false |- _ => apply orb_false_iff in H; destruct H
  | H : negb _ = true |- _ => apply negb_true_iff in H
  | H : negb _ = false |- _ => apply negb_false_iff in H
  end.

(** Case analysis on every boolean comparison that blocks a reduction. *)
Ltac zcase :=
  repeat (match goal with
  | |- context [?a <=? ?b] => destruct (Z.leb_spec a b)
  | |- context [?a <? ?b] => destruct (Z.ltb_spec a b)
  | |- context [?a =? ?b] => destruct (Z.eqb_spec a b)
  end; cbn [andb orb negb] in *; try lia; try reflexivity).

(** Close a side condition with the library or by arithmetic. *)
Ltac v4lia := solve [lia | eauto with v4].

(** Invert a successful bind. *)
Lemma bind_Ok {E A B} (m : outcome E A) (f : A -> outcome E B) b :
  m ≫= f = Ok b -> exists a, m = Ok a /\ f a = Ok b.
Proof. destruct m; simpl; intros H; try discriminate; eauto. Qed.

(** Run one step of a computation whose result is known. *)
Lemma bind_run {E A B} (m : outcome E A) (f : A -> outcome E B) a : m = Ok a -> m ≫= f = f a.
Proof. by intros ->. Qed.

Ltac run E := rewrite (bind_run _ _ _ E); cbv beta zeta.

Lemma ok_or_Ok {E A} (o : option A) (e : E) a : ok_or o e = Ok a <-> o = Some a.
Proof. destruct o; simpl; split; congruence. Qed.

Lemma guard_Ok {E} c (e : E) u : guard c e = Ok u <-> c = true.
Proof. destruct c, u; simpl; split; congruence. Qed.

Ltac inv_ok :=
  repeat match goal with
  | H : ?m ≫= _ = Ok _ |- _ =>
      let a := fresh "r" in let Ha := fresh "Hr" in
      apply bind_Ok in H; destruct H as (a & Ha & H)
  | H : ok_or _ _ = Ok _ |- _ => apply ok_or_Ok in H
  | H : guard _ _ = Ok _ |- _ => apply guard_Ok in H
  | H : Ok _ = Ok _ |- _ => injection H as H
  | H : Err _ = Ok _ |- _ => discriminate H
  | H : Panic _ = Ok _ |- _ => discriminate H
  end.

(** ** Arithmetic lemmas *)

Lemma checked_add_Some max a b c :
  checked_add max a b = Some c <-> c = a + b /\ a + b <= max.
Proof. unfold checked_add. destruct (Z.leb_spec (a + b) max); intuition (congruence || lia). Qed.

Lemma usub_ok {E} a b : b <= a -> usub (E := E) a b = Ok (a - b).
Proof. intros. unfold usub. by rewrite (proj2 (Z.leb_le b a)). Qed.

Lemma checked_sub_Some a b c : checked_sub a b = Some c <-> c = a - b /\ b <= a.
Proof. unfold checked_sub. destruct (Z.leb_spec b a); intuition (congruence || lia). Qed.

Lemma overflowing_add_spec w a b :
  0 <= w -> 0 <= a < 2 ^ w -> 0 <= b < 2 ^ w ->
  fst (overflowing_add w a b) + 2 ^ w * b2z (snd (overflowing_add w a b)) = a + b
  /\ 0 <= fst (overflowing_add w a b) < 2 ^ w.
Proof.
  intros Hw Ha Hb. unfold overflowing_add, b2z; simpl.
  pose proof (Z.mod_pos_bound (a + b) (2 ^ w) ltac:(lia)).
  destruct (Z.leb_spec (2 ^ w) (a + b)).
  - rewrite <- (Z_mod_plus_full (a + b) (-1)) in *.
    rewrite Z.mod_small in * by lia. lia.
  - rewrite Z.mod_small in * by lia. lia.
Qed.

Lemma overflowing_sub_spec w a b :
  0 <= w -> 0 <= a < 2 ^ w -> 0 <= b < 2 ^ w ->
  fst (overflowing_sub w a b) - 2 ^ w * b2z (snd (overflowing_sub w a b)) = a - b
  /\ 0 <= fst (overflowing_sub w a b) < 2 ^ w.
Proof.
  intros Hw Ha Hb. unfold overflowing_sub, b2z; simpl.
  pose proof (Z.mod_pos_bound (a - b) (2 ^ w) ltac:(lia)).
  destruct (Z.ltb_spec a b).
  - rewrite <- (Z_mod_plus_full (a - b) 1) in *.
    rewrite Z.mod_small in * by lia. lia.
  - rewrite Z.mod_small in * by lia. lia.
Qed.

Lemma land_shiftl_small hi lo w :
  0 <= w -> 0 <= lo < 2 ^ w -> Z.land (Z.shiftl hi w) lo = 0.
Proof.
  intros Hw Hlo. apply Z.bits_inj'. intros n Hn.
  rewrite Z.land_spec, Z.shiftl_spec, Z.bits_0 by lia.
  destruct (Z.lt_ge_cases n w).
  - rewrite Z.testbit_neg_r by lia. done.
  - rewrite <- (Z.mod_small lo (2 ^ w)) by lia.
    rewrite Z.mod_pow2_bits_high by lia. apply andb_false_r.
Qed.

(** Joining a high limb and a low limb with a shift and an or. *)
Lemma lor_shiftl_add hi lo w :
  0 <= w -> 0 <= lo < 2 ^ w -> Z.lor (Z.shiftl hi w) lo = hi * 2 ^ w + lo.
Proof.
  intros Hw Hlo. rewrite <- Z.shiftl_mul_pow2 by lia.
  pose proof (land_shiftl_small hi lo w Hw Hlo) as H.
  by rewrite Z.add_nocarry_lxor, Z.lxor_lor by done.
Qed.

(** ** List lemmas *)

Lemma zlen_nonneg {A} (l : list A) : 0 <= zlen l.
Proof. unfold zlen; lia. Qed.
Lemma zlen_app {A} (l k : list A) : zlen (l ++ k) = zlen l + zlen k.
Proof. unfold zlen; rewrite length_app; lia. Qed.
Lemma zlen_cons {A} (x : A) l : zlen (x :: l) = 1 + zlen l.
Proof. unfold zlen; simpl; lia. Qed.
Lemma zlen_nil {A} : zlen (@nil A) = 0.
Proof. reflexivity. Qed.
Lemma zlen_replicate {A} n (x : A) : zlen (replicate n x) = Z.of_nat n.
Proof. unfold zlen; by rewrite length_replicate. Qed.
Lemma zlen_zero_nil {A} (l : list A) : zlen l = 0 -> l = [].
Proof. destruct l; unfold zlen; simpl; [done | lia]. Qed.

Lemma zlen_sub l a n : 0 <= a -> 0 <= n -> a + n <= zlen l -> zlen (sub l a n) = n.
Proof.
  unfold zlen, sub. intros. rewrite length_take, length_drop. lia.
Qed.

Lemma zlen_splice l a bs :
  0 <= a -> a + zlen bs <= zlen l -> zlen (splice l a bs) = zlen l.
Proof.
  unfold splice, zlen. intros.
  rewrite !length_app, length_take, length_drop. lia.
Qed.

#[export] Hint Rewrite @zlen_app @zlen_cons @zlen_nil @zlen_replicate : v4_simp.

Ltac zlen_simp := autorewrite with v4_simp in *.

Lemma bget_app l k i :
  0 <= i -> bget (l ++ k) i = if i <? zlen l then bget l i else bget k (i - zlen l).
Proof.
  intros Hi. unfold bget, zlen.
  destruct (Z.ltb_spec i (Z.of_nat (length l))).
  - rewrite app_nth1 by lia. done.
  - rewrite app_nth2 by lia. f_equal. lia.
Qed.

Lemma bget_take l n i :
  0 <= i < n -> bget (take (Z.to_nat n) l) i = bget l i.
Proof.
  intros Hi. unfold bget.
  destruct (Nat.lt_ge_cases (Z.to_nat i) (length l)).
  - rewrite <- (take_drop (Z.to_nat n) l) at 2.
    rewrite app_nth1; [done | rewrite length_take; lia].
  - rewrite !nth_overflow; [done | lia | rewrite length_take; lia].
Qed.

Lemma bget_drop l n i :
  0 <= i -> 0 <= n -> bget (drop (Z.to_nat n) l) i = bget l (n + i).
Proof.
  intros Hi Hn. unfold bget.
  rewrite nth_skipn. f_equal. lia.
Qed.

Lemma bget_sub l a n i :
  0 <= a -> 0 <= i < n -> bget (sub l a n) i = bget l (a + i).
Proof. intros. unfold sub. rewrite bget_take, bget_drop by lia. done. Qed.

Lemma bget_splice l a bs i :
  0 <= a -> a + zlen bs <= zlen l -> 0 <= i ->
  bget (splice l a bs) i =
    if (a <=? i) && (i <? a + zlen bs) then bget bs (i - a) else bget l i.
Proof.
  intros Ha Hl Hi. unfold splice. pose proof (zlen_nonneg bs).
  assert (Htk : zlen (take (Z.to_nat a) l) = a)
    by (unfold zlen in *; rewrite length_take; lia).
  rewrite bget_app, Htk by lia.
  destruct (Z.ltb_spec i a); destruct (Z.leb_spec a i); simpl; try lia.
  - apply bget_take; lia.
  - rewrite bget_app by lia.
    destruct (Z.ltb_spec (i - a) (zlen bs)); destruct (Z.ltb_spec i (a + zlen bs)); try lia.
    rewrite bget_drop by lia. f_equal. lia.
Qed.

Lemma bget_replicate n i x : 0 <= i < Z.of_nat n -> bget (replicate n x) i = x.
Proof.
  intros Hi. unfold bget. revert i Hi.
  induction n as [|n IH]; intros i Hi; [lia |].
  simpl. destruct (Z.to_nat i) eqn:E; [done |].
  etrans; [| apply (IH (i - 1)); lia]. f_equal; lia.
Qed.

Lemma bget_overflow l i : zlen l <= i -> bget l i = 0.
Proof. intros. unfold bget, zlen in *. apply nth_overflow. lia. Qed.

Lemma list_ext l k :
  zlen l = zlen k -> (forall i, 0 <= i < zlen l -> bget l i = bget k i) -> l = k.
Proof.
  intros Hlen Hget. unfold zlen in *.
  apply nth_ext with (d := 0) (d' := 0); [lia |].
  intros n Hn. specialize (Hget (Z.of_nat n) ltac:(lia)).
  unfold bget in Hget. by rewrite Nat2Z.id in Hget.
Qed.

Lemma sub_splice_same l a bs :
  0 <= a -> a + zlen bs <= zlen l -> sub (splice l a bs) a (zlen bs) = bs.
Proof.
  intros Ha Hl. pose proof (zlen_nonneg bs). apply list_ext.
  - rewrite zlen_sub; rewrite ?zlen_splice; lia.
  - intros i Hi. rewrite zlen_sub in Hi by (rewrite ?zlen_splice; lia).
    rewrite bget_sub, bget_splice by lia. zcase.
    f_equal. lia.
Qed.

Lemma sub_splice_other l a bs b n :
  0 <= a -> a + zlen bs <= zlen l -> 0 <= b -> 0 <= n -> b + n <= zlen l ->
  b + n <= a \/ a + zlen bs <= b ->
  sub (splice l a bs) b n = sub l b n.
Proof.
  intros Ha Hl Hb Hn Hbn Hd. pose proof (zlen_nonneg bs). apply list_ext.
  - rewrite !zlen_sub; rewrite ?zlen_splice; lia.
  - intros i Hi. rewrite zlen_sub in Hi by (rewrite ?zlen_splice; lia).
    rewrite !bget_sub, bget_splice by lia. zcase.
Qed.

Lemma sub_full l : sub l 0 (zlen l) = l.
Proof.
  unfold sub, zlen. rewrite drop_0. apply take_ge. lia.
Qed.

Lemma sub_app_skip l m a n :
  zlen l <= a -> sub (l ++ m) a n = sub m (a - zlen l) n.
Proof.
  intros Ha. unfold sub, zlen in *. rewrite drop_app_ge by lia.
  f_equal. f_equal. lia.
Qed.

Lemma sub_app_prefix l m n : zlen l = n -> sub (l ++ m) 0 n = l.
Proof.
  intros <-. unfold sub, zlen. rewrite drop_0, Nat2Z.id.
  by rewrite take_app_length.
Qed.

Lemma splice_app_exact (l m bs : list Z) n :
  zlen l = n -> zlen m = zlen bs -> splice (l ++ m) n bs = l ++ bs.
Proof.
  intros <- Hm. unfold splice, zlen in *.
  rewrite Nat2Z.id, take_app_length, drop_ge; [by rewrite app_nil_r |].
  rewrite length_app. lia.
Qed.

Lemma splice_prefix (m1 m2 bs : list Z) :
  zlen m1 = zlen bs -> splice (m1 ++ m2) 0 bs = bs ++ m2.
Proof.
  intros Hm. unfold splice, zlen in *.
  rewrite Z.add_0_l, Nat2Z.id. change (Z.to_nat 0) with 0%nat.
  rewrite take_0, app_nil_l. f_equal.
  apply drop_app_length'. lia.
Qed.

Lemma sub_split l a n m :
  0 <= a -> 0 <= n -> 0 <= m -> a + n + m <= zlen l ->
  sub l a (n + m) = sub l a n ++ sub l (a + n) m.
Proof.
  intros. apply list_ext.
  - rewrite zlen_app, !zlen_sub by lia. done.
  - intros i Hi. rewrite zlen_sub in Hi by lia.
    rewrite bget_app, zlen_sub by lia.
    rewrite !bget_sub by lia. zcase.
    + by rewrite bget_sub by lia.
    + rewrite bget_sub by lia. f_equal. lia.
Qed.

Lemma sub_sub l a n b m :
  0 <= a -> 0 <= b -> 0 <= m -> b + m <= n -> sub (sub l a n) b m = sub l (a + b) m.
Proof.
  intros. unfold sub. rewrite skipn_firstn_comm, drop_drop, take_take. f_equal; [lia | f_equal; lia].
Qed.

(** Two pieces agree when their bytes do. *)
Lemma sub_ext l k a b n :
  0 <= a -> 0 <= b -> 0 <= n -> a + n <= zlen l -> b + n <= zlen k ->
  (forall i, 0 <= i < n -> bget l (a + i) = bget k (b + i)) -> sub l a n = sub k b n.
Proof.
  intros Ha Hb Hn Hl Hk Hi. apply list_ext; [by rewrite !zlen_sub by lia |].
  intros i Hr. rewrite zlen_sub in Hr by lia. rewrite !bget_sub by lia. auto.
Qed.

Lemma bytes_ok_app l k : bytes_ok (l ++ k) <-> bytes_ok l /\ bytes_ok k.
Proof. apply Forall_app. Qed.

Lemma bytes_ok_take l n : bytes_ok l -> bytes_ok (take n l).
Proof. apply Forall_take. Qed.

Lemma bytes_ok_drop l n : bytes_ok l -> bytes_ok (drop n l).
Proof. apply Forall_drop. Qed.

Lemma bytes_ok_sub l a n : bytes_ok l -> bytes_ok (sub l a n).
Proof. intros. by apply Forall_take, Forall_drop. Qed.

Lemma bytes_ok_splice l a bs : bytes_ok l -> bytes_ok bs -> bytes_ok (splice l a bs).
Proof.
  intros. unfold splice, bytes_ok in *. rewrite !Forall_app.
  auto using Forall_take, Forall_drop.
Qed.

Lemma bget_byte l i : bytes_ok l -> is_byte (bget l i).
Proof.
  intros Hl. unfold bget. unfold bytes_ok in Hl. rewrite Forall_nth in Hl.
  destruct (Nat.lt_ge_cases (Z.to_nat i) (length l)).
  - auto.
  - rewrite nth_overflow by lia. unfold is_byte; lia.
Qed.

(** ** Little-endian integers *)

Lemma zlen_le_bytes n v : zlen (le_bytes n v) = Z.of_nat n.
Proof. unfold zlen. revert v. induction n; intros; simpl; [done |]. rewrite Nat2Z.inj_succ, IHn. lia. Qed.
#[export] Hint Rewrite zlen_le_bytes : v4_simp.

Lemma le_bytes_ok n v : bytes_ok (le_bytes n v).
Proof.
  revert v. induction n; intros v; simpl; constructor; [| apply IHn].
  unfold is_byte. pose proof (Z.mod_pos_bound v 256 ltac:(lia)). lia.
Qed.
#[export] Hint Resolve le_bytes_ok bytes_ok_sub bytes_ok_splice : v4.

Lemma le_val_bytes n v : 0 <= v < 256 ^ Z.of_nat n -> le_val (le_bytes n v) = v.
Proof.
  revert v. induction n as [|n IH]; intros v Hv.
  - simpl in *. lia.
  - cbn [le_bytes le_val]. rewrite IH.
    + pose proof (Z.div_mod v 256 ltac:(lia)). lia.
    + rewrite Nat2Z.inj_succ, Z.pow_succ_r in Hv by lia.
      split; [apply Z.div_pos; lia | apply Z.div_lt_upper_bound; lia].
Qed.

Lemma le_val_range bs : bytes_ok bs -> 0 <= le_val bs < 256 ^ zlen bs.
Proof.
  induction bs as [|b bs IH]; intros Hbs.
  - simpl. unfold zlen; simpl. lia.
  - inversion Hbs as [|? ? Hb Hbs']; subst. specialize (IH Hbs').
    rewrite zlen_cons. rewrite Z.pow_add_r by (unfold zlen; lia).
    cbn [le_val]. unfold is_byte in Hb. lia.
Qed.

Lemma le_bytes_val bs : bytes_ok bs -> le_bytes (length bs) (le_val bs) = bs.
Proof.
  induction bs as [|b bs IH]; intros Hbs; [done |].
  inversion Hbs as [|? ? Hb Hbs']; subst. cbn [length le_bytes le_val].
  unfold is_byte in Hb. f_equal.
  - rewrite Z.mul_comm, Z_mod_plus_full. apply Z.mod_small; lia.
  - rewrite Z.mul_comm, Z.div_add by lia.
    rewrite (Z.div_small b) by lia. auto.
Qed.

(** ** Filters *)

Lemma filter_all {A} (P : A -> Prop) `{!forall x, Decision (P x)} (l : list A) :
  (forall x, x ∈ l -> P x) -> filter P l = l.
Proof.
  induction l as [|a l IH]; intros HP; [done |].
  rewrite filter_cons, decide_True by (apply HP; by left). f_equal.
  apply IH. intros x Hx. apply HP. by right.
Qed.
