(* ===== verification/Errors.v ===== *)
(** * Errors of the SDK

    The error enum of [sdk_error.rs], its stable numeric classes
    ([ErrorCode], [ErrorCode::from_wire], [Error::code]) and the two helpers
    that combine an operation's error with the error of its cleanup.  The enums
    [MetaProblem] and [BootstrapError] of [bootstrap.rs] are declared here
    because [Error::Format] carries one. *)

From S2P Require Import Prelude.
From stdpp Require Import base strings.
From Stdlib Require Import ZArith Lia.

#[local] Open Scope Z_scope.

(** ** Stable error classes *)

Inductive ErrorCode : Type :=
| C_InvalidArgument
| C_NullPointer
| C_MisalignedPointer
| C_InvalidLength
| C_InvalidEnum
| C_ReservedNonzero
| C_BufferTooSmall
| C_WrongHandleKind
| C_HandleClosed
| C_HandleBusy
| C_WrongState
| C_WrongAddressFamily
| C_WrongValueKind
| C_WrongValueTag
| C_RangeReversed
| C_NameInvalid
| C_NameExists
| C_NameNotFound
| C_StaleReference
| C_ForeignReference
| C_NoPendingTransaction
| C_TransactionAborted
| C_AbortIncomplete
| C_InsufficientResourceBudget
| C_PageSpaceExhausted
| C_WorkLimitTooSmall
| C_Cancelled
| C_SourceFailed
| C_SinkFailed
| C_StoppedBySink
| C_Io
| C_FormatInvalid
| C_NotV4
| C_DurabilityUnsupported
| C_PublicationUnsupported
| C_AccessPolicyUnsupported
| C_Conflict
| C_Unresolvable
| C_WriterBusy
| C_DirectoryIdentityMismatch
| C_DestinationNameMismatch
| C_CleanupConflict
| C_CoordinationSequenceExhausted
| C_LiveCoordinationUnsupported
| C_LiveCoordinationCleanupRequired
| C_LiveCoordinationMalformedRequiresReset
| C_LiveOpenCleanupRequired
| C_LiveRecoveryCoordinationUnavailable
| C_LiveRecoveryCurrentGenerationUnprovable
| C_LiveRecoveryCurrentGenerationUnreadable
| C_RecoveryCandidateChanged
| C_RecoveryPreparationFailed
| C_SnapshotPreparationFailed
| C_TransitionSuperseded
| C_CurrentGenerationUnprovable
| C_ForkedHandle
| C_Panic
| C_OsUnsupported
| C_TransactionIdExhausted
| C_ArithmeticOverflow
| C_FeedIndexExhausted
| C_MembershipIdExhausted
| C_ReaderCapacityExhausted
| C_CleanupInProgress
| C_FaultWorkerUnavailable
| C_FaultWorkerFailed
| C_UnsupportedStructure
| C_WrongStructureKind
| C_StructureIdExhausted.

(** [code as u32], the discriminants of the [repr(u32)] enum. *)
Definition code_to_wire (c : ErrorCode) : Z :=
  match c with
  | C_InvalidArgument => 1
  | C_NullPointer => 2
  | C_MisalignedPointer => 3
  | C_InvalidLength => 4
  | C_InvalidEnum => 5
  | C_ReservedNonzero => 6
  | C_BufferTooSmall => 7
  | C_WrongHandleKind => 8
  | C_HandleClosed => 9
  | C_HandleBusy => 10
  | C_WrongState => 11
  | C_WrongAddressFamily => 12
  | C_WrongValueKind => 13
  | C_WrongValueTag => 14
  | C_RangeReversed => 15
  | C_NameInvalid => 16
  | C_NameExists => 17
  | C_NameNotFound => 18
  | C_StaleReference => 19
  | C_ForeignReference => 20
  | C_NoPendingTransaction => 21
  | C_TransactionAborted => 22
  | C_AbortIncomplete => 23
  | C_InsufficientResourceBudget => 24
  | C_PageSpaceExhausted => 25
  | C_WorkLimitTooSmall => 26
  | C_Cancelled => 27
  | C_SourceFailed => 28
  | C_SinkFailed => 29
  | C_StoppedBySink => 30
  | C_Io => 31
  | C_FormatInvalid => 32
  | C_NotV4 => 33
  | C_DurabilityUnsupported => 34
  | C_PublicationUnsupported => 35
  | C_AccessPolicyUnsupported => 36
  | C_Conflict => 37
  | C_Unresolvable => 38
  | C_WriterBusy => 39
  | C_DirectoryIdentityMismatch => 40
  | C_DestinationNameMismatch => 41
  | C_CleanupConflict => 42
  | C_CoordinationSequenceExhausted => 43
  | C_LiveCoordinationUnsupported => 44
  | C_LiveCoordinationCleanupRequired => 45
  | C_LiveCoordinationMalformedRequiresReset => 46
  | C_LiveOpenCleanupRequired => 47
  | C_LiveRecoveryCoordinationUnavailable => 48
  | C_LiveRecoveryCurrentGenerationUnprovable => 49
  | C_LiveRecoveryCurrentGenerationUnreadable => 50
  | C_RecoveryCandidateChanged => 51
  | C_RecoveryPreparationFailed => 52
  | C_SnapshotPreparationFailed => 53
  | C_TransitionSuperseded => 54
  | C_CurrentGenerationUnprovable => 55
  | C_ForkedHandle => 56
  | C_Panic => 57
  | C_OsUnsupported => 58
  | C_TransactionIdExhausted => 59
  | C_ArithmeticOverflow => 60
  | C_FeedIndexExhausted => 61
  | C_MembershipIdExhausted => 62
  | C_ReaderCapacityExhausted => 63
  | C_CleanupInProgress => 64
  | C_FaultWorkerUnavailable => 65
  | C_FaultWorkerFailed => 66
  | C_UnsupportedStructure => 67
  | C_WrongStructureKind => 68
  | C_StructureIdExhausted => 69
  end.

(** [ErrorCode::from_wire]. *)
Definition code_from_wire (value : Z) : option ErrorCode :=
  match value with
  | 1 => Some C_InvalidArgument
  | 2 => Some C_NullPointer
  | 3 => Some C_MisalignedPointer
  | 4 => Some C_InvalidLength
  | 5 => Some C_InvalidEnum
  | 6 => Some C_ReservedNonzero
  | 7 => Some C_BufferTooSmall
  | 8 => Some C_WrongHandleKind
  | 9 => Some C_HandleClosed
  | 10 => Some C_HandleBusy
  | 11 => Some C_WrongState
  | 12 => Some C_WrongAddressFamily
  | 13 => Some C_WrongValueKind
  | 14 => Some C_WrongValueTag
  | 15 => Some C_RangeReversed
  | 16 => Some C_NameInvalid
  | 17 => Some C_NameExists
  | 18 => Some C_NameNotFound
  | 19 => Some C_StaleReference
  | 20 => Some C_ForeignReference
  | 21 => Some C_NoPendingTransaction
  | 22 => Some C_TransactionAborted
  | 23 => Some C_AbortIncomplete
  | 24 => Some C_InsufficientResourceBudget
  | 25 => Some C_PageSpaceExhausted
  | 26 => Some C_WorkLimitTooSmall
  | 27 => Some C_Cancelled
  | 28 => Some C_SourceFailed
  | 29 => Some C_SinkFailed
  | 30 => Some C_StoppedBySink
  | 31 => Some C_Io
  | 32 => Some C_FormatInvalid
  | 33 => Some C_NotV4
  | 34 => Some C_DurabilityUnsupported
  | 35 => Some C_PublicationUnsupported
  | 36 => Some C_AccessPolicyUnsupported
  | 37 => Some C_Conflict
  | 38 => Some C_Unresolvable
  | 39 => Some C_WriterBusy
  | 40 => Some C_DirectoryIdentityMismatch
  | 41 => Some C_DestinationNameMismatch
  | 42 => Some C_CleanupConflict
  | 43 => Some C_CoordinationSequenceExhausted
  | 44 => Some C_LiveCoordinationUnsupported
  | 45 => Some C_LiveCoordinationCleanupRequired
  | 46 => Some C_LiveCoordinationMalformedRequiresReset
  | 47 => Some C_LiveOpenCleanupRequired
  | 48 => Some C_LiveRecoveryCoordinationUnavailable
  | 49 => Some C_LiveRecoveryCurrentGenerationUnprovable
  | 50 => Some C_LiveRecoveryCurrentGenerationUnreadable
  | 51 => Some C_RecoveryCandidateChanged
  | 52 => Some C_RecoveryPreparationFailed
  | 53 => Some C_SnapshotPreparationFailed
  | 54 => Some C_TransitionSuperseded
  | 55 => Some C_CurrentGenerationUnprovable
  | 56 => Some C_ForkedHandle
  | 57 => Some C_Panic
  | 58 => Some C_OsUnsupported
  | 59 => Some C_TransactionIdExhausted
  | 60 => Some C_ArithmeticOverflow
  | 61 => Some C_FeedIndexExhausted
  | 62 => Some C_MembershipIdExhausted
  | 63 => Some C_ReaderCapacityExhausted
  | 64 => Some C_CleanupInProgress
  | 65 => Some C_FaultWorkerUnavailable
  | 66 => Some C_FaultWorkerFailed
  | 67 => Some C_UnsupportedStructure
  | 68 => Some C_WrongStructureKind
  | 69 => Some C_StructureIdExhausted
  | _ => None
  end.

(** ** Problems of one meta page, and failures of opening a database *)

Inductive MetaProblem : Type :=
| MagicP | FixedValueP | ReservedP | TagP | DatabaseIdP | ChecksumP
| CommitNonceP | TransactionP | PageCountP | PhysicalLengthP | RootBoundsP
| KindInvariantP | CountInvariantP | MetadataInvariantP
| RetirementInvariantP | AllocatorReserveP.

Inductive BootstrapError : Type :=
| FileTooShort
| FileUnaligned
| HostAddressability
| StaticIdentityMismatch
| NoBootstrapMeta (meta0 meta1 : MetaProblem)
| TransactionGap
| PhysicalParity
| EqualTransactionDisagreement
| CurrentGenerationUnprovable
| ImmutableLengthMismatch
| UnsupportedStructureB (kind_code : Z).

#[global] Instance MetaProblem_eq_dec : EqDecision MetaProblem.
Proof. solve_decision. Defined.
#[global] Instance BootstrapError_eq_dec : EqDecision BootstrapError.
Proof. solve_decision. Defined.

(** ** One SDK failure

    [Io] keeps the raw OS code of the standard library's error; the payload of
    [Random] belongs to a third-party crate and is dropped. *)

Inductive Error : Type :=
| InvalidArgument (detail : string)
| NameInvalid
| NameExists
| NameNotFound
| StaleReference
| ForeignReference
| WrongState (detail : string)
| WrongMode (detail : string)
| WrongAddressFamily (detail : string)
| WrongValueKind (detail : string)
| WrongValueTag (detail : string)
| UnsupportedStructure (kind : Z)
| WrongStructureKind (detail : string)
| LiveCoordinationUnsupported
| Unsupported (detail : string)
| DurabilityUnsupported (detail : string)
| Io (os_code : option Z)
| Format (e : BootstrapError)
| Corrupt (detail : string)
| ArithmeticOverflow (detail : string)
| PageSpaceExhausted
| FeedIndexExhausted
| MembershipIdExhausted
| StructureIdExhausted
| BudgetExceeded (detail : string)
| WorkLimitTooSmall (required_pages : Z)
| BufferTooSmall (required : Z)
| Cancelled
| Random
| WriterBusy
| ReaderCapacityExhausted
| NoPendingTransaction
| TransactionAborted (cause : Error)
| CleanupIncomplete (cause : Error) (cleanup : Error)
| SinkFailed (cause : Error)
| StoppedBySink
| LiveRecoveryCoordinationUnavailable (cause : Error)
| LiveRecoveryCurrentGenerationUnprovable
| LiveRecoveryCurrentGenerationUnreadable
| RecoveryCandidateChanged
| DirectoryIdentityMismatch
| Conflict (detail : string)
| Unresolvable (detail : string)
| CleanupConflict (detail : string)
| CleanupInProgress (detail : string)
| ForkedHandle
| WorkerOperation (code : ErrorCode) (os_code : option Z).

(** [Error::code]. *)
Definition code (e : Error) : ErrorCode :=
  match e with
  | InvalidArgument _ => C_InvalidArgument
  | NameInvalid => C_NameInvalid
  | NameExists => C_NameExists
  | NameNotFound => C_NameNotFound
  | StaleReference => C_StaleReference
  | ForeignReference => C_ForeignReference
  | WrongState _ => C_WrongState
  | WrongMode _ => C_WrongState
  | WrongAddressFamily _ => C_WrongAddressFamily
  | WrongValueKind _ => C_WrongValueKind
  | WrongValueTag _ => C_WrongValueTag
  | UnsupportedStructure _ => C_UnsupportedStructure
  | WrongStructureKind _ => C_WrongStructureKind
  | LiveCoordinationUnsupported => C_LiveCoordinationUnsupported
  | Unsupported _ => C_OsUnsupported
  | DurabilityUnsupported _ => C_DurabilityUnsupported
  | Io _ => C_Io
  | Format _ => C_FormatInvalid
  | Corrupt _ => C_FormatInvalid
  | ArithmeticOverflow _ => C_ArithmeticOverflow
  | PageSpaceExhausted => C_PageSpaceExhausted
  | FeedIndexExhausted => C_FeedIndexExhausted
  | MembershipIdExhausted => C_MembershipIdExhausted
  | StructureIdExhausted => C_StructureIdExhausted
  | BudgetExceeded _ => C_InsufficientResourceBudget
  | WorkLimitTooSmall _ => C_WorkLimitTooSmall
  | BufferTooSmall _ => C_BufferTooSmall
  | Cancelled => C_Cancelled
  | Random => C_Io
  | WriterBusy => C_WriterBusy
  | ReaderCapacityExhausted => C_ReaderCapacityExhausted
  | NoPendingTransaction => C_NoPendingTransaction
  | TransactionAborted _ => C_TransactionAborted
  | CleanupIncomplete _ _ => C_CleanupInProgress
  | SinkFailed _ => C_SinkFailed
  | StoppedBySink => C_StoppedBySink
  | LiveRecoveryCoordinationUnavailable _ => C_LiveRecoveryCoordinationUnavailable
  | LiveRecoveryCurrentGenerationUnprovable => C_LiveRecoveryCurrentGenerationUnprovable
  | LiveRecoveryCurrentGenerationUnreadable => C_LiveRecoveryCurrentGenerationUnreadable
  | RecoveryCandidateChanged => C_RecoveryCandidateChanged
  | DirectoryIdentityMismatch => C_DirectoryIdentityMismatch
  | Conflict _ => C_Conflict
  | Unresolvable _ => C_Unresolvable
  | CleanupConflict _ => C_CleanupConflict
  | CleanupInProgress _ => C_CleanupInProgress
  | ForkedHandle => C_ForkedHandle
  | WorkerOperation c _ => c
  end.

(** [Error::residue_possible]. *)
Definition residue_possible (e : Error) : bool :=
  match e with CleanupIncomplete _ _ => true | _ => false end.

Abbreviation Result := (outcome Error).

(** [combine_errors] and [finish_with_cleanup]; a panic of the cleanup
    replaces the result, as unwinding does. *)
Definition combine_errors (cause : Error) (cleanup : Result unit) : Result Error :=
  match cleanup with
  | Ok _ => Ok cause
  | Err c => Ok (CleanupIncomplete cause c)
  | Panic s => Panic s
  end.

Definition finish_with_cleanup {T} (operation : Result T) (cleanup : Result unit) : Result T :=
  match operation with
  | Ok value => match cleanup with Ok _ => Ok value | Err c => Err c | Panic s => Panic s end
  | Err cause => e ← combine_errors cause cleanup; Err e
  | Panic s => Panic s
  end.

(** ** The numeric classes are a bijection with 1..69 *)

Lemma code_from_to_wire c : code_from_wire (code_to_wire c) = Some c.
Proof. destruct c; reflexivity. Qed.

Lemma code_to_wire_range c : 1 <= code_to_wire c <= 69.
Proof. destruct c; simpl; lia. Qed.

Lemma code_to_from_wire v c : code_from_wire v = Some c -> code_to_wire c = v.
Proof.
  intros H. destruct v as [|p|p]; try discriminate.
  do 7 (destruct p as [p|p|]; try discriminate H;
        try (injection H as <-; reflexivity)).
Qed.
