(* ===== verification/Bytes.v ===== *)
(** * Byte sources and mapped pages

    The checked byte views of [mapped_bytes.rs] ([ByteSource], [ByteRange],
    [PageMut]) and the little-endian field readers of [contract.rs].  A byte
    source is the list of its bytes; a mapped page is such a list of
    [PAGE_SIZE] bytes, and every mutation returns the new page.  The work
    counters ([crate::work]) do not influence any result and are left out. *)

From S2P Require Import Prelude Errors.
From stdpp Require Import base tactics numbers list strings.
From Stdlib Require Import ZArith Lia.

#[local] Open Scope string_scope.
#[local] Open Scope list_scope.
#[local] Open Scope Z_scope.

Definition PAGE_SIZE : Z := 4096.

(** ** [ByteSource] *)

(** [read_byte]: [byte] of a mapped view and of a slice. *)
Definition byte (s : list Z) (at_ : Z) : option Z :=
  if at_ <? zlen s then Some (bget s at_) else None.

(** [read_array::<N>]: [array] of a mapped view. *)
Definition array (n : Z) (s : list Z) (at_ : Z) : option (list Z) :=
  end_ ← checked_add usize_max at_ n;
  if zlen s <? end_ then None else Some (sub s at_ n).

(** [ByteSource::equals]. *)
Definition equals (s : list Z) (at_ : Z) (expected : list Z) : bool :=
  match checked_add usize_max at_ (zlen expected) with
  | Some end_ =>
      (end_ <=? zlen s) &&
      forallb (fun i => match byte s (at_ + Z.of_nat i) with
                        | Some b => b =? bget expected (Z.of_nat i)
                        | None => false
                        end) (seq 0 (length expected))
  | None => false
  end.

(** [pointer_all_zero]: words of eight bytes first, then the tail bytes. *)
Fixpoint pointer_all_zero (bs : list Z) : bool :=
  match bs with
  | b0 :: b1 :: b2 :: b3 :: b4 :: b5 :: b6 :: b7 :: rest =>
      if le_val [b0; b1; b2; b3; b4; b5; b6; b7] =? 0
      then pointer_all_zero rest else false
  | _ => forallb (fun b => b =? 0) bs
  end.

(** [ByteSource::all_zero] of a contiguous source ... *)
Definition all_zero (s : list Z) (at_ len : Z) : bool :=
  match checked_add usize_max at_ len with
  | Some end_ => if zlen s <? end_ then false else pointer_all_zero (sub s at_ len)
  | None => false
  end.

(** ... and of a source without a contiguous pointer: byte by byte. *)
Definition all_zero_bytewise (s : list Z) (at_ len : Z) : bool :=
  match checked_add usize_max at_ len with
  | Some end_ =>
      if zlen s <? end_ then false
      else forallb (fun i => match byte s (at_ + Z.of_nat i) with
                             | Some b => b =? 0 | None => false end)
             (seq 0 (Z.to_nat len))
  | None => false
  end.

(** [ByteSource::same]. *)
Definition same (s other : list Z) (at_ len : Z) : bool :=
  match checked_add usize_max at_ len with
  | Some end_ =>
      (end_ <=? zlen s) && (end_ <=? zlen other) &&
      forallb (fun i => bool_decide (byte s (at_ + Z.of_nat i) = byte other (at_ + Z.of_nat i)))
        (seq 0 (Z.to_nat len))
  | None => false
  end.

(** ** [ByteRange]: a checked subrange of a source *)

Record ByteRange := mkByteRange {
  br_source : list Z;
  br_at : Z;
  br_len : Z;
}.

Definition byte_range_new (source : list Z) (at_ len : Z) : option ByteRange :=
  end_ ← checked_add usize_max at_ len;
  if zlen source <? end_ then None
  else if u32_max <? at_ then None
  else if u32_max <? len then None
  else Some (mkByteRange source at_ len).

(** The bytes a range names; its [byte] and [array] are those of this list. *)
Definition br_bytes (r : ByteRange) : list Z := sub (br_source r) (br_at r) (br_len r).

Definition br_byte (r : ByteRange) (at_ : Z) : option Z :=
  if at_ <? br_len r then
    index ← checked_add usize_max (br_at r) at_; byte (br_source r) index
  else None.

Definition br_array (n : Z) (r : ByteRange) (at_ : Z) : option (list Z) :=
  end_ ← checked_add usize_max at_ n;
  if br_len r <? end_ then None else Some (sub (br_source r) (br_at r + at_) n).

(** ** Little-endian fields *)

Definition u16_source (s : list Z) (at_ : Z) : option Z := le_val <$> array 2 s at_.
Definition u32_source (s : list Z) (at_ : Z) : option Z := le_val <$> array 4 s at_.
Definition u64_source (s : list Z) (at_ : Z) : option Z := le_val <$> array 8 s at_.

Definition u16_le {E} (s : list Z) (at_ : Z) : outcome E Z :=
  expect (u16_source s at_) "validated u16 field".
Definition u32_le {E} (s : list Z) (at_ : Z) : outcome E Z :=
  expect (u32_source s at_) "validated u32 field".
Definition u64_le {E} (s : list Z) (at_ : Z) : outcome E Z :=
  expect (u64_source s at_) "validated u64 field".

(** [value as u16], [value as u8]. *)
Definition as_u16 (v : Z) : Z := v mod 65536.
Definition as_u8 (v : Z) : Z := v mod 256.
Definition as_u32 (v : Z) : Z := v mod 4294967296.

(** ** [PageMut] *)

Definition checked_subrange (at_ len extent : Z) : Result Z :=
  match checked_add usize_max at_ len with
  | Some end_ => if end_ <=? extent then Ok len
                 else Err (ArithmeticOverflow "mapped byte range")
  | None => Err (ArithmeticOverflow "mapped byte range")
  end.

Definition page_fill (value : Z) : list Z := replicate (Z.to_nat PAGE_SIZE) value.

Definition page_write (p : list Z) (at_ : Z) (bytes : list Z) : Result (list Z) :=
  _ ← checked_subrange at_ (zlen bytes) PAGE_SIZE;
  Ok (splice p at_ bytes).

(** [write_source]: the source of every call is another byte source, never
    the page itself, and its own range check [0..len] always holds. *)
Definition page_write_source (p : list Z) (at_ : Z) (bytes : list Z) : Result (list Z) :=
  len ← checked_subrange at_ (zlen bytes) PAGE_SIZE;
  if len <=? zlen bytes then Ok (splice p at_ (sub bytes 0 len))
  else Err (Corrupt "mapped source changed while copying").

Definition page_zero (p : list Z) (at_ len : Z) : Result (list Z) :=
  len ← checked_subrange at_ len PAGE_SIZE;
  Ok (splice p at_ (replicate (Z.to_nat len) 0)).

(** [copy_within] is a [memmove]: the source bytes are read before any write. *)
Definition copy_within (p : list Z) (source_at destination_at len : Z) : Result (list Z) :=
  _ ← checked_subrange source_at len PAGE_SIZE;
  _ ← checked_subrange destination_at len PAGE_SIZE;
  Ok (splice p destination_at (sub p source_at len)).

Definition set_byte (p : list Z) (at_ value : Z) : Result (list Z) :=
  _ ← checked_subrange at_ 1 PAGE_SIZE;
  Ok (splice p at_ [value]).

Definition put_u16 (p : list Z) (at_ value : Z) : Result (list Z) :=
  page_write p at_ (le_bytes 2 value).
Definition put_u32 (p : list Z) (at_ value : Z) : Result (list Z) :=
  page_write p at_ (le_bytes 4 value).
Definition put_u64 (p : list Z) (at_ value : Z) : Result (list Z) :=
  page_write p at_ (le_bytes 8 value).

(** ** Specification view: a well-formed page and its fields *)

Definition page_ok (p : list Z) : Prop := zlen p = PAGE_SIZE /\ bytes_ok p.

Definition u16_at (p : list Z) (at_ : Z) : Z := le_val (sub p at_ 2).
Definition u32_at (p : list Z) (at_ : Z) : Z := le_val (sub p at_ 4).
Definition u64_at (p : list Z) (at_ : Z) : Z := le_val (sub p at_ 8).

(** ** Lemmas *)

Lemma array_Some n s a :
  0 <= a -> 0 <= n -> a + n <= zlen s -> zlen s <= usize_max ->
  array n s a = Some (sub s a n).
Proof.
  intros. unfold array, checked_add. zcase. cbn [mbind option_bind]. zcase.
Qed.

Lemma array_length n s a l :
  0 <= a -> 0 <= n -> array n s a = Some l -> l = sub s a n /\ a + n <= zlen s.
Proof.
  unfold array, checked_add. intros Ha Hn H.
  destruct (Z.leb_spec (a + n) usize_max); simpl in H; [| discriminate].
  destruct (Z.ltb_spec (zlen s) (a + n)); [discriminate |].
  injection H as <-. split; [done | lia].
Qed.

Lemma page_lt_usize (p : list Z) : zlen p = PAGE_SIZE -> zlen p <= usize_max.
Proof. intros ->. unfold PAGE_SIZE, usize_max, u64_max. lia. Qed.
#[export] Hint Resolve page_lt_usize : v4.

Section PageLemmas.
Context (p : list Z) (Hp : zlen p = PAGE_SIZE).

Lemma u16_source_page a : 0 <= a -> a + 2 <= PAGE_SIZE -> u16_source p a = Some (u16_at p a).
Proof using Hp. intros. unfold u16_source. rewrite array_Some; v4lia. Qed.
Lemma u32_source_page a : 0 <= a -> a + 4 <= PAGE_SIZE -> u32_source p a = Some (u32_at p a).
Proof using Hp. intros. unfold u32_source. rewrite array_Some; v4lia. Qed.
Lemma u64_source_page a : 0 <= a -> a + 8 <= PAGE_SIZE -> u64_source p a = Some (u64_at p a).
Proof using Hp. intros. unfold u64_source. rewrite array_Some; v4lia. Qed.

Lemma u16_le_page {E} a : 0 <= a -> a + 2 <= PAGE_SIZE -> @u16_le E p a = Ok (u16_at p a).
Proof using Hp. intros. unfold u16_le. by rewrite u16_source_page. Qed.
Lemma u32_le_page {E} a : 0 <= a -> a + 4 <= PAGE_SIZE -> @u32_le E p a = Ok (u32_at p a).
Proof using Hp. intros. unfold u32_le. by rewrite u32_source_page. Qed.
Lemma u64_le_page {E} a : 0 <= a -> a + 8 <= PAGE_SIZE -> @u64_le E p a = Ok (u64_at p a).
Proof using Hp. intros. unfold u64_le. by rewrite u64_source_page. Qed.
End PageLemmas.

Lemma checked_subrange_ok a n : 
  0 <= a -> 0 <= n -> a + n <= PAGE_SIZE -> checked_subrange a n PAGE_SIZE = Ok n.
Proof.
  intros. unfold checked_subrange, checked_add.
  assert (a + n <= usize_max) by (unfold PAGE_SIZE, usize_max, u64_max in *; lia).
  zcase.
Qed.

Lemma checked_subrange_Ok_inv a n e r :
  checked_subrange a n e = Ok r -> r = n /\ a + n <= e.
Proof.
  unfold checked_subrange, checked_add.
  destruct (Z.leb_spec (a + n) usize_max); [| discriminate].
  destruct (Z.leb_spec (a + n) e); [| discriminate]. intros [= <-]. split; [done | lia].
Qed.

Lemma page_write_ok p a bs :
  0 <= a -> a + zlen bs <= PAGE_SIZE -> page_write p a bs = Ok (splice p a bs).
Proof.
  intros. unfold page_write. pose proof (zlen_nonneg bs).
  by rewrite checked_subrange_ok by lia.
Qed.

Lemma page_write_source_ok p a bs :
  0 <= a -> a + zlen bs <= PAGE_SIZE -> page_write_source p a bs = Ok (splice p a bs).
Proof.
  intros. unfold page_write_source. pose proof (zlen_nonneg bs).
  rewrite checked_subrange_ok by lia. simpl.
  rewrite sub_full. destruct (Z.leb_spec (zlen bs) (zlen bs)); [done | lia].
Qed.

Lemma page_zero_ok p a n :
  0 <= a -> 0 <= n -> a + n <= PAGE_SIZE ->
  page_zero p a n = Ok (splice p a (replicate (Z.to_nat n) 0)).
Proof. intros. unfold page_zero. by rewrite checked_subrange_ok by lia. Qed.

Lemma copy_within_ok p a b n :
  0 <= a -> 0 <= b -> 0 <= n -> a + n <= PAGE_SIZE -> b + n <= PAGE_SIZE ->
  copy_within p a b n = Ok (splice p b (sub p a n)).
Proof. intros. unfold copy_within. by rewrite !checked_subrange_ok by lia. Qed.

Lemma set_byte_ok p a v :
  0 <= a -> a + 1 <= PAGE_SIZE -> set_byte p a v = Ok (splice p a [v]).
Proof. intros. unfold set_byte. by rewrite checked_subrange_ok by lia. Qed.

Lemma put_u16_ok p a v :
  0 <= a -> a + 2 <= PAGE_SIZE -> put_u16 p a v = Ok (splice p a (le_bytes 2 v)).
Proof. intros. unfold put_u16. apply page_write_ok; zlen_simp; lia. Qed.
Lemma put_u32_ok p a v :
  0 <= a -> a + 4 <= PAGE_SIZE -> put_u32 p a v = Ok (splice p a (le_bytes 4 v)).
Proof. intros. unfold put_u32. apply page_write_ok; zlen_simp; lia. Qed.
Lemma put_u64_ok p a v :
  0 <= a -> a + 8 <= PAGE_SIZE -> put_u64 p a v = Ok (splice p a (le_bytes 8 v)).
Proof. intros. unfold put_u64. apply page_write_ok; zlen_simp; lia. Qed.

Lemma page_ok_splice p a bs :
  page_ok p -> bytes_ok bs -> 0 <= a -> a + zlen bs <= PAGE_SIZE -> page_ok (splice p a bs).
Proof.
  intros [Hl Hb] Hbs Ha Hlen. split; [rewrite zlen_splice; lia | auto with v4].
Qed.

(** The word loop decides the same predicate as the byte loop. *)
Lemma le_val_zero bs : bytes_ok bs -> (le_val bs =? 0) = forallb (fun b => b =? 0) bs.
Proof.
  induction bs as [|b bs IH]; intros Hbs; [done |].
  inversion Hbs as [|? ? Hb Hbs']; subst. specialize (IH Hbs').
  pose proof (le_val_range bs Hbs'). unfold is_byte in Hb.
  cbn [le_val forallb]. rewrite <- IH.
  destruct (Z.eqb_spec b 0), (Z.eqb_spec (le_val bs) 0), (Z.eqb_spec (b + 256 * le_val bs) 0);
    simpl; lia.
Qed.

Lemma pointer_all_zero_spec bs :
  bytes_ok bs -> pointer_all_zero bs = forallb (fun b => b =? 0) bs.
Proof.
  remember (length bs) as n eqn:Hn.
  revert bs Hn. induction n as [n IH] using lt_wf_ind; intros bs Hn Hbs.
  do 8 (destruct bs as [|? bs]; [reflexivity |]).
  cbn [pointer_all_zero].
  rewrite le_val_zero by (unfold bytes_ok in *; do 8 (apply Forall_cons; split; [by inversion Hbs |
    inversion Hbs; subst; clear Hbs; rename select (Forall is_byte _) into Hbs]); constructor).
  rewrite (IH (length bs)).
  - cbn [forallb]. rewrite !andb_assoc, andb_true_r.
    by destruct (_ && _).
  - subst n. simpl. lia.
  - done.
  - unfold bytes_ok in *. do 8 apply Forall_inv_tail in Hbs. done.
Qed.

(** ** Wire enums of the v4 contract

    The small enums of [contract.rs] with their wire codes: address family,
    value kind, structure kind, and the two semantic enums of the public API. *)

Inductive AddressFamily : Type := Ipv4 | Ipv6.

Definition family_to_wire (f : AddressFamily) : Z :=
  match f with Ipv4 => 4 | Ipv6 => 6 end.

Definition family_from_wire (value : Z) : option AddressFamily :=
  match value with
  | 4 => Some Ipv4
  | 6 => Some Ipv6
  | _ => None
  end.

Inductive ValueKind : Type := Direct | Membership | Structured.

Definition value_kind_to_wire (k : ValueKind) : Z :=
  match k with Direct => 1 | Membership => 2 | Structured => 3 end.

Definition value_kind_from_wire (value : Z) : option ValueKind :=
  match value with
  | 1 => Some Direct
  | 2 => Some Membership
  | 3 => Some Structured
  | _ => None
  end.

Inductive StructureKind : Type := NoStructure | NetworkEnrichmentV1.

Definition structure_kind_from_wire (value : Z) : option StructureKind :=
  match value with
  | 0 => Some NoStructure
  | 1 => Some NetworkEnrichmentV1
  | _ => None
  end.

Inductive DirectSemantic : Type := Generic | FirstSeen | LastSeen.

#[global] Instance AddressFamily_eq_dec : EqDecision AddressFamily.
Proof. solve_decision. Defined.
#[global] Instance ValueKind_eq_dec : EqDecision ValueKind.
Proof. solve_decision. Defined.

Lemma family_from_to f : family_from_wire (family_to_wire f) = Some f.
Proof. by destruct f. Qed.
Lemma value_kind_from_to k : value_kind_from_wire (value_kind_to_wire k) = Some k.
Proof. by destruct k. Qed.
