(* ===== verification/Cardinality.v ===== *)
(** * Exact 129-bit address counts

    [cardinality.rs]: [Cardinality129] is a value of [0 .. 2^129 - 1] kept as
    one bit and two 64-bit limbs.  Every operation is written limb by limb as in
    the source; the theorems relate it to arithmetic on [Z] through [val]. *)

From S2P Require Import Prelude.
From stdpp Require Import base tactics numbers list strings.
From Stdlib Require Import ZArith Lia.

#[local] Open Scope string_scope.
#[local] Open Scope list_scope.
#[local] Open Scope Z_scope.

Record Cardinality129 := mkCard { bit128 : Z; c_hi : Z; c_lo : Z }.

(** The error type [CardinalityOverflow], a unit struct. *)
Inductive CardinalityOverflow : Type := cardinality_overflow.

Abbreviation card_result := (outcome CardinalityOverflow).

Definition card_zero : Cardinality129 := mkCard 0 0 0.
Definition FULL_IPV6_SPACE : Cardinality129 := mkCard 1 0 0.

Definition try_new (b hi lo : Z) : option Cardinality129 :=
  if b <=? 1 then Some (mkCard b hi lo) else None.

Definition from_u64 (value : Z) : Cardinality129 := mkCard 0 0 value.

Definition from_u128 (value : Z) : Cardinality129 :=
  mkCard 0 (Z.shiftr value 64 mod 2 ^ 64) (value mod 2 ^ 64).

Definition card_checked_add (a b : Cardinality129) : card_result Cardinality129 :=
  let '(lo, carry_lo) := overflowing_add 64 (c_lo a) (c_lo b) in
  let '(hi0, carry_hi0) := overflowing_add 64 (c_hi a) (c_hi b) in
  let '(hi, carry_hi1) := overflowing_add 64 hi0 (b2z carry_lo) in
  let top := bit128 a + bit128 b + b2z carry_hi0 + b2z carry_hi1 in
  if 1 <? top then Err cardinality_overflow
  else Ok (mkCard top hi lo).

(** The derived lexicographic [<] on [(bit128, hi, lo)]. *)
Definition card_ltb (a b : Cardinality129) : bool :=
  (bit128 a <? bit128 b) ||
  ((bit128 a =? bit128 b) &&
   ((c_hi a <? c_hi b) || ((c_hi a =? c_hi b) && (c_lo a <? c_lo b)))).

Definition card_checked_sub (a b : Cardinality129) : card_result Cardinality129 :=
  if card_ltb a b then Err cardinality_overflow
  else
    let '(lo, borrow_lo) := overflowing_sub 64 (c_lo a) (c_lo b) in
    let '(hi0, borrow_hi0) := overflowing_sub 64 (c_hi a) (c_hi b) in
    let '(hi, borrow_hi1) := overflowing_sub 64 hi0 (b2z borrow_lo) in
    let borrow := b2z borrow_hi0 + b2z borrow_hi1 in
    top ← ok_or (v ← checked_sub (bit128 a) (bit128 b); checked_sub v borrow)
            cardinality_overflow;
    Ok (mkCard top hi lo).

Definition ipv4_inclusive (from to : Z) : card_result Cardinality129 :=
  if to <? from then Err cardinality_overflow
  else Ok (from_u64 (to - from + 1)).

Definition ipv6_inclusive (from_hi from_lo to_hi to_lo : Z) : card_result Cardinality129 :=
  if (to_hi <? from_hi) || ((to_hi =? from_hi) && (to_lo <? from_lo))
  then Err cardinality_overflow
  else
    let '(lo, borrow) := overflowing_sub 64 to_lo from_lo in
    hi ← ok_or (v ← checked_sub to_hi from_hi; checked_sub v (b2z borrow))
           cardinality_overflow;
    card_checked_add (mkCard 0 hi lo) (from_u64 1).

(** [u128::try_from] and [u64::try_from]. *)
Definition card_to_u128 (c : Cardinality129) : card_result Z :=
  if negb (bit128 c =? 0) then Err cardinality_overflow
  else Ok (Z.lor (Z.shiftl (c_hi c) 64) (c_lo c)).

Definition card_to_u64 (c : Cardinality129) : card_result Z :=
  if negb (bit128 c =? 0) || negb (c_hi c =? 0) then Err cardinality_overflow
  else Ok (c_lo c).

(** One pass of [Display::fmt]: divide the three limbs by ten, top limb
    first, and keep the remainder. *)
Definition divide_limb (remainder limb : Z) : Z * Z :=
  let dividend := Z.lor (Z.shiftl remainder 64) limb in
  ((dividend / 10) mod 2 ^ 64, dividend mod 10).

Definition divide_limbs (lo hi top : Z) : Z * Z * Z * Z :=
  let '(top', r2) := divide_limb 0 top in
  let '(hi', r1) := divide_limb r2 hi in
  let '(lo', r0) := divide_limb r1 lo in
  (lo', hi', top', r0).

(** The [while] loop; [slots] is the unused tail of the 40-byte digit buffer,
    and storing past its end is an index panic. *)
Fixpoint fmt_loop (slots : nat) (lo hi top : Z) (digits : list Z) : outcome unit (list Z) :=
  if (lo =? 0) && (hi =? 0) && (top =? 0) then Ok digits
  else match slots with
       | O => Panic "index out of bounds"
       | S slots' =>
           let '(lo', hi', top', r) := divide_limbs lo hi top in
           fmt_loop slots' lo' hi' top' ((48 + r) :: digits)
       end.

(** [Display::fmt], the ASCII bytes written; [digits] is already in output
    order because the model conses where the source appends and reverses. *)
Definition card_fmt (c : Cardinality129) : outcome unit (list Z) :=
  if (c_lo c =? 0) && (c_hi c =? 0) && (bit128 c =? 0) then Ok [48]
  else fmt_loop 40 (c_lo c) (c_hi c) (bit128 c) [].

(** ** Specification *)

Definition val (c : Cardinality129) : Z := bit128 c * 2 ^ 128 + c_hi c * 2 ^ 64 + c_lo c.

Definition card_ok (c : Cardinality129) : Prop :=
  0 <= bit128 c <= 1 /\ 0 <= c_hi c < 2 ^ 64 /\ 0 <= c_lo c < 2 ^ 64.

(** The number an ASCII digit string denotes. *)
Definition decimal_value (ds : list Z) : Z :=
  fold_left (fun acc d => acc * 10 + (d - 48)) ds 0.

Definition ascii_digit (d : Z) : Prop := 48 <= d <= 57.

(** ** Lemmas *)

Ltac limbs := unfold card_ok, val in *; cbn [bit128 c_hi c_lo] in *;
  change (2 ^ 128) with 340282366920938463463374607431768211456 in *;
  change (2 ^ 129) with 680564733841876926926749214863536422912 in *;
  change (2 ^ 64) with 18446744073709551616 in *.

Lemma val_range c : card_ok c -> 0 <= val c < 2 ^ 129.
Proof. intros; limbs; lia. Qed.

Lemma val_inj a b : card_ok a -> card_ok b -> val a = val b -> a = b.
Proof.
  destruct a, b. intros. limbs. f_equal; lia.
Qed.

Lemma card_ltb_spec a b : card_ok a -> card_ok b -> card_ltb a b = (val a <? val b).
Proof.
  intros. unfold card_ltb. limbs. zcase.
Qed.

Lemma card_checked_add_spec a b :
  card_ok a -> card_ok b ->
  if val a + val b <? 2 ^ 129
  then exists c, card_checked_add a b = Ok c /\ card_ok c /\ val c = val a + val b
  else card_checked_add a b = Err cardinality_overflow.
Proof.
  intros Ha Hb. unfold card_checked_add.
  destruct (overflowing_add 64 (c_lo a) (c_lo b)) as [lo k0] eqn:E0.
  destruct (overflowing_add 64 (c_hi a) (c_hi b)) as [hi0 k1] eqn:E1.
  destruct (overflowing_add 64 hi0 (b2z k0)) as [hi k2] eqn:E2.
  pose proof (overflowing_add_spec 64 (c_lo a) (c_lo b)) as L0.
  pose proof (overflowing_add_spec 64 (c_hi a) (c_hi b)) as L1.
  pose proof (overflowing_add_spec 64 hi0 (b2z k0)) as L2.
  rewrite E0 in L0; rewrite E1 in L1; rewrite E2 in L2. cbn [fst snd] in *.
  destruct Ha as (? & ? & ?), Hb as (? & ? & ?).
  destruct L0 as [L0 ?]; [lia..|]. destruct L1 as [L1 ?]; [lia..|].
  destruct L2 as [L2 ?]; [destruct k0; simpl; lia..|].
  destruct (Z.ltb_spec (val a + val b) (2 ^ 129));
    destruct (Z.ltb_spec 1 (bit128 a + bit128 b + b2z k1 + b2z k2));
    limbs; destruct k0, k1, k2; unfold b2z in *; try lia; try reflexivity;
    (eexists; split; [reflexivity |]; limbs; lia).
Qed.

Lemma card_checked_sub_spec a b :
  card_ok a -> card_ok b ->
  if val b <=? val a
  then exists c, card_checked_sub a b = Ok c /\ card_ok c /\ val c = val a - val b
  else card_checked_sub a b = Err cardinality_overflow.
Proof.
  intros Ha Hb. unfold card_checked_sub. rewrite card_ltb_spec by done.
  destruct (Z.leb_spec (val b) (val a)), (Z.ltb_spec (val a) (val b)); try lia; [| done].
  destruct (overflowing_sub 64 (c_lo a) (c_lo b)) as [lo k0] eqn:E0.
  destruct (overflowing_sub 64 (c_hi a) (c_hi b)) as [hi0 k1] eqn:E1.
  destruct (overflowing_sub 64 hi0 (b2z k0)) as [hi k2] eqn:E2.
  pose proof (overflowing_sub_spec 64 (c_lo a) (c_lo b)) as L0.
  pose proof (overflowing_sub_spec 64 (c_hi a) (c_hi b)) as L1.
  pose proof (overflowing_sub_spec 64 hi0 (b2z k0)) as L2.
  rewrite E0 in L0; rewrite E1 in L1; rewrite E2 in L2. cbn [fst snd] in *.
  destruct Ha as (? & ? & ?), Hb as (? & ? & ?).
  destruct L0 as [L0 ?]; [lia..|]. destruct L1 as [L1 ?]; [lia..|].
  destruct L2 as [L2 ?]; [destruct k0; simpl; lia..|].
  unfold checked_sub.
  destruct (Z.leb_spec (bit128 b) (bit128 a)); cbn [mbind option_bind].
  2: limbs; destruct k0, k1, k2; unfold b2z in *; lia.
  destruct (Z.leb_spec (b2z k1 + b2z k2) (bit128 a - bit128 b)); cbn [ok_or].
  2: limbs; destruct k0, k1, k2; unfold b2z in *; lia.
  eexists; split; [reflexivity |].
  limbs; destruct k0, k1, k2; unfold b2z in *; lia.
Qed.

Lemma card_to_u128_spec c :
  card_ok c ->
  if val c <? 2 ^ 128 then card_to_u128 c = Ok (val c)
  else card_to_u128 c = Err cardinality_overflow.
Proof.
  intros Hc. unfold card_to_u128. destruct Hc as (? & ? & ?).
  rewrite lor_shiftl_add by lia.
  destruct (Z.ltb_spec (val c) (2 ^ 128)), (Z.eqb_spec (bit128 c) 0);
    cbn [negb]; limbs; try lia; try done. f_equal. lia.
Qed.

Lemma card_to_u64_spec c :
  card_ok c ->
  if val c <? 2 ^ 64 then card_to_u64 c = Ok (val c)
  else card_to_u64 c = Err cardinality_overflow.
Proof.
  intros Hc. unfold card_to_u64. destruct Hc as (? & ? & ?).
  destruct (Z.ltb_spec (val c) (2 ^ 64)), (Z.eqb_spec (bit128 c) 0), (Z.eqb_spec (c_hi c) 0);
    cbn [negb orb]; limbs; try lia; try done. f_equal. lia.
Qed.

Lemma from_u64_spec v : 0 <= v < 2 ^ 64 -> card_ok (from_u64 v) /\ val (from_u64 v) = v.
Proof. intros. unfold from_u64. limbs. lia. Qed.

Lemma from_u128_spec v : 0 <= v < 2 ^ 128 -> card_ok (from_u128 v) /\ val (from_u128 v) = v.
Proof.
  intros Hv. unfold from_u128. rewrite Z.shiftr_div_pow2 by lia.
  pose proof (Z.div_mod v (2 ^ 64) ltac:(lia)).
  pose proof (Z.mod_pos_bound v (2 ^ 64) ltac:(lia)).
  assert (0 <= v / 2 ^ 64 < 2 ^ 64).
  { split; [apply Z.div_pos; lia | apply Z.div_lt_upper_bound; lia]. }
  rewrite (Z.mod_small (v / 2 ^ 64)) by lia.
  limbs. lia.
Qed.

Lemma ipv4_inclusive_spec from to :
  0 <= from <= u32_max -> 0 <= to <= u32_max ->
  if from <=? to
  then exists c, ipv4_inclusive from to = Ok c /\ card_ok c /\ val c = to - from + 1
  else ipv4_inclusive from to = Err cardinality_overflow.
Proof.
  intros. unfold ipv4_inclusive, u32_max in *.
  destruct (Z.leb_spec from to), (Z.ltb_spec to from); try lia; [| done].
  eexists; split; [reflexivity |]. apply from_u64_spec. lia.
Qed.

Definition join64 (hi lo : Z) : Z := hi * 2 ^ 64 + lo.

Lemma ipv6_inclusive_spec fh fl th tl :
  0 <= fh < 2 ^ 64 -> 0 <= fl < 2 ^ 64 -> 0 <= th < 2 ^ 64 -> 0 <= tl < 2 ^ 64 ->
  if join64 fh fl <=? join64 th tl
  then exists c, ipv6_inclusive fh fl th tl = Ok c /\ card_ok c
                 /\ val c = join64 th tl - join64 fh fl + 1
  else ipv6_inclusive fh fl th tl = Err cardinality_overflow.
Proof.
  intros Hfh Hfl Hth Htl. unfold ipv6_inclusive, join64.
  destruct (overflowing_sub 64 tl fl) as [lo k] eqn:E0.
  pose proof (overflowing_sub_spec 64 tl fl) as L0.
  rewrite E0 in L0. cbn [fst snd] in *. destruct L0 as [L0 ?]; [lia..|].
  destruct (Z.leb_spec (fh * 2 ^ 64 + fl) (th * 2 ^ 64 + tl)).
  - assert (Hn : (th <? fh) || ((th =? fh) && (tl <? fl)) = false) by zcase.
    rewrite Hn. unfold checked_sub.
    destruct (Z.leb_spec fh th); cbn [mbind option_bind]; [| limbs; lia].
    destruct (Z.leb_spec (b2z k) (th - fh)); cbn [ok_or];
      [| limbs; destruct k; unfold b2z in *; lia].
    cbn [mbind outcome_bind].
    pose proof (card_checked_add_spec (mkCard 0 (th - fh - b2z k) lo) (from_u64 1)) as Hadd.
    specialize (Hadd ltac:(limbs; destruct k; unfold b2z in *; lia)
                     ltac:(unfold from_u64; limbs; lia)).
    rewrite (proj2 (Z.ltb_lt _ _)) in Hadd
      by (unfold from_u64; limbs; destruct k; unfold b2z in *; lia).
    destruct Hadd as (c & -> & Hok & Hv). exists c. split; [done |]. split; [done |].
    rewrite Hv. unfold from_u64. limbs. destruct k; unfold b2z in *; lia.
  - assert (Hn : (th <? fh) || ((th =? fh) && (tl <? fl)) = true) by (limbs; zcase).
    by rewrite Hn.
Qed.

(** ** Decimal output *)

Lemma divide_limb_spec r limb :
  0 <= r < 10 -> 0 <= limb < 2 ^ 64 ->
  let '(q, r') := divide_limb r limb in
  0 <= q < 2 ^ 64 /\ 0 <= r' < 10 /\ r * 2 ^ 64 + limb = q * 10 + r'.
Proof.
  intros Hr Hl. unfold divide_limb. rewrite lor_shiftl_add by lia.
  pose proof (Z.div_mod (r * 2 ^ 64 + limb) 10 ltac:(lia)).
  pose proof (Z.mod_pos_bound (r * 2 ^ 64 + limb) 10 ltac:(lia)).
  rewrite Z.mod_small; [lia |].
  split; [apply Z.div_pos; lia | apply Z.div_lt_upper_bound; lia].
Qed.

Lemma divide_limbs_spec lo hi top :
  0 <= lo < 2 ^ 64 -> 0 <= hi < 2 ^ 64 -> 0 <= top < 2 ^ 64 ->
  let '(lo', hi', top', r) := divide_limbs lo hi top in
  0 <= lo' < 2 ^ 64 /\ 0 <= hi' < 2 ^ 64 /\ 0 <= top' < 2 ^ 64 /\ 0 <= r < 10 /\
  top * 2 ^ 128 + hi * 2 ^ 64 + lo = (top' * 2 ^ 128 + hi' * 2 ^ 64 + lo') * 10 + r.
Proof.
  intros. unfold divide_limbs.
  pose proof (divide_limb_spec 0 top ltac:(lia) ltac:(lia)) as D2.
  destruct (divide_limb 0 top) as [top' r2].
  pose proof (divide_limb_spec r2 hi ltac:(lia) ltac:(lia)) as D1.
  destruct (divide_limb r2 hi) as [hi' r1].
  pose proof (divide_limb_spec r1 lo ltac:(lia) ltac:(lia)) as D0.
  destruct (divide_limb r1 lo) as [lo' r0].
  limbs. lia.
Qed.

Lemma decimal_value_acc ds acc :
  fold_left (fun a d => a * 10 + (d - 48)) ds acc = acc * 10 ^ zlen ds + decimal_value ds.
Proof.
  revert acc. unfold decimal_value. induction ds as [|d ds IH]; intros acc.
  - unfold zlen; simpl. lia.
  - cbn [fold_left]. rewrite IH, (IH (0 * 10 + (d - 48))), zlen_cons.
    rewrite Z.pow_add_r by (unfold zlen; lia). lia.
Qed.

Lemma decimal_value_cons d ds :
  decimal_value (d :: ds) = (d - 48) * 10 ^ zlen ds + decimal_value ds.
Proof.
  unfold decimal_value at 1. cbn [fold_left]. rewrite decimal_value_acc. lia.
Qed.

(** Enough free slots and the loop writes the digits of the limbs in front of
    the digits already there. *)
Lemma fmt_loop_spec slots : forall lo hi top ds,
  0 <= lo < 2 ^ 64 -> 0 <= hi < 2 ^ 64 -> 0 <= top < 2 ^ 64 ->
  top * 2 ^ 128 + hi * 2 ^ 64 + lo < 10 ^ Z.of_nat slots ->
  Forall ascii_digit ds ->
  exists ds', fmt_loop slots lo hi top ds = Ok (ds' ++ ds)
    /\ Forall ascii_digit ds'
    /\ decimal_value ds' = top * 2 ^ 128 + hi * 2 ^ 64 + lo
    /\ (forall d rest, ds' = d :: rest -> d <> 48).
Proof.
  induction slots as [|slots IH]; intros lo hi top ds Hlo Hhi Htop Hlt Hds.
  - simpl in Hlt. assert (lo = 0 /\ hi = 0 /\ top = 0) as (-> & -> & ->) by (limbs; lia).
    exists []. simpl. repeat split; done.
  - cbn [fmt_loop].
    destruct ((lo =? 0) && (hi =? 0) && (top =? 0)) eqn:Hz.
    + zb. subst. exists []. simpl. repeat split; done.
    + pose proof (divide_limbs_spec lo hi top Hlo Hhi Htop) as D.
      destruct (divide_limbs lo hi top) as [[[lo' hi'] top'] r].
      destruct D as (? & ? & ? & ? & Hdiv).
      set (v := top * 2 ^ 128 + hi * 2 ^ 64 + lo) in *.
      set (v' := top' * 2 ^ 128 + hi' * 2 ^ 64 + lo') in *.
      rewrite Nat2Z.inj_succ, Z.pow_succ_r in Hlt by lia.
      destruct (IH lo' hi' top' ((48 + r) :: ds)) as (ds' & Hrun & Hdig & Hval & Hlead);
        [lia..| |].
      { constructor; [unfold ascii_digit; lia | done]. }
      exists (ds' ++ [48 + r]). rewrite Hrun, <- app_assoc. split; [done |].
      split; [apply Forall_app; split; [done | constructor; [unfold ascii_digit; lia | done]] |].
      split.
      * unfold decimal_value. rewrite fold_left_app. fold (decimal_value ds'). simpl. lia.
      * intros d rest Hd. destruct ds' as [|d' ds''].
        -- simpl in Hd. injection Hd as <- <-.
           unfold decimal_value in Hval. simpl in Hval.
           intros Hr. apply not_true_iff_false in Hz. apply Hz.
           assert (lo = 0 /\ hi = 0 /\ top = 0) as (-> & -> & ->) by (subst v v'; limbs; lia).
           done.
        -- simpl in Hd. injection Hd as <- _. by apply (Hlead d' ds'').
Qed.

Lemma card_fmt_spec c :
  card_ok c ->
  exists ds, card_fmt c = Ok ds /\ Forall ascii_digit ds /\ decimal_value ds = val c
    /\ (forall d rest, ds = d :: rest -> d = 48 -> rest = []).
Proof.
  intros Hc. unfold card_fmt.
  destruct ((c_lo c =? 0) && (c_hi c =? 0) && (bit128 c =? 0)) eqn:Hz.
  - zb. exists [48]. repeat split.
    + repeat constructor; unfold ascii_digit; lia.
    + unfold val. destruct c; simpl in *; subst. done.
    + intros d rest [= <- <-]. done.
  - destruct Hc as (? & ? & ?).
    destruct (fmt_loop_spec 40 (c_lo c) (c_hi c) (bit128 c) []) as (ds & Hrun & Hdig & Hval & Hlead).
    + lia.
    + lia.
    + limbs; lia.
    + change (10 ^ Z.of_nat 40) with 10000000000000000000000000000000000000000.
      limbs; lia.
    + constructor.
    + exists ds. rewrite Hrun, app_nil_r. repeat split; try done.
      intros d rest Hd ->. exfalso. by apply (Hlead 48 rest).
Qed.
