(* ===== verification/Key.v ===== *)
(** * IPv4 and IPv6 keys

    [key.rs]: the two key types and the trait [IpKey] over them.  The trait is
    the class [IpKey]; what its clients rely on is the class [IpKeyLaws],
    discharged here for both widths.  [key_num] is the address as a number. *)

From S2P Require Import Prelude Errors Bytes Cardinality.
From stdpp Require Import base tactics numbers list strings.
From Stdlib Require Import ZArith Lia.

#[local] Open Scope string_scope.
#[local] Open Scope list_scope.
#[local] Open Scope Z_scope.

(** ** The trait *)

Class IpKey (K : Type) := {
  key_width : Z;
  key_family : AddressFamily;
  (** the derived order and equality *)
  key_ltb : K -> K -> bool;
  key_eqb : K -> K -> bool;
  read_le : list Z -> Z -> Result K;
  write_le : K -> list Z -> Result (list Z);
  checked_next : K -> option K;
  checked_previous : K -> option K;
  inclusive_cardinality : K -> K -> Result Cardinality129;
}.

Definition key_leb {K} `{IpKey K} (a b : K) : bool := negb (key_ltb b a).
(** [Ord::min]. *)
Definition key_min {K} `{IpKey K} (a b : K) : K := if key_ltb b a then b else a.

(** What every client of the trait relies on. *)
Class IpKeyLaws (K : Type) `{IpKey K} := {
  key_num : K -> Z;
  key_top : Z;
  key_ok : K -> Prop;
  key_of : Z -> K;
  key_num_range k : key_ok k -> 0 <= key_num k <= key_top;
  key_num_inj a b : key_ok a -> key_ok b -> key_num a = key_num b -> a = b;
  key_of_ok z : 0 <= z <= key_top -> key_ok (key_of z) /\ key_num (key_of z) = z;
  key_ltb_num a b : key_ok a -> key_ok b -> key_ltb a b = (key_num a <? key_num b);
  key_eqb_num a b : key_ok a -> key_ok b -> key_eqb a b = (key_num a =? key_num b);
  checked_next_num k : key_ok k ->
    match checked_next k with
    | Some k' => key_ok k' /\ key_num k' = key_num k + 1
    | None => key_num k = key_top
    end;
  checked_previous_num k : key_ok k ->
    match checked_previous k with
    | Some k' => key_ok k' /\ key_num k' = key_num k - 1
    | None => key_num k = 0
    end;
  key_width_range : 4 <= key_width <= 16;
  key_bytes : K -> list Z;
  key_bytes_len k : key_ok k -> zlen (key_bytes k) = key_width;
  key_bytes_ok k : key_ok k -> bytes_ok (key_bytes k);
  write_le_bytes k out : key_ok k -> key_width <= zlen out ->
    write_le k out = Ok (splice out 0 (key_bytes k));
  read_le_bytes k s a : key_ok k -> 0 <= a -> a + key_width <= zlen s -> zlen s <= usize_max ->
    sub s a key_width = key_bytes k -> read_le s a = Ok k;
  read_le_total s a : bytes_ok s -> 0 <= a -> a + key_width <= zlen s -> zlen s <= usize_max ->
    exists k, read_le s a = Ok k /\ key_ok k /\ key_bytes k = sub s a key_width;
  inclusive_cardinality_num a b : key_ok a -> key_ok b ->
    if key_num a <=? key_num b
    then exists c, inclusive_cardinality a b = Ok c /\ card_ok c
                   /\ val c = key_num b - key_num a + 1
    else exists s, inclusive_cardinality a b = Err (ArithmeticOverflow s);
}.

(** ** IPv4 *)

Record Ipv4Key := mkV4 { v4 : Z }.

Definition v4_min : Ipv4Key := mkV4 0.
Definition v4_max : Ipv4Key := mkV4 u32_max.

Definition v4_checked_next (k : Ipv4Key) : option Ipv4Key :=
  match checked_add u32_max (v4 k) 1 with
  | Some value => Some (mkV4 value)
  | None => None
  end.

Definition v4_checked_previous (k : Ipv4Key) : option Ipv4Key :=
  match checked_sub (v4 k) 1 with
  | Some value => Some (mkV4 value)
  | None => None
  end.

Definition v4_read_le (src : list Z) (at_ : Z) : Result Ipv4Key :=
  b ← expect (array 4 src at_) "validated IPv4 key";
  Ok (mkV4 (le_val b)).

(** [output[..4].copy_from_slice(..)] panics when [output] is shorter. *)
Definition v4_write_le (k : Ipv4Key) (output : list Z) : Result (list Z) :=
  if zlen output <? 4 then Panic "range end index out of range"
  else Ok (splice output 0 (le_bytes 4 (v4 k))).

Definition v4_inclusive_cardinality (from to : Ipv4Key) : Result Cardinality129 :=
  map_err (fun _ => ArithmeticOverflow "IPv4 interval cardinality")
    (ipv4_inclusive (v4 from) (v4 to)).

#[global] Instance Ipv4Key_IpKey : IpKey Ipv4Key := {
  key_width := 4;
  key_family := Ipv4;
  key_ltb a b := v4 a <? v4 b;
  key_eqb a b := v4 a =? v4 b;
  read_le := v4_read_le;
  write_le := v4_write_le;
  checked_next := v4_checked_next;
  checked_previous := v4_checked_previous;
  inclusive_cardinality := v4_inclusive_cardinality;
}.

(** ** IPv6 *)

Record Ipv6Key := mkV6 { k_hi : Z; k_lo : Z }.

Definition v6_min : Ipv6Key := mkV6 0 0.
Definition v6_max : Ipv6Key := mkV6 u64_max u64_max.

Definition v6_from_u128 (v : Z) : Ipv6Key :=
  mkV6 (Z.shiftr v 64 mod 2 ^ 64) (v mod 2 ^ 64).

Definition v6_to_u128 (k : Ipv6Key) : Z := Z.lor (Z.shiftl (k_hi k) 64) (k_lo k).

Definition v6_checked_next (k : Ipv6Key) : option Ipv6Key :=
  if (k_hi k =? u64_max) && (k_lo k =? u64_max) then None
  else if k_lo k =? u64_max then Some (mkV6 (k_hi k + 1) 0)
  else Some (mkV6 (k_hi k) (k_lo k + 1)).

Definition v6_checked_previous (k : Ipv6Key) : option Ipv6Key :=
  if (k_hi k =? 0) && (k_lo k =? 0) then None
  else if k_lo k =? 0 then Some (mkV6 (k_hi k - 1) u64_max)
  else Some (mkV6 (k_hi k) (k_lo k - 1)).

(** The low limb is stored first. *)
Definition v6_read_le (src : list Z) (at_ : Z) : Result Ipv6Key :=
  l ← expect (array 8 src at_) "validated IPv6 low limb";
  h ← expect (array 8 src (at_ + 8)) "validated IPv6 high limb";
  Ok (mkV6 (le_val h) (le_val l)).

Definition v6_write_le (k : Ipv6Key) (output : list Z) : Result (list Z) :=
  if zlen output <? 8 then Panic "range end index out of range"
  else
    let output := splice output 0 (le_bytes 8 (k_lo k)) in
    if zlen output <? 16 then Panic "range end index out of range"
    else Ok (splice output 8 (le_bytes 8 (k_hi k))).

Definition v6_inclusive_cardinality (from to : Ipv6Key) : Result Cardinality129 :=
  map_err (fun _ => ArithmeticOverflow "IPv6 interval cardinality")
    (ipv6_inclusive (k_hi from) (k_lo from) (k_hi to) (k_lo to)).

#[global] Instance Ipv6Key_IpKey : IpKey Ipv6Key := {
  key_width := 16;
  key_family := Ipv6;
  key_ltb a b := (k_hi a <? k_hi b) || ((k_hi a =? k_hi b) && (k_lo a <? k_lo b));
  key_eqb a b := (k_hi a =? k_hi b) && (k_lo a =? k_lo b);
  read_le := v6_read_le;
  write_le := v6_write_le;
  checked_next := v6_checked_next;
  checked_previous := v6_checked_previous;
  inclusive_cardinality := v6_inclusive_cardinality;
}.

(** ** The laws hold for both widths *)

Definition v4_ok (k : Ipv4Key) : Prop := 0 <= v4 k <= u32_max.

Definition v6_ok (k : Ipv6Key) : Prop := 0 <= k_hi k <= u64_max /\ 0 <= k_lo k <= u64_max.

Definition v6_num (k : Ipv6Key) : Z := join64 (k_hi k) (k_lo k).

Definition v6_bytes (k : Ipv6Key) : list Z := le_bytes 8 (k_lo k) ++ le_bytes 8 (k_hi k).

Ltac widths := unfold v4_ok, v6_ok, v6_num, join64, u32_max, u64_max, usize_max in *;
  change (2 ^ 64) with 18446744073709551616 in *.

Lemma v4_next_num k : v4_ok k ->
  match v4_checked_next k with
  | Some k' => v4_ok k' /\ v4 k' = v4 k + 1
  | None => v4 k = u32_max
  end.
Proof.
  intros Hk. unfold v4_checked_next, checked_add.
  destruct (Z.leb_spec (v4 k + 1) u32_max); simpl; widths; simpl; lia.
Qed.

Lemma v4_previous_num k : v4_ok k ->
  match v4_checked_previous k with
  | Some k' => v4_ok k' /\ v4 k' = v4 k - 1
  | None => v4 k = 0
  end.
Proof.
  intros Hk. unfold v4_checked_previous, checked_sub.
  destruct (Z.leb_spec 1 (v4 k)); simpl; widths; simpl; lia.
Qed.

Lemma v6_next_num k : v6_ok k ->
  match v6_checked_next k with
  | Some k' => v6_ok k' /\ v6_num k' = v6_num k + 1
  | None => v6_num k = 2 ^ 128 - 1
  end.
Proof.
  intros Hk. unfold v6_checked_next. 
  destruct (Z.eqb_spec (k_hi k) u64_max), (Z.eqb_spec (k_lo k) u64_max);
    cbn [andb]; widths; cbn [k_hi k_lo]; lia.
Qed.

Lemma v6_previous_num k : v6_ok k ->
  match v6_checked_previous k with
  | Some k' => v6_ok k' /\ v6_num k' = v6_num k - 1
  | None => v6_num k = 0
  end.
Proof.
  intros Hk. unfold v6_checked_previous.
  destruct (Z.eqb_spec (k_hi k) 0), (Z.eqb_spec (k_lo k) 0);
    cbn [andb]; widths; cbn [k_hi k_lo]; lia.
Qed.

Lemma v4_read_bytes k s a : v4_ok k -> 0 <= a -> a + 4 <= zlen s -> zlen s <= usize_max ->
  sub s a 4 = le_bytes 4 (v4 k) -> v4_read_le s a = Ok k.
Proof.
  intros Hk Ha Hl Hu Hs. unfold v4_read_le.
  rewrite array_Some by lia. cbn [expect mbind outcome_bind]. rewrite Hs.
  rewrite le_val_bytes by (widths; simpl; lia). by destruct k.
Qed.

Lemma v6_read_bytes k s a : v6_ok k -> 0 <= a -> a + 16 <= zlen s -> zlen s <= usize_max ->
  sub s a 16 = v6_bytes k -> v6_read_le s a = Ok k.
Proof.
  intros Hk Ha Hl Hu Hs. unfold v6_read_le.
  rewrite !array_Some by lia. cbn [expect mbind outcome_bind].
  change 16 with (8 + 8) in Hs. rewrite sub_split in Hs by lia.
  unfold v6_bytes in Hs. apply app_inj_1 in Hs as [Hlo Hhi].
  2: { apply Nat2Z.inj. fold (zlen (sub s a 8)). fold (zlen (le_bytes 8 (k_lo k))).
       rewrite zlen_sub by lia. by rewrite zlen_le_bytes. }
  rewrite Hlo, Hhi, !le_val_bytes by (widths; simpl; lia). by destruct k.
Qed.

(** Any bytes are a key. *)
Lemma le_field_total n s a : bytes_ok s -> 0 <= a -> a + Z.of_nat n <= zlen s ->
  0 <= le_val (sub s a (Z.of_nat n)) < 256 ^ Z.of_nat n
  /\ le_bytes n (le_val (sub s a (Z.of_nat n))) = sub s a (Z.of_nat n).
Proof.
  intros Hs Ha Hl. pose proof (bytes_ok_sub s a (Z.of_nat n) Hs) as Hb.
  assert (Hz : zlen (sub s a (Z.of_nat n)) = Z.of_nat n) by (apply zlen_sub; lia).
  pose proof (le_val_range _ Hb) as Hr. rewrite Hz in Hr. split; [done |].
  rewrite <- (le_bytes_val _ Hb) at 2. f_equal. unfold zlen in Hz. lia.
Qed.

Lemma v4_read_total s a : bytes_ok s -> 0 <= a -> a + 4 <= zlen s -> zlen s <= usize_max ->
  exists k, v4_read_le s a = Ok k /\ v4_ok k /\ le_bytes 4 (v4 k) = sub s a 4.
Proof.
  intros Hs Ha Hl Hu. destruct (le_field_total 4 s a Hs Ha Hl) as [Hr Hb]. change (Z.of_nat 4) with 4 in *.
  exists (mkV4 (le_val (sub s a 4))). unfold v4_read_le. rewrite array_Some by lia.
  split; [done |]. split; [| done]. widths. cbn in *. lia.
Qed.

Lemma v6_read_total s a : bytes_ok s -> 0 <= a -> a + 16 <= zlen s -> zlen s <= usize_max ->
  exists k, v6_read_le s a = Ok k /\ v6_ok k /\ v6_bytes k = sub s a 16.
Proof.
  intros Hs Ha Hl Hu. change 16 with (8 + 8). rewrite sub_split by lia.
  destruct (le_field_total 8 s a Hs Ha ltac:(lia)) as [Hr1 Hb1].
  destruct (le_field_total 8 s (a + 8) Hs ltac:(lia) ltac:(lia)) as [Hr2 Hb2]. change (Z.of_nat 8) with 8 in *.
  exists (mkV6 (le_val (sub s (a + 8) 8)) (le_val (sub s a 8))). unfold v6_read_le. rewrite !array_Some by lia.
  split; [done |]. split; [widths; cbn in *; lia |]. unfold v6_bytes. cbn [k_lo k_hi]. by rewrite Hb1, Hb2.
Qed.

Lemma v6_write_bytes k out : v6_ok k -> 16 <= zlen out ->
  v6_write_le k out = Ok (splice out 0 (v6_bytes k)).
Proof.
  intros Hk Hout. unfold v6_write_le.
  destruct (Z.ltb_spec (zlen out) 8); [lia |].
  rewrite zlen_splice by (zlen_simp; lia).
  destruct (Z.ltb_spec (zlen out) 16); [lia |]. f_equal.
  assert (Hlen : zlen (splice out 0 (le_bytes 8 (k_lo k))) = zlen out)
    by (apply zlen_splice; zlen_simp; lia).
  apply list_ext.
  - unfold v6_bytes. rewrite !zlen_splice; zlen_simp; lia.
  - intros i Hi. unfold v6_bytes.
    rewrite !bget_splice by (zlen_simp; rewrite ?Hlen; lia).
    zlen_simp. change (Z.of_nat 8) with 8.
    rewrite bget_app by lia. rewrite zlen_le_bytes. change (Z.of_nat 8) with 8.
    zcase. all: f_equal; lia.
Qed.

#[local] Obligation Tactic := idtac.

#[global] Program Instance Ipv4Key_laws : IpKeyLaws Ipv4Key := {
  key_num k := v4 k;
  key_top := u32_max;
  key_ok := v4_ok;
  key_of := mkV4;
  key_bytes k := le_bytes 4 (v4 k);
  checked_next_num := v4_next_num;
  checked_previous_num := v4_previous_num;
  read_le_bytes := v4_read_bytes;
  read_le_total := v4_read_total;
}.
Next Obligation. intros k Hk. exact Hk. Qed.
Next Obligation. intros a b ? ? E. destruct a, b; simpl in *; congruence. Qed.
Next Obligation. intros z Hz. widths; simpl; lia. Qed.
Next Obligation. done. Qed.
Next Obligation. done. Qed.
Next Obligation. simpl; lia. Qed.
Next Obligation. intros. by zlen_simp. Qed.
Next Obligation. intros. apply le_bytes_ok. Qed.
Next Obligation.
  intros k out Hk Hout. simpl in *. unfold v4_write_le.
  destruct (Z.ltb_spec (zlen out) 4); [lia | done].
Qed.
Next Obligation.
  intros a b Ha Hb. simpl. unfold v4_inclusive_cardinality.
  pose proof (ipv4_inclusive_spec (v4 a) (v4 b) Ha Hb) as S.
  destruct (v4 a <=? v4 b).
  - destruct S as (c & -> & ?). by exists c.
  - rewrite S. by eexists.
Qed.

#[global] Program Instance Ipv6Key_laws : IpKeyLaws Ipv6Key := {
  key_num := v6_num;
  key_top := 2 ^ 128 - 1;
  key_ok := v6_ok;
  key_of := v6_from_u128;
  key_bytes := v6_bytes;
  checked_next_num := v6_next_num;
  checked_previous_num := v6_previous_num;
  read_le_bytes := v6_read_bytes;
  read_le_total := v6_read_total;
  write_le_bytes := v6_write_bytes;
}.
Next Obligation. intros k Hk. widths. lia. Qed.
Next Obligation. intros [] [] ? ? E. widths; simpl in *. f_equal; lia. Qed.
Next Obligation.
  intros z Hz.
  destruct (from_u128_spec z) as [Hok Hval]; [lia |].
  unfold from_u128, val, card_ok, v6_from_u128 in *. cbn [bit128 c_hi c_lo] in *.
  widths. cbn [k_hi k_lo]. lia.
Qed.
Next Obligation. intros a b Ha Hb. simpl. widths. zcase. Qed.
Next Obligation. intros a b Ha Hb. simpl. widths. zcase. Qed.
Next Obligation. simpl; lia. Qed.
Next Obligation. intros. unfold v6_bytes. by zlen_simp. Qed.
Next Obligation. intros. unfold v6_bytes. apply bytes_ok_app. split; apply le_bytes_ok. Qed.
Next Obligation.
  intros a b Ha Hb. simpl. unfold v6_inclusive_cardinality.
  pose proof (ipv6_inclusive_spec (k_hi a) (k_lo a) (k_hi b) (k_lo b)) as S.
  change (join64 (k_hi a) (k_lo a)) with (v6_num a) in S.
  change (join64 (k_hi b) (k_lo b)) with (v6_num b) in S.
  destruct (v6_num a <=? v6_num b).
  - destruct S as (c & -> & ?); [widths; lia..|]. by exists c.
  - rewrite S by (widths; lia). by eexists.
Qed.

Section KeyFacts.
Context {K} `{IpKeyLaws K}.

Lemma key_leb_num (a b : K) : key_ok a -> key_ok b -> key_leb a b = (key_num a <=? key_num b).
Proof. intros. unfold key_leb. rewrite key_ltb_num by done. zcase. Qed.

Lemma key_eqb_eq (a b : K) : key_ok a -> key_ok b -> key_eqb a b = true <-> a = b.
Proof.
  intros Ha Hb. rewrite key_eqb_num by done. rewrite Z.eqb_eq. split; [| congruence].
  by apply key_num_inj.
Qed.

Lemma key_min_num (a b : K) : key_ok a -> key_ok b ->
  key_ok (key_min a b) /\ key_num (key_min a b) = Z.min (key_num a) (key_num b).
Proof.
  intros. unfold key_min. rewrite key_ltb_num by done.
  destruct (Z.ltb_spec (key_num b) (key_num a)); split; try done; lia.
Qed.
End KeyFacts.
