(* ===== verification/Codec.v ===== *)
(** * The codec trait of the B+tree and the range codec

    [fixed_tree::Codec] says how the tree of one record kind reads keys and
    records from cells and writes branch cells; it is the class [Codec], with
    the trait's provided methods as definitions over it.  [RangeCodec] of
    [range_tree.rs], with its record encoder and decoders, is the instance the
    range map uses. *)

From S2P Require Import Prelude Errors Bytes Cardinality Key.
From stdpp Require Import base tactics numbers list strings.
From Stdlib Require Import ZArith Lia.

#[local] Open Scope string_scope.
#[local] Open Scope list_scope.
#[local] Open Scope Z_scope.

(** ** [trait Codec] *)

Class Codec (Key Leaf : Type) := {
  BRANCH_TYPE : Z;
  LEAF_TYPE : Z;
  AUX : Z;
  KEY_SIZE : Z;
  LEAF_SIZE : Z;
  MAX_BRANCH_SIZE : Z;
  MAX_LEAF_SIZE : Z;
  codec_ltb : Key -> Key -> bool;
  codec_eqb : Key -> Key -> bool;
  read_key : list Z -> Z -> Result Key;
  read_leaf : list Z -> Result Leaf;
  write_key : Key -> list Z -> Result (list Z);
}.

Section Provided.
Context {Key Leaf : Type} `{Codec Key Leaf}.

(** [validate_leaf]. *)
Definition validate_leaf (cell : list Z) : Result unit :=
  _ ← read_leaf cell; Ok tt.

(** [fixed_cell_size]. *)
Definition fixed_cell_size (level : Z) : option Z :=
  if level =? 0 then (if negb (LEAF_SIZE =? 0) then Some LEAF_SIZE else None)
  else if negb (KEY_SIZE =? 0) && (MAX_BRANCH_SIZE =? KEY_SIZE + 4)
       then Some (KEY_SIZE + 4) else None.

(** [write_branch]: the key, then the child page number. *)
Definition write_branch (key : Key) (child : Z) (output : list Z) : Result (Z * list Z) :=
  let len := KEY_SIZE + 4 in
  if zlen output <? len then Err (Unsupported "B+tree branch buffer is too small")
  else
    key_part ← write_key key (sub output 0 KEY_SIZE);
    let output := splice output 0 key_part in
    Ok (len, splice output KEY_SIZE (le_bytes 4 child)).

(** [read_branch_child]. *)
Definition read_branch_child (cell : list Z) : Result Z :=
  b ← ok_or (array 4 cell KEY_SIZE) (Corrupt "B+tree branch record is too short");
  Ok (le_val b).
End Provided.

(** ** [range_tree.rs] *)

Definition RANGE_BRANCH : Z := 1.
Definition RANGE_LEAF : Z := 2.
Definition MAX_RECORD_SIZE : Z := 36.

Record Range (K : Type) := mkRange { r_from : K; r_to : K; r_value : Z }.
Arguments mkRange {K} r_from r_to r_value.
Arguments r_from {K} r.
Arguments r_to {K} r.
Arguments r_value {K} r.

Section RangeCodec.
Context {K : Type} `{IpKey K}.

Definition record_size : Z := key_width * 2 + 4.
Definition branch_size : Z := key_width + 4.

Definition decode_fields (cell : list Z) : Result (Range K) :=
  if negb (zlen cell =? record_size)
  then Err (Corrupt "range leaf has the wrong record size")
  else
    from ← read_le cell 0;
    to ← read_le cell key_width;
    value ← u32_le cell (key_width * 2);
    Ok (mkRange from to value).

Definition decode_cell (cell : list Z) : Result (Range K) :=
  record ← decode_fields cell;
  if key_ltb (r_to record) (r_from record)
  then Err (Corrupt "selected range has reversed endpoints")
  else Ok record.

Definition encode_record (record : Range K) (output : list Z) : Result (Z * list Z) :=
  let len := record_size in
  if key_ltb (r_to record) (r_from record)
  then Err (InvalidArgument "range start is after its end")
  else if zlen output <? len
  then Err (Unsupported "range record buffer is too small")
  else
    output ← write_le (r_from record) output;
    tail ← write_le (r_to record) (drop (Z.to_nat key_width) output);
    let output := splice output key_width tail in
    Ok (len, splice output (key_width * 2) (le_bytes 4 (r_value record))).

Definition decode_branch (cell : list Z) : Result (K * Z) :=
  if negb (zlen cell =? branch_size)
  then Err (Corrupt "range branch has the wrong record size")
  else
    k ← read_le cell 0;
    child ← u32_le cell key_width;
    Ok (k, child).

#[global] Instance RangeCodec : Codec K (Range K) := {
  BRANCH_TYPE := RANGE_BRANCH;
  LEAF_TYPE := RANGE_LEAF;
  AUX := family_to_wire key_family;
  KEY_SIZE := key_width;
  LEAF_SIZE := key_width * 2 + 4;
  MAX_BRANCH_SIZE := key_width + 4;
  MAX_LEAF_SIZE := key_width * 2 + 4;
  codec_ltb := key_ltb;
  codec_eqb := key_eqb;
  read_key cell _ := read_le cell 0;
  read_leaf := decode_cell;
  write_key := write_le;
}.

(** [EncodedRange::new] and [as_slice] of [range_mutation.rs]: the record in
    a 36-byte buffer, cut to its length. *)
Definition encoded_range (range : Range K) : Result (list Z) :=
  '(len, bytes) ← encode_record range (replicate (Z.to_nat MAX_RECORD_SIZE) 0);
  Ok (sub bytes 0 len).
End RangeCodec.

(** ** Correctness of the record codec *)

Section RangeCodecFacts.
Context {K : Type} `{IpKeyLaws K}.

Definition range_ok (r : Range K) : Prop :=
  key_ok (r_from r) /\ key_ok (r_to r) /\ key_num (r_from r) <= key_num (r_to r)
  /\ 0 <= r_value r <= u32_max.

Definition range_bytes (r : Range K) : list Z :=
  key_bytes (r_from r) ++ key_bytes (r_to r) ++ le_bytes 4 (r_value r).

Lemma range_bytes_len r : range_ok r -> zlen (range_bytes r) = record_size.
Proof.
  intros (Hf & Ht & _). unfold range_bytes, record_size.
  rewrite !zlen_app, zlen_le_bytes, !key_bytes_len by done. lia.
Qed.

(** What is decoded from the encoding of a well-formed record is that record. *)
Lemma decode_cell_bytes r : range_ok r -> decode_cell (range_bytes r) = Ok r.
Proof.
  intros Hr. pose proof (range_bytes_len r Hr) as Hlen.
  pose proof key_width_range as Hw.
  assert (Hu : zlen (range_bytes r) <= usize_max)
    by (rewrite Hlen; unfold record_size, usize_max, u64_max; lia).
  unfold decode_cell, decode_fields. rewrite Hlen, Z.eqb_refl. cbn [negb].
  destruct Hr as (Hf & Ht & Hord & Hv).
  pose proof (key_bytes_len _ Hf) as Lf. pose proof (key_bytes_len _ Ht) as Lt.
  unfold record_size in Hlen.
  rewrite (read_le_bytes (r_from r) (range_bytes r) 0); [| done | lia | lia | done |].
  2: { unfold range_bytes. by apply sub_app_prefix. }
  cbn [mbind outcome_bind].
  rewrite (read_le_bytes (r_to r) (range_bytes r) key_width); [| done | lia | lia | done |].
  2: { unfold range_bytes. rewrite sub_app_skip by lia.
       rewrite Lf, Z.sub_diag. by apply sub_app_prefix. }
  cbn [mbind outcome_bind].
  unfold u32_le, u32_source. rewrite array_Some by lia.
  cbn [fmap option_fmap option_map expect].
  replace (sub (range_bytes r) (key_width * 2) 4) with (le_bytes 4 (r_value r)).
  2: { unfold range_bytes. rewrite !sub_app_skip by lia.
       replace (key_width * 2 - _ - _) with 0 by lia. reflexivity. }
  rewrite le_val_bytes by (unfold u32_max in Hv; simpl; lia).
  cbn [mbind outcome_bind r_from r_to]. rewrite key_ltb_num by done.
  destruct (Z.ltb_spec (key_num (r_to r)) (key_num (r_from r))); [lia |].
  by destruct r.
Qed.

(** Any cell of the right size decodes, and to the record whose bytes it has. *)
Lemma decode_fields_total cell : bytes_ok cell -> zlen cell = record_size (K := K) ->
  exists r, decode_fields cell = Ok r /\ key_ok (r_from r) /\ key_ok (r_to r) /\ 0 <= r_value r <= u32_max /\ cell = range_bytes r.
Proof.
  intros Hb Hz. pose proof (key_width_range (K := K)) as Hw. unfold record_size in Hz.
  assert (Hu : zlen cell <= usize_max) by (unfold usize_max, u64_max; lia).
  destruct (read_le_total (K := K) cell 0) as (f & Ef & Hf & Bf); [done | lia | lia | done |].
  destruct (read_le_total (K := K) cell (key_width (K := K))) as (t & Et & Ht & Bt); [done | lia | lia | done |].
  destruct (le_field_total 4 cell (key_width (K := K) * 2)) as [Hr Bv]; [done | lia | lia |]. change (Z.of_nat 4) with 4 in *.
  exists (mkRange f t (le_val (sub cell (key_width (K := K) * 2) 4))). unfold decode_fields, record_size.
  rewrite Hz, Z.eqb_refl, Ef. cbn [negb mbind outcome_bind]. rewrite Et. cbn [mbind outcome_bind].
  unfold u32_le, u32_source. rewrite array_Some by lia. cbn [fmap option_fmap option_map expect mbind outcome_bind].
  split; [done |]. split; [done |]. split; [done |]. split; [unfold u32_max; cbn in *; lia |].
  unfold range_bytes. cbn [r_from r_to r_value]. rewrite Bf, Bt, Bv.
  rewrite app_assoc, <- sub_split by lia. replace (key_width + key_width) with (key_width (K := K) * 2) by lia.
  rewrite <- sub_split by lia. symmetry. rewrite <- Hz. apply sub_full.
Qed.

Lemma decode_branch_total cell : bytes_ok cell -> zlen cell = branch_size (K := K) ->
  exists k child, decode_branch cell = Ok (k, child) /\ key_ok k /\ 0 <= child <= u32_max /\ cell = key_bytes k ++ le_bytes 4 child.
Proof.
  intros Hb Hz. pose proof (key_width_range (K := K)) as Hw. unfold branch_size in Hz.
  assert (Hu : zlen cell <= usize_max) by (unfold usize_max, u64_max; lia).
  destruct (read_le_total (K := K) cell 0) as (f & Ef & Hf & Bf); [done | lia | lia | done |].
  destruct (le_field_total 4 cell (key_width (K := K))) as [Hr Bv]; [done | lia | lia |]. change (Z.of_nat 4) with 4 in *.
  exists f, (le_val (sub cell (key_width (K := K)) 4)). unfold decode_branch, branch_size.
  rewrite Hz, Z.eqb_refl, Ef. cbn [negb mbind outcome_bind].
  unfold u32_le, u32_source. rewrite array_Some by lia. cbn [fmap option_fmap option_map expect mbind outcome_bind].
  split; [done |]. split; [done |]. split; [unfold u32_max; cbn in *; lia |].
  rewrite Bf, Bv, <- sub_split by lia. symmetry. rewrite <- Hz. apply sub_full.
Qed.

(** The encoder writes exactly those bytes. *)
Lemma encoded_range_bytes r : range_ok r -> encoded_range r = Ok (range_bytes r).
Proof.
  intros Hr. pose proof (range_bytes_len r Hr) as Hlen.
  pose proof key_width_range as Hw.
  destruct Hr as (Hf & Ht & Hord & Hv).
  pose proof (key_bytes_len _ Hf) as Lf. pose proof (key_bytes_len _ Ht) as Lt.
  unfold encoded_range, encode_record, record_size in *.
  set (buf := replicate (Z.to_nat MAX_RECORD_SIZE) 0).
  assert (Hb : zlen buf = 36) by (subst buf; by rewrite zlen_replicate).
  rewrite key_ltb_num by done.
  destruct (Z.ltb_spec (key_num (r_to r)) (key_num (r_from r))); [lia |].
  destruct (Z.ltb_spec (zlen buf) (key_width * 2 + 4)); [lia |].
  rewrite write_le_bytes by (done || lia). cbn [mbind outcome_bind].
  assert (Hs1 : splice buf 0 (key_bytes (r_from r))
                = key_bytes (r_from r) ++ drop (Z.to_nat key_width) buf).
  { rewrite <- (take_drop (Z.to_nat key_width) buf) at 1. apply splice_prefix.
    unfold zlen in *. rewrite length_take. lia. }
  rewrite Hs1. rewrite drop_app_ge by (unfold zlen in *; lia).
  replace (Z.to_nat key_width - length (key_bytes (r_from r)))%nat with 0%nat
    by (unfold zlen in *; lia). rewrite drop_0.
  set (rest := drop (Z.to_nat key_width) buf) in *.
  assert (Hrest : zlen rest = 36 - key_width)
    by (subst rest; unfold zlen in *; rewrite length_drop; lia).
  rewrite write_le_bytes by (done || lia). cbn [mbind outcome_bind].
  assert (Hs2 : splice rest 0 (key_bytes (r_to r))
                = key_bytes (r_to r) ++ drop (Z.to_nat key_width) rest).
  { rewrite <- (take_drop (Z.to_nat key_width) rest) at 1. apply splice_prefix.
    unfold zlen in *. rewrite length_take. lia. }
  rewrite Hs2.
  assert (Hr2 : zlen (drop (Z.to_nat key_width) rest) = 36 - key_width - key_width)
    by (unfold zlen in *; rewrite length_drop; lia).
  rewrite splice_app_exact by (rewrite ?zlen_app; lia). f_equal.
  unfold range_bytes. rewrite !app_assoc.
  set (front := key_bytes (r_from r) ++ key_bytes (r_to r)).
  assert (Hfront : zlen front = key_width * 2) by (subst front; rewrite zlen_app; lia).
  set (tl := drop (Z.to_nat key_width) rest) in *.
  rewrite <- (take_drop 4 tl), app_assoc.
  assert (Htl : zlen (take 4 tl) = 4) by (unfold zlen in *; rewrite length_take; lia).
  replace (splice ((front ++ take 4 tl) ++ drop 4 tl) (key_width * 2) (le_bytes 4 (r_value r)))
    with ((front ++ le_bytes 4 (r_value r)) ++ drop 4 tl).
  { apply sub_app_prefix. rewrite zlen_app, zlen_le_bytes. lia. }
  unfold splice. rewrite <- !app_assoc.
  rewrite take_app_le by (unfold zlen in *; lia).
  rewrite take_ge by (unfold zlen in *; lia). f_equal. f_equal.
  rewrite zlen_le_bytes.
  replace (Z.to_nat (key_width * 2 + Z.of_nat 4)) with (length front + 4)%nat
    by (unfold zlen in *; lia).
  rewrite <- drop_drop, drop_app_length. symmetry.
  apply drop_app_length'. unfold zlen in Htl. lia.
Qed.
End RangeCodecFacts.

(** ** Keys, cardinalities, records and error codes

    The properties of the data the rest of the development builds on. *)

(** A record of either address family is written in the fixed number of
    bytes of its family, and reading them gives the record. *)
Theorem range_record_roundtrip {K : Type} `{IpKeyLaws K} (r : Range K) :
  range_ok r ->
  exists cell, encoded_range r = Ok cell /\ zlen cell = record_size (K := K) /\ decode_cell cell = Ok r.
Proof.
  intros Hr. exists (range_bytes r). split; [by apply encoded_range_bytes |].
  split; [by apply range_bytes_len | by apply decode_cell_bytes].
Qed.

(** C22: the size of an IPv4 interval, given by two 32-bit numbers, and of an
    IPv6 interval, given by four 64-bit limbs, is exact up to the whole IPv6
    space, borrows and carries between limbs included; a reversed interval is
    an overflow error; sums and differences of sizes are exact or refused, and
    never wrap. *)
Theorem cardinality_exact from4 to4 from_hi from_lo to_hi to_lo (a b : Cardinality129) :
  0 <= from4 <= u32_max -> 0 <= to4 <= u32_max ->
  0 <= from_hi <= u64_max -> 0 <= from_lo <= u64_max -> 0 <= to_hi <= u64_max -> 0 <= to_lo <= u64_max ->
  card_ok a -> card_ok b ->
  let from6 := from_hi * 2 ^ 64 + from_lo in
  let to6 := to_hi * 2 ^ 64 + to_lo in
  (if from4 <=? to4
   then exists c, ipv4_inclusive from4 to4 = Ok c /\ card_ok c /\ val c = to4 - from4 + 1
   else ipv4_inclusive from4 to4 = Err cardinality_overflow)
  /\ (if from6 <=? to6
      then exists c, ipv6_inclusive from_hi from_lo to_hi to_lo = Ok c /\ card_ok c /\ val c = to6 - from6 + 1
      else ipv6_inclusive from_hi from_lo to_hi to_lo = Err cardinality_overflow)
  /\ (if val a + val b <? 2 ^ 129
      then exists c, card_checked_add a b = Ok c /\ card_ok c /\ val c = val a + val b
      else card_checked_add a b = Err cardinality_overflow)
  /\ (if val b <=? val a
      then exists c, card_checked_sub a b = Ok c /\ card_ok c /\ val c = val a - val b
      else card_checked_sub a b = Err cardinality_overflow).
Proof.
  intros H4 H4' Hfh Hfl Hth Htl Ha Hb from6 to6. split; [by apply ipv4_inclusive_spec |].
  split; [apply ipv6_inclusive_spec; unfold u64_max in *; lia |].
  split; [by apply card_checked_add_spec | by apply card_checked_sub_spec].
Qed.

(** The decimal text of a cardinality terminates within its 40 digits,
    denotes the value and has no leading zero. *)
Theorem cardinality_decimal (c : Cardinality129) :
  card_ok c ->
  exists ds, card_fmt c = Ok ds /\ Forall ascii_digit ds /\ decimal_value ds = val c
    /\ (forall d rest, ds = d :: rest -> d = 48 -> rest = []).
Proof. apply card_fmt_spec. Qed.

(** Every error class has one wire code and every wire code that is
    accepted stands for one class; the codes are 1 to 69, and an unknown
    number is refused. *)
Theorem error_codes_bijective (v : Z) (c : ErrorCode) :
  (code_from_wire v = Some c <-> code_to_wire c = v) /\ 1 <= code_to_wire c <= 69.
Proof.
  split; [| apply code_to_wire_range]. split; [apply code_to_from_wire |].
  intros <-. apply code_from_to_wire.
Qed.

(** ** Witnesses *)

Lemma range_record_roundtrip_witness :
  exists cell, encoded_range (mkRange (mkV6 1 2) (mkV6 1 9) 7) = Ok cell
    /\ zlen cell = record_size (K := Ipv6Key)
    /\ decode_cell cell = Ok (mkRange (mkV6 1 2) (mkV6 1 9) 7).
Proof.
  apply (range_record_roundtrip (mkRange (mkV6 1 2) (mkV6 1 9) 7)).
  unfold range_ok, key_ok. cbn. unfold v6_ok, v6_num, join64, u64_max, u32_max. cbn. lia.
Defined.

(** The whole IPv4 space, the whole IPv6 space, and an IPv6 interval whose low
    limbs borrow. *)
Lemma cardinality_exact_witness :
  (exists c, ipv4_inclusive 0 u32_max = Ok c /\ val c = 2 ^ 32)
  /\ (exists c, ipv6_inclusive 0 0 u64_max u64_max = Ok c /\ val c = 2 ^ 128)
  /\ (exists c, ipv6_inclusive 1 u64_max 2 0 = Ok c /\ val c = 2).
Proof.
  destruct (cardinality_exact 0 u32_max 0 0 u64_max u64_max card_zero card_zero) as ((c4 & E4 & _ & V4) & (c6 & E6 & _ & V6) & _);
    [vm_compute; intuition discriminate .. |].
  destruct (cardinality_exact 0 u32_max 1 u64_max 2 0 card_zero card_zero) as (_ & (c & E & _ & V) & _);
    [vm_compute; intuition discriminate .. |].
  split; [exists c4; by rewrite V4 |]. split; [exists c6; by rewrite V6 | exists c; by rewrite V].
Defined.

Lemma cardinality_decimal_witness :
  exists ds, card_fmt FULL_IPV6_SPACE = Ok ds /\ decimal_value ds = 2 ^ 128.
Proof.
  destruct (cardinality_decimal FULL_IPV6_SPACE) as (ds & Hd & _ & Hv & _); [unfold card_ok; cbn; lia |].
  exists ds. split; [exact Hd | rewrite Hv; reflexivity].
Defined.
