(* ===== verification/TreeInterface.v ===== *)
(** * What the ordered tree promises to its clients

    The range map and the retirement log are written against the operations
    of [fixed_tree] (predecessor, at-or-after, insert, delete, replace one record
    by a run, insert into a local gap).  Those operations are the class
    [OrderedTree]; what the clients rely on is the class [OrderedTreeLaws],
    stated over the sorted list of records the tree holds.  Mutations can run
    out of pages, so the representation predicate carries the number of further
    mutations the store can still serve: with one left the operation succeeds.

    [ListTree] is the reference implementation of the interface (the sorted
    list itself); it shows the laws can hold together and lets the clients'
    definitions run on concrete inputs. *)

From S2P Require Import Prelude Errors Bytes Codec.
From stdpp Require Import base tactics numbers list strings sorting.
From Stdlib Require Import ZArith Lia.

#[local] Open Scope string_scope.
#[local] Open Scope list_scope.
#[local] Open Scope Z_scope.

(** ** Operations on the sorted list of records *)

Section ListSpec.
Context {L : Type} (rank : L -> Z).

Definition sp_below (k : Z) (es : list L) : list L := filter (fun l => rank l < k) es.
Definition sp_above (k : Z) (es : list L) : list L := filter (fun l => k < rank l) es.

Definition sp_predecessor (es : list L) (k : Z) : option L :=
  last (filter (fun l => rank l <= k) es).
Definition sp_at_or_after (es : list L) (k : Z) : option L :=
  head (filter (fun l => k <= rank l) es).
Definition sp_member (es : list L) (k : Z) : bool := existsb (fun l => rank l =? k) es.
Definition sp_upsert (es : list L) (l : L) : list L :=
  sp_below (rank l) es ++ [l] ++ sp_above (rank l) es.
Definition sp_remove (es : list L) (k : Z) : list L := sp_below k es ++ sp_above k es.
Definition sp_replace (es : list L) (k : Z) (ls : list L) : list L :=
  sp_below k es ++ ls ++ sp_above k es.

Definition sp_sorted (es : list L) : Prop := StronglySorted (fun a b => rank a < rank b) es.
Lemma elem_of_upsert es l x :
  x ∈ sp_upsert es l <-> x = l \/ (x ∈ es /\ rank x <> rank l).
Proof.
  unfold sp_upsert, sp_below, sp_above. rewrite !elem_of_app, !list_elem_of_filter, list_elem_of_singleton.
  split; [intuition lia |]. intros [-> | [? ?]]; [tauto |].
  destruct (Z.lt_trichotomy (rank x) (rank l)) as [? | [? | ?]]; tauto.
Qed.

Lemma elem_of_remove es k x : x ∈ sp_remove es k <-> x ∈ es /\ rank x <> k.
Proof.
  unfold sp_remove, sp_below, sp_above. rewrite !elem_of_app, !list_elem_of_filter.
  split; [intuition lia |]. intros [? ?].
  destruct (Z.lt_trichotomy (rank x) k) as [? | [? | ?]]; tauto.
Qed.

Lemma elem_of_replace es k ls x :
  x ∈ sp_replace es k ls <-> x ∈ ls \/ (x ∈ es /\ rank x <> k).
Proof.
  unfold sp_replace, sp_below, sp_above. rewrite !elem_of_app, !list_elem_of_filter.
  split; [intuition lia |]. intros [? | [? ?]]; [tauto |].
  destruct (Z.lt_trichotomy (rank x) k) as [? | [? | ?]]; tauto.
Qed.

Lemma sp_member_spec es k : sp_member es k = true <-> exists x, x ∈ es /\ rank x = k.
Proof.
  unfold sp_member. rewrite existsb_exists. setoid_rewrite list_elem_of_In.
  by setoid_rewrite Z.eqb_eq.
Qed.

Lemma sp_member_false es k : sp_member es k = false <-> forall x, x ∈ es -> rank x <> k.
Proof.
  rewrite <- not_true_iff_false, sp_member_spec. naive_solver.
Qed.

Lemma sp_sorted_inj es x y : sp_sorted es -> x ∈ es -> y ∈ es -> rank x = rank y -> x = y.
Proof.
  intros Hs. induction Hs as [|a es Hs IH Ha]; [by intros ?%elem_of_nil |].
  rewrite Forall_forall in Ha. rewrite !elem_of_cons.
  intros [-> | Hx] [-> | Hy] Hr; auto.
  - specialize (Ha y Hy). lia.
  - specialize (Ha x Hx). lia.
Qed.

Lemma sp_sorted_filter es (P : L -> Prop) `{!forall x, Decision (P x)} :
  sp_sorted es -> sp_sorted (filter P es).
Proof.
  intros Hs. induction Hs as [|a es Hs IH Ha]; [constructor |].
  rewrite filter_cons. case_decide; [| done].
  constructor; [done |]. rewrite Forall_forall in Ha |- *.
  intros y [_ Hy]%list_elem_of_filter. auto.
Qed.

(** Replacing what stands at [k] keeps the list sorted when the new run lies
    strictly between the neighbours. *)
Lemma sp_sorted_replace es k ls :
  sp_sorted es -> sp_sorted ls ->
  (forall x y, x ∈ es -> y ∈ ls -> rank x < k -> rank x < rank y) ->
  (forall x y, x ∈ es -> y ∈ ls -> k < rank x -> rank y < rank x) ->
  sp_sorted (sp_replace es k ls).
Proof.
  intros Hs Hl Hlo Hhi. unfold sp_replace, sp_below, sp_above.
  unfold sp_sorted. rewrite !StronglySorted_app. split_and!; auto.
  - intros x y [? Hx]%list_elem_of_filter [Hy | [? Hy]%list_elem_of_filter]%elem_of_app;
      [eauto | lia].
  - by apply sp_sorted_filter.
  - intros x y Hx [? Hy]%list_elem_of_filter. eauto.
  - by apply sp_sorted_filter.
Qed.

Lemma sp_sorted_upsert es l : sp_sorted es -> sp_sorted (sp_upsert es l).
Proof.
  intros Hs. apply (sp_sorted_replace es (rank l) [l]); [done | repeat constructor | |];
    intros x y _ ->%list_elem_of_singleton; lia.
Qed.

Lemma sp_sorted_remove es k : sp_sorted es -> sp_sorted (sp_remove es k).
Proof.
  intros Hs. apply (sp_sorted_replace es k []); [done | constructor | |];
    intros x y _ []%elem_of_nil.
Qed.

(** A sorted list split at [k]. *)
Lemma sp_decompose es k : sp_sorted es ->
  es = sp_below k es ++ filter (fun l => rank l = k) es ++ sp_above k es
  /\ (length (filter (fun l => rank l = k) es) <= 1)%nat.
Proof.
  intros Hs. unfold sp_below, sp_above. induction Hs as [|a es Hs IH Ha]; [simpl; split; [done | lia] |].
  destruct IH as [IH1 IH2]. rewrite Forall_forall in Ha. rewrite !filter_cons.
  assert (Habove : k <= rank a ->
    filter (fun l => rank l < k) es = [] /\ filter (fun l => rank l = k) es = []
    /\ filter (fun l => k < rank l) es = es).
  { intros Hk. split_and!.
    - apply elem_of_nil_inv. intros x [? Hx]%list_elem_of_filter. specialize (Ha x Hx). lia.
    - apply elem_of_nil_inv. intros x [? Hx]%list_elem_of_filter. specialize (Ha x Hx). lia.
    - apply filter_all. intros x Hx. specialize (Ha x Hx). lia. }
  destruct (Z.lt_trichotomy (rank a) k) as [? | [? | ?]].
  - rewrite decide_True, (decide_False (P := rank a = k)), (decide_False (P := k < rank a)) by lia.
    split; [simpl; congruence | done].
  - destruct (Habove ltac:(lia)) as (-> & -> & ->).
    rewrite decide_False, decide_True, decide_False by lia. simpl. split; [done | lia].
  - destruct (Habove ltac:(lia)) as (-> & -> & ->).
    rewrite !decide_False, decide_True by lia. simpl. split; [done | lia].
Qed.

Lemma length_sp_remove es k : sp_sorted es -> sp_member es k = true ->
  length es = S (length (sp_remove es k)).
Proof.
  intros Hs Hm. destruct (sp_decompose es k Hs) as [He Hl].
  apply sp_member_spec in Hm as (x & Hx & Hk).
  assert (Hin : x ∈ filter (fun l => rank l = k) es) by (apply list_elem_of_filter; done).
  unfold sp_remove. rewrite He at 1. rewrite !length_app.
  destruct (filter (fun l => rank l = k) es) as [|? [|]]; [by apply elem_of_nil in Hin | | simpl in Hl; lia].
  simpl. lia.
Qed.

Lemma length_sp_upsert es l : sp_sorted es -> sp_member es (rank l) = false ->
  length (sp_upsert es l) = S (length es).
Proof.
  intros Hs Hm. destruct (sp_decompose es (rank l) Hs) as [He _].
  rewrite sp_member_false in Hm.
  assert (Hn : filter (fun x => rank x = rank l) es = []).
  { apply elem_of_nil_inv. intros x [? Hx]%list_elem_of_filter. by apply (Hm x Hx). }
  rewrite Hn in He. apply (f_equal length) in He. rewrite !length_app in He. simpl in He.
  unfold sp_upsert. rewrite !length_app. simpl. lia.
Qed.

Lemma length_sp_replace es k ls : sp_sorted es -> sp_member es k = true ->
  (length (sp_replace es k ls) + 1 = length es + length ls)%nat.
Proof.
  intros Hs Hm. rewrite (length_sp_remove es k) by done.
  unfold sp_replace, sp_remove. rewrite !length_app. lia.
Qed.

Lemma sp_predecessor_Some es k p : sp_sorted es -> sp_predecessor es k = Some p ->
  p ∈ es /\ rank p <= k /\ forall x, x ∈ es -> rank x <= k -> rank x <= rank p.
Proof.
  unfold sp_predecessor. intros Hs Hp.
  apply last_Some in Hp as (l' & Hl).
  assert (Hin : p ∈ filter (fun l => rank l <= k) es) by (rewrite Hl; apply elem_of_app; right; by left).
  apply list_elem_of_filter in Hin as [? ?]. split_and!; [done | done |].
  intros x Hx Hk.
  assert (Hx' : x ∈ filter (fun l => rank l <= k) es) by by apply list_elem_of_filter.
  pose proof (sp_sorted_filter es (fun l => rank l <= k) Hs) as Hf.
  rewrite Hl in Hx', Hf. apply elem_of_app in Hx' as [Hx' | ->%list_elem_of_singleton]; [| lia].
  apply StronglySorted_app in Hf as (Hlt & _). specialize (Hlt x p Hx' ltac:(by left)).
  simpl in Hlt. lia.
Qed.

Lemma sp_predecessor_None es k : sp_predecessor es k = None -> forall x, x ∈ es -> k < rank x.
Proof.
  unfold sp_predecessor. intros Hp x Hx. apply last_None in Hp.
  destruct (Z.lt_ge_cases k (rank x)); [done |].
  assert (Hx' : x ∈ filter (fun l => rank l <= k) es) by by apply list_elem_of_filter.
  rewrite Hp in Hx'. by apply elem_of_nil in Hx'.
Qed.

Lemma sp_at_or_after_Some es k p : sp_sorted es -> sp_at_or_after es k = Some p ->
  p ∈ es /\ k <= rank p /\ forall x, x ∈ es -> k <= rank x -> rank p <= rank x.
Proof.
  unfold sp_at_or_after. intros Hs Hp.
  destruct (filter (fun l => k <= rank l) es) as [|q l'] eqn:Hl; [done |].
  injection Hp as ->.
  assert (Hin : p ∈ filter (fun l => k <= rank l) es) by (rewrite Hl; by left).
  apply list_elem_of_filter in Hin as [? ?]. split_and!; [done | done |].
  intros x Hx Hk.
  assert (Hx' : x ∈ filter (fun l => k <= rank l) es) by by apply list_elem_of_filter.
  pose proof (sp_sorted_filter es (fun l => k <= rank l) Hs) as Hf.
  rewrite Hl in Hx', Hf. apply elem_of_cons in Hx' as [-> | Hx']; [lia |].
  inversion Hf as [|? ? _ Hall]; subst. rewrite Forall_forall in Hall. specialize (Hall x Hx'). lia.
Qed.

Lemma sp_at_or_after_None es k : sp_at_or_after es k = None -> forall x, x ∈ es -> rank x < k.
Proof.
  unfold sp_at_or_after. intros Hp x Hx. apply head_None in Hp.
  destruct (Z.lt_ge_cases (rank x) k); [done |].
  assert (Hx' : x ∈ filter (fun l => k <= rank l) es) by by apply list_elem_of_filter.
  rewrite Hp in Hx'. by apply elem_of_nil in Hx'.
Qed.
End ListSpec.

(** ** The interface *)

(** [trait LocalGap]: a rejected neighbour is returned, an accepted one is
    [None]. *)
Record LocalGap (L : Type) := mkLocalGap {
  gap_previous : bool -> option (list Z) -> Result (option L);
  gap_next : option (list Z) -> Result (option L);
}.
Arguments mkLocalGap {L} gap_previous gap_next.
Arguments gap_previous {L} l exact cell.
Arguments gap_next {L} l cell.

Inductive LocalInsert (Hint : Type) : Type :=
| Inserted (page_number : Z)
| General (rejected : Hint).
Arguments Inserted {Hint} page_number.
Arguments General {Hint} rejected.

(** [T] is the store together with the root the caller passes along. *)
Class OrderedTree (K L T Hint : Type) := {
  tree_predecessor : T -> K -> Result (option L);
  tree_at_or_after : T -> K -> Result (option L);
  tree_insert_retiring : T -> list Z -> Result (T * bool);
  tree_delete_retiring : T -> K -> Result T;
  tree_replace_leaf_with : T -> K -> list (list Z) -> Result (T * list Z);
  tree_retire_pages : T -> list Z -> Result T;
  hint_predecessor : Hint -> option L;
  tree_replace_local_predecessor_with : T -> Hint -> K -> list (list Z) -> Result T;
  tree_insert_if_local_gap : T -> list Z -> LocalGap L -> Result (T * LocalInsert Hint * list Z);
  record_added : T -> Z -> Result T;
  record_removed : T -> Z -> Result T;
}.

(** A gap predicate decided by the neighbouring records: [prev_ok exact p]
    and [next_ok n] say whether the neighbour leaves room for the new record. *)
Definition gap_decides {K L} `{Codec K L} (gap : LocalGap L)
    (prev_ok : bool -> L -> bool) (next_ok : L -> bool) : Prop :=
  (forall exact, gap_previous gap exact None = Ok None) /\
  gap_next gap None = Ok None /\
  (forall exact cell l, read_leaf cell = Ok l ->
     gap_previous gap exact (Some cell) = Ok (if prev_ok exact l then None else Some l)) /\
  (forall cell l, read_leaf cell = Ok l ->
     gap_next gap (Some cell) = Ok (if next_ok l then None else Some l)).

(** Records are ordered by [leaf_rank], keys by [key_rank]; [key_valid] are the
    keys the codec can read back, and [cell_of cell l] the cells the tree can
    store: [cell] is the encoding of [l]. *)
Class OrderedTreeLaws (K L T Hint : Type) `{Codec K L} `{OrderedTree K L T Hint}
    (leaf_rank : L -> Z) (key_rank : K -> Z) (key_valid : K -> Prop)
    (cell_of : list Z -> L -> Prop) := {
  (** [tree_rep t n es]: [t] holds the records [es] and can serve [n] more
      mutations; [tree_private t]: no page of it is committed. *)
  tree_rep : T -> nat -> list L -> Prop;
  tree_private : T -> Prop;
  hint_rep : T -> list L -> K -> Hint -> Prop;

  rep_sorted t n es : tree_rep t n es -> sp_sorted leaf_rank es;
  rep_weaken t n es : tree_rep t (S n) es -> tree_rep t n es;
  law_predecessor t n es k : tree_rep t n es -> key_valid k ->
    tree_predecessor t k = Ok (sp_predecessor leaf_rank es (key_rank k));
  law_at_or_after t n es k : tree_rep t n es -> key_valid k ->
    tree_at_or_after t k = Ok (sp_at_or_after leaf_rank es (key_rank k));
  law_insert t n es cell l : tree_rep t (S n) es -> cell_of cell l ->
    exists t', tree_insert_retiring t cell = Ok (t', negb (sp_member leaf_rank es (leaf_rank l)))
      /\ tree_rep t' n (sp_upsert leaf_rank es l)
      /\ (tree_private t -> tree_private t');
  law_delete t n es k : tree_rep t (S n) es -> key_valid k ->
    sp_member leaf_rank es (key_rank k) = true ->
    exists t', tree_delete_retiring t k = Ok t'
      /\ tree_rep t' n (sp_remove leaf_rank es (key_rank k))
      /\ (tree_private t -> tree_private t');
  law_replace t n es k cells ls : tree_rep t (S n) es -> key_valid k ->
    sp_member leaf_rank es (key_rank k) = true ->
    (2 <= length ls <= 3)%nat -> Forall2 cell_of cells ls ->
    (leaf_rank <$> head ls) = Some (key_rank k) ->
    sp_sorted leaf_rank (sp_replace leaf_rank es (key_rank k) ls) ->
    exists t' retired t'', tree_replace_leaf_with t k cells = Ok (t', retired)
      /\ tree_retire_pages t' retired = Ok t''
      /\ tree_rep t'' n (sp_replace leaf_rank es (key_rank k) ls)
      /\ (tree_private t -> tree_private t'');
  law_hint_predecessor t n es k h l : tree_rep t n es -> hint_rep t es k h ->
    hint_predecessor h = Some l -> sp_predecessor leaf_rank es (key_rank k) = Some l;
  law_replace_local t n es k h l key cells ls : tree_rep t (S n) es -> hint_rep t es k h ->
    hint_predecessor h = Some l -> key_valid key -> key_rank key = leaf_rank l ->
    (2 <= length ls <= 3)%nat -> Forall2 cell_of cells ls ->
    (leaf_rank <$> head ls) = Some (key_rank key) ->
    sp_sorted leaf_rank (sp_replace leaf_rank es (key_rank key) ls) ->
    exists t' t'', tree_replace_local_predecessor_with t h key cells = Ok t'
      /\ tree_retire_pages t' [] = Ok t''
      /\ tree_rep t'' n (sp_replace leaf_rank es (key_rank key) ls)
      /\ (tree_private t -> tree_private t'');
  law_insert_gap t n es cell l k gap prev_ok next_ok :
    tree_rep t (S n) es -> tree_private t -> cell_of cell l ->
    key_valid k -> key_rank k = leaf_rank l ->
    gap_decides gap prev_ok next_ok -> (forall p, prev_ok true p = false) ->
    exists t' r, tree_insert_if_local_gap t cell gap = Ok (t', r, [])
      /\ tree_private t'
      /\ match r with
         | Inserted _ =>
             sp_member leaf_rank es (leaf_rank l) = false
             /\ (forall p, sp_predecessor leaf_rank es (leaf_rank l) = Some p -> prev_ok false p = true)
             /\ (forall x, sp_at_or_after leaf_rank es (leaf_rank l) = Some x -> next_ok x = true)
             /\ tree_rep t' n (sp_upsert leaf_rank es l)
         | General h => tree_rep t' n es /\ hint_rep t' es k h
         end;
  law_record_added t n es v : tree_rep t (S n) es ->
    exists t', record_added t v = Ok t' /\ tree_rep t' n es /\ (tree_private t -> tree_private t');
  law_record_removed t n es v : tree_rep t (S n) es ->
    exists t', record_removed t v = Ok t' /\ tree_rep t' n es /\ (tree_private t -> tree_private t');
}.

(** ** The reference implementation: the sorted list itself *)

Module ListTree.
Section ListTree.
Context {K L : Type} `{Codec K L} (leaf_rank : L -> Z) (key_rank : K -> Z) (enc : L -> list Z).

Fixpoint decode_all (cells : list (list Z)) : Result (list L) :=
  match cells with
  | [] => Ok []
  | cell :: cells => l ← read_leaf cell; ls ← decode_all cells; Ok (l :: ls)
  end.

Definition insert_retiring (t : list L) (cell : list Z) : Result (list L * bool) :=
  l ← read_leaf cell;
  Ok (sp_upsert leaf_rank t l, negb (sp_member leaf_rank t (leaf_rank l))).

Definition delete_retiring (t : list L) (k : K) : Result (list L) :=
  if sp_member leaf_rank t (key_rank k) then Ok (sp_remove leaf_rank t (key_rank k))
  else Err (Corrupt "record is absent").

Definition replace_leaf (t : list L) (k : K) (cells : list (list Z)) : Result (list L) :=
  ls ← decode_all cells;
  if sp_member leaf_rank t (key_rank k) then Ok (sp_replace leaf_rank t (key_rank k) ls)
  else Err (Corrupt "record is absent").

Definition insert_if_local_gap (t : list L) (cell : list Z) (gap : LocalGap L)
    : Result (list L * LocalInsert (option L) * list Z) :=
  l ← read_leaf cell;
  rejected ← gap_previous gap (sp_member leaf_rank t (leaf_rank l))
               (enc <$> sp_predecessor leaf_rank t (leaf_rank l));
  match rejected with
  | Some p => Ok (t, General (Some p), [])
  | None =>
      rejected ← gap_next gap (enc <$> sp_at_or_after leaf_rank t (leaf_rank l));
      match rejected with
      | Some _ => Ok (t, General None, [])
      | None => Ok (sp_upsert leaf_rank t l, Inserted 0, [])
      end
  end.

Definition ops : OrderedTree K L (list L) (option L) := {|
  tree_predecessor t k := Ok (sp_predecessor leaf_rank t (key_rank k));
  tree_at_or_after t k := Ok (sp_at_or_after leaf_rank t (key_rank k));
  tree_insert_retiring := insert_retiring;
  tree_delete_retiring := delete_retiring;
  tree_replace_leaf_with t k cells := t ← replace_leaf t k cells; Ok (t, []);
  tree_retire_pages t _ := Ok t;
  hint_predecessor h := h;
  tree_replace_local_predecessor_with t _ k cells := replace_leaf t k cells;
  tree_insert_if_local_gap := insert_if_local_gap;
  record_added t _ := Ok t;
  record_removed t _ := Ok t;
|}.

Context (key_valid : K -> Prop) (cell_of : list Z -> L -> Prop).
Context (cell_of_enc : forall cell l, cell_of cell l -> cell = enc l).
Context (cell_of_read : forall cell l, cell_of cell l -> read_leaf cell = Ok l).

Definition list_rep (t : list L) (_ : nat) (es : list L) : Prop :=
  t = es /\ sp_sorted leaf_rank es /\ Forall (fun l => cell_of (enc l) l) es.

Lemma decode_all_cells cells ls : Forall2 cell_of cells ls -> decode_all cells = Ok ls.
Proof.
  intros Hc. induction Hc as [|cell l cells ls Hl _ IH]; [done |].
  simpl. rewrite (cell_of_read _ _ Hl). simpl. by rewrite IH.
Qed.

Lemma cells_stored cells ls : Forall2 cell_of cells ls -> Forall (fun l => cell_of (enc l) l) ls.
Proof.
  intros Hc. induction Hc as [|cell l cells ls Hl _ IH]; [constructor |].
  constructor; [| done]. by rewrite <- (cell_of_enc _ _ Hl).
Qed.

Lemma list_rep_replace t n es k cells ls :
  list_rep t n es -> Forall2 cell_of cells ls ->
  sp_sorted leaf_rank (sp_replace leaf_rank es k ls) ->
  list_rep (sp_replace leaf_rank es k ls) n (sp_replace leaf_rank es k ls).
Proof.
  intros (-> & Hs & Hf) Hc Hs'. split_and!; [done | done |].
  apply cells_stored in Hc. rewrite Forall_forall in Hf, Hc |- *.
  intros x [? | [? ?]]%elem_of_replace; auto.
Qed.

Lemma list_rep_remove t n es k : list_rep t n es ->
  list_rep (sp_remove leaf_rank es k) n (sp_remove leaf_rank es k).
Proof.
  intros (-> & Hs & Hf). split_and!; [done | by apply sp_sorted_remove |].
  rewrite Forall_forall in Hf |- *. intros x [? ?]%elem_of_remove; auto.
Qed.

Lemma list_rep_upsert t n es cell l : list_rep t n es -> cell_of cell l ->
  list_rep (sp_upsert leaf_rank es l) n (sp_upsert leaf_rank es l).
Proof.
  intros Hr Hc. apply (list_rep_replace t n es (leaf_rank l) [cell] [l]); [done | by repeat constructor |].
  apply sp_sorted_upsert, Hr.
Qed.

Lemma list_replace_leaf t n es k cells ls :
  list_rep t n es -> sp_member leaf_rank es (key_rank k) = true -> Forall2 cell_of cells ls ->
  replace_leaf t k cells = Ok (sp_replace leaf_rank es (key_rank k) ls).
Proof.
  intros (-> & _ & _) Hm Hc. unfold replace_leaf.
  rewrite (decode_all_cells _ _ Hc). simpl. by rewrite Hm.
Qed.

Lemma list_gap t n es cell l k gap prev_ok next_ok :
  list_rep t n es -> cell_of cell l -> key_rank k = leaf_rank l ->
  gap_decides gap prev_ok next_ok -> (forall p, prev_ok true p = false) ->
  exists t' r, insert_if_local_gap t cell gap = Ok (t', r, [])
    /\ match r with
       | Inserted _ =>
           sp_member leaf_rank es (leaf_rank l) = false
           /\ (forall p, sp_predecessor leaf_rank es (leaf_rank l) = Some p -> prev_ok false p = true)
           /\ (forall x, sp_at_or_after leaf_rank es (leaf_rank l) = Some x -> next_ok x = true)
           /\ list_rep t' n (sp_upsert leaf_rank es l)
       | General h => list_rep t' n es
           /\ (forall p, h = Some p -> sp_predecessor leaf_rank es (key_rank k) = Some p)
       end.
Proof.
  intros Hr Hc Hk (Hg1 & Hg2 & Hg3 & Hg4) Hex. pose proof Hr as (-> & Hs & Hf).
  rewrite Forall_forall in Hf.
  assert (Hread : forall x, x ∈ es -> read_leaf (enc x) = Ok x) by eauto.
  unfold insert_if_local_gap. rewrite (cell_of_read _ _ Hc). cbn [mbind outcome_bind].
  assert (Hin : forall x, sp_at_or_after leaf_rank es (leaf_rank l) = Some x ->
                gap_next gap (Some (enc x)) = Ok (if next_ok x then None else Some x)).
  { intros x Hx. apply Hg4, Hread. by apply sp_at_or_after_Some in Hx as [? _]. }
  destruct (sp_predecessor leaf_rank es (leaf_rank l)) as [p|] eqn:Hp; cbn [fmap option_fmap option_map].
  - pose proof (sp_predecessor_Some leaf_rank es _ _ Hs Hp) as (Hpe & _ & _).
    rewrite (Hg3 _ _ _ (Hread p Hpe)). cbn [mbind outcome_bind].
    destruct (sp_member leaf_rank es (leaf_rank l)) eqn:Hm.
    + rewrite Hex. eexists _, _. split; [done |]. split; [done |]. naive_solver congruence.
    + destruct (prev_ok false p) eqn:Hpo;
        [| eexists _, _; split; [done |]; split; [done |]; naive_solver congruence].
      destruct (sp_at_or_after leaf_rank es (leaf_rank l)) as [x|] eqn:Hx;
        cbn [fmap option_fmap option_map]; [rewrite (Hin x eq_refl); destruct (next_ok x) eqn:? | rewrite Hg2];
        eexists _, _; (split; [done |]); simpl; split_and!; eauto using list_rep_upsert; naive_solver.
  - rewrite Hg1. cbn [mbind outcome_bind].
    assert (Hm : sp_member leaf_rank es (leaf_rank l) = false).
    { apply sp_member_false. intros x Hx. pose proof (sp_predecessor_None leaf_rank _ _ Hp x Hx). lia. }
    destruct (sp_at_or_after leaf_rank es (leaf_rank l)) as [x|] eqn:Hx;
      cbn [fmap option_fmap option_map]; [rewrite (Hin x eq_refl); destruct (next_ok x) eqn:? | rewrite Hg2];
      eexists _, _; (split; [done |]); simpl; split_and!; eauto using list_rep_upsert; naive_solver.
Qed.

Definition laws : @OrderedTreeLaws K L (list L) (option L) _ ops leaf_rank key_rank key_valid cell_of.
Proof.
  refine (@Build_OrderedTreeLaws K L (list L) (option L) _ ops leaf_rank key_rank key_valid cell_of
            list_rep (fun _ => True)
            (fun t es k h => forall l, h = Some l -> sp_predecessor leaf_rank es (key_rank k) = Some l)
            _ _ _ _ _ _ _ _ _ _ _ _); cbn [ops tree_predecessor tree_at_or_after tree_insert_retiring
              tree_delete_retiring tree_replace_leaf_with tree_retire_pages hint_predecessor
              tree_replace_local_predecessor_with tree_insert_if_local_gap record_added record_removed].
  - by intros t n es (_ & ? & _).
  - done.
  - by intros t n es k (-> & _ & _).
  - by intros t n es k (-> & _ & _).
  - intros t n es cell l Hr Hc. unfold insert_retiring. rewrite (cell_of_read _ _ Hc). simpl.
    pose proof Hr as (-> & _ & _). eexists. split; [done |]. split; [| done].
    by apply (list_rep_upsert es (S n) es cell).
  - intros t n es k Hr _ Hm. unfold delete_retiring. pose proof Hr as (-> & _ & _). rewrite Hm.
    eexists. split; [done |]. split; [| done]. by apply (list_rep_remove es (S n)).
  - intros t n es k cells ls Hr _ Hm _ Hc _ Hs.
    rewrite (list_replace_leaf _ _ _ _ _ _ Hr Hm Hc). eexists _, _, _. split; [done |]. split; [done |].
    split; [| done]. by eapply (list_rep_replace t (S n)).
  - naive_solver.
  - intros t n es k h l key cells ls Hr Hh -> _ Hk _ Hc _ Hs.
    assert (Hm : sp_member leaf_rank es (key_rank key) = true).
    { apply sp_member_spec. exists l. split; [| done].
      eapply sp_predecessor_Some; [apply Hr | by apply Hh]. }
    rewrite (list_replace_leaf _ _ _ _ _ _ Hr Hm Hc). eexists _, _. split; [done |]. split; [done |].
    split; [| done]. by eapply (list_rep_replace t (S n)).
  - intros t n es cell l k gap prev_ok next_ok Hr _ Hc _ Hk Hg Hex.
    destruct (list_gap t (S n) es cell l k gap prev_ok next_ok Hr Hc Hk Hg Hex) as (t' & r & -> & Hres).
    exists t', r. split_and!; [done | done |]. destruct r; exact Hres.
  - intros t n es v Hr. by exists t.
  - intros t n es v Hr. by exists t.
Defined.
End ListTree.
End ListTree.
