(* ===== verification/RangeMutation.v ===== *)
(** * Range assignment over the ordered tree

    [range_mutation.rs] and [range_mutation/assign.rs]: assigning, clearing and
    transforming an interval of a map kept as disjoint records
    [(from, to, value)] in the ordered tree.  The definitions follow the source
    call by call, with the tree and the record counter passed explicitly; this
    file holds the definitions, [RangeMap.v] the theorems. *)

From S2P Require Import Prelude Errors Bytes Cardinality Key Codec TreeInterface.
From stdpp Require Import base tactics numbers list strings.
From Stdlib Require Import ZArith Lia.

#[local] Open Scope string_scope.
#[local] Open Scope list_scope.
#[local] Open Scope Z_scope.

Section RangeMutation.
Context {K T Hint : Type} `{IpKey K} `{OrderedTree K (Range K) T Hint}.

(** The tree and [record_count], both passed as [&mut]. *)
Definition st : Type := T * Z.

(** [read_predecessor], [read_at_or_after]. *)
Definition read_predecessor (s : st) (key : K) : Result (option (Range K)) :=
  tree_predecessor (fst s) key.
Definition read_at_or_after (s : st) (key : K) : Result (option (Range K)) :=
  tree_at_or_after (fst s) key.

Definition count_up (count by_ : Z) : Result Z :=
  ok_or (checked_add u64_max count by_) (ArithmeticOverflow "range record count").

(** [insert]. *)
Definition insert (s : st) (range : Range K) : Result st :=
  encoded ← encoded_range range;
  '(t, inserted) ← tree_insert_retiring (fst s) encoded;
  if (inserted : bool) then
    count ← count_up (snd s) 1;
    t ← record_added t (r_value range);
    Ok (t, count)
  else Ok (t, snd s).

(** [remove]. *)
Definition remove (s : st) (range : Range K) : Result st :=
  t ← tree_delete_retiring (fst s) (r_from range);
  count ← ok_or (checked_sub (snd s) 1) (ArithmeticOverflow "range record count");
  t ← record_removed t (r_value range);
  Ok (t, count).

(** [a.checked_next() == Some(b)]. *)
Definition next_is (a b : K) : bool :=
  match checked_next a with Some a' => key_eqb a' b | None => false end.

(** [merge_previous]. *)
Definition merge_previous (s : st) (range : Range K) : Result (st * Range K) :=
  previous ← read_predecessor s (r_from range);
  match previous with
  | None => Ok (s, range)
  | Some previous =>
      if (r_value previous =? r_value range) && next_is (r_to previous) (r_from range)
      then s ← remove s previous;
           Ok (s, mkRange (r_from previous) (r_to range) (r_value range))
      else Ok (s, range)
  end.

(** [merge_next]. *)
Definition merge_next (s : st) (range : Range K) : Result (st * Range K) :=
  next ← read_at_or_after s (r_from range);
  match next with
  | None => Ok (s, range)
  | Some next =>
      if (r_value next =? r_value range) && next_is (r_to range) (r_from next)
      then s ← remove s next;
           Ok (s, mkRange (r_from range) (r_to next) (r_value range))
      else Ok (s, range)
  end.

(** [insert_coalesced]. *)
Definition insert_coalesced (s : st) (range : Range K) : Result st :=
  '(s, range) ← merge_previous s range;
  '(s, range) ← merge_next s range;
  insert s range.

Record Rewrite := mkRewrite {
  rw_left : option (Range K);
  rw_right : option (Range K);
  rw_changed : bool;
}.

(** [trim_predecessor]. *)
Definition trim_predecessor (s : st) (predecessor : option (Range K)) (from to : K)
    : Result (st * Rewrite) :=
  match predecessor with
  | Some old =>
      if key_leb from (r_to old) then
        s ← remove s old;
        left_ ← (if key_ltb (r_from old) from then
                  p ← expect (checked_previous from) "from is above old.from";
                  Ok (Some (mkRange (r_from old) p (r_value old)))
                else Ok None);
        right_ ← (if key_ltb to (r_to old) then
                   n ← expect (checked_next to) "to is below old.to";
                   Ok (Some (mkRange n (r_to old) (r_value old)))
                 else Ok None);
        Ok (s, mkRewrite left_ right_ true)
      else Ok (s, mkRewrite None None false)
  | None => Ok (s, mkRewrite None None false)
  end.

(** [trim_following].  Each iteration removes one record and so takes one off
    the counter, which is checked: [snd s + 1] iterations always suffice. *)
Fixpoint trim_following_loop (fuel : nat) (s : st) (from to : K) (rewrite_ : Rewrite)
    : Result (st * Rewrite) :=
  match fuel with
  | O => Panic "trim_following: iteration bound"
  | S fuel' =>
      old ← read_at_or_after s from;
      match old with
      | None => Ok (s, rewrite_)
      | Some old =>
          if key_ltb to (r_from old) then Ok (s, rewrite_)
          else
            s ← remove s old;
            if key_ltb to (r_to old) then
              n ← expect (checked_next to) "to is below old.to";
              Ok (s, mkRewrite (rw_left rewrite_)
                       (Some (mkRange n (r_to old) (r_value old))) true)
            else
              trim_following_loop fuel' s from to
                (mkRewrite (rw_left rewrite_) (rw_right rewrite_) true)
      end
  end.

Definition trim_following (s : st) (from to : K) (rewrite_ : Rewrite) : Result (st * Rewrite) :=
  trim_following_loop (S (Z.to_nat (snd s))) s from to rewrite_.

(** [write_replacement]. *)
Definition write_replacement (s : st) (from to : K) (value : option Z) (rewrite_ : Rewrite)
    : Result (st * bool) :=
  s ← match rw_left rewrite_ with
      | Some left_ => insert_coalesced s left_
      | None => Ok s
      end;
  s ← match value with
      | Some value => insert_coalesced s (mkRange from to value)
      | None => Ok s
      end;
  s ← match rw_right rewrite_ with
      | Some right_ => insert_coalesced s right_
      | None => Ok s
      end;
  Ok (s, rw_changed rewrite_ || bool_decide (is_Some value)).

(** [replace_strict_cells] followed by [store.retire_pages]. *)
Definition replace_strict_cells (t : T) (old_key : K) (cells : list (list Z))
    (hint : option Hint) : Result T :=
  match hint with
  | Some hint =>
      t ← tree_replace_local_predecessor_with t hint old_key cells;
      tree_retire_pages t []
  | None =>
      '(t, retired) ← tree_replace_leaf_with t old_key cells;
      tree_retire_pages t retired
  end.

(** [replace_strictly_inside]. *)
Definition replace_strictly_inside (s : st) (old : Range K) (from to : K)
    (value : option Z) (hint : option Hint) : Result (st * bool) :=
  p ← expect (checked_previous from) "from is above old.from";
  left_ ← encoded_range (mkRange (r_from old) p (r_value old));
  n ← expect (checked_next to) "to is below old.to";
  right_ ← encoded_range (mkRange n (r_to old) (r_value old));
  middle ← match value with
           | Some value => m ← encoded_range (mkRange from to value); Ok (Some m)
           | None => Ok None
           end;
  t ← match middle with
      | Some middle => replace_strict_cells (fst s) (r_from old) [left_; middle; right_] hint
      | None => replace_strict_cells (fst s) (r_from old) [left_; right_] hint
      end;
  count ← count_up (snd s) (match middle with Some _ => 2 | None => 1 end);
  t ← record_added t (match value with Some v => v | None => r_value old end);
  t ← match middle with
      | Some _ => record_added t (r_value old)
      | None => Ok t
      end;
  Ok ((t, count), true).

(** [replace_with_hint]. *)
Definition replace_with_hint (s : st) (from to : K) (value : option Z) (hint : option Hint)
    : Result (st * bool) :=
  if key_ltb to from then Err (InvalidArgument "range start is after its end")
  else
    '(predecessor, hint) ←
      match hint with
      | Some hint =>
          match hint_predecessor hint with
          | Some predecessor => Ok (Some predecessor, Some hint)
          | None => p ← read_predecessor s from; Ok (p, None)
          end
      | None => p ← read_predecessor s from; Ok (p, None)
      end;
    if match value, predecessor with
       | Some new_value, Some old => key_leb to (r_to old) && (r_value old =? new_value)
       | _, _ => false
       end
    then Ok (s, false)
    else
      match predecessor with
      | Some old =>
          if key_ltb (r_from old) from && key_ltb to (r_to old)
          then replace_strictly_inside s old from to value hint
          else
            '(s, rewrite_) ← trim_predecessor s predecessor from to;
            '(s, rewrite_) ← trim_following s from to rewrite_;
            write_replacement s from to value rewrite_
      | None =>
          '(s, rewrite_) ← trim_predecessor s predecessor from to;
          '(s, rewrite_) ← trim_following s from to rewrite_;
          write_replacement s from to value rewrite_
      end.

(** [replace], [assign], [clear], [assign_with_hint]. *)
Definition replace (s : st) (from to : K) (value : option Z) : Result (st * bool) :=
  replace_with_hint s from to value None.

Definition assign (s : st) (from to : K) (value : Z) : Result (st * bool) :=
  replace s from to (Some value).

Definition clear (s : st) (from to : K) : Result (st * bool) := replace s from to None.

Definition assign_with_hint (s : st) (range : Range K) (hint : Hint) : Result (st * bool) :=
  replace_with_hint s (r_from range) (r_to range) (Some (r_value range)) (Some hint).

(** [PrivateGap]: the new range neither overlaps its neighbours nor could be
    merged with one of them. *)
Definition private_previous_ok (range : Range K) (exact : bool) (previous : Range K) : bool :=
  negb (exact
        || key_leb (r_from range) (r_to previous)
        || ((r_value previous =? r_value range) && next_is (r_to previous) (r_from range))).

Definition private_next_ok (range : Range K) (next : Range K) : bool :=
  key_ltb (r_to range) (r_from next)
  && (negb (r_value next =? r_value range) || negb (next_is (r_to range) (r_from next))).

Definition PrivateGap (range : Range K) : LocalGap (Range K) :=
  mkLocalGap
    (fun exact cell =>
       match cell with
       | Some cell =>
           previous ← decode_cell cell;
           Ok (if private_previous_ok range exact previous then None else Some previous)
       | None => Ok None
       end)
    (fun cell =>
       match cell with
       | None => Ok None
       | Some cell =>
           next ← decode_cell cell;
           Ok (if private_next_ok range next then None else Some next)
       end).

(** [account_private_insert], [insert_private_gap], [assign_private]. *)
Definition account_private_insert (s : st) (value : Z) : Result st :=
  count ← count_up (snd s) 1;
  t ← record_added (fst s) value;
  Ok (t, count).

Definition insert_private_gap (s : st) (range : Range K) : Result (st * LocalInsert Hint) :=
  encoded ← encoded_range range;
  '(t, result, retired) ← tree_insert_if_local_gap (fst s) encoded (PrivateGap range);
  match result with
  | Inserted page =>
      if bool_decide (retired = [])
      then s ← account_private_insert (t, snd s) (r_value range); Ok (s, Inserted page)
      else Err (Corrupt "private range insertion retired a page")
  | General h => Ok ((t, snd s), General h)
  end.

Definition assign_private (s : st) (from to : K) (value : Z) : Result (st * bool) :=
  if key_ltb to from then Err (InvalidArgument "range start is after its end")
  else
    let range := mkRange from to value in
    '(s, r) ← insert_private_gap s range;
    match r with
    | Inserted _ => Ok (s, true)
    | General rejected => assign_with_hint s range rejected
    end.

(** [segment_at]: the maximal piece of one record, or of one gap, that starts
    at [from] and ends by [to]. *)
Record Segment := mkSegment { seg_to : K; seg_value : option Z }.

Definition segment_gap (s : st) (from to : K) : Result Segment :=
  next ← read_at_or_after s from;
  end_ ← match next with
         | Some next =>
             if key_leb (r_from next) to
             then ok_or (checked_previous (r_from next)) (Corrupt "range gap does not advance")
             else Ok to
         | None => Ok to
         end;
  Ok (mkSegment end_ None).

Definition segment_at (s : st) (from to : K) : Result Segment :=
  previous ← read_predecessor s from;
  match previous with
  | Some range =>
      if key_leb from (r_to range)
      then Ok (mkSegment (key_min (r_to range) to) (Some (r_value range)))
      else segment_gap s from to
  | None => segment_gap s from to
  end.

(** [transform]: apply [operation] to every piece of constant value in
    [from..=to].  [fuel] bounds the iterations of the loop. *)
Context (operation : T -> option Z -> Result (T * option Z)).

Fixpoint transform_loop (fuel : nat) (s : st) (cursor to : K) (changed : bool)
    : Result (st * bool) :=
  match fuel with
  | O => Panic "transform: iteration bound"
  | S fuel' =>
      segment ← segment_at s cursor to;
      '(t, value) ← operation (fst s) (seg_value segment);
      let s := (t, snd s) in
      '(s, changed) ←
        (if bool_decide (value = seg_value segment) then Ok (s, changed)
         else '(s, _) ← replace s cursor (seg_to segment) value; Ok (s, true));
      if key_eqb (seg_to segment) to then Ok (s, changed)
      else
        cursor ← ok_or (checked_next (seg_to segment))
                   (ArithmeticOverflow "membership range cursor");
        transform_loop fuel' s cursor to changed
  end.

Definition transform (fuel : nat) (s : st) (from to : K) : Result (st * bool) :=
  if key_ltb to from then Err (InvalidArgument "range start is after its end")
  else transform_loop fuel s from to false.
End RangeMutation.
