(* ===== verification/RangeMap.v ===== *)
(** * Correctness of range assignment

    The records of the tree denote a partial function from addresses to
    values.  The invariant [canonical] says the records are well formed,
    disjoint, and maximal: two records that touch carry different values.
    Against the tree's contract ([OrderedTreeLaws]) every operation of
    [RangeMutation] returns, keeps the invariant and the record counter, and
    changes the function exactly on the interval it was given. *)

From stdpp Require Import base tactics numbers list strings sorting.
From Stdlib Require Import ZArith Lia.
From S2P Require Import Prelude Errors Bytes Cardinality Key Codec TreeInterface RangeMutation.

#[local] Open Scope string_scope.
#[local] Open Scope list_scope.
#[local] Open Scope Z_scope.

(** ** The function a record list denotes *)

Section Denotation.
Context {K : Type} `{IpKeyLaws K}.

Definition rf (r : Range K) : Z := key_num (r_from r).
Definition rt (r : Range K) : Z := key_num (r_to r).

Fixpoint rng_lookup (es : list (Range K)) (a : Z) : option Z :=
  match es with
  | [] => None
  | r :: es => if (rf r <=? a) && (a <=? rt r) then Some (r_value r) else rng_lookup es a
  end.

(** Disjoint, and no two touching records with one value. *)
Definition apart (a b : Range K) : Prop :=
  rt a < rf b /\ (rt a + 1 = rf b -> r_value a <> r_value b).

Definition canonical (es : list (Range K)) : Prop :=
  (forall r, r ∈ es -> range_ok r) /\
  (forall a b, a ∈ es -> b ∈ es -> rf a < rf b -> apart a b).

(** [assign]'s and [clear]'s specification. *)
Definition updated (f : Z -> option Z) (from to : Z) (value : option Z) (a : Z) : option Z :=
  if (from <=? a) && (a <=? to) then value else f a.

Definition value_ok (value : option Z) : Prop :=
  match value with Some v => 0 <= v <= u32_max | None => True end.

Definition range_cell (cell : list Z) (r : Range K) : Prop := range_ok r /\ cell = range_bytes r.

Definition spans (r : Range K) (a v : Z) : Prop := rf r <= a <= rt r /\ r_value r = v.
Definition has (es : list (Range K)) (a v : Z) : Prop := exists r, r ∈ es /\ spans r a v.
(** [r] can be added to [es] as it is. *)
Definition fits (es : list (Range K)) (r : Range K) : Prop :=
  range_ok r /\ forall x, x ∈ es -> rt x < rf r \/ rt r < rf x.

Lemma range_ok_num r : range_ok r -> 0 <= rf r <= rt r /\ rt r <= key_top.
Proof.
  intros (Hf & Ht & Hle & _). unfold rf, rt.
  pose proof (key_num_range _ Hf). pose proof (key_num_range _ Ht). lia.
Qed.

Lemma canonical_sub es es' : canonical es -> (forall x, x ∈ es' -> x ∈ es) -> canonical es'.
Proof. intros [H1 H2] Hs. split; [auto | intros; apply H2; auto]. Qed.

(** Two records that share an address are one. *)
Lemma canonical_inj es x y a :
  sp_sorted rf es -> canonical es -> x ∈ es -> y ∈ es ->
  rf x <= a <= rt x -> rf y <= a <= rt y -> x = y.
Proof.
  intros Hs [_ Hc] Hx Hy Hax Hay.
  destruct (Z.lt_trichotomy (rf x) (rf y)) as [Hlt | [Heq | Hlt]].
  - destruct (Hc x y Hx Hy Hlt). lia.
  - by apply (sp_sorted_inj rf es).
  - destruct (Hc y x Hy Hx Hlt). lia.
Qed.

Lemma rng_lookup_has es a v :
  sp_sorted rf es -> canonical es -> rng_lookup es a = Some v <-> has es a v.
Proof.
  intros Hs Hc. unfold has, spans.
  induction es as [|r es IH]; simpl; [split; [done | by intros (? & []%elem_of_nil & _)] |].
  inversion Hs as [|? ? Hs' Hall]; subst.
  assert (Hc' : canonical es) by (eapply canonical_sub; [done |]; intros; by right).
  destruct (Z.leb_spec (rf r) a), (Z.leb_spec a (rt r)); cbn [andb]; rewrite ?(IH Hs' Hc');
    setoid_rewrite elem_of_cons.
  - split; [intros [= <-]; exists r; naive_solver |].
    intros (x & Hx & Ha & <-). f_equal. f_equal.
    eapply (canonical_inj (r :: es)); try done; [by left | by apply elem_of_cons].
  - split; [naive_solver |]. intros (x & [-> | Hx] & Ha & <-); [lia | naive_solver].
  - split; [naive_solver |]. intros (x & [-> | Hx] & Ha & <-); [lia | naive_solver].
  - split; [naive_solver |]. intros (x & [-> | Hx] & Ha & <-); [lia | naive_solver].
Qed.

Lemma rng_lookup_None es a :
  rng_lookup es a = None <-> forall r, r ∈ es -> ~ (rf r <= a <= rt r).
Proof.
  induction es as [|r es IH]; simpl; [split; [intros _ r []%elem_of_nil | done] |].
  destruct (Z.leb_spec (rf r) a), (Z.leb_spec a (rt r)); cbn [andb]; rewrite ?IH;
    setoid_rewrite elem_of_cons; split; try done; naive_solver lia.
Qed.

Lemma has_remove es p a v : sp_sorted rf es -> p ∈ es ->
  has es a v <-> spans p a v \/ has (sp_remove rf es (rf p)) a v.
Proof.
  intros Hs Hp. unfold has. setoid_rewrite elem_of_remove. split.
  - intros (r & Hr & Ha). destruct (decide (rf r = rf p)) as [He | Hne]; [| right; eauto].
    left. by rewrite <- (sp_sorted_inj rf es r p).
  - intros [? | (r & [? _] & ?)]; eauto.
Qed.

Lemma has_upsert es r a v : (forall x, x ∈ es -> rf x <> rf r) ->
  has (sp_upsert rf es r) a v <-> spans r a v \/ has es a v.
Proof.
  intros Hm. unfold has. setoid_rewrite elem_of_upsert. split.
  - intros (x & [-> | [? _]] & ?); eauto.
  - intros [? | (x & ? & ?)]; eauto 7.
Qed.

Lemma fits_not_member es r : (forall x, x ∈ es -> range_ok x) -> fits es r ->
  forall x, x ∈ es -> rf x <> rf r.
Proof.
  intros Hok [Hr Hf] x Hx. pose proof (range_ok_num _ (Hok x Hx)).
  pose proof (range_ok_num _ Hr). destruct (Hf x Hx); lia.
Qed.

(** Adding a range that fits and touches no record of its own value. *)
Lemma canonical_upsert es r : canonical es -> fits es r ->
  (forall x, x ∈ es -> rt x + 1 = rf r -> r_value x <> r_value r) ->
  (forall x, x ∈ es -> rt r + 1 = rf x -> r_value r <> r_value x) ->
  canonical (sp_upsert rf es r).
Proof.
  intros [Hok Hc] [Hr Hf] Hl Hn. pose proof (range_ok_num _ Hr) as Hrn.
  split; [intros x [-> | [? _]]%elem_of_upsert; auto |].
  intros a b [-> | [Ha _]]%elem_of_upsert [-> | [Hb _]]%elem_of_upsert Hlt; [lia | | | auto].
  - pose proof (range_ok_num _ (Hok b Hb)). split; [destruct (Hf b Hb); lia | auto].
  - pose proof (range_ok_num _ (Hok a Ha)). split; [destruct (Hf a Ha); lia | auto].
Qed.

(** A canonical map whose value is constant on an interval covers it with one
    record. *)
Lemma canonical_covers es from to v :
  sp_sorted rf es -> canonical es -> from <= to ->
  (forall a, from <= a <= to -> has es a v) ->
  exists r, r ∈ es /\ rf r <= from /\ to <= rt r /\ r_value r = v.
Proof.
  intros Hs Hc Hle Hall. destruct (Hall from ltac:(lia)) as (r & Hr & Har & Hv).
  exists r. split_and!; [done | lia | | done].
  destruct (Z.le_gt_cases to (rt r)) as [? | Hgt]; [done |]. exfalso.
  destruct (Hall (rt r + 1) ltac:(lia)) as (x & Hx & Hax & Hvx).
  destruct Hc as [Hok Hc]. pose proof (range_ok_num _ (Hok r Hr)).
  destruct (Z.lt_trichotomy (rf x) (rf r)) as [Hlt | [Heq | Hlt]].
  - destruct (Hc x r Hx Hr Hlt). lia.
  - assert (x = r) as -> by by apply (sp_sorted_inj rf es). lia.
  - destruct (Hc r x Hr Hx Hlt) as [? Hd]. apply Hd; [lia | congruence].
Qed.

Lemma next_is_num (a b : K) : key_ok a -> key_ok b ->
  next_is a b = (key_num a + 1 =? key_num b).
Proof.
  intros Ha Hb. unfold next_is. pose proof (checked_next_num a Ha) as Hn.
  pose proof (key_num_range b Hb).
  destruct (checked_next a) as [a'|].
  - destruct Hn as [? Hn]. rewrite key_eqb_num by done. by rewrite Hn.
  - symmetry. apply Z.eqb_neq. lia.
Qed.

Lemma checked_previous_above (k : K) : key_ok k -> 0 < key_num k ->
  exists p, checked_previous k = Some p /\ key_ok p /\ key_num p = key_num k - 1.
Proof.
  intros Hk Hlt. pose proof (checked_previous_num k Hk) as Hp.
  destruct (checked_previous k); [naive_solver | lia].
Qed.

Lemma checked_next_below (k : K) : key_ok k -> key_num k < key_top ->
  exists p, checked_next k = Some p /\ key_ok p /\ key_num p = key_num k + 1.
Proof.
  intros Hk Hlt. pose proof (checked_next_num k Hk) as Hp.
  destruct (checked_next k); [naive_solver | lia].
Qed.
End Denotation.

(** ** The operations against the tree's contract *)

Section Operations.
Context {K T Hint : Type} `{IpKeyLaws K} `{!OrderedTree K (Range K) T Hint}.
Context `{!OrderedTreeLaws K (Range K) T Hint rf key_num key_ok range_cell}.

Implicit Types (s : @st T) (es : list (Range K)) (r : Range K) (n : nat).

(** The tree holds [es], the counter is their number, and the store can
    serve [n] more mutations. *)
Definition map_rep (s : @st T) (n : nat) (es : list (Range K)) : Prop :=
  tree_rep (fst s) n es /\ snd s = zlen es.

Definition keeps_private (s s' : @st T) : Prop := tree_private (fst s) -> tree_private (fst s').

Lemma rep_le t m n es : tree_rep t m es -> (n <= m)%nat -> tree_rep t n es.
Proof. intros Hr Hle. induction Hle as [|m Hle IH]; [done |]. by apply IH, rep_weaken. Qed.

Lemma map_rep_le s m n es : map_rep s m es -> (n <= m)%nat -> map_rep s n es.
Proof. intros [? ?] ?. split; [by eapply rep_le | done]. Qed.

Lemma map_rep_sorted s n es : map_rep s n es -> sp_sorted rf es.
Proof. intros [? _]. by eapply rep_sorted. Qed.

Lemma read_predecessor_ok s n es (k : K) : map_rep s n es -> key_ok k ->
  read_predecessor s k = Ok (sp_predecessor rf es (key_num k)).
Proof. intros [? _] ?. by eapply law_predecessor. Qed.

Lemma read_at_or_after_ok s n es (k : K) : map_rep s n es -> key_ok k ->
  read_at_or_after s k = Ok (sp_at_or_after rf es (key_num k)).
Proof. intros [? _] ?. by eapply law_at_or_after. Qed.

Lemma remove_ok s n es r : map_rep s (2 + n) es -> r ∈ es -> key_ok (r_from r) ->
  exists s', remove s r = Ok s' /\ map_rep s' n (sp_remove rf es (rf r)) /\ keeps_private s s'.
Proof.
  intros Hr Hin Hk. pose proof (map_rep_sorted _ _ _ Hr) as Hs. destruct Hr as [Hr Hn].
  assert (Hm : sp_member rf es (rf r) = true) by (apply sp_member_spec; eauto).
  unfold remove.
  destruct (law_delete (fst s) (1 + n) es (r_from r) Hr Hk Hm) as (t1 & -> & Hr1 & Hp1).
  pose proof (length_sp_remove rf es _ Hs Hm) as Hlen.
  cbn [mbind outcome_bind]. unfold checked_sub.
  destruct (Z.leb_spec 1 (snd s)); [| rewrite Hn in *; unfold zlen in *; lia].
  destruct (law_record_removed t1 n _ (r_value r) Hr1) as (t2 & Ht2 & Hr2 & Hp2).
  cbn [ok_or mbind outcome_bind]. rewrite Ht2. eexists. split; [done |].
  split; [split; [done |]; simpl; unfold zlen in *; lia | unfold keeps_private; simpl; auto].
Qed.

Lemma insert_ok s n es r : map_rep s (2 + n) es -> range_ok r ->
  (forall x, x ∈ es -> rf x <> rf r) -> zlen es + 1 <= u64_max ->
  exists s', insert s r = Ok s' /\ map_rep s' n (sp_upsert rf es r) /\ keeps_private s s'.
Proof.
  intros Hr Hok Hm Hmax. pose proof (map_rep_sorted _ _ _ Hr) as Hs. destruct Hr as [Hr Hn].
  apply sp_member_false in Hm.
  unfold insert. rewrite encoded_range_bytes by done. cbn [mbind outcome_bind].
  destruct (law_insert (fst s) (1 + n) es (range_bytes r) r Hr) as (t1 & -> & Hr1 & Hp1); [done |].
  rewrite Hm. cbn [negb mbind outcome_bind]. unfold count_up, checked_add.
  destruct (Z.leb_spec (snd s + 1) u64_max); [| rewrite Hn in *; lia].
  destruct (law_record_added t1 n _ (r_value r) Hr1) as (t2 & Ht2 & Hr2 & Hp2).
  cbn [ok_or mbind outcome_bind]. rewrite Ht2. eexists. split; [done |].
  pose proof (length_sp_upsert rf es r Hs Hm).
  split; [split; [done |]; simpl; unfold zlen in *; lia | unfold keeps_private; simpl; auto].
Qed.

Lemma range_ok_keys r : range_ok r -> key_ok (r_from r) /\ key_ok (r_to r).
Proof. by intros (? & ? & _). Qed.

(** What a merge step leaves: the record list and the pending range denote the
    same function as before. *)
Definition same_with (es : list (Range K)) (r : Range K) (es' : list (Range K)) (r' : Range K) : Prop :=
  forall a v, (spans r' a v \/ has es' a v) <-> (spans r a v \/ has es a v).

(** The only record that can touch [r] from below is the predecessor. *)
Lemma touching_below es r x : sp_sorted rf es -> canonical es -> fits es r ->
  x ∈ es -> rt x + 1 = rf r -> sp_predecessor rf es (rf r) = Some x.
Proof.
  intros Hs [Hoks Hap] [Hok Hd] Hx Hadj. pose proof (range_ok_num _ (Hoks x Hx)).
  pose proof (range_ok_num _ Hok). destruct (sp_predecessor rf es (rf r)) as [p|] eqn:Hp.
  - destruct (sp_predecessor_Some rf es _ _ Hs Hp) as (Hpe & Hple & Hpmax).
    specialize (Hpmax x Hx ltac:(lia)). f_equal.
    destruct (decide (rf x = rf p)) as [He | He]; [by apply (sp_sorted_inj rf es) |].
    pose proof (range_ok_num _ (Hoks p Hpe)). destruct (Hap x p Hx Hpe ltac:(lia)).
    destruct (Hd p Hpe); lia.
  - pose proof (sp_predecessor_None rf _ _ Hp x Hx). lia.
Qed.

(** The only record that can touch [r] from above is the successor. *)
Lemma touching_above es r x : sp_sorted rf es -> canonical es -> fits es r ->
  x ∈ es -> rt r + 1 = rf x -> sp_at_or_after rf es (rf r) = Some x.
Proof.
  intros Hs [Hoks Hap] [Hok Hd] Hx Hadj. pose proof (range_ok_num _ Hok).
  destruct (sp_at_or_after rf es (rf r)) as [p|] eqn:Hp.
  - destruct (sp_at_or_after_Some rf es _ _ Hs Hp) as (Hpe & Hple & Hpmin).
    specialize (Hpmin x Hx ltac:(lia)). pose proof (range_ok_num _ (Hoks p Hpe)). f_equal.
    destruct (decide (rf x = rf p)) as [He | He]; [by apply (sp_sorted_inj rf es) |].
    destruct (Hd p Hpe); lia.
  - pose proof (sp_at_or_after_None rf _ _ Hp x Hx). lia.
Qed.

Lemma fits_joined_below es r p : canonical es -> fits es r -> p ∈ es ->
  rt p + 1 = rf r ->
  fits (sp_remove rf es (rf p)) (mkRange (r_from p) (r_to r) (r_value r)).
Proof.
  intros [Hoks Hap] [Hok Hd] Hpe Hadj.
  pose proof (range_ok_num _ (Hoks p Hpe)). pose proof (range_ok_num _ Hok). split.
  - destruct Hok as (_ & ? & _ & ?). destruct (Hoks p Hpe) as (? & _ & _ & _).
    split_and!; simpl; try lia; try done. change (rf p <= rt r). lia.
  - intros x [Hx Hne]%elem_of_remove. change (rt x < rf p \/ rt r < rf x).
    pose proof (range_ok_num _ (Hoks x Hx)). destruct (Hd x Hx); [left | by right].
    destruct (Z.lt_trichotomy (rf x) (rf p)) as [? | [? | ?]]; [| lia |].
    + by destruct (Hap x p Hx Hpe).
    + destruct (Hap p x Hpe Hx ltac:(lia)). lia.
Qed.

Lemma fits_joined_above es r p : canonical es -> fits es r -> p ∈ es ->
  rt r + 1 = rf p ->
  fits (sp_remove rf es (rf p)) (mkRange (r_from r) (r_to p) (r_value r)).
Proof.
  intros [Hoks Hap] [Hok Hd] Hpe Hadj.
  pose proof (range_ok_num _ (Hoks p Hpe)). pose proof (range_ok_num _ Hok). split.
  - destruct Hok as (? & _ & _ & ?). destruct (Hoks p Hpe) as (_ & ? & _ & _).
    split_and!; simpl; try lia; try done. change (rf r <= rt p). lia.
  - intros x [Hx Hne]%elem_of_remove. change (rt x < rf r \/ rt p < rf x).
    pose proof (range_ok_num _ (Hoks x Hx)). destruct (Hd x Hx); [by left | right].
    destruct (Z.lt_trichotomy (rf x) (rf p)) as [? | [? | ?]]; [| lia |].
    + destruct (Hap x p Hx Hpe ltac:(lia)). lia.
    + by destruct (Hap p x Hpe Hx).
Qed.

Lemma canonical_remove es k : canonical es -> canonical (sp_remove rf es k).
Proof. intros Hc. eapply canonical_sub; [done |]. by intros x [? _]%elem_of_remove. Qed.

Lemma zlen_remove es p : sp_sorted rf es -> p ∈ es -> zlen (sp_remove rf es (rf p)) = zlen es - 1.
Proof.
  intros Hs Hp. assert (Hm : sp_member rf es (rf p) = true) by (apply sp_member_spec; eauto).
  pose proof (length_sp_remove rf es _ Hs Hm). unfold zlen. lia.
Qed.

Lemma merge_previous_ok s n es r :
  map_rep s (2 + n) es -> canonical es -> fits es r ->
  exists s' es' r', merge_previous s r = Ok (s', r')
    /\ map_rep s' n es' /\ canonical es' /\ fits es' r' /\ same_with es r es' r'
    /\ zlen es' <= zlen es
    /\ (forall x, x ∈ es' -> rt x + 1 = rf r' -> r_value x <> r_value r')
    /\ keeps_private s s'.
Proof.
  intros Hr Hc Hf. pose proof (map_rep_sorted _ _ _ Hr) as Hs.
  pose proof Hf as [Hok Hd]. pose proof Hc as [Hoks Hap].
  destruct (range_ok_keys r Hok) as [Hkf Hkt].
  unfold merge_previous. rewrite (read_predecessor_ok _ _ _ _ Hr Hkf). cbn [mbind outcome_bind].
  fold (rf r). pose proof (touching_below es r) as Htouch.
  destruct (sp_predecessor rf es (rf r)) as [p|] eqn:Hp;
    [destruct ((r_value p =? r_value r) && next_is (r_to p) (r_from r)) eqn:Hm |].
  2, 3: exists s, es, r; split; [done |]; split; [eapply map_rep_le; [done | lia] |];
    split; [done |]; split; [done |]; split; [by intros a v |]; split; [lia |]; split; [| by intros ?].
  - destruct (sp_predecessor_Some rf es _ _ Hs Hp) as (Hpe & Hple & _).
    destruct (range_ok_keys p (Hoks p Hpe)) as [Hpf Hpt].
    rewrite next_is_num in Hm by done. fold (rt p) (rf r) in Hm.
    apply andb_true_iff in Hm as [Hv%Z.eqb_eq Hadj%Z.eqb_eq].
    pose proof (range_ok_num _ (Hoks p Hpe)) as Hpn. pose proof (range_ok_num _ Hok) as Hrn.
    destruct (remove_ok s n es p Hr Hpe Hpf) as (s' & -> & Hr' & Hk'). cbn [mbind outcome_bind].
    eexists s', _, _. split; [done |]. split_and!;
      [done | by apply canonical_remove | by apply fits_joined_below | | rewrite zlen_remove by done; lia | | done].
    + intros a v. rewrite (has_remove es p) by done. unfold spans, rf, rt. simpl.
      fold (rf r) (rt r) (rf p) (rt p). intuition (lia || (subst; lia)).
    + intros x [Hx Hne]%elem_of_remove Hxp. change (rt x + 1 = rf p) in Hxp. simpl.
      pose proof (range_ok_num _ (Hoks x Hx)).
      destruct (Hap x p Hx Hpe ltac:(lia)) as [_ Hn]. rewrite <- Hv. by apply Hn.
  - intros x Hx Hadj Hv. specialize (Htouch x Hs Hc Hf Hx Hadj) as [= ->].
    rewrite next_is_num in Hm by (done || by destruct (Hoks x Hx) as (? & ? & _)).
    fold (rt x) (rf r) in Hm. rewrite Hv, Hadj, !Z.eqb_refl in Hm. done.
  - intros x Hx Hadj. by specialize (Htouch x Hs Hc Hf Hx Hadj).
Qed.
Lemma merge_next_ok s n es r :
  map_rep s (2 + n) es -> canonical es -> fits es r ->
  (forall x, x ∈ es -> rt x + 1 = rf r -> r_value x <> r_value r) ->
  exists s' es' r', merge_next s r = Ok (s', r')
    /\ map_rep s' n es' /\ canonical es' /\ fits es' r' /\ same_with es r es' r'
    /\ zlen es' <= zlen es
    /\ (forall x, x ∈ es' -> rt x + 1 = rf r' -> r_value x <> r_value r')
    /\ (forall x, x ∈ es' -> rt r' + 1 = rf x -> r_value r' <> r_value x)
    /\ keeps_private s s'.
Proof.
  intros Hr Hc Hf Hleft. pose proof (map_rep_sorted _ _ _ Hr) as Hs.
  pose proof Hf as [Hok Hd]. pose proof Hc as [Hoks Hap].
  destruct (range_ok_keys r Hok) as [Hkf Hkt].
  unfold merge_next. rewrite (read_at_or_after_ok _ _ _ _ Hr Hkf). cbn [mbind outcome_bind].
  fold (rf r). pose proof (touching_above es r) as Htouch.
  destruct (sp_at_or_after rf es (rf r)) as [p|] eqn:Hp;
    [destruct ((r_value p =? r_value r) && next_is (r_to r) (r_from p)) eqn:Hm |].
  2, 3: exists s, es, r; split; [done |]; split; [eapply map_rep_le; [done | lia] |];
    split; [done |]; split; [done |]; split; [by intros a v |]; split; [lia |]; split; [done |];
    split; [| by intros ?].
  - destruct (sp_at_or_after_Some rf es _ _ Hs Hp) as (Hpe & Hple & _).
    destruct (range_ok_keys p (Hoks p Hpe)) as [Hpf Hpt].
    rewrite next_is_num in Hm by done. fold (rt r) (rf p) in Hm.
    apply andb_true_iff in Hm as [Hv%Z.eqb_eq Hadj%Z.eqb_eq].
    pose proof (range_ok_num _ (Hoks p Hpe)) as Hpn. pose proof (range_ok_num _ Hok) as Hrn.
    destruct (remove_ok s n es p Hr Hpe Hpf) as (s' & -> & Hr' & Hk'). cbn [mbind outcome_bind].
    eexists s', _, _. split; [done |]. split; [done |]. split; [by apply canonical_remove |].
    split; [by apply fits_joined_above |].
    split; [| split; [rewrite zlen_remove by done; lia | split; [| split; [| done]]]].
    + intros a v. rewrite (has_remove es p) by done. unfold spans, rf, rt. simpl.
      fold (rf r) (rt r) (rf p) (rt p). intuition (lia || (subst; lia)).
    + intros x [Hx Hne]%elem_of_remove Hxr. by apply Hleft.
    + intros x [Hx Hne]%elem_of_remove Hxp. change (rt p + 1 = rf x) in Hxp. simpl.
      destruct (Hap p x Hpe Hx ltac:(lia)) as [_ Hn]. rewrite <- Hv. by apply Hn.
  - intros x Hx Hadj Hv. specialize (Htouch x Hs Hc Hf Hx Hadj) as [= ->].
    rewrite next_is_num in Hm by (done || by destruct (Hoks x Hx) as (? & ? & _)).
    fold (rt r) (rf x) in Hm. rewrite <- Hv, Hadj, !Z.eqb_refl in Hm. done.
  - intros x Hx Hadj. by specialize (Htouch x Hs Hc Hf Hx Hadj).
Qed.

(** Adding a range that overlaps no record, merging it with the neighbours it
    touches. *)
Lemma insert_coalesced_ok s n es r :
  map_rep s (6 + n) es -> canonical es -> fits es r -> zlen es + 1 <= u64_max ->
  exists s' es', insert_coalesced s r = Ok s'
    /\ map_rep s' n es' /\ canonical es' /\ zlen es' <= zlen es + 1
    /\ (forall a v, has es' a v <-> spans r a v \/ has es a v)
    /\ keeps_private s s'.
Proof.
  intros Hr Hc Hf Hmax. unfold insert_coalesced.
  destruct (merge_previous_ok s (4 + n) es r Hr Hc Hf)
    as (s1 & es1 & r1 & -> & Hr1 & Hc1 & Hf1 & Hw1 & Hz1 & Hl1 & Hk1).
  cbn [mbind outcome_bind].
  destruct (merge_next_ok s1 (2 + n) es1 r1 Hr1 Hc1 Hf1 Hl1)
    as (s2 & es2 & r2 & -> & Hr2 & Hc2 & Hf2 & Hw2 & Hz2 & Hl2 & Hn2 & Hk2).
  cbn [mbind outcome_bind].
  assert (Hnm : forall x, x ∈ es2 -> rf x <> rf r2).
  { apply fits_not_member; [| done]. by destruct Hc2. }
  destruct (insert_ok s2 n es2 r2 Hr2) as (s3 & -> & Hr3 & Hk3); [by destruct Hf2 | done | lia |].
  pose proof (length_sp_upsert rf es2 r2 (map_rep_sorted _ _ _ Hr2)) as Hlen.
  exists s3, (sp_upsert rf es2 r2). do 2 (split; [done |]).
  split; [by apply canonical_upsert |]. split; [| split].
  - unfold zlen in *. rewrite Hlen by by apply sp_member_false. lia.
  - intros a v. rewrite has_upsert by done. rewrite (Hw2 a v). apply Hw1.
  - intros ?. auto.
Qed.
(** The part of [o] below [from], and the part above [to]. *)
Definition left_of (from : K) (o l : Range K) : Prop :=
  range_ok l /\ rf l = rf o /\ rt l = key_num from - 1 /\ r_value l = r_value o.
Definition right_of (to : K) (o r : Range K) : Prop :=
  range_ok r /\ rf r = key_num to + 1 /\ rt r = rt o /\ r_value r = r_value o.

(** [found P o Q]: [o] is [Some r] with [Q] holding of [r] and an element
    satisfying [P], or [None] and no element satisfies [P]. *)
Definition found (es : list (Range K)) (P : Range K -> Prop) (Q : Range K -> Range K -> Prop)
    (o : option (Range K)) : Prop :=
  match o with
  | Some r => exists x, x ∈ es /\ P x /\ Q x r
  | None => forall x, x ∈ es -> ~ P x
  end.

Lemma left_piece (from : K) o : key_ok from -> range_ok o -> rf o < key_num from ->
  exists p, checked_previous from = Some p /\ left_of from o (mkRange (r_from o) p (r_value o)).
Proof.
  intros Hf Ho Hlt. pose proof (range_ok_num _ Ho).
  destruct (checked_previous_above from Hf ltac:(lia)) as (p & Hp & Hkp & Hnp).
  exists p. split; [done |]. destruct Ho as (? & ? & _ & ?). unfold left_of, range_ok, rf, rt in *. simpl.
  split_and!; done || lia.
Qed.

Lemma right_piece (to : K) o : key_ok to -> range_ok o -> key_num to < rt o ->
  exists p, checked_next to = Some p /\ right_of to o (mkRange p (r_to o) (r_value o)).
Proof.
  intros Hf Ho Hlt. pose proof (range_ok_num _ Ho).
  destruct (checked_next_below to Hf ltac:(lia)) as (p & Hp & Hkp & Hnp).
  exists p. split; [done |]. destruct Ho as (? & ? & _ & ?). unfold right_of, range_ok, rf, rt in *. simpl.
  split_and!; done || lia.
Qed.

(** The record that covers an address is the predecessor of that address. *)
Lemma covering_predecessor es x a : sp_sorted rf es -> canonical es -> x ∈ es ->
  rf x <= a <= rt x -> sp_predecessor rf es a = Some x.
Proof.
  intros Hs [Hoks Hap] Hx Hax. destruct (sp_predecessor rf es a) as [p|] eqn:Hp.
  - destruct (sp_predecessor_Some rf es _ _ Hs Hp) as (Hpe & Hple & Hmax).
    pose proof (Hmax x Hx ltac:(lia)). f_equal.
    destruct (decide (rf x = rf p)) as [He | He]; [by apply (sp_sorted_inj rf es) |].
    destruct (Hap x p Hx Hpe ltac:(lia)). lia.
  - pose proof (sp_predecessor_None rf _ _ Hp x Hx). lia.
Qed.

Lemma trim_predecessor_ok s n es (from to : K) :
  map_rep s (2 + n) es -> canonical es -> key_ok from -> key_ok to ->
  exists s' es' rw,
    trim_predecessor s (sp_predecessor rf es (key_num from)) from to = Ok (s', rw)
    /\ map_rep s' n es' /\ zlen es' <= zlen es
    /\ (forall x, x ∈ es' <-> x ∈ es /\ ~ (rf x <= key_num from <= rt x))
    /\ found es (fun x => rf x < key_num from <= rt x) (left_of from) (rw_left rw)
    /\ found es (fun x => rf x <= key_num from <= rt x /\ key_num to < rt x) (right_of to) (rw_right rw)
    /\ (rw_changed rw = true <-> exists x, x ∈ es /\ rf x <= key_num from <= rt x)
    /\ keeps_private s s'.
Proof.
  intros Hr Hc Hkf Hkt. pose proof (map_rep_sorted _ _ _ Hr) as Hs.
  pose proof Hc as [Hoks Hap]. unfold trim_predecessor.
  pose proof (fun x => covering_predecessor es x (key_num from)) as Hcov.
  destruct (sp_predecessor rf es (key_num from)) as [old|] eqn:Hp;
    [destruct (key_leb from (r_to old)) eqn:Hle |].
  2, 3: exists s, es, (mkRewrite None None false); split; [done |];
    split; [eapply map_rep_le; [done | lia] |]; split; [lia |].
  - destruct (sp_predecessor_Some rf es _ _ Hs Hp) as (Hpe & Hple & _).
    pose proof (Hoks old Hpe) as Hok. destruct (range_ok_keys old Hok) as [Hof Hot].
    rewrite key_leb_num in Hle by done. fold (rt old) in Hle. zb.
    assert (Huniq : forall x, x ∈ es -> rf x <= key_num from <= rt x -> x = old).
    { intros x Hx Hax. by injection (Hcov x Hs Hc Hx Hax). }
    destruct (remove_ok s n es old Hr Hpe Hof) as (s' & -> & Hr' & Hk'). cbn [mbind outcome_bind].
    rewrite !key_ltb_num by done. fold (rf old) (rt old).
    assert (Hmem : forall x, x ∈ sp_remove rf es (rf old) <-> x ∈ es /\ ~ (rf x <= key_num from <= rt x)).
    { intros x. rewrite elem_of_remove. split; intros [Hx Hn]; (split; [done |]).
      - intros Hax. apply Hn. by rewrite (Huniq x Hx Hax).
      - intros He. apply Hn. rewrite (sp_sorted_inj rf es x old Hs Hx Hpe He). lia. }
    assert (Hz : zlen (sp_remove rf es (rf old)) <= zlen es) by (rewrite zlen_remove by done; lia).
    destruct (Z.ltb_spec (rf old) (key_num from)) as [Hl | Hl];
      [destruct (left_piece from old Hkf Hok Hl) as (pl & -> & Hpl) |];
      (destruct (Z.ltb_spec (key_num to) (rt old)) as [Hr2 | Hr2];
        [destruct (right_piece to old Hkt Hok Hr2) as (pr & -> & Hpr) |]);
      cbn [expect mbind outcome_bind]; eexists s', _, _; (split; [done |]);
      (split; [done |]); (split; [done |]); (split; [done |]); simpl;
      (split; [eauto || (intros x Hx Hax; pose proof (Huniq x Hx ltac:(lia)); subst x; lia) |]);
      (split; [eauto 6 || (intros x Hx Hax; pose proof (Huniq x Hx ltac:(lia)); subst x; lia) |]);
      (split; [naive_solver | done]).
  - assert (Hno : forall x, x ∈ es -> ~ (rf x <= key_num from <= rt x)).
    { intros x Hx Hax. specialize (Hcov x Hs Hc Hx Hax) as [= ->].
      rewrite key_leb_num in Hle by (done || by destruct (Hoks x Hx) as (? & ? & _)).
      fold (rt x) in Hle. zb. lia. }
    split; [naive_solver |]. split; [intros x Hx ?; apply (Hno x Hx); lia |].
    split; [intros x Hx [? _]; by apply (Hno x Hx) |]. split; [naive_solver | by intros ?].
  - assert (Hno : forall x, x ∈ es -> ~ (rf x <= key_num from <= rt x)).
    { intros x Hx Hax. by specialize (Hcov x Hs Hc Hx Hax). }
    split; [naive_solver |]. split; [intros x Hx ?; apply (Hno x Hx); lia |].
    split; [intros x Hx [? _]; by apply (Hno x Hx) |]. split; [naive_solver | by intros ?].
Qed.
(** The records that start inside the interval, and the one among them that
    reaches beyond it. *)
Definition starts_in (from to : K) (x : Range K) : Prop := key_num from <= rf x <= key_num to.
Definition overhangs (from to : K) (x : Range K) : Prop :=
  starts_in from to x /\ key_num to < rt x.

Definition following_post s n es (from to : K) rw (res : Result (@st T * Rewrite)) : Prop :=
  exists s' es' rw', res = Ok (s', rw')
    /\ map_rep s' n es' /\ zlen es' <= zlen es
    /\ (forall x, x ∈ es' <-> x ∈ es /\ ~ starts_in from to x)
    /\ rw_left rw' = rw_left rw
    /\ ((exists x r, x ∈ es /\ overhangs from to x /\ rw_right rw' = Some r /\ right_of to x r)
        \/ ((forall x, x ∈ es -> ~ overhangs from to x) /\ rw_right rw' = rw_right rw))
    /\ (rw_changed rw' = true <-> rw_changed rw = true \/ exists x, x ∈ es /\ starts_in from to x)
    /\ keeps_private s s'.

Lemma following_stop s m n es (from to : K) rw :
  map_rep s m es -> (n <= m)%nat -> (forall x, x ∈ es -> ~ starts_in from to x) ->
  following_post s n es from to rw (Ok (s, rw)).
Proof.
  intros Hr Hle Hno. exists s, es, rw. split; [done |]. split; [by eapply map_rep_le |]. split; [lia |].
  split; [naive_solver |]. split; [done |].
  split; [right; split; [| done]; by intros x Hx [? _]; apply (Hno x) |].
  split; [naive_solver | by intros ?].
Qed.

Lemma trim_following_loop_ok fuel s n es (from to : K) rw :
  map_rep s (2 * length es + n) es -> canonical es -> key_ok from -> key_ok to ->
  (length es < fuel)%nat ->
  following_post s n es from to rw (trim_following_loop fuel s from to rw).
Proof.
  revert s n es rw. induction fuel as [|fuel IH]; intros s n es rw Hr Hc Hkf Hkt Hfuel; [lia |].
  pose proof (map_rep_sorted _ _ _ Hr) as Hs. pose proof Hc as [Hoks Hap].
  cbn [trim_following_loop]. rewrite (read_at_or_after_ok _ _ _ _ Hr Hkf). cbn [mbind outcome_bind].
  pose proof (following_stop s _ n es from to rw Hr ltac:(lia)) as Hstop.
  destruct (sp_at_or_after rf es (key_num from)) as [old|] eqn:Hp.
  2: { apply Hstop. intros x Hx [? _]. pose proof (sp_at_or_after_None rf _ _ Hp x Hx). lia. }
  destruct (sp_at_or_after_Some rf es _ _ Hs Hp) as (Hpe & Hple & Hmin).
  pose proof (Hoks old Hpe) as Hok. destruct (range_ok_keys old Hok) as [Hof Hot].
  rewrite !key_ltb_num by done. fold (rf old) (rt old).
  destruct (Z.ltb_spec (key_num to) (rf old)) as [Hout | Hin].
  { apply Hstop. intros x Hx [? ?]. pose proof (Hmin x Hx). lia. }
  clear Hstop. pose proof (zlen_remove es old Hs Hpe) as Hz.
  assert (Hlen : (length es = S (length (sp_remove rf es (rf old))))%nat) by (unfold zlen in Hz; lia).
  assert (Hr2 : map_rep s (2 + (2 * length (sp_remove rf es (rf old)) + n)) es)
    by (eapply map_rep_le; [exact Hr | lia]).
  destruct (remove_ok s _ es old Hr2 Hpe Hof) as (s1 & -> & Hr1 & Hk1). cbn [mbind outcome_bind].
  assert (Hsold : starts_in from to old) by (unfold starts_in; lia).
  assert (Hrank : forall x, x ∈ es -> ~ starts_in from to x -> rf x <> rf old).
  { intros x Hx Hn He. apply Hn. unfold starts_in. lia. }
  destruct (Z.ltb_spec (key_num to) (rt old)) as [Hov | Hnov].
  - destruct (right_piece to old Hkt Hok Hov) as (p & -> & Hpr). cbn [expect mbind outcome_bind].
    eexists s1, _, _. split; [done |]. split; [eapply map_rep_le; [done | lia] |]. split; [lia |].
    split; [| split; [done |]; split; [left; eexists old, _; by split_and! | split; [naive_solver | done]]].
    intros x. rewrite elem_of_remove. split; [| naive_solver]. intros [Hx Hne]. split; [done |].
    intros [? ?]. pose proof (Hmin x Hx ltac:(lia)). destruct (Hap old x Hpe Hx ltac:(lia)). lia.
  - destruct (IH s1 n (sp_remove rf es (rf old)) (mkRewrite (rw_left rw) (rw_right rw) true))
      as (s' & es' & rw' & -> & Hr' & Hz' & Hmem & Hl & Hrt & Hch & Hk');
      [done | by apply canonical_remove | done | done | lia |].
    setoid_rewrite elem_of_remove in Hmem.
    exists s', es', rw'. split; [done |]. split; [done |]. split; [lia |].
    split; [naive_solver |]. split; [done |]. split; [| split; [naive_solver | by intros ?; auto]].
    destruct Hrt as [(x & r & Hx & Hrest) | [Hno Heq]].
    + left. exists x, r. split; [| done]. by apply elem_of_remove in Hx as [? _].
    + right. split; [| done]. intros x Hx Hxo. destruct (decide (rf x = rf old)) as [He | He].
      * pose proof (sp_sorted_inj rf es x old Hs Hx Hpe He). subst x. destruct Hxo. lia.
      * apply (Hno x); [by apply elem_of_remove | done].
Qed.
(** Both trims: what intersects the interval is gone, and the pieces of it
    that stick out on either side are remembered. *)
Lemma trims_ok s n es (from to : K) :
  map_rep s (2 * length es + 2 + n) es -> canonical es -> key_ok from -> key_ok to ->
  key_num from <= key_num to ->
  exists s1 rw1 s' es' rw,
    trim_predecessor s (sp_predecessor rf es (key_num from)) from to = Ok (s1, rw1)
    /\ trim_following s1 from to rw1 = Ok (s', rw)
    /\ map_rep s' n es' /\ zlen es' <= zlen es
    /\ (forall x, x ∈ es' <-> x ∈ es /\ (rt x < key_num from \/ key_num to < rf x))
    /\ found es (fun x => rf x < key_num from <= rt x) (left_of from) (rw_left rw)
    /\ found es (fun x => rf x <= key_num to < rt x) (right_of to) (rw_right rw)
    /\ (rw_changed rw = true <-> exists x, x ∈ es /\ key_num from <= rt x /\ rf x <= key_num to)
    /\ keeps_private s s'.
Proof.
  intros Hr Hc Hkf Hkt Hft. pose proof (map_rep_sorted _ _ _ Hr) as Hs. pose proof Hc as [Hoks Hap].
  destruct (trim_predecessor_ok s (2 * length es + n) es from to)
    as (s1 & es1 & rw1 & Heq1 & Hr1 & Hz1 & Hm1 & Hl1 & Hrt1 & Hch1 & Hk1);
    [eapply map_rep_le; [done | lia] | done | done | done |].
  assert (Hc1 : canonical es1) by (eapply canonical_sub; [done |]; naive_solver).
  assert (Hfu : (length es1 < S (Z.to_nat (snd s1)))%nat).
  { destruct Hr1 as [_ ->]. unfold zlen. lia. }
  destruct (trim_following_loop_ok _ s1 n es1 from to rw1
              ltac:(eapply map_rep_le; [exact Hr1 | unfold zlen in Hz1; lia]) Hc1 Hkf Hkt Hfu)
    as (s' & es' & rw & Heq2 & Hr' & Hz' & Hm & Hl & Hrt & Hch & Hk').
  exists s1, rw1, s', es', rw. split; [done |]. split; [done |]. split; [done |]. split; [lia |].
  assert (Hnum : forall x, x ∈ es -> rf x <= rt x) by (intros x Hx; pose proof (range_ok_num _ (Hoks x Hx)); lia).
  unfold overhangs, starts_in in *. split; [| split; [by rewrite Hl | split; [| split]]].
  - intros x. rewrite Hm, Hm1. split; [| intros [Hx ?]; specialize (Hnum x Hx); (split; [split; [done | lia] | lia])].
    intros [[Hx ?] ?]. split; [done |]. lia.
  - destruct Hrt as [(x & r & [Hx _]%Hm1 & ? & -> & ?) | [Hno ->]]; [exists x; split; [done |]; split; [cbn beta in *; lia | done] |].
    destruct (rw_right rw1) as [r|]; [destruct Hrt1 as (x & ? & ? & ?); exists x; split; [done |]; split; [cbn beta in *; lia | done] |].
    intros x Hx ?. apply (Hrt1 x Hx). destruct (decide (rf x <= key_num from)); [lia |].
    exfalso. apply (Hno x); [apply Hm1; split; [done | lia] | unfold starts_in; lia].
  - rewrite Hch, Hch1. split.
    + intros [(x & Hx & ?) | (x & [Hx ?]%Hm1 & ?)]; exists x; specialize (Hnum x Hx); split_and!; done || lia.
    + intros (x & Hx & ?). destruct (decide (rf x <= key_num from)); [left; exists x; split; [done | lia] |].
      right. exists x. rewrite Hm1. split_and!; done || lia.
  - intros ?. auto.
Qed.
Lemma fits_free es r : (forall x, x ∈ es -> range_ok x) -> range_ok r ->
  (forall a v, rf r <= a <= rt r -> ~ has es a v) -> fits es r.
Proof.
  intros Hoks Hok Hfree. split; [done |]. intros x Hx.
  pose proof (range_ok_num _ (Hoks x Hx)). pose proof (range_ok_num _ Hok).
  destruct (Z.lt_ge_cases (rt x) (rf r)); [by left |].
  destruct (Z.lt_ge_cases (rt r) (rf x)); [by right |].
  exfalso. apply (Hfree (Z.max (rf x) (rf r)) (r_value x)); [lia |].
  exists x. split; [done |]. split; [lia | done].
Qed.

Definition insert_opt s (o : option (Range K)) : Result (@st T) :=
  match o with Some r => insert_coalesced s r | None => Ok s end.

Definition opt_spans (o : option (Range K)) (a v : Z) : Prop :=
  match o with Some r => spans r a v | None => False end.

Lemma insert_opt_ok s n es o :
  map_rep s (6 + n) es -> canonical es -> zlen es + 1 <= u64_max ->
  (forall r, o = Some r -> range_ok r) -> (forall a v w, opt_spans o a v -> ~ has es a w) ->
  exists s' es', insert_opt s o = Ok s'
    /\ map_rep s' n es' /\ canonical es' /\ zlen es' <= zlen es + 1
    /\ (forall a v, has es' a v <-> opt_spans o a v \/ has es a v)
    /\ keeps_private s s'.
Proof.
  intros Hr Hc Hmax Hok Hfree. destruct o as [r|]; simpl in *.
  - apply insert_coalesced_ok; [done | done | | done].
    apply fits_free; [by destruct Hc | by apply Hok |].
    intros a v Ha. apply (Hfree a (r_value r) v). by split.
  - exists s, es. split; [done |]. split; [eapply map_rep_le; [done | lia] |]. split; [done |].
    split; [lia |]. split; [naive_solver | by intros ?].
Qed.

Lemma left_spans es (from : K) o a v : sp_sorted rf es -> canonical es ->
  found es (fun x => rf x < key_num from <= rt x) (left_of from) o ->
  opt_spans o a v <-> exists x, x ∈ es /\ spans x a v /\ a < key_num from <= rt x.
Proof.
  intros Hs Hc Hl. unfold found, left_of in Hl. destruct o as [l|]; simpl in *.
  - destruct Hl as (o & Ho & Hol & _ & E1 & E2 & E3). unfold spans. rewrite E1, E2, E3.
    split; [intros [? ?]; exists o; split_and!; done || lia |].
    intros (x & Hx & [? <-] & ?). 
    assert (x = o) as -> by (apply (canonical_inj es x o (key_num from)); done || lia).
    split; [lia | done].
  - split; [done |]. intros (x & Hx & [? _] & ?). apply (Hl x Hx). lia.
Qed.

Lemma right_spans es (to : K) o a v : sp_sorted rf es -> canonical es ->
  found es (fun x => rf x <= key_num to < rt x) (right_of to) o ->
  opt_spans o a v <-> exists x, x ∈ es /\ spans x a v /\ rf x <= key_num to < a.
Proof.
  intros Hs Hc Hl. unfold found, right_of in Hl. destruct o as [l|]; simpl in *.
  - destruct Hl as (o & Ho & Hol & _ & E1 & E2 & E3). unfold spans. rewrite E1, E2, E3.
    split; [intros [? ?]; exists o; split_and!; done || lia |].
    intros (x & Hx & [? <-] & ?). 
    assert (x = o) as -> by (apply (canonical_inj es x o (key_num to)); done || lia).
    split; [lia | done].
  - split; [done |]. intros (x & Hx & [? _] & ?). apply (Hl x Hx). lia.
Qed.

Lemma found_ok es P (Q : Range K -> Range K -> Prop) o :
  (forall x r, Q x r -> range_ok r) -> found es P Q o -> forall r, o = Some r -> range_ok r.
Proof. intros HQ Hf r ->. destruct Hf as (x & _ & _ & ?). eauto. Qed.

Lemma write_replacement_ok s n es es0 (from to : K) value rw :
  map_rep s (18 + n) es0 -> sp_sorted rf es -> canonical es -> key_ok from -> key_ok to ->
  key_num from <= key_num to -> value_ok value -> zlen es0 + 3 <= u64_max ->
  (forall x, x ∈ es0 <-> x ∈ es /\ (rt x < key_num from \/ key_num to < rf x)) ->
  found es (fun x => rf x < key_num from <= rt x) (left_of from) (rw_left rw) ->
  found es (fun x => rf x <= key_num to < rt x) (right_of to) (rw_right rw) ->
  exists s' es', write_replacement s from to value rw
                 = Ok (s', rw_changed rw || bool_decide (is_Some value))
    /\ map_rep s' n es' /\ canonical es' /\ zlen es' <= zlen es0 + 3
    /\ (forall a v, has es' a v <->
          (key_num from <= a <= key_num to /\ value = Some v)
          \/ (~ (key_num from <= a <= key_num to) /\ has es a v))
    /\ keeps_private s s'.
Proof.
  intros Hr Hs Hc Hkf Hkt Hft Hv Hmax Hm Hl Hrt.
  assert (Hc0 : canonical es0) by (eapply canonical_sub; [done |]; naive_solver).
  assert (Hinj : forall x y a, x ∈ es -> y ∈ es -> rf x <= a <= rt x -> rf y <= a <= rt y -> x = y)
    by (intros; by eapply (canonical_inj es)).
  pose proof (fun a v => left_spans es from _ a v Hs Hc Hl) as Hls.
  pose proof (fun a v => right_spans es to _ a v Hs Hc Hrt) as Hrs.
  pose proof (found_ok _ _ _ _ (fun x r H => proj1 H) Hl) as Hlok.
  pose proof (found_ok _ _ _ _ (fun x r H => proj1 H) Hrt) as Hrok.
  set (mid := (fun v => mkRange from to v) <$> value).
  assert (Hmid : forall a v, opt_spans mid a v <-> key_num from <= a <= key_num to /\ value = Some v).
  { intros a v. subst mid. destruct value as [w|]; simpl; unfold spans, rf, rt; simpl; naive_solver. }
  assert (Hmok : forall r, mid = Some r -> range_ok r).
  { subst mid. destruct value as [w|]; simpl; [intros ? [= <-] | done]. unfold range_ok; simpl in *; split_and!; done || lia. }
  destruct (insert_opt_ok s (12 + n) es0 (rw_left rw)) as (s1 & es1 & E1 & Hr1 & Hc1 & Hz1 & Hh1 & Hk1);
    [done | done | lia | done | |].
  { intros a v w (x & Hx & [? _] & ?)%Hls (y & [Hy ?]%Hm & [? _]).
    assert (x = y) as -> by (apply (Hinj x y a); done || lia). lia. }
  destruct (insert_opt_ok s1 (6 + n) es1 mid) as (s2 & es2 & E2 & Hr2 & Hc2 & Hz2 & Hh2 & Hk2);
    [done | done | lia | done | |].
  { intros a v w [? _]%Hmid [(x & _ & _ & ?)%Hls | (y & [Hy ?]%Hm & [? _])]%Hh1; lia. }
  destruct (insert_opt_ok s2 n es2 (rw_right rw)) as (s3 & es3 & E3 & Hr3 & Hc3 & Hz3 & Hh3 & Hk3);
    [done | done | lia | done | |].
  { intros a v w (x & Hx & [? _] & ?)%Hrs
      [[? _]%Hmid | [(y & _ & _ & ?)%Hls | (y & [Hy ?]%Hm & [? _])]%Hh1]%Hh2; [lia | lia |].
    assert (x = y) as -> by (apply (Hinj x y a); done || lia). lia. }
  exists s3, es3. split; [| split; [done | split; [done | split; [lia | split; [| by intros ?; auto]]]]].
  - unfold insert_opt in E1, E2, E3. unfold write_replacement. rewrite E1. cbn [mbind outcome_bind].
    subst mid. destruct value; simpl in E2; rewrite E2; cbn [mbind outcome_bind]; by rewrite E3.
  - intros a v. rewrite Hh3, Hh2, Hh1, Hmid, Hls, Hrs. unfold has. setoid_rewrite Hm. split.
    + intros [(x & ? & ? & ?) | [? | [(x & ? & ? & ?) | (x & [? ?] & Hsp)]]]; [right | by left | right | right];
        (split; [lia || (destruct Hsp as [? _]; lia) | eauto]).
    + intros [? | [Hout (x & Hx & Hsp)]]; [auto |]. pose proof Hsp as [? _].
      destruct (decide (a < key_num from <= rt x)); [right; right; left; eauto |].
      destruct (decide (rf x <= key_num to < a)); [left; eauto |].
      right; right; right. exists x. split; [split; [done | lia] | done].
Qed.
(** Replacing one record by a canonical run of pieces inside it. *)
Definition pieces_of (old : Range K) (ls : list (Range K)) : Prop :=
  canonical ls /\ forall y, y ∈ ls -> rf old <= rf y /\ rt y <= rt old
    /\ (rf y = rf old -> r_value y = r_value old) /\ (rt y = rt old -> r_value y = r_value old).

Lemma canonical_replace es old ls :
  sp_sorted rf es -> canonical es -> old ∈ es -> pieces_of old ls ->
  canonical (sp_replace rf es (rf old) ls).
Proof.
  intros Hs [Hoks Hap] Ho [[Hlok Hlap] Hin]. split.
  - intros x [? | [? _]]%elem_of_replace; auto.
  - intros a b [Ha | [Ha Hna]]%elem_of_replace [Hb | [Hb Hnb]]%elem_of_replace Hlt; [auto | | | auto].
    + destruct (Hin a Ha) as (? & ? & _ & Hv). pose proof (range_ok_num _ (Hlok a Ha)).
      pose proof (range_ok_num _ (Hoks b Hb)).
      assert (Hob : rf old < rf b).
      { destruct (Z.lt_trichotomy (rf old) (rf b)) as [? | [? | Hbo]]; [done | congruence |].
        destruct (Hap b old Hb Ho Hbo). lia. }
      destruct (Hap old b Ho Hb Hob) as [? Hd]. split; [lia |]. intros Hadj. rewrite Hv by lia. apply Hd. lia.
    + destruct (Hin b Hb) as (? & ? & Hv & _). pose proof (range_ok_num _ (Hlok b Hb)).
      pose proof (range_ok_num _ (Hoks a Ha)).
      assert (Hoa : rf a < rf old).
      { destruct (Z.lt_trichotomy (rf a) (rf old)) as [? | [? | Hbo]]; [done | congruence |].
        destruct (Hap old a Ho Ha Hbo). lia. }
      destruct (Hap a old Ha Ho Hoa) as [? Hd]. split; [lia |]. intros Hadj. rewrite Hv by lia. apply Hd. lia.
Qed.

Lemma sorted_replace_pieces es old ls :
  sp_sorted rf es -> canonical es -> old ∈ es -> sp_sorted rf ls -> pieces_of old ls ->
  sp_sorted rf (sp_replace rf es (rf old) ls).
Proof.
  intros Hs [Hoks Hap] Ho Hsl [[Hlok _] Hin]. apply sp_sorted_replace; [done | done | |].
  - intros x y _ Hy ?. destruct (Hin y Hy) as (? & _). lia.
  - intros x y Hx Hy Hlt. destruct (Hin y Hy) as (? & ? & _). pose proof (range_ok_num _ (Hlok y Hy)).
    destruct (Hap old x Ho Hx Hlt). lia.
Qed.

Lemma has_replace es k ls a v :
  has (sp_replace rf es k ls) a v <-> has ls a v \/ has (sp_remove rf es k) a v.
Proof.
  unfold has. setoid_rewrite elem_of_replace. setoid_rewrite elem_of_remove. naive_solver.
Qed.

Lemma has_cons r ls a v : has (r :: ls) a v <-> spans r a v \/ has ls a v.
Proof. unfold has. setoid_rewrite elem_of_cons. naive_solver. Qed.

Lemma has_nil a v : ~ has [] a v.
Proof. by intros (x & []%elem_of_nil & _). Qed.

(** The run [replace_strictly_inside] writes. *)
Definition strict_run (l : Range K) (mid : option (Range K)) (r : Range K) : list (Range K) :=
  match mid with Some m => [l; m; r] | None => [l; r] end.

Lemma strict_run_pieces (from to : K) old l mid r :
  range_ok old -> rf old < key_num from -> key_num from <= key_num to -> key_num to < rt old ->
  left_of from old l -> right_of to old r ->
  (forall m, mid = Some m -> range_ok m /\ rf m = key_num from /\ rt m = key_num to
                            /\ r_value m <> r_value old) ->
  pieces_of old (strict_run l mid r) /\ sp_sorted rf (strict_run l mid r)
  /\ (forall a v, has (strict_run l mid r) a v <->
        opt_spans mid a v \/ (~ (key_num from <= a <= key_num to) /\ spans old a v)).
Proof.
  intros Hok Hlo Hft Hhi (Hl & L1 & L2 & L3) (Hr & R1 & R2 & R3) Hm.
  unfold strict_run, opt_spans, pieces_of, canonical. destruct mid as [m|].
  - destruct (Hm m eq_refl) as (Hmo & M1 & M2 & M3). split_and!.
    + intros x. rewrite !elem_of_cons, elem_of_nil. naive_solver.
    + intros a b. rewrite !elem_of_cons, !elem_of_nil. unfold apart.
      intros [-> | [-> | [-> | []]]] [-> | [-> | [-> | []]]] ?; (split; [lia | intros; congruence || lia]).
    + intros y. rewrite !elem_of_cons, elem_of_nil. intros [-> | [-> | [-> | []]]];
        split_and!; intros; congruence || lia.
    + repeat constructor; lia.
    + intros a v. rewrite !has_cons. pose proof (has_nil a v). unfold spans. rewrite L1, L2, L3, R1, R2, R3, M1, M2.
      destruct (decide (key_num from <= a <= key_num to)); intuition lia.
  - split_and!.
    + intros x. rewrite !elem_of_cons, elem_of_nil. naive_solver.
    + intros a b. rewrite !elem_of_cons, !elem_of_nil. unfold apart.
      intros [-> | [-> | []]] [-> | [-> | []]] ?; (split; [lia | intros; congruence || lia]).
    + intros y. rewrite !elem_of_cons, elem_of_nil. intros [-> | [-> | []]];
        split_and!; intros; congruence || lia.
    + repeat constructor; lia.
    + intros a v. rewrite !has_cons. pose proof (has_nil a v). unfold spans. rewrite L1, L2, L3, R1, R2, R3.
      destruct (decide (key_num from <= a <= key_num to)); intuition lia.
Qed.
Definition hint_ok s es (from : K) (old : option (Range K)) (hint : option Hint) : Prop :=
  match hint with
  | Some h => hint_rep (fst s) es from h /\ hint_predecessor h = old
  | None => True
  end.

Lemma replace_strict_cells_ok s n es (from : K) old ls hint :
  tree_rep (fst s) (S n) es -> old ∈ es -> key_ok (r_from old) -> hint_ok s es from (Some old) hint ->
  (2 <= length ls <= 3)%nat -> (forall x, x ∈ ls -> range_ok x) -> rf <$> head ls = Some (rf old) ->
  sp_sorted rf (sp_replace rf es (rf old) ls) ->
  exists t', replace_strict_cells (fst s) (r_from old) (range_bytes <$> ls) hint = Ok t'
    /\ tree_rep t' n (sp_replace rf es (rf old) ls)
    /\ (tree_private (fst s) -> tree_private t').
Proof.
  intros Hr Ho Hk Hh Hlen Hok Hhd Hs.
  assert (Hcells : Forall2 range_cell (range_bytes <$> ls) ls).
  { apply Forall2_fmap_l, Forall_Forall2_diag, Forall_forall. intros x Hx. split; [auto | done]. }
  assert (Hm : sp_member rf es (rf old) = true) by (apply sp_member_spec; eauto).
  unfold replace_strict_cells. destruct hint as [h|]; simpl in Hh.
  - destruct Hh as [Hh Hp].
    destruct (law_replace_local (fst s) n es from h old (r_from old) (range_bytes <$> ls) ls)
      as (t1 & t2 & -> & E2 & ? & ?); try done. cbn [mbind outcome_bind]. eauto.
  - destruct (law_replace (fst s) n es (r_from old) (range_bytes <$> ls) ls)
      as (t1 & ret & t2 & -> & E2 & ? & ?); try done. cbn [mbind outcome_bind]. eauto.
Qed.

Definition replaced es (from to : K) (value : option Z) (es' : list (Range K)) : Prop :=
  canonical es' /\ forall a v, has es' a v <->
    (key_num from <= a <= key_num to /\ value = Some v)
    \/ (~ (key_num from <= a <= key_num to) /\ has es a v).

(** Cutting the interval out of the middle of one record. *)
Lemma strict_replaced es old (from to : K) value l r :
  let mid := (fun v => mkRange from to v) <$> value in
  sp_sorted rf es -> canonical es -> old ∈ es -> key_ok from -> key_ok to -> value_ok value ->
  rf old < key_num from -> key_num from <= key_num to -> key_num to < rt old ->
  value <> Some (r_value old) -> left_of from old l -> right_of to old r ->
  (forall x, x ∈ strict_run l mid r -> range_ok x)
  /\ sp_sorted rf (sp_replace rf es (rf old) (strict_run l mid r))
  /\ replaced es from to value (sp_replace rf es (rf old) (strict_run l mid r)).
Proof.
  intros mid Hs Hc Ho Hkf Hkt Hv Hlo Hft Hhi Hne Hl Hr.
  destruct (strict_run_pieces from to old l mid r) as (Hp & Hsl & Hh); try done.
  { apply Hc, Ho. }
  { intros m Hm. subst mid. destruct value as [w|]; [injection Hm as <- | done]. simpl in *.
    unfold rf, rt, range_ok. simpl. split_and!; done || lia || congruence. }
  split; [by apply Hp |]. split; [by apply sorted_replace_pieces |].
  split; [by apply canonical_replace |]. intros a v.
  assert (Hmid : opt_spans mid a v <-> key_num from <= a <= key_num to /\ value = Some v).
  { subst mid. destruct value as [w|]; simpl; unfold spans, rf, rt; simpl; naive_solver. }
  rewrite has_replace, Hh, Hmid, (has_remove es old a v Hs Ho).
  enough (has (sp_remove rf es (rf old)) a v -> ~ (key_num from <= a <= key_num to)) by tauto.
  intros (x & [Hx Hnx]%elem_of_remove & [? _]) ?. apply Hnx.
  f_equal. apply (canonical_inj es x old a); done || lia.
Qed.

Lemma replace_strictly_inside_ok s n es old (from to : K) value hint :
  map_rep s (3 + n) es -> canonical es -> old ∈ es -> key_ok from -> key_ok to -> value_ok value ->
  rf old < key_num from -> key_num from <= key_num to -> key_num to < rt old ->
  value <> Some (r_value old) -> zlen es + 2 <= u64_max -> hint_ok s es from (Some old) hint ->
  exists s' es', replace_strictly_inside s old from to value hint = Ok (s', true)
    /\ map_rep s' n es' /\ replaced es from to value es' /\ zlen es' <= zlen es + 3
    /\ keeps_private s s'.
Proof.
  intros Hr Hc Ho Hkf Hkt Hv Hlo Hft Hhi Hne Hmax Hh. pose proof (map_rep_sorted _ _ _ Hr) as Hs.
  destruct Hr as [Hr Hn]. pose proof (proj1 Hc old Ho) as Hok. destruct (range_ok_keys _ Hok) as [Hof _].
  destruct (left_piece from old Hkf Hok Hlo) as (p & Ep & Hp).
  destruct (right_piece to old Hkt Hok Hhi) as (q & Eq & Hq).
  set (l := mkRange (r_from old) p (r_value old)) in *. set (r := mkRange q (r_to old) (r_value old)) in *.
  destruct (strict_replaced es old from to value l r Hs Hc Ho Hkf Hkt Hv Hlo Hft Hhi Hne Hp Hq)
    as (Hoks & Hsr & Hrep).
  set (mid := (fun v => mkRange from to v) <$> value) in *.
  destruct (replace_strict_cells_ok s (2 + n) es from old (strict_run l mid r) hint)
    as (t1 & E1 & Hr1 & Hp1); try done.
  { destruct mid; simpl; lia. }
  { by destruct mid. }
  assert (Hm : sp_member rf es (rf old) = true) by (apply sp_member_spec; eauto).
  pose proof (length_sp_replace rf es (rf old) (strict_run l mid r) Hs Hm) as Hlen.
  destruct (law_record_added t1 (1 + n) _ (match value with Some v => v | None => r_value old end) Hr1)
    as (t2 & E2 & Hr2 & Hp2).
  destruct (law_record_added t2 n _ (r_value old) Hr2) as (t3 & E3 & Hr3 & Hp3).
  unfold replace_strictly_inside. rewrite Ep, Eq. cbn [expect mbind outcome_bind].
  fold l r. rewrite !encoded_range_bytes by (apply Hp || apply Hq). cbn [mbind outcome_bind].
  unfold count_up, checked_add.
  destruct value as [w|]; subst mid; simpl in E1, Hlen, E2, Hrep, Hr3, Hr2, Hoks;
    [rewrite encoded_range_bytes by (apply Hoks; right; by left) |];
    cbn [mbind outcome_bind]; rewrite E1; cbn [mbind outcome_bind].
  - destruct (Z.leb_spec (snd s + 2) u64_max); [| lia]. cbn [ok_or mbind outcome_bind].
    rewrite E2. cbn [mbind outcome_bind]. rewrite E3. cbn [mbind outcome_bind].
    eexists _, _. split; [done |]. split; [split; [done | simpl; unfold zlen in *; lia] |].
    split; [done |]. split; [unfold zlen in *; lia |]. unfold keeps_private. simpl. auto.
  - destruct (Z.leb_spec (snd s + 1) u64_max); [| lia]. cbn [ok_or mbind outcome_bind].
    rewrite E2. cbn [mbind outcome_bind].
    eexists _, _. split; [done |]. split; [split; [by apply rep_weaken | simpl; unfold zlen in *; lia] |].
    split; [done |]. split; [unfold zlen in *; lia |]. unfold keeps_private. simpl. auto.
Qed.
Lemma replaced_same es (from to : K) v old :
  sp_sorted rf es -> canonical es -> old ∈ es -> rf old <= key_num from -> key_num to <= rt old ->
  r_value old = v -> replaced es from to (Some v) es.
Proof.
  intros Hs Hc Ho Hlo Hhi Hv. split; [done |]. intros a w. split.
  - intros Ha. destruct (decide (key_num from <= a <= key_num to)); [left; split; [done |] | by right].
    destruct Ha as (x & Hx & ? & <-). f_equal. rewrite <- Hv. f_equal.
    apply (canonical_inj es old x a); done || lia.
  - intros [[? [= <-]] | [_ ?]]; [| done]. exists old. split; [done |]. split; [lia | done].
Qed.

(** The condition under which nothing has to be written. *)
Definition already (old : option (Range K)) (to : K) (value : option Z) : bool :=
  match value, old with
  | Some new_value, Some old => key_leb to (r_to old) && (r_value old =? new_value)
  | _, _ => false
  end.

Lemma already_spec es (from to : K) v :
  sp_sorted rf es -> canonical es -> key_ok from -> key_ok to -> key_num from <= key_num to ->
  already (sp_predecessor rf es (key_num from)) to (Some v) = true <->
  (forall a, key_num from <= a <= key_num to -> rng_lookup es a = Some v).
Proof.
  intros Hs Hc Hkf Hkt Hft. split.
  - unfold already. destruct (sp_predecessor rf es (key_num from)) as [old|] eqn:Hp; [| done].
    destruct (sp_predecessor_Some rf es _ _ Hs Hp) as (Ho & Hle & _).
    rewrite key_leb_num by (done || by apply range_ok_keys, Hc). fold (rt old).
    intros [Hto%Z.leb_le Hv%Z.eqb_eq]%andb_true_iff a Ha.
    apply (rng_lookup_has es a v Hs Hc). exists old. split; [done |]. split; [lia | done].
  - intros Hall. destruct (canonical_covers es (key_num from) (key_num to) v Hs Hc Hft) as (x & Hx & H1 & H2 & H3).
    { intros a Ha. apply (rng_lookup_has es a v Hs Hc). auto. }
    rewrite (covering_predecessor es x (key_num from) Hs Hc Hx) by lia. simpl.
    rewrite key_leb_num by (done || by apply range_ok_keys, Hc). fold (rt x).
    apply andb_true_iff. split; [by apply Z.leb_le | by apply Z.eqb_eq].
Qed.

Definition replace_post s n es (from to : K) value (res : Result (@st T * bool)) : Prop :=
  exists s' es' b, res = Ok (s', b) /\ map_rep s' n es' /\ replaced es from to value es'
    /\ zlen es' <= zlen es + 3
    /\ (b = false <-> forall a, key_num from <= a <= key_num to -> rng_lookup es a = value)
    /\ keeps_private s s'.

Lemma replace_general_ok s n es (from to : K) value :
  map_rep s (2 * length es + 20 + n) es -> canonical es -> key_ok from -> key_ok to ->
  key_num from <= key_num to -> value_ok value -> zlen es + 3 <= u64_max ->
  already (sp_predecessor rf es (key_num from)) to value = false ->
  replace_post s n es from to value
    ('(s, rewrite_) ← trim_predecessor s (sp_predecessor rf es (key_num from)) from to;
     '(s, rewrite_) ← trim_following s from to rewrite_;
     write_replacement s from to value rewrite_).
Proof.
  intros Hr Hc Hkf Hkt Hft Hv Hmax Ha. pose proof (map_rep_sorted _ _ _ Hr) as Hs.
  destruct (trims_ok s (18 + n) es from to) as (s1 & rw1 & s2 & es2 & rw & E1 & E2 & Hr2 & Hz2 & Hm & Hl & Hrt & Hch & Hk);
    try done; [eapply map_rep_le; [done | lia] |].
  destruct (write_replacement_ok s2 n es es2 from to value rw) as (s3 & es3 & E3 & Hr3 & Hc3 & Hz3 & Hh3 & Hk3);
    try done; [lia |].
  rewrite E1. cbn [mbind outcome_bind]. rewrite E2. cbn [mbind outcome_bind]. rewrite E3.
  eexists _, _, _. do 3 (split; [done |]). split; [lia |]. split; [| intros ?; auto].
  destruct value as [v|].
  - rewrite bool_decide_true by eauto. rewrite orb_true_r. split; [done |]. intros Hall.
    apply (already_spec es from to v) in Hall; [congruence | done..].
  - rewrite bool_decide_false by (by intros [? ?]). rewrite orb_false_r.
    rewrite <- not_true_iff_false, Hch. split.
    + intros Hno a Ha'. apply rng_lookup_None. intros x Hx ?. apply Hno. exists x. split; [done | lia].
    + intros Hall (x & Hx & ? & ?). pose proof (range_ok_num _ (proj1 Hc x Hx)).
      assert (Hin : key_num from <= Z.max (rf x) (key_num from) <= key_num to) by lia.
      specialize (Hall _ Hin). rewrite rng_lookup_None in Hall.
      apply (Hall x Hx). lia.
Qed.

Lemma replace_with_hint_ok s n es (from to : K) value hint :
  map_rep s (2 * length es + 20 + n) es -> canonical es -> key_ok from -> key_ok to ->
  key_num from <= key_num to -> value_ok value -> zlen es + 3 <= u64_max ->
  (forall h, hint = Some h -> hint_rep (fst s) es from h) ->
  replace_post s n es from to value (replace_with_hint s from to value hint).
Proof.
  intros Hr Hc Hkf Hkt Hft Hv Hmax Hh. pose proof (map_rep_sorted _ _ _ Hr) as Hs.
  unfold replace_with_hint. rewrite key_ltb_num by done.
  destruct (Z.ltb_spec (key_num to) (key_num from)); [lia |].
  set (p := sp_predecessor rf es (key_num from)).
  match goal with |- context [mbind _ ?m] => assert (Hp : exists hint', m = Ok (p, hint') /\ hint_ok s es from p hint') end.
  { subst p. rewrite (read_predecessor_ok _ _ _ _ Hr Hkf). cbn [mbind outcome_bind].
    destruct hint as [h|]; [| by exists None]. destruct (hint_predecessor h) as [o|] eqn:Ho; [| by exists None].
    exists (Some h). specialize (Hh h eq_refl). destruct Hr as [Hr _].
    rewrite (law_hint_predecessor _ _ _ _ _ _ Hr Hh Ho). split; [done |]. split; [done |]. by rewrite Ho. }
  destruct Hp as (hint' & -> & Hh'). cbn [mbind outcome_bind].
  fold (already p to value). destruct (already p to value) eqn:Ha.
  { destruct value as [v|]; [| done].
    assert (Hall : already p to (Some v) = true) by done. unfold p in Hall.
    rewrite (already_spec es from to v) in Hall by done.
    destruct p as [old|] eqn:Hp; [| done]. destruct (sp_predecessor_Some rf es _ _ Hs Hp) as (Ho & Hle & _).
    simpl in Ha. rewrite key_leb_num in Ha by (done || by apply range_ok_keys, Hc).
    apply andb_true_iff in Ha as [Hto%Z.leb_le Hvv%Z.eqb_eq].
    exists s, es, false. split; [done |]. split; [eapply map_rep_le; [done | lia] |].
    split; [by apply (replaced_same es from to v old) |]. split; [lia |]. split; [done | by intros ?]. }
  pose proof (replace_general_ok s n es from to value Hr Hc Hkf Hkt Hft Hv Hmax Ha) as Hgen.
  fold p in Hgen. destruct p as [old|] eqn:Hp; [| exact Hgen].
  destruct (sp_predecessor_Some rf es _ _ Hs Hp) as (Ho & Hle & _).
  destruct (range_ok_keys old (proj1 Hc old Ho)) as [Hof Hot].
  destruct (key_ltb (r_from old) from && key_ltb to (r_to old)) eqn:Hin;
    [clear Hgen | exact Hgen].
  rewrite !key_ltb_num in Hin by done. apply andb_true_iff in Hin as [Hlo%Z.ltb_lt Hhi%Z.ltb_lt].
  fold (rf old) in Hlo. fold (rt old) in Hhi.
  assert (Hne : value <> Some (r_value old)).
  { intros ->. simpl in Ha. rewrite key_leb_num in Ha by done. fold (rt old) in Ha.
    rewrite Z.eqb_refl, andb_true_r in Ha. apply Z.leb_gt in Ha. lia. }
  destruct (replace_strictly_inside_ok s n es old from to value hint') as (s' & es' & -> & Hr' & Hrep & Hz & Hk);
    try done; [eapply map_rep_le; [done | lia] | lia |].
  exists s', es', true. do 4 (split; [done |]). split; [| done].
  split; [done |]. intros Hall. exfalso. apply Hne.
  assert (Hin : key_num from <= key_num from <= key_num to) by lia. rewrite <- (Hall _ Hin).
  apply (rng_lookup_has es); [done | done |]. exists old. split; [done |]. split; [lia | done].
Qed.
End Operations.
