(* ===== verification/RangeTheorems.v ===== *)
(** * What range assignment guarantees

    The theorems a caller of [range_mutation] relies on: [assign], [clear] and
    [assign_private] update the map exactly on their interval and report
    whether anything changed; a sequence of them refines the same sequence of
    updates of a function; [transform] applies its operation to every address
    of the interval. *)

From stdpp Require Import base tactics numbers list strings sorting.
From Stdlib Require Import ZArith Lia.
From S2P Require Import Prelude Errors Bytes Cardinality Key Codec TreeInterface RangeMutation RangeMap.

#[local] Open Scope string_scope.
#[local] Open Scope list_scope.
#[local] Open Scope Z_scope.

Section Refinement.
Context {K T Hint : Type} `{IpKeyLaws K} `{!OrderedTree K (Range K) T Hint}.
Context `{!OrderedTreeLaws K (Range K) T Hint rf key_num key_ok range_cell}.

Implicit Types (s : @st T) (es : list (Range K)) (r : Range K) (n : nat).

Lemma replaced_lookup es es' (from to : K) value :
  sp_sorted rf es -> sp_sorted rf es' -> canonical es -> replaced es from to value es' ->
  forall a, rng_lookup es' a = updated (rng_lookup es) (key_num from) (key_num to) value a.
Proof.
  intros Hs Hs' Hc [Hc' Hh] a. apply option_eq. intros v.
  rewrite (rng_lookup_has es' a v Hs' Hc'), Hh. unfold updated.
  destruct (Z.leb_spec (key_num from) a), (Z.leb_spec a (key_num to)); cbn [andb];
    rewrite ?(rng_lookup_has es a v Hs Hc); intuition lia.
Qed.

(** The representation invariant a caller sees: the records are canonical,
    counted, and the store can serve [n] more mutations. *)
Definition holds s n es : Prop := map_rep s n es /\ canonical es.

(** Mutations one replacement may need in a map of [len] records: two for each
    record removed, and three insertions with their merges. *)
Definition replace_cost (len : nat) : nat := 2 * len + 20.

Lemma holds_sorted s n es : holds s n es -> sp_sorted rf es.
Proof. intros [? _]. by eapply map_rep_sorted. Qed.

Lemma holds_le s m n es : holds s m es -> (n <= m)%nat -> holds s n es.
Proof. intros [? ?] ?. split; [by eapply map_rep_le | done]. Qed.

Definition update_post s n es (from to : K) value (res : Result (@st T * bool)) : Prop :=
  exists s' es' b, res = Ok (s', b) /\ holds s' n es' /\ zlen es' <= zlen es + 3
    /\ (forall a, rng_lookup es' a = updated (rng_lookup es) (key_num from) (key_num to) value a)
    /\ (b = false <-> forall a, key_num from <= a <= key_num to -> rng_lookup es a = value)
    /\ keeps_private s s'.

Lemma replace_post_update s n es (from to : K) value res :
  sp_sorted rf es -> canonical es -> replace_post s n es from to value res ->
  update_post s n es from to value res.
Proof.
  intros Hs Hc (s' & es' & b & -> & Hr & Hrep & Hz & Hb & Hk).
  exists s', es', b. split; [done |]. split; [split; [done | by destruct Hrep] |].
  split; [done |]. split; [| done]. apply replaced_lookup; try done. by eapply map_rep_sorted.
Qed.

Lemma replace_update s n es (from to : K) value :
  holds s (replace_cost (length es) + n) es -> key_ok from -> key_ok to ->
  key_num from <= key_num to -> value_ok value -> zlen es + 3 <= u64_max ->
  update_post s n es from to value (replace s from to value).
Proof.
  intros [Hr Hc] Hkf Hkt Hft Hv Hmax. apply replace_post_update; [by eapply map_rep_sorted | done |].
  by apply replace_with_hint_ok.
Qed.

Lemma PrivateGap_decides (range : Range K) :
  gap_decides (PrivateGap range) (private_previous_ok range) (private_next_ok range).
Proof.
  unfold gap_decides, PrivateGap. simpl.
  split; [done |]. split; [done |]. split; [intros exact cell l -> | intros cell l ->]; done.
Qed.

Lemma private_previous_ok_spec r p : range_ok r -> range_ok p ->
  private_previous_ok r false p = true ->
  rt p < rf r /\ (rt p + 1 = rf r -> r_value p <> r_value r).
Proof.
  intros Hr Hp. destruct (range_ok_keys _ Hr), (range_ok_keys _ Hp). unfold private_previous_ok.
  rewrite key_leb_num, next_is_num by done. fold (rf r) (rt p). cbn [orb].
  destruct (Z.leb_spec (rf r) (rt p)); cbn [orb negb]; [done |].
  destruct (Z.eqb_spec (r_value p) (r_value r)), (Z.eqb_spec (rt p + 1) (rf r)); cbn [andb negb];
    intros; split; congruence || lia.
Qed.

Lemma private_next_ok_spec r x : range_ok r -> range_ok x ->
  private_next_ok r x = true -> rt r < rf x /\ (rt r + 1 = rf x -> r_value r <> r_value x).
Proof.
  intros Hr Hp. destruct (range_ok_keys _ Hr), (range_ok_keys _ Hp). unfold private_next_ok.
  rewrite key_ltb_num, next_is_num by done. fold (rf x) (rt r).
  destruct (Z.ltb_spec (rt r) (rf x)); cbn [andb]; [| done].
  destruct (Z.eqb_spec (r_value x) (r_value r)), (Z.eqb_spec (rt r + 1) (rf x)); cbn [orb negb];
    intros; split; congruence || lia.
Qed.
(** A gap both neighbours accept is one the range fits into, touching no
    record of its value. *)
Lemma gap_below es r x : sp_sorted rf es -> canonical es -> range_ok r ->
  (forall p, sp_predecessor rf es (rf r) = Some p -> private_previous_ok r false p = true) ->
  x ∈ es -> rf x < rf r -> rt x < rf r /\ (rt x + 1 = rf r -> r_value x <> r_value r).
Proof.
  intros Hs [Hoks Hap] Hr Hprev Hx Hlt.
  destruct (sp_predecessor rf es (rf r)) as [p|] eqn:Hp;
    [| pose proof (sp_predecessor_None rf _ _ Hp x Hx); lia].
  destruct (sp_predecessor_Some rf es _ _ Hs Hp) as (Hpe & Hple & Hmax).
  destruct (private_previous_ok_spec r p Hr (Hoks p Hpe) (Hprev p eq_refl)) as [H1 H2].
  specialize (Hmax x Hx ltac:(lia)). pose proof (range_ok_num _ (Hoks p Hpe)).
  destruct (decide (rf x = rf p)) as [He | He].
  - by rewrite (sp_sorted_inj rf es x p Hs Hx Hpe He).
  - destruct (Hap x p Hx Hpe ltac:(lia)). split; [lia | intros; lia].
Qed.

Lemma gap_above es r x : sp_sorted rf es -> canonical es -> range_ok r ->
  (forall p, sp_at_or_after rf es (rf r) = Some p -> private_next_ok r p = true) ->
  x ∈ es -> rf r < rf x -> rt r < rf x /\ (rt r + 1 = rf x -> r_value r <> r_value x).
Proof.
  intros Hs [Hoks Hap] Hr Hnext Hx Hlt.
  destruct (sp_at_or_after rf es (rf r)) as [p|] eqn:Hp;
    [| pose proof (sp_at_or_after_None rf _ _ Hp x Hx); lia].
  destruct (sp_at_or_after_Some rf es _ _ Hs Hp) as (Hpe & Hple & Hmin).
  destruct (private_next_ok_spec r p Hr (Hoks p Hpe) (Hnext p eq_refl)) as [H1 H2].
  specialize (Hmin x Hx ltac:(lia)). pose proof (range_ok_num _ (Hoks p Hpe)).
  destruct (decide (rf x = rf p)) as [He | He].
  - by rewrite (sp_sorted_inj rf es x p Hs Hx Hpe He).
  - destruct (Hap p x Hpe Hx ltac:(lia)). split; [lia | intros; lia].
Qed.

Lemma gap_replaced es r : sp_sorted rf es -> canonical es -> range_ok r ->
  sp_member rf es (rf r) = false ->
  (forall p, sp_predecessor rf es (rf r) = Some p -> private_previous_ok r false p = true) ->
  (forall p, sp_at_or_after rf es (rf r) = Some p -> private_next_ok r p = true) ->
  replaced es (r_from r) (r_to r) (Some (r_value r)) (sp_upsert rf es r)
  /\ rng_lookup es (rf r) = None.
Proof.
  intros Hs Hc Hr Hm Hprev Hnext. rewrite sp_member_false in Hm. pose proof (range_ok_num _ Hr).
  pose proof (fun x => gap_below es r x Hs Hc Hr Hprev) as Hb.
  pose proof (fun x => gap_above es r x Hs Hc Hr Hnext) as Ha.
  assert (Hfit : forall x, x ∈ es -> rt x < rf r \/ rt r < rf x).
  { intros x Hx. specialize (Hm x Hx). specialize (Hb x Hx). specialize (Ha x Hx). lia. }
  split; [split |].
  - apply canonical_upsert; [done | done | |]; intros x Hx Hadj;
      pose proof (range_ok_num _ (proj1 Hc x Hx)); [apply Hb | apply Ha]; done || lia.
  - intros a v. rewrite has_upsert by done. fold (rf r) (rt r). unfold spans.
    enough (has es a v -> ~ (rf r <= a <= rt r)) by naive_solver.
    intros (x & Hx & ? & _). specialize (Hfit x Hx). lia.
  - apply rng_lookup_None. intros x Hx. specialize (Hfit x Hx). lia.
Qed.

Lemma replace_with_hint_update s n es (from to : K) value hint :
  holds s (replace_cost (length es) + n) es -> key_ok from -> key_ok to ->
  key_num from <= key_num to -> value_ok value -> zlen es + 3 <= u64_max ->
  (forall h, hint = Some h -> hint_rep (fst s) es from h) ->
  update_post s n es from to value (replace_with_hint s from to value hint).
Proof.
  intros [Hr Hc] Hkf Hkt Hft Hv Hmax Hh. apply replace_post_update; [by eapply map_rep_sorted | done |].
  by apply replace_with_hint_ok.
Qed.

Lemma assign_private_update s n es (from to : K) v :
  holds s (replace_cost (length es) + 2 + n) es -> tree_private (fst s) -> key_ok from -> key_ok to ->
  key_num from <= key_num to -> 0 <= v <= u32_max -> zlen es + 3 <= u64_max ->
  update_post s n es from to (Some v) (assign_private s from to v).
Proof.
  intros [Hr Hc] Hpriv Hkf Hkt Hft Hv Hmax. pose proof (map_rep_sorted _ _ _ Hr) as Hs.
  unfold assign_private. rewrite key_ltb_num by done.
  destruct (Z.ltb_spec (key_num to) (key_num from)); [lia |].
  assert (Hok : range_ok (mkRange from to v)) by done.
  set (r := mkRange from to v) in *. unfold insert_private_gap.
  rewrite encoded_range_bytes by done. cbn [mbind outcome_bind].
  pose proof Hr as [Ht Hn].
  replace (replace_cost (length es) + 2 + n)%nat with (S (replace_cost (length es) + 1 + n)) in Ht by lia.
  destruct (law_insert_gap (fst s) _ es (range_bytes r) r from (PrivateGap r)
              (private_previous_ok r) (private_next_ok r) Ht Hpriv)
    as (t' & res & -> & Hp' & Hres); [done | done | done | apply PrivateGap_decides | done |].
  cbn [mbind outcome_bind]. destruct res as [page | h].
  - destruct Hres as (Hm & Hprev & Hnext & Hr').
    destruct (gap_replaced es r Hs Hc Hok Hm Hprev Hnext) as [Hrep Hnone].
    rewrite bool_decide_true by done. unfold account_private_insert, count_up, checked_add. simpl.
    destruct (Z.leb_spec (snd s + 1) u64_max); [| lia]. simpl.
    replace (replace_cost (length es) + 1 + n)%nat with (S (replace_cost (length es) + n)) in Hr' by lia.
    destruct (law_record_added t' _ _ v Hr') as (t'' & -> & Hr'' & Hp''). simpl.
    pose proof (length_sp_upsert rf es r Hs Hm) as Hlen.
    apply replace_post_update; [done | done |].
    eexists _, _, true. split; [done |]. split; [split; [eapply rep_le; [done | lia] | simpl; unfold zlen in *; lia] |].
    split; [done |]. split; [unfold zlen in *; lia |]. split; [| intros _; simpl; auto].
    split; [done |]. intros Hall.
    assert (Hin : key_num from <= rf r <= key_num to) by (unfold rf; simpl; lia).
    rewrite (Hall _ Hin) in Hnone. done.
  - destruct Hres as [Hr' Hh]. unfold assign_with_hint. simpl.
    destruct (replace_with_hint_update (t', snd s) n es from to (Some v) (Some h))
      as (s' & es' & b & E & Hh' & Hz & Hl & Hb & Hk); try done.
    { split; [split; [eapply rep_le; [done | lia] | done] | done]. }
    { by intros ? [= <-]. }
    exists s', es', b. split; [done |]. split; [done |]. split; [done |]. split; [done |].
    split; [done |]. intros _. by apply Hk.
Qed.
(** ** Segments and [transform] *)

Lemma lookup_covered es r a : sp_sorted rf es -> canonical es -> r ∈ es -> rf r <= a <= rt r ->
  rng_lookup es a = Some (r_value r).
Proof. intros Hs Hc Hr Ha. apply (rng_lookup_has es a _ Hs Hc). by exists r. Qed.

(** A maximal piece of constant value: it starts at [from], and where it ends
    before [to] the value changes. *)
Definition segment_spec es (from to : K) (seg : @Segment K) : Prop :=
  key_ok (seg_to seg) /\ key_num from <= key_num (seg_to seg) <= key_num to
  /\ (forall a, key_num from <= a <= key_num (seg_to seg) -> rng_lookup es a = seg_value seg)
  /\ (key_num (seg_to seg) < key_num to ->
      rng_lookup es (key_num (seg_to seg) + 1) <> seg_value seg).

Lemma segment_gap_ok s n es (from to : K) :
  holds s n es -> key_ok from -> key_ok to -> key_num from <= key_num to ->
  rng_lookup es (key_num from) = None ->
  exists seg, segment_gap s from to = Ok seg /\ segment_spec es from to seg.
Proof.
  intros Hh Hkf Hkt Hft Hnone. pose proof (holds_sorted _ _ _ Hh) as Hs. destruct Hh as [Hr Hc].
  unfold segment_gap. rewrite (read_at_or_after_ok _ _ _ _ Hr Hkf). cbn [mbind outcome_bind].
  rewrite rng_lookup_None in Hnone.
  assert (Hend : forall e : K, key_ok e -> key_num from <= key_num e <= key_num to ->
    (forall x, x ∈ es -> key_num from <= rf x -> key_num e < rf x) ->
    (key_num e < key_num to -> rng_lookup es (key_num e + 1) <> None) ->
    segment_spec es from to (mkSegment e None)).
  { intros e He Hle Hno Hch. split; [done |]. split; [done |]. split; [| done].
    intros a Ha. simpl in *. apply rng_lookup_None. intros x Hx Hax.
    specialize (Hno x Hx). specialize (Hnone x Hx). lia. }
  destruct (sp_at_or_after rf es (key_num from)) as [x|] eqn:Hx.
  - destruct (sp_at_or_after_Some rf es _ _ Hs Hx) as (Hxe & Hxle & Hmin).
    pose proof (proj1 Hc x Hxe) as Hok. destruct (range_ok_keys x Hok) as [Hxf _].
    pose proof (range_ok_num _ Hok). specialize (Hnone x Hxe).
    pose proof (key_num_range from Hkf). rewrite key_leb_num by done. fold (rf x).
    destruct (Z.leb_spec (rf x) (key_num to)).
    + destruct (checked_previous_above (r_from x) Hxf) as (e & -> & He & Hne); [fold (rf x); lia |].
      fold (rf x) in Hne. cbn [ok_or mbind outcome_bind]. eexists. split; [done |].
      apply Hend; [done | lia | |].
      * intros y Hy Hle. specialize (Hmin y Hy Hle). lia.
      * intros _. rewrite (lookup_covered es x) by (done || lia). done.
    + cbn [mbind outcome_bind]. eexists. split; [done |]. apply Hend; [done | lia | | lia].
      intros y Hy Hle. specialize (Hmin y Hy Hle). lia.
  - cbn [mbind outcome_bind]. eexists. split; [done |]. apply Hend; [done | lia | | lia].
    intros y Hy Hle. pose proof (sp_at_or_after_None rf _ _ Hx y Hy). lia.
Qed.

Lemma segment_at_ok s n es (from to : K) :
  holds s n es -> key_ok from -> key_ok to -> key_num from <= key_num to ->
  exists seg, segment_at s from to = Ok seg /\ segment_spec es from to seg.
Proof.
  intros Hh Hkf Hkt Hft. pose proof (holds_sorted _ _ _ Hh) as Hs. pose proof Hh as [Hr Hc].
  unfold segment_at. rewrite (read_predecessor_ok _ _ _ _ Hr Hkf). cbn [mbind outcome_bind].
  pose proof (fun x => covering_predecessor es x (key_num from) Hs Hc) as Hcov.
  destruct (sp_predecessor rf es (key_num from)) as [x|] eqn:Hx;
    [| apply (segment_gap_ok s n); try done; apply rng_lookup_None; intros y Hy Hay; by specialize (Hcov y Hy Hay)].
  destruct (sp_predecessor_Some rf es _ _ Hs Hx) as (Hxe & Hxle & _).
  pose proof (proj1 Hc x Hxe) as Hok. destruct (range_ok_keys x Hok) as [Hxf Hxt].
  rewrite key_leb_num by done. fold (rt x). destruct (Z.leb_spec (key_num from) (rt x)).
  - destruct (key_min_num (r_to x) to Hxt Hkt) as [Hmo Hmn]. fold (rt x) in Hmn.
    eexists. split; [done |]. split; [done |]. simpl. rewrite Hmn. split; [lia |]. split.
    + intros a Ha. apply lookup_covered; done || lia.
    + intros Hlt Hv. replace (Z.min (rt x) (key_num to)) with (rt x) in * by lia.
      apply (rng_lookup_has es _ _ Hs Hc) in Hv as (y & Hy & Hay & Hvy).
      pose proof (range_ok_num _ Hok). destruct Hc as [_ Hap].
      destruct (Z.lt_trichotomy (rf x) (rf y)) as [Hl | [Hl | Hl]].
      * destruct (Hap x y Hxe Hy Hl) as [? Hne]. apply Hne; [lia | done].
      * pose proof (sp_sorted_inj rf es x y Hs Hxe Hy Hl). subst y. lia.
      * destruct (Hap y x Hy Hxe Hl). lia.
  - apply (segment_gap_ok s n); try done. apply rng_lookup_None. intros y Hy Hay.
    specialize (Hcov y Hy Hay) as [= ->]. lia.
Qed.

(** ** The number of pieces

    The addresses of [from + 1 ..= to] whose value is not that of the address
    before: the pieces of constant value of the interval, less one. *)
Definition value_changes (f : Z -> option Z) (from to : Z) : nat :=
  length (filter (fun a => f a <> f (a - 1)) (seqZ (from + 1) (to - from))).

Lemma value_changes_ext f f' from to : (forall a, from <= a <= to -> f a = f' a) ->
  value_changes f from to = value_changes f' from to.
Proof.
  intros Hf. unfold value_changes.
  assert (Hin : forall a, a ∈ seqZ (from + 1) (to - from) -> f a = f' a /\ f (a - 1) = f' (a - 1))
    by (intros a Ha%elem_of_seqZ; split; apply Hf; lia).
  induction (seqZ (from + 1) (to - from)) as [|a l IH]; [done |].
  destruct (Hin a ltac:(by left)) as [Ha Hp]. rewrite !filter_cons, Ha, Hp.
  case_decide; simpl; rewrite IH by (intros b Hb; apply Hin; by right); done.
Qed.

(** The pieces after the first one. *)
Lemma value_changes_split f from mid to : from <= mid < to -> f (mid + 1) <> f mid ->
  (value_changes f (mid + 1) to < value_changes f from to)%nat.
Proof.
  intros Hm Hch. unfold value_changes.
  replace (to - from) with ((mid - from) + (1 + (to - (mid + 1)))) by lia.
  rewrite (seqZ_app (from + 1)), (seqZ_app (from + 1 + (mid - from))), !filter_app, !length_app by lia.
  replace (from + 1 + (mid - from)) with (mid + 1) by lia.
  rewrite (seqZ_cons (mid + 1) 1) by lia. cbn [Z.pred Z.pos_sub]. rewrite filter_cons_True; [simpl; lia |].
  by replace (mid + 1 - 1) with mid by lia.
Qed.

(** [operation] may use the store, as the membership operations do; [g] is the
    value it computes, or the error it fails with. *)
Definition operation_computes (operation : T -> option Z -> Result (T * option Z))
    (g : option Z -> Result (option Z)) : Prop :=
  forall t n es v, tree_rep t (S n) es -> value_ok v ->
    match g v with
    | Ok w => value_ok w
        /\ exists t', operation t v = Ok (t', w) /\ tree_rep t' n es /\ (tree_private t -> tree_private t')
    | Err e => operation t v = Err e
    | Panic m => operation t v = Panic m
    end.

Fixpoint transform_cost (iterations len : nat) : nat :=
  match iterations with
  | O => O
  | S k => (1 + replace_cost len + transform_cost k (len + 3))%nat
  end.

Lemma transform_cost_mono k len len' : (len <= len')%nat ->
  (transform_cost k len <= transform_cost k len')%nat.
Proof.
  revert len len'. induction k as [|k IH]; intros len len' Hle; [done |]. simpl.
  specialize (IH (len + 3)%nat (len' + 3)%nat ltac:(lia)). unfold replace_cost. lia.
Qed.

Lemma lookup_value_ok es a : canonical es -> value_ok (rng_lookup es a).
Proof.
  intros [Hok _]. induction es as [|r es IH]; simpl; [done |].
  case_match; [by destruct (Hok r ltac:(by left)) as (_ & _ & _ & ?) |].
  apply IH. intros x Hx. apply Hok. by right.
Qed.

(** One iteration: the segment at the cursor gets its new value. *)
Lemma transform_step operation g s n es (cursor to : K) seg w :
  operation_computes operation g ->
  holds s (1 + replace_cost (length es) + n) es -> zlen es + 3 <= u64_max ->
  key_ok cursor -> key_num cursor <= key_num to -> segment_spec es cursor to seg ->
  value_ok (seg_value seg) -> g (seg_value seg) = Ok w ->
  exists t s' es', operation (fst s) (seg_value seg) = Ok (t, w)
    /\ (if bool_decide (w = seg_value seg) then (t, snd s) = s'
        else exists b, replace (t, snd s) cursor (seg_to seg) w = Ok (s', b))
    /\ holds s' n es' /\ zlen es' <= zlen es + 3
    /\ (forall a, rng_lookup es' a =
          updated (rng_lookup es) (key_num cursor) (key_num (seg_to seg)) w a)
    /\ keeps_private s s'.
Proof.
  intros Hop [[Hr Hn] Hc] Hmax Hkc Hct (Hke & Hle & Hall & _) Hv Hg.
  pose proof (Hop (fst s) (replace_cost (length es) + n)%nat es (seg_value seg) Hr Hv) as Hstep.
  rewrite Hg in Hstep. destruct Hstep as (Hgv & t & -> & Ht & Hp).
  case_bool_decide as Heq.
  - exists t, (t, snd s), es. split; [done |]. split; [done |].
    split; [split; [split; [eapply rep_le; [done | lia] | done] | done] |].
    split; [lia |]. split; [| done]. intros a. unfold updated.
    destruct (Z.leb_spec (key_num cursor) a), (Z.leb_spec a (key_num (seg_to seg))); cbn [andb]; try done.
    rewrite Heq. apply Hall. lia.
  - destruct (replace_update (t, snd s) n es cursor (seg_to seg) w)
      as (s' & es' & b & E & Hh' & Hz & Hl & _ & Hk); try done; [lia |].
    exists t, s', es'. split; [done |]. split; [by exists b |]. do 3 (split; [done |]).
    intros ?. apply Hk. simpl. auto.
Qed.

(** The address map with [g] applied from [from] to [to], as the calls of the
    operation answer. *)
Definition transformed (g : option Z -> Result (option Z)) (f : Z -> option Z) (from to a : Z) : Result (option Z) :=
  if (from <=? a) && (a <=? to) then g (f a) else Ok (f a).

Lemma transformed_out g f lo hi a : a < lo \/ hi < a -> transformed g f lo hi a = Ok (f a).
Proof. intros Ha. unfold transformed. zcase. Qed.

Lemma transformed_in g f lo hi a : lo <= a <= hi -> transformed g f lo hi a = g (f a).
Proof. intros Ha. unfold transformed. zcase. Qed.

(** What [transform] answers on [from..=to] when [changed] is already known:
    the transformed map, or the error of the first address refused. *)
Definition transform_done g s n es from to (changed : bool) (r : Result (@st T * bool)) : Prop :=
  (exists s' es' b, r = Ok (s', b) /\ holds s' n es'
     /\ (forall a, transformed g (rng_lookup es) from to a = Ok (rng_lookup es' a))
     /\ (b = false <-> changed = false
           /\ forall a, from <= a <= to -> g (rng_lookup es a) = Ok (rng_lookup es a))
     /\ keeps_private s s')
  \/ (exists a, from <= a <= to /\ (forall b, from <= b < a -> exists w, g (rng_lookup es b) = Ok w)
       /\ ((exists e, g (rng_lookup es a) = Err e /\ r = Err e)
           \/ (exists m, g (rng_lookup es a) = Panic m /\ r = Panic m))).

(** One piece done, and the rest of the interval. *)
Lemma transform_join g s s1 n es es1 lo mid hi v w changed (r : Result (@st T * bool)) :
  lo <= mid < hi -> (forall a, lo <= a <= mid -> rng_lookup es a = v) -> g v = Ok w ->
  (forall a, rng_lookup es1 a = updated (rng_lookup es) lo mid w a) -> keeps_private s s1 ->
  transform_done g s1 n es1 (mid + 1) hi (changed || negb (bool_decide (w = v))) r ->
  transform_done g s n es lo hi changed r.
Proof.
  intros Hm Hall Hg Hl Hk Hd.
  assert (Hafter : forall a, mid < a -> rng_lookup es1 a = rng_lookup es a) by (intros a Ha; rewrite Hl; unfold updated; zcase).
  destruct Hd as [(s' & es' & b & -> & Hh & Ht & Hb & Hk') | (a & Ha & Hbefore & Hfail)]; [left | right].
  - exists s', es', b. split; [done |]. split; [done |]. split; [| split; [| intros ?; auto]].
    + intros a. rewrite <- Ht. destruct (Z.le_gt_cases a mid).
      * rewrite (transformed_out _ _ (mid + 1)) by lia. rewrite Hl. unfold transformed, updated.
        destruct (Z.leb_spec lo a); cbn [andb]; [| done]. rewrite !(proj2 (Z.leb_le _ _)), Hall by lia. done.
      * unfold transformed. rewrite Hafter by lia. zcase.
    + rewrite Hb, orb_false_iff, negb_false_iff, bool_decide_eq_true. split.
      * intros [[? ->] Hr]. split; [done |]. intros a Ha. destruct (Z.le_gt_cases a mid).
        -- by rewrite Hall by lia.
        -- rewrite <- Hafter by lia. apply Hr. lia.
      * intros [? Hr]. split.
        -- split; [done |]. pose proof (Hr lo ltac:(lia)) as Hlo. rewrite Hall in Hlo by lia. congruence.
        -- intros a Ha. rewrite Hafter by lia. apply Hr. lia.
  - rewrite Hafter in Hfail by lia. exists a. split; [lia |]. split; [| done]. intros b Hb. destruct (Z.le_gt_cases b mid).
    + exists w. by rewrite Hall by lia.
    + rewrite <- Hafter by lia. apply Hbefore. lia.
Qed.

(** The last piece. *)
Lemma transform_last g s s1 n es es1 lo hi v w changed :
  lo <= hi -> (forall a, lo <= a <= hi -> rng_lookup es a = v) -> g v = Ok w -> holds s1 n es1 ->
  (forall a, rng_lookup es1 a = updated (rng_lookup es) lo hi w a) -> keeps_private s s1 ->
  transform_done g s n es lo hi changed (Ok (s1, changed || negb (bool_decide (w = v)))).
Proof.
  intros Hm Hall Hg Hh Hl Hk. left. exists s1, es1, (changed || negb (bool_decide (w = v))).
  split; [done |]. split; [done |]. split; [| split; [| done]].
  - intros a. rewrite Hl. unfold transformed, updated.
    destruct (Z.leb_spec lo a), (Z.leb_spec a hi); cbn [andb]; try done. by rewrite Hall by lia.
  - rewrite orb_false_iff, negb_false_iff, bool_decide_eq_true. split.
    + intros [? ->]. split; [done |]. intros a Ha. by rewrite Hall by lia.
    + intros [? Hr]. split; [done |]. pose proof (Hr lo ltac:(lia)) as Hlo. rewrite Hall in Hlo by lia. congruence.
Qed.

Lemma transform_loop_ok operation g k fuel s n es (cursor to : K) changed :
  operation_computes operation g ->
  holds s (transform_cost k (length es) + n) es -> zlen es + 3 * Z.of_nat k <= u64_max ->
  key_ok cursor -> key_ok to -> key_num cursor <= key_num to ->
  (value_changes (rng_lookup es) (key_num cursor) (key_num to) < k)%nat -> (k <= fuel)%nat ->
  transform_done g s n es (key_num cursor) (key_num to) changed (transform_loop operation fuel s cursor to changed).
Proof.
  intros Hop. revert fuel s es cursor changed.
  induction k as [|k IH]; intros fuel s es cursor changed Hh Hmax Hkc Hkt Hct Hk Hfuel; [lia |].
  destruct fuel as [|fuel]; [lia |]. cbn [transform_loop].
  destruct (segment_at_ok s _ es cursor to Hh Hkc Hkt Hct) as (seg & -> & Hseg). cbn [mbind outcome_bind].
  pose proof Hseg as (Hke & Hle & Hall & Hch).
  assert (Hin0 : rng_lookup es (key_num cursor) = seg_value seg) by (apply Hall; lia).
  assert (Hv : value_ok (seg_value seg)) by (rewrite <- Hin0; by apply lookup_value_ok, Hh).
  destruct (g (seg_value seg)) as [w | e | m] eqn:Hg.
  2, 3: pose proof (Hop (fst s) _ es (seg_value seg) (proj1 (proj1 Hh)) Hv) as Hf; rewrite Hg in Hf;
    rewrite Hf; right; exists (key_num cursor); split; [lia |]; split; [lia |]; rewrite Hin0; eauto.
  destruct (transform_step operation g s (transform_cost k (length es + 3) + n) es cursor to seg w)
    as (t & s1 & es1 & -> & E1 & Hh1 & Hz1 & Hl1 & Hk1); try done;
    [eapply holds_le; [done | simpl; lia] | lia |]. cbn [mbind outcome_bind].
  set (changed1 := changed || negb (bool_decide (w = seg_value seg))).
  match goal with |- context [mbind _ ?m] => assert (E : m = Ok (s1, changed1)) end.
  { subst changed1. case_bool_decide; [by rewrite E1, orb_false_r |].
    destruct E1 as [b ->]. simpl. by rewrite orb_true_r. }
  rewrite E. cbn [mbind outcome_bind]. clear E E1. rewrite key_eqb_num by done.
  destruct (Z.eqb_spec (key_num (seg_to seg)) (key_num to)) as [He | He].
  - rewrite He in *. eapply transform_last; try done. eapply holds_le; [done | lia].
  - pose proof (key_num_range to Hkt).
    destruct (checked_next_below (seg_to seg) Hke ltac:(lia)) as (c & -> & Hkc' & Hnc). cbn [ok_or mbind outcome_bind].
    assert (Hzl : (length es1 <= length es + 3)%nat) by (unfold zlen in Hz1; lia).
    eapply (transform_join g s s1 n es es1 (key_num cursor) (key_num (seg_to seg))); try done; [lia |].
    fold changed1. rewrite <- Hnc. apply IH; try done; try lia.
    + eapply holds_le; [done |]. pose proof (transform_cost_mono k _ _ Hzl). lia.
    + rewrite (value_changes_ext _ (rng_lookup es)) by (intros a Ha; rewrite Hl1; unfold updated; zcase).
      eapply Nat.lt_le_trans; [rewrite Hnc; apply (value_changes_split _ (key_num cursor)); [lia |] | lia].
      rewrite (Hall (key_num (seg_to seg))) by lia. apply Hch. lia.
Qed.
(** ** Sequences of assignments *)

Inductive map_op : Type :=
| MapAssign (from to : K) (value : Z)
| MapClear (from to : K).

Fixpoint run_ops s (ops : list map_op) : Result (@st T) :=
  match ops with
  | [] => Ok s
  | MapAssign from to value :: ops => '(s, _) ← assign s from to value; run_ops s ops
  | MapClear from to :: ops => '(s, _) ← clear s from to; run_ops s ops
  end.

Fixpoint spec_ops (f : Z -> option Z) (ops : list map_op) : Z -> option Z :=
  match ops with
  | [] => f
  | MapAssign from to value :: ops =>
      spec_ops (updated f (key_num from) (key_num to) (Some value)) ops
  | MapClear from to :: ops => spec_ops (updated f (key_num from) (key_num to) None) ops
  end.

Definition op_valid (op : map_op) : Prop :=
  match op with
  | MapAssign from to value =>
      key_ok from /\ key_ok to /\ key_num from <= key_num to /\ 0 <= value <= u32_max
  | MapClear from to => key_ok from /\ key_ok to /\ key_num from <= key_num to
  end.

Lemma spec_ops_ext f f' ops : (forall a, f a = f' a) -> forall a, spec_ops f ops a = spec_ops f' ops a.
Proof.
  revert f f'. induction ops as [|[from to v | from to] ops IH]; intros f f' Hf a; simpl; [done | |];
    apply IH; intros b; unfold updated; by rewrite Hf.
Qed.

(** One step of a sequence, with the budget the rest of it needs. *)
Lemma op_step s k n es (from to : K) value :
  holds s (transform_cost (S k) (length es) + n) es -> zlen es + 3 * Z.of_nat (S k) <= u64_max ->
  key_ok from -> key_ok to -> key_num from <= key_num to -> value_ok value ->
  exists s' es' b, replace s from to value = Ok (s', b)
    /\ holds s' (transform_cost k (length es') + n) es' /\ zlen es' + 3 * Z.of_nat k <= u64_max
    /\ (forall a, rng_lookup es' a = updated (rng_lookup es) (key_num from) (key_num to) value a).
Proof.
  intros Hh Hmax Hkf Hkt Hft Hv.
  destruct (replace_update s (transform_cost k (length es + 3) + n) es from to value)
    as (s' & es' & b & E & Hh' & Hz & Hl & _ & _); try done; [eapply holds_le; [done | simpl; lia] | lia |].
  exists s', es', b. split; [done |]. split; [| split; [lia | done]].
  eapply holds_le; [done |].
  pose proof (transform_cost_mono k (length es') (length es + 3) ltac:(unfold zlen in Hz; lia)). lia.
Qed.

(** C1: a sequence of assignments and clearings, run on the stored range map,
    succeeds and leaves the map that the same updates give when applied to the
    address-to-value function, with the records again canonical and counted. *)
Theorem range_ops_refine s n es ops :
  holds s (transform_cost (length ops) (length es) + n) es ->
  zlen es + 3 * zlen ops <= u64_max -> Forall op_valid ops ->
  exists s' es', run_ops s ops = Ok s' /\ holds s' n es'
    /\ forall a, rng_lookup es' a = spec_ops (rng_lookup es) ops a.
Proof.
  revert s es. induction ops as [|op ops IH]; intros s es Hh Hmax Hv.
  - exists s, es. done.
  - inversion Hv as [|? ? Hop Hv']; subst. unfold zlen in *. cbn [length] in *.
    assert (Hstep : forall from to value, key_ok from -> key_ok to -> key_num from <= key_num to ->
      value_ok value -> exists s1 b s' es', replace s from to value = Ok (s1, b) /\ run_ops s1 ops = Ok s'
        /\ holds s' n es'
        /\ forall a, rng_lookup es' a = spec_ops (updated (rng_lookup es) (key_num from) (key_num to) value) ops a).
    { intros from to value Hkf Hkt Hft Hval.
      destruct (op_step s (length ops) n es from to value) as (s1 & es1 & b & E & Hh1 & Hm1 & Hl1);
        try done.
      destruct (IH s1 es1 Hh1 Hm1 Hv') as (s' & es' & E' & Hh' & Hl').
      exists s1, b, s', es'. do 3 (split; [done |]). intros a. rewrite Hl'. by apply spec_ops_ext. }
    destruct op as [from to v | from to]; simpl in Hop |- *; unfold assign, clear.
    + destruct Hop as (Hkf & Hkt & Hft & Hval).
      destruct (Hstep from to (Some v) Hkf Hkt Hft Hval) as (s1 & b & s' & es' & -> & E & ?). by exists s', es'.
    + destruct Hop as (Hkf & Hkt & Hft).
      destruct (Hstep from to None Hkf Hkt Hft I) as (s1 & b & s' & es' & -> & E & ?). by exists s', es'.
Qed.

(** Assigning a value to an interval succeeds; afterwards every address of
    the interval has the value and every other address what it had; the
    records are canonical and counted; the result is [false] exactly when the
    interval already had the value throughout. *)
Theorem assign_correct s n es (from to : K) v :
  holds s (replace_cost (length es) + n) es -> key_ok from -> key_ok to ->
  key_num from <= key_num to -> 0 <= v <= u32_max -> zlen es + 3 <= u64_max ->
  exists s' es' changed, assign s from to v = Ok (s', changed) /\ holds s' n es'
    /\ (forall a, rng_lookup es' a = updated (rng_lookup es) (key_num from) (key_num to) (Some v) a)
    /\ (changed = false <-> forall a, key_num from <= a <= key_num to -> rng_lookup es a = Some v).
Proof.
  intros Hh Hkf Hkt Hft Hv Hmax.
  destruct (replace_update s n es from to (Some v)) as (s' & es' & b & E & Hh' & _ & Hl & Hb & _); try done.
  by exists s', es', b.
Qed.

(** Clearing an interval succeeds; afterwards no address of the interval
    has a value and every other address keeps its own, records cut at the
    borders included; the result is [false] exactly when nothing was there. *)
Theorem clear_correct s n es (from to : K) :
  holds s (replace_cost (length es) + n) es -> key_ok from -> key_ok to ->
  key_num from <= key_num to -> zlen es + 3 <= u64_max ->
  exists s' es' changed, clear s from to = Ok (s', changed) /\ holds s' n es'
    /\ (forall a, rng_lookup es' a = updated (rng_lookup es) (key_num from) (key_num to) None a)
    /\ (changed = false <-> forall a, key_num from <= a <= key_num to -> rng_lookup es a = None).
Proof.
  intros Hh Hkf Hkt Hft Hmax.
  destruct (replace_update s n es from to None) as (s' & es' & b & E & Hh' & _ & Hl & Hb & _); try done.
  by exists s', es', b.
Qed.

(** C4: on a tree with no committed page, [assign_private] (insertion into a
    local gap, falling back on the general path with the neighbour it found as
    a hint) has the same effect and result as [assign]. *)
Theorem assign_private_correct s n es (from to : K) v :
  holds s (replace_cost (length es) + 2 + n) es -> tree_private (fst s) -> key_ok from -> key_ok to ->
  key_num from <= key_num to -> 0 <= v <= u32_max -> zlen es + 3 <= u64_max ->
  exists s1 s2 es1 es2 changed,
    assign_private s from to v = Ok (s1, changed) /\ assign s from to v = Ok (s2, changed)
    /\ holds s1 n es1 /\ holds s2 n es2 /\ tree_private (fst s1)
    /\ (forall a, rng_lookup es1 a = rng_lookup es2 a)
    /\ (forall a, rng_lookup es1 a = updated (rng_lookup es) (key_num from) (key_num to) (Some v) a).
Proof.
  intros Hh Hp Hkf Hkt Hft Hv Hmax.
  destruct (assign_private_update s n es from to v) as (s1 & es1 & b1 & E1 & Hh1 & _ & Hl1 & Hb1 & Hk1); try done.
  destruct (replace_update s n es from to (Some v)) as (s2 & es2 & b2 & E2 & Hh2 & _ & Hl2 & Hb2 & _);
    try done; [eapply holds_le; [done | lia] |].
  assert (b2 = b1) as -> by (destruct b1, b2; intuition).
  exists s1, s2, es1, es2, b1. do 4 (split; [done |]). split; [auto |]. split; [| done].
  intros a. by rewrite Hl1, Hl2.
Qed.

(** C5: [transform] ends after at most one iteration per piece of constant
    value in the interval, that is one more than the addresses of the interval
    whose value differs from the one before.  When the operation succeeds on
    the value of every address, every address of the interval is mapped through
    it, the rest is untouched, and [false] is reported exactly when no value
    changed.  Otherwise [transform] fails as the operation does at the lowest
    address it refuses. *)
Theorem transform_correct operation g fuel s n es (from to : K) :
  operation_computes operation g -> key_ok from -> key_ok to -> key_num from <= key_num to ->
  let pieces := S (value_changes (rng_lookup es) (key_num from) (key_num to)) in
  (pieces <= fuel)%nat ->
  holds s (transform_cost pieces (length es) + n) es -> zlen es + 3 * Z.of_nat pieces <= u64_max ->
  (exists s' es' changed, transform operation fuel s from to = Ok (s', changed) /\ holds s' n es'
     /\ (forall a, transformed g (rng_lookup es) (key_num from) (key_num to) a = Ok (rng_lookup es' a))
     /\ (changed = false <->
           forall a, key_num from <= a <= key_num to -> g (rng_lookup es a) = Ok (rng_lookup es a)))
  \/ (exists a, key_num from <= a <= key_num to
       /\ (forall b, key_num from <= b < a -> exists w, g (rng_lookup es b) = Ok w)
       /\ ((exists e, g (rng_lookup es a) = Err e /\ transform operation fuel s from to = Err e)
           \/ (exists m, g (rng_lookup es a) = Panic m /\ transform operation fuel s from to = Panic m))).
Proof.
  intros Hop Hkf Hkt Hft pieces Hfuel Hh Hmax. unfold transform. rewrite key_ltb_num by done.
  destruct (Z.ltb_spec (key_num to) (key_num from)); [lia |].
  destruct (transform_loop_ok operation g pieces fuel s n es from to false) as [(s' & es' & b & E & Hh' & Hl & Hb & _) | Hf];
    try done; [by apply Nat.lt_succ_diag_r | left | by right].
  exists s', es', b. do 3 (split; [done |]). rewrite Hb. tauto.
Qed.

(** An interval given backwards is refused by every entry point before
    anything is read or written. *)
Theorem reversed_interval_refused operation fuel s (from to : K) v :
  key_ok from -> key_ok to -> key_num to < key_num from ->
  assign s from to v = Err (InvalidArgument "range start is after its end")
  /\ clear s from to = Err (InvalidArgument "range start is after its end")
  /\ assign_private s from to v = Err (InvalidArgument "range start is after its end")
  /\ transform operation fuel s from to = Err (InvalidArgument "range start is after its end").
Proof.
  intros Hkf Hkt Hlt. assert (E : key_ltb to from = true) by (rewrite key_ltb_num by done; by apply Z.ltb_lt).
  unfold assign, clear, replace, replace_with_hint, assign_private, transform. by rewrite E.
Qed.
End Refinement.

(** ** Instances on concrete maps

    IPv4 keys over the reference tree: every hypothesis of the theorems above
    can be met. *)

Module Examples.

#[local] Instance v4_ops : OrderedTree Ipv4Key (Range Ipv4Key) (list (Range Ipv4Key)) (option (Range Ipv4Key)) :=
  ListTree.ops rf key_num range_bytes.

Lemma range_cell_enc cell (r : Range Ipv4Key) : range_cell cell r -> cell = range_bytes r.
Proof. by intros [_ ?]. Qed.

Lemma range_cell_read cell (r : Range Ipv4Key) : range_cell cell r -> read_leaf cell = Ok r.
Proof. intros [? ->]. by apply decode_cell_bytes. Qed.

#[local] Instance v4_laws :
    OrderedTreeLaws Ipv4Key (Range Ipv4Key) (list (Range Ipv4Key)) (option (Range Ipv4Key))
      rf key_num key_ok range_cell :=
  ListTree.laws rf key_num range_bytes key_ok range_cell range_cell_enc range_cell_read.

Definition rng (from to v : Z) : Range Ipv4Key := mkRange (mkV4 from) (mkV4 to) v.

(** 10-19 has value 1, 20-29 value 2, 40-49 value 1. *)
Definition sample : list (Range Ipv4Key) := [rng 10 19 1; rng 20 29 2; rng 40 49 1].

Lemma sample_holds n : holds (sample, 3) n sample.
Proof.
  assert (Hok : forall r, r ∈ sample -> range_ok r).
  { intros r. unfold sample. rewrite !elem_of_cons, elem_of_nil.
    intros [-> | [-> | [-> | []]]]; vm_compute; intuition discriminate. }
  split; [split; [| done] | split; [done |]].
  - split; [done |]. split.
    + unfold sample. repeat constructor.
    + apply Forall_forall. intros r Hr. split; [auto | done].
  - intros a b. unfold sample. rewrite !elem_of_cons, !elem_of_nil. unfold apart.
    intros [-> | [-> | [-> | []]]] [-> | [-> | [-> | []]]]; unfold rf, rt; simpl; lia.
Qed.

Lemma range_ops_refine_witness :
  exists s' es', run_ops (sample, 3) [MapAssign (mkV4 15) (mkV4 44) 1; MapClear (mkV4 12) (mkV4 12)] = Ok s'
    /\ holds s' 0 es'
    /\ forall a, rng_lookup es' a =
        spec_ops (rng_lookup sample) [MapAssign (mkV4 15) (mkV4 44) 1; MapClear (mkV4 12) (mkV4 12)] a.
Proof.
  apply (range_ops_refine (sample, 3) 0 sample); [apply sample_holds | vm_compute; discriminate |].
  repeat apply Forall_cons_2; [| | constructor]; simpl; unfold v4_ok; vm_compute; intuition discriminate.
Defined.

Lemma assign_correct_witness :
  exists s' es' changed, assign (sample, 3) (mkV4 15) (mkV4 44) 2 = Ok (s', changed) /\ holds s' 0 es'
    /\ (forall a, rng_lookup es' a = updated (rng_lookup sample) (key_num (mkV4 15)) (key_num (mkV4 44)) (Some 2) a)
    /\ (changed = false <-> forall a, key_num (mkV4 15) <= a <= key_num (mkV4 44) -> rng_lookup sample a = Some 2).
Proof.
  apply (assign_correct (sample, 3) 0 sample (mkV4 15) (mkV4 44) 2);
    [apply sample_holds | | | | |]; vm_compute; intuition discriminate.
Defined.

Lemma clear_correct_witness :
  exists s' es' changed, clear (sample, 3) (mkV4 12) (mkV4 15) = Ok (s', changed) /\ holds s' 0 es'
    /\ (forall a, rng_lookup es' a = updated (rng_lookup sample) (key_num (mkV4 12)) (key_num (mkV4 15)) None a)
    /\ (changed = false <-> forall a, key_num (mkV4 12) <= a <= key_num (mkV4 15) -> rng_lookup sample a = None).
Proof.
  apply (clear_correct (sample, 3) 0 sample (mkV4 12) (mkV4 15));
    [apply sample_holds | | | |]; vm_compute; intuition discriminate.
Defined.

Lemma assign_private_correct_witness :
  exists s1 s2 es1 es2 changed,
    assign_private (sample, 3) (mkV4 30) (mkV4 33) 2 = Ok (s1, changed)
    /\ assign (sample, 3) (mkV4 30) (mkV4 33) 2 = Ok (s2, changed)
    /\ holds s1 0 es1 /\ holds s2 0 es2 /\ tree_private (fst s1)
    /\ (forall a, rng_lookup es1 a = rng_lookup es2 a)
    /\ (forall a, rng_lookup es1 a = updated (rng_lookup sample) (key_num (mkV4 30)) (key_num (mkV4 33)) (Some 2) a).
Proof.
  apply (assign_private_correct (sample, 3) 0 sample (mkV4 30) (mkV4 33) 2);
    [apply sample_holds | exact I | | | | |]; vm_compute; intuition discriminate.
Defined.

(** 1 becomes 7, an address with no value gets 3, and 2 is refused. *)
Definition bump (v : option Z) : Result (option Z) :=
  match v with
  | Some v => if v =? 1 then Ok (Some 7) else if v =? 2 then Err (InvalidArgument "refused") else Ok (Some v)
  | None => Ok (Some 3)
  end.

Lemma bump_computes : operation_computes (fun t v => v ← bump v; Ok (t, v)) bump.
Proof.
  intros t n es v Hr Hv. unfold bump. repeat case_match; simpl in *; try congruence; simplify_eq/=;
    try (split; [unfold u32_max in *; lia | by exists t]).
Qed.

(** Three pieces: 33-39 without a value, 40-49 with value 1, 50-60 without;
    and one that ends at the address 20 of value 2. *)
Lemma transform_correct_witness :
  (exists s' es' changed,
    transform (fun t v => v ← bump v; Ok (t, v)) 3 (sample, 3) (mkV4 33) (mkV4 60) = Ok (s', changed)
    /\ holds s' 0 es' /\ rng_lookup es' 45 = Some 7)
  /\ transform (fun t v => v ← bump v; Ok (t, v)) 3 (sample, 3) (mkV4 15) (mkV4 33) = Err (InvalidArgument "refused").
Proof.
  split.
  - destruct (transform_correct (fun t v => v ← bump v; Ok (t, v)) bump 3 (sample, 3) 0 sample (mkV4 33) (mkV4 60))
      as [(s' & es' & changed & E & Hh & Ht & _) | (a & _ & _ & [(e & _ & E) | (m & _ & E)])];
      [apply bump_computes | vm_compute; intuition discriminate .. | vm_compute; lia | apply sample_holds | vm_compute; discriminate | | |].
    + exists s', es', changed. split; [done |]. split; [done |]. specialize (Ht 45). rewrite transformed_in in Ht by (vm_compute; intuition discriminate). by injection Ht as <-.
    + vm_compute in E. discriminate.
    + vm_compute in E. discriminate.
  - destruct (transform_correct (fun t v => v ← bump v; Ok (t, v)) bump 3 (sample, 3) 0 sample (mkV4 15) (mkV4 33))
      as [(s' & es' & changed & E & _) | (a & _ & _ & [(e & Hg & E) | (m & _ & E)])];
      [apply bump_computes | vm_compute; intuition discriminate .. | vm_compute; lia | apply sample_holds | vm_compute; discriminate | | |].
    + vm_compute in E. discriminate.
    + rewrite E. unfold bump in Hg. repeat case_match; congruence.
    + vm_compute in E. discriminate.
Defined.

Lemma reversed_interval_refused_witness :
  assign (sample, 3) (mkV4 9) (mkV4 8) 1 = Err (InvalidArgument "range start is after its end")
  /\ clear (sample, 3) (mkV4 9) (mkV4 8) = Err (InvalidArgument "range start is after its end")
  /\ assign_private (sample, 3) (mkV4 9) (mkV4 8) 1 = Err (InvalidArgument "range start is after its end")
  /\ transform (fun t v => Ok (t, v)) 1 (sample, 3) (mkV4 9) (mkV4 8)
     = Err (InvalidArgument "range start is after its end").
Proof.
  apply (reversed_interval_refused (fun t v => Ok (t, v)) 1 (sample, 3) (mkV4 9) (mkV4 8) 1);
    vm_compute; intuition discriminate.
Defined.

(** The coalescing is visible in the records themselves. *)
Example assign_joins_neighbours :
  assign (sample, 3) (mkV4 20) (mkV4 39) 1 = Ok (([rng 10 49 1], 1), true).
Proof. reflexivity. Qed.

Example clear_splits_a_record :
  clear (sample, 3) (mkV4 22) (mkV4 24) = Ok (([rng 10 19 1; rng 20 21 2; rng 25 29 2; rng 40 49 1], 4), true).
Proof. reflexivity. Qed.
End Examples.
