(* ===== verification/PageHeader.v ===== *)
(** * The common page header

    [page_header.rs]: the 32-byte header every page of the database starts
    with.  Reading a field of a page that is too short panics in the code, so
    the readers are outcomes; on a page of [PAGE_SIZE] bytes they never do. *)

From S2P Require Import Prelude Errors Bytes.
From stdpp Require Import base tactics numbers list strings.
From Stdlib Require Import ZArith Lia.

#[local] Open Scope string_scope.
#[local] Open Scope list_scope.
#[local] Open Scope Z_scope.

(** The ASCII bytes [IP4P]. *)
Definition PAGE_MAGIC : list Z := [73; 80; 52; 80].

Definition SIZE : Z := 32.
Definition MAGIC : Z := 0.
Definition MAGIC_WORD : Z := le_val PAGE_MAGIC.
Definition TYPE : Z := 4.
Definition FLAGS : Z := 5.
Definition HEADER_BYTES : Z := 6.
Definition BORN_TXN : Z := 8.
Definition ITEM_COUNT : Z := 16.
Definition LEVEL : Z := 18.
Definition LOWER : Z := 20.
Definition UPPER : Z := 22.
Definition AUX_AT : Z := 24.

Inductive CommonProblem := HeaderCP | BornCP.

Record Fields := mkFields {
  f_page_type : Z;
  f_born_txn : Z;
  f_item_count : Z;
  f_level : Z;
  f_lower : Z;
  f_upper : Z;
  f_aux : Z;
}.

Definition initialize (fields : Fields) : Result (list Z) :=
  let page := page_fill 0 in
  page ← page_write page MAGIC PAGE_MAGIC;
  page ← set_byte page TYPE (f_page_type fields);
  page ← put_u16 page HEADER_BYTES (as_u16 SIZE);
  page ← put_u64 page BORN_TXN (f_born_txn fields);
  page ← put_u16 page ITEM_COUNT (f_item_count fields);
  page ← put_u16 page LEVEL (f_level fields);
  page ← put_u16 page LOWER (f_lower fields);
  page ← put_u16 page UPPER (f_upper fields);
  put_u32 page AUX_AT (f_aux fields).

Section Readers.
Context {E : Type}.

Definition has_magic (page : list Z) : bool :=
  bool_decide (u32_source page MAGIC = Some MAGIC_WORD).

Definition common_valid (page : list Z) : outcome E bool :=
  if (zlen page =? PAGE_SIZE) && has_magic page && bool_decide (byte page FLAGS = Some 0)
  then header_bytes ← u16_le page HEADER_BYTES; Ok (header_bytes =? as_u16 SIZE)
  else Ok false.

Definition born_txn (page : list Z) : outcome E Z := u64_le page BORN_TXN.

Definition owned_by (page : list Z) (txn : Z) : outcome E bool :=
  if has_magic page then born ← born_txn page; Ok (born =? txn) else Ok false.

Definition born_valid (page : list Z) (selected_txn : Z) : outcome E bool :=
  born ← born_txn page;
  Ok (negb (born =? 0) && (born <=? selected_txn)).

Definition common_problem (page : list Z) (selected_txn : Z) : outcome E (option CommonProblem) :=
  common ← common_valid page;
  if negb common then Ok (Some HeaderCP)
  else
    born ← born_valid page selected_txn;
    if negb born then Ok (Some BornCP) else Ok None.

Definition kind_valid (page : list Z) (page_type aux : Z) : outcome E bool :=
  if bool_decide (byte page TYPE = Some page_type)
  then a ← u32_le page AUX_AT; Ok (a =? aux)
  else Ok false.

Definition page_type (page : list Z) : option Z := byte page TYPE.
Definition item_count (page : list Z) : outcome E Z := u16_le page ITEM_COUNT.
Definition level (page : list Z) : outcome E Z := u16_le page LEVEL.
Definition lower (page : list Z) : outcome E Z := u16_le page LOWER.
Definition upper (page : list Z) : outcome E Z := u16_le page UPPER.
End Readers.

(** ** Lemmas *)

(** Writing into a page and reading fields back. *)
Lemma u16_at_splice_same p a v : 0 <= a -> a + 2 <= zlen p -> 0 <= v <= u16_max ->
  u16_at (splice p a (le_bytes 2 v)) a = v.
Proof.
  intros Ha Hp Hv. unfold u16_at.
  replace 2 with (zlen (le_bytes 2 v)) at 2 by (by rewrite zlen_le_bytes).
  rewrite sub_splice_same by (rewrite ?zlen_le_bytes; lia). apply le_val_bytes. unfold u16_max in Hv. lia.
Qed.

Lemma u16_at_splice_other p a bs b :
  0 <= a -> a + zlen bs <= zlen p -> 0 <= b -> b + 2 <= zlen p ->
  b + 2 <= a \/ a + zlen bs <= b -> u16_at (splice p a bs) b = u16_at p b.
Proof. intros. unfold u16_at. by rewrite sub_splice_other by lia. Qed.

Lemma u16_at_range p a : bytes_ok p -> 0 <= u16_at p a <= u16_max.
Proof.
  intros Hp. unfold u16_at, u16_max. pose proof (le_val_range (sub p a 2) (bytes_ok_sub _ _ _ Hp)) as Hr.
  assert (zlen (sub p a 2) <= 2) by (unfold zlen, sub; rewrite length_take; lia).
  pose proof (zlen_nonneg (sub p a 2)).
  assert (256 ^ zlen (sub p a 2) <= 256 ^ 2) by (apply Z.pow_le_mono_r; lia). lia.
Qed.

Section HeaderLemmas.
Context {E : Type} (p : list Z) (Hp : zlen p = PAGE_SIZE).

Lemma item_count_page : item_count (E := E) p = Ok (u16_at p ITEM_COUNT).
Proof using Hp. apply u16_le_page; [done | unfold ITEM_COUNT, PAGE_SIZE; lia..]. Qed.
Lemma level_page : level (E := E) p = Ok (u16_at p LEVEL).
Proof using Hp. apply u16_le_page; [done | unfold LEVEL, PAGE_SIZE; lia..]. Qed.
Lemma lower_page : lower (E := E) p = Ok (u16_at p LOWER).
Proof using Hp. apply u16_le_page; [done | unfold LOWER, PAGE_SIZE; lia..]. Qed.
Lemma upper_page : upper (E := E) p = Ok (u16_at p UPPER).
Proof using Hp. apply u16_le_page; [done | unfold UPPER, PAGE_SIZE; lia..]. Qed.
End HeaderLemmas.
