(* ===== verification/SlottedPage.v ===== *)
(** * Slotted pages

    [slotted_page.rs]: a page holds an array of two-byte slots growing up from
    the header and the records growing down from the end of the page; slot [i]
    is the offset of record [i].  This file translates the module; the
    correctness proofs are in [SlottedFacts.v] and [LayoutFacts.v]. *)

From S2P Require Import Prelude Errors Bytes PageHeader.
From stdpp Require Import base tactics numbers list strings.
From Stdlib Require Import ZArith Lia.

#[local] Open Scope string_scope.
#[local] Open Scope list_scope.
#[local] Open Scope Z_scope.

Definition MAX_TREE_LEVEL : Z := 31.
Definition HEADER_SIZE : Z := SIZE.
Definition MAX_SLOT_COUNT : Z := (PAGE_SIZE - HEADER_SIZE) / 2.

Record Header := mkHeader {
  h_item_count : Z;
  h_level : Z;
  h_lower : Z;
  h_upper : Z;
}.

Inductive HeaderProblem := HeaderHP | BornHP | TypeHP | LevelHP | ShapeHP.

Inductive CellLayout :=
| Fixed (len : Z)
| Variable_ (minimum maximum : Z).

(** The byte offset of slot [index]. *)
Definition slot_at (index : Z) : Z := HEADER_SIZE + index * 2.

(** [u16::from_le_bytes(page.array_unchecked(at))]: the callers have checked the
    bounds. *)
Definition u16_unchecked (page : list Z) (at_ : Z) : Z := le_val (sub page at_ 2).

(** ** Parsing *)

Definition raw_header {E} (page : list Z) : outcome E Header :=
  item_count ← item_count page;
  level ← level page;
  lower ← lower page;
  upper ← upper page;
  Ok (mkHeader item_count level lower upper).

Definition shape_valid (header : Header) : bool :=
  let expected_lower := HEADER_SIZE + h_item_count header * 2 in
  negb (h_item_count header =? 0)
  && (expected_lower =? h_lower header)
  && (h_lower header <=? h_upper header)
  && (h_upper header <? PAGE_SIZE).

Definition tree_kind_valid_at_level {E} (page : list Z) (level branch_type leaf_type aux : Z)
    : outcome E bool :=
  let expected_type := if level =? 0 then leaf_type else branch_type in
  kind_valid page expected_type aux.

Definition tree_kind_valid {E} (page : list Z) (branch_type leaf_type aux : Z) : outcome E bool :=
  level ← level page;
  tree_kind_valid_at_level page level branch_type leaf_type aux.

Definition level_mismatch (expected_level : option Z) (level : Z) : bool :=
  match expected_level with Some expected => negb (expected =? level) | None => false end.

Definition inspect_tree_header (page : list Z) (selected_txn branch_type leaf_type aux : Z)
    (expected_level : option Z) : outcome HeaderProblem Header :=
  header ← raw_header page;
  common ← common_valid page;
  if negb common then Err HeaderHP
  else
    born ← born_valid page selected_txn;
    if negb born then Err BornHP
    else
      kind ← tree_kind_valid_at_level page (h_level header) branch_type leaf_type aux;
      if negb kind then Err TypeHP
      else if (MAX_TREE_LEVEL <? h_level header) || level_mismatch expected_level (h_level header)
      then Err LevelHP
      else if negb (shape_valid header) then Err ShapeHP
      else Ok header.

Definition validate_identity (page : list Z) (selected_txn page_type aux : Z) : Result unit :=
  common ← common_valid page;
  if negb common then Err (Corrupt "slotted-page header is invalid")
  else
    born ← born_valid page selected_txn;
    if negb born then Err (Corrupt "slotted-page transaction is invalid")
    else
      kind ← kind_valid page page_type aux;
      if negb kind then Err (Corrupt "slotted-page type or discriminator is invalid")
      else Ok tt.

Definition parse_shape (page : list Z) (expected_level : option Z) : Result Header :=
  header ← raw_header page;
  if (h_item_count header =? 0) || (MAX_TREE_LEVEL <? h_level header)
  then Err (Corrupt "slotted-page count or level is invalid")
  else if level_mismatch expected_level (h_level header)
  then Err (Corrupt "slotted-page child level is invalid")
  else if negb (shape_valid header)
  then Err (Corrupt "slotted-page bounds are invalid")
  else Ok header.

Definition parse (page : list Z) (selected_txn page_type aux : Z) (expected_level : option Z)
    : Result Header :=
  _ ← validate_identity page selected_txn page_type aux;
  parse_shape page expected_level.

Definition header_problem_error (problem : HeaderProblem) : Error :=
  match problem with
  | HeaderHP => Corrupt "slotted-page header is invalid"
  | BornHP => Corrupt "slotted-page transaction is invalid"
  | TypeHP => Corrupt "slotted-page type or discriminator is invalid"
  | LevelHP => Corrupt "slotted-page child level is invalid"
  | ShapeHP => Corrupt "slotted-page bounds are invalid"
  end.

Definition parse_tree (page : list Z) (selected_txn branch_type leaf_type aux : Z)
    (expected_level : option Z) : Result Header :=
  map_err header_problem_error
    (inspect_tree_header page selected_txn branch_type leaf_type aux expected_level).

(** ** Reading records *)

Definition slot_start (page : list Z) (header : Header) (index : Z) : Result Z :=
  if h_item_count header <=? index then Err (Corrupt "slotted-page slot index is invalid")
  else
    let slot := slot_at index in
    if h_lower header <? slot + 2 then Err (Corrupt "slotted-page slot is outside the array")
    else u16_le page slot.

Definition cell (page : list Z) (header : Header) (index cell_len : Z) : Result ByteRange :=
  start ← slot_start page header index;
  end_ ← ok_or (checked_add usize_max start cell_len) (Corrupt "slotted-page cell end overflows");
  if (start <? h_upper header) || (PAGE_SIZE <? end_)
  then Err (Corrupt "slotted-page cell is outside the record area")
  else ok_or (byte_range_new page start cell_len)
         (Corrupt "slotted-page cell is outside the record area").

Definition record (page : list Z) (header : Header) (index minimum_len maximum_len : Z)
    : Result ByteRange :=
  start ← slot_start page header index;
  if (start <? h_upper header) || (PAGE_SIZE <? start + 2)
  then Err (Corrupt "slotted-page record is outside the record area")
  else
    record_len ← u16_le page start;
    if negb ((minimum_len <=? record_len) && (record_len <=? maximum_len))
    then Err (Corrupt "slotted-page record length is invalid")
    else
      end_ ← ok_or (checked_add usize_max start record_len)
               (Corrupt "slotted-page record end overflows");
      if PAGE_SIZE <? end_
      then Err (Corrupt "slotted-page record is outside the record area")
      else ok_or (byte_range_new page start record_len)
             (Corrupt "slotted-page record is outside the record area").

(** [FixedSearch]: the shape is checked once, each slot value on every probe. *)
Record FixedSearch := mkFixedSearch {
  fs_page : list Z;
  fs_header : Header;
  fs_cell_len : Z;
}.

Definition FixedSearch_new (page : list Z) (header : Header) (cell_len : Z) : Result FixedSearch :=
  if negb (zlen page =? PAGE_SIZE) || negb (shape_valid header) || (cell_len =? 0)
     || (PAGE_SIZE <? cell_len)
  then Err (Corrupt "fixed slotted-page search shape is invalid")
  else Ok (mkFixedSearch page header cell_len).

Definition cell_at (fs : FixedSearch) (index : Z) : Result ByteRange :=
  let start := u16_unchecked (fs_page fs) (slot_at index) in
  if (start <? h_upper (fs_header fs)) || (PAGE_SIZE - fs_cell_len fs <? start)
  then Err (Corrupt "slotted-page cell is outside the record area")
  else Ok (mkByteRange (fs_page fs) start (fs_cell_len fs)).

(** ** Layout inspection *)

(** A byte of the page is marked by one bit of 64 words. *)
Definition end_mask (bit : Z) : Z := if bit =? 0 then u64_max else Z.shiftl 1 bit - 1.

(** [u64::MAX << n]. *)
Definition mask_from (n : Z) : Z := Z.land (Z.shiftl u64_max n) u64_max.

Definition mark_word (word mask : Z) : option Z :=
  if negb (Z.land word mask =? 0) then None else Some (Z.lor word mask).

(** [mark_word(&mut bits[i], mask)]. *)
Definition mark_bits (bits : list Z) (i mask : Z) : option (list Z) :=
  word ← mark_word (bget bits i) mask;
  Some (splice bits i [word]).

(** The words [first..last] of an extent, all of them full. *)
Fixpoint mark_full (bits : list Z) (i : Z) (n : nat) : option (list Z) :=
  match n with
  | O => Some bits
  | S n' => bits ← mark_bits bits i u64_max; mark_full bits (i + 1) n'
  end.

(** [mark_extent]; [None] is [false], after which the caller drops [bits]. *)
Definition mark_extent (bits : list Z) (start end_ : Z) : option (list Z) :=
  if (end_ <=? start) || (PAGE_SIZE <? end_) then None
  else
    let first := start / 64 in
    let last := (end_ - 1) / 64 in
    if first =? last
    then mark_bits bits first (Z.land (mask_from (start mod 64)) (end_mask (end_ mod 64)))
    else
      bits ← mark_bits bits first (mask_from (start mod 64));
      bits ← mark_full bits (first + 1) (Z.to_nat (last - (first + 1)));
      mark_bits bits last (end_mask (end_ mod 64)).

(** [u64::trailing_zeros], [u64::trailing_ones]. *)
Fixpoint trailing_zeros (n : nat) (v : Z) : Z :=
  match n with
  | O => 0
  | S n' => if Z.testbit v 0 then 0 else 1 + trailing_zeros n' (Z.shiftr v 1)
  end.

Fixpoint trailing_ones (n : nat) (v : Z) : Z :=
  match n with
  | O => 0
  | S n' => if Z.testbit v 0 then 1 + trailing_ones n' (Z.shiftr v 1) else 0
  end.

(** The [while unmarked != 0] loop: each iteration clears a run of at least one
    bit, so 64 iterations and one more test are enough. *)
Fixpoint unmarked_runs (fuel : nat) (page : list Z) (base unmarked : Z) : bool :=
  match fuel with
  | O => false
  | S fuel' =>
      if unmarked =? 0 then false
      else
        let bit := trailing_zeros 64 unmarked in
        let length := trailing_ones 64 (Z.shiftr unmarked bit) in
        if negb (all_zero page (base + bit) length) then true
        else
          let mask := if length =? 64 then u64_max
                      else Z.shiftl (Z.shiftl 1 length - 1) bit in
          unmarked_runs fuel' page base (Z.land unmarked (Z.lxor u64_max mask))
  end.

Definition unmarked_word (page : list Z) (used : list Z) (start word_index : Z) : bool :=
  let base := word_index * 64 in
  let in_range := if base <? start then mask_from (start - base) else u64_max in
  unmarked_runs 65 page base (Z.land (Z.lxor u64_max (bget used word_index)) in_range).

Definition unmarked_nonzero (page : list Z) (used : list Z) (start : Z) : bool :=
  existsb (fun i => unmarked_word page used start (Z.of_nat i))
    (seq (Z.to_nat (start / 64)) (64 - Z.to_nat (start / 64))).

Fixpoint inspect_fixed_loop (page : list Z) (header : Header) (length maximum_start : Z)
    (used : list Z) (minimum index : Z) (n : nat) : option (list Z * Z) :=
  match n with
  | O => Some (used, minimum)
  | S n' =>
      let start := u16_unchecked page (slot_at index) in
      if (start <? h_upper header) || (maximum_start <? start) then None
      else
        used ← mark_extent used start (start + length);
        inspect_fixed_loop page header length maximum_start used (Z.min minimum start) (index + 1) n'
  end.

Definition inspect_fixed_extents (page : list Z) (header : Header) (length : Z) (used : list Z)
    : option (list Z * Z) :=
  maximum_start ← checked_sub PAGE_SIZE length;
  inspect_fixed_loop page header length maximum_start used PAGE_SIZE 0
    (Z.to_nat (h_item_count header)).

(** [Result::ok]: [record] cannot panic on a page whose shape was checked. *)
Definition ok {E A} (m : outcome E A) : option A := match m with Ok a => Some a | _ => None end.

Fixpoint inspect_variable_loop (page : list Z) (header : Header) (minimum_len maximum_len : Z)
    (used : list Z) (minimum index : Z) (n : nat) : option (list Z * Z) :=
  match n with
  | O => Some (used, minimum)
  | S n' =>
      r ← ok (record page header index minimum_len maximum_len);
      let start := br_at r in
      end_ ← checked_add usize_max start (br_len r);
      used ← mark_extent used start end_;
      inspect_variable_loop page header minimum_len maximum_len used (Z.min minimum start)
        (index + 1) n'
  end.

Definition inspect_variable_extents (page : list Z) (header : Header)
    (minimum_len maximum_len : Z) (used : list Z) : option (list Z * Z) :=
  inspect_variable_loop page header minimum_len maximum_len used PAGE_SIZE 0
    (Z.to_nat (h_item_count header)).

Record LayoutInspection := mkLayoutInspection {
  li_reserved_nonzero : bool;
  li_page : list Z;
  li_header : Header;
  li_layout : CellLayout;
}.

Definition inspect_layout (page : list Z) (header : Header) (layout : CellLayout)
    : option LayoutInspection :=
  if negb (zlen page =? PAGE_SIZE) || negb (shape_valid header) then None
  else
    let used := replicate 64 0 in
    '(used, minimum) ←
      match layout with
      | Fixed length => inspect_fixed_extents page header length used
      | Variable_ minimum maximum => inspect_variable_extents page header minimum maximum used
      end;
    if negb (minimum =? h_upper header) then None
    else
      let reserved := negb (all_zero page (h_lower header) (h_upper header - h_lower header)) in
      let reserved := if negb reserved then unmarked_nonzero page used (h_upper header) else reserved in
      Some (mkLayoutInspection reserved page header layout).

(** [LayoutCells::next]: the record at [index], read without further checks. *)
Definition layout_cell (li : LayoutInspection) (index : Z) : ByteRange :=
  let start := u16_unchecked (li_page li) (slot_at index) in
  let len := match li_layout li with
             | Fixed len => len
             | Variable_ _ _ => u16_unchecked (li_page li) start
             end in
  mkByteRange (li_page li) start len.

(** [LayoutInspection::cells], collected. *)
Definition layout_cells (li : LayoutInspection) : list ByteRange :=
  map (fun i => layout_cell li (Z.of_nat i)) (seq 0 (Z.to_nat (h_item_count (li_header li)))).

(** ** Edits *)

Definition insert_fits (header : Header) (cell_len : Z) : bool :=
  negb (cell_len =? 0) &&
  match checked_sub (h_upper header) cell_len with
  | Some upper => h_lower header + 2 <=? upper
  | None => false
  end.

Definition replace_fits (header : Header) (old_len new_len : Z) : bool :=
  negb (old_len =? 0) && negb (new_len =? 0)
  && (new_len <=? saturating_add usize_max old_len (h_upper header - h_lower header)).

(** [cell.is_empty()]. *)
Definition is_empty (cell : list Z) : bool := zlen cell =? 0.

Definition insert (page : list Z) (header : Header) (index : Z) (cell : list Z)
    : Result (list Z * bool) :=
  if h_item_count header <? index then Err (Corrupt "slotted-page insertion index is invalid")
  else if is_empty cell then Err (InvalidArgument "slotted-page record is empty")
  else if negb (insert_fits header (zlen cell)) then Ok (page, false)
  else
    upper ← usub (h_upper header) (zlen cell);
    let lower := h_lower header + 2 in
    let slot := slot_at index in
    page ← (if negb (slot =? h_lower header)
            then n ← usub (h_lower header) slot; copy_within page slot (slot + 2) n
            else Ok page);
    page ← page_write_source page upper cell;
    page ← put_u16 page slot (as_u16 upper);
    page ← put_u16 page ITEM_COUNT (as_u16 (h_item_count header + 1));
    page ← put_u16 page LOWER (as_u16 lower);
    page ← put_u16 page UPPER (as_u16 upper);
    Ok (page, true).

Definition record_start (page : list Z) (header : Header) (index cell_len : Z) : Result Z :=
  start ← slot_start page header index;
  match checked_add usize_max start cell_len with
  | None => Err (Corrupt "slotted-page record extent is invalid")
  | Some end_ =>
      if (start <? h_upper header) || (PAGE_SIZE <? end_)
      then Err (Corrupt "slotted-page record extent is invalid")
      else Ok start
  end.

Fixpoint adjust_loop (page : list Z) (target before : Z) (add : bool) (amount index : Z) (n : nat)
    : Result (list Z) :=
  match n with
  | O => Ok page
  | S n' =>
      if index =? target then adjust_loop page target before add amount (index + 1) n'
      else
        let at_ := slot_at index in
        old ← u16_le page at_;
        if before <=? old then adjust_loop page target before add amount (index + 1) n'
        else
          adjusted ← ok_or (if add then checked_add usize_max old amount else checked_sub old amount)
                       (Corrupt "slotted-page slot adjustment overflows");
          if PAGE_SIZE <=? adjusted then Err (Corrupt "slotted-page slot adjustment is invalid")
          else
            page ← put_u16 page at_ (as_u16 adjusted);
            adjust_loop page target before add amount (index + 1) n'
  end.

Definition adjust_slots_before (page : list Z) (header : Header) (target before : Z) (add : bool)
    (amount : Z) : Result (list Z) :=
  adjust_loop page target before add amount 0 (Z.to_nat (h_item_count header)).

Definition replace (page : list Z) (header : Header) (index old_len : Z) (cell : list Z)
    : Result (list Z * bool) :=
  if (h_item_count header <=? index) || (old_len =? 0) || is_empty cell
  then Err (Corrupt "slotted-page replacement is invalid")
  else
    start ← record_start page header index old_len;
    if old_len <? zlen cell then
      growth ← usub (zlen cell) old_len;
      if saturating_sub (h_upper header) growth <? h_lower header then Ok (page, false)
      else
        to ← usub (h_upper header) growth;
        n ← usub start (h_upper header);
        page ← copy_within page (h_upper header) to n;
        page ← adjust_slots_before page header index start false growth;
        new_start ← usub start growth;
        page ← page_write_source page new_start cell;
        page ← put_u16 page (slot_at index) (as_u16 new_start);
        page ← put_u16 page UPPER (as_u16 to);
        Ok (page, true)
    else
      shrink ← usub old_len (zlen cell);
      page ← (if negb (shrink =? 0) then
                n ← usub start (h_upper header);
                page ← copy_within page (h_upper header) (h_upper header + shrink) n;
                page ← page_zero page (h_upper header) shrink;
                adjust_slots_before page header index start true shrink
              else Ok page);
      let new_start := start + shrink in
      page ← page_write_source page new_start cell;
      page ← put_u16 page (slot_at index) (as_u16 new_start);
      page ← put_u16 page UPPER (as_u16 (h_upper header + shrink));
      Ok (page, true).

Definition remove (page : list Z) (header : Header) (index old_len : Z) : Result (list Z) :=
  if (h_item_count header <=? index) || (h_item_count header <=? 1) || (old_len =? 0)
  then Err (Corrupt "slotted-page removal is invalid")
  else
    start ← record_start page header index old_len;
    n ← usub start (h_upper header);
    page ← copy_within page (h_upper header) (h_upper header + old_len) n;
    page ← page_zero page (h_upper header) old_len;
    page ← adjust_slots_before page header index start true old_len;
    let slot := slot_at index in
    n ← usub (h_lower header) (slot + 2);
    page ← copy_within page (slot + 2) slot n;
    page ← put_u16 page (h_lower header - 2) 0;
    page ← put_u16 page ITEM_COUNT (as_u16 (h_item_count header - 1));
    page ← put_u16 page LOWER (as_u16 (h_lower header - 2));
    put_u16 page UPPER (as_u16 (h_upper header + old_len)).

(** ** Truncation and range removal *)

(** The loop of [fixed_positions]: [positions] maps the place of a record in
    the record area to its index, [u16_max] while unknown. *)
Fixpoint fixed_positions_loop (page : list Z) (header : Header) (cell_len : Z)
    (positions : list Z) (logical : Z) (n : nat) : Result (list Z) :=
  match n with
  | O => Ok positions
  | S n' =>
      start ← slot_start page header logical;
      offset ← ok_or (checked_sub start (h_upper header))
                 (Corrupt "fixed slotted-page record is outside payload");
      if negb (offset mod cell_len =? 0)
      then Err (Corrupt "fixed slotted-page record is misaligned")
      else
        let physical := offset / cell_len in
        if zlen positions <=? physical
        then Err (Corrupt "fixed slotted-page record is outside payload")
        else if negb (bget positions physical =? u16_max)
        then Err (Corrupt "fixed slotted-page records overlap")
        else
          fixed_positions_loop page header cell_len
            (splice positions physical [as_u16 logical]) (logical + 1) n'
  end.

Definition fixed_positions (page : list Z) (header : Header) (cell_len : Z) : Result (list Z) :=
  payload ← ok_or (bytes ← checked_mul usize_max (h_item_count header) cell_len;
                   checked_add usize_max (h_upper header) bytes)
              (Corrupt "fixed slotted-page payload overflows");
  if (cell_len =? 0) || negb (payload =? PAGE_SIZE)
  then Err (Corrupt "fixed slotted-page payload is not packed")
  else if MAX_SLOT_COUNT <? h_item_count header
  then Err (Corrupt "slotted-page slot count is invalid")
  else
    positions ← fixed_positions_loop page header cell_len
                  (replicate (Z.to_nat (h_item_count header)) u16_max) 0
                  (Z.to_nat (h_item_count header));
    if existsb (fun p => p =? u16_max) positions
    then Err (Corrupt "fixed slotted-page payload has a gap")
    else Ok positions.

Definition finish_truncate (page : list Z) (header : Header) (keep upper : Z)
    : Result (list Z * Header) :=
  let lower := HEADER_SIZE + keep * 2 in
  n ← usub (h_lower header) lower;
  page ← page_zero page lower n;
  n ← usub upper (h_upper header);
  page ← page_zero page (h_upper header) n;
  page ← put_u16 page ITEM_COUNT (as_u16 keep);
  page ← put_u16 page LOWER (as_u16 lower);
  page ← put_u16 page UPPER (as_u16 upper);
  Ok (page, mkHeader keep (h_level header) lower upper).

(** The compaction loop of [remove_fixed_range] and [truncate_fixed]: the
    records are visited from the end of the page down, and each one that
    stays ([output_of] gives its new index) is moved against the previous one. *)
Fixpoint compact_fixed (page : list Z) (header : Header) (cell_len destination : Z)
    (output_of : Z -> option Z) (positions : list Z) (physical : nat) : Result (list Z * Z) :=
  match physical with
  | O => Ok (page, destination)
  | S physical' =>
      match output_of (bget positions (Z.of_nat physical')) with
      | Some output =>
          let source := h_upper header + Z.of_nat physical' * cell_len in
          destination ← usub destination cell_len;
          page ← copy_within page source destination cell_len;
          page ← put_u16 page (slot_at output) (as_u16 destination);
          compact_fixed page header cell_len destination output_of positions physical'
      | None => compact_fixed page header cell_len destination output_of positions physical'
      end
  end.

Definition remove_fixed_range (page : list Z) (header : Header) (start count cell_len : Z)
    : Result (list Z * Header) :=
  end_ ← ok_or (checked_add usize_max start count) (Corrupt "slotted-page removal range overflows");
  if (count =? 0) || (h_item_count header <? end_) || (h_item_count header <=? count) || (cell_len =? 0)
  then Err (Corrupt "slotted-page removal range is invalid")
  else
    positions ← fixed_positions page header cell_len;
    remaining ← usub (h_item_count header) count;
    '(page, destination) ←
      compact_fixed page header cell_len PAGE_SIZE
        (fun logical =>
           if (logical <? start) || (end_ <=? logical)
           then Some (if logical <? start then logical else logical - count)
           else None)
        positions (length positions);
    let lower := HEADER_SIZE + remaining * 2 in
    n ← usub (h_lower header) lower;
    page ← page_zero page lower n;
    n ← usub destination (h_upper header);
    page ← page_zero page (h_upper header) n;
    page ← put_u16 page ITEM_COUNT (as_u16 remaining);
    page ← put_u16 page LOWER (as_u16 lower);
    page ← put_u16 page UPPER (as_u16 destination);
    Ok (page, mkHeader remaining (h_level header) lower destination).

Definition truncate_fixed (page : list Z) (header : Header) (keep cell_len : Z)
    : Result (list Z * Header) :=
  if (keep =? 0) || (h_item_count header <? keep) || (cell_len =? 0)
  then Err (Corrupt "fixed slotted-page truncation is invalid")
  else if keep =? h_item_count header then Ok (page, header)
  else
    positions ← fixed_positions page header cell_len;
    '(page, destination) ←
      compact_fixed page header cell_len PAGE_SIZE
        (fun logical => if logical <? keep then Some logical else None)
        positions (length positions);
    finish_truncate page header keep destination.

Record PhysicalRecord := mkPhysicalRecord { pr_start : Z; pr_index : Z }.

Fixpoint collect_records (page : list Z) (header : Header) (index : Z) (n : nat)
    : Result (list PhysicalRecord) :=
  match n with
  | O => Ok []
  | S n' =>
      start ← slot_start page header index;
      if (start <? h_upper header) || (PAGE_SIZE <=? start)
      then Err (Corrupt "slotted-page record offset is invalid")
      else
        rest ← collect_records page header (index + 1) n';
        Ok (mkPhysicalRecord (as_u16 start) (as_u16 index) :: rest)
  end.

(** [sort_unstable_by_key(|record| record.start)]; records with equal keys are
    rejected right after, so their order does not matter. *)
Fixpoint insert_by_start (r : PhysicalRecord) (rs : list PhysicalRecord) : list PhysicalRecord :=
  match rs with
  | [] => [r]
  | x :: rest => if pr_start r <=? pr_start x then r :: rs else x :: insert_by_start r rest
  end.

Definition sort_by_start (rs : list PhysicalRecord) : list PhysicalRecord :=
  foldr insert_by_start [] rs.

Fixpoint windows_equal (rs : list PhysicalRecord) : bool :=
  match rs with
  | a :: ((b :: _) as rest) => (pr_start a =? pr_start b) || windows_equal rest
  | _ => false
  end.

(** The loop of [truncate] over the records from the last to the first;
    [end_] is the start of the record after the current one. *)
Fixpoint compact_records (page : list Z) (keep destination end_ : Z) (records : list PhysicalRecord)
    : Result (list Z * Z) :=
  match records with
  | [] => Ok (page, destination)
  | r :: rest =>
      if pr_index r <? keep then
        len ← usub end_ (pr_start r);
        new_start ← usub destination len;
        page ← copy_within page (pr_start r) new_start len;
        page ← put_u16 page (slot_at (pr_index r)) (as_u16 new_start);
        compact_records page keep new_start (pr_start r) rest
      else compact_records page keep destination (pr_start r) rest
  end.

Definition truncate (page : list Z) (header : Header) (keep : Z) : Result (list Z * Header) :=
  if (keep =? 0) || (h_item_count header <? keep)
  then Err (Corrupt "slotted-page truncation is invalid")
  else if keep =? h_item_count header then Ok (page, header)
  else if MAX_SLOT_COUNT <? h_item_count header
  then Err (Corrupt "slotted-page slot count is invalid")
  else
    records ← collect_records page header 0 (Z.to_nat (h_item_count header));
    let records := sort_by_start records in
    first ← expect (head records) "index out of bounds";
    if negb (pr_start first =? h_upper header) || windows_equal records
    then Err (Corrupt "slotted-page record offsets are invalid")
    else
      '(page, destination) ← compact_records page keep PAGE_SIZE PAGE_SIZE (reverse records);
      finish_truncate page header keep destination.

(** ** Building a page *)

Record Appender := mkAppender { ap_item_count : Z; ap_upper : Z }.

Definition Appender_new (page_type born_txn level aux : Z) : Result (list Z * Appender) :=
  match initialize (mkFields page_type born_txn 0 level (as_u16 HEADER_SIZE) (as_u16 PAGE_SIZE) aux) with
  | Ok page => Ok (page, mkAppender 0 PAGE_SIZE)
  | _ => Panic "fixed mapped header fits"
  end.

Definition try_push (ap : Appender) (page : list Z) (cell : list Z)
    : Result (list Z * Appender * bool) :=
  if is_empty cell then Err (InvalidArgument "slotted-page record is empty")
  else
    lower ← ok_or (checked_add usize_max HEADER_SIZE ((ap_item_count ap + 1) * 2))
              (Corrupt "slotted-page slot array overflows");
    upper ← ok_or (checked_sub (ap_upper ap) (zlen cell))
              (Corrupt "slotted-page record area overflows");
    if upper <? lower then Ok (page, ap, false)
    else
      page ← page_write_source page upper cell;
      page ← put_u16 page (HEADER_SIZE + ap_item_count ap * 2) (as_u16 upper);
      Ok (page, mkAppender (ap_item_count ap + 1) upper, true).

Definition appender_finish (ap : Appender) (page : list Z) : Result (list Z) :=
  if ap_item_count ap =? 0 then Err (InvalidArgument "reachable slotted page cannot be empty")
  else
    page ← put_u16 page ITEM_COUNT (as_u16 (ap_item_count ap));
    page ← put_u16 page LOWER (as_u16 (HEADER_SIZE + ap_item_count ap * 2));
    put_u16 page UPPER (as_u16 (ap_upper ap)).

(** [Builder]: an appender with the page it fills. *)
Definition Builder : Type := list Z * Appender.

Definition Builder_new (page_type born_txn level aux : Z) : Result Builder :=
  Appender_new page_type born_txn level aux.

Definition builder_push (b : Builder) (cell : list Z) : Result Builder :=
  '(page, ap, pushed) ← try_push (snd b) (fst b) cell;
  if (pushed : bool) then Ok (page, ap) else Err (InvalidArgument "slotted page is full").

Definition builder_finish (b : Builder) : Result (list Z) := appender_finish (snd b) (fst b).
