(* ===== verification/SlottedFacts.v ===== *)
(** * Correctness of slotted-page edits

    [slotted p h cells] says what a page represents: the list of its records in
    slot order, lying disjoint in the record area and filling it, with the
    header in agreement and the space between slots and records zero.  Each
    edit turns a page that represents a list into one that represents the
    edited list, keeps the identity fields of the header, and refuses exactly
    when the record does not fit. *)

From stdpp Require Import base tactics numbers list strings.
From Stdlib Require Import ZArith Lia.
From S2P Require Import Prelude Errors Bytes PageHeader SlottedPage.

#[local] Open Scope string_scope.
#[local] Open Scope list_scope.
#[local] Open Scope Z_scope.

(** ** One write to a page *)

(** [p'] is [p] with [bs] at [a]. *)
Definition wrote (p : list Z) (a : Z) (bs : list Z) (p' : list Z) : Prop :=
  page_ok p' /\ forall i, 0 <= i < PAGE_SIZE ->
    bget p' i = if (a <=? i) && (i <? a + zlen bs) then bget bs (i - a) else bget p i.

Lemma splice_wrote p a bs : page_ok p -> bytes_ok bs -> 0 <= a -> a + zlen bs <= PAGE_SIZE ->
  wrote p a bs (splice p a bs).
Proof.
  intros Hp Hb Ha Hl. split; [by apply page_ok_splice |]. intros i Hi. destruct Hp as [Hp _].
  apply bget_splice; lia.
Qed.

Lemma wrote_hit p a bs p' : wrote p a bs p' -> 0 <= a -> a + zlen bs <= PAGE_SIZE ->
  sub p' a (zlen bs) = bs.
Proof.
  intros [[Hl _] Hw] Ha Hle. pose proof (zlen_nonneg bs).
  rewrite <- (sub_full bs) at 2. apply sub_ext; try lia.
  intros i Hi. rewrite Hw by lia. zcase. f_equal. lia.
Qed.

Lemma wrote_inside p a bs p' b n : wrote p a bs p' -> 0 <= a -> a <= b -> 0 <= n ->
  b + n <= a + zlen bs -> a + zlen bs <= PAGE_SIZE -> sub p' b n = sub bs (b - a) n.
Proof.
  intros Hw Ha Hab Hn Hle Hp.
  assert (E : sub (sub p' a (zlen bs)) (b - a) n = sub bs (b - a) n)
    by (by rewrite (wrote_hit _ _ _ _ Hw) by lia).
  rewrite <- E, sub_sub by lia. f_equal. lia.
Qed.

Lemma wrote_frame p a bs p' b n : wrote p a bs p' -> page_ok p -> 0 <= b -> 0 <= n -> b + n <= PAGE_SIZE ->
  b + n <= a \/ a + zlen bs <= b -> sub p' b n = sub p b n.
Proof.
  intros [[Hl _] Hw] [Hp _] Hb Hn Hle Hd. pose proof (zlen_nonneg bs).
  apply sub_ext; try lia. intros i Hi. rewrite Hw by lia. zcase.
Qed.

Lemma wrote_frame_byte p a bs p' b : wrote p a bs p' -> 0 <= b < PAGE_SIZE ->
  b < a \/ a + zlen bs <= b -> bget p' b = bget p b.
Proof. intros [_ Hw] Hb Hd. rewrite Hw by lia. zcase. Qed.

Lemma wrote_frame_u16 p a bs p' b : wrote p a bs p' -> page_ok p -> 0 <= b -> b + 2 <= PAGE_SIZE ->
  b + 2 <= a \/ a + zlen bs <= b -> u16_at p' b = u16_at p b.
Proof. intros Hw Hp ? ? ?. unfold u16_at. by rewrite (wrote_frame _ _ _ _ b 2 Hw Hp) by lia. Qed.

Lemma wrote_u16 p a v p' : wrote p a (le_bytes 2 v) p' -> 0 <= a -> a + 2 <= PAGE_SIZE ->
  0 <= v <= u16_max -> u16_at p' a = v.
Proof.
  intros Hw Ha Hp Hv. unfold u16_at.
  rewrite (wrote_inside _ _ _ _ a 2 Hw) by (rewrite ?zlen_le_bytes; lia).
  rewrite Z.sub_diag. change (sub (le_bytes 2 v) 0 2) with (sub (le_bytes 2 v) 0 (zlen (le_bytes 2 v))).
  rewrite sub_full. apply le_val_bytes. unfold u16_max in Hv. lia.
Qed.

Lemma put_u16_wrote p a v : page_ok p -> 0 <= a -> a + 2 <= PAGE_SIZE ->
  exists p', put_u16 p a v = Ok p' /\ wrote p a (le_bytes 2 v) p'.
Proof.
  intros Hp Ha Hl. eexists. split; [by apply put_u16_ok |].
  apply splice_wrote; [done | apply le_bytes_ok | done | rewrite zlen_le_bytes; lia].
Qed.

Lemma write_source_wrote p a bs : page_ok p -> bytes_ok bs -> 0 <= a -> a + zlen bs <= PAGE_SIZE ->
  exists p', page_write_source p a bs = Ok p' /\ wrote p a bs p'.
Proof. intros. eexists. split; [by apply page_write_source_ok | by apply splice_wrote]. Qed.

Lemma copy_within_wrote p a b n : page_ok p -> 0 <= a -> 0 <= b -> 0 <= n ->
  a + n <= PAGE_SIZE -> b + n <= PAGE_SIZE ->
  exists p', copy_within p a b n = Ok p' /\ wrote p b (sub p a n) p' /\ zlen (sub p a n) = n.
Proof.
  intros Hp Ha Hb Hn Hl Hd. destruct Hp as [Hz Hok].
  assert (Hs : zlen (sub p a n) = n) by (apply zlen_sub; lia).
  eexists. split; [by apply copy_within_ok |]. split; [| done].
  apply splice_wrote; [done | by apply bytes_ok_sub | lia | lia].
Qed.

Lemma page_zero_wrote p a n : page_ok p -> 0 <= a -> 0 <= n -> a + n <= PAGE_SIZE ->
  exists p', page_zero p a n = Ok p' /\ wrote p a (replicate (Z.to_nat n) 0) p'
    /\ zlen (replicate (Z.to_nat n) 0) = n.
Proof.
  intros. assert (Hz : zlen (replicate (Z.to_nat n) 0) = n) by (rewrite zlen_replicate; lia).
  eexists. split; [by apply page_zero_ok |]. split; [| done].
  apply splice_wrote; [done | | lia | lia]. apply Forall_replicate. by split.
Qed.

Lemma wrote_ok p a bs p' : wrote p a bs p' -> page_ok p'.
Proof. by intros [? _]. Qed.
#[export] Hint Resolve wrote_ok : v4.

(** ** Lists of records *)

Definition cnth (cells : list (list Z)) (i : Z) : list Z := nth (Z.to_nat i) cells [].
Definition total (cells : list (list Z)) : Z := foldr (fun c n => zlen c + n) 0 cells.

Lemma total_app a b : total (a ++ b) = total a + total b.
Proof. unfold total. induction a as [|c a IH]; simpl; lia. Qed.
Lemma total_cons c b : total (c :: b) = zlen c + total b.
Proof. done. Qed.
Lemma total_nonneg cells : 0 <= total cells.
Proof. unfold total. induction cells as [|c l IH]; simpl; [lia |]. pose proof (zlen_nonneg c). lia. Qed.

Lemma cnth_app a b i : 0 <= i ->
  cnth (a ++ b) i = if i <? zlen a then cnth a i else cnth b (i - zlen a).
Proof.
  intros Hi. unfold cnth, zlen. destruct (Z.ltb_spec i (Z.of_nat (length a))).
  - by rewrite app_nth1 by lia.
  - rewrite app_nth2 by lia. f_equal. lia.
Qed.

Lemma cnth_cons c b i : 0 <= i -> cnth (c :: b) i = if i =? 0 then c else cnth b (i - 1).
Proof.
  intros Hi. unfold cnth. destruct (Z.eqb_spec i 0) as [-> | ?]; [done |].
  replace (Z.to_nat i) with (S (Z.to_nat (i - 1))) by lia. done.
Qed.

(** ** What a page represents *)

Definition start (p : list Z) (i : Z) : Z := u16_at p (slot_at i).

(** The header fields that identify the page and no edit touches: magic, type,
    flags, size, birth transaction, level, auxiliary word. *)
Definition same_identity (p p' : list Z) : Prop :=
  forall a, 0 <= a < 16 \/ 18 <= a < 20 \/ 24 <= a < 32 -> bget p' a = bget p a.

Definition header_of (p : list Z) : Header :=
  mkHeader (u16_at p ITEM_COUNT) (u16_at p LEVEL) (u16_at p LOWER) (u16_at p UPPER).

Record slotted (p : list Z) (h : Header) (cells : list (list Z)) : Prop := {
  sl_page : page_ok p;
  sl_header : header_of p = h;
  sl_count : h_item_count h = zlen cells;
  sl_lower : h_lower h = slot_at (zlen cells);
  sl_room : h_lower h <= h_upper h;
  sl_total : h_upper h + total cells = PAGE_SIZE;
  sl_cell i : 0 <= i < zlen cells ->
    h_upper h <= start p i /\ start p i + zlen (cnth cells i) <= PAGE_SIZE
    /\ 0 < zlen (cnth cells i) /\ sub p (start p i) (zlen (cnth cells i)) = cnth cells i;
  sl_disjoint i j : 0 <= i < zlen cells -> 0 <= j < zlen cells -> i <> j ->
    start p i + zlen (cnth cells i) <= start p j \/ start p j + zlen (cnth cells j) <= start p i;
  sl_gap a : h_lower h <= a < h_upper h -> bget p a = 0;
}.

(** What a reader needs of a page: the header and every record in its place.
    The pages a writer makes are [slotted]: besides, the records fill the space
    behind [upper] and the space before it is clear. *)
Record legible (p : list Z) (h : Header) (cells : list (list Z)) : Prop := {
  lb_page : page_ok p;
  lb_header : header_of p = h;
  lb_count : h_item_count h = zlen cells;
  lb_lower : h_lower h = slot_at (zlen cells);
  lb_room : h_lower h <= h_upper h;
  lb_cell i : 0 <= i < zlen cells ->
    h_upper h <= start p i /\ start p i + zlen (cnth cells i) <= PAGE_SIZE
    /\ 0 < zlen (cnth cells i) /\ sub p (start p i) (zlen (cnth cells i)) = cnth cells i;
}.
Lemma slotted_legible p h cells : slotted p h cells -> legible p h cells.
Proof. intros [? ? ? ? ? _ ? _ _]. by split. Qed.
Coercion slotted_legible : slotted >-> legible.
#[export] Hint Immediate slotted_legible : core.

Lemma legible_shape p h cells : legible p h cells -> cells <> [] -> shape_valid h = true.
Proof.
  intros [_ _ Hc Hl Hr Hcell] Hne.
  assert (0 < zlen cells) by (destruct cells; [done | rewrite zlen_cons; pose proof (zlen_nonneg cells); lia]).
  destruct (Hcell 0 ltac:(lia)) as (? & ? & ? & _).
  unfold shape_valid. unfold slot_at in Hl. rewrite Hc. rewrite !andb_true_iff, negb_true_iff, Z.eqb_neq, Z.eqb_eq, Z.leb_le, Z.ltb_lt. lia.
Qed.

(** Page offsets in the shape [lia] understands. *)
Ltac page_arith :=
  unfold slot_at, HEADER_SIZE, SIZE, ITEM_COUNT, LEVEL, LOWER, UPPER, PAGE_SIZE, u16_max in *.

(** Read a two-byte field through a write that does not touch it. *)
Ltac through W := rewrite (wrote_frame_u16 _ _ _ _ _ W) by (eauto with v4 || page_arith; zlen_simp; lia).

Lemma header_fields p h : header_of p = h ->
  u16_at p ITEM_COUNT = h_item_count h /\ u16_at p LEVEL = h_level h
  /\ u16_at p LOWER = h_lower h /\ u16_at p UPPER = h_upper h.
Proof. by intros <-. Qed.

Lemma as_u16_small v : 0 <= v <= u16_max -> as_u16 v = v.
Proof. unfold as_u16, u16_max. intros. apply Z.mod_small. lia. Qed.

(** Two pages that agree on a stretch agree on everything read from it. *)
Definition agree (p p' : list Z) (lo hi : Z) : Prop := forall i, lo <= i < hi -> bget p' i = bget p i.

Lemma agree_sub p p' lo hi a n : agree p p' lo hi -> page_ok p -> page_ok p' ->
  lo <= a -> 0 <= a -> 0 <= n -> a + n <= hi -> hi <= PAGE_SIZE -> sub p' a n = sub p a n.
Proof.
  intros Ha [Hp _] [Hp' _] ? ? ? ? ?. apply sub_ext; try lia. intros i Hi. apply Ha. lia.
Qed.

Lemma agree_u16 p p' lo hi a : agree p p' lo hi -> page_ok p -> page_ok p' ->
  lo <= a -> 0 <= a -> a + 2 <= hi -> hi <= PAGE_SIZE -> u16_at p' a = u16_at p a.
Proof. intros. unfold u16_at. by rewrite (agree_sub p p' lo hi) by (done || lia). Qed.

Lemma wrote_agree_below p a bs p' lo : wrote p a bs p' -> 0 <= lo -> a <= PAGE_SIZE -> agree p p' lo a.
Proof. intros W Hlo Hle i Hi. eapply wrote_frame_byte; [done | lia | lia]. Qed.

Lemma wrote_agree_above p a bs p' : wrote p a bs p' -> 0 <= a -> agree p p' (a + zlen bs) PAGE_SIZE.
Proof. intros W Ha i Hi. pose proof (zlen_nonneg bs). eapply wrote_frame_byte; [done | lia | lia]. Qed.

Lemma agree_trans p p1 p2 lo hi : agree p p1 lo hi -> agree p1 p2 lo hi -> agree p p2 lo hi.
Proof. intros H1 H2 i Hi. by rewrite H2, H1. Qed.

Lemma agree_narrow p p' lo hi lo' hi' : agree p p' lo hi -> lo <= lo' -> hi' <= hi -> agree p p' lo' hi'.
Proof. intros Ha ? ? i Hi. apply Ha. lia. Qed.

Lemma identity_agree p p' : agree p p' 0 HEADER_SIZE -> same_identity p p'.
Proof. intros Ha a Hi. apply Ha. page_arith. lia. Qed.

Lemma identity_trans p p1 p2 : same_identity p p1 -> same_identity p1 p2 -> same_identity p p2.
Proof. intros H1 H2 a Ha. by rewrite H2, H1. Qed.

(** The three header fields every edit ends with. *)
Lemma put_header p n lo up : page_ok p -> 0 <= n <= u16_max -> 0 <= lo <= u16_max -> 0 <= up <= u16_max ->
  exists p1 p2 p', put_u16 p ITEM_COUNT (as_u16 n) = Ok p1 /\ put_u16 p1 LOWER (as_u16 lo) = Ok p2
    /\ put_u16 p2 UPPER (as_u16 up) = Ok p' /\ page_ok p'
    /\ header_of p' = mkHeader n (u16_at p LEVEL) lo up
    /\ agree p p' HEADER_SIZE PAGE_SIZE /\ same_identity p p'.
Proof.
  intros Hp Hn Hlo Hup. rewrite !as_u16_small by done.
  destruct (put_u16_wrote p ITEM_COUNT n Hp) as (p1 & E1 & W1); [page_arith; lia.. |].
  destruct (put_u16_wrote p1 LOWER lo) as (p2 & E2 & W2); [eauto with v4 | page_arith; lia.. |].
  destruct (put_u16_wrote p2 UPPER up) as (p3 & E3 & W3); [eauto with v4 | page_arith; lia.. |].
  exists p1, p2, p3. do 3 (split; [done |]). split; [eauto with v4 |]. split; [| split].
  - unfold header_of. f_equal.
    + through W3. through W2. apply (wrote_u16 _ _ _ _ W1); [page_arith; lia.. | done].
    + through W3. through W2. by through W1.
    + through W3. apply (wrote_u16 _ _ _ _ W2); [page_arith; lia.. | done].
    + apply (wrote_u16 _ _ _ _ W3); [page_arith; lia.. | done].
  - intros i Hi. page_arith.
    rewrite (wrote_frame_byte _ _ _ _ i W3), (wrote_frame_byte _ _ _ _ i W2), (wrote_frame_byte _ _ _ _ i W1);
      (done || (page_arith; zlen_simp; lia)).
  - intros i Hi. page_arith.
    rewrite (wrote_frame_byte _ _ _ _ i W3), (wrote_frame_byte _ _ _ _ i W2), (wrote_frame_byte _ _ _ _ i W1);
      (done || (page_arith; zlen_simp; lia)).
Qed.

(** ** Insertion *)

(** Making room for a slot at [k]. *)
Lemma shift_slots_up p h k count : page_ok p -> h_item_count h = count -> h_lower h = slot_at count ->
  0 <= k <= count -> slot_at count + 2 <= PAGE_SIZE ->
  exists p1, (if negb (slot_at k =? h_lower h)
              then n ← usub (h_lower h) (slot_at k); copy_within p (slot_at k) (slot_at k + 2) n
              else Ok p) = Ok p1
    /\ page_ok p1 /\ agree p p1 0 (slot_at k + 2) /\ agree p p1 (slot_at count + 2) PAGE_SIZE
    /\ (forall j, k <= j < count -> start p1 (j + 1) = start p j).
Proof.
  intros Hp Hn Hlo Hk Hfit. rewrite Hlo. destruct (Z.eqb_spec (slot_at k) (slot_at count)) as [He | He]; cbn [negb].
  - exists p. split; [done |]. split; [done |]. split; [done |]. split; [done |]. page_arith. intros. lia.
  - rewrite usub_ok by (page_arith; lia). cbn [mbind outcome_bind].
    destruct (copy_within_wrote p (slot_at k) (slot_at k + 2) (slot_at count - slot_at k)) as (p1 & -> & W & Hz);
      [done | page_arith; lia.. |].
    exists p1. split; [done |]. split; [eauto with v4 |].
    split; [apply (wrote_agree_below _ _ _ _ 0 W); page_arith; lia |].
    split; [eapply agree_narrow; [apply (wrote_agree_above _ _ _ _ W); page_arith; lia | lia | lia] |].
    intros j Hj. unfold start, u16_at.
    rewrite (wrote_inside _ _ _ _ _ _ W) by (rewrite ?Hz; page_arith; lia).
    rewrite sub_sub by (page_arith; lia). f_equal. f_equal. page_arith. lia.
Qed.

Lemma slot_bound p h cells : slotted p h cells -> h_lower h <= PAGE_SIZE /\ 0 <= zlen cells
  /\ h_upper h <= PAGE_SIZE.
Proof.
  intros Hs. pose proof (sl_total _ _ _ Hs). pose proof (sl_room _ _ _ Hs).
  pose proof (total_nonneg cells). pose proof (zlen_nonneg cells). lia.
Qed.

Definition inserted_header (h : Header) (len : Z) : Header :=
  mkHeader (h_item_count h + 1) (h_level h) (h_lower h + 2) (h_upper h - len).

(** What [insert] leaves on the page, byte by byte. *)
Definition insert_effect (p p' : list Z) (h : Header) (k : Z) (c : list Z) : Prop :=
  page_ok p' /\ header_of p' = inserted_header h (zlen c)
  /\ agree p p' (h_lower h + 2) (h_upper h - zlen c) /\ agree p p' (h_upper h) PAGE_SIZE
  /\ sub p' (h_upper h - zlen c) (zlen c) = c
  /\ (forall j, 0 <= j <= h_item_count h ->
        start p' j = if j <? k then start p j else if j =? k then h_upper h - zlen c else start p (j - 1)).

Lemma insert_runs p h count k c : page_ok p -> header_of p = h -> h_item_count h = count ->
  h_lower h = slot_at count -> 0 <= k <= count -> h_upper h <= PAGE_SIZE ->
  bytes_ok c -> 0 < zlen c -> h_lower h + 2 + zlen c <= h_upper h ->
  exists p', insert p h k c = Ok (p', true) /\ insert_effect p p' h k c /\ same_identity p p'.
Proof.
  intros Hp Hh Hcnt Hlow Hk Hup Hc Hlen Hfit.
  unfold insert. rewrite Hcnt, (proj2 (Z.ltb_ge _ _)) by lia.
  unfold is_empty. rewrite (proj2 (Z.eqb_neq (zlen c) 0)) by lia.
  unfold insert_fits, checked_sub. rewrite (proj2 (Z.eqb_neq (zlen c) 0)), (proj2 (Z.leb_le (zlen c) (h_upper h))),
    (proj2 (Z.leb_le _ (h_upper h - zlen c))) by (page_arith; lia). cbn [negb andb].
  run (usub_ok (E := Error) (h_upper h) (zlen c) ltac:(page_arith; lia)).
  destruct (shift_slots_up p h k count Hp Hcnt Hlow) as (p1 & E1 & Hp1 & A1 & B1 & S1); [lia | page_arith; lia |].
  run E1.
  destruct (write_source_wrote p1 (h_upper h - zlen c) c) as (p2 & E2 & W2); [done | done | page_arith; lia.. |].
  run E2. rewrite !(as_u16_small (h_upper h - zlen c)) by (page_arith; lia).
  destruct (put_u16_wrote p2 (slot_at k) (h_upper h - zlen c)) as (p3 & E3 & W3); [eauto with v4 | page_arith; lia.. |].
  run E3. assert (Hp3 : page_ok p3) by eauto with v4.
  destruct (put_header p3 (count + 1) (h_lower h + 2) (h_upper h - zlen c) Hp3)
    as (q1 & q2 & p' & F1 & F2 & F3 & Hp' & Hh' & A' & I'); [page_arith; lia.. |].
  rewrite as_u16_small in F3 by (page_arith; lia). run F1. run F2. run F3.
  assert (Hbyte : forall i, HEADER_SIZE <= i < PAGE_SIZE -> i < slot_at k \/ slot_at k + 2 <= i ->
    i < h_upper h - zlen c \/ h_upper h <= i -> bget p' i = bget p1 i).
  { intros i Hi ? ?. rewrite (A' i Hi), (wrote_frame_byte _ _ _ _ i W3), (wrote_frame_byte _ _ _ _ i W2);
      (done || (page_arith; zlen_simp; lia)). }
  exists p'. split; [done |]. split; [split_and! |].
  - done.
  - rewrite Hh'. unfold inserted_header. f_equal; [lia |]. destruct (header_fields _ _ Hh) as (_ & <- & _).
    through W3. through W2. apply (agree_u16 _ _ _ _ _ A1); page_arith; done || lia.
  - intros i Hi. rewrite Hbyte by (page_arith; lia). apply B1. page_arith. lia.
  - intros i Hi. rewrite Hbyte by (page_arith; lia). apply B1. page_arith. lia.
  - rewrite (agree_sub _ _ _ _ _ _ A') by (eauto with v4 || (page_arith; lia)).
    rewrite (wrote_frame _ _ _ _ _ _ W3) by (eauto with v4 || (page_arith; zlen_simp; lia)).
    apply (wrote_hit _ _ _ _ W2); page_arith; lia.
  - intros j Hj. unfold start. rewrite (agree_u16 _ _ _ _ _ A') by (eauto with v4 || (page_arith; lia)).
    destruct (Z.ltb_spec j k); [| destruct (Z.eqb_spec j k) as [-> |]].
    + through W3. through W2. apply (agree_u16 _ _ _ _ _ A1); page_arith; done || lia.
    + apply (wrote_u16 _ _ _ _ W3); page_arith; lia.
    + through W3. through W2. specialize (S1 (j - 1) ltac:(lia)). by rewrite Z.sub_add in S1.
  - eapply identity_trans; [apply identity_agree | exact I']. intros i Hi.
    rewrite (wrote_frame_byte _ _ _ _ i W3), (wrote_frame_byte _ _ _ _ i W2) by (page_arith; zlen_simp; lia).
    apply A1. page_arith. lia.
Qed.

Lemma cnth_insert a b c i : 0 <= i ->
  cnth (a ++ c :: b) i = if i <? zlen a then cnth (a ++ b) i
                         else if i =? zlen a then c else cnth (a ++ b) (i - 1).
Proof.
  intros Hi. pose proof (zlen_nonneg a). rewrite (cnth_app a (c :: b)) by lia.
  destruct (Z.ltb_spec i (zlen a)); [rewrite cnth_app by lia; zcase |].
  rewrite cnth_cons by lia.
  destruct (Z.eqb_spec i (zlen a)), (Z.eqb_spec (i - zlen a) 0); try lia; [done |].
  rewrite cnth_app by lia. destruct (Z.ltb_spec (i - 1) (zlen a)); [lia |]. f_equal. lia.
Qed.

(** Records inserted before or after position [k] keep their place among the
    others. *)
Lemma insert_slotted p h a b c : slotted p h (a ++ b) -> bytes_ok c -> 0 < zlen c ->
  h_lower h + 2 + zlen c <= h_upper h ->
  exists p', insert p h (zlen a) c = Ok (p', true)
    /\ slotted p' (inserted_header h (zlen c)) (a ++ c :: b) /\ same_identity p p'.
Proof.
  intros Hs Hc Hlen Hfit. pose proof (slot_bound _ _ _ Hs) as (Hb1 & Hb2 & Hb3).
  destruct Hs as [Hp Hh Hcnt Hlow Hroom Htot Hcell Hdis Hgap].
  set (count := zlen (a ++ b)) in *. assert (Hab : count = zlen a + zlen b) by apply zlen_app.
  pose proof (zlen_nonneg a). pose proof (zlen_nonneg b).
  destruct (insert_runs p h count (zlen a) c) as (p' & E & (Hp' & Hh' & A1 & A2 & Hnew & Hst) & Hid);
    try done; [lia |].
  assert (Hcount' : zlen (a ++ c :: b) = count + 1) by (zlen_simp; lia).
  assert (Hrec : forall i, 0 <= i < count ->
    h_upper h <= start p i /\ start p i + zlen (cnth (a ++ b) i) <= PAGE_SIZE /\ 0 < zlen (cnth (a ++ b) i)
    /\ sub p' (start p i) (zlen (cnth (a ++ b) i)) = cnth (a ++ b) i).
  { intros i Hi. destruct (Hcell i Hi) as (H1 & H2 & H3 & H4). do 3 (split; [done |]).
    rewrite (agree_sub _ _ _ _ _ _ A2); (done || lia || page_arith; lia). }
  assert (Hk : start p' (zlen a) = h_upper h - zlen c /\ cnth (a ++ c :: b) (zlen a) = c).
  { rewrite Hst, cnth_insert, Z.ltb_irrefl, Z.eqb_refl by lia. done. }
  assert (Hold : forall i, 0 <= i < count + 1 -> i <> zlen a -> exists m, 0 <= m < count
    /\ m = (if i <? zlen a then i else i - 1)
    /\ start p' i = start p m /\ cnth (a ++ c :: b) i = cnth (a ++ b) m).
  { intros i Hi Hne. exists (if i <? zlen a then i else i - 1). rewrite Hst, cnth_insert by lia.
    rewrite (proj2 (Z.eqb_neq i (zlen a))) by lia. destruct (Z.ltb_spec i (zlen a)); split_and!; done || lia. }
  destruct Hk as [Hks Hkc].
  exists p'. split; [done |]. split; [| done]. split; simpl; try done; rewrite ?Hcount'.
  - lia.
  - page_arith. lia.
  - lia.
  - rewrite total_app, total_cons. rewrite total_app in Htot. lia.
  - intros i Hi. destruct (Z.eq_dec i (zlen a)) as [-> | Hne]; [rewrite Hks, Hkc; split_and!; done || lia |].
    destruct (Hold i Hi Hne) as (m & Hm & _ & -> & ->). destruct (Hrec m Hm) as (? & ? & ? & ?). split_and!; done || lia.
  - intros i j Hi Hj Hne.
    destruct (Z.eq_dec i (zlen a)) as [-> | Hni]; destruct (Z.eq_dec j (zlen a)) as [-> | Hnj]; [lia | | |].
    + rewrite Hks, Hkc. destruct (Hold j Hj Hnj) as (m & Hm & _ & -> & ->). destruct (Hrec m Hm). lia.
    + rewrite Hks, Hkc. destruct (Hold i Hi Hni) as (m & Hm & _ & -> & ->). destruct (Hrec m Hm). lia.
    + destruct (Hold i Hi Hni) as (m & Hm & Em & -> & ->), (Hold j Hj Hnj) as (m' & Hm' & Em' & -> & ->).
      apply Hdis; [done | done |]. revert Em Em'. zcase.
  - intros i Hi. rewrite A1 by lia. apply Hgap. lia.
Qed.

(** ** Moving the records below a point *)

Definition moved (target before delta i s : Z) : Z :=
  if negb (i =? target) && (s <? before) then s + delta else s.

Definition signed (add : bool) (amount : Z) : Z := if add then amount else - amount.

Lemma start_page_range p i : page_ok p -> 0 <= start p i <= u16_max.
Proof. intros [_ ?]. by apply u16_at_range. Qed.

Lemma adjusted_value s add amount : 0 <= s -> 0 <= amount -> 0 <= s + signed add amount < PAGE_SIZE ->
  (if add then checked_add usize_max s amount else checked_sub s amount) = Some (s + signed add amount).
Proof.
  intros ? ? Hr. unfold signed in *. destruct add; unfold checked_add, checked_sub; page_arith;
    unfold usize_max, u64_max; zcase; f_equal; lia.
Qed.

Lemma adjust_loop_ok n p target before add amount index :
  page_ok p -> 0 <= index -> slot_at (index + Z.of_nat n) <= PAGE_SIZE -> 0 <= amount ->
  (forall i, index <= i < index + Z.of_nat n -> i <> target -> start p i < before ->
     0 <= start p i + signed add amount < PAGE_SIZE) ->
  exists p', adjust_loop p target before add amount index n = Ok p' /\ page_ok p'
    /\ agree p p' 0 (slot_at index) /\ agree p p' (slot_at (index + Z.of_nat n)) PAGE_SIZE
    /\ forall i, index <= i < index + Z.of_nat n ->
         start p' i = moved target before (signed add amount) i (start p i).
Proof.
  revert p index. induction n as [|n IH]; intros p index Hp Hi Hn Ham Hrange.
  { exists p. split; [done |]. split; [done |]. split; [done |]. split; [done |]. intros. lia. }
  rewrite Nat2Z.inj_succ in *. cbn [adjust_loop].
  replace (index + Z.succ (Z.of_nat n)) with (index + 1 + Z.of_nat n) in * by lia.
  assert (Hskip : forall p1, page_ok p1 -> agree p p1 0 (slot_at index) -> agree p p1 (slot_at (index + 1)) PAGE_SIZE ->
    start p1 index = moved target before (signed add amount) index (start p index) ->
    exists p', adjust_loop p1 target before add amount (index + 1) n = Ok p' /\ page_ok p'
      /\ agree p p' 0 (slot_at index) /\ agree p p' (slot_at (index + 1 + Z.of_nat n)) PAGE_SIZE
      /\ forall i, index <= i < index + 1 + Z.of_nat n ->
         start p' i = moved target before (signed add amount) i (start p i)).
  { intros p1 Hp1 A1 B1 S1.
    assert (Hsame : forall i, index + 1 <= i < index + 1 + Z.of_nat n -> start p1 i = start p i).
    { intros i Hr. apply (agree_u16 _ _ _ _ _ B1); page_arith; done || lia. }
    destruct (IH p1 (index + 1)) as (p' & E & Hp' & A & B & S); [done | lia | done | done | |].
    { intros i Hr. rewrite Hsame by lia. apply Hrange. lia. }
    exists p'. split; [done |]. split; [done |].
    split; [eapply agree_trans; [exact A1 |]; eapply agree_narrow; [exact A | lia | page_arith; lia] |].
    split; [eapply agree_trans; [| exact B]; eapply agree_narrow; [exact B1 | page_arith; lia | lia] |].
    intros i Hr. destruct (Z.eq_dec i index) as [-> | Hne].
    - rewrite <- S1. apply (agree_u16 _ _ _ _ _ A); page_arith; done || lia.
    - rewrite S, Hsame by lia. done. }
  destruct (Z.eqb_spec index target) as [-> | Hne].
  { apply Hskip; [done | done | done |]. unfold moved. by rewrite Z.eqb_refl. }
  pose proof (start_page_range p index Hp).
  run (u16_le_page (E := Error) p (proj1 Hp) (slot_at index) ltac:(page_arith; lia) ltac:(page_arith; lia)).
  fold (start p index). unfold moved in Hskip. rewrite (proj2 (Z.eqb_neq index target) Hne) in Hskip.
  cbn [negb andb] in Hskip. destruct (Z.leb_spec before (start p index)) as [Hge | Hlt].
  { apply Hskip; [done | done | done |]. by rewrite (proj2 (Z.ltb_ge _ _)) by lia. }
  specialize (Hrange index ltac:(lia) Hne Hlt).
  rewrite adjusted_value by (done || lia). cbn [ok_or mbind outcome_bind].
  rewrite (proj2 (Z.leb_gt PAGE_SIZE _)) by lia. rewrite as_u16_small by (page_arith; lia).
  destruct (put_u16_wrote p (slot_at index) (start p index + signed add amount) Hp) as (p1 & E1 & W1);
    [page_arith; lia.. |]. run E1. apply Hskip.
  - eauto with v4.
  - apply (wrote_agree_below _ _ _ _ 0 W1); page_arith; lia.
  - eapply agree_narrow; [apply (wrote_agree_above _ _ _ _ W1); page_arith; lia | zlen_simp; page_arith; lia | lia].
  - rewrite (proj2 (Z.ltb_lt _ _)) by lia. apply (wrote_u16 _ _ _ _ W1); page_arith; lia.
Qed.

(** Shifting the records below [s] up by [amount], as removal and shrinking do. *)
Lemma shift_up p h count k s amount :
  page_ok p -> h_item_count h = count -> 0 <= count -> slot_at count <= h_upper h ->
  h_upper h <= s -> s + amount <= PAGE_SIZE -> 0 < amount ->
  (forall i, 0 <= i < count -> i <> k -> start p i < s -> start p i + amount < PAGE_SIZE) ->
  exists p1 p2 p3, copy_within p (h_upper h) (h_upper h + amount) (s - h_upper h) = Ok p1
    /\ page_zero p1 (h_upper h) amount = Ok p2
    /\ adjust_slots_before p2 h k s true amount = Ok p3
    /\ page_ok p3 /\ agree p p3 0 HEADER_SIZE /\ agree p p3 (slot_at count) (h_upper h)
    /\ (forall i, h_upper h <= i < h_upper h + amount -> bget p3 i = 0)
    /\ (forall i, h_upper h + amount <= i < s + amount -> bget p3 i = bget p (i - amount))
    /\ agree p p3 (s + amount) PAGE_SIZE
    /\ (forall j, 0 <= j < count -> start p3 j = moved k s amount j (start p j)).
Proof.
  intros Hp Hcnt Hc Hlow Hs Hend Ham Hmoved.
  destruct (copy_within_wrote p (h_upper h) (h_upper h + amount) (s - h_upper h)) as (p1 & E1 & W1 & Z1);
    [done | page_arith; lia.. |].
  destruct (page_zero_wrote p1 (h_upper h) amount) as (p2 & E2 & W2 & Z2); [eauto with v4 | page_arith; lia.. |].
  assert (Hp2 : page_ok p2) by eauto with v4.
  assert (Hlo : agree p p2 0 (h_upper h)).
  { intros i Hi. rewrite (wrote_frame_byte _ _ _ _ i W2), (wrote_frame_byte _ _ _ _ i W1); lia || (page_arith; lia). }
  assert (Hst : forall j, 0 <= j < count -> start p2 j = start p j).
  { intros j Hj. apply (agree_u16 _ _ _ _ _ Hlo); page_arith; done || lia. }
  destruct (adjust_loop_ok (Z.to_nat count) p2 k s true amount 0 Hp2) as (p3 & E3 & Hp3 & A3 & B3 & S3);
    [lia | page_arith; lia | lia | |].
  { intros i Hi Hne Hlt. rewrite Hst in * by lia. pose proof (start_page_range p i Hp). unfold signed.
    specialize (Hmoved i ltac:(lia) Hne Hlt). lia. }
  rewrite Z.add_0_l, Z2Nat.id in * by lia.
  exists p1, p2, p3. split; [done |]. split; [done |].
  split; [unfold adjust_slots_before; by rewrite Hcnt |]. split; [done |].
  split; [eapply agree_trans; [eapply agree_narrow; [exact Hlo | lia | page_arith; lia] |
          eapply agree_narrow; [exact A3 | lia | page_arith; lia]] |].
  split; [eapply agree_trans; [eapply agree_narrow; [exact Hlo | page_arith; lia | lia] |
          eapply agree_narrow; [exact B3 | lia | page_arith; lia]] |].
  split; [| split; [| split]].
  - intros i Hi. rewrite (B3 i) by (page_arith; lia). destruct W2 as [_ W2]. rewrite W2 by (page_arith; lia).
    rewrite (proj2 (Z.leb_le _ _)), (proj2 (Z.ltb_lt _ _)) by lia. cbn [andb]. apply bget_replicate. lia.
  - intros i Hi. rewrite (B3 i), (wrote_frame_byte _ _ _ _ i W2) by (page_arith; lia). destruct W1 as [_ W1].
    rewrite W1 by (page_arith; lia). rewrite (proj2 (Z.leb_le _ _)), (proj2 (Z.ltb_lt _ _)) by lia. cbn [andb].
    rewrite bget_sub by (page_arith; lia). f_equal. lia.
  - intros i Hi. rewrite (B3 i), (wrote_frame_byte _ _ _ _ i W2), (wrote_frame_byte _ _ _ _ i W1); lia || (page_arith; lia).
  - intros j Hj. rewrite S3, Hst by lia. done.
Qed.

(** Closing the gap the removed slot leaves. *)
Lemma shift_slots_down p k count : page_ok p -> 0 <= k < count -> slot_at count <= PAGE_SIZE ->
  exists p1 p2, copy_within p (slot_at k + 2) (slot_at k) (slot_at count - (slot_at k + 2)) = Ok p1
    /\ put_u16 p1 (slot_at count - 2) 0 = Ok p2 /\ page_ok p2
    /\ agree p p2 0 (slot_at k) /\ agree p p2 (slot_at count) PAGE_SIZE
    /\ (forall i, slot_at count - 2 <= i < slot_at count -> bget p2 i = 0)
    /\ (forall j, k <= j < count - 1 -> start p2 j = start p (j + 1)).
Proof.
  intros Hp Hk Hc.
  destruct (copy_within_wrote p (slot_at k + 2) (slot_at k) (slot_at count - (slot_at k + 2))) as (p1 & E1 & W1 & Z1);
    [done | page_arith; lia.. |].
  destruct (put_u16_wrote p1 (slot_at count - 2) 0) as (p2 & E2 & W2); [eauto with v4 | page_arith; lia.. |].
  exists p1, p2. split; [done |]. split; [done |]. split; [eauto with v4 |]. split; [| split; [| split]].
  - intros i Hi. rewrite (wrote_frame_byte _ _ _ _ i W2), (wrote_frame_byte _ _ _ _ i W1); done || (page_arith; zlen_simp; lia).
  - intros i Hi. rewrite (wrote_frame_byte _ _ _ _ i W2), (wrote_frame_byte _ _ _ _ i W1); done || (page_arith; zlen_simp; lia).
  - intros i Hi. destruct W2 as [_ W2]. rewrite W2 by (page_arith; lia). zlen_simp.
    rewrite (proj2 (Z.leb_le _ _)), (proj2 (Z.ltb_lt _ _)) by lia. cbn [andb].
    assert (i - (slot_at count - 2) = 0 \/ i - (slot_at count - 2) = 1) as [-> | ->] by lia; done.
  - intros j Hj. unfold start. through W2. unfold u16_at.
    rewrite (wrote_inside _ _ _ _ _ _ W1) by (rewrite ?Z1; page_arith; lia).
    rewrite sub_sub by (page_arith; lia). f_equal. f_equal. page_arith. lia.
Qed.

Lemma slot_start_ok p h cells i : legible p h cells -> 0 <= i < zlen cells ->
  slot_start p h i = Ok (start p i).
Proof.
  intros Hs Hi. pose proof (lb_lower _ _ _ Hs) as Hl. pose proof (lb_room _ _ _ Hs). destruct (lb_cell _ _ _ Hs i Hi) as (? & ? & ? & _).
  unfold slot_start. rewrite (lb_count _ _ _ Hs), (proj2 (Z.leb_gt (zlen cells) i)) by lia.
  rewrite (proj2 (Z.ltb_ge _ _)) by (page_arith; lia).
  apply u16_le_page; [apply (lb_page _ _ _ Hs) | page_arith; lia..].
Qed.

Lemma record_start_ok p h cells i : slotted p h cells -> 0 <= i < zlen cells ->
  record_start p h i (zlen (cnth cells i)) = Ok (start p i).
Proof.
  intros Hs Hi. unfold record_start. run (slot_start_ok p h cells i Hs Hi).
  destruct (sl_cell _ _ _ Hs i Hi) as (? & ? & ? & _). unfold checked_add.
  rewrite (proj2 (Z.leb_le _ usize_max)) by (page_arith; unfold usize_max, u64_max; lia).
  by rewrite (proj2 (Z.ltb_ge _ (h_upper h))), (proj2 (Z.ltb_ge PAGE_SIZE _)) by lia.
Qed.

(** A record other than [k] lies wholly below or wholly above it. *)
Lemma record_side p h cells k i : slotted p h cells -> 0 <= k < zlen cells -> 0 <= i < zlen cells ->
  i <> k ->
  if start p i <? start p k
  then start p i + zlen (cnth cells i) <= start p k
  else start p k + zlen (cnth cells k) <= start p i.
Proof.
  intros Hs Hk Hi Hne. destruct (sl_cell _ _ _ Hs k Hk) as (_ & _ & ? & _).
  destruct (sl_cell _ _ _ Hs i Hi) as (_ & _ & ? & _).
  destruct (sl_disjoint _ _ _ Hs i k Hi Hk Hne), (Z.ltb_spec (start p i) (start p k)); lia.
Qed.

(** ** Removal *)

Definition removed_header (h : Header) (len : Z) : Header :=
  mkHeader (h_item_count h - 1) (h_level h) (h_lower h - 2) (h_upper h + len).

Definition remove_effect (p p' : list Z) (h : Header) (k s len : Z) : Prop :=
  page_ok p' /\ header_of p' = removed_header h len
  /\ (forall i, h_lower h - 2 <= i < h_lower h -> bget p' i = 0)
  /\ agree p p' (h_lower h) (h_upper h)
  /\ (forall i, h_upper h <= i < h_upper h + len -> bget p' i = 0)
  /\ (forall i, h_upper h + len <= i < s + len -> bget p' i = bget p (i - len))
  /\ agree p p' (s + len) PAGE_SIZE
  /\ (forall j, 0 <= j < h_item_count h - 1 ->
        start p' j = let m := if j <? k then j else j + 1 in moved k s len m (start p m)).

Lemma remove_runs p h cells k : slotted p h cells -> 0 <= k < zlen cells -> 1 < zlen cells ->
  let len := zlen (cnth cells k) in
  exists p', remove p h k len = Ok p' /\ remove_effect p p' h k (start p k) len /\ same_identity p p'.
Proof.
  intros Hs Hk Hmany len. pose proof (slot_bound _ _ _ Hs) as (Hb1 & Hb2 & Hb3).
  pose proof (record_start_ok p h cells k Hs Hk) as Hstart. fold len in Hstart.
  pose proof (record_side p h cells k) as Hside.
  pose proof (sl_lower _ _ _ Hs) as Hlow. pose proof (sl_count _ _ _ Hs) as Hcnt.
  pose proof (sl_room _ _ _ Hs) as Hroom. pose proof (sl_page _ _ _ Hs) as Hp.
  destruct (sl_cell _ _ _ Hs k Hk) as (Hc1 & Hc2 & Hc3 & _). fold len in Hc2, Hc3.
  set (count := zlen cells) in *. set (s := start p k) in *.
  unfold remove. rewrite Hcnt, (proj2 (Z.leb_gt count k)), (proj2 (Z.leb_gt count 1)), (proj2 (Z.eqb_neq len 0)) by lia.
  cbn [orb]. run Hstart. run (usub_ok (E := Error) s (h_upper h) Hc1).
  destruct (shift_up p h count k s len) as (p1 & p2 & p3 & E1 & E2 & E3 & Hp3 & A3 & G3 & Z3 & M3 & B3 & S3);
    try done; [page_arith; lia.. | |].
  { intros i Hi Hne Hlt. specialize (Hside i Hs Hk Hi Hne). fold s in Hside.
    rewrite (proj2 (Z.ltb_lt _ _)) in Hside by done. destruct (sl_cell _ _ _ Hs i Hi) as (_ & _ & ? & _). lia. }
  run E1. run E2. run E3. run (usub_ok (E := Error) (h_lower h) (slot_at k + 2) ltac:(page_arith; lia)).
  rewrite Hlow. destruct (shift_slots_down p3 k count Hp3) as (p4 & p5 & E4 & E5 & Hp5 & A5 & B5 & Z5 & S5);
    [lia | page_arith; lia |]. run E4. run E5.
  destruct (put_header p5 (count - 1) (slot_at count - 2) (h_upper h + len) Hp5)
    as (q1 & q2 & p' & F1 & F2 & F3 & Hp' & Hh' & A' & I'); [page_arith; lia.. |].
  run F1. run F2. rewrite F3. exists p'. split; [done |].
  split; [| apply (identity_trans _ p5); [apply identity_agree; eapply agree_trans;
     [exact A3 | eapply agree_narrow; [exact A5 | lia | page_arith; lia]] | done]].
  assert (Hb5 : forall i, slot_at count <= i < PAGE_SIZE -> bget p' i = bget p3 i).
  { intros i Hi. rewrite (A' i), (B5 i); done || (page_arith; lia). }
  unfold remove_effect. rewrite Hlow, Hcnt. split_and!.
  - done.
  - rewrite Hh'. unfold removed_header. rewrite Hcnt, Hlow. f_equal.
    destruct (header_fields _ _ (sl_header _ _ _ Hs)) as (_ & <- & _).
    rewrite (agree_u16 _ _ _ _ _ A5) by (done || (page_arith; lia)).
    apply (agree_u16 _ _ _ _ _ A3); page_arith; done || lia.
  - intros i Hi. rewrite (A' i) by (page_arith; lia). by apply Z5.
  - intros i Hi. rewrite Hb5 by (page_arith; lia). by apply G3.
  - intros i Hi. rewrite Hb5 by (page_arith; lia). by apply Z3.
  - intros i Hi. rewrite Hb5 by (page_arith; lia). by apply M3.
  - intros i Hi. rewrite Hb5 by (page_arith; lia). by apply B3.
  - intros j Hj. unfold start. rewrite (agree_u16 _ _ _ _ _ A') by (done || (page_arith; lia)). fold (start p5 j).
    destruct (Z.ltb_spec j k); cbv zeta.
    + rewrite <- S3 by lia. apply (agree_u16 _ _ _ _ _ A5); page_arith; done || lia.
    + rewrite <- S3 by lia. apply S5. lia.
Qed.

(** A record other than [k] after the records below [k] moved by [d]: same
    bytes at the new place, inside the record area, on the same side. *)
Lemma relocated p p' h cells k d m : slotted p h cells -> page_ok p' ->
  0 <= k < zlen cells -> 0 <= m < zlen cells -> m <> k -> 0 <= h_upper h + d ->
  start p k + d + zlen (cnth cells k) <= PAGE_SIZE + zlen (cnth cells k) ->
  (forall i, h_upper h + d <= i < start p k + d -> bget p' i = bget p (i - d)) ->
  agree p p' (start p k + zlen (cnth cells k)) PAGE_SIZE ->
  let s' := moved k (start p k) d m (start p m) in
  sub p' s' (zlen (cnth cells m)) = cnth cells m
  /\ (if start p m <? start p k then h_upper h + d <= s' /\ s' + zlen (cnth cells m) <= start p k + d
      else start p k + zlen (cnth cells k) <= s' /\ s' + zlen (cnth cells m) <= PAGE_SIZE)
  /\ 0 < zlen (cnth cells m).
Proof.
  intros Hs Hp' Hk Hm Hne Hd Hend Hmid Habove s'.
  pose proof (record_side p h cells k m Hs Hk Hm Hne) as Hside.
  destruct (sl_cell _ _ _ Hs m Hm) as (H1 & H2 & H3 & H4). pose proof (sl_page _ _ _ Hs) as Hp.
  destruct (sl_cell _ _ _ Hs k Hk) as (K1 & K2 & K3 & _).
  subst s'. unfold moved. rewrite (proj2 (Z.eqb_neq m k) Hne). cbn [negb andb].
  destruct (Z.ltb_spec (start p m) (start p k)).
  - split; [| lia]. rewrite <- H4 at 2. destruct Hp as [Hz _], Hp' as [Hz' _].
    pose proof (sl_room _ _ _ Hs). pose proof (sl_lower _ _ _ Hs). pose proof (zlen_nonneg cells).
    apply sub_ext; try lia. all: try (page_arith; lia).
    intros i Hi. rewrite Hmid by lia. f_equal. lia.
  - split; [| lia]. rewrite <- H4 at 2. pose proof (start_page_range p m Hp).
    apply (agree_sub _ _ _ _ _ _ Habove); done || lia.
Qed.

Lemma cnth_delete a b c i : 0 <= i ->
  cnth (a ++ b) i = cnth (a ++ c :: b) (if i <? zlen a then i else i + 1).
Proof.
  intros Hi. pose proof (zlen_nonneg a). rewrite cnth_insert by zcase.
  destruct (Z.ltb_spec i (zlen a)).
  - by rewrite (proj2 (Z.ltb_lt i (zlen a))) by lia.
  - rewrite (proj2 (Z.ltb_ge (i + 1) (zlen a))), (proj2 (Z.eqb_neq (i + 1) (zlen a))) by lia. f_equal. lia.
Qed.

Lemma cnth_middle a b c : cnth (a ++ c :: b) (zlen a) = c.
Proof.
  pose proof (zlen_nonneg a). rewrite cnth_insert by lia. by rewrite Z.ltb_irrefl, Z.eqb_refl.
Qed.

Lemma remove_slotted p h a b c : slotted p h (a ++ c :: b) -> 1 < zlen (a ++ c :: b) ->
  exists p', remove p h (zlen a) (zlen c) = Ok p'
    /\ slotted p' (removed_header h (zlen c)) (a ++ b) /\ same_identity p p'.
Proof.
  intros Hs Hmany. pose proof (slot_bound _ _ _ Hs) as (Hb1 & Hb2 & Hb3).
  pose proof (zlen_nonneg a) as Ha0. pose proof (zlen_nonneg b) as Hb0.
  set (cells := a ++ c :: b) in *. assert (Hz : zlen cells = zlen a + 1 + zlen b) by (subst cells; zlen_simp; lia).
  assert (Hk : 0 <= zlen a < zlen cells) by lia.
  assert (Hck : cnth cells (zlen a) = c) by apply cnth_middle.
  destruct (remove_runs p h cells (zlen a) Hs Hk Hmany) as (p' & E & Heff & Hid). rewrite Hck in *.
  destruct Heff as (Hp' & Hh' & Z1 & G & Z2 & M & A & S).
  exists p'. split; [done |]. split; [| done].
  pose proof (sl_lower _ _ _ Hs) as Hlow. pose proof (sl_count _ _ _ Hs) as Hcnt.
  pose proof (sl_room _ _ _ Hs) as Hroom. pose proof (sl_total _ _ _ Hs) as Htot.
  destruct (sl_cell _ _ _ Hs _ Hk) as (K1 & K2 & K3 & _). rewrite Hck in K2, K3.
  set (s := start p (zlen a)) in *.
  assert (Hrec : forall i, 0 <= i < zlen (a ++ b) -> exists m, 0 <= m < zlen cells /\ m <> zlen a
    /\ m = (if i <? zlen a then i else i + 1) /\ cnth (a ++ b) i = cnth cells m
    /\ start p' i = moved (zlen a) s (zlen c) m (start p m)
    /\ sub p' (start p' i) (zlen (cnth cells m)) = cnth cells m
    /\ (if start p m <? s then h_upper h + zlen c <= start p' i /\ start p' i + zlen (cnth cells m) <= s + zlen c
        else s + zlen c <= start p' i /\ start p' i + zlen (cnth cells m) <= PAGE_SIZE)
    /\ 0 < zlen (cnth cells m)).
  { intros i Hi. rewrite zlen_app in Hi. set (m := if i <? zlen a then i else i + 1).
    assert (Hm : 0 <= m < zlen cells /\ m <> zlen a) by (subst m; zcase). destruct Hm as [Hm Hne].
    exists m. do 3 (split; [done |]). split; [apply cnth_delete; lia |].
    assert (HS : start p' i = moved (zlen a) s (zlen c) m (start p m)) by (apply (S i); lia).
    split; [done |]. rewrite HS.
    pose proof (relocated p p' h cells (zlen a) (zlen c) m Hs Hp' Hk Hm Hne) as Hr. rewrite Hck in Hr.
    apply Hr; [page_arith; lia | fold s; lia | exact M | exact A]. }
  split; simpl; try done.
  - rewrite zlen_app. lia.
  - rewrite zlen_app. page_arith. lia.
  - lia.
  - subst cells. rewrite total_app, total_cons in Htot. rewrite total_app. lia.
  - intros i Hi. destruct (Hrec i Hi) as (m & Hm & Hne & _ & -> & _ & Hsub & Hpos & Hlen).
    split_and!; [| | done | done]; revert Hpos; zcase.
  - intros i j Hi Hj Hij. destruct (Hrec i Hi) as (m & Hm & Hne & Em & -> & Hsi & _ & Hpos & Hlen).
    destruct (Hrec j Hj) as (m' & Hm' & Hne' & Em' & -> & Hsj & _ & Hpos' & Hlen').
    assert (Hmm : m <> m') by (revert Em Em'; zcase).
    pose proof (sl_disjoint _ _ _ Hs m m' Hm Hm' Hmm). rewrite Hsi, Hsj in *. revert Hpos Hpos'.
    unfold moved. rewrite (proj2 (Z.eqb_neq m _) Hne), (proj2 (Z.eqb_neq m' _) Hne'). cbn [negb andb]. zcase.
  - intros i Hi. destruct (Z.lt_ge_cases i (h_lower h)); [apply Z1; lia |].
    destruct (Z.lt_ge_cases i (h_upper h)); [rewrite G by lia; apply (sl_gap _ _ _ Hs); lia | apply Z2; lia].
Qed.

(** ** Replacement *)

(** Shifting the records below [s] down by [amount], as growing does. *)
Lemma shift_down p h count k s amount :
  page_ok p -> h_item_count h = count -> 0 <= count -> slot_at count <= h_upper h - amount ->
  h_upper h <= s -> s <= PAGE_SIZE -> 0 < amount ->
  (forall i, 0 <= i < count -> i <> k -> start p i < s -> h_upper h <= start p i) ->
  exists p1 p2, copy_within p (h_upper h) (h_upper h - amount) (s - h_upper h) = Ok p1
    /\ adjust_slots_before p1 h k s false amount = Ok p2
    /\ page_ok p2 /\ agree p p2 0 HEADER_SIZE /\ agree p p2 (slot_at count) (h_upper h - amount)
    /\ (forall i, h_upper h - amount <= i < s - amount -> bget p2 i = bget p (i + amount))
    /\ agree p p2 s PAGE_SIZE
    /\ (forall j, 0 <= j < count -> start p2 j = moved k s (- amount) j (start p j)).
Proof.
  intros Hp Hcnt Hc Hlow Hs Hend Ham Hmoved.
  destruct (copy_within_wrote p (h_upper h) (h_upper h - amount) (s - h_upper h)) as (p1 & E1 & W1 & Z1);
    [done | page_arith; lia.. |].
  assert (Hp1 : page_ok p1) by eauto with v4.
  assert (Hlo : agree p p1 0 (h_upper h - amount)) by (apply (wrote_agree_below _ _ _ _ 0 W1); page_arith; lia).
  assert (Hst : forall j, 0 <= j < count -> start p1 j = start p j).
  { intros j Hj. apply (agree_u16 _ _ _ _ _ Hlo); page_arith; done || lia. }
  destruct (adjust_loop_ok (Z.to_nat count) p1 k s false amount 0 Hp1) as (p2 & E2 & Hp2 & A2 & B2 & S2);
    [lia | page_arith; lia | lia | |].
  { intros i Hi Hne Hlt. rewrite Hst in * by lia. unfold signed.
    specialize (Hmoved i ltac:(lia) Hne Hlt). page_arith. lia. }
  rewrite Z.add_0_l, Z2Nat.id in * by lia.
  exists p1, p2. split; [done |]. split; [unfold adjust_slots_before; by rewrite Hcnt |]. split; [done |].
  split; [eapply agree_trans; [eapply agree_narrow; [exact Hlo | lia | page_arith; lia] |
          eapply agree_narrow; [exact A2 | lia | page_arith; lia]] |].
  split; [eapply agree_trans; [eapply agree_narrow; [exact Hlo | page_arith; lia | lia] |
          eapply agree_narrow; [exact B2 | lia | page_arith; lia]] |].
  split; [| split].
  - intros i Hi. rewrite (B2 i) by (page_arith; lia). destruct W1 as [_ W1].
    rewrite W1 by (page_arith; lia). rewrite (proj2 (Z.leb_le _ _)), (proj2 (Z.ltb_lt _ _)) by lia. cbn [andb].
    rewrite bget_sub by (page_arith; lia). f_equal. lia.
  - intros i Hi. rewrite (B2 i), (wrote_frame_byte _ _ _ _ i W1); lia || (page_arith; lia).
  - intros j Hj. rewrite S2, Hst by lia. done.
Qed.

Definition replaced_header (h : Header) (d : Z) : Header :=
  mkHeader (h_item_count h) (h_level h) (h_lower h) (h_upper h + d).

(** [d] is the old length minus the new one. *)
Definition replace_effect (p p' : list Z) (h : Header) (k s old_len : Z) (c : list Z) : Prop :=
  let d := old_len - zlen c in
  page_ok p' /\ header_of p' = replaced_header h d
  /\ (forall i, h_lower h <= i < h_upper h + d -> bget p i = 0 \/ h_upper h <= i -> bget p' i = 0)
  /\ (forall i, h_upper h + d <= i < s + d -> bget p' i = bget p (i - d))
  /\ sub p' (s + d) (zlen c) = c
  /\ agree p p' (s + old_len) PAGE_SIZE
  /\ start p' k = s + d
  /\ (forall j, 0 <= j < h_item_count h -> j <> k -> start p' j = moved k s d j (start p j)).

(** The end of both branches: the record, its slot and the upper bound. *)
Lemma replace_tail p q h count k s c d :
  header_of p = h -> agree p q 0 HEADER_SIZE -> page_ok p -> page_ok q -> 0 <= k < count ->
  h_item_count h = count -> h_lower h = slot_at count -> bytes_ok c -> 0 < zlen c ->
  slot_at count <= h_upper h + d -> h_upper h + d <= s -> s + zlen c <= PAGE_SIZE ->
  exists q1 q2 p', page_write_source q s c = Ok q1 /\ put_u16 q1 (slot_at k) (as_u16 s) = Ok q2
    /\ put_u16 q2 UPPER (as_u16 (h_upper h + d)) = Ok p'
    /\ page_ok p' /\ header_of p' = replaced_header h d /\ same_identity p p'
    /\ agree q p' (slot_at count) s /\ agree q p' (s + zlen c) PAGE_SIZE /\ sub p' s (zlen c) = c
    /\ start p' k = s /\ (forall j, 0 <= j < count -> j <> k -> start p' j = start q j).
Proof.
  intros Hh Hid Hp Hq Hk Hcnt Hlow Hc Hlen Hu Hs Hend.
  destruct (write_source_wrote q s c) as (q1 & E1 & W1); [done | done | page_arith; lia.. |].
  rewrite !as_u16_small by (page_arith; lia).
  destruct (put_u16_wrote q1 (slot_at k) s) as (q2 & E2 & W2); [eauto with v4 | page_arith; lia.. |].
  destruct (put_u16_wrote q2 UPPER (h_upper h + d)) as (p' & E3 & W3); [eauto with v4 | page_arith; lia.. |].
  exists q1, q2, p'. do 3 (split; [done |]). split; [eauto with v4 |].
  destruct (header_fields _ _ Hh) as (H1 & H2 & H3 & _).
  split; [| split; [| split; [| split; [| split; [| split]]]]].
  - unfold header_of, replaced_header. rewrite <- H1, <- H2, <- H3. f_equal.
    1-3: through W3; through W2; through W1; apply (agree_u16 _ _ _ _ _ Hid); page_arith; done || lia.
    apply (wrote_u16 _ _ _ _ W3); page_arith; lia.
  - intros i Hi. rewrite (wrote_frame_byte _ _ _ _ i W3), (wrote_frame_byte _ _ _ _ i W2), (wrote_frame_byte _ _ _ _ i W1);
      (apply Hid; page_arith; lia) || (page_arith; zlen_simp; lia).
  - intros i Hi. rewrite (wrote_frame_byte _ _ _ _ i W3), (wrote_frame_byte _ _ _ _ i W2), (wrote_frame_byte _ _ _ _ i W1);
      done || (page_arith; zlen_simp; lia).
  - intros i Hi. rewrite (wrote_frame_byte _ _ _ _ i W3), (wrote_frame_byte _ _ _ _ i W2), (wrote_frame_byte _ _ _ _ i W1);
      done || (page_arith; zlen_simp; lia).
  - rewrite (wrote_frame _ _ _ _ _ _ W3), (wrote_frame _ _ _ _ _ _ W2) by (eauto with v4 || (page_arith; zlen_simp; lia)).
    apply (wrote_hit _ _ _ _ W1); page_arith; lia.
  - unfold start. through W3. apply (wrote_u16 _ _ _ _ W2); page_arith; lia.
  - intros j Hj Hne. unfold start. through W3. through W2. by through W1.
Qed.

(** The page before the record is written: everything below it moved by [d]. *)
Definition made_room (p q : list Z) (h : Header) (k s old_len d : Z) : Prop :=
  page_ok q /\ agree p q 0 HEADER_SIZE
  /\ (forall i, h_lower h <= i < h_upper h + d -> bget p i = 0 \/ h_upper h <= i -> bget q i = 0)
  /\ (forall i, h_upper h + d <= i < s + d -> bget q i = bget p (i - d))
  /\ agree p q (s + old_len) PAGE_SIZE
  /\ (forall j, 0 <= j < h_item_count h -> start q j = moved k s d j (start p j)).

Lemma replace_finish p q h count k s old_len c :
  header_of p = h -> page_ok p -> 0 <= k < count -> h_item_count h = count -> h_lower h = slot_at count ->
  bytes_ok c -> 0 < zlen c -> h_upper h <= s -> s + old_len <= PAGE_SIZE ->
  slot_at count <= h_upper h + (old_len - zlen c) ->
  made_room p q h k s old_len (old_len - zlen c) ->
  exists q1 q2 p', page_write_source q (s + (old_len - zlen c)) c = Ok q1
    /\ put_u16 q1 (slot_at k) (as_u16 (s + (old_len - zlen c))) = Ok q2
    /\ put_u16 q2 UPPER (as_u16 (h_upper h + (old_len - zlen c))) = Ok p'
    /\ replace_effect p p' h k s old_len c /\ same_identity p p'.
Proof.
  intros Hh Hp Hk Hcnt Hlow Hc Hlen Hs Hend Hfit (Hq & Hid & Hz & Hm & Ha & Hst).
  destruct (replace_tail p q h count k (s + (old_len - zlen c)) c (old_len - zlen c))
    as (q1 & q2 & p' & E1 & E2 & E3 & Hp' & Hh' & Hid' & A & B & Hsub & Hk' & Hst'); try done; [lia.. |].
  exists q1, q2, p'. do 3 (split; [done |]). split; [| done]. unfold replace_effect. cbv zeta.
  split; [done |]. split; [done |]. split; [| split; [| split; [done | split; [| split; [done |]]]]].
  - intros i Hi Hzero. rewrite A by (page_arith; lia). by apply Hz.
  - intros i Hi. rewrite A by (page_arith; lia). by apply Hm.
  - intros i Hi. rewrite B by lia. by apply Ha.
  - intros j Hj Hne. rewrite Hst' by lia. by apply Hst.
Qed.

Lemma replace_runs p h cells k c : slotted p h cells -> 0 <= k < zlen cells -> bytes_ok c -> 0 < zlen c ->
  let old_len := zlen (cnth cells k) in
  h_lower h <= h_upper h + (old_len - zlen c) ->
  exists p', replace p h k old_len c = Ok (p', true)
    /\ replace_effect p p' h k (start p k) old_len c /\ same_identity p p'.
Proof.
  intros Hs Hk Hc Hlen old_len Hfit. pose proof (slot_bound _ _ _ Hs) as (Hb1 & Hb2 & Hb3).
  pose proof (record_start_ok p h cells k Hs Hk) as Hstart. fold old_len in Hstart.
  pose proof (record_side p h cells k) as Hside.
  pose proof (sl_lower _ _ _ Hs) as Hlow. pose proof (sl_count _ _ _ Hs) as Hcnt.
  pose proof (sl_page _ _ _ Hs) as Hp. pose proof (sl_header _ _ _ Hs) as Hh.
  pose proof (sl_room _ _ _ Hs) as Hle.
  destruct (sl_cell _ _ _ Hs k Hk) as (Hc1 & Hc2 & Hc3 & _). fold old_len in Hc2, Hc3.
  set (count := zlen cells) in *. set (s := start p k) in *.
  pose proof (fun q => replace_finish p q h count k s old_len c Hh Hp Hk Hcnt Hlow Hc Hlen Hc1 Hc2) as Hfin.
  unfold replace. rewrite Hcnt, (proj2 (Z.leb_gt count k)), (proj2 (Z.eqb_neq old_len 0)) by lia.
  unfold is_empty. rewrite (proj2 (Z.eqb_neq (zlen c) 0)) by lia. cbn [orb]. run Hstart.
  destruct (Z.ltb_spec old_len (zlen c)) as [Hgrow | Hshrink].
  - run (usub_ok (E := Error) (zlen c) old_len ltac:(lia)).
    unfold saturating_sub. rewrite (proj2 (Z.leb_le _ (h_upper h))), (proj2 (Z.ltb_ge _ (h_lower h))) by (page_arith; lia).
    run (usub_ok (E := Error) (h_upper h) (zlen c - old_len) ltac:(page_arith; lia)).
    run (usub_ok (E := Error) s (h_upper h) Hc1).
    destruct (shift_down p h count k s (zlen c - old_len)) as (p1 & p2 & E1 & E2 & Hp2 & A2 & G2 & M2 & B2 & S2);
      try done; [page_arith; lia.. | by intros i Hi _ _; destruct (sl_cell _ _ _ Hs i Hi) |].
    run E1. run E2. run (usub_ok (E := Error) s (zlen c - old_len) ltac:(page_arith; lia)).
    destruct (Hfin p2) as (q1 & q2 & p' & F1 & F2 & F3 & Heff & Hid); [lia | |].
    + split; [done |]. split; [done |]. split; [| split; [| split]].
      * intros i Hi Hz. rewrite G2 by (page_arith; lia). destruct Hz; [done | lia].
      * intros i Hi. rewrite M2 by lia. f_equal. lia.
      * intros i Hi. apply B2. lia.
      * intros j Hj. rewrite S2 by lia. f_equal. lia.
    + replace (s + (old_len - zlen c)) with (s - (zlen c - old_len)) in F1, F2 by lia.
      replace (h_upper h + (old_len - zlen c)) with (h_upper h - (zlen c - old_len)) in F3 by lia.
      run F1. run F2. run F3. by exists p'.
  - run (usub_ok (E := Error) old_len (zlen c) ltac:(lia)).
    destruct (Z.eqb_spec (old_len - zlen c) 0) as [He | Hne]; cbn [negb].
    + destruct (Hfin p) as (q1 & q2 & p' & F1 & F2 & F3 & Heff & Hid); [lia | |].
      * rewrite He. split; [done |]. split; [done |]. split; [| split; [| split; [done |]]].
        -- intros i Hi Hz. destruct Hz; [done | lia].
        -- intros i Hi. f_equal. lia.
        -- intros j Hj. unfold moved. rewrite Z.add_0_r. by destruct (_ && _).
      * run (eq_refl : Ok (E := Error) p = Ok p). run F1. run F2. run F3. by exists p'.
    + destruct (shift_up p h count k s (old_len - zlen c)) as (p1 & p2 & p3 & E1 & E2 & E3 & Hp3 & A3 & G3 & Z3 & M3 & B3 & S3);
        try done; [page_arith; lia.. | |].
      { intros i Hi Hn Hlt. specialize (Hside i Hs Hk Hi Hn). fold s in Hside.
        rewrite (proj2 (Z.ltb_lt _ _)) in Hside by done. destruct (sl_cell _ _ _ Hs i Hi) as (_ & _ & ? & _). lia. }
      destruct (Hfin p3) as (q1 & q2 & p' & F1 & F2 & F3 & Heff & Hid); [lia | |].
      * split; [done |]. split; [done |]. split; [| split; [done | split; [| by rewrite Hcnt]]].
        -- intros i Hi Hz. destruct (Z.lt_ge_cases i (h_upper h)); [| apply Z3; lia].
           rewrite G3 by (page_arith; lia). destruct Hz; [done | lia].
        -- intros i Hi. apply B3. lia.
      * assert (Hroom : (n ← usub s (h_upper h); page ← copy_within p (h_upper h) (h_upper h + (old_len - zlen c)) n;
                         page ← page_zero page (h_upper h) (old_len - zlen c);
                         adjust_slots_before page h k s true (old_len - zlen c)) = Ok p3).
        { run (usub_ok (E := Error) s (h_upper h) Hc1). run E1. by run E2. }
        run Hroom. run F1. run F2. run F3. by exists p'.
Qed.

Lemma cnth_update a b c c' i : 0 <= i -> i <> zlen a -> cnth (a ++ c' :: b) i = cnth (a ++ c :: b) i.
Proof. intros Hi Hne. rewrite !cnth_insert by lia. by rewrite (proj2 (Z.eqb_neq i (zlen a)) Hne). Qed.

(** Disjointness survives moving everything below [k] by the same amount. *)
Lemma moved_disjoint p h cells k d m m' : slotted p h cells -> 0 <= k < zlen cells ->
  0 <= m < zlen cells -> 0 <= m' < zlen cells -> m <> k -> m' <> k -> m <> m' ->
  d <= zlen (cnth cells k) ->
  let s := start p k in
  moved k s d m (start p m) + zlen (cnth cells m) <= moved k s d m' (start p m')
  \/ moved k s d m' (start p m') + zlen (cnth cells m') <= moved k s d m (start p m).
Proof.
  intros Hs Hk Hm Hm' Hne Hne' Hmm Hd s.
  pose proof (sl_disjoint _ _ _ Hs m m' Hm Hm' Hmm).
  pose proof (record_side p h cells k m Hs Hk Hm Hne) as Hsm.
  pose proof (record_side p h cells k m' Hs Hk Hm' Hne') as Hsm'.
  unfold moved. rewrite (proj2 (Z.eqb_neq m k) Hne), (proj2 (Z.eqb_neq m' k) Hne'). cbn [negb andb].
  fold s in Hsm, Hsm'. destruct (sl_cell _ _ _ Hs m Hm) as (_ & _ & ? & _), (sl_cell _ _ _ Hs m' Hm') as (_ & _ & ? & _).
  destruct (Z.ltb_spec (start p m) s), (Z.ltb_spec (start p m') s); lia.
Qed.

Lemma replace_slotted p h a b old c : slotted p h (a ++ old :: b) -> bytes_ok c -> 0 < zlen c ->
  h_lower h <= h_upper h + (zlen old - zlen c) ->
  exists p', replace p h (zlen a) (zlen old) c = Ok (p', true)
    /\ slotted p' (replaced_header h (zlen old - zlen c)) (a ++ c :: b) /\ same_identity p p'.
Proof.
  intros Hs Hc Hlen Hfit. pose proof (slot_bound _ _ _ Hs) as (Hb1 & Hb2 & Hb3).
  pose proof (zlen_nonneg a) as Ha0. pose proof (zlen_nonneg b) as Hb0.
  set (cells := a ++ old :: b) in *. assert (Hz : zlen cells = zlen a + 1 + zlen b) by (subst cells; zlen_simp; lia).
  assert (Hz' : zlen (a ++ c :: b) = zlen cells) by (zlen_simp; lia).
  assert (Hk : 0 <= zlen a < zlen cells) by lia.
  assert (Hck : cnth cells (zlen a) = old) by apply cnth_middle.
  destruct (replace_runs p h cells (zlen a) c Hs Hk Hc Hlen) as (p' & E & Heff & Hid); rewrite Hck in *; [done |].
  destruct Heff as (Hp' & Hh' & Z1 & M & N & A & Sk & S).
  exists p'. split; [done |]. split; [| done].
  pose proof (sl_lower _ _ _ Hs) as Hlow. pose proof (sl_count _ _ _ Hs) as Hcnt.
  pose proof (sl_total _ _ _ Hs) as Htot.
  destruct (sl_cell _ _ _ Hs _ Hk) as (K1 & K2 & K3 & _). rewrite Hck in K2, K3.
  assert (Hrec : forall i, 0 <= i < zlen cells -> i <> zlen a -> cnth (a ++ c :: b) i = cnth cells i
    /\ start p' i = moved (zlen a) (start p (zlen a)) (zlen old - zlen c) i (start p i)
    /\ sub p' (start p' i) (zlen (cnth cells i)) = cnth cells i
    /\ (if start p i <? start p (zlen a)
        then h_upper h + (zlen old - zlen c) <= start p' i
             /\ start p' i + zlen (cnth cells i) <= start p (zlen a) + (zlen old - zlen c)
        else start p (zlen a) + zlen old <= start p' i /\ start p' i + zlen (cnth cells i) <= PAGE_SIZE)
    /\ 0 < zlen (cnth cells i)).
  { intros i Hi Hne. split; [by apply cnth_update; lia |]. rewrite S by lia. split; [done |].
    pose proof (relocated p p' h cells (zlen a) (zlen old - zlen c) i Hs Hp' Hk Hi Hne) as Hr. rewrite Hck in Hr.
    apply Hr; [page_arith; lia | lia | exact M | exact A]. }
  split; simpl; try done; rewrite ?Hz'; try done.
  - subst cells. rewrite total_app, total_cons in *. lia.
  - intros i Hi. destruct (Z.eq_dec i (zlen a)) as [-> | Hne].
    + rewrite Sk, cnth_middle. split_and!; done || lia.
    + destruct (Hrec i Hi Hne) as (-> & _ & Hsub & Hpos & Hl). split_and!; [| | done | done]; revert Hpos; zcase.
  - intros i j Hi Hj Hij. destruct (Z.eq_dec i (zlen a)) as [-> | Hni]; destruct (Z.eq_dec j (zlen a)) as [-> | Hnj]; [lia | | |].
    + rewrite Sk, cnth_middle. destruct (Hrec j Hj Hnj) as (-> & _ & _ & Hpos & _). revert Hpos. zcase.
    + rewrite Sk, cnth_middle. destruct (Hrec i Hi Hni) as (-> & _ & _ & Hpos & _). revert Hpos. zcase.
    + destruct (Hrec i Hi Hni) as (-> & -> & _), (Hrec j Hj Hnj) as (-> & -> & _).
      apply (moved_disjoint p h cells); try done. rewrite Hck. lia.
  - intros i Hi. apply Z1; [done |]. destruct (Z.lt_ge_cases i (h_upper h)); [left | by right].
    apply (sl_gap _ _ _ Hs). lia.
Qed.
