(* ===== verification/SlottedTheorems.v ===== *)
(** * What slotted pages guarantee

    Reading a record, building a page record by record, parsing what was
    built, and the three edits, each as one theorem about the list of records
    the page represents. *)

From stdpp Require Import base tactics numbers list strings.
From Stdlib Require Import ZArith Lia.
From S2P Require Import Prelude Errors Bytes PageHeader SlottedPage SlottedFacts.

#[local] Open Scope string_scope.
#[local] Open Scope list_scope.
#[local] Open Scope Z_scope.

(** ** Reading *)

Lemma cell_bytes p h cells i : legible p h cells -> 0 <= i < zlen cells ->
  exists r, cell p h i (zlen (cnth cells i)) = Ok r /\ br_bytes r = cnth cells i.
Proof.
  intros Hs Hi. destruct (lb_cell _ _ _ Hs i Hi) as (H1 & H2 & H3 & H4).
  pose proof (start_page_range p i (lb_page _ _ _ Hs)).
  unfold cell. run (slot_start_ok p h cells i Hs Hi). unfold checked_add.
  rewrite (proj2 (Z.leb_le _ usize_max)) by (page_arith; unfold usize_max, u64_max; lia).
  cbn [ok_or mbind outcome_bind].
  rewrite (proj2 (Z.ltb_ge _ (h_upper h))), (proj2 (Z.ltb_ge PAGE_SIZE _)) by lia. cbn [orb].
  unfold byte_range_new, checked_add.
  rewrite (proj2 (Z.leb_le _ usize_max)) by (page_arith; unfold usize_max, u64_max; lia).
  cbn [mbind option_bind]. destruct (lb_page _ _ _ Hs) as [Hz _].
  rewrite (proj2 (Z.ltb_ge (zlen p) _)), !(proj2 (Z.ltb_ge u32_max _)) by (page_arith; unfold u32_max; lia).
  eexists. split; [done |]. done.
Qed.

(** ** Building *)

(** The records pushed so far, without the header that [finish] writes. *)
Record body (p : list Z) (up : Z) (cells : list (list Z)) : Prop := {
  bd_page : page_ok p;
  bd_room : slot_at (zlen cells) <= up;
  bd_total : up + total cells = PAGE_SIZE;
  bd_cell i : 0 <= i < zlen cells ->
    up <= start p i /\ start p i + zlen (cnth cells i) <= PAGE_SIZE
    /\ 0 < zlen (cnth cells i) /\ sub p (start p i) (zlen (cnth cells i)) = cnth cells i;
  bd_disjoint i j : 0 <= i < zlen cells -> 0 <= j < zlen cells -> i <> j ->
    start p i + zlen (cnth cells i) <= start p j \/ start p j + zlen (cnth cells j) <= start p i;
  bd_gap a : slot_at (zlen cells) <= a < up -> bget p a = 0;
}.

Lemma body_slotted p p' up lvl cells : body p up cells -> page_ok p' ->
  agree p p' HEADER_SIZE PAGE_SIZE -> up <= PAGE_SIZE ->
  header_of p' = mkHeader (zlen cells) lvl (slot_at (zlen cells)) up ->
  slotted p' (mkHeader (zlen cells) lvl (slot_at (zlen cells)) up) cells.
Proof.
  intros [Hp Hroom Htot Hcell Hdis Hgap] Hp' Ha Hup Hh. pose proof (zlen_nonneg cells).
  assert (Hst : forall i, 0 <= i < zlen cells -> start p' i = start p i).
  { intros i Hi. apply (agree_u16 _ _ _ _ _ Ha); page_arith; done || lia. }
  split; simpl; try done.
  - intros i Hi. rewrite Hst by done. destruct (Hcell i Hi) as (H1 & H2 & H3 & H4). do 3 (split; [done |]).
    rewrite (agree_sub _ _ _ _ _ _ Ha); (done || page_arith; lia).
  - intros i j Hi Hj Hne. rewrite !Hst by done. by apply Hdis.
  - intros a Hr. rewrite Ha by (page_arith; lia). by apply Hgap.
Qed.

Lemma cnth_snoc cells c i : 0 <= i < zlen cells + 1 ->
  cnth (cells ++ [c]) i = if i =? zlen cells then c else cnth cells i.
Proof.
  intros Hi. rewrite cnth_app by lia. destruct (Z.eqb_spec i (zlen cells)) as [-> | Hne].
  - by rewrite Z.ltb_irrefl, Z.sub_diag.
  - by rewrite (proj2 (Z.ltb_lt _ _)) by lia.
Qed.

(** Appending: the record goes right below the others, its slot after theirs. *)
Lemma body_push p up cells c : body p up cells -> bytes_ok c -> 0 < zlen c ->
  slot_at (zlen cells + 1) <= up - zlen c ->
  exists p1 p', page_write_source p (up - zlen c) c = Ok p1
    /\ put_u16 p1 (slot_at (zlen cells)) (as_u16 (up - zlen c)) = Ok p'
    /\ body p' (up - zlen c) (cells ++ [c]) /\ agree p p' 0 HEADER_SIZE.
Proof.
  intros [Hp Hroom Htot Hcell Hdis Hgap] Hc Hlen Hfit.
  pose proof (zlen_nonneg cells) as Hn. pose proof (total_nonneg cells) as Ht.
  destruct (write_source_wrote p (up - zlen c) c) as (p1 & E1 & W1); [done | done | page_arith; lia.. |].
  rewrite as_u16_small by (page_arith; lia).
  destruct (put_u16_wrote p1 (slot_at (zlen cells)) (up - zlen c)) as (p' & E2 & W2);
    [eauto with v4 | page_arith; lia.. |].
  exists p1, p'. split; [done |]. split; [done |].
  assert (Hbyte : forall i, 0 <= i < PAGE_SIZE -> i < slot_at (zlen cells) \/ slot_at (zlen cells) + 2 <= i ->
    i < up - zlen c \/ up <= i -> bget p' i = bget p i).
  { intros i Hi ? ?. rewrite (wrote_frame_byte _ _ _ _ i W2), (wrote_frame_byte _ _ _ _ i W1);
      done || (page_arith; zlen_simp; lia). }
  split; [| intros i Hi; apply Hbyte; page_arith; lia].
  assert (Hnew : start p' (zlen cells) = up - zlen c) by (apply (wrote_u16 _ _ _ _ W2); page_arith; lia).
  assert (Hold : forall i, 0 <= i < zlen cells -> start p' i = start p i).
  { intros i Hi. unfold start. through W2. by through W1. }
  assert (Hz : zlen (cells ++ [c]) = zlen cells + 1) by (zlen_simp; lia).
  split; rewrite ?Hz.
  - eauto with v4.
  - done.
  - rewrite total_app, total_cons. simpl. lia.
  - intros i Hi. rewrite cnth_snoc by lia. destruct (Z.eqb_spec i (zlen cells)) as [-> | Hne].
    + rewrite Hnew. split_and!; [lia | lia | lia |].
      rewrite (wrote_frame _ _ _ _ _ _ W2) by (eauto with v4 || (page_arith; zlen_simp; lia)).
      apply (wrote_hit _ _ _ _ W1); page_arith; lia.
    + rewrite Hold by lia. destruct (Hcell i) as (H1 & H2 & H3 & H4); [lia |].
      split_and!; [lia | lia | lia |]. rewrite <- H4 at 2. apply sub_ext.
      1-5: try (destruct Hp as [? _]; destruct W2 as [[? _] _]; page_arith; lia).
      intros m Hm. apply Hbyte; page_arith; lia.
  - intros i j Hi Hj Hne. rewrite !cnth_snoc by lia.
    destruct (Z.eqb_spec i (zlen cells)) as [-> | Hni], (Z.eqb_spec j (zlen cells)) as [-> | Hnj]; [lia | | |];
      rewrite ?Hnew, ?(Hold i), ?(Hold j) by lia;
      [destruct (Hcell j) as (? & _); lia | destruct (Hcell i) as (? & _); lia | apply Hdis; lia].
  - intros a Ha. rewrite Hbyte by (page_arith; lia). apply Hgap. page_arith. lia.
Qed.

(** ** Identity of a page *)

Record identity (p : list Z) (ty born lvl aux : Z) : Prop := {
  id_magic : sub p 0 4 = PAGE_MAGIC;
  id_type : bget p TYPE = ty;
  id_flags : bget p FLAGS = 0;
  id_size : u16_at p HEADER_BYTES = 32;
  id_born : u64_at p BORN_TXN = born;
  id_level : u16_at p LEVEL = lvl;
  id_aux : u32_at p AUX_AT = aux;
}.

Lemma identity_same p p' ty born lvl aux : page_ok p -> page_ok p' -> same_identity p p' ->
  identity p ty born lvl aux -> identity p' ty born lvl aux.
Proof.
  intros [Hp _] [Hp' _] Hs [M T F S B L A].
  assert (Hsub : forall a n, 0 <= a -> 0 <= n ->
    a + n <= 16 \/ (18 <= a /\ a + n <= 20) \/ (24 <= a /\ a + n <= 32) -> sub p' a n = sub p a n).
  { intros a n Ha Hn Hr. apply sub_ext; try (page_arith; lia). intros i Hi. apply Hs. lia. }
  split; unfold u16_at, u32_at, u64_at in *; rewrite ?Hsub; unfold HEADER_BYTES, BORN_TXN, LEVEL, AUX_AT; try done; try lia.
  - rewrite Hs; [done | unfold TYPE; lia].
  - rewrite Hs; [done | unfold FLAGS; lia].
Qed.

Lemma wrote_field p a n v p' : wrote p a (le_bytes n v) p' -> 0 <= a -> a + Z.of_nat n <= PAGE_SIZE ->
  0 <= v < 256 ^ Z.of_nat n -> le_val (sub p' a (Z.of_nat n)) = v.
Proof.
  intros Hw Ha Hp Hv. rewrite (wrote_inside _ _ _ _ a _ Hw) by (rewrite ?zlen_le_bytes; lia).
  rewrite Z.sub_diag, <- (zlen_le_bytes n v), sub_full. by apply le_val_bytes.
Qed.

Lemma fill_page_ok : page_ok (page_fill 0).
Proof. split; [done |]. apply Forall_replicate. by split. Qed.

(** [n]-byte field writes, [set_byte] included. *)
Lemma page_write_wrote p a bs : page_ok p -> bytes_ok bs -> 0 <= a -> a + zlen bs <= PAGE_SIZE ->
  exists p', page_write p a bs = Ok p' /\ wrote p a bs p'.
Proof. intros. eexists. split; [by apply page_write_ok | by apply splice_wrote]. Qed.

Lemma set_byte_wrote p a v : page_ok p -> is_byte v -> 0 <= a -> a + 1 <= PAGE_SIZE ->
  exists p', set_byte p a v = Ok p' /\ wrote p a [v] p'.
Proof.
  intros. eexists. split; [by apply set_byte_ok |]. apply splice_wrote; [done | by constructor | done | done].
Qed.

Definition fields_ok (f : Fields) : Prop :=
  is_byte (f_page_type f) /\ 0 <= f_born_txn f <= u64_max /\ 0 <= f_item_count f <= u16_max
  /\ 0 <= f_level f <= u16_max /\ 0 <= f_lower f <= u16_max /\ 0 <= f_upper f <= u16_max
  /\ 0 <= f_aux f <= u32_max.

Ltac frame_all :=
  repeat match goal with
  | W : wrote ?p ?a ?bs ?p' |- context [bget ?p' ?i] =>
      rewrite (wrote_frame_byte p a bs p' i W) by (unfold TYPE, FLAGS, MAGIC, PAGE_MAGIC, HEADER_BYTES, BORN_TXN, AUX_AT; page_arith; zlen_simp; lia)
  | W : wrote ?p ?a ?bs ?p' |- context [sub ?p' ?i ?n] =>
      rewrite (wrote_frame p a bs p' i n W) by (eauto with v4 || (unfold TYPE, FLAGS, MAGIC, PAGE_MAGIC, HEADER_BYTES, BORN_TXN, AUX_AT; page_arith; zlen_simp; lia))
  end.

Lemma initialize_ok f : fields_ok f ->
  exists p, initialize f = Ok p /\ page_ok p
    /\ identity p (f_page_type f) (f_born_txn f) (f_level f) (f_aux f)
    /\ header_of p = mkHeader (f_item_count f) (f_level f) (f_lower f) (f_upper f)
    /\ (forall i, HEADER_SIZE <= i < PAGE_SIZE -> bget p i = 0).
Proof.
  intros (Hty & Hborn & Hcnt & Hlvl & Hlo & Hup & Haux). unfold initialize, put_u16, put_u32, put_u64.
  pose proof fill_page_ok as H0. set (p0 := page_fill 0) in *.
  assert (Hmagic : bytes_ok PAGE_MAGIC) by (unfold PAGE_MAGIC; repeat constructor; done).
  unfold u64_max, u32_max, u16_max in *.
  destruct (page_write_wrote p0 MAGIC PAGE_MAGIC) as (p1 & E1 & W1); [done | done | unfold MAGIC; lia | done |]. run E1.
  destruct (set_byte_wrote p1 TYPE (f_page_type f)) as (p2 & E2 & W2); [eauto with v4 | done | done | done |]. run E2.
  destruct (page_write_wrote p2 HEADER_BYTES (le_bytes 2 (as_u16 SIZE))) as (p3 & E3 & W3); [eauto with v4 | apply le_bytes_ok | done | done |]. run E3.
  destruct (page_write_wrote p3 BORN_TXN (le_bytes 8 (f_born_txn f))) as (p4 & E4 & W4); [eauto with v4 | apply le_bytes_ok | done | done |]. run E4.
  destruct (page_write_wrote p4 ITEM_COUNT (le_bytes 2 (f_item_count f))) as (p5 & E5 & W5); [eauto with v4 | apply le_bytes_ok | done | done |]. run E5.
  destruct (page_write_wrote p5 LEVEL (le_bytes 2 (f_level f))) as (p6 & E6 & W6); [eauto with v4 | apply le_bytes_ok | done | done |]. run E6.
  destruct (page_write_wrote p6 LOWER (le_bytes 2 (f_lower f))) as (p7 & E7 & W7); [eauto with v4 | apply le_bytes_ok | done | done |]. run E7.
  destruct (page_write_wrote p7 UPPER (le_bytes 2 (f_upper f))) as (p8 & E8 & W8); [eauto with v4 | apply le_bytes_ok | done | done |]. run E8.
  destruct (page_write_wrote p8 AUX_AT (le_bytes 4 (f_aux f))) as (p & E9 & W9); [eauto with v4 | apply le_bytes_ok | done | done |].
  rewrite E9. exists p. split; [done |]. split; [eauto with v4 |]. split; [| split].
  - split; unfold u16_at, u32_at, u64_at; frame_all.
    + apply (wrote_hit _ _ _ _ W1); done.
    + destruct W2 as [_ W2]. rewrite W2 by done. done.
    + by vm_compute.
    + apply (wrote_field _ _ 2 _ _ W3); done.
    + apply (wrote_field _ _ 8 _ _ W4); [done.. | simpl; lia].
    + apply (wrote_field _ _ 2 _ _ W6); [done.. | simpl; lia].
    + apply (wrote_field _ _ 4 _ _ W9); [done.. | simpl; lia].
  - unfold header_of, u16_at. frame_all. f_equal.
    + apply (wrote_field _ _ 2 _ _ W5); [done.. | simpl; lia].
    + apply (wrote_field _ _ 2 _ _ W6); [done.. | simpl; lia].
    + apply (wrote_field _ _ 2 _ _ W7); [done.. | simpl; lia].
    + apply (wrote_field _ _ 2 _ _ W8); [done.. | simpl; lia].
  - intros i Hi. page_arith. frame_all. apply bget_replicate. page_arith. lia.
Qed.

(** ** The whole construction *)

Fixpoint push_all (b : Builder) (cells : list (list Z)) : Result Builder :=
  match cells with
  | [] => Ok b
  | c :: cells => b ← builder_push b c; push_all b cells
  end.

Definition build_page (ty born lvl aux : Z) (cells : list (list Z)) : Result (list Z) :=
  b ← Builder_new ty born lvl aux;
  b ← push_all b cells;
  builder_finish b.

Definition cells_ok (cells : list (list Z)) : Prop := Forall (fun c => bytes_ok c /\ 0 < zlen c) cells.

Definition builder_rep (b : Builder) (cells : list (list Z)) : Prop :=
  ap_item_count (snd b) = zlen cells /\ body (fst b) (ap_upper (snd b)) cells.

Lemma push_step b done_ c : builder_rep b done_ -> bytes_ok c -> 0 < zlen c ->
  slot_at (zlen done_ + 1) + total done_ + zlen c <= PAGE_SIZE ->
  exists b', builder_push b c = Ok b' /\ builder_rep b' (done_ ++ [c])
    /\ agree (fst b) (fst b') 0 HEADER_SIZE.
Proof.
  intros [Hn Hb] Hc Hlen Hfit. destruct b as [p [n up]]. simpl in *. subst n.
  pose proof (bd_total _ _ _ Hb) as Ht. pose proof (zlen_nonneg done_). pose proof (total_nonneg done_).
  destruct (body_push p up done_ c Hb Hc Hlen) as (p1 & p' & E1 & E2 & Hb' & Ha); [lia |].
  unfold builder_push, try_push, is_empty. simpl. rewrite (proj2 (Z.eqb_neq (zlen c) 0)) by lia.
  unfold checked_add, checked_sub.
  rewrite (proj2 (Z.leb_le _ usize_max)) by (page_arith; unfold usize_max, u64_max; lia).
  rewrite (proj2 (Z.leb_le (zlen c) up)) by (page_arith; lia). cbn [ok_or mbind outcome_bind].
  rewrite (proj2 (Z.ltb_ge _ _)) by (page_arith; lia). rewrite E1. cbn [mbind outcome_bind].
  change (HEADER_SIZE + zlen done_ * 2) with (slot_at (zlen done_)). rewrite E2. cbn [mbind outcome_bind].
  eexists. split; [done |]. split; [| done]. split; [simpl; zlen_simp; lia | done].
Qed.

Lemma push_all_ok b done_ cells : builder_rep b done_ -> cells_ok cells ->
  slot_at (zlen (done_ ++ cells)) + total (done_ ++ cells) <= PAGE_SIZE ->
  exists b', push_all b cells = Ok b' /\ builder_rep b' (done_ ++ cells)
    /\ agree (fst b) (fst b') 0 HEADER_SIZE.
Proof.
  intros Hb Hc. revert b done_ Hb. induction Hc as [|c cells [Hok Hlen] Hc IH]; intros b done_ Hb Hfit.
  - exists b. rewrite app_nil_r. done.
  - assert (Hstep : slot_at (zlen done_ + 1) + total done_ + zlen c <= PAGE_SIZE).
    { rewrite zlen_app, zlen_cons, total_app, total_cons in Hfit. pose proof (zlen_nonneg cells).
      pose proof (total_nonneg cells). page_arith. lia. }
    destruct (push_step b done_ c Hb Hok Hlen Hstep) as (b1 & E1 & Hb1 & A1).
    destruct (IH b1 (done_ ++ [c]) Hb1) as (b2 & E2 & Hb2 & A2); [by rewrite <- app_assoc |].
    rewrite <- app_assoc in Hb2. exists b2. simpl. run E1. split; [done |]. split; [done |].
    by eapply agree_trans.
Qed.

Lemma build_page_ok ty born lvl aux cells :
  is_byte ty -> 0 <= born <= u64_max -> 0 <= lvl <= u16_max -> 0 <= aux <= u32_max ->
  cells_ok cells -> cells <> [] -> slot_at (zlen cells) + total cells <= PAGE_SIZE ->
  exists p, build_page ty born lvl aux cells = Ok p
    /\ slotted p (mkHeader (zlen cells) lvl (slot_at (zlen cells)) (PAGE_SIZE - total cells)) cells
    /\ identity p ty born lvl aux.
Proof.
  intros Hty Hborn Hlvl Haux Hc Hne Hfit. pose proof (zlen_nonneg cells). pose proof (total_nonneg cells).
  assert (Hpos : 0 < zlen cells) by (destruct cells; [done | rewrite zlen_cons; pose proof (zlen_nonneg cells); lia]).
  destruct (initialize_ok (mkFields ty born 0 lvl (as_u16 HEADER_SIZE) (as_u16 PAGE_SIZE) aux))
    as (p0 & E0 & Hp0 & Hid0 & _ & Hz0); [unfold fields_ok, is_byte in *; simpl; split_and!; lia || by vm_compute |].
  assert (Hb0 : builder_rep (p0, mkAppender 0 PAGE_SIZE) []).
  { split; [done |]. split; simpl; try done; try (intros; page_arith; unfold zlen in *; simpl in *; lia). }
  destruct (push_all_ok _ [] cells Hb0 Hc Hfit) as ((p1 & ap) & E1 & [Hn Hb1] & A1). simpl in Hn, Hb1, A1.
  pose proof (bd_total _ _ _ Hb1) as Ht. pose proof (bd_page _ _ _ Hb1) as Hp1.
  destruct (put_header p1 (zlen cells) (slot_at (zlen cells)) (ap_upper ap) Hp1)
    as (q1 & q2 & p & F1 & F2 & F3 & Hp & Hh & A2 & I2); [page_arith; lia.. |].
  exists p. unfold build_page, Builder_new, Appender_new. rewrite E0. cbn [mbind outcome_bind].
  cbn [app] in *. run E1. unfold builder_finish, appender_finish. cbn [fst snd]. rewrite Hn.
  rewrite (proj2 (Z.eqb_neq (zlen cells) 0)) by lia.
  change (HEADER_SIZE + zlen cells * 2) with (slot_at (zlen cells)). run F1. run F2. rewrite F3.
  assert (Hid1 : identity p1 ty born lvl aux) by (eapply identity_same; [exact Hp0 | done | by apply identity_agree | done]).
  split; [done |]. split; [| by eapply (identity_same p1)].
  replace (PAGE_SIZE - total cells) with (ap_upper ap) by lia.
  rewrite (id_level _ _ _ _ _ Hid1) in Hh. eapply body_slotted; [exact Hb1 | done | done | lia | done].
Qed.

(** A page with the right identity and a valid shape parses to its header. *)
Lemma parse_tree_ok p h cells ty born lvl aux sel branch leaf expected :
  legible p h cells -> cells <> [] -> identity p ty born lvl aux -> h_level h = lvl ->
  0 <= aux -> ty = (if lvl =? 0 then leaf else branch) -> 0 < born <= sel -> lvl <= MAX_TREE_LEVEL ->
  match expected with Some e => e = lvl | None => True end ->
  parse_tree p sel branch leaf aux expected = Ok h.
Proof.
  intros Hs Hne [M T F S B L A] Hl Haux Hty Hborn Hlvl Hexp.
  pose proof (lb_page _ _ _ Hs) as [Hz Hok].
  unfold parse_tree, inspect_tree_header, raw_header.
  rewrite (item_count_page p Hz), (level_page p Hz), (lower_page p Hz), (upper_page p Hz).
  cbn [mbind outcome_bind]. fold (header_of p). rewrite (lb_header _ _ _ Hs).
  assert (Hmagic : has_magic p = true).
  { unfold has_magic. apply bool_decide_eq_true. rewrite u32_source_page by done. unfold u32_at, MAGIC. by rewrite M. }
  assert (Hbyte : forall i, 0 <= i < 32 -> byte p i = Some (bget p i)).
  { intros i Hi. unfold byte. rewrite (proj2 (Z.ltb_lt _ _)); [done | page_arith; lia]. }
  unfold common_valid. rewrite Hz, Z.eqb_refl, Hmagic, Hbyte, F by (unfold FLAGS; lia). cbn [andb].
  rewrite bool_decide_true by done. rewrite u16_le_page by done. cbn [mbind outcome_bind]. rewrite S.
  cbn [negb]. change (32 =? as_u16 SIZE) with true. cbn [negb].
  unfold born_valid, born_txn. rewrite u64_le_page by done. cbn [mbind outcome_bind]. rewrite B.
  rewrite (proj2 (Z.eqb_neq born 0)), (proj2 (Z.leb_le born sel)) by lia. cbn [negb andb].
  unfold tree_kind_valid_at_level, kind_valid. rewrite Hl, <- Hty, Hbyte, T by (unfold TYPE; lia).
  rewrite bool_decide_true by done. rewrite u32_le_page by done. cbn [mbind outcome_bind]. rewrite A, Z.eqb_refl.
  cbn [negb]. rewrite (proj2 (Z.ltb_ge MAX_TREE_LEVEL lvl)) by lia.
  assert (Hmis : level_mismatch expected lvl = false).
  { unfold level_mismatch. destruct expected as [e|]; [subst e; by rewrite Z.eqb_refl | done]. }
  rewrite Hmis. cbn [orb]. by rewrite (legible_shape _ _ _ Hs Hne).
Qed.

(** ** The guarantees *)

(** C7: inserting a record into a slotted page succeeds exactly when the slot
    and the record fit between the slots and the records; the page then
    represents the list with the record at that position, and its identity is
    unchanged.  Otherwise the page is left alone and the answer is [false]. *)
Theorem slotted_insert_correct p h a b c :
  slotted p h (a ++ b) -> bytes_ok c -> 0 < zlen c ->
  if h_lower h + 2 + zlen c <=? h_upper h
  then exists p', insert p h (zlen a) c = Ok (p', true)
         /\ slotted p' (inserted_header h (zlen c)) (a ++ c :: b) /\ same_identity p p'
  else insert p h (zlen a) c = Ok (p, false).
Proof.
  intros Hs Hc Hlen. destruct (Z.leb_spec (h_lower h + 2 + zlen c) (h_upper h)) as [Hfit | Hfull].
  - by apply insert_slotted.
  - pose proof (zlen_nonneg b). unfold insert, is_empty.
    rewrite (sl_count _ _ _ Hs), zlen_app, (proj2 (Z.ltb_ge _ _)), (proj2 (Z.eqb_neq (zlen c) 0)) by lia.
    assert (Hno : insert_fits h (zlen c) = false).
    { unfold insert_fits, checked_sub. rewrite (proj2 (Z.eqb_neq (zlen c) 0)) by lia. cbn [negb andb].
      destruct (Z.leb_spec (zlen c) (h_upper h)); [| done]. apply Z.leb_gt. lia. }
    by rewrite Hno.
Qed.

(** Removing a record, of more than one, always succeeds; the page then
    represents the list without it, the records below moved up over the hole
    and the freed bytes zeroed. *)
Theorem slotted_remove_correct p h a b c :
  slotted p h (a ++ c :: b) -> 1 < zlen (a ++ c :: b) ->
  exists p', remove p h (zlen a) (zlen c) = Ok p'
    /\ slotted p' (removed_header h (zlen c)) (a ++ b) /\ same_identity p p'.
Proof. apply remove_slotted. Qed.

(** Replacing a record by one of any other length succeeds exactly when
    the growth fits, and then changes that record only. *)
Theorem slotted_replace_correct p h a b old c :
  slotted p h (a ++ old :: b) -> bytes_ok c -> 0 < zlen c ->
  if h_lower h <=? h_upper h + (zlen old - zlen c)
  then exists p', replace p h (zlen a) (zlen old) c = Ok (p', true)
         /\ slotted p' (replaced_header h (zlen old - zlen c)) (a ++ c :: b) /\ same_identity p p'
  else replace p h (zlen a) (zlen old) c = Ok (p, false).
Proof.
  intros Hs Hc Hlen. destruct (Z.leb_spec (h_lower h) (h_upper h + (zlen old - zlen c))) as [Hfit | Hfull].
  - by apply replace_slotted.
  - pose proof (zlen_nonneg a). pose proof (zlen_nonneg b).
    assert (Hk : 0 <= zlen a < zlen (a ++ old :: b)) by (zlen_simp; lia).
    pose proof (record_start_ok p h _ _ Hs Hk) as Hst. rewrite cnth_middle in Hst.
    destruct (sl_cell _ _ _ Hs _ Hk) as (_ & _ & Hpos & _). rewrite cnth_middle in Hpos.
    pose proof (sl_room _ _ _ Hs). pose proof (sl_lower _ _ _ Hs).
    unfold replace, is_empty. rewrite (sl_count _ _ _ Hs), (proj2 (Z.leb_gt _ (zlen a))),
      (proj2 (Z.eqb_neq (zlen old) 0)), (proj2 (Z.eqb_neq (zlen c) 0)) by lia. cbn [orb].
    run Hst. rewrite (proj2 (Z.ltb_lt (zlen old) (zlen c))) by lia.
    run (usub_ok (E := Error) (zlen c) (zlen old) ltac:(lia)).
    assert (Hsat : saturating_sub (h_upper h) (zlen c - zlen old) <? h_lower h = true).
    { apply Z.ltb_lt. unfold saturating_sub. destruct (Z.leb_spec (zlen c - zlen old) (h_upper h)); [lia |].
      page_arith. lia. }
    by rewrite Hsat.
Qed.

(** C10: a page built by pushing records in order holds exactly them, parses
    under the identity it was built with, and every record reads back. *)
Theorem build_parse_roundtrip ty born lvl aux cells sel branch leaf :
  is_byte ty -> 0 <= born <= u64_max -> 0 <= lvl <= MAX_TREE_LEVEL -> 0 <= aux <= u32_max ->
  cells_ok cells -> cells <> [] -> slot_at (zlen cells) + total cells <= PAGE_SIZE ->
  ty = (if lvl =? 0 then leaf else branch) -> 0 < born <= sel ->
  exists p h, build_page ty born lvl aux cells = Ok p
    /\ parse_tree p sel branch leaf aux (Some lvl) = Ok h /\ slotted p h cells
    /\ forall i, 0 <= i < zlen cells ->
         exists r, cell p h i (zlen (cnth cells i)) = Ok r /\ br_bytes r = cnth cells i.
Proof.
  intros Hty Hborn Hlvl Haux Hc Hne Hfit Hkind Hsel.
  assert (Hlvl' : 0 <= lvl <= u16_max) by (unfold MAX_TREE_LEVEL, u16_max in *; lia).
  destruct (build_page_ok ty born lvl aux cells) as (p & E & Hs & Hid); try done.
  eexists p, _. split; [done |]. split; [apply (parse_tree_ok _ _ cells ty born lvl); try apply (slotted_legible _ _ _ Hs); done || lia |].
  split; [done |]. intros i Hi. by apply (cell_bytes _ _ _ _ Hs).
Qed.

(** ** Concrete pages *)

Definition two_records : list (list Z) := [[1; 2; 3]; [4; 5]].

Lemma two_records_page : exists p, build_page 2 7 0 4 two_records = Ok p
  /\ slotted p (mkHeader 2 0 36 4091) two_records.
Proof.
  destruct (build_page_ok 2 7 0 4 two_records) as (p & E & Hs & _); try (by vm_compute).
  { repeat constructor; done. }
  by exists p.
Qed.

Lemma slotted_insert_correct_witness : exists p p', build_page 2 7 0 4 two_records = Ok p
  /\ insert p (mkHeader 2 0 36 4091) 1 [9; 9] = Ok (p', true)
  /\ slotted p' (mkHeader 3 0 38 4089) [[1; 2; 3]; [9; 9]; [4; 5]].
Proof.
  destruct two_records_page as (p & E & Hs). exists p.
  destruct (slotted_insert_correct p _ [[1; 2; 3]] [[4; 5]] [9; 9] Hs) as (p' & E' & Hs' & _);
    [repeat constructor; done | done |].
  exists p'. split; [done |]. split; [done |]. exact Hs'.
Defined.

Lemma slotted_remove_correct_witness : exists p p', build_page 2 7 0 4 two_records = Ok p
  /\ remove p (mkHeader 2 0 36 4091) 0 3 = Ok p' /\ slotted p' (mkHeader 1 0 34 4094) [[4; 5]].
Proof.
  destruct two_records_page as (p & E & Hs). exists p.
  destruct (slotted_remove_correct p _ [] [[4; 5]] [1; 2; 3] Hs) as (p' & E' & Hs' & _); [done |].
  exists p'. split; [done |]. split; [done |]. exact Hs'.
Defined.

Lemma slotted_replace_correct_witness : exists p p', build_page 2 7 0 4 two_records = Ok p
  /\ replace p (mkHeader 2 0 36 4091) 0 3 [8; 8; 8; 8] = Ok (p', true)
  /\ slotted p' (mkHeader 2 0 36 4090) [[8; 8; 8; 8]; [4; 5]].
Proof.
  destruct two_records_page as (p & E & Hs). exists p.
  destruct (slotted_replace_correct p _ [] [[4; 5]] [1; 2; 3] [8; 8; 8; 8] Hs) as (p' & E' & Hs' & _);
    [repeat constructor; done | done |].
  exists p'. split; [done |]. split; [done |]. exact Hs'.
Defined.

Lemma build_parse_roundtrip_witness : exists p h, build_page 2 7 0 4 two_records = Ok p
  /\ parse_tree p 7 1 2 4 (Some 0) = Ok h /\ slotted p h two_records
  /\ forall i, 0 <= i < zlen two_records ->
       exists r, cell p h i (zlen (cnth two_records i)) = Ok r /\ br_bytes r = cnth two_records i.
Proof.
  apply (build_parse_roundtrip 2 7 0 4 two_records 7 1 2); try (by vm_compute).
  repeat constructor; done.
Defined.
