(* ===== verification/LayoutFacts.v ===== *)
(** * Correctness of the layout inspection

    [inspect_layout] walks the records of an untrusted page with a bitmap of
    the bytes they occupy, 64 bytes to a word.  Here: the masks mark exactly
    the bytes of an extent, the run loop over the complement visits exactly
    the bytes that are in no record, and an accepted page has disjoint records
    inside the record area; [reserved_nonzero] tells whether any byte outside
    them is set. *)

From stdpp Require Import base tactics numbers list strings.
From Stdlib Require Import ZArith Lia.
From S2P Require Import Prelude Errors Bytes PageHeader SlottedPage SlottedFacts.

#[local] Open Scope string_scope.
#[local] Open Scope list_scope.
#[local] Open Scope Z_scope.

(** ** Masks *)

Definition word_ok (w : Z) : Prop := 0 <= w < 2 ^ 64.
Definition bits_ok (bits : list Z) : Prop := zlen bits = 64 /\ Forall word_ok bits.
Definition marked (bits : list Z) (i : Z) : bool := Z.testbit (bget bits (i / 64)) (i mod 64).

Lemma u64_max_bit j : 0 <= j -> Z.testbit u64_max j = (j <? 64).
Proof.
  intros Hj. change u64_max with (Z.ones 64). rewrite Z.testbit_ones by lia.
  rewrite (proj2 (Z.leb_le 0 j)) by lia. done.
Qed.

Lemma mask_from_bit n j : 0 <= n -> 0 <= j < 64 -> Z.testbit (mask_from n) j = (n <=? j).
Proof.
  intros Hn Hj. unfold mask_from. rewrite Z.land_spec, Z.shiftl_spec, (u64_max_bit j) by lia.
  rewrite (proj2 (Z.ltb_lt j 64)), andb_true_r by lia. destruct (Z.leb_spec n j).
  - rewrite u64_max_bit by lia. apply Z.ltb_lt. lia.
  - apply Z.testbit_neg_r. lia.
Qed.

Lemma end_mask_bit b j : 0 <= b < 64 -> 0 <= j < 64 ->
  Z.testbit (end_mask b) j = (b =? 0) || (j <? b).
Proof.
  intros Hb Hj. unfold end_mask. destruct (Z.eqb_spec b 0); cbn [orb].
  - rewrite u64_max_bit by lia. apply Z.ltb_lt. lia.
  - rewrite Z.shiftl_1_l. change (2 ^ b - 1) with (Z.pred (2 ^ b)). rewrite <- Z.ones_equiv, Z.testbit_ones by lia.
    by rewrite (proj2 (Z.leb_le 0 j)) by lia.
Qed.

Lemma word_ok_land a b : word_ok a -> 0 <= b -> word_ok (Z.land a b).
Proof.
  unfold word_ok. intros Ha Hb. split; [apply Z.land_nonneg; lia |].
  destruct (Z.eq_dec (Z.land a b) 0) as [-> | Hne]; [lia |].
  apply Z.log2_lt_pow2; [pose proof (proj2 (Z.land_nonneg a b)); lia |].
  pose proof (Z.log2_land a b ltac:(lia) Hb).
  destruct (Z.eq_dec a 0) as [-> | Ha0]; [done |].
  pose proof (proj1 (Z.log2_lt_pow2 a 64 ltac:(lia)) ltac:(lia)). lia.
Qed.

Lemma word_ok_lor a b : word_ok a -> word_ok b -> word_ok (Z.lor a b).
Proof.
  unfold word_ok. intros Ha Hb. split; [apply Z.lor_nonneg; lia |].
  destruct (Z.eq_dec (Z.lor a b) 0) as [-> | Hne]; [lia |].
  apply Z.log2_lt_pow2; [pose proof (proj2 (Z.lor_nonneg a b)); lia |].
  rewrite Z.log2_lor by lia. apply Z.max_lub_lt;
  [destruct (Z.eq_dec a 0) as [-> | ?] | destruct (Z.eq_dec b 0) as [-> | ?]]; try (simpl; lia);
  apply Z.log2_lt_pow2; lia.
Qed.

Lemma log2_word w : word_ok w -> Z.log2 w < 64.
Proof.
  intros [H0 H1]. destruct (Z.eq_dec w 0) as [-> | Hne]; [by simpl |]. apply Z.log2_lt_pow2; lia.
Qed.

Lemma word_ok_lxor a b : word_ok a -> word_ok b -> word_ok (Z.lxor a b).
Proof.
  intros Ha Hb. pose proof (log2_word a Ha). pose proof (log2_word b Hb). unfold word_ok in *.
  assert (Hn : 0 <= Z.lxor a b) by (apply Z.lxor_nonneg; lia). split; [done |].
  destruct (Z.eq_dec (Z.lxor a b) 0) as [-> | Hne]; [done |]. apply Z.log2_lt_pow2; [lia |].
  pose proof (Z.log2_lxor a b ltac:(lia) ltac:(lia)). lia.
Qed.

Lemma u64_max_ok : word_ok u64_max.
Proof. by split. Qed.

Lemma mask_from_ok n : 0 <= n -> word_ok (mask_from n).
Proof.
  intros Hn. unfold mask_from. rewrite Z.land_comm. apply word_ok_land; [apply u64_max_ok |].
  apply Z.shiftl_nonneg. done.
Qed.

Lemma end_mask_ok b : 0 <= b < 64 -> word_ok (end_mask b).
Proof.
  intros Hb. unfold end_mask. destruct (Z.eqb_spec b 0); [apply u64_max_ok |].
  rewrite Z.shiftl_1_l. unfold word_ok. pose proof (Z.pow_pos_nonneg 2 b). 
  assert (2 ^ b <= 2 ^ 64) by (apply Z.pow_le_mono_r; lia). lia.
Qed.

(** ** Marking *)

Definition span := Z -> bool.
Definition in_word (w mask : Z) : span := fun i => (i / 64 =? w) && Z.testbit mask (i mod 64).
Definition in_extent (s e : Z) : span := fun i => (s <=? i) && (i <? e).

(** What one marking step does: [Some] when nothing of [f] was marked, and then
    exactly [f] is added. *)
Definition marks (bits : list Z) (f : span) (res : option (list Z)) : Prop :=
  match res with
  | Some bits' => bits_ok bits'
      /\ (forall i, 0 <= i < PAGE_SIZE -> f i = true -> marked bits i = false)
      /\ (forall i, 0 <= i < PAGE_SIZE -> marked bits' i = marked bits i || f i)
  | None => exists i, 0 <= i < PAGE_SIZE /\ f i = true /\ marked bits i = true
  end.

Lemma bget_word bits i : bits_ok bits -> word_ok (bget bits i).
Proof.
  intros [_ Hw]. unfold bget. rewrite Forall_nth in Hw.
  destruct (Nat.lt_ge_cases (Z.to_nat i) (length bits)); [auto |].
  rewrite nth_overflow by lia. unfold word_ok. lia.
Qed.

Lemma mark_bits_marks bits w mask : bits_ok bits -> 0 <= w < 64 -> word_ok mask ->
  marks bits (in_word w mask) (mark_bits bits w mask).
Proof.
  intros Hb Hw Hm. pose proof (bget_word bits w Hb) as Hword. destruct Hb as [Hz Hall].
  unfold mark_bits, mark_word. destruct (Z.eqb_spec (Z.land (bget bits w) mask) 0) as [He | Hne]; cbn [negb mbind option_bind].
  - assert (Hbit : forall j, 0 <= j -> Z.testbit (bget bits w) j && Z.testbit mask j = false).
    { intros j Hj. by rewrite <- Z.land_spec, He, Z.bits_0. }
    split; [split |].
    + rewrite zlen_splice; rewrite ?zlen_cons, ?zlen_nil; lia.
    + unfold splice. rewrite !Forall_app. split; [by apply Forall_take |].
      split; [constructor; [by apply word_ok_lor | constructor] | by apply Forall_drop].
    + split.
      * intros i Hi. unfold in_word, marked. intros [<-%Z.eqb_eq Hmb]%andb_true_iff.
        specialize (Hbit (i mod 64) ltac:(apply Z.mod_pos_bound; lia)). rewrite Hmb, andb_true_r in Hbit. done.
      * intros i Hi. unfold in_word, marked. assert (0 <= i / 64) by (apply Z.div_pos; lia).
        rewrite bget_splice by (rewrite ?zlen_cons, ?zlen_nil; lia). rewrite zlen_cons, zlen_nil.
        destruct (Z.eqb_spec (i / 64) w) as [-> | Hne]; cbn [andb].
        -- rewrite (proj2 (Z.leb_le w w)), (proj2 (Z.ltb_lt w _)) by lia. cbn [andb]. rewrite Z.sub_diag.
           apply Z.lor_spec.
        -- replace ((w <=? i / 64) && (i / 64 <? w + (1 + 0))) with false; [by rewrite orb_false_r | zcase].
  - assert (Hex : exists j, 0 <= j < 64 /\ Z.testbit (bget bits w) j = true /\ Z.testbit mask j = true).
    { assert (Hpos : 0 < Z.land (bget bits w) mask).
      { pose proof (proj2 (Z.land_nonneg (bget bits w) mask)). destruct Hword, Hm. lia. }
      exists (Z.log2 (Z.land (bget bits w) mask)). pose proof (Z.bit_log2 _ Hpos) as Hl.
      rewrite Z.land_spec in Hl. apply andb_true_iff in Hl. split; [| done].
      split; [apply Z.log2_nonneg |]. apply Z.log2_lt_pow2; [done |].
      apply word_ok_land; [done | destruct Hm; lia]. }
    destruct Hex as (j & Hj & H1 & H2). exists (w * 64 + j). unfold in_word, marked.
    assert (Hd : (w * 64 + j) / 64 = w) by (rewrite Z.div_add_l, Z.div_small; lia).
    assert (Hmod : (w * 64 + j) mod 64 = j) by (rewrite Z.add_comm, Z_mod_plus_full, Z.mod_small; lia).
    rewrite Hd, Hmod, Z.eqb_refl, H1, H2. page_arith. split; [lia | done].
Qed.

Lemma marks_ext bits f g r : (forall i, 0 <= i < PAGE_SIZE -> f i = g i) -> marks bits f r -> marks bits g r.
Proof.
  intros Hfg. destruct r as [bits'|]; simpl.
  - intros (Hok & Hfree & Hm). split; [done |]. split; intros i Hi; rewrite <- Hfg by done; auto.
  - intros (i & Hi & Hf & Hmk). exists i. by rewrite <- Hfg.
Qed.

Lemma marks_bind bits f g r (k : list Z -> option (list Z)) :
  marks bits f r -> (forall bits', r = Some bits' -> bits_ok bits' -> marks bits' g (k bits')) ->
  (forall i, 0 <= i < PAGE_SIZE -> f i && g i = false) ->
  marks bits (fun i => f i || g i) (r ≫= k).
Proof.
  intros Hf Hk Hd. destruct r as [bits1|]; simpl in Hf |- *.
  - destruct Hf as (Hok & Hfree & Hm). specialize (Hk bits1 eq_refl Hok).
    destruct (k bits1) as [bits2|]; simpl in Hk |- *.
    + destruct Hk as (Hok2 & Hfree2 & Hm2). split; [done |]. split; intros i Hi.
      * intros [Hfi | Hgi]%orb_true_iff; [auto |]. specialize (Hfree2 i Hi Hgi).
        rewrite Hm in Hfree2 by done. by apply orb_false_iff in Hfree2 as [? _].
      * rewrite Hm2, Hm by done. by rewrite orb_assoc.
    + destruct Hk as (i & Hi & Hgi & Hmk). exists i. split; [done |]. rewrite Hgi, orb_true_r. split; [done |].
      rewrite Hm in Hmk by done. specialize (Hd i Hi). rewrite Hgi, andb_true_r in Hd.
      by rewrite Hd, orb_false_r in Hmk.
  - destruct Hf as (i & Hi & Hfi & Hmk). exists i. by rewrite Hfi.
Qed.

Lemma in_word_full w i : 0 <= i -> in_word w u64_max i = (i / 64 =? w).
Proof.
  intros Hi. unfold in_word. pose proof (Z.mod_pos_bound i 64 ltac:(lia)).
  rewrite u64_max_bit, (proj2 (Z.ltb_lt _ 64)) by lia. apply andb_true_r.
Qed.

Lemma mark_full_marks n : forall bits w, bits_ok bits -> 0 <= w -> w + Z.of_nat n <= 64 ->
  marks bits (fun i => (w <=? i / 64) && (i / 64 <? w + Z.of_nat n)) (mark_full bits w n).
Proof.
  induction n as [|n IH]; intros bits w Hb Hw Hn.
  - simpl. split; [done |]. split; intros i Hi; rewrite Z.add_0_r.
    + zcase.
    + replace ((w <=? i / 64) && (i / 64 <? w)) with false; [by rewrite orb_false_r | zcase].
  - cbn [mark_full]. eapply marks_ext; [| eapply marks_bind; [apply mark_bits_marks; [done | lia | apply u64_max_ok] | |]].
    2: { intros bits' _ Hb'. apply (IH bits' (w + 1) Hb'); lia. }
    + intros i Hi. simpl. rewrite in_word_full by lia. zcase.
    + intros i Hi. simpl. rewrite in_word_full by lia. zcase.
Qed.

(** The masks of [mark_extent] cover exactly the bytes of the extent. *)
Lemma mark_extent_marks bits s e : bits_ok bits -> 0 <= s -> s < e -> e <= PAGE_SIZE ->
  marks bits (in_extent s e) (mark_extent bits s e).
Proof.
  intros Hb Hs Hlt He. unfold mark_extent.
  rewrite (proj2 (Z.leb_gt e s)), (proj2 (Z.ltb_ge PAGE_SIZE e)) by lia. cbn [orb]. cbv zeta.
  pose proof (Z.mod_pos_bound s 64 ltac:(lia)) as Hsm. pose proof (Z.mod_pos_bound e 64 ltac:(lia)) as Hem.
  pose proof (Z.div_mod s 64 ltac:(lia)) as Hsd. pose proof (Z.div_mod e 64 ltac:(lia)) as Hed.
  pose proof (Z.div_mod (e - 1) 64 ltac:(lia)) as Hld. pose proof (Z.mod_pos_bound (e - 1) 64 ltac:(lia)) as Hlm.
  assert (Hlast : forall j, 0 <= j < 64 -> Z.testbit (end_mask (e mod 64)) j = (64 * ((e - 1) / 64) + j <? e)).
  { intros j Hj. rewrite end_mask_bit by lia. destruct (Z.eqb_spec (e mod 64) 0); cbn [orb]; zcase; lia. }
  assert (Hfirst : forall j, 0 <= j < 64 -> Z.testbit (mask_from (s mod 64)) j = (s <=? 64 * (s / 64) + j)).
  { intros j Hj. rewrite mask_from_bit by lia. zcase. }
  set (a := s / 64) in *. set (z := (e - 1) / 64) in *.
  assert (Ha : 0 <= a < 64) by (page_arith; lia). assert (Hz : 0 <= z < 64) by (page_arith; lia).
  assert (Hpos : forall i, 0 <= i < PAGE_SIZE -> 0 <= i mod 64 < 64 /\ i = 64 * (i / 64) + i mod 64).
  { intros i Hi. split; [apply Z.mod_pos_bound; lia | apply Z.div_mod; lia]. }
  destruct (Z.eqb_spec a z) as [Heq | Hne].
  - eapply marks_ext; [| apply mark_bits_marks; [done | lia |]].
    + intros i Hi. destruct (Hpos i Hi) as [Hm Hd]. unfold in_word, in_extent.
      rewrite Z.land_spec, Hfirst, Hlast by lia. zcase.
    + apply word_ok_land; [apply mask_from_ok; lia | destruct (end_mask_ok (e mod 64)); lia].
  - eapply marks_ext; [| eapply marks_bind; [apply mark_bits_marks; [done | lia | apply mask_from_ok; lia] | |]].
    2: { intros b1 _ Hb1. eapply marks_bind; [apply mark_full_marks; [done | lia | lia] | |].
         - intros b2 _ Hb2. apply mark_bits_marks; [done | lia | apply end_mask_ok; lia].
         - intros i Hi. simpl. unfold in_word. zcase. }
    + intros i Hi. destruct (Hpos i Hi) as [Hm Hd]. simpl. unfold in_word, in_extent.
      rewrite Hfirst, Hlast by lia. rewrite Z2Nat.id by lia. zcase.
    + intros i Hi. simpl. unfold in_word. rewrite Z2Nat.id by lia. zcase.
      all: rewrite ?andb_false_r; done.
Qed.

(** ** The bytes in no record *)

Lemma trailing_zeros_spec n : forall v, 0 <= v -> (exists j, 0 <= j < Z.of_nat n /\ Z.testbit v j = true) ->
  0 <= trailing_zeros n v < Z.of_nat n /\ Z.testbit v (trailing_zeros n v) = true
  /\ forall j, 0 <= j < trailing_zeros n v -> Z.testbit v j = false.
Proof.
  induction n as [|n IH]; intros v Hv (j & Hj & Hb); [lia |]. cbn [trailing_zeros].
  destruct (Z.testbit v 0) eqn:H0; [split_and!; [lia | lia | done | lia] |].
  assert (Hj0 : j <> 0) by congruence.
  destruct (IH (Z.shiftr v 1)) as (H1 & H2 & H3).
  - by apply Z.shiftr_nonneg.
  - exists (j - 1). split; [lia |]. rewrite Z.shiftr_spec, Z.sub_add by lia. done.
  - rewrite Z.shiftr_spec in H2 by lia. split; [lia |]. split; [by rewrite Z.add_comm |].
    intros i Hi. destruct (Z.eq_dec i 0) as [-> | Hne]; [done |].
    specialize (H3 (i - 1) ltac:(lia)). rewrite Z.shiftr_spec, Z.sub_add in H3 by lia. done.
Qed.

Lemma trailing_ones_spec n : forall v, 0 <= v ->
  0 <= trailing_ones n v <= Z.of_nat n
  /\ (forall j, 0 <= j < trailing_ones n v -> Z.testbit v j = true)
  /\ (trailing_ones n v < Z.of_nat n -> Z.testbit v (trailing_ones n v) = false).
Proof.
  induction n as [|n IH]; intros v Hv; [simpl; split_and!; lia |]. cbn [trailing_ones].
  destruct (Z.testbit v 0) eqn:H0; [| split_and!; [lia | lia | lia | done]].
  destruct (IH (Z.shiftr v 1)) as (H1 & H2 & H3); [by apply Z.shiftr_nonneg |].
  split; [lia |]. split.
  - intros j Hj. destruct (Z.eq_dec j 0) as [-> | Hne]; [done |].
    specialize (H2 (j - 1) ltac:(lia)). rewrite Z.shiftr_spec, Z.sub_add in H2 by lia. done.
  - intros Hlt. specialize (H3 ltac:(lia)). rewrite Z.shiftr_spec in H3 by lia. by rewrite Z.add_comm.
Qed.

Lemma all_zero_spec p a n : page_ok p -> 0 <= a -> 0 <= n -> a + n <= PAGE_SIZE ->
  all_zero p a n = true <-> forall i, a <= i < a + n -> bget p i = 0.
Proof.
  intros [Hz Hok] Ha Hn Hle. unfold all_zero, checked_add.
  rewrite (proj2 (Z.leb_le _ usize_max)) by (page_arith; unfold usize_max, u64_max; lia).
  rewrite Hz, (proj2 (Z.ltb_ge PAGE_SIZE _)) by lia.
  rewrite pointer_all_zero_spec by by apply bytes_ok_sub. rewrite forallb_forall. split.
  - intros Hf i Hi. assert (Hin : In (bget (sub p a n) (i - a)) (sub p a n)).
    { unfold bget. apply nth_In. pose proof (zlen_sub p a n). unfold zlen in *. lia. }
    apply Hf, Z.eqb_eq in Hin. rewrite bget_sub in Hin by lia. by replace (a + (i - a)) with i in Hin by lia.
  - intros Hall b Hb. apply Z.eqb_eq. apply In_nth with (d := 0) in Hb as (j & Hj & <-).
    pose proof (zlen_sub p a n ltac:(lia) ltac:(lia) ltac:(lia)) as Hzs. unfold zlen in Hzs.
    rewrite <- (Nat2Z.id j). fold (bget (sub p a n) (Z.of_nat j)). rewrite bget_sub by lia. apply Hall. lia.
Qed.

(** Clearing a run of set bits. *)
Lemma run_mask_bit bit len j : 0 <= bit -> 0 < len -> bit + len <= 64 -> 0 <= j < 64 ->
  Z.testbit (if len =? 64 then u64_max else Z.shiftl (Z.shiftl 1 len - 1) bit) j
  = (bit <=? j) && (j <? bit + len).
Proof.
  intros Hb Hl Hbl Hj. destruct (Z.eqb_spec len 64).
  - rewrite u64_max_bit by lia. zcase.
  - rewrite Z.shiftl_spec, Z.shiftl_1_l by lia. change (2 ^ len - 1) with (Z.pred (2 ^ len)).
    rewrite <- Z.ones_equiv. destruct (Z.leb_spec bit j); cbn [andb].
    + rewrite Z.testbit_ones by lia. zcase.
    + apply Z.testbit_neg_r. lia.
Qed.

Lemma word_bit_high w j : word_ok w -> 64 <= j -> Z.testbit w j = false.
Proof.
  intros [H0 H1] Hj. destruct (Z.eq_dec w 0) as [-> | Hne]; [apply Z.bits_0 |].
  apply Z.bits_above_log2; [lia |]. pose proof (proj1 (Z.log2_lt_pow2 w 64 ltac:(lia)) H1). lia.
Qed.

Lemma word_nonzero_bit w : word_ok w -> w <> 0 -> exists j, 0 <= j < 64 /\ Z.testbit w j = true.
Proof.
  intros [H0 H1] Hne. exists (Z.log2 w). split; [| apply Z.bit_log2; lia].
  split; [apply Z.log2_nonneg | apply Z.log2_lt_pow2; lia].
Qed.

(** The run loop finds a set byte exactly when one of the bytes of the word is
    set; after [k] cleared bits, [64 - k] iterations and one test are enough. *)
Lemma unmarked_runs_spec fuel : forall p base w k, page_ok p -> 0 <= base -> base + 64 <= PAGE_SIZE ->
  word_ok w -> 0 <= k <= 64 -> (forall j, 0 <= j < k -> Z.testbit w j = false) ->
  64 - k < Z.of_nat fuel ->
  unmarked_runs fuel p base w = false <->
  forall j, 0 <= j < 64 -> Z.testbit w j = true -> bget p (base + j) = 0.
Proof.
  induction fuel as [|fuel IH]; intros p base w k Hp Hb Hbp Hw Hk Hclear Hfuel; [lia |].
  cbn [unmarked_runs]. destruct (Z.eqb_spec w 0) as [-> | Hne].
  { split; [| done]. intros _ j Hj. by rewrite Z.bits_0. }
  destruct (trailing_zeros_spec 64 w) as (Hz1 & Hz2 & Hz3); [destruct Hw; lia | by apply word_nonzero_bit |].
  cbv zeta. set (bit := trailing_zeros 64 w) in *.
  assert (Hsh : 0 <= Z.shiftr w bit) by (apply Z.shiftr_nonneg; destruct Hw; lia).
  destruct (trailing_ones_spec 64 (Z.shiftr w bit) Hsh) as (Ho1 & Ho2 & Ho3).
  set (len := trailing_ones 64 (Z.shiftr w bit)) in *.
  assert (Hlen : 0 < len).
  { destruct (Z.eq_dec len 0) as [He | Hn0]; [| lia]. rewrite He in Ho3. specialize (Ho3 ltac:(lia)).
    rewrite Z.shiftr_spec, Z.add_0_l in Ho3 by lia. congruence. }
  assert (Hrun : forall j, bit <= j < bit + len -> Z.testbit w j = true).
  { intros j Hj. specialize (Ho2 (j - bit) ltac:(lia)). rewrite Z.shiftr_spec, Z.sub_add in Ho2 by lia. done. }
  assert (Hbl : bit + len <= 64).
  { destruct (Z.le_gt_cases (bit + len) 64); [done |]. specialize (Hrun 64 ltac:(lia)).
    rewrite word_bit_high in Hrun by (done || lia). done. }
  assert (Hkbit : k <= bit).
  { destruct (Z.le_gt_cases k bit); [done |]. rewrite Hclear in Hz2 by lia. done. }
  destruct (all_zero p (base + bit) len) eqn:Haz; cbn [negb].
  - rewrite all_zero_spec in Haz by (done || lia).
    set (w' := Z.land w (Z.lxor u64_max (if len =? 64 then u64_max else Z.shiftl (Z.shiftl 1 len - 1) bit))).
    assert (Hw' : forall j, 0 <= j < 64 -> Z.testbit w' j = Z.testbit w j && negb ((bit <=? j) && (j <? bit + len))).
    { intros j Hj. subst w'. rewrite Z.land_spec, Z.lxor_spec, u64_max_bit, run_mask_bit by lia.
      rewrite (proj2 (Z.ltb_lt j 64)) by lia. by destruct (_ && _). }
    assert (Hwok : word_ok w').
    { apply word_ok_land; [done |]. apply Z.lxor_nonneg. split; intros _; [| done].
      destruct (len =? 64); [done |]. apply Z.shiftl_nonneg. rewrite Z.shiftl_1_l.
      pose proof (Z.pow_pos_nonneg 2 len). lia. }
    rewrite (IH p base w' (bit + len)); try done; try lia.
    + split; intros Hall j Hj Hbj.
      * destruct ((bit <=? j) && (j <? bit + len)) eqn:Hin.
        -- apply Haz. apply andb_true_iff in Hin as [?%Z.leb_le ?%Z.ltb_lt]. lia.
        -- apply Hall; [done |]. by rewrite Hw', Hbj, Hin by lia.
      * apply Hall; [done |]. rewrite Hw' in Hbj by lia. by apply andb_true_iff in Hbj as [? _].
    + intros j Hj. rewrite Hw' by lia. destruct (Z.lt_ge_cases j bit); [by rewrite Hz3 by lia |].
      rewrite (proj2 (Z.leb_le bit j)), (proj2 (Z.ltb_lt j _)) by lia. apply andb_false_r.
  - split; [done |]. intros Hall. exfalso. assert (Hno : all_zero p (base + bit) len = true); [| congruence].
    apply all_zero_spec; [done | lia | lia | lia |]. intros i Hi.
    specialize (Hall (i - base) ltac:(lia)). replace (base + (i - base)) with i in Hall by lia.
    apply Hall. apply Hrun. lia.
Qed.

Lemma unmarked_word_spec p used start_ wi : page_ok p -> bits_ok used -> 0 <= start_ -> 0 <= wi < 64 ->
  unmarked_word p used start_ wi = false <->
  forall j, 0 <= j < 64 -> start_ <= wi * 64 + j -> marked used (wi * 64 + j) = false -> bget p (wi * 64 + j) = 0.
Proof.
  intros Hp Hu Hs Hwi. unfold unmarked_word. cbv zeta. pose proof (bget_word used wi Hu) as Hbw.
  set (in_range := if wi * 64 <? start_ then mask_from (start_ - wi * 64) else u64_max).
  assert (Hin : forall j, 0 <= j < 64 -> Z.testbit in_range j = (start_ <=? wi * 64 + j)).
  { intros j Hj. subst in_range.
    destruct (Z.ltb_spec (wi * 64) start_); [rewrite mask_from_bit by lia | rewrite u64_max_bit by lia]; zcase. }
  assert (Hir : 0 <= in_range).
  { subst in_range. destruct (Z.ltb_spec (wi * 64) start_); [apply mask_from_ok; lia | done]. }
  rewrite (unmarked_runs_spec 65 p (wi * 64) _ 0); try done; try lia; try (page_arith; lia).
  - assert (Hbit : forall j, 0 <= j < 64 ->
      Z.testbit (Z.land (Z.lxor u64_max (bget used wi)) in_range) j
      = negb (marked used (wi * 64 + j)) && (start_ <=? wi * 64 + j)).
    { intros j Hj. rewrite Z.land_spec, Z.lxor_spec, u64_max_bit, Hin by lia.
      rewrite (proj2 (Z.ltb_lt j 64)) by lia. unfold marked.
      assert (Hd : (wi * 64 + j) / 64 = wi) by (rewrite Z.div_add_l, Z.div_small; lia).
      assert (Hmod : (wi * 64 + j) mod 64 = j) by (rewrite Z.add_comm, Z_mod_plus_full, Z.mod_small; lia).
      rewrite Hd, Hmod. by destruct (Z.testbit (bget used wi) j). }
    split; intros Hall j Hj.
    + intros Hge Hm. apply Hall; [done |]. rewrite Hbit, Hm by done. by apply Z.leb_le.
    + rewrite Hbit by done. intros [Hm%negb_true_iff Hge%Z.leb_le]%andb_true_iff. by apply Hall.
  - apply word_ok_land; [| done]. by apply word_ok_lxor.
Qed.

(** No byte at or after [start_] outside the marked ones is set. *)
Lemma unmarked_nonzero_spec p used start_ : page_ok p -> bits_ok used -> 0 <= start_ <= PAGE_SIZE ->
  unmarked_nonzero p used start_ = false <->
  forall i, start_ <= i < PAGE_SIZE -> marked used i = false -> bget p i = 0.
Proof.
  intros Hp Hu Hs. unfold unmarked_nonzero.
  pose proof (fun wi => unmarked_word_spec p used start_ wi Hp Hu ltac:(lia)) as Hword.
  rewrite <- not_true_iff_false, existsb_exists. split.
  - intros Hno i Hi Hm. pose proof (Z.mod_pos_bound i 64 ltac:(lia)). pose proof (Z.div_mod i 64 ltac:(lia)).
    assert (Hr : 0 <= i / 64 < 64) by (page_arith; lia).
    assert (Hf : unmarked_word p used start_ (i / 64) = false).
    { apply not_true_iff_false. intros Ht. apply Hno. exists (Z.to_nat (i / 64)). rewrite Z2Nat.id by lia. split; [| done].
      apply in_seq. pose proof (Z.div_le_mono start_ i 64 ltac:(lia) ltac:(lia)).
      pose proof (Z.div_pos start_ 64 ltac:(lia) ltac:(lia)). lia. }
    rewrite Hword in Hf by done. specialize (Hf (i mod 64)). replace (i / 64 * 64 + i mod 64) with i in Hf by lia.
    apply Hf; done || lia.
  - intros Hall (n & Hn%in_seq & Ht). assert (Hf : unmarked_word p used start_ (Z.of_nat n) = false); [| congruence].
    pose proof (Z.div_pos start_ 64 ltac:(lia) ltac:(lia)). apply Hword; [lia |].
    intros j Hj Hge Hm. apply Hall; [page_arith; lia | done].
Qed.

(** ** The walk over the records *)

(** Both walks mark one extent after the other and keep the lowest start. *)
Fixpoint mark_all (used : list Z) (minimum : Z) (exts : list (Z * Z)) : option (list Z * Z) :=
  match exts with
  | [] => Some (used, minimum)
  | (s, e) :: exts =>
      used ← mark_extent used s e;
      mark_all used (Z.min minimum s) exts
  end.

Definition covers (exts : list (Z * Z)) (x : Z) : Prop := exists s e, (s, e) ∈ exts /\ s <= x < e.

Definition disjoint_ext (a b : Z * Z) : Prop := snd a <= fst b \/ snd b <= fst a.

Definition ext_ok (a : Z * Z) : Prop := 0 <= fst a < snd a /\ snd a <= PAGE_SIZE.

Lemma mark_all_sound exts : forall used minimum used' minimum', bits_ok used ->
  Forall ext_ok exts -> mark_all used minimum exts = Some (used', minimum') ->
  bits_ok used'
  /\ (forall x, 0 <= x < PAGE_SIZE -> covers exts x -> marked used x = false)
  /\ ForallOrdPairs disjoint_ext exts
  /\ (forall x, 0 <= x < PAGE_SIZE -> marked used' x = true <-> marked used x = true \/ covers exts x)
  /\ minimum' <= minimum /\ (forall a, a ∈ exts -> minimum' <= fst a)
  /\ (minimum' = minimum \/ exists a, a ∈ exts /\ fst a = minimum').
Proof.
  unfold covers. induction exts as [|[s e] exts IH]; intros used minimum used' minimum' Hb Hok Hm.
  - injection Hm as <- <-. split; [done |]. split; [by intros x Hx (s & e & []%elem_of_nil & _) |].
    split; [constructor |]. split; [| split; [lia | split; [by intros a []%elem_of_nil | by left]]].
    intros x Hx. split; [by left |]. intros [? | (s & e & []%elem_of_nil & _)]; done.
  - inversion Hok as [|? ? [Hse Hle] Hok']; subst. simpl in Hse, Hle, Hm.
    pose proof (mark_extent_marks used s e Hb ltac:(lia) ltac:(lia) Hle) as Hmk.
    destruct (mark_extent used s e) as [used1|]; [| done]. destruct Hmk as (Hb1 & Hfree & Hm1).
    cbn [mbind option_bind] in Hm.
    destruct (IH used1 (Z.min minimum s) used' minimum' Hb1 Hok' Hm) as (Hb' & Hfree' & Hdis & Hm' & Hmin & Hall & Hex).
    assert (Hin : forall x, in_extent s e x = true <-> s <= x < e).
    { intros x. unfold in_extent. rewrite andb_true_iff, Z.leb_le, Z.ltb_lt. done. }
    assert (Hm1' : forall x, 0 <= x < PAGE_SIZE -> marked used1 x = true <-> marked used x = true \/ s <= x < e).
    { intros x Hx. by rewrite Hm1, orb_true_iff, Hin by done. }
    split; [done |]. split; [| split; [| split; [| split; [lia | split]]]].
    + intros x Hx (s' & e' & Hse' & Hx'). apply elem_of_cons in Hse' as [[= -> ->] | Hse'].
      * apply Hfree; [done | by apply Hin].
      * specialize (Hfree' x Hx (ex_intro _ s' (ex_intro _ e' (conj Hse' Hx')))).
        apply not_true_iff_false. intros Ht. apply not_true_iff_false in Hfree'. apply Hfree', Hm1'; auto.
    + constructor; [| done]. apply Forall_forall. intros [s' e'] Hse'. unfold disjoint_ext. simpl.
      rewrite Forall_forall in Hok'. destruct (Hok' _ Hse') as [Hr' Hp']. simpl in *.
      destruct (Z.le_gt_cases e s'); [by left |]. destruct (Z.le_gt_cases e' s); [by right |]. exfalso.
      assert (Hmx : 0 <= Z.max s s' < PAGE_SIZE) by lia.
      assert (Hcov : exists s0 e0, (s0, e0) ∈ exts /\ s0 <= Z.max s s' < e0) by (exists s', e'; split; [done | lia]).
      specialize (Hfree' _ Hmx Hcov). apply not_true_iff_false in Hfree'. apply Hfree', Hm1'; [done | right; lia].
    + intros x Hx. rewrite Hm', Hm1' by done. setoid_rewrite elem_of_cons. split.
      * intros [[? | ?] | (s' & e' & ? & ?)]; [by left | right; exists s, e; auto | right; exists s', e'; auto].
      * intros [? | (s' & e' & [[= -> ->] | ?] & ?)]; [auto | auto | right; exists s', e'; auto].
    + intros a [-> | Ha]%elem_of_cons; [simpl; lia | auto].
    + destruct Hex as [He | (a & Ha & He)]; [| right; exists a; split; [by right | done]].
      destruct (Z.min_spec minimum s) as [[? Hms] | [? Hms]]; [left; lia | right].
      exists (s, e). split; [by left | simpl; lia].
Qed.

(** The extents of the records of a page under a layout. *)
Definition layout_len (p : list Z) (layout : CellLayout) (i : Z) : Z :=
  match layout with
  | Fixed len => len
  | Variable_ _ _ => u16_at p (start p i)
  end.

Definition ext_at (p : list Z) (layout : CellLayout) (i : Z) : Z * Z :=
  (start p i, start p i + layout_len p layout i).

Definition exts_from (p : list Z) (layout : CellLayout) (index : Z) (n : nat) : list (Z * Z) :=
  map (fun k => ext_at p layout (index + Z.of_nat k)) (seq 0 n).

Lemma exts_from_S p layout index n :
  exts_from p layout index (S n) = ext_at p layout index :: exts_from p layout (index + 1) n.
Proof.
  unfold exts_from. simpl. rewrite Z.add_0_r. f_equal. rewrite <- seq_shift, map_map. apply map_ext.
  intros k. f_equal. lia.
Qed.

Lemma elem_of_exts p layout index n a :
  a ∈ exts_from p layout index n <-> exists i, index <= i < index + Z.of_nat n /\ a = ext_at p layout i.
Proof.
  unfold exts_from. rewrite list_elem_of_In, in_map_iff. setoid_rewrite in_seq. split.
  - intros (k & <- & Hk). exists (index + Z.of_nat k). split; [lia | done].
  - intros (i & Hi & ->). exists (Z.to_nat (i - index)). split; [f_equal; lia | lia].
Qed.

Lemma fixed_loop_marks p h len max n : forall used minimum index r,
  inspect_fixed_loop p h len max used minimum index n = Some r ->
  mark_all used minimum (exts_from p (Fixed len) index n) = Some r
  /\ forall i, index <= i < index + Z.of_nat n -> h_upper h <= start p i <= max.
Proof.
  induction n as [|n IH]; intros used minimum index r Hr; [split; [done | lia] |].
  cbn [inspect_fixed_loop] in Hr. change (u16_unchecked p (slot_at index)) with (start p index) in Hr.
  destruct (_ || _) eqn:Hc; [done |]. apply orb_false_iff in Hc as [?%Z.ltb_ge ?%Z.ltb_ge].
  rewrite exts_from_S. simpl. destruct (mark_extent used _ _) as [used1|]; [| done].
  cbn [mbind option_bind] in *. destruct (IH _ _ _ _ Hr) as [Hm Hi]. split; [done |].
  intros i Hr'. destruct (Z.eq_dec i index) as [-> | Hne]; [lia | apply Hi; lia].
Qed.

Lemma mark_all_ext_ok exts : forall used minimum r, mark_all used minimum exts = Some r ->
  (forall a, a ∈ exts -> 0 <= fst a) -> Forall ext_ok exts.
Proof.
  induction exts as [|[s e] exts IH]; intros used minimum r Hm Hpos; [constructor |].
  simpl in Hm. destruct (mark_extent used s e) as [used1|] eqn:E; [| done]. constructor.
  - unfold mark_extent in E. destruct (_ || _) eqn:Hc; [done |].
    apply orb_false_iff in Hc as [?%Z.leb_gt ?%Z.ltb_ge].
    specialize (Hpos (s, e) ltac:(by left)). split; simpl in *; lia.
  - eapply IH; [exact Hm |]. intros a Ha. apply Hpos. by right.
Qed.

Lemma record_extent p h i min max r : page_ok p -> 0 <= i -> h_lower h <= PAGE_SIZE ->
  record p h i min max = Ok r ->
  br_at r = start p i /\ br_len r = u16_at p (start p i) /\ h_upper h <= start p i.
Proof.
  intros [Hz Hok] Hi Hlow Hr. unfold record, slot_start in Hr.
  destruct (h_item_count h <=? i); [done |]. cbv zeta in Hr.
  destruct (Z.ltb_spec (h_lower h) (slot_at i + 2)); [done |].
  rewrite u16_le_page in Hr by (done || (page_arith; lia)). cbn [mbind outcome_bind] in Hr. fold (start p i) in Hr.
  pose proof (u16_at_range p (slot_at i) Hok). fold (start p i) in *.
  destruct (Z.ltb_spec (start p i) (h_upper h)); [done |].
  destruct (Z.ltb_spec PAGE_SIZE (start p i + 2)); [done |]. cbn [orb] in Hr.
  rewrite u16_le_page in Hr by (done || lia). cbn [mbind outcome_bind] in Hr.
  destruct (negb _); [done |]. destruct (checked_add usize_max (start p i) (u16_at p (start p i))) as [e|]; [| done].
  cbn [ok_or mbind outcome_bind] in Hr. destruct (PAGE_SIZE <? e); [done |].
  unfold byte_range_new in Hr. destruct (checked_add usize_max (start p i) (u16_at p (start p i))) as [e'|]; [| done].
  cbn [mbind option_bind] in Hr. repeat case_match; try done. simplify_eq/=. done.
Qed.

Lemma variable_loop_marks p h min max n : page_ok p -> h_lower h <= PAGE_SIZE ->
  forall used minimum index r, 0 <= index ->
  inspect_variable_loop p h min max used minimum index n = Some r ->
  mark_all used minimum (exts_from p (Variable_ min max) index n) = Some r
  /\ forall i, index <= i < index + Z.of_nat n -> h_upper h <= start p i.
Proof.
  intros Hp Hlow. induction n as [|n IH]; intros used minimum index r Hidx Hr; [split; [done | lia] |].
  cbn [inspect_variable_loop] in Hr. destruct (record p h index min max) as [rec| |] eqn:Hrec; try done.
  cbn [ok mbind option_bind] in Hr.
  destruct (record_extent p h index min max rec Hp Hidx Hlow Hrec) as (Ha & Hl & Hu).
  rewrite Ha, Hl in Hr. unfold checked_add in Hr. destruct (_ <=? usize_max); [| done]. cbn [mbind option_bind] in Hr.
  rewrite exts_from_S. simpl. destruct (mark_extent used _ _) as [used1|]; [| done].
  cbn [mbind option_bind] in *. destruct (IH _ _ (index + 1) _ ltac:(lia) Hr) as [Hm Hi]. split; [done |].
  intros i Hr'. destruct (Z.eq_dec i index) as [-> | Hne]; [done | apply Hi; lia].
Qed.

Lemma used0_ok : bits_ok (replicate 64 0).
Proof. split; [done |]. apply Forall_replicate. by split. Qed.

Lemma used0_unmarked x : marked (replicate 64 0) x = false.
Proof.
  assert (Hn : forall n k, nth k (replicate n 0) 0 = 0)
    by (induction n as [|n IH]; intros [|k]; simpl; auto).
  unfold marked, bget. rewrite Hn. apply Z.bits_0.
Qed.

Lemma ForallOrdPairs_exts p layout n i j : ForallOrdPairs disjoint_ext (exts_from p layout 0 n) ->
  0 <= i < Z.of_nat n -> 0 <= j < Z.of_nat n -> i < j ->
  disjoint_ext (ext_at p layout i) (ext_at p layout j).
Proof.
  assert (Hgen : forall n index, ForallOrdPairs disjoint_ext (exts_from p layout index n) ->
    forall i j, index <= i -> i < j -> j < index + Z.of_nat n -> disjoint_ext (ext_at p layout i) (ext_at p layout j)).
  { clear. intros n. induction n as [|n IH]; intros index Hd i j Hi Hij Hj; [lia |].
    rewrite exts_from_S in Hd. inversion Hd as [|? ? Hall Hd']; subst.
    destruct (Z.eq_dec i index) as [-> | Hne]; [| apply (IH (index + 1)); done || lia].
    rewrite Forall_forall in Hall. apply Hall. apply elem_of_exts. exists j. split; [lia | done]. }
  intros Hd Hi Hj Hij. apply (Hgen n 0); done || lia.
Qed.

Lemma layout_walk p h layout used minimum : page_ok p -> h_lower h <= PAGE_SIZE ->
  match layout with
  | Fixed length => inspect_fixed_extents p h length (replicate 64 0)
  | Variable_ min max => inspect_variable_extents p h min max (replicate 64 0)
  end = Some (used, minimum) ->
  mark_all (replicate 64 0) PAGE_SIZE (exts_from p layout 0 (Z.to_nat (h_item_count h))) = Some (used, minimum)
  /\ forall i, 0 <= i < h_item_count h -> h_upper h <= start p i.
Proof.
  intros Hp Hlow Hr. destruct layout as [len | min max].
  - unfold inspect_fixed_extents in Hr. destruct (checked_sub PAGE_SIZE len) as [mx|]; [| done].
    cbn [mbind option_bind] in Hr. destruct (fixed_loop_marks _ _ _ _ _ _ _ _ _ Hr) as [Hm Hi].
    split; [done |]. intros i Hr'. apply (Hi i). lia.
  - unfold inspect_variable_extents in Hr.
    destruct (variable_loop_marks p h min max _ Hp Hlow _ _ 0 _ ltac:(lia) Hr) as [Hm Hi].
    split; [done |]. intros i Hr'. apply (Hi i). lia.
Qed.

(** What the two byte tests after the walk decide together. *)
Lemma reserved_bytes p h layout used : page_ok p -> 0 <= h_lower h <= h_upper h -> h_upper h <= PAGE_SIZE ->
  bits_ok used -> (forall i, 0 <= i < h_item_count h -> h_upper h <= start p i) ->
  (forall x, 0 <= x < PAGE_SIZE -> marked used x = true <->
     covers (exts_from p layout 0 (Z.to_nat (h_item_count h))) x) ->
  (if negb (negb (all_zero p (h_lower h) (h_upper h - h_lower h)))
   then unmarked_nonzero p used (h_upper h)
   else negb (all_zero p (h_lower h) (h_upper h - h_lower h))) = false <->
  forall x, h_lower h <= x < PAGE_SIZE ->
    (forall i, 0 <= i < h_item_count h -> ~ (fst (ext_at p layout i) <= x < snd (ext_at p layout i))) ->
    bget p x = 0.
Proof.
  intros Hp Hlow Hupp Hused Hup Hmarked.
  assert (Hgap : all_zero p (h_lower h) (h_upper h - h_lower h) = true <->
      forall x, h_lower h <= x < h_upper h -> bget p x = 0).
  { rewrite all_zero_spec by (done || lia).
    by replace (h_lower h + (h_upper h - h_lower h)) with (h_upper h) by lia. }
  pose proof (unmarked_nonzero_spec p used (h_upper h) Hp Hused ltac:(lia)) as Hun.
  assert (Hcov : forall x, h_upper h <= x < PAGE_SIZE -> marked used x = false <->
      forall i, 0 <= i < h_item_count h -> ~ (fst (ext_at p layout i) <= x < snd (ext_at p layout i))).
  { intros x Hx. rewrite <- not_true_iff_false, Hmarked by lia. split.
    - intros Hno i Hi Hxi. apply Hno. exists (fst (ext_at p layout i)), (snd (ext_at p layout i)).
      split; [apply elem_of_exts; exists i; split; [lia | done] | done].
    - intros Hno (s & e & (i & Hi & [= -> ->])%elem_of_exts & Hx'). apply (Hno i); [lia | done]. }
  destruct (all_zero p (h_lower h) (h_upper h - h_lower h)) eqn:Haz; cbn [negb].
  - rewrite Hun. split.
    + intros Hall x Hx Hno. destruct (Z.lt_ge_cases x (h_upper h)); [apply Hgap; [done | lia] |].
      apply Hall; [lia |]. apply Hcov; [lia | done].
    + intros Hall x Hx Hmk. apply Hall; [lia |]. by apply Hcov.
  - split; [done |]. intros Hall. enough (false = true) by done. apply Hgap.
    intros x Hx. apply Hall; [lia |]. intros i Hi Hxi. specialize (Hup i Hi). simpl in Hxi. lia.
Qed.

(** C11: a page the layout inspection accepts has every record inside the
    record area and non-empty, no two records sharing a byte, and a record
    starting at the upper bound; and [reserved_nonzero] is [false] exactly when
    every byte after the slot array that belongs to no record is zero. *)
Theorem inspect_layout_sound p h layout li :
  bytes_ok p -> 0 <= h_item_count h -> inspect_layout p h layout = Some li ->
  let ext i := (br_at (layout_cell li i), br_at (layout_cell li i) + br_len (layout_cell li i)) in
  (forall i, 0 <= i < h_item_count h ->
     h_upper h <= fst (ext i) < snd (ext i) /\ snd (ext i) <= PAGE_SIZE)
  /\ (forall i j, 0 <= i < h_item_count h -> 0 <= j < h_item_count h -> i <> j ->
        snd (ext i) <= fst (ext j) \/ snd (ext j) <= fst (ext i))
  /\ (exists i, 0 <= i < h_item_count h /\ fst (ext i) = h_upper h)
  /\ (li_reserved_nonzero li = false <->
        forall x, h_lower h <= x < PAGE_SIZE ->
          (forall i, 0 <= i < h_item_count h -> ~ (fst (ext i) <= x < snd (ext i))) -> bget p x = 0).
Proof.
  intros Hbytes Hcnt0 Hli ext. unfold inspect_layout in Hli.
  destruct (negb (zlen p =? PAGE_SIZE) || negb (shape_valid h)) eqn:Hguard; [done |].
  apply orb_false_iff in Hguard as [Hz%negb_false_iff%Z.eqb_eq Hshape%negb_false_iff].
  assert (Hp : page_ok p) by done.
  unfold shape_valid in Hshape. rewrite !andb_true_iff, negb_true_iff, Z.eqb_neq, Z.eqb_eq, Z.leb_le, Z.ltb_lt in Hshape.
  destruct Hshape as [[[Hcount Hlower] Hroom] Hupper].
  destruct (match layout with Fixed _ => _ | Variable_ _ _ => _ end) as [[used minimum]|] eqn:Hwalk; [| done].
  cbn [mbind option_bind] in Hli. destruct (Z.eqb_spec minimum (h_upper h)) as [Hmin | Hmin]; [| done].
  cbn [negb] in Hli. injection Hli as Hli.
  destruct (layout_walk p h layout used minimum Hp ltac:(lia) Hwalk) as [Hm Hup].
  set (exts := exts_from p layout 0 (Z.to_nat (h_item_count h))) in *.
  assert (Hext : forall i, ext i = ext_at p layout i).
  { intros i. subst ext. rewrite <- Hli. unfold layout_cell, ext_at, layout_len. by destruct layout. }
  assert (Hpos : forall a, a ∈ exts -> 0 <= fst a).
  { intros a (i & _ & ->)%elem_of_exts. simpl. pose proof (start_page_range p i Hp). lia. }
  pose proof (mark_all_ext_ok _ _ _ _ Hm Hpos) as Hok.
  destruct (mark_all_sound _ _ _ _ _ used0_ok Hok Hm) as (Hused & _ & Hdis & Hmarked & _ & _ & Hex).
  rewrite Forall_forall in Hok. setoid_rewrite Hext.
  assert (Hin : forall i, 0 <= i < h_item_count h -> ext_at p layout i ∈ exts).
  { intros i Hi. apply elem_of_exts. exists i. split; [lia | done]. }
  split; [| split; [| split]].
  - intros i Hi. destruct (Hok _ (Hin i Hi)). specialize (Hup i Hi). split; [split; [done | lia] | lia].
  - intros i j Hi Hj Hne. pose proof (ForallOrdPairs_exts p layout _ i j Hdis) as Hij.
    pose proof (ForallOrdPairs_exts p layout _ j i Hdis) as Hji. unfold disjoint_ext in *.
    destruct (Z.lt_total i j) as [Hlt | [? | Hlt]]; [apply Hij; lia | done |].
    destruct (Hji ltac:(lia) ltac:(lia) Hlt); auto.
  - destruct Hex as [He | (a & Ha & He)]; [lia |]. apply elem_of_exts in Ha as (i & Hi & ->).
    exists i. split; [lia |]. by rewrite <- Hmin.
  - rewrite <- Hli. cbn [li_reserved_nonzero]. apply (reserved_bytes p h layout used); try done; [page_arith; lia | lia |].
    intros x Hx. rewrite Hmarked by done. rewrite used0_unmarked. naive_solver.
Qed.

(** A page with two three-byte records, the first one lower on the page. *)
Definition sample_page : list Z :=
  splice (splice (splice (page_fill 0) 32 (le_bytes 2 4090 ++ le_bytes 2 4093)) 4090 [1; 2; 3]) 4093 [4; 5; 6].

Lemma inspect_layout_sound_witness : exists li,
  inspect_layout sample_page (mkHeader 2 0 36 4090) (Fixed 3) = Some li
  /\ li_reserved_nonzero li = false
  /\ let ext i := (br_at (layout_cell li i), br_at (layout_cell li i) + br_len (layout_cell li i)) in
     (forall i, 0 <= i < 2 -> 4090 <= fst (ext i) < snd (ext i) /\ snd (ext i) <= PAGE_SIZE)
     /\ (forall i j, 0 <= i < 2 -> 0 <= j < 2 -> i <> j ->
           snd (ext i) <= fst (ext j) \/ snd (ext j) <= fst (ext i)).
Proof.
  eexists. split; [vm_compute; reflexivity |]. split; [reflexivity |].
  assert (Hb : bytes_ok sample_page) by (unfold sample_page, bytes_ok; auto with v4;
    repeat apply bytes_ok_splice; [apply Forall_replicate; done | apply bytes_ok_app; split; apply le_bytes_ok | |];
    repeat constructor; done).
  pose proof (inspect_layout_sound sample_page (mkHeader 2 0 36 4090) (Fixed 3) _ Hb ltac:(done) ltac:(vm_compute; reflexivity))
    as (H1 & H2 & _).
  split; [exact H1 | exact H2].
Defined.
