(* ===== verification/CompactFacts.v ===== *)
(** * Compaction of pages with cells of one size

    [truncate_fixed] and [remove_fixed_range] first recover the physical order
    of the records, which needs the record area to be an exact tiling, and then
    slide the ones that stay to the end of the page.  The page they leave
    represents the list of the records that stay. *)

From stdpp Require Import base tactics numbers list strings sorting.
From Stdlib Require Import ZArith Lia.
From S2P Require Import Prelude Errors Bytes PageHeader SlottedPage SlottedFacts.

#[local] Open Scope string_scope.
#[local] Open Scope list_scope.
#[local] Open Scope Z_scope.

(** ** Disjoint stretches of one length that fill an interval tile it *)

Section Tiling.
Context (len : Z) (Hlen : 0 < len).

Definition apart (a b : Z) : Prop := a + len <= b.

Lemma apart_bounds ss lo hi : StronglySorted apart ss -> Forall (fun a => lo <= a /\ a + len <= hi) ss ->
  forall k a, ss !! k = Some a -> lo + Z.of_nat k * len <= a /\ a + len * (Z.of_nat (length ss) - Z.of_nat k) <= hi.
Proof using Hlen.
  intros Hs. revert lo. induction Hs as [|s ss Hs IH Hfar]; intros lo Hin k a Hk; [done |].
  apply Forall_cons in Hin as [[Hlo Hhi] Hin].
  assert (Hin' : Forall (fun a => s + len <= a /\ a + len <= hi) ss).
  { rewrite Forall_forall in Hfar, Hin |- *. intros b Hb. split; [by apply Hfar | by apply Hin]. }
  destruct k as [|k]; cbn in Hk.
  - injection Hk as <-. split; [lia |]. destruct ss as [|b ss]; [cbn; lia |].
    destruct (IH _ Hin' 0%nat b eq_refl) as [_ Hb]. apply Forall_cons in Hin' as [[? _] _]. cbn [length] in *. lia.
  - destruct (IH _ Hin' k a Hk) as [H1 H2]. cbn [length]. split; lia.
Qed.

Lemma sorted_apart ss : Sorted Z.le ss -> (forall i j a b, ss !! i = Some a -> ss !! j = Some b -> i <> j ->
    a + len <= b \/ b + len <= a) -> StronglySorted apart ss.
Proof using Hlen.
  intros Hs Hd. apply Sorted_StronglySorted in Hs; [| intros x y z; lia].
  induction Hs as [|s ss Hs IH Hle]; [constructor |]. constructor.
  - apply IH. intros i j a b Hi Hj Hne. apply (Hd (S i) (S j)); [done | done | lia].
  - rewrite Forall_forall in Hle |- *. intros b Hb. specialize (Hle b Hb). apply list_elem_of_lookup in Hb as (j & Hj).
    unfold apart. destruct (Hd 0%nat (S j) s b) as [? | ?]; [done | done | lia | lia | lia].
Qed.

(** Every place of the tiling is taken, and nothing lies between places. *)
Lemma tiling ss lo hi : Forall (fun a => lo <= a /\ a + len <= hi) ss ->
  (forall i j a b, ss !! i = Some a -> ss !! j = Some b -> i <> j -> a + len <= b \/ b + len <= a) ->
  lo + len * zlen ss = hi ->
  (forall a, a ∈ ss -> exists k, 0 <= k < zlen ss /\ a = lo + len * k)
  /\ (forall k, 0 <= k < zlen ss -> lo + len * k ∈ ss).
Proof using Hlen.
  intros Hin Hd Hfull. set (ts := merge_sort Z.le ss). assert (Hp : ts ≡ₚ ss) by apply merge_sort_Permutation.
  assert (Hts : StronglySorted apart ts).
  { apply sorted_apart; [apply Sorted_merge_sort; apply _ |]. intros i j a b Hi Hj Hne.
    apply Permutation_inj in Hp as (_ & f & Hf & Hl). rewrite Hl in Hi, Hj. apply (Hd (f i) (f j)); [done | done |].
    by intros ?%Hf. }
  assert (Hlts : length ts = length ss) by (by rewrite Hp).
  assert (Hat : forall k a, ts !! k = Some a -> a = lo + len * Z.of_nat k).
  { intros k a Hk. destruct (apart_bounds ts lo hi Hts) with (k := k) (a := a) as [H1 H2]; [by rewrite Hp | done |].
    rewrite Hlts in H2. unfold zlen in Hfull. nia. }
  split.
  - intros a Ha. rewrite <- Hp in Ha. apply list_elem_of_lookup in Ha as (k & Hk). exists (Z.of_nat k).
    pose proof (lookup_lt_Some _ _ _ Hk). unfold zlen. split; [lia | by apply Hat].
  - intros k Hk. rewrite <- Hp. destruct (lookup_lt_is_Some_2 ts (Z.to_nat k)) as [a Ha]; [unfold zlen in Hk; lia |].
    replace (lo + len * k) with a; [by eapply list_elem_of_lookup_2 |]. rewrite (Hat _ _ Ha). f_equal. lia.
Qed.
End Tiling.

(** ** The physical order *)

Lemma total_fixed cells len : (forall i, 0 <= i < zlen cells -> zlen (cnth cells i) = len) -> total cells = len * zlen cells.
Proof.
  intros Hlen. induction cells as [|c cs IH]; [change (0 = len * 0); lia |]. rewrite total_cons, zlen_cons, IH.
  - pose proof (zlen_nonneg cs). assert (zlen c = len) by (apply (Hlen 0); rewrite zlen_cons; lia). lia.
  - intros i Hi. specialize (Hlen (i + 1)). rewrite zlen_cons, cnth_cons in Hlen by lia.
    rewrite (proj2 (Z.eqb_neq (i + 1) 0)) in Hlen by lia. rewrite Z.add_simpl_r in Hlen. apply Hlen. lia.
Qed.

Section Fixed.
Context (p : list Z) (h : Header) (cells : list (list Z)) (len : Z).
Context (Hs : slotted p h cells) (Hlen : forall i, 0 <= i < zlen cells -> zlen (cnth cells i) = len) (Hpos : 0 < len).

(** Record [i] lies at place [k]. *)
Definition at_place (i k : Z) : Prop := start p i = h_upper h + len * k.

Lemma places : (forall i, 0 <= i < zlen cells -> exists k, 0 <= k < zlen cells /\ at_place i k)
  /\ (forall k, 0 <= k < zlen cells -> exists i, 0 <= i < zlen cells /\ at_place i k).
Proof using Type*.
  pose proof (zlen_nonneg cells) as Hn. set (ss := start p <$> seqZ 0 (zlen cells)).
  assert (Hz : zlen ss = zlen cells) by (unfold ss, zlen at 1; rewrite length_fmap, length_seqZ; lia).
  assert (Hat : forall i a, ss !! i = Some a -> 0 <= Z.of_nat i < zlen cells /\ a = start p (Z.of_nat i)).
  { intros i a. unfold ss. rewrite list_lookup_fmap_Some. intros (j & -> & Hj). apply lookup_seqZ in Hj as [-> Hj]. split; [lia |]. f_equal. }
  destruct (tiling len Hpos ss (h_upper h) PAGE_SIZE) as [H1 H2].
  - rewrite Forall_forall. intros a Ha. apply list_elem_of_lookup in Ha as (i & Hi). apply Hat in Hi as [Hi ->].
    destruct (sl_cell _ _ _ Hs _ Hi) as (? & ? & _). rewrite Hlen in * by done. done.
  - intros i j a b Hi Hj Hne. apply Hat in Hi as [Hi ->], Hj as [Hj ->].
    pose proof (sl_disjoint _ _ _ Hs _ _ Hi Hj ltac:(lia)) as Hd. rewrite !Hlen in Hd by done. done.
  - rewrite Hz. pose proof (sl_total _ _ _ Hs) as Ht. rewrite (total_fixed _ _ Hlen) in Ht. done.
  - rewrite Hz in *. split.
    + intros i Hi. apply H1. unfold ss. apply list_elem_of_fmap_2. rewrite elem_of_seqZ. lia.
    + intros k Hk. specialize (H2 k Hk). apply list_elem_of_fmap_1 in H2 as (i & Hi & Hin). rewrite elem_of_seqZ in Hin.
      exists i. split; [lia | by unfold at_place].
Qed.

Lemma place_inj i j k : 0 <= i < zlen cells -> 0 <= j < zlen cells -> at_place i k -> at_place j k -> i = j.
Proof using Type*.
  unfold at_place. intros Hi Hj H1 H2. destruct (Z.eq_dec i j) as [? | Hne]; [done |].
  pose proof (sl_disjoint _ _ _ Hs _ _ Hi Hj Hne) as Hd. rewrite !Hlen in Hd by done. lia.
Qed.

Lemma count_small : zlen cells <= MAX_SLOT_COUNT.
Proof using Hs.
  pose proof (slot_bound _ _ _ Hs) as (Hb & _ & _). rewrite (sl_lower _ _ _ Hs) in Hb. unfold MAX_SLOT_COUNT. page_arith.
  change ((4096 - 32) / 2) with 2032. lia.
Qed.

(** What the loop has filled in after [logical] records. *)
Definition filled (positions : list Z) (logical : Z) : Prop :=
  zlen positions = zlen cells /\ forall k, 0 <= k < zlen cells ->
    (0 <= bget positions k < logical /\ at_place (bget positions k) k)
    \/ (bget positions k = u16_max /\ forall i, 0 <= i < logical -> ~ at_place i k).

Lemma positions_loop n : forall positions logical, filled positions logical -> 0 <= logical -> logical + Z.of_nat n = zlen cells ->
  exists positions', fixed_positions_loop p h len positions logical n = Ok positions' /\ filled positions' (zlen cells).
Proof using Type*.
  pose proof count_small as Hsmall. unfold MAX_SLOT_COUNT in Hsmall. page_arith. change ((4096 - 32) / 2) with 2032 in Hsmall.
  induction n as [|n IH]; intros positions logical [Hz Hf] Hl Hn; cbn [fixed_positions_loop].
  { exists positions. split; [done |]. assert (logical = zlen cells) as -> by lia. done. }
  assert (Hi : 0 <= logical < zlen cells) by lia. run (slot_start_ok p h cells logical Hs Hi).
  destruct (proj1 places logical Hi) as (k & Hk & Hat). unfold at_place in Hat. fold (start p logical). rewrite Hat.
  unfold checked_sub. rewrite (proj2 (Z.leb_le (h_upper h) _)) by nia. cbn [ok_or mbind outcome_bind].
  rewrite Z.add_simpl_l, (Z.mul_comm len k), Z.mod_mul, Z.div_mul by lia. cbn [negb Z.eqb].
  rewrite (proj2 (Z.leb_gt (zlen positions) k)) by lia.
  destruct (Hf k Hk) as [[Hlt Hp'] | [Hmax Hnone]].
  { exfalso. assert (bget positions k = logical); [| lia]. eapply place_inj; [lia | done | done |]. unfold at_place. lia. }
  rewrite Hmax, Z.eqb_refl. cbn [negb]. rewrite as_u16_small by (unfold u16_max; lia).
  apply IH; [| lia | lia]. split; [rewrite zlen_splice; [done | lia | change (k + 1 <= zlen positions); lia] |].
  intros k' Hk'. rewrite bget_splice by (change (zlen [logical]) with 1; lia). change (zlen [logical]) with 1.
  destruct (Z.leb_spec k k'), (Z.ltb_spec k' (k + 1)); cbn [andb].
  - assert (k' = k) as -> by lia. rewrite Z.sub_diag. change (bget [logical] 0) with logical. left. split; [lia |]. exact Hat.
  - destruct (Hf k' Hk') as [[? ?] | [? Hno]]; [left; split; [lia | done] | right]. split; [done |]. intros i Hi' Hi''.
    destruct (Z.eq_dec i logical) as [-> | ?]; [unfold at_place in Hi''; nia | by apply (Hno i); [lia |]].
  - destruct (Hf k' Hk') as [[? ?] | [? Hno]]; [left; split; [lia | done] | right]. split; [done |]. intros i Hi' Hi''.
    destruct (Z.eq_dec i logical) as [-> | ?]; [unfold at_place in Hi''; nia | by apply (Hno i); [lia |]].
  - lia.
Qed.

Lemma fixed_positions_ok : exists positions, fixed_positions p h len = Ok positions /\ zlen positions = zlen cells
  /\ forall k, 0 <= k < zlen cells -> 0 <= bget positions k < zlen cells /\ at_place (bget positions k) k.
Proof using Type*.
  pose proof count_small as Hsmall. pose proof (sl_total _ _ _ Hs) as Ht. rewrite (total_fixed _ _ Hlen) in Ht.
  pose proof (zlen_nonneg cells). pose proof (slot_bound _ _ _ Hs) as (_ & _ & Hup). pose proof (sl_room _ _ _ Hs).
  pose proof (sl_lower _ _ _ Hs). unfold MAX_SLOT_COUNT in *. page_arith. change ((4096 - 32) / 2) with 2032 in *.
  unfold fixed_positions. rewrite (sl_count _ _ _ Hs). unfold checked_mul, checked_add.
  rewrite (proj2 (Z.leb_le (zlen cells * len) _)) by (unfold usize_max, u64_max; lia). cbn [mbind option_bind].
  rewrite (proj2 (Z.leb_le _ usize_max)) by (unfold usize_max, u64_max; lia). cbn [ok_or mbind outcome_bind].
  rewrite (proj2 (Z.eqb_neq len 0)) by lia. rewrite (proj2 (Z.eqb_eq (h_upper h + zlen cells * len) _)) by (unfold PAGE_SIZE; lia).
  cbn [orb negb]. unfold MAX_SLOT_COUNT, HEADER_SIZE, SIZE, PAGE_SIZE. change ((4096 - 32) / 2) with 2032.
  rewrite (proj2 (Z.ltb_ge 2032 _)) by lia.
  destruct (positions_loop (Z.to_nat (zlen cells)) (replicate (Z.to_nat (zlen cells)) u16_max) 0) as (positions & -> & Hz & Hf).
  { split; [rewrite zlen_replicate; lia |]. intros k Hk. right. rewrite bget_replicate by lia. split; [done |]. intros; lia. }
  { lia. } { lia. }
  assert (Hall : forall k, 0 <= k < zlen cells -> 0 <= bget positions k < zlen cells /\ at_place (bget positions k) k).
  { intros k Hk. destruct (Hf k Hk) as [? | [_ Hno]]; [done |]. destruct (proj2 places k Hk) as (i & Hi & Hat). by destruct (Hno i). }
  cbn [mbind outcome_bind]. assert (Hex : existsb (fun x => x =? u16_max) positions = false).
  { apply not_true_iff_false. rewrite existsb_exists. intros (x & Hx & Heq%Z.eqb_eq). apply list_elem_of_In, list_elem_of_lookup in Hx as (k & Hk).
    pose proof (lookup_lt_Some _ _ _ Hk). destruct (Hall (Z.of_nat k)) as [Hr _]; [unfold zlen in *; lia |].
    unfold bget in Hr. rewrite Nat2Z.id, (nth_lookup_Some _ _ _ _ Hk) in Hr. unfold u16_max in Heq. lia. }
  rewrite Hex. exists positions. done.
Qed.

(** Two stretches of pages that hold the same bytes. *)
Ltac same_bytes Hp' Hp :=
  let L' := fresh in let L := fresh in
  pose proof (proj1 Hp') as L'; pose proof (proj1 Hp) as L; apply sub_ext; [page_arith; nia.. |].

(** ** Sliding the records that stay *)

Lemma page_bounds : HEADER_SIZE <= h_lower h /\ h_lower h <= h_upper h /\ h_upper h + len * zlen cells = PAGE_SIZE
  /\ slot_at (zlen cells) = h_lower h.
Proof using Hs Hlen Hpos.
  pose proof (sl_total _ _ _ Hs) as Ht. rewrite (total_fixed _ _ Hlen) in Ht. pose proof (sl_lower _ _ _ Hs). pose proof (sl_room _ _ _ Hs).
  pose proof (zlen_nonneg cells). unfold slot_at in *. lia.
Qed.

Section Compact.
Context (out : Z -> option Z) (cells' : list (list Z)) (positions : list Z).
Context (Hpositions : zlen positions = zlen cells).
Context (Hplace : forall k, 0 <= k < zlen cells -> 0 <= bget positions k < zlen cells /\ at_place (bget positions k) k).
Context (Hout : forall i o, 0 <= i < zlen cells -> out i = Some o -> 0 <= o < zlen cells' /\ cnth cells' o = cnth cells i).
Context (Honto : forall o, 0 <= o < zlen cells' -> exists i, 0 <= i < zlen cells /\ out i = Some o).
Context (Hinj : forall i j o, 0 <= i < zlen cells -> 0 <= j < zlen cells -> out i = Some o -> out j = Some o -> i = j).
Context (Hfewer : zlen cells' <= zlen cells).

(** With [physical] places still to visit, the outputs [written] are in place
    from [d] up. *)
Record sliding (q : list Z) (d : Z) (physical : nat) (written : list Z) : Prop := {
  sd_page : page_ok q;
  sd_dest : d = PAGE_SIZE - len * zlen written;
  sd_room : h_upper h + len * Z.of_nat physical <= d;
  sd_head : agree p q 0 HEADER_SIZE;
  sd_gap : agree p q (h_lower h) (h_upper h);
  sd_body : agree p q (h_upper h) (h_upper h + len * Z.of_nat physical);
  sd_cell o : o ∈ written -> d <= start q o /\ start q o + len <= PAGE_SIZE /\ sub q (start q o) len = cnth cells' o;
  sd_disjoint o o' : o ∈ written -> o' ∈ written -> o <> o' -> start q o + len <= start q o' \/ start q o' + len <= start q o;
  sd_nodup : NoDup written;
  sd_written o : o ∈ written <-> exists k, Z.of_nat physical <= k < zlen cells /\ out (bget positions k) = Some o;
}.

Lemma output_range o written physical q d : sliding q d physical written -> o ∈ written -> 0 <= o < zlen cells'.
Proof using Type*.
  intros Hsl Ho. apply (sd_written _ _ _ _ Hsl) in Ho as (k & Hk & Ho). apply (Hout (bget positions k)); [apply Hplace; lia | done].
Qed.

Lemma slide_step q d physical written i o : sliding q d (S physical) written -> (Z.of_nat physical < zlen cells) ->
  bget positions (Z.of_nat physical) = i -> out i = Some o ->
  exists q1 q', copy_within q (h_upper h + Z.of_nat physical * len) (d - len) len = Ok q1
    /\ put_u16 q1 (slot_at o) (as_u16 (d - len)) = Ok q' /\ sliding q' (d - len) physical (o :: written).
Proof using Type*.
  intros Hsl Hk Hi Ho. pose proof Hsl as [Hq Hd Hroom Hhead Hgap Hbody Hcell Hdis Hnd Hwr].
  pose proof page_bounds as (Hb1 & Hb2 & Hb3 & Hb4). pose proof (zlen_nonneg written). pose proof (zlen_nonneg cells').
  destruct (Hplace (Z.of_nat physical)) as [Hir Hip]; [lia |]. rewrite Hi in Hir, Hip. unfold at_place in Hip.
  destruct (Hout i o Hir Ho) as [Hor Hoc].
  assert (Hslot : HEADER_SIZE <= slot_at o /\ slot_at o + 2 <= h_lower h) by (rewrite <- Hb4; page_arith; lia).
  assert (Hnew : o ∉ written).
  { intros Hin. apply Hwr in Hin as (k & Hk' & Hok). destruct (Hplace k ltac:(lia)) as [Hkr Hkp].
    pose proof (Hinj _ _ _ Hir Hkr Ho Hok) as He. unfold at_place in Hkp. rewrite <- He in Hkp. nia. }
  destruct (copy_within_wrote q (h_upper h + Z.of_nat physical * len) (d - len) len) as (q1 & E1 & W1 & Hz1);
    [done | page_arith; nia.. |].
  rewrite as_u16_small by (page_arith; nia).
  destruct (put_u16_wrote q1 (slot_at o) (d - len)) as (q' & E2 & W2); [eauto with v4 | page_arith; lia | page_arith; lia |].
  exists q1, q'. split; [done |]. split; [done |].
  assert (Hq' : page_ok q') by eauto with v4.
  assert (Hbyte : forall a, 0 <= a < PAGE_SIZE -> a < slot_at o \/ slot_at o + 2 <= a -> a < d - len \/ d <= a -> bget q' a = bget q a).
  { intros a Ha H1 H2. rewrite (wrote_frame_byte _ _ _ _ a W2), (wrote_frame_byte _ _ _ _ a W1); (done || rewrite ?Hz1, ?zlen_le_bytes; lia). }
  assert (Hcopy : sub q' (d - len) len = cnth cells i).
  { rewrite (wrote_frame _ _ _ _ _ _ W2) by (eauto with v4 || (rewrite ?zlen_le_bytes; page_arith; nia)).
    rewrite <- Hz1 at 2. rewrite (wrote_hit _ _ _ _ W1) by (rewrite ?Hz1; page_arith; nia).
    rewrite (agree_sub _ _ _ _ _ _ Hbody) by (done || (page_arith; nia) || apply Hs).
    destruct (sl_cell _ _ _ Hs i Hir) as (_ & _ & _ & <-). rewrite (Hlen i Hir). f_equal. rewrite Hip. lia. }
  assert (Hso : start q' o = d - len) by (apply (wrote_u16 _ _ _ _ W2); page_arith; nia).
  assert (Hst : forall o', o' ∈ written -> start q' o' = start q o').
  { intros o' Ho'. pose proof (output_range _ _ _ _ _ Hsl Ho') as Hr. assert (o' <> o) by congruence. unfold start.
    rewrite (wrote_frame_u16 _ _ _ _ _ W2) by (eauto with v4 || (rewrite ?zlen_le_bytes; page_arith; lia)).
    apply (wrote_frame_u16 _ _ _ _ _ W1); [done | page_arith; lia | rewrite <- Hb4 in *; page_arith; nia |].
    left. rewrite <- Hb4 in *. page_arith. nia. }
  split.
  - done.
  - rewrite zlen_cons. lia.
  - lia.
  - intros a Ha. rewrite <- (Hhead a Ha). apply Hbyte; page_arith; nia.
  - intros a Ha. rewrite <- (Hgap a Ha). apply Hbyte; page_arith; nia.
  - intros a Ha. rewrite <- (Hbody a) by nia. apply Hbyte; page_arith; nia.
  - intros o' [-> | Ho']%elem_of_cons.
    + rewrite Hso. split; [lia |]. split; [page_arith; nia |]. rewrite Hoc. done.
    + rewrite (Hst o' Ho'). destruct (Hcell o' Ho') as (H1 & H2 & <-). split; [lia |]. split; [done |].
      same_bytes Hq' Hq. intros a Ha. apply Hbyte; page_arith; nia.
  - intros o1 o2 [-> | H1]%elem_of_cons [-> | H2]%elem_of_cons Hne; [done | | |].
    + rewrite Hso, (Hst o2 H2). destruct (Hcell o2 H2) as (? & _). lia.
    + rewrite Hso, (Hst o1 H1). destruct (Hcell o1 H1) as (? & _). lia.
    + rewrite !Hst by done. by apply Hdis.
  - by constructor.
  - intros o'. rewrite elem_of_cons, Hwr. split.
    + intros [-> | (k & Hk' & Hok)]; [exists (Z.of_nat physical); rewrite Hi; split; [lia | done] | exists k; split; [lia | done]].
    + intros (k & Hk' & Hok). destruct (Z.eq_dec k (Z.of_nat physical)) as [-> | ?]; [left; congruence | right; exists k; split; [lia | done]].
Qed.

Lemma slide_skip q d physical written : sliding q d (S physical) written -> out (bget positions (Z.of_nat physical)) = None ->
  sliding q d physical written.
Proof using Type*.
  intros [Hq Hd Hroom Hhead Hgap Hbody Hcell Hdis Hnd Hwr] Ho. split; try done; [lia | intros a Ha; apply Hbody; lia |].
  intros o'. rewrite Hwr. split; intros (k & Hk & Hok); exists k; (split; [| done]); [lia |].
  destruct (Z.eq_dec k (Z.of_nat physical)) as [-> | ?]; [congruence | lia].
Qed.

Lemma compact_slides physical : forall q d written, sliding q d physical written -> Z.of_nat physical <= zlen cells ->
  exists q' d' written', compact_fixed q h len d out positions physical = Ok (q', d') /\ sliding q' d' 0 written'.
Proof using Type*.
  induction physical as [|physical IH]; intros q d written Hsl Hle; cbn [compact_fixed]; [by exists q, d, written |].
  destruct (out (bget positions (Z.of_nat physical))) as [o|] eqn:Ho.
  - destruct (slide_step q d physical written _ o Hsl ltac:(lia) eq_refl Ho) as (q1 & q' & E1 & E2 & Hsl').
    assert (Hdl : len <= d).
    { pose proof (sd_room _ _ _ _ Hsl). pose proof page_bounds. page_arith. nia. }
    rewrite (usub_ok _ _ Hdl). cbn [mbind outcome_bind]. run E1. run E2. apply (IH _ _ _ Hsl'). lia.
  - apply (IH q d written); [by apply slide_skip | lia].
Qed.

Lemma written_all q d written : sliding q d 0 written -> zlen written = zlen cells'.
Proof using Type*.
  intros Hsl. pose proof (zlen_nonneg cells'). assert (Hp : written ≡ₚ seqZ 0 (zlen cells')).
  { apply NoDup_Permutation; [apply Hsl | apply NoDup_seqZ |]. intros o. rewrite elem_of_seqZ. split.
    - intros Ho. pose proof (output_range _ _ _ _ _ Hsl Ho). lia.
    - intros Ho. destruct (Honto o ltac:(lia)) as (i & Hi & Hio). apply (sd_written _ _ _ _ Hsl).
      destruct (proj1 places i Hi) as (k & Hk & Hat). exists k. split; [lia |]. destruct (Hplace k Hk) as [Hr Hat'].
      by rewrite (place_inj _ _ _ Hr Hi Hat' Hat). }
  apply Permutation_length in Hp. unfold zlen at 1. rewrite Hp, length_seqZ. lia.
Qed.

(** The slots beyond and the bytes below are cleared, the header rewritten. *)
Lemma compact_finish q d written : sliding q d 0 written -> 0 < zlen cells' ->
  exists q1 q2 q3 q4 q', page_zero q (slot_at (zlen cells')) (h_lower h - slot_at (zlen cells')) = Ok q1
    /\ page_zero q1 (h_upper h) (d - h_upper h) = Ok q2
    /\ put_u16 q2 ITEM_COUNT (as_u16 (zlen cells')) = Ok q3 /\ put_u16 q3 LOWER (as_u16 (slot_at (zlen cells'))) = Ok q4
    /\ put_u16 q4 UPPER (as_u16 d) = Ok q'
    /\ slotted q' (mkHeader (zlen cells') (h_level h) (slot_at (zlen cells')) d) cells' /\ same_identity p q'
    /\ slot_at (zlen cells') <= h_lower h /\ h_upper h <= d.
Proof using Type*.
  intros Hsl Hmany. pose proof (written_all _ _ _ Hsl) as Hall. pose proof Hsl as [Hq Hd Hroom Hhead Hgap Hbody Hcell Hdis Hnd Hwr].
  pose proof page_bounds as (Hb1 & Hb2 & Hb3 & Hb4). rewrite Hall in Hd.
  assert (Hso : slot_at (zlen cells') <= h_lower h) by (rewrite <- Hb4; page_arith; lia).
  assert (Hw : forall o, 0 <= o < zlen cells' -> o ∈ written).
  { intros o Ho. destruct (Honto o Ho) as (i & Hi & Hio). apply Hwr. destruct (proj1 places i Hi) as (k & Hk & Hat).
    exists k. split; [lia |]. destruct (Hplace k Hk) as [Hr Hat']. by rewrite (place_inj _ _ _ Hr Hi Hat' Hat). }
  destruct (page_zero_wrote q (slot_at (zlen cells')) (h_lower h - slot_at (zlen cells'))) as (q1 & E1 & W1 & Hz1);
    [done | page_arith; lia | lia | page_arith; nia |].
  destruct (page_zero_wrote q1 (h_upper h) (d - h_upper h)) as (q2 & E2 & W2 & Hz2);
    [eauto with v4 | page_arith; lia | nia | page_arith; nia |].
  assert (Hq2 : page_ok q2) by eauto with v4.
  destruct (put_header q2 (zlen cells') (slot_at (zlen cells')) d Hq2) as (q3 & q4 & q' & F1 & F2 & F3 & Hq' & Hh & A & I);
    [page_arith; nia.. |].
  exists q1, q2, q3, q4, q'. do 5 (split; [done |]).
  assert (Hbyte : forall a, HEADER_SIZE <= a < PAGE_SIZE -> a < slot_at (zlen cells') \/ h_lower h <= a -> a < h_upper h \/ d <= a ->
    bget q' a = bget q a).
  { intros a Ha H1 H2. rewrite (A a Ha), (wrote_frame_byte _ _ _ _ a W2), (wrote_frame_byte _ _ _ _ a W1); (done || page_arith; lia). }
  assert (Hst : forall o, 0 <= o < zlen cells' -> start q' o = start q o).
  { intros o Ho. unfold start, u16_at. f_equal. same_bytes Hq' Hq. intros a Ha. apply Hbyte; page_arith; nia. }
  split; [| split; [| split; [done | nia]]].
  - split; cbn [h_item_count h_lower h_upper h_level]; try done.
    + rewrite Hh. f_equal. rewrite <- (proj1 (proj2 (header_fields _ _ (sl_header _ _ _ Hs)))).
      unfold u16_at. f_equal. symmetry. same_bytes (sl_page _ _ _ Hs) Hq2. intros a Ha. rewrite (wrote_frame_byte _ _ _ _ _ W2), (wrote_frame_byte _ _ _ _ _ W1); [| page_arith; lia ..].
      symmetry. apply Hhead. page_arith. lia.
    + page_arith. nia.
    + assert (Ht : total cells' = len * zlen cells'); [| lia]. clear - Hpos Hcell Hw Hlen Honto Hout.
      assert (Hlen' : forall o, 0 <= o < zlen cells' -> zlen (cnth cells' o) = len).
      { intros o Ho. destruct (Honto o Ho) as (i & Hi & Hio). destruct (Hout i o Hi Hio) as [_ ->]. by apply Hlen. }
      by apply total_fixed.
    + intros o Ho. destruct (Honto o Ho) as (i & Hi & Hio). destruct (Hout i o Hi Hio) as [_ Hoc].
      rewrite Hoc, (Hlen i Hi), (Hst o Ho), <- Hoc. destruct (Hcell o (Hw o Ho)) as (H1 & H2 & H3).
      split; [done |]. split; [done |]. split; [done |]. rewrite <- H3.
      same_bytes Hq' Hq. intros a Ha. apply Hbyte; page_arith; nia.
    + intros o o' Ho Ho' Hne. destruct (Honto o Ho) as (i & Hi & Hio), (Honto o' Ho') as (i' & Hi' & Hio').
      destruct (Hout i o Hi Hio) as [_ ->], (Hout i' o' Hi' Hio') as [_ ->]. rewrite !Hlen, !Hst by done. by apply Hdis; [apply Hw | apply Hw |].
    + intros a Ha. destruct (Z.lt_ge_cases a (h_lower h)) as [Hlt | Hge].
      * rewrite (A a), (wrote_frame_byte _ _ _ _ a W2) by (page_arith; lia). destruct W1 as [_ W1]. rewrite W1 by (page_arith; nia).
        rewrite Hz1, (proj2 (Z.leb_le _ a)), (proj2 (Z.ltb_lt a _)) by lia. cbn [andb]. apply bget_replicate. lia.
      * destruct (Z.lt_ge_cases a (h_upper h)) as [Hlt' | Hge'].
        -- rewrite Hbyte by (page_arith; lia). rewrite (Hgap a) by lia. apply (sl_gap _ _ _ Hs). lia.
        -- rewrite (A a) by (page_arith; nia). destruct W2 as [_ W2]. rewrite W2 by (page_arith; nia).
           rewrite Hz2, (proj2 (Z.leb_le _ a)), (proj2 (Z.ltb_lt a _)) by lia. cbn [andb]. apply bget_replicate. lia.
  - eapply identity_trans; [apply identity_agree | exact I]. intros a Ha.
    rewrite (wrote_frame_byte _ _ _ _ a W2), (wrote_frame_byte _ _ _ _ a W1); [| page_arith; lia ..]. by apply Hhead.
Qed.
End Compact.
End Fixed.

(** ** The two edits *)

Lemma sliding_start p h cells len out cells' positions : slotted p h cells ->
  (forall i, 0 <= i < zlen cells -> zlen (cnth cells i) = len) -> 0 < len ->
  sliding p h cells len out cells' positions p PAGE_SIZE (Z.to_nat (zlen cells)) [].
Proof.
  intros Hs Hlen Hpos. pose proof (page_bounds p h cells len Hs Hlen Hpos) as (_ & _ & Hb & _). pose proof (zlen_nonneg cells).
  split; try done; try (by intros ? ?%elem_of_nil); try (by intros ? ? ?%elem_of_nil).
  - apply Hs.
  - change (zlen []) with 0. lia.
  - lia.
  - constructor.
  - intros o. rewrite elem_of_nil. split; [done |]. intros (k & Hk & _). lia.
Qed.

Lemma truncate_fixed_slotted p h a b len : slotted p h (a ++ b) -> Forall (fun c => zlen c = len) (a ++ b) ->
  0 < len -> a <> [] ->
  exists p' h', truncate_fixed p h (zlen a) len = Ok (p', h') /\ slotted p' h' a /\ same_identity p p' /\ h_level h' = h_level h.
Proof.
  intros Hs Hall Hpos Ha. pose proof (zlen_nonneg b).
  assert (Hza : 0 < zlen a) by (destruct a; [done | rewrite zlen_cons; pose proof (zlen_nonneg a); lia]).
  assert (Hlen : forall i, 0 <= i < zlen (a ++ b) -> zlen (cnth (a ++ b) i) = len).
  { intros i Hi. unfold cnth. rewrite Forall_forall in Hall. apply Hall. apply list_elem_of_In, nth_In. unfold zlen in Hi. lia. }
  unfold truncate_fixed. rewrite (sl_count _ _ _ Hs), (proj2 (Z.eqb_neq (zlen a) 0)), (proj2 (Z.ltb_ge _ (zlen a))), (proj2 (Z.eqb_neq len 0))
    by (rewrite ?zlen_app; lia). cbn [orb].
  destruct (Z.eqb_spec (zlen a) (zlen (a ++ b))) as [He | Hne].
  { exists p, h. rewrite zlen_app in He. rewrite (zlen_zero_nil b), app_nil_r in Hs by lia. by split. }
  destruct (fixed_positions_ok p h (a ++ b) len Hs Hlen Hpos) as (positions & -> & Hz & Hplace). cbn [mbind outcome_bind].
  set (out := fun logical => if logical <? zlen a then Some logical else None).
  assert (Hout : forall i o, 0 <= i < zlen (a ++ b) -> out i = Some o -> 0 <= o < zlen a /\ cnth a o = cnth (a ++ b) i).
  { intros i o Hi. unfold out. destruct (Z.ltb_spec i (zlen a)); [| done]. intros [= <-]. split; [lia |].
    rewrite cnth_app by lia. zcase. }
  assert (Honto : forall o, 0 <= o < zlen a -> exists i, 0 <= i < zlen (a ++ b) /\ out i = Some o).
  { intros o Ho. exists o. rewrite zlen_app. split; [lia |]. unfold out. zcase. }
  assert (Hinj : forall i j o, 0 <= i < zlen (a ++ b) -> 0 <= j < zlen (a ++ b) -> out i = Some o -> out j = Some o -> i = j).
  { intros i j o _ _. unfold out. destruct (i <? zlen a), (j <? zlen a); congruence. }
  assert (Hfewer : zlen a <= zlen (a ++ b)) by (rewrite zlen_app; lia).
  destruct (compact_slides p h (a ++ b) len Hs Hlen Hpos out a positions Hz Hplace Hout Honto Hinj Hfewer (length positions) p PAGE_SIZE [])
    as (q & d & written & -> & Hsl); [replace (length positions) with (Z.to_nat (zlen (a ++ b))) by (unfold zlen in *; lia); by apply sliding_start | unfold zlen in *; lia |].
  cbn [mbind outcome_bind]. unfold finish_truncate. change (HEADER_SIZE + zlen a * 2) with (slot_at (zlen a)).
  destruct (compact_finish p h (a ++ b) len Hs Hlen Hpos out a positions Hz Hplace Hout Honto Hinj Hfewer q d written Hsl Hza)
    as (q1 & q2 & q3 & q4 & q' & E1 & E2 & E3 & E4 & E5 & Hs' & Hid & Hle1 & Hle2).
  run (usub_ok (E := Error) _ _ Hle1). run E1. run (usub_ok (E := Error) _ _ Hle2). run E2. run E3. run E4. run E5.
  by eexists _, _.
Qed.

Lemma remove_fixed_range_slotted p h a m b len : slotted p h (a ++ m ++ b) -> Forall (fun c => zlen c = len) (a ++ m ++ b) ->
  0 < len -> m <> [] -> a ++ b <> [] ->
  exists p' h', remove_fixed_range p h (zlen a) (zlen m) len = Ok (p', h') /\ slotted p' h' (a ++ b) /\ same_identity p p'
    /\ h_level h' = h_level h.
Proof.
  intros Hs Hall Hpos Hm Hab. pose proof (zlen_nonneg a). pose proof (zlen_nonneg b). pose proof (zlen_nonneg m).
  assert (Hzm : 0 < zlen m) by (destruct m; [done | rewrite zlen_cons; pose proof (zlen_nonneg m); lia]).
  assert (Hzab : 0 < zlen (a ++ b)).
  { pose proof (zlen_nonneg (a ++ b)). destruct (Z.eq_dec (zlen (a ++ b)) 0) as [?%zlen_zero_nil | ?]; [done | lia]. }
  assert (Hlen : forall i, 0 <= i < zlen (a ++ m ++ b) -> zlen (cnth (a ++ m ++ b) i) = len).
  { intros i Hi. unfold cnth. rewrite Forall_forall in Hall. apply Hall. apply list_elem_of_In, nth_In. unfold zlen in Hi. lia. }
  pose proof (count_small p h _ Hs) as Hsmall. unfold MAX_SLOT_COUNT in Hsmall. page_arith. change ((4096 - 32) / 2) with 2032 in Hsmall.
  assert (Hzs : zlen (a ++ m ++ b) = zlen (a ++ b) + zlen m) by (rewrite !zlen_app; lia).
  assert (Hzl : zlen (a ++ b) = zlen a + zlen b) by apply zlen_app.
  unfold remove_fixed_range. unfold checked_add. rewrite (proj2 (Z.leb_le _ usize_max)) by (unfold usize_max, u64_max; lia).
  cbn [ok_or mbind outcome_bind]. rewrite (sl_count _ _ _ Hs), (proj2 (Z.eqb_neq (zlen m) 0)), (proj2 (Z.ltb_ge (zlen (a ++ m ++ b)) _)),
    (proj2 (Z.leb_gt _ (zlen m))), (proj2 (Z.eqb_neq len 0)) by lia. cbn [orb].
  destruct (fixed_positions_ok p h (a ++ m ++ b) len Hs Hlen Hpos) as (positions & -> & Hz & Hplace). cbn [mbind outcome_bind].
  run (usub_ok (E := Error) (zlen (a ++ m ++ b)) (zlen m) ltac:(lia)).
  set (out := fun logical => if (logical <? zlen a) || (zlen a + zlen m <=? logical)
                             then Some (if logical <? zlen a then logical else logical - zlen m) else None).
  assert (Hout : forall i o, 0 <= i < zlen (a ++ m ++ b) -> out i = Some o -> 0 <= o < zlen (a ++ b) /\ cnth (a ++ b) o = cnth (a ++ m ++ b) i).
  { intros i o Hi. unfold out. rewrite (cnth_app a (m ++ b)) by lia.
    destruct (Z.ltb_spec i (zlen a)); cbn [orb]; [intros [= <-]; split; [lia |]; rewrite cnth_app by lia; zcase |].
    destruct (Z.leb_spec (zlen a + zlen m) i); [| done]. intros [= <-]. split; [lia |].
    rewrite !cnth_app by lia. rewrite (proj2 (Z.ltb_ge (i - zlen m) _)), (proj2 (Z.ltb_ge (i - zlen a) _)) by lia. f_equal. lia. }
  assert (Honto : forall o, 0 <= o < zlen (a ++ b) -> exists i, 0 <= i < zlen (a ++ m ++ b) /\ out i = Some o).
  { intros o Ho. unfold out. destruct (Z.lt_ge_cases o (zlen a)).
    - exists o. split; [lia |]. by rewrite (proj2 (Z.ltb_lt o _)) by lia.
    - exists (o + zlen m). split; [lia |]. rewrite (proj2 (Z.ltb_ge (o + zlen m) _)), (proj2 (Z.leb_le _ (o + zlen m))) by lia. cbn [orb]. f_equal. lia. }
  assert (Hinj : forall i j o, 0 <= i < zlen (a ++ m ++ b) -> 0 <= j < zlen (a ++ m ++ b) -> out i = Some o -> out j = Some o -> i = j).
  { intros i j o _ _. unfold out. destruct (Z.ltb_spec i (zlen a)), (Z.ltb_spec j (zlen a)), (Z.leb_spec (zlen a + zlen m) i), (Z.leb_spec (zlen a + zlen m) j);
      cbn [orb]; intros; simplify_eq; lia. }
  assert (Hfewer : zlen (a ++ b) <= zlen (a ++ m ++ b)) by lia.
  destruct (compact_slides p h _ len Hs Hlen Hpos out (a ++ b) positions Hz Hplace Hout Honto Hinj Hfewer (length positions) p PAGE_SIZE [])
    as (q & d & written & -> & Hsl); [replace (length positions) with (Z.to_nat (zlen (a ++ m ++ b))) by (unfold zlen in *; lia); by apply sliding_start | unfold zlen in *; lia |].
  cbn [mbind outcome_bind].
  destruct (compact_finish p h _ len Hs Hlen Hpos out (a ++ b) positions Hz Hplace Hout Honto Hinj Hfewer q d written Hsl Hzab)
    as (q1 & q2 & q3 & q4 & q' & E1 & E2 & E3 & E4 & E5 & Hs' & Hid & Hle1 & Hle2).
  replace (zlen (a ++ m ++ b) - zlen m) with (zlen (a ++ b)) by lia. change (HEADER_SIZE + zlen (a ++ b) * 2) with (slot_at (zlen (a ++ b))).
  run (usub_ok (E := Error) _ _ Hle1). run E1. run (usub_ok (E := Error) _ _ Hle2). run E2. run E3. run E4. run E5.
  by eexists _, _.
Qed.
