(* ===== verification/Checksum.v ===== *)
(** * Page checksums

    [checksum.rs] and [page_checksum.rs]: CRC-32C over a page with its checksum
    field read as zero.  The table, the byte loop, the two hardware loops and
    the word-wise zero run are translated; [_mm_crc32_u8]/[__crc32cb] are given
    their architectural meaning (eight shift-and-subtract rounds of the
    reflected Castagnoli polynomial) and the 64-bit forms are eight byte steps,
    low byte first.  The crate [crc32c] the sealing path calls is the parameter
    [crc32c_append], of which only that it continues a CRC-32C is assumed. *)

From stdpp Require Import base tactics numbers list strings.
From Stdlib Require Import ZArith Lia.
From S2P Require Import Prelude Errors Bytes PageHeader.

#[local] Open Scope string_scope.
#[local] Open Scope list_scope.
#[local] Open Scope Z_scope.

(** ** The table *)

Definition POLYNOMIAL : Z := 2197175160.

(** [(crc >> 1) ^ (POLYNOMIAL & 0u32.wrapping_sub(crc & 1))]. *)
Definition crc_bit (crc : Z) : Z :=
  Z.lxor (Z.shiftr crc 1) (Z.land POLYNOMIAL ((0 - Z.land crc 1) mod 2 ^ 32)).

Fixpoint crc_bits (n : nat) (crc : Z) : Z :=
  match n with
  | O => crc
  | S n' => crc_bits n' (crc_bit crc)
  end.

Definition crc_table : list Z := map (fun index => crc_bits 8 (Z.of_nat index)) (seq 0 256).

Definition TABLE : list Z := Eval vm_compute in crc_table.

(** [!crc] on [u32]. *)
Definition u32_not (v : Z) : Z := Z.lxor u32_max v.

Definition table_step (state byte : Z) : Z :=
  Z.lxor (bget TABLE (Z.land (Z.lxor state byte) 255)) (Z.shiftr state 8).

Definition crc32c_pointer_table (crc : Z) (bytes : list Z) : Z :=
  u32_not (foldl table_step (u32_not crc) bytes).

(** ** Hardware steps *)

Definition mm_crc32_u8 (state byte : Z) : Z := crc_bits 8 (Z.lxor state byte).
Definition mm_crc32_u64 (state word : Z) : Z := foldl mm_crc32_u8 state (le_bytes 8 word).

(** The eight-byte loop of both hardware paths, and the byte loop after it. *)
Fixpoint word_loop (fuel : nat) (state : Z) (bytes : list Z) : Z * list Z :=
  match fuel with
  | O => (state, bytes)
  | S fuel' =>
      if 8 <=? zlen bytes
      then word_loop fuel' (mm_crc32_u64 state (le_val (take 8 bytes))) (drop 8 bytes)
      else (state, bytes)
  end.

Definition crc32c_pointer_x86_64 (crc : Z) (bytes : list Z) : Z :=
  let '(state, rest) := word_loop (length bytes) (u32_not crc) bytes in
  let crc := u32_not state in
  if zlen rest =? 0 then crc
  else u32_not (foldl mm_crc32_u8 (u32_not crc) rest).

Definition crc32c_pointer_aarch64 (crc : Z) (bytes : list Z) : Z :=
  let '(state, rest) := word_loop (length bytes) (u32_not crc) bytes in
  let crc := u32_not state in
  if zlen rest =? 0 then crc
  else u32_not (foldl mm_crc32_u8 (u32_not crc) rest).

(** Which path runs is decided at run time. *)
Inductive crc_path := X86 | Aarch64 | TablePath.

Definition crc32c_pointer_append (path : crc_path) (crc : Z) (bytes : list Z) : Z :=
  match path with
  | X86 => crc32c_pointer_x86_64 crc bytes
  | Aarch64 => crc32c_pointer_aarch64 crc bytes
  | TablePath => crc32c_pointer_table crc bytes
  end.

(** ** With the checksum field read as zero *)

Definition ZEROES : list Z := replicate 64 0.

(** [while remaining >= 64 { .. } if remaining != 0 { .. }]. *)
Fixpoint zero_run (append : Z -> list Z -> Z) (fuel : nat) (crc remaining : Z) : Z :=
  match fuel with
  | O => crc
  | S fuel' =>
      if 64 <=? remaining then zero_run append fuel' (append crc ZEROES) (remaining - 64)
      else if negb (remaining =? 0) then append crc (sub ZEROES 0 remaining)
      else crc
  end.

Definition zeroed_with (append : Z -> list Z -> Z) (first : Z) (bytes : list Z) (zero_at zero_len : Z) : Z :=
  let zero_end := zero_at + zero_len in
  let crc := zero_run append (S (Z.to_nat (zero_len / 64))) first zero_len in
  append crc (sub bytes zero_end (zlen bytes - zero_end)).

Definition crc32c_pointer_with_zeroed (path : crc_path) (bytes : list Z) (zero_at zero_len : Z) : Z :=
  zeroed_with (crc32c_pointer_append path)
    (crc32c_pointer_append path 0 (sub bytes 0 zero_at)) bytes zero_at zero_len.

Fixpoint source_loop (bytes : list Z) (zero_at zero_end : Z) (crc index : Z) (n : nat) : option Z :=
  match n with
  | O => Some crc
  | S n' =>
      b ← (if (zero_at <=? index) && (index <? zero_end) then Some 0 else byte bytes index);
      source_loop bytes zero_at zero_end (table_step crc b) (index + 1) n'
  end.

(** [contiguous] tells whether the source has a pointer to all its bytes. *)
Definition crc32c_source_with_zeroed (path : crc_path) (contiguous : bool) (bytes : list Z)
    (zero_at zero_len : Z) : option Z :=
  zero_end ← checked_add usize_max zero_at zero_len;
  if zlen bytes <? zero_end then None
  else if contiguous then Some (crc32c_pointer_with_zeroed path bytes zero_at zero_len)
  else
    crc ← source_loop bytes zero_at zero_end u32_max 0 (length bytes);
    Some (u32_not crc).

Section Crate.
(** [::crc32c::crc32c_append]; [::crc32c::crc32c] starts it from zero. *)
Context (crc32c_append : Z -> list Z -> Z).

Definition crc32c_with_zeroed (bytes : list Z) (zero_at zero_len : Z) : option Z :=
  zero_end ← checked_add usize_max zero_at zero_len;
  if zlen bytes <? zero_end then None
  else Some (zeroed_with crc32c_append (crc32c_append 0 (sub bytes 0 zero_at)) bytes zero_at zero_len).

Definition crc32c_page_mut_with_zeroed (page : list Z) (zero_at zero_len : Z) : option Z :=
  crc32c_with_zeroed page zero_at zero_len.

(** ** [page_checksum.rs] *)

Definition OFFSET : Z := 28.
Definition LENGTH : Z := 4.

Definition clear (page : list Z) : Result (list Z) := put_u32 page OFFSET 0.

Definition seal_mapped (page : list Z) : Result (list Z) :=
  page ← clear page;
  checksum ← ok_or (crc32c_page_mut_with_zeroed page OFFSET LENGTH)
               (Corrupt "page checksum field is invalid");
  put_u32 page OFFSET checksum.
End Crate.

Definition valid (path : crc_path) (contiguous : bool) (page : list Z) : Result bool :=
  stored ← u32_le page OFFSET;
  Ok (bool_decide (crc32c_source_with_zeroed path contiguous page OFFSET LENGTH = Some stored)).
