(* ===== verification/ChecksumFacts.v ===== *)
(** * What the checksums guarantee

    Every path computes the same CRC-32C; a sealed page validates; a page in
    which one byte was changed after sealing does not. *)

From stdpp Require Import base tactics numbers list strings.
From Stdlib Require Import ZArith Lia.
From S2P Require Import Prelude Errors Bytes PageHeader Checksum.

#[local] Open Scope string_scope.
#[local] Open Scope list_scope.
#[local] Open Scope Z_scope.

(** ** The rounds are linear *)

Lemma crc_bit_eq x : crc_bit x = Z.lxor (Z.shiftr x 1) (if Z.testbit x 0 then POLYNOMIAL else 0).
Proof.
  unfold crc_bit. f_equal. change 1 with (Z.ones 1) at 1. rewrite Z.land_ones by lia.
  rewrite Z.bit0_odd. change (2 ^ 1) with 2. rewrite Zmod_odd. by destruct (Z.odd x).
Qed.

Lemma crc_bit_lxor a b : crc_bit (Z.lxor a b) = Z.lxor (crc_bit a) (crc_bit b).
Proof.
  rewrite !crc_bit_eq, Z.shiftr_lxor, Z.lxor_spec.
  destruct (Z.testbit a 0), (Z.testbit b 0); cbn [xorb]; apply Z.bits_inj'; intros n Hn;
    rewrite !Z.lxor_spec, ?Z.bits_0;
    destruct (Z.testbit (Z.shiftr a 1) n), (Z.testbit (Z.shiftr b 1) n), (Z.testbit POLYNOMIAL n); done.
Qed.

Lemma crc_bits_lxor n a b : crc_bits n (Z.lxor a b) = Z.lxor (crc_bits n a) (crc_bits n b).
Proof. revert a b. induction n as [|n IH]; intros a b; simpl; [done |]. by rewrite crc_bit_lxor, IH. Qed.

(** Rounds over zero bits only shift. *)
Lemma crc_bits_shift n x : (forall j, 0 <= j < Z.of_nat n -> Z.testbit x j = false) ->
  crc_bits n x = Z.shiftr x (Z.of_nat n).
Proof.
  revert x. induction n as [|n IH]; intros x Hz; [by rewrite Z.shiftr_0_r |]. simpl crc_bits.
  rewrite crc_bit_eq, Hz, Z.lxor_0_r by lia. rewrite IH.
  - rewrite Z.shiftr_shiftr by lia. f_equal. lia.
  - intros j Hj. rewrite Z.shiftr_spec by lia. apply Hz. lia.
Qed.

Lemma TABLE_entry i : 0 <= i < 256 -> bget TABLE i = crc_bits 8 i.
Proof.
  intros Hi. change TABLE with crc_table. unfold bget, crc_table.
  rewrite (nth_indep _ 0 ((fun index => crc_bits 8 (Z.of_nat index)) 0%nat)) by (rewrite length_map, length_seq; lia).
  rewrite (map_nth (fun index => crc_bits 8 (Z.of_nat index))), seq_nth by lia. f_equal. lia.
Qed.

Lemma low_byte x : 0 <= Z.land x 255 < 256.
Proof. change 255 with (Z.ones 8). rewrite Z.land_ones by lia. apply Z.mod_pos_bound. lia. Qed.

(** One table lookup is eight rounds. *)
Lemma table_step_bits s b : is_byte b -> table_step s b = mm_crc32_u8 s b.
Proof.
  intros Hb. unfold table_step, mm_crc32_u8. set (x := Z.lxor s b).
  rewrite (TABLE_entry _ (low_byte x)).
  assert (Hx : x = Z.lxor (Z.land x 255) (Z.shiftl (Z.shiftr x 8) 8)).
  { apply Z.bits_inj'. intros j Hj. change 255 with (Z.ones 8).
    rewrite Z.lxor_spec, Z.land_spec, Z.shiftl_spec, Z.testbit_ones_nonneg by lia.
    destruct (Z.ltb_spec j 8).
    - rewrite (Z.testbit_neg_r _ (j - 8)) by lia. by rewrite andb_true_r, xorb_false_r.
    - rewrite Z.shiftr_spec, Z.sub_add by lia. by rewrite andb_false_r, xorb_false_l. }
  rewrite Hx at 2. rewrite crc_bits_lxor. f_equal.
  rewrite (crc_bits_shift 8) by (intros j Hj; rewrite Z.shiftl_spec by lia; apply Z.testbit_neg_r; lia).
  change (Z.of_nat 8) with 8. rewrite Z.shiftr_shiftl_l, Z.sub_diag, Z.shiftl_0_r by lia.
  subst x. rewrite Z.shiftr_lxor.
  rewrite (Z.shiftr_div_pow2 b) by lia. unfold is_byte in Hb. change (2 ^ 8) with 256.
  by rewrite (Z.div_small b), Z.lxor_0_r by lia.
Qed.

Lemma fold_bits s bytes : bytes_ok bytes -> foldl mm_crc32_u8 s bytes = foldl table_step s bytes.
Proof.
  intros Hb. revert s. induction Hb as [|b bytes Hb _ IH]; intros s; simpl; [done |].
  by rewrite table_step_bits, IH.
Qed.

(** ** Every path is one function *)

Lemma u32_not_not v : u32_not (u32_not v) = v.
Proof. unfold u32_not. by rewrite <- Z.lxor_assoc, Z.lxor_nilpotent, Z.lxor_0_l. Qed.

Lemma word_loop_fold fuel : forall s bytes, bytes_ok bytes ->
  foldl mm_crc32_u8 (fst (word_loop fuel s bytes)) (snd (word_loop fuel s bytes)) = foldl mm_crc32_u8 s bytes.
Proof.
  induction fuel as [|fuel IH]; intros s bytes Hb; simpl; [done |].
  destruct (Z.leb_spec 8 (zlen bytes)) as [Hle | _]; [| done].
  rewrite IH by by apply bytes_ok_drop. unfold mm_crc32_u64.
  assert (Hl : length (take 8 bytes) = 8%nat) by (rewrite length_take; unfold zlen in Hle; lia).
  pose proof (le_bytes_val (take 8 bytes) (bytes_ok_take _ _ Hb)) as Hv. rewrite Hl in Hv.
  by rewrite Hv, <- foldl_app, take_drop.
Qed.

Lemma hardware_path crc bytes : bytes_ok bytes ->
  crc32c_pointer_x86_64 crc bytes = crc32c_pointer_table crc bytes
  /\ crc32c_pointer_aarch64 crc bytes = crc32c_pointer_table crc bytes.
Proof.
  intros Hb. unfold crc32c_pointer_x86_64, crc32c_pointer_aarch64, crc32c_pointer_table.
  pose proof (word_loop_fold (length bytes) (u32_not crc) bytes Hb) as Hw.
  destruct (word_loop (length bytes) (u32_not crc) bytes) as [state rest]. simpl in Hw.
  rewrite (fold_bits (u32_not crc) bytes Hb) in Hw. rewrite <- Hw.
  destruct (Z.eqb_spec (zlen rest) 0) as [He | _]; [| by rewrite u32_not_not].
  by rewrite (zlen_zero_nil _ He).
Qed.

Lemma append_path path crc bytes : bytes_ok bytes ->
  crc32c_pointer_append path crc bytes = crc32c_pointer_table crc bytes.
Proof. intros Hb. destruct (hardware_path crc bytes Hb). by destruct path. Qed.

Lemma table_app crc a b :
  crc32c_pointer_table (crc32c_pointer_table crc a) b = crc32c_pointer_table crc (a ++ b).
Proof. unfold crc32c_pointer_table. by rewrite u32_not_not, foldl_app. Qed.

Lemma zeroes_ok n : bytes_ok (replicate n 0).
Proof. apply Forall_replicate. by split. Qed.

(** [append] computes the CRC-32C of the bytes after those of [crc]. *)
Definition continues_crc32c (append : Z -> list Z -> Z) : Prop :=
  forall crc bytes, bytes_ok bytes -> append crc bytes = crc32c_pointer_table crc bytes.

Lemma zero_run_ok append fuel : continues_crc32c append -> forall crc n, 0 <= n -> n / 64 < Z.of_nat fuel ->
  zero_run append fuel crc n = crc32c_pointer_table crc (replicate (Z.to_nat n) 0).
Proof.
  intros Ha. induction fuel as [|fuel IH]; intros crc n Hn Hf; [pose proof (Z.div_pos n 64); lia |].
  cbn [zero_run]. destruct (Z.leb_spec 64 n).
  - rewrite IH, Ha by (apply zeroes_ok || lia || (replace (n - 64) with (n + (-1) * 64) by lia; rewrite Z.div_add; lia)).
    unfold ZEROES. rewrite table_app, <- replicate_add. do 2 f_equal. lia.
  - destruct (Z.eqb_spec n 0) as [-> | Hne]; cbn [negb].
    + unfold crc32c_pointer_table. simpl. by rewrite u32_not_not.
    + assert (Hsub : sub ZEROES 0 n = replicate (Z.to_nat n) 0).
      { unfold sub, ZEROES. rewrite drop_0, take_replicate. f_equal. lia. }
      rewrite Hsub. apply Ha, zeroes_ok.
Qed.

Definition zeroed (bytes : list Z) (at_ n : Z) : list Z := splice bytes at_ (replicate (Z.to_nat n) 0).

Lemma zeroed_with_ok append bytes at_ n : continues_crc32c append -> bytes_ok bytes ->
  0 <= at_ -> 0 <= n -> at_ + n <= zlen bytes ->
  zeroed_with append (append 0 (sub bytes 0 at_)) bytes at_ n = crc32c_pointer_table 0 (zeroed bytes at_ n).
Proof.
  intros Ha Hb Hat Hn Hle. unfold zeroed_with.
  rewrite zero_run_ok by (done || lia || (pose proof (Z.div_pos n 64); lia)).
  rewrite !Ha by by apply bytes_ok_sub. rewrite !table_app. f_equal.
  unfold zeroed, splice, sub. rewrite zlen_replicate, drop_0, Z2Nat.id by lia. do 2 f_equal.
  apply take_ge. rewrite length_drop. unfold zlen in *. lia.
Qed.

Lemma source_loop_ok bytes at_ e n : forall crc index, 0 <= index -> index + Z.of_nat n <= zlen bytes ->
  source_loop bytes at_ e crc index n
  = Some (foldl table_step crc (map (fun k => let i := index + Z.of_nat k in
            if (at_ <=? i) && (i <? e) then 0 else bget bytes i) (seq 0 n))).
Proof.
  induction n as [|n IH]; intros crc index Hi Hl; [done |]. cbn [source_loop].
  assert (Hb : (if (at_ <=? index) && (index <? e) then Some 0 else byte bytes index)
               = Some (if (at_ <=? index) && (index <? e) then 0 else bget bytes index)).
  { destruct (_ && _); [done |]. unfold byte. by rewrite (proj2 (Z.ltb_lt index (zlen bytes))) by lia. }
  rewrite Hb. cbn [mbind option_bind]. rewrite IH by lia. simpl. rewrite Z.add_0_r. do 2 f_equal.
  rewrite <- seq_shift, map_map. apply map_ext. intros k. cbv zeta.
  by replace (index + Z.of_nat (S k)) with (index + 1 + Z.of_nat k) by lia.
Qed.

Lemma zeroed_bytes bytes at_ n : 0 <= at_ -> 0 <= n -> at_ + n <= zlen bytes ->
  map (fun k => let i := 0 + Z.of_nat k in if (at_ <=? i) && (i <? at_ + n) then 0 else bget bytes i)
    (seq 0 (length bytes)) = zeroed bytes at_ n.
Proof.
  intros Ha Hn Hl. assert (Hz : zlen (replicate (Z.to_nat n) 0) = n) by (rewrite zlen_replicate; lia).
  assert (Hlen : zlen (zeroed bytes at_ n) = zlen bytes) by (apply zlen_splice; lia).
  apply list_ext.
  - rewrite Hlen. unfold zlen. by rewrite length_map, length_seq.
  - intros i Hi. unfold zlen in Hi at 1. rewrite length_map, length_seq in Hi.
    unfold zeroed. rewrite bget_splice by lia. rewrite Hz. unfold bget at 1.
    set (f := fun k : nat => _). rewrite (nth_indep _ 0 (f 0%nat)) by (rewrite length_map, length_seq; lia).
    rewrite map_nth, seq_nth by lia. unfold f. rewrite Nat.add_0_l, Z2Nat.id, Z.add_0_l by lia.
    destruct (Z.leb_spec at_ i), (Z.ltb_spec i (at_ + n)); cbn [andb]; try done.
    symmetry. apply bget_replicate. lia.
Qed.

Lemma source_ok path contiguous bytes at_ n : bytes_ok bytes -> 0 <= at_ -> 0 <= n ->
  at_ + n <= zlen bytes -> zlen bytes <= usize_max ->
  crc32c_source_with_zeroed path contiguous bytes at_ n = Some (crc32c_pointer_table 0 (zeroed bytes at_ n)).
Proof.
  intros Hb Ha Hn Hl Hu. unfold crc32c_source_with_zeroed, checked_add.
  rewrite (proj2 (Z.leb_le _ usize_max)) by lia. cbn [mbind option_bind].
  rewrite (proj2 (Z.ltb_ge (zlen bytes) _)) by lia. destruct contiguous.
  - f_equal. unfold crc32c_pointer_with_zeroed. apply zeroed_with_ok; try done.
    intros crc bs Hbs. by apply append_path.
  - rewrite source_loop_ok by (unfold zlen in *; lia). cbn [mbind option_bind].
    rewrite zeroed_bytes by done. done.
Qed.

(** ** Ranges and injectivity of the step *)

Lemma lxor_range w a b : 0 <= w -> 0 <= a < 2 ^ w -> 0 <= b < 2 ^ w -> 0 <= Z.lxor a b < 2 ^ w.
Proof.
  intros Hw Ha Hb. assert (Hn : 0 <= Z.lxor a b) by (apply Z.lxor_nonneg; lia). split; [done |].
  destruct (Z.eq_dec (Z.lxor a b) 0) as [-> | Hne]; [lia |].
  apply Z.log2_lt_pow2; [lia |]. pose proof (Z.log2_lxor a b ltac:(lia) ltac:(lia)) as Hl.
  assert (Hlog : forall x, 0 <= x < 2 ^ w -> x <> 0 -> Z.log2 x < w) by (intros x ? ?; apply Z.log2_lt_pow2; lia).
  assert (Hw0 : 0 < w).
  { destruct (Z.eq_dec w 0) as [-> | ?]; [| lia]. change (2 ^ 0) with 1 in *.
    assert (a = 0) as -> by lia. assert (b = 0) as -> by lia. done. }
  destruct (Z.eq_dec a 0) as [-> | Ha0], (Z.eq_dec b 0) as [-> | Hb0];
    rewrite ?(Z.log2_nonpos 0) in Hl by lia; try (pose proof (Hlog a Ha Ha0)); try (pose proof (Hlog b Hb Hb0)); lia.
Qed.

Definition is_u32 (v : Z) : Prop := 0 <= v < 2 ^ 32.

Lemma TABLE_u32 i : is_u32 (bget TABLE i).
Proof.
  assert (Hall : Forall is_u32 TABLE) by (unfold TABLE, is_u32; repeat constructor; lia).
  unfold bget. rewrite Forall_nth in Hall. destruct (Nat.lt_ge_cases (Z.to_nat i) (length TABLE)); [auto |].
  rewrite nth_overflow by lia. unfold is_u32; lia.
Qed.

Lemma table_step_u32 s b : is_u32 s -> is_u32 (table_step s b).
Proof.
  intros [H0 H1]. apply lxor_range; [lia | apply TABLE_u32 |].
  rewrite Z.shiftr_div_pow2 by lia. split; [apply Z.div_pos; lia |].
  apply Z.div_lt_upper_bound; lia.
Qed.

Lemma fold_u32 bytes : forall s, is_u32 s -> is_u32 (foldl table_step s bytes).
Proof. induction bytes as [|b bytes IH]; intros s Hs; simpl; [done |]. apply IH, table_step_u32, Hs. Qed.

Lemma u32_not_u32 v : is_u32 v -> is_u32 (u32_not v).
Proof. intros Hv. apply lxor_range; [lia | done | done]. Qed.

Lemma crc_u32 bytes : is_u32 (crc32c_pointer_table 0 bytes).
Proof. apply u32_not_u32, fold_u32, u32_not_u32. by split. Qed.

(** The top bytes of the table are pairwise distinct. *)
Lemma TABLE_top_inj i j : 0 <= i < 256 -> 0 <= j < 256 ->
  Z.shiftr (bget TABLE i) 24 = Z.shiftr (bget TABLE j) 24 -> i = j.
Proof.
  intros Hi Hj He.
  assert (Hall : forallb (fun a => forallb (fun b =>
    implb (Z.shiftr (bget TABLE (Z.of_nat a)) 24 =? Z.shiftr (bget TABLE (Z.of_nat b)) 24) (Nat.eqb a b))
    (seq 0 256)) (seq 0 256) = true) by (vm_compute; reflexivity).
  rewrite forallb_forall in Hall. specialize (Hall (Z.to_nat i) ltac:(apply in_seq; lia)).
  rewrite forallb_forall in Hall. specialize (Hall (Z.to_nat j) ltac:(apply in_seq; lia)).
  rewrite !Z2Nat.id, He, Z.eqb_refl in Hall by lia. simpl in Hall. apply Nat.eqb_eq in Hall. lia.
Qed.

Lemma shiftr_zero v n : 0 <= n -> 0 <= v < 2 ^ n -> Z.shiftr v n = 0.
Proof. intros Hn Hv. rewrite Z.shiftr_div_pow2 by lia. by apply Z.div_small. Qed.

Lemma split_low_byte x y : Z.land x 255 = Z.land y 255 -> Z.shiftr x 8 = Z.shiftr y 8 -> x = y.
Proof.
  intros Hl Hh. apply Z.bits_inj'. intros j Hj. destruct (Z.lt_ge_cases j 8).
  - assert (He : Z.testbit (Z.land x 255) j = Z.testbit (Z.land y 255) j) by by rewrite Hl.
    change 255 with (Z.ones 8) in He. rewrite !Z.land_spec, Z.testbit_ones_nonneg in He by lia.
    rewrite (proj2 (Z.ltb_lt j 8)), !andb_true_r in He by lia. done.
  - assert (He : Z.testbit (Z.shiftr x 8) (j - 8) = Z.testbit (Z.shiftr y 8) (j - 8)) by by rewrite Hh.
    rewrite !Z.shiftr_spec, Z.sub_add in He by lia. done.
Qed.

Lemma table_step_inj s t b c : is_u32 s -> is_u32 t -> is_byte b -> is_byte c ->
  table_step s b = table_step t c -> Z.lxor s b = Z.lxor t c.
Proof.
  intros Hs Ht Hb Hc He. unfold table_step in He.
  assert (Hhi : forall v, is_u32 v -> Z.shiftr (Z.shiftr v 8) 24 = 0).
  { intros v Hv. rewrite Z.shiftr_shiftr by lia. apply shiftr_zero; [lia | exact Hv]. }
  assert (Hidx : Z.land (Z.lxor s b) 255 = Z.land (Z.lxor t c) 255).
  { apply TABLE_top_inj; [apply low_byte | apply low_byte |].
    apply (f_equal (fun v => Z.shiftr v 24)) in He. rewrite !Z.shiftr_lxor in He.
    by rewrite !Hhi, !Z.lxor_0_r in He. }
  apply split_low_byte; [done |]. rewrite Hidx in He.
  assert (Hsh : Z.shiftr s 8 = Z.shiftr t 8).
  { apply (f_equal (Z.lxor (bget TABLE (Z.land (Z.lxor t c) 255)))) in He.
    by rewrite <- !Z.lxor_assoc, Z.lxor_nilpotent, !Z.lxor_0_l in He. }
  rewrite !Z.shiftr_lxor, Hsh. f_equal. by rewrite !(shiftr_zero _ 8).
Qed.

Lemma lxor_cancel_r a b c : Z.lxor a c = Z.lxor b c -> a = b.
Proof.
  intros He. apply (f_equal (fun v => Z.lxor v c)) in He.
  by rewrite !Z.lxor_assoc, Z.lxor_nilpotent, !Z.lxor_0_r in He.
Qed.

Lemma fold_inj bytes : bytes_ok bytes -> forall s t, is_u32 s -> is_u32 t ->
  foldl table_step s bytes = foldl table_step t bytes -> s = t.
Proof.
  intros Hb. induction Hb as [|b bytes Hb _ IH]; intros s t Hs Ht He; simpl in He; [done |].
  apply IH in He; [| by apply table_step_u32 | by apply table_step_u32].
  apply table_step_inj in He; try done. by apply lxor_cancel_r in He.
Qed.

(** A single changed byte changes the CRC. *)
Lemma crc_one_byte a b c rest : bytes_ok rest -> is_byte b -> is_byte c -> b <> c ->
  crc32c_pointer_table 0 (a ++ b :: rest) <> crc32c_pointer_table 0 (a ++ c :: rest).
Proof.
  intros Hr Hb Hc Hne He. unfold crc32c_pointer_table in He.
  apply (f_equal u32_not) in He. rewrite !u32_not_not, !foldl_app in He. simpl in He.
  assert (Hs : is_u32 (foldl table_step (u32_not 0) a)) by (apply fold_u32, u32_not_u32; by split).
  apply fold_inj in He; [| done | by apply table_step_u32 | by apply table_step_u32].
  apply table_step_inj in He; try done. apply Hne.
  rewrite !(Z.lxor_comm (foldl table_step (u32_not 0) a)) in He. by apply lxor_cancel_r in He.
Qed.

(** The same for lists that differ at one index. *)
Lemma split_at (l : list Z) k : 0 <= k < zlen l ->
  l = take (Z.to_nat k) l ++ bget l k :: drop (S (Z.to_nat k)) l.
Proof.
  intros Hk. unfold bget, zlen in *. rewrite <- (take_drop (Z.to_nat k) l) at 1. f_equal.
  rewrite (drop_S l (nth (Z.to_nat k) l 0)); [done |].
  rewrite nth_lookup. destruct (lookup_lt_is_Some_2 l (Z.to_nat k)) as [v ->]; [lia | done].
Qed.

Lemma crc_one_index l m k : bytes_ok l -> bytes_ok m -> zlen l = zlen m -> 0 <= k < zlen l ->
  bget l k <> bget m k -> (forall i, 0 <= i < zlen l -> i <> k -> bget l i = bget m i) ->
  crc32c_pointer_table 0 l <> crc32c_pointer_table 0 m.
Proof.
  intros Hl Hm Hz Hk Hne Hsame. rewrite (split_at l k), (split_at m k) by lia.
  assert (Ht : take (Z.to_nat k) l = take (Z.to_nat k) m).
  { pose proof (sub_ext l m 0 0 k) as He. unfold sub in He. rewrite !drop_0 in He. apply He; try lia.
    intros i Hi. apply Hsame; lia. }
  assert (Hd : drop (S (Z.to_nat k)) l = drop (S (Z.to_nat k)) m).
  { pose proof (sub_ext l m (k + 1) (k + 1) (zlen l - (k + 1))) as He. unfold sub in He.
    rewrite !take_ge in He by (rewrite length_drop; unfold zlen in *; lia).
    replace (Z.to_nat (k + 1)) with (S (Z.to_nat k)) in He by lia. apply He; try lia.
    intros i Hi. apply Hsame; lia. }
  rewrite Ht, Hd. apply crc_one_byte; [by apply bytes_ok_drop | by apply bget_byte | by apply bget_byte | done].
Qed.

(** ** Sealing and validation *)

Lemma valid_eq path contiguous p : page_ok p ->
  valid path contiguous p = Ok (crc32c_pointer_table 0 (zeroed p OFFSET LENGTH) =? u32_at p OFFSET).
Proof.
  intros [Hz Hb]. unfold valid. run (u32_le_page (E := Error) p Hz OFFSET ltac:(done) ltac:(done)).
  rewrite source_ok by (done || (rewrite Hz; done)). f_equal.
  destruct (Z.eqb_spec (crc32c_pointer_table 0 (zeroed p OFFSET LENGTH)) (u32_at p OFFSET)) as [-> | Hne];
    [by apply bool_decide_true | apply bool_decide_false; congruence].
Qed.

Lemma splice_splice (l : list Z) a bs cs : 0 <= a -> zlen cs = zlen bs -> a + zlen bs <= zlen l ->
  splice (splice l a bs) a cs = splice l a cs.
Proof.
  intros Ha Hl Hle. pose proof (zlen_nonneg bs).
  apply list_ext; [rewrite !zlen_splice; rewrite ?zlen_splice; lia |].
  intros i Hi. rewrite !bget_splice; rewrite ?zlen_splice; try lia. rewrite Hl. by destruct (_ && _).
  all: rewrite !zlen_splice in Hi; rewrite ?zlen_splice; lia.
Qed.

Lemma zeroed_splice p v : page_ok p -> zeroed (splice p OFFSET (le_bytes 4 v)) OFFSET LENGTH = zeroed p OFFSET LENGTH.
Proof. intros [Hz _]. unfold zeroed. apply splice_splice; [done | done | rewrite Hz; done]. Qed.

Lemma zeroed_ok l : page_ok l -> bytes_ok (zeroed l OFFSET LENGTH).
Proof. intros [_ Hb]. apply bytes_ok_splice; [done | apply zeroes_ok]. Qed.

Lemma seal_ok append p : continues_crc32c append -> page_ok p ->
  let crc := crc32c_pointer_table 0 (zeroed p OFFSET LENGTH) in
  seal_mapped append p = Ok (splice (splice p OFFSET (le_bytes 4 0)) OFFSET (le_bytes 4 crc)).
Proof.
  intros Ha Hp crc. pose proof Hp as [Hz Hb]. unfold seal_mapped, clear.
  run (put_u32_ok p OFFSET 0 ltac:(done) ltac:(done)).
  set (p1 := splice p OFFSET (le_bytes 4 0)).
  assert (Hp1 : page_ok p1) by (apply page_ok_splice; [done | apply le_bytes_ok | done | done]).
  assert (Hcrc : crc32c_page_mut_with_zeroed append p1 OFFSET LENGTH = Some crc).
  { destruct Hp1 as [Hz1 Hb1]. unfold crc32c_page_mut_with_zeroed, crc32c_with_zeroed. cbn [mbind option_bind].
    change (checked_add usize_max OFFSET LENGTH) with (Some 32). cbn [mbind option_bind].
    rewrite Hz1. change (PAGE_SIZE <? 32) with false. cbv iota. f_equal.
    rewrite zeroed_with_ok by (done || (rewrite Hz1; done)). subst crc p1. by rewrite zeroed_splice. }
  rewrite Hcrc. cbn [ok_or mbind outcome_bind]. by apply put_u32_ok.
Qed.

(** C12: the table loop over single bytes, the x86-64 and the AArch64 loops
    over words, and the loop over a source without a pointer all compute the
    same CRC-32C of the bytes with the given field read as zero. *)
Theorem checksum_paths_agree path contiguous bytes at_ n :
  bytes_ok bytes -> 0 <= at_ -> 0 <= n -> at_ + n <= zlen bytes -> zlen bytes <= usize_max ->
  crc32c_source_with_zeroed path contiguous bytes at_ n
  = Some (crc32c_pointer_table 0 (splice bytes at_ (replicate (Z.to_nat n) 0))).
Proof. apply source_ok. Qed.

(** C13: sealing a page changes the checksum field only, and the sealed page
    validates on every path. *)
Theorem sealed_page_valid append p path contiguous :
  continues_crc32c append -> page_ok p ->
  exists p', seal_mapped append p = Ok p' /\ page_ok p' /\ valid path contiguous p' = Ok true
    /\ forall i, 0 <= i < PAGE_SIZE -> i < OFFSET \/ OFFSET + LENGTH <= i -> bget p' i = bget p i.
Proof.
  intros Ha Hp. rewrite (seal_ok append p Ha Hp). set (crc := crc32c_pointer_table 0 (zeroed p OFFSET LENGTH)).
  pose proof Hp as [Hz _].
  assert (Hp1 : page_ok (splice p OFFSET (le_bytes 4 0))) by (apply page_ok_splice; [done | apply le_bytes_ok | done | done]).
  assert (Hp2 : page_ok (splice (splice p OFFSET (le_bytes 4 0)) OFFSET (le_bytes 4 crc)))
    by (apply page_ok_splice; [done | apply le_bytes_ok | done | done]).
  eexists. split; [done |]. split; [done |]. split.
  - rewrite (valid_eq _ _ _ Hp2), !zeroed_splice by done. fold crc. f_equal. apply Z.eqb_eq.
    unfold u32_at. change (sub ?l OFFSET 4) with (sub l OFFSET (zlen (le_bytes 4 crc))).
    rewrite sub_splice_same by (done || (rewrite (proj1 Hp1); done)).
    symmetry. apply le_val_bytes. exact (crc_u32 _).
  - intros i Hi Hout. rewrite splice_splice by (done || (rewrite Hz; done)).
    rewrite bget_splice by (done || lia || (rewrite Hz; done)). zlen_simp. unfold OFFSET, LENGTH in *. zcase.
Qed.

(** C14: a page that validates stops validating when any one of its bytes is
    changed, whether a byte of the contents or of the checksum itself. *)
Theorem one_byte_corruption_detected p q k path contiguous path' contiguous' :
  page_ok p -> page_ok q -> valid path contiguous p = Ok true ->
  0 <= k < PAGE_SIZE -> bget q k <> bget p k ->
  (forall i, 0 <= i < PAGE_SIZE -> i <> k -> bget q i = bget p i) ->
  valid path' contiguous' q = Ok false.
Proof.
  intros Hp Hq Hv Hk Hne Hsame. rewrite valid_eq in Hv |- * by done.
  injection Hv as Hv%Z.eqb_eq. f_equal. apply Z.eqb_neq. intros Hbad.
  pose proof Hp as [Hzp Hbp]. pose proof Hq as [Hzq Hbq].
  assert (Hz4 : zlen (replicate (Z.to_nat LENGTH) 0) = 4) by done.
  assert (Hzb : forall l i, zlen l = PAGE_SIZE -> 0 <= i < PAGE_SIZE ->
    bget (zeroed l OFFSET LENGTH) i = if (OFFSET <=? i) && (i <? 32) then 0 else bget l i).
  { intros l i Hl Hi. unfold zeroed. rewrite bget_splice by (done || lia || (rewrite Hl; done)). rewrite Hz4.
    change (OFFSET + 4) with 32. destruct (Z.leb_spec OFFSET i), (Z.ltb_spec i 32); cbn [andb]; try done.
    apply bget_replicate. change (Z.of_nat (Z.to_nat LENGTH)) with 4. unfold OFFSET in *. lia. }
  assert (Hlz : forall l, zlen l = PAGE_SIZE -> zlen (zeroed l OFFSET LENGTH) = PAGE_SIZE).
  { intros l Hl. unfold zeroed. rewrite zlen_splice; [done | done | rewrite Hl; done]. }
  assert (Hout : k < OFFSET \/ 32 <= k -> False).
  { intros Hout. apply (crc_one_index (zeroed q OFFSET LENGTH) (zeroed p OFFSET LENGTH) k).
    - by apply zeroed_ok.
    - by apply zeroed_ok.
    - by rewrite !Hlz.
    - by rewrite Hlz.
    - rewrite !Hzb by done. unfold OFFSET in *. by zcase.
    - intros i Hi Hik. rewrite Hlz in Hi by done. rewrite !Hzb, Hsame by done. done.
    - rewrite Hv, Hbad. unfold u32_at. f_equal. apply sub_ext; try (done || lia || (rewrite ?Hzp, ?Hzq; done)).
      intros i Hi. apply Hsame; unfold OFFSET, PAGE_SIZE in *; lia. }
  destruct (Z.le_gt_cases OFFSET k) as [Hlo | Hlo]; [destruct (Z.lt_ge_cases k 32) as [Hhi | Hhi] |].
  - assert (Heq : zeroed q OFFSET LENGTH = zeroed p OFFSET LENGTH).
    { apply list_ext; [by rewrite !Hlz |]. intros i Hi. rewrite Hlz in Hi by done. rewrite !Hzb by done.
      destruct (Z.eq_dec i k) as [-> | Hn]; [| by rewrite Hsame].
      by rewrite (proj2 (Z.leb_le OFFSET k)), (proj2 (Z.ltb_lt k 32)). }
    rewrite Heq, Hv in Hbad. unfold u32_at in Hbad.
    assert (Hs : sub p OFFSET 4 = sub q OFFSET 4).
    { assert (Hl : forall l, zlen l = PAGE_SIZE -> length (sub l OFFSET 4) = 4%nat).
      { intros l Hl. pose proof (zlen_sub l OFFSET 4 ltac:(done) ltac:(done) ltac:(rewrite Hl; done)) as He.
        unfold zlen in He. lia. }
      rewrite <- (le_bytes_val (sub p OFFSET 4)), <- (le_bytes_val (sub q OFFSET 4)) by by apply bytes_ok_sub.
      by rewrite Hbad, !Hl. }
    apply Hne. apply (f_equal (fun l => bget l (k - OFFSET))) in Hs. unfold OFFSET in *.
    rewrite !bget_sub in Hs by lia. by replace (28 + (k - 28)) with k in Hs by lia.
  - by apply (Hout (or_intror Hhi)).
  - by apply (Hout (or_introl Hlo)).
Qed.

(** ** Witnesses *)

Lemma checksum_paths_agree_witness :
  crc32c_source_with_zeroed Aarch64 true [49; 50; 51; 52; 53; 54; 55; 56; 57; 9; 9] 9 2
  = Some (crc32c_pointer_table 0 [49; 50; 51; 52; 53; 54; 55; 56; 57; 0; 0]).
Proof.
  apply (checksum_paths_agree Aarch64 true [49; 50; 51; 52; 53; 54; 55; 56; 57; 9; 9] 9 2); try done.
  unfold bytes_ok, is_byte. repeat constructor; lia.
Defined.

(** The check value of CRC-32C. *)
Example crc32c_check_value :
  crc32c_pointer_append X86 0 [49; 50; 51; 52; 53; 54; 55; 56; 57] = 3808858755.
Proof. reflexivity. Qed.

Definition blank_page : list Z := replicate 4096 0.

Lemma blank_page_ok : page_ok blank_page.
Proof. split; [done | apply zeroes_ok]. Qed.

Lemma table_continues : continues_crc32c crc32c_pointer_table.
Proof. by intros crc bytes _. Qed.

Lemma sealed_page_valid_witness :
  exists p', seal_mapped crc32c_pointer_table blank_page = Ok p' /\ page_ok p' /\ valid TablePath false p' = Ok true
    /\ forall i, 0 <= i < PAGE_SIZE -> i < OFFSET \/ OFFSET + LENGTH <= i -> bget p' i = bget blank_page i.
Proof. exact (sealed_page_valid crc32c_pointer_table blank_page TablePath false table_continues blank_page_ok). Defined.

(** The blank page with its CRC, and the same page with byte 100 changed. *)
Definition sealed_blank : list Z :=
  splice blank_page OFFSET (le_bytes 4 (crc32c_pointer_table 0 blank_page)).

Lemma one_byte_corruption_detected_witness :
  valid X86 true sealed_blank = Ok true /\ valid TablePath false (splice sealed_blank 100 [1]) = Ok false.
Proof.
  assert (Hp : page_ok sealed_blank).
  { split; [by vm_compute |]. apply bytes_ok_splice; [apply zeroes_ok | apply le_bytes_ok]. }
  assert (Hv : valid X86 true sealed_blank = Ok true) by (vm_compute; reflexivity).
  split; [exact Hv |].
  apply (one_byte_corruption_detected sealed_blank (splice sealed_blank 100 [1]) 100 X86 true).
  - exact Hp.
  - split; [by vm_compute |]. apply bytes_ok_splice; [apply (proj2 Hp) |]. repeat constructor; unfold is_byte; lia.
  - exact Hv.
  - unfold PAGE_SIZE. lia.
  - vm_compute. discriminate.
  - intros i Hi Hne. destruct Hp as [Hz _]. rewrite bget_splice.
    + change (zlen [1]) with 1. zcase.
    + lia.
    + rewrite Hz. change (zlen [1]) with 1. unfold PAGE_SIZE. lia.
    + lia.
Defined.
