(* ===== verification/Contract.v ===== *)
(** * The meta page

    The wire contract of [contract.rs]: value tags, the 256-byte meta record
    at the start of a meta page with its encoder and its unchecked decoder,
    and the predicates a reader asks of a meta page before it trusts it. *)

From stdpp Require Import base tactics numbers list strings.
From Stdlib Require Import ZArith Lia.
From S2P Require Import Prelude Errors Bytes PageHeader Checksum.

#[local] Open Scope string_scope.
#[local] Open Scope list_scope.
#[local] Open Scope Z_scope.

(** ** Constants *)

Definition PAGE_SHIFT : Z := 12.
Definition META_SIZE : Z := 256.
Definition MAX_PAGE_COUNT : Z := 4294967296.
Definition MAX_METADATA_UNCOMPRESSED : Z := 20 * 1024 * 1024.
(** [*b"IPRANGE4"]. *)
Definition META_MAGIC : list Z := [73; 80; 82; 65; 78; 71; 69; 52].

Definition META_CRC_OFFSET : Z := 252.
Definition META_MAGIC_OFFSET : Z := 0.
Definition META_SIZE_OFFSET : Z := 8.
Definition PAGE_SHIFT_OFFSET : Z := 10.
Definition ADDRESS_FAMILY_OFFSET : Z := 11.
Definition VALUE_KIND_OFFSET : Z := 12.
Definition STRUCTURE_KIND_OFFSET : Z := 13.
Definition VALUE_TAG_OFFSET : Z := 16.
Definition DATABASE_ID_OFFSET : Z := 32.
Definition TXN_ID_OFFSET : Z := 48.
Definition COMMIT_NONCE_OFFSET : Z := 56.
Definition PAGE_COUNT_OFFSET : Z := 72.
Definition RANGE_RECORD_COUNT_OFFSET : Z := 80.
Definition ACTIVE_FEED_COUNT_OFFSET : Z := 88.
Definition FEED_INDEX_LIMIT_OFFSET : Z := 96.
Definition MEMBERSHIP_ENTRY_COUNT_OFFSET : Z := 104.
Definition MEMBERSHIP_ID_LIMIT_OFFSET : Z := 112.
Definition METADATA_UNCOMPRESSED_LEN_OFFSET : Z := 120.
Definition METADATA_COMPRESSED_LEN_OFFSET : Z := 128.
Definition RETIRED_EXTENT_COUNT_OFFSET : Z := 136.
Definition RANGE_ROOT_OFFSET : Z := 144.
Definition CATALOG_NAME_ROOT_OFFSET : Z := 148.
Definition CATALOG_INDEX_ROOT_OFFSET : Z := 152.
Definition FEED_USED_ROOT_OFFSET : Z := 156.
Definition MEMBERSHIP_ID_ROOT_OFFSET : Z := 160.
Definition MEMBERSHIP_HASH_ROOT_OFFSET : Z := 164.
Definition MEMBERSHIP_USED_ROOT_OFFSET : Z := 168.
Definition METADATA_ROOT_OFFSET : Z := 172.
Definition FREE_BITMAP_ROOT_OFFSET : Z := 176.
Definition RETIREMENT_ROOT_OFFSET : Z := 180.
Definition ALLOCATOR_RESERVE_OFFSET : Z := 184.
Definition STRUCTURE_ENTRY_COUNT_OFFSET : Z := 200.
Definition STRUCTURE_ID_LIMIT_OFFSET : Z := 208.
Definition STRUCTURE_ID_ROOT_OFFSET : Z := 216.
Definition STRUCTURE_HASH_ROOT_OFFSET : Z := 220.
Definition STRUCTURE_USED_ROOT_OFFSET : Z := 224.
Definition RESERVED_HEADER_OFFSET : Z := 14.
Definition RESERVED_HEADER_LEN : Z := 2.
Definition RESERVED_BODY_OFFSET : Z := 228.

(** ** Value tags

    A tag is its 16 wire bytes: the name, then zeros; the last byte is zero. *)

Definition FIRST_SEEN : list Z := [102; 105; 114; 115; 116; 95; 115; 101; 101; 110; 0; 0; 0; 0; 0; 0].
Definition LAST_SEEN : list Z := [108; 97; 115; 116; 95; 115; 101; 101; 110; 0; 0; 0; 0; 0; 0; 0].

(** [iter().position(|&byte| byte == 0)]. *)
Fixpoint position_zero (bytes : list Z) : option Z :=
  match bytes with
  | [] => None
  | b :: rest => if b =? 0 then Some 0 else Z.succ <$> position_zero rest
  end.

Definition tag_new (bytes : list Z) : option (list Z) :=
  if (15 <? zlen bytes) || existsb (fun b => b =? 0) bytes then None
  else Some (splice (replicate 16 0) 0 bytes).

Definition tag_from_wire (storage : list Z) : option (list Z) :=
  nul ← position_zero storage;
  if existsb (fun b => negb (b =? 0)) (drop (Z.to_nat nul) storage) then None
  else Some storage.

Definition tag_bytes (tag : list Z) : list Z :=
  sub tag 0 (default 15 (position_zero tag)).

Definition direct_semantic (tag : list Z) : DirectSemantic :=
  if bool_decide (tag = FIRST_SEEN) then FirstSeen
  else if bool_decide (tag = LAST_SEEN) then LastSeen
  else Generic.

(** One operation per address on memberships; it has no wire form. *)
Inductive MembershipOperation : Type := Replace | Union | Difference | Intersection | Xor.

(** ** The record *)

Record MetaV4 := mkMetaV4 {
  address_family : AddressFamily;
  value_kind : ValueKind;
  structure_kind_code : Z;
  value_tag : list Z;
  database_id : list Z;
  txn_id : Z;
  commit_nonce : list Z;
  page_count : Z;
  range_record_count : Z;
  active_feed_count : Z;
  feed_index_limit : Z;
  membership_entry_count : Z;
  membership_id_limit : Z;
  metadata_uncompressed_len : Z;
  metadata_compressed_len : Z;
  retired_extent_count : Z;
  range_root : Z;
  catalog_name_root : Z;
  catalog_index_root : Z;
  feed_used_root : Z;
  membership_id_root : Z;
  membership_hash_root : Z;
  membership_used_root : Z;
  metadata_root : Z;
  free_bitmap_root : Z;
  retirement_root : Z;
  allocator_reserve : list Z;
  structure_entry_count : Z;
  structure_id_limit : Z;
  structure_id_root : Z;
  structure_hash_root : Z;
  structure_used_root : Z;
}.

#[global] Instance MetaV4_eq_dec : EqDecision MetaV4.
Proof. solve_decision. Defined.

(** ** Encoding *)

(** [for (index, page_number) in allocator_reserve.iter().enumerate()]. *)
Fixpoint put_reserve (page : list Z) (index : Z) (reserve : list Z) : Result (list Z) :=
  match reserve with
  | [] => Ok page
  | page_number :: rest =>
      page ← put_u32 page (ALLOCATOR_RESERVE_OFFSET + index * 4) page_number;
      put_reserve page (index + 1) rest
  end.

(** The first statement fills the whole page, so the old contents are no
    argument. *)
Definition encode_fields (m : MetaV4) : Result (list Z) :=
  let page := page_fill 0 in
  page ← page_write page META_MAGIC_OFFSET META_MAGIC;
  page ← put_u16 page META_SIZE_OFFSET META_SIZE;
  page ← set_byte page PAGE_SHIFT_OFFSET PAGE_SHIFT;
  page ← set_byte page ADDRESS_FAMILY_OFFSET (family_to_wire (address_family m));
  page ← set_byte page VALUE_KIND_OFFSET (value_kind_to_wire (value_kind m));
  page ← set_byte page STRUCTURE_KIND_OFFSET (structure_kind_code m);
  page ← page_write page VALUE_TAG_OFFSET (value_tag m);
  page ← page_write page DATABASE_ID_OFFSET (database_id m);
  page ← put_u64 page TXN_ID_OFFSET (txn_id m);
  page ← page_write page COMMIT_NONCE_OFFSET (commit_nonce m);
  page ← put_u64 page PAGE_COUNT_OFFSET (page_count m);
  page ← put_u64 page RANGE_RECORD_COUNT_OFFSET (range_record_count m);
  page ← put_u64 page ACTIVE_FEED_COUNT_OFFSET (active_feed_count m);
  page ← put_u64 page FEED_INDEX_LIMIT_OFFSET (feed_index_limit m);
  page ← put_u64 page MEMBERSHIP_ENTRY_COUNT_OFFSET (membership_entry_count m);
  page ← put_u64 page MEMBERSHIP_ID_LIMIT_OFFSET (membership_id_limit m);
  page ← put_u64 page METADATA_UNCOMPRESSED_LEN_OFFSET (metadata_uncompressed_len m);
  page ← put_u64 page METADATA_COMPRESSED_LEN_OFFSET (metadata_compressed_len m);
  page ← put_u64 page RETIRED_EXTENT_COUNT_OFFSET (retired_extent_count m);
  page ← put_u32 page RANGE_ROOT_OFFSET (range_root m);
  page ← put_u32 page CATALOG_NAME_ROOT_OFFSET (catalog_name_root m);
  page ← put_u32 page CATALOG_INDEX_ROOT_OFFSET (catalog_index_root m);
  page ← put_u32 page FEED_USED_ROOT_OFFSET (feed_used_root m);
  page ← put_u32 page MEMBERSHIP_ID_ROOT_OFFSET (membership_id_root m);
  page ← put_u32 page MEMBERSHIP_HASH_ROOT_OFFSET (membership_hash_root m);
  page ← put_u32 page MEMBERSHIP_USED_ROOT_OFFSET (membership_used_root m);
  page ← put_u32 page METADATA_ROOT_OFFSET (metadata_root m);
  page ← put_u32 page FREE_BITMAP_ROOT_OFFSET (free_bitmap_root m);
  page ← put_u32 page RETIREMENT_ROOT_OFFSET (retirement_root m);
  page ← put_reserve page 0 (allocator_reserve m);
  page ← put_u64 page STRUCTURE_ENTRY_COUNT_OFFSET (structure_entry_count m);
  page ← put_u64 page STRUCTURE_ID_LIMIT_OFFSET (structure_id_limit m);
  page ← put_u32 page STRUCTURE_ID_ROOT_OFFSET (structure_id_root m);
  page ← put_u32 page STRUCTURE_HASH_ROOT_OFFSET (structure_hash_root m);
  page ← put_u32 page STRUCTURE_USED_ROOT_OFFSET (structure_used_root m);
  Ok page.

(** [crc32c_append] is the crate function, as in the page checksums. *)
Definition encode_mapped (crc32c_append : Z -> list Z -> Z) (m : MetaV4) : Result (list Z) :=
  page ← encode_fields m;
  crc ← expect (crc32c_page_mut_with_zeroed crc32c_append page META_CRC_OFFSET 4) "fixed meta CRC field";
  put_u32 page META_CRC_OFFSET crc.

(** ** Decoding *)

Definition decode_unchecked (page : list Z) : option MetaV4 :=
  tag ← array 16 page VALUE_TAG_OFFSET;
  database_id ← array 16 page DATABASE_ID_OFFSET;
  commit_nonce ← array 16 page COMMIT_NONCE_OFFSET;
  address_family ← byte page ADDRESS_FAMILY_OFFSET ≫= family_from_wire;
  value_kind ← byte page VALUE_KIND_OFFSET ≫= value_kind_from_wire;
  structure_kind_code ← byte page STRUCTURE_KIND_OFFSET;
  value_tag ← tag_from_wire tag;
  txn_id ← u64_source page TXN_ID_OFFSET;
  page_count ← u64_source page PAGE_COUNT_OFFSET;
  range_record_count ← u64_source page RANGE_RECORD_COUNT_OFFSET;
  active_feed_count ← u64_source page ACTIVE_FEED_COUNT_OFFSET;
  feed_index_limit ← u64_source page FEED_INDEX_LIMIT_OFFSET;
  membership_entry_count ← u64_source page MEMBERSHIP_ENTRY_COUNT_OFFSET;
  membership_id_limit ← u64_source page MEMBERSHIP_ID_LIMIT_OFFSET;
  metadata_uncompressed_len ← u64_source page METADATA_UNCOMPRESSED_LEN_OFFSET;
  metadata_compressed_len ← u64_source page METADATA_COMPRESSED_LEN_OFFSET;
  retired_extent_count ← u64_source page RETIRED_EXTENT_COUNT_OFFSET;
  range_root ← u32_source page RANGE_ROOT_OFFSET;
  catalog_name_root ← u32_source page CATALOG_NAME_ROOT_OFFSET;
  catalog_index_root ← u32_source page CATALOG_INDEX_ROOT_OFFSET;
  feed_used_root ← u32_source page FEED_USED_ROOT_OFFSET;
  membership_id_root ← u32_source page MEMBERSHIP_ID_ROOT_OFFSET;
  membership_hash_root ← u32_source page MEMBERSHIP_HASH_ROOT_OFFSET;
  membership_used_root ← u32_source page MEMBERSHIP_USED_ROOT_OFFSET;
  metadata_root ← u32_source page METADATA_ROOT_OFFSET;
  free_bitmap_root ← u32_source page FREE_BITMAP_ROOT_OFFSET;
  retirement_root ← u32_source page RETIREMENT_ROOT_OFFSET;
  reserve0 ← u32_source page ALLOCATOR_RESERVE_OFFSET;
  reserve1 ← u32_source page (ALLOCATOR_RESERVE_OFFSET + 4);
  reserve2 ← u32_source page (ALLOCATOR_RESERVE_OFFSET + 8);
  reserve3 ← u32_source page (ALLOCATOR_RESERVE_OFFSET + 12);
  structure_entry_count ← u64_source page STRUCTURE_ENTRY_COUNT_OFFSET;
  structure_id_limit ← u64_source page STRUCTURE_ID_LIMIT_OFFSET;
  structure_id_root ← u32_source page STRUCTURE_ID_ROOT_OFFSET;
  structure_hash_root ← u32_source page STRUCTURE_HASH_ROOT_OFFSET;
  structure_used_root ← u32_source page STRUCTURE_USED_ROOT_OFFSET;
  Some (mkMetaV4 address_family value_kind structure_kind_code value_tag database_id txn_id commit_nonce
    page_count range_record_count active_feed_count feed_index_limit membership_entry_count
    membership_id_limit metadata_uncompressed_len metadata_compressed_len retired_extent_count
    range_root catalog_name_root catalog_index_root feed_used_root membership_id_root
    membership_hash_root membership_used_root metadata_root free_bitmap_root retirement_root
    [reserve0; reserve1; reserve2; reserve3]
    structure_entry_count structure_id_limit structure_id_root structure_hash_root structure_used_root).

Definition static_identity_eq (a b : MetaV4) : bool :=
  bool_decide (address_family a = address_family b)
  && bool_decide (value_kind a = value_kind b)
  && (structure_kind_code a =? structure_kind_code b)
  && bool_decide (value_tag a = value_tag b)
  && bool_decide (database_id a = database_id b).

Definition roots (m : MetaV4) : list Z :=
  [ range_root m; catalog_name_root m; catalog_index_root m; feed_used_root m;
    membership_id_root m; membership_hash_root m; membership_used_root m; metadata_root m;
    free_bitmap_root m; retirement_root m;
    structure_id_root m; structure_hash_root m; structure_used_root m ].

Definition structure_kind (m : MetaV4) : option StructureKind :=
  structure_kind_from_wire (structure_kind_code m).

(** ** The predicates of a meta page *)

Definition meta_magic_valid (page : list Z) : bool :=
  (zlen page =? PAGE_SIZE) && equals page META_MAGIC_OFFSET META_MAGIC.

Definition meta_fixed_values_valid (page : list Z) : bool :=
  bool_decide (u16_source page META_SIZE_OFFSET = Some META_SIZE)
  && bool_decide (byte page PAGE_SHIFT_OFFSET = Some PAGE_SHIFT)
  && bool_decide (is_Some (byte page ADDRESS_FAMILY_OFFSET ≫= family_from_wire))
  && bool_decide (is_Some (byte page VALUE_KIND_OFFSET ≫= value_kind_from_wire)).

Definition meta_reserved_zero (page : list Z) : bool :=
  all_zero page RESERVED_HEADER_OFFSET RESERVED_HEADER_LEN
  && all_zero page RESERVED_BODY_OFFSET (META_CRC_OFFSET - RESERVED_BODY_OFFSET)
  && all_zero page META_SIZE (PAGE_SIZE - META_SIZE).

Definition meta_checksum_valid (path : crc_path) (contiguous : bool) (page : list Z) : bool :=
  match u32_source page META_CRC_OFFSET with
  | Some stored =>
      bool_decide (crc32c_source_with_zeroed path contiguous page META_CRC_OFFSET 4 = Some stored)
  | None => false
  end.
