(* ===== verification/ContractFacts.v ===== *)
(** * What the meta codec guarantees

    An encoded meta page passes every predicate a reader asks and decodes to
    the record that was encoded; a page that passes them is the encoding of
    the record it decodes to, so two different accepted pages never mean the
    same generation.  Value tags keep their bytes. *)

From stdpp Require Import base tactics numbers list strings.
From Stdlib Require Import ZArith Lia.
From S2P Require Import Prelude Errors Bytes PageHeader Checksum ChecksumFacts LayoutFacts Contract.

#[local] Open Scope string_scope.
#[local] Open Scope list_scope.
#[local] Open Scope Z_scope.

(** Conversion must never run a CRC over a symbolic page. *)
#[local] Opaque crc32c_pointer_table.

(** ** Fields painted on a page *)

(** A field is an offset with its bytes. *)
Definition field : Type := (Z * list Z)%type.
Definition paint (p : list Z) (fs : list field) : list Z :=
  foldl (fun p f => splice p (fst f) (snd f)) p fs.
Definition holds (p : list Z) (fs : list field) : Prop :=
  Forall (fun f => sub p (fst f) (zlen (snd f)) = snd f) fs.
Definition outside (fs : list field) (i : Z) : Prop :=
  Forall (fun f => i < fst f \/ fst f + zlen (snd f) <= i) fs.

(** In ascending order, without overlap, in [from, size). *)
Fixpoint ordered (from size : Z) (fs : list field) : Prop :=
  match fs with
  | [] => from <= size
  | f :: rest => from <= fst f /\ ordered (fst f + zlen (snd f)) size rest
  end.

Lemma ordered_le fs : forall from size, ordered from size fs -> from <= size.
Proof.
  induction fs as [|f fs IH]; intros from size Ho; simpl in Ho; [done |].
  destruct Ho as [Hf Ho]. apply IH in Ho. pose proof (zlen_nonneg (snd f)). lia.
Qed.

Lemma zlen_paint fs : forall p from, 0 <= from -> ordered from (zlen p) fs -> zlen (paint p fs) = zlen p.
Proof.
  induction fs as [|f fs IH]; intros p from Hf Ho; [done |]. destruct Ho as [Hlo Ho].
  pose proof (zlen_nonneg (snd f)). pose proof (ordered_le _ _ _ Ho).
  change (paint p (f :: fs)) with (paint (splice p (fst f) (snd f)) fs).
  assert (Hz : zlen (splice p (fst f) (snd f)) = zlen p) by (apply zlen_splice; lia).
  rewrite (IH _ (fst f + zlen (snd f))), Hz by (rewrite ?Hz; done || lia). done.
Qed.

Lemma paint_before fs : forall p from a n, 0 <= a -> 0 <= n -> a + n <= from -> ordered from (zlen p) fs ->
  sub (paint p fs) a n = sub p a n.
Proof.
  induction fs as [|f fs IH]; intros p from a n Ha Hn Hle Ho; [done |]. destruct Ho as [Hlo Ho].
  pose proof (zlen_nonneg (snd f)). pose proof (ordered_le _ _ _ Ho).
  change (paint p (f :: fs)) with (paint (splice p (fst f) (snd f)) fs).
  assert (Hz : zlen (splice p (fst f) (snd f)) = zlen p) by (apply zlen_splice; lia).
  rewrite (IH _ (fst f + zlen (snd f))) by (rewrite ?Hz; done || lia). apply sub_splice_other; lia.
Qed.

Lemma paint_holds fs : forall p from, 0 <= from -> ordered from (zlen p) fs -> holds (paint p fs) fs.
Proof.
  induction fs as [|f fs IH]; intros p from Hf Ho; [constructor |]. destruct Ho as [Hlo Ho].
  pose proof (zlen_nonneg (snd f)). pose proof (ordered_le _ _ _ Ho).
  change (paint p (f :: fs)) with (paint (splice p (fst f) (snd f)) fs).
  assert (Hz : zlen (splice p (fst f) (snd f)) = zlen p) by (apply zlen_splice; lia).
  rewrite <- Hz in Ho. constructor; [| apply (IH _ (fst f + zlen (snd f))); [lia | done]].
  rewrite (paint_before _ _ (fst f + zlen (snd f))) by (done || lia). apply sub_splice_same; lia.
Qed.

Lemma splice_self (l : list Z) a n : 0 <= a -> 0 <= n -> a + n <= zlen l -> splice l a (sub l a n) = l.
Proof.
  intros Ha Hn Hl. apply list_ext; [apply zlen_splice; rewrite ?zlen_sub; lia |].
  intros i Hi. rewrite zlen_splice in Hi by (rewrite ?zlen_sub; lia).
  rewrite bget_splice by (rewrite ?zlen_sub; lia). rewrite zlen_sub by lia. zcase.
  rewrite bget_sub by lia. f_equal. lia.
Qed.

Lemma paint_id fs : forall p from, 0 <= from -> ordered from (zlen p) fs -> holds p fs -> paint p fs = p.
Proof.
  induction fs as [|f fs IH]; intros p from Hf Ho Hh; [done |]. destruct Ho as [Hlo Ho].
  apply Forall_cons in Hh as [Hh1 Hh]. pose proof (zlen_nonneg (snd f)). pose proof (ordered_le _ _ _ Ho).
  change (paint p (f :: fs)) with (paint (splice p (fst f) (snd f)) fs).
  rewrite <- Hh1, splice_self by lia. apply (IH _ (fst f + zlen (snd f))); [lia | done | done].
Qed.

Lemma paint_ext fs : forall p q from, 0 <= from -> ordered from (zlen p) fs -> zlen p = zlen q ->
  (forall i, 0 <= i < zlen p -> outside fs i -> bget p i = bget q i) -> paint p fs = paint q fs.
Proof.
  induction fs as [|f fs IH]; intros p q from Hf Ho Hz Hout.
  { apply list_ext; [done |]. intros i Hi. apply Hout; [done | constructor]. }
  destruct Ho as [Hlo Ho]. pose proof (zlen_nonneg (snd f)). pose proof (ordered_le _ _ _ Ho).
  assert (Hzp : zlen (splice p (fst f) (snd f)) = zlen p) by (apply zlen_splice; lia).
  apply (IH _ _ (fst f + zlen (snd f))); [lia | by rewrite Hzp | rewrite Hzp, zlen_splice; lia |].
  intros i Hi Ho'. rewrite Hzp in Hi. rewrite !bget_splice by lia. zcase; apply Hout; try done; constructor; try done; lia.
Qed.

(** A page that holds the fields and agrees with [z] elsewhere is [z] painted. *)
Lemma painted_unique p z fs from : 0 <= from -> ordered from (zlen p) fs -> zlen p = zlen z -> holds p fs ->
  (forall i, 0 <= i < zlen p -> outside fs i -> bget p i = bget z i) -> p = paint z fs.
Proof. intros Hf Ho Hz Hh Hout. rewrite <- (paint_id fs p from) by done. by apply (paint_ext fs p z from). Qed.

Lemma paint_app p fs gs : paint p (fs ++ gs) = paint (paint p fs) gs.
Proof. apply foldl_app. Qed.

Lemma paint_bytes_ok fs : forall p, bytes_ok p -> Forall (fun f => bytes_ok (snd f)) fs -> bytes_ok (paint p fs).
Proof.
  induction fs as [|f fs IH]; intros p Hp Hfs; [done |]. apply Forall_cons in Hfs as [Hf Hfs].
  apply IH; [| done]. by apply bytes_ok_splice.
Qed.

Lemma paint_bget_outside fs : forall p from i, 0 <= from -> ordered from (zlen p) fs -> 0 <= i ->
  outside fs i -> bget (paint p fs) i = bget p i.
Proof.
  induction fs as [|f fs IH]; intros p from i Hf Ho Hi Hout; [done |]. destruct Ho as [Hlo Ho].
  apply Forall_cons in Hout as [Hf1 Hout]. pose proof (zlen_nonneg (snd f)). pose proof (ordered_le _ _ _ Ho).
  change (paint p (f :: fs)) with (paint (splice p (fst f) (snd f)) fs).
  assert (Hzp : zlen (splice p (fst f) (snd f)) = zlen p) by (apply zlen_splice; lia).
  rewrite (IH _ (fst f + zlen (snd f))) by (rewrite ?Hzp; done || lia). rewrite bget_splice by lia. zcase.
Qed.

(** ** The fields of a meta record *)

Definition is_u64 (v : Z) : Prop := 0 <= v <= u64_max.
Definition is_id16 (l : list Z) : Prop := zlen l = 16 /\ bytes_ok l.

(** The types of the record's fields: widths, array lengths, a tag built by
    one of its two constructors. *)
Record meta_ok (m : MetaV4) : Prop := {
  ok_structure_code : is_byte (structure_kind_code m);
  ok_tag : is_id16 (value_tag m) /\ tag_from_wire (value_tag m) = Some (value_tag m);
  ok_database_id : is_id16 (database_id m);
  ok_commit_nonce : is_id16 (commit_nonce m);
  ok_txn : is_u64 (txn_id m);
  ok_counts : Forall is_u64
    [ page_count m; range_record_count m; active_feed_count m; feed_index_limit m;
      membership_entry_count m; membership_id_limit m; metadata_uncompressed_len m;
      metadata_compressed_len m; retired_extent_count m ];
  ok_roots : Forall is_u32
    [ range_root m; catalog_name_root m; catalog_index_root m; feed_used_root m; membership_id_root m;
      membership_hash_root m; membership_used_root m; metadata_root m; free_bitmap_root m; retirement_root m ];
  ok_reserve : length (allocator_reserve m) = 4%nat /\ Forall is_u32 (allocator_reserve m);
  ok_structure_counts : Forall is_u64 [ structure_entry_count m; structure_id_limit m ];
  ok_structure_roots : Forall is_u32 [ structure_id_root m; structure_hash_root m; structure_used_root m ];
}.

Definition reserve_at (m : MetaV4) (i : nat) : Z := nth i (allocator_reserve m) 0.

Definition meta_fields (m : MetaV4) : list field :=
  [ (META_MAGIC_OFFSET, META_MAGIC);
    (META_SIZE_OFFSET, le_bytes 2 META_SIZE);
    (PAGE_SHIFT_OFFSET, [PAGE_SHIFT]);
    (ADDRESS_FAMILY_OFFSET, [family_to_wire (address_family m)]);
    (VALUE_KIND_OFFSET, [value_kind_to_wire (value_kind m)]);
    (STRUCTURE_KIND_OFFSET, [structure_kind_code m]);
    (VALUE_TAG_OFFSET, value_tag m);
    (DATABASE_ID_OFFSET, database_id m);
    (TXN_ID_OFFSET, le_bytes 8 (txn_id m));
    (COMMIT_NONCE_OFFSET, commit_nonce m);
    (PAGE_COUNT_OFFSET, le_bytes 8 (page_count m));
    (RANGE_RECORD_COUNT_OFFSET, le_bytes 8 (range_record_count m));
    (ACTIVE_FEED_COUNT_OFFSET, le_bytes 8 (active_feed_count m));
    (FEED_INDEX_LIMIT_OFFSET, le_bytes 8 (feed_index_limit m));
    (MEMBERSHIP_ENTRY_COUNT_OFFSET, le_bytes 8 (membership_entry_count m));
    (MEMBERSHIP_ID_LIMIT_OFFSET, le_bytes 8 (membership_id_limit m));
    (METADATA_UNCOMPRESSED_LEN_OFFSET, le_bytes 8 (metadata_uncompressed_len m));
    (METADATA_COMPRESSED_LEN_OFFSET, le_bytes 8 (metadata_compressed_len m));
    (RETIRED_EXTENT_COUNT_OFFSET, le_bytes 8 (retired_extent_count m));
    (RANGE_ROOT_OFFSET, le_bytes 4 (range_root m));
    (CATALOG_NAME_ROOT_OFFSET, le_bytes 4 (catalog_name_root m));
    (CATALOG_INDEX_ROOT_OFFSET, le_bytes 4 (catalog_index_root m));
    (FEED_USED_ROOT_OFFSET, le_bytes 4 (feed_used_root m));
    (MEMBERSHIP_ID_ROOT_OFFSET, le_bytes 4 (membership_id_root m));
    (MEMBERSHIP_HASH_ROOT_OFFSET, le_bytes 4 (membership_hash_root m));
    (MEMBERSHIP_USED_ROOT_OFFSET, le_bytes 4 (membership_used_root m));
    (METADATA_ROOT_OFFSET, le_bytes 4 (metadata_root m));
    (FREE_BITMAP_ROOT_OFFSET, le_bytes 4 (free_bitmap_root m));
    (RETIREMENT_ROOT_OFFSET, le_bytes 4 (retirement_root m));
    (ALLOCATOR_RESERVE_OFFSET, le_bytes 4 (reserve_at m 0));
    (ALLOCATOR_RESERVE_OFFSET + 4, le_bytes 4 (reserve_at m 1));
    (ALLOCATOR_RESERVE_OFFSET + 8, le_bytes 4 (reserve_at m 2));
    (ALLOCATOR_RESERVE_OFFSET + 12, le_bytes 4 (reserve_at m 3));
    (STRUCTURE_ENTRY_COUNT_OFFSET, le_bytes 8 (structure_entry_count m));
    (STRUCTURE_ID_LIMIT_OFFSET, le_bytes 8 (structure_id_limit m));
    (STRUCTURE_ID_ROOT_OFFSET, le_bytes 4 (structure_id_root m));
    (STRUCTURE_HASH_ROOT_OFFSET, le_bytes 4 (structure_hash_root m));
    (STRUCTURE_USED_ROOT_OFFSET, le_bytes 4 (structure_used_root m)) ].

(** Where the fields lie, independently of the values. *)
Definition spans (fs : list field) : list (Z * Z) := map (fun f => (fst f, zlen (snd f))) fs.

Fixpoint ordered_spans (from size : Z) (l : list (Z * Z)) : bool :=
  match l with
  | [] => from <=? size
  | s :: rest => (from <=? fst s) && ordered_spans (fst s + snd s) size rest
  end.

Lemma ordered_by_spans fs : forall from size, ordered_spans from size (spans fs) = true -> ordered from size fs.
Proof.
  induction fs as [|f fs IH]; intros from size H; simpl in *; [by apply Z.leb_le |].
  apply andb_true_iff in H as [Hle H]. split; [by apply Z.leb_le | by apply IH].
Qed.

Definition meta_spans : list (Z * Z) := Eval vm_compute in
  spans (meta_fields (mkMetaV4 Ipv4 Direct 0 (replicate 16 0) (replicate 16 0) 0 (replicate 16 0)
    0 0 0 0 0 0 0 0 0 0 0 0 0 0 0 0 0 0 0 [0; 0; 0; 0] 0 0 0 0 0)).

Lemma spans_meta m : meta_ok m -> spans (meta_fields m) = meta_spans.
Proof.
  intros Hm. destruct (ok_tag m Hm) as [[Ht _] _], (ok_database_id m Hm) as [Hd _], (ok_commit_nonce m Hm) as [Hn _].
  unfold spans, meta_fields. cbn [map fst snd]. rewrite Ht, Hd, Hn, !zlen_le_bytes. reflexivity.
Qed.

Lemma meta_ordered m rest : meta_ok m -> ordered 228 PAGE_SIZE rest -> ordered 0 PAGE_SIZE (meta_fields m ++ rest).
Proof.
  intros Hm Hr.
  assert (Hgen : forall fs from mid size, ordered_spans from mid (spans fs) = true -> ordered mid size rest ->
    ordered from size (fs ++ rest)).
  { intros fs. induction fs as [|f fs IH]; intros from mid size Ho Hm'; simpl in *.
    - apply Z.leb_le in Ho. destruct rest as [|g gs]; simpl in *; [lia | destruct Hm'; split; [lia | done]].
    - apply andb_true_iff in Ho as [Hle Ho]. split; [by apply Z.leb_le | by apply (IH _ mid)]. }
  apply (Hgen _ _ 228); [rewrite spans_meta by done; reflexivity | done].
Qed.

(** ** Encoding *)

Ltac write_step :=
  (erewrite bind_run; [| first
     [ apply page_write_ok | apply put_u16_ok | apply put_u32_ok | apply put_u64_ok | apply set_byte_ok ];
     first [ done | by match goal with H : zlen _ = 16 |- _ => rewrite H end ] ]); cbv beta.

Lemma put_reserve_ok p a b c d :
  put_reserve p 0 [a; b; c; d] = Ok (paint p
    [ (ALLOCATOR_RESERVE_OFFSET, le_bytes 4 a); (ALLOCATOR_RESERVE_OFFSET + 4, le_bytes 4 b);
      (ALLOCATOR_RESERVE_OFFSET + 8, le_bytes 4 c); (ALLOCATOR_RESERVE_OFFSET + 12, le_bytes 4 d) ]).
Proof. cbn [put_reserve]. do 4 write_step. reflexivity. Qed.

Lemma encode_fields_ok m : meta_ok m -> encode_fields m = Ok (paint (page_fill 0) (meta_fields m)).
Proof.
  intros Hm. destruct (ok_tag m Hm) as [[Ht _] _], (ok_database_id m Hm) as [Hd _], (ok_commit_nonce m Hm) as [Hn _].
  destruct (ok_reserve m Hm) as [Hr _]. unfold encode_fields. cbv zeta. do 29 write_step.
  assert (Hres : allocator_reserve m = [reserve_at m 0; reserve_at m 1; reserve_at m 2; reserve_at m 3]).
  { unfold reserve_at. destruct (allocator_reserve m) as [|a [|b [|c [|d [|e l]]]]]; simpl in Hr; try lia. done. }
  rewrite Hres. erewrite bind_run; [| apply put_reserve_ok]. cbv beta.
  do 5 write_step. unfold meta_fields, paint. cbn [foldl fst snd]. reflexivity.
Qed.

(** ** Decoding *)

Section ReadFields.
Context (p : list Z) (Hp : zlen p = PAGE_SIZE).

Lemma field_u64 a v : sub p a (zlen (le_bytes 8 v)) = le_bytes 8 v ->
  0 <= a -> a + 8 <= PAGE_SIZE -> is_u64 v -> u64_source p a = Some v.
Proof using Hp.
  rewrite zlen_le_bytes. intros Hs Ha Hle Hv. rewrite u64_source_page by done. unfold u64_at.
  change 8 with (Z.of_nat 8). rewrite Hs, le_val_bytes; [done |]. unfold is_u64, u64_max in Hv. simpl. lia.
Qed.

Lemma field_u32 a v : sub p a (zlen (le_bytes 4 v)) = le_bytes 4 v ->
  0 <= a -> a + 4 <= PAGE_SIZE -> is_u32 v -> u32_source p a = Some v.
Proof using Hp.
  rewrite zlen_le_bytes. intros Hs Ha Hle Hv. rewrite u32_source_page by done. unfold u32_at.
  change 4 with (Z.of_nat 4). rewrite Hs, le_val_bytes; [done |]. exact Hv.
Qed.

Lemma byte_page a : 0 <= a < PAGE_SIZE -> byte p a = Some (bget p a).
Proof using Hp. intros Ha. unfold byte. rewrite Hp. by rewrite (proj2 (Z.ltb_lt a PAGE_SIZE)) by lia. Qed.

Lemma field_byte a v : sub p a (zlen [v]) = [v] -> 0 <= a < PAGE_SIZE -> byte p a = Some v.
Proof using Hp.
  intros Hs Ha. rewrite byte_page by done. f_equal. change (zlen [v]) with 1 in Hs.
  apply (f_equal (fun l => bget l 0)) in Hs. rewrite bget_sub, Z.add_0_r in Hs by lia. done.
Qed.

Lemma field_id a l : sub p a (zlen l) = l -> 0 <= a -> a + 16 <= PAGE_SIZE -> is_id16 l ->
  array 16 p a = Some l.
Proof using Hp.
  intros Hs Ha Hle [Hl _]. rewrite array_Some by (done || lia || by apply page_lt_usize).
  rewrite <- Hl, Hs. done.
Qed.
End ReadFields.

Ltac forall_split H :=
  repeat (let H1 := fresh "Hf" in apply Forall_cons in H as [H1 H]; cbn [fst snd] in H1).

Lemma decode_holds m p : meta_ok m -> zlen p = PAGE_SIZE -> holds p (meta_fields m) -> decode_unchecked p = Some m.
Proof.
  intros Hm Hp Hh. destruct (ok_tag m Hm) as [Hti Htw].
  pose proof (ok_database_id m Hm) as Hd. pose proof (ok_commit_nonce m Hm) as Hn.
  pose proof (ok_txn m Hm) as Hx. pose proof (ok_counts m Hm) as Hc. pose proof (ok_roots m Hm) as Hr.
  pose proof (ok_structure_counts m Hm) as Hsc. pose proof (ok_structure_roots m Hm) as Hsr.
  destruct (ok_reserve m Hm) as [Hrl Hrs].
  assert (Hri : forall i, (i < 4)%nat -> is_u32 (reserve_at m i)).
  { intros i Hi. rewrite Forall_nth in Hrs. apply Hrs. lia. }
  assert (Hres : allocator_reserve m = [reserve_at m 0; reserve_at m 1; reserve_at m 2; reserve_at m 3]).
  { unfold reserve_at. destruct (allocator_reserve m) as [|a [|b [|c [|d [|e l]]]]]; simpl in Hrl; try lia. done. }
  unfold holds, meta_fields in Hh. forall_split Hh. forall_split Hc. forall_split Hr. forall_split Hsc. forall_split Hsr.
  unfold decode_unchecked.
  repeat (first
    [ erewrite field_id by (eassumption || done)
    | erewrite field_byte by (eassumption || done)
    | erewrite field_u64 by (eassumption || done)
    | erewrite field_u32 by (eassumption || done || (apply Hri; lia)) ]; cbn [mbind option_bind]).
  rewrite Htw, family_from_to, value_kind_from_to. cbn [mbind option_bind]. rewrite <- Hres. by destruct m.
Qed.

(** ** What an accepted page holds *)

Lemma sub_len p a n : zlen p = PAGE_SIZE -> 0 <= a -> 0 <= n -> a + n <= PAGE_SIZE -> zlen (sub p a n) = n.
Proof. intros Hp Ha Hn Hle. apply zlen_sub; lia. Qed.

Section AcceptedFields.
Context (p : list Z) (Hp : page_ok p).

Lemma at_bytes n a : 0 <= a -> a + Z.of_nat n <= PAGE_SIZE ->
  let v := le_val (sub p a (Z.of_nat n)) in
  sub p a (zlen (le_bytes n v)) = le_bytes n v /\ 0 <= v < 256 ^ Z.of_nat n.
Proof using Hp.
  destruct Hp as [Hz Hb]. intros Ha Hle v. rewrite zlen_le_bytes.
  pose proof (sub_len p a (Z.of_nat n) Hz Ha ltac:(lia) Hle) as Hl.
  pose proof (le_bytes_val (sub p a (Z.of_nat n)) (bytes_ok_sub _ _ _ Hb)) as Hv.
  pose proof (le_val_range (sub p a (Z.of_nat n)) (bytes_ok_sub _ _ _ Hb)) as Hr. rewrite Hl in Hr.
  unfold zlen in Hl. apply Nat2Z.inj in Hl. rewrite Hl in Hv. split; [by subst v | done].
Qed.

Lemma u64_at_field a : 0 <= a -> a + 8 <= PAGE_SIZE ->
  sub p a (zlen (le_bytes 8 (u64_at p a))) = le_bytes 8 (u64_at p a).
Proof using Hp. intros. by apply (at_bytes 8). Qed.
Lemma u32_at_field a : 0 <= a -> a + 4 <= PAGE_SIZE ->
  sub p a (zlen (le_bytes 4 (u32_at p a))) = le_bytes 4 (u32_at p a).
Proof using Hp. intros. by apply (at_bytes 4). Qed.
Lemma u64_at_u64 a : 0 <= a -> a + 8 <= PAGE_SIZE -> is_u64 (u64_at p a).
Proof using Hp.
  intros. pose proof (proj2 (at_bytes 8 a ltac:(done) ltac:(done))) as Hr. change (Z.of_nat 8) with 8 in Hr.
  unfold is_u64, u64_max, u64_at. change (256 ^ 8) with 18446744073709551616 in Hr. lia.
Qed.
Lemma u32_at_u32 a : 0 <= a -> a + 4 <= PAGE_SIZE -> is_u32 (u32_at p a).
Proof using Hp. intros. exact (proj2 (at_bytes 4 a ltac:(done) ltac:(done))). Qed.

Lemma bget_field a : 0 <= a < PAGE_SIZE -> sub p a (zlen [bget p a]) = [bget p a].
Proof using Hp.
  destruct Hp as [Hz _]. intros Ha. change (zlen [_]) with 1.
  apply list_ext; [rewrite sub_len by (done || lia); done |].
  intros i Hi. rewrite sub_len in Hi by (done || lia). assert (i = 0) as -> by lia.
  rewrite bget_sub, Z.add_0_r by lia. done.
Qed.

Lemma sub_id16 a : 0 <= a -> a + 16 <= PAGE_SIZE -> is_id16 (sub p a 16) /\ sub p a (zlen (sub p a 16)) = sub p a 16.
Proof using Hp.
  destruct Hp as [Hz Hb]. intros Ha Hle. unfold is_id16. rewrite !sub_len by (done || lia).
  split; [split; [done | by apply bytes_ok_sub] | done].
Qed.
End AcceptedFields.

Lemma tag_from_wire_inv s t : tag_from_wire s = Some t -> t = s.
Proof.
  unfold tag_from_wire. destruct (position_zero s) as [n|]; [| discriminate]. cbn [mbind option_bind].
  destruct (existsb _ _); [discriminate | by intros [= <-]].
Qed.

Lemma family_wire_inv v f : family_from_wire v = Some f -> v = family_to_wire f.
Proof. unfold family_from_wire. repeat case_match; intros [= <-]; reflexivity. Qed.
Lemma value_kind_wire_inv v k : value_kind_from_wire v = Some k -> v = value_kind_to_wire k.
Proof. unfold value_kind_from_wire. repeat case_match; intros [= <-]; reflexivity. Qed.

Lemma equals_sub p a e : zlen p = PAGE_SIZE -> 0 <= a -> a + zlen e <= PAGE_SIZE ->
  equals p a e = true <-> sub p a (zlen e) = e.
Proof.
  intros Hp Ha Hle. pose proof (zlen_nonneg e). unfold equals, checked_add.
  rewrite (proj2 (Z.leb_le _ usize_max)) by (unfold PAGE_SIZE, usize_max, u64_max in *; lia).
  rewrite Hp, (proj2 (Z.leb_le _ PAGE_SIZE)) by done. cbn [andb]. rewrite forallb_forall. split.
  - intros Hall. apply list_ext; [by apply sub_len |]. intros i Hi. rewrite sub_len in Hi by done.
    specialize (Hall (Z.to_nat i)). rewrite in_seq in Hall. unfold zlen in Hi. specialize (Hall ltac:(lia)).
    rewrite Z2Nat.id in Hall by lia. rewrite byte_page in Hall by (done || (unfold zlen in *; lia)).
    apply Z.eqb_eq in Hall. by rewrite bget_sub by (unfold zlen; lia).
  - intros Hs i Hi. apply in_seq in Hi. rewrite byte_page by (done || (unfold zlen in *; lia)).
    apply Z.eqb_eq. rewrite <- Hs. rewrite bget_sub by (unfold zlen in *; lia). done.
Qed.

Lemma decode_inv p m : page_ok p -> meta_magic_valid p = true -> meta_fixed_values_valid p = true ->
  decode_unchecked p = Some m -> meta_ok m /\ holds p (meta_fields m).
Proof.
  intros Hp Hmagic Hfixed Hdec. pose proof Hp as [Hz Hb].
  unfold meta_magic_valid in Hmagic. rewrite Hz in Hmagic. cbn [andb] in Hmagic.
  rewrite Z.eqb_refl, andb_true_l in Hmagic. apply equals_sub in Hmagic; [| done | done | done].
  unfold meta_fixed_values_valid in Hfixed. rewrite !andb_true_iff in Hfixed.
  destruct Hfixed as [[[Hsz Hsh] _] _]. apply bool_decide_eq_true in Hsz, Hsh.
  rewrite u16_source_page in Hsz by done. rewrite byte_page in Hsh by done. injection Hsz as Hsz. injection Hsh as Hsh.
  unfold decode_unchecked in Hdec.
  rewrite !array_Some, !byte_page in Hdec by (done || (by apply page_lt_usize) || (rewrite Hz; done)). cbn [mbind option_bind] in Hdec.
  destruct (family_from_wire (bget p ADDRESS_FAMILY_OFFSET)) as [fam|] eqn:Hfam; [| discriminate].
  destruct (value_kind_from_wire (bget p VALUE_KIND_OFFSET)) as [kind|] eqn:Hkind; [| discriminate].
  destruct (tag_from_wire (sub p VALUE_TAG_OFFSET 16)) as [tag|] eqn:Htag; [| discriminate].
  cbn [mbind option_bind] in Hdec. rewrite !u64_source_page, !u32_source_page in Hdec by done.
  cbn [mbind option_bind] in Hdec. pose proof (tag_from_wire_inv _ _ Htag) as ->. injection Hdec as <-.
  split.
  - constructor; cbn;
      first [ by apply bget_byte
            | split; [apply sub_id16; done | done]
            | apply sub_id16; done
            | apply u64_at_u64; done
            | split; [done |]; repeat constructor; apply u32_at_u32; done
            | repeat constructor; first [apply u64_at_u64 | apply u32_at_u32]; done ].
  - unfold holds, meta_fields, reserve_at.
    repeat first [ constructor | progress cbn [fst snd nth
      address_family value_kind structure_kind_code value_tag database_id txn_id commit_nonce page_count
      range_record_count active_feed_count feed_index_limit membership_entry_count membership_id_limit
      metadata_uncompressed_len metadata_compressed_len retired_extent_count range_root catalog_name_root
      catalog_index_root feed_used_root membership_id_root membership_hash_root membership_used_root metadata_root
      free_bitmap_root retirement_root allocator_reserve structure_entry_count structure_id_limit structure_id_root
      structure_hash_root structure_used_root] ].
    all: match goal with
      | |- sub _ _ (zlen META_MAGIC) = _ => exact Hmagic
      | |- sub _ _ (zlen (le_bytes 2 _)) = _ =>
          rewrite <- Hsz; exact (proj1 (at_bytes p Hp 2 META_SIZE_OFFSET ltac:(done) ltac:(done)))
      | |- sub _ _ (zlen (le_bytes 8 _)) = _ => apply u64_at_field; done
      | |- sub _ _ (zlen (le_bytes 4 _)) = _ => apply u32_at_field; done
      | |- sub _ _ (zlen [PAGE_SHIFT]) = _ => rewrite <- Hsh; by apply bget_field
      | |- sub _ _ (zlen [family_to_wire _]) = _ => rewrite <- (family_wire_inv _ _ Hfam); by apply bget_field
      | |- sub _ _ (zlen [value_kind_to_wire _]) = _ => rewrite <- (value_kind_wire_inv _ _ Hkind); by apply bget_field
      | |- sub _ _ (zlen [_]) = _ => by apply bget_field
      | |- _ => apply sub_id16; done
      end.
Qed.

(** ** The gaps and the checksum *)

Definition covers (s : Z * Z) (i : Z) : bool := (fst s <=? i) && (i <? fst s + snd s).

Lemma outside_spans fs i : outside fs i <-> existsb (fun s => covers s i) (spans fs) = false.
Proof.
  unfold outside, covers. induction fs as [|f fs IH]; simpl; [by split; [| constructor] |].
  rewrite Forall_cons, orb_false_iff, <- IH. apply and_iff_compat_r. rewrite andb_false_iff, Z.leb_gt, Z.ltb_ge. done.
Qed.

(** The bytes no field covers are the reserved ones and those after them. *)
Lemma gap_meta m i : meta_ok m -> 0 <= i < PAGE_SIZE -> outside (meta_fields m) i -> 14 <= i < 16 \/ 228 <= i.
Proof.
  intros Hm Hi Hout. apply outside_spans in Hout. rewrite spans_meta in Hout by done.
  destruct (Z.le_gt_cases 228 i) as [? | Hlt]; [by right |]. left.
  assert (Hall : forallb (fun k => let i := Z.of_nat k in
    existsb (fun s => covers s i) meta_spans || (14 <=? i) && (i <? 16)) (seq 0 228) = true) by (vm_compute; reflexivity).
  rewrite forallb_forall in Hall. specialize (Hall (Z.to_nat i) ltac:(apply in_seq; lia)). cbv zeta in Hall.
  rewrite Z2Nat.id, Hout, orb_false_l in Hall by lia. zb. lia.
Qed.

Lemma page_fill_ok : page_ok (page_fill 0).
Proof. split; [done | apply zeroes_ok]. Qed.

Lemma bget_fill i : 0 <= i < PAGE_SIZE -> bget (page_fill 0) i = 0.
Proof. intros Hi. apply bget_replicate. rewrite Z2Nat.id by done. done. Qed.

Definition body (m : MetaV4) : list Z := paint (page_fill 0) (meta_fields m).

Lemma body_eq m : paint (page_fill 0) (meta_fields m) = body m.
Proof. exact eq_refl. Qed.

Lemma meta_fields_bytes m : meta_ok m -> Forall (fun f => bytes_ok (snd f)) (meta_fields m).
Proof.
  intros Hm. destruct (ok_tag m Hm) as [[_ Ht] _], (ok_database_id m Hm) as [_ Hd], (ok_commit_nonce m Hm) as [_ Hn].
  pose proof (ok_structure_code m Hm) as Hs. unfold meta_fields.
  assert (H1 : forall v, is_byte v -> bytes_ok [v]) by (intros v Hv; constructor; [exact Hv | constructor]).
  repeat (constructor; [cbn [snd]; first [ done | apply le_bytes_ok | apply H1; done
    | apply H1; by destruct (address_family m) | apply H1; by destruct (value_kind m)
    | unfold META_MAGIC, bytes_ok, is_byte; repeat constructor; lia ] |]). constructor.
Qed.

Lemma body_page m : meta_ok m -> page_ok (body m).
Proof.
  intros Hm. destruct page_fill_ok as [Hz Hb]. pose proof (meta_ordered m [] Hm ltac:(done)) as Ho.
  rewrite app_nil_r in Ho. rewrite <- Hz in Ho. split.
  - rewrite <- Hz. by apply (zlen_paint _ _ 0).
  - apply paint_bytes_ok; [done | by apply meta_fields_bytes].
Qed.

Lemma meta_checksum_eq path contiguous p : page_ok p ->
  meta_checksum_valid path contiguous p
  = (crc32c_pointer_table 0 (zeroed p META_CRC_OFFSET 4) =? u32_at p META_CRC_OFFSET).
Proof.
  intros [Hz Hb]. unfold meta_checksum_valid. rewrite u32_source_page by done.
  rewrite source_ok by (done || (rewrite Hz; done)).
  destruct (Z.eqb_spec (crc32c_pointer_table 0 (zeroed p META_CRC_OFFSET 4)) (u32_at p META_CRC_OFFSET)) as [-> | Hne];
    [by apply bool_decide_true | apply bool_decide_false; congruence].
Qed.

Lemma zeroed_crc p v : page_ok p ->
  zeroed (splice p META_CRC_OFFSET (le_bytes 4 v)) META_CRC_OFFSET 4 = zeroed p META_CRC_OFFSET 4.
Proof. intros [Hz _]. unfold zeroed. apply splice_splice; [done | done | rewrite Hz; done]. Qed.

Definition meta_crc (m : MetaV4) : Z := crc32c_pointer_table 0 (zeroed (body m) META_CRC_OFFSET 4).

Lemma meta_crc_eq m : meta_crc m = crc32c_pointer_table 0 (zeroed (body m) META_CRC_OFFSET 4).
Proof. exact eq_refl. Qed.
#[local] Opaque body meta_crc.

Definition crc_field (v : Z) : list field := [(META_CRC_OFFSET, le_bytes 4 v)].

Lemma crc_ordered m v : meta_ok m -> ordered 0 PAGE_SIZE (meta_fields m ++ crc_field v).
Proof. intros Hm. apply meta_ordered; [done |]. by split. Qed.

Lemma paint_crc p fs v : paint p (fs ++ crc_field v) = splice (paint p fs) META_CRC_OFFSET (le_bytes 4 v).
Proof. by rewrite paint_app. Qed.

Lemma crate_crc append p : continues_crc32c append -> page_ok p ->
  crc32c_page_mut_with_zeroed append p META_CRC_OFFSET 4
  = Some (crc32c_pointer_table 0 (zeroed p META_CRC_OFFSET 4)).
Proof.
  intros Ha [Hz Hb]. unfold crc32c_page_mut_with_zeroed, crc32c_with_zeroed.
  change (checked_add usize_max META_CRC_OFFSET 4) with (Some 256). cbn [mbind option_bind].
  rewrite Hz. change (PAGE_SIZE <? 256) with false. cbv iota.
  by rewrite zeroed_with_ok by (done || (rewrite Hz; done)).
Qed.

Lemma encode_ok append m : continues_crc32c append -> meta_ok m ->
  encode_mapped append m = Ok (splice (body m) META_CRC_OFFSET (le_bytes 4 (meta_crc m))).
Proof.
  intros Ha Hm. unfold encode_mapped.
  pose proof (encode_fields_ok m Hm) as He. rewrite body_eq in He. run He.
  rewrite (crate_crc append (body m) Ha (body_page m Hm)). cbn [expect mbind outcome_bind].
  rewrite <- meta_crc_eq. generalize (meta_crc m). generalize (body m).
  intros p crc. by apply put_u32_ok.
Qed.

Lemma gap_crc m v i : meta_ok m -> 0 <= i < PAGE_SIZE -> outside (meta_fields m ++ crc_field v) i ->
  14 <= i < 16 \/ 228 <= i < 252 \/ 256 <= i.
Proof.
  intros Hm Hi Hout. apply Forall_app in Hout as [Hout Hc]. apply Forall_cons in Hc as [Hc _].
  cbn [fst snd] in Hc. rewrite zlen_le_bytes in Hc. unfold META_CRC_OFFSET in Hc.
  destruct (gap_meta m i Hm Hi Hout); lia.
Qed.

Lemma outside_gap m v i : meta_ok m -> 14 <= i < 16 \/ 228 <= i < 252 \/ 256 <= i ->
  outside (meta_fields m ++ crc_field v) i.
Proof.
  intros Hm Hi. apply outside_spans. unfold spans. rewrite map_app. fold (spans (meta_fields m)).
  rewrite spans_meta, existsb_app by done. apply orb_false_iff. split.
  - destruct (existsb _ meta_spans) eqn:He; [| done]. apply existsb_exists in He as (s & Hin & Hc).
    assert (Hall : forallb (fun s => (fst s + snd s <=? 14) || (16 <=? fst s) && (fst s + snd s <=? 228)) meta_spans = true)
      by (vm_compute; reflexivity).
    rewrite forallb_forall in Hall. specialize (Hall s Hin). unfold covers in Hc. zb.
    apply orb_true_iff in Hall as [Hall | Hall]; zb; lia.
  - cbn [crc_field map existsb fst snd]. rewrite zlen_le_bytes. unfold covers, META_CRC_OFFSET. cbn [fst snd]. zcase.
Qed.

(** ** Accepted pages *)

(** The four predicates a reader asks before it decodes. *)
Definition meta_accepted (path : crc_path) (contiguous : bool) (p : list Z) : bool :=
  meta_magic_valid p && meta_fixed_values_valid p && meta_reserved_zero p && meta_checksum_valid path contiguous p.

Lemma reserved_zero_iff p : page_ok p ->
  meta_reserved_zero p = true <->
  forall i, 0 <= i < PAGE_SIZE -> 14 <= i < 16 \/ 228 <= i < 252 \/ 256 <= i -> bget p i = 0.
Proof.
  intros Hp. unfold meta_reserved_zero. rewrite !andb_true_iff, !all_zero_spec by done.
  unfold RESERVED_HEADER_OFFSET, RESERVED_HEADER_LEN, RESERVED_BODY_OFFSET, META_CRC_OFFSET, META_SIZE, PAGE_SIZE.
  split.
  - intros [[H1 H2] H3] i Hi [Hg | [Hg | Hg]]; [apply H1 | apply H2 | apply H3]; lia.
  - intros H. split; [split |]; intros i Hi; apply H; lia.
Qed.

Lemma painted_page m v z : meta_ok m -> is_u32 v -> page_ok z -> (forall i, 0 <= i < PAGE_SIZE -> bget z i = 0) ->
  let p := paint z (meta_fields m ++ crc_field v) in
  page_ok p /\ holds p (meta_fields m) /\ u32_at p META_CRC_OFFSET = v /\ meta_reserved_zero p = true.
Proof.
  intros Hm Hv [Hz Hb] Hzero p. pose proof (crc_ordered m v Hm) as Ho. rewrite <- Hz in Ho.
  pose proof (paint_holds _ z 0 ltac:(lia) Ho) as Hh. fold p in Hh. apply Forall_app in Hh as [Hh Hc].
  assert (Hp : page_ok p).
  { split; [rewrite <- Hz; by apply (zlen_paint _ _ 0) |]. apply paint_bytes_ok; [done |].
    apply Forall_app. split; [by apply meta_fields_bytes |]. constructor; [apply le_bytes_ok | constructor]. }
  split; [done |]. split; [done |]. split.
  - apply Forall_cons in Hc as [Hc _]. cbn [fst snd] in Hc. destruct Hp as [Hzp _].
    pose proof (field_u32 p Hzp _ _ Hc ltac:(done) ltac:(done) Hv) as Hu.
    rewrite u32_source_page in Hu by done. by injection Hu.
  - apply reserved_zero_iff; [done |]. intros i Hi Hg.
    unfold p. rewrite (paint_bget_outside _ _ 0) by (done || lia || by apply outside_gap). by apply Hzero.
Qed.

Lemma accepted_of_fields path contiguous m p : meta_ok m -> page_ok p -> holds p (meta_fields m) ->
  meta_reserved_zero p = true -> meta_checksum_valid path contiguous p = true -> meta_accepted path contiguous p = true.
Proof.
  intros Hm [Hz Hb] Hh Hr Hc. unfold meta_accepted. rewrite Hr, Hc, !andb_true_r.
  unfold holds, meta_fields in Hh. do 5 (let H1 := fresh "Hf" in apply Forall_cons in Hh as [H1 Hh]; cbn [fst snd] in H1).
  apply andb_true_iff. split.
  - unfold meta_magic_valid. rewrite Hz, Z.eqb_refl. by apply equals_sub.
  - unfold meta_fixed_values_valid. rewrite !andb_true_iff, !bool_decide_eq_true.
    rewrite u16_source_page by done. rewrite (field_byte p Hz _ _ Hf1), (field_byte p Hz _ _ Hf2), (field_byte p Hz _ _ Hf3) by done.
    cbn [mbind option_bind]. rewrite family_from_to, value_kind_from_to. repeat split; try done.
    f_equal. unfold u16_at. change 2 with (zlen (le_bytes 2 META_SIZE)). by rewrite Hf0.
Qed.

Lemma sealed_checks b crc path contiguous : page_ok b -> page_ok (splice b META_CRC_OFFSET (le_bytes 4 crc)) ->
  crc = crc32c_pointer_table 0 (zeroed b META_CRC_OFFSET 4) ->
  u32_at (splice b META_CRC_OFFSET (le_bytes 4 crc)) META_CRC_OFFSET = crc ->
  meta_checksum_valid path contiguous (splice b META_CRC_OFFSET (le_bytes 4 crc)) = true.
Proof.
  intros Hb Hs Hcrc Hu. rewrite meta_checksum_eq, Hu, zeroed_crc, <- Hcrc by done. apply Z.eqb_refl.
Qed.

Lemma meta_crc_u32 m : is_u32 (meta_crc m).
Proof. rewrite meta_crc_eq. apply crc_u32. Qed.

Lemma encoded_page append m : continues_crc32c append -> meta_ok m ->
  exists p, encode_mapped append m = Ok p /\ page_ok p /\ holds p (meta_fields m) /\ meta_reserved_zero p = true
    /\ forall path contiguous, meta_checksum_valid path contiguous p = true.
Proof.
  intros Ha Hm. rewrite (encode_ok append m Ha Hm).
  pose proof (painted_page m (meta_crc m) (page_fill 0) Hm (meta_crc_u32 m) page_fill_ok bget_fill) as Hpp. cbv zeta in Hpp.
  rewrite paint_crc in Hpp. rewrite body_eq in Hpp.
  pose proof (body_page m Hm) as Hbody. pose proof (meta_crc_eq m) as Hcrc.
  revert Hpp Hbody Hcrc. generalize (meta_crc m). generalize (body m). intros b crc (Hp & Hh & Hu & Hr) Hbody Hcrc.
  eexists. split; [reflexivity |]. split; [exact Hp |]. split; [exact Hh |]. split; [exact Hr |].
  intros path contiguous. by apply sealed_checks.
Qed.

(** C15: the page a meta record is written to passes every check of a reader,
    on every checksum path, and decodes to the record. *)
Theorem meta_roundtrip append m path contiguous :
  continues_crc32c append -> meta_ok m ->
  exists p, encode_mapped append m = Ok p /\ page_ok p
    /\ meta_magic_valid p && meta_fixed_values_valid p && meta_reserved_zero p
       && meta_checksum_valid path contiguous p = true
    /\ decode_unchecked p = Some m.
Proof.
  intros Ha Hm. destruct (encoded_page append m Ha Hm) as (p & He & Hp & Hh & Hr & Hc).
  exists p. split; [exact He |]. split; [exact Hp |]. split.
  - exact (accepted_of_fields path contiguous m p Hm Hp Hh Hr (Hc path contiguous)).
  - apply decode_holds; [exact Hm | apply Hp | exact Hh].
Qed.

Lemma accepted_unique m v p : meta_ok m -> page_ok p -> holds p (meta_fields m) -> meta_reserved_zero p = true ->
  v = u32_at p META_CRC_OFFSET -> p = splice (body m) META_CRC_OFFSET (le_bytes 4 v).
Proof.
  intros Hm Hp Hh Hr ->. rewrite <- body_eq, <- paint_crc. pose proof Hp as [Hz Hb].
  apply (painted_unique _ _ _ 0).
  - lia.
  - rewrite Hz. by apply crc_ordered.
  - rewrite Hz. symmetry. apply page_fill_ok.
  - apply Forall_app. split; [exact Hh |]. constructor; [by apply u32_at_field | constructor].
  - rewrite Hz. intros i Hi Ho. rewrite bget_fill by exact Hi.
    exact (proj1 (reserved_zero_iff p Hp) Hr i Hi (gap_crc m _ i Hm Hi Ho)).
Qed.

(** C16: a page that passes the checks is, byte for byte, the encoding of the
    record it decodes to: no two accepted pages stand for one generation. *)
Theorem accepted_meta_canonical append path contiguous p m :
  continues_crc32c append -> page_ok p ->
  meta_magic_valid p = true -> meta_fixed_values_valid p = true -> meta_reserved_zero p = true ->
  meta_checksum_valid path contiguous p = true -> decode_unchecked p = Some m ->
  encode_mapped append m = Ok p.
Proof.
  intros Ha Hp Hmagic Hfixed Hr Hc Hd. destruct (decode_inv p m Hp Hmagic Hfixed Hd) as [Hm Hh].
  rewrite (encode_ok append m Ha Hm). f_equal. symmetry. apply accepted_unique; try assumption.
  rewrite meta_checksum_eq in Hc by exact Hp. apply Z.eqb_eq in Hc. rewrite <- Hc, meta_crc_eq.
  rewrite (accepted_unique m _ p Hm Hp Hh Hr eq_refl) at 1. by rewrite zeroed_crc by by apply body_page.
Qed.

(** ** Value tags *)

Lemma position_zero_app l r : ~ In 0 l -> position_zero (l ++ 0 :: r) = Some (zlen l).
Proof.
  induction l as [|b l IH]; intros Hn; [done |]. cbn [app position_zero].
  destruct (Z.eqb_spec b 0) as [-> | _]; [exfalso; apply Hn; by left |].
  rewrite IH by (intros Hin; apply Hn; by right). cbn. f_equal. rewrite zlen_cons. lia.
Qed.

Lemma position_zero_inv l n : position_zero l = Some n ->
  exists a r, l = a ++ 0 :: r /\ ~ In 0 a /\ zlen a = n.
Proof.
  revert n. induction l as [|b l IH]; intros n He; [discriminate |]. cbn [position_zero] in He.
  destruct (Z.eqb_spec b 0) as [-> | Hb].
  - injection He as <-. exists [], l. split; [done |]. split; [by intros [] | done].
  - destruct (position_zero l) as [k|]; [| discriminate]. injection He as <-.
    destruct (IH k eq_refl) as (a & r & -> & Hn & Hk). exists (b :: a), r. split; [done |]. split.
    + intros [? | ?]; [congruence | done].
    + rewrite zlen_cons. lia.
Qed.

Lemma existsb_zero l : existsb (fun b => b =? 0) l = true <-> In 0 l.
Proof.
  rewrite existsb_exists. split; [intros (b & Hin & He%Z.eqb_eq); by subst | intros Hin; by exists 0].
Qed.

Lemma existsb_nonzero l : existsb (fun b => negb (b =? 0)) l = false <-> l = replicate (length l) 0.
Proof.
  induction l as [|b l IH]; cbn [existsb length replicate]; [done |]. rewrite orb_false_iff, IH, negb_false_iff, Z.eqb_eq.
  split; [intros [-> Hl]; by f_equal | intros [= -> Hl]; done].
Qed.

Lemma tag_image bytes : zlen bytes <= 15 ->
  splice (replicate 16 0) 0 bytes = bytes ++ 0 :: replicate (15 - length bytes) 0.
Proof.
  intros Hl. unfold splice, zlen in *. rewrite take_0, app_nil_l. f_equal.
  rewrite drop_replicate. replace (16 - Z.to_nat (0 + Z.of_nat (length bytes)))%nat with (S (15 - length bytes)) by lia. done.
Qed.

Lemma tag_new_Some bytes t : tag_new bytes = Some t <->
  zlen bytes <= 15 /\ ~ In 0 bytes /\ t = bytes ++ 0 :: replicate (15 - length bytes) 0.
Proof.
  unfold tag_new. destruct (Z.ltb_spec 15 (zlen bytes)) as [Hl | Hl]; cbn [orb]; [split; [discriminate | lia] |].
  destruct (existsb _ bytes) eqn:He.
  - apply existsb_zero in He. split; [discriminate | intros (_ & Hn & _); done].
  - assert (Hn : ~ In 0 bytes) by (intros Hin%existsb_zero; congruence). rewrite tag_image by done. split.
    + intros [= <-]. done.
    + intros (_ & _ & ->). done.
Qed.

Lemma drop_tail_zero a n : drop (Z.to_nat (zlen a)) (a ++ replicate n 0) = replicate n 0.
Proof. unfold zlen. rewrite Nat2Z.id. apply drop_app_length. Qed.

(** A tag built from bytes is accepted from the wire unchanged and gives
    the bytes back; a tag accepted from the wire is the one built from its
    bytes. *)
Theorem value_tag_roundtrip bytes storage t :
  (tag_new bytes = Some t -> zlen t = 16 /\ tag_from_wire t = Some t /\ tag_bytes t = bytes)
  /\ (zlen storage = 16 -> tag_from_wire storage = Some t -> t = storage /\ tag_new (tag_bytes t) = Some t).
Proof.
  split.
  - intros (Hl & Hn & ->)%tag_new_Some. split; [rewrite zlen_app, zlen_cons, zlen_replicate; unfold zlen in *; lia |].
    unfold tag_from_wire, tag_bytes. rewrite !position_zero_app by done. cbn [mbind option_bind default]. split.
    + change (0 :: replicate ?k 0) with (replicate (S k) 0). rewrite drop_tail_zero.
      rewrite (proj2 (existsb_nonzero _)) by by rewrite length_replicate. done.
    + apply sub_app_prefix. done.
  - intros Hs Ht. pose proof (tag_from_wire_inv _ _ Ht) as ->. split; [done |]. unfold tag_from_wire, tag_bytes in *.
    destruct (position_zero storage) as [n|] eqn:Hp; [| discriminate]. cbn [mbind option_bind default] in *.
    destruct (existsb _ (drop _ _)) eqn:He; [discriminate |]. apply existsb_nonzero in He.
    destruct (position_zero_inv _ _ Hp) as (a & r & -> & Hn & <-). rewrite sub_app_prefix by done.
    unfold zlen in He. rewrite Nat2Z.id, drop_app_length in He. cbn [length replicate] in He. injection He as He.
    apply tag_new_Some. rewrite zlen_app, zlen_cons in Hs. unfold zlen in *. split; [lia |]. split; [done |].
    rewrite He. do 3 f_equal. lia.
Qed.

(** ** Witnesses *)

(** A direct IPv4 database at its fifth transaction, with one range leaf. *)
Definition sample_meta : MetaV4 := mkMetaV4 Ipv4 Direct 0 FIRST_SEEN (replicate 16 7) 5 (replicate 16 9)
  3 1 0 0 0 0 0 0 0 2 0 0 0 0 0 0 0 0 0 [0; 0; 0; 0] 0 0 0 0 0.

Lemma sample_meta_ok : meta_ok sample_meta.
Proof.
  constructor; unfold is_id16, bytes_ok, is_byte, is_u64, is_u32, u64_max; cbn;
    repeat split; try lia; repeat constructor; lia.
Qed.

Lemma meta_roundtrip_witness :
  exists p, encode_mapped crc32c_pointer_table sample_meta = Ok p /\ page_ok p
    /\ meta_magic_valid p && meta_fixed_values_valid p && meta_reserved_zero p
       && meta_checksum_valid X86 true p = true
    /\ decode_unchecked p = Some sample_meta.
Proof. exact (meta_roundtrip crc32c_pointer_table sample_meta X86 true table_continues sample_meta_ok). Defined.

Definition sample_page : list Z :=
  match encode_mapped crc32c_pointer_table sample_meta with Ok p => p | _ => [] end.

Lemma accepted_meta_canonical_witness :
  decode_unchecked sample_page = Some sample_meta
  /\ encode_mapped crc32c_pointer_table sample_meta = Ok sample_page.
Proof.
  assert (Hd : decode_unchecked sample_page = Some sample_meta) by (vm_compute; reflexivity).
  split; [exact Hd |].
  apply (accepted_meta_canonical crc32c_pointer_table TablePath false sample_page sample_meta table_continues).
  - split; [vm_compute; reflexivity |]. apply Forall_forall. intros b Hb.
    assert (Hall : forallb (fun b => (0 <=? b) && (b <? 256)) sample_page = true) by (vm_compute; reflexivity).
    rewrite forallb_forall in Hall. apply list_elem_of_In, Hall in Hb. unfold is_byte. zb. lia.
  - vm_compute. reflexivity.
  - vm_compute. reflexivity.
  - vm_compute. reflexivity.
  - vm_compute. reflexivity.
  - exact Hd.
Defined.

Lemma value_tag_roundtrip_witness :
  tag_new [97; 115; 110] = Some [97; 115; 110; 0; 0; 0; 0; 0; 0; 0; 0; 0; 0; 0; 0; 0]
  /\ tag_bytes [97; 115; 110; 0; 0; 0; 0; 0; 0; 0; 0; 0; 0; 0; 0; 0] = [97; 115; 110]
  /\ tag_new (tag_bytes FIRST_SEEN) = Some FIRST_SEEN.
Proof.
  assert (Hn : tag_new [97; 115; 110] = Some [97; 115; 110; 0; 0; 0; 0; 0; 0; 0; 0; 0; 0; 0; 0; 0]) by reflexivity.
  split; [exact Hn |]. split.
  - exact (proj2 (proj2 (proj1 (value_tag_roundtrip _ FIRST_SEEN _) Hn))).
  - exact (proj2 (proj2 (value_tag_roundtrip [] FIRST_SEEN FIRST_SEEN) eq_refl eq_refl)).
Defined.
