(* ===== verification/Bootstrap.v ===== *)
(** * Opening a database

    [bootstrap.rs] and [bootstrap/recovery_meta.rs]: what a meta page must
    satisfy to be read, to be a candidate and to be usable by recovery; which
    of the two meta pages is the current generation; and what became of a
    commit attempt.  Everything that is not a panic in the code is an [Ok] or
    an [Err] here, with the error the code returns first. *)

From stdpp Require Import base tactics numbers list strings.
From Stdlib Require Import ZArith Lia.
From S2P Require Import Prelude Errors Bytes Checksum Contract.

#[local] Open Scope string_scope.
#[local] Open Scope list_scope.
#[local] Open Scope Z_scope.

Inductive OpenMode := ImmutableReader | LiveReader | Writer.

Inductive MetaSelection := ProvenCurrent | SoleMeta0 | SoleMeta1.

Record Bootstrap := mkBootstrap {
  bs_meta : MetaV4;
  bs_selection : MetaSelection;
  selected_meta_page : Z;
  committed_bytes : Z;
  physical_bytes : Z;
}.

Inductive CommitAttemptResolution := Committed | NotCommitted | SupersededUnknown.

#[global] Instance OpenMode_eq_dec : EqDecision OpenMode.
Proof. solve_decision. Defined.
#[global] Instance MetaSelection_eq_dec : EqDecision MetaSelection.
Proof. solve_decision. Defined.

(** [if c { return Err(e); }]. *)
Definition refuse {E} (c : bool) (e : E) : outcome E unit := if c then Err e else Ok tt.

Definition zero_id : list Z := replicate 16 0.

(** ** One meta page *)

Section Source.
(** How the CRC is computed on this machine, and over what kind of source. *)
Context (path : crc_path) (contiguous : bool).

Definition require_identity_header (page : list Z) : outcome MetaProblem unit :=
  _ ← refuse (negb (meta_magic_valid page)) MagicP;
  refuse (negb (meta_fixed_values_valid page)) FixedValueP.

Definition require_identity_body (page : list Z) : outcome MetaProblem unit :=
  _ ← refuse (negb (meta_reserved_zero page)) ReservedP;
  refuse (negb (meta_checksum_valid path contiguous page)) ChecksumP.

Definition identity_readable (page : list Z) : outcome MetaProblem MetaV4 :=
  _ ← require_identity_header page;
  _ ← require_identity_body page;
  meta ← ok_or (decode_unchecked page) TagP;
  _ ← refuse (bool_decide (database_id meta = zero_id)) DatabaseIdP;
  Ok meta.
End Source.

(** ** The rules of a generation *)

Definition validate_commit_identity (meta : MetaV4) : outcome MetaProblem unit :=
  _ ← refuse (txn_id meta =? 0) TransactionP;
  refuse (bool_decide (commit_nonce meta = zero_id)) CommitNonceP.

Definition validate_declared_page_count (meta : MetaV4) : outcome MetaProblem unit :=
  refuse (negb ((2 <=? page_count meta) && (page_count meta <=? MAX_PAGE_COUNT))) PageCountP.

Definition validate_generation (meta : MetaV4) (physical_bytes : Z) : outcome MetaProblem unit :=
  _ ← validate_commit_identity meta;
  _ ← validate_declared_page_count meta;
  committed_bytes ← ok_or (checked_mul u64_max (page_count meta) PAGE_SIZE) PageCountP;
  refuse (physical_bytes <? committed_bytes) PhysicalLengthP.

(** The loop over the reserve; [seen] is [allocator_reserve[..index]]. *)
Fixpoint reserve_loop (meta : MetaV4) (seen rest : list Z) : outcome MetaProblem unit :=
  match rest with
  | [] => Ok tt
  | page_number :: rest' =>
      if page_number =? 0 then reserve_loop meta (seen ++ [page_number]) rest'
      else if (page_number <? 2) || (page_count meta <=? page_number)
              || existsb (Z.eqb page_number) (roots meta) || existsb (Z.eqb page_number) seen
      then Err AllocatorReserveP
      else reserve_loop meta (seen ++ [page_number]) rest'
  end.

Definition validate_allocator_reserve (meta : MetaV4) : outcome MetaProblem unit :=
  reserve_loop meta [] (allocator_reserve meta).

Fixpoint root_loop (page_count : Z) (roots : list Z) : outcome MetaProblem unit :=
  match roots with
  | [] => Ok tt
  | root :: rest =>
      if negb (root =? 0) && ((root <? 2) || (page_count <=? root)) then Err RootBoundsP
      else root_loop page_count rest
  end.

Definition validate_roots (meta : MetaV4) : outcome MetaProblem unit :=
  _ ← root_loop (page_count meta) (roots meta);
  validate_allocator_reserve meta.

Definition validate_range_count (meta : MetaV4) : outcome MetaProblem unit :=
  _ ← refuse (negb (Bool.eqb (range_record_count meta =? 0) (range_root meta =? 0))) CountInvariantP;
  let leaf_capacity := match address_family meta with
                       | Ipv4 => (PAGE_SIZE - 32) / (12 + 2)
                       | Ipv6 => (PAGE_SIZE - 32) / (36 + 2)
                       end in
  pages ← usub (page_count meta) 2;
  maximum_range_records ← ok_or (checked_mul u64_max pages leaf_capacity) CountInvariantP;
  refuse (maximum_range_records <? range_record_count meta) CountInvariantP.

Definition validate_retirement_count (meta : MetaV4) : outcome MetaProblem unit :=
  pages ← usub (page_count meta) 2;
  maximum_retired_extents ← ok_or (checked_mul u64_max pages ((PAGE_SIZE - 32) / (16 + 2))) RetirementInvariantP;
  refuse ((maximum_retired_extents <? retired_extent_count meta)
          || negb (Bool.eqb (retired_extent_count meta =? 0) (retirement_root meta =? 0)))
         RetirementInvariantP.

Definition metadata_lengths_valid (meta : MetaV4) : outcome MetaProblem bool :=
  padded ← ok_or (checked_add u64_max (metadata_uncompressed_len meta) 65534) MetadataInvariantP;
  let blocks := Z.max 1 (padded / 65535) in
  overhead ← ok_or (checked_mul u64_max 5 blocks) MetadataInvariantP;
  maximum_zlib_bytes ← ok_or (value ← checked_add u64_max (metadata_uncompressed_len meta) overhead;
                              checked_add u64_max value 6) MetadataInvariantP;
  pages ← usub (page_count meta) 2;
  maximum_compressed_bytes ← ok_or (checked_mul u64_max pages 4048) MetadataInvariantP;
  Ok (negb (metadata_compressed_len meta =? 0)
      && (metadata_compressed_len meta <=? maximum_compressed_bytes)
      && (metadata_compressed_len meta <=? maximum_zlib_bytes)
      && (metadata_uncompressed_len meta <=? MAX_METADATA_UNCOMPRESSED)).

Definition validate_metadata (meta : MetaV4) : outcome MetaProblem unit :=
  if metadata_root meta =? 0
  then refuse (negb (metadata_uncompressed_len meta =? 0) || negb (metadata_compressed_len meta =? 0))
              MetadataInvariantP
  else
    lengths ← metadata_lengths_valid meta;
    refuse (negb lengths) MetadataInvariantP.

(** ** The rules of each value kind *)

Definition nonzero (v : Z) : bool := negb (v =? 0).

Definition validate_direct (meta : MetaV4) : outcome MetaProblem unit :=
  refuse (nonzero (structure_kind_code meta)
    || nonzero (active_feed_count meta)
    || nonzero (feed_index_limit meta)
    || nonzero (membership_entry_count meta)
    || nonzero (membership_id_limit meta)
    || nonzero (catalog_name_root meta)
    || nonzero (catalog_index_root meta)
    || nonzero (feed_used_root meta)
    || nonzero (membership_id_root meta)
    || nonzero (membership_hash_root meta)
    || nonzero (membership_used_root meta)
    || nonzero (structure_entry_count meta)
    || nonzero (structure_id_limit meta)
    || nonzero (structure_id_root meta)
    || nonzero (structure_hash_root meta)
    || nonzero (structure_used_root meta)) KindInvariantP.

Definition validate_no_structures (meta : MetaV4) : outcome MetaProblem unit :=
  refuse (nonzero (structure_kind_code meta)
    || nonzero (structure_entry_count meta)
    || nonzero (structure_id_limit meta)
    || nonzero (structure_id_root meta)
    || nonzero (structure_hash_root meta)
    || nonzero (structure_used_root meta)) KindInvariantP.

Definition validate_membership_limits (meta : MetaV4) : outcome MetaProblem unit :=
  refuse ((MAX_PAGE_COUNT <? feed_index_limit meta)
    || (feed_index_limit meta <? active_feed_count meta)
    || (u32_max <? membership_entry_count meta)
    || negb ((1 <=? membership_id_limit meta) && (membership_id_limit meta <=? MAX_PAGE_COUNT))
    || (membership_id_limit meta <=? membership_entry_count meta)
    || (range_record_count meta <? membership_entry_count meta)) CountInvariantP.

Definition validate_membership_presence (meta : MetaV4) : outcome MetaProblem unit :=
  _ ← refuse ((active_feed_count meta =? 0)
              && (nonzero (membership_entry_count meta) || nonzero (range_record_count meta))) CountInvariantP;
  refuse ((membership_entry_count meta =? 0) && nonzero (range_record_count meta)) CountInvariantP.

Definition validate_membership_counts (meta : MetaV4) : outcome MetaProblem unit :=
  _ ← validate_membership_limits meta;
  validate_membership_presence meta.

Definition validate_catalog_roots (meta : MetaV4) : outcome MetaProblem unit :=
  if active_feed_count meta =? 0
  then refuse (nonzero (catalog_name_root meta) || nonzero (catalog_index_root meta)
               || nonzero (feed_used_root meta)) KindInvariantP
  else refuse ((catalog_name_root meta =? 0) || (catalog_index_root meta =? 0)
               || (feed_used_root meta =? 0)) KindInvariantP.

Definition validate_membership_roots (meta : MetaV4) : outcome MetaProblem unit :=
  if membership_entry_count meta =? 0
  then refuse (nonzero (membership_id_root meta) || nonzero (membership_hash_root meta)
               || nonzero (membership_used_root meta) || negb (membership_id_limit meta =? 1)) KindInvariantP
  else refuse ((membership_id_root meta =? 0) || (membership_hash_root meta =? 0)
               || (membership_used_root meta =? 0)) KindInvariantP.

Definition validate_membership (meta : MetaV4) : outcome MetaProblem unit :=
  _ ← validate_no_structures meta;
  _ ← validate_membership_counts meta;
  _ ← validate_catalog_roots meta;
  validate_membership_roots meta.

Definition validate_structured_counts (meta : MetaV4) : outcome MetaProblem unit :=
  refuse ((MAX_PAGE_COUNT <? feed_index_limit meta)
    || (feed_index_limit meta <? active_feed_count meta)
    || (u32_max <? membership_entry_count meta)
    || negb ((1 <=? membership_id_limit meta) && (membership_id_limit meta <=? MAX_PAGE_COUNT))
    || (membership_id_limit meta <=? membership_entry_count meta)
    || (u32_max <? structure_entry_count meta)
    || negb ((1 <=? structure_id_limit meta) && (structure_id_limit meta <=? MAX_PAGE_COUNT))
    || (structure_id_limit meta <=? structure_entry_count meta)
    || (range_record_count meta <? structure_entry_count meta)
    || (structure_entry_count meta <? membership_entry_count meta)
    || ((active_feed_count meta =? 0) && nonzero (membership_entry_count meta))
    || ((structure_entry_count meta =? 0) && nonzero (range_record_count meta))) CountInvariantP.

Definition validate_structure_roots (meta : MetaV4) : outcome MetaProblem unit :=
  if structure_entry_count meta =? 0
  then refuse (nonzero (structure_id_root meta) || nonzero (structure_hash_root meta)
               || nonzero (structure_used_root meta) || negb (structure_id_limit meta =? 1)) KindInvariantP
  else refuse ((structure_id_root meta =? 0) || (structure_hash_root meta =? 0)
               || (structure_used_root meta =? 0)) KindInvariantP.

Definition validate_structured (meta : MetaV4) : outcome MetaProblem unit :=
  _ ← refuse (structure_kind_code meta =? 0) KindInvariantP;
  _ ← validate_structured_counts meta;
  _ ← validate_catalog_roots meta;
  _ ← validate_membership_roots meta;
  validate_structure_roots meta.

Definition validate_kind (meta : MetaV4) : outcome MetaProblem unit :=
  match value_kind meta with
  | Direct => validate_direct meta
  | Membership => validate_membership meta
  | Structured => validate_structured meta
  end.

Definition bootstrap_valid (meta : MetaV4) (physical_bytes : Z) : outcome MetaProblem MetaV4 :=
  _ ← validate_generation meta physical_bytes;
  _ ← validate_roots meta;
  _ ← validate_range_count meta;
  _ ← validate_retirement_count meta;
  _ ← validate_metadata meta;
  _ ← validate_kind meta;
  Ok meta.

(** ** Recovery's view of a meta page *)

Definition recovery_valid (meta : MetaV4) : outcome MetaProblem MetaV4 :=
  _ ← validate_declared_page_count meta;
  _ ← validate_roots meta;
  _ ← validate_range_count meta;
  _ ← validate_retirement_count meta;
  _ ← validate_metadata meta;
  _ ← validate_kind meta;
  Ok meta.

Record RecoveryMetaState := mkRecoveryMetaState {
  rm_order : outcome MetaProblem MetaV4;
  rm_recovery : outcome MetaProblem MetaV4;
}.

Definition classify_recovery_meta (path : crc_path) (contiguous : bool) (page : list Z) : RecoveryMetaState :=
  let order := meta ← identity_readable path contiguous page;
               _ ← validate_commit_identity meta;
               Ok meta in
  mkRecoveryMetaState order (order ≫= recovery_valid).

(** ** Two meta pages *)

Definition require_geometry (physical_bytes : Z) : outcome BootstrapError unit :=
  _ ← refuse (physical_bytes <? 2 * PAGE_SIZE) FileTooShort;
  refuse (negb (physical_bytes mod PAGE_SIZE =? 0)) FileUnaligned.

Definition geometry_valid (physical_bytes : Z) : bool := is_ok (require_geometry physical_bytes).

Definition require_same_identity (identity0 identity1 : outcome MetaProblem MetaV4) : outcome BootstrapError unit :=
  match identity0, identity1 with
  | Ok left_, Ok right_ => refuse (negb (static_identity_eq left_ right_)) StaticIdentityMismatch
  | _, _ => Ok tt
  end.

Definition select_pair (page0 page1 : list Z) (meta0 meta1 : MetaV4)
    : outcome BootstrapError (MetaV4 * MetaSelection * Z) :=
  if txn_id meta0 =? txn_id meta1 then
    if negb (same page0 page1 0 META_SIZE) then Err EqualTransactionDisagreement
    else Ok (meta0, ProvenCurrent, Z.land (txn_id meta0) 1)
  else
    let '(lower, higher, higher_page) :=
      if txn_id meta0 <? txn_id meta1 then (meta0, meta1, 1) else (meta1, meta0, 0) in
    distance ← usub (txn_id higher) (txn_id lower);
    if negb (distance =? 1) then Err TransactionGap
    else if negb (Z.land (txn_id higher) 1 =? higher_page) then Err PhysicalParity
    else Ok (higher, ProvenCurrent, higher_page).

(** A [Panic] of a candidate is passed on; none arises. *)
Definition select_candidates (page0 page1 : list Z) (candidate0 candidate1 : outcome MetaProblem MetaV4)
    : outcome BootstrapError (MetaV4 * MetaSelection * Z) :=
  match candidate0, candidate1 with
  | Panic s, _ => Panic s
  | _, Panic s => Panic s
  | Err meta0, Err meta1 => Err (NoBootstrapMeta meta0 meta1)
  | Ok meta, Err _ => Ok (meta, SoleMeta0, 0)
  | Err _, Ok meta => Ok (meta, SoleMeta1, 1)
  | Ok meta0, Ok meta1 => select_pair page0 page1 meta0 meta1
  end.

Definition finish_open (meta : MetaV4) (selection : MetaSelection) (selected_meta_page physical_bytes : Z)
    (mode : OpenMode) : outcome BootstrapError Bootstrap :=
  _ ← refuse (negb (bool_decide (is_Some (structure_kind meta)))) (UnsupportedStructureB (structure_kind_code meta));
  _ ← refuse (negb (bool_decide (mode = ImmutableReader)) && negb (bool_decide (selection = ProvenCurrent)))
        CurrentGenerationUnprovable;
  committed_bytes ← ok_or (checked_mul u64_max (page_count meta) PAGE_SIZE) HostAddressability;
  _ ← refuse (bool_decide (mode = ImmutableReader) && negb (committed_bytes =? physical_bytes))
        ImmutableLengthMismatch;
  Ok (mkBootstrap meta selection selected_meta_page committed_bytes physical_bytes).

Section Open.
Context (path : crc_path) (contiguous : bool).

Definition candidate (page : list Z) (physical_bytes : Z) : outcome MetaProblem MetaV4 :=
  meta ← identity_readable path contiguous page;
  bootstrap_valid meta physical_bytes.

Definition open_meta_pages (page0 page1 : list Z) (physical_bytes : Z) (mode : OpenMode)
    : outcome BootstrapError Bootstrap :=
  _ ← require_geometry physical_bytes;
  _ ← require_same_identity (identity_readable path contiguous page0) (identity_readable path contiguous page1);
  '(meta, selection, selected_meta_page) ←
    select_candidates page0 page1 (candidate page0 physical_bytes) (candidate page1 physical_bytes);
  finish_open meta selection selected_meta_page physical_bytes mode.

Definition database_id_from_meta_pages (page0 page1 : list Z) : outcome BootstrapError (list Z) :=
  let identity0 := identity_readable path contiguous page0 in
  let identity1 := identity_readable path contiguous page1 in
  _ ← require_same_identity identity0 identity1;
  match identity0, identity1 with
  | Panic s, _ => Panic s
  | _, Panic s => Panic s
  | Ok identity, _ | _, Ok identity => Ok (database_id identity)
  | Err meta0, Err meta1 => Err (NoBootstrapMeta meta0 meta1)
  end.

Definition resolve_commit_attempt (page0 page1 : list Z) (physical_bytes : Z) (database_id_ : list Z)
    (transaction_id : Z) (commit_nonce_ : list Z) : outcome BootstrapError CommitAttemptResolution :=
  selected ← open_meta_pages page0 page1 physical_bytes Writer;
  if negb (bool_decide (database_id (bs_meta selected) = database_id_)) then Err StaticIdentityMismatch
  else match candidate page0 physical_bytes, candidate page1 physical_bytes with
  | Ok meta0, Ok meta1 =>
      let attempt meta := (txn_id meta =? transaction_id) && bool_decide (commit_nonce meta = commit_nonce_) in
      let other meta := (txn_id meta =? transaction_id) && negb (bool_decide (commit_nonce meta = commit_nonce_)) in
      if existsb attempt [meta0; meta1] then Ok Committed
      else if existsb other [meta0; meta1] || (txn_id (bs_meta selected) <? transaction_id) then Ok NotCommitted
      else if transaction_id <? txn_id (bs_meta selected) then Ok SupersededUnknown
      else Err CurrentGenerationUnprovable
  | _, _ => Err CurrentGenerationUnprovable
  end.
End Open.
