(* ===== verification/BootstrapFacts.v ===== *)
(** * What opening a database guarantees

    The validation functions decide the rules of a generation; opening selects
    the newest generation that satisfies them and never panics; a commit
    attempt is resolved by what the two meta pages hold; a commit that was
    written is the generation the next open selects. *)

From stdpp Require Import base tactics numbers list sets strings.
From Stdlib Require Import ZArith Lia.
From S2P Require Import Prelude Errors Bytes PageHeader Checksum ChecksumFacts Contract ContractFacts Bootstrap.

#[local] Open Scope string_scope.
#[local] Open Scope list_scope.
#[local] Open Scope Z_scope.
#[local] Opaque crc32c_pointer_table.

(** ** Checks that decide a proposition *)

Definition decides {E} (v : outcome E unit) (P : Prop) : Prop :=
  (v = Ok tt /\ P) \/ (exists e, v = Err e /\ ~ P).

Lemma decides_refuse {E} c (e : E) (P : Prop) : (c = false <-> P) -> decides (refuse c e) P.
Proof.
  intros Hc. destruct c; [right; exists e | left]; (split; [done |]).
  - intros Hp. by apply Hc in Hp.
  - by apply Hc.
Qed.

Lemma decides_bind {E} (v w : outcome E unit) P Q : decides v P -> (P -> decides w Q) ->
  decides (_ ← v; w) (P /\ Q).
Proof.
  intros [[-> Hp] | (e & -> & Hn)] Hw; cbn [mbind outcome_bind].
  - destruct (Hw Hp) as [[-> Hq] | (e & -> & Hn)]; [by left | right; exists e; tauto].
  - right. exists e. tauto.
Qed.

Lemma decides_iff {E} (v : outcome E unit) P Q : decides v P -> (P <-> Q) -> decides v Q.
Proof. intros [[-> Hp] | (e & -> & Hn)] Hi; [left | right; exists e]; tauto. Qed.

#[local] Instance decides_proper {E} (v : outcome E unit) : Proper (iff ==> iff) (decides v).
Proof. intros P Q HPQ. split; intros H; apply (decides_iff _ _ _ H); tauto. Qed.

Lemma decides_Ok {E} (v : outcome E unit) P : decides v P -> v = Ok tt <-> P.
Proof. intros [[-> Hp] | (e & -> & Hn)]; split; try done. Qed.

Lemma decides_dec {E} (v : outcome E unit) P : decides v P -> P \/ ~ P.
Proof. intros [[_ Hp] | (e & _ & Hn)]; tauto. Qed.

Lemma imp_or (a : Z) (P : Prop) : (a <> 0 \/ P) <-> (a = 0 -> P).
Proof. destruct (Z.eq_dec a 0); tauto. Qed.

(** Boolean comparisons in a [refuse] against the rule they decide. *)
Ltac rule :=
  unfold nonzero; rewrite ?orb_false_iff, ?andb_false_iff, ?orb_false_iff, ?negb_false_iff, ?andb_true_iff,
    ?Z.leb_le, ?Z.leb_gt, ?Z.ltb_ge, ?Z.ltb_lt, ?Z.eqb_eq, ?Z.eqb_neq, ?imp_or; (tauto || lia).

(** ** The rules of a generation *)

(** Records of one leaf page, in slots of two bytes. *)
Definition range_leaf_capacity (f : AddressFamily) : Z := match f with Ipv4 => 290 | Ipv6 => 106 end.
Definition retired_leaf_capacity : Z := 225.

Definition page_or_none (pages r : Z) : Prop := r = 0 \/ 2 <= r < pages.

Definition reserve_rules (m : MetaV4) : Prop :=
  let used := filter (fun x => x <> 0) (allocator_reserve m) in
  NoDup used /\ Forall (fun x => 2 <= x < page_count m /\ x ∉ roots m) used.

(** The longest zlib stream of [u] bytes: stored blocks with their headers. *)
Definition zlib_bound (u : Z) : Z := u + 5 * Z.max 1 ((u + 65534) / 65535) + 6.

Definition metadata_rules (m : MetaV4) : Prop :=
  if decide (metadata_root m = 0)
  then metadata_uncompressed_len m = 0 /\ metadata_compressed_len m = 0
  else 0 < metadata_compressed_len m
       /\ metadata_compressed_len m <= (page_count m - 2) * 4048
       /\ metadata_compressed_len m <= zlib_bound (metadata_uncompressed_len m)
       /\ metadata_uncompressed_len m <= MAX_METADATA_UNCOMPRESSED.

(** The three pages of a dictionary are present exactly when it has entries. *)
Definition dictionary_rules (count r0 r1 r2 : Z) : Prop :=
  (count = 0 -> r0 = 0 /\ r1 = 0 /\ r2 = 0) /\ (count <> 0 -> r0 <> 0 /\ r1 <> 0 /\ r2 <> 0).

Definition no_structures (m : MetaV4) : Prop :=
  structure_kind_code m = 0 /\ structure_entry_count m = 0 /\ structure_id_limit m = 0
  /\ structure_id_root m = 0 /\ structure_hash_root m = 0 /\ structure_used_root m = 0.

Definition no_feeds (m : MetaV4) : Prop :=
  active_feed_count m = 0 /\ feed_index_limit m = 0 /\ membership_entry_count m = 0 /\ membership_id_limit m = 0
  /\ catalog_name_root m = 0 /\ catalog_index_root m = 0 /\ feed_used_root m = 0
  /\ membership_id_root m = 0 /\ membership_hash_root m = 0 /\ membership_used_root m = 0.

Definition feed_rules (m : MetaV4) : Prop :=
  active_feed_count m <= feed_index_limit m <= MAX_PAGE_COUNT
  /\ membership_entry_count m < membership_id_limit m <= MAX_PAGE_COUNT
  /\ 1 <= membership_id_limit m
  /\ membership_entry_count m <= u32_max
  /\ dictionary_rules (active_feed_count m) (catalog_name_root m) (catalog_index_root m) (feed_used_root m)
  /\ dictionary_rules (membership_entry_count m) (membership_id_root m) (membership_hash_root m) (membership_used_root m)
  /\ (membership_entry_count m = 0 -> membership_id_limit m = 1).

Definition kind_rules (m : MetaV4) : Prop :=
  match value_kind m with
  | Direct => no_structures m /\ no_feeds m
  | Membership =>
      no_structures m /\ feed_rules m
      /\ membership_entry_count m <= range_record_count m
      /\ (active_feed_count m = 0 -> membership_entry_count m = 0 /\ range_record_count m = 0)
      /\ (membership_entry_count m = 0 -> range_record_count m = 0)
  | Structured =>
      structure_kind_code m <> 0 /\ feed_rules m
      /\ structure_entry_count m < structure_id_limit m <= MAX_PAGE_COUNT
      /\ 1 <= structure_id_limit m
      /\ structure_entry_count m <= u32_max
      /\ membership_entry_count m <= structure_entry_count m <= range_record_count m
      /\ (active_feed_count m = 0 -> membership_entry_count m = 0)
      /\ (structure_entry_count m = 0 -> range_record_count m = 0)
      /\ dictionary_rules (structure_entry_count m) (structure_id_root m) (structure_hash_root m) (structure_used_root m)
      /\ (structure_entry_count m = 0 -> structure_id_limit m = 1)
  end.

(** What recovery needs of a meta record. *)
Record content_rules (m : MetaV4) : Prop := {
  cr_pages : 2 <= page_count m <= MAX_PAGE_COUNT;
  cr_roots : Forall (page_or_none (page_count m)) (roots m);
  cr_reserve : reserve_rules m;
  cr_ranges : (range_record_count m = 0 <-> range_root m = 0)
    /\ range_record_count m <= (page_count m - 2) * range_leaf_capacity (address_family m);
  cr_retired : (retired_extent_count m = 0 <-> retirement_root m = 0)
    /\ retired_extent_count m <= (page_count m - 2) * retired_leaf_capacity;
  cr_metadata : metadata_rules m;
  cr_kind : kind_rules m;
}.

Definition commit_rules (m : MetaV4) : Prop := txn_id m <> 0 /\ commit_nonce m <> zero_id.

Definition generation_rules (m : MetaV4) (physical : Z) : Prop :=
  commit_rules m /\ content_rules m /\ page_count m * PAGE_SIZE <= physical.

(** ** The checks decide the rules *)

Lemma commit_identity_decides m : decides (validate_commit_identity m) (commit_rules m).
Proof.
  apply decides_bind; [apply decides_refuse; apply Z.eqb_neq | intros _].
  apply decides_refuse. apply bool_decide_eq_false.
Qed.

Lemma declared_decides m : decides (validate_declared_page_count m) (2 <= page_count m <= MAX_PAGE_COUNT).
Proof. apply decides_refuse. rule. Qed.

Lemma root_loop_decides pages l :
  decides (root_loop pages l) (Forall (page_or_none pages) l).
Proof.
  induction l as [|r l IH]; cbn [root_loop]; [left; by split |].
  destruct (negb (r =? 0) && ((r <? 2) || (pages <=? r))) eqn:Hc.
  - right. eexists. split; [done |]. intros [Hr _]%Forall_cons. unfold page_or_none in Hr. zb.
    rename select (_ || _ = true) into Ho. apply orb_true_iff in Ho as [? | ?]; zb; lia.
  - apply (decides_iff _ _ _ IH). rewrite Forall_cons. split; [| tauto]. intros Hl. split; [| done].
    apply andb_false_iff in Hc as [Hc | Hc]; zb; [by left | right; lia].
Qed.

Lemma existsb_eqb x l : existsb (Z.eqb x) l = true <-> x ∈ l.
Proof.
  rewrite existsb_exists, list_elem_of_In. split; [intros (y & Hy & He%Z.eqb_eq); by subst | intros Hx; exists x].
  split; [done | apply Z.eqb_refl].
Qed.

Lemma reserve_loop_decides m rest : forall seen,
  decides (reserve_loop m seen rest)
    (let used := filter (fun x => x <> 0) rest in
     NoDup used /\ Forall (fun x => 2 <= x < page_count m /\ x ∉ roots m) used /\ Forall (fun x => x ∉ seen) used).
Proof.
  induction rest as [|x rest IH]; intros seen; cbn [reserve_loop].
  { left. split; [done |]. cbn. repeat split; constructor. }
  specialize (IH (seen ++ [x])). cbv zeta in *. destruct (Z.eqb_spec x 0) as [-> | Hx].
  - rewrite filter_cons_False by tauto. apply (decides_iff _ _ _ IH).
    assert (Hall : Forall (fun y => y ∉ seen ++ [0]) (filter (fun x => x <> 0) rest)
                   <-> Forall (fun y => y ∉ seen) (filter (fun x => x <> 0) rest)).
    { rewrite !Forall_forall. split; intros H y Hy; specialize (H y Hy); [set_solver |].
      apply list_elem_of_filter in Hy as [Hne _]. set_solver. }
    tauto.
  - rewrite filter_cons_True by done.
    rewrite NoDup_cons, !Forall_cons.
    destruct (_ || _) eqn:Hc.
    + right. eexists. split; [done |]. intros (_ & [[Hr Hroots] _] & [Hseen _]).
      rewrite !orb_true_iff, !existsb_eqb, Z.ltb_lt, Z.leb_le in Hc. destruct Hc as [[[? | ?] | ?] | ?]; (done || lia).
    + rewrite !orb_false_iff, Z.ltb_ge, Z.leb_gt in Hc. destruct Hc as [[[Hlo Hhi] Hroots] Hseen].
      assert (Hin : x ∉ roots m) by (rewrite <- existsb_eqb, Hroots; done).
      assert (Hs : x ∉ seen) by (rewrite <- existsb_eqb, Hseen; done).
      apply (decides_iff _ _ _ IH).
      assert (Hall : Forall (fun y => y ∉ seen ++ [x]) (filter (fun x => x <> 0) rest)
        <-> x ∉ filter (fun x => x <> 0) rest /\ Forall (fun y => y ∉ seen) (filter (fun x => x <> 0) rest)).
      { rewrite !Forall_forall. split.
        - intros H. split; [intros Hin'; specialize (H x Hin'); set_solver |]. intros y Hy; specialize (H y Hy); set_solver.
        - intros [Hn H] y Hy. specialize (H y Hy). rewrite elem_of_app, list_elem_of_singleton. intros [? | ->]; done. }
      assert (2 <= x < page_count m) by lia. tauto.
Qed.

Lemma roots_decide m :
  decides (validate_roots m) (Forall (page_or_none (page_count m)) (roots m) /\ reserve_rules m).
Proof.
  apply decides_bind; [apply root_loop_decides | intros _].
  apply (decides_iff _ _ _ (reserve_loop_decides m _ [])). unfold reserve_rules. cbv zeta.
  assert (Forall (fun x : Z => x ∉ []) (filter (fun x => x <> 0) (allocator_reserve m))) by
    (apply Forall_forall; intros x _; apply not_elem_of_nil).
  tauto.
Qed.

Lemma both_zero a b : Bool.eqb (a =? 0) (b =? 0) = true <-> (a = 0 <-> b = 0).
Proof. destruct (Z.eqb_spec a 0), (Z.eqb_spec b 0); cbn; split; try done; intros; (tauto || lia). Qed.

Lemma product_fits pages k : 2 <= pages <= MAX_PAGE_COUNT -> 0 <= k <= 4096 ->
  checked_mul u64_max (pages - 2) k = Some ((pages - 2) * k).
Proof.
  intros Hp Hk. unfold checked_mul, MAX_PAGE_COUNT, u64_max in *.
  rewrite (proj2 (Z.leb_le _ _)); [done |]. nia.
Qed.

Section Rules.
Context (m : MetaV4) (Hm : meta_ok m).

Lemma meta_nonneg :
  0 <= metadata_uncompressed_len m <= u64_max /\ 0 <= metadata_compressed_len m <= u64_max
  /\ 0 <= membership_entry_count m /\ 0 <= page_count m.
Proof using Hm.
  pose proof (ok_counts m Hm) as Hc. unfold is_u64 in Hc. forall_split Hc. lia.
Qed.

Lemma range_count_decides : 2 <= page_count m <= MAX_PAGE_COUNT ->
  decides (validate_range_count m)
    ((range_record_count m = 0 <-> range_root m = 0)
     /\ range_record_count m <= (page_count m - 2) * range_leaf_capacity (address_family m)).
Proof using Type.
  intros Hp. apply decides_bind; [apply decides_refuse; rewrite negb_false_iff; apply both_zero | intros _].
  rewrite usub_ok by lia. cbn [mbind outcome_bind].
  assert (Hcap : match address_family m with Ipv4 => (PAGE_SIZE - 32) / (12 + 2) | Ipv6 => (PAGE_SIZE - 32) / (36 + 2) end
                 = range_leaf_capacity (address_family m)) by by destruct (address_family m).
  rewrite Hcap, product_fits by (done || destruct (address_family m); cbn; lia). cbn [ok_or mbind outcome_bind].
  apply decides_refuse. rule.
Qed.

Lemma retirement_count_decides : 2 <= page_count m <= MAX_PAGE_COUNT ->
  decides (validate_retirement_count m)
    ((retired_extent_count m = 0 <-> retirement_root m = 0)
     /\ retired_extent_count m <= (page_count m - 2) * retired_leaf_capacity).
Proof using Type.
  intros Hp. unfold validate_retirement_count. rewrite usub_ok by lia. cbn [mbind outcome_bind].
  change ((PAGE_SIZE - 32) / (16 + 2)) with retired_leaf_capacity.
  rewrite product_fits by (done || unfold retired_leaf_capacity; lia). cbn [ok_or mbind outcome_bind].
  apply decides_refuse. rewrite orb_false_iff, negb_false_iff, both_zero, Z.ltb_ge. tauto.
Qed.

Lemma metadata_decides : 2 <= page_count m <= MAX_PAGE_COUNT -> decides (validate_metadata m) (metadata_rules m).
Proof using Hm.
  intros Hp. destruct meta_nonneg as ((Hu0 & Hu1) & (Hc0 & _) & _). unfold validate_metadata, metadata_rules.
  destruct (Z.eqb_spec (metadata_root m) 0) as [Hr | Hr];
    [rewrite decide_True by done; apply decides_refuse; rule | rewrite decide_False by done].
  set (u := metadata_uncompressed_len m) in *. unfold metadata_lengths_valid. fold u.
  unfold zlib_bound, MAX_METADATA_UNCOMPRESSED, checked_add.
  destruct (Z.leb_spec (u + 65534) u64_max) as [Hle | Hgt]; cbn [ok_or mbind outcome_bind];
    [| right; eexists; split; [done | unfold u64_max in *; lia]].
  set (blocks := Z.max 1 ((u + 65534) / 65535)).
  assert (Hb : 1 <= blocks <= 1 + u / 65535 + 1).
  { subst blocks. pose proof (Z.div_pos u 65535 ltac:(lia) ltac:(lia)).
    assert ((u + 65534) / 65535 <= (u + 1 * 65535) / 65535) by (apply Z.div_le_mono; lia).
    rewrite Z.div_add in * by lia. lia. }
  pose proof (Z.mul_div_le u 65535 ltac:(lia)).
  assert (Hmul : checked_mul u64_max 5 blocks = Some (5 * blocks)).
  { unfold checked_mul. rewrite (proj2 (Z.leb_le (5 * blocks) u64_max)); [done |]. unfold u64_max in *; lia. }
  rewrite Hmul. cbn [ok_or mbind outcome_bind].
  destruct (Z.leb_spec (u + 5 * blocks) u64_max) as [Hle2 | Hgt]; cbn [ok_or mbind option_bind outcome_bind];
    [| right; eexists; split; [done | unfold u64_max in *; lia]].
  destruct (Z.leb_spec (u + 5 * blocks + 6) u64_max) as [Hle3 | Hgt]; cbn [ok_or mbind outcome_bind];
    [| right; eexists; split; [done | unfold u64_max in *; lia]].
  rewrite usub_ok by lia. cbn [mbind outcome_bind]. rewrite product_fits by lia. cbn [ok_or mbind outcome_bind].
  apply decides_refuse. unfold MAX_METADATA_UNCOMPRESSED. rule.
Qed.

Lemma catalog_decides :
  decides (validate_catalog_roots m)
    (dictionary_rules (active_feed_count m) (catalog_name_root m) (catalog_index_root m) (feed_used_root m)).
Proof using Type.
  unfold validate_catalog_roots, dictionary_rules. destruct (Z.eqb_spec (active_feed_count m) 0); apply decides_refuse; rule.
Qed.

Lemma membership_roots_decides :
  decides (validate_membership_roots m)
    (dictionary_rules (membership_entry_count m) (membership_id_root m) (membership_hash_root m) (membership_used_root m)
     /\ (membership_entry_count m = 0 -> membership_id_limit m = 1)).
Proof using Type.
  unfold validate_membership_roots, dictionary_rules.
  destruct (Z.eqb_spec (membership_entry_count m) 0); apply decides_refuse; rule.
Qed.

Lemma structure_roots_decides :
  decides (validate_structure_roots m)
    (dictionary_rules (structure_entry_count m) (structure_id_root m) (structure_hash_root m) (structure_used_root m)
     /\ (structure_entry_count m = 0 -> structure_id_limit m = 1)).
Proof using Type.
  unfold validate_structure_roots, dictionary_rules.
  destruct (Z.eqb_spec (structure_entry_count m) 0); apply decides_refuse; rule.
Qed.
End Rules.

Lemma kind_decides m : meta_ok m -> decides (validate_kind m) (kind_rules m).
Proof.
  intros Hm. unfold validate_kind, kind_rules. destruct (value_kind m).
  - apply decides_refuse. unfold no_structures, no_feeds. rule.
  - eapply decides_iff.
    { apply decides_bind; [apply (decides_refuse _ _ (no_structures m)); unfold no_structures; rule | intros _].
      apply decides_bind; [| intros _; apply decides_bind; [apply catalog_decides | intros _; apply membership_roots_decides]].
      apply decides_bind; [apply decides_refuse; reflexivity | intros _].
      apply decides_bind; [apply decides_refuse; reflexivity | intros _; apply decides_refuse; reflexivity]. }
    unfold feed_rules. rule.
  - eapply decides_iff.
    { apply decides_bind; [apply decides_refuse; apply Z.eqb_neq | intros _].
      apply decides_bind; [apply decides_refuse; reflexivity | intros _].
      apply decides_bind; [apply catalog_decides | intros _].
      apply decides_bind; [apply membership_roots_decides | intros _; apply structure_roots_decides]. }
    unfold feed_rules. rule.
Qed.

(** ** Candidates *)

(** The check returns [a] exactly when [P] holds, and an error otherwise. *)
Definition settles {E A} (v : outcome E A) (a : A) (P : Prop) : Prop :=
  (v = Ok a /\ P) \/ (exists e, v = Err e /\ ~ P).

Lemma settles_ret {E A} (a : A) : settles (E := E) (Ok a) a True.
Proof. by left. Qed.

Lemma settles_bind {E A} (v : outcome E unit) (k : outcome E A) a P Q : decides v P -> (P -> settles k a Q) ->
  settles (_ ← v; k) a (P /\ Q).
Proof.
  intros [[-> Hp] | (e & -> & Hn)] Hk; cbn [mbind outcome_bind].
  - destruct (Hk Hp) as [[-> Hq] | (e & -> & Hn)]; [by left | right; exists e; tauto].
  - right. exists e. tauto.
Qed.

Lemma settles_iff {E A} (v : outcome E A) a P Q : settles v a P -> (P <-> Q) -> settles v a Q.
Proof. intros [[-> Hp] | (e & -> & Hn)] Hi; [left | right; exists e]; tauto. Qed.

Lemma settles_Ok {E A} (v : outcome E A) a P b : settles v a P -> v = Ok b <-> b = a /\ P.
Proof. intros [[-> Hp] | (e & -> & Hn)]; split; try congruence; [intros [= <-]; done | by intros [-> _] | tauto]. Qed.

Lemma recovery_settles m : meta_ok m -> settles (recovery_valid m) m (content_rules m).
Proof.
  intros Hm. eapply settles_iff.
  - apply settles_bind; [apply declared_decides | intros Hp].
    apply settles_bind; [apply roots_decide | intros _].
    apply settles_bind; [by apply range_count_decides | intros _].
    apply settles_bind; [by apply retirement_count_decides | intros _].
    apply settles_bind; [by apply metadata_decides | intros _].
    apply settles_bind; [by apply kind_decides | intros _; apply settles_ret].
  - split; [intros (? & [? ?] & ? & ? & ? & ? & _); by constructor | intros []; tauto].
Qed.

Lemma generation_decides m physical : 
  decides (validate_generation m physical)
    (commit_rules m /\ 2 <= page_count m <= MAX_PAGE_COUNT /\ page_count m * PAGE_SIZE <= physical).
Proof.
  apply decides_bind; [apply commit_identity_decides | intros _].
  apply decides_bind; [apply declared_decides | intros Hp]. unfold checked_mul.
  rewrite (proj2 (Z.leb_le _ u64_max)) by (unfold MAX_PAGE_COUNT, PAGE_SIZE, u64_max in *; lia).
  cbn [ok_or mbind outcome_bind]. apply decides_refuse. rule.
Qed.

Lemma bootstrap_settles m physical : meta_ok m -> settles (bootstrap_valid m physical) m (generation_rules m physical).
Proof.
  intros Hm. eapply settles_iff.
  - apply settles_bind; [apply generation_decides | intros (_ & Hp & _)].
    apply settles_bind; [apply roots_decide | intros _].
    apply settles_bind; [by apply range_count_decides | intros _].
    apply settles_bind; [by apply retirement_count_decides | intros _].
    apply settles_bind; [by apply metadata_decides | intros _].
    apply settles_bind; [by apply kind_decides | intros _; apply settles_ret].
  - unfold generation_rules. split.
    + intros ((? & ? & ?) & [? ?] & ? & ? & ? & ? & _). split; [done |]. split; [by constructor | done].
    + intros (? & [] & ?). tauto.
Qed.

(** C18: a meta record is a candidate of a file of [physical] bytes exactly
    when it satisfies the rules of a generation; otherwise an error names the
    first rule it breaks, and nothing panics or overflows. *)
Theorem bootstrap_valid_decides m physical :
  meta_ok m ->
  (bootstrap_valid m physical = Ok m /\ generation_rules m physical)
  \/ (exists problem, bootstrap_valid m physical = Err problem /\ ~ generation_rules m physical).
Proof. apply bootstrap_settles. Qed.

(** ** Reading a page *)

Section Pages.
Context (path : crc_path) (contiguous : bool).

(** The page passes the checks of a reader and names a database. *)
Definition readable (p : list Z) (m : MetaV4) : Prop :=
  meta_accepted path contiguous p = true /\ decode_unchecked p = Some m /\ database_id m <> zero_id.

Lemma identity_Ok p m : identity_readable path contiguous p = Ok m <-> readable p m.
Proof using Type.
  unfold identity_readable, require_identity_header, require_identity_body, refuse, readable, meta_accepted.
  destruct (meta_magic_valid p), (meta_fixed_values_valid p), (meta_reserved_zero p),
    (meta_checksum_valid path contiguous p); cbn [negb andb mbind outcome_bind]; try (split; [congruence | by intros [? _]]).
  destruct (decode_unchecked p) as [m'|]; cbn [ok_or mbind outcome_bind]; [| split; [done | by intros (_ & [=] & _)]].
  case_bool_decide as Hd; cbn [mbind outcome_bind].
  - split; [done | intros (_ & [= <-] & ?); done].
  - split; [intros [= <-]; done | intros (_ & [= <-] & _); done].
Qed.

Lemma identity_no_panic p s : identity_readable path contiguous p <> Panic s.
Proof using Type.
  unfold identity_readable, require_identity_header, require_identity_body, refuse.
  destruct (meta_magic_valid p), (meta_fixed_values_valid p), (meta_reserved_zero p),
    (meta_checksum_valid path contiguous p); cbn; try done.
  destruct (decode_unchecked p) as [m'|]; cbn; [| done]. by destruct (bool_decide _).
Qed.

Lemma readable_ok p m : page_ok p -> readable p m -> meta_ok m.
Proof using Type.
  intros Hp (Ha & Hd & _). unfold meta_accepted in Ha. zb. by apply (decode_inv p m).
Qed.

(** A page of a generation that may be current. *)
Definition eligible (p : list Z) (physical : Z) (m : MetaV4) : Prop :=
  readable p m /\ generation_rules m physical.

Lemma candidate_Ok p physical m : page_ok p -> candidate path contiguous p physical = Ok m <-> eligible p physical m.
Proof using Type.
  intros Hp. unfold candidate, eligible. split.
  - intros H. apply bind_Ok in H as (m' & Hi & Hb). apply identity_Ok in Hi.
    apply (settles_Ok _ _ _ _ (bootstrap_settles m' physical (readable_ok _ _ Hp Hi))) in Hb as [-> Hg]. done.
  - intros [Hr Hg]. run (proj2 (identity_Ok p m) Hr).
    by apply (settles_Ok _ _ _ _ (bootstrap_settles m physical (readable_ok _ _ Hp Hr))).
Qed.

Lemma candidate_no_panic p physical s : page_ok p -> candidate path contiguous p physical <> Panic s.
Proof using Type.
  intros Hp. unfold candidate. destruct (identity_readable path contiguous p) as [m|e|s'] eqn:Hi; cbn; try done.
  - apply identity_Ok in Hi. destruct (bootstrap_settles m physical (readable_ok _ _ Hp Hi)) as [[-> _] | (e & -> & _)]; done.
  - by apply identity_no_panic in Hi.
Qed.
End Pages.

(** ** Selection *)

Lemma land_one v : Z.land v 1 = v mod 2.
Proof. change 1 with (Z.ones 1) at 1. by rewrite Z.land_ones by lia. Qed.

Lemma same_bytes p q n : zlen p = PAGE_SIZE -> zlen q = PAGE_SIZE -> 0 <= n <= PAGE_SIZE ->
  same p q 0 n = true <-> forall i, 0 <= i < n -> bget p i = bget q i.
Proof.
  intros Hp Hq Hn. unfold same, checked_add.
  rewrite (proj2 (Z.leb_le _ usize_max)) by (unfold PAGE_SIZE, usize_max, u64_max in *; lia).
  rewrite Hp, Hq, (proj2 (Z.leb_le (0 + n) PAGE_SIZE)) by lia. cbn [andb]. rewrite forallb_forall. split.
  - intros H i Hi. specialize (H (Z.to_nat i) ltac:(apply in_seq; lia)). apply bool_decide_eq_true in H.
    rewrite Z2Nat.id, !byte_page in H by (done || lia). by injection H.
  - intros H i Hi. apply in_seq in Hi. apply bool_decide_eq_true. rewrite !byte_page by (done || lia). f_equal. apply H. lia.
Qed.

Section Select.
Context (path : crc_path) (contiguous : bool).

(** Accepted pages with the same record bytes are the same page. *)
Lemma same_record p q m m' : page_ok p -> page_ok q -> readable path contiguous p m -> readable path contiguous q m' ->
  same p q 0 META_SIZE = true -> p = q /\ m = m'.
Proof using Type.
  intros Hp Hq (Ha & Hd & _) (Ha' & Hd' & _) Hs. pose proof Hp as [Hz _]. pose proof Hq as [Hz' _].
  unfold meta_accepted in *. zb.
  rewrite same_bytes in Hs by (done || unfold META_SIZE, PAGE_SIZE; lia).
  assert (Heq : p = q).
  { apply list_ext; [by rewrite Hz, Hz' |]. intros i Hi. rewrite Hz in Hi.
    destruct (Z.lt_ge_cases i META_SIZE); [apply Hs; lia |]. unfold META_SIZE in *.
    rewrite (proj1 (reserved_zero_iff p Hp)), (proj1 (reserved_zero_iff q Hq)) by (done || lia). done. }
  subst q. split; [done | congruence].
Qed.

(** The pair of pages proves the generation [m] current: the other page holds
    the one before it, or the same record. *)
Definition proves_current (p0 p1 : list Z) (physical : Z) (m : MetaV4) (page : Z) : Prop :=
  exists m', eligible path contiguous (if page =? 0 then p0 else p1) physical m
    /\ eligible path contiguous (if page =? 0 then p1 else p0) physical m'
    /\ page = txn_id m mod 2 /\ (txn_id m' = txn_id m - 1 \/ (p0 = p1 /\ m' = m)).

Lemma eligible_inj p physical m m' :
  eligible path contiguous p physical m -> eligible path contiguous p physical m' -> m = m'.
Proof using Type. intros [(_ & Hd & _) _] [(_ & Hd' & _) _]. congruence. Qed.

Lemma select_pair_spec p0 p1 physical m0 m1 r : page_ok p0 -> page_ok p1 ->
  eligible path contiguous p0 physical m0 -> eligible path contiguous p1 physical m1 ->
  select_pair p0 p1 m0 m1 = Ok r ->
  exists m page, r = (m, ProvenCurrent, page) /\ proves_current p0 p1 physical m page.
Proof using Type.
  intros Hp0 Hp1 H0 H1. unfold select_pair, proves_current. destruct (Z.eqb_spec (txn_id m0) (txn_id m1)) as [He | Hne].
  - destruct (same p0 p1 0 META_SIZE) eqn:Hs; cbn [negb]; [| discriminate]. intros [= <-].
    destruct (same_record p0 p1 m0 m1 Hp0 Hp1 (proj1 H0) (proj1 H1) Hs) as [<- <-].
    exists m0, (Z.land (txn_id m0) 1). rewrite land_one. split; [done |]. exists m0.
    by destruct (_ =? 0); (split; [| split; [| split; [done | by right]]]).
  - destruct (Z.ltb_spec (txn_id m0) (txn_id m1)); rewrite usub_ok by lia; cbn [mbind outcome_bind]; rewrite land_one;
      repeat (match goal with |- context [?a =? ?b] => destruct (Z.eqb_spec a b) end; cbn [negb]; [| discriminate]);
      intros [= <-].
    + exists m1, 1. split; [done |]. exists m0. repeat split; try done; try apply H1; try apply H0. left. lia.
    + exists m0, 0. split; [done |]. exists m1. repeat split; try done; try apply H1; try apply H0. left. lia.
Qed.

Lemma select_pair_complete p0 p1 physical m0 m1 m page : page_ok p0 -> page_ok p1 ->
  eligible path contiguous p0 physical m0 -> eligible path contiguous p1 physical m1 ->
  proves_current p0 p1 physical m page -> select_pair p0 p1 m0 m1 = Ok (m, ProvenCurrent, page).
Proof using Type.
  intros Hp0 Hp1 H0 H1 (m' & Hm & Hm' & Hpage & Hd).
  assert (Hbit : page = 0 \/ page = 1) by (pose proof (Z.mod_pos_bound (txn_id m) 2); lia).
  destruct Hd as [Hd | [<- ->]].
  - unfold select_pair. destruct Hbit as [-> | ->]; cbn [Z.eqb] in Hm, Hm'.
    + pose proof (eligible_inj _ _ _ _ H0 Hm) as ->. pose proof (eligible_inj _ _ _ _ H1 Hm') as ->.
      rewrite (proj2 (Z.eqb_neq _ _)), (proj2 (Z.ltb_ge _ _)), usub_ok by lia. cbn [mbind outcome_bind].
      rewrite land_one, <- Hpage, (proj2 (Z.eqb_eq _ 1)) by lia. done.
    + pose proof (eligible_inj _ _ _ _ H1 Hm) as ->. pose proof (eligible_inj _ _ _ _ H0 Hm') as ->.
      rewrite (proj2 (Z.eqb_neq _ _)), (proj2 (Z.ltb_lt _ _)), usub_ok by lia. cbn [mbind outcome_bind].
      rewrite land_one, <- Hpage, (proj2 (Z.eqb_eq _ 1)) by lia. done.
  - assert (Hm0 : eligible path contiguous p0 physical m) by by destruct (page =? 0).
    pose proof (eligible_inj _ _ _ _ H0 Hm0) as ->. pose proof (eligible_inj _ _ _ _ H1 Hm0) as ->.
    assert (Hs : same p0 p0 0 META_SIZE = true)
      by (apply same_bytes; [apply Hp0 | apply Hp0 | unfold META_SIZE, PAGE_SIZE; lia | done]).
    unfold select_pair. rewrite Z.eqb_refl, Hs, land_one. by rewrite <- Hpage.
Qed.

(** ** Opening *)

Lemma finish_Ok m selection page physical mode b : finish_open m selection page physical mode = Ok b ->
  is_Some (structure_kind m) /\ (mode <> ImmutableReader -> selection = ProvenCurrent)
  /\ (mode = ImmutableReader -> page_count m * PAGE_SIZE = physical)
  /\ b = mkBootstrap m selection page (page_count m * PAGE_SIZE) physical.
Proof using Type.
  unfold finish_open, refuse, checked_mul. intros H. inv_ok.
  repeat case_bool_decide; cbn [negb andb] in *; try discriminate; destruct (_ <=? _); try discriminate;
    repeat match goal with H : Some _ = Some _ |- _ => injection H as <- end; subst b.
  all: repeat match goal with H : (if negb (?a =? ?b) then _ else _) = _ |- _ => destruct (Z.eqb_spec a b) end;
    try discriminate; done.
Qed.

Lemma finish_complete m page physical : is_Some (structure_kind m) -> page_count m <= MAX_PAGE_COUNT ->
  finish_open m ProvenCurrent page physical Writer
  = Ok (mkBootstrap m ProvenCurrent page (page_count m * PAGE_SIZE) physical).
Proof using Type.
  intros Hs Hc. unfold finish_open, refuse, checked_mul. rewrite (bool_decide_true (is_Some (structure_kind m))) by done. cbn [negb mbind outcome_bind].
  rewrite (proj2 (Z.leb_le _ u64_max)) by (unfold MAX_PAGE_COUNT, PAGE_SIZE, u64_max in *; lia). done.
Qed.

Lemma same_identity_Ok i0 i1 : require_same_identity i0 i1 = Ok tt <->
  forall m m', i0 = Ok m -> i1 = Ok m' -> static_identity_eq m m' = true.
Proof using Type.
  unfold require_same_identity, refuse. destruct i0 as [m|e|s], i1 as [m'|e'|s']; try (split; [intros _ ? ? ? ?; congruence | done]).
  destruct (static_identity_eq m m') eqn:He; cbn [negb]; split; try done.
  - intros _ ? ? [= <-] [= <-]. done.
  - intros H. specialize (H m m' eq_refl eq_refl). congruence.
Qed.

Lemma geometry_decides physical :
  decides (require_geometry physical) (2 * PAGE_SIZE <= physical /\ physical mod PAGE_SIZE = 0).
Proof using Type. apply decides_bind; [apply decides_refuse; rule | intros _; apply decides_refuse; rule]. Qed.

(** Exactly one of the pages holds an eligible record. *)
Definition sole (p other : list Z) (physical : Z) (m : MetaV4) : Prop :=
  eligible path contiguous p physical m /\ forall m', ~ eligible path contiguous other physical m'.

Lemma select_spec p0 p1 physical r : page_ok p0 -> page_ok p1 ->
  select_candidates p0 p1 (candidate path contiguous p0 physical) (candidate path contiguous p1 physical) = Ok r ->
  exists m selection page, r = (m, selection, page) /\
    match selection with
    | ProvenCurrent => proves_current p0 p1 physical m page
    | SoleMeta0 => page = 0 /\ sole p0 p1 physical m
    | SoleMeta1 => page = 1 /\ sole p1 p0 physical m
    end.
Proof using Type.
  intros Hp0 Hp1 H. pose proof (candidate_Ok path contiguous p0 physical) as H0. pose proof (candidate_Ok path contiguous p1 physical) as H1.
  unfold select_candidates in H.
  destruct (candidate path contiguous p0 physical) as [m0|e0|s0], (candidate path contiguous p1 physical) as [m1|e1|s1]; try discriminate H.
  - apply (select_pair_spec p0 p1 physical) in H as (m & page & -> & Hp); [by exists m, ProvenCurrent, page | done | done | by apply H0 | by apply H1].
  - injection H as <-. exists m0, SoleMeta0, 0. split; [done |]. split; [done |]. split; [by apply H0 |].
    intros m' Hm'. by apply H1 in Hm'.
  - injection H as <-. exists m1, SoleMeta1, 1. split; [done |]. split; [done |]. split; [by apply H1 |].
    intros m' Hm'. by apply H0 in Hm'.
Qed.

Lemma open_inv p0 p1 physical mode b : page_ok p0 -> page_ok p1 ->
  open_meta_pages path contiguous p0 p1 physical mode = Ok b ->
  match bs_selection b with
  | ProvenCurrent => proves_current p0 p1 physical (bs_meta b) (selected_meta_page b)
  | SoleMeta0 => selected_meta_page b = 0 /\ sole p0 p1 physical (bs_meta b)
  | SoleMeta1 => selected_meta_page b = 1 /\ sole p1 p0 physical (bs_meta b)
  end
  /\ is_Some (structure_kind (bs_meta b)) /\ (mode <> ImmutableReader -> bs_selection b = ProvenCurrent)
  /\ (mode = ImmutableReader -> committed_bytes b = physical)
  /\ committed_bytes b = page_count (bs_meta b) * PAGE_SIZE /\ physical_bytes b = physical.
Proof using Type.
  intros Hp0 Hp1 H. unfold open_meta_pages in H.
  apply bind_Ok in H as (? & _ & H). apply bind_Ok in H as (? & _ & H). apply bind_Ok in H as (r & Hr & H).
  destruct (select_spec p0 p1 physical r Hp0 Hp1 Hr) as (m & selection & page & -> & Hsel).
  apply finish_Ok in H as (Hk & Hm & Hi & ->). cbn. split; [done |]. done.
Qed.
End Select.

Lemma proves_newest path contiguous p0 p1 physical m page q m' :
  proves_current path contiguous p0 p1 physical m page -> q = p0 \/ q = p1 ->
  eligible path contiguous q physical m' -> txn_id m' <= txn_id m.
Proof.
  intros (m2 & Hm & Hm2 & _ & Hd) Hq Hm'.
  assert (Hcase : m' = m \/ m' = m2).
  { destruct (page =? 0); destruct Hq as [-> | ->];
      [left | right | right | left]; by eapply eligible_inj. }
  destruct Hcase as [-> | ->]; [lia |]. destruct Hd as [? | [_ ->]]; lia.
Qed.

(** C19: opening selects the newest generation that either meta page holds and
    that satisfies the rules; the file is long enough for it; a reader of a
    live database and a writer are given a generation only when the other page
    proves it current; an immutable reader only when the file ends with it. *)
Theorem open_selects_current path contiguous p0 p1 physical mode b :
  page_ok p0 -> page_ok p1 ->
  open_meta_pages path contiguous p0 p1 physical mode = Ok b ->
  eligible path contiguous (if selected_meta_page b =? 0 then p0 else p1) physical (bs_meta b)
  /\ (forall q m, q = p0 \/ q = p1 -> eligible path contiguous q physical m -> txn_id m <= txn_id (bs_meta b))
  /\ (mode <> ImmutableReader -> proves_current path contiguous p0 p1 physical (bs_meta b) (selected_meta_page b))
  /\ (mode = ImmutableReader -> committed_bytes b = physical)
  /\ committed_bytes b = page_count (bs_meta b) * PAGE_SIZE /\ committed_bytes b <= physical_bytes b
  /\ is_Some (structure_kind (bs_meta b)).
Proof.
  intros Hp0 Hp1 Ho. destruct (open_inv path contiguous _ _ _ _ _ Hp0 Hp1 Ho) as (Hsel & Hk & Hmode & Himm & Hc & Hph).
  assert (He : eligible path contiguous (if selected_meta_page b =? 0 then p0 else p1) physical (bs_meta b)).
  { destruct (bs_selection b); [by destruct Hsel as (? & ? & _) | destruct Hsel as [-> [? _]].. ]; done. }
  split; [done |]. split.
  - intros q m Hq Hm. destruct (bs_selection b).
    + by eapply proves_newest.
    + destruct Hsel as [_ [Hs Hno]]. destruct Hq as [-> | ->]; [| by apply Hno in Hm].
      by rewrite (eligible_inj _ _ _ _ _ _ Hm Hs).
    + destruct Hsel as [_ [Hs Hno]]. destruct Hq as [-> | ->]; [by apply Hno in Hm |].
      by rewrite (eligible_inj _ _ _ _ _ _ Hm Hs).
  - split; [intros Hm; by rewrite (Hmode Hm) in Hsel |]. split; [done |]. split; [done |]. split; [| done].
    rewrite Hph, Hc. destruct He as [_ (_ & _ & ?)]. done.
Qed.

Lemma select_no_panic path contiguous p0 p1 physical s : page_ok p0 -> page_ok p1 ->
  select_candidates p0 p1 (candidate path contiguous p0 physical) (candidate path contiguous p1 physical) <> Panic s.
Proof.
  intros Hp0 Hp1. pose proof (candidate_no_panic path contiguous p0 physical) as H0.
  pose proof (candidate_no_panic path contiguous p1 physical) as H1. unfold select_candidates.
  destruct (candidate path contiguous p0 physical) as [m0|e0|s0], (candidate path contiguous p1 physical) as [m1|e1|s1];
    try done; try (by destruct (H0 s0 Hp0)); try (by destruct (H1 s1 Hp1)).
  unfold select_pair. destruct (Z.eqb_spec (txn_id m0) (txn_id m1)); [by destruct (same p0 p1 0 META_SIZE) |].
  destruct (Z.ltb_spec (txn_id m0) (txn_id m1)); rewrite usub_ok by lia; cbn [mbind outcome_bind];
    by repeat destruct (negb _).
Qed.

Lemma finish_no_panic m selection page physical mode s : finish_open m selection page physical mode <> Panic s.
Proof.
  unfold finish_open, refuse. destruct (negb (bool_decide (is_Some _))); cbn [mbind outcome_bind]; [done |].
  destruct (negb _ && negb _); cbn [mbind outcome_bind]; [done |].
  destruct (checked_mul _ _ _) as [c|]; cbn [ok_or mbind outcome_bind]; [| done].
  destruct (bool_decide _ && _); cbn; done.
Qed.

Lemma open_no_panic path contiguous p0 p1 physical mode s : page_ok p0 -> page_ok p1 ->
  open_meta_pages path contiguous p0 p1 physical mode <> Panic s.
Proof.
  intros Hp0 Hp1. unfold open_meta_pages.
  destruct (geometry_decides physical) as [[-> _] | (e & -> & _)]; cbn [mbind outcome_bind]; [| done].
  unfold require_same_identity, refuse.
  destruct (identity_readable path contiguous p0), (identity_readable path contiguous p1);
    try destruct (negb _); cbn [mbind outcome_bind]; try done;
    (pose proof (select_no_panic path contiguous p0 p1 physical s Hp0 Hp1) as Hs;
     destruct (select_candidates p0 p1 _ _) as [[[? sel] page]| |]; cbn; [apply finish_no_panic | done | congruence]).
Qed.

(** One of the two pages holds an eligible record that satisfies [P]. *)
Definition some_page path contiguous (p0 p1 : list Z) (physical : Z) (P : MetaV4 -> Prop) : Prop :=
  exists q m, (q = p0 \/ q = p1) /\ eligible path contiguous q physical m /\ P m.

Lemma some_page_pair path contiguous p0 p1 physical m0 m1 P :
  eligible path contiguous p0 physical m0 -> eligible path contiguous p1 physical m1 ->
  some_page path contiguous p0 p1 physical P <-> P m0 \/ P m1.
Proof.
  intros H0 H1. split.
  - intros (q & m & [-> | ->] & Hm & HP).
    + rewrite (eligible_inj _ _ _ _ _ _ Hm H0) in HP. by left.
    + rewrite (eligible_inj _ _ _ _ _ _ Hm H1) in HP. by right.
  - intros [HP | HP]; [exists p0, m0 | exists p1, m1]; tauto.
Qed.

Lemma proves_pair path contiguous p0 p1 physical m page : proves_current path contiguous p0 p1 physical m page ->
  exists m0 m1, eligible path contiguous p0 physical m0 /\ eligible path contiguous p1 physical m1
    /\ (m = m0 \/ m = m1).
Proof.
  intros (m' & Hm & Hm' & _ & _). destruct (page =? 0); [exists m, m' | exists m', m]; tauto.
Qed.

Definition attempt_of (transaction : Z) (nonce : list Z) (m : MetaV4) : Prop :=
  txn_id m = transaction /\ commit_nonce m = nonce.
Definition rival_of (transaction : Z) (nonce : list Z) (m : MetaV4) : Prop :=
  txn_id m = transaction /\ commit_nonce m <> nonce.

(** C20: when the writer can open the database and it is the one asked about,
    every commit attempt is resolved: as committed exactly when a meta page
    holds it; as not committed when none does and the transaction was never
    reached or was committed by someone else; as unknown exactly when both
    meta pages have moved past it. *)
Theorem commit_attempt_resolved path contiguous p0 p1 physical b id transaction nonce :
  page_ok p0 -> page_ok p1 ->
  open_meta_pages path contiguous p0 p1 physical Writer = Ok b -> database_id (bs_meta b) = id ->
  exists r, resolve_commit_attempt path contiguous p0 p1 physical id transaction nonce = Ok r
    /\ (r = Committed <-> some_page path contiguous p0 p1 physical (attempt_of transaction nonce))
    /\ (r = SupersededUnknown <->
          transaction < txn_id (bs_meta b) /\ ~ some_page path contiguous p0 p1 physical (fun m => txn_id m = transaction))
    /\ (r = NotCommitted -> txn_id (bs_meta b) < transaction
          \/ some_page path contiguous p0 p1 physical (rival_of transaction nonce)).
Proof.
  intros Hp0 Hp1 Ho Hid. unfold resolve_commit_attempt. run Ho. rewrite bool_decide_true by done. cbn [negb].
  destruct (open_inv path contiguous _ _ _ _ _ Hp0 Hp1 Ho) as (Hsel & _ & Hmode & _).
  rewrite (Hmode ltac:(done)) in Hsel.
  destruct (proves_pair _ _ _ _ _ _ _ Hsel) as (m0 & m1 & H0 & H1 & Hb).
  rewrite (proj2 (candidate_Ok path contiguous p0 physical m0 Hp0) H0), (proj2 (candidate_Ok path contiguous p1 physical m1 Hp1) H1).
  assert (Hle0 : txn_id m0 <= txn_id (bs_meta b)) by (eapply proves_newest; [done | by left | done]).
  assert (Hle1 : txn_id m1 <= txn_id (bs_meta b)) by (eapply proves_newest; [done | by right | done]).
  setoid_rewrite (some_page_pair _ _ _ _ _ _ _ _ H0 H1). unfold attempt_of, rival_of. cbn [existsb].
  destruct (Z.eqb_spec (txn_id m0) transaction) as [E0|N0], (Z.eqb_spec (txn_id m1) transaction) as [E1|N1];
    repeat case_bool_decide; cbn [andb orb negb];
    destruct (Z.ltb_spec (txn_id (bs_meta b)) transaction); cbn [andb orb negb];
    destruct (Z.ltb_spec transaction (txn_id (bs_meta b))); 
    try (eexists; split; [reflexivity |]; split_and!; try (split; intros); intuition (congruence || lia)).
  all: exfalso; destruct Hb as [Hb | Hb]; rewrite Hb in *; lia.
Qed.

(** ** Witnesses *)

(** Transactions of the sample database: 4 on page 0, 5 on page 1. *)
Definition sample_at (t nonce : Z) : MetaV4 := mkMetaV4 Ipv4 Direct 0 FIRST_SEEN (replicate 16 7) t (replicate 16 nonce)
  3 1 0 0 0 0 0 0 0 2 0 0 0 0 0 0 0 0 0 [0; 0; 0; 0] 0 0 0 0 0.

Lemma sample_at_ok t nonce : 0 <= t <= u64_max -> 0 <= nonce < 256 -> meta_ok (sample_at t nonce).
Proof.
  intros Ht Hn. constructor; unfold is_id16, bytes_ok, is_byte, is_u64, is_u32, u64_max in *; cbn;
    repeat split; try lia; repeat constructor; lia.
Qed.

Definition page_of (m : MetaV4) : list Z :=
  match encode_mapped crc32c_pointer_table m with Ok p => p | _ => [] end.

Lemma page_of_ok m : meta_ok m -> encode_mapped crc32c_pointer_table m = Ok (page_of m) /\ page_ok (page_of m).
Proof.
  intros Hm. destruct (encoded_page _ m table_continues Hm) as (p & He & Hp & _). unfold page_of. by rewrite He.
Qed.

Definition page4 : list Z := Eval vm_compute in page_of (sample_at 4 8).
Definition page5 : list Z := Eval vm_compute in page_of (sample_at 5 9).

Lemma page4_ok : page_ok page4.
Proof.
  replace page4 with (page_of (sample_at 4 8)) by (vm_compute; reflexivity).
  apply page_of_ok, sample_at_ok; unfold u64_max; lia.
Qed.
Lemma page5_ok : page_ok page5.
Proof.
  replace page5 with (page_of (sample_at 5 9)) by (vm_compute; reflexivity).
  apply page_of_ok, sample_at_ok; unfold u64_max; lia.
Qed.

Definition opened5 : Bootstrap := mkBootstrap (sample_at 5 9) ProvenCurrent 1 12288 12288.

Lemma bootstrap_valid_decides_witness : generation_rules (sample_at 5 9) 12288.
Proof.
  destruct (bootstrap_valid_decides (sample_at 5 9) 12288) as [[_ H] | (e & H & _)].
  - apply sample_at_ok; unfold u64_max; lia.
  - exact H.
  - vm_compute in H. discriminate H.
Defined.

Lemma open_selects_current_witness :
  open_meta_pages X86 true page4 page5 12288 Writer = Ok opened5
  /\ proves_current X86 true page4 page5 12288 (sample_at 5 9) 1.
Proof.
  assert (Ho : open_meta_pages X86 true page4 page5 12288 Writer = Ok opened5) by (vm_compute; reflexivity).
  split; [exact Ho |].
  destruct (open_selects_current X86 true page4 page5 12288 Writer opened5 page4_ok page5_ok Ho) as (_ & _ & Hp & _).
  apply Hp. discriminate.
Defined.

Lemma commit_attempt_resolved_witness :
  resolve_commit_attempt X86 true page4 page5 12288 (replicate 16 7) 5 (replicate 16 9) = Ok Committed
  /\ some_page X86 true page4 page5 12288 (attempt_of 5 (replicate 16 9)).
Proof.
  assert (Ho : open_meta_pages X86 true page4 page5 12288 Writer = Ok opened5) by (vm_compute; reflexivity).
  assert (Hr : resolve_commit_attempt X86 true page4 page5 12288 (replicate 16 7) 5 (replicate 16 9) = Ok Committed)
    by (vm_compute; reflexivity).
  split; [exact Hr |].
  destruct (commit_attempt_resolved X86 true page4 page5 12288 opened5 (replicate 16 7) 5 (replicate 16 9)
    page4_ok page5_ok Ho eq_refl) as (r & Hr' & Hc & _).
  apply Hc. rewrite Hr in Hr'. injection Hr' as <-. reflexivity.
Defined.
