(* ===== verification/Machine.v ===== *)
(** * Stateful code that can fail

    A Rust method on [&mut self] that returns [Result] keeps what it has
    already changed when it fails, so it is a function from the state to the
    new state and the outcome, not an outcome of a state.  [io S] is that
    monad; [wp] is its weakest precondition and [keeps R] says that a
    computation moves the state along the preorder [R] on every path, errors
    and panics included. *)

From stdpp Require Import base tactics numbers list strings.
From Stdlib Require Import ZArith Lia.
From S2P Require Import Prelude Errors.

#[local] Open Scope string_scope.
#[local] Open Scope list_scope.
#[local] Open Scope Z_scope.

Definition io (S A : Type) : Type := S -> S * Result A.

#[global] Instance io_ret S : MRet (io S) := fun A a s => (s, Ok a).
#[global] Instance io_bind S : MBind (io S) := fun A B f m s =>
  match m s with
  | (s', Ok a) => f a s'
  | (s', Err e) => (s', Err e)
  | (s', Panic t) => (s', Panic t)
  end.

Definition lift {S A} (r : Result A) : io S A := fun s => (s, r).
Definition gets {S A} (f : S -> A) : io S A := fun s => (s, Ok (f s)).
Definition modify {S} (f : S -> S) : io S unit := fun s => (f s, Ok tt).

(** [match call() { Ok(a) => .., Err(e) => .. }]; a panic unwinds. *)
Definition attempt {S A} (m : io S A) : io S (A + Error) := fun s =>
  match m s with
  | (s', Ok a) => (s', Ok (inl a))
  | (s', Err e) => (s', Ok (inr e))
  | (s', Panic t) => (s', Panic t)
  end.

(** A method of a field: [self.field.call()]. *)
Definition zoom {S T A} (get : S -> T) (set : T -> S -> S) (m : io T A) : io S A := fun s =>
  let '(t, r) := m (get s) in (set t s, r).

(** [if c { return Err(e); }]. *)
Definition fail_if {S} (c : bool) (e : Error) : io S unit :=
  lift (if c then Err e else Ok tt).

(** One poll of the cancellation token; the state is the number of polls so
    far. *)
Definition is_cancelled (cancelled : nat -> bool) : io nat bool := fun asked => (S asked, Ok (cancelled asked)).

(** ** Weakest preconditions *)

Definition wp {S A} (m : io S A) (Q : Result A -> S -> Prop) (s : S) : Prop :=
  Q (snd (m s)) (fst (m s)).

Section Wp.
Context {S : Type}.
Implicit Types s : S.

Lemma wp_eq {A} (m : io S A) Q s s' r : m s = (s', r) -> Q r s' -> wp m Q s.
Proof. unfold wp. by intros ->. Qed.

Lemma wp_ret {A} (a : A) (Q : Result A -> S -> Prop) s : Q (Ok a) s -> wp (mret a) Q s.
Proof. done. Qed.
Lemma wp_lift {A} (r : Result A) (Q : Result A -> S -> Prop) s : Q r s -> wp (lift r) Q s.
Proof. done. Qed.
Lemma wp_gets {A} (f : S -> A) (Q : Result A -> S -> Prop) s : Q (Ok (f s)) s -> wp (gets f) Q s.
Proof. done. Qed.
Lemma wp_modify (f : S -> S) (Q : Result unit -> S -> Prop) s : Q (Ok tt) (f s) -> wp (modify f) Q s.
Proof. done. Qed.

Lemma wp_mono {A} (m : io S A) (P Q : Result A -> S -> Prop) s :
  wp m P s -> (forall r s', P r s' -> Q r s') -> wp m Q s.
Proof. unfold wp. auto. Qed.

(** What follows a call runs on its [Ok], and is skipped otherwise. *)
Definition after {A B} (f : A -> io S B) (Q : Result B -> S -> Prop) : Result A -> S -> Prop := fun r s =>
  match r with
  | Ok a => wp (f a) Q s
  | Err e => Q (Err e) s
  | Panic t => Q (Panic t) s
  end.

Lemma wp_bind {A B} (m : io S A) (f : A -> io S B) Q s : wp m (after f Q) s -> wp (m ≫= f) Q s.
Proof. unfold wp, mbind, io_bind, after. destruct (m s) as [s' [a | e | t]]; done. Qed.

Lemma wp_attempt {A} (m : io S A) Q s :
  wp m (fun r s' => match r with
                    | Ok a => Q (Ok (inl a)) s'
                    | Err e => Q (Ok (inr e)) s'
                    | Panic t => Q (Panic t) s'
                    end) s -> wp (attempt m) Q s.
Proof. unfold wp, attempt. destruct (m s) as [s' [a | e | t]]; done. Qed.

Lemma wp_zoom {T A} (get : S -> T) set (m : io T A) Q s :
  wp m (fun r t => Q r (set t s)) (get s) -> wp (zoom get set m) Q s.
Proof. unfold wp, zoom. by destruct (m (get s)). Qed.

(** A call whose outcome is known. *)
Lemma bind_ok {A B} (m : io S A) (f : A -> io S B) s s' a : m s = (s', Ok a) -> (m ≫= f) s = f a s'.
Proof. unfold mbind, io_bind. by intros ->. Qed.
Lemma bind_err {A B} (m : io S A) (f : A -> io S B) s s' e : m s = (s', Err e) -> (m ≫= f) s = (s', Err e).
Proof. unfold mbind, io_bind. by intros ->. Qed.
Lemma bind_panic {A B} (m : io S A) (f : A -> io S B) s s' t : m s = (s', Panic t) -> (m ≫= f) s = (s', Panic t).
Proof. unfold mbind, io_bind. by intros ->. Qed.

(** Inversion of a successful sequence. *)
Lemma bind_inv {A B} (m : io S A) (f : A -> io S B) s s' b :
  (m ≫= f) s = (s', Ok b) -> exists a s1, m s = (s1, Ok a) /\ f a s1 = (s', Ok b).
Proof. unfold mbind, io_bind. destruct (m s) as [s1 [a | e | t]]; intros H; try discriminate; eauto. Qed.
End Wp.

(** ** Preservation of a preorder on the state *)

Definition keeps {S A} (R : S -> S -> Prop) (m : io S A) : Prop := forall s, R s (fst (m s)).

Create HintDb keeps.

Section Keeps.
Context {S : Type} (R : S -> S -> Prop) `{!PreOrder R}.

Lemma keeps_ret {A} (a : A) : keeps R (mret a).
Proof using All. by intros s. Qed.
Lemma keeps_lift {A} (r : Result A) : keeps R (lift r).
Proof using All. by intros s. Qed.
Lemma keeps_gets {A} (f : S -> A) : keeps R (gets f).
Proof using All. by intros s. Qed.
Lemma keeps_fail_if c e : keeps R (fail_if c e).
Proof using All. by intros s. Qed.
Lemma keeps_modify f : (forall s, R s (f s)) -> keeps R (modify f).
Proof using Type. by intros H s. Qed.
Lemma keeps_bind {A B} (m : io S A) (f : A -> io S B) : keeps R m -> (forall a, keeps R (f a)) -> keeps R (m ≫= f).
Proof using All.
  intros Hm Hf s. unfold mbind, io_bind. specialize (Hm s).
  destruct (m s) as [s' [a | e | t]]; cbn in *; [| done..]. etrans; [exact Hm | apply Hf].
Qed.
Lemma keeps_lift_bind {A B} (r : Result A) (f : A -> io S B) :
  (forall a, r = Ok a -> keeps R (f a)) -> keeps R (lift r ≫= f).
Proof using All. intros Hf s. unfold mbind, io_bind, lift. destruct r; [by apply Hf | done | done]. Qed.
Lemma keeps_attempt {A} (m : io S A) : keeps R m -> keeps R (attempt m).
Proof using Type. intros Hm s. specialize (Hm s). unfold attempt. by destruct (m s) as [s' [a | e | t]]. Qed.
Lemma keeps_if {A} (b : bool) (m n : io S A) : keeps R m -> keeps R n -> keeps R (if b then m else n).
Proof using Type. by destruct b. Qed.
Lemma keeps_zoom {T A} (R' : T -> T -> Prop) (get : S -> T) set (m : io T A) :
  (forall s t, R' (get s) t -> R s (set t s)) -> keeps R' m -> keeps R (zoom get set m).
Proof using Type. intros H Hm s. specialize (Hm (get s)). unfold zoom. destruct (m (get s)). cbn. auto. Qed.
End Keeps.

(** Split a computation into its calls; the calls are found in [keeps]. *)
Ltac keeps_step :=
  match goal with
  | |- keeps ?R (mret _) => apply (keeps_ret R)
  | |- keeps ?R (lift _) => apply (keeps_lift R)
  | |- keeps ?R (gets _) => apply (keeps_gets R)
  | |- keeps ?R (fail_if _ _) => apply (keeps_fail_if R)
  | |- keeps ?R (_ ≫= _) => apply (keeps_bind R); [| intros ?]
  | |- keeps ?R (attempt _) => apply (keeps_attempt R)
  | |- keeps ?R (if _ then _ else _) => apply (keeps_if R)
  | |- keeps _ (match ?x with _ => _ end) => destruct x
  | |- keeps _ _ => solve [eauto with keeps]
  end.
Ltac keeps_tac := repeat keeps_step.

(** ** Absence of panics under an invariant *)

Definition calm_at {S A} (I : S -> Prop) (m : io S A) (s : S) : Prop :=
  I (fst (m s)) /\ forall t, snd (m s) <> Panic t.
Definition calm {S A} (I : S -> Prop) (m : io S A) : Prop := forall s, I s -> calm_at I m s.

Section Calm.
Context {S : Type} (I : S -> Prop).

Lemma calm_ret {A} (a : A) : calm I (mret a).
Proof using Type. intros s Hs. by split. Qed.
Lemma calm_lift {A} (r : Result A) : (forall t, r <> Panic t) -> calm I (lift r).
Proof using Type. intros Hr s Hs. by split. Qed.
Lemma calm_gets {A} (f : S -> A) : calm I (gets f).
Proof using Type. intros s Hs. by split. Qed.
Lemma calm_fail_if c e : calm I (fail_if c e).
Proof using Type. intros s Hs. split; [done |]. by destruct c. Qed.
Lemma calm_modify f : (forall s, I s -> I (f s)) -> calm I (modify f).
Proof using Type. intros Hf s Hs. split; [apply Hf, Hs | done]. Qed.
Lemma calm_bind_at {A B} (m : io S A) (f : A -> io S B) s : calm_at I m s ->
  (forall a s', m s = (s', Ok a) -> I s' -> calm_at I (f a) s') -> calm_at I (m ≫= f) s.
Proof using Type.
  unfold calm_at, mbind, io_bind. intros [Hi Hp] Hf. destruct (m s) as [s' [a | e | t]]; cbn in *; [by apply Hf | done |].
  by destruct (Hp t).
Qed.
Lemma calm_bind {A B} (m : io S A) (f : A -> io S B) : calm I m -> (forall a, calm I (f a)) -> calm I (m ≫= f).
Proof using Type. intros Hm Hf s Hs. apply calm_bind_at; [by apply Hm | intros a s' _ Hs'; by apply Hf]. Qed.
Lemma calm_attempt {A} (m : io S A) : calm I m -> calm I (attempt m).
Proof using Type.
  intros Hm s Hs. destruct (Hm s Hs) as [Hi Hp]. unfold calm_at, attempt.
  destruct (m s) as [s' [a | e | t]]; cbn in *; [done | done |]. by destruct (Hp t).
Qed.
Lemma calm_if {A} (b : bool) (m n : io S A) : calm I m -> calm I n -> calm I (if b then m else n).
Proof using Type. by destruct b. Qed.
Lemma calm_zoom {T A} (J : T -> Prop) (get : S -> T) set (m : io T A) :
  (forall s, I s -> J (get s)) -> (forall s t, I s -> J t -> I (set t s)) -> calm J m -> calm I (zoom get set m).
Proof using Type.
  intros HJ HI Hm s Hs. destruct (Hm (get s) (HJ s Hs)) as [Hi Hp]. unfold calm_at, zoom.
  destruct (m (get s)) as [t r]. cbn in *. auto.
Qed.
End Calm.

Ltac calm_step :=
  match goal with
  | |- calm ?I (mret _) => apply (calm_ret I)
  | |- calm ?I (gets _) => apply (calm_gets I)
  | |- calm ?I (fail_if _ _) => apply (calm_fail_if I)
  | |- calm ?I (lift _) => apply (calm_lift I); [try solve [repeat case_match; done | done]]
  | |- calm ?I (_ ≫= _) => apply (calm_bind I); [| intros ?]
  | |- calm ?I (attempt _) => apply (calm_attempt I)
  | |- calm ?I (if _ then _ else _) => apply (calm_if I)
  | |- calm _ (match ?x with _ => _ end) => destruct x
  | |- calm _ _ => solve [eauto with keeps]
  end.
Ltac calm_tac := repeat calm_step.

(** ** Absence of panics, with what holds after a success *)

Definition fine {S A} (Q : A -> S -> Prop) (r : Result A) (s : S) : Prop :=
  match r with Ok a => Q a s | Err _ => True | Panic _ => False end.
Definition safe {S A} (m : io S A) (s : S) (Q : A -> S -> Prop) : Prop := wp m (fine Q) s.

Section Safe.
Context {S : Type}.
Implicit Types s : S.

Lemma safe_bind {A B} (m : io S A) (f : A -> io S B) s Q :
  safe m s (fun a s' => safe (f a) s' Q) -> safe (m ≫= f) s Q.
Proof using Type. intros Hm. apply wp_bind. refine (wp_mono m (fine _) _ s Hm _). by intros [] s'. Qed.
Lemma safe_mono {A} (m : io S A) s (P Q : A -> S -> Prop) : safe m s P -> (forall a s', P a s' -> Q a s') -> safe m s Q.
Proof using Type. intros Hm HPQ. refine (wp_mono m (fine _) _ s Hm _). intros [] s'; cbn; auto. Qed.
Lemma safe_ret {A} (a : A) s (Q : A -> S -> Prop) : Q a s -> safe (mret a) s Q.
Proof using Type. done. Qed.
Lemma safe_gets {A} (f : S -> A) s (Q : A -> S -> Prop) : Q (f s) s -> safe (gets f) s Q.
Proof using Type. done. Qed.
Lemma safe_modify f s (Q : unit -> S -> Prop) : Q tt (f s) -> safe (modify f) s Q.
Proof using Type. done. Qed.
Lemma safe_lift {A} (r : Result A) s (Q : A -> S -> Prop) :
  (forall t, r <> Panic t) -> (forall a, r = Ok a -> Q a s) -> safe (lift r) s Q.
Proof using Type. intros Hr HQ. unfold safe, wp, lift. cbn. destruct r; [by apply HQ | done | by destruct (Hr msg)]. Qed.
Lemma safe_fail_if b e s (Q : unit -> S -> Prop) : Q tt s -> safe (fail_if b e) s Q.
Proof using Type. by destruct b. Qed.
Lemma safe_zoom {T A} (get : S -> T) set (m : io T A) s (Q : A -> S -> Prop) :
  safe m (get s) (fun a t => Q a (set t s)) -> safe (zoom get set m) s Q.
Proof using Type. intros Hm. apply wp_zoom. refine (wp_mono m (fine _) _ (get s) Hm _). by intros [] t. Qed.
End Safe.

(** Step through a computation; the calls are left to their lemmas. *)
Ltac safe_step :=
  match goal with
  | |- safe (mret _) _ _ => apply safe_ret
  | |- safe (gets _) _ _ => apply safe_gets
  | |- safe (modify _) _ _ => apply safe_modify
  | |- safe (fail_if _ _) _ _ => apply safe_fail_if
  | |- safe (_ ≫= _) _ _ => apply safe_bind
  | |- safe (if ?b then _ else _) _ _ => destruct b eqn:?
  end.
