(* ===== verification/Mapping.v ===== *)
(** * The mapped database file

    [mapping.rs]: one file and its current memory map.  The file is its length
    and its pages (a page that was never written reads as zeros); the mapping
    is shared, so a write to a mapped page is a write to the file.

    What the operating system answers is a parameter of every run: [answers]
    lists the outcomes of the coming system calls ([metadata], [set_len],
    [mmap], [msync], [fsync]), an error carrying its code; when the list is
    exhausted calls succeed.  [events] records, oldest first, every call that
    matters to what survives a crash. *)

From stdpp Require Import base tactics numbers list strings gmap.
From Stdlib Require Import ZArith Lia.
From S2P Require Import Prelude Errors Bytes Machine.

#[local] Open Scope string_scope.
#[local] Open Scope list_scope.
#[local] Open Scope Z_scope.

(** ** The operating system's side *)

Inductive event :=
| Wrote (page_number : Z) (page : list Z)
| Flushed (offset len : Z)
| Synced
| Resized (len : Z).

Record Machine := mkMachine {
  file_len : Z;
  file_pages : gmap Z (list Z);
  answers : list (option Z);
  events : list event;
}.

Definition read_page (w : Machine) (n : Z) : list Z := default (page_fill 0) (file_pages w !! n).

Definition with_answers (a : list (option Z)) (w : Machine) : Machine :=
  mkMachine (file_len w) (file_pages w) a (events w).

Definition system_call : io Machine unit := fun w =>
  match answers w with
  | [] => (w, Ok tt)
  | None :: rest => (with_answers rest w, Ok tt)
  | Some os_code :: rest => (with_answers rest w, Err (Io (Some os_code)))
  end.

Definition write_page (n : Z) (p : list Z) (w : Machine) : Machine :=
  mkMachine (file_len w) (<[n := p]> (file_pages w)) (answers w) (events w ++ [Wrote n p]).

Definition note (e : event) (w : Machine) : Machine :=
  mkMachine (file_len w) (file_pages w) (answers w) (events w ++ [e]).

(** The pages that lie wholly below [len] keep their bytes; every length the
    code sets is a multiple of the page size. *)
Definition cut (len : Z) (w : Machine) : Machine :=
  mkMachine len (filter (fun '(n, _) => (n + 1) * PAGE_SIZE <= len) (file_pages w)) (answers w)
    (events w ++ [Resized len]).

Definition sys_len : io Machine Z := _ ← system_call; gets file_len.
Definition sys_set_len (len : Z) : io Machine unit := _ ← system_call; modify (cut len).
Definition sys_map : io Machine unit := system_call.
Definition sys_msync (offset len : Z) : io Machine unit := _ ← system_call; modify (note (Flushed offset len)).
Definition sys_fsync : io Machine unit := _ ← system_call; modify (note Synced).

(** ** The mapping *)

Inductive Access := ReadOnly | ReadWrite.
#[global] Instance Access_eq_dec : EqDecision Access.
Proof. solve_decision. Defined.

Record Mapping := mkMapping {
  map_file : bool;
  map_live : bool;
  map_len : Z;
  map_access : Access;
  map_unreadable : option (list Z);
  map_os : Machine;
}.

Definition set_map (live : bool) (len : Z) (m : Mapping) : Mapping :=
  mkMapping (map_file m) live len (map_access m) (map_unreadable m) (map_os m).
Definition set_os (w : Machine) (m : Mapping) : Mapping :=
  mkMapping (map_file m) (map_live m) (map_len m) (map_access m) (map_unreadable m) w.

Definition on_os {A} : io Machine A -> io Mapping A := zoom map_os set_os.

(** [file()]. *)
Definition file_ : io Mapping unit :=
  owned ← gets map_file;
  lift (if owned : bool then Ok tt else Panic "owned database mapping retains its file").

Definition len_of_file : io Mapping Z := _ ← file_; on_os sys_len.

Definition checked_len (len : Z) : Result Z :=
  if len <=? usize_max then Ok len else Err (ArithmeticOverflow "mapping length").

Definition page_offset (page_number page_limit map_len : Z) : Result Z :=
  if page_limit <=? page_number then Err (Corrupt "page number is outside mapped bounds")
  else
    offset ← ok_or (checked_mul usize_max page_number PAGE_SIZE) (ArithmeticOverflow "mapped page offset");
    _ ← checked_subrange offset PAGE_SIZE map_len;
    Ok offset.

Definition checked_range (offset len extent : Z) : Result (Z * Z) :=
  offset ← (if offset <=? usize_max then Ok offset else Err (ArithmeticOverflow "mapped range offset"));
  len ← (if len <=? usize_max then Ok len else Err (ArithmeticOverflow "mapped range length"));
  _ ← checked_subrange offset len extent;
  Ok (offset, len).

Definition raw : io Mapping unit :=
  live ← gets map_live;
  lift (if live : bool then Ok tt else Err (WrongState "file mapping is unavailable")).

Definition require_write : io Mapping unit :=
  access ← gets map_access;
  lift (if decide (access = ReadWrite) then Ok tt else Err (WrongMode "file mapping is read-only")).

Definition map_nonempty (len : Z) : io Mapping bool :=
  if len =? 0 then mret false else _ ← on_os sys_map; mret true.

Definition require_file_extent (len : Z) : io Mapping unit :=
  length ← len_of_file;
  lift (if length <? len then Err (Corrupt "mapping exceeds the file extent") else Ok tt).

Definition replace_map (len : Z) : io Mapping unit :=
  map ← attempt (map_nonempty len);
  match map with
  | inl live => modify (set_map live len)
  | inr error => _ ← modify (fun m => set_map (map_live m) 0 m); lift (Err error)
  end.

(** [Self::new] on a file the mapping keeps: the caller's mapping value is
    the one built here. *)
Definition mapping_new (access : Access) (len : Z) : io Machine Mapping := fun w =>
  let start := mkMapping true false 0 access None w in
  let '(m, r) := (len ← lift (checked_len len);
                  _ ← require_file_extent len;
                  map_nonempty len) start in
  (map_os m, live ← r; Ok (set_map live len m)).

Definition unmap : io Mapping unit := modify (set_map false 0).

(** [windows(2).any(|pair| pair[0] >= pair[1])]. *)
Fixpoint any_descent (pages : list Z) : bool :=
  match pages with
  | a :: (b :: _) as rest => (b <=? a) || any_descent rest
  | _ => false
  end.

Definition set_unreadable_pages (pages : list Z) : io Mapping unit :=
  _ ← fail_if (any_descent pages) (InvalidArgument "unreadable mapped pages must be sorted and unique");
  modify (fun m => mkMapping (map_file m) (map_live m) (map_len m) (map_access m)
                     (if decide (pages = []) then None else Some pages) (map_os m)).

(** [EIO]. *)
Definition EIO : Z := 5.

(** The search of [page] in the sorted list is its membership. *)
Definition page (page_number page_limit : Z) : io Mapping (list Z) :=
  unreadable ← gets map_unreadable;
  _ ← fail_if (match unreadable with
               | Some pages => existsb (Z.eqb page_number) pages
               | None => false
               end) (Io (Some EIO));
  len ← gets map_len;
  _ ← lift (page_offset page_number page_limit len);
  _ ← raw;
  gets (fun m => read_page (map_os m) page_number).

(** [page_mut(..)] followed by what the caller does with the page it borrows:
    [look] reads it first, [edit] writes; the bytes written before a failure
    stay. *)
Definition page_mut_after {T A} (page_number page_limit : Z) (look : list Z -> Result T) (edit : T -> io (list Z) A)
    : io Mapping A :=
  _ ← require_write;
  len ← gets map_len;
  _ ← lift (page_offset page_number page_limit len);
  _ ← raw;
  old ← gets (fun m => read_page (map_os m) page_number);
  t ← lift (look old);
  let '(new, r) := edit t old in
  _ ← on_os (modify (write_page page_number new));
  lift r.

Definition page_mut {A} (page_number page_limit : Z) (edit : io (list Z) A) : io Mapping A :=
  page_mut_after page_number page_limit (fun _ => Ok tt) (fun _ => edit).

Definition page_pair {T A} (source destination page_limit : Z) (look : list Z -> Result T)
    (copy : T -> list Z -> io (list Z) A) : io Mapping A :=
  _ ← require_write;
  _ ← fail_if (source =? destination) (InvalidArgument "mapped source and destination pages must differ");
  len ← gets map_len;
  _ ← lift (page_offset source page_limit len);
  _ ← lift (page_offset destination page_limit len);
  _ ← raw;
  from ← gets (fun m => read_page (map_os m) source);
  old ← gets (fun m => read_page (map_os m) destination);
  t ← lift (look old);
  let '(new, r) := copy t from old in
  _ ← on_os (modify (write_page destination new));
  lift r.

Definition flush_range (offset len : Z) : io Mapping unit :=
  extent ← gets map_len;
  '(offset, len) ← lift (checked_range offset len extent);
  _ ← raw;
  on_os (sys_msync offset len).

Definition flush_page (page_number page_limit : Z) : io Mapping unit :=
  extent ← gets map_len;
  offset ← lift (page_offset page_number page_limit extent);
  _ ← raw;
  on_os (sys_msync offset PAGE_SIZE).

Definition sync_file : io Mapping unit := _ ← file_; on_os sys_fsync.

Definition resize (len : Z) : io Mapping unit :=
  _ ← require_write;
  len ← lift (checked_len len);
  _ ← modify (fun m => set_map false (map_len m) m);
  _ ← file_;
  _ ← on_os (sys_set_len len);
  replace_map len.

Definition remap (len : Z) : io Mapping unit :=
  len ← lift (checked_len len);
  _ ← require_file_extent len;
  _ ← modify (fun m => set_map false (map_len m) m);
  replace_map len.

Section Platform.
(** Whether the target is Windows, where a file with another mapped view
    cannot shrink. *)
Context (windows : bool).

Definition ERROR_USER_MAPPED_FILE : Z := 1224.

Definition mapped_view_prevents_shrink (source : Error) : bool :=
  match source with
  | Io (Some os_code) => windows && (os_code =? ERROR_USER_MAPPED_FILE)
  | _ => false
  end.

Definition shrink_file_or_retain (len : Z) : io Mapping Z :=
  physical_len ← len_of_file;
  if physical_len <? len then lift (Err (Corrupt "main file is shorter than its committed generation"))
  else if physical_len =? len then mret len
  else
    shrunk ← attempt (on_os (sys_set_len len));
    match shrunk with
    | inl _ => mret len
    | inr source => if mapped_view_prevents_shrink source then mret physical_len else lift (Err source)
    end.

Definition shrink_or_retain (len : Z) : io Mapping Z :=
  _ ← require_write;
  mapped_len ← lift (checked_len len);
  current ← gets map_len;
  exact ← (if current =? mapped_len then physical ← len_of_file; mret (physical =? len) else mret false);
  if exact : bool then mret len
  else
    _ ← modify (fun m => set_map false (map_len m) m);
    _ ← file_;
    shrunk ← attempt (shrink_file_or_retain len);
    match shrunk with
    | inl physical_len => _ ← replace_map mapped_len; mret physical_len
    | inr cause =>
        remapped ← attempt (replace_map mapped_len);
        error ← lift (combine_errors cause (match remapped with inl u => Ok u | inr e => Err e end));
        lift (Err error)
    end.
End Platform.
