(* ===== verification/MappingFacts.v ===== *)
(** * What a crash leaves on storage

    The model of durability the publication theorems are stated in, and how
    the operations of the mapping move it.  Bytes written through the map can
    reach storage at any time or not at all, torn in any way, until a flush of
    their range and then a sync of the file have both succeeded; a new file
    length can be lost until a sync.  Nothing else is assumed of the operating
    system. *)

From stdpp Require Import base tactics numbers list strings gmap.
From Stdlib Require Import ZArith Lia.
From S2P Require Import Prelude Errors Bytes Machine Mapping.

#[local] Open Scope string_scope.
#[local] Open Scope list_scope.
#[local] Open Scope Z_scope.

(** ** One page and the length *)

(** [Settled p]: storage holds [p].  [Unsettled flushed p]: the latest bytes are
    [p], storage may hold anything. *)
Inductive durability :=
| Settled (p : list Z)
| Unsettled (flushed : bool) (p : list Z).

Definition content (d : durability) : list Z := match d with Settled p | Unsettled _ p => p end.

Definition covers (offset len n : Z) : bool := (offset <=? n * PAGE_SIZE) && ((n + 1) * PAGE_SIZE <=? offset + len).

Definition age (n : Z) (d : durability) (e : event) : durability :=
  match e, d with
  | Wrote k p, _ => if k =? n then Unsettled false p else d
  | Flushed offset len, Unsettled _ p => if covers offset len n then Unsettled true p else d
  | Synced, Unsettled true p => Settled p
  | Resized len, _ => if (n + 1) * PAGE_SIZE <=? len then d else Unsettled false (page_fill 0)
  | _, _ => d
  end.

Definition page_after (n : Z) (d : durability) (es : list event) : durability := fold_left (age n) es d.

(** The lengths storage may have, the current one first. *)
Definition lengthen (ls : list Z) (e : event) : list Z :=
  match e with
  | Resized len => len :: ls
  | Synced => take 1 ls
  | _ => ls
  end.

Definition lengths_after (ls : list Z) (es : list event) : list Z := fold_left lengthen es ls.

(** ** A crash *)

Record image := mkImage { img_len : Z; img_page : Z -> list Z }.

(** [w] was wholly on storage and [es] happened since. *)
Record crashed (w : Machine) (es : list event) (img : image) : Prop := {
  crashed_len : img_len img ∈ lengths_after [file_len w] es;
  crashed_page n : match page_after n (Settled (read_page w n)) es with
                   | Settled p => img_page img n = p
                   | Unsettled _ _ => page_ok (img_page img n)
                   end;
}.

(** ** The events of a run explain its state *)

Definition logged (w w' : Machine) (es : list event) : Prop :=
  events w' = events w ++ es
  /\ (forall n d, content d = read_page w n -> content (page_after n d es) = read_page w' n)
  /\ (forall ls, head (lengths_after (file_len w :: ls) es) = Some (file_len w')).

Lemma page_after_app n d es es' : page_after n d (es ++ es') = page_after n (page_after n d es) es'.
Proof. apply fold_left_app. Qed.
Lemma lengths_after_app ls es es' : lengths_after ls (es ++ es') = lengths_after (lengths_after ls es) es'.
Proof. apply fold_left_app. Qed.

Lemma logged_refl w : logged w w [].
Proof. split; [by rewrite app_nil_r |]. by split. Qed.

Lemma logged_trans w w1 w2 es es' : logged w w1 es -> logged w1 w2 es' -> logged w w2 (es ++ es').
Proof.
  intros (He & Hp & Hl) (He' & Hp' & Hl'). split; [by rewrite He', He, app_assoc |]. split.
  - intros n d Hd. rewrite page_after_app. auto.
  - intros ls. rewrite lengths_after_app. specialize (Hl ls).
    destruct (lengths_after (file_len w :: ls) es) as [|l ls']; [done |]. injection Hl as ->. apply Hl'.
Qed.

(** The events satisfy [P], on every path. *)
Definition emits (P : event -> Prop) (w w' : Machine) : Prop := exists es, logged w w' es /\ Forall P es.

#[global] Instance emits_preorder P : PreOrder (emits P).
Proof.
  split.
  - intros w. exists []. split; [apply logged_refl | constructor].
  - intros w w1 w2 (es & Hl & Hf) (es' & Hl' & Hf'). exists (es ++ es').
    split; [by eapply logged_trans | by apply Forall_app].
Qed.

Lemma emits_weaken (P Q : event -> Prop) w w' : (forall e, P e -> Q e) -> emits P w w' -> emits Q w w'.
Proof. intros H (es & Hl & Hf). exists es. split; [done | by eapply Forall_impl]. Qed.

(** ** Pages an event leaves alone *)

Definition spares (n : Z) (e : event) : Prop :=
  match e with
  | Wrote k _ => k <> n
  | Resized len => (n + 1) * PAGE_SIZE <= len
  | _ => True
  end.

Lemma page_after_spares n p es : Forall (spares n) es -> page_after n (Settled p) es = Settled p.
Proof.
  induction 1 as [|e es He _ IH]; [done |]. cbn [page_after fold_left]. destruct e; cbn [age]; try done.
  - cbn in He. by rewrite (proj2 (Z.eqb_neq _ _) He).
  - cbn in He. by rewrite (proj2 (Z.leb_le _ _) He).
Qed.

(** A flush of its range and a sync settle a page. *)
Lemma page_after_settle n d offset len : covers offset len n = true ->
  page_after n d [Flushed offset len; Synced] = Settled (content d).
Proof. intros H. destruct d as [p | f p]; cbn; [done |]. by rewrite H. Qed.

Lemma lengths_after_sync w w' es ls : logged w w' es ->
  lengths_after (file_len w :: ls) (es ++ [Synced]) = [file_len w'].
Proof.
  intros (_ & _ & Hl). rewrite lengths_after_app. specialize (Hl ls).
  destruct (lengths_after (file_len w :: ls) es) as [|l ls']; [done |]. by injection Hl as ->.
Qed.

(** Every length storage may have was there at the start or was set. *)
Lemma lengths_after_Forall (P : Z -> Prop) ls es : Forall P ls ->
  Forall (fun e => match e with Resized len => P len | _ => True end) es -> Forall P (lengths_after ls es).
Proof.
  intros Hls Hes. revert ls Hls. induction Hes as [|e es He _ IH]; intros ls Hls; [done |].
  cbn [lengths_after fold_left]. apply IH. destruct e; cbn; try done.
  - by apply Forall_take.
  - by constructor.
Qed.

(** ** The operations of the mapping *)

Lemma logged_event w e w' :
  events w' = events w ++ [e] -> (forall n d, content d = read_page w n -> content (age n d e) = read_page w' n) ->
  (forall ls, head (lengthen (file_len w :: ls) e) = Some (file_len w')) -> logged w w' [e].
Proof. by intros ? ? ?. Qed.

Lemma logged_write w n p : logged w (write_page n p w) [Wrote n p].
Proof.
  apply logged_event; [done | | done]. intros k d Hd. cbn [age]. unfold read_page, write_page. cbn [file_pages].
  destruct (Z.eqb_spec n k) as [-> | Hn].
  - by rewrite lookup_insert_eq.
  - by rewrite lookup_insert_ne by done.
Qed.

Lemma logged_note w e : (match e with Flushed _ _ | Synced => True | _ => False end) -> logged w (note e w) [e].
Proof.
  intros He. apply logged_event; [done | |].
  - intros n d Hd. change (read_page (note e w) n) with (read_page w n). rewrite <- Hd. destruct e, d as [p | [] p]; cbn in *; try done; by destruct (covers _ _ _).
  - intros ls. by destruct e.
Qed.

Lemma logged_cut w len : logged w (cut len w) [Resized len].
Proof.
  apply logged_event; [done | | done]. intros n d Hd.
  assert (Hr : read_page (cut len w) n = if (n + 1) * PAGE_SIZE <=? len then read_page w n else page_fill 0).
  { unfold read_page, cut. cbn [file_pages]. destruct (Z.leb_spec ((n + 1) * PAGE_SIZE) len).
    - f_equal. destruct (file_pages w !! n) as [p|] eqn:Hp.
      + by apply map_lookup_filter_Some.
      + apply map_lookup_filter_None. by left.
    - rewrite (proj2 (map_lookup_filter_None _ _ _)); [done |]. right. intros p _. lia. }
  rewrite Hr, <- Hd. unfold age. destruct d; by destruct (Z.leb_spec ((n + 1) * PAGE_SIZE) len).
Qed.

Lemma logged_with_answers w a : logged w (with_answers a w) [].
Proof. split; [by rewrite app_nil_r |]. by split. Qed.

Lemma checked_range_Ok offset len extent o l : checked_range offset len extent = Ok (o, l) ->
  o = offset /\ l = len /\ offset + len <= extent.
Proof.
  unfold checked_range. intros H. apply bind_Ok in H as (o' & Ho & H). apply bind_Ok in H as (l' & Hl & H).
  apply bind_Ok in H as (x & Hx & H). injection H as <- <-.
  destruct (offset <=? usize_max); [injection Ho as <- | done]. destruct (len <=? usize_max); [injection Hl as <- | done].
  split; [done |]. split; [done |]. unfold checked_subrange in Hx.
  destruct (checked_add usize_max offset len) as [e|] eqn:He; [| done]. apply checked_add_Some in He as [-> _].
  destruct (Z.leb_spec (offset + len) extent); [done | discriminate].
Qed.

Definition m_emits (P : event -> Prop) (m m' : Mapping) : Prop := emits P (map_os m) (map_os m').

#[global] Instance m_emits_preorder P : PreOrder (m_emits P).
Proof.
  split; [intros m; unfold m_emits; reflexivity |].
  intros m m1 m2 H1 H2. unfold m_emits in *. etrans; [exact H1 | exact H2].
Qed.

Section Emits.
Context (P : event -> Prop).
#[local] Notation R := (emits P).
#[local] Notation RM := (m_emits P).

Lemma system_call_emits : keeps R system_call.
Proof using Type.
  intros w. unfold system_call. destruct (answers w) as [|[c|] rest]; cbn; [reflexivity | |];
    (exists []; split; [apply logged_with_answers | constructor]).
Qed.

Lemma emits_one e w w' : logged w w' [e] -> P e -> R w w'.
Proof using Type. intros. exists [e]. split; [done | by repeat constructor]. Qed.

Lemma sys_len_emits : keeps R sys_len.
Proof using Type. unfold sys_len. keeps_tac. apply system_call_emits. Qed.
Lemma sys_set_len_emits len : P (Resized len) -> keeps R (sys_set_len len).
Proof using Type.
  intros HP. unfold sys_set_len. keeps_tac; [apply system_call_emits |].
  apply keeps_modify. intros w. eapply emits_one; [apply logged_cut | done].
Qed.
Lemma sys_msync_emits offset len : P (Flushed offset len) -> keeps R (sys_msync offset len).
Proof using Type.
  intros HP. unfold sys_msync. keeps_tac; [apply system_call_emits |].
  apply keeps_modify. intros w. eapply emits_one; [by apply logged_note | done].
Qed.
Lemma sys_fsync_emits : P Synced -> keeps R sys_fsync.
Proof using Type.
  intros HP. unfold sys_fsync. keeps_tac; [apply system_call_emits |].
  apply keeps_modify. intros w. eapply emits_one; [by apply logged_note | done].
Qed.

Lemma on_os_emits {A} (m : io Machine A) : keeps R m -> keeps RM (on_os m).
Proof using Type. intros Hm. apply (keeps_zoom RM R); [| exact Hm]. by intros s t Ht. Qed.

#[local] Hint Resolve on_os_emits sys_len_emits sys_set_len_emits sys_msync_emits sys_fsync_emits system_call_emits : keeps.

Lemma set_map_emits f g : keeps RM (modify (fun m => set_map (f m) (g m) m)).
Proof using Type. apply keeps_modify. intros m. unfold m_emits. cbn. reflexivity. Qed.
#[local] Hint Resolve set_map_emits : keeps.

Lemma file_emits : keeps RM file_.
Proof using Type. unfold file_. keeps_tac. Qed.
Lemma raw_emits : keeps RM raw.
Proof using Type. unfold raw. keeps_tac. Qed.
Lemma require_write_emits : keeps RM require_write.
Proof using Type. unfold require_write. keeps_tac. Qed.
#[local] Hint Resolve file_emits raw_emits require_write_emits : keeps.

Lemma len_of_file_emits : keeps RM len_of_file.
Proof using Type. unfold len_of_file. keeps_tac. Qed.
Lemma map_nonempty_emits len : keeps RM (map_nonempty len).
Proof using Type. unfold map_nonempty, sys_map. keeps_tac. Qed.
#[local] Hint Resolve len_of_file_emits map_nonempty_emits : keeps.

Lemma replace_map_emits len : keeps RM (replace_map len).
Proof using Type.
  unfold replace_map. keeps_tac.
Qed.
Lemma sync_file_emits : P Synced -> keeps RM sync_file.
Proof using Type. intros. unfold sync_file. keeps_tac. Qed.
Lemma flush_range_emits offset len : P (Flushed offset len) -> keeps RM (flush_range offset len).
Proof using Type.
  intros HP m. unfold flush_range. rewrite (bind_ok _ _ m m (map_len m)) by done.
  destruct (checked_range offset len (map_len m)) as [[o l] | e | t] eqn:Hc.
  - apply checked_range_Ok in Hc as Ho. destruct Ho as (-> & -> & _). rewrite (bind_ok _ _ m m (offset, len)) by done.
    apply (keeps_bind RM _ _ raw_emits (fun _ => on_os_emits _ (sys_msync_emits _ _ HP))).
  - by rewrite (bind_err _ _ m m e) by done.
  - cbn. reflexivity.
Qed.

Context (windows : bool).

Lemma shrink_file_emits len : P (Resized len) -> keeps RM (shrink_file_or_retain windows len).
Proof using Type. intros HP. unfold shrink_file_or_retain. keeps_tac. Qed.

Lemma shrink_or_retain_emits len : P (Resized len) -> keeps RM (shrink_or_retain windows len).
Proof using Type.
  intros HP. pose proof (shrink_file_emits len HP). pose proof replace_map_emits. unfold shrink_or_retain. keeps_tac.
Qed.
End Emits.

(** ** What the calls of the mapping do when they succeed

    Inversion lemmas for [mapping.rs]: the state and the events a successful
    call leaves. *)

(** ** Inversion of the monad *)

Lemma gets_inv {S A} (f : S -> A) s s' r : gets f s = (s', r) -> s' = s /\ r = Ok (f s).
Proof. unfold gets. by intros [= -> ->]. Qed.
Lemma lift_inv {S A} (v : Result A) (s s' : S) r : lift v s = (s', r) -> s' = s /\ r = v.
Proof. unfold lift. by intros [= -> ->]. Qed.
Lemma ret_inv {S A} (a : A) (s s' : S) r : (mret a : io S A) s = (s', r) -> s' = s /\ r = Ok a.
Proof. cbv [mret io_ret]. by intros [= -> ->]. Qed.
Lemma modify_inv {S} (f : S -> S) s s' r : modify f s = (s', r) -> s' = f s /\ r = Ok tt.
Proof. unfold modify. by intros [= -> ->]. Qed.
Lemma fail_if_inv {S} c e (s s' : S) u : fail_if c e s = (s', Ok u) -> s' = s /\ c = false.
Proof. unfold fail_if, lift. intros [= <- H]. by destruct c. Qed.
Lemma zoom_inv {S T A} (get : S -> T) set (m : io T A) s s' r : zoom get set m s = (s', r) ->
  exists t, m (get s) = (t, r) /\ s' = set t s.
Proof. unfold zoom. destruct (m (get s)) as [t r']. intros [= <- <-]. eauto. Qed.
Lemma attempt_inv {S A} (m : io S A) s s' x : attempt m s = (s', Ok x) ->
  match x with inl a => m s = (s', Ok a) | inr e => m s = (s', Err e) end.
Proof. unfold attempt. destruct (m s) as [s1 [a | e | t]]; by intros [= <- <-]. Qed.

Ltac io_inv_step :=
  match goal with
  | H : (_ ≫= _) _ = (_, Ok _) |- _ =>
      let a := fresh "a" in let s := fresh "s" in let Ha := fresh "Ha" in
      apply bind_inv in H as (a & s & Ha & H)
  | H : gets _ _ = (_, _) |- _ => apply gets_inv in H as [? H]; try (injection H as H); subst
  | H : mret _ _ = (_, _) |- _ => apply ret_inv in H as [? H]; try (injection H as H); subst
  | H : modify _ _ = (_, _) |- _ => apply modify_inv in H as [? H]; subst
  | H : fail_if _ _ _ = (_, Ok _) |- _ => apply fail_if_inv in H as [? H]; subst
  | H : lift _ _ = (_, Ok _) |- _ => apply lift_inv in H as [? H]; subst
  | H : attempt _ _ = (_, Ok _) |- _ => apply attempt_inv in H
  | H : Ok _ = Ok _ |- _ => injection H as H
  | H : Err _ = Ok _ |- _ => discriminate H
  | H : Ok _ = Err _ |- _ => discriminate H
  end.
Ltac io_inv := repeat (io_inv_step; simpl in *).

(** ** System calls *)

(** Nothing but the coming answers differs. *)
Definition same_file (w w' : Machine) : Prop :=
  file_len w' = file_len w /\ file_pages w' = file_pages w /\ events w' = events w.

#[global] Instance same_file_equivalence : Equivalence same_file.
Proof.
  split; unfold same_file.
  - done.
  - intros w w' (-> & -> & ->). done.
  - intros w1 w2 w3 (-> & -> & ->) (-> & -> & ->). done.
Qed.

Lemma same_file_read w w' n : same_file w w' -> read_page w' n = read_page w n.
Proof. unfold read_page. by intros (_ & -> & _). Qed.

Lemma same_file_logged w w' w1 es : same_file w w1 -> logged w1 w' es -> logged w w' es.
Proof.
  intros Hs (He & Hp & Hl). pose proof Hs as (Hlen & _ & Hev). split; [by rewrite He, Hev |]. split.
  - intros n d Hd. apply Hp. rewrite Hd. symmetry. by apply same_file_read.
  - intros ls. rewrite <- Hlen. apply Hl.
Qed.

Lemma same_file_logged_nil w w' : same_file w w' -> logged w w' [].
Proof. intros H. eapply same_file_logged; [exact H | apply logged_refl]. Qed.

Lemma system_call_inv w w' r : system_call w = (w', r) -> same_file w w'.
Proof.
  unfold system_call. destruct (answers w) as [|[c|] rest]; intros [= <- <-]; [reflexivity | done | done].
Qed.

Lemma sys_len_inv w w' l : sys_len w = (w', Ok l) -> same_file w w' /\ l = file_len w.
Proof.
  unfold sys_len. intros H. io_inv. apply system_call_inv in Ha as Hs. split; [done |]. by destruct Hs as (-> & _).
Qed.

Lemma sys_len_err w w' e : sys_len w = (w', Err e) -> same_file w w'.
Proof.
  unfold sys_len, mbind, io_bind. destruct (system_call w) as [w1 [u | e' | t]] eqn:Hs; intros [= <-];
    by apply system_call_inv in Hs.
Qed.

(** A call that notes one event when it succeeds. *)
Lemma noted_inv (f : Machine -> Machine) w w' u :
  (_ ← system_call; modify f) w = (w', Ok u) -> exists w1, same_file w w1 /\ w' = f w1.
Proof. intros H. io_inv. eexists. split; [by eapply system_call_inv | done]. Qed.

Lemma noted_err (f : Machine -> Machine) w w' e :
  (_ ← system_call; modify f) w = (w', Err e) -> same_file w w'.
Proof.
  unfold mbind, io_bind. destruct (system_call w) as [w1 [u | e' | t]] eqn:Hs; intros [= <-];
    by apply system_call_inv in Hs.
Qed.

(** ** Calls of the mapping *)

(** The mapping differs at most in its map; [w'] is what became of the file. *)
Definition same_handle (m m' : Mapping) : Prop :=
  map_file m' = map_file m /\ map_access m' = map_access m /\ map_unreadable m' = map_unreadable m.

#[global] Instance same_handle_equivalence : Equivalence same_handle.
Proof.
  split; unfold same_handle.
  - done.
  - intros m m' (-> & -> & ->). done.
  - intros m1 m2 m3 (-> & -> & ->) (-> & -> & ->). done.
Qed.

Lemma file_inv m m' r : file_ m = (m', r) -> m' = m.
Proof. unfold file_, gets, lift, mbind, io_bind. by intros [= <- <-]. Qed.

Lemma raw_inv m m' u : raw m = (m', Ok u) -> m' = m /\ map_live m = true.
Proof. unfold raw. intros H. io_inv. by destruct (map_live m). Qed.

Lemma require_write_inv m m' u : require_write m = (m', Ok u) -> m' = m /\ map_access m = ReadWrite.
Proof. unfold require_write. intros H. io_inv. by case_decide. Qed.

Lemma on_os_inv {A} (c : io Machine A) m m' r : on_os c m = (m', r) ->
  exists w, c (map_os m) = (w, r) /\ m' = set_os w m.
Proof. apply zoom_inv. Qed.

Lemma len_of_file_inv m m' l : len_of_file m = (m', Ok l) ->
  exists w, same_file (map_os m) w /\ m' = set_os w m /\ l = file_len (map_os m).
Proof.
  unfold len_of_file. intros H. io_inv. apply file_inv in Ha as ->.
  apply on_os_inv in H as (w & H & ->). apply sys_len_inv in H as [Hs ->]. eauto.
Qed.

Lemma map_nonempty_inv len m m' r : map_nonempty len m = (m', r) ->
  exists w, same_file (map_os m) w /\ m' = set_os w m /\ (forall live, r = Ok live -> live = negb (len =? 0)).
Proof.
  unfold map_nonempty, sys_map. destruct (Z.eqb_spec len 0) as [-> | Hn]; intros H.
  - apply ret_inv in H as [-> ->]. exists (map_os m). split; [done |]. split; [by destruct m |]. by intros live [= <-].
  - unfold mbind, io_bind in H. destruct (on_os system_call m) as [m1 r1] eqn:Hm.
    apply on_os_inv in Hm as (w & Hw & ->). apply system_call_inv in Hw.
    exists w. split; [done |].
    destruct r1; [apply ret_inv in H as [-> ->] | injection H as <- <- | injection H as <- <-];
      (split; [done |]); intros live [=]; by subst.
Qed.

Lemma replace_map_inv len m m' u : replace_map len m = (m', Ok u) ->
  same_file (map_os m) (map_os m') /\ same_handle m m' /\ map_len m' = len /\ map_live m' = negb (len =? 0).
Proof.
  unfold replace_map. intros H. io_inv. destruct a as [l | e].
  - apply map_nonempty_inv in Ha as (w & Hs & -> & Hl). rewrite (Hl l eq_refl) in *.
    apply modify_inv in H as [-> _]. split; [done |]. split; [done |]. split; [done |]. done.
  - apply bind_inv in H as (? & ? & _ & H). apply lift_inv in H as [_ H]. done.
Qed.

Lemma shrink_file_inv windows len m m' phys : shrink_file_or_retain windows len m = (m', Ok phys) ->
  len <= phys /\ exists w, m' = set_os w m /\ file_len w = phys
    /\ (same_file (map_os m) w \/ phys = len /\ exists w1, same_file (map_os m) w1 /\ w = cut len w1).
Proof.
  unfold shrink_file_or_retain. intros H. apply bind_inv in H as (l & m1 & Hl & H).
  apply len_of_file_inv in Hl as (w1 & Hs & -> & ->).
  destruct (Z.ltb_spec (file_len (map_os m)) len); [apply lift_inv in H as [_ H]; done |].
  destruct (Z.eqb_spec (file_len (map_os m)) len) as [He | Hn].
  { apply ret_inv in H as [-> [= ->]]. split; [done |]. exists w1. split; [done |]. split; [| by left]. by destruct Hs as (-> & _). }
  apply bind_inv in H as ([u | e] & m2 & Hc & H); apply attempt_inv in Hc; apply on_os_inv in Hc as (w2 & Hc & ->).
  - apply noted_inv in Hc as (w3 & Hs3 & ->). apply ret_inv in H as [-> [= ->]]. split; [done |].
    eexists. split; [reflexivity |]. split; [done |]. right. split; [done |]. exists w3. split; [by etrans | done].
  - apply noted_err in Hc. destruct (mapped_view_prevents_shrink windows e); [| apply lift_inv in H as [_ H]; done].
    apply ret_inv in H as [-> [= ->]]. split; [lia |]. exists w2. split; [by destruct m |].
    assert (Hss : same_file (map_os m) w2) by (by etrans). split; [by destruct Hss as (-> & _) | by left].
Qed.

(** The file is at least [len] long afterwards, is mapped to [len], and keeps
    every page below [len]; the only event is a change of the length. *)
Lemma shrink_or_retain_inv windows len m m' phys : shrink_or_retain windows len m = (m', Ok phys) ->
  len <= phys /\ file_len (map_os m') = phys /\ map_len m' = len /\ same_handle m m' /\ map_access m = ReadWrite
  /\ exists es, (es = [] \/ es = [Resized len]) /\ logged (map_os m) (map_os m') es.
Proof.
  unfold shrink_or_retain. intros H. apply bind_inv in H as (? & ? & Hw & H). apply require_write_inv in Hw as [-> Hacc].
  apply bind_inv in H as (len' & ? & Hc & H). apply lift_inv in Hc as [-> Hc].
  assert (len' = len) as ->. { unfold checked_len in Hc. destruct (len <=? usize_max); congruence. } clear Hc.
  apply bind_inv in H as (current & ? & Hg & H). apply gets_inv in Hg as [-> [= ->]].
  apply bind_inv in H as (exact_ & m1 & Hx & H).
  assert (Hm1 : exists w, same_file (map_os m) w /\ m1 = set_os w m
            /\ (exact_ = true -> map_len m = len /\ file_len (map_os m) = len)).
  { destruct (Z.eqb_spec (map_len m) len) as [He | Hn].
    - apply bind_inv in Hx as (l & m2 & Hl & Hx). apply len_of_file_inv in Hl as (w & Hs & -> & ->).
      apply ret_inv in Hx as [-> [= ->]]. exists w. split; [done |]. split; [done |]. intros Hf%Z.eqb_eq. done.
    - apply ret_inv in Hx as [-> [= ->]]. exists (map_os m). split; [done |]. split; [by destruct m | done]. }
  destruct Hm1 as (w & Hs & -> & Hex). destruct exact_.
  { apply ret_inv in H as [-> [= ->]]. destruct (Hex eq_refl) as [Hlen Hfile]. cbn. split; [done |].
    split; [by destruct Hs as (-> & _) |]. split; [done |]. split; [done |]. split; [done |].
    exists []. split; [by left |]. by apply same_file_logged_nil. }
  apply bind_inv in H as (? & ? & Hm & H). apply modify_inv in Hm as [-> _].
  apply bind_inv in H as (? & ? & Hf & H). apply file_inv in Hf as ->.
  apply bind_inv in H as (r & m2 & Hsh & H). apply attempt_inv in Hsh. destruct r as [p | e].
  2: { apply bind_inv in H as (? & ? & _ & H). apply bind_inv in H as (? & ? & _ & H). apply lift_inv in H as [_ H]. done. }
  apply shrink_file_inv in Hsh as (Hle & w2 & -> & Hfl & Hw2).
  apply bind_inv in H as (? & m3 & Hr & H). apply replace_map_inv in Hr as (Hs3 & Hh & Hl & _).
  apply ret_inv in H as [-> [= ->]]. cbn in Hs3, Hw2. split; [done |].
  split; [by destruct Hs3 as (-> & _) |]. split; [done |]. split; [etrans; [| exact Hh]; done |]. split; [done |].
  destruct Hw2 as [Hw2 | (_ & w1 & Hw1 & ->)].
  - exists []. split; [by left |]. apply same_file_logged_nil. etrans; [exact Hs |]. by etrans.
  - exists [Resized len]. split; [by right |].
    apply (same_file_logged _ _ w1); [by etrans |].
    rewrite <- (app_nil_r [Resized len]). eapply logged_trans; [apply logged_cut | by apply same_file_logged_nil].
Qed.

Lemma flush_range_inv offset len m m' u : flush_range offset len m = (m', Ok u) ->
  exists w, same_file (map_os m) w /\ m' = set_os (note (Flushed offset len) w) m.
Proof.
  unfold flush_range. intros H. apply bind_inv in H as (ext & ? & Hg & H). apply gets_inv in Hg as [-> [= ->]].
  apply bind_inv in H as ([o l] & ? & Hc & H). apply lift_inv in Hc as [-> Hc]. symmetry in Hc.
  apply checked_range_Ok in Hc as (-> & -> & _).
  apply bind_inv in H as (? & ? & Hr & H). apply raw_inv in Hr as [-> _].
  apply on_os_inv in H as (w & H & ->). apply noted_inv in H as (w1 & Hs & ->). eauto.
Qed.

Lemma sync_file_inv m m' u : sync_file m = (m', Ok u) ->
  exists w, same_file (map_os m) w /\ m' = set_os (note Synced w) m.
Proof.
  unfold sync_file. intros H. apply bind_inv in H as (? & ? & Hf & H). apply file_inv in Hf as ->.
  apply on_os_inv in H as (w & H & ->). apply noted_inv in H as (w1 & Hs & ->). eauto.
Qed.

(** ** A mapping that keeps its file does not panic *)

Definition owned (m : Mapping) : Prop := map_file m = true.

Lemma on_os_calm {A} (c : io Machine A) : calm (fun _ => True) c -> calm owned (on_os c).
Proof. intros Hc. eapply calm_zoom; [| | exact Hc]; done. Qed.

Lemma system_call_calm : calm (fun _ => True) system_call.
Proof. intros w _. unfold calm_at, system_call. by destruct (answers w) as [|[c|] rest]. Qed.
#[local] Hint Resolve on_os_calm system_call_calm : keeps.

Lemma noted_calm (f : Machine -> Machine) : calm (fun _ => True) (_ ← system_call; modify f).
Proof. calm_tac. by apply calm_modify. Qed.
Lemma sys_len_calm : calm (fun _ => True) sys_len.
Proof. unfold sys_len. calm_tac. Qed.
#[local] Hint Resolve noted_calm sys_len_calm : keeps.

Lemma file_calm : calm owned file_.
Proof.
  intros m Hm. unfold calm_at, file_, gets, lift, mbind, io_bind. cbn. by rewrite Hm.
Qed.
Lemma raw_calm : calm owned raw.
Proof. unfold raw. calm_tac. Qed.
Lemma require_write_calm : calm owned require_write.
Proof. unfold require_write. calm_tac. Qed.
#[local] Hint Resolve file_calm raw_calm require_write_calm : keeps.

Lemma len_of_file_calm : calm owned len_of_file.
Proof. unfold len_of_file. calm_tac. Qed.
Lemma map_nonempty_calm len : calm owned (map_nonempty len).
Proof. unfold map_nonempty, sys_map. calm_tac. Qed.
#[local] Hint Resolve len_of_file_calm map_nonempty_calm : keeps.
Lemma set_map_calm f g : calm owned (modify (fun m => set_map (f m) (g m) m)).
Proof. by apply calm_modify. Qed.
#[local] Hint Resolve set_map_calm : keeps.

Lemma bind_no_panic {E A B} (m : outcome E A) (f : A -> outcome E B) t :
  (forall t', m <> Panic t') -> (forall a, f a <> Panic t) -> m ≫= f <> Panic t.
Proof. intros Hm Hf. destruct m as [a | e | t']; cbn; [apply Hf | done | by destruct (Hm t')]. Qed.

Lemma checked_subrange_calm a n ext t : checked_subrange a n ext <> Panic t.
Proof. unfold checked_subrange. by repeat case_match. Qed.
Lemma page_offset_calm n limit len t : page_offset n limit len <> Panic t.
Proof.
  unfold page_offset. destruct (limit <=? n); [done |]. destruct (checked_mul _ _ _) as [o|]; cbn; [| done].
  by apply bind_no_panic; [apply checked_subrange_calm |].
Qed.
Lemma checked_range_calm a n ext t : checked_range a n ext <> Panic t.
Proof.
  unfold checked_range. destruct (a <=? usize_max); cbn; [| done]. destruct (n <=? usize_max); cbn; [| done].
  by apply bind_no_panic; [apply checked_subrange_calm |].
Qed.
Lemma checked_len_calm len t : checked_len len <> Panic t.
Proof. unfold checked_len. by case_match. Qed.
#[local] Hint Resolve page_offset_calm checked_range_calm checked_len_calm : keeps.

Lemma replace_map_calm len : calm owned (replace_map len).
Proof. unfold replace_map. calm_tac; apply calm_lift; done. Qed.
Lemma sync_file_calm : calm owned sync_file.
Proof. unfold sync_file, sys_fsync. calm_tac. Qed.
Lemma flush_range_calm o l : calm owned (flush_range o l).
Proof. unfold flush_range, sys_msync. calm_tac; apply checked_range_calm. Qed.
Lemma flush_page_calm n limit : calm owned (flush_page n limit).
Proof. unfold flush_page, sys_msync. calm_tac; apply page_offset_calm. Qed.
Lemma page_mut_calm {A} n limit (edit : io (list Z) A) : (forall p t, snd (edit p) <> Panic t) ->
  calm owned (page_mut n limit edit).
Proof.
  intros He. unfold page_mut, page_mut_after. apply calm_bind; [apply require_write_calm | intros _].
  apply calm_bind; [apply calm_gets | intros len]. apply calm_bind; [apply calm_lift, page_offset_calm | intros _].
  apply calm_bind; [apply raw_calm | intros _]. apply calm_bind; [apply calm_gets | intros old].
  apply calm_bind; [by apply calm_lift | intros _].
  specialize (He old). destruct (edit old) as [new r].
  apply calm_bind; [apply on_os_calm, calm_modify; done | intros _]. by apply calm_lift.
Qed.
Lemma shrink_file_calm windows len : calm owned (shrink_file_or_retain windows len).
Proof. unfold shrink_file_or_retain, sys_set_len. calm_tac. Qed.
#[local] Hint Resolve replace_map_calm shrink_file_calm : keeps.
Lemma shrink_or_retain_calm windows len : calm owned (shrink_or_retain windows len).
Proof. unfold shrink_or_retain. calm_tac; apply checked_len_calm. Qed.
