(* ===== verification/Draft.v ===== *)
(** * One unpublished transaction

    The draft of [draft_store.rs]: the meta record of the transaction being
    built, next to the bookkeeping of its private pages.  Also [RetiredPages]
    of [fixed_tree.rs] and the two-slot delta buffer of [membership_delta.rs]
    that a draft holds. *)

From stdpp Require Import base tactics numbers list strings.
From Stdlib Require Import ZArith Lia.
From S2P Require Import SlottedPage.
From S2P Require Import Prelude Errors Bytes Contract Machine.

#[local] Open Scope string_scope.
#[local] Open Scope list_scope.
#[local] Open Scope Z_scope.

(** ** Retired pages of one copy-on-write path *)

Definition MAX_PATH : Z := MAX_TREE_LEVEL.

(** [pages[..len]]; the array holds [MAX_PATH + 1] entries. *)
Definition RetiredPages : Type := list Z.
Definition retired_new : RetiredPages := [].

Definition retired_push (pages : RetiredPages) (page_number : Z) : Result RetiredPages :=
  if zlen pages <? MAX_PATH + 1 then Ok (pages ++ [page_number])
  else Err (Corrupt "COW path exceeds the maximum tree height").

(** The pages pushed before a failure stay. *)
Fixpoint retired_extend (pages : list Z) : io RetiredPages unit :=
  match pages with
  | [] => mret tt
  | page_number :: rest =>
      _ ← (fun retired => match retired_push retired page_number with
                          | Ok retired' => (retired', Ok tt)
                          | Err e => (retired, Err e)
                          | Panic t => (retired, Panic t)
                          end);
      retired_extend rest
  end.

(** ** Buffered reference-count changes *)

Record Delta := mkDelta { delta_id : Z; delta_change : Z }.
Definition PENDING_SLOTS : nat := 2.
Definition Pending : Type := list (option Delta).
Definition pending_new : Pending := replicate PENDING_SLOTS None.
Definition pending_is_empty (p : Pending) : bool := forallb (fun slot => negb (bool_decide (is_Some slot))) p.

(** ** The draft *)

Inductive WorkflowState := NoWorkflow | Input | Prepared.
#[global] Instance WorkflowState_eq_dec : EqDecision WorkflowState.
Proof. solve_decision. Defined.

Record PageBudget := mkPageBudget {
  max_heap_bytes : Z;
  max_private_pages : Z;
  max_growth_pages : Z;
}.

Record Draft := mkDraft {
  d_base : MetaV4;
  d_meta : MetaV4;
  private_head : Z;
  dirty_head : Z;
  allocator_retired : RetiredPages;
  private_pages : Z;
  growth_pages : Z;
  changed : bool;
  metadata_staged : bool;
  range_tree_private : bool;
  base_range_tree_retired : bool;
  membership_delta_root : Z;
  membership_delta_pending : Pending;
  structure_delta_root : Z;
  structure_delta_pending : Pending;
  workflow_range_root : Z;
  workflow_range_count : Z;
  workflow : WorkflowState;
  operation_abandoned : bool;
}.

Definition with_identity (t : Z) (nonce : list Z) (m : MetaV4) : MetaV4 :=
  mkMetaV4 (address_family m) (value_kind m) (structure_kind_code m) (value_tag m) (database_id m) t nonce
    (page_count m) (range_record_count m) (active_feed_count m) (feed_index_limit m) (membership_entry_count m)
    (membership_id_limit m) (metadata_uncompressed_len m) (metadata_compressed_len m) (retired_extent_count m)
    (range_root m) (catalog_name_root m) (catalog_index_root m) (feed_used_root m) (membership_id_root m)
    (membership_hash_root m) (membership_used_root m) (metadata_root m) (free_bitmap_root m) (retirement_root m)
    (allocator_reserve m) (structure_entry_count m) (structure_id_limit m) (structure_id_root m)
    (structure_hash_root m) (structure_used_root m).

Definition draft_new (base : MetaV4) (nonce : list Z) : Result Draft :=
  t ← ok_or (checked_add u64_max (txn_id base) 1) (ArithmeticOverflow "transaction ID");
  Ok {|
    d_base := base;
    d_meta := with_identity t nonce base;
    private_head := 0;
    dirty_head := 0;
    allocator_retired := retired_new;
    private_pages := 0;
    growth_pages := 0;
    changed := false;
    metadata_staged := false;
    range_tree_private := range_root base =? 0;
    base_range_tree_retired := false;
    membership_delta_root := 0;
    membership_delta_pending := pending_new;
    structure_delta_root := 0;
    structure_delta_pending := pending_new;
    workflow_range_root := 0;
    workflow_range_count := 0;
    workflow := NoWorkflow;
    operation_abandoned := false;
  |}.

(** Assignments to single fields of the draft. *)
Definition set_meta (m : MetaV4) (d : Draft) : Draft :=
  mkDraft (d_base d) m (private_head d) (dirty_head d) (allocator_retired d) (private_pages d) (growth_pages d)
    (changed d) (metadata_staged d) (range_tree_private d) (base_range_tree_retired d) (membership_delta_root d)
    (membership_delta_pending d) (structure_delta_root d) (structure_delta_pending d) (workflow_range_root d)
    (workflow_range_count d) (workflow d) (operation_abandoned d).
Definition set_pages (head dirty : Z) (retired : RetiredPages) (private growth : Z) (d : Draft) : Draft :=
  mkDraft (d_base d) (d_meta d) head dirty retired private growth
    (changed d) (metadata_staged d) (range_tree_private d) (base_range_tree_retired d) (membership_delta_root d)
    (membership_delta_pending d) (structure_delta_root d) (structure_delta_pending d) (workflow_range_root d)
    (workflow_range_count d) (workflow d) (operation_abandoned d).
Definition set_flags (changed_ private_range : bool) (w : WorkflowState) (abandoned : bool) (d : Draft) : Draft :=
  mkDraft (d_base d) (d_meta d) (private_head d) (dirty_head d) (allocator_retired d) (private_pages d) (growth_pages d)
    changed_ (metadata_staged d) private_range (base_range_tree_retired d) (membership_delta_root d)
    (membership_delta_pending d) (structure_delta_root d) (structure_delta_pending d) (workflow_range_root d)
    (workflow_range_count d) w abandoned.

(** [meta.range_root] and [meta.range_record_count]. *)
Definition with_ranges (root count : Z) (m : MetaV4) : MetaV4 :=
  mkMetaV4 (address_family m) (value_kind m) (structure_kind_code m) (value_tag m) (database_id m) (txn_id m)
    (commit_nonce m) (page_count m) count (active_feed_count m) (feed_index_limit m) (membership_entry_count m)
    (membership_id_limit m) (metadata_uncompressed_len m) (metadata_compressed_len m) (retired_extent_count m)
    root (catalog_name_root m) (catalog_index_root m) (feed_used_root m) (membership_id_root m)
    (membership_hash_root m) (membership_used_root m) (metadata_root m) (free_bitmap_root m) (retirement_root m)
    (allocator_reserve m) (structure_entry_count m) (structure_id_limit m) (structure_id_root m)
    (structure_hash_root m) (structure_used_root m).

(** [meta.page_count], [meta.free_bitmap_root] and [meta.allocator_reserve]. *)
Definition with_space (pages bitmap : Z) (reserve : list Z) (m : MetaV4) : MetaV4 :=
  mkMetaV4 (address_family m) (value_kind m) (structure_kind_code m) (value_tag m) (database_id m) (txn_id m)
    (commit_nonce m) pages (range_record_count m) (active_feed_count m) (feed_index_limit m) (membership_entry_count m)
    (membership_id_limit m) (metadata_uncompressed_len m) (metadata_compressed_len m) (retired_extent_count m)
    (range_root m) (catalog_name_root m) (catalog_index_root m) (feed_used_root m) (membership_id_root m)
    (membership_hash_root m) (membership_used_root m) (metadata_root m) bitmap (retirement_root m)
    reserve (structure_entry_count m) (structure_id_limit m) (structure_id_root m)
    (structure_hash_root m) (structure_used_root m).

Definition workflow_input_open (d : Draft) : bool := bool_decide (workflow d = Input).
Definition workflow_active (d : Draft) : bool := bool_decide (workflow d <> NoWorkflow).

Definition begin_workflow (d : Draft) : Result Draft :=
  if bool_decide (workflow d <> NoWorkflow) then Err (WrongState "another exact workflow is active")
  else Ok (set_flags (changed d) (range_tree_private d) Input (operation_abandoned d) d).

Definition draft_begin_range_workflow (d : Draft) : Result Draft :=
  d ← begin_workflow d;
  let d := set_meta (with_ranges 0 0 (d_meta d)) d in
  Ok (set_flags (changed d) true (workflow d) (operation_abandoned d) d).

Definition draft_begin_membership_workflow (d : Draft) : Result Draft := begin_workflow d.

Definition draft_abandon_operation (d : Draft) : Draft :=
  set_flags (changed d) (range_tree_private d) (workflow d) true d.

Definition finish_workflow (d : Draft) : Draft :=
  set_flags true (range_tree_private d) Prepared (operation_abandoned d) d.
