(* ===== verification/WriterCore.v ===== *)
(** * The writer: transactions, publication, cleanup

    [writer_core.rs], [writer_core/publication.rs], [writer_core/open.rs] and
    [writer_core/close.rs], with the whole-file operations of
    [database_file.rs] they call: a mapped committed generation and at most one
    draft.  Cancellation is polled: [cancelled k] is what the [k]-th poll of a
    call sees.  The operating system's randomness is an argument. *)

From stdpp Require Import base tactics numbers list strings.
From Stdlib Require Import ZArith Lia.
From S2P Require Import Prelude Errors Bytes Checksum Contract Bootstrap Machine Mapping Draft.

#[local] Open Scope string_scope.
#[local] Open Scope list_scope.
#[local] Open Scope Z_scope.

(** ** State *)

Record CommitAttempt := mkCommitAttempt {
  ca_database_id : list Z;
  ca_transaction_id : Z;
  ca_commit_nonce : list Z;
}.

Inductive PublishOutcome :=
| BeforePublication (e : Error)
| OutcomeUnknown (e : Error)
| CommittedPublish.

Record WriterInfo := mkWriterInfo {
  wi_address_family : AddressFamily;
  wi_value_kind : ValueKind;
  wi_structure_kind : StructureKind;
  wi_value_tag : list Z;
  wi_database_id : list Z;
  wi_transaction_id : Z;
  wi_commit_nonce : list Z;
  wi_page_count : Z;
  wi_range_record_count : Z;
  wi_active_feed_count : Z;
}.

Record TailCleanupState := mkTailCleanupState {
  tc_database_id : list Z;
  tc_transaction_id : Z;
  tc_commit_nonce : list Z;
  tc_committed_length : Z;
  observed_tail_end_exclusive : option Z;
}.

Record WriterCore := mkWriterCore {
  wc_mapping : Mapping;
  base : Bootstrap;
  wc_budget : PageBudget;
  draft : option Draft;
  unproved_tail_end : option Z;
}.

Definition set_mapping (m : Mapping) (s : WriterCore) : WriterCore :=
  mkWriterCore m (base s) (wc_budget s) (draft s) (unproved_tail_end s).
Definition set_base (b : Bootstrap) (s : WriterCore) : WriterCore :=
  mkWriterCore (wc_mapping s) b (wc_budget s) (draft s) (unproved_tail_end s).
Definition set_draft (d : option Draft) (s : WriterCore) : WriterCore :=
  mkWriterCore (wc_mapping s) (base s) (wc_budget s) d (unproved_tail_end s).
Definition set_tail (t : option Z) (s : WriterCore) : WriterCore :=
  mkWriterCore (wc_mapping s) (base s) (wc_budget s) (draft s) t.
Definition set_physical (physical : Z) (b : Bootstrap) : Bootstrap :=
  mkBootstrap (bs_meta b) (bs_selection b) (selected_meta_page b) (committed_bytes b) physical.

Definition on_mapping {A} : io Mapping A -> io WriterCore A := zoom wc_mapping set_mapping.

Definition check (cancelled : bool) : Result unit := if cancelled then Err Cancelled else Ok tt.

Definition writer_new (m : Mapping) (b : Bootstrap) (budget : PageBudget) : WriterCore :=
  mkWriterCore m b budget None None.

(** [impl From<MetaV4> for WriterInfo]. *)
Definition writer_info (m : MetaV4) : Result WriterInfo :=
  kind ← expect (structure_kind m) "bootstrap rejects unsupported structures";
  Ok (mkWriterInfo (address_family m) (value_kind m) kind (value_tag m) (database_id m) (txn_id m) (commit_nonce m)
        (page_count m) (range_record_count m) (active_feed_count m)).

Definition current_meta (s : WriterCore) : MetaV4 :=
  match draft s with Some d => d_meta d | None => bs_meta (base s) end.

Definition base_info : io WriterCore WriterInfo := fun s => (s, writer_info (bs_meta (base s))).
Definition current_info : io WriterCore WriterInfo := fun s => (s, writer_info (current_meta s)).

Definition is_some_and {A} (o : option A) (f : A -> bool) : bool :=
  match o with Some a => f a | None => false end.

Definition has_draft (s : WriterCore) : bool := bool_decide (is_Some (draft s)).
Definition draft_changed (s : WriterCore) : bool := is_some_and (draft s) changed.
Definition core_input_open (s : WriterCore) : bool := is_some_and (draft s) workflow_input_open.
Definition core_workflow_active (s : WriterCore) : bool := is_some_and (draft s) workflow_active.
Definition core_metadata_staged (s : WriterCore) : bool := is_some_and (draft s) metadata_staged.
Definition core_operation_abandoned (s : WriterCore) : bool := is_some_and (draft s) operation_abandoned.
Definition operation_is (nonce : list Z) (s : WriterCore) : bool :=
  is_some_and (draft s) (fun d => bool_decide (commit_nonce (d_meta d) = nonce)).

Definition abandon_operation : io WriterCore unit :=
  modify (fun s => set_draft (draft_abandon_operation <$> draft s) s).

(** ** Starting a transaction *)

(** [getrandom::fill] either fails or fills the sixteen bytes. *)
Definition nonzero_128 (filled : option (list Z)) : Result (list Z) :=
  value ← ok_or filled Random;
  if bool_decide (value = replicate 16 0)
  then Err (Corrupt "operating-system randomness returned an all-zero identity")
  else Ok value.

Definition begin_transaction (filled : option (list Z)) : io WriterCore (list Z) :=
  pending ← gets has_draft;
  _ ← fail_if pending (WrongState "a writer transaction is already pending");
  nonce ← lift (nonzero_128 filled);
  b ← gets base;
  d ← lift (draft_new (bs_meta b) nonce);
  _ ← modify (set_draft (Some d));
  mret nonce.

Definition begin_on_draft (f : Draft -> Result Draft) : io WriterCore unit := fun s =>
  match draft s with
  | None => (s, Panic "transaction was just created")
  | Some d => match f d with
              | Ok d' => (set_draft (Some d') s, Ok tt)
              | Err error => (set_draft None s, Err error)
              | Panic t => (s, Panic t)
              end
  end.

Definition begin_range_workflow (filled : option (list Z)) : io WriterCore unit :=
  _ ← begin_transaction filled;
  begin_on_draft draft_begin_range_workflow.

Definition begin_membership_workflow (filled : option (list Z)) : io WriterCore unit :=
  _ ← begin_transaction filled;
  begin_on_draft draft_begin_membership_workflow.

Definition commit_attempt : io WriterCore CommitAttempt :=
  open_ ← gets core_input_open;
  _ ← fail_if open_ (WrongState "workflow input is not finished");
  pending ← gets draft;
  d ← lift (ok_or (match pending with Some d => if changed d then Some d else None | None => None end)
              NoPendingTransaction);
  mret (mkCommitAttempt (database_id (d_meta d)) (txn_id (d_meta d)) (commit_nonce (d_meta d))).

Definition require_draft_length : io WriterCore unit :=
  pending ← gets draft;
  d ← lift (ok_or pending NoPendingTransaction);
  expected ← lift (ok_or (checked_mul u64_max (page_count (d_meta d)) PAGE_SIZE)
                     (ArithmeticOverflow "committed file length"));
  physical ← on_mapping len_of_file;
  mapped ← gets (fun s => map_len (wc_mapping s));
  fail_if ((physical <? expected) || (mapped <? expected)) (Corrupt "draft file length is inconsistent").

(** ** Opening *)

Section Writer.
(** The CRC path of this machine, the CRC of the crate, the platform. *)
Context (path : crc_path) (crc32c_append : Z -> list Z -> Z) (windows : bool).

Definition bootstrap_mapping (physical_bytes : Z) (mode : OpenMode) : io Mapping Bootstrap :=
  page0 ← page 0 2;
  page1 ← page 1 2;
  lift (map_err Format (open_meta_pages path true page0 page1 physical_bytes mode)).

(** Work on a mapping that is local to the caller. *)
Definition run_in {A} (m : Mapping) (work : io Mapping A) : io Machine A := fun _ =>
  let '(m', r) := work m in (map_os m', r).

(** The file is a regular one; what [metadata] says of its type is not
    modelled. *)
Definition database_map_writer : io Machine (Mapping * Bootstrap) :=
  physical_bytes ← sys_len;
  _ ← lift (map_err Format (require_geometry physical_bytes));
  m ← mapping_new ReadWrite (2 * PAGE_SIZE);
  run_in m (bootstrap ← bootstrap_mapping physical_bytes Writer;
            _ ← remap (committed_bytes bootstrap);
            m ← gets id;
            mret (m, bootstrap)).

Definition map_writer (budget : PageBudget) : io Machine WriterCore :=
  '(m, b) ← database_map_writer;
  mret (writer_new m b budget).

Definition select_committed : io WriterCore WriterInfo :=
  physical_bytes ← on_mapping len_of_file;
  b ← on_mapping (bootstrap_mapping physical_bytes Writer);
  _ ← modify (set_base b);
  base_info.

Definition trim_committed_tail : io WriterCore unit :=
  b ← gets base;
  if physical_bytes b =? committed_bytes b then mret tt
  else
    physical ← on_mapping (shrink_or_retain windows (committed_bytes b));
    _ ← modify (fun s => set_base (set_physical physical (base s)) s);
    on_mapping sync_file.

Definition require_unchanged_base : io WriterCore unit :=
  physical_bytes ← on_mapping len_of_file;
  selected ← on_mapping (bootstrap_mapping physical_bytes Writer);
  b ← gets base;
  fail_if (negb (bool_decide (bs_meta selected = bs_meta b)))
    (WrongMode "committed generation changed under the writer").

(** ** Publication *)

Definition outcome_unknown (error : Error) : io WriterCore PublishOutcome :=
  _ ← modify (fun s => set_tail None (set_draft None s));
  mret (OutcomeUnknown error).

(** [meta.encode_mapped(page)] of a mapped page; it can only fail on a page
    that is too short, before it writes. *)
Definition encode_into (meta : MetaV4) : io (list Z) unit := fun page =>
  match encode_mapped crc32c_append meta with
  | Ok new => (new, Ok tt)
  | Err e => (page, Err e)
  | Panic t => (page, Panic t)
  end.

(** The first half: everything of the transaction but its meta page. *)
Definition publish_data (cancelled : nat -> bool) : io WriterCore (Z * Z) :=
  _ ← lift (check (cancelled 0%nat));
  pending ← gets draft;
  d ← lift (expect pending "publication requires a draft");
  let committed := page_count (d_meta d) * PAGE_SIZE in
  physical ← on_mapping (shrink_or_retain windows committed);
  let data_offset := 2 * PAGE_SIZE in
  _ ← (if data_offset <? committed then on_mapping (flush_range data_offset (committed - data_offset)) else mret tt);
  _ ← on_mapping sync_file;
  _ ← lift (check (cancelled 1%nat));
  mret (committed, physical).

(** The second half: the meta page that is not the base generation's. *)
Definition publish_meta (meta : MetaV4) (target_page : Z) : io WriterCore unit :=
  _ ← on_mapping (page_mut target_page (page_count meta) (encode_into meta));
  _ ← on_mapping (flush_page target_page (page_count meta));
  on_mapping sync_file.

Definition publish (cancelled : nat -> bool) : io WriterCore PublishOutcome :=
  prepared ← attempt (publish_data cancelled);
  match prepared with
  | inr error => mret (BeforePublication error)
  | inl (committed, physical) =>
      pending ← gets draft;
      d ← lift (expect pending "publication requires a draft");
      let meta := d_meta d in
      b ← gets base;
      let target_page := 1 - selected_meta_page b in
      written ← attempt (publish_meta meta target_page);
      match written with
      | inr error => outcome_unknown error
      | inl _ =>
          _ ← modify (fun s => set_tail None (set_draft None
                 (set_base (mkBootstrap meta ProvenCurrent target_page committed physical) s)));
          mret CommittedPublish
      end
  end.

(** ** Discarding *)

Definition trim_unpublished_tail : io WriterCore Z :=
  length ← on_mapping len_of_file;
  b ← gets base;
  if length <? committed_bytes b
  then lift (Err (Corrupt "main file is shorter than its committed generation"))
  else if committed_bytes b <? length then
    _ ← modify (set_tail (Some length));
    physical ← on_mapping (shrink_or_retain windows (committed_bytes b));
    _ ← on_mapping sync_file;
    mret physical
  else
    mapped ← gets (fun s => map_len (wc_mapping s));
    _ ← (if mapped =? committed_bytes b then mret tt else on_mapping (remap (committed_bytes b)));
    mret length.

Definition verify_discard_result (physical : Z) : io WriterCore unit :=
  _ ← require_unchanged_base;
  b ← gets base;
  let inconsistent := Corrupt "unpublished tail cleanup left inconsistent geometry" in
  _ ← fail_if ((physical <? committed_bytes b) || negb (physical mod PAGE_SIZE =? 0)) inconsistent;
  length ← on_mapping len_of_file;
  mapped ← gets (fun s => map_len (wc_mapping s));
  fail_if (negb (length =? physical) || negb (mapped =? committed_bytes b)) inconsistent.

Definition forget_draft (physical : Z) : io WriterCore unit :=
  modify (fun s => set_tail None (set_draft None (set_base (set_physical physical (base s)) s))).

Definition discard_unpublished : io WriterCore unit :=
  _ ← require_unchanged_base;
  physical ← trim_unpublished_tail;
  _ ← verify_discard_result physical;
  forget_draft physical.

(** The metadata call of [tail_cleanup_state] ignores an error. *)
Definition tail_cleanup_state : io WriterCore TailCleanupState :=
  current_end ← attempt (on_mapping len_of_file);
  s ← gets id;
  let ends := filter (fun length => committed_bytes (base s) < length)
    (match unproved_tail_end s with Some t => [t] | None => [] end
     ++ match current_end with inl l => [l] | inr _ => [] end) in
  let meta := bs_meta (base s) in
  mret (mkTailCleanupState (database_id meta) (txn_id meta) (commit_nonce meta) (committed_bytes (base s))
    (match ends with [] => None | l :: rest => Some (fold_left Z.max rest l) end)).

(** ** Closing *)

Definition prepare_close : io WriterCore Bootstrap :=
  physical_bytes ← on_mapping len_of_file;
  selected ← on_mapping (bootstrap_mapping physical_bytes Writer);
  b ← gets base;
  pending ← gets has_draft;
  _ ← fail_if (negb (bool_decide (database_id (bs_meta selected) = database_id (bs_meta b))))
        (WrongMode "live database identity changed");
  _ ← fail_if (pending && negb (bool_decide (bs_meta selected = bs_meta b)))
        (WrongMode "committed generation changed before abort cleanup");
  mret selected.

Definition trim_to (committed : Z) : io WriterCore Z :=
  length ← on_mapping len_of_file;
  if length <? committed
  then lift (Err (Corrupt "main file is shorter than its committed generation"))
  else if committed <? length then
    _ ← modify (set_tail (Some length));
    physical ← on_mapping (shrink_or_retain windows committed);
    _ ← on_mapping sync_file;
    mret physical
  else
    mapped ← gets (fun s => map_len (wc_mapping s));
    _ ← (if mapped =? committed then mret tt else on_mapping (remap committed));
    pending ← gets has_draft;
    _ ← (if pending : bool then on_mapping sync_file else mret tt);
    mret length.

Definition finish_close (plan : Bootstrap) : io WriterCore unit :=
  physical ← trim_to (committed_bytes plan);
  pending ← gets has_draft;
  _ ← (if pending : bool then verify_discard_result physical
       else length ← on_mapping len_of_file;
            fail_if (negb (length =? physical)) (Corrupt "writer close changed the retained physical length"));
  forget_draft physical.

(** ** A new database *)

Record EmptySpec := mkEmptySpec {
  es_address_family : AddressFamily;
  es_value_kind : ValueKind;
  es_structure_kind : StructureKind;
  es_value_tag : list Z;
  es_database_id : list Z;
  es_transaction_id : Z;
  es_commit_nonce : list Z;
  es_feed_index_limit : Z;
}.

Definition live (family : AddressFamily) (kind : ValueKind) (structure : StructureKind) (tag id nonce : list Z) : EmptySpec :=
  mkEmptySpec family kind structure tag id 1 nonce 0.

Definition structure_kind_to_wire (k : StructureKind) : Z :=
  match k with NoStructure => 0 | NetworkEnrichmentV1 => 1 end.

Definition empty_meta (spec : EmptySpec) : MetaV4 :=
  {| address_family := es_address_family spec;
     value_kind := es_value_kind spec;
     structure_kind_code := structure_kind_to_wire (es_structure_kind spec);
     value_tag := es_value_tag spec;
     database_id := es_database_id spec;
     txn_id := es_transaction_id spec;
     commit_nonce := es_commit_nonce spec;
     page_count := 2;
     range_record_count := 0;
     active_feed_count := 0;
     feed_index_limit := es_feed_index_limit spec;
     membership_entry_count := 0;
     membership_id_limit := b2z (match es_value_kind spec with Membership | Structured => true | Direct => false end);
     metadata_uncompressed_len := 0;
     metadata_compressed_len := 0;
     retired_extent_count := 0;
     range_root := 0;
     catalog_name_root := 0;
     catalog_index_root := 0;
     feed_used_root := 0;
     membership_id_root := 0;
     membership_hash_root := 0;
     membership_used_root := 0;
     metadata_root := 0;
     free_bitmap_root := 0;
     retirement_root := 0;
     allocator_reserve := [0; 0; 0; 0];
     structure_entry_count := 0;
     structure_id_limit := b2z (bool_decide (es_value_kind spec = Structured));
     structure_id_root := 0;
     structure_hash_root := 0;
     structure_used_root := 0;
  |}.

(** The mapping is a view: the file stays with the caller. *)
Definition mapping_view (access : Access) (len : Z) : io Machine Mapping := fun w =>
  let '(w, r) := mapping_new access len w in
  (w, m ← r; Ok (mkMapping false (map_live m) (map_len m) (map_access m) (map_unreadable m) (map_os m))).

Definition write_empty (spec : EmptySpec) : io Machine unit :=
  _ ← sys_set_len (2 * PAGE_SIZE);
  m ← mapping_view ReadWrite (2 * PAGE_SIZE);
  let meta := empty_meta spec in
  _ ← run_in m (_ ← page_mut 0 2 (encode_into meta);
                _ ← page_mut 1 2 (encode_into meta);
                flush_range 0 (2 * PAGE_SIZE));
  sys_fsync.

Definition bootstrap_file (mode : OpenMode) : io Machine Bootstrap :=
  physical_bytes ← sys_len;
  _ ← lift (map_err Format (require_geometry physical_bytes));
  m ← mapping_view ReadOnly (2 * PAGE_SIZE);
  run_in m (bootstrap_mapping physical_bytes mode).

Definition is_exact_empty (spec : EmptySpec) : io Machine bool :=
  opened ← bootstrap_file Writer;
  mret ((physical_bytes opened =? committed_bytes opened) && bool_decide (bs_meta opened = empty_meta spec)).
End Writer.
