(* ===== verification/Store.v ===== *)
(** * The store interface

    The traits of [fixed_tree.rs] and [free_bitmap.rs] between the page
    structures and the transaction that owns their pages: [Store] (split in
    two, because the draft store allocates through the free bitmap, which
    itself runs on the store), [BitmapStore] and [copy_for_cow].  A caller's
    closure that edits a page is a computation on the page's bytes.

    [StoreKeeps R]: the operations of a store move its state along the preorder
    [R].  A structure written against the interface then moves it along [R]
    too, whatever the store is. *)

From stdpp Require Import base tactics numbers list strings.
From Stdlib Require Import ZArith Lia.
From S2P Require Import Prelude Errors Bytes PageHeader Checksum Machine Draft.

#[local] Open Scope string_scope.
#[local] Open Scope list_scope.
#[local] Open Scope Z_scope.

Class PageStore (S : Type) := {
  target_txn : S -> Z;
  page_limit : S -> Z;
  inspect_page : forall A, Z -> (list Z -> Result A) -> io S A;
  update_page : forall A, Z -> io (list Z) A -> io S A;
  copy_page : forall A, Z -> Z -> (list Z -> io (list Z) A) -> io S A;
  discard_private : Z -> io S unit;
}.
Arguments inspect_page {S _ A} page_number inspect.
Arguments update_page {S _ A} page_number update.
Arguments copy_page {S _ A} source destination copy.

Class BitmapStore (S : Type) `{PageStore S} := {
  allocate_bitmap_page : io S Z;
  allocation_forbidden : S -> Z -> bool;
}.

Class Store (S : Type) `{PageStore S} := { allocate : io S Z }.

(** One call of a page writer inside an edit. *)
Definition put (f : list Z -> Result (list Z)) : io (list Z) unit := fun page =>
  match f page with
  | Ok new => (new, Ok tt)
  | Err e => (page, Err e)
  | Panic t => (page, Panic t)
  end.

(** A read of the page inside an edit. *)
Definition peek {A} (f : list Z -> Result A) : io (list Z) A := fun page => (page, f page).

Definition copy_for_cow {S} `{PageStore S} (source destination : Z) : io S unit :=
  txn ← gets target_txn;
  copy_page source destination (fun source =>
    _ ← put (fun output => page_write_source output 0 source);
    _ ← put (fun output => put_u64 output BORN_TXN txn);
    put clear).

(** ** What the interface promises to a client's invariant *)

Class StoreKeeps (S : Type) `{PageStore S} (R : S -> S -> Prop) := {
  sk_preorder :: PreOrder R;
  sk_inspect A n (f : list Z -> Result A) : keeps R (inspect_page n f);
  sk_update A n (f : io (list Z) A) : keeps R (update_page n f);
  sk_copy A n m (f : list Z -> io (list Z) A) : keeps R (copy_page n m f);
  sk_discard n : keeps R (discard_private n);
}.

Class BitmapStoreKeeps (S : Type) `{BitmapStore S} (R : S -> S -> Prop) := {
  bk_store :: StoreKeeps S R;
  bk_allocate : keeps R allocate_bitmap_page;
}.

#[export] Hint Extern 1 (keeps _ (inspect_page _ _)) => apply sk_inspect : keeps.
#[export] Hint Extern 1 (keeps _ (update_page _ _)) => apply sk_update : keeps.
#[export] Hint Extern 1 (keeps _ (copy_page _ _ _)) => apply sk_copy : keeps.
#[export] Hint Extern 1 (keeps _ (discard_private _)) => apply sk_discard : keeps.
#[export] Hint Extern 1 (keeps _ allocate_bitmap_page) => apply bk_allocate : keeps.

Lemma copy_for_cow_keeps {S} `{PageStore S} R `{!StoreKeeps S R} n m : keeps R (copy_for_cow n m).
Proof. unfold copy_for_cow. keeps_tac. Qed.
#[export] Hint Extern 1 (keeps _ (copy_for_cow _ _)) => apply copy_for_cow_keeps; apply _ : keeps.
