(* ===== verification/TreePage.v ===== *)
(** * Pages of the B+tree

    [fixed_tree/page.rs]: reading, searching and rewriting one page of a tree
    through its codec.  A cell is the list of its bytes, whether it comes from
    the page or from the caller.  A rewriting function returns the new page; a
    page whose rewriting failed is not used by the code. *)

From stdpp Require Import base tactics numbers list strings.
From Stdlib Require Import ZArith Lia.
From S2P Require Import Prelude Errors Bytes PageHeader SlottedPage Codec.

#[local] Open Scope string_scope.
#[local] Open Scope list_scope.
#[local] Open Scope Z_scope.

Section TreePage.
Context {Key Leaf : Type} `{Codec Key Leaf}.

(** ** Cells *)

(** [Codec::leaf_cell] and [Codec::branch_cell], the trait's own. *)
Definition leaf_cell (page : list Z) (header : Header) (index : Z) : Result (list Z) :=
  r ← cell page header index LEAF_SIZE; Ok (br_bytes r).
Definition branch_cell (page : list Z) (header : Header) (index : Z) : Result (list Z) :=
  r ← cell page header index (KEY_SIZE + 4); Ok (br_bytes r).

Definition codec_cell (page : list Z) (header : Header) (index : Z) : Result (list Z) :=
  if h_level header =? 0 then leaf_cell page header index else branch_cell page header index.

Definition key_at (page : list Z) (header : Header) (index : Z) : Result Key :=
  c ← codec_cell page header index; read_key c (h_level header).

Definition require_child (c : list Z) (page_limit : Z) : Result Z :=
  child ← read_branch_child c;
  if (child <? 2) || (page_limit <=? child) then Err (Corrupt "B+tree child page is invalid") else Ok child.

Definition branch_child (page : list Z) (header : Header) (index page_limit : Z) : Result Z :=
  c ← branch_cell page header index;
  require_child c page_limit.

Definition tree_parse (page : list Z) (selected_txn : Z) (expected_level : option Z) : Result Header :=
  parse_tree page selected_txn BRANCH_TYPE LEAF_TYPE AUX expected_level.

Definition page_type_of (level : Z) : Z := if level =? 0 then LEAF_TYPE else BRANCH_TYPE.

(** [CellBuf::branch] and [as_slice]. *)
Definition MAX_TREE_CELL : Z := 512.
Definition branch_buf (key : Key) (child : Z) : Result (list Z) :=
  '(len, bytes) ← write_branch key child (replicate (Z.to_nat MAX_TREE_CELL) 0);
  if (len =? 0) || (MAX_BRANCH_SIZE <? len) then Err (Unsupported "B+tree branch encoding is invalid")
  else Ok (sub bytes 0 len).

(** ** Search *)

(** [while lower < upper]: each round at least halves the interval, so as many
    rounds as the interval is long are enough.  [last] is the key probed last. *)
Fixpoint bound_loop (fuel : nat) (probe : Z -> Result Key) (key : Key) (lower upper : Z) (last : option (Z * Key))
    : Result (Z * option (Z * Key)) :=
  if upper <=? lower then Ok (lower, last)
  else
    match fuel with
    | O => Panic "lower_bound_by does not end"
    | S fuel' =>
        let middle := lower + (upper - lower) / 2 in
        current ← probe middle;
        let last := Some (middle, current) in
        if codec_ltb current key then bound_loop fuel' probe key (middle + 1) upper last
        else bound_loop fuel' probe key lower middle last
    end.

Definition lower_bound_by (header : Header) (key : Key) (insertion : bool) (probe : Z -> Result Key)
    : Result (Z * bool) :=
  '(lower, last) ← bound_loop (Z.to_nat (h_item_count header)) probe key 0 (h_item_count header) None;
  found ← (if h_item_count header <=? lower then Ok false
           else
             current ← (match last with
                        | Some (index, current) => if index =? lower then Ok current else probe lower
                        | None => probe lower
                        end);
             Ok (codec_eqb current key));
  if insertion || found || (lower =? 0) then Ok (lower, found) else Ok (lower - 1, false).

Definition lower_bound_fixed (page : list Z) (header : Header) (key : Key) (insertion : bool) (cell_len : Z)
    : Result (Z * bool) :=
  search ← FixedSearch_new page header cell_len;
  lower_bound_by header key insertion (fun index => r ← cell_at search index; read_key (br_bytes r) (h_level header)).

Definition lower_bound (page : list Z) (header : Header) (key : Key) (insertion : bool) : Result (Z * bool) :=
  match fixed_cell_size (h_level header) with
  | Some cell_len => lower_bound_fixed page header key insertion cell_len
  | None => lower_bound_by header key insertion (key_at page header)
  end.

(** ** Edits *)

Record Edit := mkEdit { e_index : Z; e_replace : bool; e_cell : list Z }.
Definition edit_total (e : Edit) (source_count : Z) : Z := source_count + (if e_replace e then 0 else 1).

Record Replacement := mkReplacement { rp_index : Z; rp_cells : list (list Z) }.
Definition replacement_total (r : Replacement) (source_count : Z) : Z := source_count + zlen (rp_cells r) - 1.

Definition virtual_cell (source : list Z) (header : Header) (e : Edit) (virtual_index : Z) : Result (list Z) :=
  if virtual_index =? e_index e then Ok (e_cell e)
  else
    let source_index := if (e_index e <? virtual_index) && negb (e_replace e) then virtual_index - 1 else virtual_index in
    codec_cell source header source_index.

Definition replacement_cell (source : list Z) (header : Header) (r : Replacement) (index : Z) : Result (list Z) :=
  match offset ← checked_sub index (rp_index r); rp_cells r !! Z.to_nat offset with
  | Some c => Ok c
  | None =>
      let source_index := if rp_index r + zlen (rp_cells r) <=? index then index - zlen (rp_cells r) + 1 else index in
      codec_cell source header source_index
  end.

(** [for index in start..end { builder.push(cell(index)?)? }]. *)
Fixpoint push_cells (b : Builder) (cell_of : Z -> Result (list Z)) (index : Z) (count : nat) : Result Builder :=
  match count with
  | O => Ok b
  | S count' =>
      c ← cell_of index;
      b ← builder_push b c;
      push_cells b cell_of (index + 1) count'
  end.

Definition build_cells (source : list Z) (header : Header) (cell_of : Z -> Result (list Z)) (start end_ : Z)
    : Result (list Z) :=
  born ← born_txn source;
  b ← Builder_new (page_type_of (h_level header)) born (h_level header) AUX;
  b ← push_cells b cell_of start (Z.to_nat (end_ - start));
  builder_finish b.

Definition build_edit (source : list Z) (header : Header) (e : Edit) (start end_ : Z) : Result (list Z) :=
  build_cells source header (virtual_cell source header e) start end_.
Definition build_replacement (source : list Z) (header : Header) (r : Replacement) (start end_ : Z) : Result (list Z) :=
  build_cells source header (replacement_cell source header r) start end_.

Definition edit_fits (source : list Z) (header : Header) (e : Edit) : Result bool :=
  if e_replace e then
    if h_item_count header <=? e_index e then Err (Corrupt "B+tree replacement index is invalid")
    else
      old ← codec_cell source header (e_index e);
      Ok (replace_fits header (zlen old) (zlen (e_cell e)))
  else if h_item_count header <? e_index e then Err (Corrupt "B+tree insertion index is invalid")
  else Ok (insert_fits header (zlen (e_cell e))).

(** [iter().try_fold(0, checked_add)]. *)
Fixpoint payload_of (sum : Z) (cells : list (list Z)) : Result Z :=
  match cells with
  | [] => Ok sum
  | c :: cells =>
      sum ← ok_or (checked_add usize_max sum (zlen c)) (ArithmeticOverflow "B+tree replacement size");
      payload_of sum cells
  end.

Definition replacement_fits (source : list Z) (header : Header) (r : Replacement) : Result bool :=
  if (h_item_count header <=? rp_index r) || bool_decide (rp_cells r = [])
  then Err (Corrupt "B+tree replacement is invalid")
  else
    old ← codec_cell source header (rp_index r);
    room ← usub (h_upper header) (h_lower header);
    available ← ok_or (checked_add usize_max (zlen old) room) (ArithmeticOverflow "B+tree replacement capacity");
    payload ← payload_of 0 (rp_cells r);
    required ← ok_or (extra ← checked_sub (zlen (rp_cells r)) 1;
                      slots ← checked_mul usize_max extra 2;
                      checked_add usize_max payload slots) (ArithmeticOverflow "B+tree replacement size");
    Ok (required <=? available).

Definition tree_truncate (page : list Z) (header : Header) (keep : Z) : Result (list Z * Header) :=
  match fixed_cell_size (h_level header) with
  | Some cell_len => truncate_fixed page header keep cell_len
  | None => truncate page header keep
  end.

(** ** Where a page is split *)

Definition page_size (count payload : Z) : Result Z :=
  ok_or (slots ← checked_mul usize_max count 2;
         base ← checked_add usize_max slots HEADER_SIZE;
         checked_add usize_max base payload) (ArithmeticOverflow "B+tree page size").

Definition fixed_split_index (total cell_len : Z) : Result Z :=
  if total <? 2 then Err (Corrupt "B+tree split has fewer than two records")
  else
    let middle := total / 2 in
    left_payload ← ok_or (checked_mul usize_max middle cell_len) (ArithmeticOverflow "B+tree split size");
    right_payload ← ok_or (checked_mul usize_max (total - middle) cell_len) (ArithmeticOverflow "B+tree split size");
    left ← page_size middle left_payload;
    too_big ← (if PAGE_SIZE <? left then Ok true
               else right ← page_size (total - middle) right_payload; Ok (PAGE_SIZE <? right));
    if too_big : bool then Err (InvalidArgument "B+tree record cannot be split") else Ok middle.

Definition split_difference (total middle payload left_payload : Z) : Result (option Z) :=
  left ← page_size middle left_payload;
  right_payload ← ok_or (checked_sub payload left_payload) (Corrupt "B+tree split size changed");
  right ← page_size (total - middle) right_payload;
  if (PAGE_SIZE <? left) || (PAGE_SIZE <? right) then Ok None else Ok (Some (Z.abs (left - right))).

Fixpoint payload_size (cell_len : Z -> Result Z) (used index : Z) (count : nat) : Result Z :=
  match count with
  | O => Ok used
  | S count' =>
      len ← cell_len index;
      used ← ok_or (checked_add usize_max used len) (ArithmeticOverflow "B+tree split size");
      payload_size cell_len used (index + 1) count'
  end.

(** [for middle in 1..total]. *)
Fixpoint choose_split (cell_len : Z -> Result Z) (total payload left_payload middle : Z) (best : option (Z * Z)) (count : nat)
    : Result (option Z) :=
  match count with
  | O => Ok (fst <$> best)
  | S count' =>
      len ← cell_len (middle - 1);
      left_payload ← ok_or (checked_add usize_max left_payload len) (ArithmeticOverflow "B+tree split size");
      difference ← split_difference total middle payload left_payload;
      let best := match difference with
                  | None => best
                  | Some d => match best with
                              | None => Some (middle, d)
                              | Some (m, prior) => if d <? prior then Some (middle, d) else Some (m, prior)
                              end
                  end in
      choose_split cell_len total payload left_payload (middle + 1) best count'
  end.

Definition split_by_size (total : Z) (cell_len : Z -> Result Z) : Result Z :=
  if total <? 2 then Err (Corrupt "B+tree split has fewer than two records")
  else
    payload ← payload_size cell_len 0 0 (Z.to_nat total);
    middle ← choose_split cell_len total payload 0 1 None (Z.to_nat (total - 1));
    ok_or middle (InvalidArgument "B+tree record cannot be split").

Definition split_index (source : list Z) (header : Header) (e : Edit) : Result Z :=
  let total := edit_total e (h_item_count header) in
  match fixed_cell_size (h_level header) with
  | Some cell_len => fixed_split_index total cell_len
  | None => split_by_size total (fun index => c ← virtual_cell source header e index; Ok (zlen c))
  end.

Definition replacement_split_index (source : list Z) (header : Header) (r : Replacement) : Result Z :=
  let total := replacement_total r (h_item_count header) in
  match fixed_cell_size (h_level header) with
  | Some cell_len => fixed_split_index total cell_len
  | None => split_by_size total (fun index => c ← replacement_cell source header r index; Ok (zlen c))
  end.

Definition require_codec : Result unit :=
  if (MAX_BRANCH_SIZE =? 0) || (MAX_LEAF_SIZE =? 0)
     || (PAGE_SIZE <? MAX_BRANCH_SIZE + 2 + HEADER_SIZE)
     || (PAGE_SIZE <? MAX_LEAF_SIZE + 2 + HEADER_SIZE)
     || (MAX_TREE_CELL <? MAX_BRANCH_SIZE)
  then Err (Unsupported "invalid B+tree codec") else Ok tt.
End TreePage.
