(* ===== verification/TreeQuery.v ===== *)
(** * Queries of the B+tree

    [fixed_tree/query.rs], the trait [PageSource] of [fixed_tree.rs], the
    generation of [format.rs] and the point lookup of [range_tree.rs]: one
    descent from the root to a leaf. *)

From stdpp Require Import base tactics numbers list strings.
From Stdlib Require Import ZArith Lia.
From S2P Require Import Prelude Errors Bytes Key PageHeader SlottedPage Codec Contract Machine Mapping Store TreePage.

#[local] Open Scope string_scope.
#[local] Open Scope list_scope.
#[local] Open Scope Z_scope.

(** ** Page sources *)

(** [trait PageSource]; its methods take [&self]. *)
Class PageSource (S : Type) := {
  selected_txn : S -> Z;
  selected_page_limit : S -> Z;
  view_page : forall A, S -> Z -> (list Z -> Result A) -> Result A;
}.
Arguments view_page {S _ A} source page_number inspect.

(** [impl<T: Store> PageSource for T]. *)
#[global] Instance Store_PageSource {S} `{PageStore S} : PageSource S := {
  selected_txn := target_txn;
  selected_page_limit := page_limit;
  view_page A s n f := snd (inspect_page n f s);
}.

(** A committed generation: the mapping with a meta record. *)
Record Generation := mkGeneration { g_mapping : Mapping; g_meta : MetaV4 }.

#[global] Instance Generation_PageSource : PageSource Generation := {
  selected_txn g := txn_id (g_meta g);
  selected_page_limit g := page_count (g_meta g);
  view_page A g n f := view ← snd (page n (page_count (g_meta g)) (g_mapping g)); f view;
}.

(** ** [query] *)

Section Query.
Context {Key Leaf : Type} `{Codec Key Leaf} {S : Type} `{PageSource S}.

(** [LeafQuery::inspect], on the page, its header and number, the position and
    whether the key is there. *)
Definition LeafQuery (Q : Type) : Type := list Z -> Header -> Z -> Z -> bool -> Result (option Q).

Inductive Step (Q : Type) :=
| Found (result : option Q)
| Descend (child expected_level : Z).
Arguments Found {Q} result.
Arguments Descend {Q} child expected_level.

Definition query_step {Q} (source : S) (key : Key) (leaf : LeafQuery Q) (page_number : Z) (expected_level : option Z)
    (page : list Z) : Result (Step Q) :=
  header ← tree_parse page (selected_txn source) expected_level;
  if h_level header =? 0 then
    '(position, exact) ← lower_bound page header key true;
    result ← leaf page header page_number position exact;
    Ok (Found result)
  else
    '(position, _) ← lower_bound page header key false;
    child ← branch_child page header position (selected_page_limit source);
    Ok (Descend child (h_level header - 1)).

(** [for _ in 0..=MAX_TREE_LEVEL]. *)
Fixpoint query_loop {Q} (rounds : nat) (source : S) (key : Key) (leaf : LeafQuery Q) (page_number : Z)
    (expected_level : option Z) : Result (option Q) :=
  match rounds with
  | O => Err (Corrupt "B+tree exceeds its maximum height")
  | Datatypes.S rounds' =>
      step ← view_page source page_number (query_step source key leaf page_number expected_level);
      match step with
      | Found result => Ok result
      | Descend child level => query_loop rounds' source key leaf child (Some level)
      end
  end.

Definition query {Q} (source : S) (root : Z) (key : Key) (leaf : LeafQuery Q) : Result (option Q) :=
  if root =? 0 then Ok None
  else query_loop (Z.to_nat (MAX_TREE_LEVEL + 1)) source key leaf root None.
End Query.

(** ** [range_tree::lookup] *)

Section Lookup.
Context {K : Type} `{IpKey K}.

Definition leaf_record (page : list Z) (header : Header) (index : Z) : Result (Range K) :=
  r ← cell page header index record_size; decode_cell (br_bytes r).

(** [RangeLookup::inspect]. *)
Definition range_lookup (target : K) : LeafQuery Z := fun page header _ position exact =>
  match (if exact : bool then Some position else checked_sub position 1) with
  | None => Ok None
  | Some index =>
      record ← leaf_record page header index;
      if key_ltb (r_to record) target then Ok None else Ok (Some (r_value record))
  end.

Definition lookup (mapping : Mapping) (meta : MetaV4) (target : K) : Result (option Z) :=
  if negb (bool_decide (address_family meta = key_family))
  then Err (WrongAddressFamily "lookup address family does not match the database")
  else query (Key := K) (Leaf := Range K) (mkGeneration mapping meta) (range_root meta) target (range_lookup target).
End Lookup.
