(* ===== verification/TreeCursor.v ===== *)
(** * Cursors of the B+tree

    [fixed_tree/cursor.rs] with the one-shot reads of [fixed_tree/read.rs]: an
    ordered position in a tree, moved forward or backward.  The private trait
    [Access] is a record of operations with its three implementations; a
    method of the cursor runs on the cursor and on what it reads from.  The
    path in use is a list, deepest frame first. *)

From stdpp Require Import base tactics numbers list strings.
From Stdlib Require Import ZArith Lia.
From S2P Require Import Prelude Errors Bytes PageHeader SlottedPage Codec Machine Mapping Store TreePage TreeQuery.

#[local] Open Scope string_scope.
#[local] Open Scope list_scope.
#[local] Open Scope Z_scope.

Definition MAX_DEPTH : Z := MAX_TREE_LEVEL.

Inductive Direction := Forward | Backward.
Inductive SeekPosition := AtIndex (index : Z) | NextLeaf | Finished.

Record CFrame := mkCFrame { cf_page_number : Z; cf_index : Z; cf_item_count : Z; cf_level : Z }.
Record CLeaf := mkCLeaf { cl_page_number : Z; cl_header : Header }.

Record Cursor := mkCursor {
  cu_selected_txn : Z;
  cu_page_limit : Z;
  cu_root : Z;
  cu_direction : Direction;
  cu_path : list CFrame;
  cu_leaf : option CLeaf;
  cu_index : Z;
  cu_needs_advance : bool;
  cu_finished : bool;
}.

Definition set_path (p : list CFrame) (c : Cursor) : Cursor :=
  mkCursor (cu_selected_txn c) (cu_page_limit c) (cu_root c) (cu_direction c) p (cu_leaf c) (cu_index c)
    (cu_needs_advance c) (cu_finished c).
Definition set_position (leaf : option CLeaf) (index : Z) (needs finished : bool) (c : Cursor) : Cursor :=
  mkCursor (cu_selected_txn c) (cu_page_limit c) (cu_root c) (cu_direction c) (cu_path c) leaf index needs finished.
Definition set_finished (b : bool) (c : Cursor) : Cursor :=
  set_position (cu_leaf c) (cu_index c) (cu_needs_advance c) b c.
Definition set_needs (b : bool) (c : Cursor) : Cursor :=
  set_position (cu_leaf c) (cu_index c) b (cu_finished c) c.

(** ** [trait Access] *)

Record Access (S : Type) := mkAccess {
  acc_txn : S -> Z;
  acc_limit : S -> Z;
  consumed_txn : S -> option Z;
  acc_view : forall A, Z -> (list Z -> Result A) -> io S A;
  discard : Z -> io S unit;
}.
Arguments mkAccess {S}.
Arguments acc_txn {S} a s.
Arguments acc_limit {S} a s.
Arguments consumed_txn {S} a s.
Arguments acc_view {S} a {A} page_number inspect.
Arguments discard {S} a page_number.

Definition Shared {S} `{PageSource S} : Access S :=
  mkAccess selected_txn selected_page_limit (fun _ => None)
    (fun A n f s => (s, view_page s n f)) (fun _ => mret tt).

Definition Mapped (txn limit : Z) : Access Mapping :=
  mkAccess (fun _ => txn) (fun _ => limit) (fun _ => None)
    (fun A n f => view ← page n limit; lift (f view)) (fun _ => mret tt).

Definition Consuming {S} `{PageStore S} (txn limit : Z) : Access S :=
  mkAccess (fun _ => txn) (fun _ => limit) (fun _ => Some txn)
    (fun A n f => inspect_page n f) discard_private.

(** ** The cursor *)

Section Cursor.
Context {Key Leaf : Type} `{Codec Key Leaf} {S : Type} (a : Access S).

(** A method with [&mut self] and [&mut access]. *)
Definition cio (A : Type) : Type := io (Cursor * S) A.
Definition cursor_get {A} (f : Cursor -> A) : cio A := gets (fun cs => f (fst cs)).
Definition cursor_set (f : Cursor -> Cursor) : cio unit := modify (fun cs => (f (fst cs), snd cs)).
Definition reach {A} (m : io S A) : cio A := zoom snd (fun s cs => (fst cs, s)) m.

(** [Item::read] and [Seek::select]. *)
Definition Item (O : Type) : Type := list Z -> Header -> Z -> Z -> Result O.
Definition Seek : Type := list Z -> Header -> Z -> bool -> Direction -> Result SeekPosition.

Definition unpositioned (root : Z) (direction : Direction) : io S Cursor :=
  limit ← gets (acc_limit a);
  txn ← gets (acc_txn a);
  _ ← fail_if (negb (root =? 0) && ((root <? 2) || (limit <=? root))) (Corrupt "B+tree root is outside page bounds");
  mret (mkCursor txn limit root direction [] None 0 false (root =? 0)).

Definition require_access : cio unit := fun cs =>
  let '(c, s) := cs in
  (cs, if negb (acc_txn a s =? cu_selected_txn c) || negb (acc_limit a s =? cu_page_limit c)
       then Err (Corrupt "B+tree cursor source changed") else Ok tt).

Definition cursor_push (page_number index : Z) (header : Header) : cio unit :=
  path ← cursor_get cu_path;
  _ ← fail_if (MAX_DEPTH <=? zlen path) (Corrupt "B+tree exceeds its maximum height");
  cursor_set (set_path (mkCFrame page_number index (h_item_count header) (h_level header) :: path)).

Definition set_leaf (page_number : Z) (header : Header) (index : Z) : cio unit :=
  cursor_set (set_position (Some (mkCLeaf page_number header)) index false false).

Definition edge_index (direction : Direction) (header : Header) : Z :=
  match direction with Forward => 0 | Backward => h_item_count header - 1 end.

(** One page of [descend_edge]. *)
Definition edge_page (txn limit : Z) (consumed : option Z) (direction : Direction) (expected_level : option Z) (page : list Z)
    : Result (Header * option Z) :=
  header ← tree_parse page txn expected_level;
  foreign ← (match consumed with Some t => born ← born_txn page; Ok (negb (born =? t)) | None => Ok false end);
  if foreign : bool then Err (Corrupt "consumed B+tree contains a committed page")
  else
    let index := edge_index direction header in
    child ← (if h_level header =? 0 then Ok None else child ← branch_child page header index limit; Ok (Some child));
    Ok (header, child).

(** [loop]: a descent pushes a frame per branch and the path holds
    [MAX_DEPTH], so it never needs more rounds than that and one. *)
Fixpoint descend_edge (rounds : nat) (page_number : Z) (expected_level : option Z) : cio unit :=
  match rounds with
  | O => lift (Panic "descend_edge does not end")
  | Datatypes.S rounds' =>
      txn ← cursor_get cu_selected_txn;
      limit ← cursor_get cu_page_limit;
      direction ← cursor_get cu_direction;
      consumed ← gets (fun cs => consumed_txn a (snd cs));
      '(header, child) ← reach (acc_view a page_number (edge_page txn limit consumed direction expected_level));
      let index := edge_index direction header in
      match child with
      | None => set_leaf page_number header index
      | Some child =>
          _ ← cursor_push page_number index header;
          descend_edge rounds' child (Some (h_level header - 1))
      end
  end.
Definition descent_rounds : nat := Z.to_nat (MAX_DEPTH + 1).

Definition has_sibling (direction : Direction) (frame : CFrame) : bool :=
  match direction with
  | Forward => cf_index frame + 1 <? cf_item_count frame
  | Backward => 0 <? cf_index frame
  end.
Definition moved (direction : Direction) (index : Z) : Z :=
  match direction with Forward => index + 1 | Backward => index - 1 end.

(** What [advance_leaf] asks of the branch it turns in. *)
Definition sibling_page (txn limit : Z) (frame : CFrame) (page : list Z) : Result Z :=
  header ← tree_parse page txn (Some (cf_level frame));
  if negb (h_item_count header =? cf_item_count frame) then Err (Corrupt "B+tree branch changed during traversal")
  else branch_child page header (cf_index frame) limit.

(** [while self.depth > 0], on the path in use. *)
Fixpoint climb (path : list CFrame) : cio unit :=
  match path with
  | [] => cursor_set (fun c => set_position (cu_leaf c) (cu_index c) false true c)
  | frame :: rest =>
      direction ← cursor_get cu_direction;
      if negb (has_sibling direction frame) then
        _ ← cursor_set (set_path rest);
        _ ← reach (discard a (cf_page_number frame));
        climb rest
      else
        let frame := mkCFrame (cf_page_number frame) (moved direction (cf_index frame)) (cf_item_count frame) (cf_level frame) in
        _ ← cursor_set (set_path (frame :: rest));
        txn ← cursor_get cu_selected_txn;
        limit ← cursor_get cu_page_limit;
        child ← reach (acc_view a (cf_page_number frame) (sibling_page txn limit frame));
        descend_edge descent_rounds child (Some (cf_level frame - 1))
  end.

Definition advance_leaf : cio unit :=
  _ ← cursor_set (fun c => set_position None (cu_index c) (cu_needs_advance c) (cu_finished c) c);
  path ← cursor_get cu_path;
  climb path.

Definition expect_leaf : cio CLeaf :=
  leaf ← cursor_get cu_leaf;
  lift (expect leaf "active B+tree cursor has a leaf").

Definition advance : cio unit :=
  leaf ← expect_leaf;
  index ← cursor_get cu_index;
  direction ← cursor_get cu_direction;
  if match direction with Forward => index + 1 <? h_item_count (cl_header leaf) | Backward => 0 <? index end
  then cursor_set (fun c => set_position (cu_leaf c) (moved direction index) false (cu_finished c) c)
  else
    _ ← reach (discard a (cl_page_number leaf));
    advance_leaf.

(** ** Seeking *)

Inductive SeekStep (O : Type) :=
| SeekFinished
| SeekLeaf (header : Header) (selected : SeekPosition) (output : option O)
| SeekBranch (header : Header) (index child : Z).
Arguments SeekFinished {O}.
Arguments SeekLeaf {O}.
Arguments SeekBranch {O}.

Definition seek_page {O} (txn limit : Z) (direction : Direction) (key : Key) (policy : Seek) (item : Item O)
    (page_number : Z) (expected_level : option Z) (page : list Z) : Result (SeekStep O) :=
  header ← tree_parse page txn expected_level;
  if h_level header =? 0 then
    '(position, exact) ← lower_bound page header key true;
    selected ← policy page header position exact direction;
    output ← (match selected with
              | AtIndex index =>
                  if h_item_count header <=? index then Err (Corrupt "B+tree seek index is invalid")
                  else o ← item page header page_number index; Ok (Some o)
              | NextLeaf | Finished => Ok None
              end);
    Ok (SeekLeaf header selected output)
  else
    '(position, exact) ← lower_bound page header key true;
    let found := if exact : bool then Some position else checked_sub position 1 in
    match found, direction with
    | None, Backward => Ok SeekFinished
    | _, _ =>
        let index := default 0 found in
        child ← branch_child page header index limit;
        Ok (SeekBranch header index child)
    end.

Definition read_current {O} (item : Item O) : cio (option O) :=
  finished ← cursor_get cu_finished;
  if finished : bool then mret None
  else
    leaf ← expect_leaf;
    index ← cursor_get cu_index;
    o ← reach (acc_view a (cl_page_number leaf) (fun page => item page (cl_header leaf) (cl_page_number leaf) index));
    mret (Some o).

Fixpoint seek_loop {O} (rounds : nat) (key : Key) (policy : Seek) (item : Item O) (page_number : Z) (expected_level : option Z)
    : cio (option O) :=
  match rounds with
  | O => lift (Panic "seek does not end")
  | Datatypes.S rounds' =>
      txn ← cursor_get cu_selected_txn;
      limit ← cursor_get cu_page_limit;
      direction ← cursor_get cu_direction;
      step ← reach (acc_view a page_number (seek_page txn limit direction key policy item page_number expected_level));
      match step with
      | SeekFinished => _ ← cursor_set (set_finished true); mret None
      | SeekLeaf header selected output =>
          match selected with
          | AtIndex index => _ ← set_leaf page_number header index; mret output
          | NextLeaf =>
              _ ← set_leaf page_number header (h_item_count header - 1);
              _ ← advance_leaf;
              read_current item
          | Finished => _ ← cursor_set (set_finished true); mret None
          end
      | SeekBranch header index child =>
          _ ← cursor_push page_number index header;
          seek_loop rounds' key policy item child (Some (h_level header - 1))
      end
  end.

Definition seek_read_inner {O} (key : Key) (policy : Seek) (item : Item O) : cio (option O) :=
  _ ← require_access;
  _ ← cursor_set (fun c => set_path [] (set_position None (cu_index c) false (cu_root c =? 0) c));
  finished ← cursor_get cu_finished;
  if finished : bool then mret None
  else
    root ← cursor_get cu_root;
    seek_loop descent_rounds key policy item root None.

(** [if result.is_err() { self.finished = true; }]. *)
Definition finishing {A} (m : cio A) : cio A := fun cs =>
  match m cs with
  | (cs', Err e) => ((set_finished true (fst cs'), snd cs'), Err e)
  | result => result
  end.

Definition seek_inner (key : Key) (policy : Seek) : cio unit :=
  _ ← seek_read_inner key policy (fun _ _ _ _ => Ok tt); mret tt.
Definition seek (key : Key) (policy : Seek) : cio unit := finishing (seek_inner key policy).

(** ** Iterating *)

Definition next_inner {O} (item : Item O) (eager_advance : bool) : cio (option O) :=
  _ ← require_access;
  finished ← cursor_get cu_finished;
  if finished : bool then mret None
  else
    needs ← cursor_get cu_needs_advance;
    _ ← (if needs : bool then advance else mret tt);
    finished ← cursor_get cu_finished;
    if finished : bool then mret None
    else
      leaf ← expect_leaf;
      index ← cursor_get cu_index;
      o ← reach (acc_view a (cl_page_number leaf) (fun page => item page (cl_header leaf) (cl_page_number leaf) index));
      _ ← cursor_set (set_needs true);
      _ ← (if eager_advance then advance else mret tt);
      mret (Some o).

Definition next {O} (item : Item O) : cio (option O) := finishing (next_inner item false).

(** [Cursor::open]. *)
Definition cursor_open (root : Z) (direction : Direction) : io S Cursor := fun s =>
  match unpositioned root direction s with
  | (s', Ok c) =>
      if cu_finished c then (s', Ok c)
      else match descend_edge descent_rounds root None (c, s') with
           | ((c', s''), Ok _) => (s'', Ok c')
           | ((_, s''), Err e) => (s'', Err e)
           | ((_, s''), Panic t) => (s'', Panic t)
           end
  | (s', Err e) => (s', Err e)
  | (s', Panic t) => (s', Panic t)
  end.

(** [Cursor::lookup]: the cursor is the caller's no more. *)
Definition cursor_lookup {O} (root : Z) (direction : Direction) (key : Key) (policy : Seek) (item : Item O) : io S (option O) := fun s =>
  match unpositioned root direction s with
  | (s', Ok c) => let '((_, s''), r) := seek_read_inner key policy item (c, s') in (s'', r)
  | (s', Err e) => (s', Err e)
  | (s', Panic t) => (s', Panic t)
  end.
End Cursor.

(** ** [next_consuming] and [next_leaf_mapped] *)

Section Access.
Context {Key Leaf : Type} `{Codec Key Leaf}.

Definition next_consuming {S} `{PageStore S} {O} (item : Item O) : cio (S := S) (option O) := fun cs =>
  let '(c, s) := cs in
  if negb (target_txn s =? cu_selected_txn c) || (page_limit s <? cu_page_limit c)
  then ((set_finished true c, s), Err (Corrupt "B+tree cursor source changed"))
  else finishing (next_inner (Consuming (cu_selected_txn c) (cu_page_limit c)) item true) cs.

Definition next_leaf_mapped_inner : cio (S := Mapping) (option Leaf) := fun cs =>
  let '(txn, limit) := (cu_selected_txn (fst cs), cu_page_limit (fst cs)) in
  (finished ← cursor_get cu_finished;
   if finished : bool then mret None
   else
     needs ← cursor_get cu_needs_advance;
     _ ← (if needs : bool then advance (Mapped txn limit) else mret tt);
     finished ← cursor_get cu_finished;
     if finished : bool then mret None
     else
       leaf ← expect_leaf;
       index ← cursor_get cu_index;
       view ← reach (page (cl_page_number leaf) limit);
       c ← lift (leaf_cell view (cl_header leaf) index);
       result ← lift (read_leaf c);
       _ ← cursor_set (set_needs true);
       mret (Some result)) cs.
Definition next_leaf_mapped : cio (S := Mapping) (option Leaf) := finishing next_leaf_mapped_inner.
End Access.

(** ** [fixed_tree/read.rs] *)

Section Read.
Context {Key Leaf : Type} `{Codec Key Leaf} {S : Type} `{PageSource S}.

Definition Previous : Seek := fun _ _ position exact _ =>
  if exact : bool then Ok (AtIndex position)
  else Ok (match checked_sub position 1 with Some index => AtIndex index | None => Finished end).

Definition CurrentOrNext : Seek := fun _ header position _ _ =>
  Ok (if position <? h_item_count header then AtIndex position else NextLeaf).

Definition ReadLeaf : Item Leaf := fun page header _ index =>
  c ← leaf_cell page header index; read_leaf c.

Record LeafLocation := mkLeafLocation { ll_page_number : Z; ll_header : Header; ll_index : Z }.
Definition ReadLocated : Item (LeafLocation * Leaf) := fun page header page_number index =>
  c ← leaf_cell page header index;
  leaf ← read_leaf c;
  Ok (mkLeafLocation page_number header index, leaf).

(** The source is only read. *)
Definition predecessor (source : S) (root : Z) (key : Key) : Result (option Leaf) :=
  snd (cursor_lookup Shared root Backward key Previous ReadLeaf source).
Definition predecessor_located (source : S) (root : Z) (key : Key) : Result (option (LeafLocation * Leaf)) :=
  snd (cursor_lookup Shared root Backward key Previous ReadLocated source).
Definition at_or_after (source : S) (root : Z) (key : Key) : Result (option Leaf) :=
  snd (cursor_lookup Shared root Forward key CurrentOrNext ReadLeaf source).

Definition inspect_leaf {T} (source : S) (location : LeafLocation) (inspect : list Z -> Result T) : Result T :=
  view_page source (ll_page_number location) (fun page =>
    header ← tree_parse page (selected_txn source) (Some 0);
    if negb (h_item_count header =? h_item_count (ll_header location))
    then Err (Corrupt "B+tree leaf changed during inspection")
    else c ← leaf_cell page header (ll_index location); inspect c).
End Read.
