(* ===== verification/TreeMutation.v ===== *)
(** * Mutations of the B+tree

    [fixed_tree.rs], [fixed_tree/insert.rs] and [fixed_tree/delete.rs]: a
    mutation walks to a leaf, copying every committed page on the way to a
    private one, edits the leaf, and repairs the fences and splits upward along
    the path.  The root and the list of retired pages are [&mut] arguments of
    the code, so they are state next to the store; the path is a list, deepest
    frame first. *)

From stdpp Require Import base tactics numbers list strings.
From Stdlib Require Import ZArith Lia.
From S2P Require Import Prelude Errors Bytes Codec PageHeader SlottedPage Machine Draft Store TreePage TreeQuery TreeCursor.

#[local] Open Scope string_scope.
#[local] Open Scope list_scope.
#[local] Open Scope Z_scope.

(** [trait RetiringStore]. *)
Class RetiringStore (S : Type) `{Store S} := { retire_pages : list Z -> io S unit }.

(** A store with the root and the retired pages of the tree being changed. *)
Record Tree (S : Type) := mkTree { tr_store : S; tr_root : Z; tr_retired : RetiredPages }.
Arguments mkTree {S}.
Arguments tr_store {S} t.
Arguments tr_root {S} t.
Arguments tr_retired {S} t.

Record TFrame := mkTFrame { tf_page_number : Z; tf_index : Z; tf_item_count : Z }.
Definition Path : Type := list TFrame.

Record PrivateLeaf (T : Type) := mkPrivateLeaf {
  pv_path : Path;
  pv_page_number : Z;
  pv_header : Header;
  pv_selection : T;
}.
Arguments mkPrivateLeaf {T}.
Arguments pv_path {T} p.
Arguments pv_page_number {T} p.
Arguments pv_header {T} p.
Arguments pv_selection {T} p.

Record BranchSplit (K : Type) := mkBranchSplit { bs_right_page : Z; bs_right_first : K; bs_left_first : K; bs_level : Z }.
Arguments mkBranchSplit {K}.
Arguments bs_right_page {K} b.
Arguments bs_right_first {K} b.
Arguments bs_left_first {K} b.
Arguments bs_level {K} b.

Record LeafTarget := mkLeafTarget { lt_path : Path; lt_page_number : Z; lt_header : Header; lt_index : Z; lt_exists : bool }.

Section Mutation.
Context {Key Leaf : Type} `{Codec Key Leaf} {S : Type} `{Store S}.

Definition tio (A : Type) : Type := io (Tree S) A.
Definition on_store {A} (m : io S A) : tio A := zoom tr_store (fun s t => mkTree s (tr_root t) (tr_retired t)) m.
Definition set_root (root : Z) : tio unit := modify (fun t => mkTree (tr_store t) root (tr_retired t)).
Definition retire_one_page (page_number : Z) : tio unit :=
  zoom tr_retired (fun r t => mkTree (tr_store t) (tr_root t) r) (fun r =>
    match retired_push r page_number with
    | Ok r' => (r', Ok tt)
    | Err e => (r, Err e)
    | Panic m => (r, Panic m)
    end).

(** [if changed { Ok(()) } else { Err(..) }]. *)
Definition must_fit (r : Result (list Z * bool)) (e : Error) : Result (list Z) :=
  '(page, changed) ← r;
  if changed : bool then Ok page else Err e.

(** [store.inspect_page] with what the closure takes from the store. *)
Definition look {A} (page_number : Z) (f : Z -> Z -> list Z -> Result A) : tio A :=
  txn ← gets (fun t => target_txn (tr_store t));
  limit ← gets (fun t => page_limit (tr_store t));
  on_store (inspect_page page_number (f txn limit)).

(** ** The path to a private leaf *)

Definition first_key (page_number level : Z) : tio Key :=
  look page_number (fun txn _ page =>
    header ← tree_parse page txn (Some level);
    key_at page header 0).

Definition touch (page_number : Z) : tio Z :=
  private_page ← on_store allocate;
  _ ← on_store (copy_for_cow page_number private_page);
  _ ← retire_one_page page_number;
  mret private_page.

Definition replace_branch_child (page_number index child : Z) : tio unit :=
  '(header, key, old_len) ← look page_number (fun txn limit page =>
    header ← tree_parse page txn None;
    key ← key_at page header index;
    old ← branch_cell page header index;
    _ ← branch_child page header index limit;
    Ok (header, key, zlen old));
  replacement ← lift (branch_buf key child);
  _ ← fail_if (negb (zlen replacement =? old_len)) (Corrupt "B+tree child replacement changed key size");
  on_store (update_page page_number (put (fun page =>
    must_fit (replace page header index old_len replacement) (Corrupt "B+tree child replacement no longer fits")))).

Inductive InspectedPage (T : Type) :=
| InspectedLeaf (header : Header) (private : bool) (selection : T)
| InspectedBranch (header : Header) (private : bool) (index child : Z).
Arguments InspectedLeaf {T}.
Arguments InspectedBranch {T}.

(** [LeafSelector::select]. *)
Definition LeafSelector (T : Type) : Type := list Z -> Header -> Path -> Result T.

Definition inspect {T} (page_number : Z) (expected_level : option Z) (key : Key) (path : Path) (selector : LeafSelector T)
    : tio (InspectedPage T) :=
  look page_number (fun txn limit page =>
    header ← tree_parse page txn expected_level;
    born ← born_txn page;
    let private := born =? txn in
    if h_level header =? 0 then
      selection ← selector page header path;
      Ok (InspectedLeaf header private selection)
    else
      '(index, _) ← lower_bound page header key false;
      child ← branch_child page header index limit;
      Ok (InspectedBranch header private index child)).

Definition path_push (path : Path) (frame : TFrame) : Result Path :=
  if MAX_PATH <=? zlen path then Err (Corrupt "B+tree exceeds its maximum height") else Ok (frame :: path).

(** The page to go on with: the page itself, or its private copy hung where
    the page was. *)
Definition activate (private : bool) (page_number : Z) (parent : option (Z * Z)) : tio Z :=
  if private then mret page_number
  else
    copied ← touch page_number;
    _ ← (match parent with
         | Some (parent_page, parent_index) => replace_branch_child parent_page parent_index copied
         | None => set_root copied
         end);
    mret copied.

(** [loop]: the path bounds the rounds. *)
Fixpoint path_loop {T} (rounds : nat) (key : Key) (selector : LeafSelector T) (path : Path) (page_number : Z)
    (expected_level : option Z) (parent : option (Z * Z)) : tio (PrivateLeaf T) :=
  match rounds with
  | O => lift (Panic "private_path_select does not end")
  | Datatypes.S rounds' =>
      inspected ← inspect page_number expected_level key path selector;
      match inspected with
      | InspectedLeaf header private selection =>
          active_page ← activate private page_number parent;
          mret (mkPrivateLeaf path active_page header selection)
      | InspectedBranch header private index child =>
          active_page ← activate private page_number parent;
          path ← lift (path_push path (mkTFrame active_page index (h_item_count header)));
          path_loop rounds' key selector path child (Some (h_level header - 1)) (Some (active_page, index))
      end
  end.

Definition private_path_select {T} (key : Key) (selector : LeafSelector T) : tio (PrivateLeaf T) :=
  root ← gets tr_root;
  path_loop (Z.to_nat (MAX_PATH + 1)) key selector [] root None None.

Definition private_path (key : Key) : tio (PrivateLeaf (Z * bool)) :=
  private_path_select key (fun page header _ => lower_bound page header key true).

(** ** Edits of one page *)

Definition apply_edit (header : Header) (e : Edit) (page : list Z) : Result (list Z) :=
  must_fit
    (if e_replace e then old ← codec_cell page header (e_index e); replace page header (e_index e) (zlen old) (e_cell e)
     else insert page header (e_index e) (e_cell e))
    (Corrupt "B+tree edit no longer fits").

(** [for (offset, cell) in cells[1..].iter().enumerate()]. *)
Fixpoint insert_cells (level index : Z) (cells : list (list Z)) (page : list Z) : Result (list Z) :=
  match cells with
  | [] => Ok page
  | c :: rest =>
      current ← tree_parse page u64_max (Some level);
      page ← must_fit (insert page current index c) (Corrupt "B+tree replacement insertion no longer fits");
      insert_cells level (index + 1) rest page
  end.

Definition apply_cells (header : Header) (index : Z) (cells : list (list Z)) (page : list Z) : Result (list Z) :=
  old ← codec_cell page header index;
  match cells with
  | [] => Panic "cells[0]"
  | first :: rest =>
      page ← must_fit (replace page header index (zlen old) first) (Corrupt "B+tree replacement no longer fits");
      insert_cells (h_level header) (index + 1) rest page
  end.

Definition keep_left_edit (txn : Z) (header : Header) (e : Edit) (middle : Z) (page : list Z) : Result (list Z) :=
  let edit_in_left := e_index e <? middle in
  let keep := middle - (if edit_in_left && negb (e_replace e) then 1 else 0) in
  if keep =? 0 then
    b ← Builder_new (page_type_of (h_level header)) txn (h_level header) AUX;
    b ← builder_push b (e_cell e);
    builder_finish b
  else
    '(page, left_) ← tree_truncate page header keep;
    if edit_in_left then apply_edit left_ e page else Ok page.

Definition keep_left_replacement (header : Header) (r : Replacement) (middle : Z) (page : list Z) : Result (list Z) :=
  if middle <=? rp_index r then '(page, _) ← tree_truncate page header middle; Ok page
  else if middle <? rp_index r + zlen (rp_cells r) then
    '(page, left_) ← tree_truncate page header (rp_index r + 1);
    apply_cells left_ (rp_index r) (take (Z.to_nat (middle - rp_index r)) (rp_cells r)) page
  else
    let keep := middle - (zlen (rp_cells r) - 1) in
    '(page, left_) ← tree_truncate page header keep;
    apply_cells left_ (rp_index r) (rp_cells r) page.

Definition new_leaf (c : list Z) : tio Z :=
  page_number ← on_store allocate;
  txn ← gets (fun t => target_txn (tr_store t));
  _ ← on_store (update_page page_number (put (fun _ =>
        b ← Builder_new LEAF_TYPE txn 0 AUX;
        b ← builder_push b c;
        builder_finish b)));
  mret page_number.

Definition new_root (left_page : Z) (left_first : Key) (right_page : Z) (right_first : Key) (level : Z) : tio Z :=
  _ ← fail_if (MAX_TREE_LEVEL <? level) (InvalidArgument "B+tree height limit reached");
  page_number ← on_store allocate;
  left_ ← lift (branch_buf left_first left_page);
  right_ ← lift (branch_buf right_first right_page);
  txn ← gets (fun t => target_txn (tr_store t));
  _ ← on_store (update_page page_number (put (fun _ =>
        b ← Builder_new BRANCH_TYPE txn level AUX;
        b ← builder_push b left_;
        b ← builder_push b right_;
        builder_finish b)));
  mret page_number.

Definition split_replacement (page_number : Z) (header : Header) (r : Replacement) : tio (option (BranchSplit Key)) :=
  let total := replacement_total r (h_item_count header) in
  middle ← on_store (inspect_page page_number (fun source => replacement_split_index source header r));
  right_page ← on_store allocate;
  _ ← on_store (copy_page page_number right_page (fun source => put (fun _ => build_replacement source header r middle total)));
  _ ← on_store (update_page page_number (put (keep_left_replacement header r middle)));
  right_first ← first_key right_page (h_level header);
  left_first ← first_key page_number (h_level header);
  mret (Some (mkBranchSplit right_page right_first left_first (h_level header))).

Definition apply_replacement (page_number : Z) (header : Header) (r : Replacement) : tio (option (BranchSplit Key)) :=
  fits ← on_store (inspect_page page_number (fun source => replacement_fits source header r));
  if fits : bool then
    _ ← on_store (update_page page_number (put (apply_cells header (rp_index r) (rp_cells r))));
    mret None
  else split_replacement page_number header r.

(** ** Fences and splits, upward *)

Definition branch_at (frame : TFrame) : tio (Header * Z) :=
  look (tf_page_number frame) (fun txn limit source =>
    header ← tree_parse source txn None;
    child ← branch_child source header (tf_index frame) limit;
    Ok (header, child)).

Definition insert_branch (frame : TFrame) (left_first : Key) (right_page : Z) (right_first : Key)
    : tio (option (BranchSplit Key)) :=
  '(header, left_child) ← branch_at frame;
  left_ ← lift (branch_buf left_first left_child);
  right_ ← lift (branch_buf right_first right_page);
  apply_replacement (tf_page_number frame) header (mkReplacement (tf_index frame) [left_; right_]).

Definition replace_first_branch (frame : TFrame) (key : Key) : tio (option (BranchSplit Key)) :=
  '(header, child) ← branch_at frame;
  replacement ← lift (branch_buf key child);
  apply_replacement (tf_page_number frame) header (mkReplacement (tf_index frame) [replacement]).

Fixpoint propagate_split_from (path : Path) (left_page : Z) (left_first : Key) (right_page : Z) (right_first : Key)
    (child_level : Z) : tio unit :=
  match path with
  | [] =>
      root ← new_root left_page left_first right_page right_first (child_level + 1);
      set_root root
  | frame :: rest =>
      split ← insert_branch frame left_first right_page right_first;
      match split with
      | None => if tf_index frame =? 0 then propagate_first_from rest left_first else mret tt
      | Some sp =>
          propagate_split_from rest (tf_page_number frame) (bs_left_first sp) (bs_right_page sp) (bs_right_first sp) (bs_level sp)
      end
  end
with propagate_first_from (path : Path) (key : Key) : tio unit :=
  match path with
  | [] => mret tt
  | frame :: rest =>
      split ← replace_first_branch frame key;
      match split with
      | Some sp =>
          propagate_split_from rest (tf_page_number frame) (bs_left_first sp) (bs_right_page sp) (bs_right_first sp) (bs_level sp)
      | None => if negb (tf_index frame =? 0) then mret tt else propagate_first_from rest key
      end
  end.

(** ** Insertion *)

Definition require_leaf (c : list Z) : Result unit :=
  _ ← require_codec;
  if bool_decide (c = []) || (MAX_LEAF_SIZE <? zlen c) then Err (InvalidArgument "wrong B+tree leaf size")
  else validate_leaf c.

Definition split_leaf_at (target : LeafTarget) (e : Edit) (middle total : Z) : tio unit :=
  let page_number := lt_page_number target in
  right_page ← on_store allocate;
  _ ← on_store (copy_page page_number right_page (fun source => put (fun _ => build_edit source (lt_header target) e middle total)));
  txn ← gets (fun t => target_txn (tr_store t));
  _ ← on_store (update_page page_number (put (keep_left_edit txn (lt_header target) e middle)));
  left_first ← first_key page_number 0;
  right_first ← first_key right_page 0;
  propagate_split_from (lt_path target) page_number left_first right_page right_first 0.

Definition split_leaf (target : LeafTarget) (e : Edit) : tio unit :=
  let total := edit_total e (h_item_count (lt_header target)) in
  middle ← on_store (inspect_page (lt_page_number target) (fun source => split_index source (lt_header target) e));
  split_leaf_at target e middle total.

Definition edit_leaf (c : list Z) (target : LeafTarget) : tio bool :=
  let e := mkEdit (lt_index target) (lt_exists target) c in
  fits ← on_store (inspect_page (lt_page_number target) (fun page => edit_fits page (lt_header target) e));
  if negb fits then
    _ ← split_leaf target e;
    mret true
  else
    _ ← on_store (update_page (lt_page_number target) (put (apply_edit (lt_header target) e)));
    _ ← (if lt_index target =? 0 then
           key ← lift (read_key c 0);
           propagate_first_from (lt_path target) key
         else mret tt);
    mret (negb (lt_exists target)).

Definition locate_leaf (key : Key) : tio LeafTarget :=
  leaf ← private_path key;
  let '(index, found) := pv_selection leaf in
  mret (mkLeafTarget (pv_path leaf) (pv_page_number leaf) (pv_header leaf) index found).

Definition tree_insert (c : list Z) : tio bool :=
  _ ← lift (require_leaf c);
  root ← gets tr_root;
  if root =? 0 then
    page_number ← new_leaf c;
    _ ← set_root page_number;
    mret true
  else
    key ← lift (read_key c 0);
    target ← locate_leaf key;
    edit_leaf c target.

(** The keys of the cells increase from [previous]. *)
Fixpoint require_increasing (previous : option Key) (cells : list (list Z)) : Result unit :=
  match cells with
  | [] => Ok tt
  | c :: rest =>
      _ ← require_leaf c;
      current ← read_key c 0;
      if match previous with Some prior => negb (codec_ltb prior current) | None => false end
      then Err (InvalidArgument "B+tree replacement keys are not increasing")
      else require_increasing (Some current) rest
  end.

Definition require_replacement (key : Key) (cells : list (list Z)) : Result unit :=
  if negb ((2 <=? zlen cells) && (zlen cells <=? 3))
  then Err (InvalidArgument "B+tree leaf replacement requires two or three cells")
  else
    _ ← require_increasing None cells;
    match cells with
    | [] => Panic "cells[0]"
    | c :: _ =>
        first ← read_key c 0;
        if negb (codec_eqb first key) then Err (InvalidArgument "B+tree replacement changed its first key") else Ok tt
    end.

Definition replace_target (target : LeafTarget) (cells : list (list Z)) : tio unit :=
  split ← apply_replacement (lt_page_number target) (lt_header target) (mkReplacement (lt_index target) cells);
  match split with
  | None => mret tt
  | Some sp =>
      _ ← fail_if (negb (bs_level sp =? 0)) (Corrupt "B+tree leaf replacement changed level");
      propagate_split_from (lt_path target) (lt_page_number target) (bs_left_first sp) (bs_right_page sp) (bs_right_first sp) 0
  end.

Definition replace_leaf_with (key : Key) (cells : list (list Z)) : tio unit :=
  _ ← lift (require_replacement key cells);
  target ← locate_leaf key;
  _ ← fail_if (negb (lt_exists target)) (Corrupt "B+tree replacement key is missing");
  replace_target target cells.

(** ** Deletion *)

Definition remove_at (header : Header) (index : Z) (page : list Z) : Result (list Z) :=
  old ← codec_cell page header index;
  remove page header index (zlen old).

(** [while depth > 0]; [depth == 0 && ..] is the last frame of the path. *)
Fixpoint remove_empty_child (path : Path) : tio unit :=
  match path with
  | [] => set_root 0
  | frame :: rest =>
      header ← look (tf_page_number frame) (fun txn _ page => tree_parse page txn None);
      if h_item_count header =? 1 then
        _ ← on_store (discard_private (tf_page_number frame));
        match rest with
        | [] => set_root 0
        | _ => remove_empty_child rest
        end
      else
        _ ← on_store (update_page (tf_page_number frame) (put (remove_at header (tf_index frame))));
        let output_count := h_item_count header - 1 in
        if match rest with [] => true | _ => false end && (output_count =? 1) then
          child ← look (tf_page_number frame) (fun txn limit page =>
            output ← tree_parse page txn (Some (h_level header));
            branch_child page output 0 limit);
          _ ← set_root child;
          on_store (discard_private (tf_page_number frame))
        else if tf_index frame =? 0 then
          first ← first_key (tf_page_number frame) (h_level header);
          propagate_first_from rest first
        else mret tt
  end.

Definition remove_leaf_record (target : LeafTarget) : tio unit :=
  _ ← on_store (update_page (lt_page_number target) (put (remove_at (lt_header target) (lt_index target))));
  if negb (lt_index target =? 0) then mret tt
  else
    first ← first_key (lt_page_number target) 0;
    propagate_first_from (lt_path target) first.

Definition delete_target (target : LeafTarget) : tio unit :=
  if 1 <? h_item_count (lt_header target) then remove_leaf_record target
  else
    _ ← on_store (discard_private (lt_page_number target));
    remove_empty_child (lt_path target).

Definition delete_existing (key : Key) : tio unit :=
  target ← locate_leaf key;
  _ ← fail_if (negb (lt_exists target)) (Corrupt "B+tree key disappeared during deletion");
  delete_target target.

(** ** Removal of a run *)

Inductive Adjacent := Before | After.

(** One page of the descent to an adjacent leaf: its record, or the child. *)
Definition adjacent_step (direction : Adjacent) (expected_level : Z) (txn limit : Z) (page : list Z) : Result (Key * Leaf + Z) :=
  header ← tree_parse page txn (Some expected_level);
  let index := match direction with Before => h_item_count header - 1 | After => 0 end in
  c ← codec_cell page header index;
  if h_level header =? 0 then
    key ← read_key c 0;
    leaf ← read_leaf c;
    Ok (inl (key, leaf))
  else
    child ← branch_child page header index limit;
    Ok (inr child).

(** The expected level goes down to zero, where a page is a leaf. *)
Fixpoint adjacent_descent (level : nat) (direction : Adjacent) (page_number : Z) : tio (Key * Leaf) :=
  step ← look page_number (adjacent_step direction (Z.of_nat level));
  match step with
  | inl found => mret found
  | inr child => match level with
                 | O => lift (Panic "a leaf has no child")
                 | Datatypes.S level' => adjacent_descent level' direction child
                 end
  end.

Fixpoint adjacent_leaf (path : Path) (direction : Adjacent) : tio (option (Key * Leaf)) :=
  match path with
  | [] => mret None
  | frame :: rest =>
      let sibling := match direction with
                     | Before => checked_sub (tf_index frame) 1
                     | After => if tf_index frame + 1 <? tf_item_count frame then Some (tf_index frame + 1) else None
                     end in
      match sibling with
      | None => adjacent_leaf rest direction
      | Some sibling =>
          '(page_number, expected_level) ← look (tf_page_number frame) (fun txn limit page =>
            header ← tree_parse page txn None;
            if negb (h_item_count header =? tf_item_count frame) || (h_level header =? 0)
            then Err (Corrupt "B+tree path changed during adjacent-leaf traversal")
            else
              child ← branch_child page header sibling limit;
              Ok (child, h_level header - 1));
          found ← adjacent_descent (Z.to_nat expected_level) direction page_number;
          mret (Some found)
      end
  end.

Record RemovedRun := mkRemovedRun { rr_removed : Z; rr_following : option (Key * Leaf) }.

(** [while end < item_count]: where the run ends on the leaf, and the record
    there. *)
Fixpoint run_end (include : Leaf -> Result bool) (page : list Z) (header : Header) (end_ : Z) (count : nat)
    : Result (Z * option (Key * Leaf)) :=
  match count with
  | O => Ok (end_, None)
  | Datatypes.S count' =>
      c ← codec_cell page header end_;
      item ← read_leaf c;
      included ← include item;
      if negb included then key ← read_key c 0; Ok (end_, Some (key, item))
      else run_end include page header (end_ + 1) count'
  end.

Definition remove_leaf_run (key : Key) (include : Leaf -> Result bool) : tio RemovedRun :=
  _ ← modify (fun t => mkTree (tr_store t) (tr_root t) retired_new);
  leaf ← private_path key;
  retired ← gets tr_retired;
  _ ← fail_if (negb (bool_decide (retired = []))) (Corrupt "private B+tree run retired a page");
  let '(index, found) := pv_selection leaf in
  _ ← fail_if (negb found) (Corrupt "B+tree run start key is missing");
  let header := pv_header leaf in
  '(end_, following) ← on_store (inspect_page (pv_page_number leaf) (fun page =>
     run_end include page header index (Z.to_nat (h_item_count header - index))));
  if end_ =? index then mret (mkRemovedRun 0 following)
  else
    following ← (match following with
                 | Some following => mret (Some following)
                 | None => adjacent_leaf (pv_path leaf) After
                 end);
    let removed := end_ - index in
    _ ← (if removed =? h_item_count header then
           _ ← on_store (discard_private (pv_page_number leaf));
           remove_empty_child (pv_path leaf)
         else
           cell_len ← lift (ok_or (fixed_cell_size 0) (Unsupported "B+tree run removal requires fixed leaf cells"));
           _ ← on_store (update_page (pv_page_number leaf) (put (fun page =>
                 '(page, _) ← remove_fixed_range page header index removed cell_len; Ok page)));
           if index =? 0 then
             first ← first_key (pv_page_number leaf) 0;
             propagate_first_from (pv_path leaf) first
           else mret tt);
    mret (mkRemovedRun removed following).

(** ** One field of a record *)

Inductive LeafU64Mutation := ReplaceU64 (value : Z) | DeleteLeaf.

(** [ExistingLeafSelector]: the record's place on the page with its value. *)
Definition existing_leaf (key : Key) : LeafSelector (Z * Z * Z * Leaf) := fun page header _ =>
  '(index, exact) ← lower_bound page header key true;
  if negb exact then Err (Corrupt "B+tree update key is missing")
  else
    r ← cell page header index LEAF_SIZE;
    value ← read_leaf (br_bytes r);
    Ok (index, br_at r, br_len r, value).

Definition mutate_leaf_u64 (key : Key) (field_offset : Z) (decide_ : Leaf -> Result LeafU64Mutation) : tio Leaf :=
  leaf ← private_path_select key (existing_leaf key);
  let '(index, offset, len, value) := pv_selection leaf in
  decision ← lift (decide_ value);
  _ ← (match decision with
       | ReplaceU64 replacement =>
           on_store (update_page (pv_page_number leaf) (put (fun page =>
             if match checked_add usize_max field_offset 8 with Some end_ => len <? end_ | None => true end
             then Err (Corrupt "B+tree update field is outside its leaf")
             else put_u64 page (offset + field_offset) replacement)))
       | DeleteLeaf => delete_target (mkLeafTarget (pv_path leaf) (pv_page_number leaf) (pv_header leaf) index true)
       end);
  mret value.
End Mutation.

(** ** [insert_retiring] and [delete_retiring] *)

Section Retiring.
Context {Key Leaf : Type} `{Codec Key Leaf} {S : Type} `{RetiringStore S}.

(** [let mut retired = RetiredPages::new()]. *)
Definition fresh_retired : io (Tree S) unit := modify (fun t => mkTree (tr_store t) (tr_root t) retired_new).
Definition retire_collected : io (Tree S) unit :=
  retired ← gets tr_retired;
  on_store (retire_pages retired).

Definition insert_retiring (record : list Z) : io (Tree S) bool :=
  _ ← fresh_retired;
  inserted ← tree_insert record;
  _ ← retire_collected;
  mret inserted.

Definition delete_retiring (key : Key) : io (Tree S) unit :=
  _ ← fresh_retired;
  _ ← delete_existing key;
  retire_collected.
End Retiring.

(** ** Releasing a whole tree

    [fixed_tree/walk.rs]: a detached tree is walked in postorder with a stack of
    one frame per level, and every page is handed to [release] after the pages
    below it. *)

Definition MAX_WALK : Z := MAX_TREE_LEVEL.

Record WFrame := mkWFrame { wf_page_number : Z; wf_next_child : Z; wf_child_count : Z; wf_level : Z }.

(** [stack[..depth]], the deepest frame first. *)
Record Walker := mkWalker { wk_stack : list WFrame; wk_current : Z; wk_expected_level : option Z }.
Definition walker_new (root : Z) : Walker := mkWalker [] root None.

Section Walk.
Context {Key Leaf : Type} `{Codec Key Leaf} {S : Type} `{Store S}.
Context (release : Z -> io S unit).
(** What the poll of cancellation answers with so many visits to go. *)
Context (checkpoint : nat -> Result unit).

Definition wio (A : Type) : Type := io (Walker * S) A.
Definition on_walked {A} (m : io S A) : wio A := zoom snd (fun s w => (fst w, s)) m.
Definition set_walker (w : Walker) : wio unit := modify (fun x => (w, snd x)).
Definition look_walked {A} (page_number : Z) (f : Z -> Z -> list Z -> Result A) : wio A :=
  txn ← gets (fun x => target_txn (snd x));
  limit ← gets (fun x => page_limit (snd x));
  on_walked (inspect_page page_number (f txn limit)).

(** The loop of [advance] drops frames until one has a child left. *)
Fixpoint advance_walker (current : Z) (expected : option Z) (stack : list WFrame) : wio bool :=
  match stack with
  | [] => _ ← set_walker (mkWalker [] current expected); mret false
  | frame :: rest =>
      if wf_next_child frame <? wf_child_count frame then
        child ← look_walked (wf_page_number frame) (fun txn limit page =>
          header ← tree_parse page txn (Some (wf_level frame));
          if negb (h_item_count header =? wf_child_count frame) then Err (Corrupt "B+tree changed during postorder release")
          else branch_child page header (wf_next_child frame) limit);
        _ ← set_walker (mkWalker (mkWFrame (wf_page_number frame) (wf_next_child frame + 1) (wf_child_count frame) (wf_level frame) :: rest)
                          child (Some (wf_level frame - 1)));
        mret true
      else
        _ ← on_walked (release (wf_page_number frame));
        advance_walker current expected rest
  end.

Definition visit : wio bool := fun x =>
  let w := fst x in
  ('(header, first_child) ← look_walked (wk_current w) (fun txn limit page =>
     header ← tree_parse page txn (wk_expected_level w);
     child ← (if h_level header =? 0 then Ok None else child ← branch_child page header 0 limit; Ok (Some child));
     Ok (header, child));
   match first_child with
   | Some child =>
       _ ← fail_if (MAX_WALK <=? zlen (wk_stack w)) (Corrupt "B+tree exceeds its maximum height");
       _ ← set_walker (mkWalker (mkWFrame (wk_current w) 1 (h_item_count header) (h_level header) :: wk_stack w)
                         child (Some (h_level header - 1)));
       mret false
   | None =>
       _ ← on_walked (release (wk_current w));
       advanced ← advance_walker (wk_current w) (wk_expected_level w) (wk_stack w);
       mret (negb advanced)
   end) x.

(** [loop], for [rounds] visits. *)
Fixpoint walk_run (rounds : nat) : wio unit :=
  match rounds with
  | O => lift (Panic "more visits than pages")
  | Datatypes.S rounds' =>
      _ ← lift (checkpoint rounds');
      done_ ← visit;
      if done_ : bool then mret tt else walk_run rounds'
  end.

Definition walk (rounds : nat) (root : Z) : io S unit := fun s =>
  if root =? 0 then (s, Ok tt)
  else let '(x, r) := walk_run rounds (walker_new root, s) in (snd x, r).
End Walk.

(** [discard_private_tree] and [retire_tree]. *)
Definition discard_private_tree {Key Leaf} `{Codec Key Leaf} {S} `{Store S} (checkpoint : nat -> Result unit) (rounds : nat) (root : Z) : io S unit :=
  walk discard_private checkpoint rounds root.
Definition retire_tree {Key Leaf} `{Codec Key Leaf} {S} `{RetiringStore S} (checkpoint : nat -> Result unit) (rounds : nat) (root : Z) : io S unit :=
  walk (fun page => retire_pages [page]) checkpoint rounds root.
