(* ===== verification/TreeGap.v ===== *)
(** * Insertion into a gap of a private tree

    [fixed_tree/gap.rs]: a record that the caller's [LocalGap] finds to lie in a
    gap between its neighbours on one leaf is inserted in the same descent; a
    position on the edge of a tree is kept from one insertion to the next.  A
    rejected insertion returns what it has found. *)

From stdpp Require Import base tactics numbers list strings.
From Stdlib Require Import ZArith Lia.
From S2P Require Import Prelude Errors Bytes PageHeader SlottedPage Codec TreeInterface Machine Draft Store TreePage TreeQuery TreeCursor TreeMutation.

#[local] Open Scope string_scope.
#[local] Open Scope list_scope.
#[local] Open Scope Z_scope.

Inductive CachedInsert := CachedInserted | CachedMiss.

Inductive Edge := EdgeFirst | EdgeLast.
#[global] Instance Edge_eq_dec : EqDecision Edge.
Proof. solve_decision. Defined.

Record PrivatePosition := mkPrivatePosition { pp_path : Path; pp_page_number : Z }.

Record PrivateEdge (K : Type) := mkPrivateEdge {
  pe_position : PrivatePosition;
  pe_direction : option Edge;
  pe_pending_first : option K;
}.
Arguments mkPrivateEdge {K}.
Arguments pe_position {K} p.
Arguments pe_direction {K} p.
Arguments pe_pending_first {K} p.

Definition edge_consistent {K} (position : PrivatePosition) : PrivateEdge K := mkPrivateEdge position None None.
Definition root_edge {K} (page_number : Z) : PrivateEdge K := edge_consistent (mkPrivatePosition [] page_number).

(** The neighbours found with their places on the leaf, and whether each side
    was looked at. *)
Record LocalReject (R : Type) := mkLocalReject {
  lr_target : LeafTarget;
  lr_predecessor : option (Z * R);
  lr_successor : option (Z * R);
  lr_predecessor_complete : bool;
  lr_successor_complete : bool;
}.
Arguments mkLocalReject {R}.
Arguments lr_target {R} l.
Arguments lr_predecessor {R} l.
Arguments lr_successor {R} l.
Arguments lr_predecessor_complete {R} l.
Arguments lr_successor_complete {R} l.

Definition reject_predecessor {R} (r : LocalReject R) : option R := snd <$> lr_predecessor r.
Definition reject_successor {R} (r : LocalReject R) : option R := snd <$> lr_successor r.
Definition into_position {R} (r : LocalReject R) : PrivatePosition :=
  mkPrivatePosition (lt_path (lr_target r)) (lt_page_number (lr_target r)).

Inductive EdgeInsert (K R : Type) :=
| EdgeInserted (edge : PrivateEdge K)
| EdgeGeneral (rejected : LocalReject R).
Arguments EdgeInserted {K R}.
Arguments EdgeGeneral {K R}.

Inductive GapDecision (R : Type) :=
| GapGeneral (index : Z) (predecessor successor : option (Z * R)) (predecessor_complete successor_complete : bool)
| GapInsert (index : Z) (fits : bool).
Arguments GapGeneral {R}.
Arguments GapInsert {R}.

Inductive LocalRun := RunPredecessor | RunSuccessor | RunBoth.

Section Gap.
Context {Key Leaf : Type} `{Codec Key Leaf} {S : Type} `{Store S} {R : Type}.

(** ** What the leaf says *)

Definition validated_leaf (page : list Z) (header : Header) (index : Z) : Result (list Z) :=
  c ← codec_cell page header index;
  _ ← validate_leaf c;
  Ok c.

Definition select_predecessor (gap : LocalGap R) (page : list Z) (header : Header) (path : Path) (index : Z) (exists_ : bool)
    : Result (option (Z * R) * bool) :=
  if exists_ then
    c ← validated_leaf page header index;
    rejected ← gap_previous gap true (Some c);
    match rejected with
    | Some predecessor => Ok (Some (index, predecessor), true)
    | None => Err (Corrupt "exact B+tree key was accepted as a gap")
    end
  else if 0 <? index then
    c ← validated_leaf page header (index - 1);
    rejected ← gap_previous gap false (Some c);
    Ok (match rejected with Some predecessor => Some (index - 1, predecessor) | None => None end, true)
  else if forallb (fun frame => tf_index frame =? 0) path then
    rejected ← gap_previous gap false None;
    match rejected with
    | None => Ok (None, true)
    | Some _ => Err (Corrupt "absent B+tree predecessor was rejected")
    end
  else Ok (None, false).

Definition select_successor (gap : LocalGap R) (page : list Z) (header : Header) (path : Path) (index : Z) (exists_ : bool)
    : Result (option (Z * R) * bool) :=
  let successor_index := index + (if exists_ then 1 else 0) in
  if successor_index <? h_item_count header then
    c ← validated_leaf page header successor_index;
    rejected ← gap_next gap (Some c);
    Ok (match rejected with Some successor => Some (successor_index, successor) | None => None end, true)
  else if forallb (fun frame => tf_index frame + 1 =? tf_item_count frame) path then
    rejected ← gap_next gap None;
    match rejected with
    | None => Ok (None, true)
    | Some _ => Err (Corrupt "absent B+tree successor was rejected")
    end
  else Ok (None, false).

Definition select_at (gap : LocalGap R) (cell_len : Z) (page : list Z) (header : Header) (path : Path) (index : Z) (exists_ : bool)
    : Result (GapDecision R) :=
  '(predecessor, predecessor_complete) ← select_predecessor gap page header path index exists_;
  '(successor, successor_complete) ← select_successor gap page header path index exists_;
  if bool_decide (is_Some predecessor) || bool_decide (is_Some successor) || negb predecessor_complete || negb successor_complete
  then Ok (GapGeneral index predecessor successor predecessor_complete successor_complete)
  else Ok (GapInsert index (insert_fits header cell_len)).

(** [GapSelector]. *)
Definition gap_selector (gap : LocalGap R) (key : Key) (cell_len : Z) : LeafSelector (GapDecision R) := fun page header path =>
  '(index, exists_) ← lower_bound page header key true;
  select_at gap cell_len page header path index exists_.

Definition rejection (path : Path) (page_number : Z) (header : Header) (decision : GapDecision R) : Result (LocalReject R) :=
  match decision with
  | GapGeneral index predecessor successor predecessor_complete successor_complete =>
      Ok (mkLocalReject (mkLeafTarget path page_number header index false) predecessor successor predecessor_complete successor_complete)
  | GapInsert _ _ => Err (Corrupt "accepted B+tree gap became a rejection")
  end.

(** ** Inserting *)

(** [apply_leaf_edit]. *)
Definition apply_leaf_edit (page_number : Z) (header : Header) (e : Edit) : tio unit :=
  on_store (update_page page_number (put (apply_edit header e))).

Definition insert_gap_target (c : list Z) (target : LeafTarget) (key : Key) (fits : bool) : tio (option PrivatePosition) :=
  if fits then
    _ ← apply_leaf_edit (lt_page_number target) (lt_header target) (mkEdit (lt_index target) false c);
    _ ← (if lt_index target =? 0 then propagate_first_from (lt_path target) key else mret tt);
    mret (Some (mkPrivatePosition (lt_path target) (lt_page_number target)))
  else
    _ ← edit_leaf c target;
    mret None.

Definition insert_if_local_gap (c : list Z) (gap : LocalGap R) : tio (LocalInsert (LocalReject R)) :=
  _ ← lift (require_leaf c);
  root ← gets tr_root;
  if root =? 0 then
    page_number ← new_leaf c;
    _ ← set_root page_number;
    mret (Inserted page_number)
  else
    key ← lift (read_key c 0);
    leaf ← private_path_select key (gap_selector gap key (zlen c));
    retired ← gets tr_retired;
    _ ← fail_if (negb (bool_decide (retired = []))) (Corrupt "private B+tree contains a committed page");
    match pv_selection leaf with
    | GapInsert index fits =>
        let target := mkLeafTarget (pv_path leaf) (pv_page_number leaf) (pv_header leaf) index false in
        positioned ← insert_gap_target c target key fits;
        mret (Inserted (match positioned with Some position => pp_page_number position | None => pv_page_number leaf end))
    | decision =>
        rejected ← lift (rejection (pv_path leaf) (pv_page_number leaf) (pv_header leaf) decision);
        mret (General rejected)
    end.

Definition insert_if_cached_interior_gap (page_number : Z) (c : list Z) (gap : LocalGap R) : tio CachedInsert :=
  _ ← lift (require_leaf c);
  key ← lift (read_key c 0);
  selected ← look page_number (fun txn _ page =>
    header ← tree_parse page txn (Some 0);
    born ← born_txn page;
    if negb (born =? txn) then Err (Corrupt "leaf locator selected a committed page")
    else
      '(index, exists_) ← lower_bound page header key true;
      if exists_ || (index =? 0) || (index =? h_item_count header) then Ok None
      else
        decision ← select_at gap (zlen c) page header [] index false;
        match decision with
        | GapInsert _ true => Ok (Some (header, index))
        | _ => Ok None
        end);
  match selected with
  | None => mret CachedMiss
  | Some (header, index) =>
      _ ← apply_leaf_edit page_number header (mkEdit index false c);
      mret CachedInserted
  end.

Definition insert_rejected_gap (c : list Z) (rejected : LocalReject R) : tio (option PrivatePosition) :=
  _ ← lift (require_leaf c);
  key ← lift (read_key c 0);
  let target := lr_target rejected in
  insert_gap_target c target key (insert_fits (lt_header target) (zlen c)).

(** ** The edge of a tree *)

Definition flush_edge (edge : PrivateEdge Key) : tio (PrivateEdge Key) :=
  match pe_pending_first edge with
  | Some key =>
      _ ← propagate_first_from (pp_path (pe_position edge)) key;
      mret (mkPrivateEdge (pe_position edge) (pe_direction edge) None)
  | None => mret edge
  end.

Definition path_is_edge (path : Path) (edge : Edge) : bool :=
  forallb (fun frame => match edge with
                        | EdgeFirst => tf_index frame =? 0
                        | EdgeLast => tf_index frame + 1 =? tf_item_count frame
                        end) path.

Definition verify_cached_edge (cached : PrivateEdge Key) (root : Z) (edge : Edge) : Result (PrivateEdge Key) :=
  match pe_direction cached with
  | Some direction => if bool_decide (direction <> edge) then Err (Corrupt "cached B+tree edge direction changed") else Ok cached
  | None =>
      let position := pe_position cached in
      if negb (path_is_edge (pp_path position) edge) || (bool_decide (pp_path position = []) && negb (pp_page_number position =? root))
      then Err (Corrupt "cached B+tree position is not its claimed edge")
      else Ok (mkPrivateEdge position (Some edge) (pe_pending_first cached))
  end.

Definition apply_fitting_edge_insert (target : LeafTarget) (c : list Z) : tio PrivatePosition :=
  _ ← apply_leaf_edit (lt_page_number target) (lt_header target) (mkEdit (lt_index target) false c);
  mret (mkPrivatePosition (lt_path target) (lt_page_number target)).

(** [split_leaf_at_edge] and [locate_private_position] of [insert.rs]. *)
Definition split_leaf_at_edge (target : LeafTarget) (c : list Z) (edge : Edge) : tio unit :=
  let count := h_item_count (lt_header target) in
  let e := mkEdit (match edge with EdgeFirst => 0 | EdgeLast => count end) false c in
  split_leaf_at target e (match edge with EdgeFirst => 1 | EdgeLast => count end) (count + 1).

Definition locate_private_position (key : Key) : tio PrivatePosition := fun t =>
  let '(t', r) := (leaf ← private_path key;
                   retired ← gets tr_retired;
                   _ ← fail_if (negb (bool_decide (retired = []))) (Corrupt "private B+tree position retired a page");
                   mret (mkPrivatePosition (pv_path leaf) (pv_page_number leaf))) (mkTree (tr_store t) (tr_root t) retired_new) in
  (mkTree (tr_store t') (tr_root t') (tr_retired t), r).

(** Where a key belongs on the edge leaf. *)
Definition edge_place (edge : Edge) (key boundary_key : Key) (count : Z) : Result (Z * bool) :=
  match edge with
  | EdgeFirst => if codec_ltb key boundary_key then Ok (0, false)
                 else if codec_eqb key boundary_key then Ok (0, true)
                 else Err (Corrupt "cached B+tree edge order changed")
  | EdgeLast => if codec_ltb boundary_key key then Ok (count, false)
                else if codec_eqb key boundary_key then Ok (count - 1, true)
                else Err (Corrupt "cached B+tree edge order changed")
  end.

Definition edge_decision (cached : PrivateEdge Key) (edge : Edge) (known_gap : bool) (gap : LocalGap R) (key : Key) (cell_len : Z)
    (txn : Z) (page : list Z) : Result (Header * GapDecision R) :=
  header ← tree_parse page txn (Some 0);
  born ← born_txn page;
  if negb (born =? txn) then Err (Corrupt "cached B+tree edge is not private")
  else
    let boundary := match edge with EdgeFirst => 0 | EdgeLast => h_item_count header - 1 end in
    boundary_key ← key_at page header boundary;
    '(index, exists_) ← edge_place edge key boundary_key (h_item_count header);
    decision ← (if known_gap then
                  if exists_ : bool then Err (Corrupt "known B+tree edge gap contains its key")
                  else Ok (GapInsert index (insert_fits header cell_len))
                else select_at gap cell_len page header (pp_path (pe_position cached)) index exists_);
    Ok (header, decision).

Definition insert_if_edge_gap (c : list Z) (cached : PrivateEdge Key) (edge : Edge) (known_gap : bool) (gap : LocalGap R)
    : tio (EdgeInsert Key R) :=
  _ ← lift (require_leaf c);
  root ← gets tr_root;
  _ ← fail_if (root =? 0) (Corrupt "cached B+tree edge has an empty root");
  cached ← lift (verify_cached_edge cached root edge);
  key ← lift (read_key c 0);
  '(header, decision) ← look (pp_page_number (pe_position cached)) (fun txn _ page =>
    edge_decision cached edge known_gap gap key (zlen c) txn page);
  match decision with
  | GapInsert index fits =>
      let target := mkLeafTarget (pp_path (pe_position cached)) (pp_page_number (pe_position cached)) header index false in
      if fits : bool then
        position ← apply_fitting_edge_insert target c;
        let pending := if index =? 0
                       then (if bool_decide (lt_path target <> []) then Some key else None)
                       else pe_pending_first cached in
        mret (EdgeInserted (mkPrivateEdge position (pe_direction cached) pending))
      else
        _ ← split_leaf_at_edge target c edge;
        position ← locate_private_position key;
        mret (EdgeInserted (mkPrivateEdge position (pe_direction cached) None))
  | decision =>
      cached ← flush_edge cached;
      rejected ← lift (rejection (pp_path (pe_position cached)) (pp_page_number (pe_position cached)) header decision);
      mret (EdgeGeneral rejected)
  end.

(** ** Replacing what was rejected *)

Definition external_predecessor (rejected : LocalReject R) : tio (option Leaf) :=
  found ← adjacent_leaf (lt_path (lr_target rejected)) Before;
  mret (snd <$> found).
Definition external_successor (rejected : LocalReject R) : tio (option Leaf) :=
  found ← adjacent_leaf (lt_path (lr_target rejected)) After;
  mret (snd <$> found).

Definition replace_local_predecessor_with (rejected : LocalReject R) (key : Key) (cells : list (list Z)) : tio unit :=
  _ ← lift (require_replacement key cells);
  '(index, _) ← lift (ok_or (lr_predecessor rejected) (Corrupt "B+tree local predecessor is unavailable"));
  let target := lr_target rejected in
  replace_target (mkLeafTarget (lt_path target) (lt_page_number target) (lt_header target) index true) cells.

Definition local_run (rejected : LocalReject R) (run_ : LocalRun) : Result (Z * Z) :=
  match run_ with
  | RunPredecessor => '(start, _) ← ok_or (lr_predecessor rejected) (Corrupt "local predecessor is unavailable"); Ok (start, 1)
  | RunSuccessor => '(start, _) ← ok_or (lr_successor rejected) (Corrupt "local successor is unavailable"); Ok (start, 1)
  | RunBoth =>
      '(predecessor, _) ← ok_or (lr_predecessor rejected) (Corrupt "local predecessor is unavailable");
      '(successor, _) ← ok_or (lr_successor rejected) (Corrupt "local successor is unavailable");
      if negb (successor =? predecessor + 1) then Err (Corrupt "local B+tree run is not contiguous") else Ok (predecessor, 2)
  end.

(** [for _ in 1..remove_count]. *)
Fixpoint remove_rest (count : nat) (header : Header) (index : Z) : io (list Z) unit :=
  match count with
  | O => mret tt
  | Datatypes.S count' =>
      old ← peek (fun page => codec_cell page header index);
      _ ← put (fun page => remove page header index (zlen old));
      remove_rest count' (mkHeader (h_item_count header - 1) (h_level header) (h_lower header - 2) (h_upper header + zlen old)) index
  end.

Definition replace_run (header : Header) (start remove_count : Z) (replacement : list Z) (replacement_key : Key) : io (list Z) unit :=
  old ← peek (fun page => codec_cell page header start);
  _ ← fail_if (negb (zlen replacement =? zlen old)) (Unsupported "local B+tree run replacement changed cell size");
  _ ← (if 0 <? start then
         before ← peek (fun page => key_at page header (start - 1));
         fail_if (negb (codec_ltb before replacement_key)) (Corrupt "local B+tree replacement is out of order")
       else mret tt);
  _ ← (if start + remove_count <? h_item_count header then
         after_ ← peek (fun page => key_at page header (start + remove_count));
         fail_if (negb (codec_ltb replacement_key after_)) (Corrupt "local B+tree replacement is out of order")
       else mret tt);
  _ ← put (fun page => must_fit (replace page header start (zlen old) replacement) (Corrupt "local B+tree replacement no longer fits"));
  remove_rest (Z.to_nat (remove_count - 1)) header (start + 1).

Definition replace_local_run (rejected : LocalReject R) (run_ : LocalRun) (replacement : list Z) : tio unit :=
  _ ← lift (require_leaf replacement);
  '(start, remove_count) ← lift (local_run rejected run_);
  let target := lr_target rejected in
  _ ← fail_if (h_item_count (lt_header target) <? start + remove_count) (Corrupt "local B+tree run is outside its leaf");
  replacement_key ← lift (read_key replacement 0);
  _ ← on_store (update_page (lt_page_number target) (replace_run (lt_header target) start remove_count replacement replacement_key));
  if start =? 0 then propagate_first_from (lt_path target) replacement_key else mret tt.
End Gap.
