(* ===== verification/Retirement.v ===== *)
(** * Retired pages

    [retirement.rs]: the pages a transaction removes from the committed roots
    are kept in a tree of extents, ordered by the transaction that retired them,
    until no reader can need them.  [add_page] joins a page to its neighbours;
    [select_reclamation] chooses the oldest transactions whose pages can be
    freed. *)

From stdpp Require Import base tactics numbers list strings.
From Stdlib Require Import ZArith Lia.
From S2P Require Import Prelude Errors Bytes Codec Machine Draft Store TreePage TreeQuery TreeCursor TreeMutation.

#[local] Open Scope string_scope.
#[local] Open Scope list_scope.
#[local] Open Scope Z_scope.

Definition RETIREMENT_BRANCH : Z := 16.
Definition RETIREMENT_LEAF : Z := 17.
Definition RETIREMENT_KEY_SIZE : Z := 12.
Definition RETIREMENT_CELL_SIZE : Z := 16.
Definition TXN_OFFSET : Z := 0.
Definition FIRST_OFFSET : Z := 8.
Definition COUNT_OFFSET : Z := 12.

(** [Key], ordered by transaction and first page. *)
Record RKey := mkRKey { rk_txn : Z; rk_first : Z }.
Record Extent := mkExtent { ex_key : RKey; ex_count : Z }.
#[global] Instance RKey_eq_dec : EqDecision RKey.
Proof. solve_decision. Defined.
#[global] Instance Extent_eq_dec : EqDecision Extent.
Proof. solve_decision. Defined.
Definition ex_txn (e : Extent) : Z := rk_txn (ex_key e).
Definition ex_first (e : Extent) : Z := rk_first (ex_key e).
Definition ex_end (e : Extent) : Z := ex_first e + ex_count e.

Definition rkey_ltb (a b : RKey) : bool :=
  (rk_txn a <? rk_txn b) || ((rk_txn a =? rk_txn b) && (rk_first a <? rk_first b)).
Definition rkey_eqb (a b : RKey) : bool := (rk_txn a =? rk_txn b) && (rk_first a =? rk_first b).

Record Reclamation := mkReclamation { rc_transactions : Z; rc_pages : Z; rc_through_txn : Z }.

Inductive Neighbors :=
| Neither
| PreviousOnly (previous : Extent)
| NextOnly (next : Extent)
| BothSides (previous next : Extent).

Record Group := mkGroup { gr_txn : Z; gr_pages : Z; gr_next : option Extent }.

(** ** The codec *)

Definition decode_key_raw (cell : list Z) : Result (option RKey) :=
  if zlen cell <? RETIREMENT_KEY_SIZE then Ok None
  else
    txn ← u64_le cell TXN_OFFSET;
    first ← u32_le cell FIRST_OFFSET;
    Ok (Some (mkRKey txn first)).

Definition decode_raw (cell : list Z) : Result (option Extent) :=
  if negb (zlen cell =? RETIREMENT_CELL_SIZE) then Ok None
  else
    key ← decode_key_raw cell;
    match key with
    | None => Ok None
    | Some key => count ← u32_le cell COUNT_OFFSET; Ok (Some (mkExtent key count))
    end.

Definition decode_key (cell : list Z) : Result RKey :=
  key ← decode_key_raw cell; ok_or key (Corrupt "retirement key is truncated").
Definition decode_slice (cell : list Z) : Result Extent :=
  extent ← decode_raw cell; ok_or extent (Corrupt "retirement leaf has the wrong record size").

Definition retirement_read_leaf (cell : list Z) : Result Extent :=
  extent ← decode_slice cell;
  if (ex_txn extent <=? 1) || (ex_first extent <? 2) || (ex_count extent =? 0)
  then Err (Corrupt "retirement extent has invalid fields")
  else if 2 ^ 32 <? ex_end extent then Err (Corrupt "retirement extent endpoint overflow")
  else Ok extent.

(** The slices of [output] panic when it is too short. *)
Definition encode_key (key : RKey) (output : list Z) : Result (list Z) :=
  if zlen output <? COUNT_OFFSET then Panic "range end index out of range"
  else Ok (splice (splice output TXN_OFFSET (le_bytes 8 (rk_txn key))) FIRST_OFFSET (le_bytes 4 (rk_first key))).

#[global] Instance RetirementCodec : Codec RKey Extent := {
  BRANCH_TYPE := RETIREMENT_BRANCH;
  LEAF_TYPE := RETIREMENT_LEAF;
  AUX := 0;
  KEY_SIZE := RETIREMENT_KEY_SIZE;
  LEAF_SIZE := RETIREMENT_CELL_SIZE;
  MAX_BRANCH_SIZE := RETIREMENT_KEY_SIZE + 4;
  MAX_LEAF_SIZE := RETIREMENT_CELL_SIZE;
  codec_ltb := rkey_ltb;
  codec_eqb := rkey_eqb;
  read_key cell _ := decode_key cell;
  read_leaf := retirement_read_leaf;
  write_key := encode_key;
}.

(** [Encoded::new]. *)
Definition encoded_extent (extent : Extent) : Result (list Z) :=
  bytes ← encode_key (ex_key extent) (replicate (Z.to_nat RETIREMENT_CELL_SIZE) 0);
  Ok (splice bytes COUNT_OFFSET (le_bytes 4 (ex_count extent))).

(** ** Retiring a page *)

Section Retire.
Context {S : Type} `{Store S}.

(** The tree of extents, the pages its own changes retire, and
    [extent_count]. *)
Record Ledger := mkLedger { lg_tree : Tree S; lg_count : Z }.
Definition on_ledger {A} : io (Tree S) A -> io Ledger A :=
  zoom lg_tree (fun t l => mkLedger t (lg_count l)).
Definition set_count (n : Z) : io Ledger unit := modify (fun l => mkLedger (lg_tree l) n).

Definition rt_predecessor (source : S) (root : Z) (key : RKey) : Result (option Extent) := predecessor source root key.
Definition rt_at_or_after (source : S) (root : Z) (key : RKey) : Result (option Extent) := at_or_after source root key.

Definition rt_insert (extent : Extent) : io Ledger unit :=
  bytes ← lift (encoded_extent extent);
  inserted ← on_ledger (tree_insert bytes);
  if inserted : bool then
    count ← gets lg_count;
    count ← lift (ok_or (checked_add u64_max count 1) (ArithmeticOverflow "retirement extent count"));
    set_count count
  else mret tt.

(** The deletion collects its retired pages apart; they join the caller's
    when it has succeeded. *)
Definition delete_apart (key : RKey) : io (Tree S) unit := fun t =>
  let '(t', r) := delete_existing key (mkTree (tr_store t) (tr_root t) retired_new) in
  let kept := mkTree (tr_store t') (tr_root t') (tr_retired t) in
  match r with
  | Ok _ => zoom tr_retired (fun retired t => mkTree (tr_store t) (tr_root t) retired) (retired_extend (tr_retired t')) kept
  | Err e => (kept, Err e)
  | Panic p => (kept, Panic p)
  end.

Definition rt_remove (key : RKey) : io Ledger unit :=
  _ ← on_ledger (delete_apart key);
  count ← gets lg_count;
  count ← lift (ok_or (checked_sub count 1) (ArithmeticOverflow "retirement extent count"));
  set_count count.

Definition grow (count by_ : Z) : Result Z :=
  ok_or (checked_add u32_max count by_) (ArithmeticOverflow "retirement extent length").

Definition insert_single (key : RKey) : io Ledger unit := rt_insert (mkExtent key 1).

Definition extend_previous (previous : Extent) : io Ledger unit :=
  count ← lift (grow (ex_count previous) 1);
  rt_insert (mkExtent (ex_key previous) count).

Definition extend_next (key : RKey) (next : Extent) : io Ledger unit :=
  _ ← rt_remove (ex_key next);
  count ← lift (grow (ex_count next) 1);
  rt_insert (mkExtent key count).

Definition bridge (previous next : Extent) : io Ledger unit :=
  _ ← rt_remove (ex_key previous);
  _ ← rt_remove (ex_key next);
  count ← lift (grow (ex_count previous) 1);
  count ← lift (grow count (ex_count next));
  rt_insert (mkExtent (ex_key previous) count).

Definition classify_neighbors (key : RKey) (previous next : option Extent) : Result Neighbors :=
  let taken := match next with Some e => rkey_eqb (ex_key e) key | None => false end in
  let covered := match previous with Some e => (ex_txn e =? rk_txn key) && (rk_first key <? ex_end e) | None => false end in
  if taken || covered then Err (Corrupt "page is already retired")
  else
    let joins_previous := match previous with Some e => (ex_txn e =? rk_txn key) && (ex_end e =? rk_first key) | None => false end in
    let joins_next := match next with
                      | Some e => (ex_txn e =? rk_txn key) && bool_decide (checked_add u32_max (rk_first key) 1 = Some (ex_first e))
                      | None => false
                      end in
    match previous, next, joins_previous, joins_next with
    | _, _, false, false => Ok Neither
    | Some previous, _, true, false => Ok (PreviousOnly previous)
    | _, Some next, false, true => Ok (NextOnly next)
    | Some previous, Some next, true, true => Ok (BothSides previous next)
    | _, _, _, _ => Err (Corrupt "retirement neighbor classification failed")
    end.

(** [let mut retired = RetiredPages::new()], returned at the end. *)
Definition apply_page (key : RKey) (neighbors : Neighbors) : io Ledger RetiredPages :=
  _ ← on_ledger fresh_retired;
  _ ← match neighbors with
      | Neither => insert_single key
      | PreviousOnly previous => extend_previous previous
      | NextOnly next => extend_next key next
      | BothSides previous next => bridge previous next
      end;
  gets (fun l => tr_retired (lg_tree l)).

Definition add_page (txn page_number : Z) : io Ledger RetiredPages :=
  _ ← fail_if (txn <=? 1) (InvalidArgument "retirement transaction must be above creation");
  _ ← fail_if (page_number <? 2) (Corrupt "a meta page cannot be retired");
  let key := mkRKey txn page_number in
  tree ← gets lg_tree;
  previous ← lift (rt_predecessor (tr_store tree) (tr_root tree) key);
  next ← lift (rt_at_or_after (tr_store tree) (tr_root tree) key);
  neighbors ← lift (classify_neighbors key previous next);
  apply_page key neighbors.

Definition remove_extent (extent : Extent) : io Ledger RetiredPages :=
  _ ← on_ledger fresh_retired;
  _ ← rt_remove (ex_key extent);
  gets (fun l => tr_retired (lg_tree l)).

(** ** What can be reclaimed *)

Context (source : S) (root : Z).
(** What the poll of cancellation answers, with so many groups to go, at the
    start of a group and at each of its extents. *)
Context (checkpoint : nat -> nat -> Result unit).

Definition rt_first : Result (option Extent) := rt_at_or_after source root (mkRKey 0 0).

Definition rt_after (extent : Extent) : Result (option Extent) :=
  match checked_add u32_max (ex_first extent) 1 with
  | Some first => rt_at_or_after source root (mkRKey (ex_txn extent) first)
  | None => match checked_add u64_max (ex_txn extent) 1 with
            | Some txn => rt_at_or_after source root (mkRKey txn 0)
            | None => Ok None
            end
  end.

Definition rt_validate_selected (extent : Extent) (selected_txn : Z) : Result unit :=
  if (selected_txn <? ex_txn extent) || (page_limit source <? ex_end extent)
  then Err (Corrupt "retirement extent exceeds the selected generation")
  else Ok tt.

(** [loop]: the extents of a group lie one after the other below the page
    limit, so as many rounds as there are pages are enough. *)
Fixpoint scan_group_loop (groups rounds : nat) (txn selected_txn : Z) (extent : Extent) (pages : Z) : Result (Z * option Extent) :=
  match rounds with
  | O => Panic "more extents than pages"
  | Datatypes.S rounds' =>
      _ ← checkpoint groups rounds;
      _ ← rt_validate_selected extent selected_txn;
      pages ← ok_or (checked_add u64_max pages (ex_count extent)) (ArithmeticOverflow "reclaimed page count");
      next ← rt_after extent;
      match next with
      | None => Ok (pages, None)
      | Some candidate =>
          if negb (ex_txn candidate =? txn) then Ok (pages, Some candidate)
          else if ex_first candidate <=? ex_end extent
          then Err (Corrupt "retirement extents overlap or are not coalesced")
          else scan_group_loop groups rounds' txn selected_txn candidate pages
      end
  end.
Definition scan_group (groups : nat) (first_extent : Extent) (selected_txn : Z) : Result (Z * option Extent) :=
  scan_group_loop groups (Z.to_nat (page_limit source) + 1) (ex_txn first_extent) selected_txn first_extent 0.

Definition reader_safe (oldest_reader : option Z) (retired_by_txn : Z) : bool :=
  match oldest_reader with Some reader => retired_by_txn <=? reader | None => true end.

Definition safe_group (groups : nat) (extent : Extent) (selected_txn : Z) (oldest_reader : option Z) : Result (option Group) :=
  _ ← rt_validate_selected extent selected_txn;
  if negb (reader_safe oldest_reader (ex_txn extent)) then Ok None
  else
    '(pages, next) ← scan_group groups extent selected_txn;
    Ok (Some (mkGroup (ex_txn extent) pages next)).

Definition require_first_group_fit (selected : Reclamation) (group_pages max_pages : Z) : Result unit :=
  if (rc_transactions selected =? 0) && (max_pages <? group_pages) then Err (WorkLimitTooSmall group_pages) else Ok tt.

Definition require_work_limits (max_transactions max_pages : Z) : Result unit :=
  if (max_transactions =? 0) || (max_pages =? 0) then Err (InvalidArgument "reclamation work limits must be nonzero") else Ok tt.

(** [None] when the group does not fit.  The count stays below
    [max_transactions], a [u64]. *)
Definition append_group (selected : Reclamation) (txn group_pages max_pages : Z) : Result (option Reclamation) :=
  total ← ok_or (checked_add u64_max (rc_pages selected) group_pages) (ArithmeticOverflow "reclaimed page count");
  if max_pages <? total then Ok None
  else
    Ok (Some (mkReclamation (rc_transactions selected + 1) total txn)).

(** [while selected.transactions < max_transactions], for [rounds] groups. *)
Fixpoint select_loop (rounds : nat) (selected_txn : Z) (oldest_reader : option Z) (max_transactions max_pages : Z)
    (next : option Extent) (selected : Reclamation) : Result Reclamation :=
  if negb (rc_transactions selected <? max_transactions) then Ok selected
  else
    match rounds with
    | O => Panic "more groups than extents"
    | Datatypes.S rounds' =>
        _ ← checkpoint rounds 0%nat;
        match next with
        | None => Ok selected
        | Some extent =>
            group ← safe_group rounds extent selected_txn oldest_reader;
            match group with
            | None => Ok selected
            | Some group =>
                _ ← require_first_group_fit selected (gr_pages group) max_pages;
                appended ← append_group selected (gr_txn group) (gr_pages group) max_pages;
                match appended with
                | None => Ok selected
                | Some selected => select_loop rounds' selected_txn oldest_reader max_transactions max_pages (gr_next group) selected
                end
            end
        end
    end.

Definition select_reclamation (rounds : nat) (selected_txn : Z) (oldest_reader : option Z) (max_transactions max_pages : Z)
    : Result (option Reclamation) :=
  _ ← require_work_limits max_transactions max_pages;
  next ← rt_first;
  selected ← select_loop rounds selected_txn oldest_reader max_transactions max_pages next (mkReclamation 0 0 0);
  Ok (if negb (rc_transactions selected =? 0) then Some selected else None).
End Retire.
Arguments Ledger S : clear implicits.
