(* ===== verification/Concurrent.v ===== *)
(** * Programs of several processes

    The readers and the writer of a live database are separate processes (or
    separate handles of one process) that share two files.  A program is a
    tree of the calls it makes on what is shared; between any two calls the
    other processes may act.  The calls: byte-range locks on open file
    descriptions, loads and stores of words of the mapped reader table, and
    the points where a generation is selected, published or reclaimed.
    Everything else a program asks for (paths, identities, cancellation, the
    mapping of its own file) changes nothing another process can see, and may
    fail. *)

From stdpp Require Import base tactics numbers list strings countable gmap.
From Stdlib Require Import ZArith Lia.
From S2P Require Import Prelude Errors WriterCore Retirement.

#[local] Open Scope string_scope.
#[local] Open Scope list_scope.
#[local] Open Scope Z_scope.

(** [live_lock::Mode]. *)
Inductive Mode := ModeShared | ModeExclusive.
#[global] Instance Mode_eq_dec : EqDecision Mode.
Proof. solve_decision. Defined.

Inductive locked_file := MainFile | SideFile.
#[global] Instance locked_file_eq_dec : EqDecision locked_file.
Proof. solve_decision. Defined.
#[global] Instance locked_file_countable : Countable locked_file.
Proof.
  refine (inj_countable' (fun f => match f with MainFile => true | SideFile => false end) (fun b : bool => if b then MainFile else SideFile) _).
  by intros [].
Defined.

(** What is asked for without an effect others can see. *)
Inductive question :=
| Cancellation | LiveSupported | Owner | OpenMain | VerifyMain | VerifySidecar | VerifyHeader | MapMain | MainAvailable | OpenSidecar
| MappingGuard | SlotBytes (offset : Z) | FileLength | DatabaseId | Remap | OperationOwned | Edit | PrepareDraft | AttemptCommit
| UnchangedBase | DraftLength | DiscardUnpublished | TrimTail | PrepareClose | FinishClose.
Inductive query := DraftChanged | DraftInstalled | TailObserved.

Inductive action : Type -> Type :=
| Lock (f : locked_file) (offset : Z) (mode : Mode) : action (Result unit)
| TryLock (f : locked_file) (offset : Z) (mode : Mode) : action (Result bool)
| Unlock (f : locked_file) (offset : Z) : action (Result unit)
| Load (offset : Z) : action Z
| StoreWord (offset value : Z) : action unit
| Ask (q : question) : action (Result unit)
| Query (q : query) : action bool
(* the transaction of the generation an open or a writer selects *)
| Select : action (Result Z)
(* the reader is registered; it unmaps its generation *)
| Claimed (slot txn : Z) : action unit
| Unmap : action unit
(* the transactions up to the answer are reclaimed *)
| Reclaim (oldest : option Z) : action (Result (option Z))
| Publish : action PublishOutcome.

(** ** Programs *)

Inductive prog (A : Type) : Type :=
| Ret (a : A)
| Act {X : Type} (a : action X) (k : X -> prog A).
Arguments Ret {A} a.
Arguments Act {A X} a k.

Fixpoint bindp {A B} (m : prog A) (f : A -> prog B) : prog B :=
  match m with
  | Ret a => f a
  | Act a k => Act a (fun x => bindp (k x) f)
  end.

(** Fallible programs: [?] passes errors on. *)
Definition pr (A : Type) : Type := prog (Result A).
#[global] Instance pr_ret : MRet pr := fun A a => Ret (Ok a).
#[global] Instance pr_bind : MBind pr := fun A B f m =>
  bindp m (fun r => match r with Ok a => f a | Err e => Ret (Err e) | Panic t => Ret (Panic t) end).

Definition call {A} (a : action (Result A)) : pr A := Act a Ret.
Definition effect {A} (a : action A) : pr A := Act a (fun x => Ret (Ok x)).
Definition ask (q : question) : pr unit := call (Ask q).
Definition liftp {A} (r : Result A) : pr A := Ret r.
(** [let r = call();]: an error is a value, a panic unwinds. *)
Definition settle {A} (m : pr A) : pr (A + Error) :=
  bindp m (fun r => Ret (match r with Ok a => Ok (inl a) | Err e => Ok (inr e) | Panic t => Panic t end)).
Definition result_of {A} (r : A + Error) : Result A := match r with inl a => Ok a | inr e => Err e end.

(** ** What is shared *)

Inductive held := Exclusively (h : nat) | Together (hs : list nat).

Record Shared := mkShared {
  sh_locks : gmap (locked_file * Z) held;
  sh_words : gmap Z Z;
  sh_committed : Z;
  (* the newest transaction whose retired pages have been reclaimed *)
  sh_reclaimed : Z;
  (* the registered readers: their slots and generations *)
  sh_readers : gmap nat (Z * Z);
}.

Definition word (s : Shared) (offset : Z) : Z := default 0 (sh_words s !! offset).
Definition set_locks (locks : gmap (locked_file * Z) held) (s : Shared) : Shared :=
  mkShared locks (sh_words s) (sh_committed s) (sh_reclaimed s) (sh_readers s).
Definition set_words (words : gmap Z Z) (s : Shared) : Shared :=
  mkShared (sh_locks s) words (sh_committed s) (sh_reclaimed s) (sh_readers s).
Definition set_committed (txn : Z) (s : Shared) : Shared :=
  mkShared (sh_locks s) (sh_words s) txn (sh_reclaimed s) (sh_readers s).
Definition set_reclaimed (txn : Z) (s : Shared) : Shared :=
  mkShared (sh_locks s) (sh_words s) (sh_committed s) txn (sh_readers s).
Definition set_readers (readers : gmap nat (Z * Z)) (s : Shared) : Shared :=
  mkShared (sh_locks s) (sh_words s) (sh_committed s) (sh_reclaimed s) readers.

(** ** Locks of open file descriptions

    A description never conflicts with itself: locking again converts. *)

Definition grant (h : nat) (mode : Mode) (l : option held) : option held :=
  match mode, l with
  | ModeExclusive, None => Some (Exclusively h)
  | ModeExclusive, Some (Exclusively h') => if decide (h' = h) then Some (Exclusively h) else None
  | ModeExclusive, Some (Together hs) => if decide (filter (fun h' => h' <> h) hs = []) then Some (Exclusively h) else None
  | ModeShared, None => Some (Together [h])
  | ModeShared, Some (Exclusively h') => if decide (h' = h) then Some (Together [h]) else None
  | ModeShared, Some (Together hs) => Some (Together (h :: filter (fun h' => h' <> h) hs))
  end.
Definition release (h : nat) (l : held) : option held :=
  match l with
  | Exclusively h' => if decide (h' = h) then None else Some l
  | Together hs => match filter (fun h' => h' <> h) hs with [] => None | hs' => Some (Together hs') end
  end.
Definition locked (h : nat) (f : locked_file) (offset : Z) (mode : Mode) (s : Shared) : option Shared :=
  l ← grant h mode (sh_locks s !! (f, offset)); Some (set_locks (<[(f, offset) := l]> (sh_locks s)) s).
Definition unlocked (h : nat) (f : locked_file) (offset : Z) (s : Shared) : Shared :=
  set_locks (partial_alter (fun l => l ≫= release h) (f, offset) (sh_locks s)) s.

(** ** One call

    [perform h choice a s]: what a call of description [h] does when it
    succeeds; [None] when it has to wait.  [choice] stands for what the caller
    cannot foresee: the answer to a query, how a publication ends, how much is
    reclaimed. *)
Definition perform {X} (h : nat) (choice : Z) (a : action X) (s : Shared) : option (Shared * X) :=
  match a with
  | Lock f offset mode => s' ← locked h f offset mode s; Some (s', Ok tt)
  | TryLock f offset mode =>
      match locked h f offset mode s with Some s' => Some (s', Ok true) | None => Some (s, Ok false) end
  | Unlock f offset => Some (unlocked h f offset s, Ok tt)
  | Load offset => Some (s, word s offset)
  | StoreWord offset value => Some (set_words (<[offset := value]> (sh_words s)) s, tt)
  | Ask _ => Some (s, Ok tt)
  | Query _ => Some (s, negb (choice =? 0))
  | Select => Some (s, Ok (sh_committed s))
  | Claimed slot txn => Some (set_readers (<[h := (slot, txn)]> (sh_readers s)) s, tt)
  | Unmap => Some (set_readers (delete h (sh_readers s)) s, tt)
  | Reclaim oldest =>
      if choice =? 0 then Some (s, Ok None)
      else if reader_safe oldest choice && (choice <=? sh_committed s)
      then Some (set_reclaimed (Z.max (sh_reclaimed s) choice) s, Ok (Some choice))
      else None
  | Publish => Some (set_committed (sh_committed s + 1) s, CommittedPublish)
  end.

(** A call that fails, [late] or early. *)
Definition failure {X} (late : bool) (e : Error) (a : action X) : option X :=
  match a with
  | Lock _ _ _ => Some (Err e)
  | TryLock _ _ _ => Some (Err e)
  | Unlock _ _ => Some (Err e)
  | Ask _ => Some (Err e)
  | Select => Some (Err e)
  | Reclaim _ => Some (Err e)
  | Publish => Some (if late then OutcomeUnknown e else BeforePublication e)
  | _ => None
  end.
(** A late failure of these may have done the work. *)
Definition spoiled {X} (a : action X) : bool := match a with Reclaim _ | Publish => true | _ => false end.

Inductive steps {X} (h : nat) (a : action X) : Shared -> Shared -> X -> Prop :=
| step_done choice s s' x : perform h choice a s = Some (s', x) -> steps h a s s' x
| step_failed late e s x : failure late e a = Some x -> steps h a s s x
| step_spoiled choice e s s' y x : spoiled a = true -> perform h choice a s = Some (s', y) -> failure true e a = Some x -> steps h a s s' x.

(** ** Processes *)

(** A process that ends, or is killed, closes its files: its locks go with it. *)
Definition ended (h : nat) (s : Shared) : Shared :=
  set_readers (delete h (sh_readers s)) (set_locks (omap (release h) (sh_locks s)) s).

Definition pool := gmap nat (prog (Result unit)).
Inductive system_step (programs : prog (Result unit) -> Prop) : pool * Shared -> pool * Shared -> Prop :=
| process_starts h p (ps : pool) s : ps !! h = None -> sh_readers s !! h = None -> programs p ->
    system_step programs (ps, s) (<[h := p]> ps, s)
| process_calls h X (a : action X) k (ps : pool) s s' x : ps !! h = Some (Act a k) -> steps h a s s' x ->
    system_step programs (ps, s) (<[h := k x]> ps, s')
| process_ends h (ps : pool) s : system_step programs (ps, s) (delete h ps, ended h s).
