(* ===== verification/ReaderTable.v ===== *)
(** * The reader table

    [live_sidecar.rs] and [live_sidecar/slot.rs]: one slot of sixteen bytes
    for each live reader.  A reader owns its slot by an exclusive lock on the
    slot's first byte and writes its transaction there, with the complement
    after it; a slot nobody has locked is stale whatever it holds. *)

From stdpp Require Import base tactics numbers list strings gmap.
From Stdlib Require Import ZArith Lia.
From S2P Require Import Prelude Errors Bytes Concurrent.

#[local] Open Scope string_scope.
#[local] Open Scope list_scope.
#[local] Open Scope Z_scope.

Definition GATE_LOCK : Z := 0.
Definition WRITER_LOCK : Z := 1.
Definition MAIN_LIFETIME_LOCK : Z := 2 ^ 44.
Definition SLOT_SIZE : Z := 16.
Definition TRANSACTION_OFFSET : Z := 0.
Definition COMPLEMENT_OFFSET : Z := 8.

(** [!transaction]. *)
Definition complement (txn : Z) : Z := u64_max - txn.

(** ** A slot *)

Definition slot_write (slot transaction : Z) : pr unit :=
  _ ← effect (StoreWord (slot + TRANSACTION_OFFSET) transaction);
  effect (StoreWord (slot + COMPLEMENT_OFFSET) (complement transaction)).

Definition active_transaction (slot : Z) : pr Z :=
  transaction ← effect (Load (slot + TRANSACTION_OFFSET));
  if transaction =? 0 then liftp (Err (Corrupt "active reader slot is malformed"))
  else
    other ← effect (Load (slot + COMPLEMENT_OFFSET));
    if negb (other =? complement transaction) then liftp (Err (Corrupt "active reader slot is malformed"))
    else mret transaction.

Definition is_clear (slot : Z) : pr bool :=
  a ← effect (Load (slot + TRANSACTION_OFFSET));
  if negb (a =? 0) then mret false
  else
    b ← effect (Load (slot + COMPLEMENT_OFFSET));
    mret (b =? 0).

(** [fill(0)]. *)
Definition fill_slot (slot : Z) : pr unit :=
  _ ← effect (StoreWord (slot + TRANSACTION_OFFSET) 0);
  effect (StoreWord (slot + COMPLEMENT_OFFSET) 0).

Definition slot_offset (slot : Z) : Result Z :=
  bytes ← ok_or (checked_mul u64_max slot SLOT_SIZE) (Corrupt "reader slot offset overflows");
  ok_or (checked_add u64_max bytes PAGE_SIZE) (Corrupt "reader slot offset overflows").

Definition slot_offset_checked (slot capacity : Z) : Result Z :=
  if capacity <=? slot then Err (Corrupt "reader slot index is invalid") else slot_offset slot.

(** ** The table *)

(** [mapping_guard()?] with [as_ref().ok_or(..)?], then [bytes(..)?] or
    [bytes_mut(..)?]. *)
Definition table_bytes (offset : Z) : pr unit :=
  _ ← ask MappingGuard;
  ask (SlotBytes offset).

Definition lock_gate (mode : Mode) : pr unit := call (Lock SideFile GATE_LOCK mode).
(** The poll between two attempts is left out: waiting and polling are one. *)
Definition lock_gate_cancellable (mode : Mode) : pr unit :=
  _ ← ask Cancellation;
  call (Lock SideFile GATE_LOCK mode).
Definition unlock_gate : pr unit := call (Unlock SideFile GATE_LOCK).

Definition claim_writer : pr unit :=
  claimed ← call (TryLock SideFile WRITER_LOCK ModeExclusive);
  if claimed : bool then mret tt else liftp (Err WriterBusy).
Definition release_writer : pr unit := call (Unlock SideFile WRITER_LOCK).

Definition check (cancellation : bool) : pr unit := if cancellation then ask Cancellation else mret tt.

Definition write_claim (offset txn : Z) : pr unit :=
  _ ← table_bytes offset;
  slot_write offset txn.

Definition unlock_after (offset : Z) (cause : Error) : pr Z :=
  released ← settle (call (Unlock SideFile offset));
  error ← liftp (combine_errors cause (result_of released));
  liftp (Err error).

(** [for slot in 0..self.header.capacity]. *)
Fixpoint claim_loop (count : nat) (slot txn : Z) (cancellation : bool) : pr Z :=
  match count with
  | O => liftp (Err ReaderCapacityExhausted)
  | S count' =>
      _ ← check cancellation;
      offset ← liftp (slot_offset slot);
      free ← call (TryLock SideFile offset ModeExclusive);
      if negb free then claim_loop count' (slot + 1) txn cancellation
      else
        polled ← settle (check cancellation);
        match polled with
        | inr cause => unlock_after offset cause
        | inl _ =>
            written ← settle (write_claim offset txn);
            match written with
            | inr cause => unlock_after offset cause
            | inl _ =>
                _ ← effect (Claimed slot txn);
                mret slot
            end
        end
  end.
Definition claim_reader_inner (capacity txn : Z) (cancellation : bool) : pr Z :=
  if txn =? 0 then liftp (Err (Corrupt "reader transaction cannot be zero"))
  else claim_loop (Z.to_nat capacity) 0 txn cancellation.
Definition claim_reader_cancellable (capacity txn : Z) : pr Z := claim_reader_inner capacity txn true.

Definition clear_reader (capacity slot : Z) : pr unit :=
  offset ← liftp (slot_offset_checked slot capacity);
  _ ← table_bytes offset;
  fill_slot offset.

Definition unlock_reader (capacity slot : Z) : pr unit :=
  offset ← liftp (slot_offset_checked slot capacity);
  call (Unlock SideFile offset).

Definition read_active_slot (offset : Z) : pr (option Z) :=
  _ ← table_bytes offset;
  txn ← active_transaction offset;
  mret (Some txn).

Definition verify_reader (capacity slot transaction : Z) : pr unit :=
  offset ← liftp (slot_offset_checked slot capacity);
  active ← read_active_slot offset;
  if negb (bool_decide (active = Some transaction)) then liftp (Err (Corrupt "owned reader slot changed")) else mret tt.

Definition clear_stale_bytes (offset : Z) : pr unit :=
  _ ← table_bytes offset;
  clear ← is_clear offset;
  if negb clear then
    _ ← ask (SlotBytes offset);
    fill_slot offset
  else mret tt.
Definition clear_stale (offset : Z) : pr unit :=
  cleared ← settle (clear_stale_bytes offset);
  released ← settle (call (Unlock SideFile offset));
  liftp (finish_with_cleanup (result_of cleared) (result_of released)).

Definition scan_slot (slot : Z) : pr (option Z) :=
  offset ← liftp (slot_offset slot);
  stale ← call (TryLock SideFile offset ModeExclusive);
  if stale : bool then
    _ ← clear_stale offset;
    mret None
  else read_active_slot offset.

Definition inspect_slot (slot : Z) : pr (option Z) :=
  offset ← liftp (slot_offset slot);
  stale ← call (TryLock SideFile offset ModeExclusive);
  if stale : bool then
    _ ← call (Unlock SideFile offset);
    mret None
  else read_active_slot offset.

(** [observe] with what it has captured. *)
Fixpoint scan_loop {O} (count : nat) (slot : Z) (cancellation : bool) (observe : O -> Z -> Result O) (o : O) : pr O :=
  match count with
  | O => mret o
  | S count' =>
      _ ← check cancellation;
      found ← scan_slot slot;
      o ← match found with Some txn => liftp (observe o txn) | None => mret o end;
      scan_loop count' (slot + 1) cancellation observe o
  end.
Definition scan_readers_inner {O} (capacity : Z) (cancellation : bool) (observe : O -> Z -> Result O) (o : O) : pr O :=
  scan_loop (Z.to_nat capacity) 0 cancellation observe o.

Definition observe_oldest (committed_txn : Z) (oldest : option Z) (txn : Z) : Result (option Z) :=
  if committed_txn <? txn then Err (Corrupt "reader slot names an uncommitted transaction")
  else Ok (Some (match oldest with None => txn | Some current => Z.min current txn end)).

Definition oldest_reader_inner (capacity committed_txn : Z) (cancellation : bool) : pr (option Z) :=
  scan_readers_inner capacity cancellation (observe_oldest committed_txn) None.
Definition oldest_reader (capacity committed_txn : Z) : pr (option Z) := oldest_reader_inner capacity committed_txn false.
Definition oldest_reader_cancellable (capacity committed_txn : Z) : pr (option Z) := oldest_reader_inner capacity committed_txn true.

Definition scan_at_most (capacity committed_txn : Z) : pr unit :=
  _ ← oldest_reader capacity committed_txn;
  mret tt.
Definition scan_at_most_cancellable (capacity committed_txn : Z) : pr unit :=
  _ ← scan_readers_inner capacity true (observe_oldest committed_txn) None;
  mret tt.

Fixpoint inspect_loop (count : nat) (slot committed_txn : Z) (cancellation : bool) : pr unit :=
  match count with
  | O => mret tt
  | S count' =>
      _ ← check cancellation;
      found ← inspect_slot slot;
      if match found with Some txn => committed_txn <? txn | None => false end
      then liftp (Err (Corrupt "reader slot names an uncommitted transaction"))
      else inspect_loop count' (slot + 1) committed_txn cancellation
  end.
Definition inspect_at_most_cancellable (capacity committed_txn : Z) : pr unit :=
  inspect_loop (Z.to_nat capacity) 0 committed_txn true.
