(* ===== verification/LiveHandles.v ===== *)
(** * Live readers and the live writer

    [reader_core/live.rs], [live_writer.rs], [live_writer/commit.rs],
    [live_writer/reclaim.rs] and [live_writer/close.rs], as far as they
    coordinate: every call on the locks and on the reader table, in order, on
    every path.  What a writer does to its own draft is a question that may
    fail. *)

From stdpp Require Import base tactics numbers list strings gmap.
From Stdlib Require Import ZArith Lia.
From S2P Require Import Prelude Errors WriterCore Concurrent ReaderTable.

#[local] Open Scope string_scope.
#[local] Open Scope list_scope.
#[local] Open Scope Z_scope.

Section Handles.
Context (capacity : Z).

(** ** Readers *)

Inductive ReaderState :=
| ReaderOpen | CloseOnly | GateHeldSlotActive | GateHeldSlotClearing | GateHeldSlotCleared | GateHeldSlotReleased | MainLockOnly | ReaderClosed.
#[global] Instance ReaderState_eq_dec : EqDecision ReaderState.
Proof. solve_decision. Defined.

Record LiveReaderCore := mkReader { lr_txn : Z; lr_slot : Z; lr_state : ReaderState }.
Definition set_reader_state (st : ReaderState) (r : LiveReaderCore) : LiveReaderCore := mkReader (lr_txn r) (lr_slot r) st.

(** [closed], and [cause] of an incomplete close. *)
Record LiveReaderClose := mkReaderClose { rc_closed : bool; rc_cause : option Error }.
Definition reader_closed : LiveReaderClose := mkReaderClose true None.
Definition reader_close_incomplete (cause : Error) : LiveReaderClose := mkReaderClose false (Some cause).

Definition select_registered_generation : pr Z :=
  _ ← ask VerifyMain;
  _ ← ask VerifySidecar;
  _ ← ask FileLength;
  txn ← call Select;
  _ ← ask DatabaseId;
  _ ← scan_at_most_cancellable capacity txn;
  mret txn.

Definition register : pr (Z * Z) :=
  txn ← select_registered_generation;
  _ ← ask Remap;
  slot ← claim_reader_cancellable capacity txn;
  _ ← ask Cancellation;
  _ ← ask VerifyMain;
  _ ← ask VerifySidecar;
  mret (txn, slot).

Definition reader_open : pr LiveReaderCore :=
  _ ← ask LiveSupported;
  _ ← ask Cancellation;
  _ ← ask OpenMain;
  _ ← ask Cancellation;
  _ ← call (Lock MainFile MAIN_LIFETIME_LOCK ModeShared);
  _ ← ask VerifyMain;
  _ ← ask MapMain;
  _ ← ask MainAvailable;
  _ ← ask OpenSidecar;
  _ ← lock_gate_cancellable ModeExclusive;
  registration ← settle register;
  released ← settle unlock_gate;
  '(txn, slot) ← liftp (finish_with_cleanup (result_of registration) (result_of released));
  mret (mkReader txn slot ReaderOpen).

Definition verify_registration (r : LiveReaderCore) : pr unit :=
  _ ← ask VerifyMain;
  _ ← ask VerifySidecar;
  _ ← ask VerifyHeader;
  verify_reader capacity (lr_slot r) (lr_txn r).

(** A stage of [close]: the handle, and the answer when it stops here. *)
Definition stage : Type := LiveReaderCore -> pr (LiveReaderCore * option LiveReaderClose).
Definition stages (a b : stage) : stage := fun r =>
  '(r, stopped) ← a r;
  match stopped with Some c => mret (r, Some c) | None => b r end.

(** [if self.state == from { if let Err(cause) = call() { return .. } self.state = to }]. *)
Definition advance (from to : ReaderState) (m : LiveReaderCore -> pr unit) : stage := fun r =>
  if decide (lr_state r = from) then
    done ← settle (m r);
    match done with
    | inr cause => mret (r, Some (reader_close_incomplete cause))
    | inl _ => mret (set_reader_state to r, None)
    end
  else mret (r, None).

Definition take_gate : stage := fun r =>
  if decide (lr_state r = ReaderOpen \/ lr_state r = CloseOnly) then
    gate ← settle (lock_gate ModeShared);
    match gate with
    | inr cause => mret (set_reader_state CloseOnly r, Some (reader_close_incomplete cause))
    | inl _ => mret (set_reader_state GateHeldSlotActive r, None)
    end
  else mret (r, None).

Definition release_gate_after_failure (r : LiveReaderCore) (cause : Error) : pr (LiveReaderCore * LiveReaderClose) :=
  released ← settle unlock_gate;
  match released with
  | inl _ => mret (set_reader_state CloseOnly r, reader_close_incomplete cause)
  | inr cleanup => mret (r, reader_close_incomplete (CleanupIncomplete cause cleanup))
  end.

Definition leave_generation : stage := fun r =>
  if decide (lr_state r = GateHeldSlotActive) then
    verified ← settle (verify_registration r);
    match verified with
    | inr cause => '(r, c) ← release_gate_after_failure r cause; mret (r, Some c)
    | inl _ =>
        _ ← effect Unmap;
        mret (set_reader_state GateHeldSlotClearing r, None)
    end
  else mret (r, None).

Definition reader_close (r : LiveReaderCore) : pr (LiveReaderCore * LiveReaderClose) :=
  _ ← ask Owner;
  if decide (lr_state r = ReaderClosed) then mret (r, reader_closed)
  else
    '(r, stopped) ← stages take_gate
                      (stages leave_generation
                         (stages (advance GateHeldSlotClearing GateHeldSlotCleared (fun r => clear_reader capacity (lr_slot r)))
                            (stages (advance GateHeldSlotCleared GateHeldSlotReleased (fun r => unlock_reader capacity (lr_slot r)))
                               (stages (advance GateHeldSlotReleased MainLockOnly (fun _ => unlock_gate))
                                  (advance MainLockOnly ReaderClosed (fun _ => call (Unlock MainFile MAIN_LIFETIME_LOCK))))))) r;
    mret (r, match stopped with Some c => c | None => reader_closed end).

(** A reader's life: it opens, and its close is called any number of times. *)
Fixpoint closing (calls : nat) (r : LiveReaderCore) : pr unit :=
  match calls with
  | O => mret tt
  | S calls' =>
      closed ← settle (reader_close r);
      match closed with
      | inl (r, _) => closing calls' r
      | inr _ => closing calls' r
      end
  end.
Definition reader_life (closes : nat) : pr unit :=
  r ← reader_open;
  closing closes r.

(** ** The writer *)

Inductive WriterState :=
| Healthy | WriterOutcomeUnknown | Unusable | ClosingWriter (had_pending : bool) | ClosingGate (had_pending : bool) | ClosingMain (had_pending : bool) | WriterClosed.
#[global] Instance WriterState_eq_dec : EqDecision WriterState.
Proof. solve_decision. Defined.

Record LiveWriter := mkLiveWriter { lw_state : WriterState; lw_draft : bool }.

(** Methods of [&mut LiveWriter]. *)
Definition wr (A : Type) : Type := LiveWriter -> prog (LiveWriter * Result A).
#[global] Instance wr_ret : MRet wr := fun A a w => Ret (w, Ok a).
#[global] Instance wr_bind : MBind wr := fun A B f m w =>
  bindp (m w) (fun '(w, r) => match r with Ok a => f a w | Err e => Ret (w, Err e) | Panic t => Ret (w, Panic t) end).
Definition plain {A} (m : pr A) : wr A := fun w => bindp m (fun r => Ret (w, r)).
Definition refuse {A} (e : Error) : wr A := fun w => Ret (w, Err e).
Definition settle_writer {A} (m : wr A) : wr (A + Error) := fun w =>
  bindp (m w) (fun '(w, r) => Ret (w, match r with Ok a => Ok (inl a) | Err e => Ok (inr e) | Panic t => Panic t end)).
Definition writer_get {A} (f : LiveWriter -> A) : wr A := fun w => Ret (w, Ok (f w)).
Definition set_writer_state (st : WriterState) : wr unit := fun w => Ret (mkLiveWriter st (lw_draft w), Ok tt).
Definition set_draft (draft : bool) : wr unit := fun w => Ret (mkLiveWriter (lw_state w) draft, Ok tt).

Definition verify_pair : pr unit :=
  _ ← ask VerifyMain;
  _ ← ask VerifySidecar;
  ask VerifyHeader.

Definition open_locked : pr unit :=
  _ ← verify_pair;
  txn ← call Select;
  _ ← ask DatabaseId;
  _ ← scan_at_most_cancellable capacity txn;
  _ ← ask Cancellation;
  _ ← claim_writer;
  _ ← ask Cancellation;
  _ ← ask TrimTail;
  _ ← ask Cancellation;
  verify_pair.

Definition writer_open : pr LiveWriter :=
  _ ← ask LiveSupported;
  _ ← ask Cancellation;
  _ ← ask OpenMain;
  _ ← ask Cancellation;
  _ ← call (Lock MainFile MAIN_LIFETIME_LOCK ModeShared);
  _ ← ask VerifyMain;
  _ ← ask MapMain;
  _ ← ask MainAvailable;
  _ ← ask OpenSidecar;
  _ ← lock_gate_cancellable ModeExclusive;
  opened ← settle open_locked;
  released ← settle unlock_gate;
  _ ← liftp (finish_with_cleanup (result_of opened) (result_of released));
  mret (mkLiveWriter Healthy false).

Definition require_healthy : wr unit :=
  _ ← plain (ask Owner);
  st ← writer_get lw_state;
  match st with
  | Healthy => mret tt
  | WriterOutcomeUnknown => refuse (WrongMode "writer has an unresolved commit outcome")
  | Unusable => refuse (WrongMode "writer is unusable")
  | ClosingWriter _ | ClosingGate _ | ClosingMain _ => refuse (WrongState "writer is closing")
  | WriterClosed => refuse (WrongState "writer is closed")
  end.

Definition discard_draft_inner : wr unit :=
  _ ← plain verify_pair;
  _ ← plain (ask DiscardUnpublished);
  _ ← set_draft false;
  plain verify_pair.
Definition discard_draft : wr unit :=
  discarded ← settle_writer discard_draft_inner;
  match discarded with
  | inl _ => mret tt
  | inr error =>
      _ ← set_writer_state Unusable;
      refuse error
  end.

Definition abort_after_source (cause : Error) : wr Error :=
  discarded ← settle_writer discard_draft;
  match discarded with
  | inr cleanup =>
      _ ← set_writer_state Unusable;
      mret (TransactionAborted (CleanupIncomplete cause cleanup))
  | inl _ => mret (TransactionAborted cause)
  end.
Definition fatal (cause : Error) : bool := match cause with Io _ | Format _ | Corrupt _ => true | _ => false end.
Definition abort_after (cause : Error) : wr Error :=
  result ← abort_after_source cause;
  _ ← (if fatal cause then set_writer_state Unusable else mret tt);
  mret result.

Inductive CommitDurability := NotCommitted | DurablyCommitted | DurabilityUnknown.
Inductive CoordinationCleanup := NoCleanup | RetainedWriterCloseRequired.
(** [cr_tail]: an unpublished tail was left. *)
Record CommitResult := mkCommitResult { cr_durability : CommitDurability; cr_tail : bool; cr_coordination : CoordinationCleanup; cr_cause : option Error }.

Definition failed_result (durability : CommitDurability) (cause : Error) : wr CommitResult :=
  draft ← writer_get lw_draft;
  tail ← (if draft : bool then plain (effect (Query TailObserved)) else mret false);
  st ← writer_get lw_state;
  let retained := match durability with DurabilityUnknown => true | _ => negb (bool_decide (st = Healthy)) || tail end in
  mret (mkCommitResult durability tail (if retained then RetainedWriterCloseRequired else NoCleanup) (Some cause)).

(** The base that is unchanged is the generation that is selected. *)
Definition require_unchanged_base : pr Z :=
  _ ← ask FileLength;
  base ← call Select;
  _ ← ask UnchangedBase;
  mret base.

Definition prepublication_checks : pr unit :=
  _ ← verify_pair;
  base ← require_unchanged_base;
  _ ← scan_at_most_cancellable capacity base;
  _ ← ask DraftLength;
  verify_pair.

Definition commit_locked : pr PublishOutcome :=
  polled ← settle (ask Cancellation);
  match polled with
  | inr error => mret (BeforePublication error)
  | inl _ =>
      checked ← settle prepublication_checks;
      match checked with
      | inr error => mret (BeforePublication error)
      | inl _ =>
          polled ← settle (ask Cancellation);
          match polled with
          | inr error => mret (BeforePublication error)
          | inl _ => effect Publish
          end
      end
  end.

Definition finish_commit_locked : wr CommitResult :=
  outcome ← plain commit_locked;
  match outcome with
  | BeforePublication cause =>
      cause ← abort_after cause;
      failed_result NotCommitted cause
  | OutcomeUnknown cause =>
      _ ← set_draft false;
      _ ← set_writer_state WriterOutcomeUnknown;
      failed_result DurabilityUnknown cause
  | CommittedPublish =>
      _ ← set_draft false;
      mret (mkCommitResult DurablyCommitted false NoCleanup None)
  end.

Definition apply_commit_unlock (result : CommitResult) (unlock : unit + Error) : wr CommitResult :=
  match unlock with
  | inl _ => mret result
  | inr cause =>
      _ ← set_writer_state Unusable;
      cause ← match cr_cause result with
              | Some primary => plain (liftp (combine_errors primary (Err cause)))
              | None => mret cause
              end;
      mret (mkCommitResult (cr_durability result) (cr_tail result) RetainedWriterCloseRequired (Some cause))
  end.

Definition commit_attempt : wr unit :=
  _ ← require_healthy;
  _ ← plain (ask OperationOwned);
  draft ← writer_get lw_draft;
  changed ← (if draft : bool then plain (effect (Query DraftChanged)) else mret true);
  if draft && negb changed then
    _ ← discard_draft;
    refuse NoPendingTransaction
  else plain (ask AttemptCommit).

Definition prepare_and_lock : pr unit :=
  _ ← ask Cancellation;
  _ ← ask PrepareDraft;
  _ ← ask Cancellation;
  lock_gate_cancellable ModeExclusive.

Definition commit_with : wr CommitResult :=
  _ ← commit_attempt;
  prepared ← settle_writer (plain prepare_and_lock);
  match prepared with
  | inr cause =>
      cause ← abort_after cause;
      failed_result NotCommitted cause
  | inl _ =>
      result ← finish_commit_locked;
      released ← settle_writer (plain unlock_gate);
      apply_commit_unlock result released
  end.

(** ** Reclamation *)

Inductive ReclaimResult := NoChange | ReclaimCommit (through : Z) (commit : CommitResult).

Definition require_reclaim (max_transactions max_pages : Z) : wr unit :=
  _ ← require_healthy;
  draft ← writer_get lw_draft;
  if draft : bool then refuse (WrongMode "reclamation requires a clean writer")
  else if (max_transactions =? 0) || (max_pages =? 0) then refuse (InvalidArgument "reclamation work limits must be nonzero")
  else mret tt.

(** [prepare_reclamation]: a failure may leave its draft installed. *)
Definition prepare_reclamation (oldest : option Z) : wr (option Z) :=
  prepared ← settle_writer (plain (call (Reclaim oldest)));
  match prepared with
  | inl (Some through) =>
      _ ← set_draft true;
      mret (Some through)
  | inl None => mret None
  | inr cause =>
      installed ← plain (effect (Query DraftInstalled));
      _ ← set_draft installed;
      refuse cause
  end.

Definition reclaim_locked : wr (option (Z * CommitResult)) :=
  _ ← plain (ask Cancellation);
  _ ← plain verify_pair;
  base ← plain require_unchanged_base;
  oldest ← plain (oldest_reader_cancellable capacity base);
  _ ← plain verify_pair;
  prepared ← prepare_reclamation oldest;
  match prepared with
  | None => mret None
  | Some through =>
      commit ← finish_commit_locked;
      mret (Some (through, commit))
  end.

Definition finish_reclaim_error (cause : Error) : wr Error :=
  draft ← writer_get lw_draft;
  cause ← (if draft : bool then abort_after cause else mret cause);
  released ← settle_writer (plain unlock_gate);
  match released with
  | inl _ => mret cause
  | inr cleanup =>
      _ ← set_writer_state Unusable;
      plain (liftp (combine_errors cause (Err cleanup)))
  end.

Definition finish_reclaim (operation : option (Z * CommitResult) + Error) : wr ReclaimResult :=
  match operation with
  | inl None =>
      released ← settle_writer (plain unlock_gate);
      match released with
      | inl _ => mret NoChange
      | inr cause =>
          _ ← set_writer_state Unusable;
          refuse cause
      end
  | inl (Some (through, commit)) =>
      released ← settle_writer (plain unlock_gate);
      commit ← apply_commit_unlock commit released;
      mret (ReclaimCommit through commit)
  | inr cause =>
      cause ← finish_reclaim_error cause;
      refuse cause
  end.

Definition reclaim (max_transactions max_pages : Z) : wr ReclaimResult :=
  _ ← plain (ask Cancellation);
  _ ← require_reclaim max_transactions max_pages;
  _ ← plain (lock_gate_cancellable ModeExclusive);
  operation ← settle_writer reclaim_locked;
  finish_reclaim operation.

(** ** Closing the writer *)

Inductive AbortOutcome := Aborted | AbortIncomplete.
Record CloseResult := mkCloseResult { cl_closed : bool; cl_abort : option AbortOutcome; cl_tail : bool; cl_cause : option Error }.
Definition close_closed (abort : option AbortOutcome) : CloseResult := mkCloseResult true abort false None.
Definition close_incomplete (abort : option AbortOutcome) (tail : bool) (cause : Error) : CloseResult := mkCloseResult false abort tail (Some cause).
Definition aborted_if (had_pending : bool) (outcome : AbortOutcome) : option AbortOutcome := if had_pending then Some outcome else None.

(** The plan of a close holds the selected generation. *)
Definition prepare_close : pr Z :=
  _ ← ask FileLength;
  txn ← call Select;
  _ ← ask PrepareClose;
  mret txn.
Definition close_locked : wr unit :=
  _ ← plain verify_pair;
  txn ← plain prepare_close;
  _ ← plain (scan_at_most capacity txn);
  _ ← plain (ask FinishClose);
  _ ← set_draft false;
  plain verify_pair.

Definition close_failure (had_pending : bool) (cause : Error) : wr CloseResult :=
  _ ← set_writer_state Unusable;
  draft ← writer_get lw_draft;
  tail ← (if draft : bool then plain (effect (Query TailObserved)) else mret false);
  mret (close_incomplete (aborted_if had_pending (if draft : bool then AbortIncomplete else Aborted)) tail cause).

Definition closing_failure (had_pending : bool) (cause : Error) : wr CloseResult :=
  mret (close_incomplete (aborted_if had_pending Aborted) false cause).

Definition finish_closing_main (had_pending : bool) : wr CloseResult :=
  released ← settle_writer (plain (call (Unlock MainFile MAIN_LIFETIME_LOCK)));
  match released with
  | inr cause => closing_failure had_pending cause
  | inl _ =>
      _ ← set_writer_state WriterClosed;
      mret (close_closed (aborted_if had_pending Aborted))
  end.
Definition finish_closing_gate (had_pending : bool) : wr CloseResult :=
  released ← settle_writer (plain unlock_gate);
  match released with
  | inr cause => closing_failure had_pending cause
  | inl _ =>
      _ ← set_writer_state (ClosingMain had_pending);
      finish_closing_main had_pending
  end.
Definition finish_closing_writer (had_pending : bool) : wr CloseResult :=
  released ← settle_writer (plain release_writer);
  match released with
  | inr cause => closing_failure had_pending cause
  | inl _ =>
      _ ← set_writer_state (ClosingGate had_pending);
      finish_closing_gate had_pending
  end.
Definition finish_close : wr CloseResult :=
  st ← writer_get lw_state;
  match st with
  | ClosingWriter had_pending => finish_closing_writer had_pending
  | ClosingGate had_pending => finish_closing_gate had_pending
  | ClosingMain had_pending => finish_closing_main had_pending
  | _ => close_failure false (WrongState "writer is not closing")
  end.

Definition writer_close : wr CloseResult :=
  _ ← plain (ask Owner);
  st ← writer_get lw_state;
  match st with
  | WriterClosed => mret (close_closed None)
  | ClosingWriter _ | ClosingGate _ | ClosingMain _ => finish_close
  | _ =>
      had_pending ← writer_get lw_draft;
      gate ← settle_writer (plain (lock_gate ModeExclusive));
      match gate with
      | inr cause => close_failure had_pending cause
      | inl _ =>
          operation ← settle_writer close_locked;
          match operation with
          | inl _ =>
              _ ← set_writer_state (ClosingWriter had_pending);
              finish_close
          | inr cause =>
              released ← settle_writer (plain unlock_gate);
              cause ← plain (liftp (combine_errors cause (result_of released)));
              close_failure had_pending cause
          end
      end
  end.

(** ** Edits and their abandonment *)

(** [mutate]: an edit that has begun has a draft, whether it ends well or not. *)
Definition mutate : wr unit :=
  _ ← require_healthy;
  had_draft ← writer_get lw_draft;
  result ← settle_writer (plain (ask Edit));
  installed ← (if had_draft : bool then mret true else match result with inl _ => mret true | inr _ => plain (effect (Query DraftInstalled)) end);
  _ ← set_draft installed;
  match result with
  | inl _ =>
      changed ← (if had_draft : bool then mret true else plain (effect (Query DraftChanged)));
      if negb changed then discard_draft else mret tt
  | inr cause =>
      cause ← abort_after cause;
      refuse cause
  end.

Record AbortResult := mkAbortResult { ab_outcome : AbortOutcome; ab_tail : bool; ab_cause : option Error }.
Definition abort : wr AbortResult :=
  _ ← require_healthy;
  draft ← writer_get lw_draft;
  if negb draft then refuse NoPendingTransaction
  else
    discarded ← settle_writer discard_draft;
    match discarded with
    | inl _ => mret (mkAbortResult Aborted false None)
    | inr cause =>
        tail ← plain (effect (Query TailObserved));
        mret (mkAbortResult AbortIncomplete tail (Some cause))
    end.

(** A writer's life: it opens, and its methods are called in any order. *)
Inductive writer_call := CallMutate | CallAbort | CallCommit | CallReclaim (max_transactions max_pages : Z) | CallClose.
Definition writer_run (c : writer_call) : wr unit :=
  match c with
  | CallMutate => mutate
  | CallAbort => _ ← abort; mret tt
  | CallCommit => _ ← commit_with; mret tt
  | CallReclaim max_transactions max_pages => _ ← reclaim max_transactions max_pages; mret tt
  | CallClose => _ ← writer_close; mret tt
  end.
Fixpoint writer_runs (calls : list writer_call) : wr unit :=
  match calls with
  | [] => mret tt
  | c :: rest =>
      _ ← settle_writer (writer_run c);
      writer_runs rest
  end.
Definition writer_life (calls : list writer_call) : pr unit :=
  w ← writer_open;
  bindp (writer_runs calls w) (fun '(_, r) => Ret r).
End Handles.
