(* ===== verification/RelyGuarantee.v ===== *)
(** * What one process may assume of the others

    [good]: every registered reader owns its slot, which names its
    transaction, and nothing it reads has been reclaimed.  [rely h]: what the
    other processes leave to process [h].  A call that is [permitted] keeps
    both, so a program whose calls are permitted whatever the others do
    ([wp]) is safe among others that are. *)

From stdpp Require Import base tactics numbers list strings countable gmap.
From Stdlib Require Import ZArith Lia.
From S2P Require Import Prelude Errors Bytes WriterCore Retirement Concurrent ReaderTable.

#[local] Open Scope string_scope.
#[local] Open Scope list_scope.
#[local] Open Scope Z_scope.

Definition slot_byte (slot : Z) : Z := slot * SLOT_SIZE + PAGE_SIZE.
Definition excl (s : Shared) (f : locked_file) (offset : Z) (h : nat) : Prop := sh_locks s !! (f, offset) = Some (Exclusively h).

Section Rely.
Context (capacity : Z).

Definition names (s : Shared) (slot txn : Z) : Prop :=
  word s (slot_byte slot) = txn /\ word s (slot_byte slot + COMPLEMENT_OFFSET) = complement txn.

Record owns_slot (s : Shared) (h : nat) (slot txn : Z) : Prop := {
  os_slot : 0 <= slot < capacity;
  os_lock : excl s SideFile (slot_byte slot) h;
  os_names : names s slot txn;
  os_positive : 0 < txn;
  os_kept : sh_reclaimed s <= txn <= sh_committed s;
}.

Record good (s : Shared) : Prop := {
  gd_reader h slot txn : sh_readers s !! h = Some (slot, txn) -> owns_slot s h slot txn;
  gd_reclaimed : sh_reclaimed s <= sh_committed s;
  gd_committed : 0 < sh_committed s;
}.

Record rely (h : nat) (s s' : Shared) : Prop := {
  ry_locks f offset : excl s f offset h -> excl s' f offset h;
  ry_words slot : 0 <= slot -> excl s SideFile (slot_byte slot) h ->
    word s' (slot_byte slot) = word s (slot_byte slot)
    /\ word s' (slot_byte slot + COMPLEMENT_OFFSET) = word s (slot_byte slot + COMPLEMENT_OFFSET);
  ry_readers : sh_readers s' !! h = sh_readers s !! h;
  ry_gate : excl s SideFile GATE_LOCK h ->
    sh_committed s' = sh_committed s /\ sh_reclaimed s' = sh_reclaimed s
    /\ forall h' v, sh_readers s' !! h' = Some v -> sh_readers s !! h' = Some v;
}.

#[global] Instance rely_refl h : Reflexive (rely h).
Proof. intros s. by split. Qed.
#[global] Instance rely_trans h : Transitive (rely h).
Proof.
  intros a b c [L1 W1 R1 G1] [L2 W2 R2 G2]. split.
  - auto.
  - intros slot Hs Hx. destruct (W1 slot Hs Hx) as [-> ->] || destruct (W1 slot Hs Hx). destruct (W2 slot Hs (L1 _ _ Hx)). split; congruence.
  - congruence.
  - intros Hx. destruct (G1 Hx) as (? & ? & ?), (G2 (L1 _ _ Hx)) as (? & ? & ?). split_and!; [congruence | congruence | auto].
Qed.

(** ** What a process may do *)

(** A lock a registered reader does not depend on. *)
Definition away (h : nat) (f : locked_file) (offset : Z) (s : Shared) : Prop :=
  forall slot txn, sh_readers s !! h = Some (slot, txn) -> (f, offset) <> (SideFile, slot_byte slot).

Definition permitted {X} (h : nat) (a : action X) (s : Shared) : Prop :=
  match a with
  | Lock f offset _ | TryLock f offset _ | Unlock f offset => away h f offset s
  | StoreWord offset _ => sh_readers s !! h = None /\ exists slot, 0 <= slot
      /\ (offset = slot_byte slot \/ offset = slot_byte slot + COMPLEMENT_OFFSET) /\ excl s SideFile (slot_byte slot) h
  | Claimed slot txn => excl s SideFile GATE_LOCK h /\ owns_slot s h slot txn
  | Reclaim oldest => excl s SideFile GATE_LOCK h
      /\ forall h' slot txn through, sh_readers s !! h' = Some (slot, txn) -> reader_safe oldest through = true -> through <= txn
  | Publish => excl s SideFile GATE_LOCK h
  | _ => True
  end.

Lemma excl_unique s f offset h h' : excl s f offset h -> excl s f offset h' -> h = h'.
Proof. unfold excl. congruence. Qed.

Lemma granted_other h h' mode l : h' <> h -> grant h mode (Some (Exclusively h')) = Some l -> False.
Proof. intros Hne. unfold grant. destruct mode; by rewrite decide_False. Qed.

Lemma locked_spec h f offset mode s s' : locked h f offset mode s = Some s' ->
  sh_words s' = sh_words s /\ sh_readers s' = sh_readers s /\ sh_committed s' = sh_committed s /\ sh_reclaimed s' = sh_reclaimed s
  /\ (forall h' g o, h' <> h -> excl s g o h' -> excl s' g o h')
  /\ (forall g o, (g, o) <> (f, offset) -> excl s g o h -> excl s' g o h)
  /\ (mode = ModeExclusive -> excl s' f offset h).
Proof.
  unfold locked, excl. destruct (grant h mode (sh_locks s !! (f, offset))) as [l|] eqn:Hg; [| done]. cbn. intros [= <-]. cbn.
  split_and!; try done.
  - intros h' g o Hne Hx. rewrite lookup_insert_ne; [done |]. intros He. rewrite <- He in Hx. rewrite Hx in Hg. by eapply granted_other in Hg.
  - intros g o Hne Hx. by rewrite lookup_insert_ne by congruence.
  - intros ->. rewrite lookup_insert_eq. revert Hg. unfold grant. destruct (sh_locks s !! (f, offset)) as [[h'|hs]|]; repeat case_decide; congruence.
Qed.

Lemma unlocked_spec h f offset s : let s' := unlocked h f offset s in
  sh_words s' = sh_words s /\ sh_readers s' = sh_readers s /\ sh_committed s' = sh_committed s /\ sh_reclaimed s' = sh_reclaimed s
  /\ (forall h' g o, h' <> h -> excl s g o h' -> excl s' g o h')
  /\ (forall g o, (g, o) <> (f, offset) -> excl s g o h -> excl s' g o h).
Proof.
  unfold excl. cbn. split_and!; try done.
  - intros h' g o Hne Hx. destruct (decide ((g, o) = (f, offset))) as [He | He].
    + rewrite He in Hx |- *. rewrite lookup_partial_alter_eq, Hx. cbn. by rewrite decide_False.
    + by rewrite lookup_partial_alter_ne by congruence.
  - intros g o Hne Hx. by rewrite lookup_partial_alter_ne by congruence.
Qed.

(** A change of the locks of [h] only, none of them its reader's. *)
Lemma relock_keeps h s s' : good s -> sh_words s' = sh_words s -> sh_readers s' = sh_readers s ->
  sh_committed s' = sh_committed s -> sh_reclaimed s' = sh_reclaimed s ->
  (forall h' g o, h' <> h -> excl s g o h' -> excl s' g o h') ->
  (forall slot txn, sh_readers s !! h = Some (slot, txn) -> excl s' SideFile (slot_byte slot) h) ->
  good s' /\ forall h', h' <> h -> rely h' s s'.
Proof.
  intros [Hr Hrc Hc] Ew Er Ec Erc Ho Hm. split.
  - split; [| congruence | congruence]. intros h' slot txn. rewrite Er. intros Hreg. destruct (Hr h' slot txn Hreg) as [Hs Hl Hn Hp Hk].
    split; [done | | unfold names, word in *; by rewrite Ew | done | congruence].
    destruct (decide (h' = h)) as [-> | Hne]; [by eapply Hm | by apply Ho].
  - intros h' Hne. split; [auto | intros; unfold word; by rewrite Ew | by rewrite Er |]. intros _. rewrite Er. auto.
Qed.

Lemma lock_keeps h f offset mode s s' : good s -> away h f offset s -> locked h f offset mode s = Some s' ->
  good s' /\ forall h', h' <> h -> rely h' s s'.
Proof.
  intros Hg Ha (Ew & Er & Ec & Erc & Ho & Hm & _)%locked_spec. apply (relock_keeps h); try done.
  intros slot txn Hreg. apply Hm; [intros He; symmetry in He; revert He; by eapply Ha, Hreg |]. by apply (gd_reader _ Hg) in Hreg as [].
Qed.
Lemma unlock_keeps h f offset s : good s -> away h f offset s ->
  good (unlocked h f offset s) /\ forall h', h' <> h -> rely h' s (unlocked h f offset s).
Proof.
  intros Hg Ha. destruct (unlocked_spec h f offset s) as (Ew & Er & Ec & Erc & Ho & Hm). apply (relock_keeps h); try done.
  intros slot txn Hreg. apply Hm; [intros He; symmetry in He; revert He; by eapply Ha, Hreg |]. by apply (gd_reader _ Hg) in Hreg as [].
Qed.

Lemma slot_byte_inj a b : slot_byte a = slot_byte b -> a = b.
Proof. unfold slot_byte, SLOT_SIZE. lia. Qed.
Lemma slot_bytes_apart a b : a <> b -> slot_byte a <> slot_byte b /\ slot_byte a <> slot_byte b + COMPLEMENT_OFFSET
  /\ slot_byte a + COMPLEMENT_OFFSET <> slot_byte b /\ slot_byte a + COMPLEMENT_OFFSET <> slot_byte b + COMPLEMENT_OFFSET.
Proof. unfold slot_byte, SLOT_SIZE, COMPLEMENT_OFFSET. lia. Qed.

Lemma word_store s offset v o : word (set_words (<[offset := v]> (sh_words s)) s) o = if decide (o = offset) then v else word s o.
Proof. unfold word. cbn. case_decide; [subst; by rewrite lookup_insert_eq | by rewrite lookup_insert_ne by congruence]. Qed.

(** A store to a slot of one's own does not touch another's. *)
Lemma store_elsewhere s offset v slot h h' slot' : h' <> h -> excl s SideFile (slot_byte slot) h -> excl s SideFile (slot_byte slot') h' ->
  (offset = slot_byte slot \/ offset = slot_byte slot + COMPLEMENT_OFFSET) ->
  let s' := set_words (<[offset := v]> (sh_words s)) s in
  word s' (slot_byte slot') = word s (slot_byte slot') /\ word s' (slot_byte slot' + COMPLEMENT_OFFSET) = word s (slot_byte slot' + COMPLEMENT_OFFSET).
Proof.
  intros Hne Hx Hx' Ho s'. assert (Hs : slot' <> slot) by (intros ->; by eapply Hne, excl_unique).
  destruct (slot_bytes_apart slot' slot Hs) as (? & ? & ? & ?). unfold s'. rewrite !word_store. destruct Ho as [-> | ->]; by rewrite !decide_False.
Qed.

Lemma store_keeps h offset v s : good s -> permitted h (StoreWord offset v) s ->
  let s' := set_words (<[offset := v]> (sh_words s)) s in good s' /\ forall h', h' <> h -> rely h' s s'.
Proof.
  intros [Hr Hrc Hc] (Hidle & slot & Hs & Ho & Hx) s'. split.
  - split; [| done | done]. intros h' slot' txn Hreg. change (sh_readers s') with (sh_readers s) in Hreg.
    assert (Hne : h' <> h) by congruence. destruct (Hr h' slot' txn Hreg) as [Hs' Hl [Hn1 Hn2] Hp Hk].
    split; try done. destruct (store_elsewhere s offset v slot h h' slot' Hne Hx Hl Ho) as [E1 E2]. fold s' in E1, E2. split; congruence.
  - intros h' Hne. split; try done. intros slot' Hs' Hx'. by eapply store_elsewhere.
Qed.

Lemma claim_keeps h slot txn s : good s -> permitted h (Claimed slot txn) s ->
  let s' := set_readers (<[h := (slot, txn)]> (sh_readers s)) s in good s' /\ forall h', h' <> h -> rely h' s s'.
Proof.
  intros [Hr Hrc Hc] [Hgate Hown] s'. split.
  - split; [| done | done]. intros h' slot' txn'. cbn. intros [[<- [= <- <-]] | [_ Hreg]]%lookup_insert_Some; [by destruct Hown | by destruct (Hr _ _ _ Hreg)].
  - intros h' Hne. split; try done; [cbn; by rewrite lookup_insert_ne |]. intros Hx. by apply (excl_unique _ _ _ h) in Hx; [subst |].
Qed.

Lemma unmap_keeps h s : good s -> let s' := set_readers (delete h (sh_readers s)) s in good s' /\ forall h', h' <> h -> rely h' s s'.
Proof.
  intros [Hr Hrc Hc] s'. split.
  - split; [| done | done]. intros h' slot txn. cbn. intros [_ Hreg]%lookup_delete_Some. by destruct (Hr _ _ _ Hreg).
  - intros h' Hne. split; try done; [cbn; by rewrite lookup_delete_ne |]. intros _. split; [done |]. split; [done |].
    intros h2 v. cbn. by intros [_ ?]%lookup_delete_Some.
Qed.

(** The holder of the gate alone moves the generations on. *)
Lemma gate_keeps h s s' : good s -> excl s SideFile GATE_LOCK h -> sh_locks s' = sh_locks s -> sh_words s' = sh_words s ->
  sh_readers s' = sh_readers s -> sh_committed s <= sh_committed s' -> sh_reclaimed s' <= sh_committed s' ->
  (forall h' slot txn, sh_readers s !! h' = Some (slot, txn) -> sh_reclaimed s' <= txn) ->
  good s' /\ forall h', h' <> h -> rely h' s s'.
Proof.
  intros [Hr Hrc Hc] Hgate El Ew Er Hle Hle' Hkept. unfold excl in *. split.
  - split; [| lia | lia]. intros h' slot txn. rewrite Er. intros Hreg. destruct (Hr h' slot txn Hreg) as [Hs Hl [Hn1 Hn2] Hp Hk].
    split; [done | by unfold excl; rewrite El | split; unfold word in *; by rewrite Ew | done |]. specialize (Hkept _ _ _ Hreg). lia.
  - intros h' Hne. split; unfold excl, word; rewrite ?El, ?Ew, ?Er; try done. intros Hx. rewrite Hgate in Hx. congruence.
Qed.

Lemma permitted_keeps {X} h (a : action X) s s' x : good s -> permitted h a s -> steps h a s s' x -> good s' /\ forall h', h' <> h -> rely h' s s'.
Proof.
  intros Hg Hp Hstep.
  assert (Hdone : forall choice s1 (y : X), perform h choice a s = Some (s1, y) -> good s1 /\ forall h', h' <> h -> rely h' s s1).
  { intros choice s1 y. destruct a; cbn [perform permitted] in *.
    - destruct (locked h f offset mode s) as [s2|] eqn:E; [| done]. intros [= <- _]. by eapply lock_keeps.
    - destruct (locked h f offset mode s) as [s2|] eqn:E; intros [= <- _]; [by eapply lock_keeps | done].
    - intros [= <- _]. by apply unlock_keeps.
    - by intros [= <- _].
    - intros [= <- _]. by apply store_keeps.
    - by intros [= <- _].
    - by intros [= <- _].
    - by intros [= <- _].
    - intros [= <- _]. by apply claim_keeps.
    - intros [= <- _]. by apply unmap_keeps.
    - destruct Hp as [Hgate Hsafe]. destruct (choice =? 0); [by intros [= <- _] |]. destruct (reader_safe oldest choice && (choice <=? sh_committed s)) eqn:Hb; [| done].
      apply andb_true_iff in Hb as [Hsf Hle]. apply Z.leb_le in Hle. intros [= <- _]. pose proof (gd_reclaimed _ Hg). apply (gate_keeps h); try done; cbn; try lia.
      intros h' slot txn Hreg. pose proof (Hsafe _ _ _ _ Hreg Hsf). destruct (gd_reader _ Hg _ _ _ Hreg) as [_ _ _ _ Hk]. lia.
    - intros [= <- _]. pose proof (gd_reclaimed _ Hg). apply (gate_keeps h); try done; cbn; try lia.
      intros h' slot txn Hreg. destruct (gd_reader _ Hg _ _ _ Hreg) as [_ _ _ _ Hk]. lia. }
  destruct Hstep as [choice s s' x E | late e s x E | choice e s s' y x _ E _]; [by eapply Hdone | done | by eapply Hdone].
Qed.

Lemma ended_keeps h s : good s -> good (ended h s) /\ forall h', h' <> h -> rely h' s (ended h s).
Proof.
  intros [Hr Hrc Hc].
  assert (Hl : forall h' f o, h' <> h -> excl s f o h' -> excl (ended h s) f o h').
  { intros h' f o Hne Hx. unfold excl in *. cbn. rewrite lookup_omap, Hx. cbn. by rewrite decide_False. }
  split.
  - split; [| done | done]. intros h' slot txn. cbn. intros [Hne Hreg]%lookup_delete_Some.
    destruct (Hr _ _ _ Hreg) as [Hs Hx [Hn1 Hn2] Hp Hk]. split; try done. by apply Hl.
  - intros h' Hne. split; [by intros; apply Hl | done | cbn; by rewrite lookup_delete_ne |]. intros _. split; [done |]. split; [done |].
    intros h2 v. cbn. by intros [_ ?]%lookup_delete_Some.
Qed.

(** ** Programs among others *)

Fixpoint assures {A} (h : nat) (p : prog A) (Q : A -> Shared -> Prop) (s : Shared) : Prop :=
  match p with
  | Ret a => forall s1, rely h s s1 -> good s1 -> Q a s1
  | Act a k => forall s1, rely h s s1 -> good s1 -> permitted h a s1 /\ forall s2 x, steps h a s1 s2 x -> assures h (k x) Q s2
  end.

Lemma assures_rely {A} h (p : prog A) Q s s' : assures h p Q s -> rely h s s' -> assures h p Q s'.
Proof. destruct p; cbn; intros Ha Hr s1 Hr1; apply Ha; by etrans. Qed.

Lemma assures_mono {A} h (p : prog A) (Q R : A -> Shared -> Prop) : (forall a s, good s -> Q a s -> R a s) -> forall s, assures h p Q s -> assures h p R s.
Proof.
  intros Hqr. induction p as [a | X a k IH]; cbn; intros s Ha s1 Hr Hg; [by apply Hqr, Ha |].
  destruct (Ha s1 Hr Hg) as [Hp Hn]. split; [done |]. intros s2 x Hs. by apply IH, Hn.
Qed.

Lemma assures_bind {A B} h (p : prog A) (f : A -> prog B) Q : forall s, good s -> assures h p (fun a s' => assures h (f a) Q s') s -> assures h (bindp p f) Q s.
Proof.
  induction p as [a | X a k IH]; cbn; intros s Hg Ha; [by apply Ha |].
  intros s1 Hr Hg1. destruct (Ha s1 Hr Hg1) as [Hp Hn]. split; [done |]. intros s2 x Hs.
  apply IH; [by eapply permitted_keeps in Hs as [? _] | by apply Hn].
Qed.

(** From a state that satisfies [P], every call is permitted and [Q] holds of
    the answer, whatever the others do in between. *)
Definition triple {A} (h : nat) (P : Shared -> Prop) (p : prog A) (Q : A -> Shared -> Prop) : Prop :=
  forall s, good s -> P s -> assures h p Q s.
Definition stable (h : nat) (P : Shared -> Prop) : Prop := forall s s', P s -> rely h s s' -> P s'.

Lemma triple_ret {A} h (P : Shared -> Prop) (a : A) (Q : A -> Shared -> Prop) : stable h P -> (forall s, P s -> Q a s) -> triple h P (Ret a) Q.
Proof. intros Hst Hq s _ Hp s1 Hr _. eapply Hq, Hst; done. Qed.

Lemma triple_weaken {A} h (P P' : Shared -> Prop) (p : prog A) (Q Q' : A -> Shared -> Prop) : triple h P p Q ->
  (forall s, good s -> P' s -> P s) -> (forall a s, good s -> Q a s -> Q' a s) -> triple h P' p Q'.
Proof. intros Ht Hp Hq s Hg Hs. eapply assures_mono; [exact Hq | by apply Ht, Hp]. Qed.

Lemma triple_bindp {A B} h P (p : prog A) (f : A -> prog B) (R : A -> Shared -> Prop) Q : triple h P p R ->
  (forall a, triple h (R a) (f a) Q) -> triple h P (bindp p f) Q.
Proof. intros Hp Hf s Hg Hs. apply assures_bind; [done |]. eapply assures_mono; [| by apply Hp]. cbn. intros a s' Hg' Hr. by apply Hf. Qed.

Lemma triple_act {A X} h P (a : action X) (k : X -> prog A) (R : X -> Shared -> Prop) Q : stable h P ->
  (forall s, good s -> P s -> permitted h a s /\ forall s' x, steps h a s s' x -> good s' -> R x s') ->
  (forall x, triple h (R x) (k x) Q) -> triple h P (Act a k) Q.
Proof.
  intros Hst Ha Hk s Hg Hs s1 Hr Hg1. destruct (Ha s1 Hg1 (Hst _ _ Hs Hr)) as [Hp Hn]. split; [done |].
  intros s2 x Hsx. destruct (permitted_keeps h a s1 s2 x Hg1 Hp Hsx) as [Hg2 _]. by apply Hk, Hn.
Qed.

(** The end of a fallible program: the errors of a part are errors of the whole. *)
Lemma triple_bind {A B} h P (m : pr A) (f : A -> pr B) (R : Result A -> Shared -> Prop) (Q : Result B -> Shared -> Prop) : triple h P m R ->
  (forall a, triple h (R (Ok a)) (f a) Q) ->
  (forall e, stable h (R (Err e)) /\ forall s, R (Err e) s -> Q (Err e) s) ->
  (forall t, stable h (R (Panic t)) /\ forall s, R (Panic t) s -> Q (Panic t) s) ->
  triple h P (m ≫= f) Q.
Proof.
  intros Hm Hf He Hp. eapply triple_bindp; [exact Hm |]. intros [a | e | t]; [apply Hf | |]; cbn.
  - destruct (He e). by apply triple_ret.
  - destruct (Hp t). by apply triple_ret.
Qed.

(** ** Systems *)

Definition safe_system (c : pool * Shared) : Prop :=
  good (snd c) /\ forall h p, fst c !! h = Some p -> assures h p (fun _ _ => True) (snd c).

Lemma system_keeps (programs : prog (Result unit) -> Prop) c c' :
  (forall p, programs p -> forall h, triple h (fun s => sh_readers s !! h = None) p (fun _ _ => True)) ->
  safe_system c -> system_step programs c c' -> safe_system c'.
Proof.
  intros Hprog [Hg Hall] Hstep. destruct Hstep as [h p ps s Hnone Hidle Hp | h X a k ps s s' x Hlook Hs | h ps s]; cbn in *.
  - split; [done |]. cbn. intros h' p' [[<- <-] | [_ Hl]]%lookup_insert_Some; [by apply Hprog | by apply Hall].
  - destruct (Hall h _ Hlook s ltac:(reflexivity) Hg) as [Hp Hn]. destruct (permitted_keeps h a s s' x Hg Hp Hs) as [Hg' Hr].
    split; [done |]. cbn. intros h' p' [[<- <-] | [Hne Hl]]%lookup_insert_Some; [by apply Hn |].
    eapply assures_rely; [by apply Hall | apply Hr; congruence].
  - destruct (ended_keeps h s Hg) as [Hg' Hr]. split; [done |]. cbn. intros h' p' [Hne Hl]%lookup_delete_Some.
    eapply assures_rely; [by apply Hall | apply Hr; congruence].
Qed.

Lemma system_safe programs c c' :
  (forall p, programs p -> forall h, triple h (fun s => sh_readers s !! h = None) p (fun _ _ => True)) ->
  safe_system c -> rtc (system_step programs) c c' -> safe_system c'.
Proof. intros Hprog Hc Hrun. induction Hrun as [|a b c Hab _ IH]; [done |]. apply IH. by eapply system_keeps. Qed.
End Rely.
