(* ===== verification/ReaderSpecs.v ===== *)
(** * The reader table among several processes

    What the operations of [ReaderTable] assure a process that holds the gate:
    a claim registers the reader, and a scan sees every registered reader. *)

From stdpp Require Import base tactics numbers list strings countable gmap.
From Stdlib Require Import ZArith Lia.
From S2P Require Import Prelude Errors Bytes WriterCore Retirement Concurrent ReaderTable RelyGuarantee.

#[local] Open Scope string_scope.
#[local] Open Scope list_scope.
#[local] Open Scope Z_scope.

Section Specs.
Context (capacity : Z) (Hcapacity : capacity <= u32_max) (h : nat).
Notation good := (good capacity).
Notation triple := (triple capacity).
Notation gate := (SideFile, GATE_LOCK).

(** What is known of the registered readers and of the committed transaction,
    and lasts while the gate is held. *)
Definition fact : Type := gmap nat (Z * Z) -> Z -> Prop.
Definition lasting (F : fact) : Prop := forall m m' c, (forall k v, m' !! k = Some v -> m !! k = Some v) -> F m c -> F m' c.
Definition anything : fact := fun _ _ => True.

(** Not registered, and holding these locks exclusively. *)
Definition holding (ls : list (locked_file * Z)) (F : fact) (s : Shared) : Prop :=
  sh_readers s !! h = None /\ (forall f offset, (f, offset) ∈ ls -> excl s f offset h) /\ F (sh_readers s) (sh_committed s).
Definition maintains {A} (P : Shared -> Prop) (p : prog A) : Prop := triple h P p (fun _ => P).

(** The gate backs the facts. *)
Definition backed (ls : list (locked_file * Z)) (F : fact) : Prop := F = anything \/ gate ∈ ls /\ lasting F.

Lemma stable_holding ls F : backed ls F -> stable h (holding ls F).
Proof.
  intros Hb s s' (Hi & Hl & Hf) Hr. split; [by rewrite (ry_readers _ _ _ Hr) |].
  split; [intros f o Hin; by apply (ry_locks _ _ _ Hr), Hl |]. destruct Hb as [-> | [Hg Hlast]]; [done |].
  destruct (ry_gate _ _ _ Hr (Hl _ _ Hg)) as (-> & _ & Hless). by apply (Hlast (sh_readers s)).
Qed.
Lemma backed_anything ls : backed ls anything.
Proof. by left. Qed.
Lemma backed_more ls l F : backed ls F -> backed (l :: ls) F.
Proof. intros [-> | [? ?]]; [by left | right]. split; [by right | done]. Qed.
Lemma backed_gate ls F : lasting F -> backed (gate :: ls) F.
Proof. intros Hl. right. split; [left | done]. Qed.

Lemma stable_and P Q : stable h P -> stable h Q -> stable h (fun s => P s /\ Q s).
Proof. intros HP HQ s s' [? ?] Hr. split; [by eapply HP | by eapply HQ]. Qed.
Lemma stable_pure (P : Prop) : stable h (fun _ => P).
Proof. by intros s s'. Qed.

Lemma holding_less ls ls' F s : ls ⊆ ls' -> holding ls' F s -> holding ls F s.
Proof. intros Hsub (Hi & Hl & Hf). split; [done |]. split; [intros f o Hin; by apply Hl, Hsub | done]. Qed.
Lemma holding_more ls f offset F s : holding ls F s -> excl s f offset h -> holding ((f, offset) :: ls) F s.
Proof. intros (Hi & Hl & Hf) Hx. split; [done |]. split; [| done]. intros g o [[= -> ->] | Hin]%elem_of_cons; [done | by apply Hl]. Qed.
Lemma holding_fact ls (F G : fact) s : (F (sh_readers s) (sh_committed s) -> G (sh_readers s) (sh_committed s)) -> holding ls F s -> holding ls G s.
Proof. intros Hfg (Hi & Hl & Hf). split; [done |]. split; [done | auto]. Qed.

(** ** Calls *)

(** A call that changes nothing maintains what is stable. *)
Definition quiet {X} (a : action X) : bool := match a with Load _ | Ask _ | Query _ | Select => true | _ => false end.
Lemma quiet_steps {X} (a : action X) s s' x : quiet a = true -> steps h a s s' x -> s' = s.
Proof.
  intros Hq Hs. destruct Hs as [choice s s' x E | late e s x E | choice e s s' y x Hsp E _]; [| done |];
    destruct a; try done; cbn in E; by injection E as <- _.
Qed.

Lemma maintains_quiet {A X} P (a : action X) (k : X -> prog A) Q : quiet a = true -> stable h P -> (forall x, triple h P (k x) Q) -> triple h P (Act a k) Q.
Proof.
  intros Hq Hst Hk. eapply (triple_act capacity h P a k (fun _ => P)); [done | | done]. intros s Hg Hs.
  split; [by destruct a |]. intros s' x Hstep _. by rewrite (quiet_steps a s s' x Hq Hstep).
Qed.

Lemma triple_call {A} P (a : action (Result A)) Q : stable h P -> (forall x, stable h (Q x)) ->
  (forall s, good s -> P s -> permitted capacity h a s /\ forall s' x, steps h a s s' x -> good s' -> Q x s') -> triple h P (call a) Q.
Proof. intros HP HQ Ha. eapply triple_act; [done | exact Ha |]. intros x. by apply triple_ret. Qed.

Lemma away_idle f offset s : sh_readers s !! h = None -> away h f offset s.
Proof. intros Hi slot txn. congruence. Qed.

(** A change of locks. *)
Lemma relock_holding ls F s s' : sh_readers s' = sh_readers s -> sh_committed s' = sh_committed s ->
  (forall f o, (f, o) ∈ ls -> excl s' f o h) -> holding ls F s -> holding ls F s'.
Proof. intros Er Ec Hl (Hi & _ & Hf). unfold holding. by rewrite Er, Ec. Qed.

(** The lock asked for, and nothing else. *)
Lemma locked_holding ls F f offset s s' : holding ls F s -> locked h f offset ModeExclusive s = Some s' -> holding ls F s' /\ excl s' f offset h.
Proof.
  intros Hh (_ & Er & Ec & _ & _ & Hm & Hx)%locked_spec. split; [| by apply Hx]. eapply relock_holding; try done. intros g o Hin.
  destruct (decide ((g, o) = (f, offset))) as [[= -> ->] | Hne]; [by apply Hx | apply Hm; [done | by apply Hh]].
Qed.

Lemma trylock_spec ls F f offset : backed ls F -> triple h (holding ls F) (call (TryLock f offset ModeExclusive))
  (fun r s => holding ls F s /\ match r with Ok true => excl s f offset h | _ => True end).
Proof.
  intros Hb. apply triple_call; [by apply stable_holding | intros x | intros s Hg Hh].
  - apply stable_and; [by apply stable_holding |]. destruct x as [[]| |]; [| apply stable_pure ..]. intros s s' Hx Hr. by apply (ry_locks _ _ _ Hr).
  - split; [by apply away_idle, Hh |]. intros s' x Hstep Hg'.
    destruct Hstep as [choice s s' x E | late e s x E | choice e s s' y x Hsp E _]; [| | done].
    + cbn [perform] in E. destruct (locked h f offset ModeExclusive s) as [s2|] eqn:E2; injection E as <- <-; [by eapply locked_holding | done].
    + cbn in E. injection E as <-. by split.
Qed.

Lemma lock_spec ls F f offset : backed ls F -> triple h (holding ls F) (call (Lock f offset ModeExclusive))
  (fun r s => holding ls F s /\ match r with Ok _ => excl s f offset h | _ => True end).
Proof.
  intros Hb. apply triple_call; [by apply stable_holding | intros x | intros s Hg Hh].
  - apply stable_and; [by apply stable_holding |]. destruct x; [| apply stable_pure ..]. intros s s' Hx Hr. by apply (ry_locks _ _ _ Hr).
  - split; [by apply away_idle, Hh |]. intros s' x Hstep Hg'.
    destruct Hstep as [choice s s' x E | late e s x E | choice e s s' y x Hsp E _]; [| | done].
    + cbn [perform] in E. destruct (locked h f offset ModeExclusive s) as [s2|] eqn:E2; [| done]. injection E as <- <-. by eapply locked_holding.
    + cbn in E. injection E as <-. by split.
Qed.

Lemma lock_shared_spec ls F f offset : backed ls F -> (f, offset) ∉ ls -> maintains (holding ls F) (call (Lock f offset ModeShared)).
Proof.
  intros Hb Hn. apply triple_call; [by apply stable_holding | intros x; by apply stable_holding |]. intros s Hg Hh.
  split; [by apply away_idle, Hh |]. intros s' x Hstep Hg'.
  destruct Hstep as [choice s s' x E | late e s x E | choice e s s' y x Hsp E _]; [| done | done].
  cbn [perform] in E. destruct (locked h f offset ModeShared s) as [s2|] eqn:E2; [| done]. injection E as <- <-.
  apply locked_spec in E2 as (_ & Er & Ec & _ & _ & Hm & _). eapply relock_holding; try done. intros g o Hin. apply Hm; [congruence | by apply Hh].
Qed.

Lemma unlock_spec ls F f offset : backed ls F -> (f, offset) ∉ ls -> maintains (holding ls F) (call (Unlock f offset)).
Proof.
  intros Hb Hn. apply triple_call; [by apply stable_holding | intros x; by apply stable_holding |]. intros s Hg Hh.
  split; [by apply away_idle, Hh |]. intros s' x Hstep Hg'.
  destruct Hstep as [choice s s' x E | late e s x E | choice e s s' y x Hsp E _]; [| done | done].
  cbn [perform] in E. injection E as <- <-. destruct (unlocked_spec h f offset s) as (_ & Er & Ec & _ & _ & Hm).
  eapply relock_holding; try done. intros g o Hin. apply Hm; [congruence | by apply Hh].
Qed.

(** ** Programs that keep an assertion *)

Lemma maintains_ret {A} P (a : A) : stable h P -> maintains P (Ret a).
Proof. intros Hst. by apply triple_ret. Qed.
Lemma maintains_bind {A B} P (m : pr A) (f : A -> pr B) : stable h P -> maintains P m -> (forall a, maintains P (f a)) -> maintains P (m ≫= f).
Proof. intros Hst Hm Hf. by eapply triple_bind. Qed.
Lemma maintains_settle {A} P (m : pr A) : stable h P -> maintains P m -> maintains P (settle m).
Proof. intros Hst Hm. eapply triple_bindp; [exact Hm |]. intros r. by apply maintains_ret. Qed.
Lemma maintains_call {A} P (a : action (Result A)) : quiet a = true -> stable h P -> maintains P (call a).
Proof. intros Hq Hst. apply maintains_quiet; [done | done |]. intros x. by apply maintains_ret. Qed.
Lemma maintains_effect {A} P (a : action A) : quiet a = true -> stable h P -> maintains P (effect a).
Proof. intros Hq Hst. apply maintains_quiet; [done | done |]. intros x. by apply maintains_ret. Qed.

(** A store to an owned slot. *)
Lemma store_spec P slot offset v (R : Shared -> Prop) : 0 <= slot -> stable h P -> stable h R ->
  (offset = slot_byte slot \/ offset = slot_byte slot + COMPLEMENT_OFFSET) ->
  (forall s, P s -> sh_readers s !! h = None /\ excl s SideFile (slot_byte slot) h) ->
  (forall s, P s -> R (set_words (<[offset := v]> (sh_words s)) s)) ->
  triple h P (effect (StoreWord offset v)) (fun _ => R).
Proof.
  intros Hs HP HR Ho Hx Hpost. apply (triple_act capacity h P _ _ (fun _ => R)); [done | | intros x; by apply triple_ret].
  intros s Hg Hp. destruct (Hx s Hp) as [Hi He]. split; [by split; [| exists slot] |]. intros s' x Hstep _.
  destruct Hstep as [choice s s' x E | late e s x E | choice e s s' y x Hsp E _]; [| done | done]. cbn in E. injection E as <- _. by apply Hpost.
Qed.

(** ** The reader table *)

#[local] Hint Resolve stable_holding stable_and stable_pure backed_anything backed_more backed_gate : rg.
#[local] Ltac keep := repeat first
  [ apply maintains_bind; [solve [auto with rg] | | intros ?]
  | apply maintains_settle; [solve [auto with rg] |]
  | apply maintains_call; [reflexivity | solve [auto with rg]]
  | apply maintains_effect; [reflexivity | solve [auto with rg]]
  | apply maintains_ret; solve [auto with rg] ].

Lemma maintains_check P cancellation : stable h P -> maintains P (check cancellation).
Proof. intros Hst. unfold check. destruct cancellation; [unfold ask |]; keep; done. Qed.
Lemma maintains_bytes P offset : stable h P -> maintains P (table_bytes offset).
Proof. intros Hst. unfold table_bytes, ask. keep; done. Qed.

Lemma slot_offset_ok slot : 0 <= slot < capacity -> slot_offset slot = Ok (slot_byte slot).
Proof using Hcapacity.
  intros Hs. unfold slot_offset, checked_mul, checked_add, slot_byte, SLOT_SIZE, u64_max, u32_max, PAGE_SIZE in *.
  rewrite (proj2 (Z.leb_le _ _)) by lia. cbn [ok_or mbind outcome_bind]. by rewrite (proj2 (Z.leb_le _ _)) by lia.
Qed.

Lemma store_keeps_holding ls F slot offset v : backed ls F -> 0 <= slot -> (SideFile, slot_byte slot) ∈ ls ->
  (offset = slot_byte slot \/ offset = slot_byte slot + COMPLEMENT_OFFSET) -> maintains (holding ls F) (effect (StoreWord offset v)).
Proof.
  intros Hb Hs Hin Ho. apply (store_spec _ slot); [done | by apply stable_holding | by apply stable_holding | done | |]; intros s (Hi & Hl & Hf); [by split; [| apply Hl] | done].
Qed.

Lemma fill_slot_keeps ls F slot : backed ls F -> 0 <= slot -> (SideFile, slot_byte slot) ∈ ls -> maintains (holding ls F) (fill_slot (slot_byte slot)).
Proof.
  intros Hb Hs Hin. unfold fill_slot, TRANSACTION_OFFSET. rewrite Z.add_0_r.
  apply maintains_bind; [auto with rg | apply (store_keeps_holding ls F slot); auto |]. intros _. apply (store_keeps_holding ls F slot); auto.
Qed.

Lemma gate_away slot : 0 <= slot -> (SideFile, slot_byte slot) ∉ [gate].
Proof. intros Hs [= He]%list_elem_of_singleton. unfold slot_byte, SLOT_SIZE, GATE_LOCK, PAGE_SIZE in He. lia. Qed.

Lemma clear_stale_spec F slot : lasting F -> 0 <= slot ->
  triple h (holding [(SideFile, slot_byte slot); gate] F) (clear_stale (slot_byte slot)) (fun _ => holding [gate] F).
Proof.
  intros HF Hs. unfold clear_stale. set (ls := [(SideFile, slot_byte slot); gate]).
  assert (Hin : (SideFile, slot_byte slot) ∈ ls) by left. assert (Hb : backed ls F) by (by apply backed_more, backed_gate).
  assert (Hst : stable h (holding ls F)) by (by apply stable_holding).
  eapply (triple_bind capacity h _ _ _ (fun _ => holding [gate] F)).
  - eapply triple_weaken; [apply (maintains_settle (holding ls F)) | done |]; [done | | intros ? ? _; apply holding_less; set_solver].
    unfold clear_stale_bytes. apply maintains_bind; [done | by apply maintains_bytes | intros _].
    apply maintains_bind; [done | unfold is_clear; keep; destruct (negb _); keep | intros clear].
    destruct (negb clear); [| keep]. apply maintains_bind; [done | unfold ask; keep | intros _; by apply fill_slot_keeps].
  - intros cleared. change (triple h (holding [gate] F) ?p _) with (maintains (holding [gate] F) p).
    apply maintains_bind; [auto with rg | apply maintains_settle; [auto with rg | apply unlock_spec; [by apply backed_gate | by apply gate_away]] |]. intros released. keep.
  - intros e. split; [auto with rg | done].
  - intros t. split; [auto with rg | done].
Qed.

(** What is found in a slot is what a registered reader has there. *)
Definition sees (slot : Z) (found : option Z) : fact := fun m _ => forall h' txn, m !! h' = Some (slot, txn) -> found = Some txn.
Definition both (F G : fact) : fact := fun m c => F m c /\ G m c.
Lemma lasting_sees slot found : lasting (sees slot found).
Proof. intros m m' c Hless Hs h' txn Hm. by eapply Hs, Hless. Qed.
Lemma lasting_both F G : lasting F -> lasting G -> lasting (both F G).
Proof. intros HF HG m m' c Hless [Hf Hg]. split; [by eapply HF | by eapply HG]. Qed.
#[local] Hint Resolve lasting_sees lasting_both : rg.

Definition scanned (F : fact) (slot : Z) (r : Result (option Z)) : Shared -> Prop :=
  holding [gate] (match r with Ok found => both F (sees slot found) | _ => F end).
Lemma stable_scanned F slot r : lasting F -> stable h (scanned F slot r).
Proof. intros HF. unfold scanned. destruct r; auto with rg. Qed.

Lemma read_active_spec F slot : lasting F -> 0 <= slot -> triple h (holding [gate] F) (read_active_slot (slot_byte slot)) (scanned F slot).
Proof.
  intros HF Hs. assert (Hst : stable h (holding [gate] F)) by auto with rg.
  unfold read_active_slot. eapply triple_bind; [by apply maintains_bytes | | by intros e; split ..].
  intros ?. apply (triple_bind capacity h _ _ _ (fun r => scanned F slot (r ≫= fun t => Ok (Some t)))); [| | by intros e; split; [apply stable_scanned |] ..].
  2: { intros txn. apply triple_ret; [by apply stable_scanned | done]. }
  unfold active_transaction, TRANSACTION_OFFSET. rewrite Z.add_0_r.
  assert (Hst' : forall v, stable h (holding [gate] (both F (sees slot (Some v))))) by (intros v; auto with rg).
  eapply (triple_act capacity h _ _ _ (fun v => holding [gate] (both F (sees slot (Some v))))); [done | |].
  - intros s Hg Hh. split; [done |]. intros s' v Hstep _.
    destruct Hstep as [choice s s' x E | late e s x E | choice e s s' y x Hsp E _]; [| done | done]. cbn in E. injection E as <- <-.
    eapply holding_fact; [| exact Hh]. intros Hf. split; [done |]. intros h' txn Hreg. destruct (gd_reader _ _ Hg _ _ _ Hreg) as [_ _ [-> _] _ _]. done.
  - intros v. cbn [bindp]. destruct (v =? 0); [apply triple_ret; [done | intros s; apply holding_fact; by intros []] |].
    apply maintains_quiet; [done | done |]. intros c. cbn [bindp].
    destruct (negb (c =? complement v)); apply triple_ret; [done | intros s; apply holding_fact; by intros [] | done | done].
Qed.

Lemma liftp_bind {A B} (a : A) (f : A -> pr B) : liftp (Ok a) ≫= f = f a.
Proof. done. Qed.

Lemma scan_slot_spec F slot : lasting F -> 0 <= slot < capacity -> triple h (holding [gate] F) (scan_slot slot) (scanned F slot).
Proof using Hcapacity.
  intros HF Hs. assert (Hst : stable h (holding [gate] F)) by auto with rg.
  unfold scan_slot. rewrite slot_offset_ok, liftp_bind by done.
  eapply triple_bind; [apply (trylock_spec [gate] F SideFile (slot_byte slot)); by apply backed_gate | | by intros e; split; [auto with rg | by intros s []] ..].
  intros [].
  - set (G := both F (sees slot None)). assert (HG : lasting G) by (unfold G; auto with rg).
    eapply (triple_bind capacity h _ _ _ (fun _ => holding [gate] G)).
    + eapply triple_weaken; [apply (clear_stale_spec G slot HG); lia | | done]. intros s Hg [Hh Hx]. apply holding_more; [| done].
      eapply holding_fact; [| exact Hh]. intros Hf. split; [done |]. intros h' txn Hreg. exfalso.
      destruct (gd_reader _ _ Hg _ _ _ Hreg) as [_ Hl _ _ _]. rewrite (excl_unique _ _ _ _ _ Hl Hx) in Hreg. destruct Hh as [Hi _]. congruence.
    + intros _. apply triple_ret; [auto with rg | done].
    + intros e. split; [auto with rg |]. intros s. apply holding_fact. by intros [].
    + intros e. split; [auto with rg |]. intros s. apply holding_fact. by intros [].
  - eapply triple_weaken; [apply (read_active_spec F slot HF); lia | by intros s _ [? _] | done].
Qed.

(** No reader in a slot before [slot] is older than [oldest]. *)
Definition older (slot : Z) (oldest : option Z) : fact := fun m _ =>
  forall h' i txn, m !! h' = Some (i, txn) -> i < slot -> exists o, oldest = Some o /\ o <= txn.
Lemma lasting_older slot oldest : lasting (older slot oldest).
Proof. intros m m' c Hless Ho h' i txn Hm. by eapply Ho, Hless. Qed.
#[local] Hint Resolve lasting_older : rg.

Definition observed (F : fact) (r : Result (option Z)) : Shared -> Prop :=
  holding [gate] (match r with Ok oldest => both F (older capacity oldest) | _ => F end).

Lemma older_more slot oldest found m c : older slot oldest m c -> sees slot found m c ->
  older (slot + 1) (match found with Some txn => Some (match oldest with None => txn | Some o => Z.min o txn end) | None => oldest end) m c.
Proof.
  intros Ho Hs h' i txn Hm Hi. destruct (decide (i = slot)) as [-> | Hne].
  - rewrite (Hs _ _ Hm). destruct oldest as [o|]; eexists; (split; [done |]); lia.
  - destruct (Ho h' i txn Hm ltac:(lia)) as (o & -> & Hle). destruct found as [t|]; eexists; (split; [done |]); lia.
Qed.

Lemma scan_loop_spec F committed cancellation : lasting F -> forall count slot oldest, 0 <= slot -> slot + Z.of_nat count = capacity ->
  triple h (holding [gate] (both F (older slot oldest))) (scan_loop count slot cancellation (observe_oldest committed) oldest) (observed F).
Proof using Hcapacity.
  intros HF. induction count as [|count IH]; intros slot oldest Hs Hc; cbn [scan_loop].
  - apply triple_ret; [auto with rg |]. intros s. unfold observed. by replace capacity with slot by lia.
  - assert (Hst : stable h (holding [gate] (both F (older slot oldest)))) by auto with rg.
    assert (Hdrop : forall G s, holding [gate] (both F G) s -> holding [gate] F s) by (intros G s; apply holding_fact; by intros []).
    eapply triple_bind; [by apply maintains_check | | by intros e; split; [| apply Hdrop] ..]. intros ?.
    eapply triple_bind; [apply (scan_slot_spec (both F (older slot oldest)) slot); [auto with rg | lia] | |
      by intros e; split; [apply stable_scanned; auto with rg | apply Hdrop] ..]. intros found.
    set (oldest' := match found with Some txn => Some (match oldest with None => txn | Some o => Z.min o txn end) | None => oldest end).
    eapply (triple_bind capacity h _ _ _ (fun r => holding [gate] (match r with Ok o => both F (older (slot + 1) o) | _ => F end))).
    + assert (Hnext : forall s, holding [gate] (both (both F (older slot oldest)) (sees slot found)) s -> holding [gate] (both F (older (slot + 1) oldest')) s)
        by (intros s; apply holding_fact; intros [[Hf Ho] Hsee]; split; [done | by apply older_more]).
      destruct found as [txn|]; [unfold observe_oldest; destruct (committed <? txn) |]; (apply triple_ret; [apply stable_scanned; auto with rg |]); try exact Hnext.
      intros s Hh. apply (Hdrop (older slot oldest)). eapply holding_fact; [| exact Hh]. by intros [].
    + intros o. apply IH; lia.
    + intros e. split; [auto with rg | done].
    + intros e. split; [auto with rg | done].
Qed.

Lemma oldest_spec F committed cancellation : 0 <= capacity -> lasting F ->
  triple h (holding [gate] F) (oldest_reader_inner capacity committed cancellation) (observed F).
Proof using Hcapacity.
  intros Hcap HF. eapply triple_weaken; [apply (scan_loop_spec F committed cancellation HF (Z.to_nat capacity) 0 None); lia | | done].
  intros s Hg. apply holding_fact. intros Hf. split; [done |]. intros h' i txn Hreg Hi. destruct (gd_reader _ _ Hg _ _ _ Hreg) as [Hslot _ _ _ _]. lia.
Qed.

Lemma observed_keeps F r s : observed F r s -> holding [gate] F s.
Proof. destruct r; apply holding_fact; [by intros [] | done..]. Qed.
Lemma stable_observed F r : lasting F -> stable h (observed F r).
Proof. intros HF. unfold observed. destruct r; auto with rg. Qed.

Lemma scan_at_most_cancellable_keeps F committed : 0 <= capacity -> lasting F -> maintains (holding [gate] F) (scan_at_most_cancellable capacity committed).
Proof using Hcapacity.
  intros Hcap HF. apply maintains_bind; [auto with rg | | intros ?; keep]. eapply triple_weaken; [by apply (oldest_spec F committed true) | done |].
  intros r s _. apply observed_keeps.
Qed.
Lemma scan_at_most_keeps F committed : 0 <= capacity -> lasting F -> maintains (holding [gate] F) (scan_at_most capacity committed).
Proof using Hcapacity.
  intros Hcap HF. apply maintains_bind; [auto with rg | | intros ?; keep]. eapply triple_weaken; [by apply (oldest_spec F committed false) | done |].
  intros r s _. apply observed_keeps.
Qed.

(** ** A claim *)

(** The generation that is committed is the one to be read. *)
Definition current (txn : Z) : fact := fun _ c => c = txn.
Lemma lasting_current txn : lasting (current txn).
Proof. by intros m m' c _. Qed.
#[local] Hint Resolve lasting_current : rg.

Definition registered (slot txn : Z) (s : Shared) : Prop := sh_readers s !! h = Some (slot, txn).
Lemma stable_registered slot txn : stable h (registered slot txn).
Proof. intros s s' Hs Hr. unfold registered. by rewrite (ry_readers _ _ _ Hr). Qed.
#[local] Hint Resolve stable_registered : rg.

(** The slot is owned, and what has been written of it. *)
Definition owned (slot txn : Z) : Shared -> Prop := holding [(SideFile, slot_byte slot); gate] (current txn).
Lemma stable_owned slot txn : stable h (owned slot txn).
Proof. apply stable_holding. auto with rg. Qed.
#[local] Hint Resolve stable_owned : rg.
Lemma stable_first slot txn : 0 <= slot -> stable h (fun s => owned slot txn s /\ word s (slot_byte slot) = txn).
Proof.
  intros Hs s s' [Hh Hw] Hr. split; [by eapply stable_owned |]. destruct Hh as (_ & Hl & _).
  destruct (ry_words _ _ _ Hr slot Hs) as [E1 E2]; [apply Hl; left | congruence].
Qed.
Lemma stable_named slot txn : 0 <= slot -> stable h (fun s => owned slot txn s /\ names s slot txn).
Proof.
  intros Hs s s' [Hh [Hw Hw']] Hr. split; [by eapply stable_owned |]. destruct Hh as (_ & Hl & _).
  destruct (ry_words _ _ _ Hr slot Hs) as [E1 E2]; [apply Hl; left | split; congruence].
Qed.

Lemma write_claim_spec slot txn : 0 <= slot -> triple h (owned slot txn) (write_claim (slot_byte slot) txn)
  (fun r s => owned slot txn s /\ match r with Ok _ => names s slot txn | _ => True end).
Proof.
  intros Hs. unfold write_claim. eapply triple_bind; [apply maintains_bytes; auto with rg | | by intros e; split; [auto with rg |] ..].
  intros ?. unfold slot_write, TRANSACTION_OFFSET. rewrite Z.add_0_r.
  assert (Hheld : forall s, owned slot txn s -> sh_readers s !! h = None /\ excl s SideFile (slot_byte slot) h)
    by (intros s (Hi & Hl & _); split; [done | apply Hl; left]).
  eapply (triple_bind capacity h _ _ _ (fun _ s => owned slot txn s /\ word s (slot_byte slot) = txn)).
  - apply (store_spec _ slot); [done | auto with rg | by apply stable_first | by left | done |]. intros s Hh. split; [done |]. rewrite word_store. by rewrite decide_True.
  - intros ?. eapply triple_weaken; [apply (store_spec (fun s => owned slot txn s /\ word s (slot_byte slot) = txn) slot _ _ (fun s => owned slot txn s /\ names s slot txn)) | done |].
    + done.
    + by apply stable_first.
    + by apply stable_named.
    + by right.
    + intros s [Hh _]. by apply Hheld.
    + intros s [Hh Hw]. split; [done |]. unfold names. rewrite !word_store. rewrite decide_False by (unfold COMPLEMENT_OFFSET; lia). by rewrite decide_True.
    + intros r s _ [Hh Hn]. split; [done | by destruct r].
  - intros e. split; [by apply stable_first | by intros s []].
  - intros e. split; [by apply stable_first | by intros s []].
Qed.

Lemma claim_spec slot txn : 0 <= slot < capacity ->
  triple h (fun s => owned slot txn s /\ names s slot txn) (effect (Claimed slot txn))
    (fun r s => match r with Ok _ => registered slot txn s | _ => False end).
Proof.
  intros Hs. apply (triple_act capacity h _ _ _ (fun _ => registered slot txn)); [apply stable_named; lia | | intros x; apply triple_ret; auto with rg].
  intros s Hg [(Hi & Hl & Hc) Hn]. unfold current in Hc. pose proof (gd_committed _ _ Hg). pose proof (gd_reclaimed _ _ Hg). split.
  - split; [apply Hl; right; left |]. split; [done | apply Hl; left | done | lia | lia].
  - intros s' x Hstep _. destruct Hstep as [choice s s' x E | late e s x E | choice e s s' y x Hsp E _]; [| done | done].
    cbn in E. injection E as <- _. unfold registered. cbn. apply lookup_insert_eq.
Qed.

Definition claimed (txn : Z) (r : Result Z) : Shared -> Prop :=
  match r with Ok slot => registered slot txn | _ => holding [gate] (current txn) end.

Lemma unlock_after_spec slot txn cause : 0 <= slot -> triple h (owned slot txn) (unlock_after (slot_byte slot) cause) (claimed txn).
Proof.
  intros Hs. unfold unlock_after. eapply (triple_bind capacity h _ _ _ (fun _ => holding [gate] (current txn))); [| | by intros e; split; [auto with rg |] ..].
  - eapply triple_weaken; [apply (maintains_settle (holding [gate] (current txn))); [auto with rg | apply unlock_spec; [auto with rg | by apply gate_away]] | | done].
    intros s _. apply holding_less. set_solver.
  - intros released. destruct (combine_errors cause (result_of released)); apply triple_ret; auto with rg.
Qed.

Lemma claim_loop_spec txn cancellation : forall count slot, 0 <= slot -> slot + Z.of_nat count = capacity ->
  triple h (holding [gate] (current txn)) (claim_loop count slot txn cancellation) (claimed txn).
Proof using Hcapacity.
  assert (Hst : stable h (holding [gate] (current txn))) by auto with rg.
  induction count as [|count IH]; intros slot Hs Hc; cbn [claim_loop]; [by apply triple_ret |].
  eapply triple_bind; [by apply maintains_check | | by intros e; split ..]. intros ?. rewrite slot_offset_ok, liftp_bind by lia.
  eapply triple_bind; [apply (trylock_spec [gate] (current txn) SideFile (slot_byte slot)); auto with rg | | by intros e; split; [auto with rg | by intros s []] ..].
  intros [] ; cbn [negb]; [| eapply triple_weaken; [apply IH; lia | by intros s _ [? _] | done]].
  eapply (triple_weaken capacity h (owned slot txn)); [| intros s _ [Hh Hx]; by apply holding_more | done].
  eapply triple_bind; [apply maintains_settle; [| apply maintains_check]; auto with rg | |
    by intros e; split; [auto with rg | intros s; apply holding_less; set_solver] ..]. intros [? | cause]; [| apply unlock_after_spec; lia].
  eapply (triple_bind capacity h _ _ _ (fun r s => owned slot txn s /\ match r with Ok (inl _) => names s slot txn | _ => True end)).
  - eapply triple_bindp; [apply write_claim_spec; lia |]. intros r. apply triple_ret; [destruct r | by destruct r]; [apply stable_named; lia | auto with rg ..].
  - intros [? | cause].
    + eapply triple_bind; [apply claim_spec; lia | intros ?; apply triple_ret; auto with rg | by intros e; split; [apply stable_pure |] ..].
    + eapply triple_weaken; [apply (unlock_after_spec slot txn cause); lia | by intros s _ [] | done].
  - intros e. split; [auto with rg | intros s [Hh _]; revert Hh; apply holding_less; set_solver].
  - intros e. split; [auto with rg | intros s [Hh _]; revert Hh; apply holding_less; set_solver].
Qed.
End Specs.
