(* ===== verification/ReaderSafety.v ===== *)
(** * Readers keep their generations

    Whatever readers and writers do, in whatever order, and whatever fails or
    dies on the way: no transaction is reclaimed that a registered reader may
    still read. *)

From stdpp Require Import base tactics numbers list strings countable gmap.
From Stdlib Require Import ZArith Lia.
From S2P Require Import Prelude Errors Bytes WriterCore Retirement Concurrent ReaderTable LiveHandles RelyGuarantee ReaderSpecs.

#[local] Open Scope string_scope.
#[local] Open Scope list_scope.
#[local] Open Scope Z_scope.

Section Lives.
Context (capacity : Z) (Hcap : 0 <= capacity) (Hcapacity : capacity <= u32_max) (h : nat).
Notation good := (good capacity).
Notation triple := (triple capacity).
Notation maintains := (maintains capacity h).
Notation gate := (SideFile, GATE_LOCK).
Notation holding := (holding h).
Notation registered := (registered h).
Definition idle : Shared -> Prop := holding [] anything.
Definition gated (F : fact) : Shared -> Prop := holding [gate] F.

Lemma stable_idle : stable h idle.
Proof. apply stable_holding. by left. Qed.
Lemma stable_gated F : lasting F -> stable h (gated F).
Proof. intros HF. apply stable_holding. by apply backed_gate. Qed.
Lemma lasting_anything : lasting anything.
Proof. done. Qed.
Lemma gated_idle F s : gated F s -> idle s.
Proof. intros (Hi & _ & _). split; [done |]. split; [intros f o Hin; by apply elem_of_nil in Hin | done]. Qed.

#[local] Hint Resolve stable_holding stable_and stable_pure stable_idle stable_gated stable_registered : rg.
#[local] Hint Resolve lasting_anything lasting_sees lasting_both lasting_older lasting_current backed_anything backed_gate : rg.
#[local] Ltac keep := repeat first
  [ apply maintains_bind; [solve [auto with rg] | | intros ?]
  | apply maintains_settle; [solve [auto with rg] |]
  | apply maintains_call; [reflexivity | solve [auto with rg]]
  | apply maintains_effect; [reflexivity | solve [auto with rg]]
  | apply maintains_ret; solve [auto with rg] ].

(** Locks that are not on slots are open to everybody. *)
Lemma away_far f offset s : good s -> (forall slot, 0 <= slot -> (f, offset) <> (SideFile, slot_byte slot)) -> away h f offset s.
Proof. intros Hg Hfar slot txn Hreg. apply Hfar. destruct (gd_reader _ _ Hg _ _ _ Hreg) as [[? _] _ _ _ _]. done. Qed.
Lemma gate_far slot : 0 <= slot -> gate <> (SideFile, slot_byte slot).
Proof. intros Hs [= He]. unfold slot_byte, SLOT_SIZE, GATE_LOCK, PAGE_SIZE in He. lia. Qed.
Lemma main_far offset slot : 0 <= slot -> (MainFile, offset) <> (SideFile, slot_byte slot).
Proof. done. Qed.

(** They say nothing of who is registered. *)
Definition lock_call {X} (a : action X) : option (locked_file * Z) :=
  match a with Lock f offset _ | TryLock f offset _ | Unlock f offset => Some (f, offset) | _ => None end.
Lemma lock_readers {X} (a : action X) l s s' x : lock_call a = Some l -> steps h a s s' x -> sh_readers s' = sh_readers s.
Proof.
  intros Hl Hs. destruct Hs as [choice s s' x E | late e s x E | choice e s s' y x Hsp E _]; [| done | by destruct a].
  destruct a; try done; cbn [perform] in E.
  - destruct (locked h f offset mode s) as [s2|] eqn:E2; [| done]. injection E as <- _. by apply locked_spec in E2 as (_ & ? & _).
  - destruct (locked h f offset mode s) as [s2|] eqn:E2; injection E as <- _; [by apply locked_spec in E2 as (_ & ? & _) | done].
  - injection E as <- _. done.
Qed.

Lemma far_keeps {A} (P : Shared -> Prop) (a : action (Result A)) f offset : lock_call a = Some (f, offset) -> stable h P ->
  (forall s s', sh_readers s' = sh_readers s -> P s -> P s') -> (forall slot, 0 <= slot -> (f, offset) <> (SideFile, slot_byte slot)) -> maintains P (call a).
Proof.
  intros Ha Hst HP Hfar. apply triple_call; [done | done |]. intros s Hg Hs. split.
  - pose proof (away_far f offset s Hg Hfar). destruct a; try done; by injection Ha as -> ->.
  - intros s' x Hstep _. eapply HP; [| exact Hs]. by eapply lock_readers.
Qed.

Lemma select_current_spec F : lasting F -> triple h (gated F) (call Select) (fun r => gated (match r with Ok txn => both F (current txn) | _ => F end)).
Proof.
  intros HF. apply triple_call; [auto with rg | intros []; auto with rg |]. intros s Hg Hs. split; [done |].
  intros s' x Hstep _. destruct Hstep as [choice s s' x E | late e s x E | choice e s s' y x Hsp E _]; [| | done]; cbn in E.
  - injection E as <- <-. eapply holding_fact; [| exact Hs]. done.
  - by injection E as <-.
Qed.

Lemma lock_gate_spec : triple h idle (lock_gate ModeExclusive) (fun r => match r with Ok _ => gated anything | _ => idle end).
Proof.
  eapply triple_weaken; [apply (lock_spec capacity h [] anything SideFile GATE_LOCK); auto with rg | done |].
  intros r s _ [Hh Hx]. destruct r; [by apply holding_more | done | done].
Qed.
Lemma lock_gate_cancellable_spec : triple h idle (lock_gate_cancellable ModeExclusive) (fun r => match r with Ok _ => gated anything | _ => idle end).
Proof.
  unfold lock_gate_cancellable. eapply triple_bind; [apply (maintains_call capacity h idle (Ask Cancellation)); auto with rg | | by intros e; split; [auto with rg |] ..].
  intros ?. apply lock_gate_spec.
Qed.

Lemma unlock_gate_spec F : triple h (gated F) (settle unlock_gate) (fun _ => idle).
Proof.
  eapply triple_weaken; [apply (maintains_settle capacity h idle (unlock_gate)); [auto with rg |] | intros s _; apply gated_idle | done].
  apply (unlock_spec capacity h [] anything); [auto with rg | apply not_elem_of_nil].
Qed.

(** ** Readers *)

Definition selected (r : Result Z) : Shared -> Prop := match r with Ok txn => gated (current txn) | _ => gated anything end.

Lemma select_generation_spec : triple h (gated anything) (select_registered_generation capacity) selected.
Proof using Hcap Hcapacity.
  unfold select_registered_generation, ask.
  do 3 (eapply triple_bind; [apply maintains_call; [reflexivity | apply stable_gated; auto with rg] | intros ? | by intros e; split; [auto with rg |] ..]).
  eapply triple_bind; [apply select_current_spec; auto with rg | intros txn | by intros e; split; [auto with rg |] ..].
  eapply (triple_weaken capacity h (gated (current txn))); [| intros s _; apply holding_fact; by intros [_ ?] | done].
  assert (Hdrop : forall s, gated (current txn) s -> gated anything s) by (intros s; by apply holding_fact).
  eapply triple_bind; [apply maintains_call; [reflexivity | auto with rg] | intros ? | by intros e; split; [auto with rg |] ..].
  eapply triple_bind; [apply scan_at_most_cancellable_keeps; auto with rg | intros ? | by intros e; split; [auto with rg |] ..].
  apply triple_ret; auto with rg.
Qed.

Definition enrolled (r : Result (Z * Z)) (s : Shared) : Prop := match r with Ok (txn, slot) => registered slot txn s | _ => True end.
Lemma stable_enrolled r : stable h (enrolled r).
Proof. destruct r as [[]| |]; [apply stable_registered | apply stable_pure ..]. Qed.

Lemma register_spec : triple h (gated anything) (register capacity) enrolled.
Proof using Hcap Hcapacity.
  unfold register, ask. eapply triple_bind; [apply select_generation_spec | intros txn | by intros e; split; [apply stable_gated; auto with rg |] ..].
  eapply triple_bind; [apply (maintains_call capacity h (gated (current txn))); [reflexivity | auto with rg] | intros ? | by intros e; split; [auto with rg |] ..].
  eapply (triple_bind capacity h _ _ _ (claimed h txn)).
  - unfold claim_reader_cancellable, claim_reader_inner. destruct (txn =? 0); [apply triple_ret; auto with rg |]. apply claim_loop_spec; [done | done | lia].
  - intros slot. change (claimed h txn (Ok slot)) with (registered slot txn).
    do 3 (eapply triple_bind; [apply (maintains_call capacity h (registered slot txn)); [reflexivity | auto with rg] | intros ? | by intros e; split; [auto with rg |] ..]).
    apply triple_ret; auto with rg.
  - intros e. split; [cbn; auto with rg | done].
  - intros e. split; [cbn; auto with rg | done].
Qed.

(** Calls on the gate and the main lock keep what is said of the readers. *)
Lemma enrolled_lock {A} (a : action (Result A)) r f offset : lock_call a = Some (f, offset) -> (f, offset) = gate \/ f = MainFile -> maintains (enrolled r) (call a).
Proof.
  intros Ha Hf. eapply far_keeps; [exact Ha | apply stable_enrolled | | intros slot Hs].
  - intros s s' Er. unfold enrolled, ReaderSpecs.registered. destruct r as [[]| |]; [by rewrite Er | done | done].
  - destruct Hf as [-> | ->]; [by apply gate_far | by apply main_far].
Qed.

Lemma reader_open_spec : triple h idle (reader_open capacity) (fun r s => match r with Ok core => lr_state core = ReaderOpen /\ registered (lr_slot core) (lr_txn core) s | _ => True end).
Proof using Hcap Hcapacity.
  unfold reader_open, ask.
  do 4 (eapply triple_bind; [apply (maintains_call capacity h idle); [reflexivity | auto with rg] | intros ? | by intros e; split; [auto with rg |] ..]).
  eapply triple_bind; [apply (lock_shared_spec capacity h [] anything); [auto with rg | apply not_elem_of_nil] | intros ? | by intros e; split; [auto with rg |] ..].
  do 4 (eapply triple_bind; [apply (maintains_call capacity h idle); [reflexivity | auto with rg] | intros ? | by intros e; split; [auto with rg |] ..]).
  eapply triple_bind; [apply lock_gate_cancellable_spec | intros ? | by intros e; split; [auto with rg |] ..].
  eapply (triple_bind capacity h _ _ _ (fun r => match r with Ok x => enrolled (result_of x) | _ => fun _ => True end)).
  { eapply triple_bindp; [apply register_spec |]. intros r. apply triple_ret; [apply stable_enrolled | by destruct r]. }
  2, 3: intros e; split; [apply stable_pure | done].
  intros registration. eapply triple_bind; [apply maintains_settle; [apply stable_enrolled |] | intros released | by intros e; split; [apply stable_enrolled |] ..].
  { eapply enrolled_lock; [reflexivity | by left]. }
  destruct registration as [[txn slot] | e]; cbn [result_of finish_with_cleanup].
  - destruct released as [? | e]; cbn [result_of]; [| apply triple_ret; [apply stable_registered | done]]. rewrite liftp_bind. apply triple_ret; [apply stable_registered | done].
  - destruct released; cbn; (apply triple_ret; [apply stable_pure | done]).
Qed.

(** What a closing reader still has. *)
Definition phase (r : LiveReaderCore) (s : Shared) : Prop :=
  match lr_state r with
  | ReaderOpen | CloseOnly | GateHeldSlotActive => registered (lr_slot r) (lr_txn r) s
  | GateHeldSlotClearing | GateHeldSlotCleared => 0 <= lr_slot r < capacity /\ holding [(SideFile, slot_byte (lr_slot r))] anything s
  | _ => idle s
  end.
Lemma stable_phase r : stable h (phase r).
Proof. unfold phase. destruct (lr_state r); auto with rg. Qed.
#[local] Hint Resolve stable_phase : rg.

Definition staged (x : Result (LiveReaderCore * option LiveReaderClose)) (s : Shared) : Prop :=
  match x with Ok (r', _) => phase r' s | Err _ => False | Panic _ => True end.
Definition stage_ok (a : stage) : Prop := forall r, triple h (phase r) (a r) staged.
Lemma stable_staged x : stable h (staged x).
Proof. unfold staged. destruct x as [[]| |]; auto with rg. Qed.

Lemma settle_spec {A} P (m : pr A) (R : Result A -> Shared -> Prop) : triple h P m R -> (forall r, stable h (R r)) ->
  triple h P (settle m) (fun x => match x with Ok (inl a) => R (Ok a) | Ok (inr e) => R (Err e) | Panic t => R (Panic t) | Err _ => fun _ => False end).
Proof. intros Hm HR. eapply triple_bindp; [exact Hm |]. intros r. apply triple_ret; [apply HR | by destruct r]. Qed.

Lemma stages_ok (a b : stage) : stage_ok a -> stage_ok b -> stage_ok (stages a b).
Proof.
  intros Ha Hb r. unfold stages. eapply triple_bind; [apply Ha | | by intros e; split; [apply (stable_staged (Err e)) |] | by intros e; split; [apply (stable_staged (Panic e)) |]].
  intros [r' stopped]. destruct stopped; [apply triple_ret; [apply stable_phase | done] | apply Hb].
Qed.

(** One stage: from what the state before it has to what the state after it has. *)
Lemma advance_ok from to (m : LiveReaderCore -> pr unit) :
  (forall r, lr_state r = from -> triple h (phase r) (m r) (fun x => match x with Ok _ => phase (set_reader_state to r) | Err _ => phase r | Panic _ => fun _ => True end)) ->
  stage_ok (advance from to m).
Proof.
  intros Hm r. unfold advance. case_decide as Hst; [| apply triple_ret; [apply stable_phase | done]].
  eapply triple_bind; [apply settle_spec; [by apply Hm | intros []; auto with rg] | | by intros e; split; [auto with rg |] ..].
  intros [? | cause]; apply triple_ret; try apply stable_phase; done.
Qed.

Lemma phase_lock {A} (a : action (Result A)) r f offset : lock_call a = Some (f, offset) -> (f, offset) = gate \/ f = MainFile ->
  (lr_state r <> GateHeldSlotClearing /\ lr_state r <> GateHeldSlotCleared) -> maintains (phase r) (call a).
Proof.
  intros Ha Hf [H1 H2]. eapply far_keeps; [exact Ha | apply stable_phase | | intros slot Hs].
  - intros s s' Er. unfold phase, ReaderSpecs.registered, idle, ReaderSpecs.holding, anything.
    destruct (lr_state r); try done; rewrite Er; try done; intros [? _]; (split; [done |]; split; [intros f' o Hin; by apply elem_of_nil in Hin | done]).
  - destruct Hf as [-> | ->]; [by apply gate_far | by apply main_far].
Qed.

Lemma registered_phase r st s : st = ReaderOpen \/ st = CloseOnly \/ st = GateHeldSlotActive -> lr_state r = ReaderOpen \/ lr_state r = CloseOnly \/ lr_state r = GateHeldSlotActive ->
  phase r s -> phase (set_reader_state st r) s.
Proof. unfold phase. cbn. by intros [-> | [-> | ->]] [-> | [-> | ->]]. Qed.

Lemma settled {A} (P : Shared -> Prop) (m : pr A) : stable h P -> maintains P m ->
  triple h P (settle m) (fun x s => match x with Ok _ => P s | Err _ => False | Panic _ => True end).
Proof.
  intros Hst Hm. eapply triple_weaken; [apply (settle_spec P m (fun _ => P)); done | done |]. intros [[]| |] s _; done.
Qed.

Lemma take_gate_ok : stage_ok take_gate.
Proof.
  intros r. unfold take_gate. case_decide as Hst; [| apply triple_ret; [apply stable_phase | done]].
  eapply triple_bind; [apply (settled (phase r)); [apply stable_phase | eapply phase_lock; [reflexivity | by left | destruct Hst as [-> | ->]; done]] | |
    by intros e; split; [apply stable_pure |] ..].
  intros [? | cause]; (apply triple_ret; [apply stable_phase |]); intros s; apply registered_phase; tauto.
Qed.

Lemma unmap_spec slot txn : triple h (registered slot txn) (effect Unmap)
  (fun x s => match x with Ok _ => 0 <= slot < capacity /\ holding [(SideFile, slot_byte slot)] anything s | _ => False end).
Proof.
  apply (triple_act capacity h _ _ _ (fun _ s => 0 <= slot < capacity /\ holding [(SideFile, slot_byte slot)] anything s));
    [auto with rg | | intros x; apply triple_ret; [auto with rg | done]].
  intros s Hg Hs. split; [done |]. intros s' x Hstep _.
  destruct Hstep as [choice s s' x E | late e s x E | choice e s s' y x Hsp E _]; [| done | done]. cbn in E. injection E as <- _.
  destruct (gd_reader _ _ Hg _ _ _ Hs) as [Hslot Hl _ _ _]. split; [done |]. split; [cbn; apply lookup_delete_eq |]. split; [| done].
  by intros f o [= -> ->]%list_elem_of_singleton.
Qed.

Lemma verify_reader_keeps P slot txn : stable h P -> maintains P (verify_reader capacity slot txn).
Proof.
  intros HP. unfold verify_reader, liftp. apply maintains_bind; [done | by apply maintains_ret |]. intros offset. apply maintains_bind; [done | |].
  - unfold read_active_slot, active_transaction. apply maintains_bind; [done | by apply maintains_bytes |]. intros ?.
    keep. destruct (_ =? 0); [keep |]. keep. destruct (negb _); keep.
  - intros active. destruct (negb _); keep.
Qed.
Lemma verify_registration_keeps r : maintains (registered (lr_slot r) (lr_txn r)) (verify_registration capacity r).
Proof.
  unfold verify_registration, ask. do 3 (apply maintains_bind; [auto with rg | apply maintains_call; [reflexivity | auto with rg] | intros ?]).
  apply verify_reader_keeps. auto with rg.
Qed.

Lemma leave_generation_ok : stage_ok (leave_generation capacity).
Proof.
  intros r. unfold leave_generation. case_decide as Hst; [| apply triple_ret; [apply stable_phase | done]].
  assert (Hph : phase r = registered (lr_slot r) (lr_txn r)) by (unfold phase; by rewrite Hst).
  eapply triple_bind; [apply (settled (phase r)); [apply stable_phase | rewrite Hph; apply verify_registration_keeps] | | by intros e; split; [apply stable_pure |] ..].
  intros [? | cause].
  - rewrite Hph. eapply triple_bind; [apply unmap_spec | | by intros e; split; [apply stable_pure |] ..].
    intros ?. apply triple_ret; [auto with rg | done].
  - unfold release_gate_after_failure.
    eapply (triple_bind capacity h _ _ _ (fun x s => match x with Ok (r', _) => phase r' s | Err _ => False | Panic _ => True end)).
    + eapply triple_bind; [apply (settled (phase r)); [apply stable_phase | eapply phase_lock; [reflexivity | by left | by rewrite Hst]] | |
        by intros e; split; [apply stable_pure |] ..].
      intros [? | cleanup]; (apply triple_ret; [apply stable_phase |]); [intros s; apply registered_phase; tauto | done].
    + intros [r' c]. apply triple_ret; [apply stable_phase | done].
    + by intros e; split; [apply stable_pure |].
    + by intros e; split; [apply stable_pure |].
Qed.

Lemma slot_offset_checked_ok slot : 0 <= slot < capacity -> slot_offset_checked slot capacity = Ok (slot_byte slot).
Proof using Hcapacity. intros Hs. unfold slot_offset_checked. rewrite (proj2 (Z.leb_gt _ _)) by lia. by apply (slot_offset_ok capacity). Qed.

Lemma clear_reader_keeps slot : 0 <= slot < capacity -> maintains (holding [(SideFile, slot_byte slot)] anything) (clear_reader capacity slot).
Proof using Hcapacity.
  intros Hs. unfold clear_reader. rewrite slot_offset_checked_ok, liftp_bind by done.
  apply maintains_bind; [auto with rg | apply maintains_bytes; auto with rg |]. intros _. apply fill_slot_keeps; [auto with rg | lia | left].
Qed.

Lemma unlock_reader_spec slot : 0 <= slot < capacity -> triple h (holding [(SideFile, slot_byte slot)] anything) (unlock_reader capacity slot)
  (fun x => match x with Ok _ => idle | _ => holding [(SideFile, slot_byte slot)] anything end).
Proof using Hcapacity.
  intros Hs. unfold unlock_reader. rewrite slot_offset_checked_ok, liftp_bind by done.
  apply triple_call; [auto with rg | intros []; auto with rg |]. intros s Hg Hh. split; [apply away_idle, Hh |]. intros s' x Hstep _.
  destruct Hstep as [choice s s' x E | late e s x E | choice e s s' y x Hsp E _]; [| | done]; cbn [perform failure] in E.
  - injection E as <- <-. destruct Hh as [Hi _]. split; [done |]. split; [intros f o Hin; by apply elem_of_nil in Hin | done].
  - by injection E as <-.
Qed.

Definition close_stages : stage :=
  stages take_gate
    (stages (leave_generation capacity)
       (stages (advance GateHeldSlotClearing GateHeldSlotCleared (fun r => clear_reader capacity (lr_slot r)))
          (stages (advance GateHeldSlotCleared GateHeldSlotReleased (fun r => unlock_reader capacity (lr_slot r)))
             (stages (advance GateHeldSlotReleased MainLockOnly (fun _ => unlock_gate))
                (advance MainLockOnly ReaderClosed (fun _ => call (Unlock MainFile MAIN_LIFETIME_LOCK))))))).

Lemma close_stages_ok : stage_ok close_stages.
Proof using Hcapacity.
  unfold close_stages. repeat apply stages_ok.
  - apply take_gate_ok.
  - apply leave_generation_ok.
  - apply advance_ok. intros r Hst s Hg Hp. assert (Hr : 0 <= lr_slot r < capacity) by (unfold phase in Hp; rewrite Hst in Hp; by destruct Hp).
    revert s Hg Hp. change (triple h (phase r) (clear_reader capacity (lr_slot r))
      (fun x => match x with Ok _ => phase (set_reader_state GateHeldSlotCleared r) | Err _ => phase r | Panic _ => fun _ => True end)).
    eapply triple_weaken; [apply (clear_reader_keeps (lr_slot r) Hr) | unfold phase; rewrite Hst; by intros s _ [] |].
    intros x s _ Hh. destruct x; [by split | unfold phase; rewrite Hst; by split | done].
  - apply advance_ok. intros r Hst s Hg Hp. assert (Hr : 0 <= lr_slot r < capacity) by (unfold phase in Hp; rewrite Hst in Hp; by destruct Hp).
    revert s Hg Hp. change (triple h (phase r) (unlock_reader capacity (lr_slot r))
      (fun x => match x with Ok _ => phase (set_reader_state GateHeldSlotReleased r) | Err _ => phase r | Panic _ => fun _ => True end)).
    eapply triple_weaken; [apply (unlock_reader_spec (lr_slot r) Hr) | unfold phase; rewrite Hst; by intros s _ [] |].
    intros x s _ Hh. destruct x; [done | unfold phase; rewrite Hst; by split | done].
  - apply advance_ok. intros r Hst. eapply triple_weaken; [eapply (phase_lock _ r); [reflexivity | by left | by rewrite Hst] | done |].
    intros x s _ Hp. destruct x; [| done | done]. unfold phase in *. by rewrite Hst in Hp.
  - apply advance_ok. intros r Hst. eapply triple_weaken; [eapply (phase_lock _ r); [reflexivity | by right | by rewrite Hst] | done |].
    intros x s _ Hp. destruct x; [| done | done]. unfold phase in *. by rewrite Hst in Hp.
Qed.

Lemma reader_close_spec r : triple h (phase r) (reader_close capacity r) (fun x => match x with Ok (r', _) => phase r' | Err _ => phase r | Panic _ => fun _ => True end).
Proof using Hcapacity.
  unfold reader_close. fold close_stages. eapply triple_bind; [apply (maintains_call capacity h (phase r) (Ask Owner)); [reflexivity | apply stable_phase] | | by intros e; split; [apply stable_phase |] ..].
  intros ?. case_decide; [apply triple_ret; [apply stable_phase | done] |].
  eapply triple_bind; [apply close_stages_ok | | by intros e; split; [apply stable_pure |] ..].
  intros [r' stopped]. apply triple_ret; [apply stable_phase | done].
Qed.

Lemma closing_spec calls : forall r, triple h (phase r) (closing capacity calls r) (fun _ _ => True).
Proof using Hcapacity.
  induction calls as [|calls IH]; intros r; cbn [closing]; [apply triple_ret; [apply stable_phase | done] |].
  eapply triple_bind; [apply settle_spec; [apply reader_close_spec | intros [[]| |]; auto with rg] | | by intros e; split; [auto with rg |] ..].
  intros [[r' c] | e]; apply IH.
Qed.

Lemma reader_life_safe closes : triple h idle (reader_life capacity closes) (fun _ _ => True).
Proof using Hcap Hcapacity.
  unfold reader_life. eapply triple_bind; [apply reader_open_spec | | by intros e; split; [auto with rg |] ..].
  intros r. eapply triple_weaken; [apply (closing_spec closes r) | | done]. intros s _ [Hst Hreg]. unfold phase. by rewrite Hst.
Qed.
End Lives.
