(* ===== verification/WriterSafety.v ===== *)
(** * The writer among readers

    Every call of a live writer is permitted: it publishes and reclaims only
    under the gate, and it reclaims only what a scan of the reader table, under
    the same hold of the gate, has found no reader for.  With [ReaderSafety]
    this makes any system of readers and writers keep the generations that
    are being read. *)

From stdpp Require Import base tactics numbers list strings countable gmap.
From Stdlib Require Import ZArith Lia.
From S2P Require Import Prelude Errors Bytes WriterCore Retirement Concurrent ReaderTable LiveHandles RelyGuarantee ReaderSpecs ReaderSafety.

#[local] Open Scope string_scope.
#[local] Open Scope list_scope.
#[local] Open Scope Z_scope.

Section Writers.
Context (capacity : Z) (Hcap : 0 <= capacity) (Hcapacity : capacity <= u32_max) (h : nat).
Notation good := (good capacity).
Notation triple := (triple capacity).
Notation maintains := (maintains capacity h).
Notation gate := (SideFile, GATE_LOCK).
Notation idle := (idle h).
Notation gated := (gated h).

#[local] Hint Resolve stable_idle stable_gated lasting_anything lasting_both lasting_older lasting_current : rg.

(** Methods of the writer, whatever the handle's own state. *)
Definition wtriple {A} (P : Shared -> Prop) (m : wr A) (Q : Result A -> Shared -> Prop) : Prop :=
  forall w, triple h P (m w) (fun x => Q (snd x)).
Definition wmaintains {A} (P : Shared -> Prop) (m : wr A) : Prop := wtriple P m (fun _ => P).

Lemma wtriple_weaken {A} P P' (m : wr A) Q Q' : wtriple P m Q -> (forall s, P' s -> P s) -> (forall r s, Q r s -> Q' r s) -> wtriple P' m Q'.
Proof. intros Ht Hp Hq w. eapply triple_weaken; [apply Ht | intros s _; apply Hp | intros x s _; apply Hq]. Qed.
Lemma wtriple_plain {A} P (m : pr A) Q : (forall r, stable h (Q r)) -> triple h P m Q -> wtriple P (plain m) Q.
Proof. intros HQ Hm w. eapply triple_bindp; [exact Hm |]. intros r. by apply triple_ret. Qed.
Lemma wtriple_bind {A B} P (m : wr A) (f : A -> wr B) R (Q : Result B -> Shared -> Prop) : (forall r, stable h (R r)) -> wtriple P m R ->
  (forall a, wtriple (R (Ok a)) (f a) Q) -> (forall e s, R (Err e) s -> Q (Err e) s) -> (forall t s, R (Panic t) s -> Q (Panic t) s) ->
  wtriple P (m ≫= f) Q.
Proof.
  intros HR Hm Hf He Hp w. eapply triple_bindp; [apply Hm |]. intros [w' [a | e | t]]; [apply Hf | |]; (apply triple_ret; [apply HR |]); [apply He | apply Hp].
Qed.

(** ** Methods that keep an assertion *)

Section Keeps.
Context (P : Shared -> Prop) (HP : stable h P).

Lemma wmaintains_ret {A} (a : A) : wmaintains P (mret a).
Proof using HP. intros w. by apply triple_ret. Qed.
Lemma wmaintains_refuse {A} e : wmaintains P (refuse (A:=A) e).
Proof using HP. intros w. by apply triple_ret. Qed.
Lemma wmaintains_get {A} (f : LiveWriter -> A) : wmaintains P (writer_get f).
Proof using HP. intros w. by apply triple_ret. Qed.
Lemma wmaintains_state st : wmaintains P (set_writer_state st).
Proof using HP. intros w. by apply triple_ret. Qed.
Lemma wmaintains_draft b : wmaintains P (set_draft b).
Proof using HP. intros w. by apply triple_ret. Qed.
Lemma wmaintains_plain {A} (m : pr A) : maintains P m -> wmaintains P (plain m).
Proof using HP. intros Hm. by apply wtriple_plain. Qed.
Lemma wmaintains_bind {A B} (m : wr A) (f : A -> wr B) : wmaintains P m -> (forall a, wmaintains P (f a)) -> wmaintains P (m ≫= f).
Proof using HP. intros Hm Hf. by eapply (wtriple_bind _ _ _ (fun _ => P)). Qed.
Lemma wmaintains_settle {A} (m : wr A) : wmaintains P m -> wmaintains P (settle_writer m).
Proof using HP. intros Hm w. eapply triple_bindp; [apply Hm |]. intros [w' r]. by apply triple_ret. Qed.
Lemma maintains_asks q : maintains P (ask q).
Proof using HP. by apply maintains_call. Qed.
Lemma maintains_lift {A} (r : Result A) : maintains P (liftp r).
Proof using HP. by apply maintains_ret. Qed.
Lemma maintains_mret {A} (a : A) : maintains P (mret (M:=pr) a).
Proof using HP. by apply maintains_ret. Qed.
Lemma maintains_query q : maintains P (effect (Query q)).
Proof using HP. by apply maintains_effect. Qed.
Lemma maintains_select : maintains P (call Select).
Proof using HP. by apply maintains_call. Qed.
Lemma maintains_verify : maintains P verify_pair.
Proof using HP. unfold verify_pair. do 2 (apply maintains_bind; [done | apply maintains_asks | intros ?]). apply maintains_asks. Qed.
End Keeps.

#[local] Hint Resolve wmaintains_ret wmaintains_refuse wmaintains_get wmaintains_state wmaintains_draft maintains_asks maintains_lift maintains_mret maintains_query maintains_select maintains_verify : rg.
(** Step through a method whose every part maintains the assertion. *)
#[local] Ltac wkeep := repeat first
  [ solve [auto with rg]
  | apply wmaintains_bind; [solve [auto with rg] | | intros ?]
  | apply wmaintains_settle; [solve [auto with rg] |]
  | apply wmaintains_plain; [solve [auto with rg] |]
  | apply maintains_bind; [solve [auto with rg] | | intros ?]
  | apply maintains_settle; [solve [auto with rg] |]
  | match goal with
    | |- wtriple ?P ?m (fun _ => ?P) => change (wmaintains P m)
    | |- ReaderSpecs.maintains _ _ _ (match ?x with _ => _ end) => destruct x
    | |- wmaintains _ (if ?x then _ else _) => destruct x
    | |- wmaintains _ (match ?x with _ => _ end) => destruct x
    end ].

Section Quiet.
Context (P : Shared -> Prop) (HP : stable h P).

Lemma discard_draft_keeps : wmaintains P discard_draft.
Proof using HP. unfold discard_draft, discard_draft_inner. wkeep. Qed.
Lemma abort_after_keeps cause : wmaintains P (abort_after cause).
Proof using HP. unfold abort_after, abort_after_source. pose proof discard_draft_keeps. wkeep. Qed.
Lemma failed_result_keeps d cause : wmaintains P (failed_result d cause).
Proof using HP. unfold failed_result. wkeep. Qed.
Lemma require_healthy_keeps : wmaintains P require_healthy.
Proof using HP. unfold require_healthy. wkeep. Qed.
Lemma apply_commit_unlock_keeps result unlock : wmaintains P (apply_commit_unlock result unlock).
Proof using HP. unfold apply_commit_unlock. wkeep. Qed.
Lemma commit_attempt_keeps : wmaintains P commit_attempt.
Proof using HP. unfold commit_attempt. pose proof require_healthy_keeps. pose proof discard_draft_keeps. wkeep. Qed.
Lemma require_reclaim_keeps mt mp : wmaintains P (require_reclaim mt mp).
Proof using HP. unfold require_reclaim. pose proof require_healthy_keeps. wkeep. Qed.
Lemma close_failure_keeps hp cause : wmaintains P (close_failure hp cause).
Proof using HP. unfold close_failure. wkeep. Qed.
Lemma mutate_keeps : wmaintains P mutate.
Proof using HP. unfold mutate. pose proof require_healthy_keeps. pose proof discard_draft_keeps. pose proof abort_after_keeps. wkeep. Qed.
Lemma abort_keeps : wmaintains P abort.
Proof using HP. unfold abort. pose proof require_healthy_keeps. pose proof discard_draft_keeps. wkeep. Qed.
Lemma unchanged_base_keeps : maintains P require_unchanged_base.
Proof using HP. unfold require_unchanged_base. wkeep. Qed.
Lemma prepare_close_keeps : maintains P prepare_close.
Proof using HP. unfold prepare_close. wkeep. Qed.
End Quiet.
#[local] Hint Resolve mutate_keeps abort_keeps unchanged_base_keeps prepare_close_keeps discard_draft_keeps abort_after_keeps failed_result_keeps require_healthy_keeps apply_commit_unlock_keeps commit_attempt_keeps require_reclaim_keeps close_failure_keeps : rg.

(** ** Under the gate *)

Lemma gated_any F s : gated F s -> gated anything s.
Proof. by apply holding_fact. Qed.

Lemma claim_writer_keeps F : lasting F -> maintains (gated F) claim_writer.
Proof.
  intros HF. unfold claim_writer. apply maintains_bind; [auto with rg | |].
  - eapply triple_weaken; [apply (trylock_spec capacity h [gate] F SideFile WRITER_LOCK); by apply backed_gate | done | by intros r s _ []].
  - intros []; auto with rg.
Qed.

Lemma open_locked_keeps : maintains (gated anything) (open_locked capacity).
Proof using Hcap Hcapacity.
  unfold open_locked. pose proof (scan_at_most_cancellable_keeps capacity Hcapacity h anything). pose proof (claim_writer_keeps anything). wkeep.
Qed.

Lemma publish_spec : maintains (gated anything) (effect Publish).
Proof.
  apply (triple_act capacity h _ _ _ (fun _ => gated anything)); [auto with rg | | intros x; apply triple_ret; auto with rg].
  intros s Hg (Hi & Hl & _). split; [by apply Hl; left |]. intros s' x Hstep _.
  assert (Hp : forall y, perform h 0 Publish s = Some (s', y) -> gated anything s') by (intros y [= <- _]; by split).
  destruct Hstep as [choice s s' x E | late e s x E | choice e s s' y x Hsp E _]; [by apply (Hp x) | by split | by apply (Hp y)].
Qed.

Lemma commit_locked_keeps : maintains (gated anything) (commit_locked capacity).
Proof using Hcap Hcapacity.
  unfold commit_locked, prepublication_checks. pose proof (scan_at_most_cancellable_keeps capacity Hcapacity h anything). pose proof publish_spec. wkeep.
Qed.

Lemma finish_commit_keeps : wmaintains (gated anything) (finish_commit_locked capacity).
Proof using Hcap Hcapacity. unfold finish_commit_locked. pose proof commit_locked_keeps. wkeep. Qed.

(** What is reclaimed has been seen by no reader. *)
Lemma reclaim_call_spec oldest : triple h (gated (older capacity oldest)) (call (Reclaim oldest)) (fun _ => gated anything).
Proof.
  apply triple_call; [auto with rg | auto with rg |]. intros s Hg (Hi & Hl & Hold). split.
  - split; [apply Hl; left |]. intros h' slot txn through Hreg Hsafe.
    destruct (gd_reader _ _ Hg _ _ _ Hreg) as [Hslot _ _ _ _]. destruct (Hold h' slot txn Hreg) as (o & -> & Hle); [lia |].
    cbn in Hsafe. apply Z.leb_le in Hsafe. lia.
  - intros s' x Hstep _.
    assert (Hp : forall choice y, perform h choice (Reclaim oldest) s = Some (s', y) -> gated anything s').
    { intros choice y. cbn [perform]. destruct (choice =? 0); [intros [= <- _] | destruct (_ && _); [intros [= <- _] | done]]; by split. }
    destruct Hstep as [choice s s' x E | late e s x E | choice e s s' y x Hsp E _]; [by eapply Hp | by split | by eapply Hp].
Qed.

Lemma prepare_reclamation_spec oldest : wtriple (gated (older capacity oldest)) (prepare_reclamation oldest) (fun _ => gated anything).
Proof.
  unfold prepare_reclamation. eapply (wtriple_bind _ _ _ (fun _ => gated anything)); [auto with rg | | intros []; wkeep | done | done].
  intros w. apply (triple_bindp capacity h _ _ _ (fun _ => gated anything)); [| intros [w' r]; apply triple_ret; auto with rg].
  apply (triple_bindp capacity h _ _ _ (fun _ => gated anything)); [apply reclaim_call_spec | intros r; apply triple_ret; auto with rg].
Qed.

Lemma oldest_found base : triple h (gated anything) (oldest_reader_cancellable capacity base)
  (fun r => match r with Ok oldest => gated (older capacity oldest) | _ => gated anything end).
Proof using Hcap Hcapacity.
  eapply triple_weaken; [by apply (oldest_spec capacity Hcapacity h anything base true) | done |].
  intros [oldest | |] s _; apply holding_fact; [by intros [_ ?] | done | done].
Qed.

Lemma reclaim_locked_keeps : wmaintains (gated anything) (reclaim_locked capacity).
Proof using Hcap Hcapacity.
  unfold reclaim_locked. do 3 (apply wmaintains_bind; [auto with rg | apply wmaintains_plain; auto with rg | intros ?]).
  eapply wtriple_bind; [| apply wtriple_plain; [| apply oldest_found] | | done | done]; [by intros []; auto with rg .. |]. intros oldest.
  eapply (wtriple_bind _ _ _ (fun _ => gated (older capacity oldest)));
    [auto with rg | apply wmaintains_plain; auto with rg | | intros e s; apply gated_any | intros t s; apply gated_any].
  intros ?. eapply (wtriple_bind _ _ _ (fun _ => gated anything)); [auto with rg | apply prepare_reclamation_spec | | done | done].
  intros prepared. pose proof finish_commit_keeps. wkeep.
Qed.

Lemma close_locked_keeps : wmaintains (gated anything) (close_locked capacity).
Proof using Hcap Hcapacity. unfold close_locked. pose proof (scan_at_most_keeps capacity Hcapacity h anything). wkeep. Qed.

(** ** From outside the gate *)

Lemma unlock_idle f offset : maintains idle (call (Unlock f offset)).
Proof. apply (unlock_spec capacity h [] anything); [by left | apply not_elem_of_nil]. Qed.
Lemma unlock_gate_idle : maintains idle unlock_gate.
Proof. apply unlock_idle. Qed.
#[local] Hint Resolve unlock_idle unlock_gate_idle : rg.

(** A method under the gate, after what takes it. *)
Lemma under_gate {A B} (m : wr A) (f : A -> wr B) : wtriple idle m (fun r => match r with Ok _ => gated anything | _ => idle end) ->
  (forall a, wtriple (gated anything) (f a) (fun _ => idle)) -> wmaintains idle (m ≫= f).
Proof. intros Hm Hf. eapply wtriple_bind; [| exact Hm | exact Hf | done | done]. intros []; auto with rg. Qed.
Lemma inside_gate {A B} (m : wr A) (f : A -> wr B) : wmaintains (gated anything) m -> (forall a, wmaintains idle (f a)) -> wtriple (gated anything) (m ≫= f) (fun _ => idle).
Proof.
  intros Hm Hf. eapply (wtriple_bind _ _ _ (fun _ => idle)); [auto with rg | | exact Hf | done | done].
  eapply wtriple_weaken; [exact Hm | done | intros r s; apply gated_idle].
Qed.

Lemma prepare_and_lock_spec : triple h idle prepare_and_lock (fun r => match r with Ok _ => gated anything | _ => idle end).
Proof.
  unfold prepare_and_lock, ask. do 3 (eapply triple_bind; [apply (maintains_call capacity h idle); [reflexivity | auto with rg] | intros ? | by intros e; split; [auto with rg |] ..]).
  apply lock_gate_cancellable_spec.
Qed.

Lemma settle_gate (m : pr unit) : triple h idle m (fun r => match r with Ok _ => gated anything | _ => idle end) ->
  wtriple idle (settle_writer (plain m)) (fun r => match r with Ok (inl _) => gated anything | _ => idle end).
Proof.
  intros Hm w. eapply triple_bindp; [eapply triple_bindp; [exact Hm |] |].
  - intros r. apply (triple_ret _ h _ _ (fun (x : LiveWriter * Result unit) s => match snd x with Ok _ => gated anything s | _ => idle s end)); [destruct r | destruct r]; auto with rg.
  - intros [w' []]; apply triple_ret; cbn; auto with rg.
Qed.

Lemma commit_with_keeps : wmaintains idle (commit_with capacity).
Proof using Hcap Hcapacity.
  unfold commit_with. apply wmaintains_bind; [auto with rg .. | intros ?].
  eapply wtriple_bind; [| apply settle_gate, prepare_and_lock_spec | | done | done]; [intros [[]| |]; auto with rg |].
  intros [? | cause]; [| wkeep]. apply inside_gate; [apply finish_commit_keeps | intros ?; wkeep].
Qed.

Lemma reclaim_keeps max_transactions max_pages : wmaintains idle (reclaim capacity max_transactions max_pages).
Proof using Hcap Hcapacity.
  unfold reclaim. do 2 (apply wmaintains_bind; [auto with rg | wkeep | intros ?]).
  apply under_gate; [apply wtriple_plain; [intros []; auto with rg | apply lock_gate_cancellable_spec] |]. intros ?.
  apply inside_gate; [apply wmaintains_settle; [auto with rg | apply reclaim_locked_keeps] |]. intros operation.
  unfold finish_reclaim, finish_reclaim_error. wkeep.
Qed.

Lemma finish_close_keeps : wmaintains idle finish_close.
Proof. unfold finish_close, finish_closing_writer, finish_closing_gate, finish_closing_main, closing_failure, release_writer. wkeep. Qed.

Lemma writer_close_keeps : wmaintains idle (writer_close capacity).
Proof using Hcap Hcapacity.
  unfold writer_close. pose proof finish_close_keeps. do 2 (apply wmaintains_bind; [auto with rg | wkeep | intros ?]).
  assert (Hopen : wmaintains idle (had_pending ← writer_get lw_draft;
    gate ← settle_writer (plain (lock_gate ModeExclusive));
    match gate with
    | inr cause => close_failure had_pending cause
    | inl _ =>
        operation ← settle_writer (close_locked capacity);
        match operation with
        | inl _ => _ ← set_writer_state (ClosingWriter had_pending); finish_close
        | inr cause =>
            released ← settle_writer (plain unlock_gate);
            cause ← plain (liftp (combine_errors cause (result_of released)));
            close_failure had_pending cause
        end
    end)); [| destruct a0; solve [done | auto with rg]].
  apply wmaintains_bind; [auto with rg | wkeep | intros hp].
  eapply wtriple_bind; [| apply settle_gate, lock_gate_spec | | done | done]; [intros [[]| |]; auto with rg |].
  intros [? | cause]; [| wkeep]. apply inside_gate; [apply wmaintains_settle; [auto with rg | apply close_locked_keeps] | intros ?; wkeep].
Qed.

Lemma writer_runs_keeps calls : wmaintains idle (writer_runs capacity calls).
Proof using Hcap Hcapacity.
  induction calls as [|c calls IH]; [apply wmaintains_ret; auto with rg |]. cbn [writer_runs]. apply wmaintains_bind; [auto with rg | | intros ?; done].
  apply wmaintains_settle; [auto with rg |]. pose proof commit_with_keeps. pose proof reclaim_keeps. pose proof writer_close_keeps.
  destruct c; cbn [writer_run]; wkeep.
Qed.

Lemma writer_open_keeps : maintains idle (writer_open capacity).
Proof using Hcap Hcapacity.
  unfold writer_open. do 4 (apply maintains_bind; [auto with rg .. | intros ?]).
  apply maintains_bind; [auto with rg | apply (lock_shared_spec capacity h [] anything); [by left | apply not_elem_of_nil] | intros ?].
  do 4 (apply maintains_bind; [auto with rg .. | intros ?]).
  eapply triple_bind; [apply lock_gate_cancellable_spec | intros ? | by intros e; split; [auto with rg |] ..].
  eapply (triple_bind capacity h _ _ _ (fun _ => idle)); [| intros ?; wkeep | by intros e; split; [auto with rg |] ..].
  eapply triple_weaken; [apply (maintains_settle capacity h (gated anything)); [auto with rg | apply open_locked_keeps] | done | intros r s _; apply gated_idle].
Qed.

Lemma writer_life_safe calls : triple h idle (writer_life capacity calls) (fun _ _ => True).
Proof using Hcap Hcapacity.
  unfold writer_life. eapply triple_bind; [apply writer_open_keeps | intros w | by intros e; split; [auto with rg |] ..].
  eapply triple_bindp; [apply writer_runs_keeps |]. intros [w' r]. apply triple_ret; [auto with rg | done].
Qed.
End Writers.

(** ** Any system of readers and writers *)

Section Systems.
Context (capacity : Z).

Inductive live_program : prog (Result unit) -> Prop :=
| a_reader closes : live_program (reader_life capacity closes)
| a_writer calls : live_program (writer_life capacity calls).

(** A database nobody has open: whatever its table still holds. *)
Record at_rest (s : Shared) : Prop := {
  ar_locks : sh_locks s = ∅;
  ar_readers : sh_readers s = ∅;
  ar_committed : 0 < sh_committed s;
  ar_reclaimed : sh_reclaimed s <= sh_committed s;
}.

Lemma live_program_safe p h : 0 <= capacity <= u32_max -> live_program p ->
  triple capacity h (fun s => sh_readers s !! h = None) p (fun _ _ => True).
Proof.
  intros Hc Hp.
  assert (Hidle : triple capacity h (idle h) p (fun _ _ => True)) by (destruct Hp; [apply reader_life_safe | apply writer_life_safe]; lia).
  eapply triple_weaken; [exact Hidle | | done]. intros s _ Hi. split; [done |]. split; [intros f o Hin; by apply elem_of_nil in Hin | done].
Qed.

Lemma at_rest_safe s : at_rest s -> safe_system capacity (∅, s).
Proof.
  intros [_ Hr Hc Hrc]. split; [| intros h p Hl; by apply (lookup_empty_Some h p) in Hl]. split; [| done | done].
  intros h slot txn. cbn [snd]. by rewrite Hr, lookup_empty.
Qed.

(** C6: in any system of live readers and writers that share a database, started
    at rest, whatever each of them does, in whatever order their calls fall,
    and whichever calls fail or processes die: a reader that is registered
    owns its slot of the reader table, the slot names the generation it reads,
    that generation is not newer than the committed one, and nothing
    has been reclaimed past it; and no two readers have the same slot. *)
Theorem readers_keep_their_generations s0 ps s : 0 <= capacity <= u32_max -> at_rest s0 ->
  rtc (system_step live_program) (∅, s0) (ps, s) ->
  (forall h slot txn, sh_readers s !! h = Some (slot, txn) ->
     0 <= slot < capacity
     /\ sh_locks s !! (SideFile, slot_byte slot) = Some (Exclusively h)
     /\ word s (slot_byte slot) = txn /\ word s (slot_byte slot + COMPLEMENT_OFFSET) = complement txn
     /\ 0 < txn /\ sh_reclaimed s <= txn <= sh_committed s)
  /\ (forall h h' slot txn txn', sh_readers s !! h = Some (slot, txn) -> sh_readers s !! h' = Some (slot, txn') -> h = h').
Proof.
  intros Hc Hrest Hrun. destruct (system_safe capacity live_program _ _ (fun p Hp h => live_program_safe p h Hc Hp) (at_rest_safe s0 Hrest) Hrun) as [Hg _].
  cbn in Hg. split.
  - intros h slot txn Hreg. by destruct (gd_reader _ _ Hg _ _ _ Hreg) as [? ? [? ?] ? ?].
  - intros h h' slot txn txn' H1 H2. eapply (excl_unique s); [by apply (gd_reader _ _ Hg) in H1 as [] | by apply (gd_reader _ _ Hg) in H2 as []].
Qed.
End Systems.

(** ** A run of readers and a writer

    A scheduler that takes turns, and a run of it: one reader before a commit,
    one after it, and a reclamation between them. *)

Section Scheduler.
Context (capacity : Z).

Inductive move := StartReader (h : nat) (closes : nat) | StartWriter (h : nat) (calls : list writer_call) | Turn (h : nat) (calls : nat) (choice : Z) | Die (h : nat).

Definition start (h : nat) (p : prog (Result unit)) (c : pool * Shared) : option (pool * Shared) :=
  match fst c !! h, sh_readers (snd c) !! h with None, None => Some (<[h := p]> (fst c), snd c) | _, _ => None end.
Fixpoint turn (calls : nat) (h : nat) (choice : Z) (c : pool * Shared) : option (pool * Shared) :=
  match calls with
  | O => Some c
  | S calls' =>
      match fst c !! h with
      | Some (Act a k) =>
          match perform h choice a (snd c) with
          | Some (s', x) => turn calls' h choice (<[h := k x]> (fst c), s')
          | None => None
          end
      | _ => Some c
      end
  end.
Definition move_on (m : move) (c : pool * Shared) : option (pool * Shared) :=
  match m with
  | StartReader h closes => start h (reader_life capacity closes) c
  | StartWriter h calls => start h (writer_life capacity calls) c
  | Turn h calls choice => turn calls h choice c
  | Die h => Some (delete h (fst c), ended h (snd c))
  end.
Fixpoint schedule (ms : list move) (c : pool * Shared) : option (pool * Shared) :=
  match ms with
  | [] => Some c
  | m :: ms => move_on m c ≫= schedule ms
  end.

Lemma start_sound h p c c' : live_program capacity p -> start h p c = Some c' -> rtc (system_step (live_program capacity)) c c'.
Proof.
  intros Hp. unfold start. destruct c as [ps s]. cbn [fst snd]. destruct (ps !! h) eqn:E1; [done |]. destruct (sh_readers s !! h) eqn:E2; [done |].
  intros [= <-]. apply rtc_once. by constructor.
Qed.
Lemma turn_sound h choice calls : forall c c', turn calls h choice c = Some c' -> rtc (system_step (live_program capacity)) c c'.
Proof.
  induction calls as [|calls IH]; intros [ps s] c'; cbn [turn fst snd]; [by intros [= <-] |].
  destruct (ps !! h) as [[r | X a k]|] eqn:E1; [by intros [= <-] | | by intros [= <-]].
  destruct (perform h choice a s) as [[s' x]|] eqn:E2; [| done]. intros Ht. eapply rtc_l; [| by apply IH].
  eapply process_calls; [done | by eapply step_done].
Qed.
Lemma schedule_sound ms : forall c c', schedule ms c = Some c' -> rtc (system_step (live_program capacity)) c c'.
Proof.
  induction ms as [|m ms IH]; intros c c'; cbn [schedule]; [by intros [= <-] |].
  destruct (move_on m c) as [c1|] eqn:E; [| done]. cbn. intros Hs. etrans; [| by apply IH].
  destruct m; cbn [move_on] in E.
  - eapply start_sound; [apply a_reader | done].
  - eapply start_sound; [apply a_writer | done].
  - by eapply turn_sound.
  - injection E as <-. destruct c as [ps s]. apply rtc_once, process_ends.
Qed.
End Scheduler.

Definition resting : Shared := mkShared ∅ {[ 4096 := 3 ]} 5 2 ∅.
Lemma resting_at_rest : at_rest resting.
Proof. by split. Qed.
(** The first reader opens; a writer commits; a second reader opens; the writer
    reclaims what was retired up to the first reader's generation, and commits. *)
Definition moves : list move :=
  [ StartReader 0 1; Turn 0 45 5; StartWriter 1 [CallMutate; CallCommit; CallReclaim 10 100]; Turn 1 77 5; StartReader 2 1; Turn 2 45 5; Turn 1 1000 5 ]%nat.
Definition reached : pool * Shared := default (∅, resting) (schedule 2 moves (∅, resting)).
Lemma reached_run : rtc (system_step (live_program 2)) (∅, resting) reached.
Proof.
  apply (schedule_sound 2 moves). unfold reached. assert (Hs : is_Some (schedule 2 moves (∅, resting))) by (apply is_Some_alt; vm_compute; exact I).
  by destruct Hs as [c ->].
Qed.

(** Both readers are registered after the reclamation, and what each reads is kept. *)
Lemma readers_keep_their_generations_witness :
  sh_readers (snd reached) !! 0%nat = Some (0, 5) /\ sh_readers (snd reached) !! 2%nat = Some (1, 6)
  /\ sh_reclaimed (snd reached) = 5 /\ sh_committed (snd reached) = 7
  /\ sh_locks (snd reached) !! (SideFile, slot_byte 0) = Some (Exclusively 0) /\ sh_reclaimed (snd reached) <= 5 <= sh_committed (snd reached).
Proof.
  assert (H0 : sh_readers (snd reached) !! 0%nat = Some (0, 5)) by (vm_compute; reflexivity).
  destruct (readers_keep_their_generations 2 resting (fst reached) (snd reached)) as [Hkept _].
  - unfold u32_max. lia.
  - exact resting_at_rest.
  - destruct reached eqn:E. cbn [fst snd]. rewrite <- E. exact reached_run.
  - destruct (Hkept 0%nat 0 5 H0) as (_ & Hl & _ & _ & _ & Hk).
    split; [exact H0 |]. split; [vm_compute; reflexivity |]. split; [vm_compute; reflexivity |]. split; [vm_compute; reflexivity |]. split; [exact Hl | exact Hk].
Defined.
