(* ===== verification/TreeSafety.v ===== *)
(** * Tree mutations stay within what the store allows

    A mutation of a B+tree touches pages through the store only, so it moves
    the store along every preorder its operations keep, on every path, errors
    and panics included. *)

From stdpp Require Import base tactics numbers list strings.
From Stdlib Require Import ZArith Lia.
From S2P Require Import Prelude Errors Bytes PageHeader SlottedPage Codec Machine Draft Store TreePage TreeQuery TreeCursor TreeMutation.

#[local] Open Scope string_scope.
#[local] Open Scope list_scope.
#[local] Open Scope Z_scope.

(** A mutation of a B+tree. *)
Inductive tree_op (K L : Type) :=
| TreeInsert (c : list Z)
| TreeReplace (key : K) (cells : list (list Z))
| TreeDelete (key : K)
| TreeMutate (key : K) (offset : Z) (decide_ : L -> Result LeafU64Mutation)
| TreeRemoveRun (key : K) (include : L -> Result bool).
Arguments TreeInsert {K L}.
Arguments TreeReplace {K L}.
Arguments TreeDelete {K L}.
Arguments TreeMutate {K L}.
Arguments TreeRemoveRun {K L}.

Definition tree_perform {K L} `{Codec K L} {S} `{Store S} (op : tree_op K L) : io (Tree S) unit :=
  match op with
  | TreeInsert c => _ ← tree_insert c; mret tt
  | TreeReplace key cells => replace_leaf_with key cells
  | TreeDelete key => delete_existing key
  | TreeMutate key offset decide_ => _ ← mutate_leaf_u64 key offset decide_; mret tt
  | TreeRemoveRun key include => _ ← remove_leaf_run key include; mret tt
  end.

(** Run on a store, from a root. *)
Definition on_root {S} (root : Z) (m : io (Tree S) unit) : io S unit := fun s =>
  let '(t, r) := m (mkTree s root []) in (tr_store t, r).

Section Safety.
Context {Key Leaf : Type} `{Codec Key Leaf} {S : Type} `{Store S} (R : S -> S -> Prop) `{!StoreKeeps S R}.
Context (Halloc : keeps R allocate).

Definition tree_moves (t t' : Tree S) : Prop := R (tr_store t) (tr_store t').

#[local] Instance tree_moves_preorder : PreOrder tree_moves.
Proof using Type*.
  split; [intros t; unfold tree_moves; reflexivity |]. intros a b c Hab Hbc. unfold tree_moves in *. by etrans.
Qed.

Lemma on_store_moves {A} (m : io S A) : keeps R m -> keeps tree_moves (on_store m).
Proof using Type. intros Hm. unfold on_store. by apply (keeps_zoom _ R). Qed.

Lemma set_root_moves root : keeps tree_moves (set_root root).
Proof using Type*. intros t. unfold tree_moves. cbn. reflexivity. Qed.

Lemma retire_one_moves n : keeps tree_moves (retire_one_page n).
Proof using Type*. intros t. unfold tree_moves, retire_one_page, zoom. destruct (retired_push (tr_retired t) n); cbn; reflexivity. Qed.

Lemma inspect_moves {A} n (f : list Z -> Result A) : keeps tree_moves (on_store (inspect_page n f)).
Proof using Type*. apply on_store_moves, sk_inspect. Qed.
Lemma update_moves {A} n (f : io (list Z) A) : keeps tree_moves (on_store (update_page n f)).
Proof using Type*. apply on_store_moves, sk_update. Qed.
Lemma copy_moves {A} n m (f : list Z -> io (list Z) A) : keeps tree_moves (on_store (copy_page n m f)).
Proof using Type*. apply on_store_moves, sk_copy. Qed.
Lemma cow_moves n m : keeps tree_moves (on_store (copy_for_cow n m)).
Proof using Type*. apply on_store_moves, copy_for_cow_keeps, _. Qed.
Lemma discard_moves n : keeps tree_moves (on_store (discard_private n)).
Proof using Type*. apply on_store_moves, sk_discard. Qed.
Lemma allocate_moves : keeps tree_moves (on_store allocate).
Proof using Type*. by apply on_store_moves. Qed.
#[local] Hint Resolve set_root_moves retire_one_moves inspect_moves update_moves copy_moves cow_moves discard_moves allocate_moves : keeps.

Lemma look_moves {A} n (f : Z -> Z -> list Z -> Result A) : keeps tree_moves (look n f).
Proof using Type*. unfold look. keeps_tac. Qed.
#[local] Hint Resolve look_moves : keeps.

Lemma activate_moves private n parent : keeps tree_moves (activate private n parent).
Proof using Type*. unfold activate, touch, replace_branch_child. destruct parent as [[]|]; keeps_tac. Qed.
#[local] Hint Resolve activate_moves : keeps.

Lemma path_loop_moves {T} rounds key (selector : LeafSelector T) : forall path n expected parent,
  keeps tree_moves (path_loop rounds key selector path n expected parent).
Proof using Type*.
  induction rounds as [|rounds IH]; intros path n expected parent; cbn [path_loop]; [keeps_tac |]. unfold inspect. keeps_tac.
Qed.

Lemma locate_moves key : keeps tree_moves (locate_leaf key).
Proof using Type*. unfold locate_leaf, private_path, private_path_select. pose proof (@path_loop_moves (Z * bool)). keeps_tac. Qed.
#[local] Hint Resolve locate_moves : keeps.

Lemma apply_replacement_moves n header r : keeps tree_moves (apply_replacement n header r).
Proof using Type*. unfold apply_replacement, split_replacement, first_key. keeps_tac. Qed.
#[local] Hint Resolve apply_replacement_moves : keeps.

Lemma branch_edit_moves frame : (forall left_first right_page right_first, keeps tree_moves (insert_branch frame left_first right_page right_first))
  /\ (forall key, keeps tree_moves (replace_first_branch frame key)).
Proof using Type*. split; intros; unfold insert_branch, replace_first_branch, branch_at; keeps_tac. Qed.

Lemma propagate_moves path :
  (forall left_page left_first right_page right_first level,
     keeps tree_moves (propagate_split_from path left_page left_first right_page right_first level))
  /\ (forall key, keeps tree_moves (propagate_first_from path key)).
Proof using Type*.
  induction path as [|frame rest [IHs IHf]]; split; intros; cbn [propagate_split_from propagate_first_from].
  - unfold new_root. keeps_tac.
  - keeps_tac.
  - pose proof (proj1 (branch_edit_moves frame)). keeps_tac.
  - pose proof (proj2 (branch_edit_moves frame)). keeps_tac.
Qed.

Lemma propagate_split_moves path left_page left_first right_page right_first level :
  keeps tree_moves (propagate_split_from path left_page left_first right_page right_first level).
Proof using Type*. apply propagate_moves. Qed.
Lemma propagate_first_moves path key : keeps tree_moves (propagate_first_from path key).
Proof using Type*. apply propagate_moves. Qed.
#[local] Hint Resolve propagate_split_moves propagate_first_moves : keeps.

Lemma remove_empty_moves path : keeps tree_moves (remove_empty_child path).
Proof using Type*.
  induction path as [|frame rest IH]; cbn [remove_empty_child]; [keeps_tac |]. unfold first_key. keeps_tac.
Qed.
#[local] Hint Resolve remove_empty_moves : keeps.

Lemma delete_target_moves target : keeps tree_moves (delete_target target).
Proof using Type*. unfold delete_target, remove_leaf_record, first_key. keeps_tac. Qed.
#[local] Hint Resolve delete_target_moves : keeps.

Lemma adjacent_moves path direction : keeps tree_moves (adjacent_leaf path direction).
Proof using Type*.
  assert (Hd : forall level n, keeps tree_moves (adjacent_descent level direction n)).
  { intros level. induction level as [|level IH]; intros n; cbn [adjacent_descent]; keeps_tac. }
  induction path as [|frame rest IH]; cbn [adjacent_leaf]; keeps_tac.
Qed.
#[local] Hint Resolve adjacent_moves : keeps.

(** ** The mutations *)

Lemma insert_moves c : keeps tree_moves (tree_insert c).
Proof using Type*. unfold tree_insert, new_leaf, edit_leaf, split_leaf, split_leaf_at, first_key. keeps_tac. Qed.

Lemma replace_leaf_moves key cells : keeps tree_moves (replace_leaf_with key cells).
Proof using Type*. unfold replace_leaf_with, replace_target. keeps_tac. Qed.

Lemma delete_moves key : keeps tree_moves (delete_existing key).
Proof using Type*. unfold delete_existing. keeps_tac. Qed.

Lemma mutate_moves key offset decide_ : keeps tree_moves (mutate_leaf_u64 key offset decide_).
Proof using Type*.
  unfold mutate_leaf_u64, private_path_select. pose proof (@path_loop_moves (Z * Z * Z * Leaf)). keeps_tac.
Qed.

Lemma remove_run_moves key include : keeps tree_moves (remove_leaf_run key include).
Proof using Type*.
  assert (Hm : forall f, (forall t, tr_store (f t) = tr_store t) -> keeps tree_moves (modify f)).
  { intros f Hf t. unfold tree_moves. cbn. rewrite Hf. reflexivity. }
  unfold remove_leaf_run, private_path, private_path_select, first_key. pose proof (@path_loop_moves (Z * bool)). keeps_tac.
Qed.

Lemma tree_perform_moves (op : tree_op Key Leaf) : keeps tree_moves (tree_perform op).
Proof using Type*.
  pose proof insert_moves. pose proof replace_leaf_moves. pose proof delete_moves. pose proof mutate_moves. pose proof remove_run_moves.
  destruct op; cbn [tree_perform]; keeps_tac.
Qed.

Lemma on_root_moves root (op : tree_op Key Leaf) : keeps R (on_root root (tree_perform op)).
Proof using Type*.
  intros s. pose proof (tree_perform_moves op (mkTree s root [])) as Hk. unfold on_root, tree_moves in *.
  by destruct (tree_perform op (mkTree s root [])).
Qed.
End Safety.
