(* ===== verification/TreeFacts.v ===== *)
(** * Search in a page of the B+tree

    What a codec promises to the tree ([CodecLaws], discharged by the range
    codec), and the binary search: on a page whose keys increase it finds the
    first key that is not below the one sought, within the rounds it takes. *)

From stdpp Require Import base tactics numbers list strings sorting.
From Stdlib Require Import ZArith Lia.
From S2P Require Import Prelude Errors Bytes Key Codec TreeInterface PageHeader SlottedPage SlottedFacts SlottedTheorems TreePage TreeQuery.

#[local] Open Scope string_scope.
#[local] Open Scope list_scope.
#[local] Open Scope Z_scope.

(** ** Codecs *)

Class CodecLaws (Key Leaf : Type) `{Codec Key Leaf} := {
  rank : Key -> Z;
  valid_key : Key -> Prop;
  valid_leaf : Leaf -> Prop;
  leaf_key : Leaf -> Key;
  leaf_bytes : Leaf -> list Z;
  fence_bytes : Key -> list Z;
  cl_ltb a b : valid_key a -> valid_key b -> codec_ltb a b = (rank a <? rank b);
  cl_eqb a b : valid_key a -> valid_key b -> codec_eqb a b = (rank a =? rank b);
  cl_sizes : 0 < KEY_SIZE /\ 0 < LEAF_SIZE /\ LEAF_SIZE + 2 + HEADER_SIZE <= PAGE_SIZE
    /\ KEY_SIZE + 6 + HEADER_SIZE <= PAGE_SIZE /\ MAX_BRANCH_SIZE = KEY_SIZE + 4 /\ MAX_LEAF_SIZE = LEAF_SIZE;
  cl_aux : 0 <= AUX <= u32_max;
  cl_types : is_byte BRANCH_TYPE /\ is_byte LEAF_TYPE;
  cl_leaf_key l : valid_leaf l -> valid_key (leaf_key l);
  cl_leaf_bytes l : valid_leaf l -> bytes_ok (leaf_bytes l) /\ zlen (leaf_bytes l) = LEAF_SIZE;
  cl_fence_bytes k : valid_key k -> bytes_ok (fence_bytes k) /\ zlen (fence_bytes k) = KEY_SIZE;
  cl_read_leaf l : valid_leaf l -> read_leaf (leaf_bytes l) = Ok l;
  cl_read_leaf_key l : valid_leaf l -> read_key (leaf_bytes l) 0 = Ok (leaf_key l);
  cl_read_fence k child level : valid_key k -> level <> 0 -> read_key (fence_bytes k ++ le_bytes 4 child) level = Ok k;
  cl_rank_inj a b : valid_key a -> valid_key b -> rank a = rank b -> a = b;
  cl_write_key k out : valid_key k -> zlen out = KEY_SIZE -> write_key k out = Ok (fence_bytes k);
  cl_small : 3 * (LEAF_SIZE + 2) + HEADER_SIZE <= PAGE_SIZE /\ 3 * (KEY_SIZE + 6) + HEADER_SIZE <= PAGE_SIZE
    /\ KEY_SIZE + 4 <= MAX_TREE_CELL;
}.

(** The range codec. *)
Section RangeLaws.
Context {K : Type} `{IpKeyLaws K}.

Lemma read_leading k bs : key_ok k -> zlen bs <= 20 -> read_le (key_bytes k ++ bs) 0 = Ok k.
Proof.
  intros Hk Hb. pose proof key_width_range. pose proof (key_bytes_len k Hk). pose proof (zlen_nonneg bs).
  apply read_le_bytes; [done | lia | rewrite zlen_app; lia | rewrite zlen_app; unfold usize_max, u64_max; lia |].
  by apply sub_app_prefix.
Qed.

#[global] Program Instance RangeCodecLaws : CodecLaws K (Range K) := {
  rank := key_num; valid_key := key_ok; valid_leaf := range_ok; leaf_key := r_from;
  leaf_bytes := range_bytes; fence_bytes := key_bytes;
}.
Next Obligation. intros. cbn. by apply key_ltb_num. Qed.
Next Obligation. intros. cbn. by apply key_eqb_num. Qed.
Next Obligation.
  cbn. pose proof key_width_range. unfold HEADER_SIZE, SIZE, PAGE_SIZE. lia.
Qed.
Next Obligation. cbn. unfold family_to_wire, u32_max. destruct key_family; lia. Qed.
Next Obligation. cbn. unfold is_byte, RANGE_BRANCH, RANGE_LEAF. lia. Qed.
Next Obligation. by intros l (? & _). Qed.
Next Obligation.
  intros l Hl. split; [| by apply range_bytes_len]. destruct Hl as (Hf & Ht & _). unfold range_bytes.
  repeat apply Forall_app_2; [by apply key_bytes_ok | by apply key_bytes_ok | apply le_bytes_ok].
Qed.
Next Obligation. intros k Hk. cbn. split; [by apply key_bytes_ok | by apply key_bytes_len]. Qed.
Next Obligation. intros l Hl. cbn. by apply decode_cell_bytes. Qed.
Next Obligation.
  intros l (Hf & Ht & _). cbn. apply read_leading; [done |].
  pose proof (key_bytes_len _ Ht). pose proof key_width_range. rewrite zlen_app, zlen_le_bytes. lia.
Qed.
Next Obligation. intros k child level Hk _. refine (read_leading k _ Hk _). rewrite zlen_le_bytes. lia. Qed.
Next Obligation. exact key_num_inj. Qed.
Next Obligation.
  intros k out Hk Hz. cbn in *. rewrite write_le_bytes by (done || lia). f_equal.
  apply (splice_app_exact [] out); [done |]. by rewrite key_bytes_len.
Qed.
Next Obligation. cbn. pose proof key_width_range. unfold HEADER_SIZE, SIZE, PAGE_SIZE, MAX_TREE_CELL. lia. Qed.
End RangeLaws.

(** ** The loop *)

Section Search.
Context {Key Leaf : Type} `{CodecLaws Key Leaf}.

(** [i] is the place of [key] among the keys [ks]. *)
Record place (ks : list Key) (key : Key) (i : Z) (exact : bool) : Prop := {
  pl_range : 0 <= i <= zlen ks;
  pl_below j k : ks !! j = Some k -> Z.of_nat j < i -> rank k < rank key;
  pl_above j k : ks !! j = Some k -> i <= Z.of_nat j -> rank key <= rank k;
  pl_exact : exact = true <-> exists k, ks !! Z.to_nat i = Some k /\ rank k = rank key;
}.

Definition increasing (ks : list Key) : Prop := StronglySorted (fun a b => rank a < rank b) ks.

Lemma increasing_lookup ks i j a b : increasing ks -> ks !! i = Some a -> ks !! j = Some b -> (i < j)%nat -> rank a < rank b.
Proof.
  intros Hs. revert i j. induction Hs as [|k ks Hs IH Hk]; intros i j Ha Hb Hij; [done |].
  destruct i as [|i], j as [|j]; cbn in *; try lia.
  - injection Ha as ->. rewrite Forall_forall in Hk. apply Hk. by eapply list_elem_of_lookup_2.
  - apply (IH i j); done || lia.
Qed.

Section Loop.
Context (ks : list Key) (key : Key) (probe : Z -> Result Key).
Context (Hks : increasing ks) (Hv : Forall valid_key ks) (Hkey : valid_key key).
Context (Hprobe : forall j k, ks !! j = Some k -> probe (Z.of_nat j) = Ok k).

Lemma probe_at i : 0 <= i < zlen ks -> exists k, ks !! Z.to_nat i = Some k /\ probe i = Ok k /\ valid_key k.
Proof using Hprobe Hv.
  intros Hi. destruct (lookup_lt_is_Some_2 ks (Z.to_nat i)) as [k Hk]; [unfold zlen in Hi; lia |].
  exists k. split; [done |]. split; [rewrite <- (Hprobe _ _ Hk); f_equal; lia |].
  rewrite Forall_forall in Hv. apply Hv. by eapply list_elem_of_lookup_2.
Qed.

Definition seen (last : option (Z * Key)) : Prop :=
  match last with Some (i, k) => ks !! Z.to_nat i = Some k /\ 0 <= i | None => True end.

Lemma bound_loop_spec fuel lower upper last :
  0 <= lower <= upper -> upper <= zlen ks -> (Z.to_nat (upper - lower) <= fuel)%nat -> seen last ->
  (forall j k, ks !! j = Some k -> Z.of_nat j < lower -> rank k < rank key) ->
  (forall j k, ks !! j = Some k -> upper <= Z.of_nat j -> rank key <= rank k) ->
  exists i last', bound_loop fuel probe key lower upper last = Ok (i, last') /\ seen last' /\ 0 <= i <= zlen ks
    /\ (forall j k, ks !! j = Some k -> Z.of_nat j < i -> rank k < rank key)
    /\ (forall j k, ks !! j = Some k -> i <= Z.of_nat j -> rank key <= rank k).
Proof using Hks Hv Hkey Hprobe.
  revert lower upper last. induction fuel as [|fuel IH]; intros lower upper last Hlu Hup Hf Hlast Hlo Hhi;
    cbn [bound_loop]; destruct (Z.leb_spec upper lower) as [Hle | Hgt]; try lia.
  1, 2: exists lower, last; split; [done |]; split; [done |]; split; [lia |]; split; [done |];
    intros j k Hj Hjl; apply (Hhi j k Hj); lia.
  set (middle := lower + (upper - lower) / 2). assert (Hm : lower <= middle < upper).
  { unfold middle. pose proof (Z.div_pos (upper - lower) 2). pose proof (Z.div_lt (upper - lower) 2). lia. }
  destruct (probe_at middle) as (c & Hc & Hp & Hvc); [lia |]. rewrite Hp. cbn [mbind outcome_bind].
  rewrite cl_ltb by done. destruct (Z.ltb_spec (rank c) (rank key)) as [Hlt | Hge].
  - apply IH; [lia | lia | lia | cbn; split; [done | lia] | | done]. intros j k Hj Hjm.
    destruct (decide (j = Z.to_nat middle)) as [-> | Hne]; [congruence |].
    pose proof (increasing_lookup ks j (Z.to_nat middle) k c Hks Hj Hc ltac:(lia)). lia.
  - apply IH; [lia | lia | lia | cbn; split; [done | lia] | done |]. intros j k Hj Hjm.
    destruct (decide (j = Z.to_nat middle)) as [-> | Hne]; [congruence |].
    pose proof (increasing_lookup ks (Z.to_nat middle) j c k Hks Hc Hj ltac:(lia)). lia.
Qed.

Lemma lower_bound_by_spec header : h_item_count header = zlen ks ->
  exists i exact, place ks key i exact /\ forall insertion,
    lower_bound_by header key insertion probe = Ok (if insertion || exact || (i =? 0) then (i, exact) else (i - 1, false)).
Proof using Hks Hv Hkey Hprobe.
  intros Hn. pose proof (zlen_nonneg ks) as Hz.
  destruct (bound_loop_spec (Z.to_nat (zlen ks)) 0 (zlen ks) None) as (i & last & Hloop & Hseen & Hi & Hlo & Hhi);
    [lia | lia | lia | done | intros; lia | intros j k Hj; apply lookup_lt_Some in Hj; unfold zlen; lia |].
  destruct (Z.leb_spec (zlen ks) i) as [Hend | Hin].
  - exists i, false. split; [split; try done; split; [done |]; intros (k & Hk & _); apply lookup_lt_Some in Hk; unfold zlen in Hend; lia |].
    intros insertion. unfold lower_bound_by. rewrite Hn, Hloop. cbn [mbind outcome_bind].
    rewrite (proj2 (Z.leb_le _ _) Hend). cbn [mbind outcome_bind]. by destruct (insertion || false || (i =? 0)).
  - destruct (probe_at i) as (c & Hc & Hp & Hvc); [lia |].
    assert (Hcur : (match last with Some (index, current) => if index =? i then Ok current else probe i | None => probe i end) = Ok c).
    { destruct last as [[j k]|]; [| done]. destruct (Z.eqb_spec j i) as [-> | _]; [| done]. destruct Hseen as [Hs _]. congruence. }
    exists i, (rank c =? rank key). split.
    + split; [done | done | done |]. rewrite Z.eqb_eq. split; [by exists c |]. intros (k & Hk & ?). congruence.
    + intros insertion. unfold lower_bound_by. rewrite Hn, Hloop. cbn [mbind outcome_bind].
      rewrite (proj2 (Z.leb_gt _ _) Hin), Hcur. cbn [mbind outcome_bind]. rewrite cl_eqb by done.
      by destruct (insertion || (rank c =? rank key) || (i =? 0)).
Qed.
End Loop.

(** ** On a page *)

(** Cells of one size, each with its key. *)
Definition keyed (level : Z) (len : Z) (cells : list (list Z)) (ks : list Key) : Prop :=
  Forall2 (fun c k => zlen c = len /\ read_key c level = Ok k) cells ks.

Lemma keyed_zlen level len cells ks : keyed level len cells ks -> zlen ks = zlen cells.
Proof using Type. intros Hk. apply Forall2_length in Hk. unfold zlen. lia. Qed.

Lemma keyed_cell level len cells ks j k : keyed level len cells ks -> ks !! j = Some k ->
  zlen (cnth cells (Z.of_nat j)) = len /\ read_key (cnth cells (Z.of_nat j)) level = Ok k /\ 0 <= Z.of_nat j < zlen cells.
Proof using Type.
  intros Hk Hj. destruct (Forall2_lookup_r _ _ _ _ _ Hk Hj) as (c & Hc & Hl & Hr).
  pose proof (lookup_lt_Some _ _ _ Hc). unfold cnth, zlen in *. rewrite Nat2Z.id, (nth_lookup_Some _ _ _ _ Hc). split; [done |]. split; [done | lia].
Qed.

Definition cell_size (level : Z) : Z := if level =? 0 then LEAF_SIZE else KEY_SIZE + 4.

Lemma fixed_cell_size_eq level : fixed_cell_size level = Some (cell_size level).
Proof using Type*.
  unfold fixed_cell_size, cell_size. destruct cl_sizes as (Hk & Hl & _ & _ & Hm & _).
  rewrite (proj2 (Z.eqb_neq LEAF_SIZE 0)), (proj2 (Z.eqb_neq KEY_SIZE 0)), Hm, Z.eqb_refl by lia. by destruct (level =? 0).
Qed.

Lemma cell_size_range level : 0 < cell_size level /\ cell_size level + 2 + HEADER_SIZE <= PAGE_SIZE.
Proof using Type*. unfold cell_size. destruct cl_sizes as (? & ? & ? & ? & _). destruct (level =? 0); lia. Qed.

Lemma cell_at_ok p h cells len i : legible p h cells -> 0 <= i < zlen cells -> zlen (cnth cells i) = len ->
  exists r, cell_at (mkFixedSearch p h len) i = Ok r /\ br_bytes r = cnth cells i.
Proof using Type.
  intros Hs Hi Hl. destruct (lb_cell _ _ _ Hs i Hi) as (H1 & H2 & H3 & H4). unfold cell_at. cbn [fs_page fs_header fs_cell_len].
  change (u16_unchecked p (slot_at i)) with (start p i).
  rewrite (proj2 (Z.ltb_ge (start p i) (h_upper h))), (proj2 (Z.ltb_ge (PAGE_SIZE - len) (start p i))) by lia. cbn [orb].
  eexists. split; [done |]. unfold br_bytes. cbn. by rewrite <- H4, Hl.
Qed.

Lemma lower_bound_spec p h cells ks key : legible p h cells -> cells <> [] ->
  keyed (h_level h) (cell_size (h_level h)) cells ks -> increasing ks -> Forall valid_key ks -> valid_key key ->
  exists i exact, place ks key i exact /\ forall insertion,
    lower_bound p h key insertion = Ok (if insertion || exact || (i =? 0) then (i, exact) else (i - 1, false)).
Proof using Type*.
  intros Hs Hne Hk Hinc Hv Hkey. pose proof (cell_size_range (h_level h)) as [Hpos Hmax].
  assert (Hn : h_item_count h = zlen ks) by (rewrite (keyed_zlen _ _ _ _ Hk); apply (lb_count _ _ _ Hs)).
  assert (Hnew : FixedSearch_new p h (cell_size (h_level h)) = Ok (mkFixedSearch p h (cell_size (h_level h)))).
  { unfold FixedSearch_new. rewrite (proj1 (lb_page _ _ _ Hs)), Z.eqb_refl, (legible_shape _ _ _ Hs Hne).
    rewrite (proj2 (Z.eqb_neq (cell_size _) 0)), (proj2 (Z.ltb_ge PAGE_SIZE _)) by (unfold HEADER_SIZE, SIZE in *; lia). done. }
  set (probe := fun index => r ← cell_at (mkFixedSearch p h (cell_size (h_level h))) index; read_key (br_bytes r) (h_level h)).
  destruct (lower_bound_by_spec ks key probe Hinc Hv Hkey) with (header := h) as (i & exact & Hpl & Hlb); [| done |].
  - intros j k Hj. destruct (keyed_cell _ _ _ _ _ _ Hk Hj) as (Hl & Hr & Hi).
    destruct (cell_at_ok p h cells _ (Z.of_nat j) Hs Hi Hl) as (r & Hc & Hb). unfold probe. rewrite Hc. cbn [mbind outcome_bind]. by rewrite Hb.
  - exists i, exact. split; [done |]. intros insertion. unfold lower_bound. rewrite fixed_cell_size_eq.
    unfold lower_bound_fixed. rewrite Hnew. cbn [mbind outcome_bind]. apply Hlb.
Qed.
End Search.

(** ** What a B+tree holds

    [tree_at level n es]: the pages below page [n] of a source form a tree of
    that level over the records [es].  Every branch cell carries the first key
    of its child and the child's page.  On such a tree one descent reaches the
    only leaf a key can be in. *)

Section Tree.
Context {Key Leaf : Type} `{CodecLaws Key Leaf} {S : Type} `{PageSource S} (s : S).

Definition lrank (l : Leaf) : Z := rank (leaf_key l).

(** Page [n] of the source is a page of the tree, of this level, with these
    cells. *)
Record node (n level : Z) (cells : list (list Z)) (p : list Z) (h : Header) : Prop := {
  nd_view A (f : list Z -> Result A) : view_page s n f = f p;
  nd_legible : legible p h cells;
  nd_cells : cells <> [];
  nd_level : h_level h = level;
  nd_height : 0 <= level <= MAX_TREE_LEVEL;
  nd_identity : exists born, identity p (page_type_of level) born level AUX /\ 0 < born <= selected_txn s;
}.

(** A child: its page and the records below it. *)
Definition kid : Type := Z * list Leaf.
Definition records (ks : list kid) : list Leaf := concat (snd <$> ks).

Definition first_of (k : kid) (key : Key) : Prop := exists e rest, snd k = e :: rest /\ key = leaf_key e.
Definition fence_cell (c : list Z) (k : kid) : Prop :=
  exists key, first_of k key /\ valid_key key /\ c = fence_bytes key ++ le_bytes 4 (fst k).

Fixpoint tree_at (level : nat) (n : Z) (es : list Leaf) : Prop :=
  exists p h cells, node n (Z.of_nat level) cells p h /\
  match level with
  | O => cells = leaf_bytes <$> es /\ Forall valid_leaf es
  | Datatypes.S l =>
      exists kids, Forall2 fence_cell cells kids /\ es = records kids
        /\ Forall (fun k => 2 <= fst k < selected_page_limit s /\ fst k <= u32_max /\ tree_at l (fst k) (snd k)) kids
  end.

(** A leaf page and a branch page of the tree. *)
Definition leaf_node (n : Z) (es : list Leaf) (p : list Z) (h : Header) : Prop :=
  node n 0 (leaf_bytes <$> es) p h /\ Forall valid_leaf es.
Definition child_ok (l : nat) (k : kid) : Prop :=
  2 <= fst k < selected_page_limit s /\ fst k <= u32_max /\ tree_at l (fst k) (snd k).
Definition branch_node (n : Z) (l : nat) (kids : list kid) (p : list Z) (h : Header) : Prop :=
  exists cells, node n (Z.of_nat (Datatypes.S l)) cells p h /\ Forall2 fence_cell cells kids /\ Forall (child_ok l) kids.

Lemma tree_leaf n es : tree_at 0 n es <-> exists p h, leaf_node n es p h.
Proof using Type.
  cbn. split; [intros (p & h & cells & Hn & -> & Hv); by exists p, h |].
  intros (p & h & Hn & Hv). by exists p, h, (leaf_bytes <$> es).
Qed.

Lemma tree_branch l n es : tree_at (Datatypes.S l) n es <-> exists kids p h, branch_node n l kids p h /\ es = records kids.
Proof using Type.
  split.
  - intros (p & h & cells & Hn & kids & Hc & -> & Hk). exists kids, p, h. split; [by exists cells | done].
  - intros (kids & p & h & (cells & Hn & Hc & Hk) & ->). exists p, h, cells. split; [done |]. by exists kids.
Qed.

(** ** Records of a list of children *)

Lemma records_app a b : records (a ++ b) = records a ++ records b.
Proof using Type. unfold records. by rewrite fmap_app, concat_app. Qed.
Lemma records_cons k b : records (k :: b) = snd k ++ records b.
Proof using Type. done. Qed.

Lemma elem_of_records e ks : e ∈ records ks <-> exists k, k ∈ ks /\ e ∈ snd k.
Proof using Type.
  induction ks as [|k ks IH]; [rewrite elem_of_nil; split; [done |]; intros (k & Hk & _); by apply elem_of_nil in Hk |].
  rewrite records_cons, elem_of_app, IH. setoid_rewrite elem_of_cons. split.
  - intros [He | (x & Hx & He)]; [by exists k; auto | by exists x; auto].
  - intros (x & [-> | Hx] & He); [by left | right; eauto].
Qed.

Lemma sorted_kid ks k : sp_sorted lrank (records ks) -> k ∈ ks -> sp_sorted lrank (snd k).
Proof using Type.
  intros Hs Hk. apply list_elem_of_split in Hk as (a & b & ->). rewrite records_app, records_cons in Hs.
  apply StronglySorted_app in Hs as (_ & _ & Hs). by apply StronglySorted_app in Hs as (_ & Hs & _).
Qed.

Lemma first_le k key e : first_of k key -> sp_sorted lrank (snd k) -> e ∈ snd k -> rank key <= lrank e.
Proof using Type.
  intros (e0 & rest & Hk & ->) Hs He. rewrite Hk in Hs, He. inversion Hs as [|? ? _ Hall]; subst.
  apply elem_of_cons in He as [-> | He]; [done |]. rewrite Forall_forall in Hall. specialize (Hall _ He). unfold lrank in *. lia.
Qed.

Lemma fences_increasing ks keys : Forall2 first_of ks keys -> sp_sorted lrank (records ks) -> increasing keys.
Proof using Type.
  induction 1 as [|k key ks keys Hf Hall IH]; intros Hs; [constructor |]. rewrite records_cons in Hs.
  apply StronglySorted_app in Hs as (Hlt & _ & Hs). constructor; [by apply IH |].
  rewrite Forall_forall. intros key' Hk'. apply list_elem_of_lookup in Hk' as (j & Hj).
  destruct (Forall2_lookup_r _ _ _ _ _ Hall Hj) as (k' & Hk' & (e' & rest' & He' & ->)).
  destruct Hf as (e & rest & He & ->). apply (Hlt e e'); [rewrite He; constructor |].
  apply elem_of_records. exists k'. split; [by eapply list_elem_of_lookup_2 | rewrite He'; constructor].
Qed.

Lemma fence_keyed cells kids l : Forall2 fence_cell cells kids -> l <> 0 ->
  exists keys, Forall2 first_of kids keys /\ keyed l (KEY_SIZE + 4) cells keys /\ Forall valid_key keys.
Proof using Type.
  intros Hc Hl. induction Hc as [|c k cells kids (key & Hf & Hv & ->) _ (keys & IH1 & IH2 & IH3)].
  { exists []. repeat split; constructor. }
  exists (key :: keys). split; [by constructor |]. split; [| by constructor]. constructor; [| done].
  split; [| by apply cl_read_fence]. rewrite zlen_app, zlen_le_bytes, (proj2 (cl_fence_bytes key Hv)). lia.
Qed.

(** ** Reading one page *)

Lemma node_parse n level cells p h expected : node n level cells p h ->
  match expected with Some e => e = level | None => True end -> tree_parse p (selected_txn s) expected = Ok h.
Proof using Type*.
  intros [_ Hs Hne Hl Hh (born & Hid & Hborn)] He. unfold tree_parse.
  eapply parse_tree_ok; try done; [apply cl_aux | lia].
Qed.

Lemma node_cell n level cells p h i c len : node n level cells p h -> cells !! i = Some c -> zlen c = len ->
  exists r, cell p h (Z.of_nat i) len = Ok r /\ br_bytes r = c.
Proof using Type.
  intros Hn Hi <-. pose proof (lookup_lt_Some _ _ _ Hi).
  assert (Hc : cnth cells (Z.of_nat i) = c) by (unfold cnth; rewrite Nat2Z.id; by apply nth_lookup_Some).
  rewrite <- Hc. apply cell_bytes; [apply Hn | unfold zlen; lia].
Qed.

Lemma leaf_cell_ok n es p h i e : leaf_node n es p h -> es !! i = Some e -> leaf_cell p h (Z.of_nat i) = Ok (leaf_bytes e).
Proof using Type*.
  intros [Hn Hv] Hi. rewrite Forall_forall in Hv. pose proof (Hv e (list_elem_of_lookup_2 _ _ _ Hi)) as He.
  destruct (node_cell n 0 _ p h i (leaf_bytes e) LEAF_SIZE Hn) as (r & Hr & Hb);
    [by rewrite list_lookup_fmap, Hi | by apply cl_leaf_bytes |]. unfold leaf_cell. rewrite Hr. cbn. by rewrite Hb.
Qed.

Lemma leaf_count n es p h : leaf_node n es p h -> h_item_count h = zlen es /\ es <> [].
Proof using Type.
  intros [[_ Hs Hne _ _ _] _]. rewrite (lb_count _ _ _ Hs). unfold zlen. rewrite length_fmap. split; [done |].
  by intros ->.
Qed.

Lemma branch_child_ok n l ks1 k ks2 p h : branch_node n l (ks1 ++ k :: ks2) p h ->
  branch_child p h (zlen ks1) (selected_page_limit s) = Ok (fst k).
Proof using Type*.
  intros (cells & Hn & Hc & Hk). apply Forall2_app_inv_r in Hc as (c1 & c2 & Hc1 & Hc2 & ->).
  destruct c2 as [|c c2]; [by apply Forall2_nil_inv_l in Hc2 |]. apply Forall2_cons in Hc2 as [(key & _ & Hv & Hc) _].
  apply Forall_app in Hk as [_ Hk]. apply Forall_cons in Hk as [((Hlo & Hhi) & Hu & _) _].
  destruct (cl_fence_bytes key Hv) as [_ Hlen]. pose proof cl_sizes as (Hks & _ & _ & Hkp & _).
  assert (Hzc : zlen c = KEY_SIZE + 4) by (rewrite Hc, zlen_app, zlen_le_bytes, Hlen; lia).
  destruct (node_cell n _ _ p h (length c1) c (KEY_SIZE + 4) Hn) as (r & Hr & Hb); [by rewrite lookup_app_r, Nat.sub_diag | done |].
  apply Forall2_length in Hc1. unfold branch_child, branch_cell. unfold zlen at 1. rewrite <- Hc1, Hr. cbn [mbind outcome_bind].
  rewrite Hb. unfold require_child, read_branch_child.
  rewrite array_Some by (rewrite ?Hzc; unfold usize_max, u64_max, PAGE_SIZE, HEADER_SIZE, SIZE in *; lia).
  cbn [ok_or mbind outcome_bind]. rewrite Hc, sub_app_skip, Hlen, Z.sub_diag by lia.
  change (sub (le_bytes 4 (fst k)) 0 4) with (le_bytes 4 (fst k)).
  rewrite le_val_bytes by (unfold u32_max in Hu; cbn; lia).
  by rewrite (proj2 (Z.ltb_ge (fst k) 2)), (proj2 (Z.leb_gt _ (fst k))) by lia.
Qed.

(** ** The records of a tree *)

Lemma tree_valid level : forall n es, tree_at level n es -> es <> [] /\ Forall valid_leaf es.
Proof using Type*.
  induction level as [|l IH]; intros n es Ht.
  - apply tree_leaf in Ht as (p & h & Hl). split; [by apply (leaf_count _ _ _ _ Hl) | apply Hl].
  - apply tree_branch in Ht as (kids & p & h & (cells & Hn & Hc & Hk) & ->). rewrite Forall_forall in Hk. split.
    + destruct kids as [|k kids]; [by apply Forall2_nil_inv_r in Hc; destruct Hn |].
      destruct (Hk k ltac:(constructor)) as (_ & _ & Ht). destruct (IH _ _ Ht) as [Hne _].
      rewrite records_cons. by destruct (snd k).
    + rewrite Forall_forall. intros e He. apply elem_of_records in He as (k & Hin & He).
      destruct (Hk k Hin) as (_ & _ & Ht). destruct (IH _ _ Ht) as [_ Hv]. rewrite Forall_forall in Hv. by apply Hv.
Qed.

(** ** The child a key belongs to *)

Record chosen (key : Key) (ks1 : list kid) (k : kid) (ks2 : list kid) : Prop := {
  ch_low : ks1 = [] \/ exists first, first_of k first /\ rank first <= rank key;
  ch_high e : e ∈ records ks2 -> rank key < lrank e;
}.

Lemma place_choice kids keys key i exact : Forall2 first_of kids keys -> keys <> [] -> sp_sorted lrank (records kids) ->
  place keys key i exact ->
  exists ks1 k ks2, kids = ks1 ++ k :: ks2 /\ chosen key ks1 k ks2
    /\ zlen ks1 = (if exact then i else Z.max 0 (i - 1))
    /\ (exact = false -> i = 0 -> forall e, e ∈ snd k -> rank key < lrank e).
Proof using Type.
  intros Hf Hne Hs [Hi Hbelow Habove Hex]. pose proof (fences_increasing _ _ Hf Hs) as Hinc.
  pose proof (Forall2_length _ _ _ Hf) as Hlen. unfold zlen in Hi.
  assert (0 < length keys)%nat by (destruct keys; [done | cbn; lia]).
  assert (Hexi : exact = true -> i < zlen keys).
  { intros He. apply Hex in He as (k & Hk & _). apply lookup_lt_Some in Hk. unfold zlen. lia. }
  set (j := if exact then i else Z.max 0 (i - 1)).
  assert (Hj : 0 <= j < Z.of_nat (length keys)) by (unfold j, zlen in *; destruct exact; [specialize (Hexi eq_refl); lia | lia]).
  destruct (lookup_lt_is_Some_2 kids (Z.to_nat j)) as [k Hk]; [lia |].
  destruct (Forall2_lookup_l _ _ _ _ _ Hf Hk) as (fence & Hfence & Hfirst).
  exists (take (Z.to_nat j) kids), k, (drop (Datatypes.S (Z.to_nat j)) kids).
  split; [by rewrite take_drop_middle |]. split; [| split].
  - split.
    + destruct (Z.eq_dec j 0) as [-> | Hj0]; [by left |]. right. exists fence. split; [done |]. unfold j in *. destruct exact.
      * destruct (proj1 Hex eq_refl) as (k' & Hk' & He). replace fence with k' by congruence. lia.
      * pose proof (Hbelow _ _ Hfence ltac:(lia)). lia.
    + intros e He. apply elem_of_records in He as (k' & Hk' & He). apply list_elem_of_lookup in Hk' as (m & Hm).
      rewrite lookup_drop in Hm. set (m' := (Datatypes.S (Z.to_nat j) + m)%nat) in *.
      destruct (Forall2_lookup_l _ _ _ _ _ Hf Hm) as (fence' & Hfence' & Hfirst').
      pose proof (first_le k' fence' e Hfirst' ltac:(eapply sorted_kid; [done | by eapply list_elem_of_lookup_2]) He) as Hle.
      assert (Hmi : i <= Z.of_nat m') by (unfold j in m'; destruct exact; unfold m'; lia).
      pose proof (Habove _ _ Hfence' Hmi) as Hge. destruct (Z.eq_dec (rank key) (rank fence')) as [Heq | Hneq]; [| lia].
      destruct (Z.eq_dec i (Z.of_nat m')) as [Him | Him].
      * assert (exact = true) as -> by (apply Hex; exists fence'; split; [rewrite Him, Nat2Z.id; done | lia]). unfold j, m' in *. lia.
      * destruct (lookup_lt_is_Some_2 keys (Z.to_nat i)) as [f Hfi]; [apply lookup_lt_Some in Hfence'; lia |].
        pose proof (Habove _ _ Hfi ltac:(lia)). pose proof (increasing_lookup _ _ _ _ _ Hinc Hfi Hfence' ltac:(lia)). lia.
  - unfold zlen. rewrite length_take. lia.
  - intros -> ->. intros e He. assert (Hj0 : j = 0) by (unfold j; lia). rewrite Hj0 in Hk, Hfence.
    pose proof (first_le k fence e Hfirst ltac:(eapply sorted_kid; [done | by eapply list_elem_of_lookup_2]) He).
    pose proof (Habove _ _ Hfence ltac:(lia)). destruct (Z.eq_dec (rank fence) (rank key)) as [Heq | ?]; [| lia].
    assert (false = true) by (apply Hex; by exists fence). done.
Qed.

(** One branch page: where its search leads. *)
Lemma branch_search n l kids p h key : branch_node n l kids p h -> sp_sorted lrank (records kids) -> valid_key key ->
  exists ks1 k ks2 i exact, kids = ks1 ++ k :: ks2 /\ chosen key ks1 k ks2 /\ child_ok l k
    /\ lower_bound p h key true = Ok (i, exact)
    /\ (exists b, lower_bound p h key false = Ok (zlen ks1, b))
    /\ branch_child p h (zlen ks1) (selected_page_limit s) = Ok (fst k)
    /\ match (if exact then Some i else checked_sub i 1) with
       | Some j => j = zlen ks1
       | None => zlen ks1 = 0 /\ ks1 = [] /\ forall e, e ∈ snd k -> rank key < lrank e
       end.
Proof using Type*.
  intros Hb Hs Hkey. pose proof Hb as (cells & Hn & Hc & Hk).
  destruct (fence_keyed cells kids (Z.of_nat (Datatypes.S l)) Hc ltac:(lia)) as (keys & Hf & Hkeyed & Hv).
  destruct (lower_bound_spec p h cells keys key) as (i & exact & Hpl & Hlb); try done; try apply Hn.
  { rewrite (nd_level _ _ _ _ _ Hn). unfold cell_size. by rewrite (proj2 (Z.eqb_neq _ 0)) by lia. }
  { by eapply fences_increasing. }
  assert (Hne : keys <> []) by (intros ->; apply Forall2_nil_inv_r in Hf as ->; apply Forall2_nil_inv_r in Hc as ->; by destruct Hn).
  destruct (place_choice kids keys key i exact Hf Hne Hs Hpl) as (ks1 & k & ks2 & -> & Hch & Hz & Hnone).
  pose proof (pl_range _ _ _ _ Hpl) as Hi.
  exists ks1, k, ks2, i, exact. split; [done |]. split; [done |]. split; [| split; [| split; [| split]]].
  - apply Forall_app in Hk as [_ Hk]. by apply Forall_cons in Hk as [? _].
  - by rewrite (Hlb true).
  - rewrite (Hlb false), Hz. cbn [orb]. destruct exact; cbn [orb]; [by exists true |].
    exists false. destruct (Z.eqb_spec i 0) as [-> | ?]; [done |]. by rewrite Z.max_r by lia.
  - by eapply branch_child_ok.
  - destruct exact; [by rewrite Hz |]. unfold checked_sub. destruct (Z.leb_spec 1 i) as [? | ?]; [rewrite Hz; lia |].
    assert (i = 0) as -> by lia. split; [rewrite Hz; lia |]. split; [| by apply Hnone].
    destruct ks1; [done |]. rewrite zlen_cons in Hz. pose proof (zlen_nonneg ks1). lia.
Qed.

(** A leaf page: the place of a key among its records. *)
Lemma leaf_place p h es key : legible p h (leaf_bytes <$> es) -> es <> [] -> h_level h = 0 -> Forall valid_leaf es ->
  sp_sorted lrank es -> valid_key key ->
  exists i exact, place (leaf_key <$> es) key i exact /\ lower_bound p h key true = Ok (i, exact).
Proof using Type*.
  intros Hp Hne Hl Hv Hs Hkey.
  destruct (lower_bound_spec p h (leaf_bytes <$> es) (leaf_key <$> es) key) as (i & exact & Hpl & Hlb); try done.
  - by destruct es.
  - rewrite Hl. unfold cell_size. rewrite Z.eqb_refl. clear Hp Hne Hs.
    induction Hv as [|e es He Hv IH]; [constructor |]. constructor; [| done]. cbn. split; [by apply cl_leaf_bytes | by apply cl_read_leaf_key].
  - clear Hp Hne Hv. induction Hs as [|e es Hs IH Hall]; [constructor |]. rewrite fmap_cons.
    constructor; [done |]. rewrite Forall_fmap. exact Hall.
  - rewrite Forall_fmap. eapply Forall_impl; [exact Hv |]. intros e He. by apply cl_leaf_key.
  - exists i, exact. split; [done |]. by rewrite (Hlb true).
Qed.

Lemma leaf_search n es p h key : leaf_node n es p h -> sp_sorted lrank es -> valid_key key ->
  exists i exact, place (leaf_key <$> es) key i exact /\ lower_bound p h key true = Ok (i, exact).
Proof using Type*.
  intros [Hn Hv] Hs Hkey. apply leaf_place; try done; [apply Hn | | apply Hn].
  pose proof (nd_cells _ _ _ _ _ Hn) as Hne. by destruct es.
Qed.

(** ** A descent *)

(** The leaf [mid] is where [key] belongs among [before ++ mid ++ after]. *)
Record surrounds (key : Key) (before mid after : list Leaf) : Prop := {
  su_low : before = [] \/ exists e rest, mid = e :: rest /\ lrank e <= rank key;
  su_high e : e ∈ after -> rank key < lrank e;
}.

Lemma surrounds_kid key ks1 k ks2 before mid after : chosen key ks1 k ks2 -> snd k = before ++ mid ++ after ->
  mid <> [] -> surrounds key before mid after -> surrounds key (records ks1 ++ before) mid (after ++ records ks2).
Proof using Type.
  intros [Hlow Hhigh] Hk Hne [Hsl Hsh]. split.
  - destruct Hsl as [-> | Hsl]; [| by right]. destruct Hlow as [-> | (first & (e & rest & He & ->) & Hle)]; [by left |].
    right. rewrite Hk in He. destruct mid as [|m mid]; [done |]. injection He as -> _. by exists e, mid.
  - intros e [He | He]%elem_of_app; auto.
Qed.

Lemma sorted_mid key_rank (a b c : list Leaf) : sp_sorted key_rank (a ++ b ++ c) -> sp_sorted key_rank b.
Proof using Type. intros Hs. apply StronglySorted_app in Hs as (_ & _ & Hs). by apply StronglySorted_app in Hs as (_ & Hs & _). Qed.

Lemma query_descends {Q} (leaf : LeafQuery Q) key level : valid_key key -> forall n es rounds expected,
  tree_at level n es -> sp_sorted lrank es -> (level < rounds)%nat ->
  match expected with Some e => e = Z.of_nat level | None => True end ->
  exists before mid after n' p h i exact, es = before ++ mid ++ after /\ leaf_node n' mid p h
    /\ surrounds key before mid after /\ place (leaf_key <$> mid) key i exact
    /\ query_loop rounds s key leaf n expected = leaf p h n' i exact.
Proof using Type*.
  intros Hkey. induction level as [|l IH]; intros n es rounds expected Ht Hs Hr He; destruct rounds as [|rounds]; try lia.
  - apply tree_leaf in Ht as (p & h & Hl). destruct (leaf_search _ _ _ _ key Hl Hs Hkey) as (i & exact & Hpl & Hlb).
    exists [], es, [], n, p, h, i, exact. split; [by rewrite app_nil_r |]. split; [done |]. split; [split; [by left | intros e Hin; by apply elem_of_nil in Hin] |].
    split; [done |]. cbn [query_loop]. rewrite (nd_view _ _ _ _ _ (proj1 Hl)). unfold query_step.
    rewrite (node_parse _ _ _ _ _ expected (proj1 Hl) He). cbn [mbind outcome_bind].
    rewrite (nd_level _ _ _ _ _ (proj1 Hl)), Z.eqb_refl, Hlb. cbn [mbind outcome_bind]. by destruct (leaf p h n i exact).
  - apply tree_branch in Ht as (kids & p & h & Hb & ->).
    destruct (branch_search _ _ _ _ _ key Hb Hs Hkey) as (ks1 & k & ks2 & i & exact & -> & Hch & Hk & _ & (b & Hlb) & Hbc & _).
    rewrite records_app, records_cons in Hs |- *. pose proof (sorted_mid _ _ _ _ Hs) as Hsk.
    destruct (IH (fst k) (snd k) rounds (Some (Z.of_nat l))) as (before & mid & after & n' & p' & h' & i' & exact' & Hes & Hl & Hsu & Hpl & Hq);
      [apply Hk | done | lia | done |].
    exists (records ks1 ++ before), mid, (after ++ records ks2), n', p', h', i', exact'.
    split; [rewrite Hes, <- !app_assoc; done |]. split; [done |].
    split; [eapply surrounds_kid; [done | done | by apply (leaf_count _ _ _ _ Hl) | done] |]. split; [done |].
    destruct Hb as (cells & Hn & _). cbn [query_loop]. rewrite (nd_view _ _ _ _ _ Hn). unfold query_step.
    rewrite (node_parse _ _ _ _ _ expected Hn He). cbn [mbind outcome_bind].
    rewrite (nd_level _ _ _ _ _ Hn), (proj2 (Z.eqb_neq _ 0)), Hlb by lia. cbn [mbind outcome_bind]. rewrite Hbc. cbn [mbind outcome_bind].
    rewrite (ltac:(lia) : Z.of_nat (Datatypes.S l) - 1 = Z.of_nat l). exact Hq.
Qed.

(** The tree of a root. *)
Definition tree_holds (root : Z) (es : list Leaf) : Prop :=
  sp_sorted lrank es /\
  (root = 0 /\ es = []
   \/ 2 <= root < selected_page_limit s /\ exists level, Z.of_nat level <= MAX_TREE_LEVEL /\ tree_at level root es).
End Tree.
