(* ===== verification/TreeReads.v ===== *)
(** * Reads of a B+tree refine reads of a sorted list

    On a tree that holds the records [es] the cursor's one-shot reads and the
    point lookup of ranges return what the list operations of [TreeInterface]
    and the denotation of a record list say. *)

From stdpp Require Import base tactics numbers list strings sorting.
From Stdlib Require Import ZArith Lia.
From S2P Require Import Prelude Errors Bytes Key PageHeader SlottedPage SlottedFacts Codec Contract TreeInterface RangeMap.
From S2P Require Import Machine Mapping TreePage TreeQuery TreeCursor TreeFacts.

#[local] Open Scope string_scope.
#[local] Open Scope list_scope.
#[local] Open Scope Z_scope.

Lemma filter_take {A} (P : A -> Prop) `{!forall x, Decision (P x)} n (l : list A) :
  (forall j x, l !! j = Some x -> (P x <-> (j < n)%nat)) -> filter P l = take n l.
Proof.
  revert n. induction l as [|x l IH]; intros n Hn; [by rewrite take_nil |]. rewrite filter_cons.
  pose proof (Hn 0%nat x eq_refl) as H0. case_decide as Hx.
  - apply H0 in Hx. destruct n as [|n]; [lia |]. cbn. f_equal. apply IH. intros j y Hj. rewrite (Hn (S j) y Hj). lia.
  - destruct n as [|n]; [| destruct Hx; apply H0; lia]. rewrite (IH 0%nat); [done |]. intros j y Hj. rewrite (Hn (S j) y Hj). lia.
Qed.

Lemma filter_drop {A} (P : A -> Prop) `{!forall x, Decision (P x)} n (l : list A) :
  (forall j x, l !! j = Some x -> (P x <-> (n <= j)%nat)) -> filter P l = drop n l.
Proof.
  revert n. induction l as [|x l IH]; intros n Hn; [by rewrite drop_nil |]. rewrite filter_cons.
  pose proof (Hn 0%nat x eq_refl) as H0. case_decide as Hx.
  - apply H0 in Hx. destruct n as [|n]; [| lia]. rewrite (IH 0%nat); [done |]. intros j y Hj. rewrite (Hn (S j) y Hj). lia.
  - destruct n as [|n]; [destruct Hx; apply H0; lia |]. cbn. apply IH. intros j y Hj. rewrite (Hn (S j) y Hj). lia.
Qed.

Lemma filter_nothing {A} (P : A -> Prop) `{!forall x, Decision (P x)} (l : list A) :
  (forall x, x ∈ l -> ~ P x) -> filter P l = [].
Proof. intros Hn. apply elem_of_nil_inv. intros x [Hx Hin]%list_elem_of_filter. by apply (Hn x). Qed.

Lemma last_take {A} (l : list A) n : (n < length l)%nat -> last (take (S n) l) = l !! n.
Proof.
  intros Hn. rewrite last_lookup, length_take, lookup_take_lt by lia. f_equal. lia.
Qed.

(** ** Places *)

Section Places.
Context {Key Leaf : Type} `{CodecLaws Key Leaf}.

Lemma sorted_lookup (es : list Leaf) i j a b : sp_sorted lrank es -> es !! i = Some a -> es !! j = Some b -> (i < j)%nat ->
  lrank a < lrank b.
Proof using Type.
  intros Hs. revert i j. induction Hs as [|e es Hs IH He]; intros i j Hi Hj Hij; [done |].
  destruct i as [|i], j as [|j]; cbn in *; try lia; [| apply (IH i j); done || lia].
  injection Hi as ->. rewrite Forall_forall in He. apply He. by eapply list_elem_of_lookup_2.
Qed.

(** Which records of the leaf are below the key, and which are not above it. *)
Lemma place_records (mid : list Leaf) key i exact j e : place (leaf_key <$> mid) key i exact -> sp_sorted lrank mid ->
  mid !! j = Some e ->
  (rank key <= lrank e <-> i <= Z.of_nat j) /\ (lrank e <= rank key <-> Z.of_nat j < (if exact then i + 1 else i)).
Proof using Type.
  intros [Hi Hb Ha Hex] Hs Hj. assert (Hk : (leaf_key <$> mid) !! j = Some (leaf_key e)) by (by rewrite list_lookup_fmap, Hj).
  pose proof (Hb _ _ Hk) as Hb'. pose proof (Ha _ _ Hk) as Ha'. fold (lrank e) in Hb', Ha'.
  assert (Heq : lrank e = rank key <-> exact = true /\ i = Z.of_nat j).
  { split.
    - intros He. destruct (Z.lt_trichotomy i (Z.of_nat j)) as [Hlt | [-> | Hgt]]; [| | lia].
      + destruct (lookup_lt_is_Some_2 mid (Z.to_nat i)) as [e' He']; [apply lookup_lt_Some in Hj; lia |].
        pose proof (sorted_lookup _ _ _ _ _ Hs He' Hj ltac:(lia)).
        pose proof (Ha (Z.to_nat i) (leaf_key e') ltac:(by rewrite list_lookup_fmap, He') ltac:(lia)). unfold lrank in *. lia.
      + split; [| done]. apply Hex. exists (leaf_key e). rewrite Nat2Z.id. done.
    - intros [-> ->]. destruct (proj1 Hex eq_refl) as (k & Hk' & Hr). rewrite Nat2Z.id in Hk'. unfold lrank. congruence. }
  destruct (Z.lt_ge_cases (Z.of_nat j) i) as [Hlt | Hge].
  - specialize (Hb' Hlt). split; [lia |]. destruct exact; lia.
  - specialize (Ha' Hge). split; [lia |]. destruct exact.
    + destruct (Z.eq_dec i (Z.of_nat j)) as [He | He]; [assert (lrank e = rank key) by (by apply Heq); lia |].
      assert (lrank e <> rank key) by (intros Hr; apply Heq in Hr; lia). lia.
    + assert (lrank e <> rank key) by (intros Hr; apply Heq in Hr as [? _]; done). lia.
Qed.

Lemma place_range (mid : list Leaf) key i exact : place (leaf_key <$> mid) key i exact ->
  0 <= i <= zlen mid /\ (exact = true -> i < zlen mid).
Proof using Type.
  intros [Hi _ _ Hex]. unfold zlen in *. rewrite length_fmap in Hi. split; [done |]. intros He.
  apply Hex in He as (k & Hk & _). apply lookup_lt_Some in Hk. rewrite length_fmap in Hk. lia.
Qed.

(** Records before the leaf are below the key. *)
Lemma surrounds_below key (before mid after : list Leaf) e : surrounds key before mid after ->
  sp_sorted lrank (before ++ mid ++ after) -> e ∈ before -> lrank e < rank key.
Proof using Type.
  intros [Hl _] Hs He. destruct Hl as [-> | (m & rest & -> & Hm)]; [by apply elem_of_nil in He |].
  apply StronglySorted_app in Hs as (Hlt & _ & _). specialize (Hlt e m He ltac:(constructor)). lia.
Qed.

Lemma predecessor_place key (before mid after : list Leaf) i exact : surrounds key before mid after -> mid <> [] ->
  sp_sorted lrank (before ++ mid ++ after) -> place (leaf_key <$> mid) key i exact ->
  sp_predecessor lrank (before ++ mid ++ after) (rank key)
  = match (if exact then Some i else checked_sub i 1) with Some j => mid !! Z.to_nat j | None => None end.
Proof using Type.
  intros Hsu Hne Hs Hpl. destruct (place_range _ _ _ _ Hpl) as [Hi Hix]. pose proof (sorted_mid _ _ _ _ Hs) as Hsm.
  unfold sp_predecessor. rewrite !filter_app. set (m := Z.to_nat (if exact then i + 1 else i)).
  rewrite (filter_nothing _ after) by (intros e He; pose proof (su_high _ _ _ _ Hsu e He); lia).
  rewrite (filter_take _ m mid), app_nil_r.
  2: { intros j e Hj. rewrite (proj2 (place_records _ _ _ _ _ _ Hpl Hsm Hj)). unfold m. destruct exact; lia. }
  destruct m as [|m'] eqn:Hm.
  - assert (exact = false /\ i = 0) as [-> ->] by (destruct exact; lia). cbn.
    rewrite app_nil_r. destruct (su_low _ _ _ _ Hsu) as [-> | (e & rest & -> & Hle)]; [done |]. exfalso.
    pose proof (proj2 (place_records _ _ _ _ 0%nat e Hpl Hsm eq_refl)). cbn in *. lia.
  - assert (Hm' : (m' < length mid)%nat) by (unfold zlen in *; destruct exact; [specialize (Hix eq_refl); lia | lia]).
    rewrite last_app, last_take by done. destruct (lookup_lt_is_Some_2 mid m' Hm') as [e He]. rewrite He.
    destruct exact; [replace (Z.to_nat i) with m' by lia; done |].
    unfold checked_sub. rewrite (proj2 (Z.leb_le 1 i)) by lia. by replace (Z.to_nat (i - 1)) with m' by lia.
Qed.

Lemma at_or_after_place key (before mid after : list Leaf) i exact : surrounds key before mid after ->
  sp_sorted lrank (before ++ mid ++ after) -> place (leaf_key <$> mid) key i exact ->
  sp_at_or_after lrank (before ++ mid ++ after) (rank key) = if i <? zlen mid then mid !! Z.to_nat i else head after.
Proof using Type.
  intros Hsu Hs Hpl. destruct (place_range _ _ _ _ Hpl) as [Hi _]. pose proof (sorted_mid _ _ _ _ Hs) as Hsm.
  unfold sp_at_or_after. rewrite !filter_app.
  rewrite (filter_nothing _ before) by (intros e He; pose proof (surrounds_below _ _ _ _ _ Hsu Hs He); lia).
  rewrite (filter_drop _ (Z.to_nat i) mid).
  2: { intros j e Hj. rewrite (proj1 (place_records _ _ _ _ _ _ Hpl Hsm Hj)). lia. }
  rewrite (filter_all _ after) by (intros e He; pose proof (su_high _ _ _ _ Hsu e He); lia).
  cbn. unfold zlen in *. destruct (Z.ltb_spec i (Z.of_nat (length mid))) as [Hlt | Hge].
  - destruct (lookup_lt_is_Some_2 mid (Z.to_nat i)) as [e He]; [lia |]. by rewrite He, (drop_S _ e) by done.
  - rewrite drop_ge by lia. done.
Qed.
End Places.

(** ** The point lookup of ranges *)

Section Lookup.
Context {K : Type} `{IpKeyLaws K}.

Lemma rng_lookup_predecessor (es : list (Range K)) a : sp_sorted rf es -> canonical es ->
  rng_lookup es a = match sp_predecessor rf es a with
                    | Some r => if rt r <? a then None else Some (r_value r)
                    | None => None
                    end.
Proof using Type.
  intros Hs Hc. destruct (sp_predecessor rf es a) as [r|] eqn:Hp.
  - destruct (sp_predecessor_Some rf es _ _ Hs Hp) as (Hr & Hle & Hmax). destruct (Z.ltb_spec (rt r) a) as [Hlt | Hge].
    + apply rng_lookup_None. intros x Hx Hax. destruct (Z.eq_dec (rf x) (rf r)) as [He | Hne].
      * rewrite (sp_sorted_inj rf es x r Hs Hx Hr He) in Hax. lia.
      * pose proof (Hmax x Hx ltac:(lia)). destruct (proj2 Hc x r Hx Hr ltac:(lia)). lia.
    + apply (rng_lookup_has es a _ Hs Hc). exists r. split; [done |]. split; [lia | done].
  - apply rng_lookup_None. intros x Hx Hax. pose proof (sp_predecessor_None rf es a Hp x Hx). lia.
Qed.

Lemma range_leaf_lookup {S} `{PageSource S} (s : S) n (mid : list (Range K)) p h target i exact :
  leaf_node s n mid p h -> key_ok target -> place (leaf_key <$> mid) target i exact ->
  range_lookup target p h n i exact
  = Ok (match (match (if exact then Some i else checked_sub i 1) with Some j => mid !! Z.to_nat j | None => None end) with
        | Some r => if rt r <? key_num target then None else Some (r_value r)
        | None => None
        end).
Proof using Type.
  intros Hl Ht Hpl. destruct (place_range _ _ _ _ Hpl) as [Hi Hix]. unfold range_lookup.
  destruct (if exact then Some i else checked_sub i 1) as [j|] eqn:Hj; [| done].
  assert (Hjr : 0 <= j < zlen mid).
  { unfold checked_sub in Hj. destruct exact; [injection Hj as <-; specialize (Hix eq_refl); lia |].
    destruct (Z.leb_spec 1 i); [injection Hj as <-; lia | done]. }
  destruct (lookup_lt_is_Some_2 mid (Z.to_nat j)) as [r Hr]; [unfold zlen in Hjr; lia |]. rewrite Hr.
  pose proof (leaf_cell_ok s n mid p h (Z.to_nat j) r Hl Hr) as Hc. rewrite Z2Nat.id in Hc by lia.
  unfold leaf_cell in Hc. cbn [LEAF_SIZE RangeCodec] in Hc. unfold leaf_record, record_size.
  destruct (cell p h j (key_width * 2 + 4)) as [x | |]; cbn [mbind outcome_bind] in Hc |- *; try discriminate. injection Hc as ->.
  assert (Hv : range_ok r) by (destruct Hl as [_ Hv]; rewrite Forall_forall in Hv; apply Hv; by eapply list_elem_of_lookup_2).
  rewrite decode_cell_bytes by done. cbn [mbind outcome_bind].
  rewrite key_ltb_num by (done || apply Hv). by destruct (rt r <? key_num target) eqn:E; unfold rt in E; rewrite E.
Qed.

(** C34: a point lookup on a committed generation, whose range tree holds the
    canonical records [es], returns the value those records give the address,
    or none when no record spans it; on a database of the other address family
    it is refused. *)
Theorem lookup_denotes mapping meta (es : list (Range K)) (target : K) :
  tree_holds (mkGeneration mapping meta) (range_root meta) es -> canonical es -> key_ok target ->
  lookup mapping meta target
  = if bool_decide (address_family meta = key_family) then Ok (rng_lookup es (key_num target))
    else Err (WrongAddressFamily "lookup address family does not match the database").
Proof using Type.
  intros [Hs Ht] Hc Hk. unfold lookup. case_bool_decide as Hf; cbn [negb]; [| done]. unfold query.
  destruct Ht as [[-> ->] | (Hroot & level & Hlev & Ht)]; [done |].
  rewrite (proj2 (Z.eqb_neq _ 0)) by lia.
  assert (Hk' : valid_key (Leaf := Range K) target) by exact Hk.
  destruct (query_descends _ (range_lookup target) target level Hk' _ es (Z.to_nat (MAX_TREE_LEVEL + 1)) None Ht Hs)
    as (before & mid & after & n & p & h & i & exact & -> & Hl & Hsu & Hpl & ->); [unfold MAX_TREE_LEVEL in *; lia | done |].
  rewrite (range_leaf_lookup _ n mid p h target i exact Hl Hk Hpl). f_equal.
  rewrite rng_lookup_predecessor by done. change rf with (lrank (Leaf := Range K)).
  change (key_num target) with (rank target) at 2.
  by rewrite (predecessor_place target before mid after i exact Hsu (proj2 (leaf_count _ _ _ _ _ Hl)) Hs Hpl).
Qed.
End Lookup.
