(* ===== verification/CursorTheorems.v ===== *)
(** * Correctness of the B+tree cursor

    The path of a cursor is a zipper: with the records of the leaf in hand it
    accounts for every record of the tree, those [before] the leaf and those
    [after] it.  Moving to the next leaf, seeking and iterating are read off
    that account. *)

From stdpp Require Import base tactics numbers list strings sorting.
From Stdlib Require Import ZArith Lia.
From S2P Require Import Prelude Errors Bytes Codec TreeInterface PageHeader SlottedPage SlottedFacts Machine TreePage TreeQuery TreeCursor TreeFacts.
From S2P Require Import TreeReads.

#[local] Open Scope string_scope.
#[local] Open Scope list_scope.
#[local] Open Scope Z_scope.

Section Cursor.
Context {Key Leaf : Type} `{CodecLaws Key Leaf} {S : Type} `{PageSource S} (s : S).

(** The path to a page that holds [hole], with the records on both sides. *)
Inductive context : list CFrame -> nat -> list Leaf -> list Leaf -> list Leaf -> Prop :=
| ctx_top l es : context [] l es [] []
| ctx_in path l n p h ks1 k ks2 before after :
    branch_node s n l (ks1 ++ k :: ks2) p h ->
    context path (Datatypes.S l) (records (ks1 ++ k :: ks2)) before after ->
    context (mkCFrame n (zlen ks1) (zlen (ks1 ++ k :: ks2)) (Z.of_nat (Datatypes.S l)) :: path) l (snd k)
      (before ++ records ks1) (records ks2 ++ after).

(** The cursor reads this source from this root, forward. *)
Context (root : Z).
Record reads (c : Cursor) : Prop := {
  rd_txn : cu_selected_txn c = selected_txn s;
  rd_limit : cu_page_limit c = selected_page_limit s;
  rd_forward : cu_direction c = Forward;
  rd_root : cu_root c = root;
}.

Lemma branch_header n l kids p h : branch_node s n l kids p h ->
  h_item_count h = zlen kids /\ h_level h = Z.of_nat (Datatypes.S l) /\ kids <> [].
Proof using Type.
  intros (cells & Hn & Hc & _). rewrite (lb_count _ _ _ (nd_legible _ _ _ _ _ _ Hn)), (nd_level _ _ _ _ _ _ Hn).
  split; [unfold zlen; by rewrite (Forall2_length _ _ _ Hc) |]. split; [done |].
  intros ->. apply Forall2_nil_inv_r in Hc as ->. by destruct (nd_cells _ _ _ _ _ _ Hn).
Qed.

Lemma branch_parse n l kids p h expected : branch_node s n l kids p h ->
  match expected with Some e => e = Z.of_nat (Datatypes.S l) | None => True end -> tree_parse p (selected_txn s) expected = Ok h.
Proof using Type*. intros (cells & Hn & _). by eapply node_parse. Qed.

Lemma branch_view n l kids p h A (f : list Z -> Result A) : branch_node s n l kids p h -> view_page s n f = f p.
Proof using Type. intros (cells & Hn & _). apply Hn. Qed.

Lemma push_ok n i h c : zlen (cu_path c) < MAX_DEPTH ->
  cursor_push n i h (c, s) = ((set_path (mkCFrame n i (h_item_count h) (h_level h) :: cu_path c) c, s), Ok tt).
Proof using Type.
  intros Hd. unfold cursor_push, mbind, io_bind, cursor_get, gets, fail_if, lift. cbn [fst].
  by rewrite (proj2 (Z.leb_gt _ _) Hd).
Qed.

(** ** The leftmost leaf below a page *)

Definition at_leaf (n : Z) (h : Header) (i : Z) (path : list CFrame) (c : Cursor) : Cursor :=
  set_position (Some (mkCLeaf n h)) i false false (set_path path c).

Lemma descend_first level : forall n es rounds expected c before after,
  tree_at s level n es -> reads c -> context (cu_path c) level es before after ->
  zlen (cu_path c) + Z.of_nat level <= MAX_DEPTH -> (level < rounds)%nat ->
  match expected with Some e => e = Z.of_nat level | None => True end ->
  exists mid rest n' p h path, es = mid ++ rest /\ leaf_node s n' mid p h /\ context path 0 mid before (rest ++ after)
    /\ zlen path <= MAX_DEPTH
    /\ descend_edge Shared rounds n expected (c, s) = ((at_leaf n' h 0 path c, s), Ok tt).
Proof using Type*.
  induction level as [|l IH]; intros n es rounds expected c before after Ht Hc Hctx Hd Hr He; destruct rounds as [|rounds]; try lia;
    destruct Hc as [Htxn Hlim Hdir Hroot]; cbn [descend_edge]; unfold mbind, io_bind, cursor_get, gets, reach, zoom;
    cbn [fst snd acc_view Shared consumed_txn]; rewrite Htxn, Hlim, Hdir.
  - apply tree_leaf in Ht as (p & h & Hl). exists es, [], n, p, h, (cu_path c). split; [by rewrite app_nil_r |].
    split; [done |]. split; [done |]. split; [lia |]. rewrite (nd_view _ _ _ _ _ _ (proj1 Hl)). unfold edge_page.
    rewrite (node_parse _ _ _ _ _ _ expected (proj1 Hl) He). cbn [mbind outcome_bind].
    rewrite (nd_level _ _ _ _ _ _ (proj1 Hl)), Z.eqb_refl. by destruct c.
  - apply tree_branch in Ht as (kids & p & h & Hb & ->). destruct (branch_header _ _ _ _ _ Hb) as (Hcount & Hlev & Hne).
    destruct kids as [|k kids]; [done |]. rewrite (branch_view _ _ _ _ _ _ _ Hb). unfold edge_page.
    rewrite (branch_parse _ _ _ _ _ expected Hb He). cbn [mbind outcome_bind].
    rewrite Hlev, (proj2 (Z.eqb_neq _ 0)) by lia. cbn [edge_index].
    pose proof (branch_child_ok s n l [] k kids p h Hb) as Hbc. change (zlen []) with 0 in Hbc. rewrite Hbc. cbn [mbind outcome_bind].
    rewrite push_ok by lia. rewrite Hlev, Hcount.
    destruct (IH (fst k) (snd k) rounds (Some (Z.of_nat (Datatypes.S l) - 1))
      (set_path (mkCFrame n 0 (zlen (k :: kids)) (Z.of_nat (Datatypes.S l)) :: cu_path c) c) before (records kids ++ after))
      as (mid & rest & n' & p' & h' & path & Hes & Hl & Hctx' & Hd' & Hrun).
    + destruct Hb as (cells & _ & _ & Hk). apply Forall_cons in Hk as [(_ & _ & Hk) _]. done.
    + by split.
    + cbn [cu_path set_path]. pose proof (ctx_in (cu_path c) l n p h [] k kids before after Hb Hctx) as Hin.
      cbn in Hin. rewrite app_nil_r in Hin. exact Hin.
    + cbn [cu_path set_path]. rewrite zlen_cons. lia.
    + lia.
    + lia.
    + exists mid, (rest ++ records kids), n', p', h', path. split; [by rewrite records_cons, Hes, app_assoc |]. split; [done |].
      split; [by rewrite <- app_assoc |]. split; [done |]. rewrite Hrun. done.
Qed.

(** ** The leaf after a path *)

Lemma climb_cons frame rest c : reads c ->
  climb Shared (frame :: rest) (c, s)
  = if negb (has_sibling Forward frame) then climb Shared rest (set_path rest c, s)
    else
      let frame := mkCFrame (cf_page_number frame) (cf_index frame + 1) (cf_item_count frame) (cf_level frame) in
      let c1 := set_path (frame :: rest) c in
      match view_page s (cf_page_number frame) (sibling_page (selected_txn s) (selected_page_limit s) frame) with
      | Ok child => descend_edge Shared descent_rounds child (Some (cf_level frame - 1)) (c1, s)
      | Err e => ((c1, s), Err e)
      | Panic t => ((c1, s), Panic t)
      end.
Proof using Type.
  intros [Htxn Hlim Hdir Hroot]. cbn [climb]. rewrite (bind_ok _ _ (c, s) (c, s) Forward) by (unfold cursor_get, gets; cbn; by rewrite Hdir).
  destruct (has_sibling Forward frame); cbn [negb]; [| done]. cbn [moved]. rewrite <- Htxn, <- Hlim. done.
Qed.

Lemma climb_next path : forall l hole before after c, context path l hole before after -> reads c -> cu_path c = path ->
  zlen path + Z.of_nat l <= MAX_DEPTH ->
  (after = [] /\ climb Shared path (c, s)
     = ((set_position (cu_leaf c) (cu_index c) false true (set_path [] c), s), Ok tt))
  \/ exists mid rest n p h path', after = mid ++ rest /\ leaf_node s n mid p h /\ context path' 0 mid (before ++ hole) rest
       /\ zlen path' <= MAX_DEPTH
       /\ climb Shared path (c, s) = ((at_leaf n h 0 path' c, s), Ok tt).
Proof using Type*.
  induction path as [|frame path IH]; intros l hole before after c Hctx Hc Hp Hd.
  { inversion Hctx; subst. left. split; [done |]. cbn. unfold cursor_set, modify. cbn. rewrite <- Hp. by destruct c. }
  inversion Hctx as [|path0 l0 n p h ks1 k ks2 before0 after0 Hb Hctx0]; subst. clear Hctx.
  rewrite zlen_cons in Hd. pose proof (zlen_nonneg path). destruct (branch_header _ _ _ _ _ Hb) as (Hcount & Hlev & _).
  rewrite climb_cons by done. cbn [has_sibling cf_index cf_item_count].
  destruct ks2 as [|k2 ks2].
  - rewrite (proj2 (Z.ltb_ge _ _)) by (rewrite zlen_app, zlen_cons; change (zlen []) with 0; lia). cbn [negb].
    destruct (IH (Datatypes.S l) _ before0 after0 (set_path path c) Hctx0) as [[-> Hrun] | (mid & rest & n' & p' & h' & path' & -> & Hl & Hctx' & Hd' & Hrun)];
      [destruct Hc; by split | done | lia | |].
    + left. split; [done |]. exact Hrun.
    + right. exists mid, rest, n', p', h', path'. split; [done |]. split; [done |]. split; [| split; [done | exact Hrun]].
      rewrite records_app, records_cons in Hctx'. change (records []) with (@nil Leaf) in Hctx'. rewrite app_nil_r in Hctx'. by rewrite <- app_assoc.
  - rewrite (proj2 (Z.ltb_lt _ _)) by (rewrite zlen_app, !zlen_cons; pose proof (zlen_nonneg ks2); lia). cbn [negb].
    right. assert (Hb' : branch_node s n l ((ks1 ++ [k]) ++ k2 :: ks2) p h) by (by rewrite <- app_assoc).
    assert (Hz : zlen ks1 + 1 = zlen (ks1 ++ [k])) by (rewrite zlen_app, zlen_cons; change (zlen []) with 0; lia). rewrite Hz.
    cbn [cf_page_number cf_level cf_item_count cf_index]. cbv zeta.
    rewrite (branch_view _ _ _ _ _ _ _ Hb'). unfold sibling_page. cbn [cf_level cf_item_count cf_index].
    rewrite (branch_parse _ _ _ _ _ (Some _) Hb') by done. cbn [mbind outcome_bind].
    rewrite Hcount, Z.eqb_refl. cbn [negb]. rewrite (branch_child_ok s n l (ks1 ++ [k]) k2 ks2 p h Hb').
    set (frame := mkCFrame _ _ _ _). set (c1 := set_path (frame :: path) c).
    destruct (descend_first l (fst k2) (snd k2) descent_rounds (Some (Z.of_nat (Datatypes.S l) - 1)) c1
      (before0 ++ records (ks1 ++ [k])) (records ks2 ++ after0)) as (mid & rest & n' & p' & h' & path' & Hes & Hl & Hctx' & Hd' & Hrun).
    + destruct Hb' as (cells & _ & _ & Hk). apply Forall_app in Hk as [_ Hk]. by apply Forall_cons in Hk as [(_ & _ & ?) _].
    + destruct Hc. by split.
    + cbn [cu_path c1 set_path]. unfold frame. replace (ks1 ++ k :: k2 :: ks2) with ((ks1 ++ [k]) ++ k2 :: ks2) by (by rewrite <- app_assoc).
      apply (ctx_in _ _ _ p h); [done |]. by rewrite <- app_assoc.
    + cbn [cu_path c1 set_path]. rewrite zlen_cons. lia.
    + unfold descent_rounds, MAX_DEPTH, MAX_TREE_LEVEL in *. lia.
    + lia.
    + exists mid, (rest ++ records ks2 ++ after0), n', p', h', path'. split; [by rewrite records_cons, Hes, <- !app_assoc |].
      split; [done |]. split; [| split; [done | by rewrite Hrun]].
      rewrite records_app, records_cons in Hctx'. change (records []) with (@nil Leaf) in Hctx'. rewrite app_nil_r in Hctx'. by rewrite <- app_assoc.
Qed.

(** ** What a cursor has still to yield *)

Inductive pending (c : Cursor) : list Leaf -> Prop :=
| pd_finished : cu_finished c = true -> pending c []
| pd_at n h mid p before after : cu_finished c = false -> cu_leaf c = Some (mkCLeaf n h) -> leaf_node s n mid p h ->
    context (cu_path c) 0 mid before after -> zlen (cu_path c) <= MAX_DEPTH -> 0 <= cu_index c < zlen mid ->
    pending c (drop (Z.to_nat (if cu_needs_advance c then cu_index c + 1 else cu_index c)) mid ++ after).

Lemma pending_at c n h mid p i path before after : leaf_node s n mid p h -> context path 0 mid before after ->
  zlen path <= MAX_DEPTH -> 0 <= i < zlen mid -> pending (at_leaf n h i path c) (drop (Z.to_nat i) mid ++ after).
Proof using Type. intros Hl Hctx Hd Hi. by apply (pd_at (at_leaf n h i path c) n h mid p before after). Qed.

Lemma reads_at_leaf c n h i path : reads c -> reads (at_leaf n h i path c).
Proof using Type. intros []. by split. Qed.

Lemma leaf_head mid n p h : leaf_node s n mid p h -> 0 <= 0 < zlen mid.
Proof using Type. intros Hl. destruct (leaf_count _ _ _ _ _ Hl) as [_ Hne]. destruct mid; [done |]. rewrite zlen_cons. pose proof (zlen_nonneg mid). lia. Qed.

Lemma item_ok n mid p h i e : leaf_node s n mid p h -> 0 <= i -> mid !! Z.to_nat i = Some e -> ReadLeaf p h n i = Ok e.
Proof using Type*.
  intros Hl Hi He. pose proof (leaf_cell_ok _ _ _ _ _ _ _ Hl He) as Hc. rewrite Z2Nat.id in Hc by done.
  unfold ReadLeaf. rewrite Hc. cbn. apply cl_read_leaf. destruct Hl as [_ Hv]. rewrite Forall_forall in Hv. apply Hv.
  by eapply list_elem_of_lookup_2.
Qed.

(** [advance_leaf], from a leaf whose records are used up. *)
Lemma advance_leaf_ok c mid before after : reads c -> context (cu_path c) 0 mid before after -> zlen (cu_path c) <= MAX_DEPTH ->
  exists c', advance_leaf Shared (c, s) = ((c', s), Ok tt) /\ reads c' /\ pending c' after
    /\ (cu_finished c' = false -> cu_needs_advance c' = false).
Proof using Type*.
  intros Hc Hctx Hd. set (c1 := set_position None (cu_index c) (cu_needs_advance c) (cu_finished c) c).
  assert (Hc1 : reads c1) by (destruct Hc; by split).
  change (advance_leaf Shared (c, s)) with (climb (S := S) Shared (cu_path c1) (c1, s)).
  destruct (climb_next (cu_path c1) 0 mid before after c1 Hctx Hc1 eq_refl)
    as [[-> ->] | (mid' & rest & n & p & h & path & -> & Hl & Hctx' & Hd' & ->)]; [cbn; lia | |].
  - eexists. split; [done |]. split; [destruct Hc1; by split |]. split; [by apply pd_finished | done].
  - eexists. split; [done |]. split; [by apply reads_at_leaf |]. split; [| done].
    apply (pending_at c1 n h mid' p 0 path (before ++ mid) rest); [done | done | done | by eapply leaf_head].
Qed.

(** ** Seeking forward *)

Lemma at_or_after_split (a b c : list Leaf) k : (forall e, e ∈ a -> lrank e < k) -> (forall e, e ∈ c -> k < lrank e) ->
  filter (fun e => k <= lrank e) (a ++ b ++ c) = filter (fun e => k <= lrank e) b ++ c.
Proof using Type.
  intros Ha Hc. rewrite !filter_app, (filter_nothing _ a), (filter_all _ c); [done | |];
    intros e He; [specialize (Hc e He) | specialize (Ha e He)]; lia.
Qed.

Lemma chosen_below key ks1 k ks2 e : chosen key ks1 k ks2 -> sp_sorted lrank (records ks1 ++ snd k ++ records ks2) ->
  e ∈ records ks1 -> lrank e < rank key.
Proof using Type.
  intros [Hl _] Hs He. destruct Hl as [-> | (first & (m & rest & Hk & ->) & Hm)]; [by apply elem_of_nil in He |].
  apply StronglySorted_app in Hs as (Hlt & _ & _). specialize (Hlt e m He ltac:(rewrite Hk; constructor)). unfold lrank in *. lia.
Qed.

Definition not_below (key : Key) (es : list Leaf) : list Leaf := filter (fun e => rank key <= lrank e) es.

Lemma seek_loop_branch {O} rounds key policy (item : Item O) n expected c p h l ks1 k ks2 i exact :
  branch_node s n l (ks1 ++ k :: ks2) p h -> cu_selected_txn c = selected_txn s -> cu_page_limit c = selected_page_limit s ->
  match expected with Some e => e = Z.of_nat (Datatypes.S l) | None => True end ->
  lower_bound p h key true = Ok (i, exact) -> zlen (cu_path c) < MAX_DEPTH ->
  (match (if exact then Some i else checked_sub i 1), cu_direction c with
   | Some j, _ => j = zlen ks1 | None, Forward => zlen ks1 = 0 | None, Backward => False end) ->
  seek_loop Shared (Datatypes.S rounds) key policy item n expected (c, s)
  = seek_loop Shared rounds key policy item (fst k) (Some (Z.of_nat l))
      (set_path (mkCFrame n (zlen ks1) (zlen (ks1 ++ k :: ks2)) (Z.of_nat (Datatypes.S l)) :: cu_path c) c, s).
Proof using Type*.
  intros Hb Htxn Hlim He Hlb Hd Hj. destruct (branch_header _ _ _ _ _ Hb) as (Hcount & Hlev & _).
  cbn [seek_loop]. unfold mbind, io_bind, cursor_get, gets, reach, zoom. cbn [fst snd acc_view Shared]. rewrite Htxn, Hlim.
  rewrite (branch_view _ _ _ _ _ _ _ Hb). unfold seek_page. rewrite (branch_parse _ _ _ _ _ expected Hb He). cbn [mbind outcome_bind].
  rewrite Hlev, (proj2 (Z.eqb_neq _ 0)), Hlb by lia. cbn [mbind outcome_bind].
  pose proof (branch_child_ok s n l ks1 k ks2 p h Hb) as Hbc.
  destruct (if exact then Some i else checked_sub i 1) as [j|] eqn:Hji; [subst j |]; destruct (cu_direction c); try done;
    cbn [from_option]; unfold id; [| | rewrite Hj in Hbc]; rewrite Hbc; cbn [mbind outcome_bind]; rewrite push_ok by done; rewrite Hcount, Hlev, ?Hj;
    rewrite (ltac:(lia) : Z.of_nat (Datatypes.S l) - 1 = Z.of_nat l); done.
Qed.

(** What an item reads of a record. *)
Definition item_reads {O} (item : Item O) (g : Leaf -> O) : Prop := forall n mid p h i e,
  leaf_node s n mid p h -> 0 <= i -> mid !! Z.to_nat i = Some e -> item p h n i = Ok (g e).

Lemma seek_forward {O} (item : Item O) g key level : item_reads item g -> valid_key key -> forall n es rounds expected c before after,
  tree_at s level n es -> sp_sorted lrank es -> reads c -> context (cu_path c) level es before after ->
  zlen (cu_path c) + Z.of_nat level <= MAX_DEPTH -> (level < rounds)%nat ->
  match expected with Some e => e = Z.of_nat level | None => True end ->
  exists c', seek_loop Shared rounds key CurrentOrNext item n expected (c, s) = ((c', s), Ok (g <$> head (not_below key es ++ after)))
    /\ reads c' /\ pending c' (not_below key es ++ after).
Proof using Type*.
  intros Hitem Hkey. induction level as [|l IH]; intros n es rounds expected c before after Ht Hs Hc Hctx Hd Hr He; destruct rounds as [|rounds]; try lia.
  - apply tree_leaf in Ht as (p & h & Hl). destruct (leaf_search _ _ _ _ _ key Hl Hs Hkey) as (i & exact & Hpl & Hlb).
    destruct (place_range _ _ _ _ Hpl) as [Hi _]. destruct (leaf_count _ _ _ _ _ Hl) as [Hcount Hne]. pose proof Hc as [Htxn Hlim Hdir Hroot].
    assert (Hnb : not_below key es = drop (Z.to_nat i) es).
    { apply filter_drop. intros j e Hj. rewrite (proj1 (place_records _ _ _ _ _ _ Hpl Hs Hj)). lia. }
    rewrite Hnb. cbn [seek_loop]. unfold mbind at 1, io_bind at 1. unfold mbind, io_bind, cursor_get, gets, reach, zoom. cbn [fst snd acc_view Shared].
    rewrite Htxn, Hlim, Hdir, (nd_view _ _ _ _ _ _ (proj1 Hl)). unfold seek_page.
    rewrite (node_parse _ _ _ _ _ _ expected (proj1 Hl) He). cbn [mbind outcome_bind].
    rewrite (nd_level _ _ _ _ _ _ (proj1 Hl)), Z.eqb_refl, Hlb. cbn [mbind outcome_bind]. unfold CurrentOrNext. rewrite Hcount. cbn [mbind outcome_bind].
    destruct (Z.ltb_spec i (zlen es)) as [Hlt | Hge].
    + rewrite (proj2 (Z.leb_gt _ _) Hlt). destruct (lookup_lt_is_Some_2 es (Z.to_nat i)) as [e Hei]; [unfold zlen in Hlt; lia |].
      rewrite (Hitem n es p h i e Hl) by (done || lia). cbn [mbind outcome_bind].
      exists (at_leaf n h i (cu_path c) c). split; [rewrite (drop_S _ e) by done; by destruct c |].
      split; [by apply reads_at_leaf |]. apply (pending_at c n h es p i (cu_path c) before after); done || lia.
    + cbn [mbind outcome_bind]. set (c1 := at_leaf n h (zlen es - 1) (cu_path c) c).
      rewrite drop_ge by (unfold zlen in Hge; lia). cbn [app].
      destruct (advance_leaf_ok c1 es before after) as (c' & Hadv & Hc' & Hpd & Hna); [by apply reads_at_leaf | done | cbn; lia |].
      exists c'. split; [| done]. rewrite Hcount.
      change (set_leaf n h (zlen es - 1) (c, s)) with ((set_position (Some (mkCLeaf n h)) (zlen es - 1) false false c, s), Ok (E := Error) tt).
      replace (set_position (Some (mkCLeaf n h)) (zlen es - 1) false false c) with c1 by (by destruct c).
      rewrite Hadv. unfold read_current, mbind, io_bind, cursor_get, gets, expect_leaf, reach, zoom, lift. cbn [fst snd acc_view Shared].
      inversion Hpd as [Hfin Hnil | n' h' mid p' b' a' Hfin Hleaf Hl' Hctx' Hd' Hi' Heq]; [by rewrite Hfin |].
      rewrite Hfin. unfold mbind, io_bind, cursor_get, gets. cbn [fst]. rewrite Hleaf. cbn [expect cl_page_number cl_header].
      rewrite (nd_view _ _ _ _ _ _ (proj1 Hl')), (Hna Hfin).
      destruct (lookup_lt_is_Some_2 mid (Z.to_nat (cu_index c'))) as [e Hei]; [unfold zlen in Hi'; lia |].
      rewrite (Hitem n' mid p' h' _ e Hl') by (done || lia). by rewrite (drop_S _ e).
  - apply tree_branch in Ht as (kids & p & h & Hb & ->). pose proof Hc as [Htxn Hlim Hdir Hroot].
    destruct (branch_search _ _ _ _ _ _ key Hb Hs Hkey) as (ks1 & k & ks2 & i & exact & -> & Hch & Hk & Hlb & _ & _ & Hj).
    rewrite (seek_loop_branch rounds key CurrentOrNext item n expected c p h l ks1 k ks2 i exact Hb Htxn Hlim He Hlb);
      [| lia | rewrite Hdir; destruct (if exact then Some i else checked_sub i 1); [done | by destruct Hj]].
    rewrite records_app, records_cons in Hs.
    destruct (IH (fst k) (snd k) rounds (Some (Z.of_nat l))
      (set_path (mkCFrame n (zlen ks1) (zlen (ks1 ++ k :: ks2)) (Z.of_nat (Datatypes.S l)) :: cu_path c) c)
      (before ++ records ks1) (records ks2 ++ after)) as (c' & Hrun & Hc' & Hpd); try done.
    + apply Hk.
    + by apply (sorted_mid _ _ _ _ Hs).
    + cbn [cu_path set_path]. by apply (ctx_in _ _ _ p h).
    + cbn [cu_path set_path]. rewrite zlen_cons. lia.
    + lia.
    + exists c'. assert (Hnb : not_below key (records (ks1 ++ k :: ks2)) = not_below key (snd k) ++ records ks2).
      { unfold not_below. rewrite records_app, records_cons. apply at_or_after_split.
        - intros e Hin. by apply (chosen_below key ks1 k ks2).
        - apply Hch. }
      rewrite Hnb, <- !app_assoc. done.
Qed.
End Cursor.

(** ** What the B+tree cursor guarantees

    One-shot reads are the reads of the sorted list of records; a cursor opened
    at the start or moved by a seek yields the records from there in order. *)

Section Theorems.
Context {Key Leaf : Type} `{CodecLaws Key Leaf} {S : Type} `{PageSource S} (s : S).

(** ** Seeking backward *)

Lemma predecessor_split (a b c : list Leaf) k : (forall e, e ∈ c -> k < lrank e) ->
  (a = [] \/ exists e, e ∈ b /\ lrank e <= k) ->
  sp_predecessor lrank (a ++ b ++ c) k = sp_predecessor lrank b k.
Proof using Type.
  intros Hc Hb. unfold sp_predecessor. rewrite !filter_app, (filter_nothing _ c), app_nil_r by (intros e He; specialize (Hc e He); lia).
  destruct Hb as [-> | (e & He & Hle)]; [done |]. rewrite last_app.
  destruct (last (filter (fun l => lrank l <= k) b)) as [x|] eqn:Hx; [done |].
  assert (Hin : e ∈ filter (fun l => lrank l <= k) b) by (by apply list_elem_of_filter). apply last_None in Hx. rewrite Hx in Hin.
  by apply elem_of_nil in Hin.
Qed.

Lemma seek_backward key level : valid_key key -> forall n es rounds expected c,
  tree_at s level n es -> sp_sorted lrank es -> cu_selected_txn c = selected_txn s -> cu_page_limit c = selected_page_limit s ->
  cu_direction c = Backward -> zlen (cu_path c) + Z.of_nat level <= MAX_DEPTH -> (level < rounds)%nat ->
  match expected with Some e => e = Z.of_nat level | None => True end ->
  exists c', seek_loop Shared rounds key Previous ReadLeaf n expected (c, s) = ((c', s), Ok (sp_predecessor lrank es (rank key))).
Proof using Type*.
  intros Hkey. induction level as [|l IH]; intros n es rounds expected c Ht Hs Htxn Hlim Hdir Hd Hr He; destruct rounds as [|rounds]; try lia.
  - apply tree_leaf in Ht as (p & h & Hl). destruct (leaf_search _ _ _ _ _ key Hl Hs Hkey) as (i & exact & Hpl & Hlb).
    destruct (place_range _ _ _ _ Hpl) as [Hi Hix]. destruct (leaf_count _ _ _ _ _ Hl) as [Hcount Hne].
    assert (Hsu : surrounds key [] es []) by (split; [by left | intros e Hin; by apply elem_of_nil in Hin]).
    pose proof (predecessor_place key [] es [] i exact Hsu Hne) as Hp. cbn [app] in Hp. rewrite app_nil_r in Hp. rewrite (Hp Hs Hpl).
    cbn [seek_loop]. unfold mbind at 1, io_bind at 1. unfold mbind, io_bind, cursor_get, gets, reach, zoom. cbn [fst snd acc_view Shared].
    rewrite Htxn, Hlim, (nd_view _ _ _ _ _ _ (proj1 Hl)). unfold seek_page.
    rewrite (node_parse _ _ _ _ _ _ expected (proj1 Hl) He). cbn [mbind outcome_bind].
    rewrite (nd_level _ _ _ _ _ _ (proj1 Hl)), Z.eqb_refl, Hlb. cbn [mbind outcome_bind].
    assert (Hsel : Previous p h i exact (cu_direction c)
      = Ok (match (if exact then Some i else checked_sub i 1) with Some j => AtIndex j | None => Finished end)) by (by destruct exact).
    rewrite Hsel. cbn [mbind outcome_bind]. destruct (if exact then Some i else checked_sub i 1) as [j|] eqn:Hj; [| by eexists].
    assert (Hjr : 0 <= j < zlen es).
    { unfold checked_sub in Hj. destruct exact; [injection Hj as <-; specialize (Hix eq_refl); lia |].
      destruct (Z.leb_spec 1 i); [injection Hj as <-; lia | done]. }
    rewrite (proj2 (Z.leb_gt _ _)) by lia. destruct (lookup_lt_is_Some_2 es (Z.to_nat j)) as [e Hej]; [unfold zlen in Hjr; lia |].
    rewrite (item_ok s n es p h j e Hl) by (done || lia). rewrite Hej. by eexists.
  - apply tree_branch in Ht as (kids & p & h & Hb & ->).
    destruct (branch_search _ _ _ _ _ _ key Hb Hs Hkey) as (ks1 & k & ks2 & i & exact & -> & Hch & Hk & Hlb & _ & _ & Hj).
    destruct (if exact then Some i else checked_sub i 1) as [j|] eqn:Hji.
    + rewrite (seek_loop_branch s rounds key Previous ReadLeaf n expected c p h l ks1 k ks2 i exact Hb Htxn Hlim He Hlb);
        [| lia | rewrite Hdir, Hji; done].
      rewrite records_app, records_cons in Hs |- *.
      assert (Hpred : sp_predecessor lrank (records ks1 ++ snd k ++ records ks2) (rank key) = sp_predecessor lrank (snd k) (rank key)).
      { apply predecessor_split; [apply Hch |]. destruct (ch_low _ _ _ _ Hch) as [-> | (f & (e & rest & Hke & ->) & Hle)]; [by left | right].
        exists e. split; [rewrite Hke; constructor | done]. }
      rewrite Hpred. apply IH; try done; [apply Hk | by apply (sorted_mid _ _ _ _ Hs) | cbn; rewrite zlen_cons; lia | lia].
    + destruct Hj as (_ & -> & Hall). exists (set_finished true c).
      assert (Hnone : sp_predecessor lrank (records ([] ++ k :: ks2)) (rank key) = None).
      { unfold sp_predecessor. rewrite filter_nothing; [done |]. intros e Hin. cbn [app] in Hin. rewrite records_cons in Hin.
        apply elem_of_app in Hin as [Hin | Hin]; [pose proof (Hall e Hin) | pose proof (ch_high _ _ _ _ Hch e Hin)]; lia. }
      rewrite Hnone. cbn [seek_loop]. unfold mbind at 1, io_bind at 1. unfold mbind, io_bind, cursor_get, gets, reach, zoom. cbn [fst snd acc_view Shared].
      destruct (branch_header _ _ _ _ _ _ Hb) as (Hcount & Hlev & _).
      rewrite Htxn, Hlim, Hdir, (branch_view _ _ _ _ _ _ _ _ Hb). unfold seek_page. rewrite (branch_parse _ _ _ _ _ _ expected Hb He).
      cbn [mbind outcome_bind]. rewrite Hlev, (proj2 (Z.eqb_neq _ 0)), Hlb by lia. cbn [mbind outcome_bind]. rewrite Hji. done.
Qed.

(** ** One-shot reads *)

Lemma unpositioned_ok root direction es : tree_holds s root es ->
  unpositioned Shared root direction s
  = (s, Ok (mkCursor (selected_txn s) (selected_page_limit s) root direction [] None 0 false (root =? 0))).
Proof using Type.
  intros [_ Ht]. unfold unpositioned, mbind, io_bind, gets, fail_if, lift. cbn [acc_limit acc_txn Shared].
  assert (Hg : negb (root =? 0) && ((root <? 2) || (selected_page_limit s <=? root)) = false).
  { destruct Ht as [[-> _] | (Hr & _)]; [done |]. by rewrite (proj2 (Z.ltb_ge root 2)), (proj2 (Z.leb_gt _ root)), andb_false_r by lia. }
  by rewrite Hg.
Qed.

Lemma seek_read_root {O} c key policy (item : Item O) : cu_selected_txn c = selected_txn s -> cu_page_limit c = selected_page_limit s ->
  seek_read_inner Shared key policy item (c, s)
  = if cu_root c =? 0 then ((set_path [] (set_position None (cu_index c) false true c), s), Ok None)
    else seek_loop Shared descent_rounds key policy item (cu_root c) None (set_path [] (set_position None (cu_index c) false false c), s).
Proof using Type.
  intros Htxn Hlim. unfold seek_read_inner, mbind, io_bind, require_access, cursor_set, cursor_get, modify, gets. cbn [acc_txn acc_limit Shared fst snd].
  rewrite Htxn, Hlim, !Z.eqb_refl. cbn [negb orb fst snd cu_finished cu_root set_path set_position].
  by destruct (cu_root c =? 0).
Qed.

(** The two reads, as they are used by the other proofs. *)
Lemma reads_refine root es key : tree_holds s root es -> valid_key key ->
  predecessor s root key = Ok (sp_predecessor lrank es (rank key))
  /\ at_or_after s root key = Ok (sp_at_or_after lrank es (rank key)).
Proof using Type*.
  intros Ht Hkey. unfold predecessor, at_or_after, cursor_lookup. rewrite !(unpositioned_ok root _ es Ht).
  rewrite !seek_read_root by done. cbn [cu_root]. destruct Ht as [Hs [[-> ->] | (Hr & level & Hlev & Ht)]]; [done |].
  rewrite (proj2 (Z.eqb_neq root 0)) by lia. split.
  - match goal with |- context [(?c, s)] => destruct (seek_backward key level Hkey root es descent_rounds None c Ht Hs) as (c' & ->) end;
      try done; cbn; change (zlen []) with 0; unfold descent_rounds, MAX_DEPTH in *; lia.
  - match goal with |- context [(?c, s)] => destruct (seek_forward s root ReadLeaf id key level ltac:(intros n; apply item_ok) Hkey root es descent_rounds None c [] [] Ht Hs) as (c' & -> & _) end;
      try done; try apply ctx_top; [unfold descent_rounds, MAX_DEPTH in *; lia |].
    cbn [snd]. by rewrite app_nil_r, option_fmap_id.
Qed.

(** C35: on a tree that holds the records [es] the reads the range map is
    written against return, without error, what the interface promises: the
    last record at or before the key and the first at or after it. *)
Theorem tree_reads_refine root es key : tree_holds s root es -> valid_key key ->
  predecessor s root key = Ok (sp_predecessor lrank es (rank key))
  /\ at_or_after s root key = Ok (sp_at_or_after lrank es (rank key)).
Proof using Type*. apply reads_refine. Qed.

(** ** Iteration *)

(** [while let Some(record) = cursor.next(..)?], with a bound on the rounds. *)
Fixpoint scan (rounds : nat) : cio (S := S) (list Leaf) :=
  match rounds with
  | O => lift (Panic "scan does not end")
  | Datatypes.S rounds' =>
      found ← next Shared ReadLeaf;
      match found with
      | None => mret []
      | Some e => rest ← scan rounds'; mret (e :: rest)
      end
  end.

(** A step of a cursor that stands on a record it has yielded. *)
Lemma advance_pending root c todo : reads s root c -> pending s c todo -> cu_finished c = false -> cu_needs_advance c = true ->
  exists c', advance Shared (c, s) = ((c', s), Ok tt) /\ reads s root c' /\ pending s c' todo
    /\ (cu_finished c' = false -> cu_needs_advance c' = false).
Proof using Type*.
  intros Hc Hpd Hfin Hneeds. pose proof Hc as [Htxn Hlim Hdir Hroot].
  inversion Hpd as [Hf Hnil | n h mid p before after Hfin' Hleaf Hl Hctx Hd Hi Heq]; [congruence |]. rewrite Hneeds in *.
  destruct (leaf_count _ _ _ _ _ Hl) as [Hcount _].
  unfold advance. rewrite (bind_ok _ _ (c, s) (c, s) (mkCLeaf n h)) by (unfold expect_leaf, mbind, io_bind, cursor_get, gets, lift; cbn; by rewrite Hleaf).
  rewrite (bind_ok _ _ (c, s) (c, s) (cu_index c)), (bind_ok _ _ (c, s) (c, s) Forward) by (unfold cursor_get, gets; cbn; congruence).
  cbn [cl_header cl_page_number]. rewrite Hcount. destruct (Z.ltb_spec (cu_index c + 1) (zlen mid)) as [Hlt | Hge].
  - eexists. split; [done |]. split; [by split |]. split; [| done].
    apply (pd_at s (set_position (cu_leaf c) (cu_index c + 1) false (cu_finished c) c) n h mid p before after); try done. cbn. lia.
  - rewrite (drop_ge mid) by (unfold zlen in Hge; lia). cbn [app]. apply (advance_leaf_ok s root c mid before after); done.
Qed.

Lemma next_pending root c todo : reads s root c -> pending s c todo ->
  exists c', next Shared ReadLeaf (c, s) = ((c', s), Ok (head todo)) /\ reads s root c' /\ pending s c' (tail todo).
Proof using Type*.
  intros Hc Hpd. pose proof Hc as [Htxn Hlim Hdir Hroot]. unfold next, finishing, next_inner.
  rewrite (bind_ok _ _ (c, s) (c, s) tt) by (unfold require_access; cbn; by rewrite Htxn, Hlim, !Z.eqb_refl).
  rewrite (bind_ok _ _ (c, s) (c, s) (cu_finished c)) by done.
  destruct (cu_finished c) eqn:Hfin.
  { exists c. inversion Hpd; [| congruence]. split; [done |]. split; [done |]. cbn. by apply pd_finished. }
  rewrite (bind_ok _ _ (c, s) (c, s) (cu_needs_advance c)) by done.
  assert (Hstep : exists c1, (if cu_needs_advance c then advance Shared else mret tt) (c, s) = ((c1, s), Ok tt) /\ reads s root c1
    /\ pending s c1 todo /\ (cu_finished c1 = false -> cu_needs_advance c1 = false)).
  { destruct (cu_needs_advance c) eqn:Hn; [by apply (advance_pending root) | by exists c]. }
  destruct Hstep as (c1 & Hrun & Hc1 & Hpd1 & Hna). rewrite (bind_ok _ _ (c, s) (c1, s) tt) by done.
  rewrite (bind_ok _ _ (c1, s) (c1, s) (cu_finished c1)) by done. destruct (cu_finished c1) eqn:Hfin1.
  { exists c1. inversion Hpd1; [| congruence]. split; [done |]. split; [done |]. cbn. by apply pd_finished. }
  inversion Hpd1 as [Hf Hnil | n h mid p before after Hfin' Hleaf Hl Hctx Hd Hi Heq]; [congruence |]. rewrite (Hna eq_refl) in *.
  rewrite (bind_ok _ _ (c1, s) (c1, s) (mkCLeaf n h)) by (unfold expect_leaf, mbind, io_bind, cursor_get, gets, lift; cbn; by rewrite Hleaf).
  rewrite (bind_ok _ _ (c1, s) (c1, s) (cu_index c1)) by done. cbn [cl_header cl_page_number].
  destruct (lookup_lt_is_Some_2 mid (Z.to_nat (cu_index c1))) as [e He]; [unfold zlen in Hi; lia |].
  rewrite (bind_ok _ _ (c1, s) (c1, s) e).
  2: { unfold reach, zoom. cbn. rewrite (nd_view _ _ _ _ _ _ (proj1 Hl)). by rewrite (item_ok s n mid p h _ e Hl) by (done || lia). }
  exists (set_needs true c1). rewrite (drop_S _ e) by done. split; [done |]. split; [destruct Hc1; by split |].
  pose proof (pd_at s (set_needs true c1) n h mid p before after Hfin1 Hleaf Hl Hctx Hd Hi) as Hend. cbn in Hend.
  rewrite (ltac:(lia) : Z.to_nat (cu_index c1 + 1) = Datatypes.S (Z.to_nat (cu_index c1))) in Hend. exact Hend.
Qed.

Lemma scan_pending root todo : forall c rounds, reads s root c -> pending s c todo -> (length todo < rounds)%nat ->
  exists c', scan rounds (c, s) = ((c', s), Ok todo) /\ reads s root c'.
Proof using Type*.
  induction todo as [|e todo IH]; intros c rounds Hc Hpd Hr; destruct rounds as [|rounds]; try (cbn in Hr; lia);
    destruct (next_pending root c _ Hc Hpd) as (c1 & Hn & Hc1 & Hpd1); cbn [scan]; rewrite (bind_ok _ _ _ _ _ Hn); cbn [head hd_error]; [by eexists |].
  destruct (IH c1 rounds Hc1 Hpd1) as (c2 & H2 & Hc2); [cbn in Hr; lia |]. exists c2. cbn [tail] in *. split; [by rewrite (bind_ok _ _ _ _ _ H2) | done].
Qed.

(** Opening and seeking leave the cursor where they say. *)
Lemma open_pending root es : tree_holds s root es ->
  exists c, cursor_open Shared root Forward s = (s, Ok c) /\ reads s root c /\ pending s c es.
Proof using Type*.
  intros Ht. unfold cursor_open. rewrite (unpositioned_ok root Forward es Ht). cbn [cu_finished].
  destruct Ht as [Hs [[-> ->] | (Hr & level & Hlev & Ht)]]; [eexists; split; [done |]; split; [by split | by apply pd_finished] |].
  rewrite (proj2 (Z.eqb_neq root 0)) by lia. set (c := mkCursor _ _ _ _ _ _ _ _ _).
  destruct (descend_first s root level root es descent_rounds None c [] [] Ht) as (mid & rest & n & p & h & path & -> & Hl & Hctx & Hd & ->);
    [by split | apply ctx_top | change (zlen (cu_path c)) with 0; unfold MAX_DEPTH; lia | unfold descent_rounds, MAX_DEPTH in *; lia | done |].
  eexists. split; [done |]. split; [by apply reads_at_leaf |].
  pose proof (pending_at s c n h mid p 0 path [] (rest ++ []) Hl Hctx Hd (leaf_head s mid n p h Hl)) as Hpd. by rewrite app_nil_r in Hpd.
Qed.

Lemma seek_pending c root es key : tree_holds s root es -> valid_key key -> reads s root c ->
  exists c', seek Shared key CurrentOrNext (c, s) = ((c', s), Ok tt) /\ reads s root c' /\ pending s c' (not_below key es).
Proof using Type*.
  intros Ht Hkey [Htxn Hlim Hdir Hroot]. unfold seek, finishing, seek_inner.
  assert (Hrun : exists c' o, seek_read_inner Shared key CurrentOrNext (fun _ _ _ _ => Ok tt) (c, s) = ((c', s), Ok o)
    /\ reads s root c' /\ pending s c' (not_below key es)).
  { rewrite seek_read_root by done. rewrite Hroot. destruct Ht as [Hs [[-> ->] | (Hr & level & Hlev & Ht)]].
    { do 2 eexists. split; [done |]. split; [by split | by apply pd_finished]. }
    rewrite (proj2 (Z.eqb_neq root 0)) by lia. set (c1 := set_path _ _).
    destruct (seek_forward s root (fun _ _ _ _ => Ok tt) (fun _ => tt) key level ltac:(done) Hkey root es descent_rounds None c1 [] [] Ht Hs)
      as (c' & Hq & Hc' & Hpd); [by split | apply ctx_top | change (zlen (cu_path c1)) with 0; unfold MAX_DEPTH; lia | unfold descent_rounds, MAX_DEPTH in *; lia | done |].
    rewrite app_nil_r in Hpd. by do 2 eexists. }
  destruct Hrun as (c' & o & Hrun & Hc' & Hpd). exists c'. rewrite (bind_ok _ _ _ _ _ Hrun). done.
Qed.

(** C36: a cursor opened at the front of a tree yields all of its records in
    order and then ends; after a seek it yields those at or after the key. *)
Theorem scan_enumerates root es key : tree_holds s root es -> valid_key key ->
  exists c c1 c2 c3, cursor_open Shared root Forward s = (s, Ok c)
    /\ scan (Datatypes.S (length es)) (c, s) = ((c1, s), Ok es)
    /\ seek Shared key CurrentOrNext (c1, s) = ((c2, s), Ok tt)
    /\ scan (Datatypes.S (length es)) (c2, s) = ((c3, s), Ok (filter (fun e => rank key <= lrank e) es)).
Proof using Type*.
  intros Ht Hkey. destruct (open_pending root es Ht) as (c & Hopen & Hc & Hpd).
  destruct (scan_pending root es c (Datatypes.S (length es)) Hc Hpd ltac:(lia)) as (c1 & Hscan & Hc1).
  destruct (seek_pending c1 root es key Ht Hkey Hc1) as (c2 & Hseek & Hc2 & Hpd2).
  destruct (scan_pending root _ c2 (Datatypes.S (length es)) Hc2 Hpd2) as (c3 & Hscan3 & _).
  { pose proof (length_filter (fun e => rank key <= lrank e) es). unfold not_below. lia. }
  by exists c, c1, c2, c3.
Qed.
End Theorems.
