(* ===== verification/RangeCursor.v ===== *)
(** * Cursors over the ranges of a generation

    [range_cursor.rs]: a cursor of the tree with the meta record it was opened
    on, for one address family.  The cursor steps on the mapping directly
    ([next_leaf_mapped]); here that is shown to be the step of a cursor on the
    generation, so what [CursorTheorems] says of the one holds of the other. *)

From stdpp Require Import base tactics numbers list strings.
From Stdlib Require Import ZArith Lia.
From S2P Require Import Prelude Errors Bytes Cardinality Key PageHeader SlottedPage SlottedFacts Codec Contract TreeInterface RangeMap Machine.
From S2P Require Import Mapping Store TreePage TreeQuery TreeCursor TreeFacts TreeReads CursorTheorems.

#[local] Open Scope string_scope.
#[local] Open Scope list_scope.
#[local] Open Scope Z_scope.

Inductive RangeDirection := RangeForward | RangeBackward.
Definition physical_direction (d : RangeDirection) : Direction :=
  match d with RangeForward => Forward | RangeBackward => Backward end.

Section RangeCursor.
Context {K : Type} `{IpKey K}.

(** [DirectRange] has the fields of a record.  [cs_owner]: the process the
    cursor belongs to, if it has one, and whether it is the one that runs. *)
Record CursorState := mkCursorState {
  cs_meta : MetaV4;
  cs_direction : RangeDirection;
  cs_inner : Cursor;
  cs_owner : option bool;
}.
Definition set_inner (c : Cursor) (s : CursorState) : CursorState := mkCursorState (cs_meta s) (cs_direction s) c (cs_owner s).

Definition cursor_state_new (mapping : Mapping) (meta : MetaV4) (direction : RangeDirection) (owner : option bool) : Result CursorState :=
  if negb (bool_decide (address_family meta = key_family))
  then Err (WrongAddressFamily "range cursor address family does not match the database")
  else
    inner ← snd (cursor_open (Key := K) (Leaf := Range K) Shared (range_root meta) (physical_direction direction) (mkGeneration mapping meta));
    Ok (mkCursorState meta direction inner owner).

Definition cs_require_owner (s : CursorState) : Result unit :=
  match cs_owner s with Some false => Err ForkedHandle | _ => Ok tt end.

(** A method with [&mut self] on the mapping it is given. *)
Definition on_cursor {A S} (source : CursorState -> S) (m : cio (S := S) A) : io CursorState A := fun s =>
  let '((c, _), r) := m (cs_inner s, source s) in (set_inner c s, r).

(** [RangeSeek::select]. *)
Definition RangeSeek (target : K) : Seek := fun page header position exact direction =>
  let previous := if exact : bool then Some position else checked_sub position 1 in
  match direction, previous with
  | Backward, Some index => Ok (AtIndex index)
  | Backward, None => Ok Finished
  | Forward, None => Ok (AtIndex 0)
  | Forward, Some index =>
      record ← leaf_record (K := K) page header index;
      if key_leb target (r_to record) then Ok (AtIndex index)
      else if index + 1 <? h_item_count header then Ok (AtIndex (index + 1))
      else Ok NextLeaf
  end.

Definition cs_seek (mapping : Mapping) (target : K) : io CursorState unit :=
  _ ← (fun s => (s, cs_require_owner s));
  on_cursor (fun s => mkGeneration mapping (cs_meta s)) (TreeCursor.seek (Key := K) (Leaf := Range K) Shared target (RangeSeek target)).

Definition cs_next (mapping : Mapping) : io CursorState (option (Range K)) :=
  _ ← (fun s => (s, cs_require_owner s));
  on_cursor (fun _ => mapping) next_leaf_mapped.
End RangeCursor.

(** ** A step on the mapping is a step on the generation *)

Section Mirror.
Context {Key Leaf : Type} `{Codec Key Leaf} (meta : MetaV4).
Notation mapped := (Mapped (txn_id meta) (page_count meta)).
Notation held mp := (mkGeneration mp meta).

Definition mirrors {A} (m : cio (S := Mapping) A) (g : cio (S := Generation) A) : Prop :=
  forall c mp, g (c, held mp) = let '((c', mp'), r) := m (c, mp) in ((c', held mp'), r).

Lemma page_state n limit mp : exists r, page n limit mp = (mp, r).
Proof using Type.
  unfold page, raw, mbind, io_bind, gets, fail_if, lift. cbn. destruct (map_unreadable mp) as [pages|]; [destruct (existsb _ _); [by eexists |] |];
    cbn; destruct (page_offset n limit (map_len mp)); try by eexists; cbn.
  all: repeat match goal with |- context [if ?b then _ else _] => destruct b end; by eexists.
Qed.

Lemma mirrors_ret {A} (a : A) : mirrors (mret a) (mret a).
Proof using Type. done. Qed.
Lemma mirrors_lift {A} (r : Result A) : mirrors (lift r) (lift r).
Proof using Type. done. Qed.
Lemma mirrors_fail b e : mirrors (fail_if b e) (fail_if b e).
Proof using Type. done. Qed.
Lemma mirrors_get {A} (f : Cursor -> A) : mirrors (cursor_get f) (cursor_get f).
Proof using Type. done. Qed.
Lemma mirrors_set f : mirrors (cursor_set f) (cursor_set f).
Proof using Type. done. Qed.
Lemma mirrors_consumed : mirrors (gets (fun cs => consumed_txn mapped (snd cs))) (gets (fun cs => consumed_txn (Shared (S := Generation)) (snd cs))).
Proof using Type. done. Qed.
Lemma mirrors_discard n : mirrors (reach (discard mapped n)) (reach (discard (Shared (S := Generation)) n)).
Proof using Type. done. Qed.
Lemma mirrors_view {A} n (f : list Z -> Result A) : mirrors (reach (acc_view mapped n f)) (reach (acc_view (Shared (S := Generation)) n f)).
Proof using Type.
  intros c mp. unfold reach, zoom. cbn. destruct (page_state n (page_count meta) mp) as [r E]. unfold mbind, io_bind, lift. rewrite E. by destruct r.
Qed.
Lemma mirrors_bind {A B} (m : cio (S := Mapping) A) (g : cio (S := Generation) A) f k : mirrors m g -> (forall a, mirrors (f a) (k a)) -> mirrors (A := B) (m ≫= f) (g ≫= k).
Proof using Type.
  intros Hm Hf c mp. unfold mbind, io_bind. rewrite Hm. destruct (m (c, mp)) as [[c' mp'] [a | e | t]]; [apply Hf | done | done].
Qed.
Lemma mirrors_finishing {A} (m : cio (S := Mapping) A) (g : cio (S := Generation) A) : mirrors m g -> mirrors (finishing m) (finishing g).
Proof using Type. intros Hm c mp. unfold finishing. rewrite Hm. by destruct (m (c, mp)) as [[c' mp'] []]. Qed.
#[local] Hint Resolve mirrors_ret mirrors_lift mirrors_fail mirrors_get mirrors_set mirrors_consumed mirrors_discard mirrors_view : mirror.
#[local] Ltac mirror := repeat first
  [ solve [auto with mirror]
  | apply mirrors_bind; [| intros ?]
  | match goal with
    | |- mirrors (if ?b then _ else _) _ => destruct b
    | |- mirrors (match ?x with _ => _ end) _ => destruct x
    end ].

Lemma descend_mirrors rounds : forall n expected, mirrors (descend_edge mapped rounds n expected) (descend_edge Shared rounds n expected).
Proof using Type. induction rounds as [|rounds IH]; intros n expected; cbn [descend_edge]; unfold set_leaf, cursor_push; mirror. Qed.
Lemma climb_mirrors path : mirrors (climb mapped path) (climb Shared path).
Proof using Type. induction path as [|frame rest IH]; cbn [climb]; pose proof descend_mirrors; mirror. Qed.
Lemma advance_mirrors : mirrors (advance mapped) (advance Shared).
Proof using Type. unfold advance, advance_leaf, expect_leaf. pose proof climb_mirrors. mirror. Qed.

Lemma next_mirrors c mp : cu_selected_txn c = txn_id meta -> cu_page_limit c = page_count meta ->
  next Shared ReadLeaf (c, held mp) = let '((c', mp'), r) := next_leaf_mapped (c, mp) in ((c', held mp'), r).
Proof using Type.
  intros Htxn Hlim. unfold next_leaf_mapped, next, next_leaf_mapped_inner, next_inner, finishing. cbn [fst]. rewrite Htxn, Hlim.
  rewrite (bind_ok _ _ (c, held mp) (c, held mp) tt) by (unfold require_access; cbn; by rewrite Htxn, Hlim, !Z.eqb_refl).
  match goal with |- match ?g (c, held mp) with _ => _ end = let '(_, _) := match ?m (c, mp) with _ => _ end in _ =>
    assert (Hm : mirrors m g); [| exact (mirrors_finishing m g Hm c mp)] end.
  pose proof advance_mirrors. unfold expect_leaf. mirror.
  intros c2 mp2. unfold mbind, io_bind, reach, zoom, ReadLeaf. cbn. destruct (page_state (cl_page_number a1) (page_count meta) mp2) as [r E].
  unfold mbind, io_bind, lift. rewrite E. destruct r as [view | |]; [| done | done]. cbn.
  destruct (leaf_cell view (cl_header a1) a2) as [cell | |]; [| done | done]. cbn. by destruct (read_leaf cell).
Qed.
End Mirror.

(** ** What a cursor yields *)

Section Yields.
Context {K : Type} `{IpKeyLaws K} (mapping : Mapping).

(** The cursor has these records still to yield. *)
Definition cs_pending (s : CursorState) (todo : list (Range K)) : Prop :=
  cs_owner s <> Some false /\
  reads (mkGeneration mapping (cs_meta s)) (range_root (cs_meta s)) (cs_inner s) /\
  pending (mkGeneration mapping (cs_meta s)) (cs_inner s) todo.

Lemma cs_next_pending s todo : cs_pending s todo ->
  exists s', cs_next mapping s = (s', Ok (head todo)) /\ cs_pending s' (tail todo).
Proof using Type*.
  intros (Ho & Hr & Hp). destruct (next_pending _ _ _ _ Hr Hp) as (c' & Hn & Hr' & Hp').
  rewrite (next_mirrors (cs_meta s)) in Hn by apply Hr. exists (set_inner c' s). split.
  - unfold cs_next. rewrite (bind_ok _ _ s s tt) by (unfold cs_require_owner; by destruct (cs_owner s) as [[]|]).
    unfold on_cursor. destruct (next_leaf_mapped (cs_inner s, mapping)) as [[c mp] r]. by injection Hn as -> _ ->.
  - by split.
Qed.

(** A cursor opened on a generation that holds the records yields them all;
    one of the other address family is refused. *)
Lemma cursor_new_pending meta owner (es : list (Range K)) : tree_holds (mkGeneration mapping meta) (range_root meta) es ->
  address_family meta = key_family -> owner <> Some false ->
  exists s, cursor_state_new mapping meta RangeForward owner = Ok s /\ cs_pending s es.
Proof using Type*.
  intros Ht Hf Ho. destruct (open_pending _ _ _ Ht) as (c & Hopen & Hr & Hp). unfold cursor_state_new. cbn [physical_direction].
  rewrite bool_decide_true, Hopen by done. cbn. eexists. split; [done |]. by split.
Qed.
End Yields.
