(* ===== verification/Compare.v ===== *)
(** * Comparing two range maps

    [workflow/compare.rs]: one sweep over the ranges of two generations counts
    the addresses that are kept, changed, added and removed.  The theorem
    compares the counts with the functions the two record lists denote. *)

From stdpp Require Import base tactics numbers list strings.
From Stdlib Require Import ZArith Lia.
From S2P Require Import Prelude Errors Bytes Cardinality Key Codec Contract TreeInterface RangeMap Machine Mapping TreeQuery TreeFacts RangeCursor.

#[local] Open Scope string_scope.
#[local] Open Scope list_scope.
#[local] Open Scope Z_scope.

Record Comparison := mkComparison {
  before : Cardinality129;
  after : Cardinality129;
  unchanged : Cardinality129;
  different : Cardinality129;
  added : Cardinality129;
  removed : Cardinality129;
}.
(** [Comparison::default()]. *)
Definition comparison_default : Comparison := mkComparison card_zero card_zero card_zero card_zero card_zero card_zero.

Definition add (left right : Cardinality129) : Result Cardinality129 :=
  match card_checked_add left right with
  | Ok c => Ok c
  | Err _ => Err (ArithmeticOverflow "workflow address count")
  | Panic t => Panic t
  end.

Definition add_added (r : Comparison) (count : Cardinality129) : Result Comparison :=
  after' ← add (after r) count;
  added' ← add (added r) count;
  Ok (mkComparison (before r) after' (unchanged r) (different r) added' (removed r)).
Definition add_removed (r : Comparison) (count : Cardinality129) : Result Comparison :=
  before' ← add (before r) count;
  removed' ← add (removed r) count;
  Ok (mkComparison before' (after r) (unchanged r) (different r) (added r) removed').

Definition card_eqb (a b : Cardinality129) : bool := (bit128 a =? bit128 b) && (c_hi a =? c_hi b) && (c_lo a =? c_lo b).
Definition verify (r : Comparison) : Result unit :=
  kept ← add (unchanged r) (different r);
  before' ← add kept (removed r);
  kept ← add (unchanged r) (different r);
  after' ← add kept (added r);
  if negb (card_eqb before' (before r)) || negb (card_eqb after' (after r))
  then Err (Corrupt "workflow address classes do not balance") else Ok tt.

(** ** One step of the sweep *)

Section Sweep.
Context {K : Type} `{IpKey K}.

Inductive Advance := Keep | Consume | After (end_ : K).
Record Step := mkStep { st_left : Advance; st_right : Advance }.

Definition length_of (range : Range K) : Result Cardinality129 := inclusive_cardinality (r_from range) (r_to range).

Definition left_before_right (left : Range K) (r : Comparison) : Result (Comparison * Step) :=
  n ← length_of left;
  r ← add_removed r n;
  Ok (r, mkStep Consume Keep).
Definition right_before_left (right : Range K) (r : Comparison) : Result (Comparison * Step) :=
  n ← length_of right;
  r ← add_added r n;
  Ok (r, mkStep Keep Consume).

Definition start_at (from : K) (range : Range K) : Range K := mkRange from (r_to range) (r_value range).
Definition align_starts (left right : Range K) (r : Comparison) : Result (Range K * Range K * Comparison) :=
  if key_ltb (r_from left) (r_from right) then
    end_ ← ok_or (checked_previous (r_from right)) (ArithmeticOverflow "range comparison prefix");
    prefix ← inclusive_cardinality (r_from left) end_;
    r ← add_removed r prefix;
    Ok (start_at (r_from right) left, right, r)
  else if key_ltb (r_from right) (r_from left) then
    end_ ← ok_or (checked_previous (r_from left)) (ArithmeticOverflow "range comparison prefix");
    prefix ← inclusive_cardinality (r_from right) end_;
    r ← add_added r prefix;
    Ok (left, start_at (r_from left) right, r)
  else Ok (left, right, r).

Definition classify_overlap (left right : Z) (overlap : Cardinality129) (r : Comparison) : Result Comparison :=
  if left =? right then
    n ← add (unchanged r) overlap;
    Ok (mkComparison (before r) (after r) n (different r) (added r) (removed r))
  else
    n ← add (different r) overlap;
    Ok (mkComparison (before r) (after r) (unchanged r) n (added r) (removed r)).

Definition after_or_consume (to end_ : K) : Advance := if key_eqb to end_ then Consume else After end_.

Definition compare_overlap (left right : Range K) (r : Comparison) : Result (Comparison * Step) :=
  '(left_, right_, r) ← align_starts left right r;
  let end_ := key_min (r_to left_) (r_to right_) in
  overlap ← inclusive_cardinality (r_from left_) end_;
  before' ← add (before r) overlap;
  after' ← add (after r) overlap;
  r ← classify_overlap (r_value left_) (r_value right_) overlap (mkComparison before' after' (unchanged r) (different r) (added r) (removed r));
  Ok (r, mkStep (after_or_consume (r_to left_) end_) (after_or_consume (r_to right_) end_)).

Definition compare_pair (left right : Range K) (r : Comparison) : Result (Comparison * Step) :=
  if key_ltb (r_to left) (r_from right) then left_before_right left r
  else if key_ltb (r_to right) (r_from left) then right_before_left right r
  else compare_overlap left right r.
End Sweep.

(** ** Streams of ranges *)

(** [trait RangeStream]; the poll of cancellation is part of the stream. *)
Class RangeStream (K S : Type) := { stream_next : io S (option (Range K)) }.

(** [MapStream]: the cursor, its mapping, what the poll answers each time it is
    asked, and how often it was. *)
Record MapStream (K : Type) := mkMapStream { ms_cursor : CursorState; ms_mapping : Mapping; ms_polls : nat -> Result unit; ms_asked : nat }.
Arguments mkMapStream {K}.
Arguments ms_cursor {K}.
Arguments ms_mapping {K}.
Arguments ms_polls {K}.
Arguments ms_asked {K}.
Definition map_stream_new {K} `{IpKey K} (mapping : Mapping) (meta : MetaV4) (polls : nat -> Result unit) : Result (MapStream K) :=
  cursor ← cursor_state_new (K := K) mapping meta RangeForward None;
  Ok (mkMapStream cursor mapping polls 0).
#[global] Instance MapStream_RangeStream {K} `{IpKey K} : RangeStream K (MapStream K) := {
  stream_next := fun s =>
    let asked := mkMapStream (ms_cursor s) (ms_mapping s) (ms_polls s) (S (ms_asked s)) in
    match ms_polls s (ms_asked s) with
    | Ok _ =>
        let '(c, r) := cs_next (ms_mapping s) (ms_cursor s) in
        (mkMapStream c (ms_mapping s) (ms_polls s) (S (ms_asked s)), r)
    | Err e => (asked, Err e)
    | Panic t => (asked, Panic t)
    end;
}.

Record Counted (S : Type) := mkCounted { ct_inner : S; ct_intervals : Z }.
Arguments mkCounted {S}.
Arguments ct_inner {S}.
Arguments ct_intervals {S}.
Definition counted_new {S} (inner : S) : Counted S := mkCounted inner 0.
#[global] Instance Counted_RangeStream {K S} `{RangeStream K S} : RangeStream K (Counted S) := {
  stream_next :=
    next ← zoom ct_inner (fun s c => mkCounted s (ct_intervals c)) stream_next;
    _ ← (if bool_decide (is_Some next) then
           n ← gets ct_intervals;
           n ← lift (ok_or (checked_add u64_max n 1) (ArithmeticOverflow "workflow interval count"));
           modify (fun c => mkCounted (ct_inner c) n)
         else mret tt);
    mret next;
}.

Section Run.
Context {K L R : Type} `{IpKey K} `{RangeStream K L} `{RangeStream K R}.

Record Sweep := mkSweep {
  old_cursor : Counted L;
  new_cursor : Counted R;
  old : option (Range K);
  new : option (Range K);
  result : Comparison;
}.

(** A call whose state is dropped with the error that ends it. *)
Definition pull {S A} (m : io S A) (s : S) : Result (S * A) := let '(s', r) := m s in a ← r; Ok (s', a).

Definition sweep_new (old_cursor : L) (new_cursor : R) : Result Sweep :=
  '(oc, old) ← pull stream_next (counted_new old_cursor);
  '(nc, new) ← pull stream_next (counted_new new_cursor);
  Ok (mkSweep oc nc old new comparison_default).

Definition advance_stream {S} `{RangeStream K S} (cursor : Counted S) (range : Range K) (action : Advance) : Result (Counted S * option (Range K)) :=
  match action with
  | Keep => Ok (cursor, Some range)
  | Consume => pull stream_next cursor
  | After end_ =>
      from ← ok_or (checked_next end_) (ArithmeticOverflow "range comparison cursor");
      Ok (cursor, Some (start_at from range))
  end.

Definition step_pair (s : Sweep) (left right : Range K) : Result Sweep :=
  '(r, step) ← compare_pair left right (result s);
  '(oc, old) ← advance_stream (old_cursor s) left (st_left step);
  '(nc, new) ← advance_stream (new_cursor s) right (st_right step);
  Ok (mkSweep oc nc old new r).

Definition sweep_step (s : Sweep) : Result Sweep :=
  match old s, new s with
  | Some left_, Some right_ => step_pair s left_ right_
  | Some left_, None =>
      n ← length_of left_;
      r ← add_removed (result s) n;
      '(oc, old) ← pull stream_next (old_cursor s);
      Ok (mkSweep oc (new_cursor s) old None r)
  | None, Some right_ =>
      n ← length_of right_;
      r ← add_added (result s) n;
      '(nc, new) ← pull stream_next (new_cursor s);
      Ok (mkSweep (old_cursor s) nc None new r)
  | None, None => Ok s
  end.

(** [while self.old.is_some() || self.new.is_some()], with what the poll
    answers at each round. *)
Fixpoint sweep_loop (rounds : nat) (polls : nat -> Result unit) (s : Sweep) : Result Sweep :=
  match old s, new s with
  | None, None => Ok s
  | _, _ =>
      match rounds with
      | O => Panic "sweep does not end"
      | S rounds' =>
          _ ← polls rounds;
          s ← sweep_step s;
          sweep_loop rounds' polls s
      end
  end.

Record ScannedComparison := mkScanned { comparison : Comparison; before_intervals : Z; after_intervals : Z }.

Definition sweep_run (rounds : nat) (polls : nat -> Result unit) (s : Sweep) : Result ScannedComparison :=
  _ ← polls (S rounds);
  s ← sweep_loop rounds polls s;
  _ ← verify (result s);
  Ok (mkScanned (result s) (ct_intervals (old_cursor s)) (ct_intervals (new_cursor s))).
End Run.
Arguments Sweep : clear implicits.

(** [compare::maps]. *)
Definition maps {K} `{IpKey K} (mapping : Mapping) (before_meta after_meta : MetaV4) (old_polls new_polls : nat -> Result unit)
    (rounds : nat) (polls : nat -> Result unit) : Result Comparison :=
  old ← map_stream_new (K := K) mapping before_meta old_polls;
  new ← map_stream_new (K := K) mapping after_meta new_polls;
  sweep ← sweep_new old new;
  scanned ← sweep_run rounds polls sweep;
  Ok (comparison scanned).
