(* ===== verification/CompareFacts.v ===== *)
(** * The counts of a comparison

    The sweep of [Compare] counts addresses class by class; here the classes
    are counted one address at a time, and the two agree. *)

From stdpp Require Import base tactics numbers list strings sorting.
From Stdlib Require Import ZArith Lia.
From S2P Require Import Prelude Errors Bytes Cardinality Key Codec Contract TreeInterface RangeMap Machine Mapping TreeQuery TreeFacts RangeCursor Compare.

#[local] Open Scope string_scope.
#[local] Open Scope list_scope.
#[local] Open Scope Z_scope.

(** ** Counting addresses *)

Fixpoint count_below (P : Z -> bool) (n : nat) : Z :=
  match n with
  | O => 0
  | S n' => (if P (Z.of_nat n') then 1 else 0) + count_below P n'
  end.

Lemma count_ext (P Q : Z -> bool) n : (forall a, 0 <= a < Z.of_nat n -> P a = Q a) -> count_below P n = count_below Q n.
Proof. induction n as [|n IH]; intros E; [done |]. cbn [count_below]. rewrite (E (Z.of_nat n)), IH by (try (intros; apply E); lia). done. Qed.
Lemma count_split (P Q R : Z -> bool) n : (forall a, 0 <= a < Z.of_nat n -> (if P a then 1 else 0) = (if Q a then 1 else 0) + (if R a then 1 else 0)) ->
  count_below P n = count_below Q n + count_below R n.
Proof.
  induction n as [|n IH]; intros E; [done |]. cbn [count_below]. rewrite IH by (intros; apply E; lia). specialize (E (Z.of_nat n) ltac:(lia)). lia.
Qed.
Lemma count_bounds P n : 0 <= count_below P n <= Z.of_nat n.
Proof. induction n as [|n IH]; [done |]. cbn [count_below]. destruct (P (Z.of_nat n)); lia. Qed.
Lemma count_nothing n : count_below (fun _ => false) n = 0.
Proof. induction n; [done |]. cbn [count_below]. lia. Qed.
Definition between (lo hi a : Z) : bool := (lo <=? a) && (a <=? hi).
Lemma count_interval lo hi n : 0 <= lo <= hi + 1 -> count_below (between lo hi) n = Z.max 0 (Z.min (hi + 1) (Z.of_nat n) - lo).
Proof.
  intros Hlo. induction n as [|n IH]; [cbn; lia |]. cbn [count_below]. rewrite IH. unfold between.
  destruct (Z.leb_spec lo (Z.of_nat n)), (Z.leb_spec (Z.of_nat n) hi); cbn [andb]; lia.
Qed.

(** ** The classes of addresses *)

Inductive address_class := Before | Afterwards | Unchanged | Different | Added | Removed.
Definition in_class (c : address_class) (f g : option Z) : bool :=
  match c, f, g with
  | Before, Some _, _ => true
  | Afterwards, _, Some _ => true
  | Unchanged, Some x, Some y => x =? y
  | Different, Some x, Some y => negb (x =? y)
  | Added, None, Some _ => true
  | Removed, Some _, None => true
  | _, _, _ => false
  end.
Definition counted (c : address_class) (r : Comparison) : Cardinality129 :=
  match c with Before => before r | Afterwards => after r | Unchanged => unchanged r | Different => different r | Added => added r | Removed => removed r end.

Section Tally.
Context {K : Type} `{IpKeyLaws K}.
Implicit Types l r : list (Range K).

(** The addresses of a class, of all the family has. *)
Definition tally (c : address_class) (f g : Z -> option Z) : Z :=
  count_below (fun a => in_class c (f a) (g a)) (Z.to_nat (key_top (K := K) + 1)).

Lemma top_bound : key_top (K := K) + 1 < 2 ^ 129.
Proof using Type*.
  destruct (Z.lt_ge_cases (key_top (K := K)) 0) as [Hn | Hn]; [lia |].
  destruct (key_of_ok (K := K) 0) as [Hok0 Hn0]; [lia |]. destruct (key_of_ok (K := K) key_top) as [Hok1 Hn1]; [lia |].
  pose proof (inclusive_cardinality_num _ _ Hok0 Hok1) as Hc. rewrite Hn0, Hn1, (proj2 (Z.leb_le _ _)) in Hc by lia.
  destruct Hc as (c & _ & Hc & Hv). pose proof (val_range c Hc). lia.
Qed.
Lemma tally_bounds c f g : 0 <= tally c f g < 2 ^ 129.
Proof using Type*. unfold tally. pose proof (count_bounds (fun a => in_class c (f a) (g a)) (Z.to_nat (key_top (K := K) + 1))). pose proof top_bound. lia. Qed.

(** ** Cutting off an interval *)

(** On the interval the two maps are constant, [l'] and [r'] are without it. *)
Record cut (lo hi : Z) (x y : option Z) (f g f' g' : Z -> option Z) : Prop := {
  cut_range : 0 <= lo <= hi /\ hi <= key_top (K := K);
  cut_inside a : lo <= a <= hi -> f a = x /\ g a = y /\ f' a = None /\ g' a = None;
  cut_outside a : ~ lo <= a <= hi -> f' a = f a /\ g' a = g a;
}.

Lemma cut_tally lo hi x y f g f' g' c : cut lo hi x y f g f' g' ->
  tally c f g = (if in_class c x y then hi - lo + 1 else 0) + tally c f' g'.
Proof using Type.
  intros [Hr Hin Hout]. unfold tally.
  rewrite (count_split _ (fun a => between lo hi a && in_class c x y) (fun a => in_class c (f' a) (g' a))).
  - f_equal. destruct (in_class c x y) eqn:E.
    + rewrite (count_ext _ (between lo hi)) by (intros; apply andb_true_r). rewrite count_interval by lia. lia.
    + rewrite (count_ext _ (fun _ => false)) by (intros; apply andb_false_r). apply count_nothing.
  - intros a _. unfold between. destruct (Z.leb_spec lo a), (Z.leb_spec a hi); cbn [andb].
    + destruct (Hin a ltac:(lia)) as (-> & -> & -> & ->). by destruct (in_class c x y), c.
    + destruct (Hout a ltac:(lia)) as [-> ->]. done.
    + destruct (Hout a ltac:(lia)) as [-> ->]. done.
    + destruct (Hout a ltac:(lia)) as [-> ->]. done.
Qed.

(** Records of a map still to be swept: in order, disjoint. *)
Definition chain l : Prop := Forall range_ok l /\ StronglySorted (fun a b => rt a < rf b) l.

Lemma chain_cons x l : chain (x :: l) <-> range_ok x /\ chain l /\ Forall (fun b => rt x < rf b) l.
Proof using Type.
  unfold chain. rewrite Forall_cons. split; [intros [[? ?] Hs]; inversion Hs; done | intros (? & [? ?] & ?); by split; [| constructor]].
Qed.
Lemma chain_before l a : chain l -> Forall (fun b => a < rf b) l -> rng_lookup l a = None.
Proof using Type. intros _ Hf. apply rng_lookup_None. intros b Hb. rewrite Forall_forall in Hf. specialize (Hf b Hb). lia. Qed.
Lemma canonical_chain l : sp_sorted rf l -> canonical l -> chain l.
Proof using Type*.
  intros Hs Hc. split; [apply Forall_forall, Hc |]. induction Hs as [|x l Hs IH Hx]; [constructor |]. constructor.
  - apply IH. eapply canonical_sub; [exact Hc |]. intros; by right.
  - rewrite Forall_forall in Hx |- *. intros b Hb. apply Hc; [left | by right | by apply Hx].
Qed.

(** Taking the addresses up to [e] off the front. *)
Inductive trimmed (e : Z) : list (Range K) -> list (Range K) -> Prop :=
| trim_all x l : rt x = e -> trimmed e (x :: l) l
| trim_some x l k : key_ok k -> key_num k = e + 1 -> rf x <= e < rt x -> trimmed e (x :: l) (start_at k x :: l).

Lemma trimmed_chain e l l' : chain l -> trimmed e l l' -> chain l'.
Proof using Type.
  intros Hc Ht. destruct Ht as [x l _ | x l k Hk Hn He]; apply chain_cons in Hc as (Hx & Hl & Hall); [done |].
  apply chain_cons. split; [| by split]. destruct Hx as (Hf & Ht & Hle & Hv). split; [done |]. split; [done |]. cbn. unfold rf, rt in *. split; [lia | done].
Qed.
Lemma trimmed_lookup e x l l' a : chain (x :: l) -> trimmed e (x :: l) l' ->
  rng_lookup l' a = if between (rf x) e a then None else rng_lookup (x :: l) a.
Proof using Type*.
  intros Hc Ht. apply chain_cons in Hc as (Hx & Hl & Hall). pose proof (range_ok_num x Hx).
  assert (Hrest : a <= rt x -> rng_lookup l a = None).
  { intros Ha. apply chain_before; [done |]. eapply Forall_impl; [exact Hall |]. cbn. lia. }
  unfold between. cbn [rng_lookup]. inversion Ht as [x1 l1 He | x1 l1 k Hk Hn He]; subst; cbn [rng_lookup].
  - destruct (Z.leb_spec (rf x) a), (Z.leb_spec a (rt x)); cbn [andb]; try done. apply Hrest. lia.
  - unfold rf, rt in *. cbn [start_at r_from r_to r_value]. rewrite Hn.
    destruct (Z.leb_spec (key_num (r_from x)) a), (Z.leb_spec a e), (Z.leb_spec (e + 1) a), (Z.leb_spec a (key_num (r_to x))); cbn [andb]; try lia; try done;
      apply Hrest; lia.
Qed.
Lemma trimmed_length e l l' : trimmed e l l' -> (length l' <= length l)%nat.
Proof using Type. by intros []; cbn; lia. Qed.
Lemma chain_inside x l a : rf x <= a <= rt x -> rng_lookup (x :: l) a = Some (r_value x).
Proof using Type. intros Ha. cbn [rng_lookup]. by rewrite (proj2 (Z.leb_le _ _)), (proj2 (Z.leb_le _ _)) by lia. Qed.

Lemma cut_left x l r e l' : chain (x :: l) -> trimmed e (x :: l) l' -> (forall a, a <= e -> rng_lookup r a = None) ->
  cut (rf x) e (Some (r_value x)) None (rng_lookup (x :: l)) (rng_lookup r) (rng_lookup l') (rng_lookup r).
Proof using Type*.
  intros Hc Ht Hr. pose proof Hc as (Hx & _)%chain_cons. pose proof (range_ok_num x Hx).
  assert (He : rf x <= e <= rt x) by (inversion Ht; subst; lia). split; [lia | |].
  - intros a Ha. rewrite (trimmed_lookup e x l l' a Hc Ht), (chain_inside x l a), (Hr a) by lia. unfold between.
    by rewrite (proj2 (Z.leb_le _ _)), (proj2 (Z.leb_le _ _)) by lia.
  - intros a Ha. rewrite (trimmed_lookup e x l l' a Hc Ht). unfold between. destruct (Z.leb_spec (rf x) a), (Z.leb_spec a e); try done. lia.
Qed.
Lemma cut_sym lo hi x y f g f' g' : cut lo hi x y f g f' g' -> cut lo hi y x g f g' f'.
Proof using Type. intros [Hr Hin Hout]. split; [done | |]; intros a Ha; [destruct (Hin a Ha) as (? & ? & ? & ?) | destruct (Hout a Ha)]; done. Qed.
Lemma cut_both x l l' y r r' e : rf x = rf y -> chain (x :: l) -> chain (y :: r) -> trimmed e (x :: l) l' -> trimmed e (y :: r) r' ->
  cut (rf x) e (Some (r_value x)) (Some (r_value y)) (rng_lookup (x :: l)) (rng_lookup (y :: r)) (rng_lookup l') (rng_lookup r').
Proof using Type*.
  intros Hxy Hcl Hcr Hl Hr. pose proof Hcl as (Hx & _)%chain_cons. pose proof (range_ok_num x Hx). pose proof Hcr as (Hy & _)%chain_cons. pose proof (range_ok_num y Hy).
  assert (rf x <= e <= rt x) by (inversion Hl; subst; lia). assert (rf y <= e <= rt y) by (inversion Hr; subst; lia). split; [lia | |]; intros a Ha;
    rewrite (trimmed_lookup e x l l' a Hcl Hl), (trimmed_lookup e y r r' a Hcr Hr), <- Hxy; unfold between.
  - rewrite (chain_inside x l a), (chain_inside y r a) by lia. by rewrite (proj2 (Z.leb_le _ _)), (proj2 (Z.leb_le _ _)) by lia.
  - destruct (Z.leb_spec (rf x) a), (Z.leb_spec a e); try done. lia.
Qed.

(** ** The sweep keeps the counts balanced *)

(** What is counted and what is still to be swept make the totals. *)
Definition balanced (total : address_class -> Z) l r (res : Comparison) : Prop :=
  forall c, card_ok (counted c res) /\ val (counted c res) + tally c (rng_lookup l) (rng_lookup r) = total c.

Lemma add_ok a b : card_ok a -> card_ok b -> val a + val b < 2 ^ 129 -> exists c, add a b = Ok c /\ card_ok c /\ val c = val a + val b.
Proof using Type.
  intros Ha Hb Hlt. pose proof (card_checked_add_spec a b Ha Hb) as Hs. rewrite (proj2 (Z.ltb_lt _ _) Hlt) in Hs.
  destruct Hs as (c & E & Hc). exists c. unfold add. by rewrite E.
Qed.

(** One class of an interval: its size is added where the class takes it. *)
Lemma add_class total l r l' r' res lo hi x y n c : balanced total l r res -> (forall c, total c < 2 ^ 129) ->
  cut lo hi x y (rng_lookup l) (rng_lookup r) (rng_lookup l') (rng_lookup r') -> card_ok n -> val n = hi - lo + 1 -> in_class c x y = true ->
  exists v, add (counted c res) n = Ok v /\ card_ok v /\ val v + tally c (rng_lookup l') (rng_lookup r') = total c.
Proof using Type*.
  intros Hb Ht Hcut Hn Hv Hin. destruct (Hb c) as [Hok Heq]. pose proof (cut_tally _ _ _ _ _ _ _ _ c Hcut) as Hc. rewrite Hin in Hc.
  pose proof (tally_bounds c (rng_lookup l') (rng_lookup r')). specialize (Ht c).
  destruct (add_ok (counted c res) n Hok Hn) as (v & E & Hvok & Hvv); [lia |]. exists v. split; [done |]. split; [done | lia].
Qed.
Lemma keep_class total l r l' r' res lo hi x y c : balanced total l r res ->
  cut lo hi x y (rng_lookup l) (rng_lookup r) (rng_lookup l') (rng_lookup r') -> in_class c x y = false ->
  card_ok (counted c res) /\ val (counted c res) + tally c (rng_lookup l') (rng_lookup r') = total c.
Proof using Type. intros Hb Hcut Hin. destruct (Hb c) as [Hok Heq]. pose proof (cut_tally _ _ _ _ _ _ _ _ c Hcut) as Hc. rewrite Hin in Hc. split; [done | lia]. Qed.

(** The class a goal is about, left as it is. *)
Ltac keep_one Hb Hcut := match goal with |- card_ok (counted ?c _) /\ _ => refine (keep_class _ _ _ _ _ _ _ _ _ _ c Hb Hcut _) end.

Section Cutting.
Context (total : address_class -> Z) (Htotal : forall c, total c < 2 ^ 129) (l r l' r' : list (Range K)) (res : Comparison) (Hb : balanced total l r res).
Context (lo hi : Z) (n : Cardinality129) (Hn : card_ok n) (Hv : val n = hi - lo + 1).

Lemma add_removed_balanced v : cut lo hi (Some v) None (rng_lookup l) (rng_lookup r) (rng_lookup l') (rng_lookup r') ->
  exists res', add_removed res n = Ok res' /\ balanced total l' r' res'.
Proof using Type*.
  intros Hcut. destruct (add_class _ _ _ _ _ _ _ _ _ _ n Before Hb Htotal Hcut Hn Hv eq_refl) as (b & E1 & Hb').
  destruct (add_class _ _ _ _ _ _ _ _ _ _ n Removed Hb Htotal Hcut Hn Hv eq_refl) as (d & E2 & Hd').
  unfold add_removed. change (before res) with (counted Before res). change (removed res) with (counted Removed res).
  rewrite E1. cbn [mbind outcome_bind]. rewrite E2. eexists. split; [done |]. intros []; try done; keep_one Hb Hcut; done.
Qed.
Lemma add_added_balanced v : cut lo hi None (Some v) (rng_lookup l) (rng_lookup r) (rng_lookup l') (rng_lookup r') ->
  exists res', add_added res n = Ok res' /\ balanced total l' r' res'.
Proof using Type*.
  intros Hcut. destruct (add_class _ _ _ _ _ _ _ _ _ _ n Afterwards Hb Htotal Hcut Hn Hv eq_refl) as (b & E1 & Hb').
  destruct (add_class _ _ _ _ _ _ _ _ _ _ n Added Hb Htotal Hcut Hn Hv eq_refl) as (d & E2 & Hd').
  unfold add_added. change (after res) with (counted Afterwards res). change (added res) with (counted Added res).
  rewrite E1. cbn [mbind outcome_bind]. rewrite E2. eexists. split; [done |]. intros []; try done; keep_one Hb Hcut; done.
Qed.
Lemma overlap_balanced x y : cut lo hi (Some x) (Some y) (rng_lookup l) (rng_lookup r) (rng_lookup l') (rng_lookup r') ->
  exists b a res', add (before res) n = Ok b /\ add (after res) n = Ok a
    /\ classify_overlap x y n (mkComparison b a (unchanged res) (different res) (added res) (removed res)) = Ok res' /\ balanced total l' r' res'.
Proof using Type*.
  intros Hcut. destruct (add_class _ _ _ _ _ _ _ _ _ _ n Before Hb Htotal Hcut Hn Hv eq_refl) as (b & E1 & Hb').
  destruct (add_class _ _ _ _ _ _ _ _ _ _ n Afterwards Hb Htotal Hcut Hn Hv eq_refl) as (a & E2 & Ha').
  exists b, a. unfold classify_overlap. destruct (Z.eqb_spec x y) as [He | He].
  - destruct (add_class _ _ _ _ _ _ _ _ _ _ n Unchanged Hb Htotal Hcut Hn Hv ltac:(by apply Z.eqb_eq)) as (u & E3 & Hu').
    cbn [unchanged]. change (unchanged res) with (counted Unchanged res). rewrite E3. eexists. do 3 (split; [done |]).
    intros []; try done; keep_one Hb Hcut; try done. cbn. by rewrite (proj2 (Z.eqb_eq x y)).
  - destruct (add_class _ _ _ _ _ _ _ _ _ _ n Different Hb Htotal Hcut Hn Hv ltac:(cbn; by rewrite (proj2 (Z.eqb_neq x y)))) as (u & E3 & Hu').
    cbn [different]. change (different res) with (counted Different res). rewrite E3. eexists. do 3 (split; [done |]).
    intros []; try done; keep_one Hb Hcut; try done. cbn. by apply Z.eqb_neq.
Qed.
End Cutting.

Lemma length_of_ok x : range_ok x -> exists n, length_of x = Ok n /\ card_ok n /\ val n = rt x - rf x + 1.
Proof using Type*.
  intros (Hf & Ht & Hle & _). pose proof (inclusive_cardinality_num _ _ Hf Ht) as Hc. by rewrite (proj2 (Z.leb_le _ _)) in Hc.
Qed.

(** What a step leaves of a list, before the stream is asked. *)
Inductive moves_on (x : Range K) (l : list (Range K)) : Advance -> list (Range K) -> Prop :=
| moves_keep : moves_on x l Keep (x :: l)
| moves_consume : moves_on x l Consume l
| moves_after e k : checked_next e = Some k -> moves_on x l (After e) (start_at k x :: l).

Lemma after_trimmed x l e : range_ok x -> key_ok e -> rf x <= key_num e <= rt x ->
  exists l', moves_on x l (after_or_consume (r_to x) e) l' /\ trimmed (key_num e) (x :: l) l'
    /\ (rt x = key_num e -> (length l' < length (x :: l))%nat).
Proof using Type*.
  intros (Hf & Ht & Hle & _) He Hr. unfold after_or_consume, rt in *. rewrite key_eqb_num by done.
  destruct (Z.eqb_spec (key_num (r_to x)) (key_num e)) as [Heq | Hne].
  - exists l. split; [constructor |]. split; [by constructor | cbn; lia].
  - pose proof (checked_next_num e He) as Hn. destruct (checked_next e) as [k|] eqn:E; [| pose proof (key_num_range _ Ht); lia].
    exists (start_at k x :: l). split; [by constructor |]. split; [| done]. destruct Hn. by constructor; [| | unfold rf, rt in *; lia].
Qed.

Lemma span_ok (a b : K) : key_ok a -> key_ok b -> key_num a <= key_num b ->
  exists n, inclusive_cardinality a b = Ok n /\ card_ok n /\ val n = key_num b - key_num a + 1.
Proof using Type*. intros Ha Hb Hle. pose proof (inclusive_cardinality_num _ _ Ha Hb) as Hc. by rewrite (proj2 (Z.leb_le _ _)) in Hc. Qed.
Lemma previous_ok (a b : K) : key_ok a -> key_ok b -> key_num a < key_num b ->
  exists k, checked_previous b = Some k /\ key_ok k /\ key_num k = key_num b - 1.
Proof using Type*.
  intros Ha Hb Hlt. pose proof (checked_previous_num b Hb) as Hp. pose proof (key_num_range _ Ha).
  destruct (checked_previous b) as [k|]; [by exists k | lia].
Qed.
Lemma chain_ahead y r a : chain (y :: r) -> a < rf y -> rng_lookup (y :: r) a = None.
Proof using Type*.
  intros Hc Ha. pose proof Hc as (Hy & _ & Hr)%chain_cons. pose proof (range_ok_num y Hy). apply chain_before; [done |].
  constructor; [done |]. eapply Forall_impl; [exact Hr |]. cbn. lia.
Qed.

(** ** One step *)

Section Stepping.
Context (total : address_class -> Z) (Htotal : forall c, total c < 2 ^ 129).

(** What is known of the sweep when its lists are [l] and [r]. *)
Definition sweeping l r (res : Comparison) : Prop := chain l /\ chain r /\ balanced total l r res.

Lemma remove_prefix x l r e l' n res : sweeping (x :: l) r res -> trimmed e (x :: l) l' -> (forall a, a <= e -> rng_lookup r a = None) ->
  card_ok n -> val n = e - rf x + 1 -> exists res', add_removed res n = Ok res' /\ sweeping l' r res'.
Proof using Type*.
  intros (Hl & Hr & Hb) Ht Hno Hn Hv. pose proof (cut_left x l r e l' Hl Ht Hno) as Hcut.
  destruct (add_removed_balanced total Htotal _ _ _ _ res Hb _ _ n Hn Hv _ Hcut) as (res' & E & Hb').
  exists res'. split; [done |]. split; [exact (trimmed_chain _ _ _ Hl Ht) | by split].
Qed.
Lemma add_prefix y l r e r' n res : sweeping l (y :: r) res -> trimmed e (y :: r) r' -> (forall a, a <= e -> rng_lookup l a = None) ->
  card_ok n -> val n = e - rf y + 1 -> exists res', add_added res n = Ok res' /\ sweeping l r' res'.
Proof using Type*.
  intros (Hl & Hr & Hb) Ht Hno Hn Hv. pose proof (cut_sym _ _ _ _ _ _ _ _ (cut_left y r l e r' Hr Ht Hno)) as Hcut.
  destruct (add_added_balanced total Htotal _ _ _ _ res Hb _ _ n Hn Hv _ Hcut) as (res' & E & Hb').
  exists res'. split; [done |]. split; [done |]. split; [exact (trimmed_chain _ _ _ Hr Ht) | done].
Qed.

Lemma align_starts_ok x l y r res : sweeping (x :: l) (y :: r) res -> rf y <= rt x -> rf x <= rt y ->
  exists k k' res', align_starts x y res = Ok (start_at k x, start_at k' y, res')
    /\ sweeping (start_at k x :: l) (start_at k' y :: r) res' /\ key_num k = key_num k'.
Proof using Type*.
  intros Hs Hyx Hxy. pose proof Hs as (Hl & Hr & _). pose proof Hl as (Hx & _)%chain_cons. pose proof Hr as (Hy & _)%chain_cons.
  destruct Hx as (Hxf & Hxt & Hxle & _), Hy as (Hyf & Hyt & Hyle & _). unfold align_starts, rf, rt in *. rewrite !key_ltb_num by done.
  destruct (Z.ltb_spec (key_num (r_from x)) (key_num (r_from y))) as [Hlt | Hge]; [| destruct (Z.ltb_spec (key_num (r_from y)) (key_num (r_from x))) as [Hlt | Hge']].
  - destruct (previous_ok _ _ Hxf Hyf Hlt) as (e & -> & He & Hen). destruct (span_ok _ _ Hxf He ltac:(lia)) as (n & E & Hn & Hv).
    destruct (remove_prefix x l (y :: r) (key_num e) (start_at (r_from y) x :: l) n res Hs) as (res' & E' & Hs'); [| | done | done |].
    { constructor; [done | lia | unfold rf, rt; lia]. }
    { intros a Ha. apply chain_ahead; [done | unfold rf; lia]. }
    exists (r_from y), (r_from y), res'. cbn. rewrite E. cbn. rewrite E'. by destruct y.
  - destruct (previous_ok _ _ Hyf Hxf Hlt) as (e & -> & He & Hen). destruct (span_ok _ _ Hyf He ltac:(lia)) as (n & E & Hn & Hv).
    destruct (add_prefix y (x :: l) r (key_num e) (start_at (r_from x) y :: r) n res Hs) as (res' & E' & Hs'); [| | done | done |].
    { constructor; [done | lia | unfold rf, rt; lia]. }
    { intros a Ha. apply chain_ahead; [done | unfold rf; lia]. }
    exists (r_from x), (r_from x), res'. cbn. rewrite E. cbn. rewrite E'. by destruct x.
  - exists (r_from x), (r_from y), res. destruct x, y. cbn in *. split; [done |]. split; [done | lia].
Qed.

(** The records a step leaves: what its [Advance]s say, fewer than before. *)
Definition steps_to x l y r (st : Step) (res' : Comparison) : Prop :=
  exists l' r', moves_on x l (st_left st) l' /\ moves_on y r (st_right st) r' /\ sweeping l' r' res'
    /\ (length l' + length r' < length (x :: l) + length (y :: r))%nat.

Lemma moves_start k x l adv l' : moves_on (start_at k x) l adv l' -> adv <> Keep -> moves_on x l adv l'.
Proof using Type. intros [] Hk; [done | exact (moves_consume x l) | by apply (moves_after x l)]. Qed.
Lemma after_moves (to e : K) : after_or_consume to e <> Keep.
Proof using Type. unfold after_or_consume. by destruct (key_eqb to e). Qed.

Lemma compare_overlap_ok x l y r res : sweeping (x :: l) (y :: r) res -> rf y <= rt x -> rf x <= rt y ->
  exists res' st, compare_overlap x y res = Ok (res', st) /\ steps_to x l y r st res'.
Proof using Type*.
  intros Hs Hyx Hxy. destruct (align_starts_ok x l y r res Hs Hyx Hxy) as (k & k' & res1 & E1 & (Hl & Hr & Hb) & Hk).
  unfold compare_overlap. rewrite E1. cbn [mbind outcome_bind]. pose proof Hl as (Hx & _)%chain_cons. pose proof Hr as (Hy & _)%chain_cons.
  pose proof Hx as (Hxf & Hxt & Hxle & _). pose proof Hy as (Hyf & Hyt & Hyle & _).
  destruct (key_min_num _ _ Hxt Hyt) as [Hm Hmn]. set (e := key_min _ _) in *.
  destruct (after_trimmed (start_at k x) l e Hx Hm) as (l' & Hml & Htl & Hll); [unfold rf, rt; cbn in *; lia |].
  destruct (after_trimmed (start_at k' y) r e Hy Hm) as (r' & Hmr & Htr & Hlr); [unfold rf, rt; cbn in *; lia |].
  destruct (span_ok _ _ Hxf Hm) as (n & E2 & Hn & Hv); [cbn in *; lia |]. rewrite E2. cbn [mbind outcome_bind].
  pose proof (cut_both (start_at k x) _ _ (start_at k' y) _ _ _ Hk Hl Hr Htl Htr) as Hcut.
  destruct (overlap_balanced total Htotal _ _ _ _ res1 Hb _ _ n Hn Hv _ _ Hcut) as (b & a & res' & E3 & E4 & E5 & Hb').
  rewrite E3. cbn [mbind outcome_bind]. rewrite E4. cbn [mbind outcome_bind]. rewrite E5. cbn [mbind outcome_bind].
  eexists res', _. split; [done |]. exists l', r'. cbn [st_left st_right].
  split; [eapply moves_start; [done | apply after_moves] |]. split; [eapply moves_start; [done | apply after_moves] |].
  split; [split; [exact (trimmed_chain _ _ _ Hl Htl) | split; [exact (trimmed_chain _ _ _ Hr Htr) | done]] |].
  pose proof (trimmed_length _ _ _ Htl). pose proof (trimmed_length _ _ _ Htr). cbn in *. unfold rt in *. cbn in *. lia.
Qed.

Lemma compare_pair_ok x l y r res : sweeping (x :: l) (y :: r) res -> exists res' st, compare_pair x y res = Ok (res', st) /\ steps_to x l y r st res'.
Proof using Type*.
  intros Hs. pose proof Hs as (Hl & Hr & _). pose proof Hl as (Hx & _)%chain_cons. pose proof Hr as (Hy & _)%chain_cons.
  pose proof Hx as (Hxf & Hxt & Hxle & _). pose proof Hy as (Hyf & Hyt & Hyle & _). unfold compare_pair. rewrite !key_ltb_num by done.
  destruct (Z.ltb_spec (key_num (r_to x)) (key_num (r_from y))) as [Hlt | Hge]; [| destruct (Z.ltb_spec (key_num (r_to y)) (key_num (r_from x))) as [Hlt | Hge']].
  - destruct (length_of_ok x Hx) as (n & E & Hn & Hv). destruct (remove_prefix x l (y :: r) (rt x) l n res Hs) as (res' & E' & Hs'); [by constructor | | done | done |].
    { intros a Ha. apply chain_ahead; [done | unfold rf, rt in *; lia]. }
    unfold left_before_right. rewrite E. cbn [mbind outcome_bind]. rewrite E'. eexists _, _. split; [done |].
    exists l, (y :: r). split; [constructor |]. split; [constructor |]. split; [done | cbn; lia].
  - destruct (length_of_ok y Hy) as (n & E & Hn & Hv). destruct (add_prefix y (x :: l) r (rt y) r n res Hs) as (res' & E' & Hs'); [by constructor | | done | done |].
    { intros a Ha. apply chain_ahead; [done | unfold rf, rt in *; lia]. }
    unfold right_before_left. rewrite E. cbn [mbind outcome_bind]. rewrite E'. eexists _, _. split; [done |].
    exists (x :: l), r. split; [constructor |]. split; [constructor |]. split; [done | cbn; lia].
  - apply compare_overlap_ok; [done | |]; unfold rf, rt; lia.
Qed.
End Stepping.
End Tally.

(** ** Streams that yield a list *)

Section Yielding.
Context {K S : Type} `{RangeStream K S}.

(** The stream answers with the records in order, then with none. *)
Fixpoint yields (s : S) (es : list (Range K)) : Prop :=
  match es with
  | [] => exists s', stream_next s = (s', Ok None)
  | x :: es => exists s', stream_next s = (s', Ok (Some x)) /\ yields s' es
  end.
(** The record in hand and the stream behind it. *)
Definition in_hand (s : S) (h : option (Range K)) (l : list (Range K)) : Prop :=
  match l with
  | [] => h = None
  | x :: l => h = Some x /\ yields s l
  end.

Lemma pull_in_hand s l : yields s l -> exists s' h, pull stream_next s = Ok (s', h) /\ in_hand s' h l.
Proof using Type. unfold pull. destruct l as [|x l]; cbn; [intros (s' & ->); by exists s', None | intros (s' & -> & Hy); by exists s', (Some x)]. Qed.
End Yielding.

Section YieldingCounted.
Context {K S : Type} `{RangeStream K S}.
(** Counting takes nothing away as long as the counter does not overflow. *)
Lemma counted_yields (s : S) n (es : list (Range K)) : yields s es -> 0 <= n -> n + zlen es <= u64_max -> yields (mkCounted s n) es.
Proof using Type.
  revert s n. induction es as [|x es IH]; intros s n; cbn [yields].
  - intros (s' & E) _ _. eexists. cbn [stream_next Counted_RangeStream]. unfold zoom, mbind, io_bind. cbn. by rewrite E.
  - intros (s' & E & Hy) Hn Hlen. rewrite zlen_cons in Hlen. pose proof (zlen_nonneg es).
    exists (mkCounted s' (n + 1)). split; [| apply IH; [done | lia | lia]].
    cbn [stream_next Counted_RangeStream]. unfold zoom, mbind, io_bind. cbn. rewrite E. cbn.
    unfold checked_add. rewrite (proj2 (Z.leb_le _ _)) by lia. done.
Qed.
End YieldingCounted.

Section YieldingMap.
Context {K : Type} `{IpKeyLaws K}.
(** A stream over a generation yields its records when the poll never stops it. *)
Lemma map_yields (m : Mapping) polls : (forall n, polls n = Ok tt) -> forall es c n, cs_pending (K := K) m c es -> yields (mkMapStream (K := K) c m polls n) es.
Proof using Type*.
  intros Hp. induction es as [|x es IH]; intros c n Hc; destruct (cs_next_pending _ _ _ Hc) as (c' & E & Hc');
    cbn [yields stream_next MapStream_RangeStream ms_polls ms_asked ms_mapping ms_cursor]; rewrite Hp, E; eexists; [done |]. split; [done | by apply IH].
Qed.
End YieldingMap.

(** ** The whole sweep *)

Section Whole.
Context {K L R : Type} `{IpKeyLaws K} `{!RangeStream K L} `{!RangeStream K R}.
Context (total : address_class -> Z) (Htotal : forall c, total c < 2 ^ 129).
Implicit Types (s : Sweep K L R).

Record swept s (l r : list (Range K)) : Prop := {
  swept_old : in_hand (old_cursor s) (old s) l;
  swept_new : in_hand (new_cursor s) (new s) r;
  swept_result : sweeping total l r (result s);
}.

Lemma sweep_advance_ok {S} `{!RangeStream K S} (cur : Counted S) x l adv l' : yields cur l -> moves_on x l adv l' ->
  exists cur' h, advance_stream cur x adv = Ok (cur', h) /\ in_hand cur' h l'.
Proof using Type.
  intros Hy [| | e k Hk]; cbn [advance_stream].
  - by exists cur, (Some x).
  - by apply pull_in_hand.
  - exists cur, (Some (start_at k x)). by rewrite Hk.
Qed.
Lemma step_pair_ok s x l y r : swept s (x :: l) (y :: r) -> exists s' l' r', step_pair s x y = Ok s' /\ swept s' l' r'
  /\ (length l' + length r' < length (x :: l) + length (y :: r))%nat.
Proof using Type*.
  intros [[_ Ho] [_ Hn] Hs]. destruct (compare_pair_ok total Htotal x l y r _ Hs) as (res' & st & E & l' & r' & Hml & Hmr & Hs' & Hlen).
  destruct (sweep_advance_ok (old_cursor s) x l _ _ Ho Hml) as (oc & oh & E1 & Hoc).
  destruct (sweep_advance_ok (new_cursor s) y r _ _ Hn Hmr) as (nc & nh & E2 & Hnc).
  exists (mkSweep oc nc oh nh res'), l', r'. unfold step_pair. rewrite E. cbn [mbind outcome_bind]. rewrite E1. cbn [mbind outcome_bind]. rewrite E2. by split.
Qed.

Lemma sweep_step_ok s l r : swept s l r -> (0 < length l + length r)%nat -> exists s' l' r', sweep_step s = Ok s' /\ swept s' l' r'
  /\ (length l' + length r' < length l + length r)%nat.
Proof using Type*.
  intros Hsw Hpos. unfold sweep_step. destruct l as [|x l], r as [|y r]; [cbn in Hpos; lia | | |]; pose proof Hsw as [Ho Hn Hs]; cbn [in_hand] in Ho, Hn.
  - destruct Hn as [Hn Hy]. rewrite Ho, Hn. pose proof Hs as (_ & (Hok & _)%chain_cons & _). destruct (length_of_ok y Hok) as (n & E & Hnok & Hv).
    destruct (add_prefix total Htotal y [] r (rt y) r n _ Hs) as (res' & E' & Hs'); [by constructor | done | done | done |].
    destruct (pull_in_hand _ _ Hy) as (nc & h & E2 & Hh). rewrite E. cbn [mbind outcome_bind]. rewrite E'. cbn [mbind outcome_bind]. rewrite E2.
    eexists _, [], r. split; [done |]. split; [by split | cbn; lia].
  - destruct Ho as [Ho Hy]. rewrite Ho, Hn. pose proof Hs as ((Hok & _)%chain_cons & _ & _). destruct (length_of_ok x Hok) as (n & E & Hnok & Hv).
    destruct (remove_prefix total Htotal x l [] (rt x) l n _ Hs) as (res' & E' & Hs'); [by constructor | done | done | done |].
    destruct (pull_in_hand _ _ Hy) as (nc & h & E2 & Hh). rewrite E. cbn [mbind outcome_bind]. rewrite E'. cbn [mbind outcome_bind]. rewrite E2.
    eexists _, l, []. split; [done |]. split; [by split | cbn; lia].
  - rewrite (proj1 Ho), (proj1 Hn). by apply step_pair_ok.
Qed.

(** Every round leaves fewer records to sweep, whatever it keeps of them,
    so there are no more rounds than records. *)
Lemma sweep_loop_ok polls : (forall n, polls n = Ok tt) -> forall rounds s l r, swept s l r -> (length l + length r <= rounds)%nat ->
  exists s', sweep_loop rounds polls s = Ok s' /\ swept s' [] [].
Proof using Type*.
  intros Hp. induction rounds as [|rounds IH]; intros s l r Hs Hlen; cbn [sweep_loop].
  - destruct l, r; cbn in Hlen; try lia. pose proof Hs as [Ho Hn _]. cbn in Ho, Hn. rewrite Ho, Hn. by exists s.
  - destruct (Nat.eq_0_gt_0_cases (length l + length r)) as [Hz | Hz].
    + destruct l, r; cbn in Hz; try lia. pose proof Hs as [Ho Hn _]. cbn in Ho, Hn. rewrite Ho, Hn. by exists s.
    + destruct (sweep_step_ok s l r Hs Hz) as (s' & l' & r' & E & Hs' & Hlt). destruct (IH s' l' r' Hs' ltac:(lia)) as (s2 & E2 & Hs2).
      exists s2. split; [| done]. rewrite Hp. cbn [mbind outcome_bind]. rewrite E. cbn [mbind outcome_bind]. rewrite E2.
      destruct (old s) eqn:Eo, (new s) eqn:En; try done. destruct Hs as [Ho Hn _]. rewrite Eo in Ho. rewrite En in Hn.
      destruct l as [|x l], r as [|y r]; cbn in Ho, Hn, Hz; [lia | | |]; naive_solver.
Qed.
End Whole.

(** ** The result *)

Section Counts.
Context {K : Type} `{IpKeyLaws K}.

(** The sums [verify] takes are sums of the classes. *)
Lemma tally_splits f g : tally (K := K) Before f g = tally Unchanged f g + tally Different f g + tally Removed f g
  /\ tally Afterwards f g = tally Unchanged f g + tally Different f g + tally (K := K) Added f g.
Proof using Type.
  set (both a := match f a, g a with Some _, Some _ => true | _, _ => false end).
  assert (Hboth : count_below both (Z.to_nat (key_top (K := K) + 1)) = tally Unchanged f g + tally Different f g).
  { apply count_split. intros a _. unfold both. destruct (f a) as [x|], (g a) as [y|]; cbn; try done. by destruct (x =? y). }
  rewrite <- Hboth. split; apply count_split; intros a _; unfold both; by destruct (f a), (g a).
Qed.

Lemma verify_ok f g (res : Comparison) : (forall c, card_ok (counted c res) /\ val (counted c res) = tally (K := K) c f g) -> verify res = Ok tt.
Proof using Type*.
  intros Hc. destruct (tally_splits f g) as [Hb Ha]. pose proof (tally_bounds (K := K) Before f g). pose proof (tally_bounds (K := K) Afterwards f g).
  pose proof (tally_bounds (K := K) Removed f g). pose proof (tally_bounds (K := K) Added f g).
  destruct (Hc Before) as [? ?], (Hc Afterwards) as [? ?], (Hc Unchanged) as [Hu Eu], (Hc Different) as [Hd Ed], (Hc Added) as [Hd' Ed'], (Hc Removed) as [Hr Er].
  cbn [counted] in *. unfold verify.
  destruct (add_ok _ _ Hu Hd ltac:(lia)) as (kept & -> & Hk & Ek). cbn [mbind outcome_bind].
  destruct (add_ok _ _ Hk Hr ltac:(lia)) as (b & -> & Hbok & Eb). cbn [mbind outcome_bind].
  destruct (add_ok _ _ Hk Hd' ltac:(lia)) as (a & -> & Haok & Ea). cbn [mbind outcome_bind].
  rewrite (val_inj b (before res)), (val_inj a (after res)) by (done || lia). unfold card_eqb. by rewrite !Z.eqb_refl.
Qed.

Lemma sweep_new_ok {L R} `{!RangeStream K L} `{!RangeStream K R} (os : L) (ns : R) (l r : list (Range K)) : yields os l -> yields ns r ->
  zlen l <= u64_max -> zlen r <= u64_max -> chain l -> chain r ->
  exists s, sweep_new os ns = Ok s /\ swept (fun c => tally (K := K) c (rng_lookup l) (rng_lookup r)) s l r.
Proof using Type*.
  intros Hl Hr Hll Hlr Hcl Hcr. destruct (pull_in_hand _ _ (counted_yields os 0 l Hl ltac:(lia) ltac:(lia))) as (oc & oh & E1 & Ho).
  destruct (pull_in_hand _ _ (counted_yields ns 0 r Hr ltac:(lia) ltac:(lia))) as (nc & nh & E2 & Hn).
  unfold sweep_new, counted_new. rewrite E1. cbn [mbind outcome_bind]. rewrite E2. eexists. split; [done |]. split; [done | done |].
  split; [done |]. split; [done |]. intros c. by split; [destruct c; vm_compute | destruct c].
Qed.

Lemma sweep_run_ok {L R} `{!RangeStream K L} `{!RangeStream K R} f g rounds polls (s : Sweep K L R) l r : (forall n, polls n = Ok tt) ->
  swept (fun c => tally (K := K) c f g) s l r -> (length l + length r <= rounds)%nat ->
  exists res, sweep_run rounds polls s = Ok res /\ forall c, card_ok (counted c (comparison res)) /\ val (counted c (comparison res)) = tally (K := K) c f g.
Proof using Type*.
  intros Hp Hs Hlen. destruct (sweep_loop_ok _ (fun c => proj2 (tally_bounds c f g)) polls Hp rounds s l r Hs Hlen) as (s' & E & [_ _ (_ & _ & Hb)]).
  unfold sweep_run. rewrite Hp, E. cbn [mbind outcome_bind].
  assert (Hc : forall c, card_ok (counted c (result s')) /\ val (counted c (result s')) = tally (K := K) c f g).
  { intros c. destruct (Hb c) as [Hok <-]. split; [done |]. unfold tally. rewrite (count_ext _ (fun _ => false)) by (intros; by destruct c). rewrite count_nothing. lia. }
  rewrite (verify_ok f g) by done. by eexists.
Qed.

(** C21: The comparison of two generations ends within as many rounds as the
    generations have ranges, without overflow and with its self-check passed,
    and each of its six counts is the number of addresses of the family of that
    class: in the old map, in the new one, in both with one value, in both with
    different values, only in the new one, only in the old one. *)
Theorem comparison_counts (mapping : Mapping) (before_meta after_meta : MetaV4) (es es' : list (Range K)) old_polls new_polls polls rounds :
  tree_holds (mkGeneration mapping before_meta) (range_root before_meta) es -> tree_holds (mkGeneration mapping after_meta) (range_root after_meta) es' ->
  canonical es -> canonical es' -> address_family before_meta = key_family -> address_family after_meta = key_family ->
  zlen es <= u64_max -> zlen es' <= u64_max ->
  (forall n, old_polls n = Ok tt) -> (forall n, new_polls n = Ok tt) -> (forall n, polls n = Ok tt) -> (length es + length es' <= rounds)%nat ->
  exists res, maps (K := K) mapping before_meta after_meta old_polls new_polls rounds polls = Ok res
    /\ forall c, card_ok (counted c res) /\ val (counted c res) = tally (K := K) c (rng_lookup es) (rng_lookup es').
Proof using Type*.
  intros Hold Hnew Hc Hc' Hf Hf' Hlen Hlen' Hop Hnp Hp Hr.
  destruct (cursor_new_pending _ before_meta None es Hold Hf ltac:(done)) as (oc & E1 & Ho).
  destruct (cursor_new_pending _ after_meta None es' Hnew Hf' ltac:(done)) as (nc & E2 & Hn).
  unfold maps, map_stream_new. rewrite E1. cbn [mbind outcome_bind]. rewrite E2. cbn [mbind outcome_bind].
  destruct (sweep_new_ok _ _ es es' (map_yields _ _ Hop _ _ 0 Ho) (map_yields _ _ Hnp _ _ 0 Hn) Hlen Hlen') as (s & -> & Hs); cbn [mbind outcome_bind].
  - apply canonical_chain; [apply Hold | done].
  - apply canonical_chain; [apply Hnew | done].
  - destruct (sweep_run_ok _ _ rounds polls s es es' Hp Hs Hr) as (res & -> & Hres). by eexists.
Qed.
End Counts.
