(* ===== verification/TreePageFacts.v ===== *)
(** * Edits of one page of the B+tree

    [sheet born level cells p h]: the page is a tree page of that level with
    these cells, all of the size the codec fixes.  Each edit of
    [fixed_tree/page.rs] turns the sheet of a list of cells into the sheet of
    the edited list; a page that cannot take an edit is split in the middle
    into the sheets of the two halves. *)

From stdpp Require Import base tactics numbers list strings sorting.
From Stdlib Require Import ZArith Lia.
From S2P Require Import Prelude Errors Bytes PageHeader SlottedPage SlottedFacts SlottedTheorems CompactFacts Codec.
From S2P Require Import TreePage TreeFacts TreeQuery TreeCursor TreeMutation.

#[local] Open Scope string_scope.
#[local] Open Scope list_scope.
#[local] Open Scope Z_scope.

Section Sheets.
Context {Key Leaf : Type} `{CodecLaws Key Leaf}.

Definition good_cell (level : Z) (c : list Z) : Prop := bytes_ok c /\ zlen c = cell_size level.

Record sheet (born level : Z) (cells : list (list Z)) (p : list Z) (h : Header) : Prop := {
  sh_slotted : slotted p h cells;
  sh_cells : Forall (good_cell level) cells;
  sh_nonempty : cells <> [];
  sh_level : h_level h = level;
  sh_height : 0 <= level <= MAX_TREE_LEVEL;
  sh_identity : identity p (page_type_of level) born level AUX;
}.

(** [n] cells fit on a page. *)
Definition fits (level n : Z) : Prop := slot_at n + n * cell_size level <= PAGE_SIZE.

Lemma cells_total level cells : Forall (good_cell level) cells -> total cells = zlen cells * cell_size level.
Proof using Type.
  induction 1 as [|c cells [_ Hc] _ IH]; [done |]. rewrite total_cons, zlen_cons, IH, Hc. lia.
Qed.

Lemma sheet_header born level cells p h : sheet born level cells p h ->
  h_item_count h = zlen cells /\ h_lower h = slot_at (zlen cells) /\ h_upper h = PAGE_SIZE - zlen cells * cell_size level
  /\ 0 < zlen cells /\ fits level (zlen cells).
Proof using Type.
  intros Hs. pose proof (sh_slotted _ _ _ _ _ Hs) as Hp. pose proof (cells_total _ _ (sh_cells _ _ _ _ _ Hs)) as Ht.
  pose proof (sl_total _ _ _ Hp). pose proof (sl_room _ _ _ Hp). pose proof (sl_lower _ _ _ Hp). pose proof (zlen_nonneg cells).
  assert (zlen cells <> 0) by (intros ?%zlen_zero_nil; by apply (sh_nonempty _ _ _ _ _ Hs)).
  split; [apply Hp |]. split; [done |]. split; [lia |]. split; [lia |]. unfold fits. lia.
Qed.

Lemma fits_le level n m : fits level m -> n <= m -> fits level n.
Proof using Type*. unfold fits. pose proof (cell_size_range level). page_arith. nia. Qed.

Lemma fits_three level : 0 <= level -> fits level 3.
Proof using Type*. intros Hl. unfold fits, cell_size. pose proof cl_small. page_arith. destruct (level =? 0); lia. Qed.

Lemma sheet_edited born level cells p h cells' p' h' : sheet born level cells p h -> slotted p' h' cells' -> same_identity p p' ->
  h_level h' = h_level h -> cells' <> [] -> Forall (good_cell level) cells' -> sheet born level cells' p' h'.
Proof using Type.
  intros Hs Hp Hid Hl Hne Hc. split; try done; [by rewrite Hl, (sh_level _ _ _ _ _ Hs) | apply Hs |].
  eapply identity_same; [apply (sh_slotted _ _ _ _ _ Hs) | apply Hp | done | apply Hs].
Qed.

(** ** Reading *)

Lemma sheet_parse born level cells p h txn expected : sheet born level cells p h -> 0 < born <= txn ->
  match expected with Some e => e = level | None => True end -> tree_parse p txn expected = Ok h.
Proof using Type*.
  intros [Hs _ Hne Hl Hh Hid] Hb He. unfold tree_parse. eapply parse_tree_ok; try done; [exact (slotted_legible _ _ _ Hs) | apply cl_aux | lia].
Qed.

Lemma sheet_born born level cells p h : sheet born level cells p h -> born_txn (E := Error) p = Ok born.
Proof using Type.
  intros Hs. unfold born_txn. rewrite u64_le_page by (apply (sh_slotted _ _ _ _ _ Hs) || (unfold BORN_TXN, PAGE_SIZE; lia)).
  by rewrite (id_born _ _ _ _ _ (sh_identity _ _ _ _ _ Hs)).
Qed.

Lemma sheet_range born level a c b p h : sheet born level (a ++ c :: b) p h ->
  exists r, cell p h (zlen a) (cell_size level) = Ok r /\ br_bytes r = c.
Proof using Type.
  intros Hs. assert (Hc : cnth (a ++ c :: b) (zlen a) = c) by apply cnth_middle.
  assert (Hz : zlen c = cell_size level).
  { pose proof (sh_cells _ _ _ _ _ Hs) as Hall. rewrite Forall_app, Forall_cons in Hall. by destruct Hall as (_ & [_ ?] & _). }
  pose proof (zlen_nonneg a). pose proof (zlen_nonneg b).
  destruct (cell_bytes p h _ (zlen a) (sh_slotted _ _ _ _ _ Hs)) as (r & Hr & Hb); [rewrite zlen_app, zlen_cons; lia |].
  rewrite Hc, Hz in Hr. rewrite Hc in Hb. by exists r.
Qed.

Lemma sheet_cell born level a c b p h : sheet born level (a ++ c :: b) p h -> codec_cell p h (zlen a) = Ok c.
Proof using Type.
  intros Hs. destruct (sheet_range _ _ _ _ _ _ _ Hs) as (r & Hr & Hb). unfold codec_cell, leaf_cell, branch_cell.
  rewrite (sh_level _ _ _ _ _ Hs). unfold cell_size in Hr. destruct (level =? 0); rewrite Hr; cbn; by rewrite Hb.
Qed.

Lemma sheet_cnth born level cells p h i : sheet born level cells p h -> 0 <= i < zlen cells -> codec_cell p h i = Ok (cnth cells i).
Proof using Type.
  intros Hs Hi. destruct (lookup_lt_is_Some_2 cells (Z.to_nat i)) as [c Hc]; [unfold zlen in Hi; lia |].
  rewrite <- (take_drop_middle _ _ _ Hc) in Hs. apply sheet_cell in Hs.
  unfold zlen in Hs. rewrite length_take, Nat.min_l, Z2Nat.id in Hs by (unfold zlen in Hi; lia). rewrite Hs.
  unfold cnth. by rewrite (nth_lookup_Some _ _ _ _ Hc).
Qed.

(** ** One cell more, other or less *)

Lemma sheet_insert born level a c b p h : sheet born level (a ++ b) p h -> good_cell level c -> fits level (zlen (a ++ b) + 1) ->
  exists p' h', insert p h (zlen a) c = Ok (p', true) /\ sheet born level (a ++ c :: b) p' h'.
Proof using Type*.
  intros Hs [Hb Hz] Hfit. pose proof (cell_size_range level) as [Hpos _]. destruct (sheet_header _ _ _ _ _ Hs) as (_ & Hlo & Hup & _ & _).
  destruct (insert_slotted p h a b c (sh_slotted _ _ _ _ _ Hs) Hb) as (p' & E & Hs' & Hid);
    [lia | unfold fits, slot_at in *; lia |].
  eexists p', _. split; [done |]. eapply sheet_edited; [done | done | done | done | by destruct a |].
  pose proof (sh_cells _ _ _ _ _ Hs) as Hall. apply Forall_app in Hall as [? ?]. apply Forall_app_2; [done |]. by constructor.
Qed.

Lemma sheet_replace born level a old c b p h : sheet born level (a ++ old :: b) p h -> good_cell level c ->
  exists p' h', replace p h (zlen a) (zlen old) c = Ok (p', true) /\ sheet born level (a ++ c :: b) p' h'.
Proof using Type*.
  intros Hs [Hb Hz]. pose proof (cell_size_range level) as [Hpos _]. pose proof (sh_cells _ _ _ _ _ Hs) as Hall.
  rewrite Forall_app, Forall_cons in Hall. destruct Hall as (? & [_ Hold] & ?).
  destruct (replace_slotted p h a b old c (sh_slotted _ _ _ _ _ Hs) Hb) as (p' & E & Hs' & Hid);
    [lia | pose proof (sl_room _ _ _ (sh_slotted _ _ _ _ _ Hs)); lia |].
  eexists p', _. split; [done |]. eapply sheet_edited; [done | done | done | done | by destruct a |].
  apply Forall_app_2; [done |]. by constructor.
Qed.

Lemma sheet_remove born level a c b p h : sheet born level (a ++ c :: b) p h -> a ++ b <> [] ->
  exists p' h', remove_at h (zlen a) p = Ok p' /\ sheet born level (a ++ b) p' h'.
Proof using Type.
  intros Hs Hne. unfold remove_at. rewrite (sheet_cell _ _ _ _ _ _ _ Hs). cbn [mbind outcome_bind].
  destruct (remove_slotted p h a b c (sh_slotted _ _ _ _ _ Hs)) as (p' & E & Hs' & Hid).
  { pose proof (zlen_nonneg (a ++ b)). assert (zlen (a ++ b) <> 0) by (by intros ?%zlen_zero_nil). rewrite zlen_app in *. rewrite zlen_cons. lia. }
  eexists p', _. split; [done |]. eapply sheet_edited; [done | done | done | done | done |].
  pose proof (sh_cells _ _ _ _ _ Hs) as Hall. rewrite Forall_app, Forall_cons in Hall. apply Forall_app_2; tauto.
Qed.

Lemma sheet_truncate born level a b p h : sheet born level (a ++ b) p h -> a <> [] ->
  exists p' h', tree_truncate p h (zlen a) = Ok (p', h') /\ sheet born level a p' h'.
Proof using Type*.
  intros Hs Hne. pose proof (cell_size_range level) as [Hpos _]. pose proof (sh_cells _ _ _ _ _ Hs) as Hall.
  destruct (truncate_fixed_slotted p h a b (cell_size level) (sh_slotted _ _ _ _ _ Hs)) as (p' & h' & E & Hs' & Hid & Hl); try done.
  { eapply Forall_impl; [exact Hall |]. by intros c [_ ?]. }
  exists p', h'. unfold tree_truncate. rewrite (sh_level _ _ _ _ _ Hs), fixed_cell_size_eq. split; [done |].
  eapply sheet_edited; try done. by apply Forall_app in Hall as [? _].
Qed.

(** ** Building *)

Lemma cells_good level cells : Forall (good_cell level) cells -> cells_ok cells.
Proof using Type*. pose proof (cell_size_range level) as [? _]. intros Hc. eapply Forall_impl; [exact Hc |]. intros c [? ?]. split; [done | lia]. Qed.

Lemma sheet_build born level cells : 0 < born <= u64_max -> 0 <= level <= MAX_TREE_LEVEL -> Forall (good_cell level) cells ->
  cells <> [] -> fits level (zlen cells) ->
  exists p h, build_page (page_type_of level) born level AUX cells = Ok p /\ sheet born level cells p h.
Proof using Type*.
  intros Hb Hl Hc Hne Hfit. destruct (build_page_ok (page_type_of level) born level AUX cells) as (p & E & Hs & Hid).
  - unfold page_type_of. destruct cl_types. by destruct (level =? 0).
  - lia.
  - unfold MAX_TREE_LEVEL, u16_max in *. lia.
  - apply cl_aux.
  - by eapply cells_good.
  - done.
  - rewrite (cells_total _ _ Hc). done.
  - eexists p, _. split; [done |]. by split.
Qed.

Lemma push_cells_all cell_of vs : forall b index, (forall i c, vs !! i = Some c -> cell_of (index + Z.of_nat i) = Ok c) ->
  push_cells b cell_of index (length vs) = push_all b vs.
Proof using Type.
  induction vs as [|c vs IH]; intros b index Hc; [done |]. cbn [length push_cells push_all].
  pose proof (Hc 0%nat c eq_refl) as H0'. rewrite Z.add_0_r in H0'. rewrite H0'. cbn [mbind outcome_bind].
  destruct (builder_push b c) as [b' | e | t]; [| done..]. cbn [mbind outcome_bind]. apply IH.
  intros i x Hi. rewrite <- (Hc (S i) x Hi). f_equal. lia.
Qed.

Lemma sheet_build_cells born level cells p h cell_of start vs : sheet born level cells p h -> 0 < born <= u64_max ->
  (forall i c, vs !! i = Some c -> cell_of (start + Z.of_nat i) = Ok c) ->
  Forall (good_cell level) vs -> vs <> [] -> fits level (zlen vs) ->
  exists p' h', build_cells p h cell_of start (start + zlen vs) = Ok p' /\ sheet born level vs p' h'.
Proof using Type*.
  intros Hs Hb Hof Hc Hne Hfit. destruct (sheet_build born level vs Hb (sh_height _ _ _ _ _ Hs) Hc Hne Hfit) as (p' & h' & E & Hs').
  exists p', h'. split; [| done]. unfold build_cells. rewrite (sheet_born _ _ _ _ _ Hs), (sh_level _ _ _ _ _ Hs). cbn [mbind outcome_bind].
  unfold build_page in E. destruct (Builder_new (page_type_of level) born level AUX) as [b | e | t]; cbn [mbind outcome_bind] in *; [| done..].
  replace (Z.to_nat (start + zlen vs - start)) with (length vs) by (unfold zlen; lia). by rewrite (push_cells_all _ vs) by done.
Qed.

(** ** Edits that fit *)

#[global] Instance fits_dec level n : Decision (fits level n).
Proof using Type. unfold fits. apply _. Defined.

Lemma edit_fits_insert born level a b p h c : sheet born level (a ++ b) p h -> good_cell level c ->
  edit_fits p h (mkEdit (zlen a) false c) = Ok (bool_decide (fits level (zlen (a ++ b) + 1))).
Proof using Type*.
  intros Hs [_ Hz]. pose proof (cell_size_range level) as [Hpos Hmax]. destruct (sheet_header _ _ _ _ _ Hs) as (Hn & Hlo & Hup & _ & Hfit).
  pose proof (zlen_nonneg a). pose proof (zlen_nonneg b).
  unfold edit_fits. cbn [e_replace e_index e_cell]. rewrite Hn, (proj2 (Z.ltb_ge _ (zlen a))) by (rewrite zlen_app; lia). f_equal.
  unfold insert_fits, checked_sub. rewrite Hz, Hlo, Hup, (proj2 (Z.eqb_neq (cell_size level) 0)) by lia. cbn [negb andb].
  unfold fits in *. unfold slot_at in *.
  destruct (Z.leb_spec (cell_size level) (PAGE_SIZE - zlen (a ++ b) * cell_size level)) as [Hle | Hgt].
  - destruct (Z.leb_spec (HEADER_SIZE + zlen (a ++ b) * 2 + 2) (PAGE_SIZE - zlen (a ++ b) * cell_size level - cell_size level));
      [rewrite bool_decide_true by lia | rewrite bool_decide_false by lia]; done.
  - rewrite bool_decide_false; [done |]. unfold HEADER_SIZE, SIZE. pose proof (zlen_nonneg (a ++ b)). lia.
Qed.

Lemma edit_fits_replace born level a old b p h c : sheet born level (a ++ old :: b) p h -> good_cell level c ->
  edit_fits p h (mkEdit (zlen a) true c) = Ok true.
Proof using Type*.
  intros Hs [_ Hz]. pose proof (cell_size_range level) as [Hpos Hmax]. destruct (sheet_header _ _ _ _ _ Hs) as (Hn & _ & _ & _ & _).
  pose proof (zlen_nonneg a). pose proof (zlen_nonneg b). pose proof (sl_room _ _ _ (sh_slotted _ _ _ _ _ Hs)).
  pose proof (sh_cells _ _ _ _ _ Hs) as Hall. rewrite Forall_app, Forall_cons in Hall. destruct Hall as (_ & [_ Hold] & _).
  unfold edit_fits. cbn [e_replace e_index e_cell]. rewrite Hn, (proj2 (Z.leb_gt _ (zlen a))) by (rewrite zlen_app, zlen_cons; lia).
  rewrite (sheet_cell _ _ _ _ _ _ _ Hs). cbn [mbind outcome_bind]. unfold replace_fits, saturating_add.
  rewrite Hz, Hold, (proj2 (Z.eqb_neq (cell_size level) 0)) by lia. cbn [negb andb]. f_equal. apply Z.leb_le.
  case_match; [lia |]. unfold usize_max, u64_max. page_arith. lia.
Qed.

Lemma apply_edit_insert born level a b p h c : sheet born level (a ++ b) p h -> good_cell level c -> fits level (zlen (a ++ b) + 1) ->
  exists p' h', apply_edit h (mkEdit (zlen a) false c) p = Ok p' /\ sheet born level (a ++ c :: b) p' h'.
Proof using Type*.
  intros Hs Hc Hfit. destruct (sheet_insert _ _ _ _ _ _ _ Hs Hc Hfit) as (p' & h' & E & Hs'). exists p', h'. split; [| done].
  unfold apply_edit, must_fit. cbn [e_replace e_index e_cell]. by rewrite E.
Qed.

Lemma apply_edit_replace born level a old b p h c : sheet born level (a ++ old :: b) p h -> good_cell level c ->
  exists p' h', apply_edit h (mkEdit (zlen a) true c) p = Ok p' /\ sheet born level (a ++ c :: b) p' h'.
Proof using Type*.
  intros Hs Hc. destruct (sheet_replace _ _ _ _ _ _ _ _ Hs Hc) as (p' & h' & E & Hs'). exists p', h'. split; [| done].
  unfold apply_edit, must_fit. cbn [e_replace e_index e_cell]. rewrite (sheet_cell _ _ _ _ _ _ _ Hs). cbn [mbind outcome_bind]. by rewrite E.
Qed.

(** ** Replacing one cell by several *)

Lemma insert_cells_ok born level cells : 0 < born <= u64_max -> Forall (good_cell level) cells -> forall a b p h,
  sheet born level (a ++ b) p h -> fits level (zlen (a ++ b) + zlen cells) ->
  exists p' h', insert_cells level (zlen a) cells p = Ok p' /\ sheet born level (a ++ cells ++ b) p' h'.
Proof using Type*.
  intros Hb. induction 1 as [|c cells Hc _ IH]; intros a b p h Hs Hfit; [by exists p, h |]. cbn [insert_cells].
  rewrite (sheet_parse _ _ _ _ _ u64_max (Some level) Hs) by (done || lia). cbn [mbind outcome_bind].
  rewrite zlen_cons in Hfit. pose proof (zlen_nonneg cells).
  destruct (sheet_insert _ _ _ _ _ _ _ Hs Hc) as (p1 & h1 & E & Hs1); [eapply fits_le; [exact Hfit | lia] |].
  unfold must_fit. rewrite E. cbn [mbind outcome_bind].
  destruct (IH (a ++ [c]) b p1 h1) as (p' & h' & E' & Hs').
  - by rewrite <- app_assoc.
  - eapply fits_le; [exact Hfit |]. rewrite !zlen_app, zlen_cons. change (zlen []) with 0. lia.
  - exists p', h'. rewrite zlen_app in E'. rewrite <- app_assoc in Hs'. by split.
Qed.

Lemma apply_cells_ok born level a old b p h cells : 0 < born <= u64_max -> sheet born level (a ++ old :: b) p h ->
  Forall (good_cell level) cells -> cells <> [] -> fits level (zlen (a ++ cells ++ b)) ->
  exists p' h', apply_cells h (zlen a) cells p = Ok p' /\ sheet born level (a ++ cells ++ b) p' h'.
Proof using Type*.
  intros Hb Hs Hc Hne Hfit. destruct cells as [|c cells]; [done |]. apply Forall_cons in Hc as [Hc Hcs].
  unfold apply_cells. rewrite (sheet_cell _ _ _ _ _ _ _ Hs). cbn [mbind outcome_bind].
  destruct (sheet_replace _ _ _ _ _ _ _ _ Hs Hc) as (p1 & h1 & E & Hs1). unfold must_fit. rewrite E. cbn [mbind outcome_bind].
  rewrite (sh_level _ _ _ _ _ Hs). destruct (insert_cells_ok born level cells Hb Hcs (a ++ [c]) b p1 h1) as (p' & h' & E' & Hs').
  - by rewrite <- app_assoc.
  - eapply fits_le; [exact Hfit |]. zlen_simp. lia.
  - exists p', h'. rewrite zlen_app in E'. rewrite <- app_assoc in Hs'. by split.
Qed.

Lemma payload_good level cells : Forall (good_cell level) cells -> forall sum, 0 <= sum -> sum + zlen cells * cell_size level <= usize_max ->
  payload_of sum cells = Ok (sum + zlen cells * cell_size level).
Proof using Type*.
  pose proof (cell_size_range level) as [Hpos _]. induction 1 as [|c cells [_ Hc] _ IH]; intros sum H0' Hle; cbn [payload_of].
  { f_equal. change (zlen []) with 0. lia. }
  rewrite zlen_cons in *. pose proof (zlen_nonneg cells). unfold checked_add. rewrite Hc, (proj2 (Z.leb_le _ usize_max)) by nia.
  cbn [ok_or mbind outcome_bind]. rewrite IH by lia. f_equal. lia.
Qed.

Lemma replacement_fits_ok born level a old b p h cells : sheet born level (a ++ old :: b) p h ->
  Forall (good_cell level) cells -> cells <> [] -> zlen cells <= 3 ->
  replacement_fits p h (mkReplacement (zlen a) cells) = Ok (bool_decide (fits level (zlen (a ++ cells ++ b)))).
Proof using Type*.
  intros Hs Hc Hne H3. pose proof (cell_size_range level) as [Hpos Hmax]. destruct (sheet_header _ _ _ _ _ Hs) as (Hn & Hlo & Hup & _ & Hfit).
  pose proof (zlen_nonneg a). pose proof (zlen_nonneg b). pose proof (sl_room _ _ _ (sh_slotted _ _ _ _ _ Hs)) as Hroom.
  assert (0 < zlen cells) by (destruct cells; [done | rewrite zlen_cons; pose proof (zlen_nonneg cells); lia]).
  pose proof (sh_cells _ _ _ _ _ Hs) as Hall. rewrite Forall_app, Forall_cons in Hall. destruct Hall as (_ & [_ Hold] & _).
  assert (Hzs : zlen (a ++ old :: b) = zlen a + (1 + zlen b)) by (by rewrite zlen_app, zlen_cons). rewrite Hzs in *.
  unfold replacement_fits. cbn [rp_index rp_cells]. rewrite Hn, (proj2 (Z.leb_gt _ (zlen a))), bool_decide_false by (done || lia). cbn [orb].
  rewrite (sheet_cell _ _ _ _ _ _ _ Hs). cbn [mbind outcome_bind]. run (usub_ok (E := Error) _ _ Hroom).
  unfold checked_add, checked_sub, checked_mul.
  rewrite (proj2 (Z.leb_le (zlen old + (h_upper h - h_lower h)) usize_max)) by (unfold usize_max, u64_max; page_arith; lia). cbn [ok_or mbind outcome_bind].
  rewrite (payload_good level) by (done || (unfold usize_max, u64_max; page_arith; nia)). cbn [mbind outcome_bind].
  rewrite (proj2 (Z.leb_le 1 (zlen cells))) by lia. cbn [mbind option_bind].
  rewrite (proj2 (Z.leb_le ((zlen cells - 1) * 2) usize_max)) by (unfold usize_max, u64_max; lia). cbn [mbind option_bind].
  rewrite (proj2 (Z.leb_le _ usize_max)) by (unfold usize_max, u64_max; page_arith; nia). cbn [ok_or mbind outcome_bind]. f_equal.
  rewrite Hold, Hlo, Hup. unfold fits, slot_at. rewrite !zlen_app.
  match goal with |- (?x <=? ?y) = _ => destruct (Z.leb_spec x y) end; [rewrite bool_decide_true by lia | rewrite bool_decide_false by lia]; done.
Qed.

(** ** Splits *)

Lemma virtual_insert born level a b p h c i : sheet born level (a ++ b) p h -> 0 <= i < zlen (a ++ c :: b) ->
  virtual_cell p h (mkEdit (zlen a) false c) i = Ok (cnth (a ++ c :: b) i).
Proof using Type.
  intros Hs Hi. unfold virtual_cell. cbn [e_index e_cell e_replace negb]. rewrite cnth_insert by lia. rewrite zlen_app, zlen_cons in Hi.
  rewrite andb_true_r. destruct (Z.eqb_spec i (zlen a)) as [-> | Hne]; [by rewrite Z.ltb_irrefl |].
  destruct (Z.ltb_spec i (zlen a)), (Z.ltb_spec (zlen a) i); try lia;
    (eapply sheet_cnth; [exact Hs | rewrite zlen_app; pose proof (zlen_nonneg a); pose proof (zlen_nonneg b); lia]).
Qed.

Lemma replacement_virtual born level a old b p h cells i : sheet born level (a ++ old :: b) p h -> 0 <= i < zlen (a ++ cells ++ b) ->
  replacement_cell p h (mkReplacement (zlen a) cells) i = Ok (cnth (a ++ cells ++ b) i).
Proof using Type.
  intros Hs Hi. pose proof (zlen_nonneg a). pose proof (zlen_nonneg b). pose proof (zlen_nonneg cells). rewrite !zlen_app in Hi.
  unfold replacement_cell. cbn [rp_index rp_cells]. unfold checked_sub. rewrite !cnth_app by lia.
  destruct (Z.leb_spec (zlen a) i), (Z.ltb_spec i (zlen a)); try lia; cbn [mbind option_bind].
  - destruct (cells !! Z.to_nat (i - zlen a)) as [c|] eqn:Hc.
    + pose proof (lookup_lt_Some _ _ _ Hc). rewrite cnth_app by lia. rewrite (proj2 (Z.ltb_lt _ (zlen cells))) by (unfold zlen in *; lia).
      unfold cnth. by rewrite (nth_lookup_Some _ _ _ _ Hc).
    + apply lookup_ge_None in Hc. rewrite cnth_app by lia. rewrite (proj2 (Z.ltb_ge _ (zlen cells))) by (unfold zlen in *; lia).
      rewrite (proj2 (Z.leb_le _ i)) by (unfold zlen in *; lia).
      rewrite (sheet_cnth _ _ _ _ _ _ Hs) by (rewrite zlen_app, zlen_cons; unfold zlen in *; lia).
      rewrite cnth_app by (unfold zlen in *; lia). rewrite (proj2 (Z.ltb_ge _ (zlen a))) by (unfold zlen in *; lia).
      rewrite cnth_cons by (unfold zlen in *; lia). rewrite (proj2 (Z.eqb_neq _ 0)) by (unfold zlen in *; lia). do 2 f_equal. lia.
  - rewrite (proj2 (Z.leb_gt _ i)) by lia. rewrite (sheet_cnth _ _ _ _ _ _ Hs) by (rewrite zlen_app, zlen_cons; lia).
    rewrite cnth_app by lia. by rewrite (proj2 (Z.ltb_lt _ (zlen a))) by lia.
Qed.

Definition middle_of (vs : list (list Z)) : Z := zlen vs / 2.

Lemma middle_range vs : 2 <= zlen vs -> 0 < middle_of vs < zlen vs.
Proof using Type. intros. unfold middle_of. pose proof (Z.div_mod (zlen vs) 2). pose proof (Z.mod_pos_bound (zlen vs) 2). lia. Qed.

(** Both halves of a page that is one or two cells too long fit. *)
Lemma halves_fit level vs n : 0 <= level -> fits level n -> 0 < n -> zlen vs <= n + 2 -> 2 <= zlen vs ->
  fits level (middle_of vs) /\ fits level (zlen vs - middle_of vs).
Proof using Type*.
  intros Hl Hfit Hn Hle H2. unfold middle_of. pose proof (Z.div_mod (zlen vs) 2 ltac:(lia)). pose proof (Z.mod_pos_bound (zlen vs) 2 ltac:(lia)).
  assert (Hmax : zlen vs - zlen vs / 2 <= Z.max n 3) by lia. assert (Hmid : zlen vs / 2 <= zlen vs - zlen vs / 2) by lia.
  assert (Hf : fits level (Z.max n 3)) by (destruct (Z.max_spec n 3) as [[_ ->] | [_ ->]]; [by apply fits_three | done]).
  split; (eapply fits_le; [exact Hf | lia]).
Qed.

Lemma page_size_ok count payload : 0 <= count <= PAGE_SIZE -> 0 <= payload <= PAGE_SIZE -> page_size count payload = Ok (slot_at count + payload).
Proof using Type.
  intros Hc Hp. page_arith. unfold page_size, checked_mul, checked_add. page_arith.
  rewrite (proj2 (Z.leb_le (count * 2) usize_max)) by (unfold usize_max, u64_max; lia). cbn [option_bind mbind].
  rewrite (proj2 (Z.leb_le (count * 2 + 32) usize_max)) by (unfold usize_max, u64_max; lia). cbn [option_bind mbind].
  rewrite (proj2 (Z.leb_le _ usize_max)) by (unfold usize_max, u64_max; lia). cbn [ok_or]. f_equal. lia.
Qed.

Lemma fixed_split_ok level vs n : 0 <= level -> fits level n -> 0 < n -> zlen vs <= n + 2 -> 2 <= zlen vs ->
  fixed_split_index (zlen vs) (cell_size level) = Ok (middle_of vs).
Proof using Type*.
  intros Hl Hfit Hn Hle H2. destruct (halves_fit level vs n Hl Hfit Hn Hle H2) as [Hf1 Hf2]. pose proof (middle_range vs H2) as Hm.
  pose proof (cell_size_range level) as [Hpos Hmax]. unfold fixed_split_index. rewrite (proj2 (Z.ltb_ge _ 2)) by lia.
  fold (middle_of vs). unfold fits in *. page_arith. unfold checked_mul.
  rewrite (proj2 (Z.leb_le (middle_of vs * cell_size level) usize_max)) by (unfold usize_max, u64_max; nia). cbn [ok_or mbind outcome_bind].
  rewrite (proj2 (Z.leb_le ((zlen vs - middle_of vs) * cell_size level) usize_max)) by (unfold usize_max, u64_max; nia). cbn [ok_or mbind outcome_bind].
  assert (0 <= middle_of vs * cell_size level) by nia. assert (0 <= (zlen vs - middle_of vs) * cell_size level) by nia.
  rewrite page_size_ok by (page_arith; lia). cbn [mbind outcome_bind]. page_arith. rewrite (proj2 (Z.ltb_ge 4096 _)) by lia.
  rewrite page_size_ok by (page_arith; lia). cbn [mbind outcome_bind]. page_arith. by rewrite (proj2 (Z.ltb_ge 4096 _)) by nia.
Qed.

Definition left_half (vs : list (list Z)) : list (list Z) := take (Z.to_nat (middle_of vs)) vs.
Definition right_half (vs : list (list Z)) : list (list Z) := drop (Z.to_nat (middle_of vs)) vs.

Lemma halves vs : left_half vs ++ right_half vs = vs.
Proof using Type. apply take_drop. Qed.

Lemma halves_length vs : 2 <= zlen vs -> zlen (left_half vs) = middle_of vs /\ zlen (right_half vs) = zlen vs - middle_of vs
  /\ left_half vs <> [] /\ right_half vs <> [].
Proof using Type.
  intros H2. pose proof (middle_range vs H2). assert (H1' : zlen (left_half vs) = middle_of vs).
  { unfold left_half, zlen at 1. rewrite length_take. unfold zlen in *. lia. }
  assert (H2' : zlen (right_half vs) = zlen vs - middle_of vs) by (unfold right_half, zlen at 1; rewrite length_drop; unfold zlen in *; lia).
  split; [done |]. split; [done |]. split; intros He; rewrite He in *; change (zlen []) with 0 in *; lia.
Qed.

(** The right half goes to a new page. *)
Lemma build_right born level cells p h cell_of vs : sheet born level cells p h -> 0 < born <= u64_max ->
  (forall i, 0 <= i < zlen vs -> cell_of i = Ok (cnth vs i)) -> Forall (good_cell level) vs -> 2 <= zlen vs ->
  fits level (zlen vs - middle_of vs) ->
  exists p' h', build_cells p h cell_of (middle_of vs) (zlen vs) = Ok p' /\ sheet born level (right_half vs) p' h'.
Proof using Type*.
  intros Hs Hb Hof Hc H2 Hfit. destruct (halves_length vs H2) as (_ & Hr & _ & Hne). pose proof (middle_range vs H2).
  destruct (sheet_build_cells born level cells p h cell_of (middle_of vs) (right_half vs)) as (p' & h' & E & Hs'); try done.
  - intros i c Hi. unfold right_half in Hi. rewrite lookup_drop in Hi. pose proof (lookup_lt_Some _ _ _ Hi).
    rewrite Hof by (unfold zlen in *; lia). unfold cnth. rewrite (nth_lookup_Some _ (Z.to_nat (middle_of vs + Z.of_nat i)) _ c); [done |].
    rewrite <- Hi. f_equal. lia.
  - by apply Forall_drop.
  - by rewrite Hr.
  - exists p', h'. rewrite Hr in E. split; [| done]. rewrite <- E. f_equal. lia.
Qed.

Lemma take_split {A} (a b : list A) (m : Z) : zlen a <= m -> take (Z.to_nat m) (a ++ b) = a ++ take (Z.to_nat (m - zlen a)) b.
Proof using Type.
  intros Hm. rewrite take_app_ge by (unfold zlen in Hm; lia). do 2 f_equal. unfold zlen. lia.
Qed.
Lemma take_below {A} (a b : list A) (m : Z) : m <= zlen a -> take (Z.to_nat m) (a ++ b) = take (Z.to_nat m) a.
Proof using Type. intros Hm. apply take_app_le. unfold zlen in Hm. lia. Qed.
Lemma zlen_take {A} (l : list A) m : 0 <= m <= zlen l -> zlen (take (Z.to_nat m) l) = m.
Proof using Type. intros Hm. unfold zlen in *. rewrite length_take. lia. Qed.
Lemma take_nonempty {A} (l : list A) m : 0 < m <= zlen l -> take (Z.to_nat m) l <> [].
Proof using Type. intros Hm He. pose proof (zlen_take l m ltac:(lia)) as Hz. rewrite He in Hz. change (zlen []) with 0 in Hz. lia. Qed.

(** Cutting a page down to its first [m] cells. *)
Lemma sheet_prefix born level cells p h m : sheet born level cells p h -> 0 < m <= zlen cells ->
  exists p' h', tree_truncate p h m = Ok (p', h') /\ sheet born level (take (Z.to_nat m) cells) p' h'.
Proof using Type*.
  intros Hs Hm. rewrite <- (take_drop (Z.to_nat m) cells) in Hs.
  destruct (sheet_truncate _ _ _ _ _ _ Hs) as (p' & h' & E & Hs'); [by apply take_nonempty |].
  rewrite zlen_take in E by lia. by exists p', h'.
Qed.

Lemma sheet_single born level c : 0 < born <= u64_max -> 0 <= level <= MAX_TREE_LEVEL -> good_cell level c ->
  exists p h, (b ← Builder_new (page_type_of level) born level AUX; b ← builder_push b c; builder_finish b) = Ok p
    /\ sheet born level [c] p h.
Proof using Type*.
  intros Hb Hl Hc. destruct (sheet_build born level [c]) as (p & h & E & Hs); try done;
    [repeat constructor; done || apply Hc | eapply fits_le; [apply (fits_three level); lia | done] |].
  exists p, h. split; [| done]. unfold build_page in E. destruct (Builder_new _ _ _ _) as [b | |]; [| done..]. cbn [mbind outcome_bind push_all] in *.
  by destruct (builder_push b c).
Qed.

Lemma sheet_pair born level c d : 0 < born <= u64_max -> 0 <= level <= MAX_TREE_LEVEL -> good_cell level c -> good_cell level d ->
  exists p h, (b ← Builder_new (page_type_of level) born level AUX; b ← builder_push b c; b ← builder_push b d; builder_finish b) = Ok p
    /\ sheet born level [c; d] p h.
Proof using Type*.
  intros Hb Hl Hc Hd. destruct (sheet_build born level [c; d]) as (p & h & E & Hs); try done;
    [repeat constructor; done || apply Hc || apply Hd | eapply fits_le; [apply (fits_three level); lia | done] |].
  exists p, h. split; [| done]. unfold build_page in E. destruct (Builder_new _ _ _ _) as [b | |]; [| done..]. cbn [mbind outcome_bind push_all] in *.
  destruct (builder_push b c) as [b' | |]; [| done..]. cbn [mbind outcome_bind] in *. by destruct (builder_push b' d).
Qed.

Lemma keep_left_edit_ok txn level a b p h c : sheet txn level (a ++ b) p h -> 0 < txn <= u64_max -> good_cell level c ->
  fits level (middle_of (a ++ c :: b)) ->
  exists p' h', keep_left_edit txn h (mkEdit (zlen a) false c) (middle_of (a ++ c :: b)) p = Ok p'
    /\ sheet txn level (left_half (a ++ c :: b)) p' h'.
Proof using Type*.
  intros Hs Hb Hc Hfit. destruct (sheet_header _ _ _ _ _ Hs) as (_ & _ & _ & Hpos & _).
  assert (Hz : zlen (a ++ c :: b) = zlen (a ++ b) + 1) by (rewrite !zlen_app, zlen_cons; lia).
  pose proof (middle_range (a ++ c :: b) ltac:(lia)) as Hm. unfold left_half. set (m := middle_of (a ++ c :: b)) in *.
  pose proof (zlen_nonneg a). pose proof (zlen_nonneg b). assert (zlen (a ++ b) = zlen a + zlen b) by apply zlen_app.
  unfold keep_left_edit. cbn [e_index e_replace e_cell negb]. rewrite andb_true_r. destruct (Z.ltb_spec (zlen a) m) as [Hlt | Hge].
  - rewrite take_split by lia. replace (Z.to_nat (m - zlen a)) with (S (Z.to_nat (m - 1 - zlen a))) by lia. cbn [take].
    destruct (Z.eqb_spec (m - 1) 0) as [H1' | H1'].
    + rewrite (sh_level _ _ _ _ _ Hs). destruct (sheet_single txn level c Hb (sh_height _ _ _ _ _ Hs) Hc) as (p' & h' & E & Hs').
      exists p', h'. split; [done |]. assert (a = []) as -> by (apply zlen_zero_nil; lia). replace (Z.to_nat _) with 0%nat by (change (zlen []) with 0; lia). done.
    + destruct (sheet_prefix _ _ _ _ _ (m - 1) Hs) as (p1 & h1 & E & Hs1); [lia |]. rewrite E. cbn [mbind outcome_bind].
      rewrite take_split in Hs1 by lia. set (b1 := take (Z.to_nat (m - 1 - zlen a)) b) in *.
      assert (Hz1 : zlen (a ++ b1) = m - 1) by (rewrite zlen_app; unfold b1; rewrite zlen_take by lia; lia).
      apply (apply_edit_insert _ _ _ _ _ _ _ Hs1 Hc). rewrite Hz1. by replace (m - 1 + 1) with m by lia.
  - rewrite take_below, Z.sub_0_r by lia. rewrite (proj2 (Z.eqb_neq m 0)) by lia.
    destruct (sheet_prefix _ _ _ _ _ m Hs) as (p1 & h1 & E & Hs1); [lia |]. rewrite E. cbn [mbind outcome_bind].
    exists p1, h1. rewrite take_below in Hs1 by lia. by split.
Qed.

Lemma keep_left_replacement_ok born level a old b p h cells : sheet born level (a ++ old :: b) p h -> 0 < born <= u64_max ->
  Forall (good_cell level) cells -> cells <> [] -> 2 <= zlen (a ++ cells ++ b) -> fits level (middle_of (a ++ cells ++ b)) ->
  exists p' h', keep_left_replacement h (mkReplacement (zlen a) cells) (middle_of (a ++ cells ++ b)) p = Ok p'
    /\ sheet born level (left_half (a ++ cells ++ b)) p' h'.
Proof using Type*.
  intros Hs Hb Hc Hne H2 Hfit. pose proof (middle_range _ H2) as Hm. unfold left_half. set (m := middle_of (a ++ cells ++ b)) in *.
  assert (Hz : zlen (a ++ cells ++ b) = zlen a + zlen cells + zlen b) by (rewrite !zlen_app; lia).
  assert (Hzo : zlen (a ++ old :: b) = zlen a + 1 + zlen b) by (rewrite !zlen_app, zlen_cons; lia).
  pose proof (zlen_nonneg a). pose proof (zlen_nonneg b).
  assert (0 < zlen cells) by (destruct cells; [done | rewrite zlen_cons; pose proof (zlen_nonneg cells); lia]).
  unfold keep_left_replacement. cbn [rp_index rp_cells]. destruct (Z.leb_spec m (zlen a)) as [Hle | Hgt].
  { destruct (sheet_prefix _ _ _ _ _ m Hs) as (p1 & h1 & E & Hs1); [lia |]. rewrite E. cbn [mbind outcome_bind].
    exists p1, h1. rewrite take_below in * by lia. by split. }
  rewrite take_split by lia. destruct (Z.ltb_spec m (zlen a + zlen cells)) as [Hin | Hout].
  - destruct (sheet_prefix _ _ _ _ _ (zlen a + 1) Hs) as (p1 & h1 & E & Hs1); [lia |]. rewrite E. cbn [mbind outcome_bind].
    rewrite take_split in Hs1 by lia. replace (Z.to_nat (zlen a + 1 - zlen a)) with 1%nat in Hs1 by lia. cbn [take] in Hs1.
    rewrite take_below by lia. set (cs := take (Z.to_nat (m - zlen a)) cells) in *. rewrite take_0 in Hs1.
    assert (Hzc : zlen cs = m - zlen a) by (apply zlen_take; lia).
    destruct (apply_cells_ok born level a old [] p1 h1 cs Hb Hs1) as (p' & h' & E' & Hs');
      [by apply Forall_take | apply take_nonempty; lia | rewrite app_nil_r, zlen_app, Hzc; by replace (zlen a + (m - zlen a)) with m by lia |].
    exists p', h'. split; [done |]. by rewrite app_nil_r in Hs'.
  - destruct (sheet_prefix _ _ _ _ _ (m - (zlen cells - 1)) Hs) as (p1 & h1 & E & Hs1); [lia |]. rewrite E. cbn [mbind outcome_bind].
    rewrite take_split in Hs1 by lia. rewrite take_split by lia. set (j := m - zlen a - zlen cells).
    replace (Z.to_nat (m - (zlen cells - 1) - zlen a)) with (S (Z.to_nat j)) in Hs1 by lia. cbn [take] in Hs1.
    assert (Hzb : zlen (take (Z.to_nat j) b) = j) by (apply zlen_take; lia).
    apply (apply_cells_ok born level a old _ p1 h1 cells Hb Hs1 Hc Hne).
    rewrite !zlen_app, Hzb. by replace (zlen a + (zlen cells + j)) with m by lia.
Qed.

(** ** Branch cells *)

Definition fence (key : Key) (child : Z) : list Z := fence_bytes key ++ le_bytes 4 child.

Lemma fence_good level key child : level <> 0 -> valid_key key -> good_cell level (fence key child).
Proof using Type*.
  intros Hl Hk. destruct (cl_fence_bytes key Hk) as [Hb Hz]. unfold good_cell, fence, cell_size. rewrite (proj2 (Z.eqb_neq level 0) Hl).
  split; [apply Forall_app_2; [done | apply le_bytes_ok] | rewrite zlen_app, zlen_le_bytes; lia].
Qed.

(** A branch cell in a buffer that has the room for it. *)
Lemma write_branch_ok key child buf : valid_key key -> KEY_SIZE + 4 <= zlen buf ->
  exists bytes, write_branch key child buf = Ok (KEY_SIZE + 4, bytes) /\ sub bytes 0 (KEY_SIZE + 4) = fence key child.
Proof using Type*.
  intros Hk Hbuf. destruct (cl_fence_bytes key Hk) as [_ Hz]. pose proof cl_sizes as (Hpos & _).
  unfold write_branch. rewrite (proj2 (Z.ltb_ge (zlen buf) _)) by lia. rewrite (cl_write_key key) by (done || (apply zlen_sub; lia)). cbn [mbind outcome_bind].
  eexists. split; [done |]. set (b1 := splice buf 0 (fence_bytes key)). assert (Hb1 : zlen b1 = zlen buf) by (unfold b1; rewrite zlen_splice; lia).
  assert (Hb2 : zlen (splice b1 KEY_SIZE (le_bytes 4 child)) = zlen buf) by (rewrite zlen_splice; rewrite ?zlen_le_bytes; lia).
  unfold fence. rewrite (sub_split _ 0 KEY_SIZE 4) by lia. f_equal.
  - rewrite sub_splice_other by (rewrite ?zlen_le_bytes; lia). unfold b1. rewrite <- Hz. apply sub_splice_same; lia.
  - rewrite Z.add_0_l. apply (sub_splice_same b1 KEY_SIZE (le_bytes 4 child)); rewrite ?zlen_le_bytes; lia.
Qed.

Lemma branch_buf_ok key child : valid_key key -> branch_buf key child = Ok (fence key child).
Proof using Type*.
  intros Hk. pose proof cl_small as (_ & _ & Hs). pose proof cl_sizes as (Hpos & _ & _ & _ & Hmb & _).
  destruct (write_branch_ok key child (replicate (Z.to_nat MAX_TREE_CELL) 0) Hk) as (bytes & E & Hf);
    [rewrite zlen_replicate; unfold MAX_TREE_CELL in *; lia |].
  unfold branch_buf. rewrite E. cbn [mbind outcome_bind]. rewrite Hmb, (proj2 (Z.eqb_neq (KEY_SIZE + 4) 0)), Z.ltb_irrefl by lia. cbn [orb]. by rewrite Hf.
Qed.
End Sheets.
