(* ===== verification/TreeStore.v ===== *)
(** * What a store promises to the trees it holds

    A client of a store owns a set of its pages.  [serves s h k]: the store
    keeps the pages [h] for its clients, byte for byte, and can allocate [k]
    more.  Reading a page answers its bytes; updating one of the transaction's
    own pages changes that page only (up to the tag the store keeps in the
    checksum field); a new page is none of [h]; a page given back is forgotten.
    The laws name no page outside [h], so whatever else a client owns is
    untouched by an operation on a part of it. *)

From stdpp Require Import base tactics numbers list strings gmap sorting.
From Stdlib Require Import ZArith Lia.
From S2P Require Import Prelude Errors Bytes Codec TreeInterface PageHeader SlottedPage SlottedFacts SlottedTheorems Checksum Machine Draft Store TreePage.
From S2P Require Import TreeQuery TreeCursor TreeMutation TreeFacts TreePageFacts.

#[local] Open Scope string_scope.
#[local] Open Scope list_scope.
#[local] Open Scope Z_scope.

Notation Pages := (gmap Z (list Z)).

(** [p'] is [p] with some tag in the checksum field. *)
Definition retagged (p p' : list Z) : Prop := exists tag, put_u32 p OFFSET tag = Ok p'.

Definition same_bounds {S} `{PageStore S} (s s' : S) : Prop := target_txn s' = target_txn s /\ page_limit s' = page_limit s.

Class StoreLaws (S : Type) `{Store S} := {
  serves : S -> Pages -> nat -> Prop;
  writable : Z -> list Z -> Prop;
  sv_txn s h k : serves s h k -> 0 < target_txn s <= u64_max;
  sv_page s h k n p : serves s h k -> h !! n = Some p -> 2 <= n < page_limit s /\ n <= u32_max /\ page_ok p;
  sv_weaken s h k : serves s h (Datatypes.S k) -> serves s h k;
  sv_owned s h k n p : serves s h k -> h !! n = Some p -> owned_by (E := Error) p (target_txn s) = Ok true -> writable (target_txn s) p;
  sv_inspect s h k n p A (f : list Z -> Result A) : serves s h k -> h !! n = Some p -> inspect_page n f s = (s, f p);
  sv_update s h k n p A (f : io (list Z) A) p' a : serves s h k -> h !! n = Some p -> writable (target_txn s) p ->
    f p = (p', Ok a) -> page_ok p' -> owned_by (E := Error) p' (target_txn s) = Ok true ->
    exists s' p'', update_page n f s = (s', Ok a) /\ retagged p' p'' /\ serves s' (<[n := p'']> h) k /\ same_bounds s s';
  sv_copy s h k n m p q A (f : list Z -> io (list Z) A) q' a : serves s h k -> n <> m -> h !! n = Some p -> h !! m = Some q ->
    writable (target_txn s) q -> f p q = (q', Ok a) -> page_ok q' -> owned_by (E := Error) q' (target_txn s) = Ok true ->
    exists s' q'', copy_page n m f s = (s', Ok a) /\ retagged q' q'' /\ serves s' (<[m := q'']> h) k /\ same_bounds s s';
  sv_allocate s h k : serves s h (Datatypes.S k) ->
    exists s' n q, allocate s = (s', Ok n) /\ h !! n = None /\ writable (target_txn s) q /\ serves s' (<[n := q]> h) k
      /\ target_txn s' = target_txn s /\ page_limit s <= page_limit s';
  sv_discard s h k n p : serves s h k -> h !! n = Some p -> owned_by (E := Error) p (target_txn s) = Ok true ->
    exists s', discard_private n s = (s', Ok tt) /\ serves s' (delete n h) k /\ same_bounds s s';
}.

(** ** Sheets and tags *)

Section Tags.
Context {Key Leaf : Type} `{CodecLaws Key Leaf}.

Lemma put_u32_wrote p a v p' : page_ok p -> 0 <= a -> a + 4 <= PAGE_SIZE -> put_u32 p a v = Ok p' -> wrote p a (le_bytes 4 v) p'.
Proof using Type.
  intros Hp Ha Hl E. rewrite (put_u32_ok p a v Ha Hl) in E. assert (p' = splice p a (le_bytes 4 v)) as -> by congruence.
  apply splice_wrote; [done | apply le_bytes_ok | done | rewrite zlen_le_bytes; lia].
Qed.

Lemma put_u64_wrote p a v : page_ok p -> 0 <= a -> a + 8 <= PAGE_SIZE -> exists p', put_u64 p a v = Ok p' /\ wrote p a (le_bytes 8 v) p'.
Proof using Type.
  intros Hp Ha Hl. eexists. split; [by apply put_u64_ok |].
  apply splice_wrote; [done | apply le_bytes_ok | done | rewrite zlen_le_bytes; lia].
Qed.

(** The cells and the header of a page do not depend on what stands in the
    birth and checksum fields. *)
Lemma slotted_fields p p' h cells : slotted p h cells -> page_ok p' -> agree p p' 16 24 -> agree p p' HEADER_SIZE PAGE_SIZE -> slotted p' h cells.
Proof using Type.
  intros Hs Hp' Ah Ab. pose proof (slot_bound _ _ _ Hs) as (Hb1 & Hb2 & Hb3). pose proof (sl_page _ _ _ Hs) as Hp.
  pose proof (sl_lower _ _ _ Hs) as Hlo. pose proof (sl_room _ _ _ Hs) as Hroom.
  assert (Hst : forall i, 0 <= i < zlen cells -> start p' i = start p i).
  { intros i Hi. apply (agree_u16 _ _ _ _ _ Ab); page_arith; done || lia. }
  split; try done; try apply Hs.
  - rewrite <- (sl_header _ _ _ Hs). unfold header_of. f_equal; apply (agree_u16 _ _ _ _ _ Ah); page_arith; done || lia.
  - intros i Hi. destruct (sl_cell _ _ _ Hs i Hi) as (H1' & H2' & H3' & H4'). rewrite (Hst i Hi). do 3 (split; [done |]).
    rewrite (agree_sub _ _ _ _ _ _ Ab); (done || page_arith; lia).
  - intros i j Hi Hj Hne. rewrite !Hst by done. by apply (sl_disjoint _ _ _ Hs).
  - intros a Ha. rewrite Ab by (page_arith; lia). by apply (sl_gap _ _ _ Hs).
Qed.

Lemma identity_fields p p' ty born lvl aux born' : identity p ty born lvl aux -> page_ok p -> page_ok p' ->
  agree p p' 0 8 -> agree p p' 16 28 -> u64_at p' BORN_TXN = born' -> identity p' ty born' lvl aux.
Proof using Type.
  intros [M T F Sz B L A] Hp Hp' A1 A2 Hb. split; try done.
  - rewrite (agree_sub _ _ _ _ _ _ A1); (done || page_arith; lia).
  - rewrite (A1 TYPE); [done | unfold TYPE; lia].
  - rewrite (A1 FLAGS); [done | unfold FLAGS; lia].
  - rewrite (agree_u16 _ _ _ _ _ A1); (done || unfold HEADER_BYTES; page_arith; lia).
  - rewrite (agree_u16 _ _ _ _ _ A2); (done || page_arith; lia).
  - unfold u32_at in *. rewrite (agree_sub _ _ _ _ _ _ A2); (done || unfold AUX_AT; page_arith; lia).
Qed.

Lemma sheet_fields born level cells p h p' born' : sheet born level cells p h -> page_ok p' ->
  agree p p' 0 8 -> agree p p' 16 28 -> agree p p' HEADER_SIZE PAGE_SIZE -> u64_at p' BORN_TXN = born' -> sheet born' level cells p' h.
Proof using Type.
  intros [Hs Hc Hne Hl Hh Hid] Hp' A1 A2 A3 Hb. split; try done.
  - apply (slotted_fields p); try done. eapply agree_narrow; [exact A2 | lia | lia].
  - eapply identity_fields; try done. apply Hs.
Qed.

Lemma sheet_retagged born level cells p h p' : sheet born level cells p h -> retagged p p' -> sheet born level cells p' h.
Proof using Type.
  intros Hs (tag & E). pose proof (sl_page _ _ _ (sh_slotted _ _ _ _ _ Hs)) as Hp.
  pose proof (put_u32_wrote p OFFSET tag p' Hp ltac:(done) ltac:(done) E) as W.
  assert (Hb : forall a, 0 <= a < 28 \/ 32 <= a < PAGE_SIZE -> bget p' a = bget p a).
  { intros a Ha. eapply wrote_frame_byte; [exact W | page_arith; lia | rewrite zlen_le_bytes; unfold OFFSET; lia]. }
  eapply sheet_fields; [exact Hs | apply (wrote_ok _ _ _ _ W) | intros a Ha; apply Hb; lia | intros a Ha; apply Hb; lia
                       | intros a Ha; apply Hb; page_arith; lia |].
  rewrite <- (id_born _ _ _ _ _ (sh_identity _ _ _ _ _ Hs)). unfold u64_at. f_equal.
  apply (agree_sub _ _ 0 28); [intros a Ha; apply Hb; lia | done | apply (wrote_ok _ _ _ _ W) | unfold BORN_TXN; page_arith; lia..].
Qed.

Lemma sheet_owned txn level cells p h : sheet txn level cells p h -> owned_by (E := Error) p txn = Ok true.
Proof using Type.
  intros Hs. unfold owned_by, has_magic. pose proof (sl_page _ _ _ (sh_slotted _ _ _ _ _ Hs)) as [Hz _].
  rewrite u32_source_page by (done || (unfold MAGIC, PAGE_SIZE; lia)). unfold u32_at, MAGIC.
  rewrite (id_magic _ _ _ _ _ (sh_identity _ _ _ _ _ Hs)). rewrite bool_decide_true by done.
  rewrite (sheet_born _ _ _ _ _ Hs). cbn [mbind outcome_bind]. by rewrite Z.eqb_refl.
Qed.

(** A copy for writing: the same page, born in the transaction. *)
Lemma cow_page txn born level cells p h q : sheet born level cells p h -> page_ok q -> 0 <= txn <= u64_max ->
  exists q', (_ ← put (fun output => page_write_source output 0 p);
              _ ← put (fun output => put_u64 output BORN_TXN txn);
              put clear) q = (q', Ok tt) /\ sheet txn level cells q' h.
Proof using Type.
  intros Hs Hq Htxn. pose proof (sl_page _ _ _ (sh_slotted _ _ _ _ _ Hs)) as Hp. pose proof Hp as [Hz Hok].
  destruct (write_source_wrote q 0 p Hq Hok) as (q1 & E1 & W1); [lia | lia |].
  destruct (put_u64_wrote q1 BORN_TXN txn) as (q2 & E2 & W2); [eauto with v4 | unfold BORN_TXN; page_arith; lia.. |].
  assert (Hq2 : page_ok q2) by eauto with v4.
  pose proof (put_u32_ok q2 OFFSET 0 ltac:(done) ltac:(done)) as E3.
  pose proof (put_u32_wrote q2 OFFSET 0 _ Hq2 ltac:(done) ltac:(done) E3) as W3.
  eexists. split; [unfold put, mbind, io_bind; rewrite E1, E2; unfold clear; by rewrite E3 |].
  assert (Hb : forall a, 0 <= a < 8 \/ 16 <= a < 28 \/ 32 <= a < PAGE_SIZE -> bget (splice q2 OFFSET (le_bytes 4 0)) a = bget p a).
  { intros a Ha. rewrite (wrote_frame_byte _ _ _ _ a W3), (wrote_frame_byte _ _ _ _ a W2);
      [| rewrite ?zlen_le_bytes; unfold OFFSET, BORN_TXN; page_arith; lia ..].
    destruct W1 as [_ W1]. rewrite W1 by (page_arith; lia). rewrite Hz, (proj2 (Z.leb_le 0 a)), (proj2 (Z.ltb_lt a _)) by (page_arith; lia).
    cbn [andb]. f_equal. lia. }
  eapply sheet_fields; [exact Hs | apply (wrote_ok _ _ _ _ W3) | intros a Ha; apply Hb; lia | intros a Ha; apply Hb; lia
                       | intros a Ha; apply Hb; page_arith; lia |].
  unfold u64_at. rewrite (wrote_frame _ _ _ _ _ _ W3) by (eauto with v4 || (unfold OFFSET, BORN_TXN; page_arith; lia)).
  apply (wrote_field _ _ 8 _ _ W2); unfold BORN_TXN; page_arith; unfold u64_max in *; lia.
Qed.
End Tags.

(** ** Steps of a mutation *)

(** A call of known outcome, at the head of a sequence. *)
Ltac step E := rewrite (bind_ok _ _ _ _ _ E).

Section Steps.
Context {Key Leaf : Type} `{CodecLaws Key Leaf} {S : Type} `{StoreLaws S}.
Implicit Types t : Tree S.

Definition owns (t : Tree S) (h : Pages) (k : nat) (txn : Z) : Prop := serves (tr_store t) h k /\ target_txn (tr_store t) = txn.
Definition quiet (t t' : Tree S) : Prop := tr_root t' = tr_root t /\ tr_retired t' = tr_retired t.

Definition with_store (s : S) (t : Tree S) : Tree S := mkTree s (tr_root t) (tr_retired t).

Lemma lift_bind {A B} (a : A) (f : A -> tio B) t : (lift (Ok a) ≫= f) t = f a t.
Proof using Type. done. Qed.
Lemma gets_bind {A B} (g : Tree S -> A) (f : A -> tio B) t : (gets g ≫= f) t = f (g t) t.
Proof using Type. done. Qed.
Lemma fail_if_bind {B} c e (f : unit -> tio B) t : c = false -> (fail_if c e ≫= f) t = f tt t.
Proof using Type. by intros ->. Qed.

Lemma quiet_refl t : quiet t t.
Proof using Type. done. Qed.
Lemma quiet_trans t t1 t2 : quiet t t1 -> quiet t1 t2 -> quiet t t2.
Proof using Type. intros [? ?] [? ?]. split; congruence. Qed.
Lemma quiet_store s t : quiet t (with_store s t).
Proof using Type. done. Qed.

Lemma on_store_run {A} (m : io S A) t s' r : m (tr_store t) = (s', r) -> on_store m t = (with_store s' t, r).
Proof using Type. unfold on_store, zoom. by intros ->. Qed.

Lemma owns_weaken t h k txn : owns t h (Datatypes.S k) txn -> owns t h k txn.
Proof using Type*. intros [? ?]. split; [by apply sv_weaken | done]. Qed.
Lemma owns_less t h k j txn : owns t h k txn -> (j <= k)%nat -> owns t h j txn.
Proof using Type*. intros Ho Hle. induction Hle as [|k Hle IH]; [done |]. by apply IH, owns_weaken. Qed.
Lemma owns_txn t h k txn : owns t h k txn -> 0 < txn <= u64_max.
Proof using Type*. intros [Hs <-]. by eapply sv_txn. Qed.
Lemma owns_page t h k txn n p : owns t h k txn -> h !! n = Some p ->
  2 <= n < page_limit (tr_store t) /\ n <= u32_max /\ page_ok p.
Proof using Type*. intros [Hs _]. by eapply sv_page. Qed.

Lemma look_ok {A} t h k txn n p (f : Z -> Z -> list Z -> Result A) : owns t h k txn -> h !! n = Some p ->
  look n f t = (t, f txn (page_limit (tr_store t)) p).
Proof using Type*.
  intros [Hs <-] Hn. unfold look, mbind, io_bind, gets. unfold on_store, zoom. rewrite (sv_inspect _ _ _ _ _ _ _ Hs Hn). by destruct t.
Qed.

Lemma inspect_ok {A} t h k txn n p (f : list Z -> Result A) : owns t h k txn -> h !! n = Some p ->
  on_store (inspect_page n f) t = (t, f p).
Proof using Type*.
  intros [Hs <-] Hn. unfold on_store, zoom. rewrite (sv_inspect _ _ _ _ _ _ _ Hs Hn). by destruct t.
Qed.

Lemma allocate_ok t h k txn : owns t h (Datatypes.S k) txn ->
  exists t' n q, on_store allocate t = (t', Ok n) /\ h !! n = None /\ writable txn q /\ page_ok q
    /\ owns t' (<[n := q]> h) k txn /\ quiet t t'.
Proof using Type*.
  intros [Hs Ht]. destruct (sv_allocate _ _ _ Hs) as (s' & n & q & E & Hn & Hw & Hs' & Ht' & _).
  exists (with_store s' t), n, q. split; [by apply on_store_run |]. rewrite Ht in *. do 2 (split; [done |]).
  split; [by eapply (sv_page _ _ _ _ _ Hs'), lookup_insert_eq |]. by repeat split.
Qed.

(** Writing a page of the tree over a page of the transaction. *)
Lemma fill_ok t h k txn n p (f : list Z -> Result (list Z)) p' level cells hd : owns t h k txn -> h !! n = Some p -> writable txn p ->
  f p = Ok p' -> sheet txn level cells p' hd ->
  exists t' p'', on_store (update_page n (put f)) t = (t', Ok tt) /\ sheet txn level cells p'' hd
    /\ owns t' (<[n := p'']> h) k txn /\ quiet t t'.
Proof using Type*.
  intros [Hs Ht] Hn Hw Hf Hp'. rewrite <- Ht in *.
  destruct (sv_update _ _ _ _ _ unit (put f) p' tt Hs Hn Hw) as (s' & p'' & E & Hr & Hs' & Hb & _);
    [unfold put; by rewrite Hf | apply (sh_slotted _ _ _ _ _ Hp') | by eapply sheet_owned |].
  exists (with_store s' t), p''. split; [by apply on_store_run |]. split; [by eapply sheet_retagged |]. by repeat split.
Qed.

Lemma paint_ok t h k txn n p (f : list Z -> Result (list Z)) p' level0 cells0 hd0 level cells hd : owns t h k txn -> h !! n = Some p ->
  sheet txn level0 cells0 p hd0 -> f p = Ok p' -> sheet txn level cells p' hd ->
  exists t' p'', on_store (update_page n (put f)) t = (t', Ok tt) /\ sheet txn level cells p'' hd
    /\ owns t' (<[n := p'']> h) k txn /\ quiet t t'.
Proof using Type*.
  intros Ho Hn Hp Hf Hp'. apply (fill_ok t h k txn n p f p'); try done. destruct Ho as [Hs <-].
  eapply sv_owned; [done | done | by eapply sheet_owned].
Qed.

Lemma copy_ok t h k txn n m p q (f : list Z -> io (list Z) unit) q' level cells hd : owns t h k txn -> n <> m -> h !! n = Some p ->
  h !! m = Some q -> writable txn q -> f p q = (q', Ok tt) -> sheet txn level cells q' hd ->
  exists t' q'', on_store (copy_page n m f) t = (t', Ok tt) /\ sheet txn level cells q'' hd
    /\ owns t' (<[m := q'']> h) k txn /\ quiet t t'.
Proof using Type*.
  intros [Hs Ht] Hne Hn Hm Hw Hf Hq'. rewrite <- Ht in *.
  destruct (sv_copy _ _ _ _ _ _ _ unit f q' tt Hs Hne Hn Hm Hw Hf) as (s' & q'' & E & Hr & Hs' & Hb & _);
    [apply (sh_slotted _ _ _ _ _ Hq') | by eapply sheet_owned |].
  exists (with_store s' t), q''. split; [by apply on_store_run |]. split; [by eapply sheet_retagged |]. by repeat split.
Qed.

Lemma discard_ok t h k txn n p level cells hd : owns t h k txn -> h !! n = Some p -> sheet txn level cells p hd ->
  exists t', on_store (discard_private n) t = (t', Ok tt) /\ owns t' (delete n h) k txn /\ quiet t t'.
Proof using Type*.
  intros [Hs Ht] Hn Hp. rewrite <- Ht in *.
  destruct (sv_discard _ _ _ _ _ Hs Hn) as (s' & E & Hs' & Hb & _); [by eapply sheet_owned |].
  exists (with_store s' t). split; [by apply on_store_run |]. by repeat split.
Qed.

(** The first key of a page. *)
Lemma first_key_ok t h k txn n p born level c cells hd key : owns t h k txn -> h !! n = Some p -> sheet born level (c :: cells) p hd ->
  0 < born <= txn -> read_key c level = Ok key -> first_key n level t = (t, Ok key).
Proof using Type*.
  intros Ho Hn Hp Hb Hk. unfold first_key. rewrite (look_ok _ _ _ _ _ _ _ Ho Hn). f_equal.
  rewrite (sheet_parse _ _ _ _ _ txn (Some level) Hp Hb eq_refl). cbn [mbind outcome_bind]. unfold key_at.
  pose proof (sheet_cell _ _ [] _ _ _ _ Hp) as Hc. change (zlen []) with 0 in Hc. rewrite Hc. cbn [mbind outcome_bind].
  by rewrite (sh_level _ _ _ _ _ Hp).
Qed.

(** Copying a page for writing. *)
Lemma touch_ok t h k txn n p born level cells hd : owns t h (Datatypes.S k) txn -> h !! n = Some p -> sheet born level cells p hd ->
  zlen (tr_retired t) <= MAX_PATH ->
  exists t' a q, touch n t = (t', Ok a) /\ h !! a = None /\ sheet txn level cells q hd /\ owns t' (<[a := q]> h) k txn
    /\ tr_root t' = tr_root t /\ tr_retired t' = tr_retired t ++ [n].
Proof using Type*.
  intros Ho Hn Hp Hr. pose proof (owns_txn _ _ _ _ Ho) as Htxn.
  destruct (allocate_ok _ _ _ _ Ho) as (t1 & a & q0 & E1 & Ha & Hw & Hq0 & Ho1 & [Hq1a Hq1b]).
  assert (Hne : n <> a) by congruence.
  destruct (cow_page txn born level cells p hd q0 Hp Hq0) as (q1 & Eq & Hs1); [lia |].
  destruct (copy_ok t1 (<[a := q0]> h) k txn n a p q0 (fun source =>
      _ ← put (fun output => page_write_source output 0 source); _ ← put (fun output => put_u64 output BORN_TXN txn); put clear)
      q1 level cells hd Ho1 Hne) as (t2 & q2 & E2 & Hs2 & Ho2 & [Hq2a Hq2b]); try done.
  { by rewrite lookup_insert_ne. } { by apply lookup_insert_eq. }
  assert (E2' : on_store (copy_for_cow n a) t1 = (t2, Ok tt)).
  { rewrite <- E2. unfold copy_for_cow. unfold on_store, zoom, mbind at 1, io_bind at 1, gets. by rewrite (proj2 Ho1). }
  rewrite insert_insert_eq in Ho2. unfold touch. step E1. step E2'. unfold retire_one_page, zoom, mbind, io_bind, retired_push.
  rewrite Hq2b, Hq1b. rewrite (proj2 (Z.ltb_lt _ (MAX_PATH + 1))) by lia.
  eexists _, a, q2. split; [done |]. cbn [tr_root tr_retired]. do 2 (split; [done |]). split; [exact Ho2 |].
  split; [congruence | done].
Qed.
End Steps.

(** ** The pages of a tree

    A [shape] is a tree with the page of every node; [stands h txn level t]
    says that the pages [h] hold it.  A [crumb] is a branch page with one child
    cut out, a list of crumbs the context of a subtree, deepest first, as the
    path of a mutation is; [hung] says that the pages of a context hold it, its
    hole labelled with the child and the first key that the pages still name
    there. *)

Section Shapes.
Context {Key Leaf : Type} `{CodecLaws Key Leaf}.

Inductive shape :=
| Twig (n : Z) (es : list Leaf)
| Bough (n : Z) (kids : list shape).

Definition root_of (t : shape) : Z := match t with Twig n _ => n | Bough n _ => n end.
Definition reroot (n : Z) (t : shape) : shape := match t with Twig _ es => Twig n es | Bough _ kids => Bough n kids end.
Fixpoint recs (t : shape) : list Leaf := match t with Twig _ es => es | Bough _ kids => concat (map recs kids) end.
Fixpoint pages (t : shape) : list Z := match t with Twig n _ => [n] | Bough n kids => n :: concat (map pages kids) end.
Definition grove_recs (ts : list shape) : list Leaf := concat (map recs ts).
Definition grove_pages (ts : list shape) : list Z := concat (map pages ts).

(** The branch cell that leads to a subtree. *)
Definition cell_of (t : shape) : list Z :=
  match recs t with e :: _ => fence (leaf_key e) (root_of t) | [] => [] end.
Definition first_is (t : shape) (key : Key) : Prop := exists e rest, recs t = e :: rest /\ key = leaf_key e.

Definition page_at (h : Pages) (txn level n : Z) (cells : list (list Z)) : Prop :=
  exists p hd born, h !! n = Some p /\ sheet born level cells p hd /\ 0 < born <= txn.
Definition private_at (h : Pages) (txn level n : Z) (cells : list (list Z)) : Prop :=
  exists p hd, h !! n = Some p /\ sheet txn level cells p hd.

Fixpoint stands (h : Pages) (txn : Z) (level : nat) (t : shape) : Prop :=
  match level, t with
  | O, Twig n es => page_at h txn 0 n (leaf_bytes <$> es) /\ Forall valid_leaf es
  | S l, Bough n kids => page_at h txn (Z.of_nat (S l)) n (cell_of <$> kids) /\ Forall (stands h txn l) kids
  | _, _ => False
  end.

(** ** Contexts *)

Record crumb := mkCrumb { cr_page : Z; cr_left : list shape; cr_right : list shape }.

Fixpoint plug (ctx : list crumb) (t : shape) : shape :=
  match ctx with [] => t | c :: rest => plug rest (Bough (cr_page c) (cr_left c ++ t :: cr_right c)) end.

(** The first key below a crumb whose hole starts with [key]. *)
Definition lead (ls : list shape) (key : Key) : Key :=
  match grove_recs ls with e :: _ => leaf_key e | [] => key end.

Fixpoint hung (h : Pages) (txn : Z) (level : nat) (ctx : list crumb) (child : Z) (key : Key) : Prop :=
  match ctx with
  | [] => True
  | c :: rest =>
      private_at h txn (Z.of_nat (S level)) (cr_page c) ((cell_of <$> cr_left c) ++ fence key child :: (cell_of <$> cr_right c))
      /\ Forall (stands h txn level) (cr_left c) /\ Forall (stands h txn level) (cr_right c)
      /\ hung h txn (S level) rest (cr_page c) (lead (cr_left c) key)
  end.

Fixpoint ctx_pages (ctx : list crumb) : list Z :=
  match ctx with [] => [] | c :: rest => cr_page c :: grove_pages (cr_left c) ++ grove_pages (cr_right c) ++ ctx_pages rest end.
Fixpoint ctx_before (ctx : list crumb) : list Leaf :=
  match ctx with [] => [] | c :: rest => ctx_before rest ++ grove_recs (cr_left c) end.
Fixpoint ctx_after (ctx : list crumb) : list Leaf :=
  match ctx with [] => [] | c :: rest => grove_recs (cr_right c) ++ ctx_after rest end.

(** The frame of a path at a crumb; its item count is not used upward. *)
Definition frame_at (f : TFrame) (c : crumb) : Prop := tf_page_number f = cr_page c /\ tf_index f = zlen (cr_left c).

(** ** Lists of subtrees *)

Lemma grove_recs_app a b : grove_recs (a ++ b) = grove_recs a ++ grove_recs b.
Proof using Type. unfold grove_recs. by rewrite map_app, concat_app. Qed.
Lemma grove_recs_cons t b : grove_recs (t :: b) = recs t ++ grove_recs b.
Proof using Type. done. Qed.
Lemma grove_pages_app a b : grove_pages (a ++ b) = grove_pages a ++ grove_pages b.
Proof using Type. unfold grove_pages. by rewrite map_app, concat_app. Qed.
Lemma grove_pages_cons t b : grove_pages (t :: b) = pages t ++ grove_pages b.
Proof using Type. done. Qed.
Lemma elem_of_grove_pages m ts : m ∈ grove_pages ts <-> exists t, t ∈ ts /\ m ∈ pages t.
Proof using Type.
  induction ts as [|t ts IH]; [rewrite elem_of_nil; split; [done |]; intros (t & Ht & _); by apply elem_of_nil in Ht |].
  rewrite grove_pages_cons, elem_of_app, IH. setoid_rewrite elem_of_cons. split.
  - intros [Hm | (x & Hx & Hm)]; [by exists t; auto | by exists x; auto].
  - intros (x & [-> | Hx] & Hm); [by left | right; eauto].
Qed.

Lemma root_in_pages t : root_of t ∈ pages t.
Proof using Type. destruct t; cbn; constructor. Qed.

Lemma plug_recs ctx : forall t, recs (plug ctx t) = ctx_before ctx ++ recs t ++ ctx_after ctx.
Proof using Type.
  induction ctx as [|c ctx IH]; intros t; cbn [plug ctx_before ctx_after]; [by rewrite app_nil_r |]. rewrite IH. cbn [recs].
  fold (grove_recs (cr_left c ++ t :: cr_right c)). rewrite grove_recs_app, grove_recs_cons, <- !app_assoc. done.
Qed.

Lemma plug_pages ctx : forall t, pages (plug ctx t) ≡ₚ ctx_pages ctx ++ pages t.
Proof using Type.
  induction ctx as [|c ctx IH]; intros t; cbn [plug ctx_pages]; [done |]. rewrite IH. cbn [pages].
  fold (grove_pages (cr_left c ++ t :: cr_right c)). rewrite grove_pages_app, grove_pages_cons. solve_Permutation.
Qed.

Lemma plug_app a b t : plug (a ++ b) t = plug b (plug a t).
Proof using Type. revert t. induction a as [|c a IH]; intros t; [done |]. apply IH. Qed.

(** ** The records of a tree that stands *)

Lemma private_page_at h txn level n cells : 0 < txn -> private_at h txn level n cells -> page_at h txn level n cells.
Proof using Type. intros Ht (p & hd & Hp & Hs). exists p, hd, txn. split; [done |]. split; [done | lia]. Qed.

Lemma stands_valid h txn level : forall t, stands h txn level t -> recs t <> [] /\ Forall valid_leaf (recs t).
Proof using Type*.
  induction level as [|l IH]; intros [n es | n kids] Ht; try done; cbn [stands recs] in *.
  - destruct Ht as [(p & hd & b & _ & Hs & _) Hv]. split; [| done]. intros ->. by apply (sh_nonempty _ _ _ _ _ Hs).
  - destruct Ht as [(p & hd & b & _ & Hs & _) Hk]. fold (grove_recs kids). split.
    + destruct kids as [|k kids]; [by destruct (sh_nonempty _ _ _ _ _ Hs) |]. apply Forall_cons in Hk as [Hk _].
      destruct (IH k Hk) as [Hne _]. rewrite grove_recs_cons. by destruct (recs k).
    + clear Hs. induction Hk as [|k kids Hk _ IHk]; [constructor |]. rewrite grove_recs_cons. apply Forall_app_2; [by apply IH | done].
Qed.

Lemma stands_first h txn level t : stands h txn level t -> exists e rest, recs t = e :: rest /\ valid_leaf e /\ valid_key (leaf_key e)
  /\ cell_of t = fence (leaf_key e) (root_of t).
Proof using Type*.
  intros Ht. destruct (stands_valid _ _ _ _ Ht) as [Hne Hv]. unfold cell_of. destruct (recs t) as [|e rest]; [done |].
  apply Forall_cons in Hv as [Hv _]. exists e, rest. split; [done |]. split; [done |]. split; [by apply cl_leaf_key | done].
Qed.

Lemma cell_of_first t key : first_is t key -> cell_of t = fence key (root_of t).
Proof using Type. intros (e & rest & He & ->). unfold cell_of. by rewrite He. Qed.
Lemma first_is_reroot t key n : first_is t key -> first_is (reroot n t) key.
Proof using Type. unfold first_is. by destruct t. Qed.

Lemma lead_nil key : lead [] key = key.
Proof using Type. done. Qed.
Lemma lead_cons h txn level l ls key : stands h txn level l -> first_is l (lead (l :: ls) key).
Proof using Type*.
  intros Hl. destruct (stands_first _ _ _ _ Hl) as (e & rest & He & _). exists e, rest. split; [done |].
  unfold lead. rewrite grove_recs_cons, He. done.
Qed.
Lemma lead_first n ls t rs key : first_is t key -> first_is (Bough n (ls ++ t :: rs)) (lead ls key).
Proof using Type.
  intros (e & rest & He & ->). unfold first_is, lead. cbn [recs]. fold (grove_recs (ls ++ t :: rs)).
  rewrite grove_recs_app, grove_recs_cons. destruct (grove_recs ls) as [|e' r']; [| by eexists _, _].
  rewrite He. by eexists _, _.
Qed.

(** ** Frames *)

Lemma page_at_frame h h' txn level n cells : h' !! n = h !! n -> page_at h txn level n cells -> page_at h' txn level n cells.
Proof using Type. intros He (p & hd & b & Hp & Hs). exists p, hd, b. by rewrite He. Qed.
Lemma private_at_frame h h' txn level n cells : h' !! n = h !! n -> private_at h txn level n cells -> private_at h' txn level n cells.
Proof using Type. intros He (p & hd & Hp & Hs). exists p, hd. by rewrite He. Qed.

Lemma stands_frame h h' txn level : forall t, (forall m, m ∈ pages t -> h' !! m = h !! m) -> stands h txn level t -> stands h' txn level t.
Proof using Type.
  induction level as [|l IH]; intros [n es | n kids] Hm Ht; try done; cbn [stands pages] in *; destruct Ht as [Hp Hk].
  - split; [| done]. eapply page_at_frame; [| done]. apply Hm. constructor.
  - split; [eapply page_at_frame; [| done]; apply Hm; constructor |]. rewrite Forall_forall in Hk |- *. intros k Hin.
    apply IH; [| by apply Hk]. intros m Hmk. apply Hm. right. apply elem_of_grove_pages. by exists k.
Qed.

Lemma grove_frame h h' txn level ts : (forall m, m ∈ grove_pages ts -> h' !! m = h !! m) ->
  Forall (stands h txn level) ts -> Forall (stands h' txn level) ts.
Proof using Type.
  intros Hm. rewrite !Forall_forall. intros Ht t Hin. apply (stands_frame h); [| by apply Ht].
  intros m Hmt. apply Hm, elem_of_grove_pages. by exists t.
Qed.

Lemma hung_frame h h' txn ctx : forall level child key, (forall m, m ∈ ctx_pages ctx -> h' !! m = h !! m) ->
  hung h txn level ctx child key -> hung h' txn level ctx child key.
Proof using Type.
  induction ctx as [|c ctx IH]; intros level child key Hm Hh; [done |]. cbn [hung ctx_pages] in *. destruct Hh as (Hp & Hl & Hr & Hh).
  split; [eapply private_at_frame; [| done]; apply Hm; constructor |].
  split; [eapply grove_frame; [| done]; intros m Hin; apply Hm; right; rewrite !elem_of_app; auto |].
  split; [eapply grove_frame; [| done]; intros m Hin; apply Hm; right; rewrite !elem_of_app; auto |].
  apply IH; [| done]. intros m Hin. apply Hm. right. rewrite !elem_of_app. auto.
Qed.

Lemma stands_pages h txn level : forall t m, stands h txn level t -> m ∈ pages t -> is_Some (h !! m).
Proof using Type.
  induction level as [|l IH]; intros [n es | n kids] m Ht Hm; try done; cbn [stands pages] in *; destruct Ht as [(p & hd & b & Hp & _) Hk].
  - apply list_elem_of_singleton in Hm as ->. by exists p.
  - apply elem_of_cons in Hm as [-> | Hm]; [by exists p |]. apply elem_of_grove_pages in Hm as (k & Hin & Hm).
    rewrite Forall_forall in Hk. by apply (IH k); [apply Hk |].
Qed.
Lemma grove_in h txn level ts m : Forall (stands h txn level) ts -> m ∈ grove_pages ts -> is_Some (h !! m).
Proof using Type.
  intros Ht Hm. apply elem_of_grove_pages in Hm as (t & Hin & Hm). rewrite Forall_forall in Ht. by eapply stands_pages; [apply Ht |].
Qed.
Lemma hung_in h txn ctx : forall level child key m, hung h txn level ctx child key -> m ∈ ctx_pages ctx -> is_Some (h !! m).
Proof using Type.
  induction ctx as [|c ctx IH]; intros level child key m Hh Hm; cbn [hung ctx_pages] in *; [by apply elem_of_nil in Hm |].
  destruct Hh as ((p & hd & Hp & _) & Hl & Hr & Hh). apply elem_of_cons in Hm as [-> | Hm]; [by exists p |].
  rewrite !elem_of_app in Hm. destruct Hm as [Hm | [Hm | Hm]]; [eapply grove_in; [exact Hl | done] | eapply grove_in; [exact Hr | done] | by eapply IH].
Qed.

(** Pages outside a tree may change, and so may the tree's when it is cut out. *)
Lemma stands_insert h txn level t n p : n ∉ pages t -> stands h txn level t -> stands (<[n := p]> h) txn level t.
Proof using Type. intros Hn. apply stands_frame. intros m Hm. apply lookup_insert_ne. by intros ->. Qed.
Lemma grove_insert h txn level ts n p : n ∉ grove_pages ts -> Forall (stands h txn level) ts -> Forall (stands (<[n := p]> h) txn level) ts.
Proof using Type. intros Hn. apply grove_frame. intros m Hm. apply lookup_insert_ne. by intros ->. Qed.
Lemma hung_insert h txn level ctx child key n p : n ∉ ctx_pages ctx -> hung h txn level ctx child key ->
  hung (<[n := p]> h) txn level ctx child key.
Proof using Type. intros Hn. apply hung_frame. intros m Hm. apply lookup_insert_ne. by intros ->. Qed.
Lemma grove_delete h txn level ts n : n ∉ grove_pages ts -> Forall (stands h txn level) ts -> Forall (stands (delete n h) txn level) ts.
Proof using Type. intros Hn. apply grove_frame. intros m Hm. apply lookup_delete_ne. by intros ->. Qed.
Lemma hung_delete h txn level ctx child key n : n ∉ ctx_pages ctx -> hung h txn level ctx child key ->
  hung (delete n h) txn level ctx child key.
Proof using Type. intros Hn. apply hung_frame. intros m Hm. apply lookup_delete_ne. by intros ->. Qed.

(** ** A page moved *)

Definition cells_of (t : shape) : list (list Z) := match t with Twig _ es => leaf_bytes <$> es | Bough _ kids => cell_of <$> kids end.
(** The pages below the root. *)
Definition below (t : shape) : list Z := match t with Twig _ _ => [] | Bough _ kids => grove_pages kids end.

Lemma pages_below t : pages t = root_of t :: below t.
Proof using Type. by destruct t. Qed.
Lemma reroot_pages n t : pages (reroot n t) = n :: below t.
Proof using Type. by destruct t. Qed.
Lemma reroot_recs n t : recs (reroot n t) = recs t.
Proof using Type. by destruct t. Qed.
Lemma reroot_root n t : root_of (reroot n t) = n.
Proof using Type. by destruct t. Qed.
Lemma reroot_same t : reroot (root_of t) t = t.
Proof using Type. by destruct t. Qed.

Lemma stands_root h txn level t : stands h txn level t -> page_at h txn (Z.of_nat level) (root_of t) (cells_of t).
Proof using Type. destruct level, t; try done; by intros [? _]. Qed.

Lemma stands_reroot h h' txn level t n : stands h txn level t -> page_at h' txn (Z.of_nat level) n (cells_of t) ->
  (forall m, m ∈ below t -> h' !! m = h !! m) -> stands h' txn level (reroot n t).
Proof using Type.
  destruct level, t; try done; cbn [stands reroot cells_of below].
  - by intros [_ Hv] Hp _.
  - intros [_ Hk] Hp Hm. split; [done |]. by apply (grove_frame h).
Qed.

(** ** A subtree back in its context *)

Lemma plug_stands h txn ctx : 0 < txn -> forall level t key, hung h txn level ctx (root_of t) key -> first_is t key ->
  stands h txn level t -> stands h txn (level + length ctx) (plug ctx t).
Proof using Type.
  intros Htxn. induction ctx as [|c ctx IH]; intros level t key Hh Hf Ht; cbn [length plug]; [by rewrite Nat.add_0_r |].
  cbn [hung] in Hh. destruct Hh as (Hp & Hl & Hr & Hh).
  rewrite Nat.add_succ_r, <- Nat.add_succ_l. apply (IH _ _ (lead (cr_left c) key)); [done | by apply lead_first |].
  cbn [stands]. split.
  - rewrite fmap_app, fmap_cons, (cell_of_first _ _ Hf). by apply private_page_at.
  - apply Forall_app_2; [done |]. by constructor.
Qed.

(** ** Trees of the readers *)

Section Readers.
Context {S : Type} `{StoreLaws S}.

Definition kid_of (t : shape) : kid := (root_of t, recs t).

Lemma records_kids ts : records (kid_of <$> ts) = grove_recs ts.
Proof using Type. unfold records, grove_recs. rewrite <- list_fmap_compose. done. Qed.

Lemma sheet_node s h k n p born level cells hd : serves s h k -> h !! n = Some p -> sheet born level cells p hd ->
  0 < born <= target_txn s -> node s n level cells p hd.
Proof using Type*.
  intros Hs Hn Hp Hb. split; try apply Hp; [| exact (slotted_legible _ _ _ (sh_slotted _ _ _ _ _ Hp)) |].
  - intros A f. cbn. by rewrite (sv_inspect _ _ _ _ _ _ _ Hs Hn).
  - exists born. split; [apply Hp | done].
Qed.

Lemma page_at_node s h k level n cells : serves s h k -> page_at h (target_txn s) level n cells -> exists p hd, node s n level cells p hd.
Proof using Type*. intros Hs (p & hd & b & Hn & Hp & Hb). exists p, hd. by eapply sheet_node. Qed.

Lemma stands_bounds s h k txn level t : serves s h k -> stands h txn level t -> 2 <= root_of t < page_limit s /\ root_of t <= u32_max.
Proof using Type*.
  intros Hs Ht. assert (Hp : exists p, h !! root_of t = Some p).
  { destruct level, t; cbn in Ht; try done; destruct Ht as [(p & hd & b & Hp & _) _]; by exists p. }
  destruct Hp as [p Hp]. destruct (sv_page _ _ _ _ _ Hs Hp) as (? & ? & _). done.
Qed.

Lemma fence_kids h txn level ts : Forall (stands h txn level) ts -> Forall2 fence_cell (cell_of <$> ts) (kid_of <$> ts).
Proof using Type*.
  induction 1 as [|t ts Ht _ IH]; [constructor |]. rewrite !fmap_cons. constructor; [| done].
  destruct (stands_first _ _ _ _ Ht) as (e & rest & He & _ & Hk & ->). exists (leaf_key e). split; [by exists e, rest |]. done.
Qed.

Lemma kids_ok s h k level kids : serves s h k -> (forall t, stands h (target_txn s) level t -> tree_at s level (root_of t) (recs t)) ->
  Forall (stands h (target_txn s) level) kids -> Forall (child_ok s level) (kid_of <$> kids).
Proof using Type*.
  intros Hs IH Hk. rewrite Forall_fmap. eapply Forall_impl; [exact Hk |]. intros t Ht.
  destruct (stands_bounds _ _ _ _ _ _ Hs Ht) as [? ?]. split; [done |]. split; [done | by apply IH].
Qed.

Lemma stands_tree s h k level : serves s h k -> forall t, stands h (target_txn s) level t -> tree_at s level (root_of t) (recs t).
Proof using Type*.
  intros Hs. induction level as [|l IH]; intros [n es | n kids] Ht; try done; cbn [stands] in Ht; destruct Ht as [Hp Hk];
    destruct (page_at_node s h k _ _ _ Hs Hp) as (p & hd & Hn).
  - apply tree_leaf. by exists p, hd.
  - apply tree_branch. exists (kid_of <$> kids), p, hd. split; [| symmetry; apply records_kids].
    exists (cell_of <$> kids). split; [done |]. split; [by eapply fence_kids | by eapply kids_ok].
Qed.
End Readers.
End Shapes.
