(* ===== verification/TreeUpward.v ===== *)
(** * Repairs along the path

    After a leaf has changed, [propagate_first_from] rewrites the fences above
    it and [propagate_split_from] hangs a new sibling next to it, page by page
    up to a new root.  On the pages of a context both leave a tree that holds
    the records of the context around those of the subtrees they were given;
    the pages the tree did not have are untouched. *)

From stdpp Require Import base tactics numbers list strings sorting gmap.
From Stdlib Require Import ZArith Lia.
From S2P Require Import Prelude Errors Bytes PageHeader SlottedPage SlottedFacts SlottedTheorems Codec TreeInterface Machine Draft Store.
From S2P Require Import TreePage TreeFacts TreeQuery TreeCursor TreeMutation TreePageFacts TreeStore.

#[local] Open Scope string_scope.
#[local] Open Scope list_scope.
#[local] Open Scope Z_scope.

(** [h'] keeps what [h] had outside the pages [X], and [X'] are pages of [X]
    or new ones. *)
Definition grows (h : Pages) (X : list Z) (h' : Pages) (X' : list Z) : Prop :=
  (forall m p, m ∉ X -> h !! m = Some p -> h' !! m = Some p) /\ (forall m, m ∈ X' -> m ∈ X \/ h !! m = None).

Lemma grows_trans h X h1 X1 h2 X2 : grows h X h1 X1 -> grows h1 X1 h2 X2 -> grows h X h2 X2.
Proof.
  intros [K1 N1] [K2 N2]. split.
  - intros m p Hm Hp. apply K2; [| by apply K1]. intros [? | Hn]%N1; [done |]. congruence.
  - intros m Hm. destruct (N2 m Hm) as [? | Hn]; [by apply N1 |]. destruct (decide (m ∈ X)) as [? | Hx]; [by left | right].
    destruct (h !! m) as [p|] eqn:Hp; [| done]. pose proof (K1 m p Hx Hp). congruence.
Qed.

Lemma grows_refl h X : grows h X h X.
Proof. split; [done | by left]. Qed.

Lemma grows_perm h X Y h' X' : X ≡ₚ Y -> grows h X h' X' -> grows h Y h' X'.
Proof. intros Hp [K N]. split; [intros m p; rewrite <- Hp; apply K | intros m; rewrite <- Hp; apply N]. Qed.
Lemma grows_perm_r h X h' X' Y' : X' ≡ₚ Y' -> grows h X h' X' -> grows h X h' Y'.
Proof. intros Hp [K N]. split; [done | intros m; rewrite <- Hp; apply N]. Qed.

Section Upward.
Context {Key Leaf : Type} `{CodecLaws Key Leaf} {S : Type} `{StoreLaws S}.
Implicit Types t : Tree S.

(** ** One branch page *)

Lemma fence_child key c : valid_key key -> 0 <= c <= u32_max -> forall limit, 2 <= c < limit -> require_child (fence key c) limit = Ok c.
Proof using Type*.
  intros Hk Hc limit Hl. destruct (cl_fence_bytes key Hk) as [_ Hz]. pose proof cl_sizes as (Hks & _ & _ & Hkp & _).
  unfold require_child, read_branch_child, fence.
  rewrite array_Some by (rewrite ?zlen_app, ?zlen_le_bytes; unfold usize_max, u64_max; page_arith; lia).
  cbn [ok_or mbind outcome_bind]. rewrite sub_app_skip, Hz, Z.sub_diag by lia.
  change (sub (le_bytes 4 c) 0 4) with (le_bytes 4 c). rewrite le_val_bytes by (unfold u32_max in Hc; cbn; lia).
  by rewrite (proj2 (Z.ltb_ge c 2)), (proj2 (Z.leb_gt _ c)) by lia.
Qed.

Lemma sheet_child born level a key c b p hd limit : sheet born level (a ++ fence key c :: b) p hd -> level <> 0 -> valid_key key ->
  c <= u32_max -> 2 <= c < limit -> branch_child p hd (zlen a) limit = Ok c.
Proof using Type*.
  intros Hs Hl Hk Hc Hlim. destruct (sheet_range _ _ _ _ _ _ _ Hs) as (r & Hr & Hb). unfold branch_child, branch_cell.
  unfold cell_size in Hr. rewrite (proj2 (Z.eqb_neq level 0) Hl) in Hr. rewrite Hr. cbn [mbind outcome_bind]. rewrite Hb.
  apply fence_child; [done | lia | done].
Qed.

Lemma branch_at_ok t h k txn f n p born level a key c b hd : owns t h k txn -> tf_page_number f = n -> tf_index f = zlen a ->
  h !! n = Some p -> sheet born level (a ++ fence key c :: b) p hd -> 0 < born <= txn -> level <> 0 -> valid_key key ->
  is_Some (h !! c) -> branch_at f t = (t, Ok (hd, c)).
Proof using Type*.
  intros Ho Hn Hi Hp Hs Hb Hl Hk [pc Hc]. destruct (owns_page _ _ _ _ _ _ Ho Hc) as (Hr & Hu & _).
  unfold branch_at. rewrite Hn, (look_ok _ _ _ _ _ _ _ Ho Hp). f_equal.
  rewrite (sheet_parse _ _ _ _ _ txn None Hs Hb I). cbn [mbind outcome_bind]. rewrite Hi.
  by rewrite (sheet_child _ _ _ _ _ _ _ _ _ Hs Hl Hk Hu Hr).
Qed.

(** Cells that carry a key. *)
Definition readable (level : Z) (c : list Z) : Prop := exists key, read_key c level = Ok key.

Lemma split_ok t h k txn n p level a old b rs hd : owns t h (Datatypes.S k) txn -> h !! n = Some p ->
  sheet txn level (a ++ old :: b) p hd -> Forall (good_cell level) rs -> rs <> [] -> zlen rs <= 3 ->
  Forall (readable level) (a ++ rs ++ b) -> ~ fits level (zlen (a ++ rs ++ b)) ->
  exists t' r p' hd' q' hq lf rf, split_replacement n hd (mkReplacement (zlen a) rs) t = (t', Ok (Some (mkBranchSplit r rf lf level)))
    /\ h !! r = None /\ sheet txn level (left_half (a ++ rs ++ b)) p' hd' /\ sheet txn level (right_half (a ++ rs ++ b)) q' hq
    /\ owns t' (<[n := p']> (<[r := q']> h)) k txn /\ quiet t t'
    /\ (exists c rest, left_half (a ++ rs ++ b) = c :: rest /\ read_key c level = Ok lf)
    /\ (exists c rest, right_half (a ++ rs ++ b) = c :: rest /\ read_key c level = Ok rf).
Proof using Type*.
  intros Ho Hp Hs Hrs Hne Hmax3 Hread Hfull. set (vs := a ++ rs ++ b) in *. pose proof (owns_txn _ _ _ _ Ho) as Htxn.
  destruct (sheet_header _ _ _ _ _ Hs) as (Hcount & _ & _ & Hpos & Hfit0).
  assert (Hzv : zlen vs = zlen (a ++ old :: b) - 1 + zlen rs) by (unfold vs; rewrite !zlen_app, zlen_cons; lia).
  assert (Hz2 : 2 <= zlen vs).
  { destruct (Z.lt_ge_cases (zlen vs) 2); [| done]. exfalso. apply Hfull. eapply fits_le; [apply (fits_three level), Hs | lia]. }
  pose proof (sh_height _ _ _ _ _ Hs) as Hlev.
  assert (Hgood : Forall (good_cell level) vs).
  { pose proof (sh_cells _ _ _ _ _ Hs) as Hall. rewrite Forall_app, Forall_cons in Hall. unfold vs. rewrite !Forall_app. tauto. }
  destruct (halves_fit level vs (zlen (a ++ old :: b))) as [Hf1 Hf2]; [lia | done | done | lia | done |].
  assert (Esplit : on_store (inspect_page n (fun source => replacement_split_index source hd (mkReplacement (zlen a) rs))) t = (t, Ok (middle_of vs))).
  { rewrite (inspect_ok _ _ _ _ _ _ _ Ho Hp). f_equal. unfold replacement_split_index, replacement_total. cbn [rp_cells].
    rewrite (sh_level _ _ _ _ _ Hs), fixed_cell_size_eq, Hcount.
    replace (zlen (a ++ old :: b) + zlen rs - 1) with (zlen vs) by lia. eapply fixed_split_ok; [| exact Hfit0 | ..]; lia. }
  destruct (allocate_ok _ _ _ _ Ho) as (t1 & r & q0 & E1 & Hr & Hw & Hq0 & Ho1 & Hq1).
  assert (Hnr : n <> r) by congruence.
  destruct (build_right txn level _ p hd (replacement_cell p hd (mkReplacement (zlen a) rs)) vs Hs) as (q1 & hq & Eq & Hsq); try done.
  { intros i Hi. by apply (replacement_virtual _ _ _ _ _ _ _ _ _ Hs). }
  destruct (copy_ok t1 (<[r := q0]> h) k txn n r p q0
      (fun source => put (fun _ => build_replacement source hd (mkReplacement (zlen a) rs) (middle_of vs) (zlen vs))) q1 level (right_half vs) hq Ho1 Hnr)
    as (t2 & q2 & E2 & Hs2 & Ho2 & Hq2); try done.
  { by rewrite lookup_insert_ne. } { by apply lookup_insert_eq. }
  { unfold put, build_replacement. by rewrite Eq. }
  rewrite insert_insert_eq in Ho2.
  destruct (keep_left_replacement_ok txn level a old b p hd rs Hs) as (p1 & hd1 & Ep & Hs1); try done. fold vs in Ep, Hs1.
  destruct (paint_ok t2 (<[r := q2]> h) k txn n p (keep_left_replacement hd (mkReplacement (zlen a) rs) (middle_of vs)) p1
              level (a ++ old :: b) hd level (left_half vs) hd1 Ho2) as (t3 & p2 & E3 & Hs3 & Ho3 & Hq3); try done.
  { by rewrite lookup_insert_ne. }
  destruct (halves_length vs Hz2) as (_ & _ & Hnl & Hnr2). rewrite <- (halves vs) in Hread. apply Forall_app in Hread as [Hrl Hrr].
  destruct (left_half vs) as [|cl restl] eqn:Hlh; [done |]. destruct (right_half vs) as [|cr restr] eqn:Hrh; [done |].
  apply Forall_cons in Hrl as [(lf & Hlf) _], Hrr as [(rf & Hrf) _].
  assert (E4 : first_key r level t3 = (t3, Ok rf)).
  { eapply first_key_ok; [exact Ho3 | rewrite lookup_insert_ne by done; apply lookup_insert_eq | exact Hs2 | lia | done]. }
  assert (E5 : first_key n level t3 = (t3, Ok lf)).
  { eapply first_key_ok; [exact Ho3 | apply lookup_insert_eq | exact Hs3 | lia | done]. }
  exists t3, r, p2, hd1, q2, hq, lf, rf. split.
  - unfold split_replacement. step Esplit. step E1. unfold replacement_total. cbn [rp_cells].
    replace (h_item_count hd + zlen rs - 1) with (zlen vs) by lia. step E2. step E3. rewrite (sh_level _ _ _ _ _ Hs). step E4. by step E5.
  - do 3 (split; [done |]). split; [done |]. split; [eapply quiet_trans; [exact Hq1 |]; by eapply quiet_trans |].
    split; [by exists cl, restl | by exists cr, restr].
Qed.

(** ** One branch of a tree *)

Lemma grove_cells h txn level ts : Forall (stands h txn level) ts ->
  Forall (good_cell (Z.of_nat (Datatypes.S level))) (cell_of <$> ts) /\ Forall (readable (Z.of_nat (Datatypes.S level))) (cell_of <$> ts).
Proof using Type*.
  intros Hts. rewrite !Forall_fmap. split; (eapply Forall_impl; [exact Hts |]); intros x Hx;
    destruct (stands_first _ _ _ _ Hx) as (e & rest & He & _ & Hk & Hc); cbn; rewrite Hc.
  - apply fence_good; [lia | done].
  - exists (leaf_key e). apply cl_read_fence; [done | lia].
Qed.

Lemma first_of_cells h txn level n ts c rest key : Forall (stands h txn level) ts -> cell_of <$> ts = c :: rest ->
  read_key c (Z.of_nat (Datatypes.S level)) = Ok key -> first_is (Bough n ts) key.
Proof using Type*.
  intros Hts Hc Hk. destruct ts as [|x ts]; [done |]. rewrite fmap_cons in Hc. apply Forall_cons in Hts as [Hx _].
  destruct (stands_first _ _ _ _ Hx) as (e & r & He & _ & Hv & Hcell). injection Hc as Hc _. rewrite <- Hc, Hcell in Hk.
  unfold fence in Hk. rewrite cl_read_fence in Hk by (done || lia). injection Hk as <-.
  exists e, (r ++ grove_recs ts). split; [| done]. cbn [recs map concat]. by rewrite He.
Qed.

(** What a changed branch page stands for: one page, or two. *)
Definition regrown (h' : Pages) (txn : Z) (level : nat) (n : Z) (kids : list shape) (h : Pages) (res : option (BranchSplit Key)) : Prop :=
  match res with
  | None => stands h' txn (Datatypes.S level) (Bough n kids)
  | Some sp => exists k1 k2, kids = k1 ++ k2 /\ h !! bs_right_page sp = None /\ bs_level sp = Z.of_nat (Datatypes.S level)
      /\ stands h' txn (Datatypes.S level) (Bough n k1) /\ stands h' txn (Datatypes.S level) (Bough (bs_right_page sp) k2)
      /\ first_is (Bough n k1) (bs_left_first sp) /\ first_is (Bough (bs_right_page sp) k2) (bs_right_first sp)
  end.

Lemma branch_apply_ok t h k txn n p hd level ls key0 c0 rs ts : owns t h (Datatypes.S k) txn -> h !! n = Some p ->
  sheet txn (Z.of_nat (Datatypes.S level)) ((cell_of <$> ls) ++ fence key0 c0 :: (cell_of <$> rs)) p hd ->
  Forall (stands h txn level) (ls ++ ts ++ rs) -> ts <> [] -> zlen ts <= 3 -> n ∉ grove_pages (ls ++ ts ++ rs) ->
  exists t' h' res, apply_replacement n hd (mkReplacement (zlen ls) (cell_of <$> ts)) t = (t', Ok res) /\ quiet t t'
    /\ owns t' h' k txn /\ (forall m, m <> n -> is_Some (h !! m) -> h' !! m = h !! m)
    /\ regrown h' txn level n (ls ++ ts ++ rs) h res.
Proof using Type*.
  intros Ho Hp Hs Hall Hne Hmax3 Hn. pose proof (owns_txn _ _ _ _ Ho) as Htxn. set (lev := Z.of_nat (Datatypes.S level)) in *.
  set (kids := ls ++ ts ++ rs) in *. destruct (grove_cells _ _ _ _ Hall) as [Hgood Hread]. fold lev in Hgood, Hread.
  assert (Hcells : (cell_of <$> ls) ++ (cell_of <$> ts) ++ (cell_of <$> rs) = cell_of <$> kids) by (unfold kids; by rewrite !fmap_app).
  assert (Hgts : Forall (good_cell lev) (cell_of <$> ts)) by (unfold kids in Hgood; rewrite !fmap_app, !Forall_app in Hgood; tauto).
  assert (Hnts : cell_of <$> ts <> []) by (by destruct ts).
  assert (Hz : zlen ls = zlen (cell_of <$> ls)) by (unfold zlen; by rewrite length_fmap).
  assert (Hz3 : zlen (cell_of <$> ts) <= 3) by (unfold zlen in *; by rewrite length_fmap).
  unfold apply_replacement. rewrite Hz.
  assert (Efit : on_store (inspect_page n (fun source => replacement_fits source hd (mkReplacement (zlen (cell_of <$> ls)) (cell_of <$> ts)))) t
                 = (t, Ok (bool_decide (fits lev (zlen (cell_of <$> kids)))))).
  { rewrite (inspect_ok _ _ _ _ _ _ _ Ho Hp). f_equal. rewrite <- Hcells. by apply (replacement_fits_ok txn lev _ (fence key0 c0)). }
  step Efit. destruct (bool_decide_reflect (fits lev (zlen (cell_of <$> kids)))) as [Hfit | Hfull].
  - destruct (apply_cells_ok txn lev (cell_of <$> ls) (fence key0 c0) (cell_of <$> rs) p hd (cell_of <$> ts) Htxn Hs Hgts Hnts) as (p1 & hd1 & Ep & Hs1);
      [by rewrite Hcells |]. rewrite Hcells in Hs1.
    destruct (paint_ok t h (Datatypes.S k) txn n p _ p1 _ _ _ lev (cell_of <$> kids) hd1 Ho Hp Hs Ep Hs1) as (t1 & p2 & E1 & Hs2 & Ho1 & Hq1).
    exists t1, (<[n := p2]> h), None. cbn [rp_index rp_cells]. step E1. split; [done |]. split; [done |]. split; [by apply owns_weaken |].
    split; [intros m Hm _; by apply lookup_insert_ne |]. cbn [regrown stands]. fold lev. split; [| by apply grove_insert].
    exists p2, hd1, txn. split; [apply lookup_insert_eq |]. split; [done | lia].
  - rewrite <- Hcells in Hfull, Hread.
    destruct (split_ok t h k txn n p lev _ _ _ _ hd Ho Hp Hs Hgts Hnts Hz3 Hread Hfull)
      as (t1 & r & p1 & hd1 & q1 & hq & lf & rf & E1 & Hr & Hs1 & Hs2 & Ho1 & Hq1 & (c1 & r1 & Hc1 & Hk1) & (c2 & r2 & Hc2 & Hk2)).
    rewrite Hcells in Hs1, Hs2, Hc1, Hc2. set (m := Z.to_nat (middle_of (cell_of <$> kids))).
    assert (Hl : left_half (cell_of <$> kids) = cell_of <$> take m kids) by (unfold left_half; by rewrite fmap_take).
    assert (Hrh : right_half (cell_of <$> kids) = cell_of <$> drop m kids) by (unfold right_half; by rewrite fmap_drop).
    rewrite Hl in Hs1, Hc1. rewrite Hrh in Hs2, Hc2. rewrite <- (take_drop m kids) in Hall, Hn. apply Forall_app in Hall as [Hall1 Hall2].
    assert (Hnr : n <> r) by congruence.
    assert (Hrk : r ∉ grove_pages (take m kids ++ drop m kids)).
    { intros Hin. destruct (grove_in h txn level (take m kids ++ drop m kids) r) as [x Hx]; [by apply Forall_app_2 | done |]. congruence. }
    rewrite grove_pages_app in Hn, Hrk. rewrite not_elem_of_app in Hn, Hrk. destruct Hn as [Hn1 Hn2], Hrk as [Hr1 Hr2].
    exists t1, (<[n := p1]> (<[r := q1]> h)), (Some (mkBranchSplit r rf lf lev)). split; [done |]. split; [done |]. split; [done |].
    split; [intros x Hx [y Hy]; rewrite lookup_insert_ne by done; apply lookup_insert_ne; congruence |].
    exists (take m kids), (drop m kids). cbn [bs_right_page bs_level bs_left_first bs_right_first].
    split; [by rewrite take_drop |]. split; [done |]. split; [done |]. cbn [stands]. fold lev.
    split; [split; [exists p1, hd1, txn; split; [apply lookup_insert_eq | split; [done | lia]] | by repeat apply grove_insert] |].
    split; [split; [exists q1, hq, txn; split; [rewrite lookup_insert_ne by done; apply lookup_insert_eq | split; [done | lia]] | by repeat apply grove_insert] |].
    split; [by eapply (first_of_cells h txn level) | by eapply (first_of_cells h txn level)].
Qed.

(** ** The whole path *)

(** The store holds the tree, and the root leads to it. *)
Record planted (t : Tree S) (h : Pages) (k : nat) (txn : Z) (level : nat) (T : shape) : Prop := {
  pt_owns : owns t h k txn;
  pt_root : tr_root t = root_of T;
  pt_stands : stands h txn level T;
  pt_nodup : NoDup (pages T);
  pt_height : Z.of_nat level <= MAX_TREE_LEVEL;
}.

(** From [t], the computation leaves a tree of at most [top] levels over the
    records [es]; pages of [h] outside [X] are as they were. *)
Definition yields (m : tio (S := S) unit) (t : Tree S) (h : Pages) (X : list Z) (k : nat) (txn : Z) (es : list Leaf) (top : nat) : Prop :=
  exists t' h' level T, m t = (t', Ok tt) /\ planted t' h' k txn level T /\ recs T = es /\ grows h X h' (pages T)
    /\ tr_retired t' = tr_retired t /\ (level <= top)%nat.

Lemma yields_from m t h0 X0 h X k txn es top : yields m t h X k txn es top -> grows h0 X0 h X -> yields m t h0 X0 k txn es top.
Proof using Type.
  intros (t' & h' & level & T & E & Hp & He & Hg & Hr & Hl) Hg0. exists t', h', level, T. do 3 (split; [done |]).
  split; [by eapply grows_trans | done].
Qed.

Lemma plug_root ctx : forall (T T' : shape (Leaf := Leaf)), root_of T = root_of T' -> root_of (plug ctx T) = root_of (plug ctx T').
Proof using Type. induction ctx as [|c ctx IH]; intros T T' He; [done |]. by apply IH. Qed.

Definition split_yields (path : Path) (ctx : list crumb) (txn : Z) : Prop :=
  forall level L R lf rf key0 t h k, owns t h (length ctx + 1 + k) txn -> hung h txn level ctx (root_of L) key0 -> valid_key key0 ->
  stands h txn level L -> stands h txn level R -> NoDup (ctx_pages ctx ++ pages L ++ pages R) -> first_is L lf -> first_is R rf ->
  tr_root t = root_of (plug ctx L) -> Z.of_nat (level + length ctx) < MAX_TREE_LEVEL ->
  yields (propagate_split_from path (root_of L) lf (root_of R) rf (Z.of_nat level)) t h (ctx_pages ctx ++ pages L ++ pages R) k txn
    (ctx_before ctx ++ (recs L ++ recs R) ++ ctx_after ctx) (level + length ctx + 1).

Definition first_yields (path : Path) (ctx : list crumb) (txn : Z) : Prop :=
  forall level T key key0 t h k, owns t h (length ctx + 1 + k) txn -> hung h txn level ctx (root_of T) key0 -> valid_key key0 ->
  stands h txn level T -> NoDup (ctx_pages ctx ++ pages T) -> first_is T key ->
  tr_root t = root_of (plug ctx T) -> Z.of_nat (level + length ctx) < MAX_TREE_LEVEL ->
  yields (propagate_first_from path key) t h (ctx_pages ctx ++ pages T) k txn
    (ctx_before ctx ++ recs T ++ ctx_after ctx) (level + length ctx + 1).

(** What both do with the page above, once they have changed it. *)
Definition climb (frame : TFrame) (rest : Path) (key : Key) (res : option (BranchSplit Key)) : tio (S := S) unit :=
  match res with
  | None => if tf_index frame =? 0 then propagate_first_from rest key else mret tt
  | Some sp => propagate_split_from rest (tf_page_number frame) (bs_left_first sp) (bs_right_page sp) (bs_right_first sp) (bs_level sp)
  end.

Lemma split_unfold f rest left_page lf right_page rf lv t :
  propagate_split_from (f :: rest) left_page lf right_page rf lv t = (insert_branch f lf right_page rf ≫= climb f rest lf) t.
Proof using Type. done. Qed.
Lemma first_unfold f rest key t :
  propagate_first_from (f :: rest) key t = (replace_first_branch f key ≫= climb f rest key) t.
Proof using Type.
  change (propagate_first_from (f :: rest) key) with (split ← replace_first_branch f key;
    match split with
    | Some sp => propagate_split_from rest (tf_page_number f) (bs_left_first sp) (bs_right_page sp) (bs_right_first sp) (bs_level sp)
    | None => if negb (tf_index f =? 0) then mret tt else propagate_first_from rest key
    end).
  unfold mbind, io_bind. destruct (replace_first_branch f key t) as [t' [[sp|] | e | m]]; try done. unfold climb. by destruct (tf_index f =? 0).
Qed.

Lemma yields_run m m' t t1 h X k txn es top : m t = m' t1 -> tr_retired t1 = tr_retired t -> yields m' t1 h X k txn es top ->
  yields m t h X k txn es top.
Proof using Type. intros E Hr (t' & h' & lv & T & E' & ?). exists t', h', lv, T. rewrite E, <- Hr. done. Qed.

Lemma yields_eq m t h X Y k txn es es' top : yields m t h X k txn es top -> X ≡ₚ Y -> es = es' -> yields m t h Y k txn es' top.
Proof using Type.
  intros (t' & h' & lv & T & E & Hp & He & Hg & Hr) HXY <-. exists t', h', lv, T. do 3 (split; [done |]). split; [by eapply grows_perm | done].
Qed.

Lemma first_valid h txn level T key : stands h txn level T -> first_is T key -> valid_key key.
Proof using Type*.
  intros Ht (e & rest & He & ->). destruct (stands_first _ _ _ _ Ht) as (e' & rest' & He' & _ & Hk & _). by assert (e' = e) as <- by congruence.
Qed.

Lemma lead_valid h txn level ls key : Forall (stands h txn level) ls -> valid_key key -> valid_key (lead ls key).
Proof using Type*.
  intros Hl Hk. destruct ls as [|l ls]; [done |]. apply Forall_cons in Hl as [Hl _].
  eapply first_valid; [exact Hl |]. by eapply lead_cons.
Qed.

(** Nothing to repair above: the tree is whole. *)
Lemma yields_done t h h1 k txn level ctx T key : owns t h1 k txn -> hung h1 txn level ctx (root_of T) key -> first_is T key ->
  stands h1 txn level T -> NoDup (ctx_pages ctx ++ pages T) -> tr_root t = root_of (plug ctx T) ->
  Z.of_nat (level + length ctx) <= MAX_TREE_LEVEL -> grows h (ctx_pages ctx ++ pages T) h1 (ctx_pages ctx ++ pages T) ->
  yields (mret tt) t h (ctx_pages ctx ++ pages T) k txn (ctx_before ctx ++ recs T ++ ctx_after ctx) (level + length ctx).
Proof using Type*.
  intros Ho Hh Hf Ht Hnd Hroot Hlev Hg. pose proof (owns_txn _ _ _ _ Ho).
  exists t, h1, (level + length ctx)%nat, (plug ctx T). split; [done |]. split; [split; try done |].
  - eapply plug_stands; [lia | done..].
  - by rewrite plug_pages.
  - split; [apply plug_recs |]. split; [| by split]. eapply grows_perm_r; [symmetry; apply plug_pages | done].
Qed.

Lemma climb_ok ctx rest txn frame c level ls ts rs key key0 t h h1 k res :
  split_yields rest ctx txn -> first_yields rest ctx txn -> frame_at frame c -> cr_left c = ls ->
  hung h txn (Datatypes.S level) ctx (cr_page c) (lead ls key0) -> valid_key key0 -> Forall (stands h txn level) (ls ++ ts ++ rs) ->
  NoDup (ctx_pages ctx ++ cr_page c :: grove_pages (ls ++ ts ++ rs)) -> is_Some (h !! cr_page c) ->
  (exists T ts', ts = T :: ts' /\ first_is T key) -> tr_root t = root_of (plug ctx (Bough (cr_page c) (ls ++ ts ++ rs))) ->
  Z.of_nat (Datatypes.S level + length ctx) < MAX_TREE_LEVEL ->
  owns t h1 (length ctx + 1 + k) txn -> (forall m, m <> cr_page c -> is_Some (h !! m) -> h1 !! m = h !! m) ->
  regrown h1 txn level (cr_page c) (ls ++ ts ++ rs) h res ->
  yields (climb frame rest key res) t h (ctx_pages ctx ++ cr_page c :: grove_pages (ls ++ ts ++ rs)) k txn
    (ctx_before ctx ++ grove_recs (ls ++ ts ++ rs) ++ ctx_after ctx) (Datatypes.S level + length ctx + 1).
Proof using Type*.
  intros Hsplit Hfirst [Hfp Hfi] Hls Hh Hk0 Hall Hnd Hin (T & ts' & -> & Hf) Hroot Hlev Ho Hframe Hre. set (n := cr_page c) in *.
  set (kids := ls ++ (T :: ts') ++ rs) in *.
  assert (Hls' : Forall (stands h txn level) ls) by (by apply Forall_app in Hall as [? _]).
  assert (Hkeep : forall m p, m ∉ ctx_pages ctx ++ n :: grove_pages kids -> h !! m = Some p -> h1 !! m = Some p).
  { intros m p Hm Hp. rewrite Hframe; [done | | by exists p]. intros ->. apply Hm. rewrite elem_of_app. right. constructor. }
  assert (Hh1 : hung h1 txn (Datatypes.S level) ctx n (lead ls key0)).
  { apply (hung_frame h); [| done]. intros m Hm. apply Hframe; [| by eapply hung_in].
    intros ->. apply NoDup_app in Hnd as (_ & Hnd & _). apply (Hnd n Hm). constructor. }
  pose proof (lead_valid _ _ _ _ _ Hls' Hk0) as Hlk. destruct res as [sp|]; cbn [climb regrown] in *.
  - destruct Hre as (k1 & k2 & Hk12 & Hr & Hlv & Hs1 & Hs2 & Hf1 & Hf2). rewrite Hlv, Hfp.
    set (r := bs_right_page sp) in *.
    assert (Hrn : r ∉ ctx_pages ctx ++ n :: grove_pages kids).
    { rewrite elem_of_app, elem_of_cons. intros [Hm | [-> | Hm]].
      - destruct (hung_in _ _ _ _ _ _ _ Hh Hm). congruence.
      - destruct Hin. congruence.
      - destruct (grove_in _ _ _ _ _ Hall Hm). congruence. }
    assert (Hperm : ctx_pages ctx ++ pages (Bough n k1) ++ pages (Bough r k2) ≡ₚ r :: ctx_pages ctx ++ n :: grove_pages kids).
    { rewrite Hk12, grove_pages_app. cbn [pages]. fold (grove_pages k1). fold (grove_pages k2). solve_Permutation. }
    eapply yields_from.
    + pose proof (Hsplit (Datatypes.S level) (Bough n k1) (Bough r k2) (bs_left_first sp) (bs_right_first sp) (lead ls key0) t h1 k Ho Hh1 Hlk Hs1 Hs2) as Hy.
      cbn [root_of] in Hy. replace (grove_recs kids) with (recs (Bough n k1) ++ recs (Bough r k2)); [apply Hy; try done |].
      * rewrite Hperm. by constructor.
      * rewrite Hroot. by apply plug_root.
      * rewrite Hk12, grove_recs_app. done.
    + split; [done |]. intros m. rewrite Hperm, elem_of_cons. intros [-> | ?]; [by right | by left].
  - assert (Hg : grows h (ctx_pages ctx ++ n :: grove_pages kids) h1 (ctx_pages ctx ++ n :: grove_pages kids)) by (split; [done | by left]).
    rewrite Hfi, Hls. destruct ls as [|l ls].
    + change (zlen [] =? 0) with true. cbn iota. eapply yields_from; [| exact Hg].
      apply (Hfirst (Datatypes.S level) (Bough n kids) key (lead [] key0)); try done.
      destruct Hf as (e & r & He & ->). exists e, (r ++ grove_recs (ts' ++ rs)). split; [| done]. cbn [recs kids app map concat]. by rewrite He.
    + rewrite zlen_cons, (proj2 (Z.eqb_neq _ 0)) by (pose proof (zlen_nonneg ls); lia).
      destruct (yields_done t h h1 k txn (Datatypes.S level) ctx (Bough n kids) (lead (l :: ls) key0))
        as (t' & h' & lv & T' & E & Hp & He & Hg' & Hr & Hl); try done.
      * eapply owns_less; [exact Ho | lia].
      * apply Forall_cons in Hls' as [Hl _]. destruct (lead_cons _ _ _ _ ls key0 Hl) as (e & r & He & Hk).
        exists e, (r ++ grove_recs (ls ++ (T :: ts') ++ rs)). split; [| done]. cbn [recs kids app map concat]. by rewrite He.
      * lia.
      * exists t', h', lv, T'. do 4 (split; [done |]). split; [done | lia].
Qed.

Lemma new_root_ok t h k txn level L R lf rf : owns t h (Datatypes.S k) txn -> stands h txn level L -> stands h txn level R ->
  first_is L lf -> first_is R rf -> Z.of_nat level < MAX_TREE_LEVEL ->
  exists t' n p, new_root (root_of L) lf (root_of R) rf (Z.of_nat level + 1) t = (t', Ok n) /\ h !! n = None
    /\ owns t' (<[n := p]> h) k txn /\ quiet t t' /\ page_at (<[n := p]> h) txn (Z.of_nat (Datatypes.S level)) n (cell_of <$> [L; R]).
Proof using Type*.
  intros Ho HL HR Hf1 Hf2 Hlev. pose proof (owns_txn _ _ _ _ Ho) as Htxn. set (lev := Z.of_nat (Datatypes.S level)).
  replace (Z.of_nat level + 1) with lev by lia.
  destruct (allocate_ok _ _ _ _ Ho) as (t1 & n & q & E1 & Hn & Hw & Hq & Ho1 & Hq1).
  pose proof (first_valid _ _ _ _ _ HL Hf1) as Hv1. pose proof (first_valid _ _ _ _ _ HR Hf2) as Hv2.
  destruct (sheet_pair txn lev (fence lf (root_of L)) (fence rf (root_of R))) as (p1 & hd & Ep & Hs);
    [done | lia | apply fence_good; [lia | done].. |].
  destruct (fill_ok t1 (<[n := q]> h) k txn n q (fun _ =>
      b ← Builder_new BRANCH_TYPE txn lev AUX; b ← builder_push b (fence lf (root_of L)); b ← builder_push b (fence rf (root_of R));
      builder_finish b) p1 lev [fence lf (root_of L); fence rf (root_of R)] hd Ho1) as (t2 & p2 & E2 & Hs2 & Ho2 & Hq2); try done.
  { apply lookup_insert_eq. }
  rewrite insert_insert_eq in Ho2. exists t2, n, p2. split.
  - unfold new_root. rewrite fail_if_bind by (apply Z.ltb_ge; lia).
    step E1. rewrite (branch_buf_ok lf (root_of L) Hv1), (branch_buf_ok rf (root_of R) Hv2), !lift_bind, gets_bind.
    rewrite (proj2 Ho1). by step E2.
  - do 2 (split; [done |]). split; [by eapply quiet_trans |]. exists p2, hd, txn. split; [apply lookup_insert_eq |].
    rewrite !fmap_cons, (cell_of_first _ _ Hf1), (cell_of_first _ _ Hf2). split; [done | lia].
Qed.

Lemma split_root path txn : path = [] -> split_yields path [] txn.
Proof using Type*.
  intros -> level L R lf rf key0 t h k Ho _ _ HL HR Hnd Hf1 Hf2 _ Hlev. cbn [length ctx_pages ctx_before ctx_after app propagate_split_from] in *.
  rewrite Nat.add_0_r in *. pose proof (owns_txn _ _ _ _ Ho) as Htxn.
  destruct (new_root_ok t h k txn level L R lf rf Ho HL HR Hf1 Hf2 Hlev) as (t1 & n & p & E1 & Hn & Ho1 & [Hqa Hqb] & Hp).
  assert (Hnew : n ∉ pages L /\ n ∉ pages R).
  { split; intros Hm; [destruct (stands_pages _ _ _ _ _ HL Hm) | destruct (stands_pages _ _ _ _ _ HR Hm)]; congruence. }
  destruct Hnew as [HnL HnR].
  exists (mkTree (tr_store t1) n (tr_retired t1)), (<[n := p]> h), (Datatypes.S level), (Bough n [L; R]).
  split; [by step E1 |]. split; [split | split; [| split; [| split]]]; cbn [recs pages map concat tr_retired].
  - done.
  - done.
  - cbn [stands]. split; [done |]. constructor; [by apply stands_insert | constructor; [by apply stands_insert | constructor]].
  - rewrite app_nil_r. constructor; [rewrite elem_of_app; tauto | done].
  - lia.
  - by rewrite app_nil_r, app_nil_r.
  - split; [intros m q Hm Hq; rewrite lookup_insert_ne; congruence |].
    intros m. rewrite app_nil_r, elem_of_cons. intros [-> | ?]; [by right | by left].
  - done.
  - lia.
Qed.

Lemma propagate_ok txn ctx : forall path, Forall2 frame_at path ctx -> split_yields path ctx txn /\ first_yields path ctx txn.
Proof using Type*.
  induction ctx as [|c ctx IH]; intros path Hpath.
  { apply Forall2_nil_inv_r in Hpath as ->. split; [by apply split_root |].
    intros level T key key0 t h k Ho Hh Hk0 Ht Hnd Hf Hroot Hlev. cbn [propagate_first_from].
    destruct (yields_done t h h k txn level [] T key) as (t' & h' & lv & T' & E & Hp & He & Hg & Hr & Hl); try done.
    - eapply owns_less; [exact Ho | lia].
    - lia.
    - apply grows_refl.
    - exists t', h', lv, T'. do 4 (split; [done |]). split; [done | lia]. }
  apply Forall2_cons_inv_r in Hpath as (f & rest & Hf & Hrest & ->). destruct (IH rest Hrest) as [IHs IHf]. pose proof Hf as [Hfp Hfi].
  split.
  - intros level L R lf rf key0 t h k Ho (Hp & Hl & Hr & Hh) Hk0 HL HR Hnd Hf1 Hf2 Hroot Hlev. destruct Hp as (p & hd & Hp & Hs).
    cbn [length ctx_pages ctx_before ctx_after] in *. pose proof (owns_txn _ _ _ _ Ho) as Htxn.
    pose proof (first_valid _ _ _ _ _ HL Hf1) as Hv1. pose proof (first_valid _ _ _ _ _ HR Hf2) as Hv2.
    assert (Hperm : cr_page c :: (grove_pages (cr_left c) ++ grove_pages (cr_right c) ++ ctx_pages ctx) ++ pages L ++ pages R
                    ≡ₚ ctx_pages ctx ++ cr_page c :: grove_pages (cr_left c ++ [L; R] ++ cr_right c)).
    { rewrite !grove_pages_app, !grove_pages_cons. change (grove_pages []) with (@nil Z). rewrite app_nil_r. solve_Permutation. }
    cbn [app] in Hnd. rewrite Hperm in Hnd.
    assert (Hall : Forall (stands h txn level) (cr_left c ++ [L; R] ++ cr_right c)).
    { apply Forall_app_2; [done |]. apply Forall_app_2; [| done]. by repeat constructor. }
    destruct (branch_apply_ok t h (length ctx + 1 + k) txn (cr_page c) p hd level (cr_left c) key0 (root_of L) (cr_right c) [L; R])
      as (t1 & h1 & res & E1 & [Hqa Hqb] & Ho1 & Hframe & Hre); try done.
    { apply NoDup_app in Hnd as (_ & _ & Hnd). by apply NoDup_cons in Hnd as [? _]. }
    assert (Eins : insert_branch f lf (root_of R) rf t = (t1, Ok res)).
    { unfold insert_branch. assert (Eb : branch_at f t = (t, Ok (hd, root_of L))).
      { eapply (branch_at_ok t h _ txn f (cr_page c) p txn _ (cell_of <$> cr_left c) key0 (root_of L));
          [exact Ho | done | rewrite Hfi; unfold zlen; by rewrite length_fmap | exact Hp | exact Hs | lia | lia | done |].
        eapply stands_pages; [exact HL | apply root_in_pages]. }
      step Eb. rewrite (branch_buf_ok lf _ Hv1), (branch_buf_ok rf _ Hv2), Hfp, Hfi, <- (cell_of_first _ _ Hf1), <- (cell_of_first _ _ Hf2). exact E1. }
    eapply (yields_run _ (climb f rest lf res) t t1); [rewrite split_unfold; by step Eins | done |].
    replace (level + Datatypes.S (length ctx) + 1)%nat with (Datatypes.S level + length ctx + 1)%nat by lia.
    eapply yields_eq; [eapply (climb_ok ctx rest txn f c level (cr_left c) [L; R] (cr_right c) lf key0 t1 h h1 k res); try done | by symmetry |].
    + by exists L, [R].
    + rewrite Hqa, Hroot. cbn [plug]. by apply plug_root.
    + lia.
    + rewrite !grove_recs_app, !grove_recs_cons. change (grove_recs []) with (@nil Leaf). by rewrite app_nil_r, <- !app_assoc.
  - intros level T key key0 t h k Ho (Hp & Hl & Hr & Hh) Hk0 HT Hnd Hft Hroot Hlev. destruct Hp as (p & hd & Hp & Hs).
    cbn [length ctx_pages ctx_before ctx_after] in *. pose proof (owns_txn _ _ _ _ Ho) as Htxn.
    pose proof (first_valid _ _ _ _ _ HT Hft) as Hv.
    assert (Hperm : cr_page c :: (grove_pages (cr_left c) ++ grove_pages (cr_right c) ++ ctx_pages ctx) ++ pages T
                    ≡ₚ ctx_pages ctx ++ cr_page c :: grove_pages (cr_left c ++ [T] ++ cr_right c)).
    { rewrite !grove_pages_app, !grove_pages_cons. change (grove_pages []) with (@nil Z). rewrite app_nil_r. solve_Permutation. }
    cbn [app] in Hnd. rewrite Hperm in Hnd.
    assert (Hall : Forall (stands h txn level) (cr_left c ++ [T] ++ cr_right c)).
    { apply Forall_app_2; [done |]. apply Forall_app_2; [| done]. by repeat constructor. }
    destruct (branch_apply_ok t h (length ctx + 1 + k) txn (cr_page c) p hd level (cr_left c) key0 (root_of T) (cr_right c) [T])
      as (t1 & h1 & res & E1 & [Hqa Hqb] & Ho1 & Hframe & Hre); try done.
    { apply NoDup_app in Hnd as (_ & _ & Hnd). by apply NoDup_cons in Hnd as [? _]. }
    assert (Eins : replace_first_branch f key t = (t1, Ok res)).
    { unfold replace_first_branch. assert (Eb : branch_at f t = (t, Ok (hd, root_of T))).
      { eapply (branch_at_ok t h _ txn f (cr_page c) p txn _ (cell_of <$> cr_left c) key0 (root_of T));
          [exact Ho | done | rewrite Hfi; unfold zlen; by rewrite length_fmap | exact Hp | exact Hs | lia | lia | done |].
        eapply stands_pages; [exact HT | apply root_in_pages]. }
      step Eb. rewrite (branch_buf_ok key _ Hv), Hfp, Hfi, <- (cell_of_first _ _ Hft). exact E1. }
    eapply (yields_run _ (climb f rest key res) t t1); [rewrite first_unfold; by step Eins | done |].
    replace (level + Datatypes.S (length ctx) + 1)%nat with (Datatypes.S level + length ctx + 1)%nat by lia.
    eapply yields_eq; [eapply (climb_ok ctx rest txn f c level (cr_left c) [T] (cr_right c) key key0 t1 h h1 k res); try done | by symmetry |].
    + by exists T, [].
    + rewrite Hqa, Hroot. cbn [plug]. by apply plug_root.
    + lia.
    + rewrite !grove_recs_app, !grove_recs_cons. change (grove_recs []) with (@nil Leaf). by rewrite app_nil_r, <- !app_assoc.
Qed.
End Upward.
