(* ===== verification/TreeDescent.v ===== *)
(** * The way to a private leaf

    [private_path_select] walks to the leaf a key belongs to and replaces every
    committed page on the way by a copy that belongs to the transaction.  The
    tree keeps its records; the pages it leaves are exactly the ones reported
    as retired, and are unchanged. *)

From stdpp Require Import base tactics numbers list strings sorting gmap.
From Stdlib Require Import ZArith Lia.
From S2P Require Import Prelude Errors Bytes PageHeader SlottedPage SlottedFacts SlottedTheorems Codec TreeInterface Machine Draft Store.
From S2P Require Import TreePage TreeFacts TreeQuery TreeCursor TreeMutation TreePageFacts TreeStore TreeUpward.

#[local] Open Scope string_scope.
#[local] Open Scope list_scope.
#[local] Open Scope Z_scope.

Section Descent.
Context {Key Leaf : Type} `{CodecLaws Key Leaf} {S : Type} `{StoreLaws S}.
Implicit Types t : Tree S.

(** ** One page made private *)

Lemma replace_child_ok t h k txn n p lev a key c b hd c' : owns t h k txn -> h !! n = Some p ->
  sheet txn lev (a ++ fence key c :: b) p hd -> lev <> 0 -> valid_key key -> is_Some (h !! c) ->
  exists t' p' hd', replace_branch_child n (zlen a) c' t = (t', Ok tt) /\ sheet txn lev (a ++ fence key c' :: b) p' hd'
    /\ owns t' (<[n := p']> h) k txn /\ quiet t t'.
Proof using Type*.
  intros Ho Hp Hs Hl Hk [pc Hc]. pose proof (owns_txn _ _ _ _ Ho) as Htxn. destruct (owns_page _ _ _ _ _ _ Ho Hc) as (Hr & Hu & _).
  assert (Hg : forall x, zlen (fence key x) = cell_size lev) by (intros x; by apply (fence_good lev key x Hl Hk)).
  destruct (sheet_replace _ _ _ _ (fence key c') _ _ _ Hs (fence_good lev key c' Hl Hk)) as (p1 & hd1 & Ep & Hs1).
  destruct (paint_ok t h k txn n p (fun page => must_fit (replace page hd (zlen a) (zlen (fence key c)) (fence key c'))
      (Corrupt "B+tree child replacement no longer fits")) p1 lev (a ++ fence key c :: b) hd lev (a ++ fence key c' :: b) hd1 Ho Hp Hs) as (t1 & p2 & E1 & Hs2 & Ho1 & Hq1).
  { unfold must_fit. by rewrite Ep. } { exact Hs1. }
  exists t1, p2, hd1. split; [| done]. unfold replace_branch_child.
  assert (Elook : look n (fun txn limit page =>
      header ← tree_parse page txn None; key ← key_at page header (zlen a); old ← branch_cell page header (zlen a);
      _ ← branch_child page header (zlen a) limit; Ok (header, key, zlen old)) t = (t, Ok (hd, key, zlen (fence key c)))).
  { rewrite (look_ok _ _ _ _ _ _ _ Ho Hp). f_equal. rewrite (sheet_parse _ _ _ _ _ txn None Hs) by (done || lia). cbn [mbind outcome_bind].
    unfold key_at. pose proof (sheet_cell _ _ _ _ _ _ _ Hs) as Hcell. rewrite Hcell. cbn [mbind outcome_bind].
    rewrite (sh_level _ _ _ _ _ Hs). unfold fence at 1. rewrite cl_read_fence by done. cbn [mbind outcome_bind].
    unfold codec_cell in Hcell. rewrite (sh_level _ _ _ _ _ Hs), (proj2 (Z.eqb_neq lev 0) Hl) in Hcell. rewrite Hcell. cbn [mbind outcome_bind].
    by rewrite (sheet_child _ _ _ _ _ _ _ _ _ Hs Hl Hk Hu Hr). }
  step Elook. rewrite branch_buf_ok, lift_bind, fail_if_bind by (done || (rewrite !Hg, Z.eqb_refl; done)). exact E1.
Qed.

(** Where a subtree hangs, as the code passes it. *)
Definition parent_of (ctx : list (crumb (Leaf := Leaf))) : option (Z * Z) :=
  match ctx with [] => None | c :: _ => Some (cr_page c, zlen (cr_left c)) end.

(** The pages given up between two states: pages of [X] that are not of [X'],
    but are still there, at most [n] of them. *)
Definition buries (n : nat) (t t' : Tree S) (X : list Z) (h' : Pages) (X' : list Z) : Prop :=
  exists dead, tr_retired t' = tr_retired t ++ dead /\ (length dead <= n)%nat
    /\ forall m, m ∈ dead -> m ∈ X /\ is_Some (h' !! m) /\ m ∉ X'.

Lemma buries_none n t t' X h' X' : tr_retired t' = tr_retired t -> buries n t t' X h' X'.
Proof using Type. intros He. exists []. rewrite app_nil_r. split; [done |]. split; [cbn; lia |]. intros m Hm. by apply elem_of_nil in Hm. Qed.

Lemma buries_grows n n' t t1 t2 X h1 X1 h2 X2 : buries n t t1 X h1 X1 -> grows h1 X1 h2 X2 -> tr_retired t2 = tr_retired t1 -> (n <= n')%nat ->
  buries n' t t2 X h2 X2.
Proof using Type.
  intros (dead & E & L & D) [K N] He Hn'. exists dead. split; [by rewrite He |]. split; [lia |]. intros m Hm. destruct (D m Hm) as (Hx & [p Hp] & Hn).
  split; [done |]. split; [exists p; by apply K |]. intros [? | Hnone]%N; [done | congruence].
Qed.

Lemma buries_le n n' t t' X h' X' : buries n t t' X h' X' -> (n <= n')%nat -> buries n' t t' X h' X'.
Proof using Type. intros (dead & E & L & D) Hn. exists dead. split; [done |]. split; [lia | done]. Qed.

Lemma buries_both n1 n2 t t1 t2 X h1 X1 h2 X2 Y : buries n1 t t1 X h1 X1 -> grows h1 X1 h2 X2 -> buries n2 t1 t2 Y h2 X2 ->
  (forall m, m ∈ Y -> m ∈ X) -> buries (n1 + n2) t t2 X h2 X2.
Proof using Type.
  intros B1 G (d2 & E2 & L2 & D2) HY. destruct (buries_grows n1 n1 t t1 t1 X h1 X1 h2 X2 B1 G eq_refl (le_n _)) as (d1 & E1 & L1 & D1).
  exists (d1 ++ d2). split; [by rewrite E2, E1, app_assoc |]. split; [rewrite length_app; lia |]. intros m [Hm | Hm]%elem_of_app; [by apply D1 |].
  destruct (D2 m Hm) as (? & ? & ?). split; [by apply HY |]. done.
Qed.

(** The state of a descent at the subtree [T] below the context [ctx]. *)
Record halted (t : Tree S) (h : Pages) (k : nat) (txn : Z) (level : nat) (ctx : list crumb) (T : shape) (key0 : Key) : Prop := {
  ha_owns : owns t h k txn;
  ha_hung : hung h txn level ctx (root_of T) key0;
  ha_first : first_is T key0;
  ha_stands : stands h txn level T;
  ha_nodup : NoDup (ctx_pages ctx ++ pages T);
  ha_root : tr_root t = root_of (plug ctx T);
}.

Lemma halted_in t h k txn level ctx T key0 m : halted t h k txn level ctx T key0 -> m ∈ ctx_pages ctx ++ pages T -> is_Some (h !! m).
Proof using Type.
  intros Hd [Hm | Hm]%elem_of_app; [eapply hung_in; [apply Hd | done] | eapply stands_pages; [apply Hd | done]].
Qed.

Lemma parent_ok t h k txn level ctx T key0 a : owns t h k txn -> hung h txn level ctx (root_of T) key0 -> valid_key key0 ->
  is_Some (h !! root_of T) -> NoDup (ctx_pages ctx) -> tr_root t = root_of (plug ctx T) ->
  exists t' h', match parent_of ctx with
                | Some (page, index) => replace_branch_child page index a
                | None => set_root a
                end t = (t', Ok tt) /\ owns t' h' k txn /\ hung h' txn level ctx a key0 /\ tr_retired t' = tr_retired t
    /\ tr_root t' = root_of (plug ctx (reroot a T)) /\ (forall m, m ∉ ctx_pages ctx -> h' !! m = h !! m).
Proof using Type*.
  intros Ho Hh Hk0 Hin Hnd Hroot. destruct ctx as [|c ctx]; cbn [parent_of].
  { exists (mkTree (tr_store t) a (tr_retired t)), h. split; [done |]. split; [done |]. split; [done |]. split; [done |].
    split; [cbn [plug]; by rewrite reroot_root | done]. }
  cbn [hung ctx_pages] in *. destruct Hh as ((p & hp & Hp & Hsp) & Hl & Hr & Hh). apply NoDup_cons in Hnd as [Hnc _].
  rewrite !not_elem_of_app in Hnc. destruct Hnc as (Hn1 & Hn2 & Hn3).
  destruct (replace_child_ok t h k txn (cr_page c) p _ _ _ _ _ _ a Ho Hp Hsp) as (t1 & p1 & hd1 & E1 & Hs1 & Ho1 & [Hq1 Hq2]); [lia | done | done |].
  assert (Hz : zlen (cell_of <$> cr_left c) = zlen (cr_left c)) by (unfold zlen; by rewrite length_fmap). rewrite Hz in E1.
  exists t1, (<[cr_page c := p1]> h). split; [done |]. split; [done |]. split; [split; [| split; [| split]] |].
  - exists p1, hd1. split; [apply lookup_insert_eq | done].
  - by apply grove_insert.
  - by apply grove_insert.
  - by apply hung_insert.
  - split; [done |]. split; [rewrite Hq1, Hroot; cbn [plug]; by apply plug_root |].
    intros m [Hm _]%not_elem_of_cons. by apply lookup_insert_ne.
Qed.

Lemma activate_ok t h k txn level ctx T key0 p born hd : halted t h (Datatypes.S k) txn level ctx T key0 ->
  h !! root_of T = Some p -> sheet born (Z.of_nat level) (cells_of T) p hd -> 0 < born <= txn -> zlen (tr_retired t) <= MAX_PATH ->
  exists t' h' a q, activate (born =? txn) (root_of T) (parent_of ctx) t = (t', Ok a) /\ h' !! a = Some q
    /\ sheet txn (Z.of_nat level) (cells_of T) q hd /\ halted t' h' k txn level ctx (reroot a T) key0
    /\ grows h (ctx_pages ctx ++ pages T) h' (ctx_pages ctx ++ pages (reroot a T))
    /\ buries 1 t t' [root_of T] h' (ctx_pages ctx ++ pages (reroot a T)) /\ zlen (tr_retired t') <= zlen (tr_retired t) + 1.
Proof using Type*.
  intros Hd Hp Hs Hb Hret. pose proof Hd as [Ho Hh Hf Ht Hnd Hroot]. unfold activate. set (n := root_of T) in *.
  destruct (Z.eqb_spec born txn) as [-> | Hne].
  { exists t, h, n, p. unfold n. rewrite reroot_same. split; [done |]. split; [done |]. split; [done |].
    split; [split; try done; by apply owns_weaken |]. split; [apply grows_refl |]. split; [by apply buries_none | lia]. }
  destruct (touch_ok t h k txn n p born _ (cells_of T) hd Ho Hp Hs Hret) as (t1 & a & q & E1 & Ha & Hq & Ho1 & Hr1 & Hd1). step E1.
  pose proof (owns_txn _ _ _ _ Ho) as Htxn.
  assert (Hanew : a ∉ ctx_pages ctx ++ pages T) by (intros Hm; destruct (halted_in _ _ _ _ _ _ _ _ _ Hd Hm); congruence).
  rewrite pages_below in Hanew, Hnd. rewrite not_elem_of_app, not_elem_of_cons in Hanew. destruct Hanew as (Ha1 & Ha2 & Ha3).
  apply NoDup_app in Hnd as (Hnd1 & Hnd2 & [Hnd3 Hnd4]%NoDup_cons).
  destruct (parent_ok t1 (<[a := q]> h) k txn level ctx T key0 a Ho1) as (t2 & h2 & E2 & Ho2 & Hh2 & Hr2 & Hroot2 & Hframe); try done.
  { by apply hung_insert. } { by eapply first_valid. } { rewrite lookup_insert_ne by done. by exists p. } { by rewrite Hr1. }
  step E2. assert (Hq2 : h2 !! a = Some q) by (rewrite Hframe by done; apply lookup_insert_eq).
  assert (Hsame : forall m, m ∉ ctx_pages ctx -> m <> a -> h2 !! m = h !! m) by (intros m H1' H2'; rewrite Hframe by done; by apply lookup_insert_ne).
  exists t2, h2, a, q. split; [done |]. split; [done |]. split; [done |].
  assert (Hnd' : NoDup (ctx_pages ctx ++ pages (reroot a T))).
  { rewrite reroot_pages. apply NoDup_app. split; [done |]. split; [| by constructor]. intros m Hm [-> | Hm']%elem_of_cons; [done |].
    apply (Hnd2 m Hm). by right. }
  split; [split; try done |].
  - by rewrite reroot_root.
  - by apply first_is_reroot.
  - apply (stands_reroot h); [done | exists q, hd, txn; split; [done |]; split; [done | lia] |].
    intros m Hm. apply Hsame; [intros Hm'; apply (Hnd2 m Hm'); by right | by intros ->].
  - split; [| split].
    + rewrite reroot_pages, pages_below. split.
      * intros m x. rewrite not_elem_of_app. intros [Hm _] Hx. rewrite Hsame; [done | done | congruence].
      * intros m. rewrite !elem_of_app, !elem_of_cons. intros [? | [-> | ?]]; [by left; left | by right | by left; right; right].
    + exists [n]. split; [by rewrite Hr2, Hd1 |]. split; [done |]. intros m ->%list_elem_of_singleton. split; [by constructor |].
      assert (Hnn : n ∉ ctx_pages ctx) by (intros Hm; apply (Hnd2 n Hm); constructor).
      split; [exists p; rewrite Hsame by done; done |]. rewrite reroot_pages, not_elem_of_app, not_elem_of_cons. done.
    + rewrite Hr2, Hd1, zlen_app. change (zlen [n]) with 1. lia.
Qed.

(** ** The search on a page *)

Lemma branch_pick t h k txn l n kids p born hd key : owns t h k txn -> h !! n = Some p ->
  sheet born (Z.of_nat (Datatypes.S l)) (cell_of <$> kids) p hd -> 0 < born <= txn -> Forall (stands h txn l) kids ->
  sp_sorted lrank (grove_recs kids) -> valid_key key ->
  exists l1 x l2, kids = l1 ++ x :: l2 /\ chosen key (kid_of <$> l1) (kid_of x) (kid_of <$> l2)
    /\ (exists b, lower_bound p hd key false = Ok (zlen l1, b)) /\ branch_child p hd (zlen l1) (page_limit (tr_store t)) = Ok (root_of x).
Proof using Type*.
  intros [Hs Htxn] Hn Hp Hb Hk Hsort Hkey. subst txn. rewrite <- records_kids in Hsort.
  assert (Hbn : branch_node (tr_store t) n l (kid_of <$> kids) p hd).
  { exists (cell_of <$> kids). split; [by eapply sheet_node |]. split; [by eapply fence_kids |].
    eapply kids_ok; [done | intros x Hx; by eapply stands_tree | done]. }
  destruct (branch_search (tr_store t) _ _ _ _ _ key Hbn Hsort Hkey) as (ks1 & x & ks2 & i & exact & Hks & Hch & _ & _ & Hlb & Hbc & _).
  apply fmap_app_inv in Hks as (l1 & l2' & -> & Hrest & ->). symmetry in Hrest. apply fmap_cons_inv in Hrest as (x' & l2 & -> & -> & ->).
  exists l1, x', l2. assert (Hz : zlen (kid_of <$> l1) = zlen l1) by (unfold zlen; by rewrite length_fmap). rewrite Hz in *. done.
Qed.

(** ** The loop *)

Section Loop.
Context {A : Type} (key : Key) (selector : LeafSelector A) (Sel : Header -> list Leaf -> A -> Prop).
Context (Hsel : forall born es p hd path, sheet born 0 (leaf_bytes <$> es) p hd -> Forall valid_leaf es -> sp_sorted lrank es ->
  exists sel, selector p hd path = Ok sel /\ Sel hd es sel).

(** The leaf reached: its page is the transaction's, and the key belongs
    between its neighbours. *)
Record reached (t : Tree S) (h : Pages) (k : nat) (txn : Z) (ctx : list crumb) (a : Z) (es : list Leaf) (hd : Header) (key0 : Key) : Prop := {
  re_halted : halted t h k txn 0 ctx (Twig a es) key0;
  re_sheet : exists q, h !! a = Some q /\ sheet txn 0 (leaf_bytes <$> es) q hd;
}.

Lemma sorted_middle (a b c : list Leaf) : sp_sorted lrank (a ++ b ++ c) -> sp_sorted lrank b.
Proof using Type. intros Hs. apply StronglySorted_app in Hs as (_ & _ & Hs). by apply StronglySorted_app in Hs as (_ & Hs & _). Qed.

Lemma path_loop_ok level : valid_key key -> forall T ctx path t h k txn key0 rounds expected,
  halted t h (Datatypes.S level + k) txn level ctx T key0 -> Forall2 frame_at path ctx -> sp_sorted lrank (recs T) ->
  (level < rounds)%nat -> match expected with Some e => e = Z.of_nat level | None => True end ->
  Z.of_nat (length ctx + level) <= MAX_PATH -> zlen (tr_retired t) + Z.of_nat level <= MAX_PATH ->
  exists t' h' ctx' path' a es hd sel key1 before after,
    path_loop rounds key selector path (root_of T) expected (parent_of ctx) t = (t', Ok (mkPrivateLeaf path' a hd sel))
    /\ reached t' h' k txn ctx' a es hd key1 /\ Sel hd es sel /\ Forall2 frame_at path' ctx' /\ length ctx' = (length ctx + level)%nat
    /\ recs T = before ++ es ++ after /\ surrounds key before es after
    /\ ctx_before ctx' = ctx_before ctx ++ before /\ ctx_after ctx' = after ++ ctx_after ctx
    /\ grows h (ctx_pages ctx ++ pages T) h' (ctx_pages ctx' ++ [a]) /\ buries (Datatypes.S level) t t' (pages T) h' (ctx_pages ctx' ++ [a]).
Proof using Type*.
  intros Hkey. induction level as [|l IH]; intros T ctx path t h k txn key0 rounds expected Hd Hpath Hsort Hrounds Hexp Hlen Hret;
    (destruct rounds as [|rounds]; [lia |]); pose proof (ha_stands _ _ _ _ _ _ _ _ Hd) as Ht; destruct T as [n es | n kids]; try done;
    destruct (stands_root _ _ _ _ Ht) as (p & hd & born & Hp & Hs & Hb); cbn [root_of cells_of] in *; cbn [path_loop]; unfold inspect.
  - destruct Ht as [_ Hv]. destruct (Hsel born es p hd path Hs Hv Hsort) as (sel & Esel & HSel).
    assert (Elook : look n (fun txn limit page =>
        header ← tree_parse page txn expected; born ← born_txn page;
        if h_level header =? 0 then selection ← selector page header path; Ok (InspectedLeaf A header (born =? txn) selection)
        else '(index, _) ← lower_bound page header key false; child ← branch_child page header index limit;
             Ok (InspectedBranch A header (born =? txn) index child)) t = (t, Ok (InspectedLeaf A hd (born =? txn) sel))).
    { rewrite (look_ok _ _ _ _ _ _ _ (ha_owns _ _ _ _ _ _ _ _ Hd) Hp). f_equal. rewrite (sheet_parse _ _ _ _ _ txn expected Hs Hb Hexp).
      cbn [mbind outcome_bind]. rewrite (sheet_born _ _ _ _ _ Hs). cbn [mbind outcome_bind].
      rewrite (sh_level _ _ _ _ _ Hs). cbn [Z.eqb]. by rewrite Esel. }
    step Elook. destruct (activate_ok t h k txn 0 ctx (Twig n es) key0 p born hd Hd Hp Hs Hb) as (t1 & h1 & a & q & E1 & Hq & Hsq & Hd1 & Hg & Hbu & Hz); [lia |].
    cbn [root_of] in E1. step E1. exists t1, h1, ctx, path, a, es, hd, sel, key0, [], [].
    split; [done |]. split; [split; [done | by exists q] |]. split; [done |]. split; [done |]. split; [lia |]. split; [by rewrite app_nil_r |].
    split; [split; [by left | intros e He; by apply elem_of_nil in He] |]. split; [by rewrite app_nil_r |]. split; [done |]. split; [done |]. exact Hbu.
  - destruct Ht as [_ Hk]. cbn [recs] in Hsort. fold (grove_recs kids) in Hsort.
    destruct (branch_pick t h _ txn l n kids p born hd key (ha_owns _ _ _ _ _ _ _ _ Hd) Hp Hs Hb Hk Hsort Hkey)
      as (l1 & x & l2 & -> & Hch & (bb & Hlb) & Hbc).
    assert (Elook : look n (fun txn limit page =>
        header ← tree_parse page txn expected; born ← born_txn page;
        if h_level header =? 0 then selection ← selector page header path; Ok (InspectedLeaf A header (born =? txn) selection)
        else '(index, _) ← lower_bound page header key false; child ← branch_child page header index limit;
             Ok (InspectedBranch A header (born =? txn) index child)) t = (t, Ok (InspectedBranch A hd (born =? txn) (zlen l1) (root_of x)))).
    { rewrite (look_ok _ _ _ _ _ _ _ (ha_owns _ _ _ _ _ _ _ _ Hd) Hp). f_equal. rewrite (sheet_parse _ _ _ _ _ txn expected Hs Hb Hexp).
      cbn [mbind outcome_bind]. rewrite (sheet_born _ _ _ _ _ Hs). cbn [mbind outcome_bind].
      rewrite (sh_level _ _ _ _ _ Hs), (proj2 (Z.eqb_neq _ 0)) by lia. rewrite Hlb. cbn [mbind outcome_bind]. by rewrite Hbc. }
    step Elook. destruct (activate_ok t h (Datatypes.S l + k) txn (Datatypes.S l) ctx (Bough n (l1 ++ x :: l2)) key0 p born hd Hd Hp Hs Hb)
      as (t1 & h1 & a & q & E1 & Hq & Hsq & Hd1 & Hg1 & Hbu1 & Hz); [lia |].
    cbn [root_of reroot cells_of] in *. step E1.
    assert (Epush : path_push path (mkTFrame a (zlen l1) (h_item_count hd)) = Ok (mkTFrame a (zlen l1) (h_item_count hd) :: path)).
    { unfold path_push. apply Forall2_length in Hpath. rewrite (proj2 (Z.leb_gt _ (zlen path))) by (unfold zlen; lia). done. }
    rewrite Epush, lift_bind. set (f := mkTFrame a (zlen l1) (h_item_count hd)). set (c := mkCrumb a l1 l2).
    pose proof Hd1 as [Ho1 Hh1 Hf1 Ht1 Hnd1 Hroot1]. cbn [stands] in Ht1. destruct Ht1 as [_ Hk1].
    apply Forall_app in Hk1 as [Hk1 Hk2]. apply Forall_cons in Hk2 as [Hx Hk2].
    destruct (stands_first _ _ _ _ Hx) as (e & rest & He & _ & Hvk & Hcell).
    assert (Hp2 : ctx_pages (c :: ctx) ++ pages x ≡ₚ ctx_pages ctx ++ pages (Bough a (l1 ++ x :: l2))).
    { cbn [ctx_pages c cr_page cr_left cr_right pages]. fold (grove_pages (l1 ++ x :: l2)). rewrite grove_pages_app, grove_pages_cons. solve_Permutation. }
    assert (Hd2 : halted t1 h1 (Datatypes.S l + k) txn l (c :: ctx) x (leaf_key e)).
    { split; try done.
      - cbn [hung c cr_page cr_left cr_right]. split; [| split; [done |]; split; [done |]].
        + exists q, hd. split; [done |]. rewrite fmap_app, fmap_cons, Hcell in Hsq. done.
        + assert (Hlead : first_is (Bough a (l1 ++ x :: l2)) (lead l1 (leaf_key e))) by (apply lead_first; by exists e, rest).
          destruct Hf1 as (e1 & r1 & He1 & ->), Hlead as (e2 & r2 & He2 & ->). by assert (e1 = e2) as <- by congruence.
      - by exists e, rest.
      - by rewrite Hp2. }
    assert (Hsx : sp_sorted lrank (recs x)) by (rewrite grove_recs_app, grove_recs_cons in Hsort; by apply sorted_middle in Hsort).
    destruct (IH x (c :: ctx) (f :: path) t1 h1 k txn (leaf_key e) rounds (Some (Z.of_nat l)))
      as (t' & h' & ctx' & path' & a' & es & hd' & sel & key1 & before & after & E & Hre & HSel & Hpath' & Hlen' & Hrecs & Hsu & Hbef & Haft & Hg & Hbu);
      [done | constructor; [done | done] | done | lia | done | cbn [length]; lia | lia |].
    cbn [parent_of c cr_page cr_left] in E. rewrite (sh_level _ _ _ _ _ Hs).
    replace (Z.of_nat (Datatypes.S l) - 1) with (Z.of_nat l) by lia.
    exists t', h', ctx', path', a', es, hd', sel, key1, (grove_recs l1 ++ before), (after ++ grove_recs l2).
    split; [exact E |]. split; [done |]. split; [done |]. split; [done |]. split; [rewrite Hlen'; cbn [length]; lia |].
    assert (Hg2 : grows h1 (ctx_pages ctx ++ pages (Bough a (l1 ++ x :: l2))) h' (ctx_pages ctx' ++ [a'])) by (by eapply grows_perm).
    split; [cbn [recs]; fold (grove_recs (l1 ++ x :: l2)); rewrite grove_recs_app, grove_recs_cons, Hrecs, <- !app_assoc; done |].
    split. { rewrite <- !records_kids. eapply surrounds_kid; [exact Hch | exact Hrecs | | done].
             pose proof (stands_valid _ _ _ _ (ha_stands _ _ _ _ _ _ _ _ (re_halted _ _ _ _ _ _ _ _ _ Hre))) as [? _]. done. }
    split; [rewrite Hbef; cbn [ctx_before c cr_left]; by rewrite app_assoc |].
    split; [rewrite Haft; cbn [ctx_after c cr_right]; by rewrite app_assoc |].
    split; [by eapply grows_trans |].
    change (Datatypes.S (Datatypes.S l)) with (1 + Datatypes.S l)%nat. eapply buries_both; [| exact Hg2 | exact Hbu |].
    + destruct Hbu1 as (dead & Ed & Ld & Dd). exists dead. split; [done |]. split; [done |]. intros m Hm. destruct (Dd m Hm) as (->%list_elem_of_singleton & Hm2).
      split; [cbn [pages]; constructor | done].
    + intros m Hm. cbn [pages]. right. apply elem_of_grove_pages. exists x. split; [| done]. apply elem_of_app. right. constructor.
Qed.
End Loop.
End Descent.
