(* ===== verification/TreeEdits.v ===== *)
(** * Insertion, deletion and replacement in a tree

    The mutations of [fixed_tree.rs] on a store that serves the tree's pages:
    they succeed, and leave a tree over the list of records that the
    specification of an ordered map ([sp_upsert], [sp_remove], [sp_replace])
    prescribes. *)

From stdpp Require Import base tactics numbers list strings sorting gmap.
From Stdlib Require Import ZArith Lia.
From S2P Require Import Prelude Errors Bytes PageHeader SlottedPage SlottedFacts SlottedTheorems Codec TreeInterface Machine Draft Store.
From S2P Require Import TreePage TreeFacts TreeQuery TreeCursor TreeMutation TreePageFacts TreeStore TreeUpward TreeDescent.

#[local] Open Scope string_scope.
#[local] Open Scope list_scope.
#[local] Open Scope Z_scope.

Section Edits.
Context {Key Leaf : Type} `{CodecLaws Key Leaf} {S : Type} `{StoreLaws S}.
Implicit Types t : Tree S.

(** ** Where a key cuts the records *)

(** The leaf's records [es] are [e1 ++ mid ++ e2], with [mid] the record of
    the key if there is one, and all the tree's records are cut alike. *)
Record cut_at (key : Key) (before es after e1 mid e2 : list Leaf) (i : Z) (exact : bool) : Prop := {
  cu_es : es = e1 ++ mid ++ e2;
  cu_index : i = zlen e1;
  cu_mid : if exact then exists x, mid = [x] /\ leaf_key x = key else mid = [];
  cu_below : sp_below lrank (rank key) (before ++ es ++ after) = before ++ e1;
  cu_above : sp_above lrank (rank key) (before ++ es ++ after) = e2 ++ after;
  cu_member : sp_member lrank (before ++ es ++ after) (rank key) = exact;
}.

Lemma below_all (es : list Leaf) k : (forall e, e ∈ es -> lrank e < k) -> sp_below lrank k es = es /\ sp_above lrank k es = [].
Proof using Type.
  intros He. unfold sp_below, sp_above. split; [by apply filter_all |]. apply elem_of_nil_inv. intros e [? Hin]%list_elem_of_filter.
  specialize (He e Hin). lia.
Qed.
Lemma above_all (es : list Leaf) k : (forall e, e ∈ es -> k < lrank e) -> sp_below lrank k es = [] /\ sp_above lrank k es = es.
Proof using Type.
  intros He. unfold sp_below, sp_above. split; [| by apply filter_all]. apply elem_of_nil_inv. intros e [? Hin]%list_elem_of_filter.
  specialize (He e Hin). lia.
Qed.

Lemma cut_parts key before e1 mid e2 after : (forall e, e ∈ before -> lrank e < rank key) -> (forall e, e ∈ e1 -> lrank e < rank key) ->
  (forall e, e ∈ mid -> lrank e = rank key) -> (forall e, e ∈ e2 -> rank key < lrank e) -> (forall e, e ∈ after -> rank key < lrank e) ->
  sp_below lrank (rank key) (before ++ (e1 ++ mid ++ e2) ++ after) = before ++ e1
  /\ sp_above lrank (rank key) (before ++ (e1 ++ mid ++ e2) ++ after) = e2 ++ after.
Proof using Type.
  intros Hb H1' Hm H2' Ha. destruct (below_all before _ Hb) as [B1 B2], (below_all e1 _ H1') as [C1 C2],
    (above_all e2 _ H2') as [D1 D2], (above_all after _ Ha) as [E1 E2]. unfold sp_below, sp_above in *.
  assert (filter (fun l => lrank l < rank key) mid = [] /\ filter (fun l => rank key < lrank l) mid = []) as [M1 M2].
  { split; apply elem_of_nil_inv; intros e [? Hin]%list_elem_of_filter; specialize (Hm e Hin); lia. }
  rewrite !filter_app, B1, B2, C1, C2, D1, D2, E1, E2, M1, M2. split; [by rewrite !app_nil_r | done].
Qed.

Lemma cut_ok key before es after i exact : sp_sorted lrank (before ++ es ++ after) -> Forall valid_leaf es -> valid_key key -> es <> [] ->
  surrounds key before es after -> place (leaf_key <$> es) key i exact -> exists e1 mid e2, cut_at key before es after e1 mid e2 i exact.
Proof using Type*.
  intros Hs Hv Hkey Hne [Hlow Hhigh] [Hr Hbelow Habove Hexact]. assert (Hz : zlen (leaf_key <$> es) = zlen es) by (unfold zlen; by rewrite length_fmap).
  rewrite Hz in Hr. pose proof (sorted_middle _ _ _ Hs) as Hse.
  assert (Hb : forall e, e ∈ before -> lrank e < rank key).
  { destruct Hlow as [-> | (e0 & rest & He0 & Hle)]; [intros e He; by apply elem_of_nil in He |]. intros e He.
    apply StronglySorted_app in Hs as (Hlt & _ & _). pose proof (Hlt e e0 He) as Hlt'. rewrite He0 in Hlt'. specialize (Hlt' ltac:(constructor)). lia. }
  set (e1 := take (Z.to_nat i) es). assert (Hz1 : zlen e1 = i) by (unfold e1, zlen; rewrite length_take; unfold zlen in Hr; lia).
  assert (H1' : forall e, e ∈ e1 -> lrank e < rank key).
  { intros e He. apply list_elem_of_lookup in He as (j & Hj). unfold e1 in Hj. apply lookup_take_Some in Hj as [Hj Hlt].
    apply (Hbelow j (leaf_key e)); [by rewrite list_lookup_fmap, Hj | lia]. }
  assert (Hrest : forall j e, drop (Z.to_nat i) es !! j = Some e -> rank key <= lrank e).
  { intros j e Hj. rewrite lookup_drop in Hj. apply (Habove (Z.to_nat i + j)%nat (leaf_key e)); [by rewrite list_lookup_fmap, Hj | lia]. }
  destruct (drop (Z.to_nat i) es) as [|x e2'] eqn:Hd.
  - assert (exact = false) as ->.
    { destruct exact; [| done]. destruct (proj1 Hexact eq_refl) as (kx & Hkx & _). rewrite list_lookup_fmap, fmap_Some in Hkx.
      destruct Hkx as (x & Hx & _). apply (f_equal (fun l => l !! 0%nat)) in Hd. rewrite lookup_drop, Nat.add_0_r in Hd. cbn in Hd. congruence. }
    assert (Hes : es = e1 ++ [] ++ []) by (rewrite <- (take_drop (Z.to_nat i) es) at 1; by rewrite Hd).
    destruct (cut_parts key before e1 [] [] after Hb H1') as [E1 E2]; [by intros e ?%elem_of_nil | by intros e ?%elem_of_nil | done |].
    rewrite <- Hes in E1, E2. exists e1, [], []. split; try done. apply sp_member_false. intros y Hy He.
    assert (Hin : y ∈ before ++ e1 ++ after) by (rewrite Hes, app_nil_l, app_nil_r in Hy; done). rewrite !elem_of_app in Hin.
    destruct Hin as [Hin | [Hin | Hin]]; [specialize (Hb y Hin) | specialize (H1' y Hin) | specialize (Hhigh y Hin)]; lia.
  - assert (Hes : es = e1 ++ x :: e2') by (rewrite <- (take_drop (Z.to_nat i) es) at 1; by rewrite Hd).
    assert (Hx : es !! Z.to_nat i = Some x) by (rewrite <- (Nat.add_0_r (Z.to_nat i)), <- lookup_drop, Hd; done).
    assert (H2' : forall e, e ∈ e2' -> lrank x < lrank e).
    { intros e He. rewrite Hes in Hse. apply StronglySorted_app in Hse as (_ & _ & Hse). apply StronglySorted_inv in Hse as [_ Hall].
      rewrite Forall_forall in Hall. by apply Hall. }
    pose proof (Hrest 0%nat x eq_refl) as Hxk.
    assert (Hvx : valid_leaf x) by (rewrite Forall_forall in Hv; apply Hv; by eapply list_elem_of_lookup_2).
    destruct exact.
    + destruct (proj1 Hexact eq_refl) as (kx & Hkx & Hrk). rewrite list_lookup_fmap, Hx in Hkx. injection Hkx as <-.
      destruct (cut_parts key before e1 [x] e2' after Hb H1') as [E1 E2]; [intros e ->%list_elem_of_singleton; exact Hrk | intros e He; specialize (H2' e He); unfold lrank in *; lia | done |].
      change ([x] ++ e2') with (x :: e2') in E1, E2. rewrite <- Hes in E1, E2.
      exists e1, [x], e2'. split; try done; [exists x; split; [done |]; apply cl_rank_inj; [by apply cl_leaf_key | done | done] |].
      apply sp_member_spec. exists x. split; [| exact Hrk]. rewrite Hes, !elem_of_app. right. left. right. constructor.
    + assert (Hlt : rank key < lrank x).
      { destruct (Z.eq_dec (lrank x) (rank key)) as [He | ?]; [| lia]. assert (false = true); [| done]. apply Hexact.
        exists (leaf_key x). by rewrite list_lookup_fmap, Hx. }
      assert (H2'' : forall e, e ∈ x :: e2' -> rank key < lrank e) by (intros e [-> | He]%elem_of_cons; [done | specialize (H2' e He); lia]).
      destruct (cut_parts key before e1 [] (x :: e2') after Hb H1') as [E1 E2]; [by intros e ?%elem_of_nil | done | done |].
      rewrite app_nil_l, <- Hes in E1, E2. exists e1, [], (x :: e2'). split; try done. apply sp_member_false. intros y Hy He.
      rewrite Hes, !elem_of_app in Hy. destruct Hy as [Hy | [[Hy | Hy] | Hy]];
        [specialize (Hb y Hy) | specialize (H1' y Hy) | specialize (H2'' y Hy) | specialize (Hhigh y Hy)]; lia.
Qed.

(** ** The leaf a mutation works on *)

(** What [locate_leaf] leaves: the private leaf in its context, and the cut
    the key makes. *)
Record located (t : Tree S) (h : Pages) (k : nat) (txn : Z) (key : Key) (target : LeafTarget) (ctx : list crumb)
    (es e1 mid e2 : list Leaf) (key0 : Key) : Prop := {
  lo_reached : reached t h k txn ctx (lt_page_number target) es (lt_header target) key0;
  lo_path : Forall2 frame_at (lt_path target) ctx;
  lo_valid : Forall valid_leaf es;
  lo_cut : cut_at key (ctx_before ctx) es (ctx_after ctx) e1 mid e2 (lt_index target) (lt_exists target);
}.

Lemma locate_ok t h k txn level T key : planted t h (Datatypes.S level + k) txn level T -> sp_sorted lrank (recs T) -> valid_key key ->
  zlen (tr_retired t) + Z.of_nat level <= MAX_PATH ->
  exists t' h' target ctx es e1 mid e2 key0, locate_leaf key t = (t', Ok target)
    /\ located t' h' k txn key target ctx es e1 mid e2 key0 /\ length ctx = level
    /\ recs T = ctx_before ctx ++ es ++ ctx_after ctx
    /\ grows h (pages T) h' (ctx_pages ctx ++ [lt_page_number target]) /\ buries (Datatypes.S level) t t' (pages T) h' (ctx_pages ctx ++ [lt_page_number target]).
Proof using Type*.
  intros [Ho Hroot Ht Hnd Hlev] Hs Hkey Hret. destruct (stands_first _ _ _ _ Ht) as (e & rest & He & _).
  assert (Hd : halted t h (Datatypes.S level + k) txn level [] T (leaf_key e)) by (split; [done | done | by exists e, rest | done | done | done]).
  destruct (path_loop_ok key (fun page header _ => lower_bound page header key true)
      (fun _ es sel => place (leaf_key <$> es) key (fst sel) (snd sel))) with (level := level) (T := T) (ctx := @nil (crumb (Leaf := Leaf)))
      (path := @nil TFrame) (t := t) (h := h) (k := k) (txn := txn) (key0 := leaf_key e) (rounds := Z.to_nat (MAX_PATH + 1)) (expected := @None Z)
    as (t' & h' & ctx & path & a & es & hd & sel & key1 & before & after & E & Hre & Hsel & Hpath & Hlen & Hrecs & Hsu & Hbef & Haft & Hg & Hbu);
    [| done | done | constructor | done | unfold MAX_PATH, MAX_TREE_LEVEL in *; lia | done | cbn; unfold MAX_PATH in *; lia | done |].
  { intros born es p hd path Hsh Hv Hse. destruct (leaf_place p hd es key) as (i & exact & Hpl & Hlb); try done.
    - apply slotted_legible, (sh_slotted _ _ _ _ _ Hsh).
    - pose proof (sh_nonempty _ _ _ _ _ Hsh) as Hne. by destruct es.
    - apply (sh_level _ _ _ _ _ Hsh).
    - by exists (i, exact). }
  destruct sel as [i exact]. cbn [fst snd ctx_before ctx_after app] in *. rewrite app_nil_r in Haft. subst before after.
  pose proof (ha_stands _ _ _ _ _ _ _ _ (re_halted _ _ _ _ _ _ _ _ _ Hre)) as Hst. destruct (stands_valid _ _ _ _ Hst) as [Hne Hv]. cbn [recs] in Hne, Hv.
  rewrite Hrecs in Hs. destruct (cut_ok key _ _ _ i exact Hs Hv Hkey Hne Hsu Hsel) as (e1 & mid & e2 & Hcut).
  exists t', h', (mkLeafTarget path a hd i exact), ctx, es, e1, mid, e2, key1. split; [| split; [by split |]; split_and!; done].
  unfold locate_leaf, private_path, private_path_select. rewrite <- Hroot in E. cbn [parent_of] in E.
  unfold mbind at 1, io_bind at 1. rewrite gets_bind. rewrite E. done.
Qed.

(** ** The tree of a root *)

(** [height] counts the levels; no root, no level and no page. *)
Definition tree_state (t : Tree S) (h : Pages) (k : nat) (txn : Z) (height : nat) (es : list Leaf) (X : list Z) : Prop :=
  owns t h k txn /\ sp_sorted lrank es
  /\ (tr_root t = 0 /\ es = [] /\ X = [] /\ height = 0%nat
      \/ exists level T, height = Datatypes.S level /\ planted t h k txn level T /\ recs T = es /\ X = pages T).

(** A leaf edited in place, with the fences repaired above it. *)
Definition rooted (t t0 : Tree S) (h0 : Pages) (X0 : list Z) (k : nat) (txn : Z) (es : list Leaf) (top : nat) : Prop :=
  exists h' height X, tree_state t h' k txn height es X /\ grows h0 X0 h' X /\ buries top t0 t X0 h' X /\ (height <= top)%nat.

Lemma yields_rooted m t0 t h0 X0 h X k txn es top : yields m t h X k txn es top -> sp_sorted lrank es ->
  grows h0 X0 h X -> buries top t0 t X0 h X ->
  exists t', m t = (t', Ok tt) /\ rooted t' t0 h0 X0 k txn es (Datatypes.S top).
Proof using Type*.
  intros (t' & h' & level & T & E & Hp & He & Hg & Hr & Hl) Hs Hg0 Hb0. exists t'. split; [done |].
  exists h', (Datatypes.S level), (pages T). split.
  - split; [apply Hp |]. split; [done |]. right. exists level, T. by repeat split; try apply Hp.
  - split; [by eapply grows_trans |]. split; [eapply buries_grows; [done | done | done | lia] | lia].
Qed.

(** ** A leaf edited in place *)

Lemma leaf_cells es : Forall valid_leaf es -> Forall (good_cell 0) (leaf_bytes <$> es).
Proof using Type*. intros Hv. rewrite Forall_fmap. eapply Forall_impl; [exact Hv |]. intros e He. by apply cl_leaf_bytes. Qed.

Lemma leaf_readable es : Forall valid_leaf es -> Forall (readable 0) (leaf_bytes <$> es).
Proof using Type*. intros Hv. rewrite Forall_fmap. eapply Forall_impl; [exact Hv |]. intros e He. eexists. by apply cl_read_leaf_key. Qed.

Lemma leaf_painted t h k txn ctx a es hd key0 f q q' hd' es' : reached t h k txn ctx a es hd key0 -> h !! a = Some q ->
  f q = Ok q' -> sheet txn 0 (leaf_bytes <$> es') q' hd' -> Forall valid_leaf es' ->
  exists t' h', on_store (update_page a (put f)) t = (t', Ok tt) /\ owns t' h' k txn /\ hung h' txn 0 ctx a key0
    /\ stands h' txn 0 (Twig a es') /\ tr_root t' = root_of (plug ctx (Twig a es')) /\ tr_retired t' = tr_retired t
    /\ (exists q'', h' !! a = Some q'' /\ sheet txn 0 (leaf_bytes <$> es') q'' hd')
    /\ (forall m, m <> a -> h' !! m = h !! m).
Proof using Type*.
  intros [Hd (q0 & Hq0 & Hs0)] Hq Hf Hs Hv. assert (q0 = q) as -> by congruence. pose proof Hd as [Ho Hh Hfi Ht Hnd Hroot].
  pose proof (owns_txn _ _ _ _ Ho) as Htxn. cbn [root_of pages] in *. apply NoDup_app in Hnd as (_ & Hnd & _).
  destruct (paint_ok t h k txn a q f q' 0 _ hd 0 _ hd' Ho Hq Hs0 Hf Hs) as (t1 & q1 & E1 & Hs1 & Ho1 & [Hr1 Hr2]).
  exists t1, (<[a := q1]> h). split; [done |]. split; [done |]. split; [apply hung_insert; [intros Ha; apply (Hnd a Ha); constructor | done] |].
  split; [split; [exists q1, hd', txn; split; [apply lookup_insert_eq | split; [done | lia]] | done] |].
  split; [rewrite Hr1, Hroot; by apply plug_root |]. split; [done |]. split; [exists q1; split; [apply lookup_insert_eq | done] |].
  intros m Hm. by apply lookup_insert_ne.
Qed.

Lemma repair_ok t h k txn ctx path a es' key0 key' i : owns t h (length ctx + 1 + k) txn -> hung h txn 0 ctx a key0 -> valid_key key0 ->
  stands h txn 0 (Twig a es') -> NoDup (ctx_pages ctx ++ [a]) -> tr_root t = root_of (plug ctx (Twig a es')) -> Forall2 frame_at path ctx ->
  (i = 0 -> first_is (Twig a es') key') -> (i <> 0 -> first_is (Twig a es') key0) -> Z.of_nat (length ctx) < MAX_TREE_LEVEL ->
  yields (if i =? 0 then propagate_first_from path key' else mret tt) t h (ctx_pages ctx ++ [a]) k txn
    (ctx_before ctx ++ es' ++ ctx_after ctx) (length ctx + 1).
Proof using Type*.
  intros Ho Hh Hk0 Ht Hnd Hroot Hpath Hf1 Hf2 Hlev. destruct (propagate_ok txn ctx path Hpath) as [_ Hfirst].
  destruct (Z.eqb_spec i 0) as [Hi | Hi].
  - apply (Hfirst 0%nat (Twig a es') key' key0); try done. by apply Hf1.
  - destruct (yields_done t h h k txn 0 ctx (Twig a es') key0) as (t' & h' & lv & T & E & Hp & He & Hg & Hr & Hl); try done.
    + eapply owns_less; [exact Ho | lia].
    + by apply Hf2.
    + cbn. lia.
    + apply grows_refl.
    + exists t', h', lv, T. do 4 (split; [done |]). split; [done | lia].
Qed.

(** ** Insertion *)

Lemma first_of_insert key before es after e1 mid e2 i exact (l : Leaf) a key0 : cut_at key before es after e1 mid e2 i exact ->
  first_is (Twig a es) key0 -> i <> 0 -> first_is (Twig a (e1 ++ l :: e2)) key0.
Proof using Type.
  intros [-> -> _ _ _ _] (e & rest & He & ->) Hi. cbn [recs] in *. destruct e1 as [|x e1]; [done |].
  injection He as -> _. exists e, (e1 ++ l :: e2). done.
Qed.

Lemma upsert_cut key before es after e1 mid e2 i exact l : cut_at key before es after e1 mid e2 i exact -> leaf_key l = key ->
  sp_upsert lrank (before ++ es ++ after) l = before ++ (e1 ++ l :: e2) ++ after.
Proof using Type.
  intros Hc Hl. unfold sp_upsert. replace (lrank l) with (rank key) by (unfold lrank; by rewrite Hl).
  rewrite (cu_below _ _ _ _ _ _ _ _ _ Hc), (cu_above _ _ _ _ _ _ _ _ _ Hc), <- !app_assoc. done.
Qed.

(** The leaf's edit, when it fits. *)
Lemma edit_in_place t h k txn key target ctx es e1 mid e2 key0 l :
  located t h k txn key target ctx es e1 mid e2 key0 -> valid_leaf l ->
  (lt_exists target = false -> fits 0 (zlen es + 1)) ->
  exists q q' hd', h !! lt_page_number target = Some q /\ sheet txn 0 (leaf_bytes <$> es) q (lt_header target)
    /\ edit_fits q (lt_header target) (mkEdit (lt_index target) (lt_exists target) (leaf_bytes l)) = Ok true
    /\ apply_edit (lt_header target) (mkEdit (lt_index target) (lt_exists target) (leaf_bytes l)) q = Ok q'
    /\ sheet txn 0 (leaf_bytes <$> (e1 ++ l :: e2)) q' hd'.
Proof using Type*.
  intros [[_ (q & Hq & Hs)] _ Hv Hc] Hl Hfit. pose proof (cl_leaf_bytes l Hl) as Hg.
  assert (Hgood : good_cell 0 (leaf_bytes l)) by exact Hg.
  pose proof Hc as [Hes Hi Hm _ _ _]. assert (Hz : forall x, zlen (leaf_bytes <$> x) = zlen x) by (intros x; unfold zlen; by rewrite length_fmap).
  exists q. rewrite fmap_app, fmap_cons. subst es. pose proof Hs as Hs'. rewrite Hi, <- (Hz e1). destruct (lt_exists target).
  - destruct Hm as (x & -> & _). rewrite fmap_app in Hs'. cbn [app] in Hs'. rewrite fmap_cons in Hs'.
    destruct (apply_edit_replace _ _ _ _ _ _ _ _ Hs' Hgood) as (q' & hd' & E & Hs2). exists q', hd'.
    split; [done |]. split; [done |]. split; [by eapply edit_fits_replace | done].
  - subst mid. cbn [app] in *. rewrite fmap_app in Hs'. specialize (Hfit eq_refl).
    assert (Hfit' : fits 0 (zlen ((leaf_bytes <$> e1) ++ (leaf_bytes <$> e2)) + 1)) by (by rewrite <- fmap_app, Hz).
    destruct (apply_edit_insert _ _ _ _ _ _ _ Hs' Hgood Hfit') as (q' & hd' & E & Hs2). exists q', hd'.
    split; [done |]. split; [done |]. split; [| done]. rewrite (edit_fits_insert _ _ _ _ _ _ _ Hs' Hgood). by rewrite bool_decide_true.
Qed.

(** Two leaves from one. *)
Lemma leaf_halves (es : list Leaf) : let m := Z.to_nat (middle_of (leaf_bytes <$> es)) in
  left_half (leaf_bytes <$> es) = leaf_bytes <$> take m es /\ right_half (leaf_bytes <$> es) = leaf_bytes <$> drop m es.
Proof using Type. cbn zeta. unfold left_half, right_half. by rewrite fmap_take, fmap_drop. Qed.

Lemma leaf_first a (es : list Leaf) c rest key : Forall valid_leaf es -> leaf_bytes <$> es = c :: rest -> read_key c 0 = Ok key -> first_is (Twig a es) key.
Proof using Type*.
  intros Hv Hc Hk. destruct es as [|e es]; [done |]. rewrite fmap_cons in Hc. injection Hc as <- _. apply Forall_cons in Hv as [Hv _].
  rewrite cl_read_leaf_key in Hk by done. injection Hk as <-. by exists e, es.
Qed.

Lemma split_leaf_ok t h k txn key target ctx es e1 e2 key0 l :
  located t h (Datatypes.S (length ctx + 1 + k)) txn key target ctx es e1 [] e2 key0 -> lt_exists target = false -> valid_leaf l ->
  ~ fits 0 (zlen es + 1) -> Z.of_nat (length ctx) < MAX_TREE_LEVEL ->
  yields (split_leaf target (mkEdit (lt_index target) false (leaf_bytes l))) t h (ctx_pages ctx ++ [lt_page_number target]) k txn
    (ctx_before ctx ++ (e1 ++ l :: e2) ++ ctx_after ctx) (length ctx + 1).
Proof using Type*.
  intros [[Hd (q & Hq & Hs)] Hpath Hv Hc] Hex Hl Hfull Hlev. pose proof Hd as [Ho Hh Hfi Ht Hnd Hroot]. pose proof (owns_txn _ _ _ _ Ho) as Htxn.
  pose proof Hc as [Hes Hi _ _ _ _]. cbn [app] in Hes. subst es. set (a := lt_page_number target) in *. set (hd := lt_header target) in *.
  assert (Hz : forall x, zlen (leaf_bytes <$> x) = zlen x) by (intros x; unfold zlen; by rewrite length_fmap).
  set (es' := e1 ++ l :: e2). assert (Hv' : Forall valid_leaf es').
  { apply Forall_app in Hv as [? ?]. apply Forall_app_2; [done |]. by constructor. }
  set (vs := leaf_bytes <$> es'). assert (Hvs : vs = (leaf_bytes <$> e1) ++ leaf_bytes l :: (leaf_bytes <$> e2)) by (unfold vs, es'; by rewrite fmap_app, fmap_cons).
  pose proof Hs as Hs'. rewrite fmap_app in Hs'. destruct (sheet_header _ _ _ _ _ Hs) as (Hcount & _ & _ & Hpos & Hfit0).
  assert (Hzv : zlen vs = zlen (leaf_bytes <$> (e1 ++ e2)) + 1) by (unfold vs, es'; rewrite !Hz, !zlen_app, zlen_cons; lia).
  assert (Hz2 : 2 <= zlen vs) by lia. assert (Hgood : good_cell 0 (leaf_bytes l)) by (by apply cl_leaf_bytes).
  destruct (halves_fit 0 vs (zlen (leaf_bytes <$> (e1 ++ e2)))) as [Hf1 Hf2]; [lia | done | done | lia | done |].
  set (e := mkEdit (lt_index target) false (leaf_bytes l)).
  assert (He : e = mkEdit (zlen (leaf_bytes <$> e1)) false (leaf_bytes l)) by (unfold e; by rewrite Hi, Hz).
  assert (Emid : on_store (inspect_page a (fun source => split_index source hd e)) t = (t, Ok (middle_of vs))).
  { rewrite (inspect_ok _ _ _ _ _ _ _ Ho Hq). f_equal. unfold split_index, edit_total. cbn [e e_replace].
    rewrite (sh_level _ _ _ _ _ Hs), fixed_cell_size_eq, Hcount, <- Hzv. apply (fixed_split_ok 0 vs (zlen (leaf_bytes <$> (e1 ++ e2)))); done || lia. }
  destruct (allocate_ok _ _ _ _ Ho) as (t1 & r & q0 & E1 & Hr & Hw & Hq0 & Ho1 & Hq1).
  assert (Har : a <> r) by congruence.
  destruct (build_right txn 0 _ q hd (virtual_cell q hd e) vs Hs) as (q1 & hq & Eq & Hsq); try done.
  { intros i Hir. rewrite He, Hvs in *. by apply (virtual_insert _ _ _ _ _ _ _ _ Hs'). } { by apply leaf_cells. }
  destruct (copy_ok t1 (<[r := q0]> h) _ txn a r q q0
      (fun source => put (fun _ => build_edit source hd e (middle_of vs) (zlen vs))) q1 0 (right_half vs) hq Ho1 Har)
    as (t2 & q2 & E2 & Hs2 & Ho2 & Hq2); try done.
  { by rewrite lookup_insert_ne. } { by apply lookup_insert_eq. } { unfold put, build_edit. by rewrite Eq. }
  rewrite insert_insert_eq in Ho2.
  destruct (keep_left_edit_ok txn 0 _ _ q hd (leaf_bytes l) Hs' Htxn Hgood) as (p1 & hd1 & Ep & Hs1); [by rewrite <- Hvs |]. rewrite <- He, <- Hvs in Ep. rewrite <- Hvs in Hs1.
  destruct (paint_ok t2 (<[r := q2]> h) _ txn a q (keep_left_edit txn hd e (middle_of vs)) p1 0 (leaf_bytes <$> (e1 ++ e2)) hd 0 (left_half vs) hd1 Ho2)
    as (t3 & p2 & E3 & Hs3 & Ho3 & Hq3); try done.
  { by rewrite lookup_insert_ne. }
  destruct (leaf_halves es') as [Hlh Hrh]. fold vs in Hlh, Hrh. set (m := Z.to_nat (middle_of vs)) in *.
  destruct (halves_length vs Hz2) as (_ & _ & Hnl & Hnr). rewrite Hlh in Hs3, Hnl. rewrite Hrh in Hs2, Hnr.
  rewrite <- (take_drop m es') in Hv'. apply Forall_app in Hv' as [Hv1 Hv2].
  pose proof (leaf_readable _ Hv1) as Hr1. pose proof (leaf_readable _ Hv2) as Hr2.
  destruct (leaf_bytes <$> take m es') as [|cl restl] eqn:Hcl; [done |]. destruct (leaf_bytes <$> drop m es') as [|cr restr] eqn:Hcr; [done |].
  apply Forall_cons in Hr1 as [(lf & Hlf) _], Hr2 as [(rf & Hrf) _].
  assert (E4 : first_key a 0 t3 = (t3, Ok lf)) by (eapply first_key_ok; [exact Ho3 | apply lookup_insert_eq | exact Hs3 | lia | done]).
  assert (E5 : first_key r 0 t3 = (t3, Ok rf)).
  { eapply first_key_ok; [exact Ho3 | rewrite lookup_insert_ne by done; apply lookup_insert_eq | exact Hs2 | lia | done]. }
  destruct (quiet_trans _ _ _ (quiet_trans _ _ _ Hq1 Hq2) Hq3) as [Hrt Hrd]. cbn [pages] in Hnd.
  assert (Hrn : r ∉ ctx_pages ctx ++ [a]) by (intros Hm; destruct (halted_in _ _ _ _ _ _ _ _ r Hd Hm); congruence).
  pose proof Hnd as Hnd0. apply NoDup_app in Hnd0 as (Hn1 & Hn2 & _). rewrite not_elem_of_app in Hrn. destruct Hrn as [Hrc Hra].
  destruct (propagate_ok txn ctx (lt_path target) Hpath) as [Hsplit _].
  eapply (yields_run _ (propagate_split_from (lt_path target) a lf r rf 0) t t3).
  { unfold split_leaf. fold a hd. step Emid. unfold split_leaf_at. fold a hd. step E1. unfold edit_total. cbn [e e_replace]. fold e. rewrite Hcount, <- Hzv.
    step E2. rewrite gets_bind, (proj2 Ho2). step E3. step E4. by step E5. }
  { done. }
  eapply yields_from with (h := <[a := p2]> (<[r := q2]> h)) (X := ctx_pages ctx ++ pages (Twig a (take m es')) ++ pages (Twig r (drop m es'))).
  - eapply yields_eq; [apply (Hsplit 0%nat (Twig a (take m es')) (Twig r (drop m es')) lf rf key0); try done | done | cbn [recs]; by rewrite take_drop].
    + apply hung_insert; [intros Hm; apply (Hn2 a Hm); constructor |]. by apply hung_insert.
    + by eapply first_valid.
    + split; [| done]. exists p2, hd1, txn. rewrite Hcl. split; [apply lookup_insert_eq | split; [done | lia]].
    + split; [| done]. exists q2, hq, txn. rewrite Hcr. split; [rewrite lookup_insert_ne by done; apply lookup_insert_eq | split; [done | lia]].
    + cbn [pages]. rewrite app_assoc. apply NoDup_app. split; [done |]. split; [| apply NoDup_singleton].
      intros x Hx ->%list_elem_of_singleton. apply elem_of_app in Hx as [Hx | Hx]; done.
    + by eapply leaf_first.
    + by eapply leaf_first.
    + rewrite Hrt, Hroot. by apply plug_root.
  - cbn [pages]. split.
    + intros x y Hx Hy. rewrite not_elem_of_app, not_elem_of_cons in Hx. destruct Hx as (Hx1 & Hx2 & _).
      rewrite lookup_insert_ne by done. rewrite lookup_insert_ne; [done | congruence].
    + intros x. rewrite app_assoc, elem_of_app. intros [? | ->%list_elem_of_singleton]; [by left | by right].
Qed.

Lemma require_leaf_ok l : valid_leaf l -> require_leaf (leaf_bytes l) = Ok tt.
Proof using Type*.
  intros Hl. destruct (cl_leaf_bytes l Hl) as [_ Hz]. pose proof cl_sizes as (Hk & Hlf & Hlp & Hkp & Hmb & Hml). pose proof cl_small as (_ & _ & Hcell).
  unfold require_leaf, require_codec. rewrite Hmb, Hml, (proj2 (Z.eqb_neq (KEY_SIZE + 4) 0)), (proj2 (Z.eqb_neq LEAF_SIZE 0)) by lia.
  rewrite (proj2 (Z.ltb_ge PAGE_SIZE _)), (proj2 (Z.ltb_ge PAGE_SIZE _)), (proj2 (Z.ltb_ge MAX_TREE_CELL _)) by lia. cbn [orb mbind outcome_bind].
  rewrite bool_decide_false by (intros He; rewrite He in Hz; change (zlen []) with 0 in Hz; lia).
  rewrite Hz, Z.ltb_irrefl. cbn [orb]. unfold validate_leaf. by rewrite (cl_read_leaf l Hl).
Qed.

(** After its edit the leaf holds the new record; the rest is the repair. *)
Lemma edit_leaf_ok t h k txn key target ctx es e1 mid e2 key0 l :
  located t h (Datatypes.S (length ctx + 1 + k)) txn key target ctx es e1 mid e2 key0 -> valid_leaf l -> leaf_key l = key ->
  Z.of_nat (length ctx) < MAX_TREE_LEVEL ->
  exists m, yields m t h (ctx_pages ctx ++ [lt_page_number target]) k txn (ctx_before ctx ++ (e1 ++ l :: e2) ++ ctx_after ctx) (length ctx + 1)
    /\ forall t', m t = (t', Ok tt) -> edit_leaf (leaf_bytes l) target t = (t', Ok (negb (lt_exists target))).
Proof using Type*.
  intros Hloc Hl Hlk Hlev. pose proof Hloc as [[Hd (q0 & Hq0 & Hs0)] Hpath Hv Hc]. pose proof Hd as [Ho Hh Hfi Ht Hnd Hroot].
  pose proof Hc as [Hes Hi Hm _ _ _]. assert (Hv' : Forall valid_leaf (e1 ++ l :: e2)).
  { rewrite Hes, !Forall_app in Hv. destruct Hv as (? & _ & ?). apply Forall_app_2; [done |]. by constructor. }
  destruct (decide (lt_exists target = false /\ ~ fits 0 (zlen es + 1))) as [[Hex Hfull] | Hfits].
  - rewrite Hex in Hm. cbn iota in Hm. subst mid.
    exists (split_leaf target (mkEdit (lt_index target) false (leaf_bytes l))). split; [by eapply split_leaf_ok |]. intros t' E.
    unfold edit_leaf. rewrite Hex. assert (Efit : on_store (inspect_page (lt_page_number target) (fun page =>
        edit_fits page (lt_header target) (mkEdit (lt_index target) false (leaf_bytes l)))) t = (t, Ok false)).
    { rewrite (inspect_ok _ _ _ _ _ _ _ Ho Hq0). f_equal. cbn [app] in Hes. pose proof Hs0 as Hs'. rewrite Hes, fmap_app in Hs'.
      assert (Hz : forall x, zlen (leaf_bytes <$> x) = zlen x) by (intros x; unfold zlen; by rewrite length_fmap).
      rewrite Hi, <- (Hz e1), (edit_fits_insert _ _ _ _ _ _ _ Hs') by (by apply cl_leaf_bytes).
      by rewrite bool_decide_false by (by rewrite <- fmap_app, <- Hes, Hz). }
    step Efit. cbn [negb]. by step E.
  - assert (Hfit : lt_exists target = false -> fits 0 (zlen es + 1)).
    { intros Hex. destruct (decide (fits 0 (zlen es + 1))); [done |]. by destruct Hfits. }
    destruct (edit_in_place _ _ _ _ _ _ _ _ _ _ _ _ l Hloc Hl Hfit) as (q & q' & hd' & Hq & Hs & Efit & Eapply & Hs').
    destruct (leaf_painted t h _ txn ctx _ es _ key0 _ q q' hd' (e1 ++ l :: e2) (lo_reached _ _ _ _ _ _ _ _ _ _ _ _ Hloc) Hq Eapply Hs' Hv')
      as (t1 & h1 & E1 & Ho1 & Hh1 & Ht1 & Hr1 & Hd1 & _ & Hframe).
    exists (_ ← on_store (update_page (lt_page_number target) (put (apply_edit (lt_header target) (mkEdit (lt_index target) (lt_exists target) (leaf_bytes l)))));
            if lt_index target =? 0 then propagate_first_from (lt_path target) key else mret tt). split.
    + eapply (yields_run _ (if lt_index target =? 0 then propagate_first_from (lt_path target) key else mret tt) t t1); [by step E1 | done |].
      eapply yields_from; [eapply (repair_ok t1 h1 k txn ctx (lt_path target) _ (e1 ++ l :: e2) key0 key); try done |].
      * eapply owns_less; [exact Ho1 | lia].
      * eapply first_valid; [exact Ht | done].
      * intros Hi0. rewrite Hi0 in Hi. symmetry in Hi. apply zlen_zero_nil in Hi as ->. by exists l, e2.
      * intros Hi0. by eapply first_of_insert.
      * split; [| by left]. intros x y Hx Hy. rewrite Hframe; [done |]. intros ->. apply Hx. rewrite elem_of_app. right. constructor.
    + intros t' E. unfold edit_leaf.
      assert (Ef : on_store (inspect_page (lt_page_number target) (fun page =>
        edit_fits page (lt_header target) (mkEdit (lt_index target) (lt_exists target) (leaf_bytes l)))) t = (t, Ok true)).
      { rewrite (inspect_ok _ _ _ _ _ _ _ Ho Hq). by f_equal. }
      step Ef. cbn [negb]. step E1. rewrite (bind_ok _ _ _ _ _ E1) in E. rewrite (cl_read_leaf_key l Hl), Hlk.
      destruct (lt_index target =? 0); [| by step E].
      assert (E' : (key' ← lift (Ok key); propagate_first_from (lt_path target) key') t1 = (t', Ok tt)) by exact E. by step E'.
Qed.

(** ** Insertion *)

Lemma new_leaf_ok t h k txn l : owns t h (Datatypes.S k) txn -> valid_leaf l ->
  exists t' a q, new_leaf (leaf_bytes l) t = (t', Ok a) /\ h !! a = None /\ owns t' (<[a := q]> h) k txn /\ quiet t t'
    /\ stands (<[a := q]> h) txn 0 (Twig a [l]).
Proof using Type*.
  intros Ho Hl. pose proof (owns_txn _ _ _ _ Ho) as Htxn. destruct (allocate_ok _ _ _ _ Ho) as (t1 & a & q & E1 & Ha & Hw & Hq & Ho1 & Hq1).
  destruct (sheet_single txn 0 (leaf_bytes l) Htxn) as (p1 & hd & Ep & Hs); [done | by apply cl_leaf_bytes |].
  destruct (fill_ok t1 (<[a := q]> h) k txn a q (fun _ => b ← Builder_new LEAF_TYPE txn 0 AUX; b ← builder_push b (leaf_bytes l); builder_finish b)
              p1 0 [leaf_bytes l] hd Ho1) as (t2 & p2 & E2 & Hs2 & Ho2 & Hq2); try done.
  { apply lookup_insert_eq. }
  rewrite insert_insert_eq in Ho2. exists t2, a, p2. split; [unfold new_leaf; step E1; rewrite gets_bind, (proj2 Ho1); by step E2 |].
  split; [done |]. split; [done |]. split; [by eapply quiet_trans |].
  split; [exists p2, hd, txn; split; [apply lookup_insert_eq | split; [done | lia]] | by repeat constructor].
Qed.

Lemma tree_insert_spec t h k txn height es X l :
  tree_state t h (2 * height + 1 + k) txn height es X -> valid_leaf l -> Z.of_nat height <= MAX_TREE_LEVEL ->
  zlen (tr_retired t) + Z.of_nat height <= MAX_PATH + 1 ->
  exists t', tree_insert (leaf_bytes l) t = (t', Ok (negb (sp_member lrank es (lrank l))))
    /\ rooted t' t h X k txn (sp_upsert lrank es l) (height + 1).
Proof using Type*.
  intros (Ho & Hs & Hst) Hl Hlev Hret. unfold tree_insert. rewrite (require_leaf_ok l Hl), lift_bind, gets_bind.
  destruct Hst as [(Hroot & -> & -> & ->) | (level & T & -> & Hp & <- & ->)].
  - rewrite Hroot. cbn [Z.eqb]. destruct (new_leaf_ok t h k txn l) as (t1 & a & q & E1 & Ha & Ho1 & [_ Hr1] & Ht1);
      [eapply owns_less; [exact Ho | lia] | done |].
    step E1. eexists. split; [done |].
    exists (<[a := q]> h), 1%nat, [a]. split; [split; [done |]; split; [repeat constructor |]; right; exists 0%nat, (Twig a [l]); split_and!; try done |].
    + split; try done. cbn. apply NoDup_singleton.
    + split; [split; [intros m p _ Hm; rewrite lookup_insert_ne; [done | congruence] | intros m ->%list_elem_of_singleton; by right] |].
      split; [by apply buries_none | lia].
  - pose proof (stands_bounds _ _ _ _ _ _ (proj1 Ho) (pt_stands _ _ _ _ _ _ Hp)) as [Hbd _].
    rewrite (pt_root _ _ _ _ _ _ Hp), (proj2 (Z.eqb_neq _ 0)) by lia. rewrite (cl_read_leaf_key l Hl), lift_bind.
    destruct (locate_ok t h (Datatypes.S (level + 1 + k)) txn level T (leaf_key l)) as
      (t1 & h1 & target & ctx & es & e1 & mid & e2 & key0 & E1 & Hloc & Hlen & Hrecs & Hg1 & Hb1); [| done | by apply cl_leaf_key | lia |].
    { destruct Hp. split; try done. eapply owns_less; [exact Ho | lia]. }
    rewrite <- Hlen in Hloc. destruct (edit_leaf_ok _ _ _ _ _ _ _ _ _ _ _ _ l Hloc Hl eq_refl) as (m & Hy & Hm); [lia |].
    pose proof (lo_cut _ _ _ _ _ _ _ _ _ _ _ _ Hloc) as Hcut. rewrite <- (upsert_cut _ _ _ _ _ _ _ _ _ l Hcut eq_refl), <- Hrecs in Hy.
    destruct (yields_rooted _ t _ h (pages T) _ _ _ _ _ _ Hy) as (t2 & E2 & Hroot2); [by apply sp_sorted_upsert | done | eapply buries_le; [exact Hb1 | lia] |].
    step E1. rewrite (Hm t2 E2). eexists. split; [| rewrite Hlen in Hroot2; by replace (Datatypes.S level + 1)%nat with (Datatypes.S (level + 1))%nat by lia].
    do 2 f_equal. f_equal. rewrite Hrecs. symmetry. apply (cu_member _ _ _ _ _ _ _ _ _ Hcut).
Qed.

(** ** Deletion *)

(** What is left when records go: a tree, or nothing. *)
Definition grown (t : Tree S) (h : Pages) (k : nat) (txn : Z) (height : nat) (es : list Leaf) (X : list Z) : Prop :=
  tr_root t = 0 /\ es = [] /\ X = [] /\ height = 0%nat
  \/ exists level T, height = Datatypes.S level /\ planted t h k txn level T /\ recs T = es /\ X = pages T.

Definition leaves (m : tio (S := S) unit) (t : Tree S) (h : Pages) (X : list Z) (k : nat) (txn : Z) (es : list Leaf) (top : nat) : Prop :=
  exists t' h' height X', m t = (t', Ok tt) /\ owns t' h' k txn /\ grown t' h' k txn height es X' /\ grows h X h' X'
    /\ tr_retired t' = tr_retired t /\ (height <= top)%nat.

Lemma yields_leaves m t h X k txn es top : yields m t h X k txn es top -> leaves m t h X k txn es (Datatypes.S top).
Proof using Type.
  intros (t' & h' & level & T & E & Hp & He & Hg & Hr & Hl). exists t', h', (Datatypes.S level), (pages T).
  split; [done |]. split; [apply Hp |]. split; [right; by exists level, T |]. split; [done |]. split; [done | lia].
Qed.

Lemma leaves_run m m' t t1 h X k txn es top : m t = m' t1 -> tr_retired t1 = tr_retired t -> leaves m' t1 h X k txn es top ->
  leaves m t h X k txn es top.
Proof using Type. intros E Hr (t' & h' & hh & X' & E' & ?). exists t', h', hh, X'. rewrite E, <- Hr. done. Qed.

Lemma leaves_from m t h0 X0 h X k txn es top top' : leaves m t h X k txn es top -> grows h0 X0 h X -> (top <= top')%nat -> leaves m t h0 X0 k txn es top'.
Proof using Type.
  intros (t' & h' & hh & X' & E & Ho & Hw & Hg & Hr & Hl) Hg0 Hle. exists t', h', hh, X'. do 3 (split; [done |]).
  split; [by eapply grows_trans |]. split; [done | lia].
Qed.

Lemma leaves_rooted m t0 t h0 X0 h X k txn es top : leaves m t h X k txn es top -> sp_sorted lrank es -> grows h0 X0 h X -> buries top t0 t X0 h X ->
  exists t', m t = (t', Ok tt) /\ rooted t' t0 h0 X0 k txn es top.
Proof using Type*.
  intros (t' & h' & hh & X' & E & Ho & Hw & Hg & Hr & Hl) Hs Hg0 Hb0. exists t'. split; [done |]. exists h', hh, X'.
  split; [by split; [| split] |]. split; [by eapply grows_trans |]. split; [by eapply buries_grows | done].
Qed.

(** The root of one child gives way to it. *)
Lemma collapse_ok t h k txn level n x q hd : owns t h k txn -> h !! n = Some q ->
  sheet txn (Z.of_nat (Datatypes.S level)) (cell_of <$> [x]) q hd -> stands h txn level x -> NoDup (pages x) -> n ∉ pages x ->
  Z.of_nat level <= MAX_TREE_LEVEL ->
  leaves (child ← look n (fun txn limit page =>
            output ← tree_parse page txn (Some (Z.of_nat (Datatypes.S level))); branch_child page output 0 limit);
          _ ← set_root child; on_store (discard_private n)) t h (n :: pages x) k txn (recs x) (Datatypes.S level).
Proof using Type*.
  intros Ho Hq Hs Hx Hnd Hn Hlev. pose proof (owns_txn _ _ _ _ Ho) as Htxn. destruct (stands_first _ _ _ _ Hx) as (e & rest & He & _ & Hk & Hcell).
  destruct (stands_bounds _ _ _ _ _ _ (proj1 Ho) Hx) as [Hb Hu]. rewrite fmap_cons, Hcell in Hs. cbn [fmap list_fmap] in Hs.
  set (f := fun txn limit page => output ← tree_parse page txn (Some (Z.of_nat (Datatypes.S level))); branch_child page output 0 limit).
  assert (El : look n f t = (t, Ok (root_of x))).
  { rewrite (look_ok _ _ _ _ _ _ _ Ho Hq). f_equal. unfold f. rewrite (sheet_parse _ _ _ _ _ txn _ Hs) by (done || lia). cbn [mbind outcome_bind].
    apply (sheet_child _ _ [] _ _ _ _ _ _ Hs); [lia | done | done | done]. }
  set (t1 := mkTree (tr_store t) (root_of x) (tr_retired t)). assert (Ho1 : owns t1 h k txn) by exact Ho.
  destruct (discard_ok t1 h k txn n q _ _ hd Ho1 Hq Hs) as (t2 & E2 & Ho2 & [Hr2 Hd2]).
  exists t2, (delete n h), (Datatypes.S level), (pages x). split; [step El; exact E2 |]. split; [done |]. split.
  - right. exists level, x. split; [done |]. split; [| done]. split; try done.
    apply (stands_frame h); [| done]. intros m Hm. apply lookup_delete_ne. by intros ->.
  - split; [| done]. split; [intros m p Hm Hp; rewrite lookup_delete_ne; [done |]; intros ->; apply Hm; constructor | intros m Hm; left; by right].
Qed.

(** What follows the removal of a branch cell. *)
Definition settle (frame : TFrame) (rest : Path) (header : Header) : tio (S := S) unit :=
  if match rest with [] => true | _ => false end && (h_item_count header - 1 =? 1) then
    child ← look (tf_page_number frame) (fun txn limit page =>
      output ← tree_parse page txn (Some (h_level header));
      branch_child page output 0 limit);
    _ ← set_root child;
    on_store (discard_private (tf_page_number frame))
  else if tf_index frame =? 0 then
    first ← first_key (tf_page_number frame) (h_level header);
    propagate_first_from rest first
  else mret tt.

Lemma settle_unfold f rest hd t : look (tf_page_number f) (fun txn _ page => tree_parse page txn None) t = (t, Ok hd) -> h_item_count hd <> 1 ->
  remove_empty_child (f :: rest) t = (_ ← on_store (update_page (tf_page_number f) (put (remove_at hd (tf_index f)))); settle f rest hd) t.
Proof using Type. intros El Hc. cbn [remove_empty_child]. step El. by rewrite (proj2 (Z.eqb_neq _ 1) Hc). Qed.

Lemma settle_ok t h k txn level ctx rest f n ls rs key0 q hd hq : owns t h (length ctx + 1 + k) txn -> Forall2 frame_at rest ctx ->
  tf_page_number f = n -> tf_index f = zlen ls -> h !! n = Some q -> sheet txn (Z.of_nat (Datatypes.S level)) (cell_of <$> (ls ++ rs)) q hq ->
  stands h txn (Datatypes.S level) (Bough n (ls ++ rs)) -> hung h txn (Datatypes.S level) ctx n (lead ls key0) -> valid_key (lead ls key0) ->
  NoDup (ctx_pages ctx ++ pages (Bough n (ls ++ rs))) -> tr_root t = root_of (plug ctx (Bough n (ls ++ rs))) ->
  h_item_count hd = zlen (ls ++ rs) + 1 -> h_level hd = Z.of_nat (Datatypes.S level) ->
  Z.of_nat (Datatypes.S level + length ctx) < MAX_TREE_LEVEL ->
  leaves (settle f rest hd) t h (ctx_pages ctx ++ pages (Bough n (ls ++ rs))) k txn
    (ctx_before ctx ++ recs (Bough n (ls ++ rs)) ++ ctx_after ctx) (Datatypes.S (Datatypes.S level + length ctx + 1)).
Proof using Type*.
  intros Ho Hrest Hfp Hfi Hq Hs Hst Hh Hlk Hnd Hroot Hcount Hlv Hlev. pose proof (owns_txn _ _ _ _ Ho) as Htxn.
  pose proof Hst as [_ Hall]. unfold settle. rewrite Hfp, Hfi, Hlv, Hcount, Z.add_simpl_r.
  destruct (match rest with [] => true | _ => false end && (zlen (ls ++ rs) =? 1)) eqn:Hone.
  - apply andb_true_iff in Hone as [Hr1 Hz%Z.eqb_eq]. destruct rest; [| done]. apply Forall2_nil_inv_l in Hrest as ->.
    destruct (ls ++ rs) as [|x [|y xs]] eqn:Hx; [done | | rewrite !zlen_cons in Hz; pose proof (zlen_nonneg xs); lia].
    apply Forall_cons in Hall as [Hxs _]. cbn [ctx_pages ctx_before ctx_after app length recs pages map concat] in *. rewrite !app_nil_r in *.
    apply NoDup_cons in Hnd as [Hn Hnd]. eapply leaves_from; [eapply (collapse_ok t h k txn level n x q hq) | apply grows_refl | lia]; try done.
    + eapply owns_less; [exact Ho | lia].
    + lia.
  - eapply leaves_from; [apply yields_leaves | apply grows_refl | done]. destruct ls as [|l ls].
    + change (zlen [] =? 0) with true. cbn iota. cbn [app] in *. destruct (grove_cells _ _ _ _ Hall) as [_ Hread].
      destruct (cell_of <$> rs) as [|c1 rest1] eqn:Hc1; [by destruct (sh_nonempty _ _ _ _ _ Hs) |]. apply Forall_cons in Hread as [(key & Hkey) _].
      assert (Ef : first_key n (Z.of_nat (Datatypes.S level)) t = (t, Ok key)) by (eapply first_key_ok; [exact Ho | exact Hq | exact Hs | lia | done]).
      eapply (yields_run _ (propagate_first_from rest key) t t); [by step Ef | done |].
      destruct (propagate_ok txn ctx rest Hrest) as [_ Hfirst]. apply (Hfirst (Datatypes.S level) (Bough n rs) key (lead [] key0)); try done.
      by eapply (first_of_cells h txn level).
    + rewrite zlen_cons, (proj2 (Z.eqb_neq _ 0)) by (pose proof (zlen_nonneg ls); lia).
      destruct (yields_done t h h k txn (Datatypes.S level) ctx (Bough n ((l :: ls) ++ rs)) (lead (l :: ls) key0))
        as (t' & h' & lv & T' & E & Hp & He & Hg & Hr & Hl); try done.
      * eapply owns_less; [exact Ho | lia].
      * cbn [app] in Hall. apply Forall_cons in Hall as [Hl _]. destruct (lead_cons _ _ _ _ ls key0 Hl) as (e & r & He & Hk).
        exists e, (r ++ grove_recs (ls ++ rs)). split; [| done]. cbn [recs app map concat]. by rewrite He.
      * lia.
      * apply grows_refl.
      * exists t', h', lv, T'. do 4 (split; [done |]). split; [done | lia].
Qed.

Lemma remove_empty_ok txn ctx : forall path level c0 key0 t h k, Forall2 frame_at path ctx -> owns t h (length ctx + 1 + k) txn ->
  hung h txn level ctx c0 key0 -> valid_key key0 -> NoDup (ctx_pages ctx) -> (forall T, root_of T = c0 -> tr_root t = root_of (plug ctx T)) ->
  Z.of_nat (level + length ctx) < MAX_TREE_LEVEL ->
  leaves (remove_empty_child path) t h (ctx_pages ctx) k txn (ctx_before ctx ++ ctx_after ctx) (Datatypes.S (level + length ctx + 1)).
Proof using Type*.
  induction ctx as [|c ctx IH]; intros path level c0 key0 t h k Hpath Ho Hh Hk0 Hnd Hroot Hlev.
  { apply Forall2_nil_inv_r in Hpath as ->. exists (mkTree (tr_store t) 0 (tr_retired t)), h, 0%nat, []. split; [done |].
    split; [eapply owns_less; [exact Ho | lia] |]. split; [by left |]. split; [apply grows_refl |]. split; [done | lia]. }
  apply Forall2_cons_inv_r in Hpath as (f & rest & [Hfp Hfi] & Hrest & ->). cbn [hung ctx_pages ctx_before ctx_after length] in *.
  destruct Hh as ((p & hd & Hp & Hs) & Hl & Hr & Hh). pose proof (owns_txn _ _ _ _ Ho) as Htxn. set (n := cr_page c) in *.
  set (ls := cr_left c) in *. set (rs := cr_right c) in *. apply NoDup_cons in Hnd as [Hn Hnd]. rewrite !not_elem_of_app in Hn. destruct Hn as (Hn1 & Hn2 & Hn3).
  assert (Ep : look (tf_page_number f) (fun txn _ page => tree_parse page txn None) t = (t, Ok hd)).
  { rewrite Hfp. fold n. rewrite (look_ok _ _ _ _ _ _ _ Ho Hp). f_equal. by apply (sheet_parse _ _ _ _ _ txn None Hs); [lia |]. }
  destruct (sheet_header _ _ _ _ _ Hs) as (Hcount & _ & _ & _ & _).
  assert (Hz : forall x : list shape, zlen (cell_of <$> x) = zlen x) by (intros x; unfold zlen; by rewrite length_fmap).
  rewrite zlen_app, zlen_cons, !Hz in Hcount. pose proof (zlen_nonneg ls). pose proof (zlen_nonneg rs).
  assert (Hcr : forall m, m ∈ grove_pages ls ++ grove_pages rs ++ ctx_pages ctx -> m <> n).
  { intros m Hm ->. rewrite !elem_of_app in Hm. tauto. }
  destruct (Z.eqb_spec (h_item_count hd) 1) as [H1' | H1'].
  - assert (ls = []) as Hls by (apply zlen_zero_nil; lia). assert (rs = []) as Hrs by (apply zlen_zero_nil; lia). rewrite Hls, Hrs in *.
    destruct (discard_ok t h _ txn n p _ _ hd Ho Hp Hs) as (t1 & E1 & Ho1 & [Hq1 Hq2]).
    eapply (leaves_run _ (remove_empty_child rest) t t1).
    { cbn [remove_empty_child]. step Ep. rewrite (proj2 (Z.eqb_eq _ 1) H1'), Hfp. fold n. step E1. by destruct rest. }
    { done. }
    change (grove_recs []) with (@nil Leaf). rewrite app_nil_r, app_nil_l.
    eapply (leaves_from _ _ _ _ (delete n h) (ctx_pages ctx)); [eapply (IH rest (Datatypes.S level) n key0); try done | | lia].
    + eapply owns_less; [exact Ho1 | lia].
    + by apply hung_delete.
    + intros T HT. rewrite Hq1, (Hroot (Twig c0 []) eq_refl). cbn [plug]. by apply plug_root.
    + lia.
    + change (grove_pages []) with (@nil Z). cbn [app]. split; [intros m q Hm Hq; rewrite lookup_delete_ne; [done |]; intros ->; apply Hm; constructor | intros m Hm; left; by right].
  - assert (Hne : ls ++ rs <> []).
    { intros He. apply app_eq_nil in He as [He1 He2]. rewrite He1, He2 in Hcount. change (zlen []) with 0 in Hcount. lia. }
    destruct (sheet_remove _ _ _ _ _ _ _ Hs) as (p1 & hd1 & Er & Hs1).
    { rewrite <- fmap_app. by destruct (ls ++ rs). }
    rewrite <- fmap_app in Hs1. rewrite Hz in Er.
    destruct (paint_ok t h _ txn n p (remove_at hd (zlen ls)) p1 _ _ hd _ _ hd1 Ho Hp Hs Er Hs1) as (t1 & p2 & E1 & Hs2 & Ho1 & [Hq1 Hq2]).
    set (h1 := <[n := p2]> h) in *. assert (Hall : Forall (stands h1 txn level) (ls ++ rs)) by (apply Forall_app_2; by apply grove_insert).
    assert (Hst : stands h1 txn (Datatypes.S level) (Bough n (ls ++ rs))).
    { cbn [stands]. split; [exists p2, hd1, txn; split; [apply lookup_insert_eq | split; [done | lia]] | done]. }
    assert (Hh1 : hung h1 txn (Datatypes.S level) ctx n (lead ls key0)) by (by apply hung_insert).
    assert (Hroot1 : tr_root t1 = root_of (plug ctx (Bough n (ls ++ rs)))) by (rewrite Hq1, (Hroot (Twig c0 []) eq_refl); cbn [plug]; by apply plug_root).
    assert (Hperm : n :: grove_pages ls ++ grove_pages rs ++ ctx_pages ctx ≡ₚ ctx_pages ctx ++ pages (Bough n (ls ++ rs))).
    { cbn [pages]. fold (grove_pages (ls ++ rs)). rewrite grove_pages_app. solve_Permutation. }
    assert (Hndp : NoDup (ctx_pages ctx ++ pages (Bough n (ls ++ rs)))).
    { rewrite <- Hperm. constructor; [rewrite !elem_of_app; tauto | done]. }
    assert (Hg : grows h (n :: grove_pages ls ++ grove_pages rs ++ ctx_pages ctx) h1 (ctx_pages ctx ++ pages (Bough n (ls ++ rs)))).
    { split; [intros m q Hm Hq; unfold h1; rewrite lookup_insert_ne; [done |]; intros ->; apply Hm; constructor | intros m; rewrite <- Hperm; by left]. }
    assert (Hrecs : (ctx_before ctx ++ grove_recs ls) ++ grove_recs rs ++ ctx_after ctx = ctx_before ctx ++ recs (Bough n (ls ++ rs)) ++ ctx_after ctx).
    { cbn [recs]. fold (grove_recs (ls ++ rs)). by rewrite grove_recs_app, <- !app_assoc. }
    rewrite Hrecs. eapply (leaves_run _ (settle f rest hd) t t1).
    { rewrite (settle_unfold f rest hd t) by (try done; by rewrite Ep). rewrite Hfp, Hfi. fold n ls. by step E1. }
    { done. }
    assert (Hls : Forall (stands h1 txn level) ls) by (by apply Forall_app in Hall as [? _]).
    apply (leaves_from _ _ _ _ h1 (ctx_pages ctx ++ pages (Bough n (ls ++ rs))) _ _ _ (Datatypes.S (Datatypes.S level + length ctx + 1))); [| exact Hg | lia].
    apply (settle_ok t1 h1 k txn level ctx rest f n ls rs key0 p2 hd hd1); try done.
    + eapply owns_less; [exact Ho1 | lia].
    + apply lookup_insert_eq.
    + by eapply lead_valid.
    + rewrite Hcount, zlen_app. lia.
    + apply Hs.
    + lia.
Qed.
End Edits.
