(* ===== verification/TreeTheorems.v ===== *)
(** * Deletion and replacement

    What [delete_existing] and [replace_leaf_with] leave behind, against
    [sp_remove] and [sp_replace]. *)

From stdpp Require Import base tactics numbers list strings sorting gmap.
From Stdlib Require Import ZArith Lia.
From S2P Require Import Prelude Errors Bytes Codec TreeInterface PageHeader SlottedPage SlottedFacts SlottedTheorems Machine Draft Store TreePage TreeQuery.
From S2P Require Import TreeCursor TreeMutation TreeFacts TreePageFacts TreeStore TreeUpward TreeDescent TreeEdits.

#[local] Open Scope string_scope.
#[local] Open Scope list_scope.
#[local] Open Scope Z_scope.

Section Specs.
Context {Key Leaf : Type} `{CodecLaws Key Leaf} {S : Type} `{StoreLaws S}.
Implicit Types t : Tree S.

Lemma zlen_leaves (es : list Leaf) : zlen (leaf_bytes <$> es) = zlen es.
Proof using Type. unfold zlen. by rewrite length_fmap. Qed.

Lemma halted_others (h h1 : Pages) (ctx : list (crumb (Leaf := Leaf))) a : (forall m, m <> a -> h1 !! m = h !! m) ->
  grows h (ctx_pages ctx ++ [a]) h1 (ctx_pages ctx ++ [a]).
Proof using Type.
  intros Hf. split; [| by left]. intros m q Hm Hq. rewrite Hf; [done |]. intros ->. apply Hm. rewrite elem_of_app. right. constructor.
Qed.

(** ** Deletion *)

Lemma remove_record_ok t h k txn key target ctx es e1 x e2 key0 :
  located t h (length ctx + 1 + k) txn key target ctx es e1 [x] e2 key0 -> e1 ++ e2 <> [] -> Z.of_nat (length ctx) < MAX_TREE_LEVEL ->
  yields (remove_leaf_record target) t h (ctx_pages ctx ++ [lt_page_number target]) k txn (ctx_before ctx ++ (e1 ++ e2) ++ ctx_after ctx) (length ctx + 1).
Proof using Type*.
  intros [Hre Hpath Hv Hc] Hne Hlev. pose proof Hre as [Hd (q & Hq & Hs)]. pose proof Hd as [Ho Hh Hfi Ht Hnd Hroot].
  pose proof Hc as [Hes Hi _ _ _ _]. pose proof (owns_txn _ _ _ _ Ho) as Htxn. set (a := lt_page_number target) in *. set (hd := lt_header target) in *.
  pose proof Hs as Hs'. rewrite Hes, fmap_app in Hs'. cbn [app] in Hs'. rewrite fmap_cons in Hs'.
  assert (Hv' : Forall valid_leaf (e1 ++ e2)) by (rewrite Hes, !Forall_app in Hv; destruct Hv as (? & _ & ?); by apply Forall_app_2).
  destruct (sheet_remove _ _ _ _ _ _ _ Hs') as (q' & hd' & Er & Hs2).
  { rewrite <- fmap_app. by intros He%fmap_nil_inv. }
  rewrite <- fmap_app in Hs2. rewrite zlen_leaves, <- Hi in Er.
  destruct (leaf_painted t h _ txn ctx a es hd key0 _ q q' hd' (e1 ++ e2) Hre Hq Er Hs2 Hv')
    as (t1 & h1 & E1 & Ho1 & Hh1 & Ht1 & Hr1 & Hd1 & (q1 & Hq1 & Hs1) & Hframe).
  assert (Hk0 : valid_key key0) by (eapply first_valid; [exact Ht | exact Hfi]).
  destruct (stands_first _ _ _ _ Ht1) as (e & rest & He & Hve & Hvk & _). cbn [recs] in He.
  assert (Ef : first_key a 0 t1 = (t1, Ok (leaf_key e))).
  { rewrite He, fmap_cons in Hs1. eapply first_key_ok; [exact Ho1 | exact Hq1 | exact Hs1 | lia | by apply cl_read_leaf_key]. }
  eapply (yields_run _ (if lt_index target =? 0 then propagate_first_from (lt_path target) (leaf_key e) else (mret tt : tio (S := S) unit)) t t1).
  { unfold remove_leaf_record. fold a hd. step E1. destruct (lt_index target =? 0); cbn [negb]; [by step Ef | done]. }
  { done. }
  eapply yields_from; [eapply (repair_ok t1 h1 k txn ctx (lt_path target) a (e1 ++ e2) key0 (leaf_key e)); try done | by apply halted_others].
  - intros _. by exists e, rest.
  - intros Hi0. destruct e1 as [|y e1]; [by rewrite Hi in Hi0 |]. destruct Hfi as (z & r & Hz & ->). cbn [recs] in Hz.
    rewrite Hes in Hz. injection Hz as -> _. by exists z, (e1 ++ e2).
Qed.

Lemma delete_target_ok t h k txn key target ctx es e1 mid e2 key0 :
  located t h (length ctx + 1 + k) txn key target ctx es e1 mid e2 key0 -> lt_exists target = true -> Z.of_nat (length ctx) < MAX_TREE_LEVEL ->
  leaves (delete_target target) t h (ctx_pages ctx ++ [lt_page_number target]) k txn (ctx_before ctx ++ (e1 ++ e2) ++ ctx_after ctx)
    (Datatypes.S (length ctx + 1)).
Proof using Type*.
  intros Hloc Hex Hlev. pose proof Hloc as [[Hd (q & Hq & Hs)] Hpath Hv Hc]. pose proof Hd as [Ho Hh Hfi Ht Hnd Hroot].
  pose proof Hc as [Hes Hi Hm _ _ _]. rewrite Hex in Hm. destruct Hm as (x & -> & _).
  destruct (sheet_header _ _ _ _ _ Hs) as (Hcount & _). rewrite zlen_leaves, Hes, zlen_app in Hcount. cbn [app] in Hcount. rewrite zlen_cons in Hcount.
  unfold delete_target. pose proof (zlen_nonneg e1). pose proof (zlen_nonneg e2). destruct (Z.ltb_spec 1 (h_item_count (lt_header target))) as [Hgt | Hle].
  - apply yields_leaves, (remove_record_ok _ _ _ _ _ _ _ _ _ _ _ _ Hloc); [| done]. intros He. apply app_eq_nil in He as [-> ->].
    change (zlen []) with 0 in Hcount. lia.
  - assert (e1 = []) as -> by (apply zlen_zero_nil; lia). assert (e2 = []) as -> by (apply zlen_zero_nil; lia). cbn [app] in *.
    destruct (discard_ok t h _ txn _ q _ _ _ Ho Hq Hs) as (t1 & E1 & Ho1 & [Hq1 Hq2]).
    eapply (leaves_run _ (remove_empty_child (lt_path target)) t t1); [by step E1 | done |].
    cbn [pages] in Hnd. apply NoDup_app in Hnd as (Hn1 & Hn2 & _).
    eapply leaves_from; [eapply (remove_empty_ok txn ctx (lt_path target) 0 (lt_page_number target) key0 t1 (delete (lt_page_number target) h) k Hpath Ho1) | |]; try done.
    + apply hung_delete; [intros Ha; apply (Hn2 _ Ha); constructor | done].
    + eapply first_valid; [exact Ht | exact Hfi].
    + intros T HT. rewrite Hq1, Hroot. by apply plug_root.
    + split; [| intros m Hm; left; apply elem_of_app; by left].
      intros m p Hm Hp. rewrite lookup_delete_ne; [done |]. intros <-. apply Hm. rewrite elem_of_app. right. constructor.
Qed.

Lemma remove_cut key before es after e1 mid e2 i exact : cut_at key before es after e1 mid e2 i exact ->
  sp_remove lrank (before ++ es ++ after) (rank key) = before ++ (e1 ++ e2) ++ after.
Proof using Type.
  intros Hc. unfold sp_remove. rewrite (cu_below _ _ _ _ _ _ _ _ _ Hc), (cu_above _ _ _ _ _ _ _ _ _ Hc), <- !app_assoc. done.
Qed.

Lemma delete_spec t h k txn height es X key :
  tree_state t h (2 * height + 1 + k) txn height es X -> valid_key key -> sp_member lrank es (rank key) = true ->
  Z.of_nat height <= MAX_TREE_LEVEL -> zlen (tr_retired t) + Z.of_nat height <= MAX_PATH + 1 ->
  exists t', delete_existing key t = (t', Ok tt) /\ rooted t' t h X k txn (sp_remove lrank es (rank key)) (height + 1).
Proof using Type*.
  intros (Ho & Hs & Hst) Hkey Hmem Hlev Hret. destruct Hst as [(_ & -> & _ & _) | (level & T & -> & Hp & <- & ->)]; [done |].
  destruct (locate_ok t h (level + 1 + k) txn level T key) as
    (t1 & h1 & target & ctx & es & e1 & mid & e2 & key0 & E1 & Hloc & Hlen & Hrecs & Hg1 & Hb1); [| done | done | lia |].
  { destruct Hp. split; try done. eapply owns_less; [exact Ho | lia]. }
  pose proof (lo_cut _ _ _ _ _ _ _ _ _ _ _ _ Hloc) as Hcut. rewrite Hrecs in Hmem.
  assert (Hex : lt_exists target = true) by (rewrite <- Hmem; symmetry; apply (cu_member _ _ _ _ _ _ _ _ _ Hcut)).
  rewrite <- Hlen in Hloc. pose proof (delete_target_ok _ _ _ _ _ _ _ _ _ _ _ _ Hloc Hex ltac:(lia)) as Hl.
  rewrite <- (remove_cut _ _ _ _ _ _ _ _ _ Hcut), <- Hrecs in Hl.
  destruct (leaves_rooted _ t _ h (pages T) _ _ _ _ _ _ Hl) as (t2 & E2 & Hroot2); [by apply sp_sorted_remove | done | eapply buries_le; [exact Hb1 | lia] |].
  exists t2. split.
  - unfold delete_existing. step E1. by rewrite fail_if_bind by (by rewrite Hex).
  - rewrite Hlen in Hroot2. by replace (Datatypes.S level + 1)%nat with (Datatypes.S (level + 1))%nat by lia.
Qed.

(** ** Replacement *)

Lemma replaced_first key before es after e1 x e2 i exact l ls a key0 : cut_at key before es after e1 [x] e2 i exact -> leaf_key x = key ->
  leaf_key l = key -> first_is (Twig a es) key0 -> first_is (Twig a (e1 ++ (l :: ls) ++ e2)) key0.
Proof using Type.
  intros [-> _ _ _ _ _] Hx Hl (e & rest & He & ->). cbn [recs] in *. destruct e1 as [|y e1]; cbn [app] in *.
  - injection He as <- _. exists l, (ls ++ e2). split; [done | congruence].
  - injection He as -> _. by exists e, (e1 ++ l :: ls ++ e2).
Qed.

Lemma replace_target_ok t h k txn key target ctx es e1 mid e2 key0 l ls :
  located t h (Datatypes.S (length ctx + 1 + k)) txn key target ctx es e1 mid e2 key0 -> lt_exists target = true ->
  Forall valid_leaf (l :: ls) -> zlen (l :: ls) <= 3 -> leaf_key l = key -> Z.of_nat (length ctx) < MAX_TREE_LEVEL ->
  yields (replace_target target (leaf_bytes <$> (l :: ls))) t h (ctx_pages ctx ++ [lt_page_number target]) k txn
    (ctx_before ctx ++ (e1 ++ (l :: ls) ++ e2) ++ ctx_after ctx) (length ctx + 1).
Proof using Type*.
  intros [Hre Hpath Hv Hc] Hex Hvl Hz3 Hlk Hlev. pose proof Hre as [Hd (q & Hq & Hs)]. pose proof Hd as [Ho Hh Hfi Ht Hnd Hroot].
  pose proof Hc as [Hes Hi Hm _ _ _]. rewrite Hex in Hm. destruct Hm as (x & -> & Hxk). pose proof (owns_txn _ _ _ _ Ho) as Htxn.
  set (a := lt_page_number target) in *. set (hd := lt_header target) in *. set (es' := e1 ++ (l :: ls) ++ e2).
  assert (Hk0 : valid_key key0) by (eapply first_valid; [exact Ht | exact Hfi]).
  pose proof Hs as Hs'. rewrite Hes, fmap_app in Hs'. cbn [app] in Hs'. rewrite fmap_cons in Hs'.
  assert (Hv' : Forall valid_leaf es') by (rewrite Hes, !Forall_app in Hv; destruct Hv as (? & _ & ?); unfold es'; by rewrite !Forall_app).
  assert (Hcells : (leaf_bytes <$> e1) ++ (leaf_bytes <$> (l :: ls)) ++ (leaf_bytes <$> e2) = leaf_bytes <$> es') by (unfold es'; by rewrite !fmap_app).
  assert (Hgood : Forall (good_cell 0) (leaf_bytes <$> (l :: ls))) by (by apply leaf_cells).
  assert (Hz3' : zlen (leaf_bytes <$> (l :: ls)) <= 3) by (by rewrite zlen_leaves).
  assert (Hfirst : first_is (Twig a es') key0) by (by eapply replaced_first).
  assert (Efit : on_store (inspect_page a (fun source => replacement_fits source hd (mkReplacement (lt_index target) (leaf_bytes <$> (l :: ls))))) t
                 = (t, Ok (bool_decide (fits 0 (zlen (leaf_bytes <$> es')))))).
  { rewrite (inspect_ok _ _ _ _ _ _ _ Ho Hq). f_equal. rewrite <- Hcells, Hi, <- (zlen_leaves e1). by apply (replacement_fits_ok txn 0 _ (leaf_bytes x)). }
  destruct (bool_decide_reflect (fits 0 (zlen (leaf_bytes <$> es')))) as [Hfit | Hfull].
  - destruct (apply_cells_ok txn 0 (leaf_bytes <$> e1) (leaf_bytes x) (leaf_bytes <$> e2) q hd (leaf_bytes <$> (l :: ls)) Htxn Hs' Hgood) as (q1 & hd1 & Eq & Hs1);
      [done | by rewrite Hcells |]. rewrite Hcells in Hs1. rewrite zlen_leaves, <- Hi in Eq.
    destruct (leaf_painted t h _ txn ctx a es hd key0 _ q q1 hd1 es' Hre Hq Eq Hs1 Hv') as (t1 & h1 & E1 & Ho1 & Hh1 & Ht1 & Hr1 & Hd1 & _ & Hframe).
    eapply (yields_run _ (if 1 =? 0 then propagate_first_from (lt_path target) key else (mret tt : tio (S := S) unit)) t t1).
    { unfold replace_target, apply_replacement. fold a hd. unfold mbind at 1, io_bind at 1. step Efit. cbn [rp_index rp_cells]. by step E1. }
    { done. }
    eapply yields_from; [eapply (repair_ok t1 h1 k txn ctx (lt_path target) a es' key0 key 1); try done | by apply halted_others].
    eapply owns_less; [exact Ho1 | lia].
  - rewrite <- Hcells in Hfull. pose proof (leaf_readable _ Hv') as Hread. rewrite <- Hcells in Hread.
    destruct (split_ok t h _ txn a q 0 _ _ _ _ hd Ho Hq Hs' Hgood ltac:(done) Hz3' Hread Hfull)
      as (t1 & r & p1 & hd1 & q1 & hq & lf & rf & E1 & Hr & Hs1 & Hs2 & Ho1 & [Hq1 Hq2] & (c1 & r1 & Hc1 & Hk1) & (c2 & r2 & Hc2 & Hk2)).
    rewrite Hcells in Hs1, Hs2, Hc1, Hc2. destruct (leaf_halves es') as [Hlh Hrh]. set (m := Z.to_nat (middle_of (leaf_bytes <$> es'))) in *.
    rewrite Hlh in Hs1, Hc1. rewrite Hrh in Hs2, Hc2. assert (Har : a <> r) by congruence.
    rewrite <- (take_drop m es') in Hv'. apply Forall_app in Hv' as [Hv1 Hv2]. cbn [pages] in Hnd.
    assert (Hrn : r ∉ ctx_pages ctx ++ [a]) by (intros Hm; destruct (halted_in _ _ _ _ _ _ _ _ r Hd Hm); congruence).
    pose proof Hnd as Hnd0. apply NoDup_app in Hnd0 as (Hn1 & Hn2 & _). rewrite not_elem_of_app in Hrn. destruct Hrn as [Hrc Hra].
    destruct (propagate_ok txn ctx (lt_path target) Hpath) as [Hsplit _].
    eapply (yields_run _ (propagate_split_from (lt_path target) a lf r rf 0) t t1).
    { unfold replace_target, apply_replacement. fold a hd. unfold mbind at 1, io_bind at 1. step Efit. rewrite Hi, <- (zlen_leaves e1), E1.
      by rewrite fail_if_bind by done. }
    { done. }
    eapply yields_from with (h := <[a := p1]> (<[r := q1]> h)) (X := ctx_pages ctx ++ pages (Twig a (take m es')) ++ pages (Twig r (drop m es'))).
    + eapply yields_eq; [apply (Hsplit 0%nat (Twig a (take m es')) (Twig r (drop m es')) lf rf key0); try done | done | cbn [recs]; by rewrite take_drop].
      * apply hung_insert; [intros Hm; apply (Hn2 a Hm); constructor |]. by apply hung_insert.
      * split; [| done]. exists p1, hd1, txn. split; [apply lookup_insert_eq | split; [done | lia]].
      * split; [| done]. exists q1, hq, txn. split; [rewrite lookup_insert_ne by done; apply lookup_insert_eq | split; [done | lia]].
      * cbn [pages]. rewrite app_assoc. apply NoDup_app. split; [done |]. split; [| apply NoDup_singleton].
        intros y Hy ->%list_elem_of_singleton. apply elem_of_app in Hy as [Hy | Hy]; done.
      * by eapply leaf_first.
      * by eapply leaf_first.
      * rewrite Hq1, Hroot. by apply plug_root.
    + cbn [pages]. split.
      * intros y z Hy Hz. rewrite not_elem_of_app, not_elem_of_cons in Hy. destruct Hy as (Hy1 & Hy2 & _).
        rewrite lookup_insert_ne by done. rewrite lookup_insert_ne; [done | congruence].
      * intros y. rewrite app_assoc, elem_of_app. intros [? | ->%list_elem_of_singleton]; [by left | by right].
Qed.

Lemma increasing_ok ls : Forall valid_leaf ls -> sp_sorted lrank ls ->
  forall previous, match previous, ls with Some k, l :: _ => valid_key k /\ rank k < lrank l | _, _ => True end ->
  require_increasing previous (leaf_bytes <$> ls) = Ok tt.
Proof using Type*.
  intros Hv. induction Hv as [|l ls Hl Hv IH]; intros Hs previous Hp; [done |]. rewrite fmap_cons. cbn [require_increasing].
  rewrite (require_leaf_ok l Hl). cbn [mbind outcome_bind]. rewrite (cl_read_leaf_key l Hl). cbn [mbind outcome_bind].
  apply StronglySorted_inv in Hs as [Hs Hall].
  assert (Hc : match previous with Some prior => negb (codec_ltb prior (leaf_key l)) | None => false end = false).
  { destruct previous as [k|]; [| done]. destruct Hp as [Hk Hr]. rewrite cl_ltb by (done || by apply cl_leaf_key).
    by apply negb_false_iff, Z.ltb_lt. }
  rewrite Hc. apply IH; [done |]. destruct ls as [|l' ls]; [done |]. apply Forall_cons in Hall as [? _]. split; [by apply cl_leaf_key | done].
Qed.

Lemma require_replacement_ok key ls l ls' : ls = l :: ls' -> Forall valid_leaf ls -> sp_sorted lrank ls -> 2 <= zlen ls <= 3 -> valid_key key ->
  leaf_key l = key -> require_replacement key (leaf_bytes <$> ls) = Ok tt.
Proof using Type*.
  intros Hl Hv Hs Hz Hk Hlk. unfold require_replacement. rewrite zlen_leaves, (proj2 (Z.leb_le 2 _)), (proj2 (Z.leb_le _ 3)) by lia. cbn [andb negb].
  rewrite (increasing_ok ls Hv Hs None I). cbn [mbind outcome_bind]. subst ls. rewrite fmap_cons. apply Forall_cons in Hv as [Hv _].
  rewrite (cl_read_leaf_key l Hv). cbn [mbind outcome_bind]. by rewrite cl_eqb, Hlk, Z.eqb_refl by (done || by apply cl_leaf_key).
Qed.

Lemma replace_cut key before es after e1 mid e2 i exact ls : cut_at key before es after e1 mid e2 i exact ->
  sp_replace lrank (before ++ es ++ after) (rank key) ls = before ++ (e1 ++ ls ++ e2) ++ after.
Proof using Type.
  intros Hc. unfold sp_replace. rewrite (cu_below _ _ _ _ _ _ _ _ _ Hc), (cu_above _ _ _ _ _ _ _ _ _ Hc), <- !app_assoc. done.
Qed.

Lemma replace_spec t h k txn height es X key ls l ls' :
  tree_state t h (2 * height + 1 + k) txn height es X -> valid_key key -> sp_member lrank es (rank key) = true ->
  ls = l :: ls' -> leaf_key l = key -> Forall valid_leaf ls -> 2 <= zlen ls <= 3 -> sp_sorted lrank (sp_replace lrank es (rank key) ls) ->
  Z.of_nat height <= MAX_TREE_LEVEL -> zlen (tr_retired t) + Z.of_nat height <= MAX_PATH + 1 ->
  exists t', replace_leaf_with key (leaf_bytes <$> ls) t = (t', Ok tt) /\ rooted t' t h X k txn (sp_replace lrank es (rank key) ls) (height + 1).
Proof using Type*.
  intros (Ho & Hs & Hst) Hkey Hmem Hls Hlk Hv Hz Hsort Hlev Hret.
  destruct Hst as [(_ & -> & _ & _) | (level & T & -> & Hp & <- & ->)]; [done |].
  assert (Hsl : sp_sorted lrank ls) by (unfold sp_replace in Hsort; by apply sorted_middle in Hsort).
  unfold replace_leaf_with. rewrite (require_replacement_ok key ls l ls'), lift_bind by done.
  destruct (locate_ok t h (Datatypes.S (level + 1 + k)) txn level T key) as
    (t1 & h1 & target & ctx & es & e1 & mid & e2 & key0 & E1 & Hloc & Hlen & Hrecs & Hg1 & Hb1); [| done | done | lia |].
  { destruct Hp. split; try done. eapply owns_less; [exact Ho | lia]. }
  pose proof (lo_cut _ _ _ _ _ _ _ _ _ _ _ _ Hloc) as Hcut. rewrite Hrecs in Hmem.
  assert (Hex : lt_exists target = true) by (rewrite <- Hmem; symmetry; apply (cu_member _ _ _ _ _ _ _ _ _ Hcut)).
  rewrite <- Hlen in Hloc. subst ls. pose proof (replace_target_ok _ _ _ _ _ _ _ _ _ _ _ _ l ls' Hloc Hex Hv ltac:(lia) Hlk ltac:(lia)) as Hy.
  rewrite <- (replace_cut _ _ _ _ _ _ _ _ _ (l :: ls') Hcut), <- Hrecs in Hy.
  destruct (yields_rooted _ t _ h (pages T) _ _ _ _ _ _ Hy) as (t2 & E2 & Hroot2); [done | done | eapply buries_le; [exact Hb1 | lia] |].
  exists t2. split.
  - step E1. by rewrite fail_if_bind by (by rewrite Hex).
  - rewrite Hlen in Hroot2. by replace (Datatypes.S level + 1)%nat with (Datatypes.S (level + 1))%nat by lia.
Qed.
End Specs.

(** ** Mutations of a tree refine edits of a sorted list

    The theorems on the copy-on-write tree, on any store that keeps its
    promises ([StoreLaws]): what one insertion and one deletion leave behind,
    and what any sequence of edits does, read back through the readers of the
    tree. *)

Section Edits.
Context {Key Leaf : Type} `{CodecLaws Key Leaf} {S : Type} `{StoreLaws S}.
Implicit Types t : Tree S.

Lemma tree_state_less t h k j txn height es X : tree_state t h k txn height es X -> (j <= k)%nat -> tree_state t h j txn height es X.
Proof using Type*.
  intros (Ho & Hs & Hst) Hj. split; [by eapply owns_less |]. split; [done |].
  destruct Hst as [Hst | (level & T & Hh & [Hp1 Hp2 Hp3 Hp4 Hp5] & Hr & Hx)]; [by left |]. right. exists level, T.
  repeat split; try done; try apply Ho. eapply (proj1 (owns_less _ _ _ _ _ Hp1 Hj)).
Qed.

Lemma tree_state_holds t h k txn height es X : tree_state t h k txn height es X -> tree_holds (tr_store t) (tr_root t) es.
Proof using Type*.
  intros (Ho & Hs & Hst). split; [done |].
  destruct Hst as [(Hr & He & _ & _) | (level & T & _ & [[Hv <-] Hr Ht Hn Hm] & <- & _)]; [by left |]. right.
  rewrite Hr. destruct (stands_bounds _ _ _ _ _ _ Hv Ht) as [Hb _]. split; [exact Hb |].
  exists level. split; [done |]. by eapply stands_tree.
Qed.

Lemma tree_state_height t h k txn height es X : tree_state t h k txn height es X -> Z.of_nat height <= MAX_TREE_LEVEL + 1.
Proof using Type*.
  intros (_ & _ & [(_ & _ & _ & ->) | (level & T & -> & Hp & _)]); [unfold MAX_TREE_LEVEL; lia |].
  pose proof (pt_height _ _ _ _ _ _ Hp). lia.
Qed.

(** The pages of a client that are not the tree's. *)
Definition others_kept (h : Pages) (X : list Z) (h' : Pages) : Prop := forall m p, m ∉ X -> h !! m = Some p -> h' !! m = Some p.

(** What one mutation leaves: a tree of the records [es'] on the same store,
    read back as such; the client's other pages as they were; the pages
    collected in [retired] no longer the tree's, but still there, and no more
    of them than levels. *)
Definition leaves_tree t h X t' k txn (es' : list Leaf) top : Prop :=
  exists h' height' X', tree_state t' h' k txn height' es' X' /\ (height' <= top)%nat
    /\ tree_holds (tr_store t') (tr_root t') es' /\ others_kept h X h'
    /\ exists dead, tr_retired t' = tr_retired t ++ dead /\ (length dead <= top)%nat /\ Forall (fun m => m ∈ X /\ is_Some (h' !! m) /\ m ∉ X') dead.

Lemma rooted_leaves t t' h X k txn es top : rooted t' t h X k txn es top -> leaves_tree t h X t' k txn es top.
Proof using Type*.
  intros (h' & height & X' & Hst & [Hg _] & (dead & Hd & Hlen & Hall) & Ht). exists h', height, X'. split; [done |]. split; [done |].
  split; [by eapply tree_state_holds |]. split; [exact Hg |]. exists dead. split; [done |]. split; [done |]. by apply Forall_forall.
Qed.

(** ** Sequences of edits *)

Inductive tree_edit :=
| Put (l : Leaf)
| Drop (key : Key)
| Swap (key : Key) (ls : list Leaf).

(** One edit, with a fresh collection of retired pages. *)
Definition edit_step (e : tree_edit) : tio (S := S) unit :=
  _ ← fresh_retired;
  match e with
  | Put l => _ ← tree_insert (leaf_bytes l); mret tt
  | Drop key => delete_existing key
  | Swap key ls => replace_leaf_with key (leaf_bytes <$> ls)
  end.
Fixpoint run_edits (edits : list tree_edit) : tio (S := S) unit :=
  match edits with
  | [] => mret tt
  | e :: rest => _ ← edit_step e; run_edits rest
  end.

Definition sp_edit (es : list Leaf) (e : tree_edit) : list Leaf :=
  match e with
  | Put l => sp_upsert lrank es l
  | Drop key => sp_remove lrank es (rank key)
  | Swap key ls => sp_replace lrank es (rank key) ls
  end.
Definition sp_edits (es : list Leaf) (edits : list tree_edit) : list Leaf := fold_left sp_edit edits es.

(** What the callers of the mutations see to. *)
Definition edit_ok (es : list Leaf) (e : tree_edit) : Prop :=
  match e with
  | Put l => valid_leaf l
  | Drop key => valid_key key /\ sp_member lrank es (rank key) = true
  | Swap key ls => valid_key key /\ sp_member lrank es (rank key) = true /\ Forall valid_leaf ls /\ 2 <= zlen ls <= 3
                   /\ leaf_key <$> head ls = Some key /\ sp_sorted lrank (sp_replace lrank es (rank key) ls)
  end.
Fixpoint edits_ok (es : list Leaf) (edits : list tree_edit) : Prop :=
  match edits with
  | [] => True
  | e :: rest => edit_ok es e /\ edits_ok (sp_edit es e) rest
  end.

(** No mutation takes more pages than this. *)
Definition EDIT_PAGES : nat := Z.to_nat (2 * MAX_TREE_LEVEL + 1).

Lemma fresh_run t : fresh_retired t = (mkTree (tr_store t) (tr_root t) [], Ok tt).
Proof using Type. done. Qed.

Lemma edit_step_ok t h k txn height es X e : tree_state t h (EDIT_PAGES + k) txn height es X -> edit_ok es e ->
  Z.of_nat height <= MAX_TREE_LEVEL -> exists t' h' height' X', edit_step e t = (t', Ok tt)
    /\ tree_state t' h' k txn height' (sp_edit es e) X' /\ grows h X h' X'.
Proof using Type*.
  intros Hst Hok Hlev. set (t0 := mkTree (tr_store t) (tr_root t) []).
  assert (Hst0 : tree_state t0 h (2 * height + 1 + k) txn height es X).
  { apply tree_state_less with (EDIT_PAGES + k)%nat; [| unfold EDIT_PAGES, MAX_TREE_LEVEL in *; lia].
    destruct Hst as (Ho & Hs & Hd). split; [exact Ho |]. split; [done |].
    destruct Hd as [Hd | (level & T & Hh & [P1 P2 P3 P4 P5] & Hr)]; [by left |]. right. by exists level, T. }
  assert (Hret : zlen (tr_retired t0) + Z.of_nat height <= MAX_PATH + 1) by (change (zlen (tr_retired t0)) with 0; unfold MAX_PATH; lia).
  assert (Hr : exists t', edit_step e t = (t', Ok tt) /\ rooted t' t0 h X k txn (sp_edit es e) (height + 1)).
  { unfold edit_step. step (fresh_run t). destruct e as [l | key | key ls]; cbn [sp_edit edit_ok] in *.
    - destruct (tree_insert_spec t0 h k txn height es X l) as (t' & E & Hr); try done. exists t'. split; [by step E | done].
    - destruct Hok as [Hkey Hm]. by apply delete_spec.
    - destruct Hok as (Hkey & Hm & Hv & Hz & Hh & Hs). destruct ls as [|l ls]; [done |]. injection Hh as Hl.
      by apply replace_spec with l ls. }
  destruct Hr as (t' & E & h' & height' & X' & Hst' & Hg & _). by exists t', h', height', X'.
Qed.
Lemma run_edits_ok edits : forall t h txn height es X, tree_state t h (EDIT_PAGES * length edits) txn height es X -> edits_ok es edits ->
  exists j t' h' height' X', (j <= length edits)%nat /\ run_edits (take j edits) t = (t', Ok tt)
    /\ tree_state t' h' 0 txn height' (sp_edits es (take j edits)) X' /\ grows h X h' X'
    /\ (j = length edits \/ Z.of_nat height' = MAX_TREE_LEVEL + 1).
Proof using Type*.
  assert (Stop : forall t h k txn height es X, tree_state t h k txn height es X -> tree_state t h 0 txn height es X /\ grows h X h X).
  { intros. split; [by eapply tree_state_less, Nat.le_0_l | by split; [| left]]. }
  induction edits as [|e edits IH]; intros t h txn height es X Hst Hok.
  - destruct (Stop _ _ _ _ _ _ _ Hst). exists 0%nat, t, h, height, X. split; [lia |]. by split; [| split; [| split; [| left]]].
  - destruct (decide (Z.of_nat height <= MAX_TREE_LEVEL)) as [Hlev | Hlev].
    + destruct Hok as [He Hok]. cbn [length] in Hst. rewrite Nat.mul_succ_r, Nat.add_comm in Hst.
      destruct (edit_step_ok t h _ txn height es X e Hst He Hlev) as (t1 & h1 & height1 & X1 & E1 & Hst1 & Hg1).
      destruct (IH t1 h1 txn height1 (sp_edit es e) X1 Hst1 Hok) as (j & t' & h' & height' & X' & Hj & E & Hst' & Hg & Hend).
      exists (Datatypes.S j), t', h', height', X'. cbn [length take run_edits]. split; [lia |].
      split; [step E1; exact E |]. split; [done |]. split; [by eapply grows_trans | destruct Hend; [left; lia | by right]].
    + pose proof (tree_state_height _ _ _ _ _ _ _ Hst). destruct (Stop _ _ _ _ _ _ _ Hst). exists 0%nat, t, h, height, X.
      split; [lia |]. split; [done |]. split; [done |]. split; [done | right; lia].
Qed.
End Edits.

Section Theorems.
Context {Key Leaf : Type} `{CodecLaws Key Leaf} {S : Type} `{StoreLaws S}.
Implicit Types t : Tree S.

(** C37: inserting a record into a tree of [height] levels, on a store with
    [2 * height + 1] pages to give, succeeds and reports whether its key is new;
    the tree then holds the records with this one added or replaced, at most one
    level higher, and nothing else of the client's pages has changed. *)
Theorem insert_upserts t h k txn height es X l :
  tree_state t h (2 * height + 1 + k) txn height es X -> valid_leaf l -> Z.of_nat height <= MAX_TREE_LEVEL ->
  zlen (tr_retired t) + Z.of_nat height <= MAX_PATH + 1 ->
  exists t', tree_insert (leaf_bytes l) t = (t', Ok (negb (sp_member lrank es (lrank l))))
    /\ leaves_tree t h X t' k txn (sp_upsert lrank es l) (height + 1).
Proof using Type*.
  intros Hst Hl Hh Hr. destruct (tree_insert_spec t h k txn height es X l Hst Hl Hh Hr) as (t' & E & Hroot).
  exists t'. split; [done | by apply rooted_leaves].
Qed.

(** Deleting a key the tree has, on a store with as many pages, leaves the
    tree of the other records: pages that become empty go back to the store, and
    a root with one child gives way to it. *)
Theorem delete_removes t h k txn height es X key :
  tree_state t h (2 * height + 1 + k) txn height es X -> valid_key key -> sp_member lrank es (rank key) = true ->
  Z.of_nat height <= MAX_TREE_LEVEL -> zlen (tr_retired t) + Z.of_nat height <= MAX_PATH + 1 ->
  exists t', delete_existing key t = (t', Ok tt) /\ leaves_tree t h X t' k txn (sp_remove lrank es (rank key)) (height + 1).
Proof using Type*.
  intros Hst Hkey Hm Hh Hr. destruct (delete_spec t h k txn height es X key Hst Hkey Hm Hh Hr) as (t' & E & Hroot).
  exists t'. split; [done | by apply rooted_leaves].
Qed.

(** C39: any sequence of insertions, deletions and replacements does to the
    tree what it does to the sorted list of its records, edit by edit, until the
    sequence ends or the tree has all the levels the format allows. *)
Theorem tree_edits_refine edits : forall t h txn height es X,
  tree_state t h (EDIT_PAGES * length edits) txn height es X -> edits_ok es edits ->
  exists j t' h' height' X', (j <= length edits)%nat /\ run_edits (take j edits) t = (t', Ok tt)
    /\ tree_state t' h' 0 txn height' (sp_edits es (take j edits)) X'
    /\ tree_holds (tr_store t') (tr_root t') (sp_edits es (take j edits))
    /\ others_kept h X h'
    /\ (j = length edits \/ Z.of_nat height' = MAX_TREE_LEVEL + 1).
Proof using Type*.
  intros t h txn height es X Hst Hok. destruct (run_edits_ok edits t h txn height es X Hst Hok) as (j & t' & h' & height' & X' & Hj & E & Hst' & [Hg _] & Hend).
  exists j, t', h', height', X'. split; [done |]. split; [done |]. split; [done |]. split; [by eapply tree_state_holds |]. by split.
Qed.
End Theorems.
