(* ===== verification/RangeBulk.v ===== *)
(** * Building a range tree from ordered records

    [range_bulk.rs]: a builder takes the records of a map in order and packs
    them into pages, one leaf and one branch of every level at a time.  A branch
    page is opened with its second child, so that a tree has no branch of one
    child until its last page needs one; the root is the first page that stands
    alone.

    The sink of the builder is any store ([impl<T: Store> Sink for T]).  The
    counters of [crate::work] are not part of the model, and neither is what an
    appender has become when the update of its page fails. *)

From stdpp Require Import base tactics numbers list strings.
From Stdlib Require Import ZArith Lia.
From S2P Require Import Prelude Errors Bytes Key Codec PageHeader SlottedPage Machine Draft Store.

#[local] Open Scope string_scope.
#[local] Open Scope list_scope.
#[local] Open Scope Z_scope.

Definition BRANCH_LEVELS : nat := 6.
(** [range_tree::MAX_BRANCH_SIZE]. *)
Definition MAX_FENCE_SIZE : Z := 20.

(** [trait Sink]. *)
Class Sink (S : Type) := {
  sink_allocate : io S Z;
  sink_update : forall A, Z -> io (list Z) A -> io S A;
}.
Arguments sink_update {S _ A} page_number update.
#[global] Instance Store_Sink {S} `{Store S} : Sink S := {
  sink_allocate := allocate;
  sink_update A := update_page;
}.

(** An update that also answers something. *)
Definition fill {A} (f : list Z -> Result (list Z * A)) : io (list Z) A := fun page =>
  match f page with
  | Ok (new, a) => (new, Ok a)
  | Err e => (page, Err e)
  | Panic t => (page, Panic t)
  end.

Section Bulk.
Context {K : Type} `{IpKey K} {S : Type} `{Sink S}.

Record BulkNode := mkBulkNode { bn_first : K; bn_page_number : Z }.

Inductive FinishedLevel := FinishedRoot (root : Z) | FinishedParent (node : BulkNode).

(** ** A page that is being packed *)

Record PackedPage := mkPacked { pk_appender : option Appender; pk_first : option K; pk_page_number : option Z }.
Definition pk_empty : PackedPage := mkPacked None None None.
Definition pk_active (p : PackedPage) : bool := bool_decide (is_Some (pk_appender p)).

Definition on_sink {P A} (m : io S A) : io (P * S) A := zoom snd (fun s t => (fst t, s)) m.
Definition on_page {P} (f : P -> P) : io (P * S) unit := modify (fun t => (f (fst t), snd t)).

Definition pk_start (page_type born_txn level aux : Z) : io (PackedPage * S) unit :=
  page_number ← on_sink sink_allocate;
  appender ← on_sink (sink_update page_number (fill (fun _ => Appender_new page_type born_txn level aux)));
  on_page (fun _ => mkPacked (Some appender) None (Some page_number)).

Definition append (appender : Appender) (cell page : list Z) : Result (list Z * (Appender * bool)) :=
  '(page, appender, appended) ← try_push appender page cell;
  Ok (page, (appender, appended)).
Definition pk_push (first : K) (cell : list Z) : io (PackedPage * S) bool :=
  p ← gets fst;
  page_number ← lift (ok_or (pk_page_number p) (Corrupt "ordered range page has no output page"));
  appender ← lift (ok_or (pk_appender p) (Corrupt "ordered range page is not active"));
  '(appender, appended) ← on_sink (sink_update page_number (fill (append appender cell)));
  _ ← on_page (fun p => mkPacked (Some appender) (pk_first p) (pk_page_number p));
  _ ← (if (appended : bool) && negb (bool_decide (is_Some (pk_first p)))
       then on_page (fun p => mkPacked (pk_appender p) (Some first) (pk_page_number p)) else mret tt);
  mret appended.

Definition pk_finish : io (PackedPage * S) BulkNode :=
  p ← gets fst;
  _ ← on_page (fun p => mkPacked None (pk_first p) (pk_page_number p));
  appender ← lift (ok_or (pk_appender p) (Corrupt "ordered range page is not active"));
  _ ← on_page (fun p => mkPacked (pk_appender p) (pk_first p) None);
  page_number ← lift (ok_or (pk_page_number p) (Corrupt "ordered range page has no output page"));
  _ ← on_sink (sink_update page_number (put (appender_finish appender)));
  _ ← on_page (fun p => mkPacked (pk_appender p) None (pk_page_number p));
  first ← lift (ok_or (pk_first p) (Corrupt "ordered range page has no first key"));
  mret (mkBulkNode first page_number).

(** ** The builder *)

Record BranchLevel := mkLevel { lv_page : PackedPage; lv_only_child : option BulkNode; lv_emitted : bool }.
Definition lv_empty : BranchLevel := mkLevel pk_empty None false.

Record RangeBuilder := mkRangeBuilder {
  rb_born_txn : Z;
  rb_value_kind : ValueKind;
  rb_leaf : PackedPage;
  rb_branches : list BranchLevel;
  rb_previous : option (Range K);
  rb_record_count : Z;
}.
Definition range_builder_new (born_txn : Z) (value_kind : ValueKind) : RangeBuilder :=
  mkRangeBuilder born_txn value_kind pk_empty (replicate BRANCH_LEVELS lv_empty) None 0.

Abbreviation bio := (io (RangeBuilder * S)).

Definition set_leaf (p : PackedPage) (b : RangeBuilder) : RangeBuilder :=
  mkRangeBuilder (rb_born_txn b) (rb_value_kind b) p (rb_branches b) (rb_previous b) (rb_record_count b).
Definition set_branches (l : list BranchLevel) (b : RangeBuilder) : RangeBuilder :=
  mkRangeBuilder (rb_born_txn b) (rb_value_kind b) (rb_leaf b) l (rb_previous b) (rb_record_count b).

(** [self.leaf.call(sink)] and [self.branches[level_index].page.call(sink)]. *)
Definition with_leaf {A} (m : io (PackedPage * S) A) : bio A :=
  zoom (fun t => (rb_leaf (fst t), snd t)) (fun ps t => (set_leaf (fst ps) (fst t), snd ps)) m.
Definition branch_at (level_index : nat) : bio BranchLevel := fun t =>
  match rb_branches (fst t) !! level_index with
  | Some l => (t, Ok l)
  | None => (t, Panic "index out of bounds")
  end.
Definition put_branch (level_index : nat) (l : BranchLevel) : bio unit :=
  on_page (fun b => set_branches (<[level_index := l]> (rb_branches b)) b).
Definition with_branch {A} (level_index : nat) (m : io (PackedPage * S) A) : bio A :=
  l ← branch_at level_index;
  zoom (fun t => (lv_page l, snd t))
       (fun ps t => (set_branches (<[level_index := mkLevel (fst ps) (lv_only_child l) (lv_emitted l)]> (rb_branches (fst t))) (fst t), snd ps)) m.

Definition can_append (b : RangeBuilder) (record : Range K) : Result bool :=
  if key_ltb (r_to record) (r_from record) then Err (InvalidArgument "range start is after its end")
  else if negb (bool_decide (rb_value_kind b = Direct)) && (r_value record =? 0) then Err (Corrupt "indirect range value is zero")
  else match rb_previous b with
       | None => Ok true
       | Some previous =>
           if key_leb (r_from record) (r_to previous) then Ok false
           else if (r_value previous =? r_value record)
                   && match checked_next (r_to previous) with Some next => key_eqb next (r_from record) | None => false end
           then Ok false
           else Ok true
       end.

Definition start_branch (level_index : nat) : bio unit :=
  born_txn ← gets (fun t => rb_born_txn (fst t));
  with_branch level_index (pk_start RANGE_BRANCH born_txn (Z.of_nat level_index + 1) (family_to_wire (key_family (K := K)))).

Definition encoded_fence (node : BulkNode) : Result (list Z) :=
  '(len, bytes) ← write_branch (Leaf := Range K) (bn_first node) (bn_page_number node) (replicate (Z.to_nat MAX_FENCE_SIZE) 0);
  Ok (sub bytes 0 len).
Definition push_branch_cell (level_index : nat) (node : BulkNode) : bio bool :=
  cell ← lift (encoded_fence node);
  with_branch level_index (pk_push (bn_first node) cell).

Definition set_only_child (c : option BulkNode) (level_index : nat) : bio unit :=
  l ← branch_at level_index;
  put_branch level_index (mkLevel (lv_page l) c (lv_emitted l)).
Definition set_emitted (level_index : nat) : bio unit :=
  l ← branch_at level_index;
  put_branch level_index (mkLevel (lv_page l) (lv_only_child l) true).

(** [push_node] on its own level: whether the node has found its place. *)
Definition push_at (level_index : nat) (node : BulkNode) : bio bool :=
  l ← branch_at level_index;
  if pk_active (lv_page l) then push_branch_cell level_index node
  else
    match lv_only_child l with
    | Some first =>
        _ ← set_only_child None level_index;
        _ ← start_branch level_index;
        first_pushed ← push_branch_cell level_index first;
        _ ← fail_if (negb first_pushed) (Corrupt "range branch cell does not fit");
        push_branch_cell level_index node
    | None => _ ← set_only_child (Some node) level_index; mret true
    end.

(** [push_node] calls itself with the next level, and fails at the last. *)
Fixpoint push_node (levels : nat) (level_index : nat) (node : BulkNode) : bio unit :=
  if bool_decide (level_index = BRANCH_LEVELS) then lift (Err PageSpaceExhausted)
  else
    match levels with
    | O => lift (Panic "push_node goes past the last level")
    | Datatypes.S levels =>
        pushed ← push_at level_index node;
        if (pushed : bool) then mret tt
        else
          parent ← with_branch level_index pk_finish;
          _ ← set_emitted level_index;
          _ ← push_node levels (level_index + 1) parent;
          set_only_child (Some node) level_index
    end.
Definition push_up (level_index : nat) (node : BulkNode) : bio unit := push_node (BRANCH_LEVELS - level_index) level_index node.

Definition start_leaf : bio unit :=
  born_txn ← gets (fun t => rb_born_txn (fst t));
  with_leaf (pk_start RANGE_LEAF born_txn 0 (family_to_wire (key_family (K := K)))).
Definition push_leaf_cell (first : K) (cell : list Z) : bio unit :=
  b ← gets fst;
  _ ← (if negb (pk_active (rb_leaf b)) then start_leaf else mret tt);
  pushed ← with_leaf (pk_push first cell);
  if (pushed : bool) then mret tt
  else
    node ← with_leaf pk_finish;
    _ ← push_up 0 node;
    _ ← start_leaf;
    pushed ← with_leaf (pk_push first cell);
    fail_if (negb pushed) (Corrupt "range record does not fit an empty leaf").

(** [Builder::try_push] and [Builder::push]. *)
Definition bulk_try_push (record : Range K) : bio bool :=
  b ← gets fst;
  fits ← lift (can_append b record);
  if negb (fits : bool) then mret false
  else
    next_count ← lift (ok_or (checked_add u64_max (rb_record_count b) 1) (ArithmeticOverflow "range record count"));
    cell ← lift (encoded_range record);
    _ ← push_leaf_cell (r_from record) cell;
    _ ← on_page (fun b => mkRangeBuilder (rb_born_txn b) (rb_value_kind b) (rb_leaf b) (rb_branches b) (Some record) next_count);
    mret true.
Definition bulk_push (record : Range K) : bio unit :=
  pushed ← bulk_try_push record;
  fail_if (negb pushed) (InvalidArgument "ordered output ranges are not canonical").

Definition finish_level (level_index : nat) : bio (option FinishedLevel) :=
  l ← branch_at level_index;
  if pk_active (lv_page l) then
    node ← with_branch level_index pk_finish;
    l ← branch_at level_index;
    mret (Some (if lv_emitted l then FinishedParent node else FinishedRoot (bn_page_number node)))
  else
    match lv_only_child l with
    | None => mret None
    | Some child =>
        _ ← set_only_child None level_index;
        if negb (lv_emitted l) then mret (Some (FinishedRoot (bn_page_number child)))
        else
          _ ← start_branch level_index;
          pushed ← push_branch_cell level_index child;
          _ ← fail_if (negb pushed) (Corrupt "range branch cell does not fit");
          node ← with_branch level_index pk_finish;
          mret (Some (FinishedParent node))
    end.

(** [for level_index in 0..BRANCH_LEVELS]. *)
Fixpoint finish_levels (level_indexes : list nat) : bio (Z * Z) :=
  match level_indexes with
  | [] => lift (Err PageSpaceExhausted)
  | level_index :: rest =>
      finished ← finish_level level_index;
      match finished with
      | None => finish_levels rest
      | Some (FinishedRoot root) => t ← gets fst; mret (root, rb_record_count t)
      | Some (FinishedParent node) => _ ← push_up (level_index + 1) node; finish_levels rest
      end
  end.
Definition bulk_finish : bio (Z * Z) :=
  b ← gets fst;
  if rb_record_count b =? 0 then mret (0, 0)
  else
    leaf ← with_leaf pk_finish;
    _ ← push_up 0 leaf;
    finish_levels (seq 0 BRANCH_LEVELS).
End Bulk.
Arguments BulkNode : clear implicits.
Arguments PackedPage : clear implicits.
Arguments BranchLevel : clear implicits.
Arguments RangeBuilder : clear implicits.
