(* ===== verification/RangeBulkFacts.v ===== *)
(** * The tree a builder makes

    The pages of [RangeBulk] in the making, and what is made of them: a tree
    that stands on the store and holds the records that were pushed, in their
    order. *)

From stdpp Require Import base tactics numbers list strings gmap sorting.
From Stdlib Require Import ZArith Lia.
From S2P Require Import Prelude Errors Bytes Key Codec TreeInterface RangeMap PageHeader SlottedPage SlottedFacts SlottedTheorems Checksum Machine Draft.
From S2P Require Import Store TreePage TreeQuery TreeCursor TreeMutation TreeFacts TreePageFacts TreeStore TreeUpward RangeBulk.

#[local] Open Scope string_scope.
#[local] Open Scope list_scope.
#[local] Open Scope Z_scope.

(** ** A page in the making *)

Section Making.
Context {Key Leaf : Type} `{CodecLaws Key Leaf}.

Record made (txn level : Z) (ap : Appender) (cells : list (list Z)) (p : list Z) : Prop := {
  mk_body : builder_rep (p, ap) cells;
  mk_identity : identity p (page_type_of level) txn level AUX;
  mk_cells : Forall (good_cell level) cells;
}.

Lemma made_page txn level ap cells p : made txn level ap cells p -> page_ok p.
Proof using Type. intros [[_ Hb] _ _]. apply Hb. Qed.

Lemma made_bounds txn level ap cells p : made txn level ap cells p ->
  ap_item_count ap = zlen cells /\ ap_upper ap = PAGE_SIZE - zlen cells * cell_size level /\ fits level (zlen cells).
Proof using Type.
  intros [[Hn Hb] _ Hc]. pose proof (cells_total _ _ Hc) as Ht. pose proof (bd_total _ _ _ Hb). pose proof (bd_room _ _ _ Hb). cbn in *.
  split; [done |]. unfold fits. lia.
Qed.

Lemma retag_agree p p' : page_ok p -> retagged p p' -> page_ok p' /\ agree p p' 0 28 /\ agree p p' 32 PAGE_SIZE.
Proof using Type.
  intros Hp (tag & E). pose proof (put_u32_wrote p OFFSET tag p' Hp ltac:(done) ltac:(done) E) as W.
  assert (Hb : forall a, 0 <= a < 28 \/ 32 <= a < PAGE_SIZE -> bget p' a = bget p a).
  { intros a Ha. eapply wrote_frame_byte; [exact W | page_arith; lia | rewrite zlen_le_bytes; unfold OFFSET; lia]. }
  split; [apply (wrote_ok _ _ _ _ W) |]. split; intros a Ha; apply Hb; lia.
Qed.

Lemma body_fields p p' up cells : body p up cells -> page_ok p' -> agree p p' HEADER_SIZE PAGE_SIZE -> body p' up cells.
Proof using Type.
  intros [Hp Hroom Htot Hcell Hdis Hgap] Hp' Ha. pose proof (zlen_nonneg cells). pose proof (total_nonneg cells).
  assert (Hst : forall i, 0 <= i < zlen cells -> start p' i = start p i).
  { intros i Hi. apply (agree_u16 _ _ _ _ _ Ha); page_arith; done || lia. }
  split; try done.
  - intros i Hi. destruct (Hcell i Hi) as (H1' & H2' & H3' & H4'). rewrite (Hst i Hi). do 3 (split; [done |]).
    rewrite (agree_sub _ _ _ _ _ _ Ha); (done || page_arith; lia).
  - intros i j Hi Hj Hne. rewrite !Hst by done. by apply Hdis.
  - intros a Hi. rewrite Ha by (page_arith; lia). by apply Hgap.
Qed.

Lemma made_retagged txn level ap cells p p' : made txn level ap cells p -> retagged p p' -> made txn level ap cells p'.
Proof using Type.
  intros Hm Hr. pose proof (made_page _ _ _ _ _ Hm) as Hp. destruct (retag_agree _ _ Hp Hr) as (Hp' & A1 & A2). destruct Hm as [[Hn Hb] Hid Hc].
  split; [| | done].
  - split; [done |]. eapply body_fields; [exact Hb | done | exact A2].
  - eapply identity_fields; [exact Hid | done | done | | |].
    + eapply agree_narrow; [exact A1 | lia | lia].
    + eapply agree_narrow; [exact A1 | lia | lia].
    + rewrite <- (id_born _ _ _ _ _ Hid). unfold u64_at. f_equal. eapply agree_sub; [exact A1 | done | done | unfold BORN_TXN; page_arith; lia..].
Qed.

Lemma made_owned txn level ap cells p : made txn level ap cells p -> 0 <= txn <= u64_max -> owned_by (E := Error) p txn = Ok true.
Proof using Type.
  intros Hm Htxn. pose proof (made_page _ _ _ _ _ Hm) as [Hz _]. destruct Hm as [_ Hid _]. unfold owned_by, has_magic.
  rewrite u32_source_page by (done || (unfold MAGIC, PAGE_SIZE; lia)). unfold u32_at, MAGIC.
  rewrite (id_magic _ _ _ _ _ Hid). rewrite bool_decide_true by done.
  unfold born_txn. rewrite u64_le_page by (done || (unfold BORN_TXN, PAGE_SIZE; lia)). rewrite (id_born _ _ _ _ _ Hid).
  cbn [mbind outcome_bind ok_or]. by rewrite Z.eqb_refl.
Qed.

Lemma made_new txn level : 0 <= txn <= u64_max -> 0 <= level <= MAX_TREE_LEVEL ->
  exists p ap, Appender_new (page_type_of level) txn level AUX = Ok (p, ap) /\ made txn level ap [] p.
Proof using Type*.
  intros Htxn Hl. pose proof cl_types as [Hb1 Hb2]. pose proof cl_aux.
  destruct (initialize_ok (mkFields (page_type_of level) txn 0 level (as_u16 HEADER_SIZE) (as_u16 PAGE_SIZE) AUX)) as (p & E & Hp & Hid & _ & Hz).
  { unfold fields_ok, page_type_of. cbn. destruct (level =? 0); unfold MAX_TREE_LEVEL, u16_max in *; split_and!; try done; lia. }
  exists p, (mkAppender 0 PAGE_SIZE). unfold Appender_new. rewrite E. split; [done |]. split; [| done | done].
  split; [done |]. split; simpl; try done; intros; page_arith; unfold zlen in *; simpl in *; lia.
Qed.

Lemma made_push txn level ap cells p c : made txn level ap cells p -> good_cell level c -> fits level (zlen cells + 1) ->
  exists p' ap', try_push ap p c = Ok (p', ap', true) /\ made txn level ap' (cells ++ [c]) p'.
Proof using Type*.
  intros Hm [Hc Hz] Hf. pose proof (made_bounds _ _ _ _ _ Hm) as (_ & _ & _). pose proof (cell_size_range level). destruct Hm as [Hb Hid Hall].
  pose proof (cells_total _ _ Hall) as Ht.
  destruct (push_step (p, ap) cells c Hb Hc) as ((p' & ap') & E & Hb' & A); [lia | unfold fits in Hf; lia |].
  exists p', ap'. unfold builder_push in E. cbn [fst snd] in *.
  destruct (try_push ap p c) as [[[q aq] []]| |] eqn:Et; cbn in E; try done. injection E as -> ->. split; [done |]. split; [done | |].
  - eapply identity_same; [apply Hb | apply Hb' | by apply identity_agree | done].
  - apply Forall_app. by split; [| constructor; [split |]].
Qed.

Lemma made_full txn level ap cells p c : made txn level ap cells p -> good_cell level c -> cell_size level <= 2 * zlen cells + HEADER_SIZE ->
  ~ fits level (zlen cells + 1) -> try_push ap p c = Ok (p, ap, false).
Proof using Type*.
  intros Hm [Hc Hz] Hsz Hf. destruct (made_bounds _ _ _ _ _ Hm) as (Hn & Hu & Hfit). pose proof (cell_size_range level). pose proof (zlen_nonneg cells).
  unfold try_push, is_empty. rewrite Hn, Hu, Hz, (proj2 (Z.eqb_neq _ 0)) by lia. unfold checked_add, checked_sub, fits in *.
  rewrite (proj2 (Z.leb_le _ usize_max)) by (page_arith; unfold usize_max, u64_max; nia). cbn [ok_or mbind outcome_bind].
  rewrite (proj2 (Z.leb_le (cell_size level) _)) by (page_arith; lia). cbn [ok_or mbind outcome_bind].
  by rewrite (proj2 (Z.ltb_lt _ _)) by (page_arith; lia).
Qed.

Lemma made_finish txn level ap cells p : made txn level ap cells p -> cells <> [] -> 0 <= level <= MAX_TREE_LEVEL ->
  exists p' hd, appender_finish ap p = Ok p' /\ sheet txn level cells p' hd.
Proof using Type*.
  intros Hm Hne Hl. destruct (made_bounds _ _ _ _ _ Hm) as (Hn & Hu & Hfit). destruct Hm as [[_ Hb] Hid Hall]. cbn in Hb.
  pose proof (zlen_nonneg cells). pose proof (cell_size_range level). pose proof (bd_total _ _ _ Hb) as Ht. pose proof (bd_room _ _ _ Hb) as Hr.
  pose proof (total_nonneg cells). assert (zlen cells <> 0) by (intros ?%zlen_zero_nil; done).
  destruct (put_header p (zlen cells) (slot_at (zlen cells)) (ap_upper ap)) as (q1 & q2 & p' & F1 & F2 & F3 & Hp & Hh & A & I); [apply Hb | page_arith; lia.. |].
  exists p', (mkHeader (zlen cells) level (slot_at (zlen cells)) (ap_upper ap)). unfold appender_finish. rewrite Hn, (proj2 (Z.eqb_neq _ _)) by done.
  change (HEADER_SIZE + zlen cells * 2) with (slot_at (zlen cells)). rewrite F1. cbn [mbind outcome_bind]. rewrite F2. cbn [mbind outcome_bind]. rewrite F3.
  split; [done |]. rewrite (id_level _ _ _ _ _ Hid) in Hh. split; [| done | done | done | done |].
  - eapply body_slotted; [exact Hb | done | done | page_arith; lia | exact Hh].
  - eapply (identity_same p); [apply Hb | done | done | done].
Qed.
End Making.

(** ** The page on the store *)

Section Packing.
Context {K : Type} `{IpKeyLaws K} {S : Type} `{StoreLaws S}.

Definition serving (s : S) (h : Pages) (k : nat) (txn : Z) : Prop := serves s h k /\ target_txn s = txn.
Definition drafted (h : Pages) (txn level n : Z) (ap : Appender) (cells : list (list Z)) : Prop :=
  exists p, h !! n = Some p /\ made (Key := K) (Leaf := Range K) txn level ap cells p.

Lemma serving_txn s h k txn : serving s h k txn -> 0 < txn <= u64_max.
Proof using Type*. intros [Hs <-]. by eapply sv_txn. Qed.
Lemma serving_less s h k j txn : serving s h k txn -> (j <= k)%nat -> serving s h j txn.
Proof using Type*. intros [Hs Ht] Hle. split; [| done]. induction Hle as [|k Hle IH]; [done |]. by apply IH, sv_weaken. Qed.

(** A step that changes page [n] only. *)
Lemma sink_made {A} s h k txn n p (f : list Z -> Result (list Z * A)) a p' level ap cells : serving s h k txn -> h !! n = Some p -> writable txn p ->
  f p = Ok (p', a) -> made (Key := K) (Leaf := Range K) txn level ap cells p' ->
  exists s' p'', sink_update n (fill f) s = (s', Ok a) /\ serving s' (<[n := p'']> h) k txn /\ made (Key := K) (Leaf := Range K) txn level ap cells p''.
Proof using Type*.
  intros Hs Hn Hw Hf Hm. pose proof (serving_txn _ _ _ _ Hs). destruct Hs as [Hs Ht]. rewrite <- Ht in *.
  destruct (sv_update _ _ _ _ _ A (fill f) p' a Hs Hn Hw) as (s' & p'' & E & Hr & Hs' & Hb & _);
    [unfold fill; by rewrite Hf | by eapply made_page | by eapply made_owned; [| lia] |].
  exists s', p''. split; [exact E |]. split; [by split |]. by eapply made_retagged.
Qed.

Lemma drafted_writable s h k txn n p level ap cells : serving s h k txn -> h !! n = Some p ->
  made (Key := K) (Leaf := Range K) txn level ap cells p -> writable txn p.
Proof using Type*.
  intros Hs Hn Hm. pose proof (serving_txn _ _ _ _ Hs). destruct Hs as [Hs <-]. eapply sv_owned; [done | done |]. eapply made_owned; [done | lia].
Qed.

Lemma pk_start_ok pg s h k txn level : serving s h (Datatypes.S k) txn -> 0 <= level <= MAX_TREE_LEVEL ->
  exists s' n ap p, pk_start (K := K) (page_type_of (Leaf := Range K) level) txn level (AUX (Leaf := Range K)) (pg, s) = ((mkPacked (Some ap) None (Some n), s'), Ok tt)
    /\ h !! n = None /\ serving s' (<[n := p]> h) k txn /\ drafted (<[n := p]> h) txn level n ap [].
Proof using Type*.
  intros Hs Hl. pose proof (serving_txn _ _ _ _ Hs) as Htxn. pose proof Hs as [Hsv Ht].
  destruct (sv_allocate _ _ _ Hsv) as (s1 & n & q & E1 & Hn & Hw & Hs1 & Ht1 & _).
  destruct (made_new (Key := K) (Leaf := Range K) txn level ltac:(lia) Hl) as (p0 & ap & Ea & Hm0).
  destruct (sink_made s1 (<[n := q]> h) k txn n q (fun _ => Appender_new (page_type_of (Leaf := Range K) level) txn level (AUX (Leaf := Range K))) ap p0 level ap [])
    as (s2 & p & E2 & Hs2 & Hm); [split; [done | congruence] | apply lookup_insert_eq | by rewrite <- Ht | done | done |].
  rewrite insert_insert_eq in Hs2. exists s2, n, ap, p. split; [| split; [done |]; split; [done |]; exists p; split; [apply lookup_insert_eq | done]].
  unfold pk_start. rewrite (bind_ok _ _ _ (pg, s1) n) by (unfold on_sink, zoom; cbn; by rewrite E1).
  rewrite (bind_ok _ _ _ (pg, s2) ap) by (unfold on_sink, zoom; cbn [snd fst]; by rewrite E2). done.
Qed.

Lemma pk_push_run first key c s s' n ap ap' appended :
  sink_update n (fill (append ap c)) s = (s', Ok (ap', appended)) ->
  pk_push (K := K) key c (mkPacked (Some ap) first (Some n), s)
  = ((mkPacked (Some ap') (if appended then Some (default key first) else first) (Some n), s'), Ok appended).
Proof using Type.
  intros E. unfold pk_push. cbn [gets fst]. unfold mbind, io_bind, gets, lift, ok_or, on_sink, zoom. cbn [fst snd pk_page_number pk_appender].
  unfold fill in E |- *. rewrite E. unfold on_page, modify. cbn. destruct appended, first; done.
Qed.

Lemma pk_push_ok first key c s h k txn level n ap cells : serving s h k txn -> drafted h txn level n ap cells -> good_cell (Leaf := Range K) level c ->
  fits (Leaf := Range K) level (zlen cells + 1) ->
  exists s' ap' p, pk_push (K := K) key c (mkPacked (Some ap) first (Some n), s) = ((mkPacked (Some ap') (Some (default key first)) (Some n), s'), Ok true)
    /\ serving s' (<[n := p]> h) k txn /\ drafted (<[n := p]> h) txn level n ap' (cells ++ [c]).
Proof using Type*.
  intros Hs (p & Hn & Hm) Hc Hf. destruct (made_push _ _ _ _ _ _ Hm Hc Hf) as (p1 & ap' & E & Hm1).
  destruct (sink_made s h k txn n p (append ap c)
    (ap', true) p1 level ap' (cells ++ [c]) Hs Hn) as (s' & p' & E' & Hs' & Hm'); [by eapply drafted_writable | unfold append; by rewrite E | done |].
  exists s', ap', p'. split; [by rewrite (pk_push_run _ _ _ _ _ _ _ _ _ E') |]. split; [done |]. exists p'. split; [apply lookup_insert_eq | done].
Qed.

Lemma pk_push_full first key c s h k txn level n ap cells : serving s h k txn -> drafted h txn level n ap cells -> good_cell (Leaf := Range K) level c ->
  cell_size (Leaf := Range K) level <= 2 * zlen cells + HEADER_SIZE -> ~ fits (Leaf := Range K) level (zlen cells + 1) ->
  exists s' p, pk_push (K := K) key c (mkPacked (Some ap) first (Some n), s) = ((mkPacked (Some ap) first (Some n), s'), Ok false)
    /\ serving s' (<[n := p]> h) k txn /\ drafted (<[n := p]> h) txn level n ap cells.
Proof using Type*.
  intros Hs (p & Hn & Hm) Hc Hsz Hf. pose proof (made_full _ _ _ _ _ _ Hm Hc Hsz Hf) as E.
  destruct (sink_made s h k txn n p (append ap c)
    (ap, false) p level ap cells Hs Hn) as (s' & p' & E' & Hs' & Hm'); [by eapply drafted_writable | unfold append; by rewrite E | done |].
  exists s', p'. split; [by rewrite (pk_push_run _ _ _ _ _ _ _ _ _ E') |]. split; [done |]. exists p'. split; [apply lookup_insert_eq | done].
Qed.

Lemma pk_finish_ok key s h k txn level n ap cells : serving s h k txn -> drafted h txn level n ap cells -> cells <> [] -> 0 <= level <= MAX_TREE_LEVEL ->
  exists s' p, pk_finish (K := K) (mkPacked (Some ap) (Some key) (Some n), s) = ((pk_empty, s'), Ok (mkBulkNode key n))
    /\ serving s' (<[n := p]> h) k txn /\ private_at (Leaf := Range K) (<[n := p]> h) txn level n cells.
Proof using Type*.
  intros Hs (p & Hn & Hm) Hne Hl. destruct (made_finish _ _ _ _ _ Hm Hne Hl) as (p1 & hd & E & Hsh).
  pose proof (drafted_writable _ _ _ _ _ _ _ _ _ Hs Hn Hm) as Hw. pose proof Hs as [Hsv Ht]. rewrite <- Ht in Hw, Hsh |- *.
  destruct (sv_update _ _ _ _ _ unit (put (appender_finish ap)) p1 tt Hsv Hn Hw) as (s' & p' & E' & Hr & Hs' & Hb & _);
    [unfold put; by rewrite E | apply (sh_slotted _ _ _ _ _ Hsh) | by eapply sheet_owned |].
  exists s', p'. split; [| split; [by split |]; exists p', hd; split; [apply lookup_insert_eq | by eapply sheet_retagged]].
  unfold pk_finish, mbind, io_bind, gets, on_page, modify, lift, ok_or, on_sink, zoom. cbn [fst snd pk_appender pk_first pk_page_number].
  cbn [sink_update Store_Sink]. by rewrite E'.
Qed.
End Packing.

(** ** The levels of branches *)

(** A page that refuses a cell has 64 of them. *)
Definition FULL : Z := 64.

Section Levels.
Context {K : Type} `{IpKeyLaws K} {S : Type} `{StoreLaws S}.
Implicit Types (t : shape (Leaf := Range K)) (nd : BulkNode K) (l : BranchLevel K) (b : RangeBuilder K).

Lemma small_cells level : cell_size (Leaf := Range K) level <= 36.
Proof using Type*. unfold cell_size. cbn [LEAF_SIZE KEY_SIZE RangeCodec]. pose proof (key_width_range (K := K)). destruct (level =? 0); lia. Qed.
Lemma fits_or_full level n : 0 <= n -> fits (Leaf := Range K) level (n + 1) \/ ~ fits (Leaf := Range K) level (n + 1) /\ FULL <= n.
Proof using Type*.
  intros Hn. unfold fits. pose proof (small_cells level). pose proof (cell_size_range (Leaf := Range K) level).
  destruct (Z.le_gt_cases (slot_at (n + 1) + (n + 1) * cell_size (Leaf := Range K) level) PAGE_SIZE) as [Hf | Hf]; [by left | right].
  split; [lia |]. unfold FULL. page_arith. nia.
Qed.

(** The one push lemma: the cell is appended, or the page is full. *)
Lemma pk_push_cases first key c s h k txn level n ap cells : serving s h k txn -> drafted h txn level n ap cells -> good_cell (Leaf := Range K) level c ->
  (exists s' ap' p, pk_push (K := K) key c (mkPacked (Some ap) first (Some n), s) = ((mkPacked (Some ap') (Some (default key first)) (Some n), s'), Ok true)
    /\ serving s' (<[n := p]> h) k txn /\ drafted (K := K) (<[n := p]> h) txn level n ap' (cells ++ [c]))
  \/ FULL <= zlen cells /\ exists s' p, pk_push (K := K) key c (mkPacked (Some ap) first (Some n), s) = ((mkPacked (Some ap) first (Some n), s'), Ok false)
    /\ serving s' (<[n := p]> h) k txn /\ drafted (K := K) (<[n := p]> h) txn level n ap cells.
Proof using Type*.
  intros Hs Hd Hc. destruct (fits_or_full level (zlen cells) (zlen_nonneg _)) as [Hf | [Hf Hfull]].
  - left. by eapply pk_push_ok.
  - right. split; [done |]. eapply pk_push_full; try done. pose proof (small_cells level). unfold FULL, HEADER_SIZE, SIZE in *. lia.
Qed.

Definition node_of t nd : Prop := bn_page_number nd = root_of t /\ first_is t (bn_first nd).
(** A tree no builder gives up before it has this many records. *)
Definition heavy (i : nat) t : Prop := FULL ^ (Z.of_nat i + 1) <= zlen (recs t).

Inductive level_rep (h : Pages) (txn : Z) (i : nat) : BranchLevel K -> list shape -> list Z -> Prop :=
| level_none e : level_rep h txn i (mkLevel pk_empty None e) [] []
| level_only t nd e : node_of t nd -> level_rep h txn i (mkLevel pk_empty (Some nd) e) [t] []
| level_open ap key n t kids e : first_is t key -> drafted (K := K) h txn (Z.of_nat i + 1) n ap (cell_of <$> t :: kids) ->
    level_rep h txn i (mkLevel (mkPacked (Some ap) (Some key) (Some n)) None e) (t :: kids) [n].

(** The records of the levels: the upper ones come first. *)
Fixpoint urecs (gs : list (list (shape (Leaf := Range K)))) : list (Range K) :=
  match gs with [] => [] | g :: gs => urecs gs ++ grove_recs g end.

Inductive levels_rep (h : Pages) (txn : Z) : nat -> list (BranchLevel K) -> list (list shape) -> list Z -> Prop :=
| levels_end i : levels_rep h txn i [] [] []
| levels_cons i l ls g gs own X : level_rep h txn i l g own -> Forall (stands h txn i) g ->
    (if lv_emitted l then FULL ^ (Z.of_nat i + 2) <= zlen (urecs gs) else urecs gs = []) ->
    levels_rep h txn (Datatypes.S i) ls gs X -> levels_rep h txn i (l :: ls) (g :: gs) (own ++ grove_pages g ++ X).
Fixpoint heavies (i : nat) (gs : list (list (shape (Leaf := Range K)))) : Prop :=
  match gs with [] => True | g :: gs => Forall (heavy i) g /\ heavies (Datatypes.S i) gs end.

Lemma level_frame h h' txn i l g own : (forall m, m ∈ own -> h' !! m = h !! m) -> level_rep h txn i l g own -> level_rep h' txn i l g own.
Proof using Type.
  intros Hm Hl. destruct Hl as [e | t nd e Hn | ap key n t kids e Hf (p & Hp & Hd)]; [constructor | by constructor | constructor; [done |]].
  exists p. by rewrite Hm by constructor.
Qed.
Lemma levels_frame h h' txn i ls gs X : levels_rep h txn i ls gs X -> (forall m, m ∈ X -> h' !! m = h !! m) -> levels_rep h' txn i ls gs X.
Proof using Type.
  induction 1 as [i | i l ls g gs own X Hl Hg He Hr IH]; intros Hm; constructor.
  - apply (level_frame h); [| done]. intros m Hin. apply Hm, elem_of_app. by left.
  - apply (grove_frame h); [| done]. intros m Hin. apply Hm, elem_of_app. right. apply elem_of_app. by left.
  - done.
  - apply IH. intros m Hin. apply Hm, elem_of_app. right. apply elem_of_app. by right.
Qed.
Lemma levels_length h txn i ls gs X : levels_rep h txn i ls gs X -> length gs = length ls.
Proof using Type. induction 1; cbn; congruence. Qed.
Lemma levels_pages h txn i ls gs X m : levels_rep h txn i ls gs X -> m ∈ X -> is_Some (h !! m).
Proof using Type.
  induction 1 as [i | i l ls g gs own X Hl Hg He Hr IH]; intros Hm; [by apply elem_of_nil in Hm |].
  apply elem_of_app in Hm as [Hm | [Hm | Hm]%elem_of_app]; [| | by apply IH].
  - destruct Hl as [| | ap key n t kids e Hf (p & Hp & _)]; try by apply elem_of_nil in Hm. apply list_elem_of_singleton in Hm as ->. by exists p.
  - apply elem_of_grove_pages in Hm as (t & Ht & Hm). rewrite Forall_forall in Hg. eapply stands_pages; [by apply Hg | done].
Qed.
Lemma grove_heavy i g : Forall (heavy i) g -> zlen g * FULL ^ (Z.of_nat i + 1) <= zlen (grove_recs g).
Proof using Type.
  induction 1 as [|t g Ht _ IH]; [done |]. rewrite grove_recs_cons, zlen_cons, zlen_app. unfold heavy in Ht. lia.
Qed.
Lemma bough_heavy i n g : Forall (heavy i) g -> FULL <= zlen g -> heavy (Datatypes.S i) (Bough n g).
Proof using Type.
  intros Hg Hn. pose proof (grove_heavy i g Hg). unfold heavy. cbn [recs]. fold (grove_recs g).
  replace (Z.of_nat (Datatypes.S i) + 1) with (Z.succ (Z.of_nat i + 1)) by lia. rewrite Z.pow_succ_r by lia.
  pose proof (Z.pow_pos_nonneg FULL (Z.of_nat i + 1) ltac:(done) ltac:(lia)). nia.
Qed.

(** ** Steps of the builder *)

Definition at_branches (b : RangeBuilder K) (lower : list (BranchLevel K)) l (ls : list (BranchLevel K)) : RangeBuilder K := set_branches (lower ++ l :: ls) b.

Lemma insert_middle {A} (x y : A) (l r : list A) : <[length l := x]> (l ++ y :: r) = l ++ x :: r.
Proof using Type. induction l as [|a l IH]; [done |]. cbn. f_equal. apply IH. Qed.

Lemma branch_at_run b lower l ls (s : S) : branch_at (length lower) (at_branches b lower l ls, s) = ((at_branches b lower l ls, s), Ok l).
Proof using Type. unfold branch_at, at_branches. cbn [fst rb_branches set_branches]. by rewrite list_lookup_middle. Qed.
Lemma set_only_child_run c b lower l ls (s : S) :
  set_only_child c (length lower) (at_branches b lower l ls, s) = ((at_branches b lower (mkLevel (lv_page l) c (lv_emitted l)) ls, s), Ok tt).
Proof using Type.
  unfold set_only_child. rewrite (bind_ok _ _ _ _ _ (branch_at_run b lower l ls s)).
  unfold put_branch, on_page, modify, at_branches. cbn [fst snd set_branches rb_branches]. by rewrite insert_middle.
Qed.
Lemma set_emitted_run b lower l ls (s : S) :
  set_emitted (length lower) (at_branches b lower l ls, s) = ((at_branches b lower (mkLevel (lv_page l) (lv_only_child l) true) ls, s), Ok tt).
Proof using Type.
  unfold set_emitted. rewrite (bind_ok _ _ _ _ _ (branch_at_run b lower l ls s)).
  unfold put_branch, on_page, modify, at_branches. cbn [fst snd set_branches rb_branches]. by rewrite insert_middle.
Qed.
Lemma with_branch_run {A} (m : io (PackedPage K * S) A) b lower l ls s pg' s' r : m (lv_page l, s) = ((pg', s'), r) ->
  with_branch (length lower) m (at_branches b lower l ls, s) = ((at_branches b lower (mkLevel pg' (lv_only_child l) (lv_emitted l)) ls, s'), r).
Proof using Type.
  intros E. unfold with_branch. rewrite (bind_ok _ _ _ _ _ (branch_at_run b lower l ls s)). unfold zoom. cbn [fst snd]. rewrite E.
  unfold at_branches. cbn [fst snd set_branches rb_branches]. by rewrite insert_middle.
Qed.

Lemma encoded_fence_ok nd : key_ok (bn_first nd) -> encoded_fence nd = Ok (fence (Leaf := Range K) (bn_first nd) (bn_page_number nd)).
Proof using Type*.
  intros Hk. pose proof (key_width_range (K := K)). unfold encoded_fence.
  destruct (write_branch_ok (Leaf := Range K) (bn_first nd) (bn_page_number nd) (replicate (Z.to_nat MAX_FENCE_SIZE) 0)) as (bytes & E & Hf);
    [exact Hk | rewrite zlen_replicate; cbn; unfold MAX_FENCE_SIZE; lia |].
  rewrite E. cbn [mbind outcome_bind]. by rewrite Hf.
Qed.

Lemma start_branch_ok b lower l ls s h k txn : serving s h (Datatypes.S k) txn -> rb_born_txn b = txn -> Z.of_nat (length lower) + 1 <= MAX_TREE_LEVEL ->
  exists s' n ap p, start_branch (length lower) (at_branches b lower l ls, s)
      = ((at_branches b lower (mkLevel (mkPacked (Some ap) None (Some n)) (lv_only_child l) (lv_emitted l)) ls, s'), Ok tt)
    /\ h !! n = None /\ serving s' (<[n := p]> h) k txn /\ drafted (K := K) (<[n := p]> h) txn (Z.of_nat (length lower) + 1) n ap [].
Proof using Type*.
  intros Hs Hb Hl. destruct (pk_start_ok (lv_page l) s h k txn (Z.of_nat (length lower) + 1) Hs) as (s' & n & ap & p & E & Hn); [lia |].
  exists s', n, ap, p. split; [| done]. unfold start_branch. rewrite (bind_ok _ _ _ (at_branches b lower l ls, s) txn) by (unfold gets; cbn; by rewrite Hb).
  apply with_branch_run. unfold page_type_of in E. by rewrite (proj2 (Z.eqb_neq _ _)) in E by lia.
Qed.

(** A cell for a tree of the level below. *)
Lemma tree_cell_good h txn i t : stands h txn i t -> good_cell (Leaf := Range K) (Z.of_nat i + 1) (cell_of t).
Proof using Type*.
  intros Ht. destruct (stands_first _ _ _ _ Ht) as (e & rest & _ & _ & Hk & ->). apply fence_good; [lia | done].
Qed.

Lemma push_branch_cell_run t nd h txn b lower l ls s pg' s' (r : Result bool) : stands h txn (length lower) t -> node_of t nd ->
  pk_push (bn_first nd) (cell_of t) (lv_page l, s) = ((pg', s'), r) ->
  push_branch_cell (length lower) nd (at_branches b lower l ls, s) = ((at_branches b lower (mkLevel pg' (lv_only_child l) (lv_emitted l)) ls, s'), r).
Proof using Type*.
  intros Ht [Hn Hf] E. unfold push_branch_cell. destruct (stands_first _ _ _ _ Ht) as (e & rest & He & _ & Hk & _).
  assert (Hkey : key_ok (bn_first nd)). { destruct Hf as (e' & rest' & He' & ->). rewrite He in He'. injection He' as <- <-. exact Hk. }
  rewrite (encoded_fence_ok nd Hkey), <- (ltac:(rewrite Hn; by apply cell_of_first) : cell_of t = fence (bn_first nd) (bn_page_number nd)).
  exact (with_branch_run _ b lower l ls s pg' s' r E).
Qed.

(** Writing a page of one's own, or a new one. *)
Lemma grows_own (h : Pages) n p : grows h [n] (<[n := p]> h) [n].
Proof using Type.
  split; [| by left]. intros m q Hm Hq. rewrite lookup_insert_ne; [done |]. intros ->. by apply Hm, list_elem_of_singleton.
Qed.
Lemma grows_new (h : Pages) n p : h !! n = None -> grows h [] (<[n := p]> h) [n].
Proof using Type.
  intros Hn. split; [| intros m ->%list_elem_of_singleton; by right]. intros m q _ Hq. rewrite lookup_insert_ne; [done |]. by intros ->; rewrite Hn in Hq.
Qed.
(** What else there is stays as it is and apart. *)
Lemma grows_apart h X h' X' Y : grows h X h' X' -> NoDup (X ++ Y) -> NoDup X' -> (forall m, m ∈ Y -> is_Some (h !! m)) ->
  grows h (X ++ Y) h' (X' ++ Y) /\ NoDup (X' ++ Y) /\ (forall m, m ∈ Y -> h' !! m = h !! m).
Proof using Type.
  intros [Hk Hn] (HX & Hd & HY)%NoDup_app HX' Hin.
  assert (Hsame : forall m, m ∈ Y -> h' !! m = h !! m).
  { intros m Hm. destruct (Hin m Hm) as [p Hp]. rewrite Hp. apply Hk; [| done]. intros Hx. by apply (Hd m). }
  split; [split | split; [| done]].
  - intros m p Hm Hp. apply Hk; [| done]. intros Hx. apply Hm, elem_of_app. by left.
  - intros m [Hm | Hm]%elem_of_app; [| left; apply elem_of_app; by right]. destruct (Hn m Hm); [left; apply elem_of_app; by left | by right].
  - apply NoDup_app. split; [done |]. split; [| done]. intros m Hm Hy. destruct (Hn m Hm) as [Hx | Hx]; [by apply (Hd m) |].
    destruct (Hin m Hy) as [p Hp]. congruence.
Qed.

(** ** One level *)

(** The node has its place on the level, which may have taken a new page. *)
Definition placed (h : Pages) (txn : Z) (k : nat) (lower : list (BranchLevel K)) l (g : list shape) (own : list Z) (ls : list (BranchLevel K)) t nd b (s : S) : Prop :=
  exists s' h' l' own', push_at (length lower) nd (at_branches b lower l ls, s) = ((at_branches b lower l' ls, s'), Ok true)
    /\ serving s' h' k txn /\ level_rep h' txn (length lower) l' (g ++ [t]) own' /\ lv_emitted l' = lv_emitted l /\ grows h own h' own' /\ NoDup own'.
(** The page of the level is full. *)
Definition crowded (h : Pages) (txn : Z) (k : nat) (lower : list (BranchLevel K)) l (g : list shape) (own : list Z) (ls : list (BranchLevel K)) nd b (s : S) : Prop :=
  exists s' h' ap key n t0 kids, push_at (length lower) nd (at_branches b lower l ls, s) = ((at_branches b lower l ls, s'), Ok false)
    /\ serving s' h' k txn /\ l = mkLevel (mkPacked (Some ap) (Some key) (Some n)) None (lv_emitted l) /\ g = t0 :: kids /\ own = [n]
    /\ first_is t0 key /\ drafted (K := K) h' txn (Z.of_nat (length lower) + 1) n ap (cell_of <$> g) /\ FULL <= zlen g /\ grows h own h' own.

Lemma push_only_ok h txn k lower t1 nd1 e ls t nd b s : stands h txn (length lower) t1 -> stands h txn (length lower) t -> node_of t1 nd1 -> node_of t nd ->
  serving s h (Datatypes.S k) txn -> rb_born_txn b = txn -> Z.of_nat (length lower) + 1 <= MAX_TREE_LEVEL ->
  placed h txn k lower (mkLevel pk_empty (Some nd1) e) [t1] [] ls t nd b s.
Proof using Type*.
  intros Ht1 Ht Hn1 Hn Hs Hb Hl.
  destruct (start_branch_ok b lower (mkLevel pk_empty None e) ls s h k txn Hs Hb Hl) as (s1 & n & ap & p & E1 & Hnew & Hs1 & Hd1). cbn [lv_only_child lv_emitted] in E1.
  destruct (pk_push_cases None (bn_first nd1) (cell_of t1) s1 _ k txn _ n ap [] Hs1 Hd1 (tree_cell_good _ _ _ _ Ht1))
    as [(s2 & ap2 & p2 & E2 & Hs2 & Hd2) | [Hbad _]]; [| unfold FULL, zlen in Hbad; cbn in Hbad; lia].
  destruct (pk_push_cases (Some (bn_first nd1)) (bn_first nd) (cell_of t) s2 _ k txn _ n ap2 _ Hs2 Hd2 (tree_cell_good _ _ _ _ Ht))
    as [(s3 & ap3 & p3 & E3 & Hs3 & Hd3) | [Hbad _]]; [| unfold FULL, zlen in Hbad; cbn in Hbad; lia].
  rewrite !insert_insert_eq in Hs3, Hd3. cbn [default] in E2, E3.
  exists s3, (<[n := p3]> h), (mkLevel (mkPacked (Some ap3) (Some (bn_first nd1)) (Some n)) None e), [n]. split.
  - unfold push_at. rewrite (bind_ok _ _ _ _ _ (branch_at_run b lower _ ls s)). cbn [lv_page lv_only_child]. change (pk_active pk_empty) with false. cbn iota.
    rewrite (bind_ok _ _ _ _ _ (set_only_child_run None b lower _ ls s)). cbn [lv_page lv_emitted]. rewrite (bind_ok _ _ _ _ _ E1).
    rewrite (bind_ok _ _ _ _ _ (push_branch_cell_run t1 nd1 h txn b lower (mkLevel (mkPacked (Some ap) None (Some n)) None e) ls s1 _ s2 (Ok true) Ht1 Hn1 E2)). cbn [lv_page lv_only_child lv_emitted].
    rewrite (bind_ok _ _ _ _ _ (ltac:(done) : fail_if (negb true) _ _ = (_, Ok tt))).
    exact (push_branch_cell_run t nd h txn b lower (mkLevel (mkPacked (Some ap2) (Some (bn_first nd1)) (Some n)) None e) ls s2 _ s3 (Ok true) Ht Hn E3).
  - split; [done |]. split; [constructor; [apply Hn1 | done] |]. split; [done |]. split; [by apply grows_new | by apply NoDup_singleton].
Qed.

Lemma push_at_ok h txn k lower l g own ls t nd b s : level_rep h txn (length lower) l g own -> Forall (stands h txn (length lower)) g ->
  stands h txn (length lower) t -> node_of t nd -> serving s h (Datatypes.S k) txn -> rb_born_txn b = txn -> Z.of_nat (length lower) + 1 <= MAX_TREE_LEVEL ->
  placed h txn k lower l g own ls t nd b s \/ crowded h txn k lower l g own ls nd b s.
Proof using Type*.
  intros Hl Hg Ht Hn Hs Hb Hi. pose proof (serving_less _ _ _ k _ Hs ltac:(lia)) as Hk. destruct Hl as [e | t1 nd1 e Hn1 | ap key n t0 kids e Hf Hd].
  - left. eexists s, h, (mkLevel pk_empty (Some nd) e), []. split; [| split; [done |]; split; [by constructor |]; split; [done |]; split; [apply grows_refl | constructor]].
    unfold push_at. rewrite (bind_ok _ _ _ _ _ (branch_at_run b lower _ ls s)). cbn [lv_page lv_only_child]. change (pk_active pk_empty) with false. cbn iota.
    by rewrite (bind_ok _ _ _ _ _ (set_only_child_run (Some nd) b lower _ ls s)).
  - left. apply Forall_cons in Hg as [Ht1 _]. by apply push_only_ok.
  - set (l := mkLevel (mkPacked (Some ap) (Some key) (Some n)) None e).
    assert (Epush : push_at (length lower) nd (at_branches b lower l ls, s) = push_branch_cell (length lower) nd (at_branches b lower l ls, s)).
    { unfold push_at. by rewrite (bind_ok _ _ _ _ _ (branch_at_run b lower l ls s)). }
    destruct (pk_push_cases (Some key) (bn_first nd) (cell_of t) s h k txn _ n ap _ Hk Hd (tree_cell_good _ _ _ _ Ht))
      as [(s' & ap' & p' & E & Hs' & Hd') | (Hfull & s' & p' & E & Hs' & Hd')].
    + left. exists s', (<[n := p']> h), (mkLevel (mkPacked (Some ap') (Some key) (Some n)) None e), [n].
      rewrite Epush, (push_branch_cell_run t nd h txn b lower l ls s _ s' (Ok true) Ht Hn E). split; [done |]. split; [done |].
      split; [constructor; [done |]; by rewrite app_comm_cons, fmap_app |]. split; [done |]. split; [apply grows_own | apply NoDup_singleton].
    + right. exists s', (<[n := p']> h), ap, key, n, t0, kids. rewrite Epush, (push_branch_cell_run t nd h txn b lower l ls s _ s' (Ok false) Ht Hn E).
      assert (Hz : zlen (cell_of <$> t0 :: kids) = zlen (t0 :: kids)) by (unfold zlen; by rewrite length_fmap). rewrite Hz in Hfull. do 2 (split; [done |]). split; [done |]. do 5 (split; [done |]). apply grows_own.
Qed.

(** ** All levels *)

(** The levels from [lower] on with a tree more. *)
Definition taken (h : Pages) (txn : Z) (lower : list (BranchLevel K)) (gs : list (list shape)) (X : list Z) t (h' : Pages) (ls' : list (BranchLevel K)) (gs' : list (list shape)) (X' : list Z) : Prop :=
  levels_rep h' txn (length lower) ls' gs' X' /\ NoDup X' /\ grows h (X ++ pages t) h' X' /\ urecs gs' = urecs gs ++ recs t
  /\ exists g gs1, gs' = g :: gs1 /\ g <> [] /\ heavies (Datatypes.S (length lower)) gs1 /\ (heavy (length lower) t -> Forall (heavy (length lower)) g).

Lemma placed_taken h txn k lower l g own ls gs X t nd b s : placed h txn k lower l g own ls t nd b s ->
  levels_rep h txn (length lower) (l :: ls) (g :: gs) (own ++ grove_pages g ++ X) -> level_rep h txn (length lower) l g own -> Forall (stands h txn (length lower)) g ->
  (if lv_emitted l then FULL ^ (Z.of_nat (length lower) + 2) <= zlen (urecs gs) else urecs gs = []) -> levels_rep h txn (Datatypes.S (length lower)) ls gs X ->
  stands h txn (length lower) t -> NoDup ((own ++ grove_pages g ++ X) ++ pages t) -> heavies (length lower) (g :: gs) ->
  exists s' h' l' X', push_at (length lower) nd (at_branches b lower l ls, s) = ((at_branches b lower l' ls, s'), Ok true) /\ serving s' h' k txn
    /\ taken h txn lower (g :: gs) (own ++ grove_pages g ++ X) t h' (l' :: ls) ((g ++ [t]) :: gs) X'.
Proof using Type*.
  intros (s' & h' & l' & own' & E & Hs' & Hl' & He' & Hgr & Hnd') Hls Hl Hg He Hup Ht Hnd [Hh1 Hh2].
  rewrite <- !app_assoc in Hnd. destruct (grows_apart h own h' own' _ Hgr Hnd Hnd') as (Hgr' & Hnd2 & Hsame).
  { intros m [Hm | [Hm | Hm]%elem_of_app]%elem_of_app.
    - eapply (levels_pages _ _ _ _ _ _ m Hls). apply elem_of_app. right. apply elem_of_app. by left.
    - eapply (levels_pages _ _ _ _ _ _ m Hls). apply elem_of_app. right. apply elem_of_app. by right.
    - by eapply stands_pages. }
  assert (Hperm : own' ++ grove_pages g ++ X ++ pages t ≡ₚ own' ++ grove_pages (g ++ [t]) ++ X).
  { rewrite grove_pages_app, grove_pages_cons. cbn [grove_pages map concat]. solve_Permutation. }
  exists s', h', l', (own' ++ grove_pages (g ++ [t]) ++ X). split; [done |]. split; [done |]. split; [| split; [| split; [| split]]].
  - constructor; [done | | by rewrite He' |].
    + apply Forall_app. split; [| constructor; [| constructor]].
      * apply (grove_frame h); [| done]. intros m Hm. apply Hsame, elem_of_app. by left.
      * apply (stands_frame h); [| done]. intros m Hm. apply Hsame, elem_of_app. right. apply elem_of_app. by right.
    + apply (levels_frame h); [done |]. intros m Hm. apply Hsame, elem_of_app. right. apply elem_of_app. by left.
  - by rewrite <- Hperm.
  - rewrite <- app_assoc, <- app_assoc. by eapply grows_perm_r.
  - cbn [urecs]. rewrite grove_recs_app, grove_recs_cons. cbn [grove_recs map concat]. by rewrite app_nil_r, app_assoc.
  - exists (g ++ [t]), gs. split; [done |]. split; [by destruct g |]. split; [done |]. intros Hht. apply Forall_app. by split; [| constructor].
Qed.

(** An open page of a level is finished: the trees of the level get a root. *)
Lemma finish_page_ok h txn k lower ap key n e t0 kids ls b s : serving s h k txn -> first_is t0 key ->
  drafted (K := K) h txn (Z.of_nat (length lower) + 1) n ap (cell_of <$> t0 :: kids) -> Forall (stands h txn (length lower)) (t0 :: kids) ->
  n ∉ grove_pages (t0 :: kids) -> Z.of_nat (length lower) + 1 <= MAX_TREE_LEVEL ->
  exists s' h', with_branch (length lower) pk_finish (at_branches b lower (mkLevel (mkPacked (Some ap) (Some key) (Some n)) None e) ls, s)
      = ((at_branches b lower (mkLevel pk_empty None e) ls, s'), Ok (mkBulkNode key n))
    /\ serving s' h' k txn /\ grows h [n] h' [n] /\ stands h' txn (Datatypes.S (length lower)) (Bough n (t0 :: kids)) /\ node_of (Bough n (t0 :: kids)) (mkBulkNode key n).
Proof using Type*.
  intros Hs Hf Hd Hg Hn Hl. pose proof (serving_txn _ _ _ _ Hs) as Htxn.
  destruct (pk_finish_ok key s h k txn _ n ap _ Hs Hd ltac:(done) ltac:(lia)) as (s' & p & E & Hs' & Hp).
  exists s', (<[n := p]> h). split; [exact (with_branch_run _ b lower (mkLevel (mkPacked (Some ap) (Some key) (Some n)) None e) ls s _ s' _ E) |].
  split; [done |]. split; [apply grows_own |]. split.
  - cbn [stands]. split; [| by apply (grove_insert h)]. rewrite (ltac:(lia) : Z.of_nat (Datatypes.S (length lower)) = Z.of_nat (length lower) + 1).
    apply private_page_at; [lia | done].
  - split; [done |]. destruct Hf as (e0 & rest & He & ->). exists e0, (rest ++ grove_recs kids). split; [| done]. cbn [recs]. fold (grove_recs (t0 :: kids)).
    by rewrite grove_recs_cons, He.
Qed.

Lemma levels_cons_inv h txn i l ls gs X : levels_rep h txn i (l :: ls) gs X -> exists g gs0 own X0, gs = g :: gs0 /\ X = own ++ grove_pages g ++ X0
  /\ level_rep h txn i l g own /\ Forall (stands h txn i) g
  /\ (if lv_emitted l then FULL ^ (Z.of_nat i + 2) <= zlen (urecs gs0) else urecs gs0 = []) /\ levels_rep h txn (Datatypes.S i) ls gs0 X0.
Proof using Type. inversion 1; subst. by do 4 eexists. Qed.

(** A full page becomes a tree for the level above. *)
Lemma crowded_parent h txn k lower l g own ls gs X t nd b s : crowded h txn k lower l g own ls nd b s ->
  levels_rep h txn (length lower) (l :: ls) (g :: gs) (own ++ grove_pages g ++ X) -> Forall (stands h txn (length lower)) g ->
  levels_rep h txn (Datatypes.S (length lower)) ls gs X -> stands h txn (length lower) t -> NoDup ((own ++ grove_pages g ++ X) ++ pages t) ->
  Forall (heavy (length lower)) g -> Z.of_nat (length lower) + 1 <= MAX_TREE_LEVEL ->
  exists s1 s2 h2 n nd2, push_at (length lower) nd (at_branches b lower l ls, s) = ((at_branches b lower l ls, s1), Ok false)
    /\ with_branch (length lower) pk_finish (at_branches b lower l ls, s1) = ((at_branches b lower (mkLevel pk_empty None (lv_emitted l)) ls, s2), Ok nd2)
    /\ serving s2 h2 k txn /\ stands h2 txn (Datatypes.S (length lower)) (Bough n g) /\ node_of (Bough n g) nd2 /\ heavy (Datatypes.S (length lower)) (Bough n g)
    /\ levels_rep h2 txn (Datatypes.S (length lower)) ls gs X /\ stands h2 txn (length lower) t
    /\ NoDup ((X ++ pages (Bough n g)) ++ pages t) /\ grows h ((own ++ grove_pages g ++ X) ++ pages t) h2 ((X ++ pages (Bough n g)) ++ pages t).
Proof using Type*.
  intros (s1 & h1 & ap & key & n & t0 & kids & E1 & Hs1 & El & Eg & -> & Hf & Hd & Hfull & Hgr1) Hrep Hg Hup Ht Hnd Hh Hi.
  assert (Hdom : forall m, m ∈ grove_pages g ++ X ++ pages t -> is_Some (h !! m)).
  { intros m [Hm | [Hm | Hm]%elem_of_app]%elem_of_app; [| | by eapply stands_pages];
      apply (levels_pages _ _ _ _ _ _ m Hrep), elem_of_app; right; apply elem_of_app; auto. }
  rewrite <- !app_assoc in Hnd. destruct (grows_apart h [n] h1 [n] _ Hgr1 Hnd (NoDup_singleton n) Hdom) as (_ & _ & Hsame1).
  pose proof Hnd as (_ & Hnot & _)%NoDup_app.
  destruct (finish_page_ok h1 txn k lower ap key n (lv_emitted l) t0 kids ls b s1) as (s2 & h2 & E2 & Hs2 & Hgr2 & HP & HnP); try done.
  { by rewrite Eg in Hd. }
  { rewrite <- Eg. apply (grove_frame h); [| done]. intros m Hm. apply Hsame1, elem_of_app. by left. }
  { rewrite <- Eg. intros Hm. apply (Hnot n); [constructor |]. apply elem_of_app. by left. }
  rewrite <- Eg in HP, HnP. rewrite <- El in E2.
  destruct (grows_apart h [n] h2 [n] _ (grows_trans _ _ _ _ _ _ Hgr1 Hgr2) Hnd (NoDup_singleton n) Hdom) as (Hgr & _ & Hsame).
  assert (Hperm : [n] ++ grove_pages g ++ X ++ pages t ≡ₚ (X ++ pages (Bough n g)) ++ pages t).
  { cbn [pages]. fold (grove_pages g). solve_Permutation. }
  exists s1, s2, h2, n, (mkBulkNode key n). do 5 (split; [done |]). split; [by apply bough_heavy |].
  split; [apply (levels_frame h); [done |]; intros m Hm; apply Hsame, elem_of_app; right; apply elem_of_app; by left |].
  split; [apply (stands_frame h); [| done]; intros m Hm; apply Hsame, elem_of_app; right; apply elem_of_app; by right |].
  split; [by rewrite <- Hperm |]. rewrite <- !app_assoc. eapply grows_perm_r; [| exact Hgr]. by rewrite Hperm, <- app_assoc.
Qed.

Lemma push_node_ok levels : forall lower ls gs X t nd b s h k txn, (length lower + levels = BRANCH_LEVELS)%nat -> (0 < levels)%nat -> length ls = levels ->
  levels_rep h txn (length lower) ls gs X -> stands h txn (length lower) t -> node_of t nd -> NoDup (X ++ pages t) ->
  serving s h (levels + k) txn -> rb_born_txn b = txn -> heavies (length lower) gs -> zlen (urecs gs ++ recs t) < FULL ^ 7 ->
  exists s' h' ls' gs' X', push_node levels (length lower) nd (set_branches (lower ++ ls) b, s) = ((set_branches (lower ++ ls') b, s'), Ok tt)
    /\ length ls' = levels /\ serving s' h' k txn /\ taken h txn lower gs X t h' ls' gs' X'.
Proof using Type*.
  induction levels as [|levels IH]; [lia |]. intros lower ls gs X t nd b s h k txn Hlen _ Hls Hrep Ht Hn Hnd Hs Hb Hh Htot.
  destruct ls as [|l ls]; [done |]. destruct (levels_cons_inv _ _ _ _ _ _ _ Hrep) as (g & gs0 & own & X0 & -> & -> & Hl & Hg & He & Hup).
  assert (Hi : Z.of_nat (length lower) + 1 <= MAX_TREE_LEVEL) by (unfold BRANCH_LEVELS, MAX_TREE_LEVEL in *; lia).
  cbn [push_node]. rewrite bool_decide_false by (unfold BRANCH_LEVELS in *; lia). change (set_branches (lower ++ l :: ls) b) with (at_branches b lower l ls).
  destruct (push_at_ok h txn (levels + k) lower l g own ls t nd b s Hl Hg Ht Hn Hs Hb Hi) as [Hp | Hc].
  - destruct (placed_taken _ _ _ _ _ _ _ _ _ _ _ _ _ _ Hp Hrep Hl Hg He Hup Ht Hnd Hh) as (s' & h' & l' & X' & E & Hs' & Htk).
    exists s', h', (l' :: ls), ((g ++ [t]) :: gs0), X'. rewrite (bind_ok _ _ _ _ _ E). split; [done |]. split; [done |]. split; [exact (serving_less _ _ _ k _ Hs' ltac:(lia)) | done].
  - destruct (crowded_parent _ _ _ _ _ _ _ _ _ _ _ _ _ _ Hc Hrep Hg Hup Ht Hnd (proj1 Hh) Hi)
      as (s1 & s2 & h2 & n & nd2 & E1 & E2 & Hs2 & HP & HnP & HhP & Hup2 & Ht2 & Hnd2 & Hgr2).
    assert (Hshort : zlen (urecs gs0 ++ recs (Bough n g)) <= zlen (urecs (g :: gs0) ++ recs t)).
    { cbn [urecs recs]. fold (grove_recs g). rewrite !zlen_app. pose proof (zlen_nonneg (recs t)). lia. }
    assert (Hpos : (0 < levels)%nat).
    { destruct levels; [| lia]. exfalso. unfold heavy in HhP. rewrite zlen_app in Hshort. pose proof (zlen_nonneg (urecs gs0)).
      replace (Z.of_nat (Datatypes.S (length lower)) + 1) with 7 in HhP by (unfold BRANCH_LEVELS in Hlen; lia). lia. }
    pose proof Hnd2 as (HndP & _)%NoDup_app. rewrite (bind_ok _ _ _ _ _ E1), (bind_ok _ _ _ _ _ E2), (bind_ok _ _ _ _ _ (set_emitted_run b lower _ ls s2)). cbn [lv_page lv_only_child].
    destruct (IH (lower ++ [mkLevel pk_empty None true]) ls gs0 X0 (Bough n g) nd2 b s2 h2 k txn)
      as (s3 & h3 & ls3 & gs3 & X3 & E3 & Hls3 & Hs3 & Hr3 & Hnd3 & Hgr3 & Hu3 & g3 & gs4 & -> & Hg3 & Hh4 & Hhg3);
      rewrite ?length_app; cbn [length]; rewrite ?Nat.add_1_r; try done; [lia | by injection Hls | apply Hh | lia |].
    rewrite length_app, Nat.add_1_r, <- app_assoc in E3. cbn [length app] in E3. rewrite length_app, Nat.add_1_r in Hr3, Hh4, Hhg3.
    rewrite (bind_ok _ _ _ _ _ E3). rewrite <- app_assoc. cbn [app]. change (set_branches (lower ++ ?x :: ls3) b) with (at_branches b lower x ls3).
    rewrite set_only_child_run. cbn [lv_page lv_emitted].
    destruct (grows_apart _ _ _ _ (pages t) Hgr3 Hnd2 Hnd3) as (Hgr & Hnd' & Hsame); [by intros m; eapply stands_pages |].
    assert (Hperm : X3 ++ pages t ≡ₚ [] ++ grove_pages [t] ++ X3) by (rewrite grove_pages_cons; cbn [grove_pages map concat]; solve_Permutation).
    exists s3, h3, (mkLevel pk_empty (Some nd) true :: ls3), ([t] :: g3 :: gs4), ([] ++ grove_pages [t] ++ X3). split; [done |]. split; [cbn; lia |]. split; [done |].
    split; [| split; [| split; [| split]]].
    + constructor; [by constructor | constructor; [| constructor] | | done].
      * apply (stands_frame h2); [| done]. intros m Hm. by apply Hsame.
      * cbn [lv_emitted]. rewrite Hu3, zlen_app. pose proof (zlen_nonneg (urecs gs0)). unfold heavy in HhP.
        replace (Z.of_nat (Datatypes.S (length lower)) + 1) with (Z.of_nat (length lower) + 2) in HhP by lia. lia.
    + by rewrite <- Hperm.
    + eapply grows_perm_r; [exact Hperm |]. by eapply grows_trans.
    + change (urecs ([t] :: g3 :: gs4)) with (urecs (g3 :: gs4) ++ grove_recs [t]). rewrite Hu3. cbn [urecs recs grove_recs map concat]. by rewrite app_nil_r.
    + exists [t], (g3 :: gs4). split; [done |]. split; [done |]. split; [split; [by apply Hhg3 | done] |]. intros Hht. by constructor.
Qed.

(** ** The leaf *)

Inductive leaf_rep (h : Pages) (txn : Z) : PackedPage K -> list (Range K) -> list Z -> Prop :=
| leaf_none : leaf_rep h txn pk_empty [] []
| leaf_open ap n e es : drafted (K := K) h txn 0 n ap (range_bytes <$> e :: es) -> Forall range_ok (e :: es) ->
    leaf_rep h txn (mkPacked (Some ap) (Some (r_from e)) (Some n)) (e :: es) [n].

(** The pages of the builder hold the records [es]. *)
Record packing (h : Pages) (txn : Z) (leaf : PackedPage K) (branches : list (BranchLevel K)) (es : list (Range K)) (X : list Z) : Prop := {
  pa_parts : exists fresh gs own X0, X = own ++ X0 /\ es = urecs gs ++ fresh /\ leaf_rep h txn leaf fresh own /\ levels_rep h txn 0 branches gs X0
    /\ heavies 0 gs /\ (fresh = [] -> es = []);
  pa_levels : length branches = BRANCH_LEVELS;
  pa_apart : NoDup X;
}.

Definition at_leaf b (leaf : PackedPage K) (branches : list (BranchLevel K)) : RangeBuilder K := set_branches branches (set_leaf leaf b).
Lemma with_leaf_run {A} (m : io (PackedPage K * S) A) b leaf branches s leaf' s' r : m (leaf, s) = ((leaf', s'), r) ->
  with_leaf m (at_leaf b leaf branches, s) = ((at_leaf b leaf' branches, s'), r).
Proof using Type. intros E. unfold with_leaf, zoom. cbn [fst snd rb_leaf at_leaf set_branches set_leaf]. by rewrite E. Qed.

Lemma record_cell_good e : range_ok e -> good_cell (Leaf := Range K) 0 (range_bytes e).
Proof using Type*. intros He. exact (cl_leaf_bytes (Leaf := Range K) e He). Qed.

(** An empty page takes the first record. *)
Lemma start_leaf_ok b leaf branches e s h k txn : serving s h (Datatypes.S k) txn -> rb_born_txn b = txn -> range_ok e ->
  exists s' h' leaf1 leaf2 s1 n, start_leaf (at_leaf b leaf branches, s) = ((at_leaf b leaf1 branches, s1), Ok tt)
    /\ with_leaf (pk_push (r_from e) (range_bytes e)) (at_leaf b leaf1 branches, s1) = ((at_leaf b leaf2 branches, s'), Ok true)
    /\ serving s' h' k txn /\ grows h [] h' [n] /\ leaf_rep h' txn leaf2 [e] [n].
Proof using Type*.
  intros Hs Hb He. destruct (pk_start_ok leaf s h k txn 0 Hs) as (s1 & n & ap & p & E & Hn & Hs1 & Hd); [unfold MAX_TREE_LEVEL; lia |].
  destruct (pk_push_cases None (r_from e) (range_bytes e) s1 _ k txn 0 n ap [] Hs1 Hd (record_cell_good e He)) as [(s2 & ap2 & p2 & E2 & Hs2 & Hd2) | [Hbad _]];
    [| unfold FULL, zlen in Hbad; cbn in Hbad; lia].
  rewrite insert_insert_eq in Hs2, Hd2. exists s2, (<[n := p2]> h), (mkPacked (Some ap) None (Some n)), (mkPacked (Some ap2) (Some (r_from e)) (Some n)), s1, n. split.
  { unfold start_leaf. rewrite (bind_ok _ _ _ (at_leaf b leaf branches, s) txn) by (unfold gets; cbn; by rewrite Hb). exact (with_leaf_run _ b leaf branches s _ s1 _ E). }
  split; [exact (with_leaf_run _ b _ branches s1 _ s2 _ E2) |]. split; [done |]. split; [by apply grows_new |]. by constructor; [| constructor].
Qed.

(** A leaf is finished. *)
Lemma finish_leaf_ok b ap n e es branches s h k txn : serving s h k txn -> drafted (K := K) h txn 0 n ap (range_bytes <$> e :: es) -> Forall range_ok (e :: es) ->
  exists s' h', with_leaf pk_finish (at_leaf b (mkPacked (Some ap) (Some (r_from e)) (Some n)) branches, s) = ((at_leaf b pk_empty branches, s'), Ok (mkBulkNode (r_from e) n))
    /\ serving s' h' k txn /\ grows h [n] h' [n] /\ stands h' txn 0 (Twig n (e :: es)) /\ node_of (Twig n (e :: es)) (mkBulkNode (r_from e) n).
Proof using Type*.
  intros Hs Hd Hes. pose proof (serving_txn _ _ _ _ Hs) as Htxn.
  destruct (pk_finish_ok (r_from e) s h k txn 0 n ap _ Hs Hd ltac:(done) ltac:(unfold MAX_TREE_LEVEL; lia)) as (s' & p & E & Hs' & Hp).
  exists s', (<[n := p]> h). split; [exact (with_leaf_run _ b _ branches s _ s' _ E) |]. split; [done |]. split; [apply grows_own |].
  split; [| split; [done | by exists e, es]]. cbn [stands]. split; [| done]. apply private_page_at; [lia | done].
Qed.

(** A finished leaf goes up. *)
Lemma push_leaf_up b n e es branches gs X s h k txn : stands h txn 0 (Twig n (e :: es)) -> node_of (Twig n (e :: es)) (mkBulkNode (r_from e) n) ->
  levels_rep h txn 0 branches gs X -> length branches = BRANCH_LEVELS -> heavies 0 gs -> NoDup (X ++ [n]) -> serving s h (6 + k) txn -> rb_born_txn b = txn ->
  zlen (urecs gs ++ e :: es) < FULL ^ 7 ->
  exists s' h' branches' gs' X', push_up 0 (mkBulkNode (r_from e) n) (at_leaf b pk_empty branches, s) = ((at_leaf b pk_empty branches', s'), Ok tt)
    /\ length branches' = BRANCH_LEVELS /\ serving s' h' k txn /\ taken h txn [] gs X (Twig n (e :: es)) h' branches' gs' X'.
Proof using Type*.
  intros Ht Hn Hl Hb Hh Hnd Hs Hborn Htot.
  exact (push_node_ok 6 [] branches gs X (Twig n (e :: es)) (mkBulkNode (r_from e) n) (set_leaf pk_empty b) s h k txn eq_refl ltac:(lia) Hb Hl Ht Hn Hnd Hs Hborn Hh Htot).
Qed.

(** A full leaf goes up and the record opens the next. *)
Lemma leaf_overflow_ok b ap n e0 es0 branches gs X0 e s h k txn : drafted (K := K) h txn 0 n ap (range_bytes <$> e0 :: es0) -> Forall range_ok (e0 :: es0) ->
  FULL <= zlen (e0 :: es0) -> levels_rep h txn 0 branches gs X0 -> length branches = BRANCH_LEVELS -> heavies 0 gs -> NoDup ([n] ++ X0) ->
  serving s h (7 + k) txn -> rb_born_txn b = txn -> zlen (urecs gs ++ e0 :: es0) < FULL ^ 7 -> range_ok e ->
  exists s' h' leaf' branches' X', (node ← with_leaf pk_finish; _ ← push_up 0 node; _ ← start_leaf; pushed ← with_leaf (pk_push (r_from e) (range_bytes e));
      fail_if (negb pushed) (Corrupt "range record does not fit an empty leaf")) (at_leaf b (mkPacked (Some ap) (Some (r_from e0)) (Some n)) branches, s)
      = ((at_leaf b leaf' branches', s'), Ok tt)
    /\ serving s' h' k txn /\ packing h' txn leaf' branches' ((urecs gs ++ e0 :: es0) ++ [e]) X' /\ grows h ([n] ++ X0) h' X'.
Proof using Type*.
  intros Hd Hes Hfull Hlev Hlen Hh Hnd Hs Hb Htot He.
  destruct (finish_leaf_ok b ap n e0 es0 branches s h _ txn Hs Hd Hes) as (s1 & h1 & E1 & Hs1 & Hgr1 & Ht & Hn).
  destruct (grows_apart h [n] h1 [n] X0 Hgr1 Hnd (NoDup_singleton n) (fun m => levels_pages h txn 0 branches gs X0 m Hlev)) as (Hgr1' & Hnd1 & Hsame1).
  assert (Hlev1 : levels_rep h1 txn 0 branches gs X0) by (by apply (levels_frame h)).
  destruct (push_leaf_up b n e0 es0 branches gs X0 s1 h1 (Datatypes.S k) txn) as (s2 & h2 & branches' & gs' & X2 & E2 & Hlen2 & Hs2 & Hlev2 & Hnd2 & Hgr2 & Hu2 & g & gs1 & -> & Hg & Hh1 & Hhg);
    try done; [by rewrite Permutation_app_comm |]. cbn [length] in *.
  destruct (start_leaf_ok b pk_empty branches' e s2 h2 k txn Hs2 Hb He) as (s3 & h3 & leaf1 & leaf2 & s2' & m & E3 & E4 & Hs3 & Hgr3 & Hl3).
  destruct (grows_apart h2 [] h3 [m] X2 Hgr3 Hnd2 (NoDup_singleton m) (fun m => levels_pages h2 txn 0 branches' _ X2 m Hlev2)) as (Hgr3' & Hnd3 & Hsame3).
  exists s3, h3, leaf2, branches', ([m] ++ X2). rewrite (bind_ok _ _ _ _ _ E1), (bind_ok _ _ _ _ _ E2), (bind_ok _ _ _ _ _ E3), (bind_ok _ _ _ _ _ E4).
  split; [done |]. split; [done |]. split.
  - split; [| done | done]. exists [e], (g :: gs1), [m], X2. split; [done |]. split; [by rewrite Hu2 |]. split; [done |]. split; [by apply (levels_frame h2) |].
    split; [split; [apply Hhg; unfold heavy; cbn [recs]; by change (FULL ^ _) with FULL | done] | done].
  - eapply grows_trans; [exact Hgr1' |]. eapply grows_trans; [| exact Hgr3']. eapply grows_perm; [| exact Hgr2]. cbn [pages]. apply Permutation_app_comm.
Qed.

Lemma push_leaf_cell_ok b leaf branches es X e s h k txn : packing h txn leaf branches es X -> range_ok e -> serving s h (7 + k) txn -> rb_born_txn b = txn ->
  zlen es < FULL ^ 7 ->
  exists s' h' leaf' branches' X', push_leaf_cell (r_from e) (range_bytes e) (at_leaf b leaf branches, s) = ((at_leaf b leaf' branches', s'), Ok tt)
    /\ serving s' h' k txn /\ packing h' txn leaf' branches' (es ++ [e]) X' /\ grows h X h' X'.
Proof using Type*.
  intros [(fresh & gs & own & X0 & -> & -> & Hleaf & Hlev & Hh & Hne) Hlen Hnd] He Hs Hb Htot.
  pose proof (fun m => levels_pages h txn 0 branches gs X0 m Hlev) as Hdom. unfold push_leaf_cell.
  rewrite (bind_ok _ _ _ (at_leaf b leaf branches, s) (at_leaf b leaf branches)) by done. cbn [rb_leaf at_leaf set_branches set_leaf]. fold (at_leaf b leaf branches).
  destruct Hleaf as [| ap n e0 es0 Hd Hes0].
  - destruct (start_leaf_ok b pk_empty branches e s h k txn) as (s' & h' & leaf1 & leaf2 & s1 & n & E1 & E2 & Hs' & Hgr & Hl'); [eapply serving_less; [exact Hs | lia] | done | done |].
    destruct (grows_apart h [] h' [n] X0 Hgr Hnd (NoDup_singleton n) Hdom) as (Hgr' & Hnd' & Hsame).
    exists s', h', leaf2, branches, ([n] ++ X0). cbn [pk_active pk_empty pk_appender negb]. change (negb (bool_decide (is_Some None))) with true. cbn iota.
    rewrite (bind_ok _ _ _ _ _ E1), (bind_ok _ _ _ _ _ E2). split; [done |]. split; [done |]. split; [split; [| done | done] | done].
    exists [e], gs, [n], X0. split; [done |]. split; [by rewrite app_nil_r |]. split; [done |]. split; [by apply (levels_frame h) |]. by split.
  - change (negb (pk_active _)) with false. cbn iota. rewrite (bind_ok _ _ _ (at_leaf b (mkPacked (Some ap) (Some (r_from e0)) (Some n)) branches, s) tt) by done.
    destruct (pk_push_cases (Some (r_from e0)) (r_from e) (range_bytes e) s h (7 + k) txn 0 n ap _ Hs Hd (record_cell_good e He))
      as [(s' & ap' & p' & E & Hs' & Hd') | (Hfull & s1 & p1 & E & Hs1 & Hd1)].
    + destruct (grows_apart h [n] _ [n] X0 (grows_own h n p') Hnd (NoDup_singleton n) Hdom) as (Hgr' & Hnd' & Hsame).
      exists s', (<[n := p']> h), (mkPacked (Some ap') (Some (r_from e0)) (Some n)), branches, ([n] ++ X0).
      rewrite (bind_ok _ _ _ _ _ (with_leaf_run _ b _ branches s _ s' _ E)). split; [done |]. split; [eapply serving_less; [exact Hs' | lia] |].
      split; [split; [| done | done] | done]. exists ((e0 :: es0) ++ [e]), gs, [n], X0. split; [done |]. split; [by rewrite app_assoc |].
      split; [constructor; [by rewrite app_comm_cons, fmap_app | by apply (Forall_app_2 _ (e0 :: es0) [e]); [| constructor]] |].
      split; [by apply (levels_frame h) |]. split; [done |]. by destruct es0.
    + destruct (grows_apart h [n] _ [n] X0 (grows_own h n p1) Hnd (NoDup_singleton n) Hdom) as (Hgr' & Hnd' & Hsame).
      assert (Hz : zlen (range_bytes <$> e0 :: es0) = zlen (e0 :: es0)) by (unfold zlen; by rewrite length_fmap). rewrite Hz in Hfull.
      destruct (leaf_overflow_ok b ap n e0 es0 branches gs X0 e s1 (<[n := p1]> h) k txn) as (s' & h' & leaf' & branches' & X' & E' & Hs' & Hp' & Hgr2); try done.
      { by apply (levels_frame h). }
      exists s', h', leaf', branches', X'. rewrite (bind_ok _ _ _ _ _ (with_leaf_run _ b _ branches s _ s1 _ E)). cbn iota.
      split; [exact E' |]. split; [done |]. split; [done |]. by eapply grows_trans.
Qed.

(** ** Pushing records *)

Definition value_allowed (kind : ValueKind) (e : Range K) : Prop := kind = Direct \/ r_value e <> 0.

(** The builder has the records [es] in its pages. *)
Record building (h : Pages) (txn : Z) b (es : list (Range K)) (X : list Z) : Prop := {
  bu_packing : packing h txn (rb_leaf b) (rb_branches b) es X;
  bu_born : rb_born_txn b = txn;
  bu_count : rb_record_count b = zlen es;
  bu_previous : rb_previous b = last es;
}.

(** A record that may follow the last one: behind it, and not its continuation. *)
Definition follows (previous : option (Range K)) (e : Range K) : bool :=
  match previous with
  | None => true
  | Some p => (rt p <? rf e) && negb ((r_value p =? r_value e) && (rt p + 1 =? rf e))
  end.

Lemma can_append_ok b e : range_ok e -> value_allowed (rb_value_kind b) e -> (forall p, rb_previous b = Some p -> range_ok p) ->
  can_append b e = Ok (follows (rb_previous b) e).
Proof using Type*.
  intros (Hf & Ht & Hle & Hv) Hk Hp. unfold can_append, follows. rewrite key_ltb_num, (proj2 (Z.ltb_ge _ _)) by done.
  assert (Hz : negb (bool_decide (rb_value_kind b = Direct)) && (r_value e =? 0) = false).
  { destruct Hk as [-> | Hne]; [by rewrite bool_decide_true |]. rewrite (proj2 (Z.eqb_neq _ _) Hne). apply andb_false_r. }
  rewrite Hz. destruct (rb_previous b) as [p|]; [| done]. destruct (Hp p eq_refl) as (_ & Hpt & _). unfold rf, rt. rewrite key_leb_num by done.
  pose proof (checked_next_num (r_to p) Hpt) as Hn.
  destruct (Z.leb_spec (key_num (r_from e)) (key_num (r_to p))), (Z.ltb_spec (key_num (r_to p)) (key_num (r_from e))); try lia; [done |]. cbn [andb].
  destruct (r_value p =? r_value e); [| done]. cbn [andb].
  destruct (checked_next (r_to p)) as [next|]; [destruct Hn as [Hok Hn]; rewrite key_eqb_num, Hn by done; by destruct (key_num (r_to p) + 1 =? key_num (r_from e)) |].
  rewrite (proj2 (Z.eqb_neq _ _)); [done |]. pose proof (key_num_range _ Hf). lia.
Qed.

Lemma at_leaf_self b : at_leaf b (rb_leaf b) (rb_branches b) = b.
Proof using Type. by destruct b. Qed.

(** [try_push] takes exactly the records that may follow; a record it does not
    take changes nothing. *)
Lemma bulk_try_push_ok h txn b es X e s k : building h txn b es X -> Forall range_ok es -> range_ok e -> value_allowed (rb_value_kind b) e ->
  serving s h (7 + k) txn -> zlen es < FULL ^ 7 ->
  if follows (last es) e
  then exists b' s' h' X', bulk_try_push e (b, s) = ((b', s'), Ok true) /\ building h' txn b' (es ++ [e]) X' /\ serving s' h' k txn /\ grows h X h' X'
    /\ rb_value_kind b' = rb_value_kind b
  else bulk_try_push e (b, s) = ((b, s), Ok false).
Proof using Type*.
  intros [Hp Hb Hc Hpr] Hes He Hv Hs Htot.
  pose proof (can_append_ok b e He Hv) as Hca. rewrite Hpr in Hca. unfold bulk_try_push.
  rewrite (bind_ok _ _ (b, s) (b, s) b) by done. rewrite Hca by (intros p Hl; rewrite Forall_forall in Hes; by apply Hes, last_Some_elem_of).
  destruct (follows (last es) e); [| done]. rewrite (bind_ok _ _ (b, s) (b, s) true) by done. cbn [negb].
  rewrite Hc. unfold checked_add. rewrite (proj2 (Z.leb_le _ u64_max)) by (unfold FULL, u64_max in *; lia).
  rewrite (bind_ok _ _ (b, s) (b, s) (zlen es + 1)) by done. rewrite encoded_range_bytes by done. rewrite (bind_ok _ _ (b, s) (b, s) (range_bytes e)) by done.
  destruct (push_leaf_cell_ok b _ _ es X e s h k txn Hp He Hs Hb Htot) as (s' & h' & leaf' & branches' & X' & E & Hs' & Hp' & Hgr).
  rewrite at_leaf_self in E. rewrite (bind_ok _ _ _ _ _ E). eexists _, s', h', X'. split; [done |].
  split; [| by split; [| split]]. split; cbn; [done | done | rewrite zlen_app; unfold zlen; cbn; lia | by rewrite last_snoc].
Qed.

(** ** Finishing *)

(** A level closes with one tree: a part of the level above, or the root. *)
Definition closes (h : Pages) (txn : Z) (k : nat) (lower : list (BranchLevel K)) l (g : list shape) (own : list Z) (ls : list (BranchLevel K)) b (s : S) : Prop :=
  exists s' h' l' T, serving s' h' k txn /\ recs T = grove_recs g /\ grows h (own ++ grove_pages g) h' (pages T) /\ NoDup (pages T)
    /\ if lv_emitted l
       then exists nd, finish_level (length lower) (at_branches b lower l ls, s) = ((at_branches b lower l' ls, s'), Ok (Some (FinishedParent nd)))
              /\ node_of T nd /\ stands h' txn (Datatypes.S (length lower)) T
       else finish_level (length lower) (at_branches b lower l ls, s) = ((at_branches b lower l' ls, s'), Ok (Some (FinishedRoot (root_of T))))
              /\ exists level, (level <= Datatypes.S (length lower))%nat /\ stands h' txn level T.

Lemma close_open_ok h txn k lower ap key n e t0 kids ls b s : serving s h k txn -> first_is t0 key ->
  drafted (K := K) h txn (Z.of_nat (length lower) + 1) n ap (cell_of <$> t0 :: kids) -> Forall (stands h txn (length lower)) (t0 :: kids) ->
  NoDup ([n] ++ grove_pages (t0 :: kids)) -> Z.of_nat (length lower) + 1 <= MAX_TREE_LEVEL ->
  closes h txn k lower (mkLevel (mkPacked (Some ap) (Some key) (Some n)) None e) (t0 :: kids) [n] ls b s.
Proof using Type*.
  intros Hs Hf Hd Hg Hnd Hi. pose proof Hnd as (Hn & _)%NoDup_cons.
  destruct (finish_page_ok h txn k lower ap key n e t0 kids ls b s Hs Hf Hd Hg Hn Hi) as (s' & h' & E & Hs' & Hgr & HP & HnP).
  destruct (grows_apart h [n] h' [n] (grove_pages (t0 :: kids)) Hgr Hnd (NoDup_singleton n)) as (Hgr' & _ & _).
  { intros m (t & Ht & Hm)%elem_of_grove_pages. rewrite Forall_forall in Hg. eapply stands_pages; [by apply Hg | done]. }
  exists s', h', (mkLevel pk_empty None e), (Bough n (t0 :: kids)). split; [done |]. split; [done |]. split; [done |]. split; [done |]. cbn [lv_emitted].
  assert (E' : finish_level (length lower) (at_branches b lower (mkLevel (mkPacked (Some ap) (Some key) (Some n)) None e) ls, s)
    = ((at_branches b lower (mkLevel pk_empty None e) ls, s'), Ok (Some (if e then FinishedParent (mkBulkNode key n) else FinishedRoot n)))).
  { unfold finish_level. rewrite (bind_ok _ _ _ _ _ (branch_at_run b lower _ ls s)). change (pk_active _) with true. cbn iota.
    by rewrite (bind_ok _ _ _ _ _ E), (bind_ok _ _ _ _ _ (branch_at_run b lower _ ls s')). }
  destruct e; [by exists (mkBulkNode key n) |]. split; [done |]. by exists (Datatypes.S (length lower)).
Qed.

Lemma close_only_ok h txn k lower t nd ls b s : stands h txn (length lower) t -> node_of t nd -> NoDup (grove_pages [t]) -> serving s h (Datatypes.S k) txn ->
  rb_born_txn b = txn -> Z.of_nat (length lower) + 1 <= MAX_TREE_LEVEL -> closes h txn k lower (mkLevel pk_empty (Some nd) true) [t] [] ls b s.
Proof using Type*.
  intros Ht Hn Hnd Hs Hb Hi.
  destruct (start_branch_ok b lower (mkLevel pk_empty None true) ls s h k txn Hs Hb Hi) as (s1 & n & ap & p & E1 & Hnew & Hs1 & Hd1). cbn [lv_only_child lv_emitted] in E1.
  destruct (pk_push_cases None (bn_first nd) (cell_of t) s1 _ k txn _ n ap [] Hs1 Hd1 (tree_cell_good _ _ _ _ Ht)) as [(s2 & ap2 & p2 & E2 & Hs2 & Hd2) | [Hbad _]];
    [| unfold FULL, zlen in Hbad; cbn in Hbad; lia]. rewrite insert_insert_eq in Hs2, Hd2. cbn [default] in E2.
  assert (Hdom : forall m, m ∈ grove_pages [t] -> is_Some (h !! m)).
  { intros m (t' & ->%list_elem_of_singleton & Hm)%elem_of_grove_pages. by eapply stands_pages. }
  destruct (grows_apart h [] _ [n] (grove_pages [t]) (grows_new h n p2 Hnew) Hnd (NoDup_singleton n) Hdom) as (Hgr & Hnd' & Hsame).
  assert (Ht' : Forall (stands (<[n := p2]> h) txn (length lower)) [t]).
  { apply (grove_frame h); [done | by constructor]. }
  destruct (finish_page_ok (<[n := p2]> h) txn k lower ap2 (bn_first nd) n true t [] ls b s2 Hs2 (proj2 Hn) Hd2 Ht') as (s3 & h3 & E3 & Hs3 & Hgr3 & HP & HnP);
    [by apply NoDup_cons in Hnd' as [? _] | done |].
  destruct (grows_apart _ [n] h3 [n] (grove_pages [t]) Hgr3 Hnd' (NoDup_singleton n)) as (Hgr3' & _ & _).
  { intros m Hm. rewrite Hsame by done. by apply Hdom. }
  exists s3, h3, (mkLevel pk_empty None true), (Bough n [t]). split; [done |]. split; [done |]. split; [by eapply grows_trans |]. split; [done |]. cbn [lv_emitted].
  exists (mkBulkNode (bn_first nd) n). split; [| done]. unfold finish_level. rewrite (bind_ok _ _ _ _ _ (branch_at_run b lower _ ls s)). cbn [lv_page lv_only_child].
  change (pk_active pk_empty) with false. cbn iota. rewrite (bind_ok _ _ _ _ _ (set_only_child_run None b lower _ ls s)). cbn [lv_page lv_emitted negb]. rewrite (bind_ok _ _ _ _ _ E1).
  rewrite (bind_ok _ _ _ _ _ (push_branch_cell_run t nd h txn b lower (mkLevel (mkPacked (Some ap) None (Some n)) None true) ls s1 _ s2 (Ok true) Ht Hn E2)). cbn [lv_page lv_only_child lv_emitted].
  rewrite (bind_ok _ _ _ _ _ (ltac:(done) : fail_if (negb true) _ _ = (_, Ok tt))). by rewrite (bind_ok _ _ _ _ _ E3).
Qed.

Lemma finish_level_ok h txn k lower l g own ls b s : level_rep h txn (length lower) l g own -> g <> [] -> Forall (stands h txn (length lower)) g ->
  NoDup (own ++ grove_pages g) -> serving s h (Datatypes.S k) txn -> rb_born_txn b = txn -> Z.of_nat (length lower) + 1 <= MAX_TREE_LEVEL ->
  closes h txn k lower l g own ls b s.
Proof using Type*.
  intros Hl Hne Hg Hnd Hs Hb Hi. pose proof (serving_less _ _ _ k _ Hs ltac:(lia)) as Hk. destruct Hl as [e | t nd e Hn | ap key n t0 kids e Hf Hd]; [done | |].
  - apply Forall_cons in Hg as [Ht _]. destruct e; [by apply close_only_ok |].
    exists s, h, (mkLevel pk_empty None false), t. split; [done |]. split; [cbn; by rewrite app_nil_r |].
    assert (Hp : grove_pages [t] = pages t) by (cbn; apply app_nil_r). cbn [app] in *. rewrite Hp in *. split; [apply grows_refl |]. split; [done |]. cbn [lv_emitted]. split.
    + unfold finish_level. rewrite (bind_ok _ _ _ _ _ (branch_at_run b lower _ ls s)). cbn [lv_page lv_only_child].
      change (pk_active pk_empty) with false. cbn iota. rewrite (bind_ok _ _ _ _ _ (set_only_child_run None b lower _ ls s)). cbn [lv_page lv_emitted negb].
      by rewrite <- (proj1 Hn).
    + exists (length lower). by split; [lia |].
  - by apply close_open_ok.
Qed.

(** The pages the last levels may still need. *)
Fixpoint finish_cost (levels : nat) : nat := match levels with O => 0 | Datatypes.S l => Datatypes.S l + finish_cost l end.

Lemma finish_levels_ok levels : forall lower ls gs X b s h k txn g gs1, (length lower + levels = BRANCH_LEVELS)%nat -> length ls = levels ->
  levels_rep h txn (length lower) ls gs X -> NoDup X -> gs = g :: gs1 -> g <> [] -> heavies (Datatypes.S (length lower)) gs1 ->
  serving s h (finish_cost levels + k) txn -> rb_born_txn b = txn -> zlen (urecs gs) < FULL ^ 7 ->
  exists b' s' h' level T, finish_levels (seq (length lower) levels) (set_branches (lower ++ ls) b, s) = ((b', s'), Ok (root_of T, rb_record_count b))
    /\ serving s' h' k txn /\ stands h' txn level T /\ (level <= BRANCH_LEVELS)%nat /\ recs T = urecs gs /\ grows h X h' (pages T).
Proof using Type*.
  induction levels as [|levels IH]; intros lower ls gs X b s h k txn g gs1 Hlen Hls Hrep Hnd -> Hne Hh Hs Hb Htot; [by destruct ls; inversion Hrep |].
  destruct ls as [|l ls]; [done |]. destruct (levels_cons_inv _ _ _ _ _ _ _ Hrep) as (g' & gs0 & own & X0 & Heq & -> & Hl & Hg & He & Hup). injection Heq as <- <-.
  assert (Hi : Z.of_nat (length lower) + 1 <= MAX_TREE_LEVEL) by (unfold BRANCH_LEVELS, MAX_TREE_LEVEL in *; lia).
  rewrite app_assoc in Hnd. pose proof Hnd as (Hnd0 & _ & HndX)%NoDup_app.
  destruct (finish_level_ok h txn (levels + (finish_cost levels + k)) lower l g own ls b s) as (s1 & h1 & l1 & T & Hs1 & HT & Hgr1 & HndT & Hem); try done.
  { eapply serving_less; [exact Hs | cbn [finish_cost]; lia]. }
  destruct (grows_apart _ _ _ _ X0 Hgr1 Hnd HndT (fun m => levels_pages _ _ _ _ _ _ m Hup)) as (Hgr1' & Hnd1 & Hsame1).
  cbn [seq finish_levels]. change (set_branches (lower ++ l :: ls) b) with (at_branches b lower l ls). destruct (lv_emitted l).
  - destruct Hem as (nd & E & Hn & HT').
    assert (Hpos : (0 < levels)%nat).
    { destruct levels; [| lia]. destruct ls; [| done]. pose proof (levels_length _ _ _ _ _ _ Hup). destruct gs1; [| done]. exfalso. cbn [urecs] in He.
      pose proof (Z.pow_pos_nonneg FULL (Z.of_nat (length lower) + 2) ltac:(done) ltac:(lia)). unfold zlen in He. cbn in He. lia. }
    rewrite (bind_ok _ _ _ _ _ E). assert (Hup1 : levels_rep h1 txn (Datatypes.S (length lower)) ls gs1 X0) by (by apply (levels_frame h)).
    assert (Hu : urecs gs1 ++ recs T = urecs (g :: gs1)) by (by rewrite HT).
    destruct (push_node_ok levels (lower ++ [l1]) ls gs1 X0 T nd b s1 h1 (finish_cost levels + k) txn) as (s2 & h2 & ls2 & gs2 & X2 & E2 & Hls2 & Hs2 & Hr2 & Hnd2 & Hgr2 & Hu2 & g2 & gs3 & -> & Hg2 & Hh3 & _);
      rewrite ?length_app; cbn [length]; rewrite ?Nat.add_1_r; try done; [lia | by injection Hls | by rewrite Permutation_app_comm | by rewrite Hu |].
    rewrite length_app, Nat.add_1_r in Hr2, Hh3, E2. rewrite <- app_assoc in E2. cbn [length app] in *.
    destruct (IH (lower ++ [l1]) ls2 (g2 :: gs3) X2 b s2 h2 k txn g2 gs3) as (b' & s3 & h3 & level & T3 & E3 & Hs3 & Ht3 & Hlv & Hrec & Hgr3);
      rewrite ?length_app; cbn [length]; rewrite ?Nat.add_1_r; try done; [lia | by rewrite Hu2, Hu |].
    rewrite length_app, Nat.add_1_r in E3. cbn [length] in E3.
    exists b', s3, h3, level, T3. split.
    { unfold push_up. replace (BRANCH_LEVELS - Datatypes.S (length lower))%nat with levels by lia. unfold at_branches. rewrite (bind_ok _ _ _ _ _ E2). exact E3. }
    split; [done |]. split; [done |]. split; [done |]. split; [by rewrite Hrec, Hu2, Hu |].
    rewrite app_assoc. eapply grows_trans; [exact Hgr1' |]. eapply grows_trans; [| exact Hgr3]. eapply grows_perm; [| exact Hgr2]. apply Permutation_app_comm.
  - destruct Hem as (E & level & Hlv & HT'). rewrite (bind_ok _ _ _ _ _ E). eexists _, s1, h1, level, T. split; [done |].
    split; [eapply serving_less; [exact Hs1 | lia] |]. split; [done |]. split; [unfold BRANCH_LEVELS in *; lia |]. split; [cbn [urecs]; by rewrite He, HT |].
    split; [intros m p Hm Hp; apply (proj1 Hgr1' m p); [by rewrite <- app_assoc | done] |].
    intros m Hm. destruct (proj2 Hgr1' m) as [Hx | Hx]; [apply elem_of_app; by left | left; by rewrite app_assoc | by right].
Qed.

(** ** The whole build *)

Fixpoint bulk_push_all (records : list (Range K)) : io (RangeBuilder K * S) unit :=
  match records with
  | [] => mret tt
  | r :: records => _ ← bulk_push r; bulk_push_all records
  end.
Definition bulk_build (records : list (Range K)) : io (RangeBuilder K * S) (Z * Z) :=
  _ ← bulk_push_all records;
  bulk_finish.

Lemma canonical_follows es e es' : sp_sorted rf (es ++ e :: es') -> canonical (es ++ e :: es') -> follows (last es) e = true.
Proof using Type*.
  intros Hs [_ Hc]. destruct (last es) as [p|] eqn:El; [| done]. cbn [follows]. apply last_Some in El as (es0 & ->).
  apply StronglySorted_app in Hs as (Hlt & _ & _). assert (Hin : p ∈ es0 ++ [p]) by (apply elem_of_app; right; constructor).
  destruct (Hc p e) as [Ha Hv]; [apply elem_of_app; by left | apply elem_of_app; right; constructor | apply Hlt; [done | constructor] |].
  rewrite (proj2 (Z.ltb_lt _ _) Ha). cbn [andb]. destruct (Z.eqb_spec (r_value p) (r_value e)), (Z.eqb_spec (rt p + 1) (rf e)); try done. by destruct Hv.
Qed.

Lemma bulk_push_all_ok txn es' : forall h b es X s k, building h txn b es X -> sp_sorted rf (es ++ es') -> canonical (es ++ es') ->
  Forall (value_allowed (rb_value_kind b)) es' -> serving s h (7 * length es' + k) txn -> zlen (es ++ es') < FULL ^ 7 ->
  exists b' s' h' X', bulk_push_all es' (b, s) = ((b', s'), Ok tt) /\ building h' txn b' (es ++ es') X' /\ serving s' h' k txn /\ grows h X h' X'.
Proof using Type*.
  induction es' as [|e es' IH]; intros h b es X s k Hbu Hsort Hcan Hval Hs Htot.
  - exists b, s, h, X. rewrite app_nil_r. split; [done |]. split; [done |]. split; [done | apply grows_refl].
  - apply Forall_cons in Hval as [Hv Hval]. rewrite zlen_app, zlen_cons in Htot. pose proof (zlen_nonneg es'). pose proof (zlen_nonneg es).
    assert (Hok : forall r, r ∈ es ++ e :: es' -> range_ok r) by apply Hcan.
    assert (Hes : Forall range_ok es) by (apply Forall_forall; intros r Hr; apply Hok, elem_of_app; by left).
    assert (He : range_ok e) by (apply Hok, elem_of_app; right; constructor).
    assert (Hs7 : serving s h (7 + (7 * length es' + k)) txn) by (eapply serving_less; [exact Hs | cbn [length]; lia]).
    pose proof (bulk_try_push_ok h txn b es X e s _ Hbu Hes He Hv Hs7 ltac:(lia)) as Hp.
    rewrite (canonical_follows es e es' Hsort Hcan) in Hp. destruct Hp as (b1 & s1 & h1 & X1 & E1 & Hb1 & Hs1 & Hgr1 & Hk1).
    rewrite cons_middle, app_assoc in Hsort, Hcan |- *.
    destruct (IH h1 b1 (es ++ [e]) X1 s1 k Hb1 Hsort Hcan) as (b2 & s2 & h2 & X2 & E2 & Hb2 & Hs2 & Hgr2); [by rewrite Hk1 | done | rewrite !zlen_app; unfold zlen in *; cbn; lia |].
    exists b2, s2, h2, X2. cbn [bulk_push_all]. unfold bulk_push at 1.
    assert (E1' : (pushed ← bulk_try_push e; fail_if (negb pushed) (InvalidArgument "ordered output ranges are not canonical")) (b, s) = ((b1, s1), Ok tt))
      by (by rewrite (bind_ok _ _ _ _ _ E1)).
    rewrite (bind_ok _ _ _ _ _ E1'). split; [done |]. split; [done |]. split; [done |]. by eapply grows_trans.
Qed.

Lemma building_new h txn kind : building h txn (range_builder_new txn kind) [] [].
Proof using Type.
  split; try done. split; [| done | constructor]. exists [], (replicate 6 []), [], []. split; [done |]. split; [done |]. split; [constructor |].
  split; [| split; [cbn; repeat split; constructor | done]].
  assert (Hn : forall n i, levels_rep h txn i (replicate n lv_empty) (replicate n []) [] /\ urecs (replicate n []) = []).
  { induction n as [|n IHn]; intros i; cbn [replicate]; [by split; [constructor |] |]. destruct (IHn (Datatypes.S i)) as [Hl Hu]. split.
    - apply (levels_cons h txn i lv_empty _ [] _ [] []); [constructor | constructor | exact Hu | done].
    - cbn [urecs]. by rewrite Hu. }
  apply Hn.
Qed.

Lemma bulk_finish_ok h txn b es X s k : building h txn b es X -> es <> [] -> serving s h (27 + k) txn -> zlen es < FULL ^ 7 ->
  exists b' s' h' level T, bulk_finish (b, s) = ((b', s'), Ok (root_of T, zlen es)) /\ serving s' h' k txn /\ stands h' txn level T
    /\ (level <= BRANCH_LEVELS)%nat /\ recs T = es /\ grows h X h' (pages T).
Proof using Type*.
  intros [[(fresh & gs & own & X0 & -> & Hes & Hleaf & Hlev & Hh & Hf) Hlen Hnd] Hb Hc _] Hne Hs Htot.
  assert (Hzc : zlen es <> 0) by (intros ?%zlen_zero_nil; done).
  unfold bulk_finish. rewrite (bind_ok _ _ (b, s) (b, s) b) by done. rewrite Hc, (proj2 (Z.eqb_neq _ 0)) by done.
  remember (rb_leaf b) as leaf eqn:El. destruct Hleaf as [| ap n e es0 Hd Hok]; [by rewrite Hf in Hne |].
  destruct (finish_leaf_ok b ap n e es0 (rb_branches b) s h _ txn Hs Hd Hok) as (s1 & h1 & E1 & Hs1 & Hgr1 & Ht & Hn). rewrite El, at_leaf_self in E1.
  destruct (grows_apart h [n] h1 [n] X0 Hgr1 Hnd (NoDup_singleton n) (fun m => levels_pages h txn 0 _ gs X0 m Hlev)) as (Hgr1' & Hnd1 & Hsame1).
  destruct (push_leaf_up b n e es0 (rb_branches b) gs X0 s1 h1 (21 + k) txn) as (s2 & h2 & br2 & gs2 & X2 & E2 & Hlen2 & Hs2 & Hr2 & Hnd2 & Hgr2 & Hu2 & g & gs1 & -> & Hg & Hh1 & _);
    try done; [by apply (levels_frame h) | by rewrite Permutation_app_comm | by rewrite <- Hes |]. cbn [length recs] in *. rewrite <- Hes in Hu2.
  destruct (finish_levels_ok 6 [] br2 (g :: gs1) X2 (set_leaf pk_empty b) s2 h2 k txn g gs1) as (b' & s3 & h3 & level & T & E3 & Hs3 & HT & Hlv & Hrec & Hgr3); try done; [by rewrite Hu2 |].
  exists b', s3, h3, level, T. rewrite (bind_ok _ _ _ _ _ E1), (bind_ok _ _ _ _ _ E2). split; [rewrite <- Hc; exact E3 |]. split; [done |]. split; [done |]. split; [done |].
  split; [congruence |]. eapply grows_trans; [exact Hgr1' |]. eapply grows_trans; [| exact Hgr3]. eapply grows_perm; [| exact Hgr2]. apply Permutation_app_comm.
Qed.

(** C3: Building a tree from the records of a canonical map, in order, succeeds on
    a store that can allocate the pages (at most seven a record and 27 at the
    end) for as many as 2^42 records, and the tree of the root it answers holds
    exactly those records; whatever else the store keeps is as it was. *)
Theorem bulk_build_holds (s : S) (h : Pages) (k : nat) (es : list (Range K)) (kind : ValueKind) :
  serves s h (7 * length es + (27 + k)) -> sp_sorted rf es -> canonical es -> Forall (value_allowed kind) es -> zlen es < 2 ^ 42 ->
  exists b' s' h' root, bulk_build es (range_builder_new (target_txn s) kind, s) = ((b', s'), Ok (root, zlen es))
    /\ serves s' h' k /\ tree_holds s' root es /\ (forall n p, h !! n = Some p -> h' !! n = Some p).
Proof using Type*.
  intros Hs Hsort Hcan Hval Htot. unfold bulk_build.
  destruct (bulk_push_all_ok (target_txn s) es h (range_builder_new (target_txn s) kind) [] [] s (27 + k) (building_new h _ kind)) as (b1 & s1 & h1 & X1 & E1 & Hb1 & Hs1 & Hgr1); try done.
  rewrite (bind_ok _ _ _ _ _ E1). cbn [app] in Hb1. destruct (decide (es = [])) as [-> | Hne].
  - exists b1, s1, h1, 0. split; [unfold bulk_finish; rewrite (bind_ok _ _ (b1, s1) (b1, s1) b1) by done; by rewrite (bu_count _ _ _ _ _ Hb1) |].
    split; [apply (serving_less _ _ _ k _ Hs1); lia |]. split; [by split; [| left] |]. intros n p. apply Hgr1. by intros ?%elem_of_nil.
  - destruct (bulk_finish_ok h1 (target_txn s) b1 es X1 s1 k Hb1 Hne Hs1 Htot) as (b2 & s2 & h2 & level & T & E2 & [Hs2 Ht2] & HT & Hlv & Hrec & Hgr2).
    pose proof (grows_trans _ _ _ _ _ _ Hgr1 Hgr2) as [Hkeep _]. rewrite <- Ht2 in HT. pose proof (stands_bounds _ _ _ _ _ _ Hs2 HT) as [Hroot _].
    exists b2, s2, h2, (root_of T). split; [done |]. split; [done |]. split; [| intros n p; apply Hkeep; by intros ?%elem_of_nil].
    split; [done |]. right. split; [exact Hroot |]. exists level. split; [unfold BRANCH_LEVELS, MAX_TREE_LEVEL in *; lia |]. rewrite <- Hrec. by eapply stands_tree.
Qed.
End Levels.
