(* ===== verification/RetirementFacts.v ===== *)
(** * Extents of retired pages

    The codec of extents keeps [CodecLaws], so the theorems on trees are about
    the retirement tree too; and what joining a page to its neighbours does to
    the set of retired pages. *)

From stdpp Require Import base tactics numbers list strings sorting sets.
From Stdlib Require Import ZArith Lia.
From S2P Require Import Prelude Errors Bytes PageHeader SlottedPage Codec TreeInterface Machine Draft Store TreePage TreeQuery TreeCursor TreeMutation.
From S2P Require Import TreeFacts Retirement.

#[local] Open Scope string_scope.
#[local] Open Scope list_scope.
#[local] Open Scope Z_scope.

(** ** The codec *)

Definition rkey_rank (k : RKey) : Z := rk_txn k * 2 ^ 32 + rk_first k.
Definition rkey_valid (k : RKey) : Prop := 0 <= rk_txn k <= u64_max /\ 0 <= rk_first k <= u32_max.
Definition extent_valid (e : Extent) : Prop :=
  1 < ex_txn e <= u64_max /\ 2 <= ex_first e /\ 0 < ex_count e /\ ex_end e <= 2 ^ 32.
Definition rkey_bytes (k : RKey) : list Z := le_bytes 8 (rk_txn k) ++ le_bytes 4 (rk_first k).
Definition extent_bytes (e : Extent) : list Z := rkey_bytes (ex_key e) ++ le_bytes 4 (ex_count e).

Lemma rank_lt a b : rkey_valid a -> rkey_valid b ->
  rkey_rank a < rkey_rank b <-> rk_txn a < rk_txn b \/ (rk_txn a = rk_txn b /\ rk_first a < rk_first b).
Proof. unfold rkey_valid, rkey_rank, u32_max. intros (_ & Ha) (_ & Hb). lia. Qed.

Lemma rank_eq a b : rkey_valid a -> rkey_valid b -> rkey_rank a = rkey_rank b -> a = b.
Proof.
  unfold rkey_valid, rkey_rank, u32_max. destruct a as [t f], b as [t' f']. cbn. intros (_ & Ha) (_ & Hb) He.
  assert (t = t') by lia. f_equal; lia.
Qed.

Lemma extent_key_valid e : extent_valid e -> rkey_valid (ex_key e).
Proof. unfold extent_valid, rkey_valid, ex_end, ex_txn, ex_first, u32_max. lia. Qed.

Lemma extent_count_max e : extent_valid e -> ex_count e <= u32_max.
Proof. unfold extent_valid, ex_end, u32_max. lia. Qed.

Lemma zlen_rkey k : zlen (rkey_bytes k) = 12.
Proof. unfold rkey_bytes. rewrite zlen_app, !zlen_le_bytes. done. Qed.
Lemma zlen_extent e : zlen (extent_bytes e) = 16.
Proof. unfold extent_bytes. rewrite zlen_app, zlen_rkey, zlen_le_bytes. done. Qed.

(** A field of a cell. *)
Lemma cell_u64 (a b c : list Z) v : zlen a + zlen b + zlen c <= 32 -> b = le_bytes 8 v -> 0 <= v <= u64_max ->
  @u64_le Error (a ++ b ++ c) (zlen a) = Ok v.
Proof.
  intros Hz -> Hv. pose proof (zlen_nonneg a). pose proof (zlen_nonneg c). rewrite zlen_le_bytes in Hz.
  unfold u64_le, u64_source. rewrite array_Some by (rewrite ?zlen_app, ?zlen_le_bytes; unfold usize_max, u64_max; lia).
  cbn [fmap option_fmap option_map expect]. rewrite sub_app_skip, Z.sub_diag, sub_app_prefix by (rewrite ?zlen_le_bytes; lia).
  by rewrite le_val_bytes by (unfold u64_max in Hv; simpl; lia).
Qed.
Lemma cell_u32 (a b c : list Z) v : zlen a + zlen b + zlen c <= 32 -> b = le_bytes 4 v -> 0 <= v <= u32_max ->
  @u32_le Error (a ++ b ++ c) (zlen a) = Ok v.
Proof.
  intros Hz -> Hv. pose proof (zlen_nonneg a). pose proof (zlen_nonneg c). rewrite zlen_le_bytes in Hz.
  unfold u32_le, u32_source. rewrite array_Some by (rewrite ?zlen_app, ?zlen_le_bytes; unfold usize_max, u64_max; lia).
  cbn [fmap option_fmap option_map expect]. rewrite sub_app_skip, Z.sub_diag, sub_app_prefix by (rewrite ?zlen_le_bytes; lia).
  by rewrite le_val_bytes by (unfold u32_max in Hv; simpl; lia).
Qed.

Lemma decode_key_bytes k rest : rkey_valid k -> zlen rest = 4 -> decode_key_raw (rkey_bytes k ++ rest) = Ok (Some k).
Proof.
  intros [Ht Hf] Hr. unfold decode_key_raw. rewrite zlen_app, zlen_rkey, Hr. change (12 + 4 <? RETIREMENT_KEY_SIZE) with false. cbn [negb].
  unfold rkey_bytes. rewrite <- app_assoc.
  pose proof (cell_u64 [] (le_bytes 8 (rk_txn k)) (le_bytes 4 (rk_first k) ++ rest) (rk_txn k)) as E1. cbn [app] in E1.
  change (zlen []) with TXN_OFFSET in E1. rewrite E1; [| rewrite zlen_app, !zlen_le_bytes, Hr; unfold TXN_OFFSET; lia | done | done].
  cbn [mbind outcome_bind]. pose proof (cell_u32 (le_bytes 8 (rk_txn k)) (le_bytes 4 (rk_first k)) rest (rk_first k)) as E2.
  change FIRST_OFFSET with (zlen (le_bytes 8 (rk_txn k))).
  rewrite E2; [by destruct k | rewrite !zlen_le_bytes, Hr; lia | done | done].
Qed.

Lemma read_extent_bytes e : extent_valid e -> retirement_read_leaf (extent_bytes e) = Ok e.
Proof.
  intros He. pose proof (extent_key_valid e He) as Hk. pose proof (extent_count_max e He) as Hc.
  unfold retirement_read_leaf, decode_slice, decode_raw. rewrite zlen_extent. change (negb (16 =? RETIREMENT_CELL_SIZE)) with false. cbv iota.
  destruct He as (Ht & Hf & Hn & Hend).
  assert (E1 : decode_key_raw (extent_bytes e) = Ok (Some (ex_key e))) by (apply decode_key_bytes; [done | by rewrite zlen_le_bytes]).
  assert (E2 : @u32_le Error (extent_bytes e) COUNT_OFFSET = Ok (ex_count e)).
  { pose proof (cell_u32 (rkey_bytes (ex_key e)) (le_bytes 4 (ex_count e)) [] (ex_count e)) as E. rewrite app_nil_r, zlen_rkey in E.
    apply E; [rewrite zlen_le_bytes; change (zlen []) with 0; lia | done | lia]. }
  rewrite E1. cbn [mbind outcome_bind]. rewrite E2. cbn [mbind outcome_bind ok_or].
  unfold ex_txn, ex_first, ex_end, ex_first in *. cbn [ex_key ex_count].
  rewrite (proj2 (Z.leb_gt _ _)), (proj2 (Z.ltb_ge _ 2)), (proj2 (Z.eqb_neq _ 0)) by lia. cbn [orb].
  rewrite (proj2 (Z.ltb_ge _ _)) by lia. by destruct e as [[] ].
Qed.

Lemma splice_middle (l m r bs : list Z) n : zlen l = n -> zlen m = zlen bs -> splice (l ++ m ++ r) n bs = l ++ bs ++ r.
Proof.
  intros <- Hm. unfold splice, zlen in *. rewrite Nat2Z.id, take_app_length.
  replace (Z.to_nat (Z.of_nat (length l) + Z.of_nat (length bs))) with (length (l ++ m)) by (rewrite length_app; lia).
  by rewrite (app_assoc l m r), drop_app_length.
Qed.

Lemma encode_key_bytes k a b : zlen a = 12 -> encode_key k (a ++ b) = Ok (rkey_bytes k ++ b).
Proof.
  intros Ha. unfold encode_key. rewrite zlen_app, Ha. pose proof (zlen_nonneg b).
  rewrite (proj2 (Z.ltb_ge _ _)) by (unfold COUNT_OFFSET; lia). f_equal.
  rewrite <- (take_drop 8 a), <- app_assoc.
  assert (H1 : zlen (take 8 a) = 8) by (unfold zlen in *; rewrite length_take; lia).
  assert (H2 : zlen (drop 8 a) = 4) by (unfold zlen in *; rewrite length_drop; lia).
  assert (E : splice (take 8 a ++ drop 8 a ++ b) TXN_OFFSET (le_bytes 8 (rk_txn k)) = le_bytes 8 (rk_txn k) ++ drop 8 a ++ b)
    by (apply (splice_middle [] (take 8 a)); [done | by rewrite zlen_le_bytes]).
  rewrite E. clear E.
  rewrite splice_middle by (by rewrite zlen_le_bytes). unfold rkey_bytes. by rewrite <- app_assoc.
Qed.

Lemma encoded_extent_bytes e : encoded_extent e = Ok (extent_bytes e).
Proof.
  unfold encoded_extent. change (replicate (Z.to_nat RETIREMENT_CELL_SIZE) 0) with (replicate 12 0 ++ replicate 4 0).
  rewrite encode_key_bytes by done. done.
Qed.

#[global] Program Instance RetirementCodecLaws : CodecLaws RKey Extent := {
  rank := rkey_rank; valid_key := rkey_valid; valid_leaf := extent_valid; leaf_key := ex_key;
  leaf_bytes := extent_bytes; fence_bytes := rkey_bytes;
}.
Next Obligation.
  intros a b Ha Hb. cbn. unfold rkey_ltb. pose proof (rank_lt a b Ha Hb) as Hl.
  destruct (Z.ltb_spec (rkey_rank a) (rkey_rank b)) as [Hr | Hr]; [apply Hl in Hr | assert (~ rkey_rank a < rkey_rank b) as Hn by lia; rewrite Hl in Hn];
    zcase; lia.
Qed.
Next Obligation.
  intros a b Ha Hb. cbn. unfold rkey_eqb. destruct (Z.eqb_spec (rkey_rank a) (rkey_rank b)) as [Hr | Hr].
  - apply rank_eq in Hr as ->; [| done..]. by rewrite !Z.eqb_refl.
  - destruct a as [t f], b as [t' f']. cbn in *. destruct (Z.eqb_spec t t') as [-> |]; [| done]. destruct (Z.eqb_spec f f') as [-> |]; done.
Qed.
Next Obligation. cbn. unfold RETIREMENT_KEY_SIZE, RETIREMENT_CELL_SIZE, HEADER_SIZE, SIZE, PAGE_SIZE. lia. Qed.
Next Obligation. cbn. unfold u32_max. lia. Qed.
Next Obligation. cbn. unfold is_byte, RETIREMENT_BRANCH, RETIREMENT_LEAF. lia. Qed.
Next Obligation. exact extent_key_valid. Qed.
Next Obligation.
  intros e _. split; [| apply zlen_extent]. unfold extent_bytes, rkey_bytes. repeat apply Forall_app_2; apply le_bytes_ok.
Qed.
Next Obligation. intros k _. split; [| apply zlen_rkey]. apply Forall_app_2; apply le_bytes_ok. Qed.
Next Obligation. intros e He. by apply read_extent_bytes. Qed.
Next Obligation.
  intros e He. cbn [read_key RetirementCodec]. unfold decode_key, extent_bytes. by rewrite decode_key_bytes by (by apply extent_key_valid || by rewrite zlen_le_bytes).
Qed.
Next Obligation. intros k child level Hk _. cbn [read_key RetirementCodec]. unfold decode_key. by rewrite decode_key_bytes by (done || by rewrite zlen_le_bytes). Qed.
Next Obligation. exact rank_eq. Qed.
Next Obligation. intros k out _ Hz. cbn [write_key KEY_SIZE RetirementCodec] in *. rewrite <- (app_nil_r out), encode_key_bytes by done. by rewrite app_nil_r. Qed.
Next Obligation. cbn. unfold RETIREMENT_KEY_SIZE, RETIREMENT_CELL_SIZE, HEADER_SIZE, SIZE, PAGE_SIZE, MAX_TREE_CELL. lia. Qed.

(** ** Sets of retired pages *)

Definition holds_page (e : Extent) (n : Z) : Prop := ex_first e <= n < ex_end e.
Definition retired_page (es : list Extent) (txn n : Z) : Prop := exists e, e ∈ es /\ ex_txn e = txn /\ holds_page e n.

(** Extents of one transaction do not touch. *)
Definition coalesced (es : list Extent) : Prop :=
  forall a b, a ∈ es -> b ∈ es -> ex_txn a = ex_txn b -> ex_first a < ex_first b -> ex_end a < ex_first b.

(** The extents a page is joined with, and what they become. *)
Definition gone (nb : Neighbors) : list Extent :=
  match nb with Neither => [] | PreviousOnly p => [p] | NextOnly x => [x] | BothSides p x => [p; x] end.
Definition merged (key : RKey) (nb : Neighbors) : Extent :=
  match nb with
  | Neither => mkExtent key 1
  | PreviousOnly p => mkExtent (ex_key p) (ex_count p + 1)
  | NextOnly x => mkExtent key (ex_count x + 1)
  | BothSides p x => mkExtent (ex_key p) (ex_count p + 1 + ex_count x)
  end.

Record joins (es : list Extent) (txn n : Z) (nb : Neighbors) : Prop := {
  jo_gone g : g ∈ gone nb -> g ∈ es /\ ex_txn g = txn;
  jo_distinct : NoDup (gone nb);
  jo_valid : extent_valid (merged (mkRKey txn n) nb);
  jo_txn : ex_txn (merged (mkRKey txn n) nb) = txn;
  jo_pages m : holds_page (merged (mkRKey txn n) nb) m <-> m = n \/ exists g, g ∈ gone nb /\ holds_page g m;
  jo_apart e : e ∈ es -> e ∉ gone nb -> ex_txn e = txn ->
    ex_end e < ex_first (merged (mkRKey txn n) nb) \/ ex_end (merged (mkRKey txn n) nb) < ex_first e;
}.

Lemma joined_retired es es' txn n nb : joins es txn n nb -> coalesced es -> Forall extent_valid es ->
  (forall x, x ∈ es' <-> x = merged (mkRKey txn n) nb \/ (x ∈ es /\ x ∉ gone nb)) ->
  coalesced es' /\ Forall extent_valid es' /\ forall t m, retired_page es' t m <-> retired_page es t m \/ (t = txn /\ m = n).
Proof.
  intros J Hc Hv Hes. set (new := merged (mkRKey txn n) nb) in *. rewrite Forall_forall in Hv.
  assert (Hnew : ex_first new < ex_end new) by (destruct (jo_valid _ _ _ _ J) as (_ & _ & Hn & _); fold new in Hn; unfold ex_end; lia).
  assert (Hold : forall e, e ∈ es -> ex_first e < ex_end e) by (intros e He; destruct (Hv e He) as (_ & _ & ? & _); unfold ex_end; lia).
  assert (Htx : ex_txn new = txn) by exact (jo_txn _ _ _ _ J).
  split; [| split].
  - intros a b [-> | [Ha Hna]]%Hes [-> | [Hb Hnb]]%Hes Ht Hlt; [lia | | | by apply Hc].
    + rewrite Htx in Ht. destruct (jo_apart _ _ _ _ J b Hb Hnb (eq_sym Ht)) as [H1 | H1]; fold new in H1; [| lia]. specialize (Hold b Hb). lia.
    + rewrite Htx in Ht. destruct (jo_apart _ _ _ _ J a Ha Hna Ht) as [H1 | H1]; fold new in H1; [lia |]. specialize (Hold a Ha). lia.
  - apply Forall_forall. intros e [-> | [He _]]%Hes; [exact (jo_valid _ _ _ _ J) | by apply Hv].
  - intros t m. unfold retired_page. split.
    + intros (e & [-> | [He _]]%Hes & <- & Hm); [| by left; exists e].
      destruct (proj1 (jo_pages _ _ _ _ J m) Hm) as [-> | (g & Hg & Hgm)]; [right; split; [done | done] | left].
      destruct (jo_gone _ _ _ _ J g Hg) as [Hin Ht]. exists g. split; [done |]. split; [by rewrite Htx | done].
    + intros [(e & He & <- & Hm) | [-> ->]].
      * destruct (decide (e ∈ gone nb)) as [Hg | Hg].
        -- destruct (jo_gone _ _ _ _ J e Hg) as [_ Ht]. exists new. split; [apply Hes; by left |].
           split; [by rewrite Htx |]. apply (jo_pages _ _ _ _ J). right. by exists e.
        -- exists e. split; [apply Hes; by right | done].
      * exists new. split; [apply Hes; by left |]. split; [done |]. apply (jo_pages _ _ _ _ J). by left.
Qed.

(** ** The neighbours of a page *)

Section Classify.
Context (es : list Extent) (txn n : Z).
Context (Hs : sp_sorted (lrank (Leaf := Extent)) es) (Hv : Forall extent_valid es) (Hc : coalesced es).
Context (Ht : 1 < txn <= u64_max) (Hn : 2 <= n <= u32_max).
Notation key := (mkRKey txn n).
Notation previous := (sp_predecessor lrank es (rkey_rank key)).
Notation next := (sp_at_or_after lrank es (rkey_rank key)).

Lemma key_valid_here : rkey_valid key.
Proof using Ht Hn. unfold rkey_valid. cbn. lia. Qed.

Lemma es_valid e : e ∈ es -> extent_valid e.
Proof using Hv. rewrite Forall_forall in Hv. apply Hv. Qed.

Lemma es_range e : e ∈ es -> 2 <= ex_first e /\ ex_first e < ex_end e /\ ex_end e <= 2 ^ 32.
Proof using Hv. intros He. destruct (es_valid e He) as (_ & ? & ? & ?). unfold ex_end in *. lia. Qed.

(** Extents of the transaction, against the extents found. *)
Lemma below_previous e : e ∈ es -> ex_txn e = txn -> ex_first e <= n ->
  exists p, previous = Some p /\ p ∈ es /\ ex_txn p = txn /\ ex_first e <= ex_first p <= n.
Proof using Hs Hv Ht Hn.
  intros He Het Hle. pose proof key_valid_here as Hk. pose proof (extent_key_valid e (es_valid e He)) as Hke.
  destruct (sp_predecessor lrank es (rkey_rank key)) as [p|] eqn:Hp.
  - destruct (sp_predecessor_Some _ _ _ _ Hs Hp) as (Hin & Hpk & Hmax). exists p. split; [done |]. split; [done |].
    specialize (Hmax e He). unfold lrank in *. cbn [rank RetirementCodecLaws leaf_key] in *.
    pose proof (extent_key_valid p (es_valid p Hin)) as Hkp. unfold rkey_rank, rkey_valid, ex_txn, ex_first, u32_max in *. cbn in *. lia.
  - pose proof (sp_predecessor_None _ _ _ Hp e He) as Hno. unfold lrank in Hno. cbn [rank RetirementCodecLaws leaf_key] in Hno.
    unfold rkey_rank, rkey_valid, ex_txn, ex_first, u32_max in *. cbn in *. lia.
Qed.

Lemma above_next e : e ∈ es -> ex_txn e = txn -> n <= ex_first e ->
  exists x, next = Some x /\ x ∈ es /\ ex_txn x = txn /\ n <= ex_first x <= ex_first e.
Proof using Hs Hv Ht Hn.
  intros He Het Hle. pose proof key_valid_here as Hk. pose proof (extent_key_valid e (es_valid e He)) as Hke.
  destruct (sp_at_or_after lrank es (rkey_rank key)) as [x|] eqn:Hx.
  - destruct (sp_at_or_after_Some _ _ _ _ Hs Hx) as (Hin & Hxk & Hmin). exists x. split; [done |]. split; [done |].
    specialize (Hmin e He). unfold lrank in *. cbn [rank RetirementCodecLaws leaf_key] in *.
    pose proof (extent_key_valid x (es_valid x Hin)) as Hkx. unfold rkey_rank, rkey_valid, ex_txn, ex_first, u32_max in *. cbn in *. lia.
  - pose proof (sp_at_or_after_None _ _ _ Hx e He) as Hno. unfold lrank in Hno. cbn [rank RetirementCodecLaws leaf_key] in Hno.
    unfold rkey_rank, rkey_valid, ex_txn, ex_first, u32_max in *. cbn in *. lia.
Qed.

Lemma previous_in p : previous = Some p -> p ∈ es /\ (ex_txn p = txn -> ex_first p <= n).
Proof using Hs Hv Ht Hn.
  intros Hp. destruct (sp_predecessor_Some _ _ _ _ Hs Hp) as (Hin & Hpk & _). split; [done |]. intros He.
  unfold lrank in Hpk. cbn [rank RetirementCodecLaws leaf_key] in Hpk. unfold rkey_rank, ex_txn, ex_first in *. cbn in *. lia.
Qed.
Lemma next_in x : next = Some x -> x ∈ es /\ (ex_txn x = txn -> n <= ex_first x).
Proof using Hs Hv Ht Hn.
  intros Hx. destruct (sp_at_or_after_Some _ _ _ _ Hs Hx) as (Hin & Hxk & _). split; [done |]. intros He.
  unfold lrank in Hxk. cbn [rank RetirementCodecLaws leaf_key] in Hxk. unfold rkey_rank, ex_txn, ex_first in *. cbn in *. lia.
Qed.

(** Two extents of the transaction with the same first page are one. *)
Lemma same_first a b : a ∈ es -> b ∈ es -> ex_txn a = ex_txn b -> ex_first a = ex_first b -> a = b.
Proof using Hs.
  intros Ha Hb H1 H2. apply (sp_sorted_inj _ _ _ _ Hs Ha Hb). unfold lrank. cbn [rank RetirementCodecLaws leaf_key].
  unfold rkey_rank, ex_txn, ex_first in *. congruence.
Qed.

(** What [classify_neighbors] tests. *)
Definition taken : bool := match next with Some e => rkey_eqb (ex_key e) key | None => false end.
Definition covered : bool := match previous with Some e => (ex_txn e =? txn) && (n <? ex_end e) | None => false end.
Definition joins_previous : bool := match previous with Some e => (ex_txn e =? txn) && (ex_end e =? n) | None => false end.
Definition joins_next : bool :=
  match next with Some e => (ex_txn e =? txn) && bool_decide (checked_add u32_max n 1 = Some (ex_first e)) | None => false end.

Lemma retired_decided : taken || covered = true <-> retired_page es txn n.
Proof using Hs Hv Hc Ht Hn.
  split.
  - intros [H1 | H1]%orb_true_iff; unfold taken, covered in H1.
    + destruct (sp_at_or_after _ _ _) as [x|] eqn:Hx; [| done]. destruct (next_in x Hx) as [Hin _].
      unfold rkey_eqb in H1. cbn in H1. apply andb_true_iff in H1 as [H1 H2]. apply Z.eqb_eq in H1, H2.
      exists x. split; [done |]. split; [done |]. destruct (es_range x Hin). unfold holds_page, ex_first in *. lia.
    + destruct (sp_predecessor _ _ _) as [p|] eqn:Hp; [| done]. destruct (previous_in p Hp) as [Hin Hle].
      apply andb_true_iff in H1 as [H1 H2]. apply Z.eqb_eq in H1. apply Z.ltb_lt in H2. exists p. split; [done |]. split; [done |].
      unfold holds_page. specialize (Hle H1). lia.
  - intros (e & He & Het & Hle & Hlt). apply orb_true_iff. right. unfold covered.
    destruct (below_previous e He Het Hle) as (p & -> & Hp & Hpt & Hf1 & Hf2). apply andb_true_iff. split; [by apply Z.eqb_eq |].
    apply Z.ltb_lt. destruct (decide (ex_first e = ex_first p)) as [Heq | Hne].
    + rewrite <- (same_first e p He Hp) by congruence. done.
    + pose proof (Hc e p He Hp ltac:(congruence) ltac:(lia)). lia.
Qed.

Lemma previous_free p : taken || covered = false -> previous = Some p -> ex_txn p = txn -> ex_end p <= n.
Proof using Hs Hv Hc Ht Hn.
  intros [_ H1]%orb_false_iff Hp Hpt. unfold covered in H1. rewrite Hp, Hpt, Z.eqb_refl in H1. cbn [andb] in H1. by apply Z.ltb_ge in H1.
Qed.
Lemma next_free x : taken || covered = false -> next = Some x -> ex_txn x = txn -> n < ex_first x.
Proof using Hs Hv Hc Ht Hn.
  intros [H1 _]%orb_false_iff Hx Hxt. destruct (next_in x Hx) as [_ Hle]. specialize (Hle Hxt). unfold taken in H1. rewrite Hx in H1.
  unfold rkey_eqb, ex_txn, ex_first in *. cbn in H1. rewrite Hxt, Z.eqb_refl in H1. cbn [andb] in H1. apply Z.eqb_neq in H1. lia.
Qed.

(** Every extent of the transaction ends before the previous one begins, or is
    it, or is the next one, or begins after it ends. *)
Lemma spread e : taken || covered = false -> e ∈ es -> ex_txn e = txn ->
  (previous = Some e /\ ex_end e <= n)
  \/ (exists p, previous = Some p /\ ex_txn p = txn /\ p ∈ es /\ ex_end p <= n /\ ex_end e < ex_first p)
  \/ (next = Some e /\ n < ex_first e)
  \/ (exists x, next = Some x /\ ex_txn x = txn /\ x ∈ es /\ n < ex_first x /\ ex_end x < ex_first e).
Proof using Hs Hv Hc Ht Hn.
  intros Hfree He Het. destruct (Z.le_gt_cases (ex_first e) n) as [Hle | Hgt].
  - destruct (below_previous e He Het Hle) as (p & Hp & Hpin & Hpt & Hf1 & Hf2). pose proof (previous_free p Hfree Hp Hpt).
    destruct (decide (ex_first e = ex_first p)) as [Heq | Hne].
    + left. rewrite (same_first e p He Hpin) by congruence. done.
    + right. left. exists p. split_and!; try done. apply (Hc e p); [done | done | congruence | lia].
  - destruct (above_next e He Het ltac:(lia)) as (x & Hx & Hxin & Hxt & Hf1 & Hf2). pose proof (next_free x Hfree Hx Hxt).
    destruct (decide (ex_first e = ex_first x)) as [Heq | Hne].
    + right. right. left. rewrite (same_first e x He Hxin) by congruence. done.
    + right. right. right. exists x. split_and!; try done. apply (Hc x e); [done | done | congruence | lia].
Qed.
(** A neighbour that does not join ends or begins away from the page. *)
Lemma apart_previous p : taken || covered = false -> joins_previous = false -> previous = Some p -> ex_txn p = txn -> ex_end p < n.
Proof using Hs Hv Hc Ht Hn.
  intros Hfree Hj Hp Hpt. pose proof (previous_free p Hfree Hp Hpt). unfold joins_previous in Hj. rewrite Hp, Hpt, Z.eqb_refl in Hj.
  cbn [andb] in Hj. apply Z.eqb_neq in Hj. lia.
Qed.
Lemma apart_next x : taken || covered = false -> joins_next = false -> next = Some x -> ex_txn x = txn -> n + 1 < ex_first x.
Proof using Hs Hv Hc Ht Hn.
  intros Hfree Hj Hx Hxt. pose proof (next_free x Hfree Hx Hxt). unfold joins_next in Hj. rewrite Hx, Hxt, Z.eqb_refl in Hj.
  cbn [andb] in Hj. apply bool_decide_eq_false in Hj. destruct (next_in x Hx) as [Hin _]. pose proof (es_range x Hin).
  rewrite checked_add_Some in Hj. unfold u32_max in *. lia.
Qed.

(** What the four answers mean. *)
Lemma joined_previous : joins_previous = true -> exists p, previous = Some p /\ p ∈ es /\ ex_txn p = txn /\ ex_end p = n.
Proof using Hs Hv Ht Hn.
  unfold joins_previous. destruct (sp_predecessor _ _ _) as [p|] eqn:Hp; [| done]. intros [H1 H2]%andb_true_iff.
  apply Z.eqb_eq in H1, H2. exists p. by destruct (previous_in p Hp).
Qed.
Lemma joined_next : joins_next = true -> exists x, next = Some x /\ x ∈ es /\ ex_txn x = txn /\ ex_first x = n + 1.
Proof using Hs Hv Ht Hn.
  unfold joins_next. destruct (sp_at_or_after _ _ _) as [x|] eqn:Hx; [| done]. intros [H1 H2]%andb_true_iff.
  apply Z.eqb_eq in H1. apply bool_decide_eq_true in H2. exists x. split; [done |]. split; [by destruct (next_in x Hx) |]. split; [done |].
  apply checked_add_Some in H2 as [H2 _]. done.
Qed.

Definition neighbors_of : Neighbors :=
  match previous, next, joins_previous, joins_next with
  | Some p, _, true, false => PreviousOnly p
  | _, Some x, false, true => NextOnly x
  | Some p, Some x, true, true => BothSides p x
  | _, _, _, _ => Neither
  end.

Lemma classified : classify_neighbors key previous next =
  if taken || covered then Err (Corrupt "page is already retired") else Ok neighbors_of.
Proof using Hs Hv Ht Hn.
  pose proof joined_previous as Hjp. pose proof joined_next as Hjn.
  unfold classify_neighbors, neighbors_of. cbn [rk_txn rk_first]. fold taken covered joins_previous joins_next.
  destruct (taken || covered); [done |]. destruct joins_previous, joins_next; try done.
  - destruct (Hjp eq_refl) as (p & -> & _), (Hjn eq_refl) as (x & -> & _). done.
  - destruct (Hjp eq_refl) as (p & -> & _). by destruct (sp_at_or_after _ _ _).
  - destruct (Hjn eq_refl) as (x & -> & _). by destruct (sp_predecessor _ _ _).
  - by destruct (sp_predecessor _ _ _), (sp_at_or_after _ _ _).
Qed.

(** Every extent the page is not joined with stays away from what it becomes. *)
Lemma apart_from lo hi e : taken || covered = false -> e ∈ es -> ex_txn e = txn ->
  (forall p, previous = Some p -> ex_txn p = txn -> p ∈ es -> (p = e -> ex_end p < lo) /\ ex_first p <= lo) ->
  (forall x, next = Some x -> ex_txn x = txn -> x ∈ es -> (x = e -> hi < ex_first x) /\ hi <= ex_end x) ->
  ex_end e < lo \/ hi < ex_first e.
Proof using Hs Hv Hc Ht Hn.
  intros Hfree He Het Hlo Hhi. destruct (spread e Hfree He Het) as [[Hp _] | [(p & Hp & Hpt & Hpin & _ & Hlt) | [[Hx _] | (x & Hx & Hxt & Hxin & _ & Hlt)]]].
  - left. by apply (Hlo e).
  - left. destruct (Hlo p Hp Hpt Hpin) as [_ ?]. lia.
  - right. by apply (Hhi e).
  - right. destruct (Hhi x Hx Hxt Hxin) as [_ ?]. lia.
Qed.

Lemma previous_begins p : taken || covered = false -> previous = Some p -> ex_txn p = txn -> p ∈ es -> ex_first p < n.
Proof using Hs Hv Hc Ht Hn. intros Hfree Hp Hpt Hin. pose proof (previous_free p Hfree Hp Hpt). pose proof (es_range p Hin). lia. Qed.
Lemma next_ends x : taken || covered = false -> next = Some x -> ex_txn x = txn -> x ∈ es -> n + 1 < ex_end x.
Proof using Hs Hv Hc Ht Hn. intros Hfree Hx Hxt Hin. pose proof (next_free x Hfree Hx Hxt). pose proof (es_range x Hin). lia. Qed.

#[local] Ltac extents := unfold extent_valid, holds_page, ex_end, ex_txn, ex_first, u32_max, u64_max in *; cbn [ex_key ex_count rk_txn rk_first] in *.

Lemma join_both p x : taken || covered = false -> previous = Some p -> next = Some x -> p ∈ es -> x ∈ es ->
  ex_txn p = txn -> ex_txn x = txn -> ex_end p = n -> ex_first x = n + 1 -> joins es txn n (BothSides p x).
Proof using Hs Hv Hc Ht Hn.
  intros Hfree Ep Ex Hp Hx Hpt Hxt Hpe Hxb. pose proof (es_range p Hp). pose proof (es_range x Hx). constructor; cbn [gone merged].
  - intros g [-> | [-> | []%elem_of_nil]%elem_of_cons]%elem_of_cons; done.
  - apply NoDup_cons. split; [intros ->%list_elem_of_singleton; extents; lia | apply NoDup_singleton].
  - extents. lia.
  - done.
  - intros m. setoid_rewrite elem_of_cons. setoid_rewrite list_elem_of_singleton. split.
    + intros Hm. destruct (Z.lt_trichotomy m n) as [Hlt | [-> | Hgt]]; [right; exists p | by left | right; exists x]; (split; [tauto |]); extents; lia.
    + intros [-> | (g & [-> | ->] & Hg)]; extents; lia.
  - intros e He Hne Het. apply apart_from; try done; intros y Hy _ _; [rewrite Ep in Hy | rewrite Ex in Hy]; injection Hy as <-;
      (split; [intros <-; destruct Hne; set_solver | extents; lia]).
Qed.

Lemma join_left p : taken || covered = false -> joins_next = false -> previous = Some p -> p ∈ es ->
  ex_txn p = txn -> ex_end p = n -> joins es txn n (PreviousOnly p).
Proof using Hs Hv Hc Ht Hn.
  intros Hfree Hj Ep Hp Hpt Hpe. pose proof (es_range p Hp). constructor; cbn [gone merged].
  - intros g ->%list_elem_of_singleton. done.
  - apply NoDup_singleton.
  - extents. lia.
  - done.
  - intros m. setoid_rewrite list_elem_of_singleton. split.
    + intros Hm. destruct (decide (m = n)) as [-> | Hne]; [by left | right; exists p]. split; [done |]. extents. lia.
    + intros [-> | (g & -> & Hg)]; extents; lia.
  - intros e He Hne Het. apply apart_from; try done.
    + intros y Hy _ _. rewrite Ep in Hy. injection Hy as <-. split; [intros <-; destruct Hne; set_solver | extents; lia].
    + intros y Hy Hyt Hin. pose proof (apart_next y Hfree Hj Hy Hyt). pose proof (next_ends y Hfree Hy Hyt Hin). extents. lia.
Qed.

Lemma join_right x : taken || covered = false -> joins_previous = false -> next = Some x -> x ∈ es ->
  ex_txn x = txn -> ex_first x = n + 1 -> joins es txn n (NextOnly x).
Proof using Hs Hv Hc Ht Hn.
  intros Hfree Hj Ex Hx Hxt Hxb. pose proof (es_range x Hx). constructor; cbn [gone merged].
  - intros g ->%list_elem_of_singleton. done.
  - apply NoDup_singleton.
  - extents. lia.
  - done.
  - intros m. setoid_rewrite list_elem_of_singleton. split.
    + intros Hm. destruct (decide (m = n)) as [-> | Hne]; [by left | right; exists x]. split; [done |]. extents. lia.
    + intros [-> | (g & -> & Hg)]; extents; lia.
  - intros e He Hne Het. apply apart_from; try done.
    + intros y Hy Hyt Hin. pose proof (apart_previous y Hfree Hj Hy Hyt). pose proof (previous_begins y Hfree Hy Hyt Hin). extents. lia.
    + intros y Hy _ _. rewrite Ex in Hy. injection Hy as <-. split; [intros <-; destruct Hne; set_solver | extents; lia].
Qed.

Lemma join_neither : taken || covered = false -> joins_previous = false -> joins_next = false -> joins es txn n Neither.
Proof using Hs Hv Hc Ht Hn.
  intros Hfree Hj Hj'. constructor; cbn [gone merged].
  - by intros g ?%elem_of_nil.
  - constructor.
  - extents. lia.
  - done.
  - intros m. split; [left; extents; lia |]. intros [-> | (g & []%elem_of_nil & _)]. extents. lia.
  - intros e He Hne Het. apply apart_from; try done; intros y Hy Hyt Hin.
    + pose proof (apart_previous y Hfree Hj Hy Hyt). pose proof (previous_begins y Hfree Hy Hyt Hin). extents. lia.
    + pose proof (apart_next y Hfree Hj' Hy Hyt). pose proof (next_ends y Hfree Hy Hyt Hin). extents. lia.
Qed.

Lemma neighbors_join : taken || covered = false -> joins es txn n neighbors_of.
Proof using Hs Hv Hc Ht Hn.
  intros Hfree. unfold neighbors_of. destruct joins_previous eqn:Ejp, joins_next eqn:Ejn.
  - destruct (joined_previous Ejp) as (p & Ep & ? & ? & ?), (joined_next Ejn) as (x & Ex & ? & ? & ?). rewrite Ep, Ex. by apply join_both.
  - destruct (joined_previous Ejp) as (p & Ep & ? & ? & ?). pose proof (join_left p Hfree Ejn Ep). rewrite Ep. destruct (sp_at_or_after _ _ _); auto.
  - destruct (joined_next Ejn) as (x & Ex & ? & ? & ?). pose proof (join_right x Hfree Ejp Ex). rewrite Ex. destruct (sp_predecessor _ _ _); auto.
  - pose proof (join_neither Hfree Ejp Ejn). by destruct (sp_predecessor _ _ _), (sp_at_or_after _ _ _).
Qed.
End Classify.
