(* ===== verification/RetirementTheorems.v ===== *)
(** * Retiring pages and choosing what to reclaim

    On a store that keeps its promises, [add_page] adds exactly its page to
    the set of retired pages and keeps the extents apart; the choice of
    [select_reclamation] is the longest run of the oldest transactions that
    readers, and the limits on work, allow. *)

From stdpp Require Import base tactics numbers list strings sorting gmap sets.
From Stdlib Require Import ZArith Lia.
From S2P Require Import Prelude Errors Bytes PageHeader SlottedPage Codec TreeInterface Machine Draft Store TreePage TreeQuery TreeCursor TreeMutation.
From S2P Require Import TreeFacts TreeReads CursorTheorems TreePageFacts TreeStore TreeUpward TreeDescent TreeEdits TreeTheorems Retirement RetirementFacts.

#[local] Open Scope string_scope.
#[local] Open Scope list_scope.
#[local] Open Scope Z_scope.

#[local] Ltac levels := unfold MAX_PATH, MAX_TREE_LEVEL in *; lia.

Section Ledgers.
Context {S : Type} `{StoreLaws S}.
Implicit Types (l : Ledger S) (es : list Extent).

(** A ledger: its tree holds the extents [es], and [extent_count] counts them. *)
Definition ledger_state l h k txn height es X : Prop := tree_state (lg_tree l) h k txn height es X /\ lg_count l = zlen es.

(** At most [n] more pages collected: none is another page of the client, none
    is of the tree any more, and all are still there. *)
Definition collects (n : nat) l l' (h : Pages) (X : list Z) (h' : Pages) (X' : list Z) : Prop :=
  exists dead, tr_retired (lg_tree l') = tr_retired (lg_tree l) ++ dead /\ (length dead <= n)%nat
    /\ Forall (fun m => (m ∈ X \/ h !! m = None) /\ is_Some (h' !! m) /\ m ∉ X') dead.

(** What a change leaves: the extents [es'], and other pages as they were. *)
Definition ledger_moves l h X l' k txn es' top n : Prop :=
  exists h' height' X', ledger_state l' h' k txn height' es' X' /\ (height' <= top)%nat
    /\ grows h X h' X' /\ collects n l l' h X h' X'.

Lemma buries_collects n l l' h X h' X' : buries n (lg_tree l) (lg_tree l') X h' X' -> collects n l l' h X h' X'.
Proof using Type. intros (dead & E & L & D). exists dead. split; [done |]. split; [done |]. apply Forall_forall. intros m Hm. destruct (D m Hm). auto. Qed.

Lemma collects_trans n1 n2 l l1 l2 h X h1 X1 h2 X2 : collects n1 l l1 h X h1 X1 -> grows h X h1 X1 -> grows h1 X1 h2 X2 ->
  collects n2 l1 l2 h1 X1 h2 X2 -> collects (n1 + n2) l l2 h X h2 X2.
Proof using Type.
  intros (d1 & E1 & L1 & D1) [K1 N1] [K2 N2] (d2 & E2 & L2 & D2). exists (d1 ++ d2). split; [by rewrite E2, E1, app_assoc |].
  split; [rewrite length_app; lia |]. rewrite Forall_forall in D1, D2. apply Forall_forall. intros m [Hm | Hm]%elem_of_app.
  - destruct (D1 m Hm) as (Hx & [p Hp] & Hn). split; [done |]. split; [exists p; by apply K2 |]. intros [? | ?]%N2; [done | congruence].
  - destruct (D2 m Hm) as (Hx & Hp & Hn). split; [| done]. destruct Hx as [Hx%N1 | Hx]; [done |].
    destruct (decide (m ∈ X)) as [? | Hy]; [by left | right]. destruct (h !! m) eqn:Em; [| done]. by rewrite (K1 _ _ Hy Em) in Hx.
Qed.

Definition performs (m : io (Ledger S) unit) l h X k txn es' top n : Prop :=
  exists l', m l = (l', Ok tt) /\ ledger_moves l h X l' k txn es' top n.

Lemma performs_then (m1 m2 : io (Ledger S) unit) l h X k1 k2 txn es1 es2 top1 top2 n1 n2 : performs m1 l h X k1 txn es1 top1 n1 ->
  (forall l1 h1 height1 X1, ledger_state l1 h1 k1 txn height1 es1 X1 -> (height1 <= top1)%nat ->
     zlen (tr_retired (lg_tree l1)) <= zlen (tr_retired (lg_tree l)) + Z.of_nat n1 -> performs m2 l1 h1 X1 k2 txn es2 top2 n2) ->
  performs (_ ← m1; m2) l h X k2 txn es2 top2 (n1 + n2).
Proof using Type.
  intros (l1 & E1 & h1 & height1 & X1 & Hst1 & Ht1 & Hg1 & Hc1) Hm2. pose proof Hc1 as (d1 & Hd1 & Hl1 & _).
  destruct (Hm2 l1 h1 height1 X1 Hst1 Ht1) as (l2 & E2 & h2 & height2 & X2 & Hst2 & Ht2 & Hg2 & Hc2); [rewrite Hd1, zlen_app; unfold zlen; lia |].
  exists l2. split; [by rewrite (bind_ok _ _ l l1 tt) |]. exists h2, height2, X2. split; [done |]. split; [done |].
  split; [by eapply grows_trans | by eapply collects_trans].
Qed.

Lemma performs_le m l h X k txn es top top' n n' : performs m l h X k txn es top n -> (top <= top')%nat -> (n <= n')%nat -> performs m l h X k txn es top' n'.
Proof using Type.
  intros (l' & E & h' & height' & X' & Hst & Ht & Hg & (d & Hd & Hl & Hall)) H1' H2'. exists l'. split; [done |].
  exists h', height', X'. split; [done |]. split; [lia |]. split; [done |]. exists d. split; [done |]. split; [lia | done].
Qed.

Lemma ledger_valid l h k txn height es X : ledger_state l h k txn height es X -> Forall extent_valid es.
Proof using Type*.
  intros [(_ & _ & [(_ & -> & _) | (level & T & _ & [_ _ Ht _ _] & <- & _)]) _]; [constructor |]. by apply stands_valid in Ht as [_ ?].
Qed.

Lemma on_ledger_run {A} (m : io (Tree S) A) l t' r : m (lg_tree l) = (t', r) -> on_ledger m l = (mkLedger t' (lg_count l), r).
Proof using Type. intros E. unfold on_ledger, zoom. by rewrite E. Qed.

Lemma zlen_upsert es e : sp_sorted lrank es -> zlen (sp_upsert lrank es e) = zlen es + (if sp_member lrank es (lrank e) then 0 else 1).
Proof using Type.
  intros Hs. unfold zlen. destruct (sp_member lrank es (lrank e)) eqn:Hm.
  - pose proof (length_sp_replace lrank es (lrank e) [e] Hs Hm) as Hl. change (sp_replace lrank es (lrank e) [e]) with (sp_upsert lrank es e) in Hl.
    cbn [length] in Hl. lia.
  - rewrite length_sp_upsert by done. lia.
Qed.

Lemma rt_insert_ok l h k txn height es X e : ledger_state l h (2 * height + 1 + k) txn height es X -> extent_valid e ->
  Z.of_nat height <= MAX_TREE_LEVEL -> zlen (tr_retired (lg_tree l)) + Z.of_nat height <= MAX_PATH + 1 -> zlen es < u64_max ->
  performs (rt_insert e) l h X k txn (sp_upsert lrank es e) (height + 1) (height + 1).
Proof using Type*.
  intros [Hst Hc] He Hh Hr Hz. destruct (tree_insert_spec _ h k txn height es X e Hst He Hh Hr) as (t' & E & h' & height' & X' & Hst' & Hg & Hb & Ht).
  pose proof (zlen_upsert es e (proj1 (proj2 Hst))) as Hlen.
  assert (Hrun : exists l', rt_insert e l = (l', Ok tt) /\ lg_tree l' = t' /\ lg_count l' = zlen (sp_upsert lrank es e)).
  { unfold rt_insert. rewrite encoded_extent_bytes. rewrite (bind_ok _ _ l l _ eq_refl).
    rewrite (bind_ok _ _ l _ _ (on_ledger_run _ _ _ _ E)). destruct (sp_member lrank es (lrank e)); cbn [negb].
    - eexists. split; [done |]. cbn [lg_tree lg_count]. split; [done | lia].
    - set (l1 := mkLedger t' (lg_count l)). rewrite (bind_ok _ _ l1 l1 (zlen es)) by (unfold gets; cbn; by rewrite Hc).
      rewrite (bind_ok _ _ l1 l1 (zlen es + 1)).
      2: { unfold lift. rewrite (proj2 (checked_add_Some u64_max (zlen es) 1 (zlen es + 1))) by (split; [done | lia]). done. }
      eexists. split; [done |]. cbn. split; [done | lia]. }
  destruct Hrun as (l' & E' & Ht' & Hc'). exists l'. split; [done |]. exists h', height', X'. unfold ledger_state. rewrite Ht'.
  split; [done |]. split; [done |]. split; [done |]. apply buries_collects. by rewrite Ht'.
Qed.

(** What a tree has collected says nothing of its records. *)
Lemma tree_state_collected (t : Tree S) h k txn height es X r : tree_state t h k txn height es X ->
  tree_state (mkTree (tr_store t) (tr_root t) r) h k txn height es X.
Proof using Type*.
  intros (Ho & Hs & Hd). split; [exact Ho |]. split; [done |].
  destruct Hd as [Hd | (level & T & Hh & [P1 P2 P3 P4 P5] & Hr)]; [by left |]. right. by exists level, T.
Qed.

Lemma retired_extend_ok ps : forall r, zlen r + zlen ps <= MAX_PATH + 1 -> retired_extend ps r = (r ++ ps, Ok tt).
Proof using Type.
  induction ps as [|n ps IH]; intros r Hz; cbn [retired_extend]; [by rewrite app_nil_r |]. rewrite zlen_cons in Hz. pose proof (zlen_nonneg ps).
  rewrite (bind_ok _ _ r (r ++ [n]) tt).
  - rewrite IH; [by rewrite <- app_assoc |]. rewrite zlen_app. change (zlen [n]) with 1. lia.
  - unfold retired_push. by rewrite (proj2 (Z.ltb_lt _ _)) by lia.
Qed.

Lemma delete_apart_ok (t : Tree S) h k txn height es X key : tree_state t h (2 * height + 1 + k) txn height es X ->
  rkey_valid key -> sp_member lrank es (rkey_rank key) = true -> Z.of_nat height <= MAX_TREE_LEVEL ->
  zlen (tr_retired t) + Z.of_nat height + 1 <= MAX_PATH + 1 ->
  exists t', delete_apart key t = (t', Ok tt) /\ rooted t' t h X k txn (sp_remove lrank es (rkey_rank key)) (height + 1).
Proof using Type*.
  intros Hst Hk Hm Hh Hr. pose proof (zlen_nonneg (tr_retired t)).
  destruct (delete_spec (mkTree (tr_store t) (tr_root t) retired_new) h k txn height es X key) as (t1 & E & h' & height' & X' & Hst' & Hg & (dead & Hd & Hl & Hall) & Ht);
    [by apply tree_state_collected | done.. | change (zlen (tr_retired _)) with 0; lia |].
  cbn [tr_retired] in Hd. change (retired_new ++ dead) with dead in Hd.
  exists (mkTree (tr_store t1) (tr_root t1) (tr_retired t ++ dead)). split.
  - unfold delete_apart. rewrite E. unfold zoom. cbn [tr_retired tr_store tr_root]. rewrite Hd, retired_extend_ok by (unfold zlen in *; lia). done.
  - exists h', height', X'. split; [by apply tree_state_collected |]. split; [done |]. split; [by exists dead | done].
Qed.

Lemma rt_remove_ok l h k txn height es X key : ledger_state l h (2 * height + 1 + k) txn height es X ->
  rkey_valid key -> sp_member lrank es (rkey_rank key) = true -> Z.of_nat height <= MAX_TREE_LEVEL ->
  zlen (tr_retired (lg_tree l)) + Z.of_nat height + 1 <= MAX_PATH + 1 ->
  performs (rt_remove key) l h X k txn (sp_remove lrank es (rkey_rank key)) (height + 1) (height + 1).
Proof using Type*.
  intros [Hst Hc] Hk Hm Hh Hr. destruct (delete_apart_ok _ h k txn height es X key Hst Hk Hm Hh Hr) as (t' & E & h' & height' & X' & Hst' & Hg & Hb & Ht).
  assert (Hlen : zlen es = zlen (sp_remove lrank es (rkey_rank key)) + 1)
    by (unfold zlen; rewrite (length_sp_remove lrank es _ (proj1 (proj2 Hst)) Hm); lia).
  exists (mkLedger t' (zlen (sp_remove lrank es (rkey_rank key)))). split.
  - unfold rt_remove. rewrite (bind_ok _ _ l _ _ (on_ledger_run _ _ _ _ E)). set (l1 := mkLedger t' (lg_count l)).
    rewrite (bind_ok _ _ l1 l1 (zlen es)) by (unfold gets; cbn; by rewrite Hc).
    rewrite (bind_ok _ _ l1 l1 (zlen es - 1)); [by rewrite Hlen, Z.add_simpl_r |].
    unfold lift, checked_sub. pose proof (zlen_nonneg (sp_remove lrank es (rkey_rank key))). by rewrite (proj2 (Z.leb_le _ _)) by lia.
  - exists h', height', X'. split; [done |]. split; [done |]. split; [done |]. by apply buries_collects.
Qed.

(** ** Adding a page *)

Lemma spared es txn n nb e : joins es txn n nb -> Forall extent_valid es -> e ∈ es -> e ∉ gone nb -> lrank e <> lrank (merged (mkRKey txn n) nb).
Proof using Type.
  intros J Hv He Hg Hr. rewrite Forall_forall in Hv. pose proof (jo_valid _ _ _ _ J) as Hm. pose proof (Hv e He) as Hve.
  apply rank_eq in Hr; [| by apply extent_key_valid ..]. cbn [leaf_key RetirementCodecLaws] in Hr. pose proof (jo_txn _ _ _ _ J) as Ht. unfold ex_txn in Ht.
  destruct (jo_apart _ _ _ _ J e He Hg) as [Ha | Ha]; [unfold ex_txn; congruence | |];
    destruct Hm as (_ & _ & ? & _), Hve as (_ & _ & ? & _); unfold ex_end, ex_first in *; rewrite Hr in *; lia.
Qed.

Lemma ledger_less l h k j txn height es X : ledger_state l h k txn height es X -> (j <= k)%nat -> ledger_state l h j txn height es X.
Proof using Type*. intros [Hst Hc] Hj. split; [by eapply tree_state_less | done]. Qed.

(** The extents after a page has joined its neighbours. *)
Definition joined es (key : RKey) (nb : Neighbors) : list Extent :=
  sp_upsert lrank (match nb with
                   | Neither | PreviousOnly _ => es
                   | NextOnly x => sp_remove lrank es (lrank x)
                   | BothSides p x => sp_remove lrank (sp_remove lrank es (lrank p)) (lrank x)
                   end) (merged key nb).

Lemma zlen_removed es j : sp_sorted lrank es -> zlen (sp_remove lrank es j) <= zlen es.
Proof using Type.
  intros Hs. unfold sp_remove, sp_below, sp_above, zlen. destruct (sp_decompose lrank es j Hs) as [He _]. apply (f_equal length) in He.
  unfold sp_below, sp_above in He. rewrite !length_app in *. lia.
Qed.

Lemma zlen_joined es key nb : sp_sorted lrank es -> zlen (joined es key nb) <= zlen es + 1.
Proof using Type.
  intros Hs. assert (Hput : forall es0 e, sp_sorted lrank es0 -> zlen es0 <= zlen es -> zlen (sp_upsert lrank es0 e) <= zlen es + 1).
  { intros es0 e Hs0 Hle. rewrite zlen_upsert by done. destruct (sp_member _ _ _); lia. }
  destruct nb as [| p | x | p x]; apply Hput; auto using sp_sorted_remove, zlen_removed, Z.le_refl.
  etrans; [by apply zlen_removed, sp_sorted_remove | by apply zlen_removed].
Qed.

Lemma elem_of_joined es txn n nb : joins es txn n nb -> Forall extent_valid es -> sp_sorted lrank es ->
  forall x, x ∈ joined es (mkRKey txn n) nb <-> x = merged (mkRKey txn n) nb \/ (x ∈ es /\ x ∉ gone nb).
Proof using Type.
  intros J Hv Hs x. unfold joined. rewrite elem_of_upsert. pose proof (spared es txn n nb x J Hv) as Hsp.
  assert (Hsame : forall g, g ∈ gone nb -> x ∈ es -> lrank x <> lrank g <-> x <> g).
  { intros g Hg Hx. destruct (jo_gone _ _ _ _ J g Hg) as [Hin _]. split; [by intros Hne -> |]. intros Hne He. by apply Hne, (sp_sorted_inj lrank es). }
  destruct nb as [| p | y | p y]; cbn [gone] in *; rewrite ?elem_of_remove; repeat setoid_rewrite elem_of_cons in Hsame;
    rewrite ?not_elem_of_cons in *; pose proof (not_elem_of_nil x); split.
  - set_solver.
  - set_solver.
  - intros [-> | [Hx Hr]]; [by left | right]. split; [done |]. split; [| done]. intros ->. apply Hr. done.
  - intros [-> | [Hx Hr]]; [by left | right]. auto.
  - intros [-> | [[Hx Hr] Hr']]; [by left | right]. split; [done |]. split; [| done]. exact (proj1 (Hsame y (or_introl eq_refl) Hx) Hr).
  - intros [-> | [Hx [Hr ?]]]; [by left | right]. split; [split; [done | exact (proj2 (Hsame y (or_introl eq_refl) Hx) Hr)] | auto].
  - intros [-> | [[[Hx Hr] Hr'] _]]; [by left | right]. split; [done |].
    split; [exact (proj1 (Hsame p (or_introl eq_refl) Hx) Hr) |]. split; [exact (proj1 (Hsame y (or_intror (or_introl eq_refl)) Hx) Hr') | done].
  - intros [-> | [Hx (Hr & Hr' & _)]]; [by left | right]. split; [split; [split; [done |] |] |].
    + exact (proj2 (Hsame p (or_introl eq_refl) Hx) Hr).
    + exact (proj2 (Hsame y (or_intror (or_introl eq_refl)) Hx) Hr').
    + apply Hsp; tauto.
Qed.

Lemma grow_ok l (count by_ : Z) {A} (f : Z -> io (Ledger S) A) : count + by_ <= u32_max -> (c ← lift (grow count by_); f c) l = f (count + by_) l.
Proof using Type.
  intros Hc. unfold grow. rewrite (proj2 (checked_add_Some u32_max count by_ (count + by_))) by done. done.
Qed.

Lemma performs_eq (m m' : io (Ledger S) unit) l h X k txn es top n : m l = m' l -> performs m' l h X k txn es top n -> performs m l h X k txn es top n.
Proof using Type. intros E (l' & E' & Hm). exists l'. by rewrite E. Qed.

Lemma bind_agree (m : io (Ledger S) unit) (f g : io (Ledger S) unit) l : (forall l1, f l1 = g l1) -> (_ ← m; f) l = (_ ← m; g) l.
Proof using Type. intros Hf. unfold mbind, io_bind. destruct (m l) as [l1 [] ]; [apply Hf | done | done]. Qed.

Lemma found_key es (g : Extent) : g ∈ es -> sp_member lrank es (rkey_rank (ex_key g)) = true.
Proof using Type. intros Hg. apply sp_member_spec. by exists g. Qed.

Definition join_page (key : RKey) (nb : Neighbors) : io (Ledger S) unit :=
  match nb with
  | Neither => insert_single key
  | PreviousOnly p => extend_previous p
  | NextOnly x => extend_next key x
  | BothSides p x => bridge p x
  end.

(** A removal, then an insertion. *)
Lemma swap_ok l h k txn height es X x e : ledger_state l h (4 * height + 4 + k) txn height es X -> x ∈ es -> Forall extent_valid es -> extent_valid e ->
  2 * Z.of_nat height + 2 + zlen (tr_retired (lg_tree l)) <= MAX_PATH + 1 -> zlen es < u64_max ->
  performs (_ ← rt_remove (ex_key x); rt_insert e) l h X k txn (sp_upsert lrank (sp_remove lrank es (lrank x)) e) (height + 2) (2 * height + 3).
Proof using Type*.
  intros Hst Hx Hv He Hh Hz. pose proof (proj1 (proj2 (proj1 Hst))) as Hs. pose proof (zlen_nonneg (tr_retired (lg_tree l))). pose proof (zlen_removed es (lrank x) Hs).
  rewrite Forall_forall in Hv.
  eapply performs_le; [eapply (performs_then _ _ l h X (2 * (height + 1) + 1 + k) k) | |].
  - eapply rt_remove_ok; [eapply ledger_less; [exact Hst | lia] | by apply extent_key_valid, Hv | by apply found_key | levels | levels].
  - intros l1 h1 height1 X1 Hst1 Ht1 Hr1.
    eapply performs_le; [apply rt_insert_ok; [eapply ledger_less; [exact Hst1 | lia] | done | levels | levels | lia] | |].
    + instantiate (1 := (height + 2)%nat). lia.
    + instantiate (1 := (height + 2)%nat). lia.
  - lia.
  - lia.
Qed.

Lemma join_page_ok l h k txn height es X rtxn n nb : ledger_state l h (6 * height + 9 + k) txn height es X -> joins es rtxn n nb ->
  3 * Z.of_nat height + 5 + zlen (tr_retired (lg_tree l)) <= MAX_PATH + 1 -> zlen es < u64_max ->
  performs (join_page (mkRKey rtxn n) nb) l h X k txn (joined es (mkRKey rtxn n) nb) (height + 3) (3 * height + 6).
Proof using Type*.
  intros Hst J Hh Hz. pose proof (ledger_valid _ _ _ _ _ _ _ Hst) as Hv. pose proof (proj1 (proj2 (proj1 Hst))) as Hs.
  pose proof (jo_valid _ _ _ _ J) as Hm. pose proof (extent_count_max _ Hm) as Hmax. pose proof (zlen_nonneg (tr_retired (lg_tree l))).
  assert (Hgone : forall g, g ∈ gone nb -> g ∈ es /\ extent_valid g).
  { intros g Hg. destruct (jo_gone _ _ _ _ J g Hg) as [Hin _]. rewrite Forall_forall in Hv. auto. }
  assert (Hput : forall e, extent_valid e -> performs (rt_insert e) l h X k txn (sp_upsert lrank es e) (height + 3) (3 * height + 6)).
  { intros e He. eapply performs_le; [apply rt_insert_ok; [eapply ledger_less; [exact Hst | lia] | done | levels | levels | done] | lia | lia]. }
  unfold join_page, joined. destruct nb as [| p | x | p x]; cbn [merged gone ex_count] in *.
  - by apply Hput.
  - eapply performs_eq; [by apply grow_ok | by apply Hput].
  - destruct (Hgone x ltac:(constructor)) as [Hx _]. eapply (performs_eq _ (_ ← rt_remove (ex_key x); rt_insert (mkExtent (mkRKey rtxn n) (ex_count x + 1)))).
    + apply bind_agree. intros l1. by apply grow_ok.
    + eapply performs_le; [apply swap_ok; [eapply ledger_less; [exact Hst | lia] | done | done | done | levels | done] | lia | lia].
  - destruct (Hgone p ltac:(constructor)) as [Hp Hvp], (Hgone x ltac:(repeat constructor)) as [Hx Hvx]. set (e := mkExtent _ _) in *.
    eapply (performs_eq _ (_ ← rt_remove (ex_key p); _ ← rt_remove (ex_key x); rt_insert e)).
    { apply bind_agree. intros l1. apply bind_agree. intros l2. rewrite grow_ok by (destruct Hvx as (_ & _ & ? & _); lia). by apply grow_ok. }
    eapply performs_le; [eapply (performs_then _ _ l h X (4 * (height + 1) + 4 + k) k) | |].
    + eapply rt_remove_ok; [eapply ledger_less; [exact Hst | lia] | by apply extent_key_valid | by apply found_key | levels | levels].
    + intros l1 h1 height1 X1 Hst1 Ht1 Hr1. pose proof (zlen_removed es (lrank p) Hs).
      eapply performs_le; [apply swap_ok; [eapply ledger_less; [exact Hst1 | lia] | | | done | levels | lia] | |].
      * apply elem_of_remove. split; [done |]. intros Hr. apply (sp_sorted_inj lrank es) in Hr as <-; [| done..]. pose proof (jo_distinct _ _ _ _ J) as [Hd _]%NoDup_cons. apply Hd. constructor.
      * by eapply ledger_valid.
      * instantiate (1 := (height + 3)%nat). lia.
      * instantiate (1 := (2 * height + 5)%nat). lia.
    + lia.
    + lia.
Qed.

(** A mutation that starts its own collection and answers it. *)
Lemma collected_run (m : io (Ledger S) unit) l h X k txn height es k' es' top n : ledger_state l h k txn height es X ->
  (forall l0, ledger_state l0 h k txn height es X -> tr_retired (lg_tree l0) = [] -> performs m l0 h X k' txn es' top n) ->
  exists l' h' height' X', (_ ← on_ledger fresh_retired; _ ← m; gets (fun l => tr_retired (lg_tree l))) l = (l', Ok (tr_retired (lg_tree l')))
    /\ ledger_state l' h' k' txn height' es' X' /\ (height' <= top)%nat /\ others_kept h X h' /\ (length (tr_retired (lg_tree l')) <= n)%nat
    /\ Forall (fun m => (m ∈ X \/ h !! m = None) /\ is_Some (h' !! m) /\ m ∉ X') (tr_retired (lg_tree l')).
Proof using Type*.
  intros [Hst Hc] Hm. set (l0 := mkLedger (mkTree (tr_store (lg_tree l)) (tr_root (lg_tree l)) []) (lg_count l)).
  destruct (Hm l0) as (l' & E & h' & height' & X' & Hst' & Ht & [Hg _] & (dead & Hd & Hl & Hall)); [by split; [apply tree_state_collected |] | done |].
  change (tr_retired (lg_tree l0)) with (@nil Z) in Hd. cbn [app] in Hd. rewrite <- Hd in *.
  exists l', h', height', X'. split; [| done].
  rewrite (bind_ok _ _ l l0 tt) by done. by rewrite (bind_ok _ _ l0 l' tt E).
Qed.

Lemma ledger_reads l h k txn height es X key : ledger_state l h k txn height es X -> rkey_valid key ->
  rt_predecessor (tr_store (lg_tree l)) (tr_root (lg_tree l)) key = Ok (sp_predecessor lrank es (rkey_rank key))
  /\ rt_at_or_after (tr_store (lg_tree l)) (tr_root (lg_tree l)) key = Ok (sp_at_or_after lrank es (rkey_rank key)).
Proof using Type*. intros [Hst _] Hk. apply tree_state_holds in Hst. exact (reads_refine _ _ _ _ Hst Hk). Qed.

(** Up to the classification, [add_page] changes nothing. *)
Lemma add_page_classified l h k txn height es X rtxn n : ledger_state l h k txn height es X -> 1 < rtxn <= u64_max -> 2 <= n <= u32_max ->
  add_page rtxn n l = (nb ← lift (classify_neighbors (mkRKey rtxn n) (sp_predecessor lrank es (rkey_rank (mkRKey rtxn n)))
                                    (sp_at_or_after lrank es (rkey_rank (mkRKey rtxn n)))); apply_page (mkRKey rtxn n) nb) l.
Proof using Type*.
  intros Hst Ht Hn. destruct (ledger_reads _ _ _ _ _ _ _ (mkRKey rtxn n) Hst) as [E1 E2]; [unfold rkey_valid; cbn; lia |].
  unfold add_page. rewrite (bind_ok _ _ l l tt) by (unfold fail_if; by rewrite (proj2 (Z.leb_gt _ _)) by lia).
  rewrite (bind_ok _ _ l l tt) by (unfold fail_if; by rewrite (proj2 (Z.ltb_ge _ _)) by lia).
  rewrite (bind_ok _ _ l l (lg_tree l)) by done. rewrite E1, (bind_ok _ _ l l (sp_predecessor lrank es (rkey_rank (mkRKey rtxn n)))) by done.
  rewrite E2, (bind_ok _ _ l l (sp_at_or_after lrank es (rkey_rank (mkRKey rtxn n)))) by done. done.
Qed.
End Ledgers.

Section Retiring.
Context {S : Type} `{StoreLaws S}.
Implicit Types (l : Ledger S) (es : list Extent).

(** Taking an extent out of the ledger. *)
Lemma remove_extent_frees l h k txn height es X e :
  ledger_state l h (2 * height + 1 + k) txn height es X -> coalesced es -> e ∈ es -> Z.of_nat height <= MAX_PATH ->
  exists l' h' height' X' es', remove_extent e l = (l', Ok (tr_retired (lg_tree l')))
    /\ ledger_state l' h' k txn height' es' X' /\ coalesced es' /\ zlen es' + 1 = zlen es
    /\ (forall t m, retired_page es' t m <-> retired_page es t m /\ ~ (t = ex_txn e /\ holds_page e m))
    /\ others_kept h X h' /\ Forall (fun m => (m ∈ X \/ h !! m = None) /\ is_Some (h' !! m) /\ m ∉ X') (tr_retired (lg_tree l')).
Proof using Type*.
  intros Hst Hc He Hh. pose proof (ledger_valid _ _ _ _ _ _ _ Hst) as Hv. pose proof (proj1 (proj2 (proj1 Hst))) as Hs. rewrite Forall_forall in Hv.
  destruct (collected_run (rt_remove (ex_key e)) l h X _ txn height es k (sp_remove lrank es (lrank e)) (height + 1) (height + 1) Hst)
    as (l' & h' & height' & X' & E & Hst' & _ & Ho & _ & Hall).
  { intros l0 Hst0 Hr0. apply rt_remove_ok; [done | by apply extent_key_valid, Hv | by apply found_key | unfold MAX_PATH in Hh; lia |].
    rewrite Hr0. change (zlen []) with 0. lia. }
  exists l', h', height', X', (sp_remove lrank es (lrank e)). split; [exact E |]. split; [done |].
  assert (Hin : forall x, x ∈ sp_remove lrank es (lrank e) <-> x ∈ es /\ x <> e).
  { intros x. rewrite elem_of_remove. split; intros [Hx Hne]; (split; [done |]); [by intros -> | intros Hr; by apply Hne, (sp_sorted_inj lrank es)]. }
  split; [intros a b [Ha _]%Hin [Hb _]%Hin; by apply Hc |].
  pose proof (length_sp_remove lrank es (rkey_rank (ex_key e)) Hs (found_key es e He)) as Hlen.
  split; [change (lrank e) with (rkey_rank (ex_key e)); unfold zlen; lia |]. split; [| done].
  intros t m. unfold retired_page. split.
  - intros (x & [Hx Hne]%Hin & <- & Hm). split; [by exists x |]. intros [Ht Hm']. apply Hne.
    pose proof (Hv x Hx) as (_ & _ & ? & _). pose proof (Hv e He) as (_ & _ & ? & _). unfold holds_page in *.
    destruct (Z.lt_trichotomy (ex_first x) (ex_first e)) as [Hlt | [Heq | Hlt]].
    + pose proof (Hc x e Hx He Ht Hlt). lia.
    + by apply (same_first es Hs).
    + pose proof (Hc e x He Hx (eq_sym Ht) Hlt). lia.
  - intros [(x & Hx & <- & Hm) Hno]. exists x. split; [| done]. apply Hin. split; [done |]. intros ->. by apply Hno.
Qed.

(** C17: [add_page] refuses a page its transaction has retired already and
    leaves the ledger as it was; any other page it adds to the set of retired
    pages, and nothing else: extents that touch become one, [extent_count]
    counts them, the pages the ledger's own tree gives up are answered, still
    there and no longer the tree's, and no other page is changed. *)
Theorem add_page_retires l h k txn height es X rtxn n :
  ledger_state l h (6 * height + 9 + k) txn height es X -> coalesced es -> 1 < rtxn <= u64_max -> 2 <= n <= u32_max ->
  3 * Z.of_nat height + 5 <= MAX_PATH + 1 -> zlen es < u64_max ->
  (retired_page es rtxn n -> add_page rtxn n l = (l, Err (Corrupt "page is already retired")))
  /\ (~ retired_page es rtxn n -> exists l' h' height' X' es',
        add_page rtxn n l = (l', Ok (tr_retired (lg_tree l')))
        /\ ledger_state l' h' k txn height' es' X' /\ (height' <= height + 3)%nat /\ coalesced es' /\ zlen es' <= zlen es + 1
        /\ (forall t m, retired_page es' t m <-> retired_page es t m \/ (t = rtxn /\ m = n))
        /\ others_kept h X h' /\ (length (tr_retired (lg_tree l')) <= 3 * height + 6)%nat
        /\ Forall (fun m => (m ∈ X \/ h !! m = None) /\ is_Some (h' !! m) /\ m ∉ X') (tr_retired (lg_tree l'))).
Proof using Type*.
  intros Hst Hc Ht Hn Hh Hz. pose proof (ledger_valid _ _ _ _ _ _ _ Hst) as Hv. pose proof (proj1 (proj2 (proj1 Hst))) as Hs.
  rewrite (add_page_classified _ _ _ _ _ _ _ _ _ Hst Ht Hn), (classified es rtxn n Hs Hv Ht Hn).
  pose proof (retired_decided es rtxn n Hs Hv Hc Ht Hn) as Hd. destruct (taken es rtxn n || covered es rtxn n) eqn:Hb.
  - split; [intros _; done |]. intros Hno. destruct Hno. by apply Hd.
  - split; [intros Hr; apply Hd in Hr; discriminate |]. intros _. pose proof (neighbors_join es rtxn n Hs Hv Hc Ht Hn Hb) as J.
    set (nb := neighbors_of es rtxn n) in *.
    destruct (collected_run (join_page (mkRKey rtxn n) nb) l h X _ txn height es k (joined es (mkRKey rtxn n) nb) (height + 3) (3 * height + 6) Hst)
      as (l' & h' & height' & X' & E & Hst' & Htop & Ho & Hl & Hall).
    { intros l0 Hst0 Hr0. apply join_page_ok; try done. rewrite Hr0. change (zlen []) with 0. lia. }
    destruct (joined_retired es _ rtxn n nb J Hc Hv (elem_of_joined es rtxn n nb J Hv Hs)) as (Hc' & _ & Hset).
    exists l', h', height', X', (joined es (mkRKey rtxn n) nb). pose proof (zlen_joined es (mkRKey rtxn n) nb Hs).
    split; [| by split_and!]. by rewrite (bind_ok _ _ l l nb).
Qed.
End Retiring.
