(* ===== verification/Reclamation.v ===== *)
(** * What is chosen for reclamation

    Transactions are reclaimed whole and in order, oldest first.  [groups] is
    the list of the transactions in the ledger with the pages each retired;
    [select_reclamation] answers the longest run at its head that no reader
    holds back and that fits the limits on work. *)

From stdpp Require Import base tactics numbers list strings sorting sets.
From Stdlib Require Import ZArith Lia.
From S2P Require Import Prelude Errors Bytes PageHeader SlottedPage Codec TreeInterface Machine Draft Store TreePage TreeQuery TreeCursor TreeMutation.
From S2P Require Import TreeFacts TreeReads CursorTheorems TreeStore Retirement RetirementFacts.

#[local] Open Scope string_scope.
#[local] Open Scope list_scope.
#[local] Open Scope Z_scope.

(** The transactions of a list of extents, with their pages. *)
Definition group : Type := Z * Z.
Fixpoint groups (es : list Extent) : list group :=
  match es with
  | [] => []
  | e :: rest =>
      match groups rest with
      | (t, p) :: gs => if ex_txn e =? t then (t, ex_count e + p) :: gs else (ex_txn e, ex_count e) :: (t, p) :: gs
      | [] => [(ex_txn e, ex_count e)]
      end
  end.
Definition pages_of (gs : list group) : Z := foldr Z.add 0 (snd <$> gs).
Definition extent_pages (es : list Extent) : Z := foldr Z.add 0 (ex_count <$> es).
Definition safe_of (oldest_reader : option Z) (g : group) : bool := reader_safe oldest_reader (fst g).

(** The extents of one transaction at the head of a list. *)
Fixpoint run_of (t : Z) (es : list Extent) : Z * list Extent :=
  match es with
  | [] => (0, [])
  | e :: rest => if ex_txn e =? t then (ex_count e + fst (run_of t rest), snd (run_of t rest)) else (0, es)
  end.

Lemma groups_run e es : groups (e :: es) = (ex_txn e, ex_count e + fst (run_of (ex_txn e) es)) :: groups (snd (run_of (ex_txn e) es)).
Proof.
  revert e. induction es as [|x es IH]; intros e; [cbn; by rewrite Z.add_0_r |].
  change (groups (e :: x :: es)) with (match groups (x :: es) with
      | (t, p) :: gs => if ex_txn e =? t then (t, ex_count e + p) :: gs else (ex_txn e, ex_count e) :: (t, p) :: gs
      | [] => [(ex_txn e, ex_count e)] end).
  rewrite (IH x). cbn [run_of]. rewrite (Z.eqb_sym (ex_txn x)). destruct (Z.eqb_spec (ex_txn e) (ex_txn x)) as [<- | Hne]; cbn [fst snd]; [done |].
  by rewrite Z.add_0_r, (IH x).
Qed.

Lemma run_split t es : exists run, es = run ++ snd (run_of t es) /\ Forall (fun e => ex_txn e = t) run /\ fst (run_of t es) = extent_pages run.
Proof.
  induction es as [|e es (run & He & Ht & Hp)]; [by exists [] |]. cbn [run_of]. destruct (Z.eqb_spec (ex_txn e) t) as [<- | Hne].
  - exists (e :: run). cbn [fst snd app]. split; [by rewrite <- He |]. split; [by constructor |]. by rewrite Hp.
  - by exists [].
Qed.

Lemma extent_pages_app a b : extent_pages (a ++ b) = extent_pages a + extent_pages b.
Proof. unfold extent_pages. rewrite fmap_app, foldr_app. induction a as [|e a IH]; cbn in *; lia. Qed.
Lemma pages_of_app a b : pages_of (a ++ b) = pages_of a + pages_of b.
Proof. unfold pages_of. rewrite fmap_app, foldr_app. induction a as [|e a IH]; cbn in *; lia. Qed.

Lemma extent_pages_nonneg es : Forall extent_valid es -> 0 <= extent_pages es.
Proof. induction 1 as [|e es (_ & _ & ? & _) _ IH]; unfold extent_pages in *; cbn in *; lia. Qed.

Section Selecting.
Context {S : Type} `{PageStore S} (s : S) (root : Z) (checkpoint : nat -> nat -> Result unit) (es : list Extent) (selected : Z).
Context (Hholds : tree_holds s root es) (Hv : Forall extent_valid es) (Hc : coalesced es) (Hticks : forall a b, checkpoint a b = Ok tt).
(** What the tree of a selected generation has been checked for. *)
Context (Hbound : Forall (fun e => ex_txn e <= selected /\ ex_end e <= page_limit s) es) (Htotal : extent_pages es <= u64_max).

Lemma first_found : rt_first s root = Ok (head es).
Proof using Hholds Hv.
  unfold rt_first, rt_at_or_after. rewrite (proj2 (reads_refine s root es (mkRKey 0 0) Hholds ltac:(unfold valid_key; cbn; unfold rkey_valid, u64_max, u32_max; cbn; lia))).
  unfold sp_at_or_after. rewrite filter_all; [done |]. intros e He. rewrite Forall_forall in Hv.
  destruct (Hv e He) as ([? _] & ? & _). unfold lrank. cbn. unfold rkey_rank, ex_txn, ex_first in *. cbn. lia.
Qed.

(** What lies after an extent. *)
Lemma after_rank a e b j : es = a ++ e :: b -> j = lrank e + 1 -> sp_at_or_after lrank es j = head b.
Proof using Hholds.
  intros He ->. destruct Hholds as [Hs _]. rewrite He in Hs |- *. unfold sp_at_or_after. apply StronglySorted_app in Hs as (Hab & _ & Hs).
  apply StronglySorted_inv in Hs as [_ Hb]. rewrite Forall_forall in Hb. rewrite filter_app, filter_cons_False by lia. rewrite (filter_nothing _ a), (filter_all _ b); [done | |].
  - intros x Hx. specialize (Hb x Hx). lia.
  - intros x Hx. specialize (Hab x e Hx ltac:(constructor)). lia.
Qed.

Lemma after_found a e b : es = a ++ e :: b -> rt_after s root e = Ok (head b).
Proof using Type*.
  intros He. assert (Hin : e ∈ es) by (rewrite He; apply elem_of_app; right; constructor). pose proof Hv as Hv'. rewrite Forall_forall in Hv'.
  pose proof (Hv' e Hin) as (Ht & Hf & Hn & Hend). unfold ex_end in Hend.
  assert (Hread : forall key, rkey_valid key -> rkey_rank key = lrank e + 1 -> rt_at_or_after s root key = Ok (head b)).
  { intros key Hk Hr. unfold rt_at_or_after. rewrite (proj2 (reads_refine s root es key Hholds Hk)). f_equal. by apply (after_rank a e). }
  unfold rt_after. destruct (checked_add u32_max (ex_first e) 1) as [first|] eqn:E1.
  - apply checked_add_Some in E1 as [-> Hle]. apply Hread; [unfold rkey_valid; cbn; lia |].
    unfold lrank. cbn. unfold rkey_rank, ex_txn, ex_first. cbn. lia.
  - assert (Hlast : ex_first e = u32_max) by (unfold checked_add in E1; destruct (Z.leb_spec (ex_first e + 1) u32_max); [done | unfold u32_max in *; lia]).
    destruct (checked_add u64_max (ex_txn e) 1) as [t|] eqn:E2.
    + apply checked_add_Some in E2 as [-> Hle]. apply Hread; [unfold rkey_valid, u32_max; cbn; lia |].
      unfold lrank. cbn. unfold rkey_rank, ex_txn, ex_first, u32_max in *. cbn. lia.
    + destruct b as [|x b]; [done |]. exfalso. assert (Hx : x ∈ es) by (rewrite He; apply elem_of_app; right; repeat constructor).
      pose proof (Hv' x Hx) as (Htx & Hfx & Hnx & Hex). unfold ex_end in Hex.
      destruct Hholds as [Hs _]. rewrite He in Hs. apply StronglySorted_app in Hs as (_ & _ & Hs). apply StronglySorted_inv in Hs as [_ Hb].
      apply Forall_cons in Hb as [Hb _]. unfold lrank in Hb. cbn in Hb. unfold checked_add in E2.
      destruct (Z.leb_spec (ex_txn e + 1) u64_max); [done |]. unfold rkey_rank, ex_txn, ex_first, u32_max, u64_max in *. lia.
Qed.

Lemma bounded e : e ∈ es -> rt_validate_selected s e selected = Ok tt.
Proof using Hbound.
  intros He. rewrite Forall_forall in Hbound. destruct (Hbound e He) as [H1 H2]. unfold rt_validate_selected.
  by rewrite (proj2 (Z.ltb_ge _ _)), (proj2 (Z.ltb_ge _ _)) by lia.
Qed.

(** A group is read to its end: the extents of a transaction begin ever
    further on, below the page limit. *)
Lemma scan_group_runs groups rounds : forall a e b pages, es = a ++ e :: b -> 0 <= pages -> pages + extent_pages (e :: b) <= u64_max ->
  (Z.to_nat (page_limit s - ex_first e) < rounds)%nat ->
  scan_group_loop s root checkpoint groups rounds (ex_txn e) selected e pages
  = Ok (pages + ex_count e + fst (run_of (ex_txn e) b), head (snd (run_of (ex_txn e) b))).
Proof using Type*.
  induction rounds as [|rounds IH]; intros a e b pages He Hp Hsum Hr; [lia |].
  assert (Hin : e ∈ es) by (rewrite He; set_solver). pose proof Hv as Hv'. rewrite Forall_forall in Hv'.
  assert (Hb : Forall extent_valid b) by (rewrite He, Forall_app, Forall_cons in Hv; tauto). pose proof (extent_pages_nonneg b Hb).
  assert (Hte : extent_pages (e :: b) = ex_count e + extent_pages b) by done.
  cbn [scan_group_loop]. rewrite Hticks. cbn [mbind outcome_bind]. rewrite (bounded e Hin). cbn [mbind outcome_bind].
  rewrite (proj2 (checked_add_Some u64_max pages (ex_count e) (pages + ex_count e))) by (split; [done | lia]). cbn [ok_or mbind outcome_bind].
  rewrite (after_found a e b He). cbn [mbind outcome_bind]. destruct b as [|x b]; cbn [head run_of]; [by rewrite Z.add_0_r |].
  destruct (Z.eqb_spec (ex_txn x) (ex_txn e)) as [Ht | Hne]; cbn [negb fst snd]; [| by rewrite Z.add_0_r].
  assert (Hx : x ∈ es) by (rewrite He; set_solver).
  assert (Hlt : ex_first e < ex_first x).
  { destruct Hholds as [Hs _]. rewrite He in Hs. apply StronglySorted_app in Hs as (_ & _ & Hs). apply StronglySorted_inv in Hs as [_ Hs].
    apply Forall_cons in Hs as [Hs _]. unfold lrank in Hs. cbn in Hs. unfold rkey_rank, ex_txn, ex_first in *. lia. }
  pose proof (Hc e x Hin Hx (eq_sym Ht) Hlt) as Hgap. rewrite (proj2 (Z.leb_gt _ _)) by lia.
  pose proof (Hv' e Hin) as (_ & _ & Hce & _). pose proof (Hv' x Hx) as (_ & _ & Hcx & _). rewrite Forall_forall in Hbound. destruct (Hbound x Hx) as [_ Hlim].
  unfold ex_end in *. rewrite <- Ht.
  rewrite (IH (a ++ [e]) x b (pages + ex_count e)); [f_equal; f_equal; lia | by rewrite <- app_assoc | lia | lia | lia].
Qed.

Lemma safe_group_runs groups a e b oldest : es = a ++ e :: b ->
  safe_group s root checkpoint groups e selected oldest
  = Ok (if reader_safe oldest (ex_txn e) then Some (mkGroup (ex_txn e) (ex_count e + fst (run_of (ex_txn e) b)) (head (snd (run_of (ex_txn e) b)))) else None).
Proof using Type*.
  intros He. assert (Hin : e ∈ es) by (rewrite He; set_solver). unfold safe_group. rewrite (bounded e Hin). cbn [mbind outcome_bind].
  destruct (reader_safe oldest (ex_txn e)); cbn [negb]; [| done]. unfold scan_group.
  assert (Hs : extent_pages es = extent_pages a + extent_pages (e :: b)) by (by rewrite He, extent_pages_app).
  assert (Ha : Forall extent_valid a) by (rewrite He, Forall_app in Hv; tauto). pose proof (extent_pages_nonneg a Ha).
  pose proof Hv as Hv'. rewrite Forall_forall in Hv'. destruct (Hv' e Hin) as (_ & Hf & _).
  by rewrite (scan_group_runs groups _ a e b 0 He) by lia.
Qed.

(** ** The choice *)

Context (oldest : option Z) (max_transactions max_pages : Z) (Hmt : 0 < max_transactions) (Hmp : 0 < max_pages).

(** [gs] fits, and nothing more of the list would. *)
Record chosen_groups (gs rest : list group) : Prop := {
  ch_safe : Forall (fun g => safe_of oldest g = true) gs;
  ch_transactions : zlen gs <= max_transactions;
  ch_pages : pages_of gs <= max_pages;
  ch_stops : match rest with
             | [] => True
             | g :: _ => zlen gs = max_transactions \/ safe_of oldest g = false \/ max_pages < pages_of gs + snd g
             end;
}.

Definition summary (gs : list group) : Reclamation := mkReclamation (zlen gs) (pages_of gs) (default 0 (fst <$> last gs)).

(** With nothing chosen, a first group that readers allow is too large. *)
Definition choice (gs rest : list group) : Result Reclamation :=
  match gs, rest with
  | [], g :: _ => if safe_of oldest g then Err (WorkLimitTooSmall (snd g)) else Ok (summary [])
  | _, _ => Ok (summary gs)
  end.

Lemma summary_snoc gs t p : summary (gs ++ [(t, p)]) = mkReclamation (zlen gs + 1) (pages_of gs + p) t.
Proof using Type. unfold summary. rewrite zlen_app, pages_of_app, last_snoc. unfold pages_of at 2. cbn. by rewrite Z.add_0_r. Qed.

Lemma select_runs rounds : forall a rest gs, es = a ++ rest -> pages_of gs = extent_pages a -> (length rest < rounds)%nat -> chosen_groups gs [] ->
  exists gs1 gs2, groups rest = gs1 ++ gs2 /\ chosen_groups (gs ++ gs1) gs2
    /\ select_loop s root checkpoint rounds selected oldest max_transactions max_pages (head rest) (summary gs) = choice (gs ++ gs1) gs2.
Proof using Type*.
  induction rounds as [|rounds IH]; intros a rest gs He Hp Hr Hch; [lia |]. pose proof Hch as [Hs Ht Hpg _].
  cbn [select_loop]. change (rc_transactions (summary gs)) with (zlen gs). destruct (Z.ltb_spec (zlen gs) max_transactions) as [Hlt | Hge]; cbn [negb].
  2: { exists [], (groups rest). rewrite (app_nil_r gs). split; [done |]. split; [split; try done; destruct (groups rest); [done | left; lia] |].
       destruct gs; [change (zlen []) with 0 in Hge; lia | done]. }
  rewrite Hticks. cbn [mbind outcome_bind]. destruct rest as [|e b]; cbn [head].
  { exists [], []. rewrite (app_nil_r gs). split; [done |]. split; [done | by destruct gs]. }
  rewrite (safe_group_runs _ a e b oldest He). cbn [mbind outcome_bind]. rewrite groups_run.
  set (p := ex_count e + fst (run_of (ex_txn e) b)). set (tail := snd (run_of (ex_txn e) b)).
  assert (Hstop : forall r, (safe_of oldest (ex_txn e, p) = false \/ max_pages < pages_of gs + p) -> r = choice gs ((ex_txn e, p) :: groups tail) ->
    exists gs1 gs2 : list group, (ex_txn e, p) :: groups tail = gs1 ++ gs2 /\ chosen_groups (gs ++ gs1) gs2 /\ r = choice (gs ++ gs1) gs2).
  { intros r Hw Hrr. exists [], ((ex_txn e, p) :: groups tail). rewrite (app_nil_r gs). split; [done |]. split; [split; try done; by right | done]. }
  destruct (reader_safe oldest (ex_txn e)) eqn:Hsafe; [| apply Hstop; [by left | destruct gs; cbn; unfold safe_of; cbn; by rewrite ?Hsafe]].
  cbn [gr_pages gr_txn gr_next]. unfold require_first_group_fit. change (rc_transactions (summary gs)) with (zlen gs).
  destruct (run_split (ex_txn e) b) as (run & Hb & Hrun & Hpr). fold tail in Hb.
  assert (Hpt : p = extent_pages (e :: run)) by (unfold p; rewrite Hpr; done).
  assert (Hes : es = (a ++ e :: run) ++ tail) by (rewrite <- app_assoc; cbn [app]; by rewrite <- Hb).
  assert (Hsum : pages_of gs + p <= u64_max).
  { rewrite Hes, extent_pages_app, extent_pages_app in Htotal. assert (0 <= extent_pages tail) by (apply extent_pages_nonneg; rewrite Hes, Forall_app in Hv; tauto). lia. }
  destruct (Z.lt_ge_cases max_pages (pages_of gs + p)) as [Hbig | Hfit].
  - apply Hstop; [by right |]. destruct gs as [|g gs].
    + change (pages_of []) with 0 in Hbig. change (zlen [] =? 0) with true. rewrite (proj2 (Z.ltb_lt _ _)) by lia. cbn.
      unfold safe_of. cbn. by rewrite Hsafe.
    + rewrite zlen_cons, (proj2 (Z.eqb_neq _ 0)) by (pose proof (zlen_nonneg gs); lia). cbn [andb mbind outcome_bind]. unfold append_group.
      rewrite (proj2 (checked_add_Some u64_max (rc_pages (summary (g :: gs))) p (pages_of (g :: gs) + p))) by done. cbn [ok_or mbind outcome_bind].
      by rewrite (proj2 (Z.ltb_lt _ _)) by lia.
  - assert (Hno : (zlen gs =? 0) && (max_pages <? p) = false).
    { destruct gs as [|g gs]; [| rewrite zlen_cons, (proj2 (Z.eqb_neq _ 0)) by (pose proof (zlen_nonneg gs); lia); done].
      change (pages_of []) with 0 in Hfit. rewrite (proj2 (Z.ltb_ge _ p)) by lia. done. }
    rewrite Hno. cbn [mbind outcome_bind]. unfold append_group.
    rewrite (proj2 (checked_add_Some u64_max (rc_pages (summary gs)) p (pages_of gs + p))) by done. cbn [ok_or mbind outcome_bind].
    rewrite (proj2 (Z.ltb_ge _ _)) by lia. cbn [mbind outcome_bind]. change (rc_transactions (summary gs)) with (zlen gs). rewrite <- summary_snoc.
    destruct (IH (a ++ e :: run) tail (gs ++ [(ex_txn e, p)]) Hes) as (gs1 & gs2 & Hg & Hc' & Hrun').
    + rewrite pages_of_app, extent_pages_app, Hp, Hpt. unfold pages_of. cbn. by rewrite Z.add_0_r.
    + cbn [length] in Hr. rewrite Hb, length_app in Hr. lia.
    + split; [by apply Forall_app_2; [| repeat constructor] | rewrite zlen_app; change (zlen [(ex_txn e, p)]) with 1; lia | | done].
      rewrite pages_of_app. unfold pages_of at 2. cbn. lia.
    + exists ((ex_txn e, p) :: gs1), gs2. rewrite <- app_assoc in Hc', Hrun'. cbn [app] in *. split; [by rewrite Hg |]. done.
Qed.
End Selecting.

(** C23: what is chosen for reclamation is the longest run of whole
    transactions, oldest first, that no reader holds back and that stays within
    both limits, with the exact number of pages; nothing is chosen only when
    there is nothing or a reader needs the oldest, and the limit on pages is
    reported as too small exactly when the oldest alone exceeds it.  The search
    ends within one round for each extent and one more. *)
Theorem reclamation_is_longest {S : Type} `{PageStore S} (s : S) root checkpoint es selected oldest max_transactions max_pages rounds :
  tree_holds s root es -> Forall extent_valid es -> coalesced es -> (forall a b, checkpoint a b = Ok tt) ->
  Forall (fun e => ex_txn e <= selected /\ ex_end e <= page_limit s) es -> extent_pages es <= u64_max ->
  0 < max_transactions -> 0 < max_pages -> (length es < rounds)%nat ->
  exists gs rest, groups es = gs ++ rest /\ chosen_groups oldest max_transactions max_pages gs rest
    /\ select_reclamation s root checkpoint rounds selected oldest max_transactions max_pages
       = match gs, rest with
         | [], g :: _ => if safe_of oldest g then Err (WorkLimitTooSmall (snd g)) else Ok None
         | [], [] => Ok None
         | _, _ => Ok (Some (summary gs))
         end.
Proof.
  intros Hh Hv Hc Hticks Hb Ht Hmt Hmp Hr.
  destruct (select_runs s root checkpoint es selected Hh Hv Hc Hticks Hb Ht oldest max_transactions max_pages Hmt Hmp rounds [] es [])
    as (gs & rest & Hg & Hch & E); [done | done | done | |].
  { split; [constructor | change (zlen []) with 0; lia | change (pages_of []) with 0; lia | done]. }
  exists gs, rest. cbn [app] in *. split; [done |]. split; [done |].
  unfold select_reclamation, require_work_limits. rewrite !(proj2 (Z.eqb_neq _ 0)) by lia. cbn [orb mbind outcome_bind].
  rewrite (first_found s root es Hh Hv). cbn [mbind outcome_bind]. change (mkReclamation 0 0 0) with (summary []). rewrite E.
  destruct gs as [|g gs]; [destruct rest as [|x rest]; [done |]; cbn [choice]; by destruct (safe_of oldest x) |].
  cbn [choice mbind outcome_bind]. change (rc_transactions (summary (g :: gs))) with (zlen (g :: gs)).
  rewrite zlen_cons, (proj2 (Z.eqb_neq _ 0)) by (pose proof (zlen_nonneg gs); lia). done.
Qed.
