(* ===== verification/BitmapPage.v ===== *)
(** * Bitmap pages

    [bitmap_page.rs]: leaves of 500 words and branches of 256 children with a
    256-bit summary, the levels and the place of a bit. *)

From stdpp Require Import base tactics numbers list strings.
From Stdlib Require Import ZArith Lia.
From S2P Require Import Prelude Errors Bytes PageHeader Machine Store.

#[local] Open Scope string_scope.
#[local] Open Scope list_scope.
#[local] Open Scope Z_scope.

Definition BITMAP_BRANCH_TYPE : Z := 14.
Definition BITMAP_LEAF_TYPE : Z := 15.
Definition LEAF_WORDS : Z := 500.
Definition LEAF_BITS : Z := LEAF_WORDS * 64.
Definition BRANCH_CHILDREN : Z := 256.
Definition LEAF_WORDS_OFFSET : Z := SIZE.
Definition BRANCH_SUMMARY_OFFSET : Z := SIZE.
Definition BRANCH_SUMMARY_SIZE : Z := 32.
Definition BRANCH_CHILDREN_OFFSET : Z := BRANCH_SUMMARY_OFFSET + BRANCH_SUMMARY_SIZE.
Definition LEAF_END : Z := LEAF_WORDS_OFFSET + LEAF_WORDS * 8.
Definition BRANCH_END : Z := BRANCH_CHILDREN_OFFSET + BRANCH_CHILDREN * 4.
Definition MAX_LEVEL : Z := 3.

Inductive BitmapKind := FreeK | FeedK | MembershipK | StructureK.
Definition kind_code (k : BitmapKind) : Z :=
  match k with FreeK => 1 | FeedK => 2 | MembershipK => 3 | StructureK => 4 end.
Definition first_candidate (k : BitmapKind) : Z :=
  match k with MembershipK | StructureK => 1 | FreeK | FeedK => 0 end.

Record BitmapHeader := mkBitmapHeader { bh_level : Z; bh_item_count : Z }.

Inductive HeaderProblem := HeaderHP | BornHP | LevelHP | TypeHP.

(** ** Headers *)

Definition page_lower (level : Z) : Z := if level =? 0 then LEAF_END else BRANCH_END.

Section Reading.
Context {E : Type}.

Definition header_problem (page : list Z) (selected_txn : Z) (kind : BitmapKind) (expected_level : option Z)
    : outcome E (option HeaderProblem) :=
  level_ ← level page;
  let lower_ := page_lower level_ in
  common ← common_valid page;
  bad ← (if negb common then Ok true
         else l ← lower page;
              if negb (l =? lower_) then Ok true
              else u ← upper page; Ok (negb (u =? PAGE_SIZE)));
  if bad : bool then Ok (Some HeaderHP)
  else
    born ← born_valid page selected_txn;
    if negb born then Ok (Some BornHP)
    else if (MAX_LEVEL <? level_)
            || match expected_level with Some expected => negb (expected =? level_) | None => false end
    then Ok (Some LevelHP)
    else
      let expected_type := if level_ =? 0 then BITMAP_LEAF_TYPE else BITMAP_BRANCH_TYPE in
      right_ ← kind_valid page expected_type (kind_code kind);
      if negb right_ then Ok (Some TypeHP)
      else
        count ← item_count page;
        let maximum := if level_ =? 0 then LEAF_WORDS else BRANCH_CHILDREN in
        if (count =? 0) || (maximum <? count) then Ok (Some HeaderHP) else Ok None.
End Reading.

Definition checked_header (page : list Z) (selected_txn : Z) (kind : BitmapKind) (expected_level : option Z)
    : outcome HeaderProblem BitmapHeader :=
  problem ← header_problem page selected_txn kind expected_level;
  match problem with
  | Some problem => Err problem
  | None => level_ ← level page; count ← item_count page; Ok (mkBitmapHeader level_ count)
  end.

Definition inspect_header (page : list Z) (selected_txn : Z) (kind : BitmapKind) (expected_level : option Z)
    : Result BitmapHeader :=
  map_err (fun _ => Corrupt "bitmap page header is invalid") (checked_header page selected_txn kind expected_level).

Definition reserved_zero (page : list Z) (level : Z) : bool :=
  let lower := page_lower level in all_zero page lower (PAGE_SIZE - lower).

(** [initialize(..).expect("fixed bitmap header fits")]. *)
Definition bitmap_initialize (txn level : Z) (kind : BitmapKind) : io (list Z) unit := fun page =>
  match initialize (mkFields (if level =? 0 then BITMAP_LEAF_TYPE else BITMAP_BRANCH_TYPE) txn 0 level
                      (as_u16 (page_lower level)) (as_u16 PAGE_SIZE) (kind_code kind)) with
  | Ok new => (new, Ok tt)
  | Err _ => (page, Panic "fixed bitmap header fits")
  | Panic t => (page, Panic t)
  end.

(** ** Words, children, summaries *)

Definition leaf_word (page : list Z) (index : Z) : Result Z :=
  if LEAF_WORDS <=? index then Err (Corrupt "bitmap word index is invalid")
  else u64_le page (LEAF_WORDS_OFFSET + index * 8).

Definition set_leaf_word (index word : Z) : io (list Z) unit :=
  _ ← fail_if (LEAF_WORDS <=? index) (Corrupt "bitmap word index is invalid");
  put (fun page => put_u64 page (LEAF_WORDS_OFFSET + index * 8) word).

Definition branch_child (page : list Z) (index : Z) : Result Z :=
  if BRANCH_CHILDREN <=? index then Err (Corrupt "bitmap child index is invalid")
  else u32_le page (BRANCH_CHILDREN_OFFSET + index * 4).

Definition set_branch_child (index child : Z) : io (list Z) unit :=
  _ ← fail_if (BRANCH_CHILDREN <=? index) (Corrupt "bitmap child index is invalid");
  put (fun page => put_u32 page (BRANCH_CHILDREN_OFFSET + index * 4) child).

Definition checked_branch_child (page : list Z) (header : BitmapHeader) (index page_limit : Z) : Result Z :=
  if (bh_level header =? 0) || (BRANCH_CHILDREN <=? index) then Err (Corrupt "bitmap child lookup is invalid")
  else
    child ← branch_child page index;
    if negb (child =? 0) && ((child <? 2) || (page_limit <=? child))
    then Err (Corrupt "bitmap child is outside page bounds")
    else Ok child.

Definition bit_mask (index : Z) : Z := Z.shiftl 1 (index mod 64).

Definition summary_bit (page : list Z) (index : Z) : Result bool :=
  if BRANCH_CHILDREN <=? index then Err (Corrupt "bitmap summary index is invalid")
  else
    word ← u64_le page (BRANCH_SUMMARY_OFFSET + index / 64 * 8);
    Ok (negb (Z.land word (bit_mask index) =? 0)).

(** [word & !mask] on 64 bits. *)
Definition set_summary (index : Z) (value : bool) : io (list Z) unit :=
  _ ← fail_if (BRANCH_CHILDREN <=? index) (Corrupt "bitmap summary index is invalid");
  let at_ := BRANCH_SUMMARY_OFFSET + index / 64 * 8 in
  word ← peek (fun page => u64_le page at_);
  put (fun page => put_u64 page at_ (if value then Z.lor word (bit_mask index) else Z.ldiff word (bit_mask index))).

Definition replace_branch_child (header : BitmapHeader) (index child : Z) (summary : bool) : io (list Z) Z :=
  _ ← fail_if ((bh_level header =? 0) || (BRANCH_CHILDREN <=? index)) (Corrupt "bitmap child index is invalid");
  old ← peek (fun page => branch_child page index);
  _ ← set_branch_child index child;
  _ ← set_summary index summary;
  count ← lift (ok_or (c ← checked_add usize_max (bh_item_count header) (b2z ((old =? 0) && negb (child =? 0)));
                       checked_sub c (b2z (negb (old =? 0) && (child =? 0))))
                  (Corrupt "bitmap child count underflows"));
  _ ← put (fun page => put_u16 page ITEM_COUNT (as_u16 count));
  mret count.

(** [u64::trailing_zeros] of a nonzero word. *)
Fixpoint lowest_bit (fuel : nat) (from word : Z) : Z :=
  match fuel with
  | O => from
  | S fuel' => if Z.testbit word from then from else lowest_bit fuel' (from + 1) word
  end.
Definition trailing_zeros (word : Z) : Z := lowest_bit 64 0 word.

(** [u64::MAX << n]. *)
Definition high_bits (n : Z) : Z := Z.shiftl (Z.ones 64) n mod 2 ^ 64.

(** The loop over the remaining summary words. *)
Fixpoint summary_loop (words : nat) (page : list Z) (word_index word : Z) : Result (option Z) :=
  if negb (word =? 0) then Ok (Some (word_index * 64 + trailing_zeros word))
  else
    let word_index := word_index + 1 in
    match words with
    | O => Ok None
    | S words' =>
        if word_index =? 4 then Ok None
        else word ← u64_le page (BRANCH_SUMMARY_OFFSET + word_index * 8);
             summary_loop words' page word_index word
    end.

Definition first_summary (page : list Z) (start : Z) : Result (option Z) :=
  if BRANCH_CHILDREN <=? start then Ok None
  else
    word ← u64_le page (BRANCH_SUMMARY_OFFSET + start / 64 * 8);
    summary_loop 4 page (start / 64) (Z.land word (high_bits (start mod 64))).

(** [(0..LEAF_WORDS).find_map(..)]. *)
Fixpoint find_word (count : nat) (page : list Z) (index : Z) : Result (option (Z * Z)) :=
  match count with
  | O => Ok None
  | S count' =>
      value ← (match leaf_word page index with
               | Err _ => Panic "bounded bitmap word index"
               | r => r
               end);
      if negb (value =? 0) then Ok (Some (index, value)) else find_word count' page (index + 1)
  end.
Definition first_leaf_word (page : list Z) : Result (option (Z * Z)) := find_word (Z.to_nat LEAF_WORDS) page 0.

Fixpoint count_words (count : nat) (page : list Z) (index : Z) : Result Z :=
  match count with
  | O => Ok 0
  | S count' =>
      value ← (match leaf_word page index with
               | Err _ => Panic "bounded bitmap word index"
               | r => r
               end);
      rest ← count_words count' page (index + 1);
      Ok (b2z (negb (value =? 0)) + rest)
  end.
Definition nonzero_leaf_words (page : list Z) : Result Z := count_words (Z.to_nat LEAF_WORDS) page 0.

(** ** Levels *)

Fixpoint coverage_loop (levels : nat) (value : Z) : Result Z :=
  match levels with
  | O => Ok value
  | S levels' =>
      value ← ok_or (checked_mul u64_max value BRANCH_CHILDREN) (ArithmeticOverflow "bitmap coverage");
      coverage_loop levels' value
  end.
Definition coverage (level : Z) : Result Z := coverage_loop (Z.to_nat level) LEAF_BITS.

(** [for level in 0..=MAX_LEVEL]. *)
Fixpoint level_loop (levels : nat) (level limit : Z) : Result Z :=
  match levels with
  | O => Err (ArithmeticOverflow "bitmap limit")
  | S levels' =>
      c ← coverage level;
      if limit <=? c then Ok level else level_loop levels' (level + 1) limit
  end.
Definition required_level (limit : Z) : Result Z :=
  if (limit =? 0) || (2 ^ 32 <? limit) then Err (InvalidArgument "bitmap limit is invalid")
  else level_loop (Z.to_nat (MAX_LEVEL + 1)) 0 limit.

Definition leaf_word_index (bit : Z) : Z := bit mod LEAF_BITS / 64.

(** [level - 1] underflows on a leaf. *)
Definition child_index (bit level : Z) : Result Z :=
  below ← usub level 1;
  c ← coverage below;
  Ok (bit / c mod BRANCH_CHILDREN).
