(* ===== verification/DraftStore.v ===== *)
(** * The draft store

    [draft_store/storage.rs] and the page bookkeeping of [draft_store.rs]: the
    pages a transaction owns.  Every page it claims joins the dirty chain,
    linked through the checksum fields; pages it no longer needs wait on the
    private stack, linked through their headers; the chain is sealed before
    publication. *)

From stdpp Require Import base tactics numbers list strings.
From Stdlib Require Import ZArith Lia.
From S2P Require Import Prelude Errors Bytes PageHeader Checksum Contract Machine Mapping Draft Store.

#[local] Open Scope string_scope.
#[local] Open Scope list_scope.
#[local] Open Scope Z_scope.

Record DraftStore := mkDraftStore {
  ds_mapping : Mapping;
  committed_page_count : Z;
  ds_budget : PageBudget;
  ds_draft : Draft;
}.

Definition set_ds_mapping (m : Mapping) (s : DraftStore) : DraftStore :=
  mkDraftStore m (committed_page_count s) (ds_budget s) (ds_draft s).
Definition set_ds_draft (d : Draft) (s : DraftStore) : DraftStore :=
  mkDraftStore (ds_mapping s) (committed_page_count s) (ds_budget s) d.

Definition on_pages {A} : io Mapping A -> io DraftStore A := zoom ds_mapping set_ds_mapping.
Definition on_draft (f : Draft -> Draft) : io DraftStore unit := modify (fun s => set_ds_draft (f (ds_draft s)) s).
Definition draft_meta (s : DraftStore) : MetaV4 := d_meta (ds_draft s).
Definition draft_limit (s : DraftStore) : Z := page_count (draft_meta s).
Definition draft_txn (s : DraftStore) : Z := txn_id (draft_meta s).

Definition set_private_head (n : Z) (d : Draft) : Draft :=
  set_pages n (dirty_head d) (allocator_retired d) (private_pages d) (growth_pages d) d.
Definition set_dirty_head (n : Z) (d : Draft) : Draft :=
  set_pages (private_head d) n (allocator_retired d) (private_pages d) (growth_pages d) d.
Definition set_retired (r : RetiredPages) (d : Draft) : Draft :=
  set_pages (private_head d) (dirty_head d) r (private_pages d) (growth_pages d) d.
Definition set_private_pages (n : Z) (d : Draft) : Draft :=
  set_pages (private_head d) (dirty_head d) (allocator_retired d) n (growth_pages d) d.
Definition set_growth_pages (n : Z) (d : Draft) : Draft :=
  set_pages (private_head d) (dirty_head d) (allocator_retired d) (private_pages d) n d.

(** ** The private marks of a page *)

Definition DIRTY_END : Z := 1.
Definition PRIVATE_MAGIC : Z := 0x50465245.
Definition PRIVATE_MAGIC_OFFSET : Z := 0.
Definition PRIVATE_NEXT_OFFSET : Z := 4.
Definition PRIVATE_TXN_OFFSET : Z := 8.
Definition PRIVATE_HEADER_SIZE : Z := 32.

Definition is_private_page (page : list Z) (txn : Z) : Result bool :=
  magic ← u32_le page PRIVATE_MAGIC_OFFSET;
  if magic =? PRIVATE_MAGIC then t ← u64_le page PRIVATE_TXN_OFFSET; Ok (t =? txn) else Ok false.

Definition private_tag (page : list Z) (txn : Z) : Result Z :=
  tag ← u32_le page OFFSET;
  data ← owned_by page txn;
  mine ← (if data : bool then Ok true else is_private_page page txn);
  if mine && negb (tag =? 0) then Ok tag else Err (Corrupt "draft update page is not private").

Definition private_stack_next (page : list Z) (txn : Z) : Result Z :=
  mine ← is_private_page page txn;
  if negb mine then Err (Corrupt "private page stack link is invalid") else u32_le page PRIVATE_NEXT_OFFSET.

Definition require_page (page_number page_limit : Z) : Result unit :=
  if (page_number <? 2) || (page_limit <=? page_number) then Err (Corrupt "page number is outside draft bounds")
  else Ok tt.

Definition dirty_next (tag page_number page_limit : Z) : Result Z :=
  if tag =? DIRTY_END then Ok 0
  else if (tag <? 2) || (tag =? page_number) || (page_limit <=? tag)
  then Err (Corrupt "draft dirty-page link is invalid")
  else Ok tag.

(** ** [impl Store for DraftStore] *)

Definition ds_inspect_page A (page_number : Z) (inspect : list Z -> Result A) : io DraftStore A :=
  limit ← gets draft_limit;
  _ ← lift (require_page page_number limit);
  view ← on_pages (page page_number limit);
  lift (inspect view).

Definition ds_update_page A (page_number : Z) (update : io (list Z) A) : io DraftStore A :=
  limit ← gets draft_limit;
  txn ← gets draft_txn;
  _ ← lift (require_page page_number limit);
  on_pages (page_mut_after page_number limit (fun view => private_tag view txn) (fun tag =>
    result ← update;
    _ ← put (fun page => put_u32 page OFFSET tag);
    mret result)).

Definition ds_copy_page A (source destination : Z) (copy : list Z -> io (list Z) A) : io DraftStore A :=
  limit ← gets draft_limit;
  txn ← gets draft_txn;
  _ ← lift (require_page source limit);
  _ ← lift (require_page destination limit);
  on_pages (page_pair source destination limit (fun view => private_tag view txn) (fun tag source =>
    result ← copy source;
    _ ← put (fun page => put_u32 page OFFSET tag);
    mret result)).

(** What [discard_private] asks of the page before it writes. *)
Definition discardable (txn : Z) (view : list Z) : Result unit :=
  born ← born_txn view;
  if negb (born =? txn) then Err (Corrupt "committed page cannot enter the private stack")
  else
    tag ← u32_le view OFFSET;
    if tag =? 0 then Err (Corrupt "private page is absent from the dirty chain") else Ok tt.

Definition ds_discard_private (page_number : Z) : io DraftStore unit :=
  head ← gets (fun s => private_head (ds_draft s));
  _ ← fail_if (page_number =? head) (Corrupt "discarded private page is invalid");
  txn ← gets draft_txn;
  limit ← gets draft_limit;
  _ ← lift (require_page page_number limit);
  _ ← on_pages (page_mut_after page_number limit (discardable txn) (fun _ =>
        _ ← put (fun page => put_u32 page PRIVATE_MAGIC_OFFSET PRIVATE_MAGIC);
        _ ← put (fun page => put_u32 page PRIVATE_NEXT_OFFSET head);
        _ ← put (fun page => put_u64 page PRIVATE_TXN_OFFSET txn);
        peek (fun page => private_tag page txn)));
  on_draft (set_private_head page_number).

#[global] Instance DraftStore_PageStore : PageStore DraftStore := {
  target_txn := draft_txn;
  page_limit := draft_limit;
  inspect_page := ds_inspect_page;
  update_page := ds_update_page;
  copy_page := ds_copy_page;
  discard_private := ds_discard_private;
}.

(** ** Claiming pages *)

(** [while page_number != 0] with [remaining] steps left. *)
Fixpoint chain_loop (remaining : nat) (expected page_number : Z) : io DraftStore bool :=
  if page_number =? 0 then mret false
  else
    match remaining with
    | O => lift (Err (Corrupt "draft dirty-page chain is cyclic"))
    | S remaining' =>
        if page_number =? expected then mret true
        else
          txn ← gets draft_txn;
          limit ← gets draft_limit;
          _ ← lift (require_page page_number limit);
          view ← on_pages (page page_number limit);
          data ← lift (owned_by view txn);
          mine ← lift (if data : bool then Ok true else is_private_page view txn);
          _ ← fail_if (negb mine) (Corrupt "dirty page has the wrong transaction");
          tag ← lift (u32_le view OFFSET);
          next ← lift (dirty_next tag page_number limit);
          chain_loop remaining' expected next
    end.

Definition dirty_chain_contains (expected : Z) : io DraftStore bool := fun s =>
  chain_loop (Z.to_nat (private_pages (ds_draft s))) expected (dirty_head (ds_draft s)) s.

Definition existing_dirty_tag (page_number : Z) : io DraftStore (option Z) :=
  txn ← gets draft_txn;
  limit ← gets draft_limit;
  _ ← lift (require_page page_number limit);
  view ← on_pages (page page_number limit);
  owned_data ← lift (owned_by view txn);
  private_stack ← lift (is_private_page view txn);
  tag ← lift (u32_le view OFFSET);
  if negb (owned_data || private_stack) || (tag =? 0) then mret None
  else
    contained ← dirty_chain_contains page_number;
    mret (if contained : bool then Some tag else None).

Definition charge_private : io DraftStore unit :=
  d ← gets ds_draft;
  budget ← gets ds_budget;
  _ ← fail_if (max_private_pages budget <=? private_pages d) (BudgetExceeded "private pages");
  on_draft (set_private_pages (private_pages d + 1)).

Definition claim_page (page_number : Z) (existing : option Z) : io DraftStore unit :=
  d ← gets ds_draft;
  let tag := match existing with
             | Some tag => tag
             | None => if dirty_head d =? 0 then DIRTY_END else dirty_head d
             end in
  _ ← (match existing with None => charge_private | Some _ => mret tt end);
  txn ← gets draft_txn;
  limit ← gets draft_limit;
  _ ← on_pages (page_mut page_number limit (
        _ ← put (fun page => page_zero page 0 PRIVATE_HEADER_SIZE);
        _ ← put (fun page => put_u32 page PRIVATE_MAGIC_OFFSET PRIVATE_MAGIC);
        _ ← put (fun page => put_u64 page PRIVATE_TXN_OFFSET txn);
        put (fun page => put_u32 page OFFSET tag)));
  match existing with
  | None => on_draft (set_dirty_head page_number)
  | Some _ => mret tt
  end.

Definition claim_allocated (page_number : Z) : io DraftStore unit :=
  limit ← gets draft_limit;
  _ ← lift (require_page page_number limit);
  existing ← existing_dirty_tag page_number;
  claim_page page_number existing.

Definition claim_new_tail (page_number : Z) : io DraftStore unit :=
  limit ← gets draft_limit;
  _ ← lift (require_page page_number limit);
  claim_page page_number None.

(** ** Allocation *)

Definition pop_private : io DraftStore Z :=
  page_number ← gets (fun s => private_head (ds_draft s));
  _ ← fail_if (page_number =? 0) (Corrupt "private page stack is empty");
  txn ← gets draft_txn;
  next ← inspect_page page_number (fun page => private_stack_next page txn);
  limit ← gets draft_limit;
  _ ← fail_if ((next =? page_number) || (negb (next =? 0) && ((next <? 2) || (limit <=? next))))
        (Corrupt "private page stack points outside the draft");
  _ ← on_draft (set_private_head next);
  mret page_number.

Definition ensure_tail_capacity : io DraftStore unit :=
  limit ← gets draft_limit;
  required ← lift (ok_or (checked_add u64_max limit 1) PageSpaceExhausted);
  mapped ← gets (fun s => map_len (ds_mapping s));
  if required <=? mapped / PAGE_SIZE then mret tt
  else
    committed ← gets committed_page_count;
    budget ← gets ds_budget;
    let capacity := Z.min (saturating_add u64_max committed (max_growth_pages budget)) MAX_PAGE_COUNT in
    _ ← fail_if (capacity <? required) (BudgetExceeded "file growth pages");
    bytes ← lift (ok_or (checked_mul u64_max capacity PAGE_SIZE) (ArithmeticOverflow "mapped transaction capacity"));
    length ← on_pages len_of_file;
    if bytes <=? length then on_pages (remap bytes) else on_pages (resize bytes).

Definition set_page_count (n : Z) (d : Draft) : Draft :=
  set_meta (with_space n (free_bitmap_root (d_meta d)) (allocator_reserve (d_meta d)) (d_meta d)) d.
Definition set_bitmap_root (root : Z) (d : Draft) : Draft :=
  set_meta (with_space (page_count (d_meta d)) root (allocator_reserve (d_meta d)) (d_meta d)) d.
Definition set_reserve (reserve : list Z) (d : Draft) : Draft :=
  set_meta (with_space (page_count (d_meta d)) (free_bitmap_root (d_meta d)) reserve (d_meta d)) d.

Definition allocate_tail : io DraftStore Z :=
  limit ← gets draft_limit;
  committed ← gets committed_page_count;
  budget ← gets ds_budget;
  growth ← gets (fun s => growth_pages (ds_draft s));
  _ ← fail_if (limit <? committed) (Corrupt "draft page count moved backwards");
  _ ← fail_if (max_growth_pages budget <=? growth) (BudgetExceeded "file growth pages");
  _ ← fail_if (MAX_PAGE_COUNT <=? limit) PageSpaceExhausted;
  _ ← ensure_tail_capacity;
  let page_number := as_u32 limit in
  _ ← on_draft (set_page_count (limit + 1));
  _ ← on_draft (set_growth_pages (growth + 1));
  _ ← claim_new_tail page_number;
  mret page_number.

(** [iter_mut().find(|page| **page != 0)], and the slot set to zero. *)
Fixpoint take_reserve (reserve : list Z) : option (Z * list Z) :=
  match reserve with
  | [] => None
  | page :: rest =>
      if negb (page =? 0) then Some (page, 0 :: rest)
      else '(found, rest') ← take_reserve rest; Some (found, page :: rest')
  end.

(** ** [impl BitmapStore for DraftStore] *)

Definition ds_allocate_bitmap_page : io DraftStore Z :=
  d ← gets ds_draft;
  if negb (private_head d =? 0) then pop_private
  else
    match take_reserve (allocator_reserve (d_meta d)) with
    | Some (page_number, reserve) =>
        _ ← on_draft (set_reserve reserve);
        _ ← claim_allocated page_number;
        mret page_number
    | None => allocate_tail
    end.

Definition ds_allocation_forbidden (s : DraftStore) (page_number : Z) : bool :=
  (page_number <? 2)
  || existsb (Z.eqb page_number) (allocator_reserve (draft_meta s))
  || existsb (Z.eqb page_number) (roots (draft_meta s)).

#[global] Instance DraftStore_BitmapStore : BitmapStore DraftStore := {
  allocate_bitmap_page := ds_allocate_bitmap_page;
  allocation_forbidden := ds_allocation_forbidden;
}.

(** ** Sealing *)

Section Seal.
Context (crc32c_append : Z -> list Z -> Z).
(** What the poll of cancellation answers with [remaining] pages to go. *)
Context (checkpoint : nat -> Result unit).

Fixpoint seal_loop (remaining : nat) (page_number : Z) : io DraftStore unit :=
  if page_number =? 0 then mret tt
  else
    _ ← lift (checkpoint remaining);
    match remaining with
    | O => lift (Err (Corrupt "draft dirty-page chain is cyclic"))
    | S remaining' =>
        txn ← gets draft_txn;
        limit ← gets draft_limit;
        '(next, data_page) ← inspect_page page_number (fun page =>
          tag ← u32_le page OFFSET;
          next ← dirty_next tag page_number limit;
          foreign ← (if has_magic page then born ← born_txn page; Ok (negb (born =? txn)) else Ok false);
          if foreign : bool then Err (Corrupt "dirty page has the wrong transaction")
          else Ok (next, has_magic page));
        _ ← (if data_page : bool then on_pages (page_mut page_number limit (put (seal_mapped crc32c_append))) else mret tt);
        seal_loop remaining' next
    end.

Definition seal_private_pages : io DraftStore unit :=
  d ← gets ds_draft;
  _ ← seal_loop (Z.to_nat (private_pages d)) (dirty_head d);
  on_draft (set_dirty_head 0).
End Seal.
