(* ===== verification/FreeBitmap.v ===== *)
(** * The free-page bitmap

    [free_bitmap.rs] and [free_bitmap/mutation.rs]: a tree of bitmap pages, at
    most four levels, with the free pages of the file as its bits.  Committed
    pages of it are copied before they change; what they leave behind is
    returned as retired.  A [&mut root] that a caller discards on failure is a
    result here.  At the end, the allocator of the draft store, which takes its
    pages from it. *)

From stdpp Require Import base tactics numbers list strings.
From Stdlib Require Import ZArith Lia.
From S2P Require Import Prelude Errors Bytes PageHeader Checksum Contract Machine Mapping Draft Store BitmapPage DraftStore.

#[local] Open Scope string_scope.
#[local] Open Scope list_scope.
#[local] Open Scope Z_scope.

(** ** Reading *)

Section Reading.
Context (path : crc_path).

Definition verify_checksum (page : list Z) : Result unit :=
  ok ← valid path true page;
  if negb ok then Err (Corrupt "free bitmap checksum is invalid") else Ok tt.

Fixpoint children_loop (count : nat) (page : list Z) (index : Z) : Result Z :=
  match count with
  | O => Ok 0
  | S count' =>
      child ← branch_child page index;
      summary ← summary_bit page index;
      if negb (Bool.eqb summary (negb (child =? 0))) then Err (Corrupt "free bitmap summary disagrees with child")
      else rest ← children_loop count' page (index + 1); Ok (b2z (negb (child =? 0)) + rest)
  end.
Definition nonzero_children (page : list Z) : Result Z := children_loop (Z.to_nat BRANCH_CHILDREN) page 0.

Definition validate_body (page : list Z) (header : BitmapHeader) : Result unit :=
  if bh_level header =? 0 then
    bad ← (if negb (reserved_zero page (bh_level header)) then Ok true
           else first ← first_leaf_word page;
                match first with
                | None => Ok true
                | Some _ => words ← nonzero_leaf_words page; Ok (negb (words =? bh_item_count header))
                end);
    if bad : bool then Err (Corrupt "free bitmap leaf is invalid") else Ok tt
  else
    bad ← (if negb (reserved_zero page (bh_level header)) then Ok true
           else first ← first_summary page 0;
                match first with
                | None => Ok true
                | Some _ => children ← nonzero_children page; Ok (negb (children =? bh_item_count header))
                end);
    if bad : bool then Err (Corrupt "free bitmap branch is invalid") else Ok tt.

Definition parse (page : list Z) (selected_txn : Z) (expected_level : option Z) (verify_committed : bool) : Result BitmapHeader :=
  header ← map_err (fun _ => Corrupt "free bitmap header is invalid")
             (inspect_header page selected_txn FreeK expected_level);
  if verify_committed then
    _ ← verify_checksum page;
    _ ← validate_body page header;
    Ok header
  else Ok header.
End Reading.

Definition free_required_level (limit : Z) : Result Z :=
  if negb ((2 <=? limit) && (limit <=? 2 ^ 32)) then Err (InvalidArgument "free bitmap limit is invalid")
  else required_level limit.

Definition require_bit (limit bit : Z) : Result unit :=
  _ ← free_required_level limit;
  if (bit <? 2) || (limit <=? bit) then Err (InvalidArgument "free page is outside the bitmap limit") else Ok tt.

(** ** Mutation *)

Record Frame := mkFrame { fr_page_number : Z; fr_child_index : Z; fr_level : Z }.
Record Cursor := mkCursor { cu_page_number : Z; cu_header : BitmapHeader }.

Definition free_set_branch_child (header : BitmapHeader) (index child : Z) : io (list Z) Z :=
  replace_branch_child header index child (negb (child =? 0)).

Section Mutation.
Context (path : crc_path).
Context {S : Type} `{BitmapStore S}.

Definition replace_child (page_number : Z) (header : BitmapHeader) (index child : Z) : io S unit :=
  _ ← update_page page_number (free_set_branch_child header index child);
  mret tt.

Definition touch_cursor (page_number expected_level : Z) (retired : RetiredPages) : io S (Cursor * RetiredPages) :=
  txn ← gets target_txn;
  '(header, private) ← inspect_page page_number (fun page =>
     born ← born_txn page;
     header ← parse path page txn (Some expected_level) (negb (born =? txn));
     Ok (header, born =? txn));
  if private : bool then mret (mkCursor page_number header, retired)
  else
    private_page ← allocate_bitmap_page;
    _ ← copy_for_cow page_number private_page;
    retired ← lift (retired_push retired page_number);
    mret (mkCursor private_page header, retired).

(** [while level < required]: [levels] is the distance. *)
Fixpoint grow_loop (levels : nat) (root level : Z) : io S Z :=
  match levels with
  | O => mret root
  | Datatypes.S levels' =>
      parent ← allocate_bitmap_page;
      txn ← gets target_txn;
      let next_level := level + 1 in
      _ ← update_page parent (
            _ ← bitmap_initialize txn next_level FreeK;
            _ ← free_set_branch_child (mkBitmapHeader next_level 0) 0 root;
            mret tt);
      grow_loop levels' parent next_level
  end.

Definition grow_root (root required : Z) : io S Z :=
  txn ← gets target_txn;
  level_ ← inspect_page root (fun page => header ← parse path page txn None false; Ok (bh_level header));
  _ ← fail_if (required <? level_) (Corrupt "free bitmap root level is too high");
  grow_loop (Z.to_nat (required - level_)) root level_.

Fixpoint new_subtree (level : nat) (bit : Z) : io S Z :=
  match level with
  | O =>
      page_number ← allocate_bitmap_page;
      txn ← gets target_txn;
      let word := leaf_word_index bit in
      _ ← update_page page_number (
            _ ← bitmap_initialize txn 0 FreeK;
            _ ← set_leaf_word word (bit_mask bit);
            put (fun page => put_u16 page ITEM_COUNT 1));
      mret page_number
  | Datatypes.S below =>
      child ← new_subtree below bit;
      page_number ← allocate_bitmap_page;
      txn ← gets target_txn;
      index ← lift (child_index bit (Z.of_nat level));
      _ ← update_page page_number (
            _ ← bitmap_initialize txn (Z.of_nat level) FreeK;
            _ ← free_set_branch_child (mkBitmapHeader (Z.of_nat level) 0) index child;
            mret tt);
      mret page_number
  end.

Definition descend_for_insert (cursor : Cursor) (bit : Z) (retired : RetiredPages) : io S (option Cursor * RetiredPages) :=
  let header := cu_header cursor in
  index ← lift (child_index bit (bh_level header));
  limit ← gets page_limit;
  child ← inspect_page (cu_page_number cursor) (fun page => checked_branch_child page header index limit);
  if child =? 0 then
    child ← new_subtree (Z.to_nat (bh_level header - 1)) bit;
    _ ← replace_child (cu_page_number cursor) header index child;
    mret (None, retired)
  else
    '(next, retired) ← touch_cursor child (bh_level header - 1) retired;
    _ ← (if negb (cu_page_number next =? child)
         then replace_child (cu_page_number cursor) header index (cu_page_number next) else mret tt);
    mret (Some next, retired).

Definition mark_leaf_free (cursor : Cursor) (bit : Z) : io S unit :=
  let word_index := leaf_word_index bit in
  let mask := bit_mask bit in
  update_page (cu_page_number cursor) (
    word ← peek (fun page => leaf_word page word_index);
    _ ← fail_if (negb (Z.land word mask =? 0)) (Corrupt "page is already free");
    _ ← set_leaf_word word_index (Z.lor word mask);
    put (fun page => put_u16 page ITEM_COUNT (as_u16 (bh_item_count (cu_header cursor) + b2z (word =? 0))))).

(** [while cursor.header.level > 0]: each step is one level lower, as
    [touch_cursor] checks; [level] is the level of [cursor]. *)
Fixpoint insert_free (level : nat) (cursor : Cursor) (bit : Z) (retired : RetiredPages) : io S RetiredPages :=
  match level with
  | O => _ ← mark_leaf_free cursor bit; mret retired
  | Datatypes.S below =>
      '(next, retired) ← descend_for_insert cursor bit retired;
      match next with
      | None => mret retired
      | Some next => insert_free below next bit retired
      end
  end.

Definition set_free (root limit bit : Z) (retired : RetiredPages) : io S (Z * RetiredPages) :=
  _ ← lift (require_bit limit bit);
  required ← lift (free_required_level limit);
  if root =? 0 then root ← new_subtree (Z.to_nat required) bit; mret (root, retired)
  else
    root ← grow_root root required;
    '(cursor, retired) ← touch_cursor root required retired;
    retired ← insert_free (Z.to_nat (bh_level (cu_header cursor))) cursor bit retired;
    mret (cu_page_number cursor, retired).

Definition add_child_base (base level index : Z) : Result Z :=
  below ← usub level 1;
  c ← coverage below;
  offset ← ok_or (checked_mul u64_max c index) (Corrupt "free bitmap coverage overflow");
  ok_or (checked_add u64_max base offset) (Corrupt "free bitmap coverage overflow").

(** [path] holds the frames, the deepest first. *)
Fixpoint descend_lowest (level : nat) (cursor : Cursor) (frames : list Frame) (base : Z) (retired : RetiredPages)
    : io S (Cursor * list Frame * Z * RetiredPages) :=
  match level with
  | O => mret (cursor, frames, base, retired)
  | Datatypes.S below =>
      let header := cu_header cursor in
      index ← inspect_page (cu_page_number cursor) (fun page =>
        first ← first_summary page 0; ok_or first (Corrupt "free summary is empty"));
      let frames := mkFrame (cu_page_number cursor) index (bh_level header) :: frames in
      base ← lift (add_child_base base (bh_level header) index);
      limit ← gets page_limit;
      child ← inspect_page (cu_page_number cursor) (fun page => checked_branch_child page header index limit);
      _ ← fail_if (child =? 0) (Corrupt "free summary names an absent child");
      '(next, retired) ← touch_cursor child (bh_level header - 1) retired;
      _ ← (if negb (cu_page_number next =? child)
           then replace_child (cu_page_number cursor) header index (cu_page_number next) else mret tt);
      descend_lowest below next frames base retired
  end.

Definition validate_selected (leaf_page : Z) (frames : list Frame) (selected limit : Z) : io S Z :=
  _ ← fail_if ((selected <? 2) || (limit <=? selected) || (2 ^ 32 <=? selected))
        (Corrupt "free bit is outside allocatable bounds");
  forbidden ← gets (fun s => allocation_forbidden s selected);
  _ ← fail_if ((selected =? leaf_page) || existsb (fun frame => fr_page_number frame =? selected) frames || forbidden)
        (Corrupt "free bit names protected allocator state");
  mret selected.

Definition select_leaf (leaf : Cursor) (frames : list Frame) (base limit : Z) : io S (Z * Z * Z * Z) :=
  '(word_index, word) ← inspect_page (cu_page_number leaf) (fun page =>
     first ← first_leaf_word page; ok_or first (Corrupt "free leaf is empty"));
  let bit_in_word := trailing_zeros word in
  selected ← lift (ok_or (checked_add u64_max base (word_index * 64 + bit_in_word)) (Corrupt "free page number overflow"));
  selected ← validate_selected (cu_page_number leaf) frames selected limit;
  mret (selected, word_index, word, bit_in_word).

Definition clear_leaf_bit (leaf : Cursor) (word_index word bit_in_word : Z) : io S bool :=
  nonempty ← update_page (cu_page_number leaf) (
    let next := Z.ldiff word (Z.shiftl 1 bit_in_word) in
    _ ← set_leaf_word word_index next;
    count ← lift (ok_or (checked_sub (bh_item_count (cu_header leaf)) (b2z (next =? 0)))
                    (Corrupt "free bitmap leaf count underflows"));
    _ ← put (fun page => put_u16 page ITEM_COUNT (as_u16 count));
    mret (negb (count =? 0)));
  _ ← (if negb nonempty then discard_private (cu_page_number leaf) else mret tt);
  mret nonempty.

Definition prune_parent (frame : Frame) : io S bool :=
  txn ← gets target_txn;
  nonempty ← update_page (fr_page_number frame) (
    header ← peek (fun page => parse path page txn (Some (fr_level frame)) false);
    count ← free_set_branch_child header (fr_child_index frame) 0;
    mret (negb (count =? 0)));
  _ ← (if negb nonempty then discard_private (fr_page_number frame) else mret tt);
  mret nonempty.

Fixpoint prune_empty_path (root : Z) (frames : list Frame) : io S Z :=
  match frames with
  | [] => mret 0
  | frame :: rest =>
      kept ← prune_parent frame;
      if kept : bool then mret root else prune_empty_path root rest
  end.

Definition take_from_nonempty (root limit : Z) (retired : RetiredPages) : io S (Z * Z * RetiredPages) :=
  required ← lift (free_required_level limit);
  '(cursor, retired) ← touch_cursor root required retired;
  let root := cu_page_number cursor in
  '(leaf, frames, base, retired) ← descend_lowest (Z.to_nat (bh_level (cu_header cursor))) cursor [] 0 retired;
  '(selected, word_index, word, bit_in_word) ← select_leaf leaf frames base limit;
  kept ← clear_leaf_bit leaf word_index word bit_in_word;
  if kept : bool then mret (selected, root, retired)
  else root ← prune_empty_path root frames; mret (selected, root, retired).

Definition take_lowest (root limit : Z) (retired : RetiredPages) : io S (option Z * Z * RetiredPages) :=
  if root =? 0 then mret (None, root, retired)
  else
    '(selected, root, retired) ← take_from_nonempty root limit retired;
    mret (Some selected, root, retired).

(** The loop ends when an iteration allocates no page; every other iteration
    raises the root, at most to [MAX_LEVEL]. *)
Fixpoint ensure_loop (rounds : nat) (root limit : Z) : io S Z :=
  match rounds with
  | O => lift (Panic "free bitmap root grows without end")
  | Datatypes.S rounds' =>
      before ← gets page_limit;
      required ← lift (free_required_level (Z.max limit before));
      root ← grow_root root required;
      after ← gets page_limit;
      if after =? before then mret root else ensure_loop rounds' root limit
  end.
Definition ensure_level (root limit : Z) : io S Z :=
  if root =? 0 then mret root else ensure_loop (Z.to_nat (MAX_LEVEL + 2)) root limit.
End Mutation.

(** ** Allocation through the free bitmap

    [DraftStore::allocate] of [draft_store/storage.rs] and [replenish_reserve]
    of [draft_store.rs]: where the draft store and the free bitmap meet. *)

Section Allocator.
Context (path : crc_path).

(** [self.draft.allocator_retired.extend(..)]. *)
Definition extend_retired (pages : RetiredPages) : io DraftStore unit :=
  zoom (fun s => allocator_retired (ds_draft s)) (fun r s => set_ds_draft (set_retired r (ds_draft s)) s)
    (retired_extend pages).

Definition ds_allocate : io DraftStore Z :=
  d ← gets ds_draft;
  if negb (private_head d =? 0) then pop_private
  else
    limit ← gets committed_page_count;
    '(taken, root, retired) ← take_lowest path (free_bitmap_root (d_meta d)) limit retired_new;
    match taken with
    | Some page_number =>
        _ ← on_draft (set_bitmap_root root);
        _ ← extend_retired retired;
        _ ← claim_allocated page_number;
        mret page_number
    | None =>
        _ ← on_draft (set_bitmap_root root);
        allocate_tail
    end.

#[global] Instance DraftStore_Store : Store DraftStore := { allocate := ds_allocate }.

(** One empty slot of the reserve. *)
Definition reserve_page : io DraftStore Z :=
  d ← gets ds_draft;
  if negb (private_head d =? 0) then pop_private
  else
    page_number ← allocate_tail;
    _ ← update_page page_number (put (fun _ => Ok (page_fill 0)));
    mret page_number.

(** [for index in 0..allocator_reserve.len()]. *)
Fixpoint replenish_loop (count : nat) (index : nat) : io DraftStore unit :=
  match count with
  | O => mret tt
  | S count' =>
      meta ← gets draft_meta;
      _ ← (if negb (nth index (allocator_reserve meta) 0 =? 0) then mret tt
           else
             page_number ← reserve_page;
             on_draft (fun d => set_reserve (<[index := page_number]> (allocator_reserve (d_meta d))) d));
      replenish_loop count' (index + 1)
  end.
Definition replenish_reserve : io DraftStore unit := fun s =>
  replenish_loop (length (allocator_reserve (draft_meta s))) 0 s.

(** The part of [free_one] that hands a page to the bitmap; what the bitmap
    retires waits in [allocator_retired]. *)
Definition set_page_free (page_number : Z) : io DraftStore unit :=
  meta ← gets draft_meta;
  '(root, retired) ← set_free path (free_bitmap_root meta) (page_count meta) page_number retired_new;
  _ ← on_draft (set_bitmap_root root);
  extend_retired retired.
End Allocator.
