(* ===== verification/DraftPages.v ===== *)
(** * Pages of a draft store, one call at a time

    What the marks of a page say in terms of its fields, and what a call of the
    mapping does when the map is live, writable and covers the page. *)

From stdpp Require Import base tactics numbers list strings gmap.
From Stdlib Require Import ZArith Lia.
From S2P Require Import Prelude Errors Bytes PageHeader SlottedPage SlottedFacts SlottedTheorems Checksum Contract Machine Mapping Draft Store DraftStore.
From S2P Require Import ContractFacts TreeStore.
From S2P Require Import BitmapPage FreeBitmap.

#[local] Open Scope string_scope.
#[local] Open Scope list_scope.
#[local] Open Scope Z_scope.
#[local] Opaque crc32c_pointer_table.

(** ** The marks of a page *)

Definition word (p : list Z) : Z := u32_at p 0.
Definition birth (p : list Z) : Z := u64_at p 8.
Definition tag (p : list Z) : Z := u32_at p OFFSET.

Definition data_mark (txn : Z) (p : list Z) : Prop := word p = MAGIC_WORD /\ birth p = txn.
Definition stack_mark (txn : Z) (p : list Z) : Prop := word p = PRIVATE_MAGIC /\ birth p = txn.

Lemma magic_differs : MAGIC_WORD <> PRIVATE_MAGIC.
Proof. by vm_compute. Qed.

Section Marks.
Context (p : list Z) (txn : Z) (Hp : page_ok p).

Lemma tag_read {E} : @u32_le E p OFFSET = Ok (tag p).
Proof using Hp. apply u32_le_page; [apply Hp | done..]. Qed.

Lemma owned_by_spec {E} : @owned_by E p txn = Ok (bool_decide (data_mark txn p)).
Proof using Hp.
  unfold owned_by, has_magic, born_txn, data_mark. rewrite u32_source_page by (apply Hp || done).
  rewrite u64_le_page by (apply Hp || done). change (u32_at p MAGIC) with (word p). change (u64_at p BORN_TXN) with (birth p).
  destruct (decide (word p = MAGIC_WORD)) as [Hw | Hw].
  - rewrite bool_decide_true by congruence. cbn. f_equal. destruct (Z.eqb_spec (birth p) txn); case_bool_decide; tauto.
  - rewrite bool_decide_false by congruence. rewrite bool_decide_false by tauto. done.
Qed.

Lemma private_page_spec : is_private_page p txn = Ok (bool_decide (stack_mark txn p)).
Proof using Hp.
  unfold is_private_page, stack_mark. rewrite u32_le_page by (apply Hp || done). rewrite u64_le_page by (apply Hp || done).
  change (u32_at p PRIVATE_MAGIC_OFFSET) with (word p). change (u64_at p PRIVATE_TXN_OFFSET) with (birth p). cbn.
  destruct (Z.eqb_spec (word p) PRIVATE_MAGIC); cbn; [destruct (Z.eqb_spec (birth p) txn) |]; f_equal; case_bool_decide; tauto.
Qed.

Lemma private_tag_spec : private_tag p txn =
  if bool_decide ((data_mark txn p \/ stack_mark txn p) /\ tag p <> 0) then Ok (tag p) else Err (Corrupt "draft update page is not private").
Proof using Hp.
  unfold private_tag. rewrite tag_read, owned_by_spec. cbn [mbind outcome_bind]. rewrite private_page_spec.
  destruct (decide (data_mark txn p)); [rewrite (bool_decide_true (data_mark _ _)) by done | rewrite (bool_decide_false (data_mark _ _)) by done];
    cbn [mbind outcome_bind]; destruct (Z.eqb_spec (tag p) 0); cbn [andb negb]; rewrite ?andb_true_r, ?andb_false_r;
    repeat case_bool_decide; tauto.
Qed.

Lemma stack_next_spec : stack_mark txn p -> private_stack_next p txn = Ok (u32_at p PRIVATE_NEXT_OFFSET).
Proof using Hp.
  intros Hs. unfold private_stack_next. rewrite private_page_spec, bool_decide_true by done. apply u32_le_page; [apply Hp | done..].
Qed.

Lemma discardable_spec : data_mark txn p -> tag p <> 0 -> discardable txn p = Ok tt.
Proof using Hp.
  intros [_ Hb] Ht. unfold discardable, born_txn. rewrite u64_le_page by (apply Hp || done).
  change (u64_at p BORN_TXN) with (birth p). cbn [mbind outcome_bind]. rewrite Hb, Z.eqb_refl. cbn [negb].
  rewrite tag_read. cbn [mbind outcome_bind]. by rewrite (proj2 (Z.eqb_neq _ _) Ht).
Qed.

Lemma tag_range : 0 <= tag p <= u32_max.
Proof using Hp.
  destruct Hp as [Hz Hb]. pose proof (le_val_range (sub p OFFSET 4) (bytes_ok_sub _ _ _ Hb)) as Hr.
  rewrite zlen_sub in Hr by (unfold OFFSET, PAGE_SIZE in *; lia). unfold tag, u32_at, u32_max. lia.
Qed.
End Marks.

(** ** Writing fields *)

Section Fields.
Context (p p' : list Z) (Hp : page_ok p).

Lemma put_u32_some x a v : page_ok x -> 0 <= a -> a + 4 <= PAGE_SIZE -> exists x', put_u32 x a v = Ok x' /\ wrote x a (le_bytes 4 v) x'.
Proof using Type.
  intros Hx Ha Hl. eexists. split; [by apply put_u32_ok |]. eapply put_u32_wrote; [done | done | done | by apply put_u32_ok].
Qed.

(** Rewriting the tag leaves the rest of the page. *)
Lemma put_tag v : 0 <= v <= u32_max -> put_u32 p OFFSET v = Ok p' ->
  page_ok p' /\ tag p' = v /\ word p' = word p /\ birth p' = birth p.
Proof using Hp.
  intros Hv E. pose proof (put_u32_wrote p OFFSET v p' Hp ltac:(done) ltac:(done) E) as W.
  split; [by eapply wrote_ok |]. split; [apply (wrote_field _ _ 4 _ _ W); unfold u32_max in *; (done || lia) |].
  split; [unfold word, u32_at | unfold birth, u64_at]; (rewrite (wrote_frame _ _ _ _ _ _ W); done || (left; done)).
Qed.

(** Three fields of a page pushed on the stack. *)
Lemma push_marks txn head : 0 <= head <= u32_max -> 0 <= txn <= u64_max -> tag p <> 0 -> exists q,
  (_ ← put (fun page => put_u32 page PRIVATE_MAGIC_OFFSET PRIVATE_MAGIC);
   _ ← put (fun page => put_u32 page PRIVATE_NEXT_OFFSET head);
   _ ← put (fun page => put_u64 page PRIVATE_TXN_OFFSET txn);
   peek (fun page => private_tag page txn)) p = (q, Ok (tag p))
  /\ page_ok q /\ stack_mark txn q /\ tag q = tag p /\ u32_at q PRIVATE_NEXT_OFFSET = head.
Proof using Hp.
  intros Hh Htxn Ht.
  destruct (put_u32_some p PRIVATE_MAGIC_OFFSET PRIVATE_MAGIC Hp ltac:(done) ltac:(done)) as (p1 & E1 & W1). assert (H1 : page_ok p1) by eauto with v4.
  destruct (put_u32_some p1 PRIVATE_NEXT_OFFSET head H1 ltac:(done) ltac:(done)) as (p2 & E2 & W2). assert (H2 : page_ok p2) by eauto with v4.
  destruct (put_u64_wrote p2 PRIVATE_TXN_OFFSET txn H2 ltac:(done) ltac:(done)) as (p3 & E3 & W3).
  assert (H3 : page_ok p3) by eauto with v4.
  assert (Hw : word p3 = PRIVATE_MAGIC).
  { unfold word, u32_at. rewrite (wrote_frame _ _ _ _ _ _ W3), (wrote_frame _ _ _ _ _ _ W2); (done || (left; done) || idtac).
    by apply (wrote_field _ _ 4 _ _ W1). }
  assert (Hb : birth p3 = txn) by (apply (wrote_field _ _ 8 _ _ W3); unfold u64_max in *; (done || lia)).
  assert (Htag : tag p3 = tag p).
  { unfold tag, u32_at. rewrite (wrote_frame _ _ _ _ _ _ W3), (wrote_frame _ _ _ _ _ _ W2), (wrote_frame _ _ _ _ _ _ W1); done || (right; done). }
  exists p3. split.
  - unfold put, peek, mbind, io_bind. rewrite E1, E2, E3, private_tag_spec by done.
    rewrite bool_decide_true; [by rewrite Htag | split; [by right | by rewrite Htag]].
  - repeat split; try done; try apply H3. unfold u32_at. rewrite (wrote_frame _ _ _ _ _ _ W3); (done || (left; done) || idtac).
    apply (wrote_field _ _ 4 _ _ W2); unfold u32_max in *; (done || lia).
Qed.

(** The header of a page just claimed. *)
Lemma claim_marks txn v : 0 < v <= u32_max -> 0 <= txn <= u64_max -> exists q,
  (_ ← put (fun page => page_zero page 0 PRIVATE_HEADER_SIZE);
   _ ← put (fun page => put_u32 page PRIVATE_MAGIC_OFFSET PRIVATE_MAGIC);
   _ ← put (fun page => put_u64 page PRIVATE_TXN_OFFSET txn);
   put (fun page => put_u32 page OFFSET v)) p = (q, Ok tt)
  /\ page_ok q /\ stack_mark txn q /\ tag q = v.
Proof using Hp.
  intros Hv Htxn.
  destruct (page_zero_wrote p 0 PRIVATE_HEADER_SIZE Hp ltac:(done) ltac:(done) ltac:(done)) as (p1 & E1 & W1 & _).
  assert (H1 : page_ok p1) by eauto with v4.
  destruct (put_u32_some p1 PRIVATE_MAGIC_OFFSET PRIVATE_MAGIC H1 ltac:(done) ltac:(done)) as (p2 & E2 & W2). assert (H2 : page_ok p2) by eauto with v4.
  destruct (put_u64_wrote p2 PRIVATE_TXN_OFFSET txn H2 ltac:(done) ltac:(done)) as (p3 & E3 & W3).
  assert (H3 : page_ok p3) by eauto with v4.
  destruct (put_u32_some p3 OFFSET v H3 ltac:(done) ltac:(done)) as (p4 & E4 & W4).
  exists p4. split; [unfold put, mbind, io_bind; by rewrite E1, E2, E3, E4 |]. split; [eauto with v4 |]. split; [split |].
  - unfold word, u32_at. rewrite (wrote_frame _ _ _ _ _ _ W4), (wrote_frame _ _ _ _ _ _ W3); (done || (left; done) || idtac).
    by apply (wrote_field _ _ 4 _ _ W2).
  - unfold birth, u64_at. rewrite (wrote_frame _ _ _ _ _ _ W4); (done || (left; done) || idtac).
    apply (wrote_field _ _ 8 _ _ W3); unfold u64_max in *; (done || lia).
  - apply (wrote_field _ _ 4 _ _ W4); unfold u32_max in *; (done || lia).
Qed.
End Fields.

(** ** A mapping that works *)

(** The file is mapped for writing, [pages] of it at least, and the system's
    calls succeed. *)
Record attached (m : Mapping) (pages : Z) : Prop := {
  at_file : map_file m = true;
  at_live : map_live m = true;
  at_access : map_access m = ReadWrite;
  at_readable : map_unreadable m = None;
  at_answers : answers (map_os m) = [];
  at_len : pages * PAGE_SIZE <= map_len m <= usize_max;
  at_pages n : page_ok (read_page (map_os m) n);
}.

Definition stored_at (n : Z) (p : list Z) (m : Mapping) : Mapping := set_os (write_page n p (map_os m)) m.

Lemma read_write w n p k : read_page (write_page n p w) k = if n =? k then p else read_page w k.
Proof.
  unfold read_page, write_page. cbn. destruct (Z.eqb_spec n k) as [-> | Hne]; [by rewrite lookup_insert_eq | by rewrite lookup_insert_ne].
Qed.

Lemma attached_store m pages n p : attached m pages -> page_ok p -> attached (stored_at n p m) pages.
Proof. intros [A B C D E F G] Hp. split; try done. intros k. cbn [stored_at set_os map_os]. rewrite read_write. by destruct (n =? k). Qed.

Section Calls.
Context (m : Mapping) (limit : Z) (Hm : attached m limit).

Lemma page_offset_ok n : 0 <= n < limit -> page_offset n limit (map_len m) = Ok (n * PAGE_SIZE).
Proof using Hm.
  intros Hn. pose proof (at_len _ _ Hm). unfold page_offset. rewrite (proj2 (Z.leb_gt _ _)) by lia.
  assert (n * PAGE_SIZE + PAGE_SIZE <= limit * PAGE_SIZE) by (unfold PAGE_SIZE; lia).
  unfold checked_mul. rewrite (proj2 (Z.leb_le _ _)) by (unfold PAGE_SIZE in *; lia). cbn [ok_or mbind outcome_bind].
  unfold checked_subrange, checked_add. rewrite !(proj2 (Z.leb_le _ _)) by lia. done.
Qed.

Lemma page_run n : 0 <= n < limit -> page n limit m = (m, Ok (read_page (map_os m) n)).
Proof using Hm.
  intros Hn. unfold page, mbind, io_bind, gets. rewrite (at_readable _ _ Hm). unfold fail_if, lift. rewrite page_offset_ok by done.
  unfold raw, mbind, io_bind, gets, lift. by rewrite (at_live _ _ Hm).
Qed.

Lemma page_mut_after_run {T A} n (look : list Z -> Result T) (edit : T -> io (list Z) A) t new r : 0 <= n < limit ->
  look (read_page (map_os m) n) = Ok t -> edit t (read_page (map_os m) n) = (new, r) ->
  page_mut_after n limit look edit m = (stored_at n new m, r).
Proof using Hm.
  intros Hn Hl He. unfold page_mut_after, mbind, io_bind, require_write, mbind, io_bind, gets, lift.
  rewrite (at_access _ _ Hm). rewrite decide_True by done. rewrite page_offset_ok by done.
  unfold raw, mbind, io_bind, gets, lift. rewrite (at_live _ _ Hm), Hl, He. done.
Qed.

Lemma page_pair_run {T A} n k (look : list Z -> Result T) (copy : T -> list Z -> io (list Z) A) t new r : n <> k ->
  0 <= n < limit -> 0 <= k < limit -> look (read_page (map_os m) k) = Ok t ->
  copy t (read_page (map_os m) n) (read_page (map_os m) k) = (new, r) ->
  page_pair n k limit look copy m = (stored_at k new m, r).
Proof using Hm.
  intros Hne Hn Hk Hl He. unfold page_pair, mbind, io_bind, require_write, mbind, io_bind, gets, lift.
  rewrite (at_access _ _ Hm). rewrite decide_True by done. unfold fail_if, lift. rewrite (proj2 (Z.eqb_neq _ _) Hne).
  rewrite !page_offset_ok by done. unfold raw, mbind, io_bind, gets, lift. rewrite (at_live _ _ Hm), Hl, He. done.
Qed.
End Calls.

(** ** The draft store keeps the promises of a store

    The instance of [StoreLaws] for [DraftStore].  The pages a transaction can
    still have are those on its private stack, then the tail of the file: the
    bitmap of free pages is empty ([free_bitmap_root = 0], a database that has
    never freed a page), the budget leaves room for [tail] new pages, and the
    system's calls succeed. *)

#[local] Opaque crc32c_pointer_table.

Definition disk (s : DraftStore) (n : Z) : list Z := read_page (map_os (ds_mapping s)) n.

(** ** The private stack *)

Section Stack.
Context (rd : Z -> list Z) (txn limit : Z).

(** [pages] are linked from [head] through the headers of stacked pages. *)
Fixpoint linked (head : Z) (pages : list Z) : Prop :=
  match pages with
  | [] => head = 0
  | n :: rest => head = n /\ 2 <= n < limit /\ stack_mark txn (rd n) /\ tag (rd n) <> 0
                 /\ linked (u32_at (rd n) PRIVATE_NEXT_OFFSET) rest
  end.

Lemma linked_bounds pages : forall head, linked head pages -> Forall (fun n => 2 <= n < limit) pages.
Proof using Type. induction pages as [|n pages IH]; intros head Hl; [done |]. destruct Hl as (_ & Hn & _ & _ & Hl). constructor; eauto. Qed.

Lemma linked_head pages head : linked head pages -> head = default 0 (list.head pages).
Proof using Type. by destruct pages as [|n pages]; [| intros [-> _]]. Qed.
End Stack.

Lemma linked_ext rd rd' txn limit limit' pages : forall head, linked rd txn limit head pages -> limit <= limit' ->
  Forall (fun n => rd' n = rd n) pages -> linked rd' txn limit' head pages.
Proof.
  induction pages as [|n pages IH]; intros head Hl Hle Hf; [done |]. apply Forall_cons in Hf as [Hn Hf].
  destruct Hl as (-> & Hb & Hm & Ht & Hl). cbn. rewrite Hn. repeat split; try apply Hm; try done; try lia. by apply IH.
Qed.

(** ** What the store keeps *)

Record keeping (stack : list Z) (tail : nat) (s : DraftStore) (h : Pages) : Prop := {
  kp_attached : attached (ds_mapping s) (draft_limit s);
  kp_txn : 0 < draft_txn s <= u64_max;
  kp_dirty : 0 <= dirty_head (ds_draft s) <= u32_max;
  kp_bitmap : free_bitmap_root (draft_meta s) = 0;
  kp_page n p : h !! n = Some p -> 2 <= n < draft_limit s /\ disk s n = p /\ (data_mark (draft_txn s) p -> tag p <> 0);
  kp_stack : linked (disk s) (draft_txn s) (draft_limit s) (private_head (ds_draft s)) stack;
  kp_nodup : NoDup stack;
  kp_apart : Forall (fun n => h !! n = None) stack;
  kp_committed : committed_page_count s <= draft_limit s /\ 2 <= draft_limit s;
  kp_growth : growth_pages (ds_draft s) + Z.of_nat tail <= max_growth_pages (ds_budget s);
  kp_private : private_pages (ds_draft s) + Z.of_nat tail <= max_private_pages (ds_budget s);
  kp_space : draft_limit s + Z.of_nat tail <= Z.min (saturating_add u64_max (committed_page_count s) (max_growth_pages (ds_budget s))) MAX_PAGE_COUNT;
}.

Definition draft_serves (s : DraftStore) (h : Pages) (k : nat) : Prop :=
  exists stack tail, keeping stack tail s h /\ (k <= length stack + tail)%nat.
Definition draft_writable (txn : Z) (p : list Z) : Prop := (data_mark txn p \/ stack_mark txn p) /\ tag p <> 0.

Definition on_disk (n : Z) (p : list Z) (s : DraftStore) : DraftStore := set_ds_mapping (stored_at n p (ds_mapping s)) s.

Lemma disk_write s n p k : disk (on_disk n p s) k = if n =? k then p else disk s k.
Proof. apply read_write. Qed.

Section Keeping.
Context (stack : list Z) (tail : nat) (s : DraftStore) (h : Pages) (K : keeping stack tail s h).
Notation txn := (draft_txn s).
Notation limit := (draft_limit s).

Lemma disk_ok n : page_ok (disk s n).
Proof using K. apply (at_pages _ _ (kp_attached _ _ _ _ K)). Qed.

Lemma kept_page n p : h !! n = Some p -> page_ok p.
Proof using K. intros Hn. destruct (kp_page _ _ _ _ K n p Hn) as (_ & <- & _). apply disk_ok. Qed.

Lemma limit_space : limit <= MAX_PAGE_COUNT.
Proof using K. pose proof (kp_space _ _ _ _ K). lia. Qed.

Lemma stack_apart n p : h !! n = Some p -> Forall (fun k => n <> k) stack.
Proof using K.
  intros Hn. eapply Forall_impl; [exact (kp_apart _ _ _ _ K) |]. intros k Hk ->. congruence.
Qed.

Lemma require_page_ok n : 2 <= n < limit -> require_page n limit = Ok tt.
Proof using Type. intros Hn. unfold require_page. by rewrite (proj2 (Z.ltb_ge _ _)), (proj2 (Z.leb_gt _ _)) by lia. Qed.

(** A page of the client's rewritten. *)
Lemma keep_write n p p' : h !! n = Some p -> page_ok p' -> (data_mark txn p' -> tag p' <> 0) ->
  keeping stack tail (on_disk n p' s) (<[n := p']> h).
Proof using K.
  intros Hn Hp' Ht. pose proof (stack_apart n p Hn) as Hap. destruct K as [A B C D P L N Q R S T U]. split; try done.
  - by apply attached_store.
  - intros k q. rewrite disk_write. destruct (Z.eqb_spec n k) as [-> | Hne].
    + rewrite lookup_insert_eq. intros [= <-]. destruct (P k p Hn) as (Hb & _). by split.
    + rewrite lookup_insert_ne by done. apply P.
  - eapply linked_ext; [exact L | done |]. eapply Forall_impl; [exact Hap |]. intros k Hk. rewrite disk_write. by rewrite (proj2 (Z.eqb_neq _ _)).
  - apply Forall_forall. intros k Hk. rewrite Forall_forall in Q, Hap. rewrite lookup_insert_ne by (by apply Hap). by apply Q.
Qed.

Lemma inspect_run n p A (f : list Z -> Result A) : h !! n = Some p -> ds_inspect_page A n f s = (s, f p).
Proof using K.
  intros Hn. destruct (kp_page _ _ _ _ K n p Hn) as (Hb & Hp & _).
  unfold ds_inspect_page, mbind, io_bind, gets, lift. rewrite require_page_ok by done.
  unfold on_pages, zoom. rewrite (page_run _ _ (kp_attached _ _ _ _ K)) by lia.
  change (read_page (map_os (ds_mapping s)) n) with (disk s n). rewrite Hp. by destruct s.
Qed.

Lemma private_tag_ok p : page_ok p -> draft_writable txn p -> private_tag p txn = Ok (tag p).
Proof using Type. intros Hp Hw. rewrite private_tag_spec by done. by rewrite bool_decide_true. Qed.

(** What the store does to a page its client has written: the tag goes back. *)
Lemma tagged_write p q A (a : A) q' (f : io (list Z) A) : page_ok p -> tag q <> 0 -> page_ok q -> f p = (q', Ok a) -> page_ok q' ->
  data_mark txn q' -> exists q'', (result ← f; _ ← put (fun page => put_u32 page OFFSET (tag q)); mret result) p = (q'', Ok a)
    /\ retagged q' q'' /\ page_ok q'' /\ data_mark txn q'' /\ tag q'' <> 0.
Proof using Type.
  intros Hp Ht Hq Hf Hq' [Hw Hb]. pose proof (put_u32_ok q' OFFSET (tag q) ltac:(done) ltac:(done)) as E.
  destruct (put_tag q' _ Hq' _ (tag_range q Hq) E) as (H1 & H2 & H3 & H4).
  eexists. split; [unfold put, mbind, io_bind; rewrite Hf, E; done |]. split; [by eexists |]. split; [done |].
  split; [split; congruence | congruence].
Qed.

Lemma update_run n p A (f : io (list Z) A) p' a : h !! n = Some p -> draft_writable txn p -> f p = (p', Ok a) -> page_ok p' ->
  data_mark txn p' -> exists p'', ds_update_page A n f s = (on_disk n p'' s, Ok a) /\ retagged p' p''
    /\ keeping stack tail (on_disk n p'' s) (<[n := p'']> h).
Proof using K.
  intros Hn Hw Hf Hp' Hd. destruct (kp_page _ _ _ _ K n p Hn) as (Hb & Hp & _). pose proof (kept_page n p Hn) as Hok.
  destruct (tagged_write p p A a p' f Hok (proj2 Hw) Hok Hf Hp' Hd) as (q & E & Hr & Hq & Hdq & Htq).
  exists q. split; [| split; [done | by eapply keep_write]].
  unfold ds_update_page, mbind, io_bind, gets, lift. rewrite require_page_ok by done. unfold on_pages, zoom.
  erewrite (page_mut_after_run _ _ (kp_attached _ _ _ _ K)); [done | lia | change (read_page _ n) with (disk s n); rewrite Hp; by apply private_tag_ok |].
  change (read_page _ n) with (disk s n). rewrite Hp. exact E.
Qed.

Lemma copy_run n m p q A (f : list Z -> io (list Z) A) q' a : n <> m -> h !! n = Some p -> h !! m = Some q -> draft_writable txn q ->
  f p q = (q', Ok a) -> page_ok q' -> data_mark txn q' ->
  exists q'', ds_copy_page A n m f s = (on_disk m q'' s, Ok a) /\ retagged q' q'' /\ keeping stack tail (on_disk m q'' s) (<[m := q'']> h).
Proof using K.
  intros Hne Hn Hm Hw Hf Hq' Hd. destruct (kp_page _ _ _ _ K n p Hn) as (Hbn & Hp & _).
  destruct (kp_page _ _ _ _ K m q Hm) as (Hbm & Hq & _). pose proof (kept_page m q Hm) as Hok.
  destruct (tagged_write q q A a q' (f p) Hok (proj2 Hw) Hok Hf Hq' Hd) as (q'' & E & Hr & Hokq & Hdq & Htq).
  exists q''. split; [| split; [done | by eapply keep_write]].
  unfold ds_copy_page, mbind, io_bind, gets, lift. rewrite !require_page_ok by done. unfold on_pages, zoom.
  erewrite (page_pair_run _ _ (kp_attached _ _ _ _ K)); [done | done | lia | lia | |].
  - change (read_page _ m) with (disk s m). rewrite Hq. by apply private_tag_ok.
  - change (read_page _ m) with (disk s m). change (read_page _ n) with (disk s n). rewrite Hp, Hq. exact E.
Qed.
End Keeping.

(** ** Giving a page back and taking it again *)

Section Give.
Context (stack : list Z) (tail : nat) (s : DraftStore) (h : Pages) (K : keeping stack tail s h).
Notation txn := (draft_txn s).
Notation limit := (draft_limit s).

Lemma head_range : 0 <= private_head (ds_draft s) <= u32_max.
Proof using K.
  pose proof (kp_stack _ _ _ _ K) as L. pose proof (limit_space _ _ _ _ K). pose proof (linked_bounds _ _ _ _ _ L) as B.
  rewrite (linked_head _ _ _ _ _ L). unfold MAX_PAGE_COUNT, u32_max in *. destruct B; cbn; lia.
Qed.

Definition pushed (n : Z) (q : list Z) : DraftStore := set_ds_draft (set_private_head n (ds_draft s)) (on_disk n q s).

Lemma keep_push n p q : h !! n = Some p -> page_ok q -> stack_mark txn q -> tag q <> 0 ->
  u32_at q PRIVATE_NEXT_OFFSET = private_head (ds_draft s) -> keeping (n :: stack) tail (pushed n q) (delete n h).
Proof using K.
  intros Hn Hq Hm Ht Hx. pose proof (stack_apart _ _ _ _ K n p Hn) as Hap. destruct K as [A B C D P L N Q R S T U].
  destruct (P n p Hn) as (Hb & _).
  assert (Hd : disk (pushed n q) n = q) by (change (disk (pushed n q) n) with (disk (on_disk n q s) n); by rewrite disk_write, Z.eqb_refl).
  assert (Ho : forall k, n <> k -> disk (pushed n q) k = disk s k).
  { intros k Hk. change (disk (pushed n q) k) with (disk (on_disk n q s) k). by rewrite disk_write, (proj2 (Z.eqb_neq _ _)). }
  split; try done.
  - by apply attached_store.
  - intros k r. rewrite lookup_delete_Some. intros [Hne Hk]. rewrite (Ho k Hne). by apply P.
  - change (private_head (ds_draft (pushed n q))) with n. cbn. rewrite Hd.
    split; [done |]. split; [done |]. split; [done |]. split; [done |]. rewrite Hx. eapply linked_ext; [exact L | done |].
    eapply Forall_impl; [exact Hap |]. intros k Hk. by apply Ho.
  - constructor; [| done]. intros Hin. rewrite Forall_forall in Q. rewrite (Q n Hin) in Hn. done.
  - constructor; [apply lookup_delete_eq |]. eapply Forall_impl; [exact Q |]. intros k Hk. apply lookup_delete_None. by right.
Qed.

Lemma discard_run n p : h !! n = Some p -> data_mark txn p ->
  exists s', ds_discard_private n s = (s', Ok tt) /\ keeping (n :: stack) tail s' (delete n h)
    /\ draft_txn s' = txn /\ draft_limit s' = limit.
Proof using K.
  intros Hn Hd. destruct (kp_page _ _ _ _ K n p Hn) as (Hb & Hp & Ht). specialize (Ht Hd).
  pose proof (kept_page _ _ _ _ K n p Hn) as Hok. pose proof head_range as Hh.
  destruct (push_marks p Hok txn (private_head (ds_draft s)) Hh) as (q & E & Hq & Hm & Htq & Hx); [pose proof (kp_txn _ _ _ _ K); lia | done |].
  assert (Hne : n <> private_head (ds_draft s)).
  { pose proof (kp_stack _ _ _ _ K) as L. rewrite (linked_head _ _ _ _ _ L).
    pose proof (stack_apart _ _ _ _ K n p Hn) as Hap. destruct Hap; cbn; [lia | done]. }
  exists (pushed n q). split; [| split; [apply keep_push with p; try done; by rewrite Htq | done]].
  unfold ds_discard_private. rewrite (bind_ok _ _ s s (private_head (ds_draft s))) by done.
  rewrite (bind_ok _ _ s s tt) by (unfold fail_if, lift; by rewrite (proj2 (Z.eqb_neq _ _) Hne)).
  rewrite (bind_ok _ _ s s txn), (bind_ok _ _ s s limit) by done.
  rewrite (bind_ok _ _ s s tt) by (unfold lift; by rewrite require_page_ok).
  rewrite (bind_ok _ _ s (on_disk n q s) (tag p)); [done |].
  unfold on_pages, zoom. rewrite (page_mut_after_run _ _ (kp_attached _ _ _ _ K) n _ _ tt q (Ok (tag p))); [done | lia | |].
  - change (read_page _ n) with (disk s n). rewrite Hp. by apply discardable_spec.
  - change (read_page _ n) with (disk s n). rewrite Hp. exact E.
Qed.
End Give.

Section Pop.
Context (n : Z) (stack : list Z) (tail : nat) (s : DraftStore) (h : Pages) (K : keeping (n :: stack) tail s h).
Notation txn := (draft_txn s).
Notation limit := (draft_limit s).

Definition popped : DraftStore := set_ds_draft (set_private_head (u32_at (disk s n) PRIVATE_NEXT_OFFSET) (ds_draft s)) s.

Lemma keep_pop : keeping stack tail popped (<[n := disk s n]> h).
Proof using K.
  pose proof (disk_ok _ _ _ _ K n) as Hok. destruct K as [A B C D P L N Q R S T U]. destruct L as (Hh & Hb & Hm & Ht & L).
  apply NoDup_cons in N as [Hnin N]. apply Forall_cons in Q as [Hnone Q]. split; try done.
  - intros k q. destruct (decide (n = k)) as [<- | Hne].
    + rewrite lookup_insert_eq. intros [= <-]. by split.
    + rewrite lookup_insert_ne by done. apply P.
  - apply Forall_forall. intros k Hk. rewrite lookup_insert_ne by (intros ->; done). rewrite Forall_forall in Q. by apply Q.
Qed.

Lemma pop_run : pop_private s = (popped, Ok n).
Proof using K.
  destruct (kp_stack _ _ _ _ K) as (Hh & Hb & Hm & Ht & L). pose proof (disk_ok _ _ _ _ K n) as Hok.
  unfold pop_private. rewrite (bind_ok _ _ s s n) by (unfold gets; by rewrite Hh).
  rewrite (bind_ok _ _ s s tt) by (unfold fail_if, lift; by rewrite (proj2 (Z.eqb_neq n 0)) by lia).
  rewrite (bind_ok _ _ s s txn) by done.
  rewrite (bind_ok _ _ s s (u32_at (disk s n) PRIVATE_NEXT_OFFSET)).
  2: { cbn [inspect_page DraftStore_PageStore]. unfold ds_inspect_page, mbind, io_bind, gets, lift. rewrite require_page_ok by done.
       unfold on_pages, zoom. rewrite (page_run _ _ (kp_attached _ _ _ _ K)) by lia.
       change (read_page (map_os (ds_mapping s)) n) with (disk s n). rewrite stack_next_spec by done. by destruct s. }
  rewrite (bind_ok _ _ s s limit) by done.
  assert (Hx : (u32_at (disk s n) PRIVATE_NEXT_OFFSET =? n) || (negb (u32_at (disk s n) PRIVATE_NEXT_OFFSET =? 0)
     && ((u32_at (disk s n) PRIVATE_NEXT_OFFSET <? 2) || (limit <=? u32_at (disk s n) PRIVATE_NEXT_OFFSET))) = false).
  { pose proof (linked_bounds _ _ _ _ _ L) as B. pose proof (kp_nodup _ _ _ _ K) as N. apply NoDup_cons in N as [Hnin _].
    rewrite (linked_head _ _ _ _ _ L). destruct B as [|k ? Hk _]; cbn [list.head default from_option id].
    - rewrite (proj2 (Z.eqb_neq 0 n)) by lia. done.
    - apply not_elem_of_cons in Hnin as [Hne _]. rewrite (proj2 (Z.eqb_neq k n)) by congruence.
      rewrite (proj2 (Z.ltb_ge k 2)), (proj2 (Z.leb_gt limit k)) by lia. by destruct (k =? 0). }
  rewrite (bind_ok _ _ s s tt) by (unfold fail_if, lift; by rewrite Hx). done.
Qed.
End Pop.

(** ** The tail of the file *)

Section Grow.
Context (s : DraftStore).
Notation limit := (draft_limit s).

(** The file and the map after growing to [capacity] pages. *)
Lemma grown_attached m len : attached m limit -> (limit + 1) * PAGE_SIZE <= len <= usize_max ->
  attached (set_map true len m) (limit + 1) /\ attached (set_map true len (set_os (cut len (map_os m)) m)) (limit + 1)
  /\ forall n, 0 <= n < limit -> read_page (cut len (map_os m)) n = read_page (map_os m) n.
Proof using Type.
  intros [A B C D E F G] Hl. split; [by split |]. split.
  - split; try done. intros n. cbn. unfold read_page, cut. cbn. rewrite map_lookup_filter. specialize (G n). unfold read_page in G.
    destruct (file_pages (map_os m) !! n) as [p|]; cbn; [| exact G]. case_guard; cbn; [exact G | apply page_fill_ok].
  - intros n Hn. unfold read_page, cut. cbn. rewrite map_lookup_filter.
    destruct (file_pages (map_os m) !! n) as [p|]; cbn; [| done]. rewrite option_guard_True; [done |]. unfold PAGE_SIZE in *. lia.
Qed.

Lemma system_call_ok w : answers w = [] -> system_call w = (w, Ok tt).
Proof using Type. unfold system_call. by intros ->. Qed.

Lemma replace_map_run m len : answers (map_os m) = [] -> 0 < len -> replace_map len m = (set_map true len m, Ok tt).
Proof using Type.
  intros Ha Hl. unfold replace_map, attempt, map_nonempty, mbind, io_bind. rewrite (proj2 (Z.eqb_neq len 0)) by lia.
  unfold on_os, zoom, sys_map. rewrite system_call_ok by done. cbn. by destruct m.
Qed.

Lemma tail_capacity_run : attached (ds_mapping s) limit -> 2 <= limit ->
  limit + 1 <= Z.min (saturating_add u64_max (committed_page_count s) (max_growth_pages (ds_budget s))) MAX_PAGE_COUNT ->
  exists m, ensure_tail_capacity s = (set_ds_mapping m s, Ok tt) /\ attached m (limit + 1)
    /\ forall n, 0 <= n < limit -> read_page (map_os m) n = disk s n.
Proof using Type.
  intros Hm H2 Hc. unfold ensure_tail_capacity. rewrite (bind_ok _ _ s s limit) by done.
  assert (Hcap : limit + 1 <= MAX_PAGE_COUNT) by lia. unfold MAX_PAGE_COUNT in Hcap.
  rewrite (bind_ok _ _ s s (limit + 1)).
  2: { unfold lift, checked_add. rewrite (proj2 (Z.leb_le _ _)) by (unfold u64_max; lia). done. }
  rewrite (bind_ok _ _ s s (map_len (ds_mapping s))) by done.
  destruct (Z.leb_spec (limit + 1) (map_len (ds_mapping s) / PAGE_SIZE)) as [Hin | Hout].
  { exists (ds_mapping s). split; [by destruct s |]. split; [| done]. destruct Hm as [A B C D E F G]. split; try done.
    split; [| apply F]. pose proof (Z.mul_div_le (map_len (ds_mapping s)) PAGE_SIZE ltac:(done)). unfold PAGE_SIZE in *. lia. }
  rewrite (bind_ok _ _ s s (committed_page_count s)), (bind_ok _ _ s s (ds_budget s)) by done. cbv zeta.
  set (capacity := Z.min _ _) in Hc |- *.
  assert (Hb : (limit + 1) * PAGE_SIZE <= capacity * PAGE_SIZE <= usize_max).
  { subst capacity. unfold PAGE_SIZE, usize_max, u64_max, MAX_PAGE_COUNT in *. lia. }
  assert (Hpos : 0 < capacity * PAGE_SIZE) by (unfold PAGE_SIZE in *; lia). clearbody capacity.
  rewrite (bind_ok _ _ s s tt) by (unfold fail_if, lift; by rewrite (proj2 (Z.ltb_ge _ _)) by lia).
  rewrite (bind_ok _ _ s s (capacity * PAGE_SIZE)).
  2: { unfold lift, checked_mul. rewrite (proj2 (Z.leb_le _ _)) by (unfold usize_max in Hb; lia). done. }
  destruct (grown_attached (ds_mapping s) (capacity * PAGE_SIZE) Hm Hb) as (Ha1 & Ha2 & Hrd).
  assert (Hlen : len_of_file (ds_mapping s) = (ds_mapping s, Ok (file_len (map_os (ds_mapping s))))).
  { unfold len_of_file, file_, mbind, io_bind, gets, lift. rewrite (at_file _ _ Hm). unfold on_os, zoom, sys_len, mbind, io_bind.
    rewrite system_call_ok by apply Hm. cbn. by destruct (ds_mapping s). }
  rewrite (bind_ok _ _ s s (file_len (map_os (ds_mapping s)))) by (unfold on_pages, zoom; rewrite Hlen; by destruct s).
  assert (Hck : checked_len (capacity * PAGE_SIZE) = Ok (capacity * PAGE_SIZE)) by (unfold checked_len; by rewrite (proj2 (Z.leb_le _ _)) by lia).
  destruct (Z.leb_spec (capacity * PAGE_SIZE) (file_len (map_os (ds_mapping s)))) as [Hlong | Hshort].
  - exists (set_map true (capacity * PAGE_SIZE) (ds_mapping s)). split; [| split; [exact Ha1 | done]].
    unfold on_pages, zoom, remap, mbind, io_bind, lift, modify. rewrite Hck. unfold require_file_extent, mbind, io_bind.
    rewrite Hlen. unfold lift. rewrite (proj2 (Z.ltb_ge _ _)) by lia. rewrite replace_map_run; [done | apply Hm | done].
  - exists (set_map true (capacity * PAGE_SIZE) (set_os (cut (capacity * PAGE_SIZE) (map_os (ds_mapping s))) (ds_mapping s))).
    split; [| split; [exact Ha2 | exact Hrd]].
    unfold on_pages, zoom, resize, mbind, io_bind, lift, modify, require_write, mbind, io_bind, gets, lift.
    rewrite (at_access _ _ Hm), decide_True, Hck by done. unfold file_, mbind, io_bind, gets, lift.
    cbn [set_map map_file]. rewrite (at_file _ _ Hm). unfold on_os, zoom, sys_set_len, mbind, io_bind. cbn [map_os set_map].
    rewrite system_call_ok by apply Hm. unfold modify. rewrite replace_map_run; [done | apply Hm | done].
Qed.
End Grow.

Section Tail.
Context (tail : nat) (s : DraftStore) (h : Pages) (K : keeping [] (S tail) s h).
Notation txn := (draft_txn s).
Notation limit := (draft_limit s).

Definition tail_tag : Z := if dirty_head (ds_draft s) =? 0 then DIRTY_END else dirty_head (ds_draft s).

(** The draft once the page is counted, and once it heads the dirty chain. *)
Definition counted : Draft := set_growth_pages (growth_pages (ds_draft s) + 1) (set_page_count (limit + 1) (ds_draft s)).
Definition charged : Draft := set_private_pages (private_pages (ds_draft s) + 1) counted.

Definition claimed (m : Mapping) (q : list Z) : DraftStore :=
  set_ds_draft (set_dirty_head limit charged) (set_ds_mapping (stored_at limit q m) s).

Lemma keep_claim m q : attached m (limit + 1) -> (forall n, 0 <= n < limit -> read_page (map_os m) n = disk s n) ->
  page_ok q -> stack_mark txn q -> tag q <> 0 -> keeping [] tail (claimed m q) (<[limit := q]> h).
Proof using K.
  intros Hm Hrd Hq Hs Ht. pose proof (limit_space _ _ _ _ K) as Hsp. destruct K as [A B C D P L N Q R S T U].
  assert (Hlim : draft_limit (claimed m q) = limit + 1) by done.
  assert (Hd : forall k, disk (claimed m q) k = if limit =? k then q else read_page (map_os m) k) by (intros k; apply read_write).
  split; rewrite ?Hlim; try done.
  - by apply attached_store.
  - change (0 <= limit <= u32_max). unfold MAX_PAGE_COUNT, u32_max in *. lia.
  - intros k r. rewrite Hd. destruct (Z.eqb_spec limit k) as [<- | Hne].
    + rewrite lookup_insert_eq. intros [= <-]. repeat split; (done || lia).
    + rewrite lookup_insert_ne by done. intros Hk. destruct (P k r Hk) as (Hb & Hr & Hx). rewrite Hrd by lia. repeat split; (done || lia).
  - change (committed_page_count (claimed m q)) with (committed_page_count s). lia.
  - change (growth_pages (ds_draft s) + 1 + Z.of_nat tail <= max_growth_pages (ds_budget s)). lia.
  - change (private_pages (ds_draft s) + 1 + Z.of_nat tail <= max_private_pages (ds_budget s)). lia.
  - change (ds_budget (claimed m q)) with (ds_budget s). change (committed_page_count (claimed m q)) with (committed_page_count s). lia.
Qed.

Lemma claim_run m : attached m (limit + 1) -> exists q,
  claim_new_tail limit (set_ds_draft counted (set_ds_mapping m s)) = (claimed m q, Ok tt)
  /\ page_ok q /\ stack_mark txn q /\ tag q <> 0.
Proof using K.
  intros Hm. set (s1 := set_ds_draft counted (set_ds_mapping m s)).
  assert (Htag : 0 < tail_tag <= u32_max).
  { pose proof (kp_dirty _ _ _ _ K). unfold tail_tag, DIRTY_END. destruct (Z.eqb_spec (dirty_head (ds_draft s)) 0); [unfold u32_max |]; lia. }
  destruct (claim_marks (read_page (map_os m) limit) (at_pages _ _ Hm limit) txn tail_tag Htag) as (q & E & Hq & Hs & Ht);
    [pose proof (kp_txn _ _ _ _ K); lia |].
  exists q. split; [| repeat split; try apply Hq; try apply Hs; lia].
  unfold claim_new_tail. rewrite (bind_ok _ _ s1 s1 (limit + 1)) by done.
  rewrite (bind_ok _ _ s1 s1 tt).
  2: { unfold lift, require_page. pose proof (kp_committed _ _ _ _ K).
       by rewrite (proj2 (Z.ltb_ge _ _)), (proj2 (Z.leb_gt _ _)) by lia. }
  unfold claim_page. rewrite (bind_ok _ _ s1 s1 counted) by done. cbv zeta.
  set (s2 := set_ds_draft charged (set_ds_mapping m s)).
  rewrite (bind_ok _ _ s1 s2 tt).
  2: { unfold charge_private, mbind, io_bind, gets, fail_if, lift. pose proof (kp_private _ _ _ _ K).
       change (private_pages (ds_draft s1)) with (private_pages (ds_draft s)). change (ds_budget s1) with (ds_budget s).
       by rewrite (proj2 (Z.leb_gt _ _)) by lia. }
  rewrite (bind_ok _ _ s2 s2 txn), (bind_ok _ _ s2 s2 (limit + 1)) by done.
  rewrite (bind_ok _ _ s2 (set_ds_draft charged (set_ds_mapping (stored_at limit q m) s)) tt); [done |].
  unfold on_pages, zoom, page_mut. pose proof (kp_committed _ _ _ _ K).
  rewrite (page_mut_after_run m (limit + 1) Hm limit _ _ tt q (Ok tt)); [done | lia | done | exact E].
Qed.

Lemma tail_run : exists m q, allocate_tail s = (claimed m q, Ok limit) /\ stack_mark txn q /\ tag q <> 0
  /\ keeping [] tail (claimed m q) (<[limit := q]> h).
Proof using K.
  destruct (tail_capacity_run s) as (m & Ec & Hm & Hrd); [apply K | apply K | pose proof (kp_space _ _ _ _ K); lia |].
  destruct (claim_run m Hm) as (q & Eq & Hq & Hs & Ht). exists m, q. split; [| split; [done |]; split; [done |]; by apply keep_claim].
  pose proof (kp_space _ _ _ _ K) as Hsp. pose proof (kp_growth _ _ _ _ K) as Hg. pose proof (kp_committed _ _ _ _ K) as Hc.
  unfold allocate_tail.
  rewrite (bind_ok _ _ s s limit), (bind_ok _ _ s s (committed_page_count s)), (bind_ok _ _ s s (ds_budget s)),
    (bind_ok _ _ s s (growth_pages (ds_draft s))) by done.
  rewrite !(bind_ok _ _ s s tt)
    by (unfold fail_if, lift; first [by rewrite (proj2 (Z.ltb_ge _ _)) by lia | by rewrite (proj2 (Z.leb_gt _ _)) by lia]).
  rewrite (bind_ok _ _ _ _ _ Ec).
  assert (Hu : as_u32 limit = limit) by (unfold as_u32, MAX_PAGE_COUNT in *; apply Z.mod_small; lia).
  rewrite Hu. rewrite (bind_ok _ _ _ (set_ds_draft (set_page_count (limit + 1) (ds_draft s)) (set_ds_mapping m s)) tt) by done.
  rewrite (bind_ok _ _ _ (set_ds_draft counted (set_ds_mapping m s)) tt) by done.
  rewrite (bind_ok _ _ _ _ _ Eq). done.
Qed.
End Tail.

(** ** The instance *)

Section Laws.
Context (path : crc_path).

Lemma serves_allocate s h k : draft_serves s h (S k) ->
  exists s' n q, ds_allocate path s = (s', Ok n) /\ h !! n = None /\ draft_writable (draft_txn s) q
    /\ draft_serves s' (<[n := q]> h) k /\ draft_txn s' = draft_txn s /\ draft_limit s <= draft_limit s'.
Proof using Type.
  intros (stack & tail & K & Hk). pose proof (linked_head _ _ _ _ _ (kp_stack _ _ _ _ K)) as Hh. unfold ds_allocate.
  rewrite (bind_ok _ _ s s (ds_draft s)) by done. destruct stack as [|n stack]; cbn in Hh, Hk.
  - rewrite Hh. change (negb (0 =? 0)) with false. cbv iota.
    destruct tail as [|tail]; [lia |]. destruct (tail_run tail s h K) as (m & q & E & Hs & Ht & K').
    exists (claimed s m q), (draft_limit s), q. split.
    { rewrite (bind_ok _ _ s s (committed_page_count s)) by done. change (free_bitmap_root (d_meta (ds_draft s))) with (free_bitmap_root (draft_meta s)).
      rewrite (kp_bitmap _ _ _ _ K). rewrite (bind_ok _ _ s s (None, 0, retired_new)) by done.
      assert (Hr : on_draft (set_bitmap_root 0) s = (s, Ok tt)).
      { unfold on_draft, modify, set_bitmap_root. rewrite <- (kp_bitmap _ _ _ _ K). destruct s as [? ? ? d]. cbn. by destruct d as [? []]. }
      rewrite (bind_ok _ _ _ _ _ Hr). exact E. }
    split. { destruct (h !! draft_limit s) as [p|] eqn:Hp; [| done]. destruct (kp_page _ _ _ _ K _ _ Hp) as ([_ Hlt] & _). lia. }
    split; [split; [by right | done] |]. split; [exists [], tail; split; [done | cbn; lia] |]. split; [done |]. change (draft_limit s <= draft_limit s + 1). lia.
  - destruct (kp_stack _ _ _ _ K) as (_ & Hb & Hm & Ht & _). rewrite Hh.
    rewrite (proj2 (Z.eqb_neq n 0)) by lia. cbn [negb]. exists (popped n s), n, (disk s n).
    split; [by eapply pop_run |]. split; [exact (Forall_inv (kp_apart _ _ _ _ K)) |]. split; [split; [by right | done] |].
    split; [| split; [done | change (draft_limit s <= draft_limit s); lia]].
    exists stack, tail. split; [by apply keep_pop | lia].
Qed.

#[global, program] Instance DraftStore_laws : StoreLaws DraftStore (H := DraftStore_PageStore) (H0 := DraftStore_Store path) := {
  serves := draft_serves;
  writable := draft_writable;
}.
Next Obligation. intros s h k (stack & tail & K & _). apply K. Qed.
Next Obligation.
  intros s h k n p (stack & tail & K & _) Hn. destruct (kp_page _ _ _ _ K n p Hn) as (Hb & _). cbn. split; [done |].
  split; [pose proof (limit_space _ _ _ _ K); unfold MAX_PAGE_COUNT, u32_max in *; lia | by eapply kept_page].
Qed.
Next Obligation. intros s h k (stack & tail & K & Hk). exists stack, tail. split; [done | lia]. Qed.
Next Obligation.
  intros s h k n p (stack & tail & K & Hk) Hn Ho. destruct (kp_page _ _ _ _ K n p Hn) as (_ & _ & Ht).
  rewrite owned_by_spec in Ho by (by eapply kept_page). injection Ho as Ho. apply bool_decide_eq_true in Ho. split; [by left | by apply Ht].
Qed.
Next Obligation. intros s h k n p A f (stack & tail & K & Hk) Hn. by eapply inspect_run. Qed.
Next Obligation.
  intros s h k n p A f p' a (stack & tail & K & Hk) Hn Hw Hf Hp' Ho.
  rewrite owned_by_spec in Ho by done. injection Ho as Ho. apply bool_decide_eq_true in Ho.
  destruct (update_run _ _ _ _ K n p A f p' a Hn Hw Hf Hp' Ho) as (p'' & E & Hr & K').
  exists (on_disk n p'' s), p''. split; [exact E |]. split; [done |]. split; [by exists stack, tail | done].
Qed.
Next Obligation.
  intros s h k n m p q A f q' a (stack & tail & K & Hk) Hne Hn Hm Hw Hf Hq' Ho.
  rewrite owned_by_spec in Ho by done. injection Ho as Ho. apply bool_decide_eq_true in Ho.
  destruct (copy_run _ _ _ _ K n m p q A f q' a Hne Hn Hm Hw Hf Hq' Ho) as (q'' & E & Hr & K').
  exists (on_disk m q'' s), q''. split; [exact E |]. split; [done |]. split; [by exists stack, tail | done].
Qed.
Next Obligation. exact serves_allocate. Qed.
Next Obligation.
  intros s h k n p (stack & tail & K & Hk) Hn Ho.
  rewrite owned_by_spec in Ho by (by eapply kept_page). injection Ho as Ho. apply bool_decide_eq_true in Ho.
  destruct (discard_run _ _ _ _ K n p Hn Ho) as (s' & E & K' & Ht & Hl). exists s'. split; [exact E |].
  split; [exists (n :: stack), tail; split; [done | cbn; lia] | done].
Qed.
End Laws.
