(* ===== verification/PublicationFacts.v ===== *)
(** * Publication survives a crash

    The crash theorems of [writer_core/publication.rs]: what storage holds
    after a crash at any point of a publication, and what the next writer that
    opens the file finds there. *)

From stdpp Require Import base tactics numbers list strings gmap.
From Stdlib Require Import ZArith Lia.
From S2P Require Import Prelude Errors Bytes Checksum ChecksumFacts Contract ContractFacts Bootstrap BootstrapFacts.
From S2P Require Import Machine Mapping MappingFacts Draft WriterCore.

#[local] Open Scope string_scope.
#[local] Open Scope list_scope.
#[local] Open Scope Z_scope.
#[local] Opaque crc32c_pointer_table.

(** ** Opening a pair of pages that prove a generation current *)

Lemma open_complete path contiguous p0 p1 physical m page :
  page_ok p0 -> page_ok p1 -> proves_current path contiguous p0 p1 physical m page ->
  (forall m0 m1, readable path contiguous p0 m0 -> readable path contiguous p1 m1 -> static_identity_eq m0 m1 = true) ->
  is_Some (structure_kind m) -> physical mod PAGE_SIZE = 0 ->
  open_meta_pages path contiguous p0 p1 physical Writer
  = Ok (mkBootstrap m ProvenCurrent page (page_count m * PAGE_SIZE) physical).
Proof.
  intros Hp0 Hp1 Hc Hid Hs Hal. destruct (proves_pair _ _ _ _ _ _ _ Hc) as (m0 & m1 & H0 & H1 & Hm).
  assert (Hg : generation_rules m physical) by (destruct Hm as [-> | ->]; [apply H0 | apply H1]).
  destruct Hg as (_ & Hcr & Hlen). pose proof (cr_pages _ Hcr) as Hpages.
  unfold open_meta_pages.
  assert (H2 : 2 * PAGE_SIZE <= physical) by (unfold PAGE_SIZE in *; lia).
  run (proj2 (decides_Ok _ _ (geometry_decides physical)) (conj H2 Hal)).
  run (proj2 (same_identity_Ok (identity_readable path contiguous p0) (identity_readable path contiguous p1))
        (fun a b Ha Hb => Hid a b (proj1 (identity_Ok _ _ _ _) Ha) (proj1 (identity_Ok _ _ _ _) Hb))).
  rewrite (proj2 (candidate_Ok path contiguous p0 physical m0 Hp0) H0), (proj2 (candidate_Ok path contiguous p1 physical m1 Hp1) H1).
  cbn [select_candidates]. run (select_pair_complete path contiguous p0 p1 physical m0 m1 m page Hp0 Hp1 H0 H1 Hc).
  apply finish_complete; [done | lia].
Qed.

(** A longer or shorter file changes nothing else about a page. *)
Lemma eligible_resize path contiguous p physical physical' m :
  eligible path contiguous p physical m -> page_count m * PAGE_SIZE <= physical' ->
  eligible path contiguous p physical' m.
Proof. intros [Hr (Hc & Hcr & _)] Hl. done. Qed.

(** ** The next generation *)

(** What a finished draft satisfies next to the generation it was built on. *)
Record successor (m d : MetaV4) : Prop := {
  su_ok : meta_ok d;
  su_txn : txn_id d = txn_id m + 1;
  su_identity : static_identity_eq m d = true;
  su_database : database_id d <> zero_id;
  su_pages : page_count m <= page_count d;
  su_rules : generation_rules d (page_count d * PAGE_SIZE);
}.

Lemma static_identity_spec m d : static_identity_eq m d = true <->
  address_family m = address_family d /\ value_kind m = value_kind d /\ structure_kind_code m = structure_kind_code d
  /\ value_tag m = value_tag d /\ database_id m = database_id d.
Proof. unfold static_identity_eq. rewrite !andb_true_iff, !bool_decide_eq_true, Z.eqb_eq. tauto. Qed.

Lemma static_identity_sym m d : static_identity_eq m d = static_identity_eq d m.
Proof.
  apply eq_true_iff_eq. rewrite !static_identity_spec. intuition congruence.
Qed.

(** The pages of a file in the order of the meta page [sel]. *)
Definition paired (sel : Z) (own other : list Z) : list Z * list Z := if sel =? 0 then (own, other) else (other, own).

Section Successor.
Context (path : crc_path) (append : Z -> list Z -> Z) (Happend : continues_crc32c append).

(** The page the draft's meta record is written to. *)
Lemma successor_page m d p : successor m d -> encode_mapped append d = Ok p ->
  page_ok p /\ forall physical, page_count d * PAGE_SIZE <= physical -> eligible path true p physical d.
Proof using Happend.
  intros Hs He. destruct (encoded_page append d Happend (su_ok _ _ Hs)) as (p' & He' & Hp & Hh & Hr & Hc).
  rewrite He in He'. injection He' as <-. split; [done |]. intros physical Hl. split.
  - split; [apply (accepted_of_fields path true d p (su_ok _ _ Hs) Hp Hh Hr (Hc path true)) |].
    split; [by apply decode_holds; [apply Hs | apply Hp |] | apply Hs].
  - destruct (su_rules _ _ Hs) as (Hcm & Hcr & _). done.
Qed.
End Successor.

(** ** A transaction on a file that was wholly on storage *)

(** What the draft may do to the file before it is published. *)
Definition draft_event (committed : Z) (e : event) : Prop :=
  match e with
  | Wrote n _ => 2 <= n
  | Resized len => committed <= len /\ len mod PAGE_SIZE = 0
  | _ => True
  end.

Section Transaction.
Context (path : crc_path).

(** [w0] is the file as the writer found it, [es0] what happened to it since,
    and [d] the draft about to be published.  The page the base generation is
    not on holds a generation with at most as many pages: a draft never gives
    pages back. *)
Record in_transaction (w0 : Machine) (s : WriterCore) (d : Draft) (es0 : list event) : Prop := {
  it_page0 : page_ok (read_page w0 0);
  it_page1 : page_ok (read_page w0 1);
  it_base : open_meta_pages path true (read_page w0 0) (read_page w0 1) (file_len w0) Writer = Ok (base s);
  it_history m : eligible path true (read_page w0 (1 - selected_meta_page (base s))) (file_len w0) m ->
    page_count m <= page_count (bs_meta (base s));
  it_draft : draft s = Some d;
  it_next : successor (bs_meta (base s)) (d_meta d);
  it_log : logged w0 (map_os (wc_mapping s)) es0;
  it_events : Forall (draft_event (committed_bytes (base s))) es0;
}.

Context (w0 : Machine) (s : WriterCore) (d : Draft) (es0 : list event) (Htx : in_transaction w0 s d es0).
#[local] Notation b := (base s).
#[local] Notation sel := (selected_meta_page (base s)).

Lemma base_proved : proves_current path true (read_page w0 0) (read_page w0 1) (file_len w0) (bs_meta b) sel
  /\ is_Some (structure_kind (bs_meta b)) /\ committed_bytes b = page_count (bs_meta b) * PAGE_SIZE
  /\ file_len w0 mod PAGE_SIZE = 0 /\ committed_bytes b <= file_len w0.
Proof using Htx.
  pose proof (it_base _ _ _ _ Htx) as Ho.
  destruct (open_inv path true _ _ _ _ _ (it_page0 _ _ _ _ Htx) (it_page1 _ _ _ _ Htx) Ho) as (Hsel & Hk & Hm & _ & Hc & _).
  rewrite (Hm ltac:(done)) in Hsel. split; [done |]. split; [done |]. split; [done |]. split.
  - unfold open_meta_pages in Ho. apply bind_Ok in Ho as ([] & Hg & _). apply (decides_Ok _ _ (geometry_decides _)) in Hg as [_ Hg]. exact Hg.
  - destruct Hsel as (m' & [_ (_ & _ & Hl)] & _). by rewrite Hc.
Qed.

Lemma sel_bit : sel = 0 \/ sel = 1.
Proof using Htx.
  destruct base_proved as [(m' & _ & _ & Hpar & _) _]. pose proof (Z.mod_pos_bound (txn_id (bs_meta b)) 2). lia.
Qed.

Lemma base_identities m0 m1 : readable path true (read_page w0 0) m0 -> readable path true (read_page w0 1) m1 ->
  static_identity_eq m0 m1 = true.
Proof using Htx.
  intros H0 H1. pose proof (it_base _ _ _ _ Htx) as Ho. unfold open_meta_pages in Ho.
  apply bind_Ok in Ho as (? & _ & Ho). apply bind_Ok in Ho as ([] & Hi & _).
  apply (proj1 (same_identity_Ok _ _) Hi); by apply identity_Ok.
Qed.

Lemma reopen_base L : committed_bytes b <= L -> L mod PAGE_SIZE = 0 ->
  open_meta_pages path true (read_page w0 0) (read_page w0 1) L Writer
  = Ok (mkBootstrap (bs_meta b) ProvenCurrent sel (committed_bytes b) L).
Proof using Htx.
  intros HL Hal. destruct base_proved as (Hp & Hk & Hc & _). rewrite Hc. apply open_complete; try done.
  - apply Htx.
  - apply Htx.
  - destruct Hp as (m' & Hm & Hm' & Hpar & Hd).
    assert (Hpages : page_count m' <= page_count (bs_meta b)).
    { apply (it_history _ _ _ _ Htx). destruct sel_bit as [E | E]; rewrite E in Hm' |- *; exact Hm'. }
    exists m'. split; [| split; [| done]]; eapply eligible_resize; try eassumption; unfold PAGE_SIZE in *; lia.
  - apply base_identities.
Qed.

Lemma reopen_next append q0 q1 p L : continues_crc32c append -> encode_mapped append (d_meta d) = Ok p ->
  page_count (d_meta d) * PAGE_SIZE <= L -> L mod PAGE_SIZE = 0 ->
  (q0, q1) = paired sel (read_page w0 sel) p ->
  open_meta_pages path true q0 q1 L Writer
  = Ok (mkBootstrap (d_meta d) ProvenCurrent (1 - sel) (page_count (d_meta d) * PAGE_SIZE) L).
Proof using Htx.
  intros Happ Henc HL Hal Hq. pose proof (it_next _ _ _ _ Htx) as Hs.
  destruct (successor_page path append Happ _ _ p Hs Henc) as [Hp He]. specialize (He L HL).
  destruct base_proved as ((m' & Hm & _ & Hpar & _) & Hk & _).
  assert (Hb : eligible path true (read_page w0 sel) L (bs_meta b)).
  { apply (eligible_resize _ _ _ (file_len w0)); [| pose proof (su_pages _ _ Hs); unfold PAGE_SIZE in *; lia].
    destruct sel_bit as [E | E]; rewrite E in Hm |- *; exact Hm. }
  assert (Hmod : 1 - sel = txn_id (d_meta d) mod 2).
  { rewrite (su_txn _ _ Hs), Hpar. pose proof (Z.mod_pos_bound (txn_id (bs_meta b)) 2).
    rewrite <- (Zplus_mod_idemp_l (txn_id (bs_meta b)) 1 2). 
    destruct sel_bit as [E | E]; rewrite Hpar in E; rewrite E; done. }
  assert (Hpb : page_ok (read_page w0 sel)) by (destruct sel_bit as [-> | ->]; apply Htx).
  assert (Hkd : is_Some (structure_kind (d_meta d))).
  { unfold structure_kind in *. destruct (proj1 (static_identity_spec _ _) (su_identity _ _ Hs)) as (_ & _ & <- & _). done. }
  assert (Hinj : forall m m2 q, readable path true q m -> eligible path true q L m2 -> m = m2)
    by (intros m m2 q (_ & Hd & _) [(_ & Hd' & _) _]; congruence).
  destruct sel_bit as [E | E]; rewrite E in *; cbn in Hq; injection Hq as -> ->.
  - apply open_complete; try done.
    + exists (bs_meta b). cbn. split; [done |]. split; [done |]. split; [done |]. left. rewrite (su_txn _ _ Hs). lia.
    + intros m0 m1 H0 H1. rewrite (Hinj _ _ _ H0 Hb), (Hinj _ _ _ H1 He). apply Hs.
  - apply open_complete; try done.
    + exists (bs_meta b). cbn. split; [done |]. split; [done |]. split; [done |]. left. rewrite (su_txn _ _ Hs). lia.
    + intros m0 m1 H0 H1. rewrite (Hinj _ _ _ H0 He), (Hinj _ _ _ H1 Hb), static_identity_sym. apply Hs.
Qed.
End Transaction.

(** ** The events of a publication *)

(** On every path the events are an initial part of [full], on success all of
    it; the rest of the writer is untouched. *)
Definition traces {A} (full : list event) (m : io WriterCore A) : Prop := forall s, exists es m',
  fst (m s) = set_mapping m' s /\ logged (map_os (wc_mapping s)) (map_os m') es /\ es `prefix_of` full
  /\ (is_ok (snd (m s)) = true -> es = full).

Lemma set_mapping_id s : set_mapping (wc_mapping s) s = s.
Proof. by destruct s. Qed.

Lemma traces_bind {A B} full full' (m : io WriterCore A) (f : A -> io WriterCore B) :
  traces full m -> (forall a, traces full' (f a)) -> traces (full ++ full') (m ≫= f).
Proof.
  intros Hm Hf s. destruct (Hm s) as (es & m1 & H1 & Hl & Hpre & Hok). unfold mbind, io_bind.
  destruct (m s) as [s1 [a | e | t]]; cbn in H1, Hok |- *; subst s1.
  - destruct (Hf a (set_mapping m1 s)) as (es' & m2 & H2 & Hl' & Hpre' & Hok'). rewrite (Hok eq_refl) in *.
    exists (full ++ es'), m2. split; [by rewrite H2 |]. split; [by eapply logged_trans |].
    split; [by apply prefix_app | intros H; by rewrite (Hok' H)].
  - exists es, m1. split; [done |]. split; [done |]. split; [by apply prefix_app_r | done].
  - exists es, m1. split; [done |]. split; [done |]. split; [by apply prefix_app_r | done].
Qed.

(** A call of the mapping that notes at most one event. *)
Lemma traces_call {A} e (m : io Mapping A) :
  (forall x y a, m x = (y, Ok a) -> logged (map_os x) (map_os y) [e]) ->
  (forall x y r, m x = (y, r) -> is_ok r = false -> logged (map_os x) (map_os y) []) ->
  traces [e] (on_mapping m).
Proof.
  intros Hok Herr s. unfold on_mapping, zoom. destruct (m (wc_mapping s)) as [y r] eqn:Hm. cbn.
  destruct (is_ok r) eqn:Hr.
  - destruct r as [a | |]; try discriminate. exists [e], y. eauto.
  - exists [], y. split; [done |]. split; [eauto |]. split; [apply prefix_nil | done].
Qed.

(** A failing call that had nothing to note yet. *)
Lemma on_os_quiet {A} (c : io Machine A) m m' r : on_os c m = (m', r) -> is_ok r = false ->
  (forall w w' r', c w = (w', r') -> is_ok r' = false -> same_file w w') -> same_file (map_os m) (map_os m').
Proof. intros H Hr Hc. apply on_os_inv in H as (w & H & ->). by eapply Hc. Qed.

Lemma noted_quiet (f : Machine -> Machine) w w' r :
  (_ ← system_call; modify f) w = (w', r) -> is_ok r = false -> same_file w w'.
Proof.
  unfold mbind, io_bind. destruct (system_call w) as [w1 [u | e' | t]] eqn:Hs; intros [= <- <-] Hr;
    by apply system_call_inv in Hs.
Qed.

(** Steps that do not touch the state: they fail where they stand. *)
Lemma pure_then {S A B} (m : io S A) (f : A -> io S B) s s' r :
  (forall x y v, m x = (y, v) -> y = x) -> (m ≫= f) s = (s', r) ->
  (s' = s /\ is_ok r = false) \/ exists a, f a s = (s', r).
Proof.
  intros Hm. unfold mbind, io_bind. destruct (m s) as [s1 [a | e | t]] eqn:He; apply Hm in He as ->.
  - right. by exists a.
  - intros [= <- <-]. by left.
  - intros [= <- <-]. by left.
Qed.

Lemma pure_gets {S A} (g : S -> A) x y v : gets g x = (y, v) -> y = x.
Proof. by intros [? _]%gets_inv. Qed.
Lemma pure_lift {S A} (v : Result A) (x y : S) r : lift v x = (y, r) -> y = x.
Proof. by intros [? _]%lift_inv. Qed.
Lemma pure_raw x y v : raw x = (y, v) -> y = x.
Proof. unfold raw, gets, lift, mbind, io_bind. by intros [= <- _]. Qed.
Lemma pure_require_write x y v : require_write x = (y, v) -> y = x.
Proof. unfold require_write, gets, lift, mbind, io_bind. by intros [= <- _]. Qed.
Lemma pure_file x y v : file_ x = (y, v) -> y = x.
Proof. apply file_inv. Qed.

Ltac pure_step H :=
  let a := fresh "a" in
  apply pure_then in H; [| solve [apply pure_gets | apply pure_lift | apply pure_raw | apply pure_require_write | apply pure_file]];
  destruct H as [[-> ?] | [a H]]; [try (apply logged_refl) |].

Lemma flush_page_traces n limit : traces [Flushed (n * PAGE_SIZE) PAGE_SIZE] (on_mapping (flush_page n limit)).
Proof.
  apply traces_call.
  - intros x y u H. unfold flush_page in H. apply bind_inv in H as (ext & ? & Hg & H). apply gets_inv in Hg as [-> [= ->]].
    apply bind_inv in H as (o & ? & Hc & H). apply lift_inv in Hc as [-> Hc].
    assert (o = n * PAGE_SIZE) as ->.
    { unfold page_offset in Hc. destruct (limit <=? n); [discriminate |]. symmetry in Hc.
      apply bind_Ok in Hc as (o' & Ho & Hc). apply bind_Ok in Hc as (? & _ & [= <-]).
      apply ok_or_Ok in Ho. unfold checked_mul in Ho. by destruct (_ <=? _); [injection Ho |]. }
    apply bind_inv in H as (? & ? & Hr & H). apply raw_inv in Hr as [-> _].
    apply on_os_inv in H as (w & H & ->). apply noted_inv in H as (w1 & Hs & ->). cbn.
    eapply same_file_logged; [exact Hs | by apply logged_note].
  - intros x y r H Hr. unfold flush_page in H. pure_step H. pure_step H. pure_step H.
    apply same_file_logged_nil. eapply on_os_quiet; [exact H | done |]. intros. by eapply noted_quiet.
Qed.

Lemma sync_file_traces : traces [Synced] (on_mapping sync_file).
Proof.
  apply traces_call.
  - intros x y u H. apply sync_file_inv in H as (w & Hs & ->). cbn. eapply same_file_logged; [exact Hs | by apply logged_note].
  - intros x y r H Hr. unfold sync_file in H. pure_step H.
    apply same_file_logged_nil. eapply on_os_quiet; [exact H | done |]. intros. by eapply noted_quiet.
Qed.

(** An edit that always succeeds with [p]: the page is written, or the call
    fails before. *)
Lemma page_mut_run {A} n limit (edit : io (list Z) A) p x y r :
  (forall old, fst (edit old) = p /\ is_ok (snd (edit old)) = true) -> page_mut n limit edit x = (y, r) ->
  (y = x /\ is_ok r = false) \/ (y = set_os (write_page n p (map_os x)) x /\ is_ok r = true).
Proof.
  intros He H. unfold page_mut, page_mut_after in H.
  repeat (apply pure_then in H; [| solve [apply pure_gets | apply pure_lift | apply pure_raw | apply pure_require_write]];
    destruct H as [? | [? H]]; [by left |]).
  match type of H with (let '(_, _) := edit ?old in _) _ = _ => destruct (He old) as [Hn Hk]; destruct (edit old) as [new r'] end.
  cbn in Hn, Hk. subst new. right. cbn in H. by injection H as <- <-.
Qed.

Lemma page_mut_traces {A} n limit (edit : io (list Z) A) p :
  (forall old, fst (edit old) = p /\ is_ok (snd (edit old)) = true) -> traces [Wrote n p] (on_mapping (page_mut n limit edit)).
Proof.
  intros He. apply traces_call.
  - intros x y a H. destruct (page_mut_run _ _ _ _ _ _ _ He H) as [[_ [=]] | [-> _]]. apply logged_write.
  - intros x y r H Hr. destruct (page_mut_run _ _ _ _ _ _ _ He H) as [[-> _] | [_ Hk]]; [apply logged_refl | congruence].
Qed.

Definition meta_events (target : Z) (p : list Z) : list event :=
  [Wrote target p; Flushed (target * PAGE_SIZE) PAGE_SIZE; Synced].

Lemma publish_meta_traces append meta target p : encode_mapped append meta = Ok p ->
  traces (meta_events target p) (publish_meta append meta target).
Proof.
  intros He. change (meta_events target p) with ([Wrote target p] ++ [Flushed (target * PAGE_SIZE) PAGE_SIZE] ++ [Synced]).
  unfold publish_meta. apply traces_bind; [apply page_mut_traces | intros _; apply traces_bind; [apply flush_page_traces |]].
  - intros old. unfold encode_into. by rewrite He.
  - intros _. apply sync_file_traces.
Qed.

(** The first half: a change of length at most, then a flush of the data pages
    and a sync. *)
Definition quiet (committed : Z) (e : event) : Prop :=
  match e with Wrote _ _ => False | Resized len => len = committed | _ => True end.

Definition data_events (committed : Z) : list event :=
  (if 2 * PAGE_SIZE <? committed then [Flushed (2 * PAGE_SIZE) (committed - 2 * PAGE_SIZE)] else []) ++ [Synced].

Definition w_emits (P : event -> Prop) (s s' : WriterCore) : Prop :=
  exists m', s' = set_mapping m' s /\ m_emits P (wc_mapping s) m'.

#[global] Instance w_emits_preorder P : PreOrder (w_emits P).
Proof.
  split.
  - intros s. exists (wc_mapping s). split; [by rewrite set_mapping_id | reflexivity].
  - intros s s1 s2 (m1 & -> & H1) (m2 & -> & H2). exists m2. split; [done |]. etrans; [exact H1 | exact H2].
Qed.

Lemma on_mapping_emits {A} P (m : io Mapping A) : keeps (m_emits P) m -> keeps (w_emits P) (on_mapping m).
Proof. intros Hm. apply (keeps_zoom _ (m_emits P)); [| exact Hm]. intros s t Ht. by exists t. Qed.

#[local] Hint Resolve on_mapping_emits shrink_or_retain_emits flush_range_emits sync_file_emits len_of_file_emits : keeps.

Lemma on_mapping_inv {A} (m : io Mapping A) s s' r : on_mapping m s = (s', r) ->
  exists m', m (wc_mapping s) = (m', r) /\ s' = set_mapping m' s.
Proof. apply zoom_inv. Qed.

Lemma publish_data_quiet windows cancelled s d : draft s = Some d ->
  w_emits (quiet (page_count (d_meta d) * PAGE_SIZE)) s (fst (publish_data windows cancelled s)).
Proof.
  intros Hd. unfold publish_data.
  destruct (check (cancelled 0%nat)) as [[] | e | t] eqn:Hc; [| by rewrite (bind_err _ _ s s e) | by destruct (cancelled 0%nat)].
  rewrite (bind_ok _ _ s s tt), (bind_ok _ _ s s (Some d)), (bind_ok _ _ s s d) by (done || by rewrite <- Hd).
  match goal with |- w_emits ?P s (fst (?m s)) => enough (keeps (w_emits P) m) as Hk by apply Hk end.
  keeps_tac.
  - apply on_mapping_emits, shrink_or_retain_emits. done.
  - apply on_mapping_emits, flush_range_emits. done.
  - apply on_mapping_emits, sync_file_emits. done.
Qed.

Lemma publish_data_inv windows cancelled s d s1 committed physical : draft s = Some d ->
  publish_data windows cancelled s = (s1, Ok (committed, physical)) ->
  committed = page_count (d_meta d) * PAGE_SIZE /\ committed <= physical
  /\ exists m1 es, s1 = set_mapping m1 s /\ file_len (map_os m1) = physical
     /\ (es = [] \/ es = [Resized committed])
     /\ logged (map_os (wc_mapping s)) (map_os m1) (es ++ data_events committed).
Proof.
  intros Hd H. unfold publish_data in H.
  apply bind_inv in H as (? & ? & Hx & H). apply lift_inv in Hx as [-> _].
  apply bind_inv in H as (o & ? & Hx & H). apply gets_inv in Hx as [-> [= ->]]. rewrite Hd in H.
  apply bind_inv in H as (d' & ? & Hx & H). apply lift_inv in Hx as [-> [= ->]]. cbv zeta in H.
  apply bind_inv in H as (phys & ? & Hx & H). apply on_mapping_inv in Hx as (m1 & Hx & ->).
  apply shrink_or_retain_inv in Hx as (Hle & Hfl & _ & _ & _ & es & Hes & Hl1).
  apply bind_inv in H as (? & s2 & Hf & H).
  assert (Hs2 : exists m2, s2 = set_mapping m2 s /\ logged (map_os m1) (map_os m2)
    (if 2 * PAGE_SIZE <? page_count (d_meta d) * PAGE_SIZE
     then [Flushed (2 * PAGE_SIZE) (page_count (d_meta d) * PAGE_SIZE - 2 * PAGE_SIZE)] else [])
    /\ file_len (map_os m2) = file_len (map_os m1)).
  { destruct (2 * PAGE_SIZE <? page_count (d_meta d) * PAGE_SIZE).
    - apply on_mapping_inv in Hf as (m2 & Hf & ->). apply flush_range_inv in Hf as (w & Hs & ->).
      eexists. split; [reflexivity |]. cbn. split; [| apply Hs].
      eapply same_file_logged; [exact Hs | by apply logged_note].
    - apply ret_inv in Hf as [-> _]. exists m1. split; [done |]. split; [apply logged_refl | done]. }
  destruct Hs2 as (m2 & -> & Hl2 & Hfl2).
  apply bind_inv in H as (? & s3 & Hf' & H). apply on_mapping_inv in Hf' as (m3 & Hf' & ->).
  apply sync_file_inv in Hf' as (w & Hs & ->).
  apply bind_inv in H as (? & ? & Hx & H). apply lift_inv in Hx as [-> _]. apply ret_inv in H as [-> [= -> ->]].
  split; [done |]. split; [done |]. eexists. exists es. split; [reflexivity |]. cbn.
  cbn in Hs. split; [destruct Hs as (-> & _); congruence |]. split; [done |].
  eapply logged_trans; [exact Hl1 |]. unfold data_events. eapply logged_trans; [exact Hl2 |].
  eapply same_file_logged; [exact Hs | by apply logged_note].
Qed.

Section Run.
Context (append : Z -> list Z -> Z) (windows : bool) (cancelled : nat -> bool).
Context (s : WriterCore) (d : Draft) (p : list Z).
Context (Hdraft : draft s = Some d) (Henc : encode_mapped append (d_meta d) = Ok p).

#[local] Notation committed := (page_count (d_meta d) * PAGE_SIZE).
#[local] Notation target := (1 - selected_meta_page (base s)).
#[local] Notation start := (map_os (wc_mapping s)).

(** The data of the draft has been flushed and synced, in a file long enough
    for it. *)
Definition data_synced (es : list event) : Prop :=
  exists es1 w1, es = es1 ++ data_events committed /\ logged start w1 es /\ committed <= file_len w1.

(** Where each outcome leaves the writer, and what it has emitted. *)
Definition published (s' : WriterCore) (es_m : list event) (r : Result PublishOutcome) : Prop :=
  match r with
  | Ok CommittedPublish => es_m = meta_events target p /\ draft s' = None
      /\ exists physical, base s' = mkBootstrap (d_meta d) ProvenCurrent target committed physical
  | Ok (BeforePublication _) => es_m = [] /\ base s' = base s /\ draft s' = Some d
  | Ok (OutcomeUnknown _) => base s' = base s /\ draft s' = None
  | Err _ => False
  | Panic _ => True
  end.

Lemma publish_run s' r : publish append windows cancelled s = (s', r) ->
  exists es_d es_m, logged start (map_os (wc_mapping s')) (es_d ++ es_m)
    /\ Forall (quiet committed) es_d /\ es_m `prefix_of` meta_events target p
    /\ (es_m = [] \/ data_synced es_d) /\ published s' es_m r.
Proof using Hdraft Henc.
  intros H. pose proof (publish_data_quiet windows cancelled s d Hdraft) as (m1 & Hs1 & es_d & Hl & Hq).
  unfold publish in H. destruct (publish_data windows cancelled s) as [s1 [[c phys] | e | t]] eqn:Hdata; cbn in Hs1; subst s1.
  2: { erewrite bind_ok in H by (unfold attempt; rewrite Hdata; reflexivity). apply ret_inv in H as [-> ->].
       exists es_d, []. rewrite app_nil_r. split; [done |]. split; [done |]. split; [apply prefix_nil |]. split; [by left |]. done. }
  2: { unfold attempt, mbind, io_bind in H. rewrite Hdata in H. injection H as <- <-.
       exists es_d, []. rewrite app_nil_r. split; [done |]. split; [done |]. split; [apply prefix_nil |]. split; [by left |]. done. }
  erewrite bind_ok in H by (unfold attempt; rewrite Hdata; reflexivity). cbv beta iota in H.
  destruct (publish_data_inv _ _ _ _ _ _ _ Hdraft Hdata) as (-> & Hle & m1' & es1 & Hm1 & Hfl & Hes1 & Hl1).
  assert (m1' = m1) as -> by (by apply (f_equal wc_mapping) in Hm1). clear Hm1.
  assert (es_d = es1 ++ data_events committed) as ->.
  { destruct Hl as (He & _), Hl1 as (He' & _). rewrite He in He'. by apply app_inv_head in He'. }
  rewrite (bind_ok _ _ _ (set_mapping m1 s) (Some d)) in H by (unfold gets; cbn; by rewrite Hdraft).
  rewrite (bind_ok _ _ _ (set_mapping m1 s) d) in H by done. cbv zeta in H.
  rewrite (bind_ok _ _ _ (set_mapping m1 s) (base s)) in H by done.
  destruct (publish_meta_traces append (d_meta d) target p Henc (set_mapping m1 s)) as (es_m & m2 & Hs2 & Hl2 & Hpre & Hok).
  exists (es1 ++ data_events committed), es_m.
  assert (Hsync : data_synced (es1 ++ data_events committed)).
  { exists es1, (map_os m1). split; [done |]. split; [done |]. by rewrite Hfl. }
  assert (Hm2 : wc_mapping s' = m2 /\ published s' es_m r).
  { destruct (publish_meta append (d_meta d) target (set_mapping m1 s)) as [s2 [[] | e | t]] eqn:Hmeta; cbn in Hs2, Hok; subst s2.
    - erewrite bind_ok in H by (unfold attempt; rewrite Hmeta; reflexivity). cbv beta iota in H.
      erewrite bind_ok in H by reflexivity. apply ret_inv in H as [-> ->]. cbn. rewrite (Hok eq_refl).
      split; [done |]. split; [done |]. split; [done |]. by eexists.
    - erewrite bind_ok in H by (unfold attempt; rewrite Hmeta; reflexivity). cbv beta iota in H.
      unfold outcome_unknown in H. erewrite bind_ok in H by reflexivity. by apply ret_inv in H as [-> ->].
    - unfold attempt, mbind, io_bind in H. rewrite Hmeta in H. by injection H as <- <-. }
  destruct Hm2 as [-> Hpub]. split; [by eapply logged_trans |]. split; [done |]. split; [done |]. split; [by right | done].
Qed.
End Run.

(** ** Crash images of a publication *)

Lemma prefix_split {A} (es l1 l2 : list A) : es `prefix_of` l1 ++ l2 ->
  es `prefix_of` l1 \/ exists es', es = l1 ++ es' /\ es' <> [] /\ es' `prefix_of` l2.
Proof.
  revert es. induction l1 as [|a l1 IH]; intros es H; cbn in *.
  - destruct es as [|e es]; [left; apply prefix_nil |]. right. by exists (e :: es).
  - destruct es as [|e es]; [left; apply prefix_nil |].
    apply prefix_cons_inv_1 in H as He. apply prefix_cons_inv_2 in H. subst e.
    destruct (IH _ H) as [? | (es' & -> & ? & ?)]; [left; by apply prefix_cons | right; by exists es'].
Qed.

Lemma Forall_prefix {A} (P : A -> Prop) es l : es `prefix_of` l -> Forall P l -> Forall P es.
Proof. intros [k ->] H. by apply Forall_app in H as [? _]. Qed.

Lemma draft_spares committed n e : n < 2 -> 2 * PAGE_SIZE <= committed -> draft_event committed e -> spares n e.
Proof. intros Hn Hc. destruct e; cbn; unfold PAGE_SIZE in *; lia. Qed.
Lemma quiet_spares committed n e : (n + 1) * PAGE_SIZE <= committed -> quiet committed e -> spares n e.
Proof. intros Hn. destruct e; cbn; intros; subst; done || lia. Qed.
Lemma meta_spares target p n : n <> target -> Forall (spares n) (meta_events target p).
Proof. intros. repeat constructor. cbn. lia. Qed.

Lemma spares_content n d es : Forall (spares n) es -> content (page_after n d es) = content d.
Proof.
  intros H. revert d. induction H as [|e es He _ IH]; intros d; [done |]. cbn [page_after fold_left].
  fold (page_after n (age n d e) es). rewrite IH.
  destruct e as [k q | o l | | l], d as [q' | [] q']; cbn in *; try done; by case_match; zb; try lia.
Qed.

Section Crash.
Context (path : crc_path) (append : Z -> list Z -> Z) (w0 : Machine) (s : WriterCore) (d : Draft) (es0 : list event).
Context (Happ : continues_crc32c append) (Htx : in_transaction path w0 s d es0).
Context (p : list Z) (Henc : encode_mapped append (d_meta d) = Ok p).
Context (es_d es_m : list event) (Hq : Forall (quiet (page_count (d_meta d) * PAGE_SIZE)) es_d)
  (Hpre : es_m `prefix_of` meta_events (1 - selected_meta_page (base s)) p)
  (Hsync : es_m = [] \/ data_synced s d es_d).
Context (es : list event) (img : image) (Hes : es `prefix_of` es0 ++ es_d ++ es_m) (Hcr : crashed w0 es img).

#[local] Notation sel := (selected_meta_page (base s)).
#[local] Notation committed := (page_count (d_meta d) * PAGE_SIZE).

Lemma bounds_tx : 2 * PAGE_SIZE <= committed_bytes (base s) <= committed /\ 2 * PAGE_SIZE <= committed.
Proof using Htx.
  destruct (base_proved path w0 s d es0 Htx) as ((m' & [_ (_ & Hcr' & _)] & _) & _ & -> & _).
  pose proof (cr_pages _ Hcr'). pose proof (su_pages _ _ (it_next _ _ _ _ _ Htx)). unfold PAGE_SIZE. lia.
Qed.

Lemma sel_cases : (sel = 0 \/ sel = 1) /\ sel <> 1 - sel.
Proof using Htx. destruct (sel_bit path w0 s d es0 Htx); lia. Qed.

(** Both meta pages are spared by the draft and by the first half. *)
Lemma early_spares n : 0 <= n < 2 -> Forall (spares n) (es0 ++ es_d).
Proof using Htx Hq.
  intros Hn. destruct bounds_tx as [? ?]. apply Forall_app. split.
  - eapply Forall_impl; [exact (it_events _ _ _ _ _ Htx) |]. intros e He. eapply draft_spares; [| | exact He]; lia.
  - eapply Forall_impl; [exact Hq |]. intros e He. eapply quiet_spares; [| exact He]. unfold PAGE_SIZE in *. lia.
Qed.

(** The page of the base generation is never lost. *)
Lemma image_base : img_page img sel = read_page w0 sel.
Proof using Htx Hq Hpre Hes Hcr.
  pose proof (crashed_page _ _ _ Hcr sel) as Hp. rewrite page_after_spares in Hp; [done |].
  eapply Forall_prefix; [exact Hes |]. rewrite app_assoc. apply Forall_app. destruct sel_cases.
  split; [apply early_spares; lia |]. eapply Forall_prefix; [exact Hpre | by apply meta_spares].
Qed.

Lemma image_length : committed_bytes (base s) <= img_len img /\ img_len img mod PAGE_SIZE = 0.
Proof using Htx Hq Hpre Hes Hcr.
  destruct (base_proved path w0 s d es0 Htx) as (_ & _ & _ & Hal & Hlen). destruct bounds_tx as [Hb _].
  pose proof (lengths_after_Forall (fun l => committed_bytes (base s) <= l /\ l mod PAGE_SIZE = 0) [file_len w0] es) as Hf.
  refine (proj1 (Forall_forall _ _) (Hf _ _) _ (crashed_len _ _ _ Hcr)); [by repeat constructor |].
  eapply Forall_prefix; [exact Hes |]. rewrite !Forall_app. split; [| split].
  - eapply Forall_impl; [exact (it_events _ _ _ _ _ Htx) |]. by intros [].
  - eapply Forall_impl; [exact Hq |]. intros [] He; try done. cbn in He. subst. split; [lia | apply Z.mod_mul; done].
  - eapply Forall_prefix; [exact Hpre |]. by repeat constructor.
Qed.

(** Either the meta page is still the old one on storage, or all data of the
    draft is. *)
Lemma image_cases : (es `prefix_of` es0 ++ es_d /\ img_page img (1 - sel) = read_page w0 (1 - sel))
  \/ (committed <= img_len img
      /\ (forall n, 2 <= n < page_count (d_meta d) -> img_page img n = read_page (map_os (wc_mapping s)) n)
      /\ (es = es0 ++ es_d ++ meta_events (1 - sel) p -> img_page img (1 - sel) = p)).
Proof using Htx Hq Hpre Hsync Hes Hcr.
  destruct sel_cases as [Hsel Hne]. rewrite app_assoc in Hes.
  destruct (prefix_split _ _ _ Hes) as [Hearly | (es' & -> & Hnn & Hes')].
  { left. split; [done |]. pose proof (crashed_page _ _ _ Hcr (1 - sel)) as Hp. rewrite page_after_spares in Hp; [done |].
    eapply Forall_prefix; [exact Hearly | apply early_spares; lia]. }
  right. assert (Hnil : es_m <> []) by (intros ->; apply prefix_nil_inv in Hes'; done).
  destruct Hsync as [? | (es1 & w1 & Hd & Hlog & Hlen)]; [done |].
  assert (Hlate : es' `prefix_of` meta_events (1 - sel) p) by (by etrans). split; [| split].
  - pose proof (crashed_len _ _ _ Hcr) as Hl. rewrite !lengths_after_app in Hl.
    pose proof (logged_trans _ _ _ _ _ (it_log _ _ _ _ _ Htx) Hlog) as Hall.
    assert (Hone : lengths_after (lengths_after [file_len w0] es0) es_d = [file_len w1]).
    { rewrite <- lengths_after_app. subst es_d. destruct Hall as (_ & _ & Hh). specialize (Hh []).
      unfold data_events in *. revert Hh. rewrite !app_assoc, lengths_after_app. cbn [lengths_after fold_left lengthen].
      match goal with |- head (take 1 ?x) = _ -> _ => destruct x as [|l ls] end; cbn; by intros [= ->]. }
    rewrite Hone in Hl. 
    assert (Hsame : lengths_after [file_len w1] es' = [file_len w1]).
    { destruct Hlate as [k Hk]. unfold meta_events in Hk. destruct es' as [|? [|? [|? [|]]]]; cbn in Hk; simplify_eq; try done. }
    rewrite Hsame in Hl. by apply list_elem_of_singleton in Hl as ->.
  - intros n Hn. pose proof (crashed_page _ _ _ Hcr n) as Hp. rewrite !page_after_app in Hp.
    set (d0 := page_after n (Settled (read_page w0 n)) es0) in *.
    assert (Hd0 : content d0 = read_page (map_os (wc_mapping s)) n) by (by apply (it_log _ _ _ _ _ Htx)).
    assert (Hset : page_after n d0 es_d = Settled (read_page (map_os (wc_mapping s)) n)).
    { subst es_d. apply Forall_app in Hq as [Hq1 _]. rewrite page_after_app. unfold data_events.
      rewrite (proj2 (Z.ltb_lt _ _)) by (unfold PAGE_SIZE; lia). cbn [app]. rewrite page_after_settle.
      - rewrite spares_content, Hd0; [done |]. eapply Forall_impl; [exact Hq1 |].
        intros e He. eapply quiet_spares; [| exact He]. unfold PAGE_SIZE. lia.
      - unfold covers. apply andb_true_iff. rewrite !Z.leb_le. unfold PAGE_SIZE. lia. }
    rewrite Hset, page_after_spares in Hp; [done |].
    eapply Forall_prefix; [exact Hlate | apply meta_spares; lia].
  - intros He. rewrite app_assoc in He. apply app_inv_head in He as ->.
    pose proof (crashed_page _ _ _ Hcr (1 - sel)) as Hp. rewrite page_after_app in Hp.
    set (d0 := page_after (1 - sel) (Settled (read_page w0 (1 - sel))) (es0 ++ es_d)) in *.
    unfold meta_events in Hp. cbn in Hp. rewrite Z.eqb_refl in Hp.
    assert (Hc : covers ((1 - sel) * PAGE_SIZE) PAGE_SIZE (1 - sel) = true)
      by (unfold covers; apply andb_true_iff; rewrite !Z.leb_le; lia).
    by rewrite Hc in Hp.
Qed.
End Crash.

(** ** Publication always ends in one of its outcomes *)

Definition ready (d : Draft) (s : WriterCore) : Prop := owned (wc_mapping s) /\ draft s = Some d.

Lemma on_mapping_calm {A} d (m : io Mapping A) : calm owned m -> calm (ready d) (on_mapping m).
Proof. intros Hm. eapply calm_zoom; [| | exact Hm]; unfold ready; cbn; tauto. Qed.

#[local] Hint Resolve on_mapping_calm shrink_or_retain_calm flush_range_calm flush_page_calm sync_file_calm : keeps.

Lemma gets_bind_calm {S A B} (I : S -> Prop) (g : S -> A) (f : A -> io S B) s :
  calm_at I (f (g s)) s -> calm_at I (gets g ≫= f) s.
Proof. done. Qed.

Lemma publish_data_calm windows cancelled d : calm (ready d) (publish_data windows cancelled).
Proof.
  unfold publish_data. apply calm_bind; [apply calm_lift; by destruct (cancelled 0%nat) | intros _].
  intros s [Ho Hd]. apply gets_bind_calm. rewrite Hd.
  match goal with |- calm_at ?I ?m s => enough (calm I m) as Hc by by apply Hc end.
  calm_tac; by destruct (cancelled 1%nat).
Qed.

Lemma publish_meta_calm append d meta target : (forall t, encode_mapped append meta <> Panic t) ->
  calm (ready d) (publish_meta append meta target).
Proof.
  intros He. unfold publish_meta. apply calm_bind; [| intros _; calm_tac].
  apply on_mapping_calm, page_mut_calm. intros p t. unfold encode_into.
  specialize (He t). by destruct (encode_mapped append meta); cbn; intros [= ->].
Qed.

Lemma publish_no_panic append windows cancelled s d : ready d s -> (forall t, encode_mapped append (d_meta d) <> Panic t) ->
  forall t, snd (publish append windows cancelled s) <> Panic t.
Proof.
  intros Hs He. unfold publish.
  pose proof (calm_attempt _ _ (publish_data_calm windows cancelled d) s Hs) as [Hs1 Hp1].
  unfold mbind, io_bind at 1.
  destruct (attempt (publish_data windows cancelled) s) as [s1 [[[c ph] | e] | e | t]]; cbn in Hs1, Hp1 |- *; try done.
  2: { intros t' _. by destruct (Hp1 t). }
  rewrite (proj2 Hs1). cbn. unfold io_bind.
  pose proof (calm_attempt _ _ (publish_meta_calm append d (d_meta d) (1 - selected_meta_page (base s1)) He) s1 Hs1) as [_ Hp2].
  destruct (attempt (publish_meta append (d_meta d) _) s1) as [s2 [[u | e] | e | t]]; cbn in Hp2 |- *; try done.
  intros t' _. by destruct (Hp2 t).
Qed.
