(* ===== verification/CrashTheorems.v ===== *)
(** * What a publication promises

    The theorems about [publish]: a crash at any point leaves a file that
    opens as the old generation or as the new one, the new one only with all
    of its pages; an outcome the writer has reported stays true; a torn meta
    page is refused and never costs the old generation. *)

From stdpp Require Import base tactics numbers list strings gmap.
From Stdlib Require Import ZArith Lia.
From S2P Require Import Prelude Errors Bytes Checksum ChecksumFacts Contract ContractFacts Bootstrap BootstrapFacts Machine Mapping MappingFacts.
From S2P Require Import Draft WriterCore PublicationFacts.

#[local] Open Scope string_scope.
#[local] Open Scope list_scope.
#[local] Open Scope Z_scope.
#[local] Opaque crc32c_pointer_table.

(** What happened to the file since it was [w]. *)
Definition since (w : Machine) (s : WriterCore) : list event :=
  drop (length (events w)) (events (map_os (wc_mapping s))).

Lemma since_logged w s es : logged w (map_os (wc_mapping s)) es -> since w s = es.
Proof. intros (He & _). unfold since. rewrite He. apply drop_app_length. Qed.

(** The next writer to open what a crash left. *)
Definition reopen (path : crc_path) (img : image) : outcome BootstrapError Bootstrap :=
  open_meta_pages path true (img_page img 0) (img_page img 1) (img_len img) Writer.

(** The crash left every page of the draft as it was when it was published. *)
Definition draft_pages_stored (s : WriterCore) (d : Draft) (img : image) : Prop :=
  forall n, 2 <= n < page_count (d_meta d) -> img_page img n = read_page (map_os (wc_mapping s)) n.

(** Everything the theorems need of one run of [publish]. *)
Lemma publication_run path append windows cancelled w0 s d es0 s' r :
  continues_crc32c append -> in_transaction path w0 s d es0 -> publish append windows cancelled s = (s', r) ->
  exists p es_d es_m, encode_mapped append (d_meta d) = Ok p /\ since w0 s' = es0 ++ es_d ++ es_m
    /\ Forall (quiet (page_count (d_meta d) * PAGE_SIZE)) es_d
    /\ es_m `prefix_of` meta_events (1 - selected_meta_page (base s)) p
    /\ (es_m = [] \/ data_synced s d es_d) /\ published s d p s' es_m r.
Proof.
  intros Happ Htx Hrun. pose proof (su_ok _ _ (it_next _ _ _ _ _ Htx)) as Hok.
  destruct (encoded_page append (d_meta d) Happ Hok) as (p & Henc & _).
  destruct (publish_run append windows cancelled s d p (it_draft _ _ _ _ _ Htx) Henc s' r Hrun)
    as (es_d & es_m & Hl & Hq & Hpre & Hsync & Hpub).
  exists p, es_d, es_m. split; [done |]. split; [| done].
  apply since_logged. eapply logged_trans; [apply Htx | exact Hl].
Qed.

Lemma image_pair sel (f : Z -> list Z) : sel = 0 \/ sel = 1 -> (f 0, f 1) = paired sel (f sel) (f (1 - sel)).
Proof. by intros [-> | ->]. Qed.

Section Reopen.
Context (path : crc_path) (append : Z -> list Z -> Z) (w0 : Machine) (s : WriterCore) (d : Draft) (es0 : list event).
Context (Happ : continues_crc32c append) (Htx : in_transaction path w0 s d es0) (img : image).
#[local] Notation sel := (selected_meta_page (base s)).
Context (Hsel : img_page img sel = read_page w0 sel).

Lemma reopens_base : img_page img (1 - sel) = read_page w0 (1 - sel) ->
  committed_bytes (base s) <= img_len img -> img_len img mod PAGE_SIZE = 0 ->
  exists b, reopen path img = Ok b /\ bs_meta b = bs_meta (base s).
Proof using Htx Hsel.
  intros Hold Hl Hal. pose proof (reopen_base path w0 s d es0 Htx (img_len img) Hl Hal) as Ho.
  exists (mkBootstrap (bs_meta (base s)) ProvenCurrent sel (committed_bytes (base s)) (img_len img)).
  split; [| reflexivity]. unfold reopen. rewrite <- Ho.
  destruct (sel_bit path w0 s d es0 Htx) as [E | E]; rewrite E in Hsel, Hold; change (1 - 0) with 1 in Hold;
    change (1 - 1) with 0 in Hold; by rewrite Hsel, Hold.
Qed.

Lemma reopens_next : encode_mapped append (d_meta d) = Ok (img_page img (1 - sel)) ->
  page_count (d_meta d) * PAGE_SIZE <= img_len img -> img_len img mod PAGE_SIZE = 0 ->
  exists b, reopen path img = Ok b /\ bs_meta b = d_meta d.
Proof using Happ Htx Hsel.
  intros Henc Hl Hal. exists (mkBootstrap (d_meta d) ProvenCurrent (1 - sel) (page_count (d_meta d) * PAGE_SIZE) (img_len img)).
  split; [| reflexivity]. unfold reopen.
  apply (reopen_next path w0 s d es0 Htx append _ _ _ _ Happ Henc Hl Hal).
  rewrite <- Hsel. apply image_pair, (sel_bit path w0 s d es0 Htx).
Qed.
End Reopen.

(** C25: a crash at any point of a transaction's publication, whatever the
    operating system answered, leaves a file the next writer opens, as long as
    the meta page itself holds its old or its new bytes: as the generation
    before, or as the new one, and as the new one only when every page of it is
    on storage. *)
Theorem publish_crash_atomic path append windows cancelled w0 s d es0 s' r es img :
  continues_crc32c append -> in_transaction path w0 s d es0 ->
  publish append windows cancelled s = (s', r) ->
  es `prefix_of` since w0 s' -> crashed w0 es img ->
  (let target := 1 - selected_meta_page (base s) in
   img_page img target = read_page w0 target \/ encode_mapped append (d_meta d) = Ok (img_page img target)) ->
  exists b, reopen path img = Ok b
    /\ (bs_meta b = bs_meta (base s) \/ bs_meta b = d_meta d /\ draft_pages_stored s d img).
Proof.
  cbv zeta. intros Happ Htx Hrun Hes Hcr Hatomic.
  destruct (publication_run _ _ _ _ _ _ _ _ _ _ Happ Htx Hrun) as (p & es_d & es_m & Henc & Hev & Hq & Hpre & Hsync & _).
  rewrite Hev in Hes.
  pose proof (image_base path w0 s d es0 Htx p es_d es_m Hq Hpre es img Hes Hcr) as Hb.
  destruct (image_length path w0 s d es0 Htx p es_d es_m Hq Hpre es img Hes Hcr) as [Hl Hal].
  destruct (image_cases path w0 s d es0 Htx p es_d es_m Hq Hpre Hsync es img Hes Hcr) as [[_ Hold] | (Hlen & Hdata & _)].
  - destruct (reopens_base path w0 s d es0 Htx img Hb Hold Hl Hal) as (b & Ho & Hm). exists b. tauto.
  - destruct Hatomic as [Hold | Hnew].
    + destruct (reopens_base path w0 s d es0 Htx img Hb Hold Hl Hal) as (b & Ho & Hm). exists b. tauto.
    + destruct (reopens_next path append w0 s d es0 Happ Htx img Hb Hnew Hlen Hal) as (b & Ho & Hm). exists b. tauto.
Qed.

(** C26: publication always reports one of its outcomes, and the report stays
    true through a crash: after [Committed] the file opens as the new
    generation with all of its pages, and the writer's own base is what a
    writer would read; after [BeforePublication] it opens as the old one, and
    the writer still has its draft. *)
Theorem publish_outcome_durable path append windows cancelled w0 s d es0 s' r img :
  continues_crc32c append -> in_transaction path w0 s d es0 -> owned (wc_mapping s) ->
  publish append windows cancelled s = (s', r) -> crashed w0 (since w0 s') img ->
  exists o, r = Ok o /\
  match o with
  | CommittedPublish => exists b, reopen path img = Ok b /\ bs_meta b = d_meta d
      /\ draft_pages_stored s d img /\ bs_meta (base s') = bs_meta b
      /\ selected_meta_page (base s') = 1 - selected_meta_page (base s) /\ draft s' = None
  | BeforePublication _ => exists b, reopen path img = Ok b /\ bs_meta b = bs_meta (base s)
      /\ base s' = base s /\ draft s' = Some d
  | OutcomeUnknown _ => base s' = base s /\ draft s' = None
  end.
Proof.
  intros Happ Htx Hown Hrun Hcr.
  destruct (publication_run _ _ _ _ _ _ _ _ _ _ Happ Htx Hrun) as (p & es_d & es_m & Henc & Hev & Hq & Hpre & Hsync & Hpub).
  rewrite Hev in Hcr. pose proof (reflexivity (es0 ++ es_d ++ es_m) : _ `prefix_of` _) as Hes.
  pose proof (image_base path w0 s d es0 Htx p es_d es_m Hq Hpre _ img Hes Hcr) as Hb.
  destruct (image_length path w0 s d es0 Htx p es_d es_m Hq Hpre _ img Hes Hcr) as [Hl Hal].
  assert (Hnp : forall t, r <> Panic t).
  { pose proof (publish_no_panic append windows cancelled s d (conj Hown (it_draft _ _ _ _ _ Htx)) ltac:(by rewrite Henc)) as Hn.
    by rewrite Hrun in Hn. }
  destruct r as [o | e | t]; [exists o; split; [done |] | done | by destruct (Hnp t)].
  destruct o as [e | e |]; cbn in Hpub.
  - destruct Hpub as (-> & Hbase & Hdraft). rewrite app_nil_r in Hcr.
    assert (Hold : img_page img (1 - selected_meta_page (base s)) = read_page w0 (1 - selected_meta_page (base s))).
    { pose proof (crashed_page _ _ _ Hcr (1 - selected_meta_page (base s))) as Hp.
      rewrite page_after_spares in Hp; [done |]. apply (early_spares path w0 s d es0 Htx es_d Hq).
      destruct (sel_bit path w0 s d es0 Htx); lia. }
    destruct (reopens_base path w0 s d es0 Htx img Hb Hold Hl Hal) as (b & Ho & Hm). by exists b.
  - done.
  - destruct Hpub as (-> & Hdraft & physical & Hbase).
    destruct Hsync as [? | Hsync]; [done |].
    destruct (image_cases path w0 s d es0 Htx p es_d _ Hq Hpre (or_intror Hsync) _ img Hes Hcr) as [[Hearly _] | (Hlen & Hdata & Hnew)].
    + exfalso. apply prefix_length in Hearly. rewrite !length_app in Hearly. cbn in Hearly. lia.
    + destruct (reopens_next path append w0 s d es0 Happ Htx img Hb ltac:(by rewrite Hnew) Hlen Hal) as (b & Ho & Hm).
      exists b. split; [done |]. split; [done |]. split; [done |]. by rewrite Hbase, Hm.
Qed.

(** ** A torn meta page *)

Lemma unreadable_candidate path q physical : page_ok q -> (forall m, ~ readable path true q m) ->
  exists e, candidate path true q physical = Err e.
Proof.
  intros Hq Hn. destruct (candidate path true q physical) as [m | e | t] eqn:Hc; [| by exists e |].
  - apply (candidate_Ok path true q physical m Hq) in Hc as [Hr _]. by apply Hn in Hr.
  - by apply candidate_no_panic in Hc.
Qed.

Lemma sole_refused path q0 q1 physical m0 m1 e : 2 * PAGE_SIZE <= physical -> physical mod PAGE_SIZE = 0 ->
  (forall a b, readable path true q0 a -> readable path true q1 b -> static_identity_eq a b = true) ->
  candidate path true q0 physical = m0 -> candidate path true q1 physical = m1 ->
  (exists m, is_Some (structure_kind m) /\ (m0 = Ok m /\ m1 = Err e \/ m0 = Err e /\ m1 = Ok m)) ->
  open_meta_pages path true q0 q1 physical Writer = Err CurrentGenerationUnprovable.
Proof.
  intros H2 Hal Hid H0 H1 (m & Hk & Hm). unfold open_meta_pages.
  run (proj2 (decides_Ok _ _ (geometry_decides physical)) (conj H2 Hal)).
  run (proj2 (same_identity_Ok (identity_readable path true q0) (identity_readable path true q1))
        (fun a b Ha Hb => Hid a b (proj1 (identity_Ok _ _ _ _) Ha) (proj1 (identity_Ok _ _ _ _) Hb))).
  rewrite H0, H1. unfold finish_open, refuse.
  destruct Hm as [[-> ->] | [-> ->]]; cbn [select_candidates mbind outcome_bind];
    by rewrite (bool_decide_true (is_Some (structure_kind m))) by done.
Qed.

(** C27: when the crash tore the meta page being written, so that it is not
    readable, no writer opens the file, it reports that the current generation
    cannot be proved; the page of the generation before is intact and is still
    a candidate, for recovery to start from. *)
Theorem torn_meta_page_refused path append windows cancelled w0 s d es0 s' r es img :
  continues_crc32c append -> in_transaction path w0 s d es0 ->
  publish append windows cancelled s = (s', r) ->
  es `prefix_of` since w0 s' -> crashed w0 es img ->
  page_ok (img_page img (1 - selected_meta_page (base s))) ->
  (forall m, ~ readable path true (img_page img (1 - selected_meta_page (base s))) m) ->
  reopen path img = Err CurrentGenerationUnprovable
  /\ candidate path true (img_page img (selected_meta_page (base s))) (img_len img) = Ok (bs_meta (base s)).
Proof.
  intros Happ Htx Hrun Hes Hcr Hok Htorn.
  destruct (publication_run _ _ _ _ _ _ _ _ _ _ Happ Htx Hrun) as (p & es_d & es_m & Henc & Hev & Hq & Hpre & Hsync & _).
  rewrite Hev in Hes.
  pose proof (image_base path w0 s d es0 Htx p es_d es_m Hq Hpre es img Hes Hcr) as Hb.
  destruct (image_length path w0 s d es0 Htx p es_d es_m Hq Hpre es img Hes Hcr) as [Hl Hal].
  destruct (base_proved path w0 s d es0 Htx) as ((m' & Hm & _) & Hk & Hc & _).
  destruct (bounds_tx path w0 s d es0 Htx) as [[H2 _] _].
  assert (Hcand : candidate path true (img_page img (selected_meta_page (base s))) (img_len img) = Ok (bs_meta (base s))).
  { rewrite Hb. apply candidate_Ok; [destruct (sel_bit path w0 s d es0 Htx) as [-> | ->]; apply Htx |].
    eapply eligible_resize; [| rewrite <- Hc; exact Hl].
    destruct (sel_bit path w0 s d es0 Htx) as [E | E]; rewrite E in Hm |- *; exact Hm. }
  assert (HL : 2 * PAGE_SIZE <= img_len img) by lia.
  split; [| exact Hcand]. destruct (unreadable_candidate path _ (img_len img) Hok Htorn) as [e He]. unfold reopen.
  destruct (sel_bit path w0 s d es0 Htx) as [E | E]; rewrite E in Hcand, He, Htorn;
    change (1 - 0) with 1 in *; change (1 - 1) with 0 in *.
  - apply (sole_refused path _ _ (img_len img) _ _ e HL Hal (fun a b _ Hr => False_ind _ (Htorn b Hr)) Hcand He).
    exists (bs_meta (base s)). split; [done | by left].
  - apply (sole_refused path _ _ (img_len img) _ _ e HL Hal (fun a b Hr _ => False_ind _ (Htorn a Hr)) He Hcand).
    exists (bs_meta (base s)). split; [done | by right].
Qed.

(** ** Creating a database

    [empty_meta] and [write_empty] of [database_file.rs]: the empty image is a
    generation every open mode accepts, and it is on storage when the call
    returns. *)

#[local] Opaque crc32c_pointer_table.

(** The types of the specification's fields, and the combinations of value
    kind and structure kind that exist. *)
Record spec_ok (spec : EmptySpec) : Prop := {
  sp_tag : is_id16 (es_value_tag spec) /\ tag_from_wire (es_value_tag spec) = Some (es_value_tag spec);
  sp_database : is_id16 (es_database_id spec) /\ es_database_id spec <> zero_id;
  sp_nonce : is_id16 (es_commit_nonce spec) /\ es_commit_nonce spec <> zero_id;
  sp_txn : 0 < es_transaction_id spec <= u64_max;
  sp_kind : match es_value_kind spec with
            | Direct => es_structure_kind spec = NoStructure /\ es_feed_index_limit spec = 0
            | Membership => es_structure_kind spec = NoStructure /\ 0 <= es_feed_index_limit spec <= MAX_PAGE_COUNT
            | Structured => es_structure_kind spec = NetworkEnrichmentV1 /\ 0 <= es_feed_index_limit spec <= MAX_PAGE_COUNT
            end;
}.

Lemma empty_meta_ok spec : spec_ok spec -> meta_ok (empty_meta spec).
Proof.
  intros Hs. pose proof (sp_kind _ Hs) as Hk. pose proof (sp_txn _ Hs).
  assert (Hf : 0 <= es_feed_index_limit spec <= MAX_PAGE_COUNT)
    by (destruct (es_value_kind spec); unfold MAX_PAGE_COUNT in *; lia). clear Hk.
  constructor; cbn; try apply Hs.
  - by destruct (es_structure_kind spec).
  - unfold is_u64, u64_max in *. lia.
  - unfold is_u64, MAX_PAGE_COUNT, u64_max in *. destruct (es_value_kind spec); cbn; repeat constructor; lia.
  - unfold is_u32. repeat constructor; lia.
  - unfold is_u32. split; [done |]. repeat constructor; lia.
  - unfold is_u64. case_bool_decide; cbn; repeat constructor; lia.
  - unfold is_u32. repeat constructor; lia.
Qed.

Lemma empty_rules spec : spec_ok spec -> generation_rules (empty_meta spec) (2 * PAGE_SIZE).
Proof.
  intros Hs. pose proof (sp_kind _ Hs) as Hk. pose proof (sp_txn _ Hs). split; [split; cbn; [lia | apply Hs] |].
  split; [| cbn; unfold PAGE_SIZE; lia].
  constructor; cbn.
  - unfold MAX_PAGE_COUNT. lia.
  - repeat constructor.
  - split; [constructor | constructor].
  - unfold range_leaf_capacity. lia.
  - unfold retired_leaf_capacity. lia.
  - done.
  - unfold kind_rules, no_structures, no_feeds, feed_rules, dictionary_rules. cbn. unfold MAX_PAGE_COUNT, u32_max in *.
    destruct (es_value_kind spec); destruct Hk as [-> Hk]; try rewrite bool_decide_true by done; cbn;
      intuition (lia || congruence).
Qed.

(** ** The events of [write_empty] *)

Definition empty_events (p : list Z) : list event :=
  [Resized (2 * PAGE_SIZE); Wrote 0 p; Wrote 1 p; Flushed 0 (2 * PAGE_SIZE); Synced].

Lemma mapping_view_inv access len w w' m : mapping_view access len w = (w', Ok m) ->
  same_file w w' /\ map_os m = w'.
Proof.
  unfold mapping_view, mapping_new, mbind, io_bind, lift.
  destruct (checked_len len) as [l | e | t]; cbn; try (by intros [=]).
  destruct (require_file_extent l _) as [m1 [u | e | t]] eqn:He; cbn; try (by intros [=]).
  destruct (map_nonempty l m1) as [m2 [live | e | t]] eqn:Hn; cbn; try (by intros [=]).
  intros [= <- <-]. cbn. split; [| done].
  apply map_nonempty_inv in Hn as (w2 & Hs2 & -> & _). cbn.
  unfold require_file_extent in He. apply bind_inv in He as (l' & ? & Hl & He).
  apply len_of_file_inv in Hl as (w1 & Hs1 & -> & ->). apply lift_inv in He as [-> _]. cbn in *. by etrans.
Qed.

Lemma write_empty_logged append spec p w w' u : encode_mapped append (empty_meta spec) = Ok p ->
  write_empty append spec w = (w', Ok u) -> logged w w' (empty_events p).
Proof.
  intros Henc H. unfold write_empty in H.
  apply bind_inv in H as (? & w1 & Hc & H). apply noted_inv in Hc as (w1' & Hs1 & ->).
  apply bind_inv in H as (m & w2 & Hv & H). apply mapping_view_inv in Hv as [Hs2 Hm].
  apply bind_inv in H as (? & w3 & Hr & H). apply noted_inv in H as (w3' & Hs3 & ->).
  unfold run_in in Hr.
  destruct ((_ ← page_mut 0 2 _; _) m) as [m3 r3] eqn:Hw in Hr. injection Hr as <- ->.
  assert (He : forall old, fst (encode_into append (empty_meta spec) old) = p
    /\ is_ok (snd (encode_into append (empty_meta spec) old)) = true) by (intros old; unfold encode_into; by rewrite Henc).
  apply bind_inv in Hw as (? & m4 & H0 & Hw). apply (page_mut_run _ _ _ p) in H0 as [[_ [=]] | [-> _]]; [| exact He].
  apply bind_inv in Hw as (? & m5 & H1 & Hw). apply (page_mut_run _ _ _ p) in H1 as [[_ [=]] | [-> _]]; [| exact He].
  apply flush_range_inv in Hw as (w6 & Hs6 & ->). cbn in Hs6, Hs3. subst w2.
  change (empty_events p) with ([Resized (2 * PAGE_SIZE)] ++ [Wrote 0 p] ++ [Wrote 1 p] ++ [Flushed 0 (2 * PAGE_SIZE)] ++ [Synced]).
  eapply same_file_logged; [exact Hs1 |]. eapply logged_trans; [apply logged_cut |].
  eapply same_file_logged; [exact Hs2 |]. eapply logged_trans; [apply logged_write |]. eapply logged_trans; [apply logged_write |].
  eapply same_file_logged; [exact Hs6 |]. eapply logged_trans; [by apply logged_note |].
  eapply same_file_logged; [exact Hs3 |]. by apply logged_note.
Qed.

(** C28: once [write_empty] has returned, whatever a crash does then, the file
    is exactly two pages long and opens in every mode as the empty database of
    its specification. *)
Theorem empty_database_opens path append spec w w' u es img mode :
  continues_crc32c append -> spec_ok spec ->
  write_empty append spec w = (w', Ok u) -> events w' = events w ++ es -> crashed w es img ->
  exists b, open_meta_pages path true (img_page img 0) (img_page img 1) (img_len img) mode = Ok b
    /\ bs_meta b = empty_meta spec /\ bs_selection b = ProvenCurrent
    /\ committed_bytes b = 2 * PAGE_SIZE /\ physical_bytes b = 2 * PAGE_SIZE.
Proof.
  intros Happ Hspec Hrun Hev Hcr.
  destruct (encoded_page append (empty_meta spec) Happ (empty_meta_ok spec Hspec)) as (p & Henc & Hp & Hh & Hr & Hc).
  pose proof (write_empty_logged append spec p w w' u Henc Hrun) as (Hev' & _).
  rewrite Hev in Hev'. apply app_inv_head in Hev' as ->.
  assert (Hlen : img_len img = 2 * PAGE_SIZE) by (pose proof (crashed_len _ _ _ Hcr) as Hl; by apply list_elem_of_singleton in Hl).
  pose proof (crashed_page _ _ _ Hcr 0) as H0. pose proof (crashed_page _ _ _ Hcr 1) as H1.
  cbn in H0, H1. rewrite Hlen, H0, H1. clear H0 H1 Hcr Hev Hrun.
  assert (He : eligible path true p (2 * PAGE_SIZE) (empty_meta spec)).
  { split; [| by apply empty_rules]. pose proof (empty_meta_ok spec Hspec) as Hm.
    split; [apply (accepted_of_fields path true _ p Hm Hp Hh Hr (Hc path true)) |].
    split; [by apply decode_holds; [| apply Hp |] | apply Hspec]. }
  pose proof (empty_rules spec Hspec) as (_ & Hcr & _). 
  assert (Hk : is_Some (structure_kind (empty_meta spec))) by (unfold structure_kind; cbn; destruct (es_structure_kind spec); by eexists).
  unfold open_meta_pages. rewrite (proj2 (candidate_Ok path true p _ _ Hp) He).
  run (proj2 (decides_Ok _ _ (geometry_decides (2 * PAGE_SIZE))) (conj (Z.le_refl _) eq_refl)).
  run (proj2 (same_identity_Ok (identity_readable path true p) (identity_readable path true p))
        (fun a b Ha Hb => ltac:(rewrite Ha in Hb; injection Hb as <-; apply static_identity_spec; done))).
  cbn [select_candidates]. unfold select_pair. rewrite Z.eqb_refl.
  assert (Hs : same p p 0 META_SIZE = true)
    by (apply same_bytes; [apply Hp | apply Hp | unfold META_SIZE, PAGE_SIZE; lia | done]).
  rewrite Hs. cbn [negb mbind outcome_bind]. unfold finish_open, refuse.
  rewrite (bool_decide_true (is_Some _)) by done.
  exists (mkBootstrap (empty_meta spec) ProvenCurrent (Z.land (txn_id (empty_meta spec)) 1) (2 * PAGE_SIZE) (2 * PAGE_SIZE)).
  split; [| done]. by destruct mode.
Qed.

(** ** Discarding a draft and closing

    [discard_unpublished] and the two steps of a writer's close never write a
    page and never lose the committed generation, on any path. *)

(** The state moved by calls of the mapping and by the note of the tail's end. *)
Definition trims (committed : Z) (s s' : WriterCore) : Prop :=
  exists m t, s' = mkWriterCore m (base s) (wc_budget s) (draft s) t /\ m_emits (quiet committed) (wc_mapping s) m.

#[global] Instance trims_preorder committed : PreOrder (trims committed).
Proof.
  split.
  - intros s. exists (wc_mapping s), (unproved_tail_end s). split; [by destruct s | reflexivity].
  - intros s s1 s2 (m1 & t1 & -> & H1) (m2 & t2 & -> & H2). exists m2, t2. split; [done |]. etrans; [exact H1 | exact H2].
Qed.

Lemma on_mapping_trims {A} committed (m : io Mapping A) : keeps (m_emits (quiet committed)) m -> keeps (trims committed) (on_mapping m).
Proof. intros Hm. apply (keeps_zoom _ (m_emits (quiet committed))); [| exact Hm]. intros s t Ht. by exists t, (unproved_tail_end s). Qed.

Lemma set_tail_trims committed t : keeps (trims committed) (modify (set_tail t)).
Proof. apply keeps_modify. intros s. exists (wc_mapping s), t. split; [done | reflexivity]. Qed.

Section Quiet.
Context (P : event -> Prop).
#[local] Hint Resolve raw_emits len_of_file_emits replace_map_emits : keeps.

Lemma page_emits n limit : keeps (m_emits P) (page n limit).
Proof using Type. unfold page. keeps_tac. Qed.
#[local] Hint Resolve page_emits : keeps.
Lemma bootstrap_mapping_emits path physical mode : keeps (m_emits P) (bootstrap_mapping path physical mode).
Proof using Type. unfold bootstrap_mapping. keeps_tac. Qed.
Lemma remap_emits len : keeps (m_emits P) (remap len).
Proof using Type.
  unfold remap, require_file_extent. keeps_tac.
Qed.
End Quiet.

#[local] Hint Resolve on_mapping_trims set_tail_trims len_of_file_emits bootstrap_mapping_emits remap_emits
  shrink_or_retain_emits sync_file_emits : keeps.

Section Cleanup.
Context (path : crc_path) (windows : bool).

Lemma require_unchanged_trims c : keeps (trims c) (require_unchanged_base path).
Proof using Type. unfold require_unchanged_base. keeps_tac. Qed.
#[local] Hint Resolve require_unchanged_trims : keeps.
Lemma verify_discard_trims c physical : keeps (trims c) (verify_discard_result path physical).
Proof using Type. unfold verify_discard_result. keeps_tac. Qed.

(** Trimming sets no length but the committed one of the writer's base. *)
Lemma trim_tail_trims s : trims (committed_bytes (base s)) s (fst (trim_unpublished_tail windows s)).
Proof using Type.
  unfold trim_unpublished_tail.
  pose proof (on_mapping_trims (committed_bytes (base s)) len_of_file (len_of_file_emits _) s) as Hl.
  unfold mbind at 1, io_bind at 1. destruct (on_mapping len_of_file s) as [s1 [l | e | t]]; cbn in Hl |- *; [| done..].
  destruct Hl as (m & t & -> & Hl). rewrite (bind_ok _ _ _ (mkWriterCore m (base s) (wc_budget s) (draft s) t) (base s)) by done.
  match goal with |- trims ?c s (fst (?f ?x)) => assert (Hk : keeps (trims c) f) end.
  { keeps_tac; apply on_mapping_trims; by (apply shrink_or_retain_emits || apply sync_file_emits). }
  etrans; [| apply Hk]. by exists m, t.
Qed.

Lemma verify_discard_inv physical s s' u : verify_discard_result path physical s = (s', Ok u) ->
  committed_bytes (base s') <= physical /\ physical mod PAGE_SIZE = 0
  /\ file_len (map_os (wc_mapping s')) = physical /\ map_len (wc_mapping s') = committed_bytes (base s').
Proof using Type.
  unfold verify_discard_result. intros H. apply bind_inv in H as (? & s1 & _ & H).
  apply bind_inv in H as (b & ? & Hg & H). apply gets_inv in Hg as [-> [= ->]]. cbv zeta in H.
  apply bind_inv in H as (? & ? & Hf & H). apply fail_if_inv in Hf as [-> Hf].
  apply bind_inv in H as (l & ? & Hl & H). apply on_mapping_inv in Hl as (m1 & Hl & ->).
  apply len_of_file_inv in Hl as (w & Hs & -> & ->).
  apply bind_inv in H as (ml & ? & Hg & H). apply gets_inv in Hg as [-> [= ->]].
  apply fail_if_inv in H as [-> H]. cbn in *. zb. split; [lia |]. split; [done |].
  split; [by destruct Hs as (-> & _) |]. done.
Qed.

(** Nothing is discarded through a map that is gone. *)
Lemma unmapped_discard_fails s : map_live (wc_mapping s) = false ->
  forall s' u, discard_unpublished path windows s <> (s', Ok u).
Proof using Type.
  intros Hm s' u H. unfold discard_unpublished in H. apply bind_inv in H as (? & ? & H & _).
  unfold require_unchanged_base in H. apply bind_inv in H as (l & ? & Hl & H). apply on_mapping_inv in Hl as (m1 & Hl & ->).
  apply len_of_file_inv in Hl as (w & _ & -> & ->). apply bind_inv in H as (b & ? & Hb & _).
  apply on_mapping_inv in Hb as (m2 & Hb & _). unfold bootstrap_mapping in Hb. apply bind_inv in Hb as (p & ? & Hp & _).
  unfold page, raw, fail_if, mbind, io_bind, gets, lift in Hp. cbn in Hp. rewrite Hm in Hp.
  repeat (case_match; simplify_eq/=).
Qed.

End Cleanup.
