(* ===== verification/Classify.v ===== *)
(** * Validation counters

    [validation/types.rs]: the classes of defects and of objects with their wire
    numbers, the budget of a validation, and the counters every validation and
    inspection keeps. *)

From stdpp Require Import base tactics numbers list strings.
From Stdlib Require Import ZArith Lia.
From S2P Require Import Prelude Errors Bytes Cardinality Checksum Contract Bootstrap Machine.
From S2P Require Import ChecksumFacts ContractFacts BootstrapFacts Mapping MappingFacts Draft WriterCore PublicationFacts CrashTheorems.

#[local] Open Scope string_scope.
#[local] Open Scope list_scope.
#[local] Open Scope Z_scope.

(** ** Classes *)

Inductive ValidationReason :=
| R_MetaUnavailable
| R_MetaInvalid
| R_MetaStaticMismatch
| R_FileGeometryInvalid
| R_RootCountInvalid
| R_IoError
| R_ArithmeticOverflow
| R_PageOutOfBounds
| R_PageHeaderInvalid
| R_PageCrcMismatch
| R_PageTypeMismatch
| R_PageBornTxnInvalid
| R_PageReservedNonzero
| R_TreeCycle
| R_PageAlias
| R_TreeLevelInvalid
| R_TreeOrderInvalid
| R_TreeFenceInvalid
| R_RangeReversed
| R_RangeOverlap
| R_RangeNotCoalesced
| R_CatalogNameInvalid
| R_CatalogBijectionInvalid
| R_CatalogBitmapInvalid
| R_MembershipBitmapInvalid
| R_MembershipHashInvalid
| R_MembershipReverseIndexInvalid
| R_MembershipRefcountInvalid
| R_MembershipActiveFeedInvalid
| R_BlobInvalid
| R_MetadataZlibInvalid
| R_MetadataLengthInvalid
| R_BitmapSummaryInvalid
| R_AllocationPartitionInvalid
| R_RetirementOrderInvalid
| R_RetirementListInvalid
| R_CatalogInvalid
| R_MembershipMissing
| R_MembershipInvalid
| R_MetadataInvalid
| R_StructurePayloadInvalid
| R_StructureHashInvalid
| R_StructureReverseIndexInvalid
| R_StructureRefcountInvalid
| R_StructureMembershipInvalid
| R_StructureMissing
| R_StructureInvalid.
#[global] Instance ValidationReason_eq_dec : EqDecision ValidationReason.
Proof. solve_decision. Defined.

Definition reason_index (v : ValidationReason) : Z :=
  match v with
  | R_MetaUnavailable => 0
  | R_MetaInvalid => 1
  | R_MetaStaticMismatch => 2
  | R_FileGeometryInvalid => 3
  | R_RootCountInvalid => 4
  | R_IoError => 5
  | R_ArithmeticOverflow => 6
  | R_PageOutOfBounds => 7
  | R_PageHeaderInvalid => 8
  | R_PageCrcMismatch => 9
  | R_PageTypeMismatch => 10
  | R_PageBornTxnInvalid => 11
  | R_PageReservedNonzero => 12
  | R_TreeCycle => 13
  | R_PageAlias => 14
  | R_TreeLevelInvalid => 15
  | R_TreeOrderInvalid => 16
  | R_TreeFenceInvalid => 17
  | R_RangeReversed => 18
  | R_RangeOverlap => 19
  | R_RangeNotCoalesced => 20
  | R_CatalogNameInvalid => 21
  | R_CatalogBijectionInvalid => 22
  | R_CatalogBitmapInvalid => 23
  | R_MembershipBitmapInvalid => 24
  | R_MembershipHashInvalid => 25
  | R_MembershipReverseIndexInvalid => 26
  | R_MembershipRefcountInvalid => 27
  | R_MembershipActiveFeedInvalid => 28
  | R_BlobInvalid => 29
  | R_MetadataZlibInvalid => 30
  | R_MetadataLengthInvalid => 31
  | R_BitmapSummaryInvalid => 32
  | R_AllocationPartitionInvalid => 33
  | R_RetirementOrderInvalid => 34
  | R_RetirementListInvalid => 35
  | R_CatalogInvalid => 36
  | R_MembershipMissing => 37
  | R_MembershipInvalid => 38
  | R_MetadataInvalid => 39
  | R_StructurePayloadInvalid => 40
  | R_StructureHashInvalid => 41
  | R_StructureReverseIndexInvalid => 42
  | R_StructureRefcountInvalid => 43
  | R_StructureMembershipInvalid => 44
  | R_StructureMissing => 45
  | R_StructureInvalid => 46
  end.

Definition reason_from_wire (value : Z) : option ValidationReason :=
  match value with
  | 0 => Some R_MetaUnavailable
  | 1 => Some R_MetaInvalid
  | 2 => Some R_MetaStaticMismatch
  | 3 => Some R_FileGeometryInvalid
  | 4 => Some R_RootCountInvalid
  | 5 => Some R_IoError
  | 6 => Some R_ArithmeticOverflow
  | 7 => Some R_PageOutOfBounds
  | 8 => Some R_PageHeaderInvalid
  | 9 => Some R_PageCrcMismatch
  | 10 => Some R_PageTypeMismatch
  | 11 => Some R_PageBornTxnInvalid
  | 12 => Some R_PageReservedNonzero
  | 13 => Some R_TreeCycle
  | 14 => Some R_PageAlias
  | 15 => Some R_TreeLevelInvalid
  | 16 => Some R_TreeOrderInvalid
  | 17 => Some R_TreeFenceInvalid
  | 18 => Some R_RangeReversed
  | 19 => Some R_RangeOverlap
  | 20 => Some R_RangeNotCoalesced
  | 21 => Some R_CatalogNameInvalid
  | 22 => Some R_CatalogBijectionInvalid
  | 23 => Some R_CatalogBitmapInvalid
  | 24 => Some R_MembershipBitmapInvalid
  | 25 => Some R_MembershipHashInvalid
  | 26 => Some R_MembershipReverseIndexInvalid
  | 27 => Some R_MembershipRefcountInvalid
  | 28 => Some R_MembershipActiveFeedInvalid
  | 29 => Some R_BlobInvalid
  | 30 => Some R_MetadataZlibInvalid
  | 31 => Some R_MetadataLengthInvalid
  | 32 => Some R_BitmapSummaryInvalid
  | 33 => Some R_AllocationPartitionInvalid
  | 34 => Some R_RetirementOrderInvalid
  | 35 => Some R_RetirementListInvalid
  | 36 => Some R_CatalogInvalid
  | 37 => Some R_MembershipMissing
  | 38 => Some R_MembershipInvalid
  | 39 => Some R_MetadataInvalid
  | 40 => Some R_StructurePayloadInvalid
  | 41 => Some R_StructureHashInvalid
  | 42 => Some R_StructureReverseIndexInvalid
  | 43 => Some R_StructureRefcountInvalid
  | 44 => Some R_StructureMembershipInvalid
  | 45 => Some R_StructureMissing
  | 46 => Some R_StructureInvalid
  | _ => None
  end.

Inductive ValidationObject :=
| O_FileGeometry
| O_Meta
| O_RangeTree
| O_CatalogNameTree
| O_CatalogIndexTree
| O_MembershipDictionary
| O_MembershipReverseIndex
| O_MembershipBlob
| O_Metadata
| O_FreeBitmap
| O_FeedUsedBitmap
| O_MembershipUsedBitmap
| O_RetirementTree
| O_RetirementBlob
| O_StructureDictionary
| O_StructureReverseIndex
| O_StructureUsedBitmap.
#[global] Instance ValidationObject_eq_dec : EqDecision ValidationObject.
Proof. solve_decision. Defined.

Definition object_index (v : ValidationObject) : Z :=
  match v with
  | O_FileGeometry => 0
  | O_Meta => 1
  | O_RangeTree => 2
  | O_CatalogNameTree => 3
  | O_CatalogIndexTree => 4
  | O_MembershipDictionary => 5
  | O_MembershipReverseIndex => 6
  | O_MembershipBlob => 7
  | O_Metadata => 8
  | O_FreeBitmap => 9
  | O_FeedUsedBitmap => 10
  | O_MembershipUsedBitmap => 11
  | O_RetirementTree => 12
  | O_RetirementBlob => 13
  | O_StructureDictionary => 14
  | O_StructureReverseIndex => 15
  | O_StructureUsedBitmap => 16
  end.

Definition object_from_wire (value : Z) : option ValidationObject :=
  match value with
  | 0 => Some O_FileGeometry
  | 1 => Some O_Meta
  | 2 => Some O_RangeTree
  | 3 => Some O_CatalogNameTree
  | 4 => Some O_CatalogIndexTree
  | 5 => Some O_MembershipDictionary
  | 6 => Some O_MembershipReverseIndex
  | 7 => Some O_MembershipBlob
  | 8 => Some O_Metadata
  | 9 => Some O_FreeBitmap
  | 10 => Some O_FeedUsedBitmap
  | 11 => Some O_MembershipUsedBitmap
  | 12 => Some O_RetirementTree
  | 13 => Some O_RetirementBlob
  | 14 => Some O_StructureDictionary
  | 15 => Some O_StructureReverseIndex
  | 16 => Some O_StructureUsedBitmap
  | _ => None
  end.

Definition REASON_COUNT : Z := 47.
Definition OBJECT_COUNT : Z := 17.

(** ** Budgets *)

Record ValidationBudget := mkValidationBudget {
  vb_max_heap_bytes : Z;
  vb_max_open_files : Z;
  vb_max_scratch_bytes : Z;
  vb_max_scratch_files : Z;
  vb_scratch_directory : option string;
}.

Definition heap_only (max_heap_bytes max_open_files : Z) : ValidationBudget :=
  mkValidationBudget max_heap_bytes max_open_files 0 0 None.

Definition validate_budget (b : ValidationBudget) : Result unit :=
  if vb_max_open_files b =? 0 then Err (BudgetExceeded "validation requires at least one open file")
  else
    let scratch_enabled := negb (vb_max_scratch_bytes b =? 0) || negb (vb_max_scratch_files b =? 0) in
    if negb (Bool.eqb scratch_enabled (bool_decide (is_Some (vb_scratch_directory b))))
    then Err (InvalidArgument "scratch directory and scratch limits must be supplied together")
    else if (vb_max_scratch_bytes b =? 0) && negb (vb_max_scratch_files b =? 0)
         || negb (vb_max_scratch_bytes b =? 0) && (vb_max_scratch_files b =? 0)
    then Err (InvalidArgument "both scratch byte and file limits must be nonzero")
    else Ok tt.

(** ** Counters *)

Record ValidationProgress := mkValidationProgress {
  checked_unique_pages : Z;
  finding_count : Z;
  untraversable_subgraphs : Z;
  bounded_possible_span_addresses : Cardinality129;
  has_unbounded_unknown : bool;
  reason_counts : list Z;
  object_counts : list Z;
}.

Definition progress_new : ValidationProgress :=
  mkValidationProgress 0 0 0 card_zero false
    (replicate (Z.to_nat REASON_COUNT) 0) (replicate (Z.to_nat OBJECT_COUNT) 0).

Definition findings_for (p : ValidationProgress) (r : ValidationReason) : Z :=
  nth (Z.to_nat (reason_index r)) (reason_counts p) 0.
Definition examined_for (p : ValidationProgress) (o : ValidationObject) : Z :=
  nth (Z.to_nat (object_index o)) (object_counts p) 0.

Definition set_findings (count : Z) (counts : list Z) (p : ValidationProgress) : ValidationProgress :=
  mkValidationProgress (checked_unique_pages p) count (untraversable_subgraphs p)
    (bounded_possible_span_addresses p) (has_unbounded_unknown p) counts (object_counts p).
Definition set_examined (count : Z) (counts : list Z) (p : ValidationProgress) : ValidationProgress :=
  mkValidationProgress count (finding_count p) (untraversable_subgraphs p)
    (bounded_possible_span_addresses p) (has_unbounded_unknown p) (reason_counts p) counts.
Definition set_unknown (subgraphs : Z) (unbounded : bool) (p : ValidationProgress) : ValidationProgress :=
  mkValidationProgress (checked_unique_pages p) (finding_count p) subgraphs
    (bounded_possible_span_addresses p) unbounded (reason_counts p) (object_counts p).

(** The total is stored before the counter of the class is looked at. *)
Definition count_finding (r : ValidationReason) : io ValidationProgress unit :=
  count ← gets finding_count;
  count ← lift (ok_or (checked_add u64_max count 1) (ArithmeticOverflow "validation finding count"));
  _ ← modify (fun p => set_findings count (reason_counts p) p);
  per ← gets (fun p => findings_for p r);
  per ← lift (ok_or (checked_add u64_max per 1) (ArithmeticOverflow "validation per-reason finding count"));
  modify (fun p => set_findings (finding_count p) (<[Z.to_nat (reason_index r) := per]> (reason_counts p)) p).

Definition count_page (o : ValidationObject) : io ValidationProgress unit :=
  count ← gets checked_unique_pages;
  count ← lift (ok_or (checked_add u64_max count 1) (ArithmeticOverflow "validation checked-page count"));
  _ ← modify (fun p => set_examined count (object_counts p) p);
  per ← gets (fun p => examined_for p o);
  per ← lift (ok_or (checked_add u64_max per 1) (ArithmeticOverflow "validation per-object page count"));
  modify (fun p => set_examined (checked_unique_pages p) (<[Z.to_nat (object_index o) := per]> (object_counts p)) p).

Definition mark_untraversable (unbounded : bool) : io ValidationProgress unit :=
  count ← gets untraversable_subgraphs;
  count ← lift (ok_or (checked_add u64_max count 1) (ArithmeticOverflow "validation untraversable-subgraph count"));
  modify (fun p => set_unknown count (has_unbounded_unknown p || unbounded) p).

(** ** Recovery candidates

    [recovery/classify.rs]: which generations recovery offers, from what it
    could read of the two meta pages (a page that could not be read at all is
    [None]), and the token by which a caller names one of them. *)

Inductive GenerationOrder := Proven (current : Z) (previous : option Z) | Unproven.
#[global] Instance GenerationOrder_eq_dec : EqDecision GenerationOrder.
Proof. solve_decision. Defined.

Inductive RecoveryCandidateLabel := Newest | Previous | UnorderedMeta0 | UnorderedMeta1.
#[global] Instance RecoveryCandidateLabel_eq_dec : EqDecision RecoveryCandidateLabel.
Proof. solve_decision. Defined.

Record LocalFileIdentity := mkLocalFileIdentity { lf_kind : Z; lf_bytes : list Z }.
#[global] Instance LocalFileIdentity_eq_dec : EqDecision LocalFileIdentity.
Proof. solve_decision. Defined.

Record RecoveryCandidate := mkRecoveryCandidate {
  rc_label : RecoveryCandidateLabel;
  rc_meta_page : Z;
  rc_source_identity : LocalFileIdentity;
  rc_database_id : list Z;
  rc_transaction_id : Z;
  rc_commit_nonce : list Z;
}.
#[global] Instance RecoveryCandidate_eq_dec : EqDecision RecoveryCandidate.
Proof. solve_decision. Defined.

(** ** The order of the two generations *)

Definition MetaStates : Type := option RecoveryMetaState * option RecoveryMetaState.

Definition state_at (states : MetaStates) (page : Z) : option RecoveryMetaState :=
  if page =? 0 then fst states else snd states.

Definition result_ok {E A} (r : outcome E A) : option A := match r with Ok a => Some a | _ => None end.

Definition equal_order (meta0 meta1 : MetaV4) : GenerationOrder :=
  if negb (bool_decide (meta0 = meta1)) then Unproven
  else Proven (Z.land (txn_id meta0) 1) None.

Definition adjacent_order (meta0 meta1 : MetaV4) : GenerationOrder :=
  let '(lower, higher, higher_page) :=
    if txn_id meta0 <? txn_id meta1 then (meta0, meta1, 1) else (meta1, meta0, 0) in
  if negb (bool_decide (checked_add u64_max (txn_id lower) 1 = Some (txn_id higher))) then Unproven
  else if negb (Z.land (txn_id higher) 1 =? higher_page) then Unproven
  else Proven higher_page (Some (1 - higher_page)).

Definition classify_order (states : MetaStates) : GenerationOrder :=
  match states with
  | (Some state0, Some state1) =>
      match rm_order state0, rm_order state1 with
      | Ok meta0, Ok meta1 =>
          if negb (static_identity_eq meta0 meta1) then Unproven
          else if txn_id meta0 =? txn_id meta1 then equal_order meta0 meta1
          else adjacent_order meta0 meta1
      | _, _ => Unproven
      end
  | _ => Unproven
  end.

(** ** Candidates *)

Record ClassifiedMetas := mkClassifiedMetas {
  cm_states : MetaStates;
  cm_order : GenerationOrder;
}.

Definition classified_new (states : MetaStates) : ClassifiedMetas :=
  mkClassifiedMetas states (classify_order states).

Section Classified.
Context (c : ClassifiedMetas).

Definition recovery_meta (page : Z) : option MetaV4 :=
  state ← state_at (cm_states c) page;
  result_ok (rm_recovery state).

Definition current_recovery_meta : option MetaV4 :=
  match cm_order c with
  | Proven current _ => recovery_meta current
  | Unproven => None
  end.

Definition candidate_at (identity : LocalFileIdentity) (page : Z) (label : RecoveryCandidateLabel) : option RecoveryCandidate :=
  meta ← recovery_meta page;
  Some (mkRecoveryCandidate label page identity (database_id meta) (txn_id meta) (commit_nonce meta)).

(** The array of two slots; the first is filled first. *)
Definition candidates (identity : LocalFileIdentity) : option RecoveryCandidate * option RecoveryCandidate :=
  let fill first second := match first with Some _ => (first, second) | None => (second, None) end in
  match cm_order c with
  | Proven current previous =>
      let newest := candidate_at identity current Newest in
      match previous with
      | Some previous => fill newest (candidate_at identity previous Previous)
      | None => (newest, None)
      end
  | Unproven =>
      fill (candidate_at identity 0 UnorderedMeta0) (candidate_at identity 1 UnorderedMeta1)
  end.

Definition flatten_pair {A} (p : option A * option A) : list A :=
  match fst p with Some a => [a] | None => [] end ++ match snd p with Some a => [a] | None => [] end.

Definition token_matches (token : RecoveryCandidate) : bool :=
  existsb (fun candidate => bool_decide (candidate = token)) (flatten_pair (candidates (rc_source_identity token))).

Definition selected_meta (token : RecoveryCandidate) : option MetaV4 :=
  if negb (token_matches token) then None else recovery_meta (rc_meta_page token).

(** ** What the inspection reports; each finding also marks an unknown part of
    unbounded size. *)

Definition reason (problem : MetaProblem) : ValidationReason :=
  match problem with MagicP => R_MetaUnavailable | _ => R_MetaInvalid end.

Definition record_problem (r : ValidationReason) : io ValidationProgress unit :=
  _ ← count_finding r;
  mark_untraversable true.

Definition record_state (state : option RecoveryMetaState) : io ValidationProgress unit :=
  match state with
  | None => record_problem R_IoError
  | Some state => match rm_recovery state with Err problem => record_problem (reason problem) | _ => mret tt end
  end.

Definition record_recovery_problems : io ValidationProgress unit :=
  _ ← record_state (fst (cm_states c));
  record_state (snd (cm_states c)).

Definition record_order_problem : io ValidationProgress unit :=
  if bool_decide (cm_order c = Unproven)
     && bool_decide (is_Some (fst (cm_states c))) && bool_decide (is_Some (snd (cm_states c)))
     && forallb (fun state => match state with Some state => is_ok (rm_recovery state) | None => false end)
          [fst (cm_states c); snd (cm_states c)]
  then record_problem R_MetaInvalid else mret tt.

Definition progress : Result ValidationProgress :=
  match (_ ← record_recovery_problems; record_order_problem) progress_new with
  | (p, Ok _) => Ok p
  | (_, Err e) => Err e
  | (_, Panic t) => Panic t
  end.
End Classified.

(** ** Recovery and opening agree

    What recovery offers, next to what a writer opens: the generation a writer
    opens is the newest candidate; a token names exactly the record it was made
    from; after a torn publication the one candidate is the generation before. *)

#[local] Opaque crc32c_pointer_table.

Section Pages.
Context (path : crc_path) (contiguous : bool).

(** What recovery read of two pages it could read. *)
Definition read_metas (p0 p1 : list Z) : ClassifiedMetas :=
  classified_new (Some (classify_recovery_meta path contiguous p0), Some (classify_recovery_meta path contiguous p1)).

Lemma order_Ok p m : rm_order (classify_recovery_meta path contiguous p) = Ok m <->
  readable path contiguous p m /\ commit_rules m.
Proof using Type.
  cbn. split.
  - intros H. apply bind_Ok in H as (m' & Hi & H). apply bind_Ok in H as ([] & Hc & [= <-]).
    split; [by apply identity_Ok | by apply (decides_Ok _ _ (commit_identity_decides m'))].
  - intros [Hr Hc]. run (proj2 (identity_Ok _ _ _ _) Hr). by run (proj2 (decides_Ok _ _ (commit_identity_decides m)) Hc).
Qed.

Lemma recovery_Ok p m : page_ok p -> rm_recovery (classify_recovery_meta path contiguous p) = Ok m <->
  readable path contiguous p m /\ commit_rules m /\ content_rules m.
Proof using Type.
  intros Hp. change (rm_recovery (classify_recovery_meta path contiguous p))
    with (rm_order (classify_recovery_meta path contiguous p) ≫= recovery_valid). split.
  - intros H. apply bind_Ok in H as (m' & Ho & H). apply order_Ok in Ho as [Hr Hc].
    apply (settles_Ok _ _ _ _ (recovery_settles m' (readable_ok _ _ _ _ Hp Hr))) in H as [-> Hk]. done.
  - intros (Hr & Hc & Hk). run (proj2 (order_Ok p m) (conj Hr Hc)).
    by apply (settles_Ok _ _ _ _ (recovery_settles m (readable_ok _ _ _ _ Hp Hr))).
Qed.

Lemma eligible_recovery p physical m : page_ok p -> eligible path contiguous p physical m ->
  rm_order (classify_recovery_meta path contiguous p) = Ok m /\ rm_recovery (classify_recovery_meta path contiguous p) = Ok m.
Proof using Type.
  intros Hp [Hr (Hc & Hk & _)]. split; [by apply order_Ok | by apply recovery_Ok].
Qed.

(** The order of two readable generations of one database. *)
Lemma order_proved p0 p1 physical m page : page_ok p0 -> page_ok p1 ->
  proves_current path contiguous p0 p1 physical m page ->
  (forall m0 m1, readable path contiguous p0 m0 -> readable path contiguous p1 m1 -> static_identity_eq m0 m1 = true) ->
  exists previous, cm_order (read_metas p0 p1) = Proven page previous
    /\ (previous = None <-> p0 = p1) /\ (forall q, previous = Some q -> q = 1 - page).
Proof using Type.
  intros Hp0 Hp1 Hc Hid. destruct (proves_pair _ _ _ _ _ _ _ Hc) as (m0 & m1 & H0 & H1 & _).
  destruct (eligible_recovery _ _ _ Hp0 H0) as [O0 _]. destruct (eligible_recovery _ _ _ Hp1 H1) as [O1 _].
  cbn [cm_order read_metas classified_new]. unfold classify_order. rewrite O0, O1, (Hid m0 m1 (proj1 H0) (proj1 H1)). cbn [negb].
  destruct Hc as (m' & Hm & Hm' & Hpar & Hd). pose proof (Z.mod_pos_bound (txn_id m) 2 ltac:(lia)).
  assert (Hu : txn_id m <= u64_max).
  { destruct (page =? 0); [pose proof (ok_txn _ (readable_ok _ _ _ _ Hp0 (proj1 Hm))) as Hx
      | pose proof (ok_txn _ (readable_ok _ _ _ _ Hp1 (proj1 Hm))) as Hx]; unfold is_u64 in Hx; lia. }
  assert (Hinj : forall p a b, eligible path contiguous p physical a -> eligible path contiguous p physical b -> a = b)
    by (intros p a b; apply eligible_inj).
  destruct Hd as [Hd | [<- ->]].
  - assert (Hne : p0 <> p1).
    { intros <-. destruct (page =? 0); rewrite (Hinj _ _ _ Hm Hm') in Hd; lia. }
    exists (Some (1 - page)). split; [| split; [split; congruence | congruence]].
    assert (Hp : page = 0 \/ page = 1) by lia. unfold adjacent_order.
    destruct Hp as [-> | ->]; cbn [Z.eqb] in Hm, Hm'.
    + rewrite <- (Hinj _ _ _ Hm H0), <- (Hinj _ _ _ Hm' H1). rewrite (proj2 (Z.eqb_neq _ _)), (proj2 (Z.ltb_ge _ _)) by lia.
      rewrite bool_decide_true by (apply checked_add_Some; lia). cbn [negb]. by rewrite land_one, <- Hpar.
    + rewrite <- (Hinj _ _ _ Hm H1), <- (Hinj _ _ _ Hm' H0). rewrite (proj2 (Z.eqb_neq _ _)), (proj2 (Z.ltb_lt _ _)) by lia.
      rewrite bool_decide_true by (apply checked_add_Some; lia). cbn [negb]. by rewrite land_one, <- Hpar.
  - assert (Hmm : eligible path contiguous p0 physical m) by by destruct (page =? 0).
    rewrite (Hinj _ _ _ H0 Hmm), (Hinj _ _ _ H1 Hmm), Z.eqb_refl. unfold equal_order.
    rewrite bool_decide_true by done. cbn [negb]. rewrite land_one, <- Hpar. exists None. done.
Qed.
End Pages.

(** The token of one page's record. *)
Definition token_of (label : RecoveryCandidateLabel) (page : Z) (identity : LocalFileIdentity) (m : MetaV4) : RecoveryCandidate :=
  mkRecoveryCandidate label page identity (database_id m) (txn_id m) (commit_nonce m).

(** C30: whenever a writer opens the file, recovery sees the same order: the
    generation the writer opens is the current one and the first candidate,
    labelled newest, and its token selects that very record; the other page is
    offered after it exactly when it holds another generation. *)
Theorem recovery_agrees_with_open path contiguous p0 p1 physical b identity :
  page_ok p0 -> page_ok p1 -> open_meta_pages path contiguous p0 p1 physical Writer = Ok b ->
  let c := read_metas path contiguous p0 p1 in
  let newest := token_of Newest (selected_meta_page b) identity (bs_meta b) in
  current_recovery_meta c = Some (bs_meta b)
  /\ fst (candidates c identity) = Some newest
  /\ selected_meta c newest = Some (bs_meta b)
  /\ (snd (candidates c identity) = None <-> p0 = p1).
Proof.
  intros Hp0 Hp1 Ho. cbv zeta.
  destruct (open_inv path contiguous _ _ _ _ _ Hp0 Hp1 Ho) as (Hsel & _ & Hmode & _). rewrite (Hmode ltac:(done)) in Hsel.
  assert (Hid : forall m0 m1, readable path contiguous p0 m0 -> readable path contiguous p1 m1 -> static_identity_eq m0 m1 = true).
  { intros m0 m1 H0 H1. unfold open_meta_pages in Ho. apply bind_Ok in Ho as (? & _ & Ho). apply bind_Ok in Ho as ([] & Hi & _).
    apply (proj1 (same_identity_Ok _ _) Hi); by apply identity_Ok. }
  destruct (order_proved path contiguous p0 p1 physical _ _ Hp0 Hp1 Hsel Hid) as (previous & Hord & Hnone & Hprev).
  set (c := read_metas path contiguous p0 p1) in *.
  destruct Hsel as (m' & Hm & Hm' & Hpar & _). pose proof (Z.mod_pos_bound (txn_id (bs_meta b)) 2 ltac:(lia)).
  assert (Hrec : recovery_meta c (selected_meta_page b) = Some (bs_meta b)).
  { unfold recovery_meta, c, read_metas, classified_new, state_at. cbn [cm_states fst snd]. destruct (selected_meta_page b =? 0);
      cbn [mbind option_bind]; [rewrite (proj2 (eligible_recovery _ _ _ _ _ Hp0 Hm)) | rewrite (proj2 (eligible_recovery _ _ _ _ _ Hp1 Hm))]; done. }
  assert (Hrec' : recovery_meta c (1 - selected_meta_page b) = Some m').
  { unfold recovery_meta, c, read_metas, classified_new, state_at. cbn [cm_states fst snd].
    assert (Hb : selected_meta_page b = 0 \/ selected_meta_page b = 1) by lia.
    destruct Hb as [E | E]; rewrite E in Hm' |- *; cbn [Z.eqb] in Hm';
      [change (1 - 0 =? 0) with false | change (1 - 1 =? 0) with true]; cbn [mbind option_bind];
      [rewrite (proj2 (eligible_recovery _ _ _ _ _ Hp1 Hm')) | rewrite (proj2 (eligible_recovery _ _ _ _ _ Hp0 Hm'))]; done. }
  assert (Hcand : forall identity, candidates c identity =
    (Some (token_of Newest (selected_meta_page b) identity (bs_meta b)),
     match previous with Some q => Some (token_of Previous (1 - selected_meta_page b) identity m') | None => None end)).
  { intros i. unfold candidates, candidate_at. rewrite Hord, Hrec. cbn [mbind option_bind].
    destruct previous as [q|]; [| done]. rewrite (Hprev q eq_refl), Hrec'. done. }
  split; [unfold current_recovery_meta; by rewrite Hord |]. split; [by rewrite Hcand |]. split.
  - unfold selected_meta, token_matches. rewrite Hcand. cbn. rewrite bool_decide_true by done. exact Hrec.
  - rewrite Hcand. cbn. rewrite <- Hnone. by destruct previous.
Qed.

(** C31: after a crash that tore the meta page of a publication, recovery
    cannot order the pages, offers exactly one candidate, the generation before
    the publication, and its token selects that record. *)
Theorem torn_publication_recoverable path append windows cancelled w0 s d es0 s' r es img identity :
  continues_crc32c append -> in_transaction path w0 s d es0 ->
  publish append windows cancelled s = (s', r) ->
  es `prefix_of` since w0 s' -> crashed w0 es img ->
  page_ok (img_page img (1 - selected_meta_page (base s))) ->
  (forall m, ~ readable path true (img_page img (1 - selected_meta_page (base s))) m) ->
  let c := read_metas path true (img_page img 0) (img_page img 1) in
  let label := if selected_meta_page (base s) =? 0 then UnorderedMeta0 else UnorderedMeta1 in
  let token := token_of label (selected_meta_page (base s)) identity (bs_meta (base s)) in
  cm_order c = Unproven /\ candidates c identity = (Some token, None) /\ selected_meta c token = Some (bs_meta (base s)).
Proof.
  intros Happ Htx Hrun Hes Hcr Hok Htorn. cbv zeta.
  destruct (publication_run _ _ _ _ _ _ _ _ _ _ Happ Htx Hrun) as (p & es_d & es_m & Henc & Hev & Hq & Hpre & Hsync & _).
  rewrite Hev in Hes.
  pose proof (image_base path w0 s d es0 Htx p es_d es_m Hq Hpre es img Hes Hcr) as Hb.
  destruct (base_proved path w0 s d es0 Htx) as ((m' & Hm & _) & _).
  set (sel := selected_meta_page (base s)) in *.
  assert (Hp : page_ok (img_page img sel)).
  { rewrite Hb. destruct (sel_bit path w0 s d es0 Htx) as [E | E]; fold sel in E; rewrite E; apply Htx. }
  assert (He : eligible path true (img_page img sel) (file_len w0) (bs_meta (base s))).
  { rewrite Hb. destruct (sel_bit path w0 s d es0 Htx) as [E | E]; fold sel in E; rewrite E in Hm |- *; exact Hm. }
  destruct (eligible_recovery path true _ _ _ Hp He) as [Ho Hr].
  assert (Hno : forall m, rm_order (classify_recovery_meta path true (img_page img (1 - sel))) <> Ok m).
  { intros m Hx. apply order_Ok in Hx as [Hx _]. by apply Htorn in Hx. }
  assert (Hnr : result_ok (rm_recovery (classify_recovery_meta path true (img_page img (1 - sel)))) = None).
  { destruct (rm_recovery (classify_recovery_meta path true (img_page img (1 - sel)))) as [m | |] eqn:E; try done. apply recovery_Ok in E as [Hx _]; [| done]. by apply Htorn in Hx. }
  set (c := read_metas path true (img_page img 0) (img_page img 1)).
  assert (Hord : cm_order c = Unproven).
  { unfold c, read_metas, classified_new. cbn [cm_order]. unfold classify_order.
    destruct (sel_bit path w0 s d es0 Htx) as [E | E]; fold sel in E; rewrite E in Hno;
      [change (1 - 0) with 1 in Hno | change (1 - 1) with 0 in Hno].
    - destruct (rm_order (classify_recovery_meta path true (img_page img 0))); try done.
      destruct (rm_order (classify_recovery_meta path true (img_page img 1))) as [m | |]; try done. by destruct (Hno m).
    - destruct (rm_order (classify_recovery_meta path true (img_page img 0))) as [m | |]; try done. by destruct (Hno m). }
  assert (Hrec : recovery_meta c sel = Some (bs_meta (base s)) /\ recovery_meta c (1 - sel) = None).
  { unfold recovery_meta, c, read_metas, classified_new, state_at. cbn [cm_states fst snd].
    destruct (sel_bit path w0 s d es0 Htx) as [E | E]; fold sel in E; rewrite E in Hr, Hnr |- *;
      [change (1 - 0) with 1 in * | change (1 - 1) with 0 in *]; cbn [Z.eqb mbind option_bind]; by rewrite Hr, Hnr. }
  destruct Hrec as [Hrec Hnone].
  assert (Hcand : forall i, candidates c i = (Some (token_of (if sel =? 0 then UnorderedMeta0 else UnorderedMeta1) sel i (bs_meta (base s))), None)).
  { intros i. unfold candidates, candidate_at. rewrite Hord.
    destruct (sel_bit path w0 s d es0 Htx) as [E | E]; fold sel in E; rewrite E in Hrec, Hnone |- *;
      [change (1 - 0) with 1 in Hnone | change (1 - 1) with 0 in Hnone]; rewrite Hrec, Hnone; done. }
  split; [done |]. split; [apply Hcand |].
  unfold selected_meta, token_matches. rewrite Hcand. cbn. rewrite bool_decide_true by done. exact Hrec.
Qed.
