(* ===== verification/DraftStoreFacts.v ===== *)
(** * What the draft store can do to the file

    Whatever sequence of store operations a transaction runs, and wherever it
    fails: the meta pages are never written, the file never shrinks below the
    committed generation, the draft keeps its identity and never gives pages
    back.  These are the facts the crash theorems ask of a transaction. *)

From stdpp Require Import base tactics numbers list strings gmap.
From Stdlib Require Import ZArith Lia.
From S2P Require Import Codec TreeMutation TreeSafety.
From S2P Require Import Prelude Errors Bytes PageHeader Checksum Contract Bootstrap Machine Mapping MappingFacts.
From S2P Require Import Draft WriterCore Store BitmapPage DraftStore FreeBitmap PublicationFacts CrashTheorems.
From S2P Require Import Bytes ChecksumFacts ContractFacts BootstrapFacts.

#[local] Open Scope string_scope.
#[local] Open Scope list_scope.
#[local] Open Scope Z_scope.

(** ** The relation *)

(** The fields that name the generation stay, the page count may grow. *)
Record meta_grows (m m' : MetaV4) : Prop := {
  mg_txn : txn_id m' = txn_id m;
  mg_nonce : commit_nonce m' = commit_nonce m;
  mg_identity : static_identity_eq m m' = true;
  mg_pages : page_count m <= page_count m';
}.

#[global] Instance meta_grows_preorder : PreOrder meta_grows.
Proof.
  split.
  - intros m. split; try done. by apply static_identity_spec.
  - intros m1 m2 m3 [H1 H2 H3 H4] [G1 G2 G3 G4]. split; try congruence; [| lia].
    rewrite static_identity_spec in *. intuition congruence.
Qed.

Record drafts (s s' : DraftStore) : Prop := {
  dr_committed : committed_page_count s' = committed_page_count s;
  dr_budget : ds_budget s' = ds_budget s;
  dr_meta : meta_grows (draft_meta s) (draft_meta s');
  dr_events : committed_page_count s <= draft_limit s ->
    m_emits (draft_event (committed_page_count s * PAGE_SIZE)) (ds_mapping s) (ds_mapping s');
}.

#[global] Instance drafts_preorder : PreOrder drafts.
Proof.
  split.
  - intros s. split; try reflexivity.
  - intros s1 s2 s3 [A1 A2 A3 A4] [B1 B2 B3 B4]. split; try congruence; [by etrans |].
    intros Hc. rewrite A1 in B4. pose proof (mg_pages _ _ A3). etrans; [by apply A4 | apply B4]. unfold draft_limit in *. lia.
Qed.

(** Changes of the draft that leave its meta record, or only its space. *)
Lemma on_draft_drafts f : (forall d, meta_grows (d_meta d) (d_meta (f d))) -> keeps drafts (on_draft f).
Proof. intros Hf. apply keeps_modify. intros s. split; try reflexivity. apply Hf. Qed.

Lemma meta_grows_space m root reserve : meta_grows m (with_space (page_count m) root reserve m).
Proof. split; try done. by apply static_identity_spec. Qed.

(** Calls of the mapping that emit only what a draft may. *)
Lemma on_pages_drafts {A} (m : io Mapping A) : (forall P, (forall o l, P (Flushed o l)) -> P Synced -> keeps (m_emits P) m) ->
  keeps drafts (on_pages m).
Proof.
  intros Hm. apply (keeps_zoom drafts (m_emits (fun e => match e with Flushed _ _ | Synced => True | _ => False end))).
  - intros s t Ht. split; try reflexivity. intros _. cbn. eapply emits_weaken; [| exact Ht]. by intros [].
  - by apply Hm.
Qed.

Lemma page_drafts n limit : keeps drafts (on_pages (page n limit)).
Proof. apply on_pages_drafts. intros P _ _. apply page_emits. Qed.
Lemma len_of_file_drafts : keeps drafts (on_pages len_of_file).
Proof. apply on_pages_drafts. intros P _ _. apply len_of_file_emits. Qed.
Lemma remap_drafts len : keeps drafts (on_pages (remap len)).
Proof. apply on_pages_drafts. intros P _ _. apply remap_emits. Qed.
#[export] Hint Resolve page_drafts len_of_file_drafts remap_drafts : keeps.

(** ** Writes *)

Lemma page_mut_after_emits {T A} (P : event -> Prop) n limit (look : list Z -> Result T) (edit : T -> io (list Z) A) :
  (forall p, P (Wrote n p)) -> keeps (m_emits P) (page_mut_after n limit look edit).
Proof.
  intros HP. unfold page_mut_after. pose proof (require_write_emits P). pose proof (raw_emits P). keeps_tac.
  apply on_os_emits, keeps_modify. intros w. eapply emits_one; [apply logged_write | apply HP].
Qed.

Lemma page_pair_emits {T A} (P : event -> Prop) n m limit (look : list Z -> Result T) (copy : T -> list Z -> io (list Z) A) :
  (forall p, P (Wrote m p)) -> keeps (m_emits P) (page_pair n m limit look copy).
Proof.
  intros HP. unfold page_pair. pose proof (require_write_emits P). pose proof (raw_emits P). keeps_tac.
  apply on_os_emits, keeps_modify. intros w. eapply emits_one; [apply logged_write | apply HP].
Qed.

Lemma on_pages_write {A} n (m : io Mapping A) : 2 <= n ->
  (forall P : event -> Prop, (forall p, P (Wrote n p)) -> keeps (m_emits P) m) -> keeps drafts (on_pages m).
Proof.
  intros Hn Hm. apply (keeps_zoom drafts (m_emits (fun e => match e with Wrote k _ => 2 <= k | _ => False end))).
  - intros s t Ht. split; try reflexivity. intros _. cbn. eapply emits_weaken; [| exact Ht]. by intros [].
  - by apply Hm.
Qed.

(** A guarded continuation: past [require_page] the page is a data page. *)
Lemma require_page_then {A} n (k : io DraftStore A) limit : (2 <= n -> keeps drafts k) ->
  keeps drafts (_ ← lift (require_page n limit); k).
Proof.
  intros Hk. unfold require_page. destruct (Z.ltb_spec n 2); cbn [orb]; [by intros s |].
  destruct (limit <=? n); [by intros s |]. intros s. by apply Hk.
Qed.

Section Ops.
Lemma inspect_drafts A n (f : list Z -> Result A) : keeps drafts (ds_inspect_page A n f).
Proof using Type. unfold ds_inspect_page. keeps_tac. Qed.

Lemma update_drafts A n (f : io (list Z) A) : keeps drafts (ds_update_page A n f).
Proof using Type.
  unfold ds_update_page. apply keeps_bind; [apply _ | keeps_tac | intros limit]. apply keeps_bind; [apply _ | keeps_tac | intros txn].
  apply require_page_then. intros Hn. apply (on_pages_write n); [done |]. intros P HP. by apply page_mut_after_emits.
Qed.

Lemma copy_drafts A n m (f : list Z -> io (list Z) A) : keeps drafts (ds_copy_page A n m f).
Proof using Type.
  unfold ds_copy_page. apply keeps_bind; [apply _ | keeps_tac | intros limit]. apply keeps_bind; [apply _ | keeps_tac | intros txn].
  apply require_page_then. intros _. apply require_page_then. intros Hm.
  apply (on_pages_write m); [done |]. intros P HP. by apply page_pair_emits.
Qed.

Lemma discard_drafts n : keeps drafts (ds_discard_private n).
Proof using Type.
  unfold ds_discard_private. apply keeps_bind; [apply _ | keeps_tac | intros head].
  apply keeps_bind; [apply _ | keeps_tac | intros _]. apply keeps_bind; [apply _ | keeps_tac | intros txn].
  apply keeps_bind; [apply _ | keeps_tac | intros limit]. apply require_page_then. intros Hn.
  apply keeps_bind; [apply _ | | intros _; apply on_draft_drafts; intros d; cbn; reflexivity].
  apply (on_pages_write n); [done |]. intros P HP. by apply page_mut_after_emits.
Qed.
End Ops.

#[global] Instance DraftStore_keeps : StoreKeeps DraftStore drafts := {
  sk_inspect := inspect_drafts;
  sk_update := update_drafts;
  sk_copy := copy_drafts;
  sk_discard := discard_drafts;
}.

(** ** Claiming and allocating *)

Lemma chain_loop_drafts remaining : forall expected n, keeps drafts (chain_loop remaining expected n).
Proof.
  induction remaining as [|remaining IH]; intros expected n; cbn [chain_loop]; keeps_tac.
Qed.

Lemma chain_contains_drafts expected : keeps drafts (dirty_chain_contains expected).
Proof. intros s. apply chain_loop_drafts. Qed.
#[local] Hint Resolve chain_contains_drafts : keeps.

Lemma existing_tag_drafts n : keeps drafts (existing_dirty_tag n).
Proof. unfold existing_dirty_tag. keeps_tac. Qed.

Lemma charge_drafts : keeps drafts charge_private.
Proof. unfold charge_private. keeps_tac. apply on_draft_drafts. intros d. cbn. reflexivity. Qed.
#[local] Hint Resolve existing_tag_drafts charge_drafts : keeps.

Lemma claim_page_drafts n existing : 2 <= n -> keeps drafts (claim_page n existing).
Proof.
  intros Hn. unfold claim_page. keeps_tac.
  all: try (apply (on_pages_write n); [done |]; intros P HP; by apply page_mut_after_emits).
  all: apply on_draft_drafts; intros d'; cbn; reflexivity.
Qed.

Lemma claim_allocated_drafts n : keeps drafts (claim_allocated n).
Proof.
  unfold claim_allocated. apply keeps_bind; [apply _ | keeps_tac | intros limit]. apply require_page_then. intros Hn.
  keeps_tac. by apply claim_page_drafts.
Qed.
Lemma claim_new_tail_drafts n : keeps drafts (claim_new_tail n).
Proof.
  unfold claim_new_tail. apply keeps_bind; [apply _ | keeps_tac | intros limit]. apply require_page_then. intros Hn.
  by apply claim_page_drafts.
Qed.

Lemma pop_private_drafts : keeps drafts pop_private.
Proof. unfold pop_private. keeps_tac. apply on_draft_drafts; intros d; cbn; reflexivity. Qed.
#[export] Hint Resolve claim_allocated_drafts claim_new_tail_drafts pop_private_drafts : keeps.

(** Growing the file: the new length is that of more pages than the draft has. *)
Lemma resize_emits (P : event -> Prop) len : P (Resized len) -> keeps (m_emits P) (resize len).
Proof.
  intros HP. pose proof (require_write_emits P). pose proof (file_emits P). pose proof (replace_map_emits P).
  pose proof (on_os_emits P (sys_set_len len) (sys_set_len_emits P len HP)).
  unfold resize. apply keeps_bind; [apply _ | keeps_tac | intros _]. apply keeps_lift_bind; [apply _ |].
  intros l Hl. assert (l = len) as -> by (unfold checked_len in Hl; destruct (len <=? usize_max); congruence).
  apply keeps_bind; [apply _ | apply (set_map_emits P (fun _ => false) map_len) | intros _]. keeps_tac.
Qed.

(** Growing the map never touches the draft. *)
Lemma tail_capacity_draft s : ds_draft (fst (ensure_tail_capacity s)) = ds_draft s.
Proof.
  assert (Hk : keeps (fun x y => ds_draft y = ds_draft x) ensure_tail_capacity).
  { assert (PreOrder (fun x y : DraftStore => ds_draft y = ds_draft x)) by (split; [done | intros x y z -> ->; done]).
    assert (Hz : forall A (m : io Mapping A), keeps (fun x y => ds_draft y = ds_draft x) (on_pages m)).
    { intros A m. apply (keeps_zoom _ (fun _ _ => True)); [done | by intros x]. }
    unfold ensure_tail_capacity. keeps_tac. }
  apply Hk.
Qed.

Lemma resize_drafts capacity s : draft_limit s < capacity -> drafts s (fst (on_pages (resize (capacity * PAGE_SIZE)) s)).
Proof.
  intros Hc. unfold on_pages, zoom.
  destruct (resize (capacity * PAGE_SIZE) (ds_mapping s)) as [m r] eqn:Hr. cbn. split; try reflexivity. intros Hl. cbn.
  pose proof (resize_emits (draft_event (committed_page_count s * PAGE_SIZE)) (capacity * PAGE_SIZE)) as Hk.
  specialize (Hk ltac:(cbn; split; [unfold PAGE_SIZE; lia | by apply Z.mod_mul]) (ds_mapping s)). by rewrite Hr in Hk.
Qed.

Lemma tail_capacity_drafts : keeps drafts ensure_tail_capacity.
Proof.
  intros s. unfold ensure_tail_capacity. rewrite (bind_ok _ _ s s (draft_limit s)) by done.
  destruct (checked_add u64_max (draft_limit s) 1) as [required|] eqn:Hr; [| cbn; reflexivity].
  apply checked_add_Some in Hr as [-> _]. rewrite (bind_ok _ _ s s (draft_limit s + 1)) by done.
  rewrite (bind_ok _ _ s s (map_len (ds_mapping s))) by done. destruct (_ <=? _); [cbn; reflexivity |].
  rewrite (bind_ok _ _ s s (committed_page_count s)) by done. rewrite (bind_ok _ _ s s (ds_budget s)) by done.
  cbv zeta. set (capacity := Z.min _ _).
  destruct (Z.ltb_spec capacity (draft_limit s + 1)) as [? | Hcap]; [by rewrite (bind_err _ _ s s (BudgetExceeded "file growth pages")) by done |].
  rewrite (bind_ok _ _ s s tt) by done.
  destruct (checked_mul u64_max capacity PAGE_SIZE) as [bytes|] eqn:Hb; [| cbn; reflexivity].
  assert (bytes = capacity * PAGE_SIZE) as -> by (unfold checked_mul in Hb; destruct (_ <=? _); congruence).
  rewrite (bind_ok _ _ s s (capacity * PAGE_SIZE)) by done.
  pose proof (len_of_file_drafts s) as H1. unfold mbind, io_bind.
  assert (Hd : ds_draft (fst (on_pages len_of_file s)) = ds_draft s) by (unfold on_pages, zoom; by destruct (len_of_file _)).
  destruct (on_pages len_of_file s) as [s1 [l | e | t]]; cbn in H1, Hd |- *; [| done..].
  destruct (capacity * PAGE_SIZE <=? l); (etrans; [exact H1 |]); [apply remap_drafts |].
  apply resize_drafts. unfold draft_limit, draft_meta in *. rewrite Hd. lia.
Qed.

Lemma allocate_tail_drafts : keeps drafts allocate_tail.
Proof.
  intros s. unfold allocate_tail.
  rewrite (bind_ok _ _ s s (draft_limit s)), (bind_ok _ _ s s (committed_page_count s)), (bind_ok _ _ s s (ds_budget s)),
    (bind_ok _ _ s s (growth_pages (ds_draft s))) by done.
  do 3 (match goal with |- context [fail_if ?c ?e] => destruct c; [by rewrite (bind_err _ _ s s e) by done |] end;
    rewrite (bind_ok _ _ s s tt) by done).
  pose proof (tail_capacity_drafts s) as H1. pose proof (tail_capacity_draft s) as Hd. unfold mbind at 1, io_bind at 1.
  destruct (ensure_tail_capacity s) as [s1 [u | e | t]]; cbn in H1, Hd |- *; [| done..].
  etrans; [exact H1 |]. clear H1. unfold on_draft. rewrite (bind_ok _ _ s1 (set_ds_draft (set_page_count (draft_limit s + 1) (ds_draft s1)) s1) tt) by done.
  etrans.
  { instantiate (1 := set_ds_draft (set_page_count (draft_limit s + 1) (ds_draft s1)) s1).
    split; try reflexivity. unfold draft_meta, draft_limit, draft_meta. cbn. rewrite <- Hd. split; try done; [by apply static_identity_spec |].
    cbn. lia. }
  match goal with |- drafts ?x (fst (?f ?x)) => enough (keeps drafts f) as Hk by apply Hk end.
  keeps_tac. apply on_draft_drafts. intros d. cbn. reflexivity.
Qed.
#[export] Hint Resolve tail_capacity_drafts allocate_tail_drafts : keeps.

Lemma set_reserve_drafts f : keeps drafts (on_draft (fun d => set_reserve (f d) d)).
Proof. apply on_draft_drafts. intros d. apply meta_grows_space. Qed.
Lemma set_bitmap_root_drafts root : keeps drafts (on_draft (set_bitmap_root root)).
Proof. apply on_draft_drafts. intros d. apply meta_grows_space. Qed.
#[export] Hint Resolve set_reserve_drafts set_bitmap_root_drafts : keeps.

Lemma allocate_bitmap_drafts : keeps drafts ds_allocate_bitmap_page.
Proof.
  unfold ds_allocate_bitmap_page. keeps_tac.
Qed.

#[global] Instance DraftStore_bitmap_keeps : BitmapStoreKeeps DraftStore drafts := { bk_allocate := allocate_bitmap_drafts }.

(** ** The bitmap, on any store *)

Section Bitmap.
Context {S : Type} `{BitmapStore S} (R : S -> S -> Prop) `{!BitmapStoreKeeps S R} (path : crc_path).

Lemma replace_child_keeps n header index child : keeps R (replace_child n header index child).
Proof using Type*. unfold replace_child. keeps_tac. Qed.
#[local] Hint Resolve replace_child_keeps : keeps.

Lemma touch_cursor_keeps n level retired : keeps R (touch_cursor path n level retired).
Proof using Type*. unfold touch_cursor. keeps_tac. Qed.
#[local] Hint Resolve touch_cursor_keeps : keeps.

Lemma grow_loop_keeps levels : forall root level, keeps R (grow_loop levels root level).
Proof using Type*. induction levels as [|levels IH]; intros root level; cbn [grow_loop]; keeps_tac. Qed.
#[local] Hint Resolve grow_loop_keeps : keeps.

Lemma grow_root_keeps root required : keeps R (grow_root path root required).
Proof using Type*. unfold grow_root. keeps_tac. Qed.

Lemma new_subtree_keeps level bit : keeps R (new_subtree level bit).
Proof using Type*. induction level as [|level IH]; cbn [new_subtree]; keeps_tac. Qed.
#[local] Hint Resolve grow_root_keeps new_subtree_keeps : keeps.

Lemma descend_for_insert_keeps cursor bit retired : keeps R (descend_for_insert path cursor bit retired).
Proof using Type*. unfold descend_for_insert. keeps_tac. Qed.
Lemma mark_leaf_free_keeps cursor bit : keeps R (mark_leaf_free cursor bit).
Proof using Type*. unfold mark_leaf_free. keeps_tac. Qed.
#[local] Hint Resolve descend_for_insert_keeps mark_leaf_free_keeps : keeps.

Lemma insert_free_keeps level : forall cursor bit retired, keeps R (insert_free path level cursor bit retired).
Proof using Type*. induction level as [|level IH]; intros cursor bit retired; cbn [insert_free]; keeps_tac. Qed.
#[local] Hint Resolve insert_free_keeps : keeps.

Lemma set_free_keeps root limit bit retired : keeps R (set_free path root limit bit retired).
Proof using Type*. unfold set_free. keeps_tac. Qed.

Lemma descend_lowest_keeps level : forall cursor frames base retired, keeps R (descend_lowest path level cursor frames base retired).
Proof using Type*. induction level as [|level IH]; intros cursor frames base retired; cbn [descend_lowest]; keeps_tac. Qed.
Lemma select_leaf_keeps leaf frames base limit : keeps R (select_leaf leaf frames base limit).
Proof using Type*. unfold select_leaf, validate_selected. keeps_tac. Qed.
Lemma clear_leaf_bit_keeps leaf index word bit : keeps R (clear_leaf_bit leaf index word bit).
Proof using Type*. unfold clear_leaf_bit. keeps_tac. Qed.
Lemma prune_parent_keeps frame : keeps R (prune_parent path frame).
Proof using Type*. unfold prune_parent. keeps_tac. Qed.
#[local] Hint Resolve descend_lowest_keeps select_leaf_keeps clear_leaf_bit_keeps prune_parent_keeps : keeps.
Lemma prune_path_keeps root frames : keeps R (prune_empty_path path root frames).
Proof using Type*. induction frames as [|frame frames IH]; cbn [prune_empty_path]; keeps_tac. Qed.
#[local] Hint Resolve prune_path_keeps : keeps.
Lemma take_from_nonempty_keeps root limit retired : keeps R (take_from_nonempty path root limit retired).
Proof using Type*. unfold take_from_nonempty. keeps_tac. Qed.
#[local] Hint Resolve take_from_nonempty_keeps : keeps.
Lemma take_lowest_keeps root limit retired : keeps R (take_lowest path root limit retired).
Proof using Type*. unfold take_lowest. keeps_tac. Qed.
Lemma ensure_level_keeps root limit : keeps R (ensure_level path root limit).
Proof using Type*.
  unfold ensure_level. apply keeps_if; [keeps_tac |]. generalize (Z.to_nat (MAX_LEVEL + 2)). intros n. revert root.
  induction n as [|n IH]; intros root; cbn [ensure_loop]; keeps_tac.
Qed.
End Bitmap.
#[export] Hint Extern 1 (keeps _ (set_free _ _ _ _ _)) => apply set_free_keeps; apply _ : keeps.
#[export] Hint Extern 1 (keeps _ (take_lowest _ _ _ _)) => apply take_lowest_keeps; apply _ : keeps.
#[export] Hint Extern 1 (keeps _ (ensure_level _ _ _)) => apply ensure_level_keeps; apply _ : keeps.

(** ** Any sequence of operations *)

Lemma extend_retired_drafts pages : keeps drafts (extend_retired pages).
Proof.
  apply (keeps_zoom _ (fun _ _ => True)); [| by intros x]. intros s r _. split; try reflexivity.
Qed.
#[export] Hint Resolve extend_retired_drafts : keeps.

Lemma allocate_drafts path : keeps drafts (ds_allocate path).
Proof. unfold ds_allocate. keeps_tac. Qed.

Lemma reserve_page_drafts : keeps drafts reserve_page.
Proof. unfold reserve_page. keeps_tac. Qed.
#[export] Hint Resolve reserve_page_drafts : keeps.

Lemma replenish_drafts : keeps drafts replenish_reserve.
Proof.
  intros s. unfold replenish_reserve. generalize (length (allocator_reserve (draft_meta s))), 0%nat. intros n i.
  assert (Hk : forall i, keeps drafts (replenish_loop n i)); [| apply Hk].
  induction n as [|n IH]; intros j; cbn [replenish_loop]; keeps_tac.
Qed.

Lemma set_page_free_drafts path n : keeps drafts (set_page_free path n).
Proof. unfold set_page_free. keeps_tac. Qed.

(** A page outside the data area is refused before anything happens. *)
Lemma inspect_then {A B} n (f : list Z -> Result A) (k : A -> io DraftStore B) :
  (2 <= n -> forall a, keeps drafts (k a)) -> keeps drafts (a ← inspect_page n f; k a).
Proof.
  intros Hk. destruct (Z.lt_ge_cases n 2) as [Hn | Hn].
  - intros s. cbn [inspect_page DraftStore_PageStore]. unfold ds_inspect_page, mbind, io_bind, gets, lift, require_page.
    rewrite (proj2 (Z.ltb_lt n 2) Hn). cbn. reflexivity.
  - keeps_tac.
Qed.

Lemma seal_loop_drafts append checkpoint remaining : forall n, keeps drafts (seal_loop append checkpoint remaining n).
Proof.
  induction remaining as [|remaining IH]; intros n; cbn [seal_loop]; [keeps_tac |].
  apply keeps_if; [keeps_tac |]. apply keeps_bind; [apply _ | keeps_tac | intros _].
  apply keeps_bind; [apply _ | keeps_tac | intros txn]. apply keeps_bind; [apply _ | keeps_tac | intros limit].
  apply inspect_then. intros Hn [next data]. keeps_tac.
  apply (on_pages_write n); [done |]. intros P HP. by apply page_mut_after_emits.
Qed.

Lemma seal_drafts append checkpoint : keeps drafts (seal_private_pages append checkpoint).
Proof.
  unfold seal_private_pages. pose proof (seal_loop_drafts append checkpoint). keeps_tac.
  apply on_draft_drafts; intros d'; cbn; reflexivity.
Qed.
#[export] Hint Resolve allocate_drafts replenish_drafts set_page_free_drafts seal_drafts allocate_bitmap_drafts : keeps.

Lemma tree_perform_drafts {K L} (codec : Codec K L) path (op : tree_op K L) root :
  keeps drafts (on_root root (tree_perform (H1 := DraftStore_Store path) op)).
Proof. apply (on_root_moves (H1 := DraftStore_Store path) drafts (allocate_drafts path)). Qed.
#[export] Hint Resolve tree_perform_drafts : keeps.

(** What a transaction asks of the store: the operations the page structures
    are written with, and mutations of the trees of any codec. *)
Inductive store_op :=
| OpTree {K L : Type} (codec : Codec K L) (root : Z) (op : tree_op K L)
| OpInspect (n : Z) (f : list Z -> Result unit)
| OpUpdate (n : Z) (f : io (list Z) unit)
| OpCopy (n m : Z) (f : list Z -> io (list Z) unit)
| OpCow (n m : Z)
| OpDiscard (n : Z)
| OpAllocate
| OpAllocateBitmap
| OpSetFree (n : Z)
| OpReplenish
| OpEnsureLevel (root limit : Z)
| OpSeal (checkpoint : nat -> Result unit).

Section Run.
Context (path : crc_path) (append : Z -> list Z -> Z).

Definition perform (op : store_op) : io DraftStore unit :=
  match op with
  | OpTree codec root op => on_root root (tree_perform (H1 := DraftStore_Store path) op)
  | OpInspect n f => inspect_page n f
  | OpUpdate n f => update_page n f
  | OpCopy n m f => copy_page n m f
  | OpCow n m => copy_for_cow n m
  | OpDiscard n => discard_private n
  | OpAllocate => _ ← ds_allocate path; mret tt
  | OpAllocateBitmap => _ ← allocate_bitmap_page; mret tt
  | OpSetFree n => set_page_free path n
  | OpReplenish => replenish_reserve
  | OpEnsureLevel root limit => _ ← ensure_level path root limit; mret tt
  | OpSeal checkpoint => seal_private_pages append checkpoint
  end.

Lemma perform_drafts op : keeps drafts (perform op).
Proof using Type. destruct op; cbn [perform]; keeps_tac. Qed.

(** The caller goes on after a failure, or stops: any prefix is a run. *)
Definition perform_all (ops : list store_op) (s : DraftStore) : DraftStore :=
  fold_left (fun s op => fst (perform op s)) ops s.

Lemma perform_all_drafts ops : forall s, drafts s (perform_all ops s).
Proof using Type.
  induction ops as [|op ops IH]; intros s; [reflexivity |]. cbn. etrans; [apply (perform_drafts op s) | apply IH].
Qed.

(** C32: whatever sequence of store operations a transaction performs,
    failures included: no meta page is written, the file is never made shorter
    than the committed generation, the draft keeps its transaction number, its
    nonce and the database it belongs to, and it never gives pages back. *)
Theorem store_operations_safe ops s :
  committed_page_count s <= draft_limit s ->
  let s' := perform_all ops s in
  (exists es, logged (map_os (ds_mapping s)) (map_os (ds_mapping s')) es
     /\ Forall (draft_event (committed_page_count s * PAGE_SIZE)) es)
  /\ txn_id (draft_meta s') = txn_id (draft_meta s) /\ commit_nonce (draft_meta s') = commit_nonce (draft_meta s)
  /\ static_identity_eq (draft_meta s) (draft_meta s') = true
  /\ draft_limit s <= draft_limit s'.
Proof using Type.
  intros Hc. cbv zeta. destruct (perform_all_drafts ops s) as [_ _ [Ht Hn Hi Hp] He].
  split; [exact (He Hc) |]. done.
Qed.
End Run.

(** ** Edits of a writer

    [WriterCore::edit]: a transaction is begun when none is pending, and the
    operation runs on a store made of the writer's mapping and its draft. *)

(** [DraftStore::new] on the writer's parts; the borrow ends with the call. *)
Definition with_store {A} (operation : io DraftStore A) : io WriterCore A := fun s =>
  match draft s with
  | None => (s, Panic "edit has a draft")
  | Some d =>
      let '(store, r) := operation (mkDraftStore (wc_mapping s) (page_count (bs_meta (base s))) (wc_budget s) d) in
      (set_mapping (ds_mapping store) (set_draft (Some (ds_draft store)) s), r)
  end.

Definition edit {A} (filled : option (list Z)) (operation : io DraftStore A) : io WriterCore A :=
  pending ← gets has_draft;
  _ ← (if negb pending then _ ← begin_transaction filled; mret tt else mret tt);
  with_store operation.

(** ** The state between edits *)

Section Between.
Context (path : crc_path).

(** A writer on a file that was wholly on storage as [w0]: its base is what
    the file holds, the draft, if any, is the next generation in the making. *)
Record writing (w0 : Machine) (s : WriterCore) : Prop := {
  wr_page0 : page_ok (read_page w0 0);
  wr_page1 : page_ok (read_page w0 1);
  wr_base : open_meta_pages path true (read_page w0 0) (read_page w0 1) (file_len w0) Writer = Ok (base s);
  wr_history m : eligible path true (read_page w0 (1 - selected_meta_page (base s))) (file_len w0) m ->
    page_count m <= page_count (bs_meta (base s));
  wr_log : exists es, logged w0 (map_os (wc_mapping s)) es /\ Forall (draft_event (committed_bytes (base s))) es;
  wr_draft d : draft s = Some d ->
    txn_id (d_meta d) = txn_id (bs_meta (base s)) + 1 /\ commit_nonce (d_meta d) <> zero_id
    /\ static_identity_eq (bs_meta (base s)) (d_meta d) = true /\ page_count (bs_meta (base s)) <= page_count (d_meta d);
}.

Lemma committed_of_base w0 s : writing w0 s -> committed_bytes (base s) = page_count (bs_meta (base s)) * PAGE_SIZE.
Proof using Type.
  intros H. by destruct (open_inv path true _ _ _ _ _ (wr_page0 _ _ H) (wr_page1 _ _ H) (wr_base _ _ H)) as (_ & _ & _ & _ & -> & _).
Qed.

Lemma begin_writing filled w0 s s' r : writing w0 s -> begin_transaction filled s = (s', r) -> writing w0 s'.
Proof using Type.
  intros Hw H. unfold begin_transaction in H.
  destruct (has_draft s) eqn:Hd; [rewrite (bind_ok _ _ s s true), (bind_err _ _ s s (WrongState "a writer transaction is already pending")) in H
    by (done || unfold gets; by rewrite Hd); by injection H as <- <- |].
  rewrite (bind_ok _ _ s s false), (bind_ok _ _ s s tt) in H by (done || unfold gets; by rewrite Hd).
  destruct (nonzero_128 filled) as [nonce | e | t] eqn:Hn; cbn in H; [| by injection H as <- <- | by injection H as <- <-].
  unfold mbind, io_bind, lift, gets, modify, mret, io_ret, draft_new in H.
  destruct (checked_add u64_max (txn_id (bs_meta (base s))) 1) as [t|] eqn:Ht; cbn in H; [| by injection H as <- <-].
  apply checked_add_Some in Ht as [-> _]. injection H as <- <-.
  destruct Hw as [H0 H1 Hb Hh Hl _]. split; try done. cbn. intros d [= <-]. cbn. split; [done |].
  split; [| split; [by apply static_identity_spec | lia]].
  unfold nonzero_128 in Hn. destruct filled as [v|]; cbn in Hn; [| done]. case_bool_decide; [done |]. injection Hn as <-. done.
Qed.

Lemma with_store_writing {A} (op : io DraftStore A) w0 s s' r : keeps drafts op -> writing w0 s ->
  with_store op s = (s', r) -> writing w0 s'.
Proof using Type.
  intros Hop Hw H. unfold with_store in H. destruct (draft s) as [d|] eqn:Hd; [| by injection H as <- <-].
  set (st := mkDraftStore _ _ _ _) in *. pose proof (Hop st) as [Hc Hbud [Ht Hn Hi Hp] He].
  destruct (op st) as [st' r']. cbn in Hc, Ht, Hn, Hi, Hp, He. injection H as <- <-.
  destruct (wr_draft _ _ Hw d Hd) as (Htx & Hno & Hid & Hpg).
  pose proof (committed_of_base w0 s Hw) as Hcb. destruct Hw as [H0 H1 Hb Hh (es & Hl & Hf) _]. split; try done.
  - cbn. destruct (He Hpg) as (es' & Hl' & Hf'). exists (es ++ es'). split; [by eapply logged_trans |].
    apply Forall_app. split; [done |]. by rewrite Hcb.
  - cbn. intros d' [= <-]. unfold draft_meta in *. cbn in *. rewrite Ht, Hn. split; [done |]. split; [done |].
    split; [| lia]. rewrite static_identity_spec in *. intuition congruence.
Qed.

(** The operations of one edit. *)
Definition edit_ops (append : Z -> list Z -> Z) (filled : option (list Z)) (ops : list store_op) : io WriterCore unit :=
  edit filled (fun st => (perform_all path append ops st, Ok tt)).

(** Edits, each with what the system's randomness would answer it. *)
Fixpoint edit_all (append : Z -> list Z -> Z) (edits : list (option (list Z) * list store_op)) (s : WriterCore) : WriterCore :=
  match edits with
  | [] => s
  | (filled, ops) :: rest => edit_all append rest (fst (edit_ops append filled ops s))
  end.

Lemma edit_writing append filled ops w0 s : writing w0 s -> writing w0 (fst (edit_ops append filled ops s)).
Proof using Type.
  intros Hw. unfold edit_ops, edit. set (op := fun st : DraftStore => (perform_all path append ops st, Ok tt)).
  assert (Hop : keeps drafts op) by (intros st; apply perform_all_drafts).
  assert (Hrun : forall x, writing w0 x -> writing w0 (fst (with_store op x))).
  { intros x Hx. destruct (with_store op x) as [x' r] eqn:Hr. eapply with_store_writing; eassumption. }
  rewrite (bind_ok _ _ s s (has_draft s)) by done. destruct (has_draft s); cbn [negb].
  - rewrite (bind_ok _ _ s s tt) by done. by apply Hrun.
  - unfold mbind at 1, io_bind at 1. unfold mbind, io_bind.
    destruct (begin_transaction filled s) as [s1 r1] eqn:Hb. pose proof (begin_writing _ _ _ _ _ Hw Hb).
    destruct r1 as [n | e | t]; cbn; [by apply Hrun | done | done].
Qed.

Lemma edit_all_writing append edits w0 : forall s, writing w0 s -> writing w0 (edit_all append edits s).
Proof using Type.
  induction edits as [|[filled ops] edits IH]; intros s Hw; [done |]. cbn. by apply IH, edit_writing.
Qed.

(** C33: a writer that runs any edits and is left with a draft that satisfies
    the rules of a generation is in a transaction the crash theorems apply to:
    the draft is the next generation of the same database, and nothing it did
    to the file can cost the committed one. *)
Theorem edits_make_transaction append edits w0 s d :
  writing w0 s -> let s' := edit_all append edits s in
  draft s' = Some d -> meta_ok (d_meta d) -> generation_rules (d_meta d) (page_count (d_meta d) * PAGE_SIZE) ->
  exists es, in_transaction path w0 s' d es.
Proof using Type.
  intros Hw. cbv zeta. intros Hd Hok Hrules. pose proof (edit_all_writing append edits w0 s Hw) as Hw'.
  destruct (wr_draft _ _ Hw' d Hd) as (Ht & _ & Hid & Hp). destruct (wr_log _ _ Hw') as (es & Hl & Hf).
  exists es. split; try done; try apply Hw'. split; try done.
  intros Hz. destruct (open_inv path true _ _ _ _ _ (wr_page0 _ _ Hw') (wr_page1 _ _ Hw') (wr_base _ _ Hw')) as (Hsel & _ & Hm & _).
  rewrite (Hm ltac:(done)) in Hsel. destruct Hsel as (m' & [(_ & _ & Hdb) _] & _).
  apply static_identity_spec in Hid as (_ & _ & _ & _ & Hdd). congruence.
Qed.
End Between.
