(* ===== verification/CowTheorems.v ===== *)
(** * Copy on write

    A transaction that starts with no free page recorded writes no page it was
    not the one to create, the allocator's reserve apart.  It runs in two
    parts.  Its edits allocate and change the trees, and leave the bitmap of
    free pages alone: the bitmap is empty, so a new page is one it discarded
    itself or one past the end of the file.  Its preparation for the commit
    hands pages to the bitmap, refills the reserve and seals, and allocates
    through the reserve only.  Wherever a call fails, a page below the end of
    the file whose birth is not the transaction's and which is not in the
    reserve is neither written nor cut off. *)

From stdpp Require Import base tactics numbers list strings gmap.
From Stdlib Require Import ZArith Lia.
From S2P Require Import Codec TreeMutation TreeSafety.
From S2P Require Import Prelude Errors Bytes PageHeader Checksum Contract Bootstrap Machine Mapping MappingFacts.
From S2P Require Import Draft Store BitmapPage DraftStore FreeBitmap CrashTheorems DraftStoreFacts DraftPages.

#[local] Open Scope string_scope.
#[local] Open Scope list_scope.
#[local] Open Scope Z_scope.
#[local] Opaque crc32c_pointer_table.

(** Page [n] was not born in the transaction. *)
Definition foreign (s : DraftStore) (n : Z) : Prop := @born_txn Error (disk s n) <> Ok (draft_txn s).

(** Page [n] is kept back for the bitmap's own pages: a slot that is 0 is empty. *)
Definition reserved (s : DraftStore) (n : Z) : Prop := n <> 0 /\ n ∈ allocator_reserve (draft_meta s).

#[global] Instance reserved_dec s n : Decision (reserved s n).
Proof. unfold reserved. apply _. Defined.

(** The transaction is in its first part: no page is free. *)
Definition growing (edits : bool) (s : DraftStore) : Prop :=
  (edits = true -> free_bitmap_root (draft_meta s) = 0) /\ 0 <= draft_limit s.

Record respects (edits : bool) (s s' : DraftStore) : Prop := {
  rs_growing : growing edits s';
  rs_txn : draft_txn s' = draft_txn s;
  rs_limit : draft_limit s <= draft_limit s';
  rs_reserve n : n < draft_limit s -> foreign s n -> reserved s' n -> reserved s n;
  rs_page n : n < draft_limit s -> foreign s n -> ~ reserved s n -> m_emits (spares n) (ds_mapping s) (ds_mapping s');
}.
Definition cow_step_in (edits : bool) (s s' : DraftStore) : Prop := growing edits s -> respects edits s s'.

Lemma spared_page n m m' : m_emits (spares n) m m' -> read_page (map_os m') n = read_page (map_os m) n.
Proof.
  intros (es & (_ & Hp & _) & Hs). rewrite <- (Hp n (Settled (read_page (map_os m) n)) eq_refl).
  by rewrite page_after_spares.
Qed.

Lemma foreign_kept n s s' : draft_txn s' = draft_txn s -> m_emits (spares n) (ds_mapping s) (ds_mapping s') ->
  foreign s n -> foreign s' n.
Proof. intros Ht He Hf. unfold foreign, disk in *. by rewrite (spared_page _ _ _ He), Ht. Qed.

#[global] Instance cow_preorder edits : PreOrder (cow_step_in edits).
Proof.
  split.
  - intros s Hg. by split.
  - intros s s1 s2 H1 H2 Hg. destruct (H1 Hg) as [A1 B1 C1 D1 E1]. destruct (H2 A1) as [A2 B2 C2 D2 E2].
    assert (Hs : forall n, n < draft_limit s -> foreign s n -> ~ reserved s n -> foreign s1 n /\ ~ reserved s1 n).
    { intros n Hn Hf Hr. split; [by apply (foreign_kept n s); auto | intros ?; by apply Hr, D1]. }
    split; [done | congruence | lia | |].
    + intros n Hn Hf Hr2. destruct (decide (reserved s n)) as [| Hr]; [done |]. destruct (Hs n Hn Hf Hr) as [? Hr1].
      destruct Hr1. apply D2; [lia | done | done].
    + intros n Hn Hf Hr. destruct (Hs n Hn Hf Hr). etrans; [by apply E1 | apply E2; [lia | done | done]].
Qed.

Section Steps.
Context (edits : bool).
#[local] Abbreviation cow_step := (cow_step_in edits).

(** Changes of the bookkeeping. *)
Lemma on_draft_cow f : (forall d, d_meta (f d) = d_meta d) -> keeps cow_step (on_draft f).
Proof.
  intros Hf. apply keeps_modify. intros s Hg. unfold growing, draft_txn, draft_limit, reserved, draft_meta in *.
  split; unfold growing, draft_txn, draft_limit, reserved, draft_meta; cbn; by rewrite ?Hf.
Qed.

(** Calls of the mapping. *)
Lemma on_pages_cow_at {A} (c : io Mapping A) s :
  (forall n, n < draft_limit s -> foreign s n -> m_emits (spares n) (ds_mapping s) (fst (c (ds_mapping s)))) ->
  cow_step s (fst (on_pages c s)).
Proof.
  intros Hc Hg. unfold on_pages, zoom. destruct (c (ds_mapping s)) as [m r]. split; try done. intros n Hn Hf _. by apply Hc.
Qed.

Lemma on_pages_cow {A} (c : io Mapping A) : (forall P, keeps (m_emits P) c) -> keeps cow_step (on_pages c).
Proof. intros Hc s. apply on_pages_cow_at. intros n _ _. apply Hc. Qed.

Lemma page_cow n limit : keeps cow_step (on_pages (page n limit)).
Proof. apply on_pages_cow. intros P. apply page_emits. Qed.
#[local] Hint Resolve page_cow : keeps.

(** A write to [k] guarded by a look at its page. *)
Lemma guarded_write {T A} k n limit (look : list Z -> Result T) (edit : T -> io (list Z) A) m :
  (k = n -> forall t, look (read_page (map_os m) k) <> Ok t) ->
  m_emits (spares n) m (fst (page_mut_after k limit look edit m)).
Proof.
  intros Hl. destruct (decide (k = n)) as [-> | Hne]; [| apply page_mut_after_emits; intros p; exact Hne].
  unfold page_mut_after, require_write, raw, mbind, io_bind, gets, lift.
  repeat (case_match; simplify_eq/=; try reflexivity). by edestruct (Hl eq_refl).
Qed.

Lemma guarded_pair {T A} j k n limit (look : list Z -> Result T) (copy : T -> list Z -> io (list Z) A) m :
  (k = n -> forall t, look (read_page (map_os m) k) <> Ok t) ->
  m_emits (spares n) m (fst (page_pair j k limit look copy m)).
Proof.
  intros Hl. destruct (decide (k = n)) as [-> | Hne]; [| apply page_pair_emits; intros p; exact Hne].
  unfold page_pair, require_write, raw, fail_if, mbind, io_bind, gets, lift.
  repeat (case_match; simplify_eq/=; try reflexivity). by edestruct (Hl eq_refl).
Qed.

(** The marks of a private page include its birth. *)
Lemma owned_birth p txn : @owned_by Error p txn = Ok true -> @born_txn Error p = Ok txn.
Proof.
  unfold owned_by. destruct (has_magic p); [| discriminate]. destruct (born_txn p) as [b | |]; cbn; try discriminate.
  intros [= Hb]. apply Z.eqb_eq in Hb. by subst.
Qed.

Lemma stacked_birth p txn : is_private_page p txn = Ok true -> @born_txn Error p = Ok txn.
Proof.
  unfold is_private_page, born_txn. destruct (u32_le p PRIVATE_MAGIC_OFFSET) as [w | |]; cbn; try discriminate.
  destruct (w =? PRIVATE_MAGIC); [| discriminate]. change PRIVATE_TXN_OFFSET with BORN_TXN.
  destruct (u64_le p BORN_TXN) as [b | |]; cbn; try discriminate. intros [= Hb]. apply Z.eqb_eq in Hb. by subst.
Qed.

Lemma tagged_birth p txn tag : private_tag p txn = Ok tag -> @born_txn Error p = Ok txn.
Proof.
  unfold private_tag. destruct (u32_le p OFFSET) as [w | |]; cbn; try discriminate.
  destruct (owned_by p txn) as [[] | |] eqn:Ho; cbn; try discriminate; [intros _; by apply owned_birth |].
  destruct (is_private_page p txn) as [[] | |] eqn:Hp; cbn; try discriminate. intros _. by apply stacked_birth.
Qed.

Lemma discardable_birth p txn u : discardable txn p = Ok u -> @born_txn Error p = Ok txn.
Proof.
  unfold discardable. destruct (born_txn p) as [b | |]; cbn; try discriminate.
  destruct (Z.eqb_spec b txn) as [-> | ?]; [done | discriminate].
Qed.

(** ** The operations of the store *)

Lemma inspect_cow A n (f : list Z -> Result A) : keeps cow_step (ds_inspect_page A n f).
Proof. unfold ds_inspect_page. keeps_tac. Qed.

Lemma update_cow A k (f : io (list Z) A) : keeps cow_step (ds_update_page A k f).
Proof.
  intros s. unfold ds_update_page. rewrite (bind_ok _ _ s s (draft_limit s)), (bind_ok _ _ s s (draft_txn s)) by done.
  destruct (require_page k (draft_limit s)) as [u | |]; [| reflexivity..]. rewrite (bind_ok _ _ s s u) by done.
  apply on_pages_cow_at. intros n Hn Hf. apply guarded_write. intros -> tag Ht. by apply Hf, tagged_birth with tag.
Qed.

Lemma copy_cow A j k (f : list Z -> io (list Z) A) : keeps cow_step (ds_copy_page A j k f).
Proof.
  intros s. unfold ds_copy_page. rewrite (bind_ok _ _ s s (draft_limit s)), (bind_ok _ _ s s (draft_txn s)) by done.
  destruct (require_page j (draft_limit s)) as [u | |]; [| reflexivity..]. rewrite (bind_ok _ _ s s u) by done.
  destruct (require_page k (draft_limit s)) as [u' | |]; [| reflexivity..]. rewrite (bind_ok _ _ s s u') by done.
  apply on_pages_cow_at. intros n Hn Hf. apply guarded_pair. intros -> tag Ht. by apply Hf, tagged_birth with tag.
Qed.

Lemma discard_cow k : keeps cow_step (ds_discard_private k).
Proof.
  intros s. unfold ds_discard_private. rewrite (bind_ok _ _ s s (private_head (ds_draft s))) by done.
  destruct (k =? private_head (ds_draft s)); [reflexivity |].
  rewrite (bind_ok _ _ s s tt), (bind_ok _ _ s s (draft_txn s)), (bind_ok _ _ s s (draft_limit s)) by done.
  destruct (require_page k (draft_limit s)) as [u | |]; [| reflexivity..]. rewrite (bind_ok _ _ s s u) by done.
  match goal with |- cow_step s (fst ((?c ≫= ?g) s)) => set (call := c); set (rest := g) end.
  assert (H1 : cow_step s (fst (call s))).
  { apply on_pages_cow_at. intros n Hn Hf. apply guarded_write. intros -> v Hv. by apply Hf, discardable_birth with v. }
  assert (H2 : forall v, keeps cow_step (rest v)) by (intros v; apply on_draft_cow; done).
  unfold mbind, io_bind. destruct (call s) as [s1 [v | e | t]]; cbn in H1 |- *; try done. etrans; [exact H1 | exact (H2 v s1)].
Qed.

#[global] Instance DraftStore_cow : StoreKeeps DraftStore cow_step := {
  sk_inspect := inspect_cow;
  sk_update := update_cow;
  sk_copy := copy_cow;
  sk_discard := discard_cow;
}.

(** ** Taking pages *)

Lemma pop_cow : keeps cow_step pop_private.
Proof. unfold pop_private. keeps_tac. apply on_draft_cow. done. Qed.

Lemma charge_cow : keeps cow_step charge_private.
Proof. unfold charge_private. keeps_tac. apply on_draft_cow. done. Qed.
#[local] Hint Resolve pop_cow charge_cow : keeps.

Lemma tail_capacity_cow : keeps cow_step ensure_tail_capacity.
Proof.
  intros s. unfold ensure_tail_capacity. rewrite (bind_ok _ _ s s (draft_limit s)) by done.
  destruct (checked_add u64_max (draft_limit s) 1) as [required|] eqn:Hr; [| reflexivity].
  apply checked_add_Some in Hr as [-> _]. rewrite (bind_ok _ _ s s (draft_limit s + 1)) by done.
  rewrite (bind_ok _ _ s s (map_len (ds_mapping s))) by done. destruct (_ <=? _); [reflexivity |].
  rewrite (bind_ok _ _ s s (committed_page_count s)), (bind_ok _ _ s s (ds_budget s)) by done.
  cbv zeta. set (capacity := Z.min _ _).
  destruct (Z.ltb_spec capacity (draft_limit s + 1)) as [? | Hcap]; [reflexivity |].
  rewrite (bind_ok _ _ s s tt) by done.
  destruct (checked_mul u64_max capacity PAGE_SIZE) as [bytes|] eqn:Hb; [| reflexivity].
  assert (bytes = capacity * PAGE_SIZE) as -> by (unfold checked_mul in Hb; destruct (_ <=? _); congruence).
  rewrite (bind_ok _ _ s s (capacity * PAGE_SIZE)) by done.
  pose proof (on_pages_cow len_of_file ltac:(intros P; apply len_of_file_emits) s) as H1. unfold mbind, io_bind.
  assert (Hd : ds_draft (fst (on_pages len_of_file s)) = ds_draft s) by (unfold on_pages, zoom; by destruct (len_of_file _)).
  destruct (on_pages len_of_file s) as [s1 [l | e | t]]; cbn in H1, Hd |- *; [| done..]. etrans; [exact H1 |].
  destruct (capacity * PAGE_SIZE <=? l); [apply on_pages_cow; intros P; apply remap_emits |].
  apply on_pages_cow_at. intros n Hn _. apply resize_emits. cbn.
  assert (draft_limit s1 = draft_limit s) as Hl by (unfold draft_limit, draft_meta; by rewrite Hd). unfold PAGE_SIZE. lia.
Qed.

(** What follows writes page [k] only. *)
Definition claims (k : Z) (s s' : DraftStore) : Prop :=
  draft_meta s' = draft_meta s /\ forall n, n <> k -> m_emits (spares n) (ds_mapping s) (ds_mapping s').

#[local] Instance claims_preorder k : PreOrder (claims k).
Proof.
  split.
  - intros s. by split.
  - intros s s1 s2 [A1 B1] [A2 B2]. split; [congruence |]. intros n Hn. etrans; [by apply B1 | by apply B2].
Qed.

Lemma on_draft_claims k f : (forall d, d_meta (f d) = d_meta d) -> keeps (claims k) (on_draft f).
Proof using Type. intros Hf. apply keeps_modify. intros s. split; [apply Hf | done]. Qed.

Lemma on_pages_claims {A} k (c : io Mapping A) : (forall n, n <> k -> keeps (m_emits (spares n)) c) -> keeps (claims k) (on_pages c).
Proof using Type.
  intros Hc s. unfold on_pages, zoom. destruct (c (ds_mapping s)) as [m r] eqn:E. split; [done |]. intros n Hn.
  pose proof (Hc n Hn (ds_mapping s)) as He. by rewrite E in He.
Qed.

Lemma claim_page_claims k existing : keeps (claims k) (claim_page k existing).
Proof using Type.
  unfold claim_page, charge_private. keeps_tac; try (apply on_draft_claims; done).
  apply on_pages_claims. intros n Hn. apply page_mut_after_emits. intros p. cbn. lia.
Qed.

Lemma page_claims k n limit : keeps (claims k) (on_pages (page n limit)).
Proof using Type. apply on_pages_claims. intros m _. apply page_emits. Qed.
#[local] Hint Resolve claim_page_claims page_claims : keeps.

Lemma chain_claims k remaining expected : forall n, keeps (claims k) (chain_loop remaining expected n).
Proof using Type. induction remaining as [|remaining IH]; intros n; cbn [chain_loop]; keeps_tac. Qed.

Lemma claim_claims k : keeps (claims k) (claim_new_tail k).
Proof using Type. unfold claim_new_tail. keeps_tac. Qed.

Lemma claim_allocated_claims k : keeps (claims k) (claim_allocated k).
Proof using Type.
  assert (Hd : keeps (claims k) (dirty_chain_contains k)) by (intros s; apply chain_claims).
  unfold claim_allocated, existing_dirty_tag. keeps_tac.
Qed.

Lemma allocate_tail_cow : keeps cow_step allocate_tail.
Proof.
  intros s Hg. unfold allocate_tail.
  rewrite (bind_ok _ _ s s (draft_limit s)), (bind_ok _ _ s s (committed_page_count s)), (bind_ok _ _ s s (ds_budget s)),
    (bind_ok _ _ s s (growth_pages (ds_draft s))) by done.
  destruct (draft_limit s <? committed_page_count s); [by apply (reflexivity (R := cow_step)) |]. rewrite (bind_ok _ _ s s tt) by done.
  destruct (max_growth_pages (ds_budget s) <=? _); [by apply (reflexivity (R := cow_step)) |]. rewrite (bind_ok _ _ s s tt) by done.
  destruct (Z.leb_spec MAX_PAGE_COUNT (draft_limit s)) as [? | Hmax]; [by apply (reflexivity (R := cow_step)) |].
  rewrite (bind_ok _ _ s s tt) by done.
  pose proof (tail_capacity_cow s Hg) as H1. pose proof (tail_capacity_draft s) as Hd. unfold mbind at 1, io_bind at 1.
  destruct (ensure_tail_capacity s) as [s1 [u | e | t]]; cbn in H1, Hd |- *; [| done..].
  assert (Hu : as_u32 (draft_limit s) = draft_limit s) by (unfold as_u32, MAX_PAGE_COUNT, growing in *; apply Z.mod_small; lia).
  rewrite Hu. match goal with |- respects edits s (fst (?f s1)) => set (call := f) end.
  set (s2 := set_ds_draft (set_growth_pages (growth_pages (ds_draft s) + 1) (set_page_count (draft_limit s + 1) (ds_draft s1))) s1).
  assert (Hc : claims (draft_limit s) s2 (fst (call s1))).
  { subst call. unfold on_draft. rewrite (bind_ok _ _ s1 (set_ds_draft (set_page_count (draft_limit s + 1) (ds_draft s1)) s1) tt) by done.
    rewrite (bind_ok _ _ _ s2 tt) by done. pose proof (claim_claims (draft_limit s)) as Hk.
    match goal with |- claims _ s2 (fst (?f s2)) => enough (Hf : keeps (claims (draft_limit s)) f) by apply Hf end. keeps_tac. }
  destruct Hc as [Hm He]. destruct H1 as [[Hg1 Hg2] Ht Hl Hrs Hpg]. unfold growing, draft_txn, draft_limit, reserved in *.
  split; unfold growing, draft_txn, draft_limit, reserved; rewrite ?Hm.
  - split; [exact Hg1 | change (0 <= page_count (draft_meta s) + 1); lia].
  - exact Ht.
  - change (page_count (draft_meta s) <= page_count (draft_meta s) + 1). lia.
  - exact Hrs.
  - intros n Hn Hf Hr. etrans; [by apply Hpg | apply He; lia].
Qed.

(** ** Sealing and the reserve *)

(** Looking at a page leaves the store as it is. *)
Lemma page_look n limit m r : snd (page n limit m) = r -> fst (page n limit m) = m /\ forall p, r = Ok p -> p = read_page (map_os m) n.
Proof.
  intros <-. unfold page, raw, fail_if, mbind, io_bind, gets, lift. repeat (case_match; simplify_eq/=; try done).
  all: split; [done |]; by intros p [= <-].
Qed.

Lemma inspect_look A n (f : list Z -> Result A) s : exists r, ds_inspect_page A n f s = (s, r) /\ forall a, r = Ok a -> f (disk s n) = Ok a.
Proof.
  unfold ds_inspect_page, mbind, io_bind, gets, lift. destruct (require_page n (draft_limit s)) as [u | |]; [| by eexists..].
  unfold on_pages, zoom. destruct (page n (draft_limit s) (ds_mapping s)) as [m r] eqn:E.
  destruct (page_look n (draft_limit s) (ds_mapping s) r ltac:(by rewrite E)) as [Hm Hp]. rewrite E in Hm. cbn in Hm. subst m.
  assert (Hs : set_ds_mapping (ds_mapping s) s = s) by (by destruct s). rewrite Hs.
  destruct r as [p | e | t]; [| by eexists..]. eexists. split; [done |]. intros a <-. unfold disk. by rewrite <- (Hp p eq_refl).
Qed.

Lemma seal_loop_cow append checkpoint remaining : forall n, keeps cow_step (seal_loop append checkpoint remaining n).
Proof.
  induction remaining as [|remaining IH]; intros n; cbn [seal_loop]; [keeps_tac |].
  apply keeps_if; [keeps_tac |]. apply keeps_bind; [apply _ | keeps_tac | intros _]. intros s.
  rewrite (bind_ok _ _ s s (draft_txn s)), (bind_ok _ _ s s (draft_limit s)) by done.
  cbn [inspect_page DraftStore_PageStore].
  match goal with |- context [ds_inspect_page ?T n ?f] => destruct (inspect_look T n f s) as (r & E & Hr) end.
  destruct r as [[next data] | e | t]; [| by rewrite (bind_err _ _ _ _ _ E) | by rewrite (bind_panic _ _ _ _ _ E)].
  rewrite (bind_ok _ _ _ _ _ E). specialize (Hr _ eq_refl).
  assert (Hs : forall k, k < draft_limit s -> foreign s k -> data = true -> k <> n).
  { intros k _ Hf -> ->. apply Hf. destruct (u32_le (disk s n) OFFSET) as [w | |]; cbn in Hr; try discriminate.
    destruct (dirty_next w n (draft_limit s)); cbn in Hr; try discriminate.
    destruct (has_magic (disk s n)); cbn in Hr; [| discriminate].
    destruct (born_txn (disk s n)) as [b | |]; cbn in Hr |- *; try discriminate.
    destruct (Z.eqb_spec b (draft_txn s)); cbn in Hr; [by subst | discriminate]. }
  match goal with |- cow_step s (fst ((?c ≫= ?g) s)) => set (call := c); set (rest := g) end.
  assert (H1 : cow_step s (fst (call s))).
  { subst call. destruct data; [| reflexivity]. apply on_pages_cow_at. intros k Hk Hf. apply page_mut_after_emits. intros p. cbn. intros ->. by apply (Hs k). }
  unfold mbind, io_bind. destruct (call s) as [s1 [v | e | t]]; cbn in H1 |- *; try done. etrans; [exact H1 | exact (IH next s1)].
Qed.

Lemma seal_cow append checkpoint : keeps cow_step (seal_private_pages append checkpoint).
Proof.
  unfold seal_private_pages. pose proof (seal_loop_cow append checkpoint). keeps_tac. apply on_draft_cow. done.
Qed.

#[local] Hint Resolve allocate_tail_cow seal_cow : keeps.

(** ** The reserve *)

(** A page the store can hand out: one past the end of the file, or one of the
    transaction's own. *)
Definition fresh (s : DraftStore) (n : Z) : Prop := n < draft_limit s -> ~ foreign s n.

Lemma pop_fresh s s' n : pop_private s = (s', Ok n) -> fresh s n.
Proof using Type.
  intros H _ Hf. unfold pop_private in H. apply bind_inv in H as (k & ? & Hk & H). apply gets_inv in Hk as [-> [= ->]].
  apply bind_inv in H as (? & ? & Hz & H). apply fail_if_inv in Hz as [-> _].
  apply bind_inv in H as (txn & ? & Hx & H). apply gets_inv in Hx as [-> [= ->]].
  apply bind_inv in H as (next & s1 & Hi & H). cbn [inspect_page DraftStore_PageStore] in Hi.
  destruct (inspect_look Z (private_head (ds_draft s)) (fun page => private_stack_next page (draft_txn s)) s) as (r & E & Hr).
  rewrite E in Hi. injection Hi as <- ->. specialize (Hr _ eq_refl).
  apply bind_inv in H as (l & ? & Hl & H). apply gets_inv in Hl as [-> _].
  apply bind_inv in H as (? & ? & Hz & H). apply fail_if_inv in Hz as [-> _].
  apply bind_inv in H as (? & s2 & _ & H). injection H as _ <-. apply Hf. unfold private_stack_next in Hr.
  destruct (is_private_page _ _) as [[] | |] eqn:Hp; cbn in Hr; try discriminate. by apply stacked_birth.
Qed.

Lemma tail_fresh s s' n : 0 <= draft_limit s -> allocate_tail s = (s', Ok n) -> fresh s n.
Proof using Type.
  intros Hg H Hn. unfold allocate_tail in H. apply bind_inv in H as (l & ? & Hl & H). apply gets_inv in Hl as [-> [= ->]].
  do 3 (apply bind_inv in H as (? & ? & Hz & H); apply gets_inv in Hz as [-> _]).
  do 2 (apply bind_inv in H as (? & ? & Hz & H); apply fail_if_inv in Hz as [-> _]).
  apply bind_inv in H as (? & ? & Hz & H). apply fail_if_inv in Hz as [-> Hmax]. apply Z.leb_gt in Hmax.
  do 4 (apply bind_inv in H as (? & ? & _ & H)). injection H as _ <-.
  unfold as_u32, MAX_PAGE_COUNT in *. rewrite Z.mod_small in Hn by lia. lia.
Qed.

Lemma reserve_page_cow : keeps cow_step reserve_page.
Proof using Type. unfold reserve_page. keeps_tac. Qed.

Lemma reserve_page_fresh s s' n : 0 <= draft_limit s -> reserve_page s = (s', Ok n) -> fresh s n.
Proof using Type.
  intros Hg H. unfold reserve_page in H. apply bind_inv in H as (d & ? & Hd & H). apply gets_inv in Hd as [-> [= ->]].
  destruct (negb _); [by apply pop_fresh in H |]. apply bind_inv in H as (k & s1 & Hk & H).
  apply bind_inv in H as (? & ? & _ & H). injection H as _ <-. by eapply tail_fresh.
Qed.

(** A fresh page put in the reserve after a step. *)
Lemma refill_cow i n s s1 : growing edits s -> cow_step s s1 -> fresh s n ->
  cow_step s (set_ds_draft (set_reserve (<[i := n]> (allocator_reserve (draft_meta s1))) (ds_draft s1)) s1).
Proof using Type.
  intros Hg H1 Hfr _. destruct (H1 Hg) as [Hg1 Ht Hl Hrs Hp]. split; try done.
  intros k Hk Hf [Hk0 Hin]. change (k ∈ <[i:=n]> (allocator_reserve (draft_meta s1))) in Hin.
  apply list_elem_of_lookup in Hin as (j & Hj). apply list_lookup_insert_Some in Hj as [(_ & -> & _) | (_ & Hj)].
  - by destruct (Hfr Hk).
  - apply Hrs; [done | done |]. split; [done |]. by apply list_elem_of_lookup_2 in Hj.
Qed.

Lemma replenish_cow : keeps cow_step replenish_reserve.
Proof using Type.
  intros s. unfold replenish_reserve. generalize (length (allocator_reserve (draft_meta s))). intros n.
  enough (Hk : forall i, keeps cow_step (replenish_loop n i)) by exact (Hk 0%nat s). clear s.
  induction n as [|n IH]; intros i; cbn [replenish_loop]; [keeps_tac |].
  apply keeps_bind; [apply _ | keeps_tac | intros meta]. apply keeps_bind; [apply _ | | intros _; apply IH].
  apply keeps_if; [keeps_tac |]. intros s Hg. pose proof (reserve_page_cow s) as H1.
  unfold mbind, io_bind. destruct (reserve_page s) as [s1 [k | e | t]] eqn:E; cbn in H1 |- *; [| by apply H1..].
  apply (refill_cow i k s s1); try done. apply (reserve_page_fresh s s1); [apply Hg | done].
Qed.
#[local] Hint Resolve replenish_cow : keeps.

Lemma take_reserve_takes l page l' : take_reserve l = Some (page, l') ->
  (page <> 0 /\ page ∈ l) /\ forall n, n <> 0 -> n ∈ l' -> n ∈ l.
Proof using Type.
  revert l'. induction l as [|x l IH]; intros l' H; cbn in H; [discriminate |].
  destruct (Z.eqb_spec x 0) as [-> | Hx]; cbn in H.
  - destruct (take_reserve l) as [[p r] |]; cbn in H; [| discriminate]. injection H as <- <-.
    destruct (IH r eq_refl) as [[? ?] Hl]. split; [split; [done | by right] |].
    intros n Hn Hin. apply elem_of_cons in Hin as [? | Hin]; [done | right; auto].
  - injection H as <- <-. split; [split; [done | by left] |].
    intros n Hn Hin. apply elem_of_cons in Hin as [? | Hin]; [done | by right].
Qed.

Lemma allocate_bitmap_cow : keeps cow_step ds_allocate_bitmap_page.
Proof using Type.
  intros s Hg. unfold ds_allocate_bitmap_page. rewrite (bind_ok _ _ s s (ds_draft s)) by done.
  destruct (negb _); [by apply pop_cow |]. change (d_meta (ds_draft s)) with (draft_meta s).
  destruct (take_reserve (allocator_reserve (draft_meta s))) as [[k reserve] |] eqn:Hk; [| by apply allocate_tail_cow].
  apply take_reserve_takes in Hk as [Hin Hl].
  set (s1 := set_ds_draft (set_reserve reserve (ds_draft s)) s). unfold on_draft. rewrite (bind_ok _ _ s s1 tt) by done.
  match goal with |- respects edits s (fst (?f s1)) => assert (Hc : keeps (claims k) f) end.
  { pose proof (claim_allocated_claims k). keeps_tac. }
  destruct (Hc s1) as [Hm He]. split; unfold growing, draft_txn, draft_limit, reserved; rewrite ?Hm.
  - exact Hg.
  - done.
  - done.
  - intros n _ _ [Hn Hr]. split; [done | by apply Hl].
  - intros n _ _ Hr. apply He. intros ->. by apply Hr.
Qed.
End Steps.

#[local] Hint Resolve allocate_tail_cow seal_cow replenish_cow allocate_bitmap_cow : keeps.

(** ** Allocation in the first part *)

Lemma allocate_cow path : keeps (cow_step_in true) (ds_allocate path).
Proof.
  intros s Hg. unfold ds_allocate. rewrite (bind_ok _ _ s s (ds_draft s)) by done.
  destruct (negb (private_head (ds_draft s) =? 0)); [by apply pop_cow |].
  rewrite (bind_ok _ _ s s (committed_page_count s)) by done.
  change (free_bitmap_root (d_meta (ds_draft s))) with (free_bitmap_root (draft_meta s)). rewrite (proj1 Hg eq_refl).
  rewrite (bind_ok _ _ s s (None, 0, retired_new)) by done.
  assert (Hr : on_draft (set_bitmap_root 0) s = (s, Ok tt)).
  { unfold on_draft, modify, set_bitmap_root. rewrite <- (proj1 Hg eq_refl). destruct s as [? ? ? d]. cbn. by destruct d as [? []]. }
  rewrite (bind_ok _ _ _ _ _ Hr). by apply allocate_tail_cow.
Qed.

Lemma tree_perform_cow {K L} (codec : Codec K L) path (op : tree_op K L) root :
  keeps (cow_step_in true) (on_root root (tree_perform (H1 := DraftStore_Store path) op)).
Proof. exact (on_root_moves (H1 := DraftStore_Store path) (cow_step_in true) (allocate_cow path) root op). Qed.
#[local] Hint Resolve allocate_cow tree_perform_cow : keeps.

(** ** The bitmap in the second part *)

#[local] Instance DraftStore_bitmap_cow : BitmapStoreKeeps DraftStore (cow_step_in false) := { bk_allocate := allocate_bitmap_cow false }.

Lemma set_root_cow root : keeps (cow_step_in false) (on_draft (set_bitmap_root root)).
Proof. apply keeps_modify. intros s [_ Hl]. by split. Qed.

Lemma extend_retired_cow pages : keeps (cow_step_in false) (extend_retired pages).
Proof. apply (keeps_zoom _ (fun _ _ => True)); [| by intros x]. intros s r _ Hg. by split. Qed.
#[local] Hint Resolve set_root_cow extend_retired_cow : keeps.

Lemma set_page_free_cow path n : keeps (cow_step_in false) (set_page_free path n).
Proof. unfold set_page_free. keeps_tac. Qed.
#[local] Hint Resolve set_page_free_cow : keeps.

(** ** A transaction *)

(** The operations of the first part: they do not put pages in the bitmap of
    free pages. *)
Definition off_bitmap (op : store_op) : bool :=
  match op with OpAllocateBitmap | OpSetFree _ | OpEnsureLevel _ _ => false | _ => true end.

(** The operations of the second part: they do not take pages out of it. *)
Definition off_allocator (op : store_op) : bool :=
  match op with OpTree _ _ _ | OpAllocate => false | _ => true end.

Section Run.
Context (path : crc_path) (append : Z -> list Z -> Z).

Lemma edit_cow op : off_bitmap op = true -> keeps (cow_step_in true) (perform path append op).
Proof using Type. destruct op; intros Hop; try discriminate; cbn [perform]; keeps_tac. Qed.

Lemma prepare_cow op : off_allocator op = true -> keeps (cow_step_in false) (perform path append op).
Proof using Type. destruct op; intros Hop; try discriminate; cbn [perform]; keeps_tac. Qed.

Lemma perform_all_cow edits (ok : store_op -> bool) ops :
  (forall op, ok op = true -> keeps (cow_step_in edits) (perform path append op)) ->
  Forall (fun op => ok op = true) ops -> forall s, cow_step_in edits s (perform_all path append ops s).
Proof using Type.
  intros Hok. induction 1 as [|op ops Hop _ IH]; intros s; [reflexivity |]. cbn [perform_all fold_left].
  etrans; [exact (Hok op Hop s) | apply IH].
Qed.

(** C40: take a transaction of a database with an empty bitmap of free pages.
    Its edits are any operations but those that put pages in the bitmap; its
    preparation for the commit, which follows, is any operations but those
    that take pages out of it, and so allocates from the reserve the meta page
    lists.  Wherever calls of either part fail, a page below the end of the
    file that was not born in the transaction and is not in that reserve is
    never written and never cut off, so its bytes stay what they were. *)
Theorem committed_pages_untouched edits preparation s n :
  free_bitmap_root (draft_meta s) = 0 ->
  Forall (fun op => off_bitmap op = true) edits -> Forall (fun op => off_allocator op = true) preparation ->
  0 <= n < draft_limit s -> foreign s n -> ~ reserved s n ->
  let s' := perform_all path append preparation (perform_all path append edits s) in
  (exists es, logged (map_os (ds_mapping s)) (map_os (ds_mapping s')) es /\ Forall (spares n) es)
  /\ disk s' n = disk s n.
Proof using Type.
  intros Hroot He Hp Hn Hf Hr. cbv zeta. set (s1 := perform_all path append edits s).
  pose proof (perform_all_cow true off_bitmap edits edit_cow He s) as H1.
  pose proof (perform_all_cow false off_allocator preparation prepare_cow Hp s1) as H2. fold s1 in H1.
  assert (H12 : cow_step_in false s (perform_all path append preparation s1)).
  { etrans; [| exact H2]. intros Hg. destruct H1 as [[_ Hg1] ? ? ? ?]; [by split; [| apply Hg] | by split]. }
  destruct H12 as [_ _ _ _ Hs]; [by split; [| lia] |]. specialize (Hs n ltac:(lia) Hf Hr).
  split; [exact Hs | exact (spared_page _ _ _ Hs)].
Qed.
End Run.
