(* ===== verification/CrashExamples.v ===== *)
(** * A publication, run

    One transaction on a small database, published with every system call
    succeeding, and the crash theorems at it. *)

From stdpp Require Import base tactics numbers list strings gmap.
From Stdlib Require Import ZArith Lia.
From S2P Require Import Prelude Errors Bytes Key Codec PageHeader Checksum ChecksumFacts Contract ContractFacts Bootstrap BootstrapFacts Machine.
From S2P Require Import Mapping MappingFacts Draft WriterCore Store TreeMutation TreeSafety DraftStore FreeBitmap PublicationFacts CrashTheorems.
From S2P Require Import Classify DraftStoreFacts.

#[local] Open Scope string_scope.
#[local] Open Scope list_scope.
#[local] Open Scope Z_scope.

(** ** Everything written may have reached storage *)

Definition latest (w : Machine) (es : list event) : image :=
  mkImage (default 0 (head (lengths_after [file_len w] es)))
    (fun n => content (page_after n (Settled (read_page w n)) es)).

Definition event_ok (e : event) : Prop := match e with Wrote _ p => page_ok p | _ => True end.

Lemma zeros_ok : page_ok (page_fill 0).
Proof.
  split; [unfold page_fill; rewrite zlen_replicate; unfold PAGE_SIZE; lia |].
  apply Forall_replicate. unfold is_byte. lia.
Qed.

Lemma content_ok n d es : page_ok (content d) -> Forall event_ok es -> page_ok (content (page_after n d es)).
Proof.
  intros Hd Hes. revert d Hd. induction Hes as [|e es He _ IH]; intros d Hd; [done |].
  cbn [page_after fold_left]. apply IH.
  destruct e, d as [q | [] q]; cbn in *; try done; case_match; try done; apply zeros_ok.
Qed.

Lemma lengths_nonempty ls es : ls <> [] -> lengths_after ls es <> [].
Proof.
  revert ls. induction es as [|e es IH]; intros ls Hl; [done |]. cbn [lengths_after fold_left]. apply IH.
  destruct e; cbn; try done. by destruct ls.
Qed.

Lemma latest_crashed w es : (forall n, page_ok (read_page w n)) -> Forall event_ok es -> crashed w es (latest w es).
Proof.
  intros Hw Hes. split.
  - cbn. pose proof (lengths_nonempty [file_len w] es ltac:(done)) as Hl.
    destruct (lengths_after [file_len w] es) as [|l ls]; [done |]. cbn. by left.
  - intros n. cbn. pose proof (content_ok n (Settled (read_page w n)) es (Hw n) Hes) as Hc.
    by destruct (page_after n _ es).
Qed.

(** ** The transaction *)

Definition stored : Machine := mkMachine 12288 {[ 0 := page4; 1 := page5 ]} [] [].

Definition meta6 : MetaV4 :=
  with_space 4 0 [0; 0; 0; 0] (with_ranges 3 1 (with_identity 6 (replicate 16 10) (sample_at 5 9))).

Definition draft6 : Draft :=
  match draft_new (sample_at 5 9) (replicate 16 10) with
  | Ok d => set_flags true false NoWorkflow false (set_meta meta6 d)
  | _ => mkDraft meta6 meta6 0 0 [] 0 0 false false false false 0 [] 0 [] 0 0 NoWorkflow false
  end.

Definition leaf3 : list Z := page_fill 1.
Definition growing : list event := [Resized 16384; Wrote 3 leaf3].

Definition writer6 : WriterCore :=
  mkWriterCore (mkMapping true true 16384 ReadWrite None (write_page 3 leaf3 (cut 16384 stored)))
    opened5 (mkPageBudget 0 10 10) (Some draft6) None.

Lemma stored_ok n : page_ok (read_page stored n).
Proof.
  unfold read_page, stored. cbn [file_pages].
  destruct (decide (n = 0)) as [-> | H0]; [rewrite lookup_insert_eq; exact page4_ok |].
  rewrite lookup_insert_ne by congruence.
  destruct (decide (n = 1)) as [-> | H1]; [rewrite lookup_singleton_eq; exact page5_ok |].
  rewrite lookup_singleton_ne by congruence. exact zeros_ok.
Qed.

Lemma leaf3_ok : page_ok leaf3.
Proof.
  split; [unfold leaf3, page_fill; rewrite zlen_replicate; unfold PAGE_SIZE; lia |].
  apply Forall_replicate. unfold is_byte. lia.
Qed.

Lemma meta6_ok : meta_ok meta6.
Proof.
  constructor; unfold is_id16, bytes_ok, is_byte, is_u64, is_u32, u64_max; cbn; repeat first [lia | constructor].
Qed.

Lemma meta6_next : successor (sample_at 5 9) meta6.
Proof.
  constructor; try (vm_compute; congruence).
  - exact meta6_ok.
  - destruct (bootstrap_settles meta6 (page_count meta6 * PAGE_SIZE) meta6_ok) as [[_ H] | (e & H & _)]; [exact H |].
    vm_compute in H. discriminate H.
Qed.

Lemma writer6_transaction : in_transaction X86 stored writer6 draft6 growing.
Proof.
  constructor.
  - apply stored_ok.
  - apply stored_ok.
  - vm_compute. reflexivity.
  - intros m [(_ & Hd & _) _]. assert (Hp : decode_unchecked (read_page stored 0) = Some (sample_at 4 8)) by (vm_compute; reflexivity).
    change (1 - selected_meta_page (base writer6)) with 0 in Hd. rewrite Hp in Hd. injection Hd as <-. vm_compute. discriminate.
  - reflexivity.
  - exact meta6_next.
  - change growing with ([Resized 16384] ++ [Wrote 3 leaf3]). eapply logged_trans; [apply logged_cut | apply logged_write].
  - repeat constructor; vm_compute; congruence.
Qed.

Definition published6 : WriterCore := fst (publish crc32c_pointer_table false (fun _ => false) writer6).

Lemma publish6 : publish crc32c_pointer_table false (fun _ => false) writer6 = (published6, Ok CommittedPublish).
Proof.
  assert (H : snd (publish crc32c_pointer_table false (fun _ => false) writer6) = Ok CommittedPublish) by (vm_compute; reflexivity).
  rewrite <- H. apply surjective_pairing.
Qed.

(** The meta page has been written and nothing after that. *)
Definition cut_short : list event := take 5 (since stored published6).

Lemma events6 : since stored published6
  = growing ++ [Flushed 8192 8192; Synced; Wrote 0 (page_of meta6); Flushed 0 4096; Synced].
Proof. vm_compute. reflexivity. Qed.

Lemma page6_ok : page_ok (page_of meta6).
Proof. apply page_of_ok, meta6_ok. Qed.

Lemma events6_ok : Forall event_ok (since stored published6).
Proof.
  rewrite events6. unfold growing. pose proof page6_ok as H6. pose proof leaf3_ok as H3. revert H6 H3.
  generalize (page_of meta6), leaf3. intros p q H6 H3. by repeat (apply Forall_cons; split); [..| constructor].
Qed.

(** ** The theorems at this run *)

Lemma publish_crash_atomic_witness :
  exists b, reopen X86 (latest stored cut_short) = Ok b
    /\ (bs_meta b = sample_at 5 9 \/ bs_meta b = meta6 /\ draft_pages_stored writer6 draft6 (latest stored cut_short)).
Proof.
  apply (publish_crash_atomic X86 crc32c_pointer_table false (fun _ => false) stored writer6 draft6 growing
           published6 (Ok CommittedPublish) cut_short (latest stored cut_short)).
  - exact table_continues.
  - exact writer6_transaction.
  - exact publish6.
  - unfold cut_short. apply prefix_take.
  - apply latest_crashed; [exact stored_ok |]. unfold cut_short. apply Forall_take, events6_ok.
  - right. vm_compute. reflexivity.
Defined.

Lemma publish_outcome_durable_witness : let img := latest stored (since stored published6) in
  exists b, reopen X86 img = Ok b /\ bs_meta b = meta6 /\ draft_pages_stored writer6 draft6 img.
Proof.
  intros img.
  destruct (publish_outcome_durable X86 crc32c_pointer_table false (fun _ => false) stored writer6 draft6 growing
    published6 (Ok CommittedPublish) img table_continues writer6_transaction eq_refl publish6
    (latest_crashed _ _ stored_ok events6_ok)) as (o & Ho & H).
  injection Ho as <-. destruct H as (b & Hr & Hm & Hd & _). exists b. split; [exact Hr |]. split; [exact Hm | exact Hd].
Defined.

(** The same crash with the meta page torn. *)
Definition torn : image :=
  mkImage 16384 (fun n => if n =? 0 then page_fill 0 else img_page (latest stored cut_short) n).

Lemma torn_crashed : crashed stored cut_short torn.
Proof.
  destruct (latest_crashed stored cut_short stored_ok) as [Hl Hp].
  { unfold cut_short. apply Forall_take, events6_ok. }
  split.
  - replace (img_len torn) with (img_len (latest stored cut_short)) by (vm_compute; reflexivity). exact Hl.
  - intros n. destruct (decide (n = 0)) as [-> | Hn].
    + assert (He : exists f p, page_after 0 (Settled (read_page stored 0)) cut_short = Unsettled f p)
        by (exists false, (page_of meta6); vm_compute; reflexivity).
      destruct He as (f & p & ->). exact zeros_ok.
    + unfold torn. cbn [img_page]. rewrite (proj2 (Z.eqb_neq n 0) Hn). apply Hp.
Qed.

Lemma torn_meta_page_refused_witness :
  reopen X86 torn = Err CurrentGenerationUnprovable
  /\ candidate X86 true (img_page torn 1) 16384 = Ok (sample_at 5 9).
Proof.
  apply (torn_meta_page_refused X86 crc32c_pointer_table false (fun _ => false) stored writer6 draft6 growing
           published6 (Ok CommittedPublish) cut_short torn).
  - exact table_continues.
  - exact writer6_transaction.
  - exact publish6.
  - unfold cut_short. apply prefix_take.
  - exact torn_crashed.
  - exact zeros_ok.
  - intros m (Ha & _). vm_compute in Ha. discriminate Ha.
Defined.

Definition empty_spec : EmptySpec := live Ipv4 Direct NoStructure FIRST_SEEN (replicate 16 7) (replicate 16 9).
Definition nothing : Machine := mkMachine 0 ∅ [] [].
Definition created : Machine := fst (write_empty crc32c_pointer_table empty_spec nothing).

Lemma empty_spec_ok : spec_ok empty_spec.
Proof.
  constructor; unfold is_id16, bytes_ok, is_byte, u64_max; cbn; repeat split; try lia; try (vm_compute; congruence); 
    repeat first [lia | constructor].
Qed.

Lemma created_run : write_empty crc32c_pointer_table empty_spec nothing = (created, Ok tt).
Proof.
  assert (H : snd (write_empty crc32c_pointer_table empty_spec nothing) = Ok tt) by (vm_compute; reflexivity).
  rewrite <- H. apply surjective_pairing.
Qed.

Lemma created_events : events created = events nothing ++ empty_events (page_of (empty_meta empty_spec)).
Proof. vm_compute. reflexivity. Qed.

Lemma empty_database_opens_witness :
  let img := latest nothing (empty_events (page_of (empty_meta empty_spec))) in
  exists b, open_meta_pages X86 true (img_page img 0) (img_page img 1) (img_len img) ImmutableReader = Ok b
    /\ bs_meta b = empty_meta empty_spec.
Proof.
  intros img.
  destruct (empty_database_opens X86 crc32c_pointer_table empty_spec nothing created tt _ img ImmutableReader
    table_continues empty_spec_ok created_run created_events) as (b & Ho & Hm & _).
  - apply latest_crashed.
    + intros n. unfold read_page. cbn. rewrite lookup_empty. exact zeros_ok.
    + pose proof (proj2 (page_of_ok _ (empty_meta_ok _ empty_spec_ok))) as Hp. revert Hp.
      generalize (page_of (empty_meta empty_spec)). intros p Hp. by repeat (apply Forall_cons; split); [..| constructor].
  - exists b. split; [exact Ho | exact Hm].
Defined.

Definition discarded6 : WriterCore := fst (discard_unpublished X86 false writer6).

Lemma discard6 : discard_unpublished X86 false writer6 = (discarded6, Ok tt).
Proof.
  assert (H : snd (discard_unpublished X86 false writer6) = Ok tt) by (vm_compute; reflexivity).
  rewrite <- H. apply surjective_pairing.
Qed.

(** The same writer on a system that refuses the fifth call, the new map. *)
Definition writer6_refused : WriterCore :=
  let m := wc_mapping writer6 in
  set_mapping (set_os (with_answers [None; None; None; None; Some 12] (map_os m)) m) writer6.
Definition stranded6 : WriterCore := fst (discard_unpublished X86 false writer6_refused).

Lemma discard6_refused : discard_unpublished X86 false writer6_refused = (stranded6, Err (Io (Some 12))).
Proof.
  assert (H : snd (discard_unpublished X86 false writer6_refused) = Err (Io (Some 12))) by (vm_compute; reflexivity).
  rewrite <- H. apply surjective_pairing.
Qed.


Definition file7 : LocalFileIdentity := mkLocalFileIdentity 1 [7].

Lemma recovery_agrees_with_open_witness :
  current_recovery_meta (read_metas X86 true page4 page5) = Some (sample_at 5 9)
  /\ fst (candidates (read_metas X86 true page4 page5) file7) = Some (token_of Newest 1 file7 (sample_at 5 9)).
Proof.
  assert (Ho : open_meta_pages X86 true page4 page5 12288 Writer = Ok opened5) by (vm_compute; reflexivity).
  destruct (recovery_agrees_with_open X86 true page4 page5 12288 opened5 file7 page4_ok page5_ok Ho) as (Hc & Hf & _).
  split; [exact Hc | exact Hf].
Defined.

Lemma torn_publication_recoverable_witness :
  candidates (read_metas X86 true (img_page torn 0) (img_page torn 1)) file7
  = (Some (token_of UnorderedMeta1 1 file7 (sample_at 5 9)), None).
Proof.
  apply (torn_publication_recoverable X86 crc32c_pointer_table false (fun _ => false) stored writer6 draft6 growing
           published6 (Ok CommittedPublish) cut_short torn file7).
  - exact table_continues.
  - exact writer6_transaction.
  - exact publish6.
  - unfold cut_short. apply prefix_take.
  - exact torn_crashed.
  - exact zeros_ok.
  - intros m (Ha & _). vm_compute in Ha. discriminate Ha.
Defined.

(** ** Edits, run

    Edits of a writer on the database of the publication example, and the
    theorems on draft stores at them. *)

Definition idle5 : WriterCore :=
  mkWriterCore (mkMapping true true 12288 ReadWrite None stored) opened5 (mkPageBudget 10 10 10) None None.

Definition nonce10 : option (list Z) := Some (replicate 16 10).
Definition never : nat -> Result unit := fun _ => Ok tt.

(** Two pages are taken from the tail, a tree is begun, one page is given back and taken again, the
    reserve is filled, a meta page is asked for in vain. *)
Definition range5 : Range Ipv4Key := mkRange (mkV4 10) (mkV4 20) 7.
Definition insert_range5 : store_op :=
  OpTree (RangeCodec (K := Ipv4Key)) 0 (TreeInsert (range_bytes range5)).

Definition edits5 : list (option (list Z) * list store_op) :=
  [ (nonce10, [OpAllocate; OpUpdate 3 (put (fun _ => initialize (mkFields 3 6 0 0 32 32 0))); OpAllocate; OpUpdate 1 (mret tt); insert_range5]);
    (None, [OpDiscard 3; OpReplenish; OpSeal never]) ].

Lemma idle5_writing : writing X86 stored idle5.
Proof.
  constructor.
  - apply stored_ok.
  - apply stored_ok.
  - vm_compute. reflexivity.
  - intros m [(_ & Hd & _) _]. assert (Hp : decode_unchecked (read_page stored 0) = Some (sample_at 4 8)) by (vm_compute; reflexivity).
    change (1 - selected_meta_page (base idle5)) with 0 in Hd. rewrite Hp in Hd. injection Hd as <-. vm_compute. discriminate.
  - exists []. split; [apply logged_refl | constructor].
  - discriminate.
Qed.

Definition edited5 : WriterCore := edit_all X86 crc32c_pointer_table edits5 idle5.
Definition edited_draft : Draft := default draft6 (draft edited5).

Definition edited_meta : MetaV4 := Eval vm_compute in d_meta edited_draft.

Lemma edited_meta_eq : d_meta edited_draft = edited_meta.
Proof. vm_compute. reflexivity. Qed.

Lemma edited_meta_ok : meta_ok edited_meta.
Proof.
  constructor; unfold is_id16, bytes_ok, is_byte, is_u64, is_u32, u64_max; cbn; repeat first [lia | constructor].
Qed.

Lemma edits_make_transaction_witness :
  page_count edited_meta = 9 /\ exists es, in_transaction X86 stored edited5 edited_draft es.
Proof.
  split; [vm_compute; reflexivity |].
  apply (edits_make_transaction X86 crc32c_pointer_table edits5 stored idle5 edited_draft idle5_writing).
  - vm_compute. reflexivity.
  - rewrite edited_meta_eq. exact edited_meta_ok.
  - rewrite edited_meta_eq.
    destruct (bootstrap_settles edited_meta (page_count edited_meta * PAGE_SIZE) edited_meta_ok)
      as [[_ H] | (e & H & _)]; [exact H |]. vm_compute in H. discriminate H.
Defined.

Definition store5 : DraftStore :=
  mkDraftStore (wc_mapping edited5) 3 (mkPageBudget 10 10 10) edited_draft.

Lemma store_operations_safe_witness :
  let s' := perform_all X86 crc32c_pointer_table [OpAllocate; OpUpdate 1 (mret tt); OpSetFree 2; insert_range5; OpSeal never] store5 in
  draft_limit s' = 10 /\ txn_id (draft_meta s') = 6.
Proof.
  intros s'. split; [vm_compute; reflexivity |].
  destruct (store_operations_safe X86 crc32c_pointer_table [OpAllocate; OpUpdate 1 (mret tt); OpSetFree 2; insert_range5; OpSeal never] store5)
    as (_ & Ht & _); [vm_compute; congruence |].
  exact Ht.
Defined.
