(* ===== verification/TreeRuns.v ===== *)
(** * A range tree, read

    A two-level range tree of three records, written with the page builder,
    and the theorems on reads at it. *)

From stdpp Require Import base tactics numbers list strings gmap sorting.
From Stdlib Require Import ZArith Lia.
From S2P Require Import Prelude Errors Bytes Cardinality Key Codec TreeInterface RangeMap PageHeader SlottedPage SlottedFacts SlottedTheorems Checksum ChecksumFacts.
From S2P Require Import Contract ContractFacts Bootstrap BootstrapFacts Machine Mapping MappingFacts Draft Store TreePage TreeQuery TreeCursor TreeMutation Retirement.
From S2P Require Import TreeSafety TreeFacts TreeReads CursorTheorems TreePageFacts TreeStore TreeUpward TreeDescent TreeEdits TreeTheorems RetirementFacts RetirementTheorems Reclamation DraftStore.
From S2P Require Import FreeBitmap DraftPages DraftStoreFacts CowTheorems CrashExamples RangeCursor Compare CompareFacts RangeBulk RangeBulkFacts.

#[local] Open Scope string_scope.
#[local] Open Scope list_scope.
#[local] Open Scope Z_scope.

Definition v4_range (from to value : Z) : Range Ipv4Key := mkRange (mkV4 from) (mkV4 to) value.
Definition left_records : list (Range Ipv4Key) := [v4_range 10 20 7; v4_range 30 40 8].
Definition right_records : list (Range Ipv4Key) := [v4_range 50 60 7].
Definition all_records : list (Range Ipv4Key) := left_records ++ right_records.

Definition fence_of (r : Range Ipv4Key) (child : Z) : list Z := fence_bytes (r_from r) ++ le_bytes 4 child.
Definition left_cells : list (list Z) := leaf_bytes <$> left_records.
Definition right_cells : list (list Z) := leaf_bytes <$> right_records.
Definition root_cells : list (list Z) := [fence_of (v4_range 10 20 7) 2; fence_of (v4_range 50 60 7) 3].

Definition built (level : Z) (cells : list (list Z)) : list Z :=
  match build_page (page_type_of (Leaf := Range Ipv4Key) level) 4 level (AUX (Leaf := Range Ipv4Key)) cells with Ok p => p | _ => [] end.

Definition tree_meta : MetaV4 := with_space 5 0 [0; 0; 0; 0] (with_ranges 4 3 (sample_at 5 9)).
Definition tree_mapping : Mapping :=
  mkMapping true true 20480 ReadOnly None
    (mkMachine 20480 {[ 2 := built 0 left_cells; 3 := built 0 right_cells; 4 := built 1 root_cells ]} [] []).
Definition tree_source : Generation := mkGeneration tree_mapping tree_meta.

Definition header_at (level : Z) (cells : list (list Z)) : Header :=
  mkHeader (zlen cells) level (slot_at (zlen cells)) (PAGE_SIZE - total cells).

Lemma bytes_ok_dec bs : forallb (fun b => (0 <=? b) && (b <? 256)) bs = true -> bytes_ok bs.
Proof. intros Hb. apply Forall_forall. intros b Hin. apply list_elem_of_In in Hin. apply forallb_forall with (x := b) in Hb; [| done]. unfold is_byte. zb. lia. Qed.

Lemma cells_ok_dec cells : forallb (fun c => forallb (fun b => (0 <=? b) && (b <? 256)) c && (0 <? zlen c)) cells = true -> cells_ok cells.
Proof.
  intros Hc. apply Forall_forall. intros c Hin. apply list_elem_of_In in Hin. apply forallb_forall with (x := c) in Hc; [| done].
  apply andb_true_iff in Hc as [Hb Hl]. split; [by apply bytes_ok_dec | by apply Z.ltb_lt].
Qed.

(** Page [n] of the source was built from these cells. *)
Lemma built_node meta n level cells : page_count meta = 5 -> 4 <= txn_id meta -> snd (page n 5 tree_mapping) = Ok (built level cells) -> 0 <= level <= MAX_TREE_LEVEL ->
  cells_ok cells -> cells <> [] -> slot_at (zlen cells) + total cells <= PAGE_SIZE ->
  node (Leaf := Range Ipv4Key) (mkGeneration tree_mapping meta) n level cells (built level cells) (header_at level cells).
Proof.
  intros Hpc Hgen Hv Hl Hc Hne Hfit.
  destruct (build_page_ok (page_type_of (Leaf := Range Ipv4Key) level) 4 level (AUX (Leaf := Range Ipv4Key)) cells) as (p & Hb & Hs & Hid); try done.
  - unfold page_type_of, is_byte. destruct (level =? 0); vm_compute; split; congruence.
  - unfold MAX_TREE_LEVEL, u16_max in *. lia.
  - assert (Hp : built level cells = p) by (unfold built; by rewrite Hb). rewrite Hp in *. split.
    + intros A f. cbn [view_page Generation_PageSource g_meta g_mapping]. by rewrite Hpc, Hv.
    + exact Hs.
    + done.
    + done.
    + done.
    + exists 4. split; [exact Hid |]. cbn. lia.
Qed.

Lemma left_leaf meta : page_count meta = 5 -> 4 <= txn_id meta -> leaf_node (mkGeneration tree_mapping meta) 2 left_records (built 0 left_cells) (header_at 0 left_cells).
Proof.
  intros Hpc Hgen. split.
  - apply built_node; [done | done | vm_compute; reflexivity | unfold MAX_TREE_LEVEL; lia | by apply cells_ok_dec | done | vm_compute; congruence].
  - repeat constructor; cbn; unfold u32_max; lia.
Qed.

Lemma right_leaf meta : page_count meta = 5 -> 4 <= txn_id meta -> leaf_node (mkGeneration tree_mapping meta) 3 right_records (built 0 right_cells) (header_at 0 right_cells).
Proof.
  intros Hpc Hgen. split.
  - apply built_node; [done | done | vm_compute; reflexivity | unfold MAX_TREE_LEVEL; lia | by apply cells_ok_dec | done | vm_compute; congruence].
  - repeat constructor; cbn; unfold u32_max; lia.
Qed.

Lemma root_branch meta : page_count meta = 5 -> 4 <= txn_id meta ->
  branch_node (mkGeneration tree_mapping meta) 4 0 [(2, left_records); (3, right_records)] (built 1 root_cells) (header_at 1 root_cells).
Proof.
  intros Hpc Hgen. exists root_cells. split; [| split].
  - apply built_node; [done | done | vm_compute; reflexivity | unfold MAX_TREE_LEVEL; lia | by apply cells_ok_dec | done | vm_compute; congruence].
  - repeat constructor; eexists; (split; [by do 2 eexists |]); split; try done; cbn; unfold u32_max; lia.
  - constructor; [| constructor; [| constructor]];
      (split; [split; [cbn; lia | cbn; rewrite Hpc; reflexivity] |]; split; [unfold u32_max; cbn; lia |]); apply tree_leaf; do 2 eexists; by first [apply left_leaf | apply right_leaf].
Qed.

Lemma all_sorted : sp_sorted lrank all_records.
Proof. repeat constructor. Qed.

Lemma tree_holds_in meta : page_count meta = 5 -> 4 <= txn_id meta -> tree_holds (mkGeneration tree_mapping meta) 4 all_records.
Proof.
  intros Hpc Hgen. split; [exact all_sorted |]. right. split; [cbn; rewrite Hpc; lia |]. exists 1%nat. split; [unfold MAX_TREE_LEVEL; lia |].
  apply tree_branch. do 3 eexists. split; [by apply root_branch | reflexivity].
Qed.
Lemma tree_holds_all : tree_holds tree_source 4 all_records.
Proof. by apply tree_holds_in. Qed.

Lemma all_canonical : canonical all_records.
Proof.
  split.
  - intros r Hr. repeat (apply elem_of_cons in Hr as [-> | Hr]; [repeat constructor; cbn; unfold u32_max; lia |]). by apply elem_of_nil in Hr.
  - intros a b Ha Hb.
    repeat (apply elem_of_cons in Ha as [-> | Ha]); try by apply elem_of_nil in Ha.
    all: repeat (apply elem_of_cons in Hb as [-> | Hb]); try by apply elem_of_nil in Hb.
    all: vm_compute; intros Hlt; first [discriminate Hlt | split; [reflexivity | congruence]].
Qed.

(** A second generation of the same pages, whose ranges are those of the right
    leaf only. *)
Definition right_meta : MetaV4 := with_space 5 0 [0; 0; 0; 0] (with_ranges 3 1 (sample_at 5 9)).
Lemma right_holds_in meta : page_count meta = 5 -> 4 <= txn_id meta -> tree_holds (mkGeneration tree_mapping meta) 3 right_records.
Proof.
  intros Hpc Hgen. split; [repeat constructor |]. right. split; [cbn; rewrite Hpc; lia |]. exists 0%nat. split; [unfold MAX_TREE_LEVEL; lia |].
  apply tree_leaf. do 2 eexists. by apply right_leaf.
Qed.
Lemma right_holds : tree_holds (mkGeneration tree_mapping right_meta) 3 right_records.
Proof. by apply right_holds_in. Qed.
Lemma right_canonical : canonical right_records.
Proof. eapply canonical_sub; [exact all_canonical |]. intros a Ha. apply elem_of_app. by right. Qed.

Lemma comparison_counts_witness : exists res, maps (K := Ipv4Key) tree_mapping tree_meta right_meta (fun _ => Ok tt) (fun _ => Ok tt) 4 (fun _ => Ok tt) = Ok res
  /\ val (before res) = 33 /\ val (removed res) = 22 /\ val (unchanged res) = 11 /\ val (added res) = 0
  /\ tally (K := Ipv4Key) Removed (rng_lookup all_records) (rng_lookup right_records) = 22.
Proof.
  destruct (comparison_counts tree_mapping tree_meta right_meta all_records right_records (fun _ => Ok tt) (fun _ => Ok tt) (fun _ => Ok tt) 4
    tree_holds_all right_holds all_canonical right_canonical eq_refl eq_refl ltac:(discriminate) ltac:(discriminate)
    (fun _ => eq_refl) (fun _ => eq_refl) (fun _ => eq_refl) ltac:(cbn; lia)) as (res & E & Hc).
  exists res. split; [exact E |].
  assert (Hres : res = mkComparison (mkCard 0 0 33) (mkCard 0 0 11) (mkCard 0 0 11) (mkCard 0 0 0) (mkCard 0 0 0) (mkCard 0 0 22)).
  { enough (Ok (E := Error) res = Ok (mkComparison (mkCard 0 0 33) (mkCard 0 0 11) (mkCard 0 0 11) (mkCard 0 0 0) (mkCard 0 0 0) (mkCard 0 0 22))) by congruence.
    rewrite <- E. vm_compute. reflexivity. }
  rewrite Hres in *. do 4 (split; [reflexivity |]). symmetry. exact (proj2 (Hc Removed)).
Defined.

Lemma v4_valid k : 0 <= k <= u32_max -> valid_key (Leaf := Range Ipv4Key) (mkV4 k).
Proof. done. Qed.

Lemma lookup_denotes_witness : lookup tree_mapping tree_meta (mkV4 35) = Ok (Some 8) /\ lookup tree_mapping tree_meta (mkV4 45) = Ok None.
Proof.
  split.
  - rewrite (lookup_denotes tree_mapping tree_meta all_records (mkV4 35) tree_holds_all all_canonical);
      [reflexivity | apply v4_valid; unfold u32_max; lia].
  - rewrite (lookup_denotes tree_mapping tree_meta all_records (mkV4 45) tree_holds_all all_canonical);
      [reflexivity | apply v4_valid; unfold u32_max; lia].
Defined.

Lemma tree_reads_refine_witness :
  predecessor (Leaf := Range Ipv4Key) tree_source 4 (mkV4 45) = Ok (Some (v4_range 30 40 8))
  /\ at_or_after (Leaf := Range Ipv4Key) tree_source 4 (mkV4 45) = Ok (Some (v4_range 50 60 7)).
Proof.
  destruct (tree_reads_refine tree_source 4 all_records (mkV4 45) tree_holds_all) as [Hp Ha]; [apply v4_valid; unfold u32_max; lia |].
  rewrite Hp, Ha. split; reflexivity.
Defined.

Lemma scan_enumerates_witness : exists c c1,
  cursor_open (Key := Ipv4Key) (Leaf := Range Ipv4Key) Shared 4 Forward tree_source = (tree_source, Ok c)
  /\ scan (Key := Ipv4Key) (S (length all_records)) (c, tree_source) = ((c1, tree_source), Ok all_records).
Proof.
  destruct (scan_enumerates tree_source 4 all_records (mkV4 45) tree_holds_all) as (c & c1 & _ & _ & Ho & Hs & _);
    [apply v4_valid; unfold u32_max; lia |].
  exists c, c1. split; [exact Ho | exact Hs].
Defined.

(** ** A range tree, changed

    The two-level tree of [TreeExamples], opened by a transaction of its own,
    and the theorems on mutations at it. *)

Definition tree_draft : Draft := match draft_new tree_meta (replicate 16 11) with Ok d => d | _ => draft6 end.
Definition tree_store : DraftStore :=
  mkDraftStore (mkMapping true true 20480 ReadWrite None (map_os tree_mapping)) 5 (mkPageBudget 10 400 400) tree_draft.

Definition tree_pages : Pages := {[ 2 := built 0 left_cells; 3 := built 0 right_cells; 4 := built 1 root_cells ]}.
Definition tree_shape : shape (Leaf := Range Ipv4Key) := Bough 4 [Twig 2 left_records; Twig 3 right_records].
Definition at_root : Tree DraftStore := mkTree tree_store 4 [].

(** A page built from its cells. *)
Lemma built_sheet level cells : 0 <= level <= MAX_TREE_LEVEL ->
  forallb (fun c => forallb (fun b => (0 <=? b) && (b <? 256)) c && (zlen c =? cell_size (Leaf := Range Ipv4Key) level)) cells = true ->
  cells <> [] -> fits (Leaf := Range Ipv4Key) level (zlen cells) ->
  page_ok (built level cells) /\ exists hd, sheet (Leaf := Range Ipv4Key) 4 level cells (built level cells) hd.
Proof.
  intros Hl Hc Hne Hfit.
  assert (Hg : Forall (good_cell (Leaf := Range Ipv4Key) level) cells).
  { apply Forall_forall. intros c Hin. apply list_elem_of_In in Hin. apply forallb_forall with (x := c) in Hc; [| done].
    apply andb_true_iff in Hc as [Hb Hz]. split; [by apply bytes_ok_dec | by apply Z.eqb_eq]. }
  destruct (sheet_build (Leaf := Range Ipv4Key) 4 level cells ltac:(unfold u64_max; lia) Hl Hg Hne Hfit) as (p & hd & Hb & Hs).
  assert (Hp : built level cells = p) by (unfold built; by rewrite Hb). rewrite Hp. split; [apply (sh_slotted _ _ _ _ _ Hs) | by exists hd].
Qed.

Ltac built_page := apply built_sheet; [unfold MAX_TREE_LEVEL; lia | vm_compute; reflexivity | done | vm_compute; congruence].
Lemma left_sheet : page_ok (built 0 left_cells) /\ exists hd, sheet (Leaf := Range Ipv4Key) 4 0 left_cells (built 0 left_cells) hd.
Proof. built_page. Qed.
Lemma right_sheet : page_ok (built 0 right_cells) /\ exists hd, sheet (Leaf := Range Ipv4Key) 4 0 right_cells (built 0 right_cells) hd.
Proof. built_page. Qed.
Lemma root_sheet : page_ok (built 1 root_cells) /\ exists hd, sheet (Leaf := Range Ipv4Key) 4 1 root_cells (built 1 root_cells) hd.
Proof. built_page. Qed.

Lemma tree_pages_cases n p : tree_pages !! n = Some p ->
  n = 2 /\ p = built 0 left_cells \/ n = 3 /\ p = built 0 right_cells \/ n = 4 /\ p = built 1 root_cells.
Proof.
  unfold tree_pages. rewrite !lookup_insert_Some, lookup_singleton_Some.
  intros [[<- <-] | [_ [[<- <-] | [_ [<- <-]]]]]; auto.
Qed.

Lemma tree_born level cells p hd : sheet (Leaf := Range Ipv4Key) 4 level cells p hd -> birth p = 4.
Proof. intros Hs. exact (id_born _ _ _ _ _ (sh_identity _ _ _ _ _ Hs)). Qed.

Lemma tree_birth n p : tree_pages !! n = Some p -> birth p = 4.
Proof.
  intros [[-> ->] | [[-> ->] | [-> ->]]]%tree_pages_cases;
    [destruct left_sheet as [_ [hd Hs]] | destruct right_sheet as [_ [hd Hs]] | destruct root_sheet as [_ [hd Hs]]]; by eapply tree_born.
Qed.

Lemma tree_disk n : disk tree_store n = default (page_fill 0) (tree_pages !! n).
Proof. done. Qed.

Lemma tree_keeping : keeping [] 400 tree_store tree_pages.
Proof.
  split.
  - split; try (vm_compute; reflexivity); [vm_compute; split; congruence |].
    intros n. change (page_ok (default (page_fill 0) (tree_pages !! n))).
    destruct (tree_pages !! n) as [p|] eqn:Hp; [| apply page_fill_ok].
    destruct (tree_pages_cases n p Hp) as [[_ ->] | [[_ ->] | [_ ->]]]; [apply left_sheet | apply right_sheet | apply root_sheet].
  - vm_compute. split; congruence.
  - vm_compute. split; congruence.
  - reflexivity.
  - intros n p Hp. split; [| split].
    + destruct (tree_pages_cases n p Hp) as [[-> _] | [[-> _] | [-> _]]]; vm_compute; split; congruence.
    + rewrite tree_disk. by rewrite Hp.
    + intros [_ Hb]. rewrite (tree_birth n p Hp) in Hb. vm_compute in Hb. discriminate Hb.
  - reflexivity.
  - constructor.
  - constructor.
  - vm_compute. split; congruence.
  - vm_compute. congruence.
  - vm_compute. congruence.
  - vm_compute. congruence.
Qed.

(** ** The theorems, applied *)

Section Applied.
#[local] Instance store_here : Store DraftStore := DraftStore_Store X86.
#[local] Instance laws_here : StoreLaws DraftStore := DraftStore_laws X86.

Lemma tree_stands : stands tree_pages 6 1 tree_shape.
Proof.
  destruct left_sheet as [_ [hl Hl]], right_sheet as [_ [hr Hr]], root_sheet as [_ [ht Ht]].
  split; [exists (built 1 root_cells), ht, 4; repeat split; try apply Ht; try done; lia |].
  repeat constructor; try (cbn; unfold u32_max; lia).
  - exists (built 0 left_cells), hl, 4. repeat split; try apply Hl; try done; lia.
  - exists (built 0 right_cells), hr, 4. repeat split; try apply Hr; try done; lia.
Qed.

Lemma tree_started k : (k <= 400)%nat -> tree_state at_root tree_pages k 6 2 all_records [4; 2; 3].
Proof.
  intros Hk. assert (Ho : owns at_root tree_pages k 6) by (split; [exists [], 400%nat; split; [exact tree_keeping | exact Hk] | vm_compute; reflexivity]).
  split; [exact Ho |]. split; [exact all_sorted |]. right. exists 1%nat, tree_shape. split; [done |].
  split; [| by split]. split; [exact Ho | done | exact tree_stands | | unfold MAX_TREE_LEVEL; lia].
  cbn. repeat constructor; set_solver.
Qed.

Lemma bulk_build_holds_witness : exists b' s' (h' : Pages) root, bulk_build all_records (range_builder_new 6 Direct, tr_store at_root) = ((b', s'), Ok (root, 3))
  /\ tree_holds s' root all_records /\ h' !! 2 = tree_pages !! 2.
Proof.
  destruct (tree_started 48 ltac:(lia)) as [[Hs Ht] _].
  destruct (bulk_build_holds (tr_store at_root) tree_pages 0 all_records Direct Hs all_sorted all_canonical) as (b' & s' & h' & root & E & _ & Hh & Hk).
  - repeat constructor.
  - vm_compute. reflexivity.
  - exists b', s', h', root. rewrite Ht in E. split; [exact E |]. split; [exact Hh |]. rewrite (Hk 2 (built 0 left_cells)); [reflexivity |]. reflexivity.
Defined.

Definition new_range : Range Ipv4Key := v4_range 22 25 9.
Lemma new_valid : valid_leaf new_range.
Proof. repeat constructor; cbn; unfold u32_max; lia. Qed.

Lemma insert_upserts_witness : exists t',
  tree_insert (Key := Ipv4Key) (Leaf := Range Ipv4Key) (leaf_bytes new_range) at_root = (t', Ok true)
  /\ leaves_tree at_root tree_pages [4; 2; 3] t' 0 6 [v4_range 10 20 7; new_range; v4_range 30 40 8; v4_range 50 60 7] 3.
Proof.
  destruct (insert_upserts at_root tree_pages 0 6 2 all_records [4; 2; 3] new_range (tree_started 5 ltac:(lia)) new_valid)
    as (t' & E & Hl); [unfold MAX_TREE_LEVEL; lia | vm_compute; congruence |].
  exists t'. split; [exact E | exact Hl].
Defined.

Lemma delete_removes_witness : exists t',
  delete_existing (Leaf := Range Ipv4Key) (mkV4 50) at_root = (t', Ok tt)
  /\ leaves_tree at_root tree_pages [4; 2; 3] t' 0 6 left_records 3.
Proof.
  exact (delete_removes at_root tree_pages 0 6 2 all_records [4; 2; 3] (mkV4 50)
           (tree_started 5 ltac:(lia)) (v4_valid 50 ltac:(unfold u32_max; lia)) eq_refl ltac:(unfold MAX_TREE_LEVEL; lia)
           ltac:(vm_compute; congruence)).
Defined.

Definition some_edits : list (tree_edit (Key := Ipv4Key) (Leaf := Range Ipv4Key)) :=
  [Put new_range; Drop (mkV4 50); Swap (mkV4 30) [v4_range 30 32 8; v4_range 33 33 1; v4_range 34 40 8]].

Lemma some_edits_ok : edits_ok all_records some_edits.
Proof.
  repeat split; try (cbn; unfold u32_max; lia); try (repeat constructor; cbn; unfold u32_max; lia); vm_compute; congruence.
Qed.

Lemma tree_edits_refine_witness : exists j t' h' height' X',
  run_edits (take j some_edits) at_root = (t', Ok tt)
  /\ tree_state t' h' 0 6 height' (sp_edits all_records (take j some_edits)) X'
  /\ sp_edits all_records some_edits =
     [v4_range 10 20 7; v4_range 22 25 9; v4_range 30 32 8; v4_range 33 33 1; v4_range 34 40 8].
Proof.
  destruct (tree_edits_refine some_edits at_root tree_pages 6 2 all_records [4; 2; 3] (tree_started 189 ltac:(lia)) some_edits_ok)
    as (j & t' & h' & height' & X' & _ & E & Hst & _).
  exists j, t', h', height', X'. split; [exact E |]. split; [exact Hst | reflexivity].
Defined.
End Applied.

(** A page of the committed generation, and what a transaction does. *)
Definition some_ops : list store_op :=
  [OpTree (RangeCodec (K := Ipv4Key)) 4 (TreeInsert (range_bytes new_range)); OpAllocate; OpUpdate 2 (put (fun _ => Ok (page_fill 0))); OpDiscard 4].

Definition commit_ops : list store_op := [OpReplenish; OpSetFree 4; OpAllocateBitmap; OpEnsureLevel 3 6; OpSeal (fun _ => Ok tt)].

Lemma committed_pages_untouched_witness :
  disk (perform_all X86 crc32c_pointer_table commit_ops (perform_all X86 crc32c_pointer_table some_ops tree_store)) 2 = built 0 left_cells.
Proof.
  destruct (committed_pages_untouched X86 crc32c_pointer_table some_ops commit_ops tree_store 2) as [_ Hd].
  - reflexivity.
  - repeat constructor.
  - repeat constructor.
  - vm_compute. split; congruence.
  - vm_compute. congruence.
  - apply (bool_decide_unpack (~ reserved tree_store 2)). vm_compute. exact I.
  - exact Hd.
Defined.

(** ** A ledger of retired pages, changed

    Three extents of two transactions in one leaf, and the theorems on
    retirement at them. *)

Definition extent (txn first count : Z) : Extent := mkExtent (mkRKey txn first) count.
Definition ledger_extents : list Extent := [extent 3 7 2; extent 3 10 1; extent 5 20 4].
Definition ledger_cells : list (list Z) := leaf_bytes <$> ledger_extents.

Definition ledger_leaf : list Z :=
  match build_page (page_type_of (Leaf := Extent) 0) 4 0 (AUX (Leaf := Extent)) ledger_cells with Ok p => p | _ => [] end.
Definition ledger_meta : MetaV4 := with_space 40 0 [0; 0; 0; 0] (sample_at 5 9).
Definition ledger_draft : Draft := match draft_new ledger_meta (replicate 16 11) with Ok d => d | _ => draft6 end.
Definition ledger_pages : Pages := {[ 2 := ledger_leaf ]}.
Definition ledger_store : DraftStore :=
  mkDraftStore (mkMapping true true 163840 ReadWrite None (mkMachine 163840 {[ 2 := ledger_leaf ]} [] [])) 40 (mkPageBudget 10 400 400) ledger_draft.
Definition ledger : Ledger DraftStore := mkLedger (mkTree ledger_store 2 []) 3.

Lemma extents_valid : Forall extent_valid ledger_extents.
Proof. repeat constructor; vm_compute; congruence. Qed.

Lemma ledger_sheet : exists hd, sheet (Leaf := Extent) 4 0 ledger_cells ledger_leaf hd.
Proof.
  destruct (sheet_build (Leaf := Extent) 4 0 ledger_cells) as (p & hd & Hb & Hs); [unfold u64_max; lia | unfold MAX_TREE_LEVEL; lia | | done | vm_compute; congruence |].
  - apply leaf_cells, extents_valid.
  - assert (Hp : ledger_leaf = p) by (unfold ledger_leaf; by rewrite Hb). rewrite Hp. by exists hd.
Qed.
Lemma ledger_leaf_ok : page_ok ledger_leaf.
Proof. destruct ledger_sheet as [hd Hs]. apply (sh_slotted _ _ _ _ _ Hs). Qed.

Lemma ledger_disk n : disk ledger_store n = default (page_fill 0) (ledger_pages !! n).
Proof. done. Qed.
Lemma ledger_pages_only n p : ledger_pages !! n = Some p -> n = 2 /\ p = ledger_leaf.
Proof. unfold ledger_pages. rewrite lookup_singleton_Some. naive_solver. Qed.

Lemma ledger_keeping : keeping [] 400 ledger_store ledger_pages.
Proof.
  split.
  - split; try (vm_compute; reflexivity); [vm_compute; split; congruence |].
    intros n. change (page_ok (default (page_fill 0) (ledger_pages !! n))).
    destruct (ledger_pages !! n) as [p|] eqn:Hp; [| apply page_fill_ok].
    destruct (ledger_pages_only n p Hp) as [_ ->]. apply ledger_leaf_ok.
  - vm_compute. split; congruence.
  - vm_compute. split; congruence.
  - reflexivity.
  - intros n p Hp. destruct (ledger_pages_only n p Hp) as [-> ->]. split; [vm_compute; split; congruence |]. split; [done |].
    intros [_ Hb]. destruct ledger_sheet as [hd Hs]. 
    assert (birth ledger_leaf = 4) as E by exact (id_born _ _ _ _ _ (sh_identity _ _ _ _ _ Hs)). rewrite E in Hb. vm_compute in Hb. discriminate Hb.
  - reflexivity.
  - constructor.
  - constructor.
  - vm_compute. split; congruence.
  - vm_compute. congruence.
  - vm_compute. congruence.
  - vm_compute. congruence.
Qed.

Section Applied.
#[local] Instance store_ledger : Store DraftStore := DraftStore_Store X86.
#[local] Instance laws_ledger : StoreLaws DraftStore := DraftStore_laws X86.

Lemma ledger_sorted : sp_sorted lrank ledger_extents.
Proof. repeat constructor. Qed.

Lemma ledger_started k : (k <= 400)%nat -> ledger_state ledger ledger_pages k 6 1 ledger_extents [2].
Proof.
  intros Hk. split; [| done].
  assert (Ho : owns (lg_tree ledger) ledger_pages k 6) by (split; [exists [], 400%nat; split; [exact ledger_keeping | exact Hk] | vm_compute; reflexivity]).
  split; [exact Ho |]. split; [exact ledger_sorted |]. right. exists 0%nat, (Twig 2 ledger_extents). split; [done |]. split; [| by split].
  split; [exact Ho | done | | cbn; repeat constructor; set_solver | unfold MAX_TREE_LEVEL; lia].
  destruct ledger_sheet as [hd Hs]. split; [exists ledger_leaf, hd, 4; repeat split; try apply Hs; try done; lia | exact extents_valid].
Qed.

Lemma ledger_coalesced : coalesced ledger_extents.
Proof.
  intros a b Ha Hb.
  repeat (apply elem_of_cons in Ha as [-> | Ha]); try by apply elem_of_nil in Ha.
  all: repeat (apply elem_of_cons in Hb as [-> | Hb]); try by apply elem_of_nil in Hb.
  all: vm_compute; congruence.
Qed.

Lemma third_in : extent 5 20 4 ∈ ledger_extents.
Proof. apply list_elem_of_In. right. right. by left. Qed.
Lemma first_in : extent 3 7 2 ∈ ledger_extents.
Proof. constructor. Qed.

Lemma not_retired : ~ retired_page ledger_extents 3 9.
Proof.
  intros (e & He & Ht & Hlo & Hhi). repeat (apply elem_of_cons in He as [-> | He]); try by apply elem_of_nil in He.
  all: vm_compute in Ht, Hlo, Hhi; congruence.
Qed.

(** Page 9 lies between two extents of transaction 3; page 8 is in the first. *)
Lemma add_page_retires_witness :
  (exists l' h' height' X' es', add_page 3 9 ledger = (l', Ok (tr_retired (lg_tree l')))
     /\ ledger_state l' h' 0 6 height' es' X' /\ coalesced es' /\ retired_page es' 3 9 /\ retired_page es' 5 21 /\ ~ retired_page es' 3 11)
  /\ add_page 3 8 ledger = (ledger, Err (Corrupt "page is already retired")).
Proof.
  split.
  - destruct (add_page_retires ledger ledger_pages 0 6 1 ledger_extents [2] 3 9 (ledger_started 15 ltac:(lia)) ledger_coalesced) as [_ Hadd];
      [vm_compute; split; congruence | vm_compute; split; congruence | vm_compute; congruence | vm_compute; congruence |].
    destruct (Hadd not_retired) as (l' & h' & height' & X' & es' & E & Hst & _ & Hc & _ & Hset & _).
    exists l', h', height', X', es'. split; [exact E |]. split; [exact Hst |]. split; [exact Hc |].
    split; [apply (proj2 (Hset 3 9)); right; split; reflexivity |]. split.
    + apply (proj2 (Hset 5 21)). left. exists (extent 5 20 4). split; [exact third_in |]. split; [reflexivity |]. vm_compute. split; congruence.
    + intros Hr. destruct (proj1 (Hset 3 11) Hr) as [(e & He & Ht & Hlo & Hhi) | [_ Hn]]; [| discriminate Hn].
      repeat (apply elem_of_cons in He as [-> | He]); try by apply elem_of_nil in He.
      all: vm_compute in Ht, Hlo, Hhi; congruence.
  - apply (add_page_retires ledger ledger_pages 0 6 1 ledger_extents [2] 3 8 (ledger_started 15 ltac:(lia)) ledger_coalesced);
      [vm_compute; split; congruence | vm_compute; split; congruence | vm_compute; congruence | vm_compute; congruence |].
    exists (extent 3 7 2). split; [exact first_in |]. split; [reflexivity |]. vm_compute. split; congruence.
Defined.

(** With a reader of generation 4, transaction 3 is all that can be freed. *)
Lemma reclamation_is_longest_witness :
  select_reclamation ledger_store 2 (fun _ _ => Ok tt) 4 5 (Some 4) 10 10 = Ok (Some (mkReclamation 1 3 3)).
Proof.
  destruct (reclamation_is_longest ledger_store 2 (fun _ _ => Ok tt) ledger_extents 5 (Some 4) 10 10 4
              (tree_state_holds _ _ _ _ _ _ _ (proj1 (ledger_started 0 ltac:(lia)))) extents_valid ledger_coalesced)
    as (gs & rest & Hg & [Hs _ _ Hstop] & ->).
  - done.
  - repeat constructor; vm_compute; congruence.
  - vm_compute. congruence.
  - lia.
  - lia.
  - cbn. lia.
  - vm_compute in Hg. destruct gs as [|g [|g' [|g'' gs]]]; cbn [app] in Hg.
    + rewrite <- Hg in Hstop. vm_compute in Hstop. destruct Hstop as [Ha | [Ha | Ha]]; discriminate Ha.
    + injection Hg as <- _. reflexivity.
    + injection Hg as <- <- _. apply Forall_cons in Hs as [_ Hs]. apply Forall_cons in Hs as [Hs _]. discriminate Hs.
    + discriminate Hg.
Defined.
End Applied.
