(* ===== verification/OwnerTable.v ===== *)
(** * Tables of owners

    [validation/membership_table.rs]: the hash table with linear probing in
    which a validation counts the ranges of every membership (and of every
    structure), records how the dictionary defines it, and ticks off its reverse
    entry.  Nothing is ever removed, so the slots between an entry's home and
    its place stay occupied, and a table behaves as a finite map from
    identifiers to slots. *)

From stdpp Require Import base tactics numbers list strings gmap.
From Stdlib Require Import ZArith Lia.
From S2P Require Import Prelude Errors Bytes Machine.

#[local] Open Scope string_scope.
#[local] Open Scope list_scope.
#[local] Open Scope Z_scope.

(** ** Tables of owners *)

Record Slot := mkSlot {
  sl_id : Z;
  sl_range_count : Z;
  sl_stored_refcount : Z;
  sl_word_count : Z;
  sl_digest : list Z;
  sl_defined : bool;
  sl_reverse_seen : bool;
}.

Definition EMPTY : Slot := mkSlot 0 0 0 0 (replicate 32 0) false false.

Inductive InsertResult := InsertInserted | InsertExisting | InsertFull.
Inductive CountResult := Inserted | Existing | Full | CountCancelled | Unavailable.
Inductive ProbeResult := Index_ (index : Z) | Missing | ProbeCancelled.

Record Table := mkTable { tb_slots : list Slot; tb_mask : Z }.

Definition table_new (grants : Z -> bool) (slot_size entry_count available_bytes : Z) : Result Table :=
  if entry_count =? 0 then Ok (mkTable [] 0)
  else
    wanted ← ok_or (twice ← checked_mul u64_max entry_count 2; checked_next_power_of_two twice)
               (ArithmeticOverflow "validation membership table capacity");
    if usize_max <? wanted then Err (BudgetExceeded "validation membership table")
    else
      bytes ← ok_or (checked_mul u64_max wanted slot_size) (ArithmeticOverflow "validation membership table bytes");
      if available_bytes <? bytes then Err (BudgetExceeded "validation membership table")
      else if negb (grants bytes) then Err (BudgetExceeded "validation membership table")
      else
        mask ← usub wanted 1;
        Ok (mkTable (replicate (Z.to_nat wanted) EMPTY) mask).

Definition table_retained_bytes (slot_size : Z) (t : Table) : Z := zlen (tb_slots t) * slot_size.

Definition hash (id : Z) : Z := as_u32 (id * 2654435761).

Section Tables.
Context (cancelled : nat -> bool).

(** [for probe in 0..self.slots.len()]. *)
Fixpoint probe_loop (t : Table) (id : Z) (accept_empty : bool) (probe index : Z) (left : nat) : io nat ProbeResult :=
  match left with
  | O => mret Missing
  | S left' =>
      stop ← (if negb (probe =? 0) && (Z.land probe 63 =? 0) then is_cancelled cancelled else mret false);
      if stop : bool then mret ProbeCancelled
      else
        slot ← lift (at_index (tb_slots t) index);
        let found := sl_id slot in
        if (found =? id) || (accept_empty && (found =? 0)) then mret (Index_ index)
        else if found =? 0 then mret Missing
        else probe_loop t id accept_empty (probe + 1) (Z.land (index + 1) (tb_mask t)) left'
  end.

Definition probe (t : Table) (id : Z) (accept_empty : bool) : io nat ProbeResult :=
  if bool_decide (tb_slots t = []) || (id =? 0) then mret Missing
  else probe_loop t id accept_empty 0 (Z.land (hash id) (tb_mask t)) (length (tb_slots t)).

Definition probe_result (t : Table) (id : Z) (accept_empty : bool) : io nat (option Z) :=
  found ← probe t id accept_empty;
  match found with
  | Index_ index => mret (Some index)
  | Missing => mret None
  | ProbeCancelled => lift (Err Cancelled)
  end.

Definition table_find (t : Table) (id : Z) : io nat (option Z) := probe_result t id false.
Definition find_or_empty (t : Table) (id : Z) : io nat (option Z) := probe_result t id true.

(** The methods on [&mut self] change the table beside the polls. *)
Definition polling {A} (m : Table -> io nat A) : io (Table * nat) A := fun '(t, asked) =>
  let '(asked, r) := m t asked in ((t, asked), r).
Definition update_slot (index : Z) (f : Slot -> Slot) : io (Table * nat) unit := modify (fun '(t, asked) =>
  (mkTable (alter f (Z.to_nat index) (tb_slots t)) (tb_mask t), asked)).
Definition slot_now (index : Z) : io (Table * nat) Slot := fun s => (s, at_index (tb_slots (fst s)) index).

Definition set_id (id : Z) (s : Slot) : Slot :=
  mkSlot id (sl_range_count s) (sl_stored_refcount s) (sl_word_count s) (sl_digest s) (sl_defined s) (sl_reverse_seen s).
Definition set_range_count (count : Z) (s : Slot) : Slot :=
  mkSlot (sl_id s) count (sl_stored_refcount s) (sl_word_count s) (sl_digest s) (sl_defined s) (sl_reverse_seen s).
Definition set_definition (refcount word_count : Z) (digest : list Z) (s : Slot) : Slot :=
  mkSlot (sl_id s) (sl_range_count s) refcount word_count digest true false.
Definition set_reverse_seen (s : Slot) : Slot :=
  mkSlot (sl_id s) (sl_range_count s) (sl_stored_refcount s) (sl_word_count s) (sl_digest s) (sl_defined s) true.

Definition count_range (id : Z) : io (Table * nat) CountResult :=
  found ← polling (fun t => probe t id true);
  match found with
  | Missing => mret Full
  | ProbeCancelled => mret CountCancelled
  | Index_ index =>
      slot ← slot_now index;
      result ← (if sl_id slot =? 0 then _ ← update_slot index (set_id id); mret Inserted else mret Existing);
      slot ← slot_now index;
      count ← lift (uadd u64_max (sl_range_count slot) 1);
      _ ← update_slot index (set_range_count count);
      mret result
  end.

Definition define (id stored_refcount word_count : Z) (digest : list Z) : io (Table * nat) InsertResult :=
  found ← polling (fun t => find_or_empty t id);
  match found with
  | None => mret InsertFull
  | Some index =>
      slot ← slot_now index;
      if negb (sl_id slot =? 0) && sl_defined slot then mret InsertExisting
      else
        _ ← (if sl_id slot =? 0 then update_slot index (set_id id) else mret tt);
        _ ← update_slot index (set_definition stored_refcount word_count digest);
        mret InsertInserted
  end.

Definition mark_reverse (id word_count : Z) (digest : list Z) : io (Table * nat) bool :=
  found ← polling (fun t => table_find t id);
  match found with
  | None => mret false
  | Some index =>
      slot ← slot_now index;
      if negb (sl_defined slot) || negb (sl_word_count slot =? word_count) || negb (bool_decide (sl_digest slot = digest))
         || sl_reverse_seen slot
      then mret false
      else _ ← update_slot index set_reverse_seen; mret true
  end.

Definition mark_reverse_digest (id : Z) (digest : list Z) : io (Table * nat) bool :=
  found ← polling (fun t => table_find t id);
  match found with
  | None => mret false
  | Some index =>
      slot ← slot_now index;
      if negb (sl_defined slot) || negb (bool_decide (sl_digest slot = digest)) || sl_reverse_seen slot
      then mret false
      else _ ← update_slot index set_reverse_seen; mret true
  end.
End Tables.

Definition table_len (t : Table) : Z := zlen (tb_slots t).
Definition table_slot (t : Table) (index : Z) : option Slot :=
  slot ← tb_slots t !! Z.to_nat index;
  if sl_id slot =? 0 then None else Some slot.

(** ** Counting owners *)

Lemma land_index x mask : 0 <= x -> 0 <= mask -> 0 <= Z.land x mask <= mask.
Proof.
  intros Hx Hm. split; [apply Z.land_nonneg; by left |]. pose proof (Z.add_lor_land x mask).
  assert (x <= Z.lor x mask); [| lia]. apply Z.ldiff_le; [by apply Z.lor_nonneg |]. apply Z.bits_inj'. intros k Hk.
  rewrite Z.ldiff_spec, Z.lor_spec, Z.bits_0. by destruct (Z.testbit x k).
Qed.

Lemma slot_at_ok {E} (slots : list Slot) i : 0 <= i < zlen slots -> exists s, at_index (E := E) slots i = Ok s /\ slots !! Z.to_nat i = Some s.
Proof.
  intros Hi. destruct (lookup_lt_is_Some_2 slots (Z.to_nat i)) as [s Hs]; [unfold zlen in Hi; lia |].
  exists s. unfold at_index. by rewrite Hs.
Qed.

Definition table_ok (t : Table) (count : Z) : Prop :=
  (tb_slots t <> [] -> tb_mask t = zlen (tb_slots t) - 1) /\ Forall (fun s => 0 <= sl_range_count s <= count) (tb_slots t).

Section Owners.
Context (cancelled : nat -> bool).

Lemma probe_loop_safe t id accept left : tb_mask t = zlen (tb_slots t) - 1 -> forall probe index asked, 0 <= index < zlen (tb_slots t) ->
  safe (probe_loop cancelled t id accept probe index left) asked (fun r _ => match r with Index_ i => 0 <= i < zlen (tb_slots t) | _ => True end).
Proof using Type.
  intros Hmask. induction left as [|left IH]; intros probe index asked Hi; cbn [probe_loop]; [done |].
  safe_step. apply safe_mono with (P := fun _ _ => True); [by destruct (_ && _) |]. intros stop asked' _. destruct stop; [done |].
  safe_step. destruct (slot_at_ok (E := Error) (tb_slots t) index Hi) as (s & Hs & _). rewrite Hs. apply safe_lift; [done |]. intros ? [= <-].
  destruct (_ || _); [by safe_step |]. destruct (sl_id s =? 0); [done |]. apply IH.
  pose proof (land_index (index + 1) (tb_mask t)). lia.
Qed.

Lemma probe_safe t id accept count asked : table_ok t count ->
  safe (probe cancelled t id accept) asked (fun r _ => match r with Index_ i => 0 <= i < zlen (tb_slots t) | _ => True end).
Proof using Type.
  intros [Hmask _]. unfold probe. destruct (bool_decide (tb_slots t = []) || (id =? 0)) eqn:Hg; [done |].
  apply orb_false_iff in Hg as [Hne%bool_decide_eq_false _]. specialize (Hmask Hne). apply probe_loop_safe; [done |].
  pose proof (zlen_nonneg (tb_slots t)). assert (zlen (tb_slots t) <> 0) by (destruct (tb_slots t); [done | rewrite zlen_cons; pose proof (zlen_nonneg l); lia]).
  pose proof (land_index (hash id) (tb_mask t)). unfold hash, as_u32 in *. pose proof (Z.mod_pos_bound (id * 2654435761) 4294967296). lia.
Qed.

Lemma table_ok_less t count count' : count <= count' -> table_ok t count -> table_ok t count'.
Proof using Type. intros Hle [Hm Hs]. split; [done |]. eapply Forall_impl; [exact Hs |]. cbn. lia. Qed.

Lemma table_ok_update t count f i : table_ok t count -> (forall s, 0 <= sl_range_count s <= count -> 0 <= sl_range_count (f s) <= count) ->
  table_ok (mkTable (alter f i (tb_slots t)) (tb_mask t)) count.
Proof using Type.
  intros [Hm Hs] Hf. split; cbn [tb_slots tb_mask].
  - intros Hne. rewrite Hm; [unfold zlen; by rewrite length_alter |]. intros He. by rewrite He in Hne.
  - apply Forall_alter; [done |]. intros s Hi Hs'. by apply Hf.
Qed.

Lemma slot_now_safe i t asked (Q : Slot -> Table * nat -> Prop) : 0 <= i < zlen (tb_slots t) ->
  (forall s, tb_slots t !! Z.to_nat i = Some s -> Q s (t, asked)) -> safe (slot_now i) (t, asked) Q.
Proof using Type.
  intros Hi HQ. destruct (slot_at_ok (E := Error) (tb_slots t) i Hi) as (s & Hs & Hl).
  unfold safe, wp, slot_now. cbn. rewrite Hs. by apply HQ.
Qed.

Lemma bump_safe {A} i t asked count (a : A) : table_ok t count -> count < u64_max -> 0 <= i < zlen (tb_slots t) ->
  safe (slot ← slot_now i; n ← lift (uadd u64_max (sl_range_count slot) 1); _ ← update_slot i (set_range_count n); mret a) (t, asked)
    (fun _ s => table_ok (fst s) (count + 1)).
Proof using Type.
  intros Ht Hc Hi. safe_step. apply slot_now_safe; [done |]. intros s Hs.
  assert (Hrange : 0 <= sl_range_count s <= count) by (apply (proj1 (Forall_lookup _ _) (proj2 Ht) _ _ Hs)).
  safe_step. apply safe_lift; unfold uadd; rewrite (proj2 (Z.leb_le _ _)) by lia; [done |]. intros n [= <-]. unfold update_slot. do 3 safe_step.
  apply table_ok_update; [by eapply table_ok_less; [| exact Ht]; lia |]. cbn. lia.
Qed.

Lemma count_range_safe id t asked count : table_ok t count -> count < u64_max ->
  safe (count_range cancelled id) (t, asked) (fun _ s => table_ok (fst s) (count + 1)).
Proof using Type.
  intros Ht Hc. unfold count_range. safe_step.
  apply safe_mono with (P := fun r s => fst s = t /\ match r with Index_ i => 0 <= i < zlen (tb_slots t) | _ => True end).
  { pose proof (probe_safe t id true count asked Ht) as Hp. unfold safe, wp, polling in *. by destruct (probe cancelled t id true asked) as [asked' []]. }
  intros r [t' asked'] [Hst Hi]; cbn in Hst; subst t'. pose proof (table_ok_less t count (count + 1) ltac:(lia) Ht) as Ht1.
  destruct r as [i | |]; [| by safe_step..]. safe_step. apply slot_now_safe; [done |]. intros s Hs. safe_step.
  unfold update_slot at 1. destruct (sl_id s =? 0); [do 3 safe_step | safe_step]; [| by apply (bump_safe i t asked' count Existing)].
  apply (bump_safe i (mkTable (alter (set_id id) (Z.to_nat i) (tb_slots t)) (tb_mask t)) asked' count Inserted); [| done |].
  - by apply table_ok_update.
  - unfold zlen in *. cbn. by rewrite length_alter.
Qed.
End Owners.

(** ** A table is a finite map

    [holds t m]: the occupied slots of [t] are the entries of [m], each in the
    run of occupied slots that starts at its home. *)

Definition place (n id d : Z) : Z := (hash id + d) mod n.
Definition occupied (t : Table) (p : Z) : Prop := exists s, tb_slots t !! Z.to_nat p = Some s /\ sl_id s <> 0.

Record holds (t : Table) (m : gmap Z Slot) : Prop := {
  hd_size : tb_slots t = [] \/ exists k, 0 <= k /\ zlen (tb_slots t) = 2 ^ k;
  hd_mask : tb_slots t <> [] -> tb_mask t = zlen (tb_slots t) - 1;
  hd_empty i s : tb_slots t !! i = Some s -> sl_id s = 0 -> s = EMPTY;
  hd_run i s : tb_slots t !! i = Some s -> sl_id s <> 0 ->
    exists d, 0 <= d < zlen (tb_slots t) /\ Z.of_nat i = place (zlen (tb_slots t)) (sl_id s) d
      /\ forall j, 0 <= j < d -> occupied t (place (zlen (tb_slots t)) (sl_id s) j);
  hd_unique i j s s' : tb_slots t !! i = Some s -> tb_slots t !! j = Some s' -> sl_id s <> 0 -> sl_id s = sl_id s' -> i = j;
  hd_map id s : m !! id = Some s <-> id <> 0 /\ sl_id s = id /\ exists i, tb_slots t !! i = Some s;
}.

(** What the callers rely on. *)
Inductive table_op :=
| CountOp (id : Z)
| DefineOp (id stored_refcount word_count : Z) (digest : list Z)
| ReverseOp (id word_count : Z) (digest : list Z)
| ReverseDigestOp (id : Z) (digest : list Z).
Inductive table_answer := Counted (r : CountResult) | Defined_ (r : InsertResult) | Marked (b : bool).

Definition perform_op (cancelled : nat -> bool) (op : table_op) : io (Table * nat) table_answer :=
  match op with
  | CountOp id => r ← count_range cancelled id; mret (Counted r)
  | DefineOp id refcount words digest => r ← define cancelled id refcount words digest; mret (Defined_ r)
  | ReverseOp id words digest => b ← mark_reverse cancelled id words digest; mret (Marked b)
  | ReverseDigestOp id digest => b ← mark_reverse_digest cancelled id digest; mret (Marked b)
  end.
Fixpoint perform_ops (cancelled : nat -> bool) (ops : list table_op) : io (Table * nat) (list table_answer) :=
  match ops with
  | [] => mret []
  | op :: ops => a ← perform_op cancelled op; rest ← perform_ops cancelled ops; mret (a :: rest)
  end.

Definition has_room (capacity id : Z) (m : gmap Z Slot) : bool := negb (id =? 0) && (Z.of_nat (size m) <? capacity).
Definition reverse_fits (words : option Z) (digest : list Z) (s : Slot) : bool :=
  sl_defined s && (match words with Some w => sl_word_count s =? w | None => true end)
  && bool_decide (sl_digest s = digest) && negb (sl_reverse_seen s).

Definition spec_reverse (id : Z) (words : option Z) (digest : list Z) (m : gmap Z Slot) : gmap Z Slot * table_answer :=
  match m !! id with
  | Some s => if reverse_fits words digest s then (<[id := set_reverse_seen s]> m, Marked true) else (m, Marked false)
  | None => (m, Marked false)
  end.

Definition spec_op (capacity : Z) (op : table_op) (m : gmap Z Slot) : gmap Z Slot * table_answer :=
  match op with
  | CountOp id =>
      match m !! id with
      | Some s => (<[id := set_range_count (sl_range_count s + 1) s]> m, Counted Existing)
      | None => if has_room capacity id m then (<[id := set_range_count 1 (set_id id EMPTY)]> m, Counted Inserted) else (m, Counted Full)
      end
  | DefineOp id refcount words digest =>
      match m !! id with
      | Some s => if sl_defined s then (m, Defined_ InsertExisting)
                  else (<[id := set_definition refcount words digest s]> m, Defined_ InsertInserted)
      | None => if has_room capacity id m
                then (<[id := set_definition refcount words digest (set_id id EMPTY)]> m, Defined_ InsertInserted)
                else (m, Defined_ InsertFull)
      end
  | ReverseOp id words digest => spec_reverse id (Some words) digest m
  | ReverseDigestOp id digest => spec_reverse id None digest m
  end.
Fixpoint spec_ops (capacity : Z) (ops : list table_op) (m : gmap Z Slot) : gmap Z Slot * list table_answer :=
  match ops with
  | [] => (m, [])
  | op :: ops => let '(m, a) := spec_op capacity op m in let '(m, rest) := spec_ops capacity ops m in (m, a :: rest)
  end.

Section Refinement.
Context (cancelled : nat -> bool) (Hnever : forall k, cancelled k = false).

Lemma slot_place_range n id d : 0 < n -> 0 <= place n id d < n.
Proof using Type. intros Hn. by apply Z.mod_pos_bound. Qed.

Lemma place_onto n id i : 0 <= i < n -> place n id ((i - hash id) mod n) = i /\ 0 <= (i - hash id) mod n < n.
Proof using Type.
  intros Hi. split; [| apply Z.mod_pos_bound; lia]. unfold place. rewrite Z.add_mod_idemp_r by lia.
  replace (hash id + (i - hash id)) with i by lia. apply Z.mod_small. lia.
Qed.

Lemma hash_nonneg id : 0 <= hash id.
Proof using Type. unfold hash, as_u32. apply Z.mod_pos_bound. lia. Qed.

(** The next index of the probe. *)
Lemma land_mask t m x : holds t m -> tb_slots t <> [] -> 0 <= x -> Z.land x (tb_mask t) = x mod zlen (tb_slots t).
Proof using Type.
  intros Hh Hne Hx. destruct (hd_size _ _ Hh) as [? | (k & Hk & Hn)]; [done |]. rewrite (hd_mask _ _ Hh Hne), Hn.
  rewrite <- Z.land_ones by done. by rewrite Z.ones_equiv, Z.sub_1_r.
Qed.

Definition passed (t : Table) (id j : Z) : Prop :=
  exists s, tb_slots t !! Z.to_nat (place (zlen (tb_slots t)) id j) = Some s /\ sl_id s <> 0 /\ sl_id s <> id.

(** Where a probe for [id] ends. *)
Definition probe_ends (t : Table) (id : Z) (accept : bool) (r : ProbeResult) : Prop :=
  let n := zlen (tb_slots t) in
  match r with
  | Index_ p => exists d s, 0 <= d < n /\ p = place n id d /\ (forall j, 0 <= j < d -> passed t id j)
      /\ tb_slots t !! Z.to_nat p = Some s /\ (sl_id s = id \/ accept = true /\ sl_id s = 0)
  | Missing => exists d, 0 <= d <= n /\ (forall j, 0 <= j < d -> passed t id j)
      /\ (d < n -> accept = false /\ exists s, tb_slots t !! Z.to_nat (place n id d) = Some s /\ sl_id s = 0)
  | ProbeCancelled => False
  end.

Lemma probe_loop_ends t m id accept : holds t m -> tb_slots t <> [] -> id <> 0 -> forall left j asked,
  0 <= j -> j + Z.of_nat left = zlen (tb_slots t) -> (forall i, 0 <= i < j -> passed t id i) ->
  exists asked' r, probe_loop cancelled t id accept j (place (zlen (tb_slots t)) id j) left asked = (asked', Ok r) /\ probe_ends t id accept r.
Proof using Hnever.
  intros Hh Hne Hid. induction left as [|left IH]; intros j asked Hj Hn Hp; cbn [probe_loop].
  { exists asked, Missing. split; [done |]. exists j. split; [lia |]. split; [done | lia]. }
  assert (Hstop : exists asked1, (if negb (j =? 0) && (Z.land j 63 =? 0) then is_cancelled cancelled else mret false) asked = (asked1, Ok false)).
  { destruct (negb (j =? 0) && (Z.land j 63 =? 0)); [exists (S asked) | by exists asked]. unfold is_cancelled. by rewrite Hnever. }
  destruct Hstop as (asked1 & Hstop). rewrite (bind_ok _ _ _ _ _ Hstop).
  pose proof (slot_place_range (zlen (tb_slots t)) id j ltac:(lia)) as Hr.
  destruct (slot_at_ok (E := Error) (tb_slots t) _ Hr) as (s & Hs & Hl). rewrite Hs. rewrite (bind_ok _ _ asked1 asked1 s) by done.
  destruct (Z.eqb_spec (sl_id s) id) as [He | Hni]; cbn [orb].
  { eexists _, _. split; [done |]. exists j, s. split; [lia |]. split; [done |]. split; [done |]. split; [done | by left]. }
  destruct (Z.eqb_spec (sl_id s) 0) as [Hz | Hnz].
  - destruct accept; cbn [andb]; (eexists _, _; split; [done |]); exists j.
    + exists s. split; [lia |]. split; [done |]. split; [done |]. split; [done | by right].
    + split; [lia |]. split; [done |]. intros _. split; [done |]. by exists s.
  - rewrite andb_false_r. rewrite (land_mask t m) by (done || lia).
    replace ((place (zlen (tb_slots t)) id j + 1) mod zlen (tb_slots t)) with (place (zlen (tb_slots t)) id (j + 1)).
    2: { unfold place. rewrite Z.add_mod_idemp_l by lia. f_equal. lia. }
    apply IH; [lia | lia |]. intros i Hi. destruct (decide (i = j)) as [-> | Hne']; [by exists s | apply Hp; lia].
Qed.

Lemma probe_spec t m id accept asked : holds t m -> tb_slots t <> [] -> id <> 0 ->
  exists asked' r, probe cancelled t id accept asked = (asked', Ok r) /\ probe_ends t id accept r.
Proof using Hnever.
  intros Hh Hne Hid. unfold probe. rewrite bool_decide_false, (proj2 (Z.eqb_neq id 0)) by done. cbn [orb].
  rewrite (land_mask t m) by (done || apply hash_nonneg).
  replace (hash id mod zlen (tb_slots t)) with (place (zlen (tb_slots t)) id 0) by (unfold place; by rewrite Z.add_0_r).
  apply (probe_loop_ends t m); try done. lia.
Qed.

(** A probe that passed [d] slots and found no place for [id] further on has
    proved [id] absent. *)
Lemma passed_absent t m id d : holds t m -> 0 <= d <= zlen (tb_slots t) -> (forall j, 0 <= j < d -> passed t id j) ->
  (d < zlen (tb_slots t) -> exists s, tb_slots t !! Z.to_nat (place (zlen (tb_slots t)) id d) = Some s /\ sl_id s = 0) -> m !! id = None.
Proof using Type.
  intros Hh Hd Hp Hend. destruct (m !! id) as [s|] eqn:E; [exfalso | done]. apply (hd_map _ _ Hh) in E as (Hid & Hs & i & Hi).
  destruct (hd_run _ _ Hh i s Hi ltac:(congruence)) as (d' & Hd' & Hpl & Hocc). rewrite Hs in *.
  destruct (Z.lt_ge_cases d' d) as [Hlt | Hge].
  - destruct (Hp d' ltac:(lia)) as (s' & Hs' & _ & Hne). rewrite <- Hpl, Nat2Z.id in Hs'. congruence.
  - destruct (Hend ltac:(lia)) as (s0 & Hs0 & Hz). destruct (decide (d' = d)) as [-> | Hne].
    + rewrite <- Hpl, Nat2Z.id in Hs0. congruence.
    + destruct (Hocc d ltac:(lia)) as (s1 & Hs1 & Hnz). congruence.
Qed.

(** *** How full the table is *)

Definition entries (t : Table) : list Slot := filter (fun s => sl_id s <> 0) (tb_slots t).

Lemma entries_unique t m : holds t m -> NoDup (sl_id <$> entries t).
Proof using Type.
  intros Hh. pose proof (hd_unique _ _ Hh) as Hu. unfold entries. revert Hu. generalize (tb_slots t). intros l.
  induction l as [|x l IH]; intros Hu; [constructor |].
  assert (Hrest : NoDup (sl_id <$> filter (fun s => sl_id s <> 0) l)).
  { apply IH. intros i j s s' Hi Hj Hs He. specialize (Hu (S i) (S j) s s' Hi Hj Hs He). lia. }
  rewrite filter_cons. destruct (decide (sl_id x <> 0)) as [Hx | Hx]; [| done]. cbn. constructor; [| done].
  rewrite list_elem_of_fmap. intros (s & He & Hs). apply list_elem_of_filter in Hs as [_ Hs].
  apply list_elem_of_lookup in Hs as (j & Hj). specialize (Hu 0%nat (S j) x s eq_refl Hj Hx He). lia.
Qed.

Lemma entries_size t m : holds t m -> size m = length (entries t).
Proof using Type.
  intros Hh. assert (Hm : m = list_to_map ((fun s => (sl_id s, s)) <$> entries t)).
  { apply map_eq. intros id. apply option_eq. intros s. rewrite (hd_map _ _ Hh).
    assert (Hfst : ((fun s => (sl_id s, s)) <$> entries t).*1 = sl_id <$> entries t) by by rewrite <- list_fmap_compose.
    rewrite <- elem_of_list_to_map by (rewrite Hfst; by eapply entries_unique). rewrite list_elem_of_fmap. split.
    - intros (Hid & He & i & Hi). exists s. split; [by rewrite He |]. apply list_elem_of_filter. split; [congruence |]. by eapply list_elem_of_lookup_2.
    - intros (s' & [= -> ->] & Hs). apply list_elem_of_filter in Hs as [Hnz Hs]. apply list_elem_of_lookup in Hs as (i & Hi). eauto. }
  rewrite Hm, map_size_list_to_map; [by rewrite length_fmap |]. rewrite <- list_fmap_compose. by eapply entries_unique.
Qed.

Lemma room_left t m i s : holds t m -> tb_slots t !! i = Some s -> sl_id s = 0 -> Z.of_nat (size m) < zlen (tb_slots t).
Proof using Type.
  intros Hh Hi Hs. rewrite (entries_size _ _ Hh). unfold zlen, entries. apply Nat2Z.inj_lt.
  apply (length_filter_lt _ _ s); [by eapply list_elem_of_lookup_2 |]. intros Hn. by apply Hn.
Qed.
Lemma no_room t m id : holds t m -> (forall j, 0 <= j < zlen (tb_slots t) -> passed t id j) -> Z.of_nat (size m) = zlen (tb_slots t).
Proof using Type.
  intros Hh Hp. rewrite (entries_size _ _ Hh). unfold zlen at 1, entries. do 2 f_equal.
  assert (Hall : Forall (fun s => sl_id s <> 0) (tb_slots t)).
  { apply Forall_lookup. intros i s Hi. pose proof (lookup_lt_Some _ _ _ Hi) as Hlt.
    destruct (place_onto (zlen (tb_slots t)) id (Z.of_nat i)) as [Hpl Hr]; [unfold zlen; lia |].
    destruct (Hp _ Hr) as (s' & Hs' & Hnz & _). rewrite Hpl, Nat2Z.id in Hs'. congruence. }
  revert Hall. generalize (tb_slots t). intros l. induction 1; [done |]. rewrite filter_cons_True by done. by f_equal.
Qed.

(** *** Writing an entry *)

Lemma holds_write t m d s s' id : let n := zlen (tb_slots t) in let p := Z.to_nat (place n id d) in
  holds t m -> id <> 0 -> 0 <= d < n -> (forall j, 0 <= j < d -> passed t id j) -> tb_slots t !! p = Some s ->
  (sl_id s = id \/ sl_id s = 0 /\ m !! id = None) -> sl_id s' = id ->
  holds (mkTable (<[p := s']> (tb_slots t)) (tb_mask t)) (<[id := s']> m).
Proof using Type.
  intros n p Hh Hid Hd Hp Hs Hold Hs'.
  assert (Hlen : zlen (<[p := s']> (tb_slots t)) = n) by (unfold zlen; by rewrite length_insert).
  pose proof (lookup_lt_Some _ _ _ Hs) as Hlt.
  assert (Hat : forall i x, (<[p := s']> (tb_slots t)) !! i = Some x -> i = p /\ x = s' \/ i <> p /\ tb_slots t !! i = Some x).
  { intros i x Hx. destruct (decide (i = p)) as [-> | Hne]; [rewrite list_lookup_insert_eq in Hx by done; left; by simplify_eq |].
    rewrite list_lookup_insert_ne in Hx by done. by right. }
  assert (Hocc : forall q, occupied t q -> occupied (mkTable (<[p := s']> (tb_slots t)) (tb_mask t)) q).
  { intros q (x & Hx & Hnz). destruct (decide (Z.to_nat q = p)) as [He | Hne].
    - exists s'. cbn. rewrite He, list_lookup_insert_eq by done. split; [done | congruence].
    - exists x. cbn. rewrite list_lookup_insert_ne by done. done. }
  assert (Huniq : forall i x, i <> p -> tb_slots t !! i = Some x -> sl_id x <> id).
  { intros i x Hne Hx He. destruct Hold as [Hsame | [_ Hnone]].
    - apply Hne. eapply (hd_unique _ _ Hh); [exact Hx | exact Hs | congruence | congruence].
    - assert (m !! id = Some x) as Hsome by (apply (hd_map _ _ Hh); eauto). congruence. }
  split; cbn [tb_slots tb_mask]; rewrite ?Hlen.
  - right. destruct (hd_size _ _ Hh) as [He | Hk]; [| done]. by rewrite He in Hs.
  - intros _. apply (hd_mask _ _ Hh). intros He. by rewrite He in Hs.
  - intros i x [[-> ->] | [_ Hx]]%Hat Hz; [congruence | by eapply (hd_empty _ _ Hh)].
  - intros i x [[-> ->] | [_ Hx]]%Hat Hz.
    + rewrite Hs'. exists d. split; [done |]. split; [unfold p; rewrite Z2Nat.id; [done |]; apply slot_place_range; lia |].
      intros j Hj. apply Hocc. destruct (Hp j Hj) as (y & Hy & Hnz & _). by exists y.
    + destruct (hd_run _ _ Hh i x Hx Hz) as (d' & Hd' & Hpl & Hrun). exists d'. split; [done |]. split; [done |]. intros j Hj. by apply Hocc, Hrun.
  - intros i j x y [[-> ->] | [Hi Hx]]%Hat [[-> ->] | [Hj Hy]]%Hat Hz He; [done | | |].
    + destruct (Huniq j y Hj Hy). congruence.
    + destruct (Huniq i x Hi Hx). congruence.
    + by eapply (hd_unique _ _ Hh).
  - intros id' x. destruct (decide (id' = id)) as [-> | Hne].
    + rewrite lookup_insert_eq. split.
      * intros [= <-]. split; [done |]. split; [done |]. exists p. by rewrite list_lookup_insert_eq.
      * intros (_ & Hx & i & [[_ ->] | [Hi Hy]]%Hat); [done |]. by destruct (Huniq i x Hi Hy).
    + rewrite lookup_insert_ne, (hd_map _ _ Hh) by done. split; intros (Hnz & Hx & i & Hi); (split; [done |]; split; [done |]).
      * exists i. rewrite list_lookup_insert_ne; [done |]. intros ->. rewrite Hs in Hi. injection Hi as ->.
        destruct Hold as [? | [? _]]; congruence.
      * apply Hat in Hi as [[_ ->] | [_ Hi]]; [congruence | by exists i].
Qed.

(** *** The operations *)

(** The slot a probe ended at: the entry of [id], or the place for it. *)
Record spot (t : Table) (m : gmap Z Slot) (id p : Z) (s : Slot) : Prop := {
  sp_id : id <> 0;
  sp_slot : tb_slots t !! Z.to_nat p = Some s;
  sp_range : 0 <= p < zlen (tb_slots t);
  sp_write s' : sl_id s' = id -> holds (mkTable (<[Z.to_nat p := s']> (tb_slots t)) (tb_mask t)) (<[id := s']> m);
}.

Lemma probe_found t m id accept asked : holds t m -> exists asked' r, probe cancelled t id accept asked = (asked', Ok r) /\
  match r with
  | Index_ p => exists s, spot t m id p s
      /\ (sl_id s = id /\ m !! id = Some s \/ accept = true /\ s = EMPTY /\ m !! id = None /\ has_room (zlen (tb_slots t)) id m = true)
  | Missing => m !! id = None /\ (accept = true -> has_room (zlen (tb_slots t)) id m = false)
  | ProbeCancelled => False
  end.
Proof using Hnever.
  intros Hh. destruct (decide (tb_slots t = [] \/ id = 0)) as [Hnone | Hsome].
  { exists asked, Missing. unfold probe. split.
    - destruct Hnone as [-> | ->]; [done | by rewrite orb_true_r].
    - split; [destruct (m !! id) as [s|] eqn:E; [exfalso | done]; apply (hd_map _ _ Hh) in E as (Hid & _ & i & Hi) |].
      + destruct Hnone as [He | ?]; [| done]. by rewrite He in Hi.
      + intros _. unfold has_room. destruct Hnone as [-> | ->]; [| done].
        rewrite (proj2 (Z.ltb_ge _ (zlen [])) (Nat2Z.is_nonneg _)). apply andb_false_r. }
  assert (Hne : tb_slots t <> []) by tauto. assert (Hid : id <> 0) by tauto.
  destruct (probe_spec t m id accept asked Hh Hne Hid) as (asked' & r & E & Hr). exists asked', r. split; [done |].
  destruct r as [p | |]; [| | done].
  - destruct Hr as (d & s & Hd & -> & Hp & Hs & Hend). exists s.
    assert (Hold : sl_id s = id /\ m !! id = Some s \/ accept = true /\ s = EMPTY /\ m !! id = None /\ sl_id s = 0).
    { destruct Hend as [He | [Ha Hz]]; [left | right].
      - split; [done |]. apply (hd_map _ _ Hh). eauto.
      - split; [done |]. split; [by eapply (hd_empty _ _ Hh) |]. split; [| done]. eapply (passed_absent t m id d); try done; [lia |]. by exists s. }
    split.
    + split; [done | done | apply slot_place_range; lia |]. intros s' Hs'. eapply (holds_write t m d s); try done.
      destruct Hold as [[? _] | (_ & _ & ? & ?)]; [by left | by right].
    + destruct Hold as [? | (Ha & He & Hn & Hz)]; [by left | right]. split; [done |]. split; [done |]. split; [done |]. unfold has_room.
      rewrite (proj2 (Z.eqb_neq id 0)) by done. apply Z.ltb_lt. by eapply room_left.
  - destruct Hr as (d & Hd & Hp & Hend). split.
    { eapply (passed_absent t m id d); try done. intros Hlt. by destruct (Hend Hlt) as [_ ?]. }
    intros ->. unfold has_room. destruct (decide (d < zlen (tb_slots t))) as [Hlt | Hge]; [by destruct (Hend Hlt) |].
    rewrite (no_room t m id Hh) by (intros j Hj; apply Hp; lia). rewrite Z.ltb_irrefl. apply andb_false_r.
Qed.

Lemma alter_insert {A} (f : A -> A) (i : nat) (l : list A) x : l !! i = Some x -> alter f i l = <[i := f x]> l.
Proof using Type.
  intros Hx. pose proof (lookup_lt_Some _ _ _ Hx) as Hlt. apply list_eq. intros j. destruct (decide (j = i)) as [-> | Hne].
  - by rewrite list_lookup_alter_eq, Hx, list_lookup_insert_eq.
  - by rewrite list_lookup_alter_ne, list_lookup_insert_ne by done.
Qed.

(** Reading and writing the slot of a spot. *)
Lemma spot_now t m id p s asked : spot t m id p s -> slot_now p (t, asked) = ((t, asked), Ok s).
Proof using Type. intros Hs. unfold slot_now, at_index. cbn. by rewrite (sp_slot _ _ _ _ _ Hs). Qed.
Lemma spot_update t m id p s f asked : spot t m id p s ->
  update_slot p f (t, asked) = ((mkTable (<[Z.to_nat p := f s]> (tb_slots t)) (tb_mask t), asked), Ok tt).
Proof using Type. intros Hs. unfold update_slot, modify. by rewrite (alter_insert f _ _ _ (sp_slot _ _ _ _ _ Hs)). Qed.
Lemma spot_named t m id p s : spot t m id p s -> spot (mkTable (<[Z.to_nat p := set_id id s]> (tb_slots t)) (tb_mask t)) m id p (set_id id s).
Proof using Type.
  intros Hs. pose proof (lookup_lt_Some _ _ _ (sp_slot _ _ _ _ _ Hs)) as Hlt. split; cbn [tb_slots tb_mask].
  - apply Hs.
  - by rewrite list_lookup_insert_eq.
  - unfold zlen. rewrite length_insert. apply Hs.
  - intros s' Hs'. rewrite list_insert_insert_eq. by apply (sp_write _ _ _ _ _ Hs).
Qed.

(** An operation does to the table what its specification does to the map. *)
Definition refines_op (op : table_op) (t : Table) (m : gmap Z Slot) (asked : nat) : Prop :=
  exists t' asked', perform_op cancelled op (t, asked) = ((t', asked'), Ok (snd (spec_op (zlen (tb_slots t)) op m)))
    /\ holds t' (fst (spec_op (zlen (tb_slots t)) op m)) /\ zlen (tb_slots t') = zlen (tb_slots t).

Lemma polled {A} (f : Table -> io nat A) t asked asked' a : f t asked = (asked', Ok a) -> polling f (t, asked) = ((t, asked'), Ok a).
Proof using Type. unfold polling. by intros ->. Qed.

Lemma insert_zlen {A} (l : list A) i x : zlen (<[i := x]> l) = zlen l.
Proof using Type. unfold zlen. by rewrite length_insert. Qed.

(** The new value of a slot is the entry of [id]. *)
Lemma spot_done t m id p s s' : spot t m id p s -> sl_id s' = id ->
  holds (mkTable (<[Z.to_nat p := s']> (tb_slots t)) (tb_mask t)) (<[id := s']> m)
  /\ zlen (tb_slots (mkTable (<[Z.to_nat p := s']> (tb_slots t)) (tb_mask t))) = zlen (tb_slots t).
Proof using Type. intros Hs Hs'. split; [by apply (sp_write _ _ _ _ _ Hs) | apply insert_zlen]. Qed.

(** What a method returns, wrapped as the answer [w] of an operation. *)
Definition refines {A} (f : io (Table * nat) A) (w : A -> table_answer) (op : table_op) (t : Table) (m : gmap Z Slot) (asked : nat) : Prop :=
  exists t' asked' a, f (t, asked) = ((t', asked'), Ok a) /\ spec_op (zlen (tb_slots t)) op m = (fst (spec_op (zlen (tb_slots t)) op m), w a)
    /\ holds t' (fst (spec_op (zlen (tb_slots t)) op m)) /\ zlen (tb_slots t') = zlen (tb_slots t).

Lemma refines_wrap {A} (f : io (Table * nat) A) w op t m asked : refines f w op t m asked ->
  perform_op cancelled op = (a ← f; mret (w a)) -> refines_op op t m asked.
Proof using Type.
  intros (t' & asked' & a & E & Hs & Hh & Hl) Hop. exists t', asked'. rewrite Hop, (bind_ok _ _ _ _ _ E), Hs. done.
Qed.

Lemma count_refines id t m asked : holds t m -> (forall s, m !! id = Some s -> 0 <= sl_range_count s < u64_max) ->
  refines (count_range cancelled id) Counted (CountOp id) t m asked.
Proof using Hnever.
  intros Hh Hb. unfold refines, count_range, spec_op.
  destruct (probe_found t m id true asked Hh) as (asked' & r & E & Hr). rewrite (bind_ok _ _ _ _ _ (polled _ _ _ _ _ E)).
  destruct r as [p | |]; [| | done].
  2: { destruct Hr as [-> Hfull]. rewrite (Hfull eq_refl). by exists t, asked', Full. }
  destruct Hr as (s & Hsp & Hold). rewrite (bind_ok _ _ _ _ _ (spot_now _ _ _ _ _ asked' Hsp)).
  destruct Hold as [[Hid Hm] | (_ & -> & Hm & Hroom)]; rewrite Hm.
  - rewrite (proj2 (Z.eqb_neq (sl_id s) 0)) by (rewrite Hid; apply Hsp). rewrite (bind_ok _ _ (t, asked') (t, asked') Existing) by done.
    rewrite (bind_ok _ _ _ _ _ (spot_now _ _ _ _ _ asked' Hsp)). specialize (Hb s Hm). unfold uadd. rewrite (proj2 (Z.leb_le _ _)) by lia.
    rewrite (bind_ok _ _ (t, asked') (t, asked') (sl_range_count s + 1)) by done.
    rewrite (bind_ok _ _ _ _ _ (spot_update _ _ _ _ _ _ asked' Hsp)). eexists _, _, Existing. split; [done |]. split; [done |].
    by apply (spot_done _ _ _ _ _ _ Hsp).
  - cbn [sl_id EMPTY Z.eqb]. rewrite Hroom. cbn [fst].
    assert (E1 : (_ ← update_slot p (set_id id); mret Inserted) (t, asked')
      = ((mkTable (<[Z.to_nat p := set_id id EMPTY]> (tb_slots t)) (tb_mask t), asked'), Ok Inserted))
      by by rewrite (bind_ok _ _ _ _ _ (spot_update _ _ _ _ _ _ asked' Hsp)).
    rewrite (bind_ok _ _ _ _ _ E1). pose proof (spot_named _ _ _ _ _ Hsp) as Hsp1.
    rewrite (bind_ok _ _ _ _ _ (spot_now _ _ _ _ _ asked' Hsp1)). unfold uadd. cbn [sl_range_count set_id EMPTY].
    match goal with |- context [lift ?r] => rewrite (bind_ok (lift r) _ _ _ 1 eq_refl) end.
    rewrite (bind_ok _ _ _ _ _ (spot_update _ _ _ _ _ _ asked' Hsp1)). eexists _, _, Inserted. split; [done |]. split; [done |].
    destruct (spot_done _ _ _ _ _ (set_range_count 1 (set_id id EMPTY)) Hsp1 eq_refl) as [Hh' Hl']. split; [done |]. rewrite Hl'. apply insert_zlen.
Qed.

Lemma find_result t id accept asked asked' r : probe cancelled t id accept asked = (asked', Ok r) -> r <> ProbeCancelled ->
  probe_result cancelled t id accept asked = (asked', Ok (match r with Index_ p => Some p | _ => None end)).
Proof using Type. intros E Hr. unfold probe_result. rewrite (bind_ok _ _ _ _ _ E). by destruct r. Qed.

Lemma define_refines id refcount words digest t m asked : holds t m ->
  refines (define cancelled id refcount words digest) Defined_ (DefineOp id refcount words digest) t m asked.
Proof using Hnever.
  intros Hh. unfold refines, define, spec_op, find_or_empty.
  destruct (probe_found t m id true asked Hh) as (asked' & r & E & Hr).
  assert (Hnc : r <> ProbeCancelled) by by intros ->. apply find_result in E; [| done].
  rewrite (bind_ok _ _ _ _ _ (polled _ _ _ _ _ E)). destruct r as [p | |]; [| | done].
  2: { destruct Hr as [-> Hfull]. rewrite (Hfull eq_refl). by exists t, asked', InsertFull. }
  destruct Hr as (s & Hsp & Hold). rewrite (bind_ok _ _ _ _ _ (spot_now _ _ _ _ _ asked' Hsp)).
  destruct Hold as [[Hid Hm] | (_ & -> & Hm & Hroom)]; rewrite Hm.
  - rewrite (proj2 (Z.eqb_neq (sl_id s) 0)) by (rewrite Hid; apply Hsp). cbn [negb andb]. destruct (sl_defined s); [by exists t, asked', InsertExisting |].
    rewrite (bind_ok _ _ (t, asked') (t, asked') tt) by done. rewrite (bind_ok _ _ _ _ _ (spot_update _ _ _ _ _ _ asked' Hsp)).
    eexists _, _, InsertInserted. split; [done |]. split; [done |]. by apply (spot_done _ _ _ _ _ _ Hsp).
  - cbn [sl_id EMPTY Z.eqb negb andb]. rewrite Hroom. cbn [fst]. rewrite (bind_ok _ _ _ _ _ (spot_update _ _ _ _ _ _ asked' Hsp)).
    pose proof (spot_named _ _ _ _ _ Hsp) as Hsp1. rewrite (bind_ok _ _ _ _ _ (spot_update _ _ _ _ _ _ asked' Hsp1)).
    eexists _, _, InsertInserted. split; [done |]. split; [done |].
    destruct (spot_done _ _ _ _ _ (set_definition refcount words digest (set_id id EMPTY)) Hsp1 eq_refl) as [Hh' Hl']. split; [done |]. rewrite Hl'. apply insert_zlen.
Qed.

(** [mark_reverse] and [mark_reverse_digest] differ in what they compare. *)
Lemma reverse_refines id words digest (bad : Slot -> bool) op t m asked : holds t m ->
  (forall s, bad s = negb (reverse_fits words digest s)) -> (forall n m, spec_op n op m = spec_reverse id words digest m) ->
  refines (found ← polling (fun t => table_find cancelled t id);
           match found with
           | None => mret false
           | Some index =>
               slot ← slot_now index;
               if bad slot then mret false else _ ← update_slot index set_reverse_seen; mret true
           end) Marked op t m asked.
Proof using Hnever.
  intros Hh Hbad Hop. unfold refines, table_find. rewrite Hop. unfold spec_reverse.
  destruct (probe_found t m id false asked Hh) as (asked' & r & E & Hr).
  assert (Hnc : r <> ProbeCancelled) by by intros ->. apply find_result in E; [| done].
  rewrite (bind_ok _ _ _ _ _ (polled _ _ _ _ _ E)). destruct r as [p | |]; [| | done].
  2: { destruct Hr as [-> _]. by exists t, asked', false. }
  destruct Hr as (s & Hsp & [[Hid Hm] | (? & _)]); [| done]. rewrite (bind_ok _ _ _ _ _ (spot_now _ _ _ _ _ asked' Hsp)), Hm, Hbad.
  destruct (reverse_fits words digest s); cbn [negb]; [| by exists t, asked', false].
  rewrite (bind_ok _ _ _ _ _ (spot_update _ _ _ _ _ _ asked' Hsp)). eexists _, _, true. split; [done |]. split; [done |].
  by apply (spot_done _ _ _ _ _ _ Hsp).
Qed.

Definition counts_below (b : Z) (m : gmap Z Slot) : Prop := forall id s, m !! id = Some s -> 0 <= sl_range_count s <= b.

Lemma op_refines op t m asked : holds t m -> counts_below (u64_max - 1) m -> refines_op op t m asked.
Proof using Hnever.
  intros Hh Hb. destruct op as [id | id refcount words digest | id words digest | id digest].
  - eapply refines_wrap; [apply count_refines; [done |] | done]. intros s Hs. specialize (Hb id s Hs). lia.
  - eapply refines_wrap; [by apply define_refines | done].
  - eapply refines_wrap; [apply (reverse_refines id (Some words) digest); [done | | done] | done].
    intros s. unfold reverse_fits. by destruct (sl_defined s), (sl_word_count s =? words), (bool_decide _), (sl_reverse_seen s).
  - eapply refines_wrap; [apply (reverse_refines id None digest); [done | | done] | done].
    intros s. unfold reverse_fits. by destruct (sl_defined s), (bool_decide _), (sl_reverse_seen s).
Qed.

(** A count grows by one at most. *)
Lemma spec_op_counts n op m b : 0 <= b -> counts_below b m -> counts_below (b + 1) (fst (spec_op n op m)).
Proof using Type.
  intros Hb Hm. assert (Hless : counts_below (b + 1) m) by (intros id s Hs; specialize (Hm id s Hs); lia).
  assert (Hins : forall id s, 0 <= sl_range_count s <= b + 1 -> counts_below (b + 1) (<[id := s]> m)).
  { intros id s Hs id' s' Hs'. apply lookup_insert_Some in Hs' as [[_ <-] | [_ Hs']]; [done | by eapply Hless]. }
  assert (Hrev : forall id words digest, counts_below (b + 1) (fst (spec_reverse id words digest m))).
  { intros id words digest. unfold spec_reverse. destruct (m !! id) as [s|] eqn:E; [| done].
    destruct (reverse_fits words digest s); [| done]. apply Hins. cbn. specialize (Hm id s E). lia. }
  destruct op as [id | id refcount words digest | id words digest | id digest]; cbn [spec_op]; [| | apply Hrev | apply Hrev].
  - destruct (m !! id) as [s|] eqn:E; [apply Hins; cbn; specialize (Hm id s E); lia |].
    destruct (has_room n id m); [apply Hins; cbn; lia | done].
  - destruct (m !! id) as [s|] eqn:E; [destruct (sl_defined s); [done |]; apply Hins; cbn; specialize (Hm id s E); lia |].
    destruct (has_room n id m); [apply Hins; cbn; lia | done].
Qed.

Lemma ops_refine ops : forall t m asked b, holds t m -> 0 <= b -> counts_below b m -> b + zlen ops <= u64_max ->
  exists t' asked', perform_ops cancelled ops (t, asked) = ((t', asked'), Ok (snd (spec_ops (zlen (tb_slots t)) ops m)))
    /\ holds t' (fst (spec_ops (zlen (tb_slots t)) ops m)).
Proof using Hnever.
  induction ops as [|op ops IH]; intros t m asked b Hh Hb0 Hb Hn; cbn [perform_ops spec_ops]; [by exists t, asked |].
  rewrite zlen_cons in Hn. pose proof (zlen_nonneg ops).
  destruct (op_refines op t m asked Hh) as (t1 & asked1 & E1 & Hh1 & Hl1).
  { intros id s Hs. specialize (Hb id s Hs). lia. }
  pose proof (spec_op_counts (zlen (tb_slots t)) op m b Hb0 Hb) as Hb1.
  destruct (spec_op (zlen (tb_slots t)) op m) as [m1 a]. cbn [fst snd] in *. rewrite (bind_ok _ _ _ _ _ E1).
  destruct (IH t1 m1 asked1 (b + 1) Hh1) as (t2 & asked2 & E2 & Hh2); [lia | done | lia |]. rewrite Hl1 in E2, Hh2.
  rewrite (bind_ok _ _ _ _ _ E2). destruct (spec_ops (zlen (tb_slots t)) ops m1) as [m2 rest]. by exists t2, asked2.
Qed.
End Refinement.

(** A fresh table. *)
Lemma table_new_size grants slot_size entry_count available t : 0 <= entry_count -> table_new grants slot_size entry_count available = Ok t ->
  t = mkTable [] 0 /\ entry_count = 0
  \/ exists k, 0 <= k /\ 2 * entry_count <= 2 ^ k /\ t = mkTable (replicate (Z.to_nat (2 ^ k)) EMPTY) (2 ^ k - 1).
Proof.
  intros He. unfold table_new. destruct (Z.eqb_spec entry_count 0) as [-> | Hne]; [intros [= <-]; by left |].
  match goal with |- context [ok_or ?o (ArithmeticOverflow "validation membership table capacity")] => destruct o as [wanted|] eqn:Ew end; [| done].
  cbn [ok_or mbind outcome_bind]. apply bind_Some in Ew as (twice & Et & Ew). unfold checked_mul in Et.
  destruct (_ <=? u64_max) in Et; [injection Et as <- | done].
  unfold checked_next_power_of_two in Ew. cbv zeta in Ew. rewrite (proj2 (Z.leb_gt (entry_count * 2) 1)) in Ew by lia.
  destruct (_ <=? u64_max) in Ew; [injection Ew as <- | done]. set (k := Z.log2 (entry_count * 2 - 1) + 1).
  destruct (usize_max <? 2 ^ k); [done |]. destruct (checked_mul u64_max (2 ^ k) slot_size) as [bytes|]; [| done]. cbn [ok_or mbind outcome_bind].
  destruct (available <? bytes); [done |]. destruct (grants bytes); [| done]. cbn [negb].
  assert (Hk : 0 <= k) by (pose proof (Z.log2_nonneg (entry_count * 2 - 1)); lia).
  assert (Hle : 2 * entry_count <= 2 ^ k) by (pose proof (Z.log2_spec (entry_count * 2 - 1) ltac:(lia)); unfold k; lia).
  unfold usub. rewrite (proj2 (Z.leb_le 1 (2 ^ k))) by lia. cbn [mbind outcome_bind]. intros [= <-]. right. by exists k.
Qed.

Lemma table_new_holds grants slot_size entry_count available t : 0 <= entry_count -> table_new grants slot_size entry_count available = Ok t ->
  holds t ∅ /\ 2 * entry_count <= zlen (tb_slots t).
Proof.
  intros He Hn. destruct (table_new_size _ _ _ _ _ He Hn) as [[-> ->] | (k & Hk & Hle & ->)].
  { split; [| done]. split; cbn [tb_slots tb_mask]; try done; [by left | intros id s; rewrite lookup_empty; split; [done | by intros (_ & _ & i & ?)]]. }
  pose proof (Z.pow_pos_nonneg 2 k ltac:(lia) Hk) as Hp.
  assert (Hz : zlen (replicate (Z.to_nat (2 ^ k)) EMPTY) = 2 ^ k) by (unfold zlen; rewrite length_replicate; lia).
  assert (Hat : forall i s, replicate (Z.to_nat (2 ^ k)) EMPTY !! i = Some s -> s = EMPTY) by (intros i s [-> _]%lookup_replicate; done).
  split; [| cbn [tb_slots]; lia]. split; cbn [tb_slots tb_mask].
  - right. by exists k.
  - intros _. lia.
  - intros i s Hs _. by eapply Hat.
  - intros i s ->%Hat. done.
  - intros i j s s' ->%Hat _. done.
  - intros id s. rewrite lookup_empty. split; [done |]. intros (Hid & Hs & i & ->%Hat). by destruct Hid.
Qed.

(** C24: The owner tables are finite maps.  Whatever sequence of counts, definitions and
    reverse marks a validation makes on a fresh table, while it is not cancelled,
    each call answers what the specification on a map from identifiers to slots
    answers, and the table then holds that map.  The table has at least two
    slots per announced entry, and refuses an identifier only when it is zero or
    as many others are in the table as there are slots. *)
Theorem owner_table_refines cancelled grants slot_size entry_count available t ops asked :
  (forall k, cancelled k = false) -> 0 <= entry_count -> table_new grants slot_size entry_count available = Ok t -> zlen ops <= u64_max ->
  let capacity := zlen (tb_slots t) in
  2 * entry_count <= capacity
  /\ exists t' asked', perform_ops cancelled ops (t, asked) = ((t', asked'), Ok (snd (spec_ops capacity ops ∅)))
       /\ holds t' (fst (spec_ops capacity ops ∅)).
Proof.
  intros Hnever He Hnew Hops capacity. destruct (table_new_holds _ _ _ _ _ He Hnew) as [Hh Hcap]. split; [done |].
  apply (ops_refine cancelled Hnever ops t ∅ asked 0 Hh); [lia | | lia]. intros id s Hs. by rewrite lookup_empty in Hs.
Qed.

(** Identifiers 1 and 9 have one home among eight slots. *)
Definition sample_ops : list table_op :=
  [CountOp 1; CountOp 9; CountOp 9; DefineOp 9 2 1 [7]; DefineOp 9 5 1 [7]; ReverseOp 9 1 [7]; ReverseOp 9 1 [7]; ReverseDigestOp 1 [7]; CountOp 0].

Lemma owner_table_refines_witness : exists t' asked',
  perform_ops (fun _ => false) sample_ops (mkTable (replicate 8 EMPTY) 7, 0%nat)
    = ((t', asked'), Ok [Counted Inserted; Counted Inserted; Counted Existing; Defined_ InsertInserted; Defined_ InsertExisting;
                          Marked true; Marked false; Marked false; Counted Full])
  /\ holds t' (fst (spec_ops 8 sample_ops ∅)).
Proof.
  exact (proj2 (owner_table_refines (fun _ => false) (fun _ => true) 64 3 10000 (mkTable (replicate 8 EMPTY) 7) sample_ops 0%nat
    (fun _ => eq_refl) ltac:(lia) eq_refl ltac:(vm_compute; congruence))).
Defined.
