(* ===== verification/Validation.v ===== *)
(** * Validation of a database file

    [validation/context.rs], [validation/page.rs] and [validation/range.rs]: the walk over an untrusted
    generation that reports every defect of its range tree to a sink.  The
    context carries the counters, two claim bits per page (each page may be
    reached once), the tables that count the owners of memberships and
    structures, and the budget of heap bytes.  What the caller supplies is a
    parameter: its sink, its cancellation token, and the control block of the
    worker process, if there is one. *)

From stdpp Require Import base tactics numbers list strings.
From Stdlib Require Import ZArith Lia.
From S2P Require Import Prelude Errors Bytes Cardinality Key Codec PageHeader SlottedPage Checksum Contract Machine Mapping Classify OwnerTable.

#[local] Open Scope string_scope.
#[local] Open Scope list_scope.
#[local] Open Scope Z_scope.

(** ** Findings *)

Record PhysicalByteInterval := mkPhysicalByteInterval { pb_start : Z; pb_end_exclusive : Z }.

Inductive ValidationAddressFence :=
| FenceV4 (from to : Ipv4Key)
| FenceV6 (from to : Ipv6Key).

Record ValidationFinding := mkValidationFinding {
  vf_sequence : Z;
  vf_reason : ValidationReason;
  vf_object : ValidationObject;
  vf_page_number : option Z;
  vf_physical_bytes : option PhysicalByteInterval;
  vf_related_page_number : option Z;
  vf_address_fence : option ValidationAddressFence;
}.

Inductive ValidationSinkControl := Continue_ | Stop_.

(** What surrounds a validation: the answer of the cancellation token to its
    [k]-th poll, the answer of the sink to the last of the findings it was given,
    the worker's control block ([None] outside a worker), whether the allocator
    grants a number of bytes, the size the compiler gives a table slot, and
    which of its CRC-32C routines the build has. *)
Record Surroundings := mkSurroundings {
  sr_cancelled : nat -> bool;
  sr_sink : list ValidationFinding -> Result ValidationSinkControl;
  sr_worker : option (ValidationProgress -> Result unit);
  sr_grants : Z -> bool;
  sr_slot_size : Z;
  sr_path : crc_path;
  sr_contiguous : bool;
}.

(** ** Claims

    Two bits per page: reached from a root, and owned by the allocator. *)

Definition UNCLAIMED : Z := 0.
Definition GRAPH : Z := 1.
Definition ALLOCATION : Z := 2.

Record Claims := mkClaims { cl_bytes : list Z; cl_page_count : Z }.

Definition claims_new (grants : Z -> bool) (page_count max_heap_bytes : Z) : Result Claims :=
  sum ← ok_or (checked_add u64_max page_count 3) (ArithmeticOverflow "validation claim bitmap");
  let byte_count := sum / 4 in
  if max_heap_bytes <? byte_count then Err (BudgetExceeded "validation page-claim bitmap")
  else if usize_max <? byte_count then Err (BudgetExceeded "validation page-claim bitmap")
  else if negb (grants byte_count) then Err (BudgetExceeded "validation page-claim bitmap")
  else Ok (mkClaims (replicate (Z.to_nat byte_count) 0) page_count).

Definition claims_get (claims : Claims) (page : Z) : Result Z :=
  if cl_page_count claims <=? page then Err (Corrupt "validation claim is outside page bounds")
  else
    b ← at_index (cl_bytes claims) (page / 4);
    Ok (Z.land (Z.shiftr b (page mod 4 * 2)) 3).

Definition claims_add (claims : Claims) (page state : Z) : Result (Claims * Z) :=
  previous ← claims_get claims page;
  b ← at_index (cl_bytes claims) (page / 4);
  let b := Z.lor b (as_u8 (Z.shiftl state (page mod 4 * 2))) in
  Ok (mkClaims (<[Z.to_nat (page / 4) := b]> (cl_bytes claims)) (cl_page_count claims), previous).

Definition claims_retained_bytes (claims : Claims) : Z := zlen (cl_bytes claims).

(** ** The context *)

Record Context := mkContext {
  cx_mapping : Mapping;
  cx_meta : MetaV4;
  cx_claims : Claims;
  cx_memberships : option Table;
  cx_structures : option Table;
  cx_heap_limit : Z;
  cx_heap_used : Z;
  cx_progress : ValidationProgress;
  (** how often the token was polled, and what the sink was given *)
  cx_polls : nat;
  cx_delivered : list ValidationFinding;
}.

Definition set_claims (claims : Claims) (c : Context) : Context :=
  mkContext (cx_mapping c) (cx_meta c) claims (cx_memberships c) (cx_structures c) (cx_heap_limit c) (cx_heap_used c)
    (cx_progress c) (cx_polls c) (cx_delivered c).
Definition set_memberships (t : Table) (polls : nat) (c : Context) : Context :=
  mkContext (cx_mapping c) (cx_meta c) (cx_claims c) (Some t) (cx_structures c) (cx_heap_limit c) (cx_heap_used c)
    (cx_progress c) polls (cx_delivered c).
Definition set_structures (t : Table) (polls : nat) (c : Context) : Context :=
  mkContext (cx_mapping c) (cx_meta c) (cx_claims c) (cx_memberships c) (Some t) (cx_heap_limit c) (cx_heap_used c)
    (cx_progress c) polls (cx_delivered c).
Definition set_heap_used (used : Z) (c : Context) : Context :=
  mkContext (cx_mapping c) (cx_meta c) (cx_claims c) (cx_memberships c) (cx_structures c) (cx_heap_limit c) used
    (cx_progress c) (cx_polls c) (cx_delivered c).
Definition set_progress (p : ValidationProgress) (c : Context) : Context :=
  mkContext (cx_mapping c) (cx_meta c) (cx_claims c) (cx_memberships c) (cx_structures c) (cx_heap_limit c) (cx_heap_used c)
    p (cx_polls c) (cx_delivered c).
Definition set_polls (polls : nat) (c : Context) : Context :=
  mkContext (cx_mapping c) (cx_meta c) (cx_claims c) (cx_memberships c) (cx_structures c) (cx_heap_limit c) (cx_heap_used c)
    (cx_progress c) polls (cx_delivered c).
Definition set_delivered (delivered : list ValidationFinding) (c : Context) : Context :=
  mkContext (cx_mapping c) (cx_meta c) (cx_claims c) (cx_memberships c) (cx_structures c) (cx_heap_limit c) (cx_heap_used c)
    (cx_progress c) (cx_polls c) delivered.

Definition object_has_addresses (object : ValidationObject) : bool := bool_decide (object = O_RangeTree).

Definition graph_reuse_reason (path : list Z) (page : Z) : ValidationReason :=
  if existsb (Z.eqb page) path then R_TreeCycle else R_PageAlias.

Definition partition_bytes (start end_ : Z) : Result PhysicalByteInterval :=
  s ← ok_or (checked_mul u64_max start PAGE_SIZE) (ArithmeticOverflow "validation partition byte offset");
  e ← ok_or (checked_mul u64_max end_ PAGE_SIZE) (ArithmeticOverflow "validation partition byte offset");
  Ok (mkPhysicalByteInterval s e).

Section Walk.
Context (env : Surroundings).

(** The table of [entry_count] owners, when this kind of database has one. *)
Definition owners_new (wanted : bool) (entry_count heap_limit heap_used : Z) : Result (option Table * Z) :=
  if wanted then
    table ← table_new (sr_grants env) (sr_slot_size env) entry_count (saturating_sub heap_limit heap_used);
    heap_used ← ok_or (checked_add u64_max heap_used (table_retained_bytes (sr_slot_size env) table))
                  (ArithmeticOverflow "validation retained heap");
    Ok (Some table, heap_used)
  else Ok (None, heap_used).

Definition context_new (mapping : Mapping) (meta : MetaV4) (budget : ValidationBudget) : Result Context :=
  claims ← claims_new (sr_grants env) (page_count meta) (vb_max_heap_bytes budget);
  let heap_used := claims_retained_bytes claims in
  '(memberships, heap_used) ← owners_new (negb (bool_decide (value_kind meta = Direct))) (membership_entry_count meta)
                                (vb_max_heap_bytes budget) heap_used;
  '(structures, heap_used) ← owners_new (bool_decide (value_kind meta = Structured)) (structure_entry_count meta)
                               (vb_max_heap_bytes budget) heap_used;
  Ok (mkContext mapping meta claims memberships structures (vb_max_heap_bytes budget) heap_used progress_new 0 []).

Definition on_progress {A} (m : io ValidationProgress A) : io Context A := zoom cx_progress set_progress m.

Definition checkpoint : io Context unit :=
  stop ← zoom cx_polls set_polls (is_cancelled (sr_cancelled env));
  fail_if stop Cancelled.

Definition reserve_heap (bytes : Z) (purpose : string) : io Context unit :=
  used ← gets cx_heap_used;
  limit ← gets cx_heap_limit;
  retained ← lift (ok_or (checked_add u64_max used bytes) (ArithmeticOverflow "validation retained heap"));
  _ ← fail_if (limit <? retained) (BudgetExceeded purpose);
  modify (set_heap_used retained).

Definition release_heap (bytes : Z) : io Context unit :=
  modify (fun c => set_heap_used (saturating_sub (cx_heap_used c) bytes) c).

(** [worker::checkpoint_validation_progress]: nothing outside a worker. *)
Definition checkpoint_validation_progress (p : ValidationProgress) : Result unit :=
  match sr_worker env with None => Ok tt | Some control => control p end.

Definition emit (reason : ValidationReason) (object : ValidationObject) (page_number : option Z)
    (physical_bytes : option PhysicalByteInterval) (address_fence : option ValidationAddressFence) : io Context unit :=
  _ ← on_progress (count_finding reason);
  p ← gets cx_progress;
  let finding := mkValidationFinding (finding_count p) reason object page_number physical_bytes None address_fence in
  _ ← lift (checkpoint_validation_progress p);
  _ ← modify (fun c => set_delivered (cx_delivered c ++ [finding]) c);
  given ← gets cx_delivered;
  match sr_sink env given with
  | Ok Continue_ => mret tt
  | Ok Stop_ => lift (Err StoppedBySink)
  | Err cause => lift (Err (SinkFailed cause))
  | Panic t => lift (Panic t)
  end.

(** *** Owners *)

Definition on_memberships {A} (m : Table -> io Context A) (absent : io Context A) : io Context A :=
  t ← gets cx_memberships;
  match t with Some t => m t | None => absent end.
Definition on_structures {A} (m : Table -> io Context A) (absent : io Context A) : io Context A :=
  t ← gets cx_structures;
  match t with Some t => m t | None => absent end.
Definition in_memberships {A} (t : Table) (m : io (Table * nat) A) : io Context A :=
  zoom (fun c => (t, cx_polls c)) (fun '(t, polls) => set_memberships t polls) m.
Definition in_structures {A} (t : Table) (m : io (Table * nat) A) : io Context A :=
  zoom (fun c => (t, cx_polls c)) (fun '(t, polls) => set_structures t polls) m.

Definition no_memberships : Error := Corrupt "direct validation has no membership table".
Definition no_structures : Error := Corrupt "non-structured validation has no structure table".

Definition count_membership_owner (id : Z) : io Context CountResult :=
  on_memberships (fun t => in_memberships t (count_range (sr_cancelled env) id)) (mret Unavailable).
Definition count_structure_range (id : Z) : io Context CountResult :=
  on_structures (fun t => in_structures t (count_range (sr_cancelled env) id)) (mret Unavailable).
Definition define_membership (id refcount word_count : Z) (digest : list Z) : io Context InsertResult :=
  on_memberships (fun t => in_memberships t (define (sr_cancelled env) id refcount word_count digest)) (lift (Err no_memberships)).
Definition mark_membership_reverse (id word_count : Z) (digest : list Z) : io Context bool :=
  on_memberships (fun t => in_memberships t (mark_reverse (sr_cancelled env) id word_count digest)) (lift (Err no_memberships)).
Definition membership_slots : io Context Z :=
  on_memberships (fun t => mret (table_len t)) (lift (Err no_memberships)).
Definition membership_slot (index : Z) : io Context (option Slot) :=
  on_memberships (fun t => mret (table_slot t index)) (lift (Err no_memberships)).
Definition define_structure (id refcount membership_id : Z) (digest : list Z) : io Context InsertResult :=
  on_structures (fun t => in_structures t (define (sr_cancelled env) id refcount membership_id digest)) (lift (Err no_structures)).
Definition mark_structure_reverse (id : Z) (digest : list Z) : io Context bool :=
  on_structures (fun t => in_structures t (mark_reverse_digest (sr_cancelled env) id digest)) (lift (Err no_structures)).
Definition structure_slots : io Context Z :=
  on_structures (fun t => mret (table_len t)) (lift (Err no_structures)).
Definition structure_slot (index : Z) : io Context (option Slot) :=
  on_structures (fun t => mret (table_slot t index)) (lift (Err no_structures)).

(** *** Pages *)

Definition page_in_bounds (c : Context) (page_number : Z) : bool := (2 <=? page_number) && (page_number <? page_count (cx_meta c)).

Definition claim (page state : Z) : io Context Z :=
  claims ← gets cx_claims;
  '(claims, previous) ← lift (claims_add claims page state);
  _ ← modify (set_claims claims);
  mret previous.

Definition reserve_allocator_page (page : Z) : io Context unit :=
  if page =? 0 then mret tt
  else
    inside ← gets (fun c => page_in_bounds c page);
    if negb inside then emit R_PageOutOfBounds O_FreeBitmap (Some page) None None
    else
      previous ← claim page ALLOCATION;
      if negb (previous =? UNCLAIMED) then emit R_AllocationPartitionInvalid O_FreeBitmap (Some page) None None else mret tt.

(** [for item in list]. *)
Fixpoint for_each {A} (body : A -> io Context unit) (l : list A) : io Context unit :=
  match l with [] => mret tt | a :: l => _ ← body a; for_each body l end.

Definition reserve_allocator_pages : io Context unit :=
  pages ← gets (fun c => allocator_reserve (cx_meta c));
  for_each reserve_allocator_page pages.

Definition require_graph_bounds (page_number : Z) (object : ValidationObject) : io Context bool :=
  inside ← gets (fun c => page_in_bounds c page_number);
  if inside : bool then mret true
  else
    _ ← emit R_PageOutOfBounds object (Some page_number) None None;
    _ ← on_progress (mark_untraversable (object_has_addresses object));
    mret false.

Definition claim_graph_page (page_number : Z) (object : ValidationObject) (path : list Z) : io Context bool :=
  claims ← gets cx_claims;
  previous ← lift (claims_get claims page_number);
  if negb (Z.land previous GRAPH =? 0) then
    _ ← emit (graph_reuse_reason path page_number) object (Some page_number) None None;
    _ ← on_progress (mark_untraversable (object_has_addresses object));
    mret false
  else
    _ ← claim page_number GRAPH;
    _ ← (if negb (Z.land previous ALLOCATION =? 0)
         then emit R_AllocationPartitionInvalid object (Some page_number) None None else mret tt);
    mret true.

Definition load_graph_page (page_number : Z) (object : ValidationObject) : io Context (option (list Z)) :=
  _ ← on_progress (count_page object);
  limit ← gets (fun c => page_count (cx_meta c));
  mapping ← gets cx_mapping;
  match snd (page page_number limit mapping) with
  | Err _ =>
      _ ← emit R_IoError object (Some page_number) None None;
      _ ← on_progress (mark_untraversable (object_has_addresses object));
      mret None
  | Panic t => lift (Panic t)
  | Ok view =>
      sound ← lift (valid (sr_path env) (sr_contiguous env) view);
      if negb sound then
        _ ← emit R_PageCrcMismatch object (Some page_number) None None;
        _ ← on_progress (mark_untraversable (object_has_addresses object));
        mret None
      else mret (Some view)
  end.

Definition read_graph_page (page_number : Z) (object : ValidationObject) (path : list Z) : io Context (option (list Z)) :=
  _ ← checkpoint;
  inside ← require_graph_bounds page_number object;
  if negb inside then mret None
  else
    fresh ← claim_graph_page page_number object path;
    if negb fresh then mret None else load_graph_page page_number object.

Definition mark_allocated (page_number : Z) (object : ValidationObject) : io Context unit :=
  _ ← checkpoint;
  inside ← gets (fun c => page_in_bounds c page_number);
  if negb inside then emit R_PageOutOfBounds object (Some page_number) None None
  else
    previous ← claim page_number ALLOCATION;
    if negb (previous =? UNCLAIMED) then emit R_AllocationPartitionInvalid object (Some page_number) None None else mret tt.

(** *** The partition of the pages *)

(** [while page < page_count && self.claims.get(page)? (!= or ==) UNCLAIMED]:
    [claimed] tells which pages are skipped. *)
Fixpoint skip_loop (claimed : bool) (page : Z) (rounds : nat) : io Context Z :=
  limit ← gets (fun c => page_count (cx_meta c));
  if limit <=? page then mret page
  else
    claims ← gets cx_claims;
    state ← lift (claims_get claims (as_u32 page));
    if Bool.eqb (state =? UNCLAIMED) claimed then mret page
    else
      match rounds with
      | O => lift (Panic "the scan of the claims does not end")
      | S rounds' =>
          _ ← (if Z.land page 63 =? 0 then checkpoint else mret tt);
          skip_loop claimed (page + 1) rounds'
      end.

(** As many rounds as there are pages left. *)
Definition pages_left (c : Context) (page : Z) : nat := Z.to_nat (page_count (cx_meta c) - page).
Definition skip_claimed (page : Z) : io Context Z := rounds ← gets (fun c => pages_left c page); skip_loop true page rounds.
Definition skip_unclaimed (page : Z) : io Context Z := rounds ← gets (fun c => pages_left c page); skip_loop false page rounds.

Definition next_unclaimed (page : Z) : io Context (option (Z * Z)) :=
  page ← skip_claimed page;
  limit ← gets (fun c => page_count (cx_meta c));
  if page =? limit then mret None
  else
    end_ ← skip_unclaimed page;
    mret (Some (page, end_)).

Fixpoint partition_loop (page : Z) (rounds : nat) : io Context unit :=
  limit ← gets (fun c => page_count (cx_meta c));
  if limit <=? page then mret tt
  else
    match rounds with
    | O => lift (Panic "the scan of the partition does not end")
    | S rounds' =>
        _ ← checkpoint;
        next ← next_unclaimed page;
        match next with
        | None => mret tt
        | Some (start, end_) =>
            bytes ← lift (partition_bytes start end_);
            _ ← emit R_AllocationPartitionInvalid O_FileGeometry (Some (as_u32 start)) (Some bytes) None;
            partition_loop end_ rounds'
        end
    end.

Definition validate_partition : io Context unit :=
  rounds ← gets (fun c => pages_left c 2);
  partition_loop 2 rounds.

(** ** Slotted pages *)

Record TreePageSpec := mkTreePageSpec {
  ts_branch_type : Z;
  ts_leaf_type : Z;
  ts_aux : Z;
  ts_expected_level : option Z;
}.

Definition header_reason (problem : HeaderProblem) : ValidationReason :=
  match problem with
  | HeaderHP | ShapeHP => R_PageHeaderInvalid
  | BornHP => R_PageBornTxnInvalid
  | TypeHP => R_PageTypeMismatch
  | LevelHP => R_TreeLevelInvalid
  end.

Definition slotted_header (page_number : Z) (view : list Z) (object : ValidationObject) (spec : TreePageSpec)
    : io Context (option Header) :=
  txn ← gets (fun c => txn_id (cx_meta c));
  match inspect_tree_header view txn (ts_branch_type spec) (ts_leaf_type spec) (ts_aux spec) (ts_expected_level spec) with
  | Ok header => mret (Some header)
  | Err problem =>
      _ ← emit (header_reason problem) object (Some page_number) None None;
      mret None
  | Panic t => lift (Panic t)
  end.

Definition invalid_layout (page_number : Z) (object : ValidationObject) : io Context unit :=
  emit R_PageHeaderInvalid object (Some page_number) None None.

Definition validate_layout (page_number : Z) (view : list Z) (object : ValidationObject) (header : Header) (layout : CellLayout)
    : io Context (option LayoutInspection) :=
  match inspect_layout view header layout with
  | None => _ ← invalid_layout page_number object; mret None
  | Some inspection =>
      _ ← (if li_reserved_nonzero inspection
           then emit R_PageReservedNonzero object (Some page_number) None None else mret tt);
      mret (Some inspection)
  end.

Definition validate_fixed_cells (page_number : Z) (view : list Z) (object : ValidationObject) (header : Header) (cell_len : Z)
    : io Context (option LayoutInspection) :=
  validate_layout page_number view object header (Fixed cell_len).
Definition validate_variable_cells (page_number : Z) (view : list Z) (object : ValidationObject) (header : Header)
    (minimum maximum : Z) : io Context (option LayoutInspection) :=
  validate_layout page_number view object header (Variable_ minimum maximum).

(** ** The range tree *)

Section Ranges.
Context {K : Type} `{IpKey K}.

Record RangeState := mkRangeState { rs_count : Z; rs_previous : option (Range K) }.
Record LeafOrder := mkLeafOrder { lo_first : option K; lo_previous : option K }.

Definition order_default : LeafOrder := mkLeafOrder None None.

Definition observe (order : LeafOrder) (key : K) : LeafOrder * bool :=
  let first := match lo_first order with Some k => Some k | None => Some key end in
  let invalid := match lo_previous order with Some previous => key_leb key previous | None => false end in
  (mkLeafOrder first (Some key), invalid).

Definition emit_range_finding (page_number : Z) (reason : ValidationReason) : io Context unit :=
  emit reason O_RangeTree (Some page_number) None None.

Definition neighbor_problem (previous : option (Range K)) (current : Range K) : option ValidationReason :=
  previous ← previous;
  if key_leb (r_from current) (r_to previous) then Some R_RangeOverlap
  else if (match checked_next (r_to previous) with Some k => key_eqb k (r_from current) | None => false end)
          && (r_value previous =? r_value current)
  then Some R_RangeNotCoalesced
  else None.

Definition read_range_cell (cell : list Z) : Result (Range K) := decode_fields cell.

(** What a leaf cell of this kind owes its owner. *)
Definition count_owner (kind : ValueKind) (page_number value : Z) : io Context unit :=
  match kind with
  | Direct => mret tt
  | Membership =>
      if value =? 0 then emit_range_finding page_number R_MembershipBitmapInvalid
      else
        result ← count_membership_owner value;
        match result with
        | Full => emit_range_finding page_number R_MembershipRefcountInvalid
        | CountCancelled => lift (Err Cancelled)
        | Unavailable => lift (Err (Corrupt "membership validation has no membership table"))
        | Inserted | Existing => mret tt
        end
  | Structured =>
      if value =? 0 then emit_range_finding page_number R_StructureMissing
      else
        result ← count_structure_range value;
        match result with
        | Full => emit_range_finding page_number R_StructureRefcountInvalid
        | CountCancelled => lift (Err Cancelled)
        | Unavailable => lift (Err (Corrupt "structured validation has no structure table"))
        | Inserted | Existing => mret tt
        end
  end.

Definition validate_leaf_cell (kind : ValueKind) (page_number : Z) (cell : list Z) (order : LeafOrder) (state : RangeState)
    : io Context (LeafOrder * RangeState) :=
  current ← lift (read_range_cell cell);
  let '(order, invalid) := observe order (r_from current) in
  _ ← (if invalid : bool then emit_range_finding page_number R_TreeOrderInvalid else mret tt);
  count ← lift (uadd u64_max (rs_count state) 1);
  if key_ltb (r_to current) (r_from current) then
    _ ← emit_range_finding page_number R_RangeReversed;
    mret (order, mkRangeState count None)
  else
    _ ← count_owner kind page_number (r_value current);
    _ ← (match neighbor_problem (rs_previous state) current with
         | Some reason => emit_range_finding page_number reason
         | None => mret tt
         end);
    mret (order, mkRangeState count (Some current)).

Fixpoint validate_leaf_cells (kind : ValueKind) (page_number : Z) (cells : list (list Z)) (order : LeafOrder) (state : RangeState)
    : io Context (LeafOrder * RangeState) :=
  match cells with
  | [] => mret (order, state)
  | cell :: cells =>
      '(order, state) ← validate_leaf_cell kind page_number cell order state;
      validate_leaf_cells kind page_number cells order state
  end.

(** [cells.cells()], as the bytes of each cell. *)
Definition cell_list (inspection : LayoutInspection) : list (list Z) := br_bytes <$> layout_cells inspection.

Definition range_validate_leaf (page_number : Z) (inspection : LayoutInspection) (state : RangeState)
    : io Context (option K * RangeState) :=
  kind ← gets (fun c => value_kind (cx_meta c));
  '(order, state) ← validate_leaf_cells kind page_number (cell_list inspection) order_default state;
  mret (lo_first order, state).

Definition read_range_page (page_number : Z) (path : list Z) (depth : nat) : io Context (option (list Z) * list Z) :=
  match path !! depth with
  | None =>
      _ ← emit R_TreeLevelInvalid O_RangeTree (Some page_number) None None;
      mret (None, path)
  | Some _ =>
      let path := <[depth := page_number]> path in
      view ← read_graph_page page_number O_RangeTree (take depth path);
      mret (view, path)
  end.

Definition report_degenerate_root (page_number : Z) (header : Header) (root : bool) : io Context unit :=
  if root && (0 <? h_level header) && (h_item_count header =? 1)
  then emit R_TreeLevelInvalid O_RangeTree (Some page_number) None None
  else mret tt.

Definition range_cell_len (level : Z) : Z := if level =? 0 then record_size (K := K) else branch_size (K := K).

Definition validate_range_page (page_number : Z) (view : list Z) (expected_level : option Z) (root : bool)
    : io Context (option (Header * LayoutInspection)) :=
  header ← slotted_header page_number view O_RangeTree
             (mkTreePageSpec RANGE_BRANCH RANGE_LEAF (family_to_wire (key_family (K := K))) expected_level);
  match header with
  | None => mret None
  | Some header =>
      _ ← report_degenerate_root page_number header root;
      cells ← validate_fixed_cells page_number view O_RangeTree header (range_cell_len (h_level header));
      match cells with
      | None => mret None
      | Some cells => mret (Some (header, cells))
      end
  end.

(** [for cell in cells.cells()] of a branch; [node] validates a child. *)
Section Branch.
Context (node : Z -> option Z -> bool -> list Z -> nat -> RangeState -> io Context (option K * list Z * RangeState)).

Fixpoint branch_cells (page_number level : Z) (cells : list (list Z)) (first previous : option K) (path : list Z) (depth : nat)
    (state : RangeState) : io Context (option K * list Z * RangeState) :=
  match cells with
  | [] => mret (first, path, state)
  | cell :: cells =>
      '(key, child) ← lift (decode_branch cell);
      let first := match first with Some k => Some k | None => Some key end in
      _ ← (if (match previous with Some prior => key_leb key prior | None => false end)
           then emit R_TreeOrderInvalid O_RangeTree (Some page_number) None None else mret tt);
      '(actual, path, state) ← node child (Some (level - 1)) false path (S depth) state;
      _ ← (if (match actual with Some actual => negb (key_eqb actual key) | None => false end)
           then emit R_TreeFenceInvalid O_RangeTree (Some page_number) None None else mret tt);
      branch_cells page_number level cells first (Some key) path depth state
  end.
End Branch.

(** The path has [MAX_TREE_LEVEL + 1] places and a node below it is not read,
    so one round more is enough. *)
Fixpoint range_validate_node (rounds : nat) (page_number : Z) (expected_level : option Z) (root : bool) (path : list Z)
    (depth : nat) (state : RangeState) : io Context (option K * list Z * RangeState) :=
  match rounds with
  | O => lift (Panic "the walk of the range tree does not end")
  | S rounds' =>
      '(view, path) ← read_range_page page_number path depth;
      match view with
      | None => mret (None, path, mkRangeState (rs_count state) None)
      | Some view =>
          sound ← validate_range_page page_number view expected_level root;
          match sound with
          | None => mret (None, path, mkRangeState (rs_count state) None)
          | Some (header, cells) =>
              if h_level header =? 0 then
                '(first, state) ← range_validate_leaf page_number cells state;
                mret (first, path, state)
              else branch_cells (range_validate_node rounds') page_number (h_level header) (cell_list cells) None None path depth state
          end
      end
  end.

Definition PATH_LEN : nat := Z.to_nat (MAX_TREE_LEVEL + 1).

Definition validate_family : io Context Z :=
  root ← gets (fun c => range_root (cx_meta c));
  '(_, _, state) ← range_validate_node (S PATH_LEN) root None true (replicate PATH_LEN 0) 0 (mkRangeState 0 None);
  mret (rs_count state).
End Ranges.

Definition count_mismatch : io Context unit := emit R_RootCountInvalid O_RangeTree None None None.

Definition range_validate : io Context unit :=
  meta ← gets cx_meta;
  if range_root meta =? 0 then
    if negb (range_record_count meta =? 0) then count_mismatch else mret tt
  else
    count ← (match address_family meta with
             | Ipv4 => validate_family (K := Ipv4Key)
             | Ipv6 => validate_family (K := Ipv6Key)
             end);
    if negb (count =? range_record_count meta) then count_mismatch else mret tt.
End Walk.
#[global] Arguments RangeState : clear implicits.
#[global] Arguments LeafOrder : clear implicits.
