(* ===== verification/ValidationFacts.v ===== *)
(** * What a validation without findings proves

    A validation of the range tree that ends without having reported anything
    has walked a well-formed B+tree: the pages below the root hold a canonical
    list of records, and their number is the one of the meta page.  The walk
    trusts nothing: the pages are any byte strings. *)

From stdpp Require Import base tactics numbers list strings sorting.
From Stdlib Require Import ZArith Lia.
From S2P Require Import Prelude Errors Bytes Cardinality Key Codec PageHeader SlottedPage SlottedFacts SlottedTheorems LayoutFacts Checksum Contract Machine Mapping Classify TreeInterface RangeMap TreePage TreeQuery TreeFacts OwnerTable Validation.

#[local] Open Scope string_scope.
#[local] Open Scope list_scope.
#[local] Open Scope Z_scope.

(** ** An inspected page *)

Lemma inspect_header_identity p h sel branch leaf aux expected : page_ok p ->
  inspect_tree_header p sel branch leaf aux expected = Ok h ->
  h = header_of p /\ shape_valid h = true /\ 0 <= h_level h <= MAX_TREE_LEVEL
  /\ match expected with Some e => h_level h = e | None => True end
  /\ exists born, identity p (if h_level h =? 0 then leaf else branch) born (h_level h) aux /\ 0 < born <= sel.
Proof.
  intros [Hz Hok] H. unfold inspect_tree_header, raw_header in H.
  rewrite (item_count_page p Hz), (level_page p Hz), (lower_page p Hz), (upper_page p Hz) in H.
  cbn [mbind outcome_bind] in H. fold (header_of p) in H.
  unfold common_valid in H. rewrite Hz, Z.eqb_refl in H. cbn [andb] in H.
  destruct (has_magic p) eqn:Hmagic; [| done]. cbn [andb] in H.
  assert (Hbyte : forall i, 0 <= i < 32 -> byte p i = Some (bget p i)).
  { intros i Hi. unfold byte. rewrite (proj2 (Z.ltb_lt _ _)); [done | page_arith; lia]. }
  rewrite Hbyte in H by (unfold FLAGS; lia).
  destruct (bool_decide (Some (bget p FLAGS) = Some 0)) eqn:Hflags; [| done]. apply bool_decide_eq_true in Hflags.
  rewrite u16_le_page in H by done. cbn [mbind outcome_bind] in H.
  destruct (Z.eqb_spec (u16_at p HEADER_BYTES) (as_u16 SIZE)) as [Hsize | _]; [| done]. cbn [negb] in H.
  unfold born_valid, born_txn in H. rewrite u64_le_page in H by done. cbn [mbind outcome_bind] in H.
  destruct (Z.eqb_spec (u64_at p BORN_TXN) 0) as [_ | Hb0]; [done |]. destruct (Z.leb_spec (u64_at p BORN_TXN) sel) as [Hb1 | _]; [| done].
  cbn [negb andb] in H. unfold tree_kind_valid_at_level, kind_valid in H. rewrite Hbyte in H by (unfold TYPE; lia).
  destruct (bool_decide (Some (bget p TYPE) = _)) eqn:Hty; [| done]. apply bool_decide_eq_true in Hty.
  rewrite u32_le_page in H by done. cbn [mbind outcome_bind] in H.
  destruct (Z.eqb_spec (u32_at p AUX_AT) aux) as [Haux | _]; [| done]. cbn [negb] in H.
  destruct (Z.ltb_spec MAX_TREE_LEVEL (h_level (header_of p))) as [_ | Hlvl]; [done |]. cbn [orb] in H.
  destruct (level_mismatch _ _) eqn:Hmis; [done |]. destruct (shape_valid (header_of p)) eqn:Hshape; [| done].
  cbn [negb] in H. injection H as <-. pose proof (u16_at_range p LEVEL Hok) as Hl.
  split; [done |]. split; [done |]. split; [split; [apply Hl | done] |]. split.
  { unfold level_mismatch in Hmis. destruct expected as [e|]; [| done]. destruct (Z.eqb_spec e (h_level (header_of p))); done. }
  exists (u64_at p BORN_TXN). pose proof (le_val_range _ (bytes_ok_sub p BORN_TXN 8 Hok)) as Hborn. fold (u64_at p BORN_TXN) in Hborn.
  split; [| lia]. unfold has_magic in Hmagic. apply bool_decide_eq_true in Hmagic. rewrite u32_source_page in Hmagic by done.
  split; try done; [| by injection Hty | by injection Hflags].
  change (sub p 0 (Z.of_nat 4) = PAGE_MAGIC). destruct (le_field_total 4 p 0) as [_ <-]; [done | lia | rewrite Hz; unfold PAGE_SIZE; lia |].
  injection Hmagic as Hmagic. unfold u32_at, MAGIC in Hmagic. change (Z.of_nat 4) with 4. by rewrite Hmagic.
Qed.

Lemma inspect_fixed_legible p h len li : page_ok p -> h = header_of p -> inspect_layout p h (Fixed len) = Some li ->
  legible p h (cell_list li) /\ cell_list li <> [] /\ Forall (fun c => bytes_ok c /\ zlen c = len) (cell_list li).
Proof.
  intros Hp Hh H. unfold inspect_layout in H.
  destruct (negb (zlen p =? PAGE_SIZE) || negb (shape_valid h)) eqn:Hguard; [done |].
  apply orb_false_iff in Hguard as [_ Hshape%negb_false_iff].
  unfold shape_valid in Hshape. rewrite !andb_true_iff, negb_true_iff, Z.eqb_neq, Z.eqb_eq, Z.leb_le, Z.ltb_lt in Hshape.
  destruct Hshape as [[[Hcount Hlower] Hroom] Hupper].
  assert (Hcnt : 0 <= h_item_count h) by (subst h; apply (u16_at_range p ITEM_COUNT), Hp).
  destruct (inspect_fixed_extents p h len (replicate 64 0)) as [[used minimum]|] eqn:Hwalk; [| done].
  cbn [mbind option_bind] in H. destruct (negb (minimum =? h_upper h)) eqn:Hmin; [done |]. injection H as <-.
  unfold inspect_fixed_extents in Hwalk. destruct (checked_sub PAGE_SIZE len) as [mx|] eqn:Hmx; [| done].
  unfold checked_sub in Hmx. destruct (Z.leb_spec len PAGE_SIZE) as [Hlen | _]; [| done]. injection Hmx as <-.
  cbn [mbind option_bind] in Hwalk. destruct (fixed_loop_marks _ _ _ _ _ _ _ _ _ Hwalk) as [Hm Hi].
  set (li := mkLayoutInspection _ p h (Fixed len)).
  assert (Hpos : 0 < len).
  { assert (Hne : exts_from p (Fixed len) 0 (Z.to_nat (h_item_count h)) = ext_at p (Fixed len) 0 :: exts_from p (Fixed len) 1 (Z.to_nat (h_item_count h - 1))).
    { rewrite <- (exts_from_S p (Fixed len) 0). f_equal. lia. }
    rewrite Hne in Hm. cbn in Hm. destruct (mark_extent _ _ _) eqn:E; [| done]. unfold mark_extent in E.
    destruct (Z.leb_spec (start p 0 + len) (start p 0)); [done | lia]. }
  assert (Hat : forall i, 0 <= i < h_item_count h -> cnth (cell_list li) i = sub p (start p i) len /\ start p i + len <= PAGE_SIZE /\ h_upper h <= start p i).
  { intros i Hr. destruct (Hi i ltac:(lia)). split; [| lia]. unfold cnth. apply nth_lookup_Some.
    unfold cell_list, layout_cells. rewrite list_lookup_fmap.
    rewrite (list_lookup_fmap (fun k => layout_cell li (Z.of_nat k)) (seq 0 _)), lookup_seq_lt by (cbn; lia). cbn [fmap option_fmap option_map]. f_equal.
    unfold br_bytes, layout_cell. cbn [li li_layout li_page br_source br_at br_len]. by rewrite Nat.add_0_l, Z2Nat.id by lia. }
  assert (Hzlen : zlen (cell_list li) = h_item_count h).
  { unfold zlen, cell_list, layout_cells. rewrite length_fmap, length_map, length_seq. cbn. lia. }
  assert (Hsub : forall i, 0 <= i < h_item_count h -> zlen (sub p (start p i) len) = len).
  { intros i Hr. destruct (Hat i Hr) as (_ & ? & ?). destruct Hp as [Hz _]. apply zlen_sub; page_arith; lia. }
  split; [split; try done |].
  - by rewrite Hzlen.
  - intros i Hr. rewrite Hzlen in Hr. destruct (Hat i Hr) as (-> & ? & ?). rewrite (Hsub i Hr). done.
  - split; [intros E; apply Hcount; by rewrite <- Hzlen, E |]. apply Forall_forall. intros c Hc.
    apply list_elem_of_lookup in Hc as (j & Hj). pose proof (lookup_lt_Some _ _ _ Hj).
    assert (Hr : 0 <= Z.of_nat j < h_item_count h) by (unfold zlen in Hzlen; lia).
    destruct (Hat _ Hr) as (Hc & _ & _). unfold cnth in Hc. rewrite Nat2Z.id, (nth_lookup_Some _ _ _ _ Hj) in Hc. subst c.
    split; [apply bytes_ok_sub, Hp | by apply Hsub].
Qed.

Lemma StronglySorted_lookup_lt {A} (R : A -> A -> Prop) l i j a b : StronglySorted R l ->
  l !! i = Some a -> l !! j = Some b -> (i < j)%nat -> R a b.
Proof.
  intros Hs. revert i j. induction Hs as [|x l Hs IH Hall]; intros i j Ha Hb Hij; [done |].
  destruct j as [|j]; [lia |]. destruct i as [|i]; cbn in Ha, Hb.
  - simplify_eq. rewrite Forall_forall in Hall. apply Hall. by eapply list_elem_of_lookup_2.
  - apply (IH i j); done || lia.
Qed.

(** ** Silence

    Everything the walk does leaves the generation alone and never takes a
    finding back. *)

Definition found (c : Context) : Z := finding_count (cx_progress c).

Record louder (c c' : Context) : Prop := {
  ld_mapping : cx_mapping c' = cx_mapping c;
  ld_meta : cx_meta c' = cx_meta c;
  ld_found : found c <= found c';
}.

#[global] Instance louder_preorder : PreOrder louder.
Proof.
  split; [by intros c; split |]. intros a b c [] []. split; [congruence | congruence | lia].
Qed.

Definition counted (p p' : ValidationProgress) : Prop := finding_count p <= finding_count p'.
#[global] Instance counted_preorder : PreOrder counted.
Proof. unfold counted. split; [intros p; lia | intros a b c; lia]. Qed.

Lemma checked_add_le max a b s : 0 <= b -> checked_add max a b = Some s -> a <= s.
Proof. unfold checked_add. intros Hb H. case_match; simplify_eq. lia. Qed.

Lemma count_finding_keeps r : keeps counted (count_finding r).
Proof.
  intros p. unfold count_finding, gets, modify, lift, mbind, io_bind, counted.
  destruct (checked_add u64_max (finding_count p) 1) as [n|] eqn:E; cbn; [| lia].
  apply checked_add_le in E; [| lia]. by destruct (checked_add _ _ _); cbn.
Qed.

Lemma count_finding_more r p p' : count_finding r p = (p', Ok tt) -> finding_count p < finding_count p'.
Proof.
  unfold count_finding, gets, modify, lift, mbind, io_bind.
  destruct (checked_add u64_max (finding_count p) 1) as [n|] eqn:E; cbn; [| done]. unfold checked_add in E.
  destruct (checked_add _ _ _); cbn; [| done]. intros [= <-]. cbn. case_match; simplify_eq. lia.
Qed.

Lemma count_page_keeps o : keeps counted (count_page o).
Proof.
  unfold count_page. keeps_tac; apply keeps_modify; intros p; unfold counted; cbn; lia.
Qed.
Lemma mark_untraversable_keeps u : keeps counted (mark_untraversable u).
Proof. unfold mark_untraversable. keeps_tac. apply keeps_modify. intros p. unfold counted. cbn. lia. Qed.

Lemma on_progress_keeps {A} (m : io ValidationProgress A) : keeps counted m -> keeps louder (on_progress m).
Proof.
  apply keeps_zoom. intros c p Hp. by split.
Qed.
#[export] Hint Resolve count_finding_keeps count_page_keeps mark_untraversable_keeps on_progress_keeps : keeps.

Section Facts.
Context (env : Surroundings).
Notation emit := (emit env).

Lemma modify_louder f : (forall c, cx_mapping (f c) = cx_mapping c /\ cx_meta (f c) = cx_meta c /\ cx_progress (f c) = cx_progress c) ->
  keeps louder (modify f).
Proof using Type. intros Hf. apply keeps_modify. intros c. destruct (Hf c) as (? & ? & Hp). split; [done | done |]. unfold found. by rewrite Hp. Qed.

Lemma zoom_louder {T A} get set (m : io T A) :
  (forall t c, cx_mapping (set t c) = cx_mapping c /\ cx_meta (set t c) = cx_meta c /\ cx_progress (set t c) = cx_progress c) ->
  keeps louder (zoom get set m).
Proof using Type.
  intros Hf. apply keeps_zoom with (R' := fun _ _ => True); [| done]. intros c t _.
  destruct (Hf t c) as (? & ? & Hp). split; [done | done |]. unfold found. by rewrite Hp.
Qed.

Lemma emit_keeps reason object n bytes fence : keeps louder (emit reason object n bytes fence).
Proof using Type. unfold Validation.emit. keeps_tac. by apply modify_louder. Qed.
Hint Resolve emit_keeps : keeps.

Lemma checkpoint_keeps : keeps louder (checkpoint env).
Proof using Type. unfold checkpoint. keeps_tac. by apply zoom_louder. Qed.
Lemma claim_page_keeps page state : keeps louder (claim page state).
Proof using Type. unfold claim. keeps_tac. by apply modify_louder. Qed.
Hint Resolve checkpoint_keeps claim_page_keeps : keeps.

Lemma require_graph_bounds_keeps n o : keeps louder (require_graph_bounds env n o).
Proof using Type. unfold require_graph_bounds. keeps_tac. Qed.
Lemma claim_graph_page_keeps n o path : keeps louder (claim_graph_page env n o path).
Proof using Type. unfold claim_graph_page. keeps_tac. Qed.
Lemma load_graph_page_keeps n o : keeps louder (load_graph_page env n o).
Proof using Type. unfold load_graph_page. keeps_tac. Qed.
Hint Resolve require_graph_bounds_keeps claim_graph_page_keeps load_graph_page_keeps : keeps.
Lemma read_graph_page_keeps n o path : keeps louder (read_graph_page env n o path).
Proof using Type. unfold read_graph_page. keeps_tac. Qed.
Hint Resolve read_graph_page_keeps : keeps.
Lemma count_membership_owner_keeps id : keeps louder (count_membership_owner env id).
Proof using Type. unfold count_membership_owner, on_memberships, in_memberships. keeps_tac. apply zoom_louder. by intros []. Qed.
Lemma count_structure_range_keeps id : keeps louder (count_structure_range env id).
Proof using Type. unfold count_structure_range, on_structures, in_structures. keeps_tac. apply zoom_louder. by intros []. Qed.
Lemma slotted_header_keeps n view o spec : keeps louder (slotted_header env n view o spec).
Proof using Type. unfold slotted_header. keeps_tac. Qed.
Lemma validate_layout_keeps n view o h layout : keeps louder (validate_layout env n view o h layout).
Proof using Type. unfold validate_layout, invalid_layout. keeps_tac. Qed.
Hint Resolve count_membership_owner_keeps count_structure_range_keeps slotted_header_keeps validate_layout_keeps : keeps.

Section RangeKeeps.
Context {K : Type} `{IpKey K}.
Lemma count_owner_keeps kind n v : keeps louder (count_owner env kind n v).
Proof using Type. unfold count_owner, emit_range_finding. keeps_tac. Qed.
Hint Resolve count_owner_keeps : keeps.
Lemma validate_leaf_cell_keeps kind n cell order (state : RangeState K) :
  keeps louder (validate_leaf_cell env kind n cell order state).
Proof using Type. unfold validate_leaf_cell, emit_range_finding. keeps_tac. Qed.
Hint Resolve validate_leaf_cell_keeps : keeps.
Lemma validate_leaf_cells_keeps kind n cells : forall order (state : RangeState K),
  keeps louder (validate_leaf_cells env kind n cells order state).
Proof using Type. induction cells as [|cell cells IH]; intros order state; cbn [validate_leaf_cells]; keeps_tac. Qed.
Hint Resolve validate_leaf_cells_keeps : keeps.
Lemma range_validate_leaf_keeps n li (state : RangeState K) : keeps louder (range_validate_leaf env n li state).
Proof using Type. unfold range_validate_leaf. keeps_tac. Qed.
Lemma read_range_page_keeps n path depth : keeps louder (read_range_page env n path depth).
Proof using Type. unfold read_range_page. keeps_tac. Qed.
Lemma validate_range_page_keeps n view expected root : keeps louder (validate_range_page (K := K) env n view expected root).
Proof using Type. unfold validate_range_page, report_degenerate_root, validate_fixed_cells. keeps_tac. Qed.
Hint Resolve range_validate_leaf_keeps read_range_page_keeps validate_range_page_keeps : keeps.
Lemma branch_cells_keeps node n level cells : (forall a b c d e (f : RangeState K), keeps louder (node a b c d e f)) ->
  forall first previous path depth state, keeps louder (branch_cells env node n level cells first previous path depth state).
Proof using Type.
  intros Hn. induction cells as [|cell cells IH]; intros first previous path depth state; cbn [branch_cells]; keeps_tac.
Qed.
Lemma range_validate_node_keeps rounds : forall n expected root path depth (state : RangeState K),
  keeps louder (range_validate_node env rounds n expected root path depth state).
Proof using Type.
  induction rounds as [|rounds IH]; intros n expected root path depth state; cbn [range_validate_node]; keeps_tac.
  by apply branch_cells_keeps.
Qed.
Lemma validate_family_keeps : keeps louder (validate_family (K := K) env).
Proof using Type. unfold validate_family. keeps_tac. apply range_validate_node_keeps. Qed.
End RangeKeeps.
Hint Resolve count_owner_keeps validate_leaf_cell_keeps validate_leaf_cells_keeps range_validate_leaf_keeps read_range_page_keeps
  validate_range_page_keeps branch_cells_keeps range_validate_node_keeps validate_family_keeps : keeps.

(** A call that ended well and reported nothing. *)
Definition silent {A} (m : io Context A) (c : Context) (a : A) (c' : Context) : Prop :=
  m c = (c', Ok a) /\ found c' = found c.

Lemma silent_bind {A B} (m : io Context A) (f : A -> io Context B) c b c' :
  keeps louder m -> (forall a, keeps louder (f a)) -> silent (m ≫= f) c b c' ->
  exists a c1, silent m c a c1 /\ (cx_mapping c1 = cx_mapping c /\ cx_meta c1 = cx_meta c) /\ silent (f a) c1 b c'.
Proof using Type.
  intros Hm Hf [E Hn]. apply bind_inv in E as (a & c1 & E1 & E2). exists a, c1.
  destruct (Hm c) as [K1 K2 _]. rewrite E1 in K1, K2.
  pose proof (ld_found _ _ (Hm c)) as H1. rewrite E1 in H1. pose proof (ld_found _ _ (Hf a c1)) as H2. rewrite E2 in H2.
  cbn in *. unfold silent. split; [split; [done | lia] |]. split; [done | split; [done | lia]].
Qed.
Lemma silent_ret {A} (a b : A) c c' : silent (mret a) c b c' -> a = b /\ c' = c.
Proof using Type. intros [[= -> ->] _]. done. Qed.
Lemma silent_gets {A} (f : Context -> A) c b c' : silent (gets f) c b c' -> f c = b /\ c' = c.
Proof using Type. intros [[= -> ->] _]. done. Qed.
Lemma silent_lift {A} (r : Result A) c b c' : silent (lift r) c b c' -> r = Ok b /\ c' = c.
Proof using Type. intros [[= -> ->] _]. done. Qed.
Lemma silent_kept {A} (m : io Context A) c b c' : silent m c b c' -> keeps louder m ->
  cx_mapping c' = cx_mapping c /\ cx_meta c' = cx_meta c.
Proof using Type. intros [E _] Hm. destruct (Hm c) as [H1 H2 _]. by rewrite E in H1, H2. Qed.

Lemma emit_loud reason object n bytes fence c u c' : ~ silent (emit reason object n bytes fence) c u c'.
Proof using Type.
  unfold Validation.emit. intros H. apply silent_bind in H as (a & c1 & [E1 Hn] & _ & _); [| eauto with keeps | intros _; keeps_tac; by apply modify_louder].
  unfold on_progress, zoom in E1. destruct (count_finding reason (cx_progress c)) as [p r] eqn:Ec. injection E1 as <- ->.
  destruct a. apply count_finding_more in Ec. unfold found in *. cbn in *. lia.
Qed.

(** Follow a silent call through its branches. *)
Ltac silent_step :=
  match goal with
  | H : silent (Validation.emit _ _ _ _ _ _) _ _ _ |- _ => by apply emit_loud in H
  | H : silent (mret _) _ _ _ |- _ => apply silent_ret in H as [? ->]; simplify_eq
  | H : silent (gets _) _ _ _ |- _ => apply silent_gets in H as [? ->]; simplify_eq
  | H : silent (lift _) _ _ _ |- _ => apply silent_lift in H as [? ->]; simplify_eq
  | H : silent (_ ≫= _) _ _ _ |- _ =>
      apply silent_bind in H as (? & ? & ? & (? & ?) & ?); [| solve [keeps_tac] | solve [intros; keeps_tac]]
  | H : silent (if ?b then _ else _) _ _ _ |- _ => destruct b eqn:?; simplify_eq
  | H : silent (match ?x with _ => _ end) _ _ _ |- _ => destruct x eqn:?; simplify_eq
  end.
Ltac silently := repeat silent_step.

Lemma require_graph_bounds_silent n o c r c' : silent (require_graph_bounds env n o) c r c' ->
  r = true /\ 2 <= n < page_count (cx_meta c).
Proof using Type. unfold require_graph_bounds. intros H. silently. split; [done |]. unfold page_in_bounds in *. lia. Qed.

Lemma claim_graph_page_silent n o path c r c' : silent (claim_graph_page env n o path) c r c' -> r = true.
Proof using Type. unfold claim_graph_page. intros H. silently; done. Qed.

Lemma load_graph_page_silent n o c r c' : silent (load_graph_page env n o) c r c' ->
  exists view, r = Some view /\ snd (page n (page_count (cx_meta c)) (cx_mapping c)) = Ok view.
Proof using Type.
  unfold load_graph_page. intros H. silently. eexists. split; [done |]. congruence.
Qed.

Lemma read_graph_page_silent n o path c r c' : silent (read_graph_page env n o path) c r c' ->
  2 <= n < page_count (cx_meta c)
  /\ exists view, r = Some view /\ snd (page n (page_count (cx_meta c)) (cx_mapping c)) = Ok view.
Proof using Type.
  unfold read_graph_page. intros H. do 2 silent_step.
  match goal with H : silent (require_graph_bounds _ _ _) _ _ _ |- _ => apply require_graph_bounds_silent in H as [-> Hb] end.
  cbn [negb] in *. silent_step.
  match goal with H : silent (claim_graph_page _ _ _ _) _ _ _ |- _ => apply claim_graph_page_silent in H as -> end.
  cbn [negb] in *.
  match goal with H : silent (load_graph_page _ _ _) _ _ _ |- _ => apply load_graph_page_silent in H as (view & -> & Hv) end.
  split; [congruence |]. exists view. split; [done |]. congruence.
Qed.

(** ** The records in the order of the walk *)

Section Ranges.
Context {K : Type} `{IpKeyLaws K}.
Implicit Types es : list (Range K).

(** Each record is apart from the one before it. *)
Fixpoint linked (p : option (Range K)) es : Prop :=
  match es with
  | [] => True
  | e :: es => match p with Some p => apart p e | None => True end /\ linked (Some e) es
  end.
Definition final (p : option (Range K)) es : option (Range K) :=
  match last es with Some e => Some e | None => p end.
Definition before_ok (p : option (Range K)) : Prop := match p with Some p => range_ok p | None => True end.

Lemma final_cons p e es : final p (e :: es) = final (Some e) es.
Proof using Type. unfold final. rewrite last_cons. by destruct (last es). Qed.
Lemma final_app es es' : forall p, final p (es ++ es') = final (final p es) es'.
Proof using Type. induction es as [|e es IH]; intros p; [done |]. rewrite <- app_comm_cons, !final_cons. apply IH. Qed.
Lemma linked_app es es' : forall p, linked p (es ++ es') <-> linked p es /\ linked (final p es) es'.
Proof using Type.
  induction es as [|e es IH]; intros p; [cbn; naive_solver |]. rewrite final_cons. cbn. rewrite IH. naive_solver.
Qed.
Lemma final_ok p es : before_ok p -> Forall range_ok es -> before_ok (final p es).
Proof using Type.
  intros Hp Hes. unfold final. destruct (last es) as [e|] eqn:E; [| done]. cbn.
  rewrite Forall_forall in Hes. apply Hes. by eapply last_Some_elem_of.
Qed.

Lemma linked_apart es : forall q, linked (Some q) es -> range_ok q -> Forall range_ok es ->
  StronglySorted apart es /\ Forall (apart q) es.
Proof using Type.
  induction es as [|e es IH]; intros q; cbn; [intros; split; constructor |].
  intros [Hq Hl] Hok Hes. inversion Hes as [|? ? He Hes']; subst. destruct (IH e Hl He Hes') as [Hs Hall].
  split; [by constructor |]. constructor; [done |]. eapply Forall_impl; [exact Hall |]. intros x Hx.
  pose proof (range_ok_num e He). unfold apart in *. lia.
Qed.

Lemma linked_canonical es : linked None es -> Forall range_ok es -> sp_sorted rf es /\ canonical es.
Proof using Type.
  intros Hl Hes. assert (Hs : StronglySorted apart es).
  { destruct es as [|e es]; [constructor |]. cbn in Hl. destruct Hl as [_ Hl]. inversion Hes; subst.
    destruct (linked_apart es e) as [? ?]; [done..|]. by constructor. }
  split; [| split].
  - clear Hl. unfold sp_sorted. induction Hs as [|e es Hs IH Hall]; [constructor |]. inversion Hes as [|? ? He Hes']; subst.
    constructor; [by apply IH |]. eapply Forall_impl; [exact Hall |]. intros x [Hx _]. pose proof (range_ok_num e He). lia.
  - by rewrite Forall_forall in Hes.
  - intros a b Ha Hb Hab. rewrite Forall_forall in Hes. apply list_elem_of_lookup in Ha as (i & Hi), Hb as (j & Hj).
    pose proof (range_ok_num a (Hes a ltac:(by eapply list_elem_of_lookup_2))).
    pose proof (range_ok_num b (Hes b ltac:(by eapply list_elem_of_lookup_2))).
    destruct (Nat.lt_total i j) as [Hlt | [-> | Hlt]]; [by eapply StronglySorted_lookup_lt | simplify_eq; lia |].
    pose proof (StronglySorted_lookup_lt apart es j i b a Hs Hj Hi Hlt) as [? _]. lia.
Qed.

Lemma neighbor_apart p e : before_ok p -> range_ok e -> neighbor_problem p e = None ->
  match p with Some p => apart p e | None => True end.
Proof using Type*.
  destruct p as [p|]; [| done]. cbn. intros Hp He. destruct Hp as (Hpf & Hpt & Hple & _), He as (Hef & Het & Hele & _).
  rewrite key_leb_num by done. destruct (Z.leb_spec (key_num (r_from e)) (key_num (r_to p))) as [|Hlt]; [done |].
  pose proof (checked_next_num _ Hpt) as Hn. unfold apart, rf, rt. destruct (checked_next (r_to p)) as [k|].
  - destruct Hn as [Hk Hnum]. rewrite key_eqb_num, Hnum by done. intros Hnone. split; [done |]. intros Hadj.
    rewrite Hadj, Z.eqb_refl in Hnone. cbn in Hnone. by destruct (Z.eqb_spec (r_value p) (r_value e)).
  - pose proof (key_num_range _ Hef). intros _. split; [done |]. lia.
Qed.

Lemma leaf_cell_silent kind n cell order (state : RangeState K) c res c' :
  bytes_ok cell -> zlen cell = record_size (K := K) -> before_ok (rs_previous state) ->
  silent (validate_leaf_cell env kind n cell order state) c res c' ->
  exists e, cell = range_bytes e /\ range_ok e
    /\ match rs_previous state with Some p => apart p e | None => True end
    /\ lo_first (fst res) = (match lo_first order with Some k => Some k | None => Some (r_from e) end)
    /\ snd res = mkRangeState (rs_count state + 1) (Some e).
Proof using Type*.
  intros Hb Hz Hp Hs. destruct (decode_fields_total (K := K) cell Hb Hz) as (e & Ed & Hf & Ht & Hv & Ec).
  unfold validate_leaf_cell, read_range_cell, emit_range_finding, observe in Hs. silently.
  match goal with E : decode_fields _ = Ok ?x |- _ => assert (x = e) as -> by congruence end.
  match goal with E : key_ltb _ _ = false |- _ => rewrite key_ltb_num in E by done; apply Z.ltb_ge in E end.
  match goal with E : uadd _ _ _ = Ok _ |- _ => unfold uadd in E; case_match; simplify_eq end.
  assert (Hok : range_ok e) by (split; [done | split; [done | split; [done | done]]]).
  exists e. split; [done |]. split; [done |]. split; [by apply neighbor_apart | done].
Qed.

Definition cells_of (len : Z) (cells : list (list Z)) : Prop := Forall (fun c => bytes_ok c /\ zlen c = len) cells.

(** What the walk reports of the records it has seen. *)
Record seen_records (p : option (Range K)) (count : Z) es (state : RangeState K) : Prop := {
  sn_ok : Forall range_ok es;
  sn_linked : linked p es;
  sn_count : rs_count state = count + zlen es;
  sn_last : rs_previous state = final p es;
}.

Lemma seen_nil state : seen_records (rs_previous state) (rs_count state) [] state.
Proof using Type. split; [by apply Forall_nil | done | by rewrite zlen_nil, Z.add_0_r | done]. Qed.
Lemma seen_app p count es state es' state' : seen_records p count es state ->
  seen_records (rs_previous state) (rs_count state) es' state' -> seen_records p count (es ++ es') state'.
Proof using Type.
  intros [O1 L1 C1 F1] [O2 L2 C2 F2]. rewrite F1 in L2, F2. rewrite C1 in C2. split.
  - by apply Forall_app.
  - by apply linked_app.
  - rewrite zlen_app. lia.
  - by rewrite final_app.
Qed.
Lemma seen_before p count es state : before_ok p -> seen_records p count es state -> before_ok (rs_previous state).
Proof using Type. intros Hp [? ? ? ->]. by apply final_ok. Qed.

Lemma leaf_cells_silent kind n cells : forall order (state : RangeState K) c res c',
  cells_of (record_size (K := K)) cells -> before_ok (rs_previous state) ->
  silent (validate_leaf_cells env kind n cells order state) c res c' ->
  exists es, cells = range_bytes <$> es /\ seen_records (rs_previous state) (rs_count state) es (snd res)
    /\ lo_first (fst res) = (match lo_first order with Some k => Some k | None => r_from <$> head es end).
Proof using Type*.
  induction cells as [|cell cells IH]; intros order state c res c' Hc Hp Hs; cbn [validate_leaf_cells] in Hs.
  { silently. exists []. split; [done |]. split; [apply seen_nil |]. cbn. by destruct (lo_first order). }
  inversion Hc as [|? ? [Hb Hz] Hc']; subst. do 2 silent_step.
  match goal with E : silent (validate_leaf_cell _ _ _ _ _ _) _ _ _ |- _ =>
    destruct (leaf_cell_silent _ _ _ _ _ _ _ _ Hb Hz Hp E) as (e & -> & He & Hap & Hfirst & Hst) end. cbn [fst snd] in *. subst.
  match goal with E : silent (validate_leaf_cells _ _ _ _ _ _) _ _ _ |- _ =>
    apply IH in E as (es & -> & Hseen & Hlo); [| done | exact He] end. cbn [rs_previous rs_count] in *.
  exists (e :: es). split; [done |]. split; [| rewrite Hlo, Hfirst; by destruct (lo_first order)].
  apply (seen_app _ _ [e] (mkRangeState (rs_count state + 1) (Some e)) es); [| done].
  split; [by constructor | done | done | by rewrite final_cons].
Qed.

(** ** The tree below a page *)

Section Tree.
Context (mapping : Mapping) (meta : MetaV4).
Context (Hpages : forall n, page_ok (read_page (map_os mapping) n)).
Notation g := (mkGeneration mapping meta).
Notation tree_at := (tree_at (Key := K) (Leaf := Range K) g).

Definition on_generation (c : Context) : Prop := cx_mapping c = mapping /\ cx_meta c = meta.

Lemma page_view_ok n view : snd (page n (page_count meta) mapping) = Ok view -> page_ok view.
Proof using Hpages.
  destruct (page n (page_count meta) mapping) as [m r] eqn:E. cbn. intros ->. unfold page, raw in E.
  apply bind_inv in E as (? & ? & [= <- <-] & E). apply bind_inv in E as (? & ? & [= <- _] & E).
  apply bind_inv in E as (? & ? & [= <- <-] & E). apply bind_inv in E as (? & ? & [= <- _] & E).
  apply bind_inv in E as (? & ? & E1 & E). apply bind_inv in E1 as (? & ? & [= <- <-] & [= <- _]).
  injection E as <- <-. apply Hpages.
Qed.

Lemma validate_range_page_silent n view expected root c r c' : page_ok view -> on_generation c ->
  silent (validate_range_page (K := K) env n view expected root) c r c' ->
  exists h li, r = Some (h, li) /\ legible view h (cell_list li) /\ cell_list li <> []
    /\ cells_of (range_cell_len (K := K) (h_level h)) (cell_list li) /\ 0 <= h_level h <= MAX_TREE_LEVEL
    /\ match expected with Some e => h_level h = e | None => True end
    /\ exists born, identity view (page_type_of (Key := K) (Leaf := Range K) (h_level h)) born (h_level h) (AUX (Key := K) (Leaf := Range K))
         /\ 0 < born <= txn_id meta.
Proof using Type.
  intros Hp [_ Hm] Hs. unfold validate_range_page, validate_fixed_cells, validate_layout, invalid_layout, slotted_header, report_degenerate_root in Hs.
  silently.
  match goal with E : inspect_tree_header _ _ _ _ _ _ = Ok ?h |- _ => destruct (inspect_header_identity _ _ _ _ _ _ _ Hp E) as (Hh & Hshape & Hl & Hexp & Hid) end.
  match goal with E : inspect_layout _ _ _ = Some ?li |- _ => destruct (inspect_fixed_legible _ _ _ _ Hp Hh E) as (Hleg & Hne & Hc) end.
  eexists _, _. split; [done |]. split_and!; try done; lia.
Qed.

(** What a silent walk from page [n] has found. *)
Definition walked (n : Z) (expected : option Z) (p : option (Range K)) (count : Z) (first : option K) (state : RangeState K) : Prop :=
  exists (level : nat) es, tree_at level n es /\ Z.of_nat level <= MAX_TREE_LEVEL
    /\ match expected with Some e => Z.of_nat level = e | None => True end
    /\ 2 <= n < page_count meta /\ es <> [] /\ first = (r_from <$> head es) /\ seen_records p count es state.

Lemma decode_fence cell k child : bytes_ok cell -> zlen cell = branch_size (K := K) -> decode_branch cell = Ok (k, child) ->
  key_ok k /\ 0 <= child <= u32_max /\ cell = key_bytes k ++ le_bytes 4 child.
Proof using Type.
  intros Hb Hz Hd. destruct (decode_branch_total cell Hb Hz) as (k' & child' & Hd' & ? & ? & ?).
  rewrite Hd in Hd'. injection Hd' as -> ->. done.
Qed.

Section Branch.
Context (node : Z -> option Z -> bool -> list Z -> nat -> RangeState K -> io Context (option K * list Z * RangeState K)).
Context (Hkeeps : forall a b c d e f, keeps louder (node a b c d e f)).
Context (Hnode : forall n expected root path depth state c first path' state' c',
  on_generation c -> before_ok (rs_previous state) ->
  silent (node n expected root path depth state) c (first, path', state') c' ->
  walked n expected (rs_previous state) (rs_count state) first state').

Lemma branch_cells_silent n (l : nat) cells : forall first previous path depth (state : RangeState K) c res c',
  cells_of (branch_size (K := K)) cells -> on_generation c -> before_ok (rs_previous state) ->
  silent (branch_cells env node n (Z.of_nat (S l)) cells first previous path depth state) c res c' ->
  exists kids, Forall2 (fence_cell (Key := K)) cells kids /\ Forall (child_ok g l) kids
    /\ seen_records (rs_previous state) (rs_count state) (records kids) (snd res)
    /\ fst (fst res) = (match first with Some k => Some k | None => r_from <$> head (records kids) end).
Proof using Hnode Hkeeps.
  induction cells as [|cell cells IH]; intros first previous path depth state c res c' Hc Hg Hp Hs; cbn [branch_cells] in Hs.
  { silently. exists []. split; [constructor |]. split; [constructor |].
    split; [apply seen_nil |]. cbn. by destruct first. }
  inversion Hc as [|? ? [Hb Hz] Hc']; subst. silently.
  match goal with E : decode_branch _ = Ok (?key, ?child) |- _ => rename key into k, child into m;
    destruct (decode_fence _ _ _ Hb Hz E) as (Hk & Hm & ->) end.
  match goal with E : silent (node _ _ _ _ _ _) _ _ _ |- _ =>
    destruct (Hnode _ _ _ _ _ _ _ _ _ _ _ Hg Hp E) as (lv & es & Ht & Hlv & Hexp & Hn & Hne & -> & Hseen) end.
  assert (lv = l) as -> by lia. destruct es as [|e es]; [done |]. cbn [head fmap option_fmap option_map] in *.
  pose proof (sn_ok _ _ _ _ Hseen) as He. inversion He as [|? ? (Hef & _) _]; subst.
  match goal with E : negb (key_eqb _ _) = false |- _ => apply negb_false_iff, key_eqb_eq in E; [| done | done] end. subst k.
  match goal with E : silent (branch_cells _ _ _ _ _ _ _ _ _ _) _ _ _ |- _ =>
    apply IH in E as (kids & Hf & Hk' & Hseen' & Hfst); [| done | by split; destruct Hg; congruence | by eapply seen_before] end.
  exists ((m, e :: es) :: kids). split; [constructor; [| done]; exists (r_from e); split; [by exists e, es | done] |].
  split; [constructor; [split; [exact Hn | split; [apply Hm | exact Ht]] | done] |].
  split; [by eapply (seen_app _ _ (e :: es)) |]. rewrite Hfst. by destruct first.
Qed.
End Branch.

Lemma leaf_walked n li view h expected (state : RangeState K) c first state' c' :
  node (Key := K) (Leaf := Range K) g n (h_level h) (cell_list li) view h -> cells_of (range_cell_len (K := K) (h_level h)) (cell_list li) ->
  match expected with Some e => h_level h = e | None => True end -> 2 <= n < page_count meta -> (h_level h =? 0) = true ->
  before_ok (rs_previous state) -> silent (range_validate_leaf env n li state) c (first, state') c' ->
  walked n expected (rs_previous state) (rs_count state) first state'.
Proof using Type.
  intros Hnd Hc Hexp Hn Hl%Z.eqb_eq Hp Hs. unfold range_validate_leaf in Hs. silently. rewrite Hl in *.
  match goal with E : silent (validate_leaf_cells _ _ _ _ _ _) _ _ _ |- _ =>
    apply leaf_cells_silent in E as (es & Hes & Hseen & Hfirst); [| done | done] end. cbn [fst snd] in *.
  exists 0%nat, es. split.
  { cbn. exists view, h, (cell_list li). split; [done |]. split; [done | apply (sn_ok _ _ _ _ Hseen)]. }
  split; [unfold MAX_TREE_LEVEL; lia |]. split; [by destruct expected |]. split; [done |].
  split; [intros ->; apply (nd_cells _ _ _ _ _ _ Hnd); by rewrite Hes | done].
Qed.

Lemma branch_walked rounds n li view h expected path depth (state : RangeState K) c first path' state' c' :
  (forall n expected root path depth (state : RangeState K) c first path' state' c',
    on_generation c -> before_ok (rs_previous state) ->
    silent (range_validate_node env rounds n expected root path depth state) c (first, path', state') c' ->
    walked n expected (rs_previous state) (rs_count state) first state') ->
  node (Key := K) (Leaf := Range K) g n (h_level h) (cell_list li) view h -> cells_of (range_cell_len (K := K) (h_level h)) (cell_list li) ->
  match expected with Some e => h_level h = e | None => True end -> 2 <= n < page_count meta -> (h_level h =? 0) = false ->
  on_generation c -> before_ok (rs_previous state) ->
  silent (branch_cells env (range_validate_node env rounds) n (h_level h) (cell_list li) None None path depth state) c (first, path', state') c' ->
  walked n expected (rs_previous state) (rs_count state) first state'.
Proof using Type.
  intros IH Hnd Hc Hexp Hn Hl Hg Hp Hs. pose proof (nd_height _ _ _ _ _ _ Hnd) as Hh. unfold range_cell_len in Hc. rewrite Hl in Hc.
  apply Z.eqb_neq in Hl. assert (Hlv : h_level h = Z.of_nat (S (Z.to_nat (h_level h - 1)))) by lia.
  set (l := Z.to_nat (h_level h - 1)) in *. rewrite Hlv in Hs.
  apply branch_cells_silent in Hs as (kids & Hf & Hk & Hseen & Hfirst); [| by intros; apply range_validate_node_keeps | done..].
  cbn [fst snd] in *. exists (S l), (records kids). split.
  { cbn. exists view, h, (cell_list li). rewrite <- Hlv. split; [done |]. by exists kids. }
  split; [lia |]. split; [destruct expected; [congruence | done] |]. split; [done |]. split; [| done].
  destruct Hf as [|cell kid cells kids (key & (e & rest & Hkid & _) & _) _]; [by destruct (nd_cells _ _ _ _ _ _ Hnd) |].
  rewrite records_cons, Hkid. done.
Qed.

Lemma node_silent rounds : forall n expected root path depth (state : RangeState K) c first path' state' c',
  on_generation c -> before_ok (rs_previous state) ->
  silent (range_validate_node env rounds n expected root path depth state) c (first, path', state') c' ->
  walked n expected (rs_previous state) (rs_count state) first state'.
Proof using Type* Hpages.
  induction rounds as [|rounds IH]; intros n expected root path depth state c first path' state' c' Hg Hp Hs;
    cbn [range_validate_node] in Hs; [by silently |].
  unfold read_range_page in Hs. silently.
  all: match goal with E : silent (read_graph_page _ _ _ _) _ _ _ |- _ => apply read_graph_page_silent in E as (Hn & view & ? & Hv) end; simplify_eq.
  all: destruct Hg as [Hg1 Hg2]; rewrite Hg1, Hg2 in Hv; rewrite Hg2 in Hn; pose proof (page_view_ok _ _ Hv) as Hview.
  all: match goal with E : silent (validate_range_page _ _ _ _ _) _ _ _ |- _ =>
    apply validate_range_page_silent in E as (h' & li & ? & Hleg & Hne & Hcells & Hlvl & Hexp & Hid); [| done | by split; congruence] end; simplify_eq.
  all: assert (Hnd : node (Key := K) (Leaf := Range K) g n (h_level h') (cell_list li) view h')
    by (split; try done; intros A f; cbn [view_page Generation_PageSource g_meta g_mapping]; by rewrite Hv).
  - by eapply leaf_walked.
  - eapply branch_walked; [exact IH | exact Hnd | done | done | done | done | | done | eassumption]. by split; congruence.
Qed.

(** The range tree of a generation: canonical, and as large as it says. *)
Definition sound_ranges : Prop := exists es : list (Range K),
  tree_holds (Key := K) g (range_root meta) es /\ canonical es /\ zlen es = range_record_count meta.

Lemma sound_family c count c' : on_generation c -> silent (validate_family (K := K) env) c count c' -> range_root meta <> 0 ->
  count = range_record_count meta -> sound_ranges.
Proof using Type* Hpages.
  intros Hg Hs Hr Hcount. unfold validate_family in Hs. silently.
  match goal with E : silent (range_validate_node _ _ _ _ _ _ _ _) _ _ _ |- _ => apply node_silent in E; [| done | done] end.
  destruct Hg as [_ Hg]. rewrite Hg in *.
  match goal with E : walked _ _ _ _ _ _ |- _ => destruct E as (level & es & Ht & Hl & _ & Hn & _ & _ & [Hok Hlink Hcnt _]) end.
  cbn [rs_previous rs_count] in *. destruct (linked_canonical es Hlink Hok) as [Hsort Hcan].
  exists es. split; [| split; [done | lia]]. split; [exact Hsort |]. right. split; [exact Hn |]. by exists level.
Qed.

Lemma sound_empty : range_root meta = 0 -> range_record_count meta = 0 -> sound_ranges.
Proof using Type.
  intros Hr Hc. exists []. split; [split; [constructor | by left] |]. split; [| by rewrite Hc].
  split; [intros r Hx | intros a b Hx]; by apply elem_of_nil in Hx.
Qed.
End Tree.
End Ranges.

(** C2: A validation of the range tree of any file that ends without an error and without a
    finding has proved the tree sound: the pages below the root form a B+tree
    over a canonical list of records (in order, disjoint, no two touching ones
    with one value), every fence is the first key of its child, and there are
    as many records as the meta page says.  Nothing is assumed of the pages
    but that they are pages of bytes. *)
Theorem validation_sound c c' :
  (forall n, page_ok (read_page (map_os (cx_mapping c)) n)) ->
  range_validate env c = (c', Ok tt) -> finding_count (cx_progress c') = finding_count (cx_progress c) ->
  match address_family (cx_meta c) with
  | Ipv4 => sound_ranges (K := Ipv4Key) (cx_mapping c) (cx_meta c)
  | Ipv6 => sound_ranges (K := Ipv6Key) (cx_mapping c) (cx_meta c)
  end.
Proof using Type.
  intros Hpages Hrun Hfound. assert (Hs : silent (range_validate env) c tt c') by done.
  unfold range_validate, count_mismatch in Hs. silently; rewrite ?negb_false_iff, ?Z.eqb_eq, ?Z.eqb_neq in *.
  1: by destruct (address_family (cx_meta c)); apply sound_empty.
  all: eapply sound_family; [exact Hpages | | eassumption | done | done]; by split.
Qed.
End Facts.
