(* ===== verification/ValidationTotal.v ===== *)
(** * A validation always ends

    Whatever the pages of a file hold (cycles, shared pages, cells and levels of
    any kind), the walk over its range tree ends, within the rounds its path
    allows, without a panic: no index leaves its slice and no count its width.
    The counts stay small because every page is claimed before it is read, so
    a page is read at most once. *)

From stdpp Require Import base tactics numbers list strings gmap.
From Stdlib Require Import ZArith Lia.
From S2P Require Import Prelude Errors Bytes Cardinality Key Codec PageHeader SlottedPage SlottedFacts SlottedTheorems LayoutFacts Checksum ChecksumFacts Contract Machine Mapping MappingFacts Classify TreeInterface TreePage TreeQuery TreeFacts CrashExamples TreeRuns OwnerTable Validation ValidationFacts.

#[local] Open Scope string_scope.
#[local] Open Scope list_scope.
#[local] Open Scope Z_scope.

(** ** What the walk relies on *)

Definition owners_ok (t : option Table) (count : Z) : Prop := match t with Some t => table_ok t count | None => True end.

(** The claim bit of page [n]. *)
Definition claimed (cl : Claims) (n : Z) : bool := Z.testbit (bget (cl_bytes cl) (n / 4)) (n mod 4 * 2).
Definition unread (cl : Claims) : Z :=
  zlen (filter (fun k => claimed cl (Z.of_nat k) = false) (seq 0 (Z.to_nat (cl_page_count cl)))).

Definition claims_ok (cl : Claims) : Prop := cl_page_count cl <= 4 * zlen (cl_bytes cl).

Lemma at_index_ok {E} (l : list Z) i : 0 <= i < zlen l -> at_index (E := E) l i = Ok (bget l i).
Proof.
  intros Hi. unfold at_index, bget. destruct (lookup_lt_is_Some_2 l (Z.to_nat i)) as [x Hx]; [unfold zlen in Hi; lia |].
  rewrite Hx. cbn. by rewrite (nth_lookup_Some _ _ _ _ Hx).
Qed.

Lemma claim_place cl n : claims_ok cl -> 0 <= n < cl_page_count cl -> 0 <= n / 4 < zlen (cl_bytes cl) /\ 0 <= n mod 4 < 4.
Proof.
  unfold claims_ok. intros Hl Hn. pose proof (Z.div_mod n 4). pose proof (Z.mod_pos_bound n 4). lia.
Qed.

Lemma claims_get_ok cl n : claims_ok cl -> 0 <= n < cl_page_count cl ->
  exists v, claims_get cl n = Ok v /\ (Z.land v GRAPH =? 0) = negb (claimed cl n).
Proof.
  intros Hok Hn. destruct (claim_place cl n Hok Hn) as [Hi Hm]. unfold claims_get.
  rewrite (proj2 (Z.leb_gt _ _)), at_index_ok by lia. cbn [mbind outcome_bind]. eexists. split; [done |].
  unfold claimed. set (b := bget _ _). rewrite <- Z.land_assoc. change (Z.land 3 GRAPH) with (Z.ones 1).
  rewrite Z.land_ones by lia. change (2 ^ 1) with 2. rewrite <- Z.bit0_mod, Z.shiftr_spec, Z.add_0_l by lia. by destruct (Z.testbit b _).
Qed.

Lemma bget_insert (l : list Z) i x j : 0 <= i < zlen l -> 0 <= j -> bget (<[Z.to_nat i := x]> l) j = if j =? i then x else bget l j.
Proof.
  intros Hi Hj. unfold bget, zlen in *. rewrite !nth_lookup. destruct (Z.eqb_spec j i) as [-> | Hne].
  - by rewrite list_lookup_insert_eq by lia.
  - by rewrite list_lookup_insert_ne by lia.
Qed.

(** The mask of a claim of page [n] has the one bit of its kind. *)
Lemma claim_mask bit k : 0 <= bit <= 1 -> 0 <= k < 4 -> as_u8 (Z.shiftl (2 ^ bit) (k * 2)) = 2 ^ (k * 2 + bit).
Proof.
  intros Hb Hk. assert (bit = 0 \/ bit = 1) as [-> | ->] by lia;
    assert (k = 0 \/ k = 1 \/ k = 2 \/ k = 3) as [-> | [-> | [-> | ->]]] by lia; done.
Qed.

Lemma claims_add_ok cl n bit : claims_ok cl -> 0 <= n < cl_page_count cl -> 0 <= bit <= 1 ->
  exists cl' v, claims_add cl n (2 ^ bit) = Ok (cl', v) /\ claims_ok cl' /\ cl_page_count cl' = cl_page_count cl
    /\ forall m, 0 <= m -> claimed cl' m = claimed cl m || ((m =? n) && (bit =? 0)).
Proof.
  intros Hok Hn Hbit. destruct (claim_place cl n Hok Hn) as [Hi Hm]. destruct (claims_get_ok cl n Hok Hn) as (v & Hv & _).
  unfold claims_add. rewrite Hv. cbn [mbind outcome_bind]. rewrite at_index_ok by done. cbn [mbind outcome_bind].
  eexists _, _. split; [done |]. unfold claims_ok. cbn [cl_bytes cl_page_count].
  split; [unfold zlen; by rewrite length_insert |]. split; [done |]. intros m Hm0. unfold claimed. cbn [cl_bytes].
  assert (0 <= m / 4) by (apply Z.div_pos; lia). rewrite bget_insert by lia. destruct (Z.eqb_spec (m / 4) (n / 4)) as [He | Hne].
  - rewrite He, claim_mask, Z.lor_spec, Z.pow2_bits_eqb by lia. f_equal.
    pose proof (Z.div_mod m 4). pose proof (Z.div_mod n 4). pose proof (Z.mod_pos_bound m 4).
    destruct (Z.eqb_spec (n mod 4 * 2 + bit) (m mod 4 * 2)), (Z.eqb_spec m n), (Z.eqb_spec bit 0); cbn [andb]; lia || done.
  - destruct (Z.eqb_spec m n) as [-> | _]; [done | by rewrite orb_false_r].
Qed.

Section Filters.
Context (P Q : nat -> Prop) `{!forall k, Decision (P k), !forall k, Decision (Q k)}.

Lemma filter_same (l : list nat) : (forall k, k ∈ l -> P k <-> Q k) -> filter P l = filter Q l.
Proof using Type.
  induction l as [|x l IH]; intros Hl; [done |]. rewrite !filter_cons, IH by (intros; apply Hl; by right).
  destruct (decide (P x)) as [Hp | Hp], (decide (Q x)) as [Hq | Hq]; try done; exfalso; pose proof (Hl x ltac:(by left)); naive_solver.
Qed.

(** [Q] is [P] without [k]. *)
Lemma filter_clear k (l : list nat) : NoDup l -> k ∈ l -> P k -> ~ Q k -> (forall j, j <> k -> P j <-> Q j) ->
  zlen (filter P l) = zlen (filter Q l) + 1.
Proof using Type.
  intros Hnd Hk HP HQ Hother. induction Hnd as [|x l Hx Hnd IH]; [by apply elem_of_nil in Hk |].
  destruct (decide (x = k)) as [-> | Hne].
  - rewrite filter_cons_True, filter_cons_False by done. rewrite zlen_cons, (filter_same l); [lia |].
    intros j Hj. apply Hother. congruence.
  - apply elem_of_cons in Hk as [? | Hk]; [congruence |]. specialize (IH Hk). rewrite !filter_cons.
    destruct (decide (P x)) as [Hp | Hp], (decide (Q x)) as [Hq | Hq]; rewrite ?zlen_cons; try lia; exfalso; pose proof (Hother x Hne); naive_solver.
Qed.
End Filters.

Lemma unread_nonneg cl : 0 <= unread cl.
Proof. apply zlen_nonneg. Qed.

Lemma unread_claim cl cl' n : claimed cl n = false -> 0 <= n < cl_page_count cl -> cl_page_count cl' = cl_page_count cl ->
  (forall m, 0 <= m -> claimed cl' m = claimed cl m || ((m =? n) && (0 =? 0))) -> unread cl = unread cl' + 1.
Proof.
  intros Hn Hr Hc Hm. unfold unread. rewrite Hc. apply (filter_clear _ _ (Z.to_nat n)).
  - apply NoDup_ListNoDup, seq_NoDup.
  - apply elem_of_seq. lia.
  - by rewrite Z2Nat.id by lia.
  - rewrite Hm, Z2Nat.id, !Z.eqb_refl, orb_true_r by lia. done.
  - intros j Hj. rewrite Hm by lia. rewrite (proj2 (Z.eqb_neq (Z.of_nat j) n)) by lia. by rewrite orb_false_r.
Qed.

(** Everything but the counters and the sink. *)
Record still (c c' : Context) : Prop := {
  st_mapping : cx_mapping c' = cx_mapping c;
  st_meta : cx_meta c' = cx_meta c;
  st_claims : cx_claims c' = cx_claims c;
  st_memberships : cx_memberships c' = cx_memberships c;
  st_structures : cx_structures c' = cx_structures c;
}.
Lemma still_refl c : still c c.
Proof. by split. Qed.
Lemma still_trans a b c : still a b -> still b c -> still a c.
Proof. intros [] []. split; congruence. Qed.
#[export] Hint Resolve still_refl : core.

Lemma ok_or_calm {A} (o : option A) e t : ok_or o e <> Panic t :> Result A.
Proof. by destruct o. Qed.

Lemma count_finding_safe r p : safe (count_finding r) p (fun _ _ => True).
Proof.
  unfold count_finding. repeat safe_step. apply safe_lift; [apply ok_or_calm |]. intros n _. repeat safe_step.
  apply safe_lift; [apply ok_or_calm |]. intros m _. by repeat safe_step.
Qed.
Lemma count_page_safe o p : safe (count_page o) p (fun _ _ => True).
Proof.
  unfold count_page. repeat safe_step. apply safe_lift; [apply ok_or_calm |]. intros n _. repeat safe_step.
  apply safe_lift; [apply ok_or_calm |]. intros m _. by repeat safe_step.
Qed.
Lemma mark_untraversable_safe u p : safe (mark_untraversable u) p (fun _ _ => True).
Proof. unfold mark_untraversable. repeat safe_step. apply safe_lift; [apply ok_or_calm |]. intros n _. by repeat safe_step. Qed.

Lemma on_progress_safe {A} (m : io ValidationProgress A) c : safe m (cx_progress c) (fun _ _ => True) ->
  safe (on_progress m) c (fun _ c' => still c c').
Proof. intros Hm. apply safe_zoom. eapply safe_mono; [exact Hm |]. by split. Qed.

Section Total.
Context (env : Surroundings).
Context (Hsink : forall given t, sr_sink env given <> Panic t).
Context (Hworker : forall control p t, sr_worker env = Some control -> control p <> Panic t).

Lemma emit_safe reason object n bytes fence c : safe (emit env reason object n bytes fence) c (fun _ c' => still c c').
Proof using Hsink Hworker.
  unfold emit. safe_step. eapply safe_mono; [apply on_progress_safe, count_finding_safe |]. intros ? c1 H1; cbv beta in H1. cbv beta.
  do 2 safe_step. cbv zeta. safe_step. apply safe_lift.
  { intros t. unfold checkpoint_validation_progress. destruct (sr_worker env) eqn:E; [by eapply Hworker | done]. }
  intros _ _. do 4 safe_step. set (fs := cx_delivered _).
  destruct (sr_sink env fs) as [[] | cause | t] eqn:E; [| done | done | by destruct (Hsink fs t)].
  safe_step. eapply still_trans; [exact H1 |]. by split.
Qed.

Lemma checkpoint_safe c : safe (checkpoint env) c (fun _ c' => still c c').
Proof using Type. unfold checkpoint. safe_step. apply safe_zoom. by apply safe_fail_if. Qed.

(** Report and give up on a subgraph. *)
Lemma refuse_safe {A} reason object n bytes fence u (a : A) c :
  safe (_ ← emit env reason object n bytes fence; _ ← on_progress (mark_untraversable u); mret a) c (fun b c' => b = a /\ still c c').
Proof using Hsink Hworker.
  safe_step. eapply safe_mono; [apply emit_safe |]. intros ? c1 H1; cbv beta in H1. safe_step.
  eapply safe_mono; [apply on_progress_safe, mark_untraversable_safe |]. intros ? c2 H2; cbv beta in H2. safe_step. split; [done | by eapply still_trans].
Qed.

Section Reads.
Context (mapping : Mapping) (meta : MetaV4) (room : Z).
Context (Hpages : forall n, page_ok (read_page (map_os mapping) n)) (Hroom : room <= u64_max).

(** The walk has counted [count] records, has [spare] cells of the page at hand
    to go, and every page still unread may bring a page full of them. *)
Record fit (c : Context) (count spare : Z) : Prop := {
  ft_generation : on_generation mapping meta c;
  ft_claims : claims_ok (cx_claims c);
  ft_limit : cl_page_count (cx_claims c) = page_count meta;
  ft_count : 0 <= count;
  ft_spare : 0 <= spare;
  ft_room : count + spare + MAX_SLOT_COUNT * unread (cx_claims c) <= room;
  ft_memberships : owners_ok (cx_memberships c) count;
  ft_structures : owners_ok (cx_structures c) count;
}.

Lemma slots_value : MAX_SLOT_COUNT = 2032.
Proof using Type. done. Qed.

Lemma fit_still c c' count spare : still c c' -> fit c count spare -> fit c' count spare.
Proof using Type.
  intros [S1 S2 S3 S4 S5] [[G1 G2] ? ? ? ? ? ? ?]. split; rewrite ?S3, ?S4, ?S5; try done. by split; congruence.
Qed.
Lemma fit_less c count spare spare' : 0 <= spare' <= spare -> fit c count spare -> fit c count spare'.
Proof using Type. intros Hs [? ? ? ? ? ? ? ?]. split; try done; lia. Qed.

Lemma claim_graph_safe n c count : fit c count 0 -> 0 <= n < page_count meta -> claimed (cx_claims c) n = false ->
  safe (claim n GRAPH) c (fun _ c' => fit c' count MAX_SLOT_COUNT).
Proof using Type.
  intros Hf Hn Hc. unfold claim. do 3 safe_step.
  destruct (claims_add_ok (cx_claims c) n 0) as (cl' & v & Hadd & Hok & Hlim & Hbits); [apply Hf | rewrite (ft_limit _ _ _ Hf); done | done |].
  change (2 ^ 0) with GRAPH in Hadd. rewrite Hadd. apply safe_lift; [done |]. intros [cl1 v1] [= <- <-]. do 3 safe_step.
  pose proof (unread_claim _ _ _ Hc ltac:(by rewrite (ft_limit _ _ _ Hf)) Hlim Hbits) as Hu.
  destruct Hf as [G ? Hl ? ? Hr ? ?]. split; try done; cbn [cx_claims set_claims]; [congruence | ].
  rewrite slots_value in *. lia.
Qed.

Lemma claim_graph_page_safe n object path c count : fit c count 0 -> 0 <= n < page_count meta ->
  safe (claim_graph_page env n object path) c (fun r c' => fit c' count (if r : bool then MAX_SLOT_COUNT else 0)).
Proof using Hsink Hworker.
  intros Hf Hn. unfold claim_graph_page. do 3 safe_step.
  destruct (claims_get_ok (cx_claims c) n) as (v & Hv & Hbit); [apply Hf | rewrite (ft_limit _ _ _ Hf); done |].
  rewrite Hv. apply safe_lift; [done |]. intros ? [= <-]. rewrite Hbit, negb_involutive.
  destruct (claimed (cx_claims c) n) eqn:Hc.
  - eapply safe_mono; [apply refuse_safe; done |]. intros b c1 [-> H1]. by eapply fit_still.
  - safe_step. eapply safe_mono; [by apply claim_graph_safe |]. intros ? c1 H1; cbv beta in H1. safe_step.
    destruct (negb (Z.land v ALLOCATION =? 0)); [| by do 2 safe_step].
    eapply safe_mono; [by apply emit_safe |]. intros ? c2 H2; cbv beta in H2. safe_step. by eapply fit_still.
Qed.

Lemma page_calm n t : snd (page n (page_count meta) mapping) <> Panic t.
Proof using Type.
  assert (Hc : calm (fun _ => True) (page n (page_count meta))).
  { unfold page, raw. calm_tac; try done. intros x. apply page_offset_calm. }
  apply (proj2 (Hc mapping I)).
Qed.

Lemma valid_calm view t : page_ok view -> valid (sr_path env) (sr_contiguous env) view <> Panic t.
Proof using Type.
  intros [Hz _]. unfold valid. rewrite u32_le_page by (done || (unfold OFFSET, PAGE_SIZE; lia)). done.
Qed.

Lemma load_graph_page_safe n object c count spare : fit c count spare ->
  safe (load_graph_page env n object) c (fun r c' => fit c' count spare /\ match r with Some view => page_ok view | None => True end).
Proof using Hsink Hworker Hpages.
  intros Hf. unfold load_graph_page. safe_step. eapply safe_mono; [apply on_progress_safe, count_page_safe |].
  intros ? c1 H1; cbv beta in H1. pose proof (fit_still _ _ _ _ H1 Hf) as Hf1. do 4 safe_step.
  destruct (ft_generation _ _ _ Hf1) as [-> ->].
  destruct (snd (page n (page_count meta) mapping)) as [view | e | t] eqn:Hv; [| | by destruct (page_calm n t)].
  - pose proof (page_view_ok mapping meta Hpages n view Hv) as Hview. safe_step.
    apply safe_lift; [intros t; by apply valid_calm |]. intros sound _. destruct sound; cbn [negb]; [by safe_step |].
    eapply safe_mono; [apply refuse_safe; done |]. intros b c2 [-> H2]. split; [by eapply fit_still | done].
  - eapply safe_mono; [apply refuse_safe; done |]. intros b c2 [-> H2]. split; [by eapply fit_still | done].
Qed.

Lemma read_graph_page_safe n object path c count : fit c count 0 ->
  safe (read_graph_page env n object path) c (fun r c' =>
    match r with Some view => page_ok view /\ fit c' count MAX_SLOT_COUNT | None => fit c' count 0 end).
Proof using Hsink Hworker Hpages.
  intros Hf. unfold read_graph_page. safe_step. eapply safe_mono; [apply checkpoint_safe |].
  intros ? c1 H1; cbv beta in H1. pose proof (fit_still _ _ _ _ H1 Hf) as Hf1. safe_step.
  unfold require_graph_bounds. do 2 safe_step. destruct (page_in_bounds c1 n) eqn:Hb.
  2: { eapply safe_mono; [apply refuse_safe; done |]. intros b c2 [-> H2]. cbn [negb]. safe_step. by eapply fit_still. }
  safe_step. cbn [negb]. unfold page_in_bounds in Hb. rewrite (proj2 (ft_generation _ _ _ Hf1)) in Hb.
  safe_step. eapply safe_mono; [apply claim_graph_page_safe; [exact Hf1 | lia] |]. intros fresh c2 H2; cbv beta in H2.
  destruct fresh; cbn [negb]; [| by safe_step]. eapply safe_mono; [by apply load_graph_page_safe |].
  intros [view|] c3 [H3 H4]; [done |]. eapply fit_less; [| done]. done.
Qed.

Lemma owners_less t count count' : count <= count' -> owners_ok t count -> owners_ok t count'.
Proof using Type. destruct t; [apply table_ok_less | done]. Qed.

(** One more record: its cell is taken off the page. *)
Lemma fit_count c count spare : 0 <= spare -> fit c count (spare + 1) -> fit c (count + 1) spare /\ count < u64_max.
Proof using Hroom.
  intros Hs [? ? ? ? ? Hr ? ?]. pose proof (unread_nonneg (cx_claims c)). rewrite slots_value in Hr.
  split; [| lia]. split; try done; try lia; try (rewrite slots_value; lia); (eapply owners_less; [| done]; lia).
Qed.

Lemma count_membership_owner_safe id c count spare : 0 <= spare -> fit c count (spare + 1) ->
  safe (count_membership_owner env id) c (fun _ c' => fit c' (count + 1) spare).
Proof using Hroom.
  intros Hs Hf. destruct (fit_count c count spare Hs Hf) as [Hf1 Hlt]. unfold count_membership_owner, on_memberships. do 2 safe_step.
  destruct (cx_memberships c) as [t|] eqn:Et; [| by safe_step]. apply safe_zoom.
  pose proof (ft_memberships _ _ _ Hf) as Ht. rewrite Et in Ht.
  eapply safe_mono; [by apply count_range_safe |]. intros r [t' asked] Ht'; cbn in Ht'. destruct Hf1 as [G ? ? ? ? ? _ ?]. by split.
Qed.
Lemma count_structure_range_safe id c count spare : 0 <= spare -> fit c count (spare + 1) ->
  safe (count_structure_range env id) c (fun _ c' => fit c' (count + 1) spare).
Proof using Hroom.
  intros Hs Hf. destruct (fit_count c count spare Hs Hf) as [Hf1 Hlt]. unfold count_structure_range, on_structures. do 2 safe_step.
  destruct (cx_structures c) as [t|] eqn:Et; [| by safe_step]. apply safe_zoom.
  pose proof (ft_structures _ _ _ Hf) as Ht. rewrite Et in Ht.
  eapply safe_mono; [by apply count_range_safe |]. intros r [t' asked] Ht'; cbn in Ht'. destruct Hf1 as [G ? ? ? ? ? ? _]. by split.
Qed.

(** A report leaves the walk where it was. *)
Lemma report_safe reason object n bytes fence c count spare : fit c count spare ->
  safe (emit env reason object n bytes fence) c (fun _ c' => fit c' count spare).
Proof using Hsink Hworker.
  intros Hf. eapply safe_mono; [by apply emit_safe |]. intros ? c1 H1; cbv beta in H1. by eapply fit_still.
Qed.
Lemma report_if_safe (b : bool) reason object n bytes fence c count spare : fit c count spare ->
  safe (if b then emit env reason object n bytes fence else mret tt) c (fun _ c' => fit c' count spare).
Proof using Hsink Hworker. intros Hf. destruct b; [by apply report_safe | by safe_step]. Qed.

Section Ranges.
Context {K : Type} `{IpKeyLaws K}.

Lemma count_owner_safe kind n v c count spare : 0 <= spare -> fit c count (spare + 1) ->
  safe (count_owner env kind n v) c (fun _ c' => fit c' (count + 1) spare).
Proof using Hsink Hworker Hroom.
  intros Hs Hf. destruct (fit_count c count spare Hs Hf) as [Hf1 _]. unfold count_owner, emit_range_finding.
  destruct kind; [by safe_step | |]; (destruct (v =? 0); [by apply report_safe |]); safe_step.
  - eapply safe_mono; [by apply count_membership_owner_safe |]. intros r c1 H1; cbv beta in H1.
    destruct r; try done; by apply report_safe.
  - eapply safe_mono; [by apply count_structure_range_safe |]. intros r c1 H1; cbv beta in H1.
    destruct r; try done; by apply report_safe.
Qed.

Lemma validate_leaf_cell_safe kind n cell order (state : RangeState K) c spare :
  bytes_ok cell -> zlen cell = record_size (K := K) -> 0 <= spare -> fit c (rs_count state) (spare + 1) ->
  safe (validate_leaf_cell env kind n cell order state) c (fun res c' => fit c' (rs_count (snd res)) spare).
Proof using Type*.
  intros Hb Hz Hs Hf. destruct (decode_fields_total (K := K) cell Hb Hz) as (e & Ed & _).
  unfold validate_leaf_cell, read_range_cell, observe, emit_range_finding. safe_step. rewrite Ed. apply safe_lift; [done |]. intros ? [= <-].
  cbv beta iota. safe_step. eapply safe_mono; [by apply report_if_safe |]. intros ? c1 H1; cbv beta in H1.
  destruct (fit_count _ _ _ Hs H1) as [H1' Hlt]. safe_step. unfold uadd. rewrite (proj2 (Z.leb_le _ _)) by lia.
  apply safe_lift; [done |]. intros ? [= <-]. destruct (key_ltb (r_to e) (r_from e)).
  { safe_step. eapply safe_mono; [by apply report_safe |]. intros ? c2 H2; cbv beta in H2. by safe_step. }
  safe_step. eapply safe_mono; [by apply count_owner_safe |]. intros ? c2 H2; cbv beta in H2. safe_step.
  destruct (neighbor_problem _ _); [| by do 2 safe_step].
  eapply safe_mono; [by apply report_safe |]. intros ? c3 H3; cbv beta in H3. by safe_step.
Qed.

Lemma validate_leaf_cells_safe kind n cells : forall order (state : RangeState K) c,
  cells_of (record_size (K := K)) cells -> fit c (rs_count state) (zlen cells) ->
  safe (validate_leaf_cells env kind n cells order state) c (fun res c' => fit c' (rs_count (snd res)) 0).
Proof using Type*.
  induction cells as [|cell cells IH]; intros order state c Hc Hf; cbn [validate_leaf_cells]; [by safe_step |].
  inversion Hc as [|? ? [Hb Hz] Hc']; subst. pose proof (zlen_nonneg cells). rewrite zlen_cons, Z.add_comm in Hf. safe_step.
  eapply safe_mono; [by apply (validate_leaf_cell_safe _ _ _ _ _ _ (zlen cells)) |]. intros [order' state'] c1 Hf1; cbn in Hf1. by apply IH.
Qed.

Lemma inspect_header_calm p sel branch leaf aux expected t : page_ok p -> inspect_tree_header p sel branch leaf aux expected <> Panic t.
Proof using Type.
  intros [Hz _]. unfold inspect_tree_header, raw_header, common_valid, born_valid, born_txn, tree_kind_valid_at_level, kind_valid.
  rewrite (item_count_page p Hz), (level_page p Hz), (lower_page p Hz), (upper_page p Hz), Hz. cbn [mbind outcome_bind].
  rewrite u16_le_page, u64_le_page, u32_le_page by done. by repeat (cbn [mbind outcome_bind]; case_match).
Qed.

Lemma slots_bound p h cells : legible p h cells -> shape_valid h = true -> zlen cells <= MAX_SLOT_COUNT.
Proof using Type.
  intros Hl Hs. unfold shape_valid in Hs. rewrite !andb_true_iff, negb_true_iff, Z.eqb_neq, Z.eqb_eq, Z.leb_le, Z.ltb_lt in Hs.
  rewrite <- (lb_count _ _ _ Hl), slots_value. page_arith. lia.
Qed.

Lemma validate_range_page_safe n view expected root c count spare : page_ok view -> fit c count spare ->
  safe (validate_range_page (K := K) env n view expected root) c (fun r c' => fit c' count spare
    /\ match r with
       | Some (h, li) => cells_of (range_cell_len (K := K) (h_level h)) (cell_list li) /\ zlen (cell_list li) <= MAX_SLOT_COUNT
       | None => True
       end).
Proof using Hsink Hworker.
  intros Hp Hf. unfold validate_range_page, slotted_header, validate_fixed_cells, validate_layout, invalid_layout, report_degenerate_root.
  do 3 safe_step. destruct (inspect_tree_header _ _ _ _ _ _) as [h | problem | t] eqn:Eh; [| | by apply inspect_header_calm in Eh].
  2: { safe_step. eapply safe_mono; [by apply report_safe |]. intros ? c1 H1'; cbv beta in H1'. by do 2 safe_step. }
  destruct (inspect_header_identity _ _ _ _ _ _ _ Hp Eh) as (Hh & Hshape & _). do 2 safe_step.
  eapply safe_mono; [by apply report_if_safe |]. intros ? c1 H1'; cbv beta in H1'. safe_step.
  destruct (inspect_layout view h _) as [li|] eqn:El.
  - destruct (inspect_fixed_legible _ _ _ _ Hp Hh El) as (Hleg & _ & Hcells). safe_step.
    eapply safe_mono; [by apply report_if_safe |]. intros ? c2 H2'; cbv beta in H2'. do 2 safe_step. split; [done |].
    split; [done | by eapply slots_bound].
  - safe_step. eapply safe_mono; [by apply report_safe |]. intros ? c2 H2'; cbv beta in H2'. by do 2 safe_step.
Qed.

Section Branch.
Context (node : Z -> option Z -> bool -> list Z -> nat -> RangeState K -> io Context (option K * list Z * RangeState K)) (depth : nat).
Context (Hnode : forall n expected root path (state : RangeState K) c, length path = PATH_LEN -> fit c (rs_count state) 0 ->
  safe (node n expected root path (S depth) state) c (fun '(_, path', state') c' => length path' = PATH_LEN /\ fit c' (rs_count state') 0)).

Lemma branch_cells_safe n level cells : forall first previous path (state : RangeState K) c,
  cells_of (branch_size (K := K)) cells -> length path = PATH_LEN -> fit c (rs_count state) 0 ->
  safe (branch_cells env node n level cells first previous path depth state) c
    (fun '(_, path', state') c' => length path' = PATH_LEN /\ fit c' (rs_count state') 0).
Proof using Type*.
  induction cells as [|cell cells IH]; intros first previous path state c Hc Hl Hf; cbn [branch_cells]; [by safe_step |].
  inversion Hc as [|? ? [Hb Hz] Hc']; subst. destruct (decode_branch_total cell Hb Hz) as (k & child & Ed & _).
  safe_step. rewrite Ed. apply safe_lift; [done |]. intros ? [= <-]. cbv beta iota. safe_step.
  eapply safe_mono; [by apply report_if_safe |]. intros ? c1 Hf1; cbv beta in Hf1. safe_step.
  eapply safe_mono; [by apply Hnode |]. intros [[actual path'] state'] c2 [Hl2 Hf2]. safe_step.
  eapply safe_mono; [by apply report_if_safe |]. intros ? c3 Hf3; cbv beta in Hf3. by apply IH.
Qed.
End Branch.

Lemma range_validate_node_safe rounds : forall n expected root path depth (state : RangeState K) c,
  (depth <= PATH_LEN)%nat -> (PATH_LEN < depth + rounds)%nat -> length path = PATH_LEN -> fit c (rs_count state) 0 ->
  safe (range_validate_node env rounds n expected root path depth state) c
    (fun '(_, path', state') c' => length path' = PATH_LEN /\ fit c' (rs_count state') 0).
Proof using Type*.
  induction rounds as [|rounds IH]; intros n expected root path depth state c Hd Hr Hl Hf; [lia |]. cbn [range_validate_node].
  safe_step. unfold read_range_page. destruct (path !! depth) as [old|] eqn:Ep.
  2: { safe_step. eapply safe_mono; [by apply report_safe |]. intros ? c1 Hf1; cbv beta in Hf1. by do 2 safe_step. }
  apply lookup_lt_Some in Ep. assert (Hl' : length (<[depth := n]> path) = PATH_LEN) by by rewrite length_insert.
  safe_step. eapply safe_mono; [by apply read_graph_page_safe |]. intros [view|] c1 Hf1; cbv beta iota in Hf1; safe_step; [| by safe_step].
  destruct Hf1 as [Hview Hf1]. safe_step. eapply safe_mono; [by apply validate_range_page_safe |].
  assert (Hdone : forall c count, fit c count MAX_SLOT_COUNT -> fit c count 0) by (intros; eapply fit_less; [| done]; done).
  intros [[h li]|] c2 [Hf2 Hcells]; [| safe_step; split; [done | by apply Hdone]]. destruct Hcells as [Hcells Hcount].
  unfold range_cell_len in Hcells. destruct (h_level h =? 0).
  - safe_step. unfold range_validate_leaf. do 3 safe_step. eapply safe_mono.
    + apply validate_leaf_cells_safe; [done |]. eapply fit_less; [| done]. split; [apply zlen_nonneg | done].
    + intros [order state'] c3 Hf3; cbn in Hf3. by do 2 safe_step.
  - apply branch_cells_safe; [| done | done | by apply Hdone]. intros. apply IH; lia || done.
Qed.

Lemma validate_family_safe c : fit c 0 0 -> safe (validate_family (K := K) env) c (fun _ _ => True).
Proof using Type*.
  intros Hf. unfold validate_family. do 3 safe_step. eapply safe_mono.
  - apply range_validate_node_safe; [lia | lia | by rewrite length_replicate | exact Hf].
  - intros [[? ?] state] c1 _. by safe_step.
Qed.
End Ranges.

(** The pages the allocator holds in reserve are claimed first. *)
Lemma fit_allocation n c count : fit c count 0 -> 0 <= n < page_count meta -> safe (claim n ALLOCATION) c (fun _ c' => fit c' count 0).
Proof using Type.
  intros Hf Hn. unfold claim. do 3 safe_step.
  destruct (claims_add_ok (cx_claims c) n 1) as (cl' & v & Hadd & Hok & Hlim & Hbits); [apply Hf | rewrite (ft_limit _ _ _ Hf); done | done |].
  change (2 ^ 1) with ALLOCATION in Hadd. rewrite Hadd. apply safe_lift; [done |]. intros [cl1 v1] [= <- <-]. do 3 safe_step.
  assert (Hu : unread cl' = unread (cx_claims c)).
  { unfold unread. rewrite Hlim. f_equal. apply filter_same. intros k _. rewrite Hbits by lia. by rewrite andb_false_r, orb_false_r. }
  destruct Hf as [G ? Hl ? ? Hr ? ?]. split; try done; cbn [cx_claims set_claims]; [congruence | by rewrite Hu].
Qed.

Lemma reserve_allocator_pages_safe c : fit c 0 0 -> safe (reserve_allocator_pages env) c (fun _ c' => fit c' 0 0).
Proof using Hsink Hworker.
  intros Hf. unfold reserve_allocator_pages. do 2 safe_step. generalize (allocator_reserve (cx_meta c)). intros pages. revert c Hf.
  induction pages as [|n pages IH]; intros c Hf; cbn [for_each]; [by safe_step |]. safe_step. unfold reserve_allocator_page.
  destruct (n =? 0); [safe_step; by apply IH |]. do 2 safe_step. destruct (page_in_bounds c n) eqn:Hb; cbn [negb].
  - unfold page_in_bounds in Hb. rewrite (proj2 (ft_generation _ _ _ Hf)) in Hb. safe_step.
    eapply safe_mono; [apply fit_allocation; [done | lia] |]. intros v c1 Hf1; cbv beta in Hf1.
    eapply safe_mono; [by apply report_if_safe |]. intros ? c2 Hf2. by apply IH.
  - eapply safe_mono; [by apply report_safe |]. intros ? c1 Hf1. by apply IH.
Qed.

Lemma range_validate_safe c : fit c 0 0 -> safe (range_validate env) c (fun _ _ => True).
Proof using Hsink Hworker Hpages Hroom.
  intros Hf. unfold range_validate, count_mismatch. do 2 safe_step.
  assert (Hrep : forall (b : bool) c1, safe (if b then emit env R_RootCountInvalid O_RangeTree None None None else mret tt) c1 (fun _ _ => True)).
  { intros [] c1; [| by safe_step]. eapply safe_mono; [by apply emit_safe |]. done. }
  destruct (range_root (cx_meta c) =? 0); [apply Hrep |]. safe_step.
  destruct (address_family (cx_meta c)); (eapply safe_mono; [by apply validate_family_safe |]); intros n c1 _; apply Hrep.
Qed.
End Reads.

(** *** A fresh context *)

Lemma table_new_ok entries available t : table_new (sr_grants env) (sr_slot_size env) entries available = Ok t -> table_ok t 0.
Proof using Type.
  unfold table_new. destruct (entries =? 0); [intros [= <-]; by split |].
  match goal with |- context [ok_or ?o (ArithmeticOverflow "validation membership table capacity")] => destruct o as [wanted|] eqn:Ew end; [| done].
  cbn [ok_or mbind outcome_bind].
  assert (Hw : 1 <= wanted).
  { apply bind_Some in Ew as (twice & _ & Ew). unfold checked_next_power_of_two in Ew. cbv zeta in Ew.
    destruct (_ <=? u64_max) in Ew; [injection Ew as <- | done]. destruct (twice <=? 1); [lia |]. pose proof (Z.log2_nonneg (twice - 1)). pose proof (Z.pow_pos_nonneg 2 (Z.log2 (twice - 1) + 1)). lia. }
  destruct (usize_max <? wanted); [done |]. destruct (checked_mul u64_max wanted (sr_slot_size env)) as [bytes|]; [| done]. cbn [ok_or mbind outcome_bind].
  destruct (available <? bytes); [done |]. destruct (sr_grants env bytes); [| done]. cbn [negb].
  unfold usub. rewrite (proj2 (Z.leb_le 1 wanted)) by lia. cbn [mbind outcome_bind]. intros [= <-]. split; cbn [tb_slots tb_mask].
  - intros _. unfold zlen. rewrite length_replicate. lia.
  - apply Forall_replicate. by cbn.
Qed.

Lemma owners_new_ok wanted entries limit used t used' : owners_new env wanted entries limit used = Ok (t, used') -> owners_ok t 0.
Proof using Type.
  unfold owners_new. destruct wanted; [| by intros [= <- _]].
  destruct (table_new _ _ _ _) as [table | |] eqn:Et; [| done | done]. cbn [mbind outcome_bind].
  destruct (checked_add _ _ _); [| done]. intros [= <- _]. by eapply table_new_ok.
Qed.

Lemma context_new_fit mapping meta budget c : 0 <= page_count meta -> context_new env mapping meta budget = Ok c ->
  fit mapping meta (MAX_SLOT_COUNT * page_count meta) c 0 0.
Proof using Type.
  intros Hpc. unfold context_new, claims_new. destruct (checked_add u64_max (page_count meta) 3) as [sum|] eqn:Es; [| done].
  cbn [ok_or mbind outcome_bind]. unfold checked_add in Es. case_match; simplify_eq.
  destruct (_ <? _); [done |]. destruct (_ <? _); [done |]. destruct (sr_grants env _); [| done]. cbn [negb mbind outcome_bind].
  destruct (owners_new _ _ _ _ _) as [[m used] | |] eqn:Em; [| done | done]. cbn [mbind outcome_bind].
  destruct (owners_new _ _ (structure_entry_count meta) _ _) as [[t used'] | |] eqn:Et; [| done | done]. cbn [mbind outcome_bind].
  intros [= <-]. apply owners_new_ok in Em, Et. split; cbn [cx_claims cx_memberships cx_structures cl_page_count]; try done.
  - unfold claims_ok. cbn [cl_page_count cl_bytes]. unfold zlen. rewrite length_replicate.
    pose proof (Z.div_mod (page_count meta + 3) 4). pose proof (Z.mod_pos_bound (page_count meta + 3) 4). lia.
  - rewrite slots_value. unfold unread. cbn [cl_page_count]. unfold zlen.
    match goal with |- context [length (filter ?P ?l)] => pose proof (length_filter P l) as Hl end. rewrite length_seq in Hl. lia.
Qed.
End Total.

(** C9: The validation of the range tree of a file ends, whatever bytes its pages
    hold: from a fresh context, with the allocator's reserve claimed, it returns a
    result or an error and never panics.  It cannot loop on a cyclic tree, no
    index leaves its table and no counter its width. *)
Theorem validation_ends env mapping meta budget c :
  (forall given t, sr_sink env given <> Panic t) ->
  (forall control p t, sr_worker env = Some control -> control p <> Panic t) ->
  (forall n, page_ok (read_page (map_os mapping) n)) -> 0 <= page_count meta <= 2 ^ 32 ->
  context_new env mapping meta budget = Ok c ->
  exists c' r, (_ ← reserve_allocator_pages env; range_validate env) c = (c', r) /\ forall t, r <> Panic t.
Proof.
  intros Hsink Hworker Hpages Hpc Hnew.
  assert (Hs : safe (_ ← reserve_allocator_pages env; range_validate env) c (fun _ _ => True)).
  { safe_step. eapply safe_mono.
    - eapply reserve_allocator_pages_safe; [done | done |]. apply (context_new_fit env mapping meta budget c); [lia | done].
    - intros ? c1 Hf. apply (range_validate_safe env Hsink Hworker mapping meta (MAX_SLOT_COUNT * page_count meta) Hpages); [| exact Hf].
      rewrite slots_value. unfold u64_max. lia. }
  unfold safe, wp, fine in Hs. destruct ((_ ← reserve_allocator_pages env; range_validate env) c) as [c' r] eqn:E.
  exists c', r. split; [done |]. intros t ->. done.
Qed.

(** ** Runs

    The tree of two leaves below a root, sealed; and the same file with a root
    that points back to itself. *)

Definition sealed (p : list Z) : list Z := match seal_mapped crc32c_pointer_table p with Ok p => p | _ => [] end.
Definition mapping_of (root : list Z) : Mapping :=
  mkMapping true true (5 * PAGE_SIZE) ReadOnly None
    (mkMachine (5 * PAGE_SIZE) {[ 2 := sealed (built 0 left_cells); 3 := sealed (built 0 right_cells); 4 := sealed root ]} [] []).
Definition tree_file : Mapping := mapping_of (built 1 root_cells).
Definition looping_file : Mapping := mapping_of (built 1 [fence_of (v4_range 10 20 7) 2; fence_of (v4_range 50 60 7) 4]).

Definition quiet_surroundings : Surroundings :=
  mkSurroundings (fun _ => false) (fun _ => Ok Continue_) None (fun _ => true) 64 TablePath true.
Definition fresh (mapping : Mapping) : Context :=
  mkContext mapping tree_meta (mkClaims [0; 0] 5) None None 100 2 progress_new 0 [].

Lemma page_ok_dec p : (zlen p =? PAGE_SIZE) && forallb (fun b => (0 <=? b) && (b <? 256)) p = true -> page_ok p.
Proof. intros [Hz Hb]%andb_true_iff. split; [by apply Z.eqb_eq | by apply bytes_ok_dec]. Qed.

Lemma mapping_of_ok root : page_ok (sealed root) -> forall n, page_ok (read_page (map_os (mapping_of root)) n).
Proof.
  intros Hr n. unfold read_page. cbn [map_os mapping_of file_pages].
  destruct (decide (n = 2)) as [-> | H2]; [rewrite lookup_insert_eq; apply page_ok_dec; vm_compute; reflexivity |].
  rewrite lookup_insert_ne by congruence.
  destruct (decide (n = 3)) as [-> | H3]; [rewrite lookup_insert_eq; apply page_ok_dec; vm_compute; reflexivity |].
  rewrite lookup_insert_ne by congruence.
  destruct (decide (n = 4)) as [-> | H4]; [rewrite lookup_singleton_eq; exact Hr |].
  rewrite lookup_singleton_ne by congruence. exact zeros_ok.
Qed.

Lemma tree_file_ok n : page_ok (read_page (map_os tree_file) n).
Proof. apply mapping_of_ok, page_ok_dec. vm_compute. reflexivity. Qed.
Lemma looping_file_ok n : page_ok (read_page (map_os looping_file) n).
Proof. apply mapping_of_ok, page_ok_dec. vm_compute. reflexivity. Qed.

(** What the walk of a file reports, and how it ends. *)
Definition report (m : io Context unit) (mapping : Mapping) : list ValidationReason * Result unit :=
  let '(c, r) := m (fresh mapping) in (vf_reason <$> cx_delivered c, r).

Lemma tree_file_silent : report (range_validate quiet_surroundings) tree_file = ([], Ok tt)
  /\ finding_count (cx_progress (fst (range_validate quiet_surroundings (fresh tree_file)))) = 0.
Proof. split; vm_compute; reflexivity. Qed.

Lemma validation_sound_witness : report (range_validate quiet_surroundings) tree_file = ([], Ok tt)
  /\ sound_ranges (K := Ipv4Key) tree_file tree_meta.
Proof.
  destruct tree_file_silent as [Hr Hf]. split; [exact Hr |]. unfold report in Hr.
  destruct (range_validate quiet_surroundings (fresh tree_file)) as [c r] eqn:E. injection Hr as Hd ->.
  exact (validation_sound quiet_surroundings (fresh tree_file) c tree_file_ok E Hf).
Defined.

Lemma validation_ends_witness :
  report (_ ← reserve_allocator_pages quiet_surroundings; range_validate quiet_surroundings) looping_file
    = ([R_TreeCycle; R_RootCountInvalid], Ok tt)
  /\ exists c' r, (_ ← reserve_allocator_pages quiet_surroundings; range_validate quiet_surroundings) (fresh looping_file) = (c', r)
    /\ forall t, r <> Panic t.
Proof.
  split; [vm_compute; reflexivity |].
  apply (validation_ends quiet_surroundings looping_file tree_meta (heap_only 100 1) (fresh looping_file)).
  - done.
  - done.
  - exact looping_file_ok.
  - split; [vm_compute; congruence | vm_compute; congruence].
  - reflexivity.
Defined.
