(* ===== verification/MembershipScope.v ===== *)
(** * Scopes of memberships

    [membership_query/scope.rs], [membership_query/cache.rs],
    [membership_query/decode.rs], [heap.rs] and the names of [feed.rs]: a scope
    resolves feeds to positions, and a scratch decodes the bitmap of a
    membership into the positions of the scope whose feeds it names.  A bitmap
    is read through the interface [MembershipView]. *)

From stdpp Require Import base tactics numbers list strings sorting.
From Stdlib Require Import ZArith Lia.
From S2P Require Import Prelude Errors Machine.

#[local] Open Scope string_scope.
#[local] Open Scope list_scope.
#[local] Open Scope Z_scope.

(** ** Polls of cancellation *)

Section Polls.
Context (cancelled : nat -> bool).
(** [CancellationToken::check]; the state is the number of polls so far. *)
Definition check : io nat unit :=
  stop ← is_cancelled cancelled;
  lift (if stop : bool then Err Cancelled else Ok tt).
(** [if work & 4095 == 4095 { cancellation.check()?; }]. *)
Definition checkpoint_at (work : Z) : io nat unit := if Z.land work 4095 =? 4095 then check else mret tt.
End Polls.

(** [slice[index] = value]. *)
Definition set_index {A} (l : list A) (index : Z) (value : A) : Result (list A) :=
  if (0 <=? index) && (index <? zlen l) then Ok (<[Z.to_nat index := value]> l) else Panic "index out of bounds".
(** [&slice[start..start + length]]. *)
Definition slice {A} (l : list A) (start length : Z) : Result (list A) :=
  if start + length <=? zlen l then Ok (take (Z.to_nat length) (drop (Z.to_nat start) l)) else Panic "range end index out of range".

(** ** Heap *)

Record Heap := mkHeap { remaining : Z; used : Z }.
Definition heap_new (max_heap_bytes : Z) : Heap := mkHeap max_heap_bytes 0.

Definition reserve_bytes (bytes : Z) (label : string) (h : Heap) : Result Heap :=
  remaining' ← ok_or (checked_sub (remaining h) bytes) (BudgetExceeded label);
  used' ← ok_or (checked_add u64_max (used h) bytes) (BudgetExceeded label);
  Ok (mkHeap remaining' used').
Definition charge (size count : Z) (label : string) (h : Heap) : Result Heap :=
  bytes ← ok_or (checked_mul usize_max count size) (BudgetExceeded label);
  remaining' ← ok_or (checked_sub (remaining h) bytes) (BudgetExceeded label);
  used' ← ok_or (checked_add u64_max (used h) bytes) (BudgetExceeded label);
  Ok (mkHeap remaining' used').

(** The allocator: the capacity of a new vector of elements of this size that
    was asked for this many, or nothing when it has no memory. *)
Section Vectors.
Context (grants : Z -> Z -> option Z).
Definition vector (size capacity : Z) (label : string) (h : Heap) : Result Heap :=
  h ← charge size capacity label h;
  granted ← ok_or (grants size capacity) (BudgetExceeded label);
  charge size (saturating_sub granted capacity) label h.
Definition filled {T} (size length : Z) (value : T) (label : string) (h : Heap) : Result (list T * Heap) :=
  h ← vector size length label h;
  Ok (replicate (Z.to_nat length) value, h).
End Vectors.

(** ** Feed names *)

Definition MAX_FEED_NAME : Z := 255.
Record FeedName := mkFeedName { fn_bytes : list Z; fn_len : Z }.
Record FeedEntry := mkFeedEntry { fe_name : FeedName; fe_index : Z }.
#[global] Instance FeedName_eq : EqDecision FeedName.
Proof. solve_decision. Defined.

Definition alphanumeric (byte : Z) : bool := (97 <=? byte) && (byte <=? 122) || (48 <=? byte) && (byte <=? 57).
Definition allowed (byte : Z) : bool := alphanumeric byte || (byte =? 95) || (byte =? 45) || (byte =? 46).
(** [name.split_first()], then [rest.split_last()]. *)
Definition valid (name : list Z) : bool :=
  match name with
  | [] => false
  | first :: rest =>
      if (MAX_FEED_NAME <? zlen name) || negb (alphanumeric first) then false
      else match list.last rest with
           | None => true
           | Some last => alphanumeric last && forallb allowed (removelast rest)
           end
  end.
Definition from_stored (name : list Z) : option FeedName :=
  if valid name then Some (mkFeedName (name ++ replicate (Z.to_nat (MAX_FEED_NAME - zlen name)) 0) (zlen name)) else None.
Definition feed_name_new (name : list Z) : Result FeedName := ok_or (from_stored name) NameInvalid.
(** The bytes of a name inside a byte source. *)
Fixpoint copy_name (rounds : nat) (source : list Z) (at_ index len : Z) : option (list Z) :=
  match rounds with
  | O => Some []
  | S rounds =>
      byte ← source !! Z.to_nat (at_ + index);
      if negb (index =? 0) && negb (index + 1 =? len) && negb (allowed byte) then None
      else rest ← copy_name rounds source at_ (index + 1) len; Some (byte :: rest)
  end.
Definition from_source (source : list Z) (at_ len : Z) : option FeedName :=
  if (len =? 0) || (MAX_FEED_NAME <? len) then None
  else
    past ← checked_add usize_max at_ len;
    if zlen source <? past then None
    else
      first ← source !! Z.to_nat at_;
      last ← source !! Z.to_nat (at_ + len - 1);
      if negb (alphanumeric first) || negb (alphanumeric last) then None
      else
        bytes ← copy_name (Z.to_nat len) source at_ 0 len;
        Some (mkFeedName (bytes ++ replicate (Z.to_nat (MAX_FEED_NAME - len)) 0) len).
Definition as_bytes (n : FeedName) : list Z := take (Z.to_nat (fn_len n)) (fn_bytes n).

(** The derived order: the arrays of bytes, then the lengths. *)
Fixpoint bytes_compare (a b : list Z) : comparison :=
  match a, b with
  | [], [] => Eq
  | [], _ :: _ => Lt
  | _ :: _, [] => Gt
  | x :: a, y :: b => match x ?= y with Eq => bytes_compare a b | c => c end
  end.
Definition name_compare (a b : FeedName) : comparison :=
  match bytes_compare (fn_bytes a) (fn_bytes b) with Eq => fn_len a ?= fn_len b | c => c end.
Definition name_le (a b : FeedName) : Prop := name_compare a b <> Gt.
#[global] Instance name_le_dec a b : Decision (name_le a b).
Proof. unfold name_le. apply _. Defined.

(** ** Positions of a scope *)

Record IndexSlot := mkIndexSlot { is_key : Z; is_value : Z }.
Inductive IndexMap := IndexEmpty | Dense (positions : list Z) | Sparse (slots : list IndexSlot) (mask : Z).

Definition position_value (position : Z) : Result Z :=
  ok_or (if position <=? u32_max then checked_add u32_max position 1 else None) (BudgetExceeded "membership scope exceeds u32").
Definition index_hash (index : Z) : Z := (index * 2654435761) mod 2 ^ 32.

Section Index.
Context (cancelled : nat -> bool) (grants : Z -> Z -> option Z).

Fixpoint fill_dense (entries : list FeedEntry) (position : Z) (positions : list Z) : io nat (list Z) :=
  match entries with
  | [] => mret positions
  | entry :: entries =>
      _ ← checkpoint_at cancelled position;
      value ← lift (position_value position);
      positions ← lift (set_index positions (fe_index entry) value);
      fill_dense entries (position + 1) positions
  end.

(** The loop that looks for a free slot; [rounds] bounds it. *)
Fixpoint place (rounds : nat) (entry : FeedEntry) (position probes slot mask : Z) (slots : list IndexSlot) : io nat (list IndexSlot) :=
  match rounds with
  | O => lift (Panic "index has no free slot")
  | S rounds =>
      _ ← checkpoint_at cancelled probes;
      here ← lift (at_index slots slot);
      if is_value here =? 0 then
        value ← lift (position_value position);
        lift (set_index slots slot (mkIndexSlot (fe_index entry) value))
      else place rounds entry position (probes + 1) (Z.land (slot + 1) mask) mask slots
  end.
Fixpoint fill_sparse (entries : list FeedEntry) (position mask : Z) (slots : list IndexSlot) : io nat (list IndexSlot) :=
  match entries with
  | [] => mret slots
  | entry :: entries =>
      _ ← checkpoint_at cancelled position;
      slots ← place (length slots) entry position 0 (Z.land (index_hash (fe_index entry)) mask) mask slots;
      fill_sparse entries (position + 1) mask slots
  end.

Definition index_new (entries : list FeedEntry) (h : Heap) : io nat (IndexMap * Heap) :=
  let label := "membership scope index heap" in
  match list.last entries with
  | None => mret (IndexEmpty, h)
  | Some last =>
      let dense_len := fe_index last + 1 in
      sparse_len ← lift (ok_or (twice ← checked_mul usize_max (zlen entries) 2; checked_next_power_of_two twice) (BudgetExceeded label));
      let dense_bytes := checked_mul usize_max dense_len 4 in
      sparse_bytes ← lift (ok_or (checked_mul usize_max sparse_len 8) (BudgetExceeded label));
      if match dense_bytes with Some bytes => bytes <=? sparse_bytes | None => false end then
        '(positions, h) ← lift (filled grants 4 dense_len 0 label h);
        positions ← fill_dense entries 0 positions;
        mret (Dense positions, h)
      else
        '(slots, h) ← lift (filled grants 8 sparse_len (mkIndexSlot 0 0) label h);
        mask ← lift (usub sparse_len 1);
        slots ← fill_sparse entries 0 mask slots;
        mret (Sparse slots mask, h)
  end.
End Index.

Fixpoint index_probe (rounds : nat) (index slot mask : Z) (slots : list IndexSlot) : Result (option Z) :=
  match rounds with
  | O => Panic "index probe does not end"
  | S rounds =>
      entry ← at_index slots slot;
      if is_value entry =? 0 then Ok None
      else if is_key entry =? index then Ok (Some (is_value entry))
      else index_probe rounds index (Z.land (slot + 1) mask) mask slots
  end.
Definition index_get (m : IndexMap) (index : Z) : Result (option Z) :=
  value ← match m with
          | IndexEmpty => Ok None
          | Dense positions => Ok (positions !! Z.to_nat index)
          | Sparse slots mask => index_probe (length slots) index (Z.land (index_hash index) mask) mask slots
          end;
  match value with
  | None => Ok None
  | Some value => position ← usub value 1; Ok (Some position)
  end.

Record ScopeData := mkScopeData {
  entries : list FeedEntry;
  index : IndexMap;
  selected_word_count : Z;
  all_catalog : bool;
  scope_max_heap_bytes : Z;
  scope_heap_used : Z;
}.

(** [size_of::<FeedEntry>()], and the order in which the entries are sorted. *)
Definition ENTRY_SIZE : Z := 260.
Definition index_le (a b : FeedEntry) : Prop := fe_index a <= fe_index b.
#[global] Instance index_le_dec a b : Decision (index_le a b).
Proof. unfold index_le. apply _. Defined.

Section Scope.
Context (cancelled : nat -> bool) (grants : Z -> Z -> option Z).
Fixpoint count_words (entries : list FeedEntry) (work count : Z) (previous : option Z) : io nat Z :=
  match entries with
  | [] => mret count
  | entry :: entries =>
      _ ← checkpoint_at cancelled work;
      let word := fe_index entry / 64 in
      if bool_decide (previous = Some word) then count_words entries (work + 1) count previous
      else count_words entries (work + 1) (count + 1) (Some word)
  end.
Definition scope_finish (es : list FeedEntry) (all_catalog : bool) (max_heap_bytes : Z) (h : Heap) : io nat ScopeData :=
  words ← count_words es 0 0 None;
  '(index, h) ← index_new cancelled grants es h;
  mret (mkScopeData es index words all_catalog max_heap_bytes (used h)).

(** [reader.lookup_feed_name] and the names a caller gives, each of which may
    have failed to parse. *)
Fixpoint take_named (lookup_feed_name : FeedName -> Result (option FeedEntry)) (names : list (Result FeedName)) (work : Z) (es : list FeedEntry) : io nat (list FeedEntry) :=
  match names with
  | [] => mret es
  | name :: names =>
      _ ← checkpoint_at cancelled work;
      name ← lift name;
      found ← lift (lookup_feed_name name);
      entry ← lift (ok_or found NameNotFound);
      take_named lookup_feed_name names (work + 1) (es ++ [entry])
  end.
(** [entries.windows(2)]. *)
Fixpoint require_distinct (es : list FeedEntry) (work : Z) : io nat unit :=
  match es with
  | a :: (b :: _) as rest =>
      _ ← checkpoint_at cancelled work;
      _ ← fail_if (fe_index a =? fe_index b) (InvalidArgument "membership scope feed names are not unique");
      require_distinct rest (work + 1)
  | _ => mret tt
  end.
Definition scope_named_from (lookup_feed_name : FeedName -> Result (option FeedEntry)) (count : Z) (names : list (Result FeedName)) (max_heap_bytes : Z) : io nat ScopeData :=
  _ ← check cancelled;
  _ ← fail_if (count =? 0) (InvalidArgument "membership scope is empty");
  h ← lift (vector grants ENTRY_SIZE count "membership scope heap" (heap_new max_heap_bytes));
  es ← take_named lookup_feed_name names 0 [];
  _ ← fail_if (negb (zlen es =? count)) (InvalidArgument "membership scope name count disagrees");
  _ ← check cancelled;
  let es := merge_sort index_le es in
  _ ← check cancelled;
  _ ← require_distinct es 0;
  scope_finish es false max_heap_bytes h.
Definition scope_named (lookup_feed_name : FeedName -> Result (option FeedEntry)) (names : list FeedName) (max_heap_bytes : Z) : io nat ScopeData :=
  scope_named_from lookup_feed_name (zlen names) (Ok <$> names) max_heap_bytes.

(** The feed cursor gives these entries, or fails at one. *)
Fixpoint take_all (feeds : list (Result FeedEntry)) (es : list FeedEntry) : io nat (list FeedEntry) :=
  match feeds with
  | [] => mret es
  | feed :: feeds =>
      entry ← lift feed;
      _ ← checkpoint_at cancelled (zlen es);
      take_all feeds (es ++ [entry])
  end.
Definition scope_all (feed_cursor : Result (list (Result FeedEntry))) (active_feed_count max_heap_bytes : Z) : io nat ScopeData :=
  _ ← check cancelled;
  h ← lift (vector grants ENTRY_SIZE active_feed_count "membership scope heap" (heap_new max_heap_bytes));
  feeds ← lift feed_cursor;
  es ← take_all feeds [];
  _ ← fail_if (negb (zlen es =? active_feed_count)) (Corrupt "feed catalog count changed during scope");
  scope_finish es true max_heap_bytes h.
End Scope.

Definition position (scope : ScopeData) (feed_index : Z) : Result (option Z) := index_get (index scope) feed_index.
Definition position_name (lookup_feed_name : FeedName -> Result (option FeedEntry)) (scope : ScopeData) (name : FeedName) : Result Z :=
  found ← lookup_feed_name name;
  entry ← ok_or found NameNotFound;
  place ← position scope (fe_index entry);
  ok_or place (InvalidArgument "feed is outside the membership scope").
Definition operation_heap_reserved (scope : ScopeData) (reserved : Z) : Result Heap :=
  left ← ok_or (left ← checked_sub (scope_max_heap_bytes scope) (scope_heap_used scope); checked_sub left reserved)
           (BudgetExceeded "membership aggregation heap");
  Ok (heap_new left).
Definition operation_heap (scope : ScopeData) : Result Heap := operation_heap_reserved scope 0.

(** ** The cache of sequences *)

Definition MAX_ENTRIES : Z := 1024.
Definition MAX_POSITIONS : Z := 65536.
Definition SLOT_SIZE : Z := 24.
Record CacheSlot := mkCacheSlot { ca_hash : Z; ca_value : Z; ca_offset : Z; ca_length_plus_one : Z }.
Record SequenceCache := mkCache {
  ca_slots : list CacheSlot;
  ca_positions : list Z;
  ca_position_limit : Z;
  ca_mask : Z;
  ca_entries : Z;
  ca_entry_limit : Z;
}.
Definition cache_empty : SequenceCache := mkCache [] [] 0 0 0 0.
Definition floor_power_of_two (value : Z) : Z := if value =? 0 then 0 else 2 ^ Z.log2 value.

Definition cache_enable (grants : Z -> Z -> option Z) (max_bytes : Z) (c : SequenceCache) (h : Heap) : Result (SequenceCache * Heap) :=
  let label := "membership sequence cache" in
  if negb (bool_decide (ca_slots c = [])) then Ok (c, h)
  else
    let available := Z.min (remaining h) max_bytes in
    let minimum := SLOT_SIZE * 2 + 4 in
    let entry_limit := floor_power_of_two (Z.min (available / minimum) MAX_ENTRIES) in
    if entry_limit =? 0 then Ok (c, h)
    else
      let slot_count := entry_limit * 2 in
      let position_capacity := Z.min (saturating_sub available (slot_count * SLOT_SIZE) / 4) MAX_POSITIONS in
      if position_capacity =? 0 then Ok (c, h)
      else
        '(slots, h) ← filled grants SLOT_SIZE slot_count (mkCacheSlot 0 0 0 0) label h;
        h ← vector grants 4 position_capacity label h;
        Ok (mkCache slots [] position_capacity (slot_count - 1) (ca_entries c) entry_limit, h).

Definition mix (v : Z) : Z :=
  let v := Z.lxor v (Z.shiftr v 30) in
  let v := (v * 13787848793156543929) mod 2 ^ 64 in
  let v := Z.lxor v (Z.shiftr v 27) in
  let v := (v * 10723151780598845931) mod 2 ^ 64 in
  Z.lxor v (Z.shiftr v 31).
Definition hash_key (key : Z) : Z := mix key.

Definition sequence (c : SequenceCache) (s : CacheSlot) : Result (list Z) :=
  length ← usub (ca_length_plus_one s) 1;
  slice (ca_positions c) (ca_offset s) length.

(** [for _ in 0..self.slots.len()]. *)
Fixpoint cache_find (rounds : nat) (c : SequenceCache) (hash : Z) (matches : CacheSlot -> bool) (index : Z) : Result (option CacheSlot) :=
  match rounds with
  | O => Ok None
  | S rounds =>
      slot ← at_index (ca_slots c) index;
      if ca_length_plus_one slot =? 0 then Ok None
      else if (ca_hash slot =? hash) && matches slot then Ok (Some slot)
      else cache_find rounds c hash matches (Z.land (index + 1) (ca_mask c))
  end.
Definition keyed (c : SequenceCache) (key : Z) : Result (option (list Z)) :=
  if (key =? 0) || bool_decide (ca_slots c = []) then Ok None
  else
    let hash := hash_key key in
    found ← cache_find (length (ca_slots c)) c hash (fun slot => ca_value slot =? key) (Z.land hash (ca_mask c));
    match found with
    | None => Ok None
    | Some slot => s ← sequence c slot; Ok (Some s)
    end.

Fixpoint insert_loop (rounds : nat) (c : SequenceCache) (hash value offset length : Z) (positions : list Z) (index : Z) : Result SequenceCache :=
  match rounds with
  | O => Ok c
  | S rounds =>
      slot ← at_index (ca_slots c) index;
      if ca_length_plus_one slot =? 0 then
        plus_one ← ok_or (checked_add u32_max length 1) (BudgetExceeded "membership sequence cache");
        slots ← set_index (ca_slots c) index (mkCacheSlot hash value offset plus_one);
        entries ← uadd usize_max (ca_entries c) 1;
        Ok (mkCache slots (ca_positions c ++ positions) (ca_position_limit c) (ca_mask c) entries (ca_entry_limit c))
      else insert_loop rounds c hash value offset length positions (Z.land (index + 1) (ca_mask c))
  end.
Definition cache_insert (hash value : Z) (positions : list Z) (c : SequenceCache) : Result SequenceCache :=
  if bool_decide (ca_slots c = []) || (ca_entries c =? ca_entry_limit c) then Ok c
  else
    room ← usub (ca_position_limit c) (zlen (ca_positions c));
    if room <? zlen positions then Ok c
    else if (u32_max <? zlen positions) || (u32_max <? zlen (ca_positions c)) then Err (BudgetExceeded "membership sequence cache")
    else insert_loop (length (ca_slots c)) c hash value (zlen (ca_positions c)) (zlen positions) positions (Z.land hash (ca_mask c)).
Definition insert_keyed (key : Z) (positions : list Z) (c : SequenceCache) : Result SequenceCache :=
  if key =? 0 then Err (Corrupt "membership cache key is zero") else cache_insert (hash_key key) key positions c.

(** Sequences as keys. *)
Section Sequences.
Context (cancelled : nat -> bool).
Fixpoint hash_loop (positions : list Z) (work hash : Z) : io nat Z :=
  match positions with
  | [] => mret hash
  | position :: positions =>
      _ ← checkpoint_at cancelled work;
      hash_loop positions (work + 1) (mix (Z.lxor hash position))
  end.
Definition hash_sequence (positions : list Z) : io nat Z := hash_loop positions 0 (mix (zlen positions)).
Fixpoint equal_loop (left_ right_ : list Z) (work : Z) : io nat bool :=
  match left_, right_ with
  | x :: left_, y :: right_ =>
      _ ← checkpoint_at cancelled work;
      if negb (x =? y) then mret false else equal_loop left_ right_ (work + 1)
  | _, _ => mret true
  end.
Definition sequences_equal (left_ right_ : list Z) : io nat bool :=
  if negb (zlen left_ =? zlen right_) then mret false else equal_loop left_ right_ 0.

Fixpoint value_loop (rounds : nat) (c : SequenceCache) (hash : Z) (positions : list Z) (index : Z) : io nat (option Z) :=
  match rounds with
  | O => mret None
  | S rounds =>
      slot ← lift (at_index (ca_slots c) index);
      if ca_length_plus_one slot =? 0 then mret None
      else
        same ← (if ca_hash slot =? hash then s ← lift (sequence c slot); sequences_equal s positions else mret false);
        if same : bool then mret (Some (ca_value slot)) else value_loop rounds c hash positions (Z.land (index + 1) (ca_mask c))
  end.
Definition sequence_value (positions : list Z) (c : SequenceCache) : io nat (option Z) :=
  if bool_decide (ca_slots c = []) then mret None
  else
    hash ← hash_sequence positions;
    value_loop (length (ca_slots c)) c hash positions (Z.land hash (ca_mask c)).
Definition insert_sequence (positions : list Z) (value : Z) (c : SequenceCache) : io nat SequenceCache :=
  _ ← fail_if (value =? 0) (Corrupt "membership cache value is zero");
  hash ← hash_sequence positions;
  lift (cache_insert hash value positions c).
End Sequences.

(** ** Decoding *)

(** [MembershipView]: the bitmap of one membership. *)
Record MembershipView := mkView {
  word_count : Result Z;
  word : Z -> Result (option Z);
  read_words : Z -> Z -> Result (list Z);
}.

Definition WORD_BATCH : Z := 64.
Record Scratch := mkScratch { present : list Z; flags : list Z; sc_membership : option Z; sc_cache : SequenceCache }.

Section Scratch.
Context (cancelled : nat -> bool) (grants : Z -> Z -> option Z).
Definition scratch_new (feeds : Z) (h : Heap) : Result (Scratch * Heap) :=
  h ← vector grants 4 feeds "membership aggregation heap" h;
  '(flags, h) ← filled grants 1 feeds 0 "membership aggregation heap" h;
  Ok (mkScratch [] flags None cache_empty, h).
Definition scratch_enable_cache (max_bytes : Z) (s : Scratch) (h : Heap) : Result (Scratch * Heap) :=
  '(cache, h) ← cache_enable grants max_bytes (sc_cache s) h;
  Ok (mkScratch (present s) (flags s) (sc_membership s) cache, h).

Fixpoint clear_flags (present : list Z) (work : Z) (flags : list Z) : io nat (list Z) :=
  match present with
  | [] => mret flags
  | position :: present =>
      _ ← checkpoint_at cancelled work;
      flags ← lift (set_index flags position 0);
      clear_flags present (work + 1) flags
  end.
Definition scratch_clear (s : Scratch) : io nat Scratch :=
  flags ← clear_flags (present s) 0 (flags s);
  mret (mkScratch [] flags None (sc_cache s)).

Definition scratch_push (position : Z) (s : Scratch) : Result Scratch :=
  if u32_max <? position then Err (BudgetExceeded "membership scope exceeds u32")
  else
    flag ← at_index (flags s) position;
    if negb (flag =? 0) then Err (Corrupt "membership feed bit was decoded twice")
    else
      flags ← set_index (flags s) position 1;
      Ok (mkScratch (present s ++ [position]) flags (sc_membership s) (sc_cache s)).

(** The inner loop of [decode_selected]: the entries of one word. *)
Fixpoint decode_word (rest : list FeedEntry) (position word_index word : Z) (s : Scratch) : io nat (Scratch * Z * list FeedEntry) :=
  match rest with
  | [] => mret (s, position, [])
  | entry :: rest' =>
      if negb (fe_index entry / 64 =? word_index) then mret (s, position, rest)
      else
        _ ← checkpoint_at cancelled position;
        s ← (if negb (Z.land word (2 ^ (fe_index entry mod 64)) =? 0) then lift (scratch_push position s) else mret s);
        decode_word rest' (position + 1) word_index word s
  end.
(** [rest] is [scope.entries[position..]]. *)
Fixpoint decode_selected (rounds : nat) (view : MembershipView) (word_count : Z) (rest : list FeedEntry) (position : Z) (s : Scratch) : io nat Scratch :=
  match rest with
  | [] => mret s
  | entry :: _ =>
      match rounds with
      | O => lift (Panic "decoding does not end")
      | S rounds =>
          let word_index := fe_index entry / 64 in
          if word_count <=? word_index then mret s
          else
            found ← lift (word view word_index);
            w ← lift (ok_or found (Corrupt "membership word disappeared"));
            '(s, position, rest) ← decode_word rest position word_index w s;
            decode_selected rounds view word_count rest position s
      end
  end.

Definition trailing_zeros (w : Z) : Z := Z.log2 (Z.land w (- w)).
(** [while word != 0], a bit each round. *)
Fixpoint decode_bits (rounds : nat) (scope : ScopeData) (word_index word : Z) (s : Scratch) : Result Scratch :=
  if word =? 0 then Ok s
  else match rounds with
  | O => Panic "word has more bits than it is wide"
  | S rounds =>
      let bit := trailing_zeros word in
      feed_index ← ok_or (base ← checked_mul u32_max word_index 64; checked_add u32_max base bit) (ArithmeticOverflow "feed index");
      found ← position scope feed_index;
      s ← match found with
          | Some position => scratch_push position s
          | None => if all_catalog scope then Err (Corrupt "membership names an inactive feed") else Ok s
          end;
      decode_bits rounds scope word_index (Z.land word (word - 1)) s
  end.
Fixpoint decode_batch (words : list Z) (scope : ScopeData) (start offset : Z) (s : Scratch) : Result Scratch :=
  match words with
  | [] => Ok s
  | word :: words =>
      word_index ← ok_or (checked_add u32_max start offset) (ArithmeticOverflow "membership word index");
      s ← decode_bits 64 scope word_index word s;
      decode_batch words scope start (offset + 1) s
  end.
Fixpoint decode_all (rounds : nat) (view : MembershipView) (scope : ScopeData) (word_count start : Z) (s : Scratch) : io nat Scratch :=
  if negb (start <? word_count) then mret s
  else match rounds with
  | O => lift (Panic "decoding does not end")
  | S rounds =>
      _ ← (if negb (start =? 0) then check cancelled else mret tt);
      let expected := Z.min (word_count - start) WORD_BATCH in
      words ← lift (read_words view start expected);
      _ ← fail_if (negb (zlen words =? expected)) (Corrupt "membership word read ended early");
      s ← lift (decode_batch words scope start 0 s);
      start ← lift (ok_or (checked_add u32_max start (zlen words)) (ArithmeticOverflow "membership word index"));
      decode_all rounds view scope word_count start s
  end.
Definition decode (view : MembershipView) (scope : ScopeData) (s : Scratch) : io nat Scratch :=
  count ← lift (word_count view);
  if Z.min (selected_word_count scope * 4) usize_max <? count
  then decode_selected (length (entries scope)) view count (entries scope) 0 s
  else decode_all (Z.to_nat count) view scope count 0 s.

Fixpoint load_cached (cached : list Z) (work : Z) (s : Scratch) : io nat Scratch :=
  match cached with
  | [] => mret s
  | position :: cached =>
      _ ← checkpoint_at cancelled work;
      flags ← lift (set_index (flags s) position 1);
      load_cached cached (work + 1) (mkScratch (present s ++ [position]) flags (sc_membership s) (sc_cache s))
  end.
Definition set_membership (m : Z) (s : Scratch) : Scratch := mkScratch (present s) (flags s) (Some m) (sc_cache s).
Definition load (membership_of : Z -> Result MembershipView) (membership : Z) (scope : ScopeData) (s : Scratch) : io nat Scratch :=
  if bool_decide (sc_membership s = Some membership) then mret s
  else
    s ← scratch_clear s;
    cached ← lift (keyed (sc_cache s) membership);
    match cached with
    | Some cached =>
        s ← load_cached cached 0 s;
        mret (set_membership membership s)
    | None =>
        view ← lift (membership_of membership);
        s ← decode view scope s;
        cache ← lift (insert_keyed membership (present s) (sc_cache s));
        mret (set_membership membership (mkScratch (present s) (flags s) (sc_membership s) cache))
    end.
End Scratch.
