(* ===== verification/MembershipFacts.v ===== *)
(** * What a scope answers

    The index of a scope finds the position of every feed the scope selects,
    and a scratch holds the positions whose feeds a membership names, whichever
    of its two decoders and its cache gave them.  An index kept as an array has
    a flaw: it cannot answer for a feed that is not selected but has a smaller
    index than one that is. *)

From stdpp Require Import base tactics numbers list strings sorting.
From Stdlib Require Import ZArith Lia.
From S2P Require Import Prelude Errors Machine MembershipScope.

#[local] Open Scope string_scope.
#[local] Open Scope list_scope.
#[local] Open Scope Z_scope.

(** ** Calls that only a cancellation stops *)

Section Ends.
Context (cancelled : nat -> bool).

(** The call succeeds with a result in [Q], unless a poll told it to stop. *)
Definition ends {A} (m : io nat A) (Q : A -> Prop) : Prop := forall asked,
  match snd (m asked) with
  | Ok a => Q a
  | Err e => e = Cancelled /\ exists k, cancelled k = true
  | Panic _ => False
  end.

Lemma ends_ret {A} (a : A) (Q : A -> Prop) : Q a -> ends (mret a) Q.
Proof using Type. by intros HQ asked. Qed.
Lemma ends_lift {A} (r : Result A) a (Q : A -> Prop) : r = Ok a -> Q a -> ends (lift r) Q.
Proof using Type. intros -> HQ asked. exact HQ. Qed.
Lemma ends_bind {A B} (m : io nat A) (f : A -> io nat B) P Q : ends m P -> (forall a, P a -> ends (f a) Q) -> ends (m ≫= f) Q.
Proof using Type.
  intros Hm Hf asked. specialize (Hm asked). unfold mbind, io_bind. destruct (m asked) as [n [a | e | t]]; cbn in *; [by apply Hf | done | done].
Qed.
Lemma ends_mono {A} (m : io nat A) (P Q : A -> Prop) : ends m P -> (forall a, P a -> Q a) -> ends m Q.
Proof using Type. intros Hm HPQ asked. specialize (Hm asked). destruct (snd (m asked)); auto. Qed.
Lemma ends_check (Q : unit -> Prop) : Q tt -> ends (check cancelled) Q.
Proof using Type. intros HQ asked. unfold check, is_cancelled, mbind, io_bind, lift. cbn. destruct (cancelled asked) eqn:E; cbn; [split; [done | by exists asked] | done]. Qed.
Lemma ends_checkpoint work (Q : unit -> Prop) : Q tt -> ends (checkpoint_at cancelled work) Q.
Proof using Type. intros HQ. unfold checkpoint_at. destruct (_ =? _); [by apply ends_check | by apply ends_ret]. Qed.
Lemma ends_fail_if (b : bool) e (Q : unit -> Prop) : b = false -> Q tt -> ends (fail_if b e) Q.
Proof using Type. intros -> HQ asked. exact HQ. Qed.
Lemma ends_checked {B} work (f : unit -> io nat B) Q : ends (f tt) Q -> ends (checkpoint_at cancelled work ≫= f) Q.
Proof using Type. intros Hf. eapply ends_bind; [by apply (ends_checkpoint _ (fun _ => True)) | intros [] _; exact Hf]. Qed.
Lemma ends_run {A B} (r : Result A) a (f : A -> io nat B) Q : r = Ok a -> ends (f a) Q -> ends (lift r ≫= f) Q.
Proof using Type. intros -> Hf. exact Hf. Qed.
(** Without a cancellation it succeeds. *)
Lemma ends_ok {A} (m : io nat A) Q : (forall k, cancelled k = false) -> ends m Q -> forall asked, exists asked' a, m asked = (asked', Ok a) /\ Q a.
Proof using Type.
  intros Hn Hm asked. specialize (Hm asked). destruct (m asked) as [n [a | e | t]]; cbn in Hm; [eauto | | done].
  destruct Hm as (_ & k & Hk). by rewrite Hn in Hk.
Qed.
End Ends.

(** ** Lists *)

Lemma index_lookup {E A} (l : list A) i x : 0 <= i -> l !! Z.to_nat i = Some x -> at_index (E := E) l i = Ok x.
Proof. intros _ Hx. unfold at_index. by rewrite Hx. Qed.
Lemma set_index_ok {A} (l : list A) i x : 0 <= i < zlen l -> set_index l i x = Ok (<[Z.to_nat i := x]> l).
Proof. intros Hi. unfold set_index. by rewrite (proj2 (Z.leb_le 0 i)), (proj2 (Z.ltb_lt _ _)) by lia. Qed.
Lemma zlen_insert {A} (l : list A) i (x : A) : zlen (<[i := x]> l) = zlen l.
Proof. unfold zlen. by rewrite length_insert. Qed.
Lemma lookup_zlen {A} (l : list A) i x : l !! Z.to_nat i = Some x -> 0 <= i -> i < zlen l.
Proof. intros Hx Hi. pose proof (lookup_lt_Some _ _ _ Hx). unfold zlen. lia. Qed.
Lemma zlen_lookup {A} (l : list A) i : 0 <= i < zlen l -> exists x, l !! Z.to_nat i = Some x.
Proof. intros Hi. apply lookup_lt_is_Some_2. unfold zlen in Hi. lia. Qed.

(** Two ascending lists with the same elements are one. *)
Lemma ascending_unique (a b : list Z) : StronglySorted Z.lt a -> StronglySorted Z.lt b -> (forall x, x ∈ a <-> x ∈ b) -> a = b.
Proof.
  intros Ha. revert b. induction Ha as [|x a Ha IH Hx]; intros b Hb He.
  - destruct b as [|y b]; [done |]. destruct (He y) as [_ Hy]. specialize (Hy ltac:(left)). by apply elem_of_nil in Hy.
  - destruct Hb as [|y b Hb Hy]; [destruct (He x) as [Hin _]; specialize (Hin ltac:(left)); by apply elem_of_nil in Hin |].
    rewrite Forall_forall in Hx, Hy.
    assert (x = y) as ->.
    { destruct (He x) as [Hxin _]. destruct (He y) as [_ Hyin]. specialize (Hxin ltac:(left)). specialize (Hyin ltac:(left)).
      apply elem_of_cons in Hxin as [-> | Hxin]; [done |]. apply elem_of_cons in Hyin as [-> | Hyin]; [done |].
      specialize (Hx y Hyin). specialize (Hy x Hxin). lia. }
    f_equal. apply IH; [done |]. intros z. specialize (He z). rewrite !elem_of_cons in He.
    destruct (decide (z = y)) as [-> | Hne]; [| naive_solver]. split; intros Hin; [specialize (Hx y Hin) | specialize (Hy y Hin)]; lia.
Qed.
Lemma ascending_app (a : list Z) x : StronglySorted Z.lt a -> Forall (fun y => y < x) a -> StronglySorted Z.lt (a ++ [x]).
Proof.
  intros Ha. induction Ha as [|y a Ha IH Hy]; intros Hx; cbn; [repeat constructor |]. apply Forall_cons in Hx as [Hxy Hx].
  constructor; [by apply IH |]. apply Forall_app. split; [done | by repeat constructor].
Qed.

(** ** The index of a scope *)

Definition ordered (es : list FeedEntry) : Prop :=
  StronglySorted (fun a b => fe_index a < fe_index b) es /\ Forall (fun e => 0 <= fe_index e <= u32_max) es /\ zlen es <= u32_max.

Lemma ordered_lookup es p q e e' : ordered es -> es !! p = Some e -> es !! q = Some e' -> fe_index e < fe_index e' <-> (p < q)%nat.
Proof.
  intros (Hs & _) Hp Hq. assert (Hlt : forall p q e e', es !! p = Some e -> es !! q = Some e' -> (p < q)%nat -> fe_index e < fe_index e').
  { clear p q e e' Hp Hq. induction Hs as [|x l Hs IH Hx]; intros p q e e' Hp Hq Hlt; [done |]. destruct q as [|q]; [lia |]. cbn in Hq.
    destruct p as [|p]; cbn in Hp; [| eapply (IH p q); [done | done | lia]]. injection Hp as <-. rewrite Forall_forall in Hx. apply Hx. by eapply list_elem_of_lookup_2. }
  split; [| by apply Hlt]. intros Hi. destruct (Nat.lt_trichotomy p q) as [? | [-> | Hqp]]; [done | simplify_eq; lia |].
  specialize (Hlt q p e' e Hq Hp Hqp). lia.
Qed.
Lemma ordered_unique es p q e e' : ordered es -> es !! p = Some e -> es !! q = Some e' -> fe_index e = fe_index e' -> p = q.
Proof.
  intros Ho Hp Hq He. pose proof (ordered_lookup es p q e e' Ho Hp Hq). pose proof (ordered_lookup es q p e' e Ho Hq Hp). lia.
Qed.
Lemma ordered_range es p e : ordered es -> es !! p = Some e -> 0 <= fe_index e <= u32_max /\ Z.of_nat p < u32_max.
Proof.
  intros (_ & Hr & Hl) Hp. rewrite Forall_lookup in Hr. split; [by eapply Hr |]. pose proof (lookup_lt_Some _ _ _ Hp). unfold zlen in Hl. lia.
Qed.
Lemma position_value_ok p : 0 <= p < u32_max -> position_value p = Ok (p + 1).
Proof. intros Hp. unfold position_value, checked_add. rewrite (proj2 (Z.leb_le p _)), (proj2 (Z.leb_le (p + 1) _)) by lia. done. Qed.

(** The selected feed of an index, if there is one. *)
Definition selected_at (es : list FeedEntry) (i : Z) (p : nat) : Prop := exists e, es !! p = Some e /\ fe_index e = i.

(** *** An array of positions *)

Definition dense_holds (done : list FeedEntry) (positions : list Z) : Prop :=
  forall i v, positions !! i = Some v -> (v = 0 /\ forall p, ~ selected_at done (Z.of_nat i) p) \/ exists p, v = Z.of_nat p + 1 /\ selected_at done (Z.of_nat i) p.

Lemma fill_dense_holds cancelled es : ordered es -> forall todo done positions, es = done ++ todo -> dense_holds done positions ->
  Forall (fun e => fe_index e < zlen positions) todo ->
  ends cancelled (fill_dense cancelled todo (zlen done) positions) (fun result => dense_holds es result /\ zlen result = zlen positions).
Proof.
  intros Ho. induction todo as [|e todo IH]; intros done positions -> Hd Hb; cbn [fill_dense].
  { apply ends_ret. by rewrite app_nil_r in *. }
  apply Forall_cons in Hb as [He Hb]. assert (Hat : (done ++ e :: todo) !! length done = Some e) by (rewrite lookup_app_r, Nat.sub_diag by lia; done).
  destruct (ordered_range _ _ _ Ho Hat) as [Hr Hp]. apply ends_checked. eapply ends_run; [apply position_value_ok; unfold zlen; lia |].
  eapply ends_run; [apply set_index_ok; lia |]. replace (zlen done + 1) with (zlen (done ++ [e])) by (rewrite zlen_app; done).
  eapply ends_mono; [apply IH; [by rewrite <- app_assoc | | eapply Forall_impl; [exact Hb |]; cbn; intros x; by rewrite zlen_insert] |].
  2: { intros r. by rewrite zlen_insert. }
  intros i v Hi. rewrite list_lookup_insert in Hi. case_decide as Hc.
  - destruct Hc as [<- _]. injection Hi as <-. right. exists (length done). split; [rewrite zlen_app; reflexivity |]. exists e. rewrite lookup_app_r, Nat.sub_diag by lia. split; [done | lia].
  - assert (Hne : i <> Z.to_nat (fe_index e)).
    { intros ->. apply Hc. split; [done |]. unfold zlen in He. lia. }
    destruct (Hd i v Hi) as [[-> Hno] | (p & -> & x & Hx & Hxi)]; [left; split; [done |] | right; exists p; split; [done |]; exists x; split; [| done]].
    + intros p (x & Hx & Hxi). apply lookup_app_Some in Hx as [Hx | [_ Hx]]; [apply (Hno p); by exists x |].
      apply list_lookup_singleton_Some in Hx as [_ <-]. lia.
    + by apply lookup_app_l_Some.
Qed.

(** *** A table with open addressing *)

Definition taken (slots : list IndexSlot) (i : Z) : Prop := exists s, slots !! Z.to_nat i = Some s /\ is_value s <> 0.
Definition spot (n i d : Z) : Z := (index_hash i + d) mod n.
Record sparse_holds (done : list FeedEntry) (slots : list IndexSlot) (mask : Z) : Prop := {
  sh_size : exists k, 0 <= k /\ zlen slots = 2 ^ k /\ mask = zlen slots - 1;
  sh_slot i s : slots !! i = Some s -> is_value s <> 0 -> exists p, is_value s = Z.of_nat p + 1 /\ selected_at done (is_key s) p
    /\ exists d, 0 <= d < zlen slots /\ Z.of_nat i = spot (zlen slots) (is_key s) d /\ forall j, 0 <= j < d -> taken slots (spot (zlen slots) (is_key s) j);
  sh_entry p e : done !! p = Some e -> exists i, slots !! i = Some (mkIndexSlot (fe_index e) (Z.of_nat p + 1));
  sh_count : length (filter (fun s => is_value s <> 0) slots) = length done;
}.

Lemma mask_mod {A} (slots : list A) mask x : (exists k, 0 <= k /\ zlen slots = 2 ^ k /\ mask = zlen slots - 1) -> 0 <= x -> Z.land x mask = x mod zlen slots.
Proof. intros (k & Hk & Hn & ->) Hx. rewrite Hn, <- Z.land_ones by done. by rewrite Z.ones_equiv, Z.sub_1_r. Qed.
Lemma spot_range n i d : 0 < n -> 0 <= spot n i d < n.
Proof. intros Hn. by apply Z.mod_pos_bound. Qed.
Lemma spot_next n i d : 0 < n -> (spot n i d + 1) mod n = spot n i (d + 1).
Proof. intros Hn. unfold spot. rewrite Z.add_mod_idemp_l by lia. f_equal. lia. Qed.
Lemma spot_onto n i q : 0 <= q < n -> exists d, 0 <= d < n /\ spot n i d = q.
Proof.
  intros Hq. exists ((q - index_hash i) mod n). split; [apply Z.mod_pos_bound; lia |]. unfold spot. rewrite Z.add_mod_idemp_r by lia.
  replace (index_hash i + (q - index_hash i)) with q by lia. apply Z.mod_small. lia.
Qed.
Lemma hash_range i : 0 <= index_hash i.
Proof. unfold index_hash. apply Z.mod_pos_bound. lia. Qed.
Lemma size_pos {A} (slots : list A) mask : (exists k, 0 <= k /\ zlen slots = 2 ^ k /\ mask = zlen slots - 1) -> 0 < zlen slots.
Proof. intros (k & Hk & -> & _). by apply Z.pow_pos_nonneg. Qed.

(** A table with fewer entries than slots has a free slot. *)
Lemma free_slot done slots mask : sparse_holds done slots mask -> zlen done < zlen slots -> exists q, 0 <= q < zlen slots /\ ~ taken slots q.
Proof.
  intros Hh Hlt. destruct (decide (Forall (fun s => is_value s <> 0) slots)) as [Hall | Hno].
  - exfalso. pose proof (sh_count _ _ _ Hh) as Hc. assert (filter (fun s => is_value s <> 0) slots = slots) as Heq.
    { clear -Hall. induction Hall; [done |]. rewrite filter_cons_True by done. by f_equal. }
    rewrite Heq in Hc. unfold zlen in Hlt. lia.
  - apply not_Forall_Exists in Hno; [| apply _]. apply Exists_exists in Hno as (s & Hs & Hv). apply list_elem_of_lookup in Hs as (i & Hi).
    exists (Z.of_nat i). pose proof (lookup_lt_Some _ _ _ Hi). split; [unfold zlen; lia |]. intros (s' & Hs' & Hv'). rewrite Nat2Z.id, Hi in Hs'. injection Hs' as <-. by apply Hv.
Qed.

Lemma filter_insert {A} (P : A -> Prop) `{!forall x, Decision (P x)} (l : list A) i x y : l !! i = Some x -> ~ P x -> P y ->
  length (filter P (<[i := y]> l)) = S (length (filter P l)).
Proof.
  intros Hx Hnx Hy. pose proof (lookup_lt_Some _ _ _ Hx). rewrite insert_take_drop by done. rewrite <- (take_drop_middle l i x Hx) at 3.
  rewrite !filter_app, !filter_cons_True, filter_cons_False by done. rewrite !length_app. cbn. lia.
Qed.

(** A search that has passed [j] slots without the index. *)
Definition searched (slots : list IndexSlot) (i j : Z) : Prop := forall j', 0 <= j' < j ->
  exists s, slots !! Z.to_nat (spot (zlen slots) i j') = Some s /\ is_value s <> 0 /\ is_key s <> i.

Lemma searched_next slots i j s : searched slots i j -> slots !! Z.to_nat (spot (zlen slots) i j) = Some s -> is_value s <> 0 -> is_key s <> i ->
  searched slots i (j + 1).
Proof. intros Hj Hs Hv Hk j' Hj'. destruct (decide (j' = j)) as [-> | Hne]; [by exists s | apply Hj; lia]. Qed.
Lemma searched_all found slots mask i : sparse_holds found slots mask -> zlen found < zlen slots -> ~ searched slots i (zlen slots).
Proof.
  intros Hh Hlt Hs. destruct (free_slot _ _ _ Hh Hlt) as (q & Hq & Hno). destruct (spot_onto (zlen slots) i q Hq) as (d & Hd & <-).
  destruct (Hs d Hd) as (s & Hat & Hv & _). apply Hno. by exists s.
Qed.
(** Where the search for an index ends: at its slot or at a free one. *)
Lemma search_ends found slots mask i p e : sparse_holds found slots mask -> found !! p = Some e -> fe_index e = i ->
  forall j, searched slots i j -> 0 <= j -> forall s, slots !! Z.to_nat (spot (zlen slots) i j) = Some s -> j < zlen slots -> is_value s <> 0.
Proof.
  intros Hh He <- j Hj Hj0 s Hs Hjn Hz. destruct (sh_entry _ _ _ Hh p e He) as (q & Hq).
  destruct (sh_slot _ _ _ Hh q _ Hq ltac:(cbn; lia)) as (_ & _ & _ & d & Hd & Hpl & Hrun). cbn [is_key] in *.
  destruct (Z.lt_trichotomy d j) as [Hlt | [-> | Hgt]].
  - destruct (Hj d ltac:(lia)) as (s' & Hs' & _ & Hk). rewrite <- Hpl, Nat2Z.id in Hs'. rewrite Hq in Hs'. injection Hs' as <-. by apply Hk.
  - rewrite <- Hpl, Nat2Z.id in Hs. rewrite Hq in Hs. injection Hs as <-. cbn in Hz. lia.
  - destruct (Hrun j ltac:(lia)) as (s' & Hs' & Hv). congruence.
Qed.

Section Probe.
Context (es : list FeedEntry) (slots : list IndexSlot) (mask : Z) (Ho : ordered es) (Hh : sparse_holds es slots mask) (Hroom : zlen es < zlen slots).

Lemma index_probe_ends i : forall rounds j, 0 <= j -> j + Z.of_nat rounds = zlen slots -> searched slots i j ->
  (forall p, selected_at es i p -> index_probe rounds i (spot (zlen slots) i j) mask slots = Ok (Some (Z.of_nat p + 1)))
  /\ ((forall p, ~ selected_at es i p) -> index_probe rounds i (spot (zlen slots) i j) mask slots = Ok None).
Proof using Type*.
  pose proof (size_pos _ _ (sh_size _ _ _ Hh)) as Hn.
  induction rounds as [|rounds IH]; intros j Hj Hjr Hs.
  { destruct (searched_all _ _ _ i Hh Hroom). replace (zlen slots) with j by lia. done. }
  cbn [index_probe]. pose proof (spot_range (zlen slots) i j Hn) as Hr. destruct (zlen_lookup slots _ Hr) as (s & Hat).
  rewrite (index_lookup _ _ s) by (done || lia). cbn [mbind outcome_bind].
  destruct (Z.eqb_spec (is_value s) 0) as [Hz | Hv].
  - split; [| done]. intros p (e & He & Hi). by destruct (search_ends _ _ _ i p e Hh He Hi j Hs Hj s Hat ltac:(lia)).
  - destruct (sh_slot _ _ _ Hh _ s Hat Hv) as (p & Hval & Hsel & _). destruct (Z.eqb_spec (is_key s) i) as [Hk | Hk].
    + subst i. split; [| intros Hno; by destruct (Hno p)]. intros q (e & He & Hi). destruct Hsel as (e' & He' & Hi').
      assert (q = p) as -> by (eapply ordered_unique; [done | exact He | exact He' | congruence]). by rewrite Hval.
    + rewrite (mask_mod _ _ _ (sh_size _ _ _ Hh)), spot_next by lia. apply IH; [lia | lia |]. by eapply searched_next.
Qed.
End Probe.

(** A new entry takes the first free slot of its search. *)
Lemma sparse_write found slots mask e d s : sparse_holds found slots mask -> ordered (found ++ [e]) -> 0 <= d < zlen slots ->
  slots !! Z.to_nat (spot (zlen slots) (fe_index e) d) = Some s -> is_value s = 0 -> searched slots (fe_index e) d ->
  sparse_holds (found ++ [e]) (<[Z.to_nat (spot (zlen slots) (fe_index e) d) := mkIndexSlot (fe_index e) (zlen found + 1)]> slots) mask.
Proof.
  intros Hh Ho Hd Hs Hz Hsearched. set (q := Z.to_nat _) in *. set (x := mkIndexSlot _ _).
  pose proof (size_pos _ _ (sh_size _ _ _ Hh)) as Hn. pose proof (spot_range (zlen slots) (fe_index e) d Hn) as Hr.
  pose proof (lookup_lt_Some _ _ _ Hs) as Hq. pose proof (zlen_nonneg found).
  assert (Hgrow : forall i p, selected_at found i p -> selected_at (found ++ [e]) i p).
  { intros i p (y & Hy & Hi). exists y. split; [by apply lookup_app_l_Some | done]. }
  assert (Htaken : forall i, taken slots i -> taken (<[q := x]> slots) i).
  { intros i (y & Hy & Hv). unfold taken. destruct (decide (Z.to_nat i = q)) as [-> | Hne].
    - exists x. rewrite list_lookup_insert_eq by done. split; [done | cbn; lia].
    - exists y. by rewrite list_lookup_insert_ne. }
  split; rewrite ?zlen_insert.
  - apply Hh.
  - intros i y Hi Hv. rewrite list_lookup_insert in Hi. case_decide as Hc.
    + destruct Hc as [<- _]. injection Hi as <-. exists (length found). cbn [is_value is_key x]. split; [done |]. split.
      { exists e. rewrite lookup_app_r, Nat.sub_diag by lia. done. }
      exists d. split; [done |]. split; [unfold q; lia |]. intros j Hj. apply Htaken. destruct (Hsearched j Hj) as (y & Hy & Hyv & _). by exists y.
    + destruct (sh_slot _ _ _ Hh i y Hi Hv) as (p & Hp & Hsel & d' & Hd' & Hpl & Hrun). exists p. split; [done |]. split; [by apply Hgrow |].
      exists d'. split; [done |]. split; [done |]. intros j Hj. by apply Htaken, Hrun.
  - intros p y Hy. apply lookup_app_Some in Hy as [Hy | [Hp Hy]].
    + destruct (sh_entry _ _ _ Hh p y Hy) as (i & Hi). exists i. rewrite list_lookup_insert_ne; [done |]. intros <-.
      rewrite Hs in Hi. injection Hi as ->. cbn in Hz. lia.
    + apply list_lookup_singleton_Some in Hy as [Hp0 <-]. exists q. rewrite list_lookup_insert_eq by done. unfold x, zlen. do 2 f_equal. lia.
  - rewrite length_app. cbn [length]. rewrite <- (sh_count _ _ _ Hh).
    rewrite (filter_insert _ slots q s x); [lia | done | cbn; tauto | cbn; lia].
Qed.

Section Fill.
Context (cancelled : nat -> bool).

Lemma place_writes found e slots mask : sparse_holds found slots mask -> ordered (found ++ [e]) -> zlen found < zlen slots ->
  forall rounds j probes, 0 <= j -> j + Z.of_nat rounds = zlen slots -> searched slots (fe_index e) j ->
  ends cancelled (place cancelled rounds e (zlen found) probes (spot (zlen slots) (fe_index e) j) mask slots)
    (fun slots' => sparse_holds (found ++ [e]) slots' mask /\ zlen slots' = zlen slots).
Proof using Type.
  intros Hh Ho Hroom. pose proof (size_pos _ _ (sh_size _ _ _ Hh)) as Hn.
  induction rounds as [|rounds IH]; intros j probes Hj Hjr Hs.
  { destruct (searched_all _ _ _ (fe_index e) Hh Hroom). replace (zlen slots) with j by lia. done. }
  cbn [place]. apply ends_checked. pose proof (spot_range (zlen slots) (fe_index e) j Hn) as Hr. destruct (zlen_lookup slots _ Hr) as (s & Hat).
  eapply ends_run; [apply index_lookup; [lia | done] |].
  assert (Hlast : (found ++ [e]) !! length found = Some e) by (rewrite lookup_app_r, Nat.sub_diag by lia; done).
  destruct (ordered_range _ _ _ Ho Hlast) as [_ Hp]. destruct (Z.eqb_spec (is_value s) 0) as [Hz | Hv].
  - eapply ends_run; [apply position_value_ok; unfold zlen; lia |]. eapply ends_lift; [by apply set_index_ok |]. rewrite zlen_insert. split; [| done].
    eapply sparse_write; [done | done | lia | done | done | done].
  - rewrite (mask_mod _ _ _ (sh_size _ _ _ Hh)), spot_next by lia. apply IH; [lia | lia |]. eapply searched_next; [done | done | done |].
    destruct (sh_slot _ _ _ Hh _ s Hat Hv) as (p & _ & (y & Hy & Hk) & _). intros He.
    pose proof (lookup_lt_Some _ _ _ Hy). assert (p = length found); [| lia].
    eapply (ordered_unique _ _ _ y e Ho); [by apply lookup_app_l_Some | done | congruence].
Qed.

Lemma fill_sparse_holds es mask : ordered es -> forall todo found slots, es = found ++ todo -> sparse_holds found slots mask -> zlen es < zlen slots ->
  ends cancelled (fill_sparse cancelled todo (zlen found) mask slots) (fun slots' => sparse_holds es slots' mask /\ zlen es < zlen slots').
Proof using Type.
  intros Ho. induction todo as [|e todo IH]; intros found slots -> Hh Hroom; cbn [fill_sparse].
  { apply ends_ret. by rewrite app_nil_r in *. }
  rewrite zlen_app, zlen_cons in Hroom. pose proof (zlen_nonneg todo). apply ends_checked.
  rewrite (mask_mod _ _ _ (sh_size _ _ _ Hh)) by apply hash_range.
  replace (index_hash (fe_index e) mod zlen slots) with (spot (zlen slots) (fe_index e) 0) by (unfold spot; by rewrite Z.add_0_r).
  assert (Ho' : ordered (found ++ [e])).
  { destruct Ho as (Hs & Hr & Hl). replace (found ++ e :: todo) with ((found ++ [e]) ++ todo) in * by by rewrite <- app_assoc.
    apply StronglySorted_app in Hs as (_ & Hs & _). apply Forall_app in Hr as [Hr _]. rewrite zlen_app in Hl. split; [done |]. split; [done | lia]. }
  eapply ends_bind; [apply (place_writes found e slots mask Hh Ho'); [lia | lia | unfold zlen; lia | intros j Hj; lia] |].
  intros slots' [Hh' Hl']. cbv beta. replace (zlen found + 1) with (zlen (found ++ [e])) by (rewrite zlen_app; reflexivity).
  apply IH; [by rewrite <- app_assoc | done |]. rewrite zlen_app, zlen_cons. lia.
Qed.
End Fill.

(** *** Heap *)

Definition heap_ok (h : Heap) : Prop := 0 <= remaining h /\ 0 <= used h /\ remaining h + used h <= u64_max.
Definition spend (n : Z) (h : Heap) : Heap := mkHeap (remaining h - n) (used h + n).
Lemma spend_ok n h : heap_ok h -> 0 <= n <= remaining h -> heap_ok (spend n h).
Proof. unfold heap_ok, spend. cbn. lia. Qed.
Lemma charge_ok size count label h : heap_ok h -> 0 <= count -> 0 <= size -> count * size <= remaining h -> charge size count label h = Ok (spend (count * size) h).
Proof.
  intros (Hr & Hu & Hs) Hc Hz Hle. unfold charge, checked_mul, checked_sub, checked_add, usize_max.
  rewrite (proj2 (Z.leb_le (count * size) u64_max)) by lia. cbn [ok_or mbind outcome_bind].
  rewrite (proj2 (Z.leb_le (count * size) (remaining h))) by lia. cbn [ok_or mbind outcome_bind].
  rewrite (proj2 (Z.leb_le (used h + count * size) u64_max)) by lia. done.
Qed.

Section Exact.
Context (grants : Z -> Z -> option Z) (Hgrants : forall size n, grants size n = Some n).
Lemma vector_ok size count label h : heap_ok h -> 0 <= count -> 0 <= size -> count * size <= remaining h -> vector grants size count label h = Ok (spend (count * size) h).
Proof using Type*.
  intros Hh Hc Hz Hle. unfold vector. rewrite charge_ok by done. cbn [mbind outcome_bind]. rewrite Hgrants. cbn [ok_or mbind outcome_bind].
  unfold saturating_sub. rewrite (proj2 (Z.leb_le count count)), Z.sub_diag by lia.
  rewrite charge_ok; [| apply spend_ok; [done | nia] | lia | done | cbn; lia]. unfold spend. cbn. do 2 f_equal; lia.
Qed.
Lemma filled_ok {T} size count (v : T) label h : heap_ok h -> 0 <= count -> 0 <= size -> count * size <= remaining h ->
  filled grants size count v label h = Ok (replicate (Z.to_nat count) v, spend (count * size) h).
Proof using Type*. intros Hh Hc Hz Hle. unfold filled. by rewrite vector_ok. Qed.
End Exact.

Lemma next_power v p : 0 < v -> checked_next_power_of_two v = Some p -> exists k, 0 <= k /\ p = 2 ^ k /\ v <= p < 2 * v.
Proof.
  intros Hv. unfold checked_next_power_of_two. destruct (Z.leb_spec v 1) as [Hle | Hgt].
  - intros [= <-]. exists 0. lia.
  - destruct (_ <=? _) eqn:E; [| done]. intros [= <-]. exists (Z.log2 (v - 1) + 1). pose proof (Z.log2_nonneg (v - 1)).
    destruct (Z.log2_spec (v - 1)) as [Hlo Hhi]; [lia |]. rewrite <- Z.add_1_r, Z.pow_add_r in * by lia. lia.
Qed.
Lemma next_power_Some v : 0 < v -> 2 * v <= u64_max -> exists p, checked_next_power_of_two v = Some p.
Proof.
  intros Hv Hle. unfold checked_next_power_of_two. destruct (Z.leb_spec v 1) as [Hv1 | Hgt]; [by eexists |].
  rewrite (proj2 (Z.leb_le _ _)); [by eexists |]. pose proof (Z.log2_nonneg (v - 1)).
  destruct (Z.log2_spec (v - 1)) as [Hlo Hhi]; [lia |]. rewrite <- Z.add_1_r, Z.pow_add_r in * by lia. lia.
Qed.

(** *** What the index answers *)

(** A feed of the array that is not selected. *)
Definition hole (m : IndexMap) (es : list FeedEntry) (i : Z) : Prop :=
  exists positions, m = Dense positions /\ 0 <= i < zlen positions /\ forall p, ~ selected_at es i p.
Record index_answers (m : IndexMap) (es : list FeedEntry) : Prop := {
  ia_found i p : selected_at es i p -> index_get m i = Ok (Some (Z.of_nat p));
  ia_absent i : 0 <= i -> (forall p, ~ selected_at es i p) -> ~ hole m es i -> index_get m i = Ok None;
  ia_hole i : hole m es i -> index_get m i = Panic "attempt to subtract with overflow";
}.

Lemma dense_answers es positions : ordered es -> dense_holds es positions -> Forall (fun e => fe_index e < zlen positions) es -> index_answers (Dense positions) es.
Proof.
  intros Ho Hd Hb. split; unfold index_get.
  - intros i p (e & He & <-). destruct (ordered_range _ _ _ Ho He) as [Hr _]. rewrite Forall_lookup in Hb. specialize (Hb _ _ He).
    destruct (zlen_lookup positions (fe_index e)) as (v & Hv); [lia |]. rewrite Hv. cbn [mbind outcome_bind].
    destruct (Hd _ _ Hv) as [[_ Hno] | (q & -> & (e' & He' & Hi))].
    + destruct (Hno p). exists e. split; [done | lia].
    + assert (q = p) as -> by (eapply ordered_unique; [done | exact He' | exact He | lia]). unfold usub. rewrite (proj2 (Z.leb_le _ _)) by lia. cbn. do 2 f_equal. lia.
  - intros i Hi Hno Hh. destruct (positions !! Z.to_nat i) as [v|] eqn:E; [| done]. destruct Hh. exists positions. split; [done |]. split; [| done].
    split; [done | by eapply lookup_zlen].
  - intros i (l & [= <-] & Hi & Hno). destruct (zlen_lookup positions i Hi) as (v & Hv). rewrite Hv. cbn [mbind outcome_bind].
    destruct (Hd _ _ Hv) as [[-> _] | (q & _ & Hq)]; [done |]. rewrite Z2Nat.id in Hq by lia. by destruct (Hno q).
Qed.
Lemma sparse_answers es slots mask : ordered es -> sparse_holds es slots mask -> zlen es < zlen slots -> index_answers (Sparse slots mask) es.
Proof.
  intros Ho Hh Hroom. assert (Hget : forall i, index_get (Sparse slots mask) i = value ← index_probe (length slots) i (spot (zlen slots) i 0) mask slots;
    match value with None => Ok None | Some v => position ← usub v 1; Ok (Some position) end).
  { intros i. unfold index_get. rewrite (mask_mod _ _ _ (sh_size _ _ _ Hh)) by apply hash_range. unfold spot. by rewrite Z.add_0_r. }
  assert (Hends : forall i, _) by (intros i; exact (index_probe_ends es slots mask Ho Hh Hroom i (length slots) 0 ltac:(lia) ltac:(unfold zlen; lia) ltac:(intros j Hj; lia))).
  split.
  - intros i p Hp. rewrite Hget, (proj1 (Hends i) p Hp). cbn [mbind outcome_bind]. unfold usub. rewrite (proj2 (Z.leb_le _ _)) by lia. cbn. do 2 f_equal. lia.
  - intros i _ Hno _. rewrite Hget, (proj2 (Hends i) Hno). done.
  - by intros i (? & ? & _).
Qed.

Lemma sparse_start n k : 0 <= k -> n = 2 ^ k -> sparse_holds [] (replicate (Z.to_nat n) (mkIndexSlot 0 0)) (n - 1).
Proof.
  intros Hk ->. assert (0 < 2 ^ k) by by apply Z.pow_pos_nonneg. split.
  - exists k. rewrite zlen_replicate. split; [done |]. lia.
  - intros i s [-> _]%lookup_replicate. cbn. lia.
  - done.
  - cbn. generalize (Z.to_nat (2 ^ k)). intros m. induction m as [|m IH]; [done |]. cbn [replicate]. rewrite filter_cons_False by (cbn; tauto). exact IH.
Qed.

(** The index is an array, and it has a place for this feed. *)
Definition hides (es : list FeedEntry) (i : Z) : bool :=
  match list.last es, checked_next_power_of_two (zlen es * 2) with
  | Some last, Some n => ((fe_index last + 1) * 4 <=? n * 8) && (i <=? fe_index last)
  | _, _ => false
  end.

Lemma index_new_answers cancelled grants es h : (forall size n, grants size n = Some n) -> ordered es -> heap_ok h -> 32 * zlen es <= remaining h ->
  ends cancelled (index_new cancelled grants es h) (fun '(m, h') => index_answers m es /\ (exists n, h' = spend n h /\ 0 <= n <= 32 * zlen es)
    /\ forall i, 0 <= i -> (forall p, ~ selected_at es i p) -> hole m es i <-> hides es i = true).
Proof.
  intros Hg Ho Hh Hroom. unfold index_new, hides. destruct (list.last es) as [last|] eqn:El.
  2: { apply last_None in El as ->. apply ends_ret.
       split; [split; [by intros i p (? & ? & _) | done | by intros i (? & ? & _)] |].
       split; [exists 0; unfold spend; destruct h; cbn; split; [f_equal; lia | unfold zlen; cbn; lia] |]. intros i _ _. split; [by intros (? & ? & _) | done]. }
  rewrite last_lookup in El. destruct (ordered_range _ _ _ Ho El) as [Hr Hp]. pose proof (lookup_lt_Some _ _ _ El) as Hlen.
  pose proof Ho as (_ & _ & Hmax). assert (0 < zlen es) as Hpos by (unfold zlen; lia). unfold u32_max in *.
  destruct (next_power_Some (zlen es * 2)) as (n & En); [lia | unfold u64_max; lia |].
  destruct (next_power (zlen es * 2) n ltac:(lia) En) as (k & Hk & Hn & Hlo).
  eapply ends_run; [unfold checked_mul, usize_max, u64_max; rewrite (proj2 (Z.leb_le _ _)) by lia; cbn; rewrite En; done |]. cbv beta zeta.
  eapply ends_run; [unfold checked_mul, usize_max, u64_max; rewrite (proj2 (Z.leb_le _ _)) by lia; done |].
  unfold checked_mul, usize_max, u64_max. rewrite (proj2 (Z.leb_le ((fe_index last + 1) * 4) _)) by lia.
  rewrite En. destruct (Z.leb_spec ((fe_index last + 1) * 4) (n * 8)) as [Hle | Hgt].
  - eapply ends_run; [apply filled_ok; [done | done | lia | lia | lia] |]. cbv beta iota.
    assert (Hall : Forall (fun e => fe_index e < fe_index last + 1) es).
    { apply Forall_lookup. intros i e Hi. pose proof (lookup_lt_Some _ _ _ Hi). destruct (decide (i = pred (length es))) as [-> | Hne]; [simplify_eq; lia |].
      pose proof (ordered_lookup es i (pred (length es)) e last Ho Hi El). lia. }
    eapply ends_bind; [apply (fill_dense_holds cancelled es Ho es []); [done | | rewrite zlen_replicate; eapply Forall_impl; [exact Hall |]; cbn; lia] |].
    + intros i v [-> _]%lookup_replicate. left. split; [done |]. by intros p (? & ? & _).
    + intros positions [Hd Hl]. apply ends_ret. rewrite zlen_replicate, Z2Nat.id in Hl by lia.
      split; [apply dense_answers; [done | done |]; eapply Forall_impl; [exact Hall |]; cbn; lia |]. split; [eexists; split; [done | lia] |].
      intros i Hi Hno. cbn [andb]. rewrite Z.leb_le. split; [intros (l & [= <-] & Hl' & _); lia |]. intros Hil. exists positions. split; [done |]. split; [lia | done].
  - eapply ends_run; [apply filled_ok; [done | done | lia | lia | lia] |]. cbv beta iota.
    eapply ends_run; [unfold usub; rewrite (proj2 (Z.leb_le _ _)) by lia; done |].
    eapply ends_bind; [apply (fill_sparse_holds cancelled es (n - 1) Ho es []); [done | by eapply sparse_start | rewrite zlen_replicate; lia] |].
    intros slots [Hs Hl]. apply ends_ret. split; [by apply sparse_answers |]. split; [eexists; split; [done | lia] |].
    intros i _ _. split; [by intros (? & ? & _) | done].
Qed.

(** ** Bits of a word *)

Lemma lowest_bit w : 0 < w -> exists t m, 0 <= t /\ w = (2 * m + 1) * 2 ^ t.
Proof.
  intros Hw. assert (H0 : 0 <= w) by lia. revert Hw. pattern w. apply Z_lt_induction; [| exact H0]. clear w H0. intros w IH Hw.
  destruct (Z.Even_or_Odd w) as [[x Hx] | [x Hx]]; [| exists 0, x; lia].
  destruct (IH x ltac:(lia) ltac:(lia)) as (t & m & Ht & Hm). exists (t + 1), m. split; [lia |]. rewrite Z.pow_add_r, Z.pow_1_r by lia. lia.
Qed.
(** Above its lowest bit a number and its negation are complements. *)
Lemma odd_bits m t b : 0 <= t -> 0 <= b -> Z.testbit ((2 * m + 1) * 2 ^ t) b = if b <? t then false else if b =? t then true else Z.testbit m (b - t - 1).
Proof.
  intros Ht Hb. destruct (Z.ltb_spec b t); [by apply Z.mul_pow2_bits_low |]. rewrite Z.mul_pow2_bits by done.
  destruct (Z.eqb_spec b t) as [-> | Hne]; [rewrite Z.sub_diag; apply Z.testbit_odd_0 |].
  replace (b - t) with (Z.succ (b - t - 1)) at 1 by lia. apply Z.testbit_odd_succ. lia.
Qed.
Lemma trailing_zeros_lowest w : 0 < w -> let t := trailing_zeros w in 0 <= t /\ Z.testbit w t = true
  /\ (forall b, 0 <= b < t -> Z.testbit w b = false) /\ forall b, 0 <= b -> Z.testbit (Z.land w (w - 1)) b = Z.testbit w b && negb (b =? t).
Proof.
  intros Hw. destruct (lowest_bit w Hw) as (t & m & Ht & Hm).
  assert (Hneg : forall b, 0 <= b -> Z.testbit (- w) b = if b <? t then false else if b =? t then true else negb (Z.testbit m (b - t - 1))).
  { intros b Hb. replace (- w) with ((2 * Z.lnot m + 1) * 2 ^ t) by (unfold Z.lnot; lia). rewrite odd_bits by done.
    destruct (Z.ltb_spec b t), (Z.eqb_spec b t); try done. apply Z.lnot_spec. lia. }
  assert (Htz : trailing_zeros w = t).
  { unfold trailing_zeros. rewrite <- (Z.log2_pow2 t Ht). f_equal. apply Z.bits_inj'. intros b Hb. rewrite Z.land_spec, Hneg, Hm, odd_bits by done.
    rewrite Z.pow2_bits_eqb by done. rewrite (Z.eqb_sym t b). destruct (Z.ltb_spec b t), (Z.eqb_spec b t); try done; try lia; by destruct (Z.testbit m _). }
  cbv zeta. rewrite Htz. split; [done |]. split; [rewrite Hm, odd_bits, Z.ltb_irrefl, Z.eqb_refl by done; done |]. split.
  - intros b Hb. rewrite Hm. apply Z.mul_pow2_bits_low. lia.
  - intros b Hb. rewrite Z.land_spec. replace (w - 1) with (Z.lnot (- w)) by (unfold Z.lnot; lia). rewrite Z.lnot_spec, Hneg by done.
    rewrite Hm, odd_bits by done. destruct (Z.ltb_spec b t), (Z.eqb_spec b t); try done; try lia; by destruct (Z.testbit m _).
Qed.

(** ** Decoding *)

Definition bit (words : list Z) (i : Z) : bool := Z.testbit (nth (Z.to_nat (i / 64)) words 0) (i mod 64).
(** A bitmap of feeds: words of 64 bits, for indexes of 32. *)
Definition bitmap_ok (words : list Z) : Prop := Forall (fun w => 0 <= w < 2 ^ 64) words /\ zlen words * 64 <= 2 ^ 32.
Record shows (view : MembershipView) (words : list Z) : Prop := {
  sw_count : word_count view = Ok (zlen words);
  sw_word i : 0 <= i -> word view i = Ok (words !! Z.to_nat i);
  sw_read start n : 0 <= start <= zlen words -> 0 <= n -> read_words view start n = Ok (take (Z.to_nat n) (drop (Z.to_nat start) words));
}.
(** The position is of a feed the bitmap names. *)
Definition hit (es : list FeedEntry) (words : list Z) (q : Z) : Prop := 0 <= q /\ exists e, es !! Z.to_nat q = Some e /\ bit words (fe_index e) = true.
(** The positions of [P] that are hit, in order. *)
Definition chosen (es : list FeedEntry) (words : list Z) (P : Z -> Prop) (l : list Z) : Prop :=
  StronglySorted Z.lt l /\ forall q, q ∈ l <-> P q /\ hit es words q.
Definition decoded (es : list FeedEntry) (words : list Z) (l : list Z) : Prop := chosen es words (fun _ => True) l.

Lemma decoded_unique es words a b : decoded es words a -> decoded es words b -> a = b.
Proof. intros [Ha Ea] [Hb Eb]. apply ascending_unique; [done | done |]. intros x. by rewrite Ea, Eb. Qed.
Lemma chosen_ext es words P Q l : (forall q, hit es words q -> P q <-> Q q) -> chosen es words P l -> chosen es words Q l.
Proof. intros He [Hs Hl]. split; [done |]. intros q. rewrite Hl. split; intros [? Hh]; (split; [by apply (He q Hh) | done]). Qed.
Lemma chosen_push es words P l q : chosen es words P l -> hit es words q -> (forall q', hit es words q' -> P q' -> q' < q) ->
  chosen es words (fun q' => P q' \/ q' = q) (l ++ [q]).
Proof.
  intros [Hs Hl] Hq Hlt. split.
  - apply ascending_app; [done |]. apply Forall_forall. intros x Hx. apply Hl in Hx as [HP Hh]. by apply Hlt.
  - intros x. rewrite elem_of_app, list_elem_of_singleton, Hl. split; [intros [[? ?] | ->]; auto | intros [[? | ->] ?]; auto].
Qed.

(** The flags of a scratch mark the positions that are present. *)
Definition marks (n : Z) (l flags : list Z) : Prop :=
  zlen flags = n /\ Forall (fun q => 0 <= q < n) l /\ forall i v, flags !! i = Some v -> v = if decide (Z.of_nat i ∈ l) then 1 else 0.

Lemma marks_push n l flags q : marks n l flags -> 0 <= q < n -> marks n (l ++ [q]) (<[Z.to_nat q := 1]> flags).
Proof.
  intros (Hn & Hl & Hf) Hq. split; [by rewrite zlen_insert |]. split; [apply Forall_app; split; [done | constructor; [done | constructor]] |].
  intros i v Hi. rewrite list_lookup_insert in Hi. case_decide as Hc.
  - destruct Hc as [<- _]. injection Hi as <-. rewrite decide_True; [done |]. rewrite elem_of_app, list_elem_of_singleton. right. lia.
  - rewrite (Hf i v Hi). assert (Hne : Z.of_nat i <> q).
    { intros He. apply Hc. split; [lia |]. pose proof (lookup_lt_Some _ _ _ Hi). lia. }
    destruct (decide (Z.of_nat i ∈ l)) as [Hin | Hin]; [rewrite decide_True | rewrite decide_False]; rewrite ?elem_of_app, ?list_elem_of_singleton; tauto.
Qed.
Lemma present_marks n s q : marks n (present s) (flags s) -> 0 <= q < n -> n <= u32_max -> q ∉ present s ->
  exists s', scratch_push q s = Ok s' /\ present s' = present s ++ [q] /\ marks n (present s') (flags s') /\ sc_cache s' = sc_cache s.
Proof.
  intros Hm Hq Hn Hno. pose proof Hm as (Hlen & _ & Hf). unfold scratch_push. rewrite (proj2 (Z.ltb_ge _ _)) by lia.
  destruct (zlen_lookup (flags s) q) as (v & Hv); [lia |]. rewrite (index_lookup _ _ v) by (done || lia). cbn [mbind outcome_bind].
  rewrite (Hf _ _ Hv), Z2Nat.id, decide_False by (done || lia). cbn [negb Z.eqb]. rewrite set_index_ok by lia. cbn [mbind outcome_bind].
  eexists. split; [done |]. split; [done |]. split; [by apply marks_push | done].
Qed.

Lemma land_bit w k : 0 <= k -> (Z.land w (2 ^ k) =? 0) = negb (Z.testbit w k).
Proof.
  intros Hk. assert (E : Z.land w (2 ^ k) = if Z.testbit w k then 2 ^ k else 0).
  { apply Z.bits_inj'. intros b Hb. rewrite Z.land_spec, Z.pow2_bits_eqb by done. destruct (Z.eqb_spec k b) as [<- | Hne].
    - destruct (Z.testbit w k); [by rewrite Z.pow2_bits_true | by rewrite Z.bits_0].
    - rewrite andb_false_r. destruct (Z.testbit w k); [by rewrite Z.pow2_bits_false by lia | by rewrite Z.bits_0]. }
  rewrite E. destruct (Z.testbit w k); [| done]. assert (0 < 2 ^ k) by by apply Z.pow_pos_nonneg. by rewrite (proj2 (Z.eqb_neq _ _)) by lia.
Qed.
Lemma bit_beyond words i : zlen words <= i / 64 -> bit words i = false.
Proof. intros Hi. unfold bit. rewrite nth_overflow by (unfold zlen in Hi; lia). apply Z.bits_0. Qed.
Lemma bit_in words i w b : words !! Z.to_nat i = Some w -> 0 <= i -> 0 <= b < 64 -> bit words (64 * i + b) = Z.testbit w b.
Proof.
  intros Hw Hi Hb. unfold bit. replace ((64 * i + b) / 64) with i by (apply Z.div_unique with b; lia).
  replace ((64 * i + b) mod 64) with b by (apply Z.mod_unique with i; lia). by rewrite (nth_lookup_Some _ _ _ _ Hw).
Qed.

Section Decoding.
Context (cancelled : nat -> bool) (scope : ScopeData) (words : list Z).
Notation es := (entries scope).
Context (Ho : ordered (entries scope)) (Hw : bitmap_ok words).

(** The scratch holds the positions of [P] that are hit; the cache is as it
    was. *)
Definition holding (P : Z -> Prop) (cache : SequenceCache) (s : Scratch) : Prop :=
  chosen es words P (present s) /\ marks (zlen es) (present s) (flags s) /\ sc_cache s = cache.

Lemma hit_range q : hit es words q -> 0 <= q < zlen es.
Proof using Type. intros (Hq & e & He & _). split; [done | by eapply lookup_zlen]. Qed.
Lemma holding_ext P Q c s : (forall q, hit es words q -> P q <-> Q q) -> holding P c s -> holding Q c s.
Proof using Type. intros He (Hc & Hm). split; [by eapply chosen_ext | done]. Qed.
Lemma push_hit P c s q : holding P c s -> hit es words q -> (forall q', hit es words q' -> P q' -> q' < q) ->
  exists s', scratch_push q s = Ok s' /\ holding (fun q' => P q' \/ q' = q) c s'.
Proof using Ho.
  intros (Hc & Hm & <-) Hq Hlt. pose proof Ho as (_ & _ & Hmax).
  destruct (present_marks (zlen es) s q Hm (hit_range q Hq) Hmax) as (s' & E & Hp & Hm' & Hcache).
  { intros [HP Hh]%Hc. specialize (Hlt q Hh HP). lia. }
  exists s'. split; [done |]. split; [rewrite Hp; by apply chosen_push | done].
Qed.

(** *** Word by word of the selection *)

Notation before_pos pos := (fun q : Z => q < Z.of_nat pos).

Lemma hit_order p q e e' : es !! p = Some e -> es !! q = Some e' -> fe_index e <= fe_index e' -> (p <= q)%nat.
Proof using Ho. intros Hp Hq Hle. pose proof (ordered_lookup es q p e' e Ho Hq Hp). lia. Qed.

Lemma decode_word_ends k w : words !! Z.to_nat k = Some w -> 0 <= k -> forall rest pos c s, rest = drop pos es -> holding (before_pos pos) c s ->
  ends cancelled (decode_word cancelled rest (Z.of_nat pos) k w s) (fun '(s', position, rest') => exists pos', position = Z.of_nat pos'
    /\ rest' = drop pos' es /\ holding (before_pos pos') c s' /\ (length rest' <= length rest)%nat
    /\ match rest with e :: _ => fe_index e / 64 = k -> (length rest' < length rest)%nat | [] => True end).
Proof using Ho.
  intros Hkw Hk. induction rest as [|e rest IH]; intros pos c s Hr Hh; cbn [decode_word].
  { apply ends_ret. exists pos. by split. }
  assert (He : es !! pos = Some e) by (rewrite <- (Nat.add_0_r pos), <- lookup_drop, <- Hr; done).
  assert (Hrest : rest = drop (S pos) es) by (rewrite <- Nat.add_1_r, <- drop_drop, <- Hr; done).
  destruct (Z.eqb_spec (fe_index e / 64) k) as [Hek | Hek]; cbn [negb].
  2: { apply ends_ret. exists pos. do 3 (split; [done |]). split; [done | intros ?; done]. }
  apply ends_checked. destruct (ordered_range _ _ _ Ho He) as [Hi _].
  assert (Hbit : bit words (fe_index e) = Z.testbit w (fe_index e mod 64)).
  { rewrite (Z.div_mod (fe_index e) 64) at 1 by lia. rewrite Hek. apply bit_in; [done | done |]. apply Z.mod_pos_bound. lia. }
  assert (Hnext : exists s', (if negb (Z.land w (2 ^ (fe_index e mod 64)) =? 0) then scratch_push (Z.of_nat pos) s else Ok s) = Ok s' /\ holding (before_pos (S pos)) c s').
  { rewrite land_bit, <- Hbit by (apply Z.mod_pos_bound; lia). destruct (bit words (fe_index e)) eqn:Eb; cbn [negb].
    - destruct (push_hit _ _ _ (Z.of_nat pos) Hh) as (s' & E & Hh'); [split; [lia |]; exists e; by rewrite Nat2Z.id | by intros |].
      exists s'. split; [done |]. eapply holding_ext; [| exact Hh']. intros q _. cbn. lia.
    - exists s. split; [done |]. eapply holding_ext; [| exact Hh]. intros q (Hq & e' & He' & Hb). cbn. split; [lia |]. intros Hlt.
      destruct (decide (q = Z.of_nat pos)) as [-> | Hne]; [rewrite Nat2Z.id in He'; congruence | lia]. }
  destruct Hnext as (s' & Es & Hh'). eapply ends_bind with (P := fun x => x = s').
  { destruct (negb _); [by eapply ends_lift | apply ends_ret; by injection Es]. }
  intros ? ->. replace (Z.of_nat pos + 1) with (Z.of_nat (S pos)) by lia.
  eapply ends_mono; [by apply IH |]. intros [[s2 position] rest'] (pos' & -> & Hr' & Hh2 & Hle & _). exists pos'. split; [done |]. split; [done |]. split; [done |].
  cbn [length]. split; [lia | intros _; lia].
Qed.

Lemma decode_selected_ends view c : shows view words -> forall rounds rest pos s, rest = drop pos es -> holding (before_pos pos) c s -> (length rest <= rounds)%nat ->
  ends cancelled (decode_selected cancelled rounds view (zlen words) rest (Z.of_nat pos) s) (holding (fun _ => True) c).
Proof using Ho.
  intros Hv. induction rounds as [|rounds IH]; intros rest pos s Hr Hh Hlen; (destruct rest as [|e rest]; cbn [decode_selected]; [| cbn in Hlen; try lia]).
  1,2: apply ends_ret; eapply holding_ext; [| exact Hh]; intros q Hq%hit_range; split; [done | intros _];
    assert (length (drop pos es) = 0%nat) as Hl by (by rewrite <- Hr); rewrite length_drop in Hl; unfold zlen in Hq; lia.
  assert (He : es !! pos = Some e) by (rewrite <- (Nat.add_0_r pos), <- lookup_drop, <- Hr; done).
  destruct (ordered_range _ _ _ Ho He) as [Hi _]. destruct (Z.leb_spec (zlen words) (fe_index e / 64)) as [Hle | Hlt].
  - apply ends_ret. eapply holding_ext; [| exact Hh]. intros q (Hq & e' & He' & Hb). split; [done | intros _].
    destruct (Z.lt_ge_cases q (Z.of_nat pos)) as [? | Hge]; [done |]. exfalso.
    assert (fe_index e <= fe_index e'). { pose proof (ordered_lookup es _ _ _ _ Ho He' He). lia. }
    rewrite bit_beyond in Hb; [done |]. etrans; [exact Hle |]. apply Z.div_le_mono; lia.
  - assert (0 <= fe_index e / 64) by (apply Z.div_pos; lia). destruct (zlen_lookup words (fe_index e / 64)) as (w & Hkw); [lia |].
    eapply ends_run; [by apply (sw_word _ _ Hv) |]. rewrite Hkw. eapply ends_run; [done |].
    eapply ends_bind; [by eapply (decode_word_ends _ w) |]. intros [[s' position] rest'] (pos' & -> & Hr' & Hh' & _ & Hdec). specialize (Hdec eq_refl). cbn in Hdec.
    apply IH; [done | done | lia].
Qed.

(** *** Bit by bit of the membership *)

(** Every feed the membership names is selected, or can be looked up and left
    out. *)
Definition readable : Prop := forall i, 0 <= i -> bit words i = true ->
  (exists p, selected_at es i p) \/ all_catalog scope = false /\ ~ hole (index scope) es i.

Notation below bound := (fun q : Z => forall e, es !! Z.to_nat q = Some e -> fe_index e < bound).

(** Nothing is named between the two bounds. *)
Lemma below_skip c s lo hi : lo <= hi -> (forall i, lo <= i < hi -> bit words i = false) -> holding (below lo) c s -> holding (below hi) c s.
Proof using Type.
  intros Hle Hno. apply holding_ext. intros q (Hq & e & He & Hb). split; intros Hbelow e' He'; specialize (Hbelow e' He'); [lia |].
  assert (e' = e) as -> by congruence. destruct (Z.lt_ge_cases (fe_index e) lo); [done |]. rewrite Hno in Hb by lia. done.
Qed.
(** The next feed that is named is looked up. *)
Lemma below_named c s i : index_answers (index scope) es -> readable -> 0 <= i -> bit words i = true -> holding (below i) c s ->
  exists s', (found ← position scope i; match found with Some p => scratch_push p s
                | None => if all_catalog scope then Err (Corrupt "membership names an inactive feed") else Ok s end) = Ok s' /\ holding (below (i + 1)) c s'.
Proof using Ho.
  intros Hix Hread Hi Hbit Hh. unfold position. destruct (decide (Exists (fun e => fe_index e = i) es)) as [Hex | Hnex].
  - apply Exists_exists in Hex as (e & (p & He)%list_elem_of_lookup & Hei).
    rewrite (ia_found _ _ Hix i p) by (by exists e). cbn [mbind outcome_bind]. destruct (push_hit _ _ _ (Z.of_nat p) Hh) as (s' & E & Hh').
    + split; [lia |]. exists e. rewrite Nat2Z.id. split; [done | by rewrite Hei].
    + intros q (Hq & e' & He' & _) Hlt. specialize (Hlt e' He'). pose proof (ordered_lookup es _ _ _ _ Ho He' He). lia.
    + exists s'. split; [done |]. eapply holding_ext; [| exact Hh']. intros q (Hq & e' & He' & _). split.
      * intros [Hlt | ->] e2 He2; [specialize (Hlt e2 He2); lia |]. rewrite Nat2Z.id in He2. simplify_eq. lia.
      * intros Hlt. specialize (Hlt e' He'). destruct (decide (fe_index e' = i)) as [Heq | Hne].
        -- right. assert (Z.to_nat q = p) as <- by (eapply ordered_unique; [done | exact He' | exact He | congruence]). lia.
        -- left. intros e2 He2. simplify_eq. lia.
  - assert (Hno : forall p, ~ selected_at es i p).
    { intros p (e & He & Hei). apply Hnex, Exists_exists. exists e. split; [by eapply list_elem_of_lookup_2 | done]. }
    destruct (Hread i Hi Hbit) as [(p & Hp) | [Hall Hnh]]; [by destruct (Hno p) |]. rewrite (ia_absent _ _ Hix i Hi Hno Hnh). cbn [mbind outcome_bind].
    rewrite Hall. exists s. split; [done |]. eapply holding_ext; [| exact Hh]. intros q (Hq & e' & He' & _). split; intros Hlt e2 He2; specialize (Hlt e2 He2); [lia |].
    assert (fe_index e2 <> i); [| lia]. intros Heq. apply (Hno (Z.to_nat q)). by exists e2.
Qed.

Section Words.
Context (Hix : index_answers (index scope) (entries scope)) (Hread : readable).

Lemma decode_bits_ends k w0 c : words !! Z.to_nat k = Some w0 -> 0 <= k < zlen words -> forall rounds j w s, 0 <= j <= 64 -> 64 - j <= Z.of_nat rounds ->
  0 <= w -> (forall b, 0 <= b -> Z.testbit w b = Z.testbit w0 b && (j <=? b)) -> holding (below (64 * k + j)) c s ->
  exists s', decode_bits rounds scope k w s = Ok s' /\ holding (below (64 * (k + 1))) c s'.
Proof using Type*.
  intros Hkw Hk. destruct Hw as [Hwords Hmax]. rewrite Forall_lookup in Hwords. pose proof (Hwords _ _ Hkw) as Hw0.
  assert (Hhigh : forall b, 64 <= b -> Z.testbit w0 b = false).
  { intros b Hb. rewrite <- (Z.mod_small w0 (2 ^ 64)) by done. by apply Z.mod_pow2_bits_high. }
  induction rounds as [|rounds IH]; intros j w s Hj Hr Hw0' Hbits Hh; cbn [decode_bits]; destruct (Z.eqb_spec w 0) as [-> | Hne].
  1,3: exists s; split; [done |]; eapply below_skip; [| | exact Hh]; [lia |]; intros i Hi;
    replace i with (64 * k + (i - 64 * k)) by lia; rewrite (bit_in _ _ w0) by (done || lia); specialize (Hbits (i - 64 * k) ltac:(lia));
    rewrite Z.bits_0, (proj2 (Z.leb_le _ _)), andb_true_r in Hbits by lia; done.
  - exfalso. apply Hne. apply Z.bits_inj'. intros b Hb. rewrite Z.bits_0, Hbits by done. destruct (Z.lt_ge_cases b 64).
    + rewrite (proj2 (Z.leb_gt _ _)) by lia. apply andb_false_r.
    + by rewrite Hhigh.
  - destruct (trailing_zeros_lowest w ltac:(lia)) as (Ht & Hset & Hlow & Hnext). set (t := trailing_zeros w) in *.
    pose proof (Hbits t Ht) as Hbt. rewrite Hset in Hbt. symmetry in Hbt. apply andb_true_iff in Hbt as [Hbt Hjt]. apply Z.leb_le in Hjt.
    assert (t < 64) by (destruct (Z.lt_ge_cases t 64) as [? | Hge]; [done | rewrite Hhigh in Hbt; done]).
    unfold checked_mul, checked_add, u32_max. rewrite (proj2 (Z.leb_le (k * 64) _)) by lia. cbn [mbind option_bind].
    rewrite (proj2 (Z.leb_le (k * 64 + t) _)) by lia. cbn [ok_or mbind outcome_bind].
    destruct (below_named c s (k * 64 + t) Hix Hread) as (s' & E & Hh').
    + lia.
    + replace (k * 64 + t) with (64 * k + t) by lia. by rewrite (bit_in _ _ w0) by (done || lia).
    + eapply below_skip; [| | exact Hh]; [lia |]. intros i Hi. replace i with (64 * k + (i - 64 * k)) by lia.
      rewrite (bit_in _ _ w0) by (done || lia). specialize (Hbits (i - 64 * k) ltac:(lia)). rewrite (proj2 (Z.leb_le _ _)), andb_true_r in Hbits by lia.
      rewrite <- Hbits. apply Hlow. lia.
    + assert (Hsplit : forall A B (r : Result A) (f : A -> Result B) y, (x ← r; f x) = Ok y -> exists x, r = Ok x /\ f x = Ok y).
      { intros A B r f y Hy. destruct r as [x | |]; [by exists x | done | done]. }
      apply Hsplit in E as (found & -> & E). cbn [mbind outcome_bind]. rewrite E. cbn [mbind outcome_bind].
      apply (IH (t + 1)); [lia | lia | apply Z.land_nonneg; lia | | by replace (64 * k + (t + 1)) with (k * 64 + t + 1) by lia].
      intros b Hb. rewrite Hnext, Hbits by done. destruct (Z.testbit w0 b) eqn:E0; [| done]. cbn [andb].
      destruct (Z.leb_spec j b), (Z.eqb_spec b t), (Z.leb_spec (t + 1) b); cbn; try done; try lia.
      specialize (Hbits b Hb). rewrite Hlow, E0, (proj2 (Z.leb_le j b)) in Hbits by lia. done.
Qed.

Lemma decode_bits_word k w c s : words !! Z.to_nat k = Some w -> 0 <= k < zlen words -> holding (below (64 * k)) c s ->
  exists s', decode_bits 64 scope k w s = Ok s' /\ holding (below (64 * (k + 1))) c s'.
Proof using Type*.
  intros Hkw Hk Hh. apply (decode_bits_ends k w c Hkw Hk 64 0); [lia | lia | | | by rewrite Z.add_0_r].
  - destruct Hw as [Hwords _]. rewrite Forall_lookup in Hwords. apply (Hwords _ _ Hkw).
  - intros b Hb. rewrite (proj2 (Z.leb_le 0 b)), andb_true_r by done. done.
Qed.

Lemma decode_batch_ends c start : 0 <= start -> forall ws offset s, 0 <= offset -> (forall i w, ws !! i = Some w -> words !! Z.to_nat (start + offset + Z.of_nat i) = Some w) ->
  start + offset + zlen ws <= zlen words -> holding (below (64 * (start + offset))) c s ->
  exists s', decode_batch ws scope start offset s = Ok s' /\ holding (below (64 * (start + offset + zlen ws))) c s'.
Proof using Type*.
  intros Hstart. pose proof Hw as [_ Hmax]. induction ws as [|w ws IH]; intros offset s Hoff Hat Hle Hh; cbn [decode_batch].
  { exists s. split; [done |]. by rewrite zlen_nil, Z.add_0_r. }
  rewrite zlen_cons in *. pose proof (zlen_nonneg ws).
  assert (E0 : ok_or (checked_add u32_max start offset) (ArithmeticOverflow "membership word index") = Ok (start + offset)).
  { unfold checked_add, u32_max. rewrite (proj2 (Z.leb_le _ _)) by lia. done. }
  pose proof (Hat 0%nat w eq_refl) as Hfirst. rewrite Z.add_0_r in Hfirst.
  destruct (decode_bits_word (start + offset) w c s Hfirst ltac:(lia) Hh) as (s1 & E & Hh1).
  rewrite (bind_run _ _ _ E0), (bind_run _ _ _ E). replace (start + offset + (1 + zlen ws)) with (start + (offset + 1) + zlen ws) by lia.
  apply IH; [lia | | lia | by replace (64 * (start + (offset + 1))) with (64 * (start + offset + 1)) by lia].
  intros i x Hx. replace (start + (offset + 1) + Z.of_nat i) with (start + offset + Z.of_nat (S i)) by lia. by apply Hat.
Qed.

Lemma decode_all_ends view c : shows view words -> forall rounds start s, 0 <= start <= zlen words -> zlen words - start <= Z.of_nat rounds ->
  holding (below (64 * start)) c s -> ends cancelled (decode_all cancelled rounds view scope (zlen words) start s) (holding (fun _ => True) c).
Proof using Type*.
  intros Hv. pose proof Hw as [_ Hmax]. induction rounds as [|rounds IH]; intros start s Hstart Hr Hh; cbn [decode_all];
    destruct (Z.ltb_spec start (zlen words)) as [Hlt | Hge]; cbn [negb]; try lia.
  1,3: apply ends_ret; eapply holding_ext; [| exact Hh]; intros q (Hq & e & He & Hb); split; [done | intros _ e' He'];
    assert (e' = e) as -> by congruence; destruct (Z.lt_ge_cases (fe_index e) (64 * start)); [done |]; rewrite bit_beyond in Hb; [done |]; apply Z.div_le_lower_bound; lia.
  eapply ends_bind with (P := fun _ => True); [destruct (negb _); [by apply ends_check | by apply ends_ret] |]. intros [] _.
  eapply ends_run; [apply (sw_read _ _ Hv); [lia | unfold WORD_BATCH; lia] |]. set (ws := take _ _).
  assert (Hws : zlen ws = Z.min (zlen words - start) WORD_BATCH).
  { unfold ws, zlen, WORD_BATCH in *. rewrite length_take, length_drop. lia. }
  eapply ends_bind with (P := fun _ => True); [apply ends_fail_if; [by rewrite Hws, Z.eqb_refl | exact I] |]. intros [] _.
  destruct (decode_batch_ends c start ltac:(lia) ws 0 s) as (s' & E & Hh').
  - lia.
  - intros i w Hi. unfold ws in Hi. rewrite lookup_take_Some, lookup_drop in Hi. destruct Hi as [Hi _]. replace (Z.to_nat (start + 0 + Z.of_nat i)) with (Z.to_nat start + i)%nat by lia. done.
  - rewrite Hws. lia.
  - by rewrite Z.add_0_r.
  - eapply ends_run; [exact E |]. eapply ends_run; [unfold checked_add, u32_max; rewrite (proj2 (Z.leb_le _ _)) by (rewrite Hws; lia); done |].
    apply IH; [rewrite Hws; unfold WORD_BATCH; lia | rewrite Hws; unfold WORD_BATCH; lia | by rewrite Z.add_0_r in Hh'].
Qed.

(** Both decoders find the positions whose feeds the membership names. *)
Lemma decode_ends view c s : shows view words -> present s = [] -> marks (zlen es) [] (flags s) -> sc_cache s = c ->
  ends cancelled (decode cancelled view scope s) (holding (fun _ => True) c).
Proof using Type*.
  intros Hv Hp Hm Hc. unfold decode. eapply ends_run; [apply (sw_count _ _ Hv) |].
  assert (Hstart : forall P : Z -> Prop, (forall q, hit es words q -> ~ P q) -> holding P c s).
  { intros P HP. split; [| by rewrite Hp]. rewrite Hp. split; [constructor |]. intros q. rewrite elem_of_nil. split; [done |]. intros [? Hh]. by destruct (HP q Hh). }
  destruct (_ <? _).
  - apply (decode_selected_ends view c Hv (length es) es 0 s); [done | | done]. apply Hstart. intros q (Hq & _). lia.
  - pose proof (zlen_nonneg words). apply decode_all_ends; [done | lia | lia |]. apply Hstart. intros q (Hq & e & He & _) Hlt. specialize (Hlt e He).
    destruct (ordered_range _ _ _ Ho He). lia.
Qed.
End Words.
End Decoding.

(** ** The cache *)

Lemma lxor_shift_nonneg v k : 0 <= v -> 0 <= Z.lxor v (Z.shiftr v k).
Proof. intros Hv. apply Z.lxor_nonneg. rewrite Z.shiftr_nonneg. tauto. Qed.
Lemma hash_key_nonneg k : 0 <= k -> 0 <= hash_key k.
Proof. intros Hk. unfold hash_key, mix. cbv zeta. apply lxor_shift_nonneg. apply Z.mod_pos_bound. lia. Qed.

Lemma slice_ok {A} (l : list A) start n : 0 <= start -> 0 <= n -> start + n <= zlen l -> slice l start n = Ok (take (Z.to_nat n) (drop (Z.to_nat start) l)).
Proof. intros Hs Hn Hle. unfold slice. by rewrite (proj2 (Z.leb_le _ _)). Qed.
Section Cache.
Context (D : Z -> list Z -> Prop).

(** Every sequence in the cache is one its key stands for. *)
Record cache_ok (c : SequenceCache) : Prop := {
  co_size : ca_slots c = [] \/ exists k, 0 <= k /\ zlen (ca_slots c) = 2 ^ k /\ ca_mask c = zlen (ca_slots c) - 1;
  co_room : zlen (ca_positions c) <= ca_position_limit c <= MAX_POSITIONS;
  co_count : 0 <= ca_entries c <= ca_entry_limit c /\ ca_entry_limit c <= MAX_ENTRIES;
  co_fresh : ca_slots c = [] -> ca_positions c = [] /\ ca_entries c = 0;
  co_slot i s : ca_slots c !! i = Some s -> ca_length_plus_one s <> 0 -> 0 <= ca_offset s /\ 1 <= ca_length_plus_one s
    /\ ca_offset s + (ca_length_plus_one s - 1) <= zlen (ca_positions c)
    /\ D (ca_value s) (take (Z.to_nat (ca_length_plus_one s - 1)) (drop (Z.to_nat (ca_offset s)) (ca_positions c)));
}.

Lemma cache_find_ok c hash matches : cache_ok c -> forall rounds index, ca_slots c <> [] -> 0 <= index < zlen (ca_slots c) ->
  cache_find rounds c hash matches index = Ok None
  \/ exists s i, cache_find rounds c hash matches index = Ok (Some s) /\ ca_slots c !! i = Some s /\ ca_length_plus_one s <> 0 /\ matches s = true.
Proof using Type.
  intros Hc. induction rounds as [|rounds IH]; intros index Hne Hi; cbn [cache_find]; [by left |].
  destruct (zlen_lookup _ _ Hi) as (s & Hs). rewrite (index_lookup _ _ s) by (done || lia). cbn [mbind outcome_bind].
  destruct (Z.eqb_spec (ca_length_plus_one s) 0) as [Hz | Hz]; [by left |].
  destruct (_ && _) eqn:E; [right; exists s, (Z.to_nat index); apply andb_true_iff in E as [_ E]; done |].
  destruct (co_size _ Hc) as [? | Hsize]; [done |]. rewrite (mask_mod _ _ _ Hsize) by lia. pose proof (size_pos _ _ Hsize). apply IH; [done |]. by apply Z.mod_pos_bound.
Qed.
Lemma keyed_ok c k : cache_ok c -> 0 <= k -> keyed c k = Ok None \/ exists l, keyed c k = Ok (Some l) /\ D k l.
Proof using Type.
  intros Hc Hk. unfold keyed. destruct (_ || _) eqn:E; [by left |]. apply orb_false_iff in E as [Hk0 Hne%bool_decide_eq_false].
  destruct (co_size _ Hc) as [? | Hsize]; [done |]. rewrite (mask_mod _ _ _ Hsize) by by apply hash_key_nonneg. pose proof (size_pos _ _ Hsize).
  destruct (cache_find_ok c (hash_key k) (fun s => ca_value s =? k) Hc (length (ca_slots c)) (hash_key k mod zlen (ca_slots c)) Hne) as [-> | (s & i & -> & Hs & Hl & Hv)];
    [by apply Z.mod_pos_bound | by left |].
  apply Z.eqb_eq in Hv as <-. right. destruct (co_slot _ Hc i s Hs Hl) as (Ho & H1 & Hle & HD). cbn [mbind outcome_bind].
  unfold sequence, usub. rewrite (proj2 (Z.leb_le 1 _)) by lia. cbn [mbind outcome_bind]. rewrite slice_ok by lia. by eexists.
Qed.

Lemma insert_loop_ok c hash key l : cache_ok c -> D key l -> zlen (ca_positions c) + zlen l <= ca_position_limit c -> ca_entries c < ca_entry_limit c ->
  forall rounds index, ca_slots c <> [] -> 0 <= index < zlen (ca_slots c) ->
  exists c', insert_loop rounds c hash key (zlen (ca_positions c)) (zlen l) l index = Ok c' /\ cache_ok c'.
Proof using Type.
  intros Hc HD Hroom Hcount. pose proof (co_room _ Hc) as Hlim. pose proof (co_count _ Hc). pose proof (zlen_nonneg l). pose proof (zlen_nonneg (ca_positions c)).
  unfold MAX_POSITIONS, MAX_ENTRIES in *.
  induction rounds as [|rounds IH]; intros index Hne Hi; cbn [insert_loop]; [by exists c |].
  destruct (zlen_lookup _ _ Hi) as (s & Hs). rewrite (index_lookup _ _ s) by (done || lia). cbn [mbind outcome_bind].
  destruct (co_size _ Hc) as [? | Hsize]; [done |].
  destruct (Z.eqb_spec (ca_length_plus_one s) 0) as [Hz | Hz].
  2: { rewrite (mask_mod _ _ _ Hsize) by lia. pose proof (size_pos _ _ Hsize). apply IH; [done |]. by apply Z.mod_pos_bound. }
  unfold checked_add, u32_max, uadd, usize_max, u64_max. rewrite (proj2 (Z.leb_le (zlen l + 1) _)) by lia. cbn [ok_or mbind outcome_bind].
  rewrite set_index_ok by done. cbn [mbind outcome_bind]. rewrite (proj2 (Z.leb_le (ca_entries c + 1) _)) by lia. cbn [mbind outcome_bind].
  eexists. split; [done |]. split; cbn [ca_slots ca_mask ca_positions ca_position_limit ca_entries ca_entry_limit].
  - right. by rewrite zlen_insert.
  - rewrite zlen_app. unfold MAX_POSITIONS. lia.
  - unfold MAX_ENTRIES. lia.
  - intros Hnil%(f_equal length). rewrite length_insert in Hnil. apply lookup_lt_Some in Hs. cbn in Hnil. lia.
  - intros i x Hx Hl. rewrite list_lookup_insert in Hx. case_decide as Hcase.
    + injection Hx as <-. cbn [ca_offset ca_length_plus_one ca_value]. rewrite zlen_app. split; [lia |]. split; [lia |]. split; [lia |].
      replace (Z.to_nat (zlen (ca_positions c))) with (length (ca_positions c)) by (unfold zlen; lia). rewrite drop_app_length.
      rewrite take_ge; [done |]. unfold zlen. lia.
    + destruct (co_slot _ Hc i x Hx Hl) as (Ho & Hl1 & Hle & HDx). rewrite zlen_app. do 2 (split; [done |]). split; [lia |].
      rewrite drop_app_le by (unfold zlen in *; lia). rewrite take_app_le; [done |]. rewrite length_drop. unfold zlen in *. lia.
Qed.
Lemma cache_insert_ok c hash key l : cache_ok c -> D key l -> 0 <= hash -> zlen l <= u32_max -> exists c', cache_insert hash key l c = Ok c' /\ cache_ok c'.
Proof using Type.
  intros Hc HD Hk Hl. unfold cache_insert. destruct (_ || _) eqn:E; [by exists c |].
  apply orb_false_iff in E as [Hne%bool_decide_eq_false Hcount%Z.eqb_neq]. pose proof (co_room _ Hc) as Hroom. pose proof (co_count _ Hc) as Hcnt.
  unfold usub. rewrite (proj2 (Z.leb_le _ _)) by lia. cbn [mbind outcome_bind]. destruct (Z.ltb_spec (ca_position_limit c - zlen (ca_positions c)) (zlen l)) as [Hlt | Hge]; [by exists c |].
  unfold MAX_POSITIONS, u32_max in *. rewrite !(proj2 (Z.ltb_ge _ _)) by lia. cbn [orb].
  destruct (co_size _ Hc) as [? | Hsize]; [done |]. rewrite (mask_mod _ _ _ Hsize) by lia. pose proof (size_pos _ _ Hsize).
  apply insert_loop_ok; [done | done | lia | lia | done | by apply Z.mod_pos_bound].
Qed.
Lemma insert_keyed_ok c key l : cache_ok c -> D key l -> 0 < key -> zlen l <= u32_max -> exists c', insert_keyed key l c = Ok c' /\ cache_ok c'.
Proof using Type.
  intros Hc HD Hk Hl. unfold insert_keyed. rewrite (proj2 (Z.eqb_neq key 0)) by lia. apply cache_insert_ok; [done | done | apply hash_key_nonneg; lia | done].
Qed.

(** *** Sequences as keys *)

Section Sequences.
Context (cancelled : nat -> bool).
Lemma hash_sequence_ends l : Forall (fun q => 0 <= q) l -> ends cancelled (hash_sequence cancelled l) (fun hash => 0 <= hash).
Proof using Type.
  intros Hl. unfold hash_sequence. pose proof (hash_key_nonneg (zlen l) (zlen_nonneg l)) as Hh. unfold hash_key in Hh.
  enough (Hloop : forall work hash, 0 <= hash -> ends cancelled (hash_loop cancelled l work hash) (fun hash => 0 <= hash)) by by apply Hloop.
  clear Hh. induction Hl as [|q l Hq Hl IH]; intros work hash Hh; cbn [hash_loop]; [by apply ends_ret |]. apply ends_checked. apply IH. apply hash_key_nonneg. by apply Z.lxor_nonneg.
Qed.
Lemma sequences_equal_ends a b : ends cancelled (sequences_equal cancelled a b) (fun same => same = true <-> a = b).
Proof using Type.
  unfold sequences_equal. destruct (Z.eqb_spec (zlen a) (zlen b)) as [Hl | Hl]; cbn [negb]; [| apply ends_ret; split; [done | by intros ->]].
  revert b Hl. generalize 0. induction a as [|x a IH]; intros work [|y b] Hl; rewrite ?zlen_cons in Hl; cbn [equal_loop];
    try (pose proof (zlen_nonneg a)); try (pose proof (zlen_nonneg b)); try (unfold zlen in Hl; cbn in Hl; lia); [by apply ends_ret |].
  apply ends_checked. destruct (Z.eqb_spec x y) as [-> | Hne]; cbn [negb]; [| apply ends_ret; split; [done | congruence]].
  eapply ends_mono; [apply IH; lia |]. intros same ->. split; [by intros -> | by intros [= ->]].
Qed.
(** The value found for a sequence was inserted for this very sequence. *)
Lemma sequence_value_ok c l : cache_ok c -> Forall (fun q => 0 <= q) l -> ends cancelled (sequence_value cancelled l c) (fun r => forall v, r = Some v -> D v l).
Proof using Type.
  intros Hc Hl. unfold sequence_value. case_bool_decide as Hne; [by apply ends_ret |]. eapply ends_bind; [by apply hash_sequence_ends |]. intros hash Hh.
  destruct (co_size _ Hc) as [? | Hsize]; [done |]. pose proof (size_pos _ _ Hsize) as Hpos. rewrite (mask_mod _ _ _ Hsize) by done.
  assert (Hi : 0 <= hash mod zlen (ca_slots c) < zlen (ca_slots c)) by by apply Z.mod_pos_bound. revert Hi. generalize (hash mod zlen (ca_slots c)). generalize (length (ca_slots c)).
  induction n as [|n IH]; intros index Hi; cbn [value_loop]; [by apply ends_ret |]. destruct (zlen_lookup _ _ Hi) as (s & Hs). eapply ends_run; [apply index_lookup; [lia | exact Hs] |].
  destruct (Z.eqb_spec (ca_length_plus_one s) 0) as [Hz | Hz]; [by apply ends_ret |]. destruct (co_slot _ Hc _ _ Hs Hz) as (Ho & H1 & Hle & HD).
  eapply ends_bind with (P := fun same => same = true -> D (ca_value s) l).
  - destruct (_ =? _); [| by apply ends_ret]. unfold sequence, usub. rewrite (proj2 (Z.leb_le 1 _)) by lia. cbn [mbind outcome_bind]. eapply ends_run; [apply slice_ok; lia |].
    eapply ends_mono; [apply sequences_equal_ends |]. intros same Hsame ->. by rewrite <- (proj1 Hsame eq_refl).
  - intros same Hsame. destruct same; [apply ends_ret; intros v [= <-]; by apply Hsame |]. rewrite (mask_mod _ _ _ Hsize) by lia. apply IH. by apply Z.mod_pos_bound.
Qed.
Lemma insert_sequence_ok c v l : cache_ok c -> D v l -> v <> 0 -> zlen l <= u32_max -> Forall (fun q => 0 <= q) l -> ends cancelled (insert_sequence cancelled l v c) cache_ok.
Proof using Type.
  intros Hc HD Hv Hl Hq. unfold insert_sequence. eapply ends_bind with (P := fun _ => True); [apply ends_fail_if; [by apply Z.eqb_neq | done] |]. intros _ _.
  eapply ends_bind; [by apply hash_sequence_ends |]. intros hash Hh. destruct (cache_insert_ok c hash v l Hc HD Hh Hl) as (c' & E & Hc'). by eapply ends_lift.
Qed.
End Sequences.
End Cache.

Lemma floor_power v : 0 < v -> exists k, 0 <= k /\ floor_power_of_two v = 2 ^ k /\ 2 ^ k <= v.
Proof.
  intros Hv. unfold floor_power_of_two. rewrite (proj2 (Z.eqb_neq v 0)) by lia. exists (Z.log2 v). pose proof (Z.log2_nonneg v). destruct (Z.log2_spec v Hv). done.
Qed.

Lemma cache_enable_ok D grants max_bytes c h : (forall size n, grants size n = Some n) -> cache_ok D c -> heap_ok h -> 0 <= max_bytes ->
  exists c' n, cache_enable grants max_bytes c h = Ok (c', spend n h) /\ 0 <= n <= Z.min (remaining h) max_bytes /\ cache_ok D c'.
Proof.
  intros Hg Hc Hh Hmax. pose proof (co_fresh _ _ Hc) as Hempty. pose proof Hh as (Hr & _). assert (Hzero : spend 0 h = h) by (unfold spend; destruct h; cbn; f_equal; lia).
  assert (Hkeep : exists c' n, Ok (c, h) = Ok (E := Error) (c', spend n h) /\ 0 <= n <= Z.min (remaining h) max_bytes /\ cache_ok D c').
  { exists c, 0. rewrite Hzero. split; [done |]. split; [lia | done]. }
  unfold cache_enable. case_bool_decide as Hslots; [| done]. cbn [negb]. destruct (Hempty Hslots) as [Hpos Hcount].
  set (available := Z.min (remaining h) max_bytes) in *. assert (0 <= available) by lia.
  set (limit := floor_power_of_two _). destruct (Z.eqb_spec limit 0) as [Hz | Hnz]; [done |].
  assert (0 <= Z.min (available / (SLOT_SIZE * 2 + 4)) MAX_ENTRIES) as Hpossible.
  { apply Z.min_glb; [apply Z.div_pos; [done | unfold SLOT_SIZE; lia] | unfold MAX_ENTRIES; lia]. }
  destruct (floor_power (Z.min (available / (SLOT_SIZE * 2 + 4)) MAX_ENTRIES)) as (k & Hk & Hlim & Hle).
  { assert (Z.min (available / (SLOT_SIZE * 2 + 4)) MAX_ENTRIES <> 0); [| lia]. intros He. apply Hnz. unfold limit. by rewrite He. }
  fold limit in Hlim. assert (Hcost : limit * 48 <= available).
  { assert (limit <= available / 52) by (rewrite Hlim; etrans; [exact Hle | apply Z.le_min_l]). pose proof (Z.mul_div_le available 52). lia. }
  assert (0 < limit) by (rewrite Hlim; by apply Z.pow_pos_nonneg).
  set (capacity := Z.min _ MAX_POSITIONS). destruct (Z.eqb_spec capacity 0) as [Hz | Hcap]; [done |].
  assert (0 <= capacity /\ limit * 2 * SLOT_SIZE + capacity * 4 <= available /\ capacity <= MAX_POSITIONS) as (Hc0 & Hcost2 & HcapM).
  { unfold capacity, saturating_sub, SLOT_SIZE in *. rewrite (proj2 (Z.leb_le _ _)) by lia. pose proof (Z.mul_div_le (available - limit * 2 * 24) 4).
    assert (0 <= (available - limit * 2 * 24) / 4) by (apply Z.div_pos; lia). unfold MAX_POSITIONS. lia. }
  rewrite (filled_ok grants Hg) by (unfold SLOT_SIZE in *; (done || lia)). cbn [mbind outcome_bind].
  rewrite (vector_ok grants Hg) by (unfold spend, heap_ok, SLOT_SIZE in *; cbn; lia). cbn [mbind outcome_bind].
  eexists _, (limit * 2 * SLOT_SIZE + capacity * 4). split; [unfold spend; cbn; do 3 f_equal; lia |]. split; [unfold SLOT_SIZE in *; lia |].
  split; cbn [ca_slots ca_mask ca_positions ca_position_limit ca_entries ca_entry_limit].
  - right. exists (k + 1). rewrite zlen_replicate, Hlim, Z.pow_add_r by lia. split; [lia |]. lia.
  - rewrite zlen_nil. lia.
  - rewrite Hcount. unfold MAX_ENTRIES in *. lia.
  - intros _. done.
  - intros i s [-> _]%lookup_replicate. cbn. lia.
Qed.

(** ** The scratch *)

Section Load.
Context (cancelled : nat -> bool) (scope : ScopeData) (words_of : Z -> option (list Z)).
Notation es := (entries scope).
Context (Ho : ordered (entries scope)) (Hix : index_answers (index scope) (entries scope)).

(** The positions a membership stands for. *)
Definition members (membership : Z) (l : list Z) : Prop := exists words, words_of membership = Some words /\ decoded es words l.
Record scratch_ok (s : Scratch) : Prop := {
  so_marks : marks (zlen es) (present s) (flags s);
  so_cache : cache_ok members (sc_cache s);
  so_current m : sc_membership s = Some m -> members m (present s);
}.

Lemma clear_flags_ends n : forall l work flags, zlen flags = n -> Forall (fun q => 0 <= q < n) l -> (forall i v, flags !! i = Some v -> v = 0 \/ Z.of_nat i ∈ l) ->
  ends cancelled (clear_flags cancelled l work flags) (marks n []).
Proof using Type.
  induction l as [|q l IH]; intros work flags Hn Hl Hf; cbn [clear_flags].
  - apply ends_ret. split; [done |]. split; [constructor |]. intros i v Hi. rewrite decide_False by apply not_elem_of_nil.
    destruct (Hf i v Hi) as [-> | Hin]; [done |]. by apply elem_of_nil in Hin.
  - apply Forall_cons in Hl as [Hq Hl]. apply ends_checked. eapply ends_run; [apply set_index_ok; lia |].
    apply IH; [by rewrite zlen_insert | done |]. intros i v Hi. rewrite list_lookup_insert in Hi. case_decide as Hc; [injection Hi as <-; by left |].
    destruct (Hf i v Hi) as [-> | Hin]; [by left |]. apply elem_of_cons in Hin as [He | Hin]; [| by right]. destruct Hc. split; [lia |].
    apply lookup_lt_Some in Hi. lia.
Qed.
Lemma scratch_clear_ends s : scratch_ok s -> ends cancelled (scratch_clear cancelled s)
  (fun s' => present s' = [] /\ marks (zlen es) [] (flags s') /\ sc_membership s' = None /\ sc_cache s' = sc_cache s).
Proof using Type.
  intros [(Hn & Hl & Hf) _ _]. unfold scratch_clear. eapply ends_bind; [apply (clear_flags_ends (zlen es)); [done | done |] |].
  - intros i v Hi. rewrite (Hf i v Hi). destruct (decide _); [by right | by left].
  - intros flags' Hm. by apply ends_ret.
Qed.

Lemma load_cached_ends s0 : forall l work s, marks (zlen es) (present s) (flags s) -> Forall (fun q => 0 <= q < zlen es) l -> sc_cache s = sc_cache s0 ->
  ends cancelled (load_cached cancelled l work s) (fun s' => present s' = present s ++ l /\ marks (zlen es) (present s') (flags s') /\ sc_cache s' = sc_cache s0).
Proof using Type.
  induction l as [|q l IH]; intros work s Hm Hl Hc; cbn [load_cached].
  { apply ends_ret. by rewrite app_nil_r. }
  apply Forall_cons in Hl as [Hq Hl]. apply ends_checked. pose proof Hm as (Hn & _). eapply ends_run; [apply set_index_ok; lia |].
  eapply ends_mono; [apply IH; [by apply marks_push | done | done] |]. cbn. intros s'. by rewrite <- app_assoc.
Qed.

Lemma decoded_range words l : decoded es words l -> Forall (fun q => 0 <= q < zlen es) l.
Proof using Type. intros [_ Hl]. apply Forall_forall. intros q [_ Hq]%Hl. by eapply hit_range. Qed.
Lemma decoded_len words l : decoded es words l -> zlen l <= zlen es.
Proof using Type.
  intros Hd. pose proof (decoded_range _ _ Hd) as Hr. destruct Hd as [Hs _]. assert (Hnd : NoDup l).
  { clear -Hs. induction Hs as [|x l Hs IH Hx]; constructor; [| done]. intros Hin. rewrite Forall_forall in Hx. specialize (Hx x Hin). lia. }
  assert (Hsub : l ⊆+ seqZ 0 (zlen es)); [| apply submseteq_length in Hsub; rewrite length_seqZ in Hsub; unfold zlen in *; lia].
  apply NoDup_submseteq; [done |]. intros q Hq. rewrite Forall_forall in Hr. specialize (Hr q Hq). apply elem_of_seqZ. lia.
Qed.

(** What a scratch holds after a load. *)
Lemma load_ends membership_of m words view s : words_of m = Some words -> 0 < m -> membership_of m = Ok view -> shows view words -> bitmap_ok words ->
  readable scope words -> scratch_ok s ->
  ends cancelled (load cancelled membership_of m scope s) (fun s' => scratch_ok s' /\ sc_membership s' = Some m /\ decoded es words (present s')).
Proof using Ho Hix.
  intros Hwords Hm Hview Hshows Hok Hread Hs. unfold load. case_bool_decide as Hcur.
  { apply ends_ret. split; [done |]. split; [done |]. destruct (so_current _ Hs m Hcur) as (w & Hw & Hd). by simplify_eq. }
  eapply ends_bind; [by apply scratch_clear_ends |]. intros s1 (Hp1 & Hm1 & Hn1 & Hc1).
  assert (Hcache : cache_ok members (sc_cache s1)) by (rewrite Hc1; apply Hs).
  destruct (keyed_ok members (sc_cache s1) m Hcache ltac:(lia)) as [Hk | (l & Hk & (w & Hw & Hd))]; (eapply ends_run; [exact Hk |]).
  - eapply ends_run; [exact Hview |].
    eapply ends_bind; [by apply (decode_ends cancelled scope words Ho Hok Hix Hread view (sc_cache s1) s1 Hshows) |].
    intros s2 (Hd & Hm2 & Hc2). assert (Hmem : members m (present s2)) by by exists words.
    destruct (insert_keyed_ok members (sc_cache s2) m (present s2)) as (c & E & Hc); [by rewrite Hc2 | done | done | |].
    { pose proof (decoded_len _ _ Hd). pose proof Ho as (_ & _ & ?). lia. }
    eapply ends_run; [exact E |]. apply ends_ret. cbn. split; [| done]. split; cbn; [done | done |]. by intros ? [= <-].
  - simplify_eq. eapply ends_bind; [apply (load_cached_ends s1 l 0 s1); [by rewrite Hp1 | by eapply decoded_range | done] |].
    intros s2 (Hp2 & Hm2 & Hc2). rewrite Hp1 in Hp2. cbn in Hp2. apply ends_ret. cbn. rewrite Hp2 in *. split; [| done].
    split; cbn; rewrite ?Hp2; [done | by rewrite Hc2 |]. intros ? [= <-]. by exists words.
Qed.
End Load.

Lemma cache_empty_ok D : cache_ok D cache_empty.
Proof. split; cbn; [by left | unfold MAX_POSITIONS, zlen; cbn; lia | unfold MAX_ENTRIES; lia | done |]. intros i s Hs. by rewrite lookup_nil in Hs. Qed.

Section NewScratch.
Context (grants : Z -> Z -> option Z) (Hgrants : forall size n, grants size n = Some n) (scope : ScopeData) (words_of : Z -> option (list Z)).

Lemma scratch_new_ok h : heap_ok h -> 5 * zlen (entries scope) <= remaining h ->
  exists s, scratch_new grants (zlen (entries scope)) h = Ok (s, spend (5 * zlen (entries scope)) h) /\ scratch_ok scope words_of s.
Proof using Hgrants.
  intros Hh Hr. pose proof (zlen_nonneg (entries scope)). unfold scratch_new. rewrite (vector_ok grants Hgrants) by (done || lia). cbn [mbind outcome_bind].
  rewrite (filled_ok grants Hgrants) by (unfold heap_ok, spend in *; cbn; lia). cbn [mbind outcome_bind].
  eexists. split; [unfold spend; cbn; do 3 f_equal; lia |]. split; cbn [present flags sc_cache sc_membership].
  - split; [rewrite zlen_replicate; lia |]. split; [constructor |]. intros i v [-> _]%lookup_replicate. by rewrite decide_False by apply not_elem_of_nil.
  - apply cache_empty_ok.
  - done.
Qed.
Lemma scratch_enable_ok max_bytes s h : scratch_ok scope words_of s -> heap_ok h -> 0 <= max_bytes ->
  exists s' n, scratch_enable_cache grants max_bytes s h = Ok (s', spend n h) /\ 0 <= n <= Z.min (remaining h) max_bytes /\ scratch_ok scope words_of s' /\ present s' = present s.
Proof using Hgrants.
  intros [Hm Hc Hcur] Hh Hb. unfold scratch_enable_cache. destruct (cache_enable_ok _ grants max_bytes _ h Hgrants Hc Hh Hb) as (c & n & -> & Hn & Hc'). cbn [mbind outcome_bind].
  eexists _, n. split; [done |]. split; [done |]. by split.
Qed.
End NewScratch.

(** ** The specification *)

(** The positions of the feeds a bitmap names. *)
Fixpoint named_from (es : list FeedEntry) (words : list Z) (q : Z) : list Z :=
  match es with
  | [] => []
  | e :: es => if bit words (fe_index e) then q :: named_from es words (q + 1) else named_from es words (q + 1)
  end.
Definition named (es : list FeedEntry) (words : list Z) : list Z := named_from es words 0.

Lemma named_from_spec words : forall es q, StronglySorted Z.lt (named_from es words q)
  /\ forall x, x ∈ named_from es words q <-> q <= x /\ exists e, es !! Z.to_nat (x - q) = Some e /\ bit words (fe_index e) = true.
Proof.
  induction es as [|e es IH]; intros q; cbn [named_from].
  { split; [constructor |]. intros x. rewrite elem_of_nil. split; [done |]. intros (_ & e & He & _). by rewrite lookup_nil in He. }
  destruct (IH (q + 1)) as [Hs Hx].
  assert (Htail : forall x, x <> q -> x ∈ named_from es words (q + 1) <-> q <= x /\ exists e0, (e :: es) !! Z.to_nat (x - q) = Some e0 /\ bit words (fe_index e0) = true).
  { intros x Hne. rewrite Hx. destruct (Z.lt_ge_cases q x) as [Hlt | Hge].
    - replace (Z.to_nat (x - q)) with (S (Z.to_nat (x - (q + 1)))) by lia. cbn. split; intros [_ ?]; (split; [lia | done]).
    - split; intros [? _]; lia. }
  assert (Hq : forall e0, (e :: es) !! Z.to_nat (q - q) = Some e0 -> e0 = e) by (intros e0; rewrite Z.sub_diag; by intros [= <-]).
  destruct (bit words (fe_index e)) eqn:Eb; (split; [| intros x; destruct (decide (x = q)) as [-> | Hne]]).
  - constructor; [done |]. apply Forall_forall. intros x [? _]%Hx. lia.
  - rewrite elem_of_cons. split; [intros _ | by left]. split; [lia |]. exists e. by rewrite Z.sub_diag.
  - rewrite elem_of_cons, <- Htail by done. tauto.
  - done.
  - rewrite Hx. split; [lia |]. intros (_ & e0 & ->%Hq & Hb). congruence.
  - by apply Htail.
Qed.
Lemma named_decoded es words : decoded es words (named es words).
Proof.
  destruct (named_from_spec words es 0) as [Hs Hx]. split; [done |]. intros q. unfold named. rewrite Hx, Z.sub_0_r. unfold hit. tauto.
Qed.
Lemma decoded_named es words l : decoded es words l -> l = named es words.
Proof. intros Hd. eapply decoded_unique; [exact Hd | apply named_decoded]. Qed.

(** ** The positions of a scope *)

Lemma count_words_ends cancelled : forall es work count previous, ends cancelled (count_words cancelled es work count previous) (fun _ => True).
Proof. induction es as [|e es IH]; intros work count previous; cbn [count_words]; [by apply ends_ret |]. apply ends_checked. destruct (bool_decide _); apply IH. Qed.


Definition no_poll : nat -> bool := fun _ => false.
Definition one_word_view (w : Z) : MembershipView :=
  mkView (Ok 1) (fun i => Ok (if i =? 0 then Some w else None)) (fun start n => Ok (take (Z.to_nat n) (drop (Z.to_nat start) [w]))).
Definition one_feed_scope (i : Z) : io nat ScopeData :=
  scope_finish no_poll (fun _ n => Some n) [mkFeedEntry (mkFeedName [97] 1) i] false 4096 (heap_new 4096).

Lemma one_word_shows w : shows (one_word_view w) [w].
Proof.
  split; [done | |]; cbn.
  - intros k Hk. destruct (Z.eqb_spec k 0) as [-> |]; [done |]. rewrite lookup_cons_ne_0 by lia. by rewrite lookup_nil.
  - done.
Qed.

Lemma scope_finish_ok cancelled grants es all_catalog max_heap_bytes h : (forall size n, grants size n = Some n) -> ordered es -> heap_ok h -> 32 * zlen es <= remaining h ->
  ends cancelled (scope_finish cancelled grants es all_catalog max_heap_bytes h) (fun scope => entries scope = es /\ index_answers (index scope) es
    /\ forall i, 0 <= i -> (forall p, ~ selected_at es i p) -> hole (index scope) es i <-> hides es i = true).
Proof.
  intros Hg Ho Hh Hr. unfold scope_finish. eapply ends_bind; [apply count_words_ends |]. intros words _.
  eapply ends_bind; [by apply index_new_answers |]. intros [m h'] (Hix & _ & Hhole). by apply ends_ret.
Qed.

(** *** Scopes of names *)

#[export] Instance index_le_trans : Transitive index_le.
Proof. intros a b c. unfold index_le. lia. Qed.
#[export] Instance index_le_total : Total index_le.
Proof. intros a b. unfold index_le. lia. Qed.

Lemma take_named_ends cancelled lookup names found : Forall2 (fun n e => lookup n = Ok (Some e)) names found -> forall work es,
  ends cancelled (take_named cancelled lookup (Ok <$> names) work es) (fun l => l = es ++ found).
Proof.
  induction 1 as [|n e names found Hn _ IH]; intros work es; cbn [fmap list_fmap take_named]; [apply ends_ret; by rewrite app_nil_r |]. apply ends_checked.
  eapply ends_run; [done |]. eapply ends_run; [exact Hn |]. eapply ends_run; [done |]. eapply ends_mono; [apply IH |]. intros l ->. by rewrite <- app_assoc.
Qed.
(** Sorted entries pass exactly when no two have the same index. *)
Lemma distinct_ends cancelled : forall es work, StronglySorted index_le es -> NoDup (fe_index <$> es) ->
  ends cancelled (require_distinct cancelled es work) (fun _ => StronglySorted (fun a b => fe_index a < fe_index b) es).
Proof.
  intros es work Hs Hn. assert (Hstrict : StronglySorted (fun a b => fe_index a < fe_index b) es).
  { clear work. induction Hs as [|a es Hs IH Ha]; constructor; [apply IH; by apply NoDup_cons in Hn as [_ ?] |]. apply NoDup_cons in Hn as [Hin _]. rewrite Forall_forall in Ha |- *. intros b Hb. specialize (Ha b Hb).
    unfold index_le in Ha. assert (fe_index a <> fe_index b) by (intros He; apply Hin; rewrite He; by apply list_elem_of_fmap_2). lia. }
  eapply ends_mono with (P := fun _ => True); [| done]. clear Hstrict. revert work. induction es as [|a rest IH]; intros work; [by apply ends_ret |]. destruct rest as [|b rest]; cbn [require_distinct]; [by apply ends_ret |]. apply ends_checked.
  apply StronglySorted_inv in Hs as [Hs _]. apply NoDup_cons in Hn as [Hin Hn].
  eapply ends_bind with (P := fun _ => True); [apply ends_fail_if; [apply Z.eqb_neq; intros He; apply Hin; rewrite He; left | done] |]. intros _ _. by apply IH.
Qed.
(** A named scope has the entries of its names in the order of their indexes. *)
Lemma scope_named_ok cancelled grants lookup names found max_heap_bytes : (forall size n, grants size n = Some n) -> Forall2 (fun n e => lookup n = Ok (Some e)) names found -> names <> [] ->
  NoDup (fe_index <$> found) -> Forall (fun e => 0 <= fe_index e <= u32_max) found -> zlen names <= u32_max -> 292 * zlen names <= max_heap_bytes <= u64_max ->
  ends cancelled (scope_named cancelled grants lookup names max_heap_bytes) (fun scope => entries scope ≡ₚ found /\ ordered (entries scope) /\ index_answers (index scope) (entries scope)).
Proof.
  intros Hg Hf Hne Hn Hr Hmax Hb. pose proof (Forall2_length _ _ _ Hf) as Hlen. assert (Hz : zlen found = zlen names) by (unfold zlen; lia).
  assert (Hpos : 0 < zlen names) by (destruct names; [done | unfold zlen; cbn; lia]). unfold scope_named, scope_named_from.
  eapply ends_bind with (P := fun _ => True); [by apply ends_check |]. intros _ _. eapply ends_bind with (P := fun _ => True); [apply ends_fail_if; [apply Z.eqb_neq; lia | done] |]. intros _ _.
  assert (Hh : heap_ok (heap_new max_heap_bytes)) by (unfold heap_ok, heap_new; cbn; lia).
  eapply ends_run; [apply (vector_ok grants Hg); [done | lia | done | unfold heap_new, ENTRY_SIZE; cbn -[Z.mul]; lia] |].
  eapply ends_bind; [by apply take_named_ends |]. intros l ->. cbn [app]. eapply ends_bind with (P := fun _ => True); [apply ends_fail_if; [by rewrite Hz, Z.eqb_refl | done] |]. intros _ _.
  eapply ends_bind with (P := fun _ => True); [by apply ends_check |]. intros _ _. eapply ends_bind with (P := fun _ => True); [by apply ends_check |]. intros _ _.
  assert (Hperm : merge_sort index_le found ≡ₚ found) by apply merge_sort_Permutation. assert (Hz' : zlen (merge_sort index_le found) = zlen names) by (rewrite <- Hz; unfold zlen; by rewrite Hperm).
  eapply ends_bind; [apply distinct_ends; [apply StronglySorted_merge_sort; apply _ | by rewrite Hperm] |]. intros u Hs. cbn beta in Hs. assert (Ho : ordered (merge_sort index_le found)) by (split; [done |]; split; [by rewrite Hperm | lia]).
  eapply ends_mono; [apply scope_finish_ok; [done | exact Ho | apply spend_ok; [done |] |]; unfold spend, heap_new, ENTRY_SIZE; cbn -[Z.mul]; rewrite ?Hz'; lia |].
  intros scope (-> & Hix & _). done.
Qed.

(** *** Names in pages *)

Lemma copy_rest source at_ len : forall l index, 0 < index -> index + zlen l = len -> (forall k b, l !! k = Some b -> source !! Z.to_nat (at_ + index + Z.of_nat k) = Some b) ->
  copy_name (length l) source at_ index len = if forallb allowed (removelast l) then Some l else None.
Proof.
  induction l as [|b l IH]; intros index Hi Hl Hk; cbn [length copy_name]; [done |]. rewrite zlen_cons in Hl. assert (Hb : source !! Z.to_nat (at_ + index) = Some b) by (rewrite <- (Hk 0%nat b eq_refl); f_equal; lia). rewrite Hb.
  cbn [mbind option_bind]. rewrite (proj2 (Z.eqb_neq index 0)) by lia. cbn [negb andb].
  assert (Hrest : copy_name (length l) source at_ (index + 1) len = if forallb allowed (removelast l) then Some l else None).
  { apply IH; [lia | lia |]. intros k z Hz. replace (at_ + (index + 1) + Z.of_nat k) with (at_ + index + Z.of_nat (S k)) by lia. by apply Hk. }
  rewrite Hrest. destruct l as [|c l].
  - change (zlen (@nil Z)) with 0 in Hl. rewrite (proj2 (Z.eqb_eq (index + 1) len)) by lia. done.
  - rewrite zlen_cons in Hl. pose proof (zlen_nonneg l). rewrite (proj2 (Z.eqb_neq (index + 1) len)) by lia. cbn [negb andb]. change (removelast (b :: c :: l)) with (b :: removelast (c :: l)). cbn [forallb].
    destruct (allowed b); [| done]. cbn [negb andb]. by destruct (forallb allowed (removelast (c :: l))).
Qed.
(** Reading a name from a page is reading its bytes and then the name. *)
Lemma from_source_stored source at_ len : 0 <= at_ -> 0 <= len -> at_ + len <= usize_max ->
  from_source source at_ len = if at_ + len <=? zlen source then from_stored (take (Z.to_nat len) (drop (Z.to_nat at_) source)) else None.
Proof.
  intros Ha Hlen Hmax. unfold from_source, from_stored. destruct (Z.leb_spec (at_ + len) (zlen source)) as [Hfit | Hpast].
  2: { destruct (_ || _); [done |]. unfold checked_add. rewrite (proj2 (Z.leb_le _ _)) by lia. cbn [mbind option_bind]. by rewrite (proj2 (Z.ltb_lt _ _)). }
  set (name := take (Z.to_nat len) (drop (Z.to_nat at_) source)). assert (Hn : zlen name = len) by (unfold name, zlen in *; rewrite length_take, length_drop; lia).
  assert (Hlook : forall k b, name !! k = Some b -> source !! Z.to_nat (at_ + Z.of_nat k) = Some b).
  { intros k b. unfold name. rewrite lookup_take_Some, lookup_drop. intros [Hb _]. rewrite <- Hb. f_equal. lia. }
  destruct name as [|first rest] eqn:En; [change (zlen (@nil Z)) with 0 in Hn; by rewrite <- Hn |]. rewrite zlen_cons in Hn. pose proof (zlen_nonneg rest). rewrite (proj2 (Z.eqb_neq len 0)) by lia. cbn [orb valid].
  rewrite zlen_cons, Hn. destruct (Z.ltb_spec MAX_FEED_NAME len) as [Hbig | Hsmall]; cbn [orb]; [done |]. unfold checked_add. rewrite (proj2 (Z.leb_le _ _)) by lia. cbn [mbind option_bind]. rewrite (proj2 (Z.ltb_ge _ _)) by lia.
  pose proof (Hlook 0%nat first eq_refl) as Hfirst. rewrite Z.add_0_r in Hfirst. rewrite Hfirst. cbn [mbind option_bind].
  assert (Hcopy : copy_name (Z.to_nat len) source at_ 0 len = rest' ← (if forallb allowed (removelast rest) then Some rest else None); Some (first :: rest')).
  { replace (Z.to_nat len) with (S (length rest)) by (unfold zlen in *; lia). cbn [copy_name]. rewrite Z.add_0_r, Hfirst. cbn [mbind option_bind]. rewrite Z.eqb_refl. cbn [negb andb]. rewrite Z.add_0_l, copy_rest; [done | lia | lia |].
    intros k b Hb. rewrite <- (Hlook (S k) b Hb). f_equal. lia. }
  rewrite Hcopy. destruct rest as [|b rest' _] using rev_ind.
  - change (zlen (@nil Z)) with 0 in Hn. replace (at_ + len - 1) with at_ by lia. rewrite Hfirst. cbn. destruct (alphanumeric first); [| done]. cbn. by rewrite <- Hn.
  - rewrite last_snoc. rewrite removelast_last in *. assert (Hlast : source !! Z.to_nat (at_ + len - 1) = Some b).
    { rewrite <- (Hlook (S (length rest')) b); [f_equal; rewrite zlen_app in Hn; unfold zlen in Hn; cbn in Hn; lia |]. cbn. apply list_lookup_middle. done. }
    rewrite Hlast. cbn [mbind option_bind]. destruct (alphanumeric first), (alphanumeric b), (forallb allowed rest'); cbn; done.
Qed.

(** C8: the positions of a scope.  A feed it selects is found at its place; of
    the others, one that the index as an array has a place for makes the lookup
    panic, because its slot is 0 and 1 is taken from it; any other is answered
    with none. *)
Theorem scope_positions cancelled grants es all_catalog max_heap_bytes h : (forall size n, grants size n = Some n) -> ordered es -> heap_ok h -> 32 * zlen es <= remaining h ->
  ends cancelled (scope_finish cancelled grants es all_catalog max_heap_bytes h) (fun scope => entries scope = es
    /\ (forall i p, selected_at es i p -> position scope i = Ok (Some (Z.of_nat p)))
    /\ forall i, 0 <= i -> (forall p, ~ selected_at es i p) -> position scope i = if hides es i then Panic "attempt to subtract with overflow" else Ok None).
Proof.
  intros Hg Ho Hh Hr. eapply ends_mono; [by apply scope_finish_ok |]. intros scope (He & Hix & Hhole). split; [done |]. split; [apply Hix |].
  intros i Hi Hno. specialize (Hhole i Hi Hno). unfold position. destruct (hides es i); [by apply Hix, Hhole |]. apply Hix; [done | done |]. by intros ?%Hhole.
Qed.
Lemma scope_positions_witness : exists asked scope, one_feed_scope 1 0%nat = (asked, Ok scope)
  /\ position scope 1 = Ok (Some 0) /\ position scope 0 = Panic "attempt to subtract with overflow" /\ position scope 2 = Ok None.
Proof.
  set (es := [mkFeedEntry (mkFeedName [97] 1) 1]).
  assert (Hends : ends no_poll (one_feed_scope 1) (fun scope => entries scope = es
    /\ (forall i p, selected_at es i p -> position scope i = Ok (Some (Z.of_nat p)))
    /\ forall i, 0 <= i -> (forall p, ~ selected_at es i p) -> position scope i = if hides es i then Panic "attempt to subtract with overflow" else Ok None)).
  { apply scope_positions; [done | | unfold heap_ok, heap_new, u64_max; cbn; lia | unfold zlen; cbn; lia].
    split; [repeat constructor |]. split; [repeat constructor; cbn; unfold u32_max; lia | unfold zlen, u32_max; cbn; lia]. }
  assert (Hno : forall i p, i <> 1 -> ~ selected_at es i p).
  { intros i [|p] Hi (e & He & Hx); cbn in He; [simplify_eq; cbn in Hi; lia | done]. }
  destruct (ends_ok no_poll _ _ (fun _ => eq_refl) Hends 0%nat) as (asked & scope & E & _ & Hin & Hout). exists asked, scope. split; [exact E |].
  split; [apply (Hin 1 0%nat); by eexists |]. split; [apply (Hout 0 ltac:(lia)); by intros p; apply Hno | apply (Hout 2 ltac:(lia)); by intros p; apply Hno].
Defined.

(** A scope of the feed 1 meets a membership of the feeds 0 and 1. *)
Lemma unselected_feed_panics : (scope ← one_feed_scope 1; load no_poll (fun _ => Ok (one_word_view 3)) 1 scope (mkScratch [] [0] None cache_empty)) 0%nat
  = (0%nat, Panic "attempt to subtract with overflow").
Proof. by vm_compute. Qed.
