(* ===== verification/AlgebraScan.v ===== *)
(** * Set operations over memberships

    [membership_query/selected.rs] and [membership_query/algebra.rs] with its
    modules [scan], [selection] and [analysis]: feeds of the same name in several
    databases are one global feed; one sweep over the boundaries of the ranges
    of all databases cuts the addresses into segments on which the global feeds
    are constant, and the consumers of the segments count addresses. *)

From stdpp Require Import base tactics numbers list strings sorting.
From Stdlib Require Import ZArith Lia.
From S2P Require Import Prelude Errors Bytes Cardinality Key Codec Contract Machine Mapping RangeCursor MembershipScope.

#[local] Open Scope string_scope.
#[local] Open Scope list_scope.
#[local] Open Scope Z_scope.

(** ** Ranges of a scope *)

(** [GenerationReader], with the lookup of memberships as a function. *)
Record GenerationReader := mkReader {
  gr_mapping : Mapping;
  gr_meta : MetaV4;
  gr_owner : option bool;
  gr_membership : Z -> Result MembershipView;
}.

Definition require_membership_family (reader : GenerationReader) (family : AddressFamily) : Result unit :=
  if negb (bool_decide (value_kind (gr_meta reader) = Membership) || bool_decide (value_kind (gr_meta reader) = Structured))
  then Err (WrongValueKind "feed access requires a membership-capable database")
  else if negb (bool_decide (address_family (gr_meta reader) = family))
  then Err (WrongAddressFamily "feed cursor address family does not match the database")
  else Ok tt.

Section Selected.
Context {K : Type} `{IpKey K} (cancelled : nat -> bool) (grants : Z -> Z -> option Z).

Definition membership_ranges (reader : GenerationReader) : Result CursorState :=
  _ ← require_membership_family reader key_family;
  cursor_state_new (K := K) (gr_mapping reader) (gr_meta reader) RangeForward (gr_owner reader).

(** A [MembershipRange] is a record whose value is the membership. *)
Record SelectedRanges := mkSelected {
  sr_cursor : CursorState;
  sr_active : Scratch;
  sr_lookahead : option Scratch;
  sr_pending : option (Range K);
  sr_physical_count : Z;
}.

Definition selected_new (reader : GenerationReader) (scope : ScopeData) (h : Heap) : Result (SelectedRanges * Heap) :=
  '(active, h) ← scratch_new grants (zlen (entries scope)) h;
  '(lookahead, h) ← (if all_catalog scope then Ok (None, h)
                     else '(s, h) ← scratch_new grants (zlen (entries scope)) h; Ok (Some s, h));
  cursor ← membership_ranges reader;
  Ok (mkSelected cursor active lookahead None 0, h).

Definition sr_present (s : SelectedRanges) : list Z := present (sr_active s).
Definition selected (r : Range K) : K * K := (r_from r, r_to r).

Definition selected_enable_cache (max_bytes : Z) (s : SelectedRanges) (h : Heap) : Result (SelectedRanges * Heap) :=
  let scratch_count := match sr_lookahead s with Some _ => 2 | None => 1 end in
  let share := max_bytes / scratch_count in
  '(active, h) ← scratch_enable_cache grants share (sr_active s) h;
  '(lookahead, h) ← match sr_lookahead s with
                    | Some l => '(l, h) ← scratch_enable_cache grants share l h; Ok (Some l, h)
                    | None => Ok (None, h)
                    end;
  Ok (mkSelected (sr_cursor s) active lookahead (sr_pending s) (sr_physical_count s), h).

Context (reader : GenerationReader) (scope : ScopeData).

Definition next_physical (s : SelectedRanges) : io nat (SelectedRanges * option (Range K)) :=
  _ ← checkpoint_at cancelled (sr_physical_count s);
  let '(cursor, r) := cs_next (gr_mapping reader) (sr_cursor s) in
  range ← lift r;
  count ← lift (match range with
                | Some _ => ok_or (checked_add u64_max (sr_physical_count s) 1) (ArithmeticOverflow "membership scan range count")
                | None => Ok (sr_physical_count s)
                end);
  mret (mkSelected cursor (sr_active s) (sr_lookahead s) (sr_pending s) count, range).

Definition set_active (a : Scratch) (s : SelectedRanges) : SelectedRanges :=
  mkSelected (sr_cursor s) a (sr_lookahead s) (sr_pending s) (sr_physical_count s).
Definition set_lookahead (l : Scratch) (s : SelectedRanges) : SelectedRanges :=
  mkSelected (sr_cursor s) (sr_active s) (Some l) (sr_pending s) (sr_physical_count s).
Definition set_pending (p : option (Range K)) (s : SelectedRanges) : SelectedRanges :=
  mkSelected (sr_cursor s) (sr_active s) (sr_lookahead s) p (sr_physical_count s).
Definition load_scratch (membership : Z) (s : Scratch) : io nat Scratch := load cancelled (gr_membership reader) membership scope s.

(** The loop that looks for a range with a selected feed. *)
Fixpoint first_range (rounds : nat) (s : SelectedRanges) : io nat (SelectedRanges * option (Range K)) :=
  match rounds with
  | O => lift (Panic "ranges do not end")
  | S rounds =>
      '(s, found) ← next_physical s;
      match found with
      | None =>
          active ← scratch_clear cancelled (sr_active s);
          mret (set_active active s, None)
      | Some first =>
          active ← load_scratch (r_value first) (sr_active s);
          let s := set_active active s in
          if bool_decide (present active = []) then first_range rounds s else mret (s, Some first)
      end
  end.
(** The loop that joins adjacent ranges with the same feeds. *)
Fixpoint join_ranges (rounds : nat) (current : Range K) (s : SelectedRanges) : io nat (SelectedRanges * option (K * K)) :=
  match rounds with
  | O => lift (Panic "ranges do not end")
  | S rounds =>
      '(s, found) ← next_physical s;
      match found with
      | None => mret (s, Some (selected current))
      | Some next =>
          lookahead ← lift (ok_or (sr_lookahead s) (Corrupt "selected range lookahead disappeared"));
          lookahead ← load_scratch (r_value next) lookahead;
          let s := set_lookahead lookahead s in
          if bool_decide (present lookahead = []) then mret (s, Some (selected current))
          else if match checked_next (r_to current) with Some k => key_eqb k (r_from next) | None => false end
                  && bool_decide (sr_present s = present lookahead)
          then join_ranges rounds (mkRange (r_from current) (r_to next) (r_value current)) s
          else mret (set_pending (Some next) s, Some (selected current))
      end
  end.
Definition selected_next (rounds : nat) (s : SelectedRanges) : io nat (SelectedRanges * option (K * K)) :=
  '(s, current) ← match sr_pending s with
                  | Some pending =>
                      lookahead ← lift (ok_or (sr_lookahead s) (Corrupt "selected range lookahead is absent"));
                      mret (mkSelected (sr_cursor s) lookahead (Some (sr_active s)) None (sr_physical_count s), Some pending)
                  | None => first_range rounds s
                  end;
  match current with
  | None => mret (s, None)
  | Some current =>
      match sr_lookahead s with
      | None => mret (s, Some (selected current))
      | Some _ => join_ranges rounds current s
      end
  end.
End Selected.
Arguments SelectedRanges : clear implicits.

(** ** The virtual catalog *)

Record MembershipScopeState := mkScopeState {
  ss_address_family : AddressFamily;
  ss_range_record_count : Z;
  ss_data : ScopeData;
}.
(** [MembershipScope]; [Source] keeps its reader and its [ScopeData]. *)
Record MembershipScope := mkScope { sc_reader : GenerationReader; sc_state : MembershipScopeState }.
Record Source := mkSource { so_reader : GenerationReader; so_scope : ScopeData }.
Record InputState := mkInput { in_expected_ranges : Z; in_local_to_global : list Z }.
Record MembershipAlgebraState := mkAlgebraState {
  ma_family : AddressFamily;
  ma_inputs : list InputState;
  ma_names : list FeedName;
  ma_max_heap_bytes : Z;
  ma_heap_used : Z;
}.
Record MembershipAlgebra := mkAlgebra { ma_state : MembershipAlgebraState; ma_sources : list Source }.
Record AlgebraInput := mkAlgebraInput {
  ai_reader : GenerationReader;
  ai_scope : ScopeData;
  ai_expected_ranges : Z;
  ai_local_to_global : list Z;
}.
Record MembershipAlgebraBudget := mkAlgebraBudget { ab_max_heap_bytes : Z; ab_max_sources : Z }.

(** Sizes of the structures in memory. *)
Record Sizes := mkSizes { size_source : Z; size_input : Z; size_state : Z; size_event : Z }.
Definition NAME_SIZE : Z := 256.

Definition algebra_source (a : MembershipAlgebra) (index : Z) : Result AlgebraInput :=
  source ← ok_or (ma_sources a !! Z.to_nat index) (Corrupt "membership algebra source disappeared");
  input ← ok_or (ma_inputs (ma_state a) !! Z.to_nat index) (Corrupt "membership algebra input disappeared");
  Ok (mkAlgebraInput (so_reader source) (so_scope source) (in_expected_ranges input) (in_local_to_global input)).
Definition algebra_operation_heap (a : MembershipAlgebra) (reserved : Z) : Result Heap :=
  left ← ok_or (left ← checked_sub (ma_max_heap_bytes (ma_state a)) (ma_heap_used (ma_state a)); checked_sub left reserved)
           (BudgetExceeded "membership algebra heap");
  Ok (heap_new left).

Definition require_source_count (source_count : Z) (budget : MembershipAlgebraBudget) : Result unit :=
  if source_count =? 0 then Err (InvalidArgument "membership algebra has no sources")
  else if ab_max_sources budget <? source_count then Err (BudgetExceeded "membership algebra sources")
  else Ok tt.

Section Catalog.
Context (cancelled : nat -> bool) (grants : Z -> Z -> option Z) (sizes : Sizes).

Fixpoint inspect_loop (scopes : list MembershipScopeState) (family : AddressFamily) (work total : Z) : io nat Z :=
  match scopes with
  | [] => mret total
  | current :: scopes =>
      _ ← checkpoint_at cancelled work;
      _ ← fail_if (negb (bool_decide (ss_address_family current = family))) (WrongAddressFamily "membership algebra source families differ");
      total ← lift (ok_or (checked_add usize_max total (zlen (entries (ss_data current)))) (BudgetExceeded "membership algebra catalog heap"));
      inspect_loop scopes family (work + 1) total
  end.
(** [scope(0)] of no scopes is an index out of bounds. *)
Definition inspect_sources (scopes : list MembershipScopeState) : io nat (AddressFamily * Z) :=
  first ← lift (at_index scopes 0);
  total ← inspect_loop scopes (ss_address_family first) 0 0;
  mret (ss_address_family first, total).

(** [entries.chunks(4096)]. *)
Fixpoint chunks {A} (rounds : nat) (n : nat) (l : list A) : list (list A) :=
  match rounds, l with
  | O, _ | _, [] => []
  | S rounds, _ => take n l :: chunks rounds n (drop n l)
  end.
Fixpoint take_names (parts : list (list FeedEntry)) (entry_work : Z) (names : list FeedName) : io nat (list FeedName * Z) :=
  match parts with
  | [] => mret (names, entry_work)
  | part :: parts =>
      let names := names ++ (fe_name <$> part) in
      let entry_work := entry_work + zlen part in
      if 4096 <=? entry_work then _ ← check cancelled; take_names parts (entry_work - 4096) names
      else take_names parts entry_work names
  end.
Fixpoint all_names (scopes : list MembershipScopeState) (work entry_work : Z) (names : list FeedName) : io nat (list FeedName) :=
  match scopes with
  | [] => mret names
  | current :: scopes =>
      _ ← checkpoint_at cancelled work;
      let es := entries (ss_data current) in
      '(names, entry_work) ← take_names (chunks (length es) 4096 es) entry_work names;
      all_names scopes (work + 1) entry_work names
  end.
(** [Vec::dedup]. *)
Fixpoint dedup (names : list FeedName) : list FeedName :=
  match names with
  | [] => []
  | x :: rest => match dedup rest with
                 | [] => [x]
                 | y :: rest => if decide (x = y) then y :: rest else x :: y :: rest
                 end
  end.
Definition collect_names (scopes : list MembershipScopeState) (total : Z) (h : Heap) : io nat (list FeedName * Heap) :=
  h ← lift (vector grants NAME_SIZE total "membership algebra catalog heap" h);
  names ← all_names scopes 0 0 [];
  mret (dedup (merge_sort name_le names), h).

(** [names.binary_search(name)] on names that are sorted without duplicates. *)
Definition search_name (names : list FeedName) (name : FeedName) : option Z :=
  '(i, _) ← list_find (eq name) names; Some (Z.of_nat i).

Fixpoint map_entries (es : list FeedEntry) (work : Z) (names : list FeedName) (local_to_global : list Z) : io nat (list Z) :=
  match es with
  | [] => mret local_to_global
  | entry :: es =>
      _ ← checkpoint_at cancelled work;
      position ← lift (ok_or (search_name names (fe_name entry)) (Corrupt "global feed name disappeared"));
      _ ← fail_if (u32_max <? position) (BudgetExceeded "membership algebra feeds");
      map_entries es (work + 1) names (local_to_global ++ [position])
  end.
Fixpoint build_loop (scopes : list MembershipScopeState) (work : Z) (names : list FeedName) (h : Heap) (inputs : list InputState) : io nat (list InputState * Heap) :=
  match scopes with
  | [] => mret (inputs, h)
  | current :: scopes =>
      _ ← checkpoint_at cancelled work;
      h ← lift (vector grants 4 (zlen (entries (ss_data current))) "membership algebra source heap" h);
      local_to_global ← map_entries (entries (ss_data current)) 0 names [];
      build_loop scopes (work + 1) names h (inputs ++ [mkInput (ss_range_record_count current) local_to_global])
  end.
Definition build_inputs (scopes : list MembershipScopeState) (names : list FeedName) (h : Heap) : io nat (list InputState * Heap) :=
  h ← lift (vector grants (size_input sizes) (zlen scopes) "membership algebra source heap" h);
  build_loop scopes 0 names h [].

Definition algebra_state_new (scopes : list MembershipScopeState) (budget : MembershipAlgebraBudget) (retained_source_bytes : Z) : io nat MembershipAlgebraState :=
  _ ← check cancelled;
  _ ← lift (require_source_count (zlen scopes) budget);
  '(family, total) ← inspect_sources scopes;
  h ← lift (reserve_bytes retained_source_bytes "membership algebra source heap" (heap_new (ab_max_heap_bytes budget)));
  '(names, h) ← collect_names scopes total h;
  '(inputs, h) ← build_inputs scopes names h;
  mret (mkAlgebraState family inputs names (ab_max_heap_bytes budget) (used h)).

Definition algebra_new (scopes : list MembershipScope) (budget : MembershipAlgebraBudget) : io nat MembershipAlgebra :=
  let label := "membership algebra source heap" in
  _ ← lift (require_source_count (zlen scopes) budget);
  minimum ← lift (ok_or (checked_mul usize_max (zlen scopes) (size_source sizes)) (BudgetExceeded label));
  _ ← lift (reserve_bytes minimum label (heap_new (ab_max_heap_bytes budget)));
  capacity ← lift (ok_or (grants (size_source sizes) (zlen scopes)) (BudgetExceeded label));
  retained ← lift (ok_or (checked_mul usize_max capacity (size_source sizes)) (BudgetExceeded label));
  state ← algebra_state_new (sc_state <$> scopes) budget retained;
  mret (mkAlgebra state ((fun scope => mkSource (sc_reader scope) (ss_data (sc_state scope))) <$> scopes)).
End Catalog.

(** ** Selections of global feeds *)

Inductive FeedSelection := AllFeeds | NamedFeeds (names : list FeedName).
Inductive Selection := SelectAll (count : Z) | SelectNamed (positions flags : list Z).

Section Selections.
Context (cancelled : nat -> bool) (grants : Z -> Z -> option Z).

Fixpoint resolve_names (requested : list FeedName) (work : Z) (names : list FeedName) (positions : list Z) : io nat (list Z) :=
  match requested with
  | [] => mret positions
  | name :: requested =>
      _ ← checkpoint_at cancelled work;
      position ← lift (ok_or (search_name names name) NameNotFound);
      _ ← fail_if (u32_max <? position) (BudgetExceeded "membership algebra feeds");
      resolve_names requested (work + 1) names (positions ++ [position])
  end.
(** [positions.windows(2)]. *)
Fixpoint require_unique (positions : list Z) (work : Z) : io nat unit :=
  match positions with
  | a :: (b :: _) as rest =>
      _ ← checkpoint_at cancelled work;
      _ ← fail_if (a =? b) (InvalidArgument "membership algebra feed selection is not unique");
      require_unique rest (work + 1)
  | _ => mret tt
  end.
Fixpoint raise_flags (positions : list Z) (work : Z) (flags : list Z) : io nat (list Z) :=
  match positions with
  | [] => mret flags
  | position :: positions =>
      _ ← checkpoint_at cancelled work;
      flags ← lift (set_index flags position 1);
      raise_flags positions (work + 1) flags
  end.
Definition resolve (a : MembershipAlgebra) (requested : FeedSelection) (h : Heap) : io nat (Selection * Heap) :=
  let names := ma_names (ma_state a) in
  let label := "membership algebra selection heap" in
  match requested with
  | AllFeeds => mret (SelectAll (zlen names), h)
  | NamedFeeds [] => lift (Err (InvalidArgument "membership algebra feed selection is empty"))
  | NamedFeeds wanted =>
      h ← lift (vector grants 4 (zlen wanted) label h);
      positions ← resolve_names wanted 0 names [];
      _ ← check cancelled;
      let positions := merge_sort Z.le positions in
      _ ← check cancelled;
      _ ← require_unique positions 0;
      '(flags, h) ← lift (filled grants 1 (zlen names) 0 label h);
      flags ← raise_flags positions 0 flags;
      mret (SelectNamed positions flags, h)
  end.

Definition selection_len (s : Selection) : Z := match s with SelectAll count => count | SelectNamed positions _ => zlen positions end.

Fixpoint contains_present (positions : list Z) (work : Z) (counts : list Z) : io nat bool :=
  match positions with
  | [] => mret false
  | position :: positions =>
      _ ← checkpoint_at cancelled work;
      count ← lift (at_index counts position);
      if negb (count =? 0) then mret true else contains_present positions (work + 1) counts
  end.
Fixpoint contains_selected (present : list Z) (work : Z) (flags : list Z) : io nat bool :=
  match present with
  | [] => mret false
  | position :: present =>
      _ ← checkpoint_at cancelled work;
      flag ← lift (at_index flags position);
      if negb (flag =? 0) then mret true else contains_selected present (work + 1) flags
  end.
Definition selection_any (s : Selection) (present counts : list Z) : io nat bool :=
  match s with
  | SelectAll _ => mret (negb (bool_decide (present = [])))
  | SelectNamed positions flags =>
      if zlen positions <? zlen present then contains_present positions 0 counts else contains_selected present 0 flags
  end.
Fixpoint contains_all (positions : list Z) (work : Z) (counts : list Z) : io nat bool :=
  match positions with
  | [] => mret true
  | position :: positions =>
      _ ← checkpoint_at cancelled work;
      count ← lift (at_index counts position);
      if count =? 0 then mret false else contains_all positions (work + 1) counts
  end.
Definition selection_all (s : Selection) (present counts : list Z) : io nat bool :=
  match s with
  | SelectAll count => mret (negb (count =? 0) && (zlen present =? count))
  | SelectNamed positions _ =>
      if zlen present <? zlen positions then mret false
      else
        every ← contains_all positions 0 counts;
        mret (if every : bool then negb (bool_decide (positions = [])) else false)
  end.
End Selections.

(** ** The global feeds at an address *)

Record GlobalState := mkGlobal { gl_counts : list Z; gl_slots : list Z; gl_present : list Z }.

Definition global_new (grants : Z -> Z -> option Z) (feeds : Z) (h : Heap) : Result (GlobalState * Heap) :=
  let label := "membership algebra scan heap" in
  '(counts, h) ← filled grants 4 feeds 0 label h;
  '(slots, h) ← filled grants 4 feeds 0 label h;
  h ← vector grants 4 feeds label h;
  Ok (mkGlobal counts slots [], h).

(** [Vec::swap_remove]. *)
Definition swap_remove {A} (l : list A) (index : Z) : Result (A * list A) :=
  removed ← at_index l index;
  last ← expect (list.last l) "swap_remove of an empty vector";
  Ok (removed, take (pred (length l)) (<[Z.to_nat index := last]> l)).

Definition add_feed (local : Z) (local_to_global : list Z) (g : GlobalState) : Result GlobalState :=
  global ← at_index local_to_global local;
  count ← at_index (gl_counts g) global;
  count' ← ok_or (checked_add u32_max count 1) (ArithmeticOverflow "global feed source count");
  counts ← set_index (gl_counts g) global count';
  if count =? 0 then
    slot ← ok_or (value ← checked_add usize_max (zlen (gl_present g)) 1; if value <=? u32_max then Some value else None)
             (BudgetExceeded "membership algebra feeds");
    slots ← set_index (gl_slots g) global slot;
    Ok (mkGlobal counts slots (gl_present g ++ [global]))
  else Ok (mkGlobal counts (gl_slots g) (gl_present g)).

Definition remove_feed (local : Z) (local_to_global : list Z) (g : GlobalState) : Result GlobalState :=
  global ← at_index local_to_global local;
  count ← at_index (gl_counts g) global;
  count ← ok_or (checked_sub count 1) (Corrupt "global feed source count underflow");
  counts ← set_index (gl_counts g) global count;
  if count =? 0 then
    slot ← at_index (gl_slots g) global;
    slot ← ok_or (checked_sub slot 1) (Corrupt "global feed presence slot is absent");
    '(removed, present) ← swap_remove (gl_present g) slot;
    if negb (removed =? global) then Err (Corrupt "global feed presence slot disagrees")
    else
      slots ← set_index (gl_slots g) global 0;
      if slot <? zlen present then
        moved ← at_index present slot;
        slots ← set_index slots moved (slot + 1);
        Ok (mkGlobal counts slots present)
      else Ok (mkGlobal counts slots present)
  else Ok (mkGlobal counts (gl_slots g) (gl_present g)).

Fixpoint update_feeds (cancelled : nat -> bool) (update : Z -> list Z -> GlobalState -> Result GlobalState)
    (present : list Z) (work : Z) (local_to_global : list Z) (g : GlobalState) : io nat GlobalState :=
  match present with
  | [] => mret g
  | local :: present =>
      _ ← checkpoint_at cancelled work;
      g ← lift (update local local_to_global g);
      update_feeds cancelled update present (work + 1) local_to_global g
  end.
Definition global_add (cancelled : nat -> bool) (present local_to_global : list Z) : GlobalState -> io nat GlobalState :=
  update_feeds cancelled add_feed present 0 local_to_global.
Definition global_remove (cancelled : nat -> bool) (present local_to_global : list Z) : GlobalState -> io nat GlobalState :=
  update_feeds cancelled remove_feed present 0 local_to_global.

(** ** Events *)

Inductive EventKind := Start | End_.
Record Event (K : Type) := mkEvent { ev_at : K; ev_source : Z; ev_kind : EventKind }.
Arguments mkEvent {K}.
Arguments ev_at {K}.
Arguments ev_source {K}.
Arguments ev_kind {K}.
Record Events (K : Type) := mkEvents { evs_values : list (Event K); evs_small : bool }.
Arguments mkEvents {K}.
Arguments evs_values {K}.
Arguments evs_small {K}.

Definition kind_order (k : EventKind) : Z := match k with End_ => 0 | Start => 1 end.

Section Queue.
Context {K : Type} `{IpKey K}.
Implicit Types (values : list (Event K)).

Definition before (a b : Event K) : bool :=
  key_ltb (ev_at a) (ev_at b)
  || (key_eqb (ev_at a) (ev_at b)
      && ((ev_source a <? ev_source b) || (ev_source a =? ev_source b) && (kind_order (ev_kind a) <? kind_order (ev_kind b)))).

(** [values.swap(i, j)]. *)
Definition swap values (i j : Z) : Result (list (Event K)) :=
  a ← at_index values i;
  b ← at_index values j;
  values ← set_index values i b;
  set_index values j a.

Fixpoint sift_up (rounds : nat) (child : Z) values : Result (list (Event K)) :=
  if child =? 0 then Ok values
  else match rounds with
  | O => Panic "heap is not a tree"
  | S rounds =>
      let parent := (child - 1) / 2 in
      c ← at_index values child;
      p ← at_index values parent;
      if negb (before c p) then Ok values
      else
        values ← swap values child parent;
        sift_up rounds parent values
  end.
Definition push (event : Event K) (q : Events K) : Result (Events K) :=
  let values := evs_values q ++ [event] in
  if evs_small q then Ok (mkEvents values true)
  else
    child ← usub (zlen values) 1;
    values ← sift_up (length values) child values;
    Ok (mkEvents values false).

Fixpoint smallest_loop (rest : list (Event K)) (index smallest : Z) (selected : Event K) : Z :=
  match rest with
  | [] => smallest
  | candidate :: rest =>
      if before candidate selected then smallest_loop rest (index + 1) (index + 1) candidate
      else smallest_loop rest (index + 1) smallest selected
  end.
Definition smallest values : option Z :=
  match values with
  | [] => None
  | first :: rest => Some (smallest_loop rest 0 0 first)
  end.

Definition peek (q : Events K) : Result (option (Event K)) :=
  if evs_small q then
    match smallest (evs_values q) with
    | Some index => e ← at_index (evs_values q) index; Ok (Some e)
    | None => Ok None
    end
  else Ok (head (evs_values q)).

Fixpoint sift_down (rounds : nat) (parent : Z) values : Result (list (Event K)) :=
  match rounds with
  | O => Panic "heap is not a tree"
  | S rounds =>
      let left := parent * 2 + 1 in
      if zlen values <=? left then Ok values
      else
        let right := left + 1 in
        lower ← (if right <? zlen values
                 then r ← at_index values right; l ← at_index values left; Ok (before r l)
                 else Ok false);
        let child := if lower : bool then right else left in
        c ← at_index values child;
        p ← at_index values parent;
        if negb (before c p) then Ok values
        else
          values ← swap values parent child;
          sift_down rounds child values
  end.
Definition pop (q : Events K) : Result (Events K * option (Event K)) :=
  if evs_small q then
    match smallest (evs_values q) with
    | None => Ok (q, None)
    | Some index =>
        '(e, values) ← swap_remove (evs_values q) index;
        Ok (mkEvents values true, Some e)
    end
  else
    match evs_values q with
    | [] => Ok (q, None)
    | root :: _ =>
        last ← expect (list.last (evs_values q)) "pop of an empty vector";
        let values := take (pred (length (evs_values q))) (evs_values q) in
        if bool_decide (values = []) then Ok (mkEvents values false, Some root)
        else
          values ← set_index values 0 last;
          values ← sift_down (length values) 0 values;
          Ok (mkEvents values false, Some root)
    end.
End Queue.

(** ** The sweep *)

Record ScanReport := mkScanReport { rp_source_ranges : Z; rp_segments : Z }.
Definition report_default : ScanReport := mkScanReport 0 0.

(** [trait SegmentSink]. *)
Class SegmentSink (K T : Type) := {
  sink_enable_cache : Heap -> Z -> T -> Result (T * Heap);
  segment : K -> K -> list Z -> list Z -> T -> io nat T;
}.

Record SourceState (K : Type) := mkSourceState {
  st_input : AlgebraInput;
  st_ranges : SelectedRanges K;
  st_range : option (K * K);
  st_active : bool;
}.
Arguments mkSourceState {K}.
Arguments st_input {K}.
Arguments st_ranges {K}.
Arguments st_range {K}.
Arguments st_active {K}.

Definition increment (value : Z) (context : string) : Result Z := ok_or (checked_add u64_max value 1) (ArithmeticOverflow context).

Section Scan.
Context {K : Type} `{IpKey K} (cancelled : nat -> bool) (grants : Z -> Z -> option Z) (sizes : Sizes).
(** Bounds of the loops that have none. *)
Context (rounds : nat).

Definition load_next (state : SourceState K) : io nat (SourceState K) :=
  let input := st_input state in
  '(ranges, range) ← selected_next cancelled (ai_reader input) (ai_scope input) rounds (st_ranges state);
  _ ← fail_if (ai_expected_ranges input <? sr_physical_count ranges) (Corrupt "membership algebra range count disagrees");
  mret (mkSourceState input ranges range (st_active state)).

Fixpoint initialize_loop (a : MembershipAlgebra) (todo : nat) (states : list (SourceState K)) (events : Events K) (h : Heap) : io nat (list (SourceState K) * Events K * Heap) :=
  match todo with
  | O => mret (states, events, h)
  | S todo =>
      let index := zlen states in
      input ← lift (algebra_source a index);
      '(ranges, h) ← lift (selected_new (K := K) grants (ai_reader input) (ai_scope input) h);
      state ← load_next (mkSourceState input ranges None false);
      _ ← fail_if (u32_max <? index) (BudgetExceeded "membership algebra sources");
      events ← lift (match st_range state with
                     | Some (from, _) => push (mkEvent from index Start) events
                     | None => Ok events
                     end);
      initialize_loop a todo (states ++ [state]) events h
  end.
Definition initialize_sources (a : MembershipAlgebra) (source_count : Z) (h : Heap) : io nat (list (SourceState K) * Events K * Heap) :=
  h ← lift (vector grants (size_state sizes) source_count "membership algebra scan heap" h);
  h ← lift (vector grants (size_event sizes) source_count "membership algebra event heap" h);
  initialize_loop a (Z.to_nat source_count) [] (mkEvents [] (source_count <=? 4)) h.

Definition checkpoint_event (work : Z) : io nat Z :=
  let work := work + 1 in
  if work =? 4096 then _ ← check cancelled; mret 0 else mret work.

Definition apply_event (event : Event K) (states : list (SourceState K)) (events : Events K) (global : GlobalState) : io nat (list (SourceState K) * Events K * GlobalState) :=
  let index := Z.to_nat (ev_source event) in
  state ← lift (ok_or (states !! index) (Corrupt "membership algebra event source is invalid"));
  range ← lift (ok_or (st_range state) (Corrupt "membership algebra event has no range"));
  let '(from, to) := range in
  let l2g := ai_local_to_global (st_input state) in
  match ev_kind event with
  | Start =>
      _ ← fail_if (st_active state || negb (key_eqb from (ev_at event))) (Corrupt "membership algebra start event disagrees");
      global ← global_add cancelled (sr_present (st_ranges state)) l2g global;
      let states := <[index := mkSourceState (st_input state) (st_ranges state) (st_range state) true]> states in
      events ← lift (match checked_next to with
                     | Some at_ => push (mkEvent at_ (ev_source event) End_) events
                     | None => Ok events
                     end);
      mret (states, events, global)
  | End_ =>
      _ ← fail_if (negb (st_active state) || negb (match checked_next to with Some k => key_eqb k (ev_at event) | None => false end))
            (Corrupt "membership algebra end event disagrees");
      global ← global_remove cancelled (sr_present (st_ranges state)) l2g global;
      state ← load_next (mkSourceState (st_input state) (st_ranges state) None false);
      let states := <[index := state]> states in
      events ← lift (match st_range state with
                     | Some (from, _) => push (mkEvent from (ev_source event) Start) events
                     | None => Ok events
                     end);
      mret (states, events, global)
  end.

(** The events at the same address as the first one. *)
Fixpoint boundary_loop (rounds : nat) (at_ : K) (states : list (SourceState K)) (events : Events K) (global : GlobalState) (event_work : Z)
    : io nat (list (SourceState K) * Events K * GlobalState * Z) :=
  next ← lift (peek events);
  if match next with Some e => key_eqb (ev_at e) at_ | None => false end then
    match rounds with
    | O => lift (Panic "events do not end")
    | S rounds =>
        event_work ← checkpoint_event event_work;
        '(events, same) ← lift (pop events);
        same ← lift (ok_or same (Corrupt "membership algebra event disappeared"));
        '(states, events, global) ← apply_event same states events global;
        boundary_loop rounds at_ states events global event_work
    end
  else mret (states, events, global, event_work).
Definition apply_boundary (first : Event K) (states : list (SourceState K)) (events : Events K) (global : GlobalState) (event_work : Z)
    : io nat (list (SourceState K) * Events K * GlobalState * Z) :=
  '(states, events, global) ← apply_event first states events global;
  boundary_loop rounds (ev_at first) states events global event_work.

Fixpoint finish_sources (states : list (SourceState K)) (work : Z) (report : ScanReport) : io nat ScanReport :=
  match states with
  | [] => mret report
  | state :: states =>
      _ ← checkpoint_at cancelled work;
      state ← (if st_active state then
                 range ← lift (ok_or (st_range state) (Corrupt "active membership algebra source has no range"));
                 _ ← fail_if (bool_decide (is_Some (checked_next (snd range)))) (Corrupt "membership algebra source remained active");
                 load_next (mkSourceState (st_input state) (st_ranges state) None false)
               else mret state);
      _ ← fail_if (bool_decide (is_Some (st_range state)) || negb (sr_physical_count (st_ranges state) =? ai_expected_ranges (st_input state)))
            (Corrupt "membership algebra range count disagrees");
      total ← lift (ok_or (checked_add u64_max (rp_source_ranges report) (sr_physical_count (st_ranges state)))
                      (ArithmeticOverflow "membership algebra source range count"));
      finish_sources states (work + 1) (mkScanReport total (rp_segments report))
  end.

Fixpoint enable_caches (states : list (SourceState K)) (share : Z) (h : Heap) : Result (list (SourceState K) * Heap) :=
  match states with
  | [] => Ok ([], h)
  | state :: states =>
      '(ranges, h) ← selected_enable_cache grants share (st_ranges state) h;
      '(states, h) ← enable_caches states share h;
      Ok (mkSourceState (st_input state) ranges (st_range state) (st_active state) :: states, h)
  end.

Section Sinks.
Context {T : Type} `{SegmentSink K T}.

Definition emit_before (from : option K) (boundary : K) (global : GlobalState) (sink : T) (report : ScanReport) : io nat (T * ScanReport) :=
  match from with
  | None => mret (sink, report)
  | Some from =>
      if negb (key_ltb from boundary) || bool_decide (gl_present global = []) then mret (sink, report)
      else
        to ← lift (ok_or (checked_previous boundary) (ArithmeticOverflow "membership algebra boundary"));
        sink ← segment from to (gl_present global) (gl_counts global) sink;
        segments ← lift (increment (rp_segments report) "membership algebra segments");
        mret (sink, mkScanReport (rp_source_ranges report) segments)
  end.

(** [find_map] yields the range of the first active source, which may be
    none. *)
Definition terminal_range (states : list (SourceState K)) : option K :=
  state ← snd <$> list_find (fun s => st_active s = true) states;
  snd <$> st_range state.
Definition emit_terminal (from : option K) (states : list (SourceState K)) (global : GlobalState) (sink : T) (report : ScanReport) : io nat (T * ScanReport) :=
  match from with
  | None => mret (sink, report)
  | Some from =>
      if bool_decide (gl_present global = []) then mret (sink, report)
      else
        to ← lift (ok_or (terminal_range states) (Corrupt "membership algebra has no terminal range"));
        _ ← fail_if (bool_decide (is_Some (checked_next to))) (Corrupt "membership algebra event queue ended early");
        sink ← segment from to (gl_present global) (gl_counts global) sink;
        segments ← lift (increment (rp_segments report) "membership algebra segments");
        mret (sink, mkScanReport (rp_source_ranges report) segments)
  end.

(** [while let Some(event) = events.pop()]. *)
Fixpoint scan_loop (todo : nat) (states : list (SourceState K)) (events : Events K) (global : GlobalState) (sink : T) (report : ScanReport)
    (position : option K) (event_work : Z) : io nat (list (SourceState K) * GlobalState * T * ScanReport * option K) :=
  '(events, popped) ← lift (pop events);
  match popped with
  | None => mret (states, global, sink, report, position)
  | Some event =>
      match todo with
      | O => lift (Panic "events do not end")
      | S todo =>
          event_work ← checkpoint_event event_work;
          '(sink, report) ← emit_before position (ev_at event) global sink report;
          '(states, events, global, event_work) ← apply_boundary event states events global event_work;
          scan_loop todo states events global sink report (Some (ev_at event)) event_work
      end
  end.

Definition scan_run (a : MembershipAlgebra) (sink : T) (h : Heap) : io nat (ScanReport * T * Heap) :=
  _ ← check cancelled;
  '(states, events, h) ← initialize_sources a (zlen (ma_inputs (ma_state a))) h;
  '(global, h) ← lift (global_new grants (zlen (ma_names (ma_state a))) h);
  let cache_share := remaining h / (zlen states + 1) in
  '(states, h) ← lift (enable_caches states cache_share h);
  '(sink, h) ← lift (sink_enable_cache h cache_share sink);
  '(states, global, sink, report, position) ← scan_loop rounds states events global sink report_default None 0;
  '(sink, report) ← emit_terminal position states global sink report;
  report ← finish_sources states 0 report;
  mret (report, sink, h).
End Sinks.
End Scan.

(** ** Counting and comparing *)

Definition algebra_add (left right : Cardinality129) : Result Cardinality129 :=
  match card_checked_add left right with
  | Ok c => Ok c
  | Err _ => Err (ArithmeticOverflow "membership algebra addresses")
  | Panic t => Panic t
  end.

Record CountSink := mkCountSink { cn_selection : Selection; cn_addresses : Cardinality129 }.
#[global] Instance CountSink_SegmentSink {K} `{IpKey K} (cancelled : nat -> bool) : SegmentSink K CountSink := {
  sink_enable_cache h _ sink := Ok (sink, h);
  segment from to present counts sink :=
    hit ← selection_any cancelled (cn_selection sink) present counts;
    if hit : bool then
      n ← lift (inclusive_cardinality from to);
      total ← lift (algebra_add (cn_addresses sink) n);
      mret (mkCountSink (cn_selection sink) total)
    else mret sink;
}.

Record ComparisonSink := mkComparisonSink {
  cp_left : Selection;
  cp_right : Selection;
  cp_left_addresses : Cardinality129;
  cp_right_addresses : Cardinality129;
  cp_overlap : Cardinality129;
  cp_left_only : Cardinality129;
  cp_right_only : Cardinality129;
  cp_union : Cardinality129;
}.
#[global] Instance ComparisonSink_SegmentSink {K} `{IpKey K} (cancelled : nat -> bool) : SegmentSink K ComparisonSink := {
  sink_enable_cache h _ sink := Ok (sink, h);
  segment from to present counts sink :=
    left_ ← selection_any cancelled (cp_left sink) present counts;
    right_ ← selection_any cancelled (cp_right sink) present counts;
    if negb left_ && negb right_ then mret sink
    else
      n ← lift (inclusive_cardinality from to);
      union ← lift (algebra_add (cp_union sink) n);
      match left_, right_ with
      | true, true =>
          l ← lift (algebra_add (cp_left_addresses sink) n);
          r ← lift (algebra_add (cp_right_addresses sink) n);
          o ← lift (algebra_add (cp_overlap sink) n);
          mret (mkComparisonSink (cp_left sink) (cp_right sink) l r o (cp_left_only sink) (cp_right_only sink) union)
      | true, false =>
          l ← lift (algebra_add (cp_left_addresses sink) n);
          lo ← lift (algebra_add (cp_left_only sink) n);
          mret (mkComparisonSink (cp_left sink) (cp_right sink) l (cp_right_addresses sink) (cp_overlap sink) lo (cp_right_only sink) union)
      | false, true =>
          r ← lift (algebra_add (cp_right_addresses sink) n);
          ro ← lift (algebra_add (cp_right_only sink) n);
          mret (mkComparisonSink (cp_left sink) (cp_right sink) (cp_left_addresses sink) r (cp_overlap sink) (cp_left_only sink) ro union)
      | false, false => lift (Panic "internal error: entered unreachable code")
      end;
}.

Record AlgebraCountReport := mkCountReport { cr_source_count : Z; cr_source_range_count : Z; cr_joined_segment_count : Z; cr_addresses : Cardinality129 }.
Record AlgebraComparisonReport := mkComparisonReport {
  ar_source_count : Z;
  ar_source_range_count : Z;
  ar_joined_segment_count : Z;
  ar_left_addresses : Cardinality129;
  ar_right_addresses : Cardinality129;
  ar_overlap_addresses : Cardinality129;
  ar_left_only_addresses : Cardinality129;
  ar_right_only_addresses : Cardinality129;
  ar_union_addresses : Cardinality129;
  ar_equal : bool;
}.

Section Analysis.
Context (cancelled : nat -> bool) (grants : Z -> Z -> option Z) (sizes : Sizes) (rounds : nat).

Definition scan_family {T} {sink4 : SegmentSink Ipv4Key T} {sink6 : SegmentSink Ipv6Key T} (a : MembershipAlgebra) (sink : T) (h : Heap) : io nat (ScanReport * T * Heap) :=
  match ma_family (ma_state a) with
  | Ipv4 => scan_run (K := Ipv4Key) cancelled grants sizes rounds a sink h
  | Ipv6 => scan_run (K := Ipv6Key) cancelled grants sizes rounds a sink h
  end.

Definition algebra_count (a : MembershipAlgebra) (feeds : FeedSelection) (reserved : Z) : io nat AlgebraCountReport :=
  _ ← check cancelled;
  h ← lift (algebra_operation_heap a reserved);
  '(selection, h) ← resolve cancelled grants a feeds h;
  '(scanned, sink, _) ← scan_family (sink4 := CountSink_SegmentSink cancelled) (sink6 := CountSink_SegmentSink cancelled) a (mkCountSink selection card_zero) h;
  mret (mkCountReport (zlen (ma_inputs (ma_state a))) (rp_source_ranges scanned) (rp_segments scanned) (cn_addresses sink)).

Definition card_is_zero (c : Cardinality129) : bool := (bit128 c =? 0) && (c_hi c =? 0) && (c_lo c =? 0).
Definition algebra_compare (a : MembershipAlgebra) (left_ right_ : FeedSelection) (reserved : Z) : io nat AlgebraComparisonReport :=
  _ ← check cancelled;
  h ← lift (algebra_operation_heap a reserved);
  '(left_, h) ← resolve cancelled grants a left_ h;
  '(right_, h) ← resolve cancelled grants a right_ h;
  '(scanned, sink, _) ← scan_family (sink4 := ComparisonSink_SegmentSink cancelled) (sink6 := ComparisonSink_SegmentSink cancelled) a
      (mkComparisonSink left_ right_ card_zero card_zero card_zero card_zero card_zero card_zero) h;
  mret (mkComparisonReport (zlen (ma_inputs (ma_state a))) (rp_source_ranges scanned) (rp_segments scanned)
    (cp_left_addresses sink) (cp_right_addresses sink) (cp_overlap sink) (cp_left_only sink) (cp_right_only sink) (cp_union sink)
    (card_is_zero (cp_left_only sink) && card_is_zero (cp_right_only sink))).
End Analysis.
