(* ===== verification/AlgebraQueue.v ===== *)
(** * The event queue and the global feeds of a sweep

    The queue of [AlgebraScan], a vector that is searched when it is small and
    a binary heap otherwise, gives out an event that no other precedes.  The
    global feeds are counted exactly, and those present are listed once each. *)

From stdpp Require Import base tactics numbers list strings sorting.
From Stdlib Require Import ZArith Lia.
From S2P Require Import Prelude Errors Bytes Key Machine MembershipScope MembershipFacts AlgebraScan.

#[local] Open Scope string_scope.
#[local] Open Scope list_scope.
#[local] Open Scope Z_scope.

(** ** Vectors *)

Lemma swap_permutation {A} (l : list A) i j a b : (i < j)%nat -> l !! i = Some a -> l !! j = Some b -> <[j := a]> (<[i := b]> l) ≡ₚ l.
Proof.
  intros Hij Ha Hb. pose proof (lookup_lt_Some _ _ _ Hb) as Hj.
  assert (El : l = take i l ++ a :: take (j - S i) (drop (S i) l) ++ b :: drop (S j) l).
  { rewrite <- (take_drop_middle l i a Ha) at 1. do 2 f_equal. rewrite <- (take_drop_middle (drop (S i) l) (j - S i) b) at 1.
    - do 2 f_equal. rewrite drop_drop. f_equal. lia.
    - rewrite lookup_drop. by replace (S i + (j - S i))%nat with j by lia. }
  set (l1 := take i l) in *. set (l2 := take (j - S i) (drop (S i) l)) in *. set (l3 := drop (S j) l) in *.
  assert (H1 : length l1 = i) by (apply length_take_le; lia).
  assert (H2 : length l2 = (j - S i)%nat) by (unfold l2; rewrite length_take, length_drop; lia).
  rewrite El. rewrite <- H1 at 1. rewrite insert_app_r_alt, Nat.sub_diag by lia. cbn [insert list_insert].
  replace j with (length (l1 ++ b :: l2) + 0)%nat by (rewrite length_app; cbn; lia).
  replace (l1 ++ b :: l2 ++ b :: l3) with ((l1 ++ b :: l2) ++ b :: l3) by by rewrite <- app_assoc.
  rewrite insert_app_r. cbn [insert list_insert]. rewrite <- app_assoc. cbn. f_equiv. rewrite !Permutation_middle. f_equiv. by rewrite Permutation_swap.
Qed.

Definition get {A} (l : list A) (i : Z) : option A := l !! Z.to_nat i.

Lemma set_both {A} (l : list A) i j a b : 0 <= i -> 0 <= j -> i <> j -> get l i = Some a -> get l j = Some b ->
  exists l', (l1 ← set_index l i b; set_index l1 j a) = Ok l' /\ get l' i = Some b /\ get l' j = Some a
    /\ (forall k, 0 <= k -> k <> i -> k <> j -> get l' k = get l k) /\ l' ≡ₚ l /\ zlen l' = zlen l.
Proof.
  intros Hi Hj Hij Ha Hb. unfold get in *. pose proof (lookup_zlen _ _ _ Ha Hi). pose proof (lookup_zlen _ _ _ Hb Hj).
  rewrite set_index_ok by lia. cbn [mbind outcome_bind]. rewrite set_index_ok by (rewrite zlen_insert; lia). eexists. split; [done |].
  unfold zlen in *. rewrite list_lookup_insert_ne, !list_lookup_insert_eq by (rewrite ?length_insert; lia).
  split; [done |]. split; [done |]. split; [intros k Hk Hki Hkj; by rewrite !list_lookup_insert_ne by lia |]. split; [| by rewrite !length_insert].
  destruct (Z.lt_ge_cases i j); [by apply swap_permutation; [lia | |] |]. rewrite list_insert_insert_ne by lia. by apply swap_permutation; [lia | |].
Qed.

Lemma swap_remove_ok {A} (l : list A) i x : 0 <= i -> get l i = Some x ->
  exists l', swap_remove l i = Ok (x, l') /\ x :: l' ≡ₚ l /\ zlen l' = zlen l - 1
    /\ forall k, 0 <= k < zlen l' -> get l' k = if decide (k = i) then get l (zlen l - 1) else get l k.
Proof.
  intros Hi Hx. unfold get in *. unfold swap_remove. rewrite (index_lookup l i x Hi Hx). cbn [mbind outcome_bind]. destruct l as [|last l0 _] using rev_ind; [by rewrite lookup_nil in Hx |].
  rewrite last_snoc. cbn [expect mbind outcome_bind]. pose proof (lookup_lt_Some _ _ _ Hx) as Hlt. rewrite length_app in *. cbn [length] in *.
  replace (pred (length l0 + 1)) with (length l0) by lia. eexists. split; [done |].
  assert (Hlast : zlen (l0 ++ [last]) = zlen l0 + 1) by (rewrite zlen_app; done). rewrite Hlast.
  assert (Hend : (l0 ++ [last]) !! Z.to_nat (zlen l0 + 1 - 1) = Some last) by (rewrite lookup_app_r by (unfold zlen; lia); by replace (Z.to_nat (zlen l0 + 1 - 1) - length l0)%nat with 0%nat by (unfold zlen; lia)).
  destruct (decide (Z.to_nat i = length l0)) as [Heq | Hne].
  - rewrite Heq in *. rewrite lookup_app_r, Nat.sub_diag in Hx by lia. injection Hx as ->.
    replace (<[length l0 := x]> (l0 ++ [x])) with (l0 ++ [x]) by (rewrite <- (Nat.add_0_r (length l0)), insert_app_r; done).
    rewrite take_app_length. split; [symmetry; by rewrite <- Permutation_cons_append |]. split; [lia |].
    intros k Hk. rewrite decide_False by (unfold zlen in Hk; lia). by rewrite lookup_app_l by (unfold zlen in Hk; lia).
  - rewrite lookup_app_l in Hx by lia. rewrite insert_app_l, take_app_le, firstn_all2 by (rewrite ?length_insert; lia).
    split; [| split; [rewrite zlen_insert; lia |]].
    + rewrite <- (take_drop_middle l0 _ x Hx) at 2. rewrite insert_take_drop by lia. etrans; [| apply Permutation_cons_append].
      rewrite <- !Permutation_middle. apply perm_swap.
    + intros k Hk. rewrite zlen_insert in Hk. destruct (decide (k = i)) as [-> | Hki]; [by rewrite list_lookup_insert_eq by lia |].
      rewrite list_lookup_insert_ne by lia. by rewrite lookup_app_l by (unfold zlen in Hk; lia).
Qed.

(** ** Order of events *)

Section Order.
Context {K : Type} `{IpKeyLaws K}.
Implicit Types e f : Event K.

Definition event_ok e : Prop := key_ok (ev_at e).
Definition time e : Z := key_num (ev_at e).
(** [e] need not come after [f]. *)
Definition first_of e f : Prop := time e < time f \/ time e = time f /\ (ev_source e < ev_source f
  \/ ev_source e = ev_source f /\ kind_order (ev_kind e) <= kind_order (ev_kind f)).

Lemma before_spec e f : event_ok e -> event_ok f -> before e f = true <-> ~ first_of f e.
Proof using Type*.
  intros He Hf. unfold before, first_of. rewrite key_ltb_num, key_eqb_num by done. fold (time e) (time f).
  rewrite orb_true_iff, andb_true_iff, orb_true_iff, andb_true_iff, !Z.ltb_lt, !Z.eqb_eq. lia.
Qed.
Lemma before_false e f : event_ok e -> event_ok f -> before e f = false <-> first_of f e.
Proof using Type*.
  intros He Hf. pose proof (before_spec e f He Hf) as Hs. destruct (before e f); split; intros Hx; try done.
  - by destruct (proj1 Hs eq_refl).
  - unfold first_of in *. lia.
Qed.
Lemma before_first e f : event_ok e -> event_ok f -> before e f = true -> first_of e f.
Proof using Type*. intros He Hf Hb. apply before_spec in Hb; [| done | done]. unfold first_of in *. lia. Qed.
Lemma first_trans e f g : first_of e f -> first_of f g -> first_of e g.
Proof using Type. unfold first_of. lia. Qed.
Lemma first_refl e : first_of e e.
Proof using Type. unfold first_of. lia. Qed.

(** ** The heap *)

Definition child_of (p c : Z) : Prop := 0 <= p /\ (c = 2 * p + 1 \/ c = 2 * p + 2).
Implicit Types v : list (Event K).

Definition heap v : Prop := forall p c x y, child_of p c -> get v p = Some x -> get v c = Some y -> first_of x y.
(** A heap, but for the place above [c0]. *)
Definition heap_above v (c0 : Z) : Prop :=
  (forall p c x y, child_of p c -> c <> c0 -> get v p = Some x -> get v c = Some y -> first_of x y)
  /\ (forall g c x y, child_of g c0 -> child_of c0 c -> get v g = Some x -> get v c = Some y -> first_of x y).
(** A heap, but for the places below [p0]. *)
Definition heap_below v (p0 : Z) : Prop :=
  (forall p c x y, child_of p c -> p <> p0 -> get v p = Some x -> get v c = Some y -> first_of x y)
  /\ (forall g c x y, child_of g p0 -> child_of p0 c -> get v g = Some x -> get v c = Some y -> first_of x y).

Lemma parent_child c : 0 < c -> child_of ((c - 1) / 2) c /\ (c - 1) / 2 < c.
Proof using Type.
  intros Hc. pose proof (Z.div_mod (c - 1) 2 ltac:(lia)). pose proof (Z.mod_pos_bound (c - 1) 2 ltac:(lia)). unfold child_of. lia.
Qed.

Lemma sift_up_heap : forall rounds child v, Forall event_ok v -> 0 <= child < zlen v -> child <= Z.of_nat rounds -> heap_above v child ->
  exists v', sift_up rounds child v = Ok v' /\ heap v' /\ v' ≡ₚ v.
Proof using Type*.
  induction rounds as [|rounds IH]; intros child v Hok Hc Hr Hh; cbn [sift_up]; destruct (Z.eqb_spec child 0) as [-> | Hne]; try lia.
  1,2: exists v; split; [done |]; split; [| done]; intros p c x y Hpc; apply (proj1 Hh); [done | unfold child_of in Hpc; lia].
  destruct (parent_child child ltac:(lia)) as [Hpc Hlt]. set (parent := (child - 1) / 2) in *.
  destruct (zlen_lookup v child Hc) as (x & Hx). destruct (zlen_lookup v parent) as (y & Hy); [unfold child_of in Hpc; lia |].
  pose proof Hpc as [Hp0 _]. rewrite (index_lookup v child x ltac:(lia) Hx), (index_lookup v parent y Hp0 Hy). cbn [mbind outcome_bind].
  rewrite Forall_lookup in Hok. pose proof (Hok _ _ Hx) as Hxo. pose proof (Hok _ _ Hy) as Hyo.
  destruct (before x y) eqn:Eb; cbn [negb].
  2: { exists v. split; [done |]. split; [| done]. apply before_false in Eb; [| done | done]. intros p c a b Hpc' Ha Hb.
       destruct (decide (c = child)) as [-> | Hcc]; [| by eapply (proj1 Hh)].
       assert (p = parent) as -> by (unfold child_of in *; lia). unfold get in *. congruence. }
  destruct (set_both v child parent x y) as (v' & E & Hv1 & Hv2 & Hvo & Hperm & Hlen); [lia | unfold child_of in Hpc; lia | lia | done | done |].
  unfold swap. rewrite (index_lookup v child x ltac:(lia) Hx), (index_lookup v parent y Hp0 Hy). cbn [mbind outcome_bind].
  rewrite E. cbn [mbind outcome_bind]. apply before_first in Eb; [| done | done].
  destruct (IH parent v') as (v2 & E2 & Hheap & Hperm2).
  - rewrite Hperm. by apply Forall_lookup.
  - unfold child_of in Hpc. lia.
  - lia.
  - destruct Hh as [Hh1 Hh2]. assert (Hyz : forall c z, child_of parent c -> c <> child -> get v c = Some z -> first_of y z) by (intros c z Hc1 Hc2 Hz; by eapply Hh1).
    split.
    + intros p c a b Hp Hcp Ha Hb. destruct (decide (c = child)) as [-> | Hcc].
      { assert (p = parent) as -> by (unfold child_of in *; lia). congruence. }
      rewrite Hvo in Hb by (unfold child_of in *; lia). destruct (decide (p = child)) as [-> | Hpc'].
      { rewrite Hv1 in Ha. injection Ha as <-. by eapply (Hh2 parent c). }
      destruct (decide (p = parent)) as [-> | Hpp].
      { rewrite Hv2 in Ha. injection Ha as <-. eapply first_trans; [exact Eb |]. by eapply Hyz. }
      rewrite Hvo in Ha by (unfold child_of in *; lia). by eapply (Hh1 p c).
    + intros g c a b Hg Hcp Ha Hb. rewrite Hvo in Ha by (unfold child_of in *; lia).
      assert (first_of a y) as Hay by (eapply (Hh1 g parent); [done | lia | done | done]).
      destruct (decide (c = child)) as [-> | Hcc]; [congruence |]. rewrite Hvo in Hb by (unfold child_of in *; lia).
      eapply first_trans; [exact Hay |]. by eapply Hyz.
  - exists v2. split; [done |]. split; [done | by rewrite Hperm2].
Qed.

Lemma sift_down_heap : forall rounds parent v, Forall event_ok v -> 0 <= parent < zlen v -> zlen v - parent <= Z.of_nat rounds -> heap_below v parent ->
  exists v', sift_down rounds parent v = Ok v' /\ heap v' /\ v' ≡ₚ v.
Proof using Type*.
  induction rounds as [|rounds IH]; intros parent v Hok Hp Hr Hh; [lia |]. cbn [sift_down].
  destruct (Z.leb_spec (zlen v) (parent * 2 + 1)) as [Hle | Hgt].
  { exists v. split; [done |]. split; [| done]. intros p c x y Hpc Hx Hy. destruct (decide (p = parent)) as [-> | Hne]; [| by eapply (proj1 Hh)].
    assert (0 <= c) by (unfold child_of in Hpc; lia). pose proof (lookup_zlen v c y Hy). unfold child_of in Hpc. lia. }
  pose proof Hok as Hall. rewrite Forall_lookup in Hok.
  (** the child that comes first *)
  assert (Hchild : exists child c, child_of parent child /\ get v child = Some c
    /\ (forall o z, child_of parent o -> get v o = Some z -> first_of c z)
    /\ exists lower, (if parent * 2 + 1 + 1 <? zlen v then r ← at_index v (parent * 2 + 1 + 1); l ← at_index v (parent * 2 + 1); Ok (before r l) else Ok false) = Ok (E := Error) lower
       /\ (if lower : bool then parent * 2 + 1 + 1 else parent * 2 + 1) = child).
  { destruct (zlen_lookup v (parent * 2 + 1)) as (l & Hl); [lia |]. destruct (Z.ltb_spec (parent * 2 + 1 + 1) (zlen v)) as [Hright | Hnone].
    - destruct (zlen_lookup v (parent * 2 + 1 + 1)) as (r & Hr'); [lia |]. rewrite (index_lookup v (parent * 2 + 1 + 1) r ltac:(lia) Hr'), (index_lookup v (parent * 2 + 1) l ltac:(lia) Hl). cbn [mbind outcome_bind].
      pose proof (Hok _ _ Hl). pose proof (Hok _ _ Hr'). assert (Hboth : forall o z, child_of parent o -> get v o = Some z -> z = l \/ z = r).
      { intros o z Ho Hz. unfold get in Hz. assert (o = parent * 2 + 1 \/ o = parent * 2 + 1 + 1) as [-> | ->] by (unfold child_of in Ho; lia); [left | right]; congruence. }
      destruct (before r l) eqn:Eb.
      + exists (parent * 2 + 1 + 1), r. split; [unfold child_of; lia |]. split; [done |]. split; [| by eexists].
        intros o z Ho Hz. destruct (Hboth o z Ho Hz) as [-> | ->]; [by apply before_first | apply first_refl].
      + exists (parent * 2 + 1), l. split; [unfold child_of; lia |]. split; [done |]. split; [| by eexists].
        intros o z Ho Hz. destruct (Hboth o z Ho Hz) as [-> | ->]; [apply first_refl | by apply before_false].
    - exists (parent * 2 + 1), l. split; [unfold child_of; lia |]. split; [done |]. split; [| by eexists].
      intros o z Ho Hz. pose proof (lookup_zlen v o z Hz). assert (o = parent * 2 + 1) as -> by (unfold child_of in Ho; lia).
      unfold get in Hz. assert (z = l) as -> by congruence. apply first_refl. }
  destruct Hchild as (child & c & Hpc & Hc & Hfirst & lower & -> & <-). cbn [mbind outcome_bind]. set (child := if lower then _ else _) in *.
  assert (0 <= child /\ parent < child) as [Hc0 Hlt] by (unfold child_of in Hpc; lia).
  destruct (zlen_lookup v parent Hp) as (x & Hx). rewrite (index_lookup v child c Hc0 Hc), (index_lookup v parent x ltac:(lia) Hx). cbn [mbind outcome_bind].
  pose proof (Hok _ _ Hc) as Hco. pose proof (Hok _ _ Hx) as Hxo. destruct Hh as [Hh1 Hh2]. destruct (before c x) eqn:Eb; cbn [negb].
  2: { exists v. split; [done |]. split; [| done]. apply before_false in Eb; [| done | done]. intros p o a b Hpo Ha Hb.
       destruct (decide (p = parent)) as [-> | Hne]; [| by eapply Hh1]. unfold get in Ha. assert (a = x) as -> by congruence.
       eapply first_trans; [exact Eb |]. by eapply Hfirst. }
  destruct (set_both v parent child x c) as (v' & E & Hv1 & Hv2 & Hvo & Hperm & Hlen); [lia | lia | lia | done | done |].
  unfold swap. rewrite (index_lookup v parent x ltac:(lia) Hx), (index_lookup v child c Hc0 Hc). cbn [mbind outcome_bind].
  rewrite E. cbn [mbind outcome_bind]. apply before_first in Eb; [| done | done].
  destruct (IH child v') as (v2 & E2 & Hheap & Hperm2).
  - by rewrite Hperm.
  - pose proof (lookup_zlen _ _ _ Hc Hc0). lia.
  - lia.
  - split.
    + intros p o a b Hpo Hne Ha Hb. destruct (decide (p = parent)) as [-> | Hpp].
      * rewrite Hv1 in Ha. injection Ha as <-. destruct (decide (o = child)) as [-> | Hoc]; [congruence |].
        rewrite Hvo in Hb by (unfold child_of in *; lia). by eapply Hfirst.
      * rewrite Hvo in Ha by (unfold child_of in *; lia). destruct (decide (o = parent)) as [-> | Hop].
        { rewrite Hv1 in Hb. injection Hb as <-. by eapply (Hh2 p child). }
        assert (o <> child) by (intros ->; unfold child_of in *; lia). rewrite Hvo in Hb by (unfold child_of in *; lia). by eapply (Hh1 p o).
    + intros g o a b Hg Ho Ha Hb. assert (g = parent) as -> by (unfold child_of in *; lia). rewrite Hv1 in Ha. injection Ha as <-.
      rewrite Hvo in Hb by (unfold child_of in *; lia). eapply (Hh1 child o); [done | lia | done | done].
  - exists v2. split; [done |]. split; [done | by rewrite Hperm2].
Qed.

Lemma heap_root v x : heap v -> get v 0 = Some x -> Forall (first_of x) v.
Proof using Type.
  intros Hh Hx. apply Forall_lookup. intros i. induction (lt_wf i) as [i _ IH]. intros y Hy. destruct i as [|i]; [unfold get in Hx; change (Z.to_nat 0) with 0%nat in Hx; simplify_eq; apply first_refl |].
  destruct (parent_child (Z.of_nat (S i)) ltac:(lia)) as [Hpc Hlt]. set (p := (Z.of_nat (S i) - 1) / 2) in *. pose proof Hpc as [Hp0 _].
  destruct (zlen_lookup v p) as (z & Hz); [apply lookup_lt_Some in Hy; unfold zlen; lia |]. eapply first_trans; [eapply (IH (Z.to_nat p)); [lia | exact Hz] |].
  eapply (Hh p (Z.of_nat (S i))); [done | exact Hz |]. unfold get. by rewrite Nat2Z.id.
Qed.

(** ** The queue *)

(** The queue holds these events. *)
Definition queue (q : Events K) (es : list (Event K)) : Prop := evs_values q ≡ₚ es /\ Forall event_ok es /\ (evs_small q = false -> heap (evs_values q)).

Lemma queue_empty small : queue (mkEvents [] small) [].
Proof using Type. split; [done |]. split; [constructor |]. intros _ p c x y _ Hx. unfold get in Hx. cbn [evs_values] in Hx. by rewrite lookup_nil in Hx. Qed.
Lemma queue_perm q es es' : es ≡ₚ es' -> queue q es -> queue q es'.
Proof using Type. intros He (Hp & Ho & Hh). split; [by rewrite Hp |]. split; [by rewrite <- He | done]. Qed.

Lemma push_queue q es e : queue q es -> event_ok e -> exists q', push e q = Ok q' /\ queue q' (e :: es).
Proof using Type*.
  intros (Hp & Ho & Hh) He. unfold push. assert (Hperm : evs_values q ++ [e] ≡ₚ e :: es) by (rewrite Hp; symmetry; apply Permutation_cons_append).
  destruct (evs_small q) eqn:Es.
  { eexists. split; [done |]. split; [done |]. split; [by constructor | done]. }
  specialize (Hh eq_refl). rewrite zlen_app. change (zlen [e]) with 1. pose proof (zlen_nonneg (evs_values q)).
  unfold usub. rewrite (proj2 (Z.leb_le _ _)) by lia. cbn [mbind outcome_bind].
  destruct (sift_up_heap (length (evs_values q ++ [e])) (zlen (evs_values q) + 1 - 1) (evs_values q ++ [e])) as (v & E & Hheap & Hv).
  - rewrite Hperm. by constructor.
  - rewrite zlen_app. change (zlen [e]) with 1. lia.
  - rewrite length_app. unfold zlen. cbn. lia.
  - assert (Hlast : forall c x, 0 <= c -> get (evs_values q ++ [e]) c = Some x -> c <= zlen (evs_values q)).
    { intros c x Hc Hx. pose proof (lookup_zlen _ _ _ Hx Hc) as Hl. rewrite zlen_app in Hl. change (zlen [e]) with 1 in Hl. lia. }
    assert (Hin : forall c x, 0 <= c < zlen (evs_values q) -> get (evs_values q ++ [e]) c = Some x -> get (evs_values q) c = Some x).
    { intros c x Hc Hx. unfold get in *. rewrite lookup_app_l in Hx; [done | unfold zlen in Hc; lia]. }
    split.
    + intros p c x y Hpc Hne Hx Hy. pose proof (Hlast c y ltac:(unfold child_of in Hpc; lia) Hy). apply (Hh p c x y); [done | |]; apply Hin; try done; unfold child_of in Hpc; lia.
    + intros g c x y _ Hpc _ Hy. pose proof (Hlast c y ltac:(unfold child_of in Hpc; lia) Hy). unfold child_of in Hpc. lia.
  - rewrite E. cbn [mbind outcome_bind]. eexists. split; [done |]. split; [cbn; by rewrite Hv |]. split; [by constructor | done].
Qed.

Lemma smallest_loop_ok v : Forall event_ok v -> forall rest index least e, v = take (Z.to_nat (index + 1)) v ++ rest -> 0 <= index -> index + 1 + zlen rest = zlen v ->
  0 <= least -> get v least = Some e -> Forall (first_of e) (take (Z.to_nat (index + 1)) v) ->
  exists m, 0 <= smallest_loop rest index least e /\ get v (smallest_loop rest index least e) = Some m /\ Forall (first_of m) v.
Proof using Type*.
  intros Hok. induction rest as [|c rest IH]; intros index least e Hv Hi Hl Hl0 He Hf; cbn [smallest_loop].
  { exists e. split; [done |]. split; [done |]. rewrite Hv, app_nil_r. done. }
  rewrite zlen_cons in Hl. pose proof (zlen_nonneg rest).
  assert (Hlen : length (take (Z.to_nat (index + 1)) v) = Z.to_nat (index + 1)) by (apply length_take_le; unfold zlen in Hl; lia).
  assert (Hc : get v (index + 1) = Some c) by (unfold get; rewrite Hv, lookup_app_r by lia; by rewrite Hlen, Nat.sub_diag).
  assert (Htake : take (Z.to_nat (index + 1 + 1)) v = take (Z.to_nat (index + 1)) v ++ [c]).
  { replace (Z.to_nat (index + 1 + 1)) with (S (Z.to_nat (index + 1))) by lia. by apply take_S_r. }
  rewrite Forall_lookup in Hok. pose proof (Hok _ _ He) as Heo. pose proof (Hok _ _ Hc) as Hco.
  assert (Hv' : v = take (Z.to_nat (index + 1 + 1)) v ++ rest) by (rewrite Htake, <- app_assoc; done).
  destruct (before c e) eqn:Eb; apply IH; try done; try lia; rewrite Htake; apply Forall_app; (split; [| constructor; [| constructor]]).
  - eapply Forall_impl; [exact Hf |]. intros x Hx. eapply first_trans; [| exact Hx]. by apply before_first.
  - apply first_refl.
  - done.
  - by apply before_false.
Qed.
Lemma smallest_ok v : Forall event_ok v -> match smallest v with Some i => exists m, 0 <= i /\ get v i = Some m /\ Forall (first_of m) v | None => v = [] end.
Proof using Type*.
  intros Hok. destruct v as [|x v]; [done |]. cbn [smallest]. apply smallest_loop_ok; [done | done | lia | rewrite zlen_cons; lia | lia | done |].
  constructor; [apply first_refl | constructor].
Qed.

(** An event leaves the queue that none of the others precedes. *)
Lemma pop_queue q es : queue q es ->
  (es = [] /\ pop q = Ok (q, None)) \/ exists q' e es', pop q = Ok (q', Some e) /\ es ≡ₚ e :: es' /\ queue q' es' /\ Forall (first_of e) es.
Proof using Type*.
  intros (Hp & Ho & Hh). assert (Hov : Forall event_ok (evs_values q)) by by rewrite Hp. unfold pop. destruct (evs_small q) eqn:Es.
  - pose proof (smallest_ok _ Hov) as Hs. destruct (smallest (evs_values q)) as [i|].
    + destruct Hs as (e & Hi & He & Hf). destruct (swap_remove_ok (evs_values q) i e Hi He) as (v & -> & Hperm & _). cbn [mbind outcome_bind].
      right. eexists _, e, v. split; [done |]. rewrite <- Hp. split; [done |]. split; [| done]. split; [done |]. split; [| done].
      rewrite <- Hperm in Hov. by apply Forall_cons in Hov as [_ ?].
    + left. rewrite Hs in Hp. by apply Permutation_nil_l in Hp.
  - specialize (Hh eq_refl). destruct (evs_values q) as [|root values] eqn:Ev; [left; by apply Permutation_nil_l in Hp |]. right.
    pose proof (heap_root (root :: values) root Hh eq_refl) as Hroot. destruct values as [|last l0 _] using rev_ind.
    { cbn. eexists _, root, []. split; [done |]. split; [by rewrite <- Hp |]. split; [apply queue_empty | by rewrite <- Hp]. }
    rewrite app_comm_cons in *. rewrite last_snoc. cbn [expect mbind outcome_bind].
    assert (Htake : take (pred (length ((root :: l0) ++ [last]))) ((root :: l0) ++ [last]) = root :: l0).
    { rewrite length_app. cbn [length]. replace (pred (S (length l0) + 1)) with (length (root :: l0)) by (cbn; lia). apply take_app_length. }
    rewrite Htake. rewrite bool_decide_false by done. rewrite set_index_ok by (rewrite zlen_cons; pose proof (zlen_nonneg l0); lia). cbn [mbind outcome_bind].
    change (<[Z.to_nat 0 := last]> (root :: l0)) with (last :: l0).
    assert (Hperm : root :: (last :: l0) ≡ₚ es) by (rewrite <- Hp; etrans; [| apply Permutation_cons_append]; apply perm_swap).
    assert (Hrest : Forall event_ok (last :: l0)) by (rewrite <- Hperm in Ho; by apply Forall_cons in Ho as [_ ?]).
    destruct (sift_down_heap (length (last :: l0)) 0 (last :: l0)) as (v & E & Hheap & Hv).
    + done.
    + rewrite zlen_cons. pose proof (zlen_nonneg l0). lia.
    + unfold zlen. lia.
    + split; [| intros g c x y Hg; unfold child_of in Hg; lia]. intros p c x y Hpc Hne Hx Hy.
      assert (Hup : forall k z, 0 < k -> get (last :: l0) k = Some z -> get ((root :: l0) ++ [last]) k = Some z).
      { intros k z Hk Hz. unfold get in *. destruct (Z.to_nat k) as [|n] eqn:En; [lia |]. cbn in *. by apply lookup_app_l_Some. }
      apply (Hh p c x y Hpc); apply Hup; try done; unfold child_of in Hpc; lia.
    + rewrite E. cbn [mbind outcome_bind].
      eexists _, root, (last :: l0). split; [done |]. split; [done |]. split; [| by rewrite <- Hp]. split; [done |]. done.
Qed.
Lemma peek_queue q es : queue q es ->
  (es = [] /\ peek q = Ok None) \/ exists e, peek q = Ok (Some e) /\ e ∈ es /\ Forall (first_of e) es.
Proof using Type*.
  intros (Hp & Ho & Hh). assert (Hov : Forall event_ok (evs_values q)) by by rewrite Hp. unfold peek. destruct (evs_small q) eqn:Es.
  - pose proof (smallest_ok _ Hov) as Hs. destruct (smallest (evs_values q)) as [i|].
    + destruct Hs as (e & Hi & He & Hf). rewrite (index_lookup _ i e Hi He). right. exists e. split; [done |]. rewrite <- Hp. split; [| done].
      by eapply list_elem_of_lookup_2.
    + left. rewrite Hs in Hp. by apply Permutation_nil_l in Hp.
  - specialize (Hh eq_refl). destruct (evs_values q) as [|root values] eqn:Ev; [left; by apply Permutation_nil_l in Hp |]. right. exists root.
    split; [done |]. rewrite <- Hp. split; [left | by apply heap_root].
Qed.
End Order.

(** ** Global feeds *)

Record global_ok (F : Z) (N : Z -> Z) (g : GlobalState) : Prop := {
  go_size : zlen (gl_counts g) = F /\ zlen (gl_slots g) = F /\ F <= u32_max;
  go_count i : 0 <= i < F -> get (gl_counts g) i = Some (N i) /\ 0 <= N i;
  go_unique : NoDup (gl_present g);
  go_present i : i ∈ gl_present g <-> 0 <= i < F /\ 0 < N i;
  go_slot k i : 0 <= k -> get (gl_present g) k = Some i -> get (gl_slots g) i = Some (k + 1);
}.

Definition bump (N : Z -> Z) (i d : Z) : Z -> Z := fun j => if j =? i then N j + d else N j.

Lemma get_insert {A} (l : list A) i x j : 0 <= i < zlen l -> 0 <= j -> get (<[Z.to_nat i := x]> l) j = if j =? i then Some x else get l j.
Proof.
  intros Hi Hj. unfold get. destruct (Z.eqb_spec j i) as [-> | Hne]; [rewrite list_lookup_insert_eq by (unfold zlen in Hi; lia); done |].
  by rewrite list_lookup_insert_ne by lia.
Qed.
Lemma get_range {A} (l : list A) i x : 0 <= i -> get l i = Some x -> 0 <= i < zlen l.
Proof. intros Hi Hx. split; [done |]. by eapply lookup_zlen. Qed.
Lemma get_member (l : list Z) x : x ∈ l -> exists k, 0 <= k < zlen l /\ get l k = Some x.
Proof.
  intros (k & Hk)%list_elem_of_lookup. exists (Z.of_nat k). unfold get. rewrite Nat2Z.id. split; [| done]. apply lookup_lt_Some in Hk. unfold zlen. lia.
Qed.
Lemma get_unique (l : list Z) j k x : NoDup l -> 0 <= j -> 0 <= k -> get l j = Some x -> get l k = Some x -> j = k.
Proof. intros Hn Hj Hk Ej Ek. unfold get in *. pose proof (NoDup_lookup _ _ _ _ Hn Ej Ek). lia. Qed.
Lemma short_NoDup (l : list Z) n : NoDup l -> 0 <= n -> Forall (fun x => 0 <= x < n) l -> zlen l <= n.
Proof.
  intros Hn H0 Hl. assert (Hsub : l ⊆+ seqZ 0 n); [| apply submseteq_length in Hsub; rewrite length_seqZ in Hsub; unfold zlen; lia].
  apply NoDup_submseteq; [done |]. intros x Hx. rewrite Forall_forall in Hl. specialize (Hl x Hx). apply elem_of_seqZ. lia.
Qed.

Section Globals.
Context (F : Z).

Lemma add_feed_ok l2g local i N g : 0 <= local -> get l2g local = Some i -> 0 <= i < F -> N i < u32_max -> global_ok F N g ->
  exists g', add_feed local l2g g = Ok g' /\ global_ok F (bump N i 1) g'.
Proof using Type.
  intros Hlocal Hl2g Hi Hmax [(Hc & Hs & HF) Hcount Hnd Hpresent Hslot]. destruct (Hcount i Hi) as [Hci HNi].
  unfold add_feed. rewrite (index_lookup l2g local i Hlocal Hl2g). cbn [mbind outcome_bind].
  rewrite (index_lookup (gl_counts g) i (N i) ltac:(lia) Hci). cbn [mbind outcome_bind].
  unfold checked_add. rewrite (proj2 (Z.leb_le (N i + 1) _)) by lia. cbn [ok_or mbind outcome_bind]. rewrite set_index_ok by lia. cbn [mbind outcome_bind].
  assert (Hnew : forall j, 0 <= j < F -> get (<[Z.to_nat i := N i + 1]> (gl_counts g)) j = Some (bump N i 1 j) /\ 0 <= bump N i 1 j).
  { intros j Hj. rewrite get_insert by lia. unfold bump. destruct (Z.eqb_spec j i) as [-> | Hne]; [split; [done | lia] | by apply Hcount]. }
  assert (Hbump : forall j, j <> i -> bump N i 1 j = N j) by (intros j Hj; unfold bump; by rewrite (proj2 (Z.eqb_neq _ _))).
  assert (Hbi : bump N i 1 i = N i + 1) by (unfold bump; by rewrite Z.eqb_refl).
  destruct (Z.eqb_spec (N i) 0) as [Hz | Hnz].
  - assert (Hnot : i ∉ gl_present g) by (rewrite Hpresent; lia).
    assert (Hlen : zlen (gl_present g) < F).
    { assert (zlen (i :: gl_present g) <= F); [| rewrite zlen_cons in *; lia]. apply short_NoDup; [by constructor | lia |].
      constructor; [done |]. apply Forall_forall. intros x Hx. by apply Hpresent. }
    pose proof (zlen_nonneg (gl_present g)). unfold usize_max, u64_max, u32_max in *.
    rewrite (proj2 (Z.leb_le (zlen (gl_present g) + 1) _)) by lia. cbn [mbind option_bind]. rewrite (proj2 (Z.leb_le _ _)) by lia. cbn [ok_or mbind outcome_bind].
    rewrite set_index_ok by lia. cbn [mbind outcome_bind]. eexists. split; [done |]. split; cbn [gl_counts gl_slots gl_present].
    + rewrite !zlen_insert. unfold u32_max. lia.
    + done.
    + apply NoDup_app. split; [done |]. split; [| apply NoDup_singleton]. intros x Hx ->%list_elem_of_singleton. done.
    + intros j. rewrite elem_of_app, list_elem_of_singleton, Hpresent. destruct (decide (j = i)) as [-> | Hne]; [lia |]. rewrite Hbump by done. tauto.
    + intros k j Hk Hj. unfold get in Hj. rewrite lookup_app_Some in Hj. destruct Hj as [Hj | [Hge Hj]].
      * assert (j ∈ gl_present g) as Hin by (by eapply list_elem_of_lookup_2). apply Hpresent in Hin as [Hjr Hjn].
        rewrite get_insert by lia. rewrite (proj2 (Z.eqb_neq j i)) by (intros ->; lia). by apply Hslot.
      * apply list_lookup_singleton_Some in Hj as [Hk0 <-]. rewrite get_insert, Z.eqb_refl by lia. do 2 f_equal. unfold zlen. lia.
  - eexists. split; [done |]. split; cbn [gl_counts gl_slots gl_present]; [rewrite zlen_insert; lia | done | done | | done].
    intros j. rewrite Hpresent. destruct (decide (j = i)) as [-> | Hne]; [rewrite Hbi; lia | by rewrite Hbump].
Qed.

Lemma remove_feed_ok l2g local i N g : 0 <= local -> get l2g local = Some i -> 0 <= i < F -> 0 < N i -> global_ok F N g ->
  exists g', remove_feed local l2g g = Ok g' /\ global_ok F (bump N i (-1)) g'.
Proof using Type.
  intros Hlocal Hl2g Hi Hpos [(Hc & Hs & HF) Hcount Hnd Hpresent Hslot]. destruct (Hcount i Hi) as [Hci HNi].
  unfold remove_feed. rewrite (index_lookup l2g local i Hlocal Hl2g). cbn [mbind outcome_bind].
  rewrite (index_lookup (gl_counts g) i (N i) ltac:(lia) Hci). cbn [mbind outcome_bind].
  assert (Hsub : forall a, 1 <= a -> checked_sub a 1 = Some (a - 1)) by (intros a Ha; unfold checked_sub; by rewrite (proj2 (Z.leb_le _ _))).
  rewrite (Hsub (N i)) by lia. cbn [ok_or mbind outcome_bind]. rewrite (set_index_ok (gl_counts g)) by lia. cbn [mbind outcome_bind].
  assert (Hnew : forall j, 0 <= j < F -> get (<[Z.to_nat i := N i - 1]> (gl_counts g)) j = Some (bump N i (-1) j) /\ 0 <= bump N i (-1) j).
  { intros j Hj. rewrite get_insert by lia. unfold bump. destruct (Z.eqb_spec j i) as [-> | Hne]; [split; [done | lia] | by apply Hcount]. }
  assert (Hbump : forall j, j <> i -> bump N i (-1) j = N j) by (intros j Hj; unfold bump; by rewrite (proj2 (Z.eqb_neq _ _))).
  assert (Hbi : bump N i (-1) i = N i - 1) by (unfold bump; rewrite Z.eqb_refl; lia).
  destruct (Z.eqb_spec (N i - 1) 0) as [Hz | Hnz].
  2: { eexists. split; [done |]. split; cbn [gl_counts gl_slots gl_present]; [rewrite zlen_insert; lia | done | done | | done].
       intros j. rewrite Hpresent. destruct (decide (j = i)) as [-> | Hne]; [rewrite Hbi; lia | by rewrite Hbump]. }
  assert (Hin : i ∈ gl_present g) by (by apply Hpresent). destruct (get_member _ _ Hin) as (k & Hk & Hki).
  rewrite (index_lookup (gl_slots g) i (k + 1) ltac:(lia) (Hslot k i ltac:(lia) Hki)). cbn [mbind outcome_bind].
  rewrite (Hsub (k + 1)) by lia. cbn [ok_or mbind outcome_bind]. replace (k + 1 - 1) with k by lia.
  destruct (swap_remove_ok (gl_present g) k i ltac:(lia) Hki) as (l & -> & Hperm & Hlen & Hget). cbn [mbind outcome_bind]. rewrite Z.eqb_refl. cbn [negb].
  rewrite set_index_ok by lia. cbn [mbind outcome_bind].
  assert (Hnd2 : NoDup (i :: l)) by (by rewrite Hperm). apply NoDup_cons in Hnd2 as [Hil Hndl].
  assert (Hmem : forall j, j ∈ l <-> 0 <= j < F /\ 0 < bump N i (-1) j).
  { intros j. destruct (decide (j = i)) as [-> | Hne]; [rewrite Hbi; split; [done | lia] |]. rewrite Hbump by done. rewrite <- Hpresent, <- Hperm, elem_of_cons. tauto. }
  (** every position but the one that was filled keeps its slot *)
  assert (Hkeep : forall k' j, 0 <= k' -> k' <> k -> get l k' = Some j -> get (gl_slots g) j = Some (k' + 1) /\ 0 <= j < F /\ j <> i).
  { intros k' j Hk' Hne Hj. pose proof (get_range _ _ _ Hk' Hj) as Hr. rewrite Hget, decide_False in Hj by done. split; [by apply Hslot |].
    assert (j ∈ gl_present g) as Hjp by (by eapply list_elem_of_lookup_2). apply Hpresent in Hjp as [Hjr _]. split; [done |]. intros ->.
    apply Hne. exact (get_unique (gl_present g) k' k i Hnd Hk' ltac:(lia) Hj Hki). }
  destruct (Z.ltb_spec k (zlen l)) as [Hlt | Hge].
  - pose proof (Hget k ltac:(lia)) as Hmoved. rewrite decide_True in Hmoved by done. destruct (zlen_lookup (gl_present g) (zlen (gl_present g) - 1)) as (m & Hm); [lia |].
    fold (get (gl_present g) (zlen (gl_present g) - 1)) in Hm. rewrite Hm in Hmoved. rewrite (index_lookup l k m ltac:(lia) Hmoved). cbn [mbind outcome_bind].
    assert (m ∈ l) as Hml by (by eapply list_elem_of_lookup_2). apply Hmem in Hml as [Hmr _].
    rewrite set_index_ok by (rewrite zlen_insert; lia). cbn [mbind outcome_bind]. eexists. split; [done |].
    split; cbn [gl_counts gl_slots gl_present]; [rewrite !zlen_insert; lia | done | done | done |].
    intros k' j Hk' Hj. destruct (decide (k' = k)) as [-> | Hne].
    + rewrite Hmoved in Hj. injection Hj as <-. rewrite get_insert by (rewrite ?zlen_insert; lia). by rewrite Z.eqb_refl.
    + destruct (Hkeep k' j Hk' Hne Hj) as (Hsj & Hjr & Hji). assert (j <> m). { intros ->. apply Hne. exact (get_unique l k' k m Hndl Hk' ltac:(lia) Hj Hmoved). }
      rewrite get_insert by (rewrite ?zlen_insert; lia). rewrite (proj2 (Z.eqb_neq j m)), get_insert, (proj2 (Z.eqb_neq j i)) by (done || lia). done.
  - eexists. split; [done |]. split; cbn [gl_counts gl_slots gl_present]; [rewrite !zlen_insert; lia | done | done | done |].
    intros k' j Hk' Hj. pose proof (get_range _ _ _ Hk' Hj). destruct (Hkeep k' j Hk' ltac:(lia) Hj) as (Hsj & Hjr & Hji).
    rewrite get_insert, (proj2 (Z.eqb_neq j i)) by (done || lia). done.
Qed.
End Globals.

Section Updates.
Context (cancelled : nat -> bool) (F : Z).

Lemma global_ext N N' g : (forall j, N j = N' j) -> global_ok F N g -> global_ok F N' g.
Proof using Type.
  intros He [Hs Hc Hn Hp Hk]. split; [done | | done | | done]; [intros i Hi; rewrite <- He; by apply Hc | intros i; rewrite <- He; by apply Hp].
Qed.

(** The positions are of these global feeds. *)
Definition stand_for (l2g : list Z) (locals globals : list Z) : Prop := Forall2 (fun local i => 0 <= local /\ get l2g local = Some i /\ 0 <= i < F) locals globals.
Definition one_if (globals : list Z) (j : Z) : Z := if decide (j ∈ globals) then 1 else 0.

Lemma one_if_cons i globals j : i ∉ globals -> one_if (i :: globals) j = (if j =? i then 1 else 0) + one_if globals j.
Proof using Type.
  intros Hi. unfold one_if. destruct (Z.eqb_spec j i) as [-> | Hne].
  - rewrite decide_True, decide_False by (done || left). done.
  - destruct (decide (j ∈ globals)) as [Hj | Hj].
    + rewrite decide_True by (by right). done.
    + rewrite decide_False by (rewrite not_elem_of_cons; done). done.
Qed.

Lemma global_add_ok l2g : forall locals globals work N g, stand_for l2g locals globals -> NoDup globals -> Forall (fun i => N i < u32_max) globals -> global_ok F N g ->
  ends cancelled (update_feeds cancelled add_feed locals work l2g g) (global_ok F (fun j => N j + one_if globals j)).
Proof using Type.
  induction locals as [|local locals IH]; intros globals work N g Hs Hn Hmax Hg; inversion Hs as [| ? i ? globals' (Hl & Hi & Hr) Hs']; subst; cbn [update_feeds].
  { apply ends_ret. eapply global_ext; [| exact Hg]. intros j. unfold one_if. rewrite decide_False by apply not_elem_of_nil. lia. }
  apply NoDup_cons in Hn as [Hin Hn]. apply Forall_cons in Hmax as [Hmi Hmax]. apply ends_checked.
  destruct (add_feed_ok F l2g local i N g Hl Hi Hr Hmi Hg) as (g' & E & Hg'). eapply ends_run; [exact E |].
  eapply ends_mono; [apply (IH globals' _ (bump N i 1)); [done | done | | done] |].
  - rewrite Forall_forall in Hmax |- *. intros x Hx. unfold bump. rewrite (proj2 (Z.eqb_neq x i)) by (intros ->; done). by apply Hmax.
  - intros g2. apply global_ext. intros j. rewrite one_if_cons by done. unfold bump. destruct (j =? i); lia.
Qed.
Lemma global_remove_ok l2g : forall locals globals work N g, stand_for l2g locals globals -> NoDup globals -> Forall (fun i => 0 < N i) globals -> global_ok F N g ->
  ends cancelled (update_feeds cancelled remove_feed locals work l2g g) (global_ok F (fun j => N j - one_if globals j)).
Proof using Type.
  induction locals as [|local locals IH]; intros globals work N g Hs Hn Hmax Hg; inversion Hs as [| ? i ? globals' (Hl & Hi & Hr) Hs']; subst; cbn [update_feeds].
  { apply ends_ret. eapply global_ext; [| exact Hg]. intros j. unfold one_if. rewrite decide_False by apply not_elem_of_nil. lia. }
  apply NoDup_cons in Hn as [Hin Hn]. apply Forall_cons in Hmax as [Hmi Hmax]. apply ends_checked.
  destruct (remove_feed_ok F l2g local i N g Hl Hi Hr Hmi Hg) as (g' & E & Hg'). eapply ends_run; [exact E |].
  eapply ends_mono; [apply (IH globals' _ (bump N i (-1))); [done | done | | done] |].
  - rewrite Forall_forall in Hmax |- *. intros x Hx. unfold bump. rewrite (proj2 (Z.eqb_neq x i)) by (intros ->; done). by apply Hmax.
  - intros g2. apply global_ext. intros j. rewrite one_if_cons by done. unfold bump. destruct (j =? i); lia.
Qed.

Lemma global_new_ok grants h : (forall size n, grants size n = Some n) -> heap_ok h -> 0 <= F <= u32_max -> 12 * F <= remaining h ->
  exists g, global_new grants F h = Ok (g, spend (12 * F) h) /\ global_ok F (fun _ => 0) g.
Proof using Type.
  intros Hg Hh HF Hr. unfold global_new. rewrite (filled_ok grants Hg) by (done || lia). cbn [mbind outcome_bind].
  rewrite (filled_ok grants Hg) by (unfold heap_ok, spend in *; cbn; lia). cbn [mbind outcome_bind].
  rewrite (vector_ok grants Hg) by (unfold heap_ok, spend in *; cbn; lia). cbn [mbind outcome_bind].
  eexists. split; [unfold spend; cbn; do 3 f_equal; lia |]. split; cbn [gl_counts gl_slots gl_present].
  - rewrite !zlen_replicate. lia.
  - intros i Hi. split; [| done]. unfold get. apply lookup_replicate. split; [done | lia].
  - constructor.
  - intros i. rewrite elem_of_nil. lia.
  - intros k i _ Hi. unfold get in Hi. by rewrite lookup_nil in Hi.
Qed.
End Updates.
