(* ===== verification/AlgebraFacts.v ===== *)
(** * The sweep of the set operations

    The ranges of a scope are the canonical runs of its selected feeds; the
    sweep over several scopes gives each address to its consumer in one
    segment, with the global feeds that hold it and how many scopes do. *)

From stdpp Require Import base tactics numbers list strings sorting.
From Stdlib Require Import ZArith Lia.
From S2P Require Import Prelude Errors Bytes Cardinality Key Codec Contract TreeInterface RangeMap Machine Mapping TreeQuery TreeFacts RangeCursor Compare CompareFacts.
From S2P Require Import MembershipScope MembershipFacts AlgebraScan AlgebraQueue.

#[local] Open Scope string_scope.
#[local] Open Scope list_scope.
#[local] Open Scope Z_scope.

(** ** Runs *)

Section Runs.
Context {K : Type} `{IpKeyLaws K}.
Notation Run := (Range K * list Z)%type.
Implicit Types (r : Range K) (l : list (Range K)) (runs : list Run).

Fixpoint run_at runs (a : Z) : list Z :=
  match runs with
  | [] => []
  | (r, p) :: runs => if between (rf r) (rt r) a then p else run_at runs a
  end.

Section Select.
Context (feeds : Z -> list Z) (merge : bool).

Definition touches r r' : bool := match checked_next (r_to r) with Some k => key_eqb k (r_from r') | None => false end.
(** The runs of a list of ranges, after the one that is being joined. *)
Fixpoint select (current : option Run) l : list Run :=
  match l with
  | [] => option_list current
  | next :: l =>
      if bool_decide (feeds (r_value next) = []) then option_list current ++ select None l
      else match current with
      | None => select (Some (next, feeds (r_value next))) l
      | Some (r, p) =>
          if merge && (touches r next && bool_decide (p = feeds (r_value next)))
          then select (Some (mkRange (r_from r) (r_to next) (r_value r), p)) l
          else (r, p) :: select (Some (next, feeds (r_value next))) l
      end
  end.

Definition feeds_at l (a : Z) : list Z := match rng_lookup l a with Some v => feeds v | None => [] end.
Definition ahead (current : option Run) l : list (Range K) := option_list (fst <$> current) ++ l.

Lemma touches_num r r' : range_ok r -> range_ok r' -> touches r r' = (rt r + 1 =? rf r').
Proof using Type*.
  intros (_ & Ht & _) (Hf & _). unfold touches, rt, rf. pose proof (checked_next_num _ Ht) as Hn. destruct (checked_next (r_to r)) as [k|].
  - destruct Hn as [Hk Hn]. rewrite key_eqb_num by done. by rewrite Hn.
  - pose proof (key_num_range _ Hf). symmetry. apply Z.eqb_neq. lia.
Qed.
(** Joining keeps the ranges in order. *)
Lemma join_chain r next l : chain (r :: next :: l) -> chain (mkRange (r_from r) (r_to next) (r_value r) :: l)
  /\ forall a, between (rf r) (rt next) a = between (rf r) (rt r) a || between (rt r + 1) (rf next - 1) a || between (rf next) (rt next) a.
Proof using Type*.
  intros (Hr & (Hn & Hl & Hnl)%chain_cons & Hrl)%chain_cons. apply Forall_cons in Hrl as [Hrn Hrl]. pose proof (range_ok_num _ Hr). pose proof (range_ok_num _ Hn). split.
  - apply chain_cons. split; [| by split]. destruct Hr as (Hf & _ & _ & Hv). destruct Hn as (_ & Ht & _ & _). split; [done |]. split; [done |]. unfold rf, rt in *. cbn. split; [lia | done].
  - intros a. unfold between. destruct (Z.leb_spec (rf r) a), (Z.leb_spec a (rt next)), (Z.leb_spec a (rt r)), (Z.leb_spec (rt r + 1) a), (Z.leb_spec a (rf next - 1)), (Z.leb_spec (rf next) a); cbn; try done; lia.
Qed.
Lemma feeds_before r l a : chain (r :: l) -> a <= rt r -> feeds_at l a = [].
Proof using Type*.
  intros (_ & Hl & Hr)%chain_cons Ha. unfold feeds_at. rewrite chain_before; [done | done |]. eapply Forall_impl; [exact Hr |]. cbn. lia.
Qed.
Lemma feeds_cons r l a : feeds_at (r :: l) a = if between (rf r) (rt r) a then feeds (r_value r) else feeds_at l a.
Proof using Type. unfold feeds_at. cbn [rng_lookup]. unfold between. by destruct (_ && _). Qed.
Lemma ahead_tail current r l : chain (ahead current (r :: l)) -> chain (r :: l).
Proof using Type. destruct current as [[x p]|]; cbn; [| done]. by intros (_ & ? & _)%chain_cons. Qed.

Lemma select_at : forall l current a, chain (ahead current l) ->
  run_at (select current l) a = match current with Some (r, p) => if between (rf r) (rt r) a then p else feeds_at l a | None => feeds_at l a end.
Proof using Type*.
  induction l as [|next l IH]; intros current a Hc; cbn [select].
  { destruct current as [[r p]|]; cbn; done. }
  pose proof (ahead_tail _ _ _ Hc) as Hnl. pose proof Hnl as (Hn & Hl & _)%chain_cons. pose proof (range_ok_num _ Hn). rewrite feeds_cons.
  assert (Hgone : between (rf next) (rt next) a = true -> feeds_at l a = []).
  { unfold between. intros [_ Hle%Z.leb_le]%andb_true_iff. by eapply (feeds_before next). }
  case_bool_decide as He.
  - rewrite He. destruct current as [[r p]|]; cbn -[between feeds_at]; rewrite IH by done; [destruct (between (rf r) (rt r) a); [done |] |];
      destruct (between (rf next) (rt next) a) eqn:Eb; try done; by apply Hgone.
  - destruct current as [[r p]|]; [| by rewrite IH]. destruct (merge && _) eqn:Em.
    + apply andb_true_iff in Em as [_ [Ht Hp%bool_decide_eq_true]%andb_true_iff]. pose proof Hc as (Hr & _)%chain_cons.
      rewrite touches_num in Ht by done. apply Z.eqb_eq in Ht. destruct (join_chain r next l Hc) as [Hj Hb]. rewrite IH by done.
      change (rf (mkRange (r_from r) (r_to next) (r_value r))) with (rf r). change (rt (mkRange (r_from r) (r_to next) (r_value r))) with (rt next).
      rewrite Hb, Hp. unfold between at 2. rewrite Ht. destruct (Z.leb_spec (rf next) a), (Z.leb_spec a (rf next - 1)); cbn [andb]; try lia;
        rewrite orb_false_r; by destruct (between (rf r) (rt r) a), (between (rf next) (rt next) a).
    + cbn [run_at]. rewrite IH by done. done.
Qed.

(** The runs begin where ranges begin. *)
Lemma select_begins b : forall l current, Forall (fun r => b < rf r) (ahead current l) -> Forall (fun run => b < rf (fst run)) (select current l).
Proof using Type.
  induction l as [|next l IH]; intros current Hf; cbn [select].
  { destruct current as [[r p]|]; cbn in *; [| done]. apply Forall_cons in Hf as [Hr _]. by constructor. }
  assert (Hnext : Forall (fun r => b < rf r) (next :: l)) by (destruct current as [[r p]|]; cbn in Hf; [by apply Forall_cons in Hf as [_ ?] | done]).
  pose proof Hnext as [Hn Hl]%Forall_cons. case_bool_decide.
  - destruct current as [[r p]|]; cbn; [apply Forall_cons in Hf as [Hr _]; constructor; [done |] |]; by apply IH.
  - destruct current as [[r p]|]; [| by apply IH]. apply Forall_cons in Hf as [Hr _]. destruct (merge && _); [apply IH; by constructor |]. constructor; [done | by apply IH].
Qed.
Lemma select_chain : forall l current, chain (ahead current l) -> chain (fst <$> select current l).
Proof using Type*.
  induction l as [|next l IH]; intros current Hc; cbn [select].
  { destruct current as [[r p]|]; cbn in *; [| done]. done. }
  pose proof (ahead_tail _ _ _ Hc) as Hnl. pose proof Hnl as (Hn & Hl & _)%chain_cons.
  assert (Hcons : forall r p (rest : list Run), range_ok r -> chain (fst <$> rest) -> Forall (fun run => rt r < rf (fst run)) rest -> chain (fst <$> (r, p) :: rest)).
  { intros r p rest Hr Hrest Hf. apply chain_cons. split; [done |]. split; [done |]. apply Forall_fmap. done. }
  case_bool_decide.
  - destruct current as [[r p]|]; cbn -[chain fmap]; [| by apply IH]. apply chain_cons in Hc as (Hr & _ & Hf). apply Forall_cons in Hf as [_ Hf].
    apply Hcons; [done | by apply IH | by apply select_begins].
  - destruct current as [[r p]|]; [| by apply IH]. destruct (merge && _).
    + apply IH. by apply (join_chain r next l).
    + apply chain_cons in Hc as (Hr & _ & Hf). apply Hcons; [done | by apply IH | by apply select_begins].
Qed.
Lemma select_nonempty : forall l current, (forall r p, current = Some (r, p) -> p <> []) -> Forall (fun run => snd run <> []) (select current l).
Proof using Type.
  induction l as [|next l IH]; intros current Hcur; cbn [select].
  { destruct current as [[r p]|]; cbn; [constructor; [by eapply Hcur | constructor] | constructor]. }
  case_bool_decide as He.
  - destruct current as [[r p]|]; cbn; [constructor; [by eapply Hcur |] |]; by apply IH.
  - assert (Hnew : forall r p, Some (next, feeds (r_value next)) = Some (r, p) -> p <> []) by (by intros r p [= <- <-]).
    destruct current as [[r p]|]; [| by apply IH]. assert (p <> []) by by eapply Hcur. destruct (merge && _); [apply IH; by intros ? ? [= <- <-] |]. constructor; [done | by apply IH].
Qed.
Lemma select_length : forall l current, (length (select current l) <= length (ahead current l))%nat.
Proof using Type.
  induction l as [|next l IH]; intros current; cbn [select].
  { by destruct current as [[r p]|]. }
  pose proof (IH None). pose proof (IH (Some (next, feeds (r_value next)))). case_bool_decide; destruct current as [[r p]|]; cbn in *; try lia.
  pose proof (IH (Some (mkRange (r_from r) (r_to next) (r_value r), p))). destruct (merge && _); cbn in *; lia.
Qed.
End Select.
End Runs.

Lemma select_apart {K} `{IpKey K} feeds x l : select (K := K) feeds false (Some x) l = x :: select feeds false None l.
Proof. destruct l as [|next l]; cbn; [done |]. case_bool_decide; [done |]. by destruct x. Qed.

(** ** The ranges of one scope *)

Section Selected.
Context {K : Type} `{IpKeyLaws K} (cancelled : nat -> bool) (grants : Z -> Z -> option Z).
Context (reader : GenerationReader) (scope : ScopeData) (es : list (Range K)) (words_of : Z -> list Z).

(** A database and a scope on it that a sweep can read. *)
Record source_ok : Prop := {
  sk_kind : value_kind (gr_meta reader) = Membership \/ value_kind (gr_meta reader) = Structured;
  sk_family : address_family (gr_meta reader) = key_family;
  sk_owner : gr_owner reader <> Some false;
  sk_tree : tree_holds (mkGeneration (gr_mapping reader) (gr_meta reader)) (range_root (gr_meta reader)) es;
  sk_canonical : canonical es;
  sk_count : zlen es <= u64_max;
  sk_scope : ordered (entries scope) /\ index_answers (index scope) (entries scope);
  sk_view e : e ∈ es -> 0 < r_value e /\ exists view, gr_membership reader (r_value e) = Ok view /\ shows view (words_of (r_value e))
    /\ bitmap_ok (words_of (r_value e)) /\ readable scope (words_of (r_value e));
}.
Context (Hok : source_ok).

Definition feeds_of (membership : Z) : list Z := named (entries scope) (words_of membership).
Notation good := (scratch_ok scope (fun m => Some (words_of m))).
Notation merge := (negb (all_catalog scope)).
Definition pend_run (pending : option (Range K)) : option (Range K * list Z) := (fun y => (y, feeds_of (r_value y))) <$> pending.

(** The ranges the cursor has still to give. *)
Record gives (s : SelectedRanges K) (pending : option (Range K)) (l : list (Range K)) : Prop := {
  gv_cursor : cs_pending (gr_mapping reader) (sr_cursor s) l;
  gv_active : good (sr_active s);
  gv_lookahead : match sr_lookahead s with Some x => all_catalog scope = false /\ good x | None => all_catalog scope = true end;
  gv_pending : sr_pending s = pending /\ match pending with
    | Some y => exists x, sr_lookahead s = Some x /\ present x = feeds_of (r_value y) /\ feeds_of (r_value y) <> []
    | None => True end;
  gv_count : sr_physical_count s = zlen es - zlen l;
  gv_known : Forall (fun e => e ∈ es) l;
}.

Lemma next_physical_ok s pending l : gives s pending l -> ends cancelled (next_physical cancelled reader s) (fun '(s', r) => r = head l /\ gives s' pending (tail l)
  /\ sr_active s' = sr_active s /\ sr_lookahead s' = sr_lookahead s).
Proof using Hok H0.
  intros [Hc Ha Hl Hp Hn Hk]. unfold next_physical. apply ends_checked. destruct (cs_next_pending _ _ _ Hc) as (c & -> & Hc').
  eapply ends_run; [done |]. pose proof (sk_count Hok). pose proof (zlen_nonneg l).
  assert (Hcount : match head l with Some _ => ok_or (checked_add u64_max (sr_physical_count s) 1) (ArithmeticOverflow "membership scan range count") | None => Ok (sr_physical_count s) end
    = Ok (zlen es - zlen (tail l))).
  { rewrite Hn. destruct l as [|x l]; cbn [head tail]; [done |]. rewrite zlen_cons in *. pose proof (zlen_nonneg l). unfold checked_add.
    rewrite (proj2 (Z.leb_le _ _)) by lia. cbn. f_equal. lia. }
  eapply ends_run; [exact Hcount |]. apply ends_ret. split; [done |]. split; [| done].
  split; [done | done | done | done | done |]. destruct l as [|x l]; [done |]. by apply Forall_cons in Hk as [_ ?].
Qed.
Lemma load_scratch_ok e x : e ∈ es -> good x -> ends cancelled (load_scratch cancelled reader scope (r_value e) x) (fun x' => good x' /\ present x' = feeds_of (r_value e)).
Proof using Hok.
  intros He Hx. destruct (sk_view Hok e He) as (Hpos & view & Hv & Hs & Hb & Hr). destruct (sk_scope Hok) as [Ho Hi].
  eapply ends_mono; [by apply (load_ends cancelled scope (fun m => Some (words_of m)) Ho Hi _ _ (words_of (r_value e)) view) |].
  intros x' (Hx' & _ & Hd). split; [done | by apply decoded_named].
Qed.

Lemma first_range_ok : forall rounds l s, gives s None l -> (length l < rounds)%nat ->
  ends cancelled (first_range cancelled reader scope rounds s) (fun '(s', r) => match r with
    | None => gives s' None [] /\ select feeds_of merge None l = []
    | Some y => exists l', gives s' None l' /\ sr_present s' = feeds_of (r_value y) /\ feeds_of (r_value y) <> [] /\ (length l' < length l)%nat
        /\ select feeds_of merge None l = select feeds_of merge (Some (y, feeds_of (r_value y))) l'
    end).
Proof using Hok H0.
  induction rounds as [|rounds IH]; intros l s Hg Hlen; [lia |]. cbn [first_range]. eapply ends_bind; [by apply (next_physical_ok s None l) |].
  intros [s1 r] (-> & Hg1 & Ha1 & Hl1). destruct l as [|y l]; cbn [head tail] in *.
  - eapply ends_bind; [apply (scratch_clear_ends cancelled scope (fun m => Some (words_of m))); apply Hg1 |].
    intros x (Hp & Hm & Hnone & Hc). apply ends_ret. split; [| done]. destruct Hg1 as [? Hact ? ? ? ?]. split; try done. cbn. split.
    + by rewrite Hp.
    + rewrite Hc. apply Hact.
    + by rewrite Hnone.
  - pose proof (gv_known _ _ _ Hg) as [Hy _]%Forall_cons. eapply ends_bind; [apply load_scratch_ok; [exact Hy | apply Hg1] |].
    intros x [Hx Hp]. assert (Hg2 : gives (set_active x s1) None l) by (by destruct Hg1; split).
    cbn [select]. rewrite Hp. case_bool_decide as He.
    + cbn in Hlen. eapply ends_mono; [apply IH; [exact Hg2 | lia] |]. intros [s2 [z|]]; [| done]. intros (l' & Hg' & Hp' & Hne & Hlt & E).
      exists l'. cbn [length option_list app]. split; [done |]. split; [done |]. split; [done |]. split; [lia | done].
    + apply ends_ret. exists l. split; [done |]. split; [done |]. split; [done |]. split; [cbn; lia | done].
Qed.

Lemma join_ranges_ok p : forall rounds l cur s, gives s None l -> sr_lookahead s <> None -> sr_present s = p -> (length l < rounds)%nat ->
  ends cancelled (join_ranges cancelled reader scope rounds cur s) (fun '(s', r) => exists c pending l', r = Some (selected c) /\ sr_present s' = p
    /\ gives s' pending l' /\ (length (ahead (pend_run pending) l') <= length l)%nat
    /\ select feeds_of merge (Some (cur, p)) l = (c, p) :: select feeds_of merge (pend_run pending) l').
Proof using Hok H0.
  induction rounds as [|rounds IH]; intros l cur s Hg Hla Hp Hlen; [lia |]. cbn [join_ranges]. eapply ends_bind; [by apply (next_physical_ok s None l) |].
  intros [s1 r] (-> & Hg1 & Ha1 & Hl1). destruct l as [|y l]; cbn [head tail] in *.
  { apply ends_ret. exists cur, None, []. unfold sr_present in *. rewrite Ha1. do 3 (split; [done |]). done. }
  pose proof (gv_lookahead _ _ _ Hg1) as Hlook. rewrite Hl1 in Hlook. destruct (sr_lookahead s) as [x|] eqn:Ex; [| done]. destruct Hlook as [Hall Hx].
  rewrite Hl1. eapply ends_run; [done |]. pose proof (gv_known _ _ _ Hg) as [Hy _]%Forall_cons.
  eapply ends_bind; [by apply load_scratch_ok |]. intros x' [Hx' Hpx]. rewrite Hpx.
  assert (Hp1 : sr_present (set_lookahead x' s1) = p) by (unfold sr_present in *; cbn; by rewrite Ha1).
  assert (Hg2 : gives (set_lookahead x' s1) None l) by (destruct Hg1; by split).
  cbn [select]. rewrite Hall. cbn [negb andb]. case_bool_decide as He.
  { apply ends_ret. exists cur, None, l. split; [done |]. split; [done |]. split; [done |]. split; [cbn; lia |]. done. }
  rewrite Hp1. fold (touches cur y). destruct (touches cur y && _) eqn:Et.
  - cbn in Hlen. eapply ends_mono; [apply IH; [exact Hg2 | done | exact Hp1 | lia] |]. intros [s2 r2] (c & pending & l' & Hr & Hpr & Hg' & Hle & E).
    exists c, pending, l'. split; [done |]. split; [done |]. split; [done |]. split; [cbn; lia |]. rewrite Hall in E. exact E.
  - apply ends_ret. exists cur, (Some y), l. split; [done |]. split; [done |]. split; [| split; [cbn; lia | done]].
    destruct Hg2 as [G1 G2 G3 [_ _] G5 G6]. split; try done. split; [done |]. exists x'. done.
Qed.

(** Each call gives the next run. *)
Lemma selected_next_ok rounds s pending l : gives s pending l -> (length l < rounds)%nat ->
  ends cancelled (selected_next cancelled reader scope rounds s) (fun '(s', r) => match select feeds_of merge (pend_run pending) l with
    | [] => r = None /\ gives s' None []
    | (c, p) :: runs => r = Some (selected c) /\ sr_present s' = p /\ exists pending' l', gives s' pending' l'
        /\ (length (ahead (pend_run pending') l') < length (ahead (pend_run pending) l))%nat /\ select feeds_of merge (pend_run pending') l' = runs
    end).
Proof using Hok H0.
  intros Hg Hlen. unfold selected_next. pose proof (gv_pending _ _ _ Hg) as [Hpe Hpx]. rewrite Hpe. destruct pending as [y|].
  - destruct Hpx as (x & Hx & Hpx & Hne). rewrite Hx. eapply ends_bind with (P := fun '(s', r) => r = Some y /\ gives s' None l /\ sr_present s' = feeds_of (r_value y) /\ sr_lookahead s' <> None).
    { eapply ends_run; [done |]. apply ends_ret. split; [done |]. split; [| done]. destruct Hg as [G1 G2 G3 _ G5 G6]. rewrite Hx in G3. destruct G3 as [Hall Hx']. split; done. }
    intros [s1 r] (-> & Hg1 & Hp1 & Hl1). destruct (sr_lookahead s1) as [x1|] eqn:E1; [| done].
    eapply ends_mono; [apply (join_ranges_ok (feeds_of (r_value y)) rounds l y s1 Hg1); [by rewrite E1 | done | done] |].
    intros [s2 r2] (c & pending' & l' & -> & Hp2 & Hg' & Hle & E). cbn [pend_run fmap option_fmap option_map]. rewrite E. split; [done |]. split; [done |].
    exists pending', l'. split; [done |]. split; [cbn; lia | done].
  - cbn [pend_run fmap option_fmap option_map]. eapply ends_bind; [by apply (first_range_ok rounds l) |]. intros [s1 [y|]].
    2: { intros [Hg1 E]. apply ends_ret. by rewrite E. }
    intros (l1 & Hg1 & Hp1 & Hne & Hlt & E). rewrite E. pose proof (gv_lookahead _ _ _ Hg1) as Hlook. destruct (sr_lookahead s1) as [x1|] eqn:E1.
    + eapply ends_mono; [apply (join_ranges_ok (feeds_of (r_value y)) rounds l1 y s1 Hg1); [by rewrite E1 | done | lia] |].
      intros [s2 r2] (c & pending' & l' & -> & Hp2 & Hg' & Hle & E2). rewrite E2. split; [done |]. split; [done |].
      exists pending', l'. split; [done |]. split; [cbn; lia | done].
    + apply ends_ret. rewrite Hlook. cbn [negb]. rewrite select_apart. split; [done |]. split; [done |]. exists None, l1. split; [done |]. split; [cbn; lia | done].
Qed.
End Selected.

(** ** The sweep *)

Lemma ends_guard {B} cancelled (b : bool) e (f : unit -> io nat B) Q : b = false -> ends cancelled (f tt) Q -> ends cancelled (fail_if b e ≫= f) Q.
Proof. intros Hb Hf. eapply ends_bind with (P := fun _ => True); [by apply ends_fail_if |]. by intros []. Qed.

(** What holds of the feeds of every range holds of the feeds of every run. *)
Lemma select_forall {K} `{IpKey K} feeds merge (P : list Z -> Prop) : (forall v, P (feeds v)) -> forall (l : list (Range K)) current,
  (forall r p, current = Some (r, p) -> P p) -> Forall (fun run => P (snd run)) (select feeds merge current l).
Proof.
  intros HP. induction l as [|next l IH]; intros current Hcur; cbn [select].
  { destruct current as [[r p]|]; cbn; [constructor; [by eapply Hcur | constructor] | constructor]. }
  assert (Hnew : forall r p, Some (next, feeds (r_value next)) = Some (r, p) -> P p) by (by intros r p [= <- <-]).
  case_bool_decide as He.
  - destruct current as [[r p]|]; cbn; [constructor; [by eapply Hcur |] |]; by apply IH.
  - destruct current as [[r p]|]; [| by apply IH]. assert (P p) by by eapply Hcur. destruct (merge && _); [apply IH; by intros ? ? [= <- <-] |]. constructor; [done | by apply IH].
Qed.
Lemma run_before {K} `{IpKeyLaws K} (runs : list (Range K * list Z)) a : Forall (fun run => a < rf (fst run)) runs -> run_at runs a = [].
Proof.
  induction 1 as [|[r p] runs Hr _ IH]; [done |]. cbn [run_at]. unfold between. cbn in Hr. rewrite (proj2 (Z.leb_gt _ _)) by done. done.
Qed.

Section Sweep.
Context {K : Type} `{IpKeyLaws K} (cancelled : nat -> bool) (rounds : nat) (F : Z).
Notation Run := (Range K * list Z)%type.

(** A source: what the sweep reads of it, and what its database holds. *)
Record Src := mkSrc { sx_input : AlgebraInput; sx_es : list (Range K); sx_words : Z -> list Z }.
Implicit Types (x : Src).
Notation rd x := (ai_reader (sx_input x)).
Notation scp x := (ai_scope (sx_input x)).
Notation l2g x := (ai_local_to_global (sx_input x)).
Notation fds x := (feeds_of (scp x) (sx_words x)).
Notation mrg x := (negb (all_catalog (scp x))).

Definition runs_of x : list Run := select (fds x) (mrg x) None (sx_es x).
(** The global feeds of positions. *)
Definition globals_of x (p : list Z) : list Z := omap (get (l2g x)) p.
Record src_ok x : Prop := {
  xo_source : source_ok (rd x) (scp x) (sx_es x) (sx_words x);
  xo_expected : ai_expected_ranges (sx_input x) = zlen (sx_es x);
  xo_map : zlen (l2g x) = zlen (entries (scp x)) /\ NoDup (l2g x) /\ Forall (fun i => 0 <= i < F) (l2g x);
  xo_rounds : (length (sx_es x) < rounds)%nat;
}.

(** Positions of the scope, each once. *)
Definition placed x (p : list Z) : Prop := NoDup p /\ Forall (fun q => 0 <= q < zlen (entries (scp x))) p.
Lemma feeds_placed x m : placed x (fds x m).
Proof using Type.
  unfold feeds_of. pose proof (named_decoded (entries (scp x)) (sx_words x m)) as Hd. split; [| exact (decoded_range (scp x) _ _ Hd)].
  destruct Hd as [Hs _]. clear -Hs. induction Hs as [|y l Hs IH Hy]; constructor; [| done]. intros Hin. rewrite Forall_forall in Hy. specialize (Hy y Hin). lia.
Qed.
Lemma placed_globals x p : src_ok x -> placed x p -> stand_for F (l2g x) p (globals_of x p) /\ NoDup (globals_of x p).
Proof using Type.
  intros Hx [Hn Hp]. destruct (xo_map x Hx) as (Hl & Hnd & HF). rewrite <- Hl in Hp.
  assert (Hget : forall q, 0 <= q < zlen (l2g x) -> exists i, get (l2g x) q = Some i /\ 0 <= i < F).
  { intros q Hq. destruct (zlen_lookup (l2g x) q Hq) as (i & Hi). exists i. split; [done |]. rewrite Forall_forall in HF. apply HF. by eapply list_elem_of_lookup_2. }
  induction Hn as [|q p Hq Hn IH]; [split; constructor |]. apply Forall_cons in Hp as [Hqr Hp]. destruct (IH Hp) as [Hs Hng]. destruct (Hget q Hqr) as (i & Hi & HiF).
  unfold globals_of in *. cbn [omap list_omap]. rewrite Hi. split; [constructor; [split; [lia | done] | exact Hs] |]. constructor; [| done].
  intros (q' & Hq' & Hi')%list_elem_of_omap. apply Hq. rewrite Forall_forall in Hp. specialize (Hp q' Hq'). replace q with q'; [done |]. symmetry. apply (get_unique (l2g x) q q' i); [done | lia | lia | done | done].
Qed.

(** *** A source during the sweep *)

Record Part := mkPart { pt_src : Src; pt_todo : list Run; pt_active : bool }.
Implicit Types (y : Part) (ps : list Part) (s : SourceState K).

Definition reads x (ranges : SelectedRanges K) (runs : list Run) : Prop := exists pending l, gives (rd x) (scp x) (sx_es x) (sx_words x) ranges pending l
  /\ (length (ahead (pend_run (scp x) (sx_words x) pending) l) < rounds)%nat /\ select (fds x) (mrg x) (pend_run (scp x) (sx_words x) pending) l = runs.
Definition sim y s : Prop := st_input s = sx_input (pt_src y) /\ st_active s = pt_active y /\ match pt_todo y with
  | [] => st_range s = None /\ sr_physical_count (st_ranges s) = zlen (sx_es (pt_src y)) /\ reads (pt_src y) (st_ranges s) []
  | (c, p) :: runs => st_range s = Some (selected c) /\ sr_present (st_ranges s) = p /\ reads (pt_src y) (st_ranges s) runs
  end.

Lemma load_next_ok x ranges runs : src_ok x -> reads x ranges runs ->
  ends cancelled (load_next cancelled rounds (mkSourceState (sx_input x) ranges None false)) (sim (mkPart x runs false)).
Proof using H0.
  intros Hx (pending & l & Hg & Hlen & Hr). unfold load_next. cbn [st_input st_ranges st_active].
  assert (Hl : (length l < rounds)%nat) by (unfold ahead in Hlen; rewrite length_app in Hlen; lia).
  eapply ends_bind; [by apply (selected_next_ok cancelled _ _ _ _ (xo_source x Hx) rounds ranges pending l) |]. rewrite Hr. intros [s' r] Hs.
  assert (Hcount : sr_physical_count s' <= zlen (sx_es x)).
  { destruct runs as [|[c p] runs]; [destruct Hs as [_ Hs] | destruct Hs as (_ & _ & ? & l' & Hs & _)]; rewrite (gv_count _ _ _ _ _ _ _ Hs);
      [change (zlen (@nil (Range K))) with 0 | pose proof (zlen_nonneg l')]; lia. }
  apply ends_guard; [rewrite (xo_expected x Hx); apply Z.ltb_ge; lia |]. apply ends_ret.
  unfold sim. cbn [st_input st_ranges st_active st_range pt_src pt_todo pt_active]. split; [done |]. split; [done |]. destruct runs as [|[c p] runs].
  - destruct Hs as [-> Hs]. split; [done |]. split; [rewrite (gv_count _ _ _ _ _ _ _ Hs); change (zlen (@nil (Range K))) with 0; lia |].
    exists None, []. split; [done |]. split; [cbn; lia | done].
  - destruct Hs as (-> & Hp & pending' & l' & Hg' & Hlt & E). split; [done |]. split; [done |]. exists pending', l'. split; [done |]. split; [lia | done].
Qed.

(** *** Where the sweep stands *)

Definition event_of (k : Z) y : list (Event K) :=
  match pt_todo y with
  | [] => []
  | (c, _) :: _ => if pt_active y then match checked_next (r_to c) with Some to => [mkEvent to k End_] | None => [] end else [mkEvent (r_from c) k Start]
  end.
Fixpoint events_of (k : Z) ps : list (Event K) := match ps with [] => [] | y :: ps => event_of k y ++ events_of (k + 1) ps end.
(** How often a source counts for a global feed. *)
Definition share y (g : Z) : Z := if pt_active y then match pt_todo y with (_, p) :: _ => one_if (globals_of (pt_src y) p) g | [] => 0 end else 0.
Fixpoint total ps (g : Z) : Z := match ps with [] => 0 | y :: ps => share y g + total ps g end.
Definition steps y : nat := 2 * length (pt_todo y) - (if pt_active y then 1 else 0).
Fixpoint all_steps ps : nat := match ps with [] => 0 | y :: ps => steps y + all_steps ps end.

(** The source at the address: what is before it no longer matters. *)
Record part_ok (A : Z) y : Prop := {
  po_src : src_ok (pt_src y);
  po_chain : chain (fst <$> pt_todo y);
  po_placed : Forall (fun run => placed (pt_src y) (snd run)) (pt_todo y);
  po_same a : A <= a -> run_at (pt_todo y) a = run_at (runs_of (pt_src y)) a;
  po_stand : match pt_todo y with [] => pt_active y = false | (c, _) :: _ => if pt_active y then rf c <= A <= rt c + 1 else A <= rf c end;
}.

Lemma events_app a b : forall k, events_of k (a ++ b) = events_of k a ++ events_of (k + zlen a) b.
Proof using Type.
  induction a as [|y a IH]; intros k; cbn [app events_of]; [by rewrite Z.add_0_r |]. rewrite IH, <- app_assoc, zlen_cons. do 3 f_equal. lia.
Qed.
Lemma shares_app a b g : total (a ++ b) g = total a g + total b g.
Proof using Type. induction a as [|y a IH]; cbn [app total]; [done |]. rewrite IH. lia. Qed.
Lemma steps_app a b : all_steps (a ++ b) = (all_steps a + all_steps b)%nat.
Proof using Type. induction a as [|y a IH]; cbn [app all_steps]; [done |]. rewrite IH. lia. Qed.
Lemma one_if_range globals g : 0 <= one_if globals g <= 1.
Proof using Type. unfold one_if. destruct (decide _); lia. Qed.
Lemma share_range y g : 0 <= share y g <= 1.
Proof using Type. unfold share. destruct (pt_active y); [| lia]. destruct (pt_todo y) as [|[c p] ?]; [lia |]. apply one_if_range. Qed.
Lemma total_range ps g : 0 <= total ps g <= zlen ps.
Proof using Type. induction ps as [|y ps IH]; cbn [total]; [done |]. rewrite zlen_cons. pose proof (share_range y g). lia. Qed.

Lemma chain_tail c p (runs : list Run) : chain (fst <$> (c, p) :: runs) -> range_ok c /\ chain (fst <$> runs) /\ Forall (fun run => rt c < rf (fst run)) runs.
Proof using Type. 
  change (fst <$> (c, p) :: runs) with (c :: (fst <$> runs)). intros (Hc & Hr & Hl)%chain_cons. split; [done |]. split; [done |]. exact (proj1 (Forall_fmap fst (fun b => rt c < rf b) runs) Hl).
Qed.

(** Nothing happens before the first event. *)
Lemma part_wait A B y k : part_ok A y -> A <= B <= key_top (K := K) + 1 -> Forall (fun e => B <= time e) (event_of k y) ->
  part_ok B y /\ forall a g, A <= a < B -> share y g = one_if (globals_of (pt_src y) (run_at (runs_of (pt_src y)) a)) g.
Proof using Type*.
  intros [Hx Hc Hp Hs Hst] HAB He. unfold share, event_of in *. destruct (pt_todo y) as [|[c p] runs] eqn:Et.
  - split; [split; rewrite ?Et; try done; intros a Ha; apply Hs; lia |]. intros a g Ha. rewrite <- Hs by lia. rewrite Hst. done.
  - pose proof (chain_tail _ _ _ Hc) as (Hco & _ & Hrest). pose proof (range_ok_num _ Hco). destruct (pt_active y) eqn:Ea.
    + assert (HB : B <= rt c + 1).
      { destruct Hco as (_ & Ht & _). pose proof (checked_next_num _ Ht) as Hn. unfold rt in *. destruct (checked_next (r_to c)) as [to|]; [| lia].
        apply Forall_cons in He as [He _]. destruct Hn as [_ Hn]. unfold time in He. cbn in He. lia. }
      split; [split; rewrite ?Et, ?Ea; try done; [intros a Ha; apply Hs; lia | lia] |]. intros a g Ha. rewrite <- Hs by lia. cbn [run_at]. unfold between.
      rewrite !(proj2 (Z.leb_le _ _)) by lia. done.
    + apply Forall_cons in He as [He _]. unfold time in He. cbn in He. change (key_num (r_from c)) with (rf c) in He.
      split; [split; rewrite ?Et, ?Ea; try done; intros a Ha; apply Hs; lia |]. intros a g Ha. rewrite <- Hs by lia.
      rewrite run_before; [unfold one_if; by rewrite decide_False by apply not_elem_of_nil |]. constructor; [cbn; lia |].
      eapply Forall_impl; [exact Hrest |]. cbn. intros run Hrun. lia.
Qed.

(** The number of sources that hold a global feed at an address. *)
Fixpoint held (xs : list Src) (a g : Z) : Z := match xs with [] => 0 | x :: xs => one_if (globals_of x (run_at (runs_of x) a)) g + held xs a g end.

Lemma parts_wait A B : A <= B <= key_top (K := K) + 1 -> forall ps k, Forall (part_ok A) ps -> Forall (fun e => B <= time e) (events_of k ps) ->
  Forall (part_ok B) ps /\ forall a g, A <= a < B -> total ps g = held (pt_src <$> ps) a g.
Proof using Type*.
  intros HAB. induction ps as [|y ps IH]; intros k Hp He; [done |]. apply Forall_cons in Hp as [Hy Hp]. cbn [events_of] in He. apply Forall_app in He as [Hey He].
  destruct (part_wait A B y k Hy HAB Hey) as [Hy' Hh]. destruct (IH _ Hp He) as [Hp' Ht]. split; [by constructor |]. intros a g Ha. cbn [total fmap list_fmap held].
  rewrite (Hh a g Ha). by rewrite (Ht a g Ha).
Qed.
Lemma part_events A y k : part_ok A y -> Forall (fun e => A <= time e <= key_top (K := K) /\ event_ok e) (event_of k y).
Proof using Type*.
  intros [Hx Hc Hp Hs Hst]. unfold event_of. destruct (pt_todo y) as [|[c p] runs]; [constructor |]. pose proof (chain_tail _ _ _ Hc) as (Hco & _). pose proof (range_ok_num _ Hco). destruct Hco as (Hf & Ht & _).
  unfold time, event_ok. destruct (pt_active y).
  - pose proof (checked_next_num _ Ht) as Hn. destruct (checked_next (r_to c)) as [to|]; [| constructor]. destruct Hn as [Hk Hn]. constructor; [| constructor]. cbn.
    pose proof (key_num_range _ Hk). unfold rt in *. split; [lia | done].
  - constructor; [| constructor]. cbn. change (key_num (r_from c)) with (rf c). split; [lia | done].
Qed.
Lemma parts_events A : forall ps k, Forall (part_ok A) ps -> Forall (fun e => A <= time e <= key_top (K := K) /\ event_ok e) (events_of k ps).
Proof using Type*. induction ps as [|y ps IH]; intros k Hp; [constructor |]. apply Forall_cons in Hp as [Hy Hp]. cbn [events_of]. apply Forall_app. split; [by apply part_events | by apply IH]. Qed.
(** An event names its source. *)
Lemma event_source : forall ps k e, e ∈ events_of k ps -> exists a y b, ps = a ++ y :: b /\ e ∈ event_of (k + zlen a) y /\ ev_source e = k + zlen a.
Proof using Type.
  induction ps as [|y ps IH]; intros k e He; cbn [events_of] in He; [by apply elem_of_nil in He |]. apply elem_of_app in He as [He | He].
  - exists [], y, ps. split; [done |]. rewrite Z.add_0_r. split; [done |]. unfold event_of in He. destruct (pt_todo y) as [|[c p] ?]; [by apply elem_of_nil in He |].
    destruct (pt_active y); [destruct (checked_next (r_to c)); [| by apply elem_of_nil in He] |]; by apply list_elem_of_singleton in He as ->.
  - destruct (IH _ _ He) as (a & z & b & -> & Hz & Hs). exists (y :: a), z, b. split; [done |]. rewrite zlen_cons. replace (k + (1 + zlen a)) with (k + 1 + zlen a) by lia. done.
Qed.

(** *** One event *)

Record swept (A : Z) ps (states : list (SourceState K)) (g : GlobalState) : Prop := {
  wp_sim : Forall2 sim ps states;
  wp_parts : Forall (part_ok A) ps;
  wp_global : global_ok F (total ps) g;
  wp_few : zlen ps <= u32_max;
}.

Lemma push_start A y s k q es : sim y s -> pt_active y = false -> part_ok A y -> queue q es ->
  exists q', match st_range s with Some (from, _) => push (mkEvent from k Start) q | None => Ok q end = Ok q' /\ queue q' (event_of k y ++ es).
Proof using Type*.
  intros (_ & _ & Hs) Ha Hy Hq. pose proof (part_events A y k Hy) as He. unfold event_of in *. rewrite Ha in *. destruct (pt_todo y) as [|[c p] runs].
  - destruct Hs as [-> _]. by exists q.
  - destruct Hs as [-> _]. cbn. apply Forall_cons in He as [[_ He] _]. by apply push_queue.
Qed.

Lemma insert_at {A} (l l' : list A) u u' : <[length l := u']> (l ++ u :: l') = l ++ u' :: l'.
Proof using Type. induction l as [|z l IH]; [done |]. cbn. f_equal. exact IH. Qed.
Lemma zlen_nat {A} (l : list A) : Z.to_nat (zlen l) = length l.
Proof using Type. unfold zlen. lia. Qed.
Lemma total_put a y b g : total (a ++ y :: b) g = total a g + share y g + total b g.
Proof using Type. rewrite shares_app. cbn [total]. lia. Qed.

(** One source among the others, whose events are the rest. *)
Record focus (A : Z) a y b sa s sb (rest : list (Event K)) : Prop := {
  fo_before : Forall2 sim a sa /\ Forall (part_ok A) a;
  fo_after : Forall2 sim b sb /\ Forall (part_ok A) b;
  fo_here : sim y s /\ part_ok A y;
  fo_few : zlen a + 1 + zlen b <= u32_max;
  fo_rest : rest ≡ₚ events_of 0 a ++ events_of (zlen a + 1) b;
}.
Lemma at_event A ps states g e rest : swept A ps states g -> events_of 0 ps ≡ₚ e :: rest -> exists a y b sa s sb, ps = a ++ y :: b /\ states = sa ++ s :: sb
  /\ ev_source e = zlen a /\ length sa = length a /\ event_of (zlen a) y = [e] /\ focus A a y b sa s sb rest.
Proof using Type.
  intros [Hs Hp _ Hfew] He. assert (Hin : e ∈ events_of 0 ps) by (rewrite He; left). destruct (event_source ps 0 e Hin) as (a & y & b & -> & Hey & Hsrc).
  apply Forall2_app_inv_l in Hs as (sa & sb & Ha & Hb & ->). apply Forall2_cons_inv_l in Hb as (s & sb' & Hs & Hb & ->).
  apply Forall_app in Hp as [Hpa Hpb]. apply Forall_cons in Hpb as [Hpy Hpb].
  assert (Hone : event_of (zlen a) y = [e]).
  { rewrite Z.add_0_l in Hey. unfold event_of in *. destruct (pt_todo y) as [|[c p] ?]; [by apply elem_of_nil in Hey |].
    destruct (pt_active y); [destruct (checked_next (r_to c)); [| by apply elem_of_nil in Hey] |]; by apply list_elem_of_singleton in Hey as ->. }
  exists a, y, b, sa, s, sb'. split; [done |]. split; [done |]. split; [lia |]. split; [symmetry; by eapply Forall2_length |]. split; [done |].
  rewrite zlen_app, zlen_cons in Hfew. split; [done | done | done | lia |].
  rewrite events_app in He. cbn [events_of] in He. rewrite Z.add_0_l, Hone in He. cbn in He. apply (Permutation_cons_inv (a := e)). rewrite <- He. by rewrite <- Permutation_middle.
Qed.

(** The state after one source has moved. *)
Definition moved A ps (states' : list (SourceState K)) (q' : Events K) (g' : GlobalState) : Prop := exists ps', swept A ps' states' g' /\ queue q' (events_of 0 ps')
  /\ all_steps ps = S (all_steps ps') /\ pt_src <$> ps' = pt_src <$> ps.
Lemma put_moved A a y b sa s sb rest y' s' q' g' : focus A a y b sa s sb rest -> sim y' s' -> part_ok A y' -> pt_src y' = pt_src y -> steps y = S (steps y') ->
  queue q' (event_of (zlen a) y' ++ rest) -> global_ok F (total (a ++ y' :: b)) g' -> moved A (a ++ y :: b) (sa ++ s' :: sb) q' g'.
Proof using Type.
  intros [[Hsa Ha] [Hsb Hb] _ Hfew Hrest] Hs Hy Hsrc Hsteps Hq Hg. exists (a ++ y' :: b). split; [| split; [| split]].
  - split; [apply Forall2_app; [done | by constructor] | apply Forall_app; split; [done | by constructor] | done |]. rewrite zlen_app, zlen_cons. lia.
  - eapply queue_perm; [| exact Hq]. rewrite Hrest, events_app, Z.add_0_l. cbn [events_of]. rewrite !app_assoc. apply Permutation_app_tail. apply Permutation_app_comm.
  - rewrite !steps_app. cbn [all_steps]. lia.
  - rewrite !fmap_app, !fmap_cons. by rewrite Hsrc.
Qed.

Section Event.
Context (A : Z) (a b : list Part) (x : Src) (c : Range K) (p : list Z) (runs : list Run) (sa sb : list (SourceState K)) (s : SourceState K) (rest : list (Event K)) (q : Events K) (g : GlobalState).
Notation here active := (mkPart x ((c, p) :: runs) active).
Context (Hlen : length sa = length a) (Hq : queue q rest).

Lemma end_event_ok to : focus A a (here true) b sa s sb rest -> global_ok F (total (a ++ here true :: b)) g -> checked_next (r_to c) = Some to -> key_num to = A ->
  ends cancelled (apply_event cancelled rounds (mkEvent to (zlen a) End_) (sa ++ s :: sb) q g) (fun '(states', q', g') => moved A (a ++ here true :: b) states' q' g').
Proof using Type*.
  intros Hf Hg Eto Hto. pose proof (fo_here _ _ _ _ _ _ _ _ Hf) as [(Hin & Hact & Hrange & Hpres & Hreads) [Hx Hc Hp Hsm Hst]].
  cbn [pt_src pt_todo pt_active] in *. unfold apply_event. cbn [ev_source ev_kind ev_at]. rewrite zlen_nat. eapply ends_run; [rewrite <- Hlen, list_lookup_middle by done; done |].
  rewrite Hrange. eapply ends_run; [done |]. unfold selected. cbv beta iota. rewrite Eto.
  pose proof (chain_tail _ _ _ Hc) as (Hco & Hchain & Hafter). pose proof (range_ok_num _ Hco) as Hnum. pose proof Hco as (Hfrom & Hkt & _). apply Forall_cons in Hp as [Hpl Hp]. cbn [snd] in Hpl.
  pose proof (checked_next_num _ Hkt) as Hn. rewrite Eto in Hn. destruct Hn as [Hko Hn].
  destruct (placed_globals _ p Hx Hpl) as [Hstand Hnd]. rewrite <- Hin in Hstand.
  apply ends_guard; [rewrite Hact; cbn; rewrite key_eqb_num, Z.eqb_refl by done; done |].
  assert (Hpos : Forall (fun i => 0 < total (a ++ here true :: b) i) (globals_of x p)).
  { apply Forall_forall. intros i Hi. rewrite total_put. unfold share. cbn [pt_active pt_todo pt_src]. unfold one_if. rewrite decide_True by done. pose proof (total_range a i). pose proof (total_range b i). lia. }
  eapply ends_bind; [unfold global_remove; rewrite Hpres; exact (global_remove_ok cancelled F _ _ _ 0 _ _ Hstand Hnd Hpos Hg) |].
  intros g' Hg'. rewrite Hin. eapply ends_bind; [by apply load_next_ok |]. intros s' Hs'. rewrite <- Hlen, insert_at.
  assert (Hy' : part_ok A (mkPart x runs false)).
  { unfold rt in *. split; cbn [pt_src pt_todo pt_active]; [done | done | done | |].
    - intros z Hz. rewrite <- Hsm by done. cbn [run_at]. unfold between, rt. rewrite (proj2 (Z.leb_gt z _)) by lia. by rewrite andb_false_r.
    - destruct runs as [|[c' p'] ?]; [done |]. apply Forall_cons in Hafter as [Hc' _]. cbn in Hc'. lia. }
  destruct (push_start A _ s' (zlen a) q rest Hs' eq_refl Hy' Hq) as (q' & Eq & Hq'). eapply ends_run; [exact Eq |]. apply ends_ret.
  eapply put_moved; [exact Hf | exact Hs' | exact Hy' | done | unfold steps; cbn; lia | exact Hq' |]. eapply global_ext; [| exact Hg']. intros i. cbn beta. rewrite !total_put. unfold share. cbn. lia.
Qed.

Lemma start_event_ok : focus A a (here false) b sa s sb rest -> global_ok F (total (a ++ here false :: b)) g -> rf c = A ->
  ends cancelled (apply_event cancelled rounds (mkEvent (r_from c) (zlen a) Start) (sa ++ s :: sb) q g) (fun '(states', q', g') => moved A (a ++ here false :: b) states' q' g').
Proof using Type*.
  intros Hf Hg Hfrom. pose proof (fo_here _ _ _ _ _ _ _ _ Hf) as [(Hin & Hact & Hrange & Hpres & Hreads) [Hx Hc Hp Hsm Hst]]. pose proof (fo_few _ _ _ _ _ _ _ _ Hf) as Hfew.
  cbn [pt_src pt_todo pt_active] in *. unfold apply_event. cbn [ev_source ev_kind ev_at]. rewrite zlen_nat. eapply ends_run; [rewrite <- Hlen, list_lookup_middle by done; done |].
  rewrite Hrange. eapply ends_run; [done |]. unfold selected. cbv beta iota.
  pose proof (chain_tail _ _ _ Hc) as (Hco & _ & _). pose proof (range_ok_num _ Hco) as Hnum. pose proof Hco as (Hkf & _). pose proof Hp as [Hpl _]%Forall_cons. cbn [snd] in Hpl.
  destruct (placed_globals _ p Hx Hpl) as [Hstand Hnd]. rewrite <- Hin in Hstand.
  apply ends_guard; [rewrite Hact; cbn; rewrite key_eqb_num, Z.eqb_refl by done; done |].
  assert (Hmax : Forall (fun i => total (a ++ here false :: b) i < u32_max) (globals_of x p)).
  { apply Forall_forall. intros i Hi. rewrite total_put. unfold share. cbn [pt_active]. pose proof (total_range a i). pose proof (total_range b i). lia. }
  eapply ends_bind; [unfold global_add; rewrite Hpres; exact (global_add_ok cancelled F _ _ _ 0 _ _ Hstand Hnd Hmax Hg) |].
  intros g' Hg'. rewrite <- Hlen, insert_at.
  assert (Hy' : part_ok A (here true)) by (split; cbn [pt_src pt_todo pt_active]; [done | done | done | done | lia]).
  assert (Hpush : exists q', match checked_next (r_to c) with Some at_ => push (mkEvent at_ (zlen a) End_) q | None => Ok q end = Ok q' /\ queue q' (event_of (zlen a) (here true) ++ rest)).
  { pose proof (part_events A _ (zlen a) Hy') as Hev. unfold event_of in *. cbn [pt_todo pt_active] in *. destruct (checked_next (r_to c)) as [to|]; [| by exists q].
    apply Forall_cons in Hev as [[_ Hev] _]. by apply push_queue. }
  destruct Hpush as (q' & Eq & Hq'). eapply ends_run; [exact Eq |]. apply ends_ret.
  eapply put_moved; [exact Hf | | exact Hy' | done | unfold steps; cbn; lia | exact Hq' |]; [done |]. eapply global_ext; [| exact Hg']. intros i. cbn beta. rewrite !total_put. unfold share. cbn. lia.
Qed.
End Event.

Lemma apply_event_ok A ps states g e rest q : swept A ps states g -> events_of 0 ps ≡ₚ e :: rest -> queue q rest -> time e = A ->
  ends cancelled (apply_event cancelled rounds e states q g) (fun '(states', q', g') => moved A ps states' q' g').
Proof using Type*.
  intros Hw He Hq Htime. pose proof (wp_global _ _ _ _ Hw) as Hg. destruct (at_event _ _ _ _ _ _ Hw He) as (a & [x [|[c p] runs] active] & b & sa & s & sb & -> & -> & Hsrc & Hlen & Hone & Hf); [done |].
  unfold event_of in Hone. cbn [pt_todo pt_active] in Hone. destruct active.
  - destruct (checked_next (r_to c)) as [to|] eqn:Eto; [| done]. injection Hone as <-. by apply (end_event_ok A a b x c p runs sa sb s rest q g).
  - injection Hone as <-. by apply (start_event_ok A a b x c p runs sa sb s rest q g).
Qed.

(** *** All events of one address *)

Lemma ends_event {B} work (f : Z -> io nat B) Q : (forall w, ends cancelled (f w) Q) -> ends cancelled (checkpoint_event cancelled work ≫= f) Q.
Proof using Type.
  intros Hf. eapply ends_bind with (P := fun _ => True); [| intros w _; apply Hf]. unfold checkpoint_event. cbv zeta. destruct (_ =? _); [| by apply ends_ret].
  eapply ends_bind with (P := fun _ => True); [by apply ends_check |]. intros _ _. by apply ends_ret.
Qed.
Lemma event_steps ps k e : e ∈ events_of k ps -> (0 < all_steps ps)%nat.
Proof using Type.
  intros (a & y & b & -> & Hy & _)%event_source. rewrite steps_app. cbn [all_steps]. unfold event_of, steps in *. destruct (pt_todo y) as [|[c p] ?]; [by apply elem_of_nil in Hy |].
  destruct (pt_active y); cbn [length]; lia.
Qed.
Lemma first_time e (es : list (Event K)) A : Forall (first_of e) es -> e ∈ es -> Forall (fun f => A <= time f) es -> A <= time e /\ Forall (fun f => time e <= time f) es.
Proof using Type.
  intros Hf He HA. rewrite Forall_forall in HA. split; [by apply HA |]. eapply Forall_impl; [exact Hf |]. unfold first_of. intros f. lia.
Qed.
Lemma swept_times A ps states g : swept A ps states g -> Forall (fun f => A <= time f) (events_of 0 ps).
Proof using cancelled H0. intros Hw. eapply Forall_impl; [exact (parts_events A ps 0 (wp_parts _ _ _ _ Hw)) |]. cbn. tauto. Qed.

(** The events are those of the sources. *)
Definition follows A ps ps0 (states : list (SourceState K)) (q : Events K) (g : GlobalState) : Prop :=
  swept A ps states g /\ queue q (events_of 0 ps) /\ pt_src <$> ps = pt_src <$> ps0 /\ (all_steps ps <= all_steps ps0)%nat.
Lemma moved_follows A ps ps0 states q g : moved A ps states q g -> pt_src <$> ps = pt_src <$> ps0 -> (all_steps ps <= all_steps ps0)%nat ->
  exists ps', follows A ps' ps0 states q g /\ (all_steps ps' < all_steps ps)%nat.
Proof using Type. intros (ps' & Hw & Hq & Hs & Hsrc) Hsrc0 Hle. exists ps'. split; [| lia]. split; [done |]. split; [done |]. split; [congruence | lia]. Qed.

Lemma boundary_loop_ok A (k : K) ps0 : key_ok k -> key_num k = A -> forall todo ps states q g work, follows A ps ps0 states q g -> (all_steps ps <= todo)%nat ->
  ends cancelled (boundary_loop cancelled rounds todo k states q g work) (fun '(states', q', g', _) => exists ps', follows A ps' ps0 states' q' g').
Proof using Type*.
  intros Hk HA. induction todo as [|todo IH]; intros ps states q g work Hf Hle; cbn [boundary_loop]; pose proof Hf as (Hw & Hq & Hsrc & Hst);
    (destruct (peek_queue q _ Hq) as [[Hnil Ep] | (e & Ep & Hin & Hfirst)]; (eapply ends_run; [exact Ep |]); [apply ends_ret; by exists ps |]); pose proof Hq as (_ & Hok & _);
    rewrite Forall_forall in Hok; pose proof (Hok e Hin) as Heok; rewrite (key_eqb_num (ev_at e) k) by done; fold (time e); rewrite HA;
    (destruct (Z.eqb_spec (time e) A) as [He | Hne]; [| apply ends_ret; by exists ps]).
  { pose proof (event_steps _ _ _ Hin). lia. }
  apply ends_event. intros w. destruct (pop_queue q _ Hq) as [[Hnil _] | (q' & f & rest & Epop & Hperm & Hq' & Hff)]; [rewrite Hnil in Hin; by apply elem_of_nil in Hin |].
  eapply ends_run; [exact Epop |]. eapply ends_run; [done |]. assert (Hfin : f ∈ events_of 0 ps) by (rewrite Hperm; left).
  destruct (first_time f _ A Hff Hfin (swept_times _ _ _ _ Hw)) as [Hlo Hhi]. rewrite Forall_forall in Hhi. specialize (Hhi e Hin).
  eapply ends_bind; [apply (apply_event_ok A ps states g f rest q'); [done | done | done | lia] |]. intros [[states' q2] g'] Hm.
  destruct (moved_follows _ _ _ _ _ _ Hm Hsrc Hst) as (ps' & Hf' & Hlt). apply (IH ps'); [done | lia].
Qed.
Lemma apply_boundary_ok A ps states q g e rest work : swept A ps states g -> events_of 0 ps ≡ₚ e :: rest -> queue q rest -> time e = A -> event_ok e -> (all_steps ps <= rounds)%nat ->
  ends cancelled (apply_boundary cancelled rounds e states q g work) (fun '(states', q', g', _) => exists ps', follows A ps' ps states' q' g' /\ (all_steps ps' < all_steps ps)%nat).
Proof using Type*.
  intros Hw He Hq Ht Hok Hle. unfold apply_boundary. eapply ends_bind; [by apply (apply_event_ok A ps states g e rest q) |]. intros [[states' q'] g'] (ps' & Hw' & Hq' & Hs & Hsrc).
  assert (Hf : follows A ps' ps' states' q' g') by (split; [done |]; split; [done |]; split; [done | lia]).
  eapply ends_mono; [apply (boundary_loop_ok A (ev_at e) ps' Hok Ht rounds ps'); [exact Hf | lia] |]. intros [[[s2 q2] g2] w] (ps2 & Hw2 & Hq2 & Hsrc2 & Hs2).
  exists ps2. split; [| lia]. split; [done |]. split; [done |]. split; [congruence | lia].
Qed.

(** *** After the last event *)

Lemma no_event y k c p runs : event_of k y = [] -> pt_todo y = (c, p) :: runs -> pt_active y = true /\ checked_next (r_to c) = None.
Proof using Type. unfold event_of. intros He Et. rewrite Et in He. destruct (pt_active y); [| done]. by destruct (checked_next (r_to c)). Qed.
(** What the sources hold, and how many ranges. *)
Fixpoint ranges_of (ys : list Src) : Z := match ys with [] => 0 | x :: ys => zlen (sx_es x) + ranges_of ys end.
Lemma ranges_nonneg ys : 0 <= ranges_of ys.
Proof using Type. induction ys as [|x ys IH]; [done |]. cbn [ranges_of]. pose proof (zlen_nonneg (sx_es x)). lia. Qed.

Lemma finish_state A y s k : sim y s -> part_ok A y -> event_of k y = [] ->
  ends cancelled (if st_active s then
      range ← lift (ok_or (st_range s) (Corrupt "active membership algebra source has no range"));
      _ ← fail_if (bool_decide (is_Some (checked_next (snd range)))) (Corrupt "membership algebra source remained active");
      load_next cancelled rounds (mkSourceState (st_input s) (st_ranges s) None false)
    else mret s) (fun s' => st_range s' = None /\ st_input s' = sx_input (pt_src y) /\ sr_physical_count (st_ranges s') = zlen (sx_es (pt_src y))).
Proof using H0.
  intros (Hin & Hact & Htodo) Hy He. pose proof (po_stand _ _ Hy) as Hst. destruct (pt_todo y) as [|[c p] runs] eqn:Et.
  - rewrite Hact, Hst. apply ends_ret. by destruct Htodo as (-> & -> & _).
  - destruct (no_event _ _ _ _ _ He Et) as [Ha Hn]. destruct Htodo as (Hr & Hp & Hreads). rewrite Hact, Ha, Hr. eapply ends_run; [done |]. cbn [snd selected].
    apply ends_guard; [by rewrite Hn |]. rewrite Hin. pose proof (po_chain _ _ Hy) as Hc. rewrite Et in Hc. pose proof (chain_tail _ _ _ Hc) as ((_ & Hto & _) & Hchain & Hafter).
    pose proof (checked_next_num _ Hto) as Hnum. rewrite Hn in Hnum.
    assert (runs = []) as -> by (destruct runs as [|[c' p'] runs]; [done |]; apply Forall_cons in Hafter as [Hc' _]; cbn in Hc'; pose proof (chain_tail _ _ _ Hchain) as (Hco & _); pose proof (range_ok_num _ Hco); unfold rt in *; lia).
    eapply ends_mono; [apply load_next_ok; [apply (po_src _ _ Hy) | done] |]. intros s' (Hin' & _ & Hr' & Hcount & _). done.
Qed.
Lemma finish_sources_ok A : forall ps states k work report, Forall2 sim ps states -> Forall (part_ok A) ps -> events_of k ps = [] -> 0 <= rp_source_ranges report ->
  rp_source_ranges report + ranges_of (pt_src <$> ps) <= u64_max ->
  ends cancelled (finish_sources cancelled rounds states work report) (fun report' => rp_source_ranges report' = rp_source_ranges report + ranges_of (pt_src <$> ps) /\ rp_segments report' = rp_segments report).
Proof using H0.
  induction ps as [|y ps IH]; intros states k work report Hs Hp He H0r Hsum.
  { apply Forall2_nil_inv_l in Hs as ->. apply ends_ret. cbn. split; [lia | done]. }
  apply Forall2_cons_inv_l in Hs as (s & states' & Hs & Hr & ->). apply Forall_cons in Hp as [Hy Hp]. cbn [events_of] in He. apply app_eq_nil in He as [Hey He].
  cbn [finish_sources]. apply ends_checked. eapply ends_bind; [by apply (finish_state A y s k) |]. intros s' (Hrange & Hin & Hcount).
  cbn [fmap list_fmap ranges_of] in Hsum |- *. pose proof (ranges_nonneg (pt_src <$> ps)). pose proof (zlen_nonneg (sx_es (pt_src y))). change (list_fmap Part Src pt_src ps) with (pt_src <$> ps) in *.
  apply ends_guard; [rewrite Hrange, Hin, Hcount, (xo_expected _ (po_src _ _ Hy)), Z.eqb_refl; done |].
  eapply ends_run; [unfold checked_add; rewrite Hcount, (proj2 (Z.leb_le _ _)) by lia; done |].
  eapply ends_mono; [eapply IH; [exact Hr | exact Hp | exact He | |]; cbn [rp_source_ranges]; lia |]. intros report'. cbn. intros [-> ->]. split; [lia | done].
Qed.

(** *** Before the sweep *)

Section Begin.
Context (grants : Z -> Z -> option Z) (Hgrants : forall size n, grants size n = Some n) (sizes : Sizes).
Context (Hsizes : 0 <= size_state sizes /\ 0 <= size_event sizes).

Definition idle x : Part := mkPart x (runs_of x) false.
Fixpoint entries_of (ys : list Src) : Z := match ys with [] => 0 | x :: ys => zlen (entries (scp x)) + entries_of ys end.
Lemma entries_nonneg ys : 0 <= entries_of ys.
Proof using Type. induction ys as [|x ys IH]; [done |]. cbn [entries_of]. pose proof (zlen_nonneg (entries (scp x))). lia. Qed.

Lemma runs_chain x : src_ok x -> chain (fst <$> runs_of x).
Proof using H0.
  intros Hx. apply select_chain. cbn. apply canonical_chain; [apply (sk_tree _ _ _ _ (xo_source x Hx)) | apply (sk_canonical _ _ _ _ (xo_source x Hx))].
Qed.
Lemma idle_ok x : src_ok x -> part_ok 0 (idle x).
Proof using H0.
  intros Hx. pose proof (runs_chain x Hx) as Hc. split; cbn [idle pt_src pt_todo pt_active]; [done | done | | done |].
  - unfold runs_of. apply select_forall; [intros v; apply feeds_placed | done].
  - destruct (runs_of x) as [|[c p] runs]; [done |]. pose proof (chain_tail _ _ _ Hc) as (Hco & _). pose proof (range_ok_num _ Hco). lia.
Qed.

Lemma selected_new_ok x h : src_ok x -> heap_ok h -> 10 * zlen (entries (scp x)) <= remaining h ->
  exists ranges n, selected_new (K := K) grants (rd x) (scp x) h = Ok (ranges, spend n h) /\ 0 <= n <= 10 * zlen (entries (scp x)) /\ reads x ranges (runs_of x).
Proof using H0 Hgrants.
  intros Hx Hh Hr. pose proof (xo_source x Hx) as Hs. pose proof (zlen_nonneg (entries (scp x))) as Hn0.
  destruct (scratch_new_ok grants Hgrants (scp x) (fun m => Some (sx_words x m)) h Hh ltac:(lia)) as (active & Ea & Hactive).
  assert (Hlook : exists look n, (if all_catalog (scp x) then Ok (None, spend (5 * zlen (entries (scp x))) h)
      else '(z, h) ← scratch_new grants (zlen (entries (scp x))) (spend (5 * zlen (entries (scp x))) h); Ok (Some z, h)) = Ok (look, spend n h) /\ 0 <= n <= 10 * zlen (entries (scp x))
      /\ match look with Some z => all_catalog (scp x) = false /\ scratch_ok (scp x) (fun m => Some (sx_words x m)) z | None => all_catalog (scp x) = true end).
  { destruct (all_catalog (scp x)); [eexists None, _; split; [done |]; split; [lia | done] |].
    destruct (scratch_new_ok grants Hgrants (scp x) (fun m => Some (sx_words x m)) (spend (5 * zlen (entries (scp x))) h)) as (look & El & Hlk); [apply spend_ok; [done | lia] | unfold spend; cbn; lia |].
    rewrite El. exists (Some look), (10 * zlen (entries (scp x))). split; [cbn; unfold spend; cbn; do 3 f_equal; lia |]. split; [lia | done]. }
  destruct Hlook as (look & n & El & Hn & Hlk).
  destruct (cursor_new_pending (gr_mapping (rd x)) (gr_meta (rd x)) (gr_owner (rd x)) (sx_es x)) as (cursor & Ec & Hc); [apply Hs | apply Hs | apply Hs |].
  exists (mkSelected cursor active look None 0), n. split; [| split; [done |]].
  - unfold selected_new. rewrite Ea. cbn [mbind outcome_bind]. rewrite El. cbn [mbind outcome_bind]. unfold membership_ranges, require_membership_family.
    rewrite (bool_decide_true (address_family _ = _)) by apply Hs. assert (bool_decide (value_kind (gr_meta (rd x)) = Membership) || bool_decide (value_kind (gr_meta (rd x)) = Structured) = true) as ->.
    { apply orb_true_iff. rewrite !bool_decide_eq_true. apply Hs. }
    cbn [negb mbind outcome_bind]. rewrite Ec. done.
  - exists None, (sx_es x). split; [| split; [cbn; apply (xo_rounds x Hx) | done]]. split; cbn; [done | done | exact Hlk | done | lia |]. by apply Forall_forall.
Qed.

Definition gives_sources (a : MembershipAlgebra) (ys : list Src) : Prop := forall i x, ys !! i = Some x -> algebra_source a (Z.of_nat i) = Ok (sx_input x).
Lemma initialize_loop_ok a ys : gives_sources a ys -> Forall src_ok ys -> zlen ys <= u32_max -> forall rest begun states q h, ys = begun ++ rest -> Forall2 sim (idle <$> begun) states ->
  queue q (events_of 0 (idle <$> begun)) -> heap_ok h -> 10 * entries_of rest <= remaining h ->
  ends cancelled (initialize_loop cancelled grants rounds a (length rest) states q h) (fun '(states', q', h') => Forall2 sim (idle <$> ys) states' /\ queue q' (events_of 0 (idle <$> ys))
    /\ exists n, h' = spend n h /\ 0 <= n <= 10 * entries_of rest).
Proof using H0 Hgrants.
  intros Ha Hok Hfew. induction rest as [|x rest IH]; intros begun states q h Hys Hs Hq Hh Hr; cbn [length initialize_loop].
  { rewrite app_nil_r in Hys. subst ys. apply ends_ret. split; [done |]. split; [done |]. exists 0. split; [unfold spend; destruct h; cbn; f_equal; lia | cbn; lia]. }
  assert (Hlen : zlen states = zlen begun) by (apply Forall2_length in Hs; rewrite length_fmap in Hs; unfold zlen; lia).
  assert (Hx : src_ok x) by (rewrite Hys in Hok; apply Forall_app in Hok as [_ [? _]%Forall_cons]; done). cbn [entries_of] in Hr. pose proof (entries_nonneg rest). pose proof (zlen_nonneg (entries (scp x))).
  eapply ends_run; [rewrite Hlen; apply Ha; rewrite Hys; by apply list_lookup_middle |].
  destruct (selected_new_ok x h Hx Hh ltac:(lia)) as (ranges & n & Es & Hn & Hreads). eapply ends_run; [exact Es |].
  eapply ends_bind; [by apply (load_next_ok x ranges) |]. intros s Hsim.
  rewrite Hys, zlen_app, zlen_cons in Hfew. pose proof (zlen_nonneg rest). apply ends_guard; [apply Z.ltb_ge; lia |].
  destruct (push_start 0 (idle x) s (zlen begun) q _ Hsim eq_refl (idle_ok x Hx) Hq) as (q' & Eq & Hq'). eapply ends_run; [rewrite Hlen; exact Eq |].
  eapply ends_mono; [apply (IH (begun ++ [x])) |].
  - by rewrite <- app_assoc.
  - rewrite fmap_app. apply Forall2_app; [done |]. by constructor.
  - rewrite fmap_app, events_app. cbn [fmap list_fmap events_of]. rewrite app_nil_r. eapply queue_perm; [apply Permutation_app_comm |]. unfold zlen. rewrite length_fmap. exact Hq'.
  - apply spend_ok; [done | lia].
  - cbn. lia.
  - intros [[s' q2] h'] (Hs' & Hq2 & m & -> & Hm). split; [done |]. split; [done |]. exists (n + m). split; [unfold spend; cbn; f_equal; lia | cbn [entries_of]; lia].
Qed.

Lemma selected_cache_ok x max_bytes ranges runs h : reads x ranges runs -> heap_ok h -> 0 <= max_bytes -> exists ranges' n, selected_enable_cache grants max_bytes ranges h = Ok (ranges', spend n h)
  /\ 0 <= n <= remaining h /\ reads x ranges' runs /\ sr_present ranges' = sr_present ranges /\ sr_physical_count ranges' = sr_physical_count ranges.
Proof using Hgrants.
  intros (pending & l & [Hc Ha Hl [Hp Hpx] Hn Hk] & Hlen & Hr) Hh Hb. unfold selected_enable_cache. set (each := max_bytes / match sr_lookahead ranges with Some _ => 2 | None => 1 end).
  assert (Heach : 0 <= each) by (unfold each; destruct (sr_lookahead ranges); apply Z.div_pos; lia).
  destruct (scratch_enable_ok grants Hgrants _ _ each _ h Ha Hh Heach) as (active & n1 & E1 & Hn1 & Ha1 & Hpa). rewrite E1. cbn [mbind outcome_bind].
  assert (Hh1 : heap_ok (spend n1 h)) by (apply spend_ok; [done | lia]). destruct (sr_lookahead ranges) as [z|] eqn:El.
  - destruct Hl as [Hall Hz]. destruct (scratch_enable_ok grants Hgrants _ _ each _ _ Hz Hh1 Heach) as (look & n2 & E2 & Hn2 & Hz2 & Hpz). rewrite E2. cbn [mbind outcome_bind].
    assert (remaining (spend n1 h) = remaining h - n1) as Hrem by done.
    eexists _, (n1 + n2). split; [unfold spend; cbn; do 3 f_equal; lia |]. split; [lia |]. split; [| done]. exists pending, l. split; [| done]. split; cbn; try done.
    split; [done |]. destruct pending as [y|]; [| done]. destruct Hpx as (z' & [= <-] & Hpz' & Hne). exists look. split; [done |]. by rewrite Hpz.
  - eexists _, n1. split; [done |]. split; [lia |]. split; [| done]. exists pending, l. split; [| done]. by split.
Qed.
Lemma caches_ok each : 0 <= each -> forall ps states h, Forall2 sim ps states -> heap_ok h ->
  exists states' n, enable_caches grants states each h = Ok (states', spend n h) /\ 0 <= n <= remaining h /\ Forall2 sim ps states'.
Proof using Hgrants.
  intros Heach. induction ps as [|y ps IH]; intros states h Hs Hh.
  { apply Forall2_nil_inv_l in Hs as ->. exists [], 0. split; [unfold spend; destruct h; cbn; do 2 f_equal; f_equal; lia |]. split; [unfold heap_ok in Hh; lia | done]. }
  apply Forall2_cons_inv_l in Hs as (s & states' & (Hin & Hact & Htodo) & Hr & ->). cbn [enable_caches].
  assert (Hcache : exists ranges' n, selected_enable_cache grants each (st_ranges s) h = Ok (ranges', spend n h) /\ 0 <= n <= remaining h
    /\ sim y (mkSourceState (st_input s) ranges' (st_range s) (st_active s))).
  { unfold sim. cbn [st_input st_active st_range st_ranges]. destruct (pt_todo y) as [|[c p] runs].
    - destruct Htodo as (Hrange & Hcount & Hreads). destruct (selected_cache_ok _ each _ _ h Hreads Hh Heach) as (ranges' & n & E & Hn & Hreads' & _ & Hcount').
      exists ranges', n. rewrite Hcount'. done.
    - destruct Htodo as (Hrange & Hpres & Hreads). destruct (selected_cache_ok _ each _ _ h Hreads Hh Heach) as (ranges' & n & E & Hn & Hreads' & Hpres' & _).
      exists ranges', n. rewrite Hpres'. done. }
  destruct Hcache as (ranges' & n & E & Hn & Hsim). rewrite E. cbn [mbind outcome_bind].
  destruct (IH states' (spend n h) Hr ltac:(apply spend_ok; [done | lia])) as (s' & m & E' & Hm & Hs'). rewrite E'. cbn [mbind outcome_bind].
  eexists _, (n + m). split; [unfold spend; cbn; do 3 f_equal; lia |]. unfold spend in Hm. cbn in Hm. split; [lia |]. by constructor.
Qed.
End Begin.

(** *** The whole sweep *)

Section Sinks.
Context {T : Type} `{!SegmentSink K T} (xs : list Src) (inv : Z -> T -> Prop) (Htop : 0 <= key_top (K := K)).
(** A consumer accounts for the addresses below a bound: those no source holds
    can be passed over, and a segment is given with the sources' counts. *)
Context (Hskip : forall lo hi t, inv lo t -> lo <= hi <= key_top (K := K) + 1 -> (forall a i, lo <= a < hi -> 0 <= i < F -> held xs a i = 0) -> inv hi t).
Context (Hsegment : forall lo hi (from to : K) N g t, inv lo t -> key_ok from -> key_ok to -> key_num from = lo -> key_num to = hi - 1 -> lo < hi ->
  global_ok F N g -> (forall a i, lo <= a < hi -> N i = held xs a i) -> ends cancelled (segment from to (gl_present g) (gl_counts g) t) (inv hi)).

Lemma nothing_held N g i : global_ok F N g -> gl_present g = [] -> 0 <= i < F -> N i = 0.
Proof using Type.
  intros [_ Hc _ Hp _] Hn Hi. destruct (Hc i Hi) as [_ Hpos]. destruct (Z.eq_dec (N i) 0) as [? | Hne]; [done |].
  assert (Hin : i ∈ gl_present g) by (apply Hp; lia). rewrite Hn in Hin. by apply elem_of_nil in Hin.
Qed.
(** Where the last boundary was. *)
Definition stands_at (position : option K) (A : Z) ps : Prop :=
  match position with Some k => key_ok k /\ key_num k = A | None => A = 0 /\ Forall (fun y => pt_active y = false) ps end.
Lemma idle_total ps i : Forall (fun y => pt_active y = false) ps -> total ps i = 0.
Proof using Type. induction 1 as [|y ps Hy _ IH]; [done |]. cbn [total]. unfold share. rewrite Hy, IH. done. Qed.

Lemma increment_ok v label : 0 <= v < u64_max -> increment v label = Ok (v + 1).
Proof using Type. intros Hv. unfold increment, checked_add. rewrite (proj2 (Z.leb_le _ _)) by lia. done. Qed.
Definition counted_to (report report' : ScanReport) : Prop := rp_source_ranges report' = rp_source_ranges report /\ rp_segments report <= rp_segments report' <= rp_segments report + 1.

(** A segment that ends before [hi]. *)
Lemma segment_out lo hi (from to : K) ps g t report : inv lo t -> key_ok from -> key_ok to -> key_num from = lo -> key_num to = hi - 1 -> lo < hi ->
  global_ok F (total ps) g -> (forall a i, lo <= a < hi -> total ps i = held xs a i) -> 0 <= rp_segments report < u64_max ->
  ends cancelled (t' ← segment from to (gl_present g) (gl_counts g) t; segments ← lift (increment (rp_segments report) "membership algebra segments");
    mret (t', mkScanReport (rp_source_ranges report) segments)) (fun '(t', report') => inv hi t' /\ counted_to report report').
Proof using Hsegment.
  intros Hi Hf Ht Hlo Hhi Hlt Hg Hh Hr. eapply ends_bind; [by apply (Hsegment lo hi from to (total ps))|]. intros t' Ht'.
  eapply ends_run; [by apply increment_ok |]. apply ends_ret. split; [done |]. split; [done |]. cbn. lia.
Qed.

Lemma emit_before_ok A ps states g position (kb : K) t report : swept A ps states g -> pt_src <$> ps = xs -> stands_at position A ps -> inv A t ->
  key_ok kb -> A <= key_num kb -> Forall (fun e => key_num kb <= time e) (events_of 0 ps) -> 0 <= rp_segments report < u64_max ->
  ends cancelled (emit_before position kb g t report) (fun '(t', report') => inv (key_num kb) t' /\ counted_to report report').
Proof using Type*.
  intros Hw Hxs Hpos Hi Hk HA He Hr. pose proof (key_num_range _ Hk). pose proof (wp_global _ _ _ _ Hw) as Hg.
  assert (HB : A <= key_num kb <= key_top (K := K) + 1) by lia. destruct (parts_wait A _ HB ps 0 (wp_parts _ _ _ _ Hw) He) as [_ Hheld]. rewrite Hxs in Hheld.
  assert (Hempty : (forall i, 0 <= i < F -> total ps i = 0) -> inv (key_num kb) t).
  { intros Hz. apply (Hskip A); [done | lia |]. intros a i Ha Hi'. rewrite <- (Hheld a i Ha). by apply Hz. }
  assert (Hsame : counted_to report report) by (split; [done | lia]). unfold emit_before. destruct position as [from|].
  - destruct Hpos as [Hf Hn]. rewrite key_ltb_num, Hn by done. destruct (Z.ltb_spec A (key_num kb)) as [Hlt | Hge]; cbn [negb orb].
    + case_bool_decide as Hp; [apply ends_ret; split; [apply Hempty; intros i Hi'; by eapply nothing_held | done] |].
      destruct (previous_ok from kb Hf Hk ltac:(lia)) as (to & Eto & Hto & Hton). eapply ends_run; [by rewrite Eto |].
      by apply (segment_out A (key_num kb) from to ps).
    + apply ends_ret. split; [| done]. by replace (key_num kb) with A by lia.
  - destruct Hpos as [-> Hidle]. apply ends_ret. split; [apply Hempty; intros i _; by apply idle_total | done].
Qed.

Definition scanned (ps : list Part) (states : list (SourceState K)) (g : GlobalState) (t : T) (report : ScanReport) (position : option K) : Prop := exists A,
  swept A ps states g /\ pt_src <$> ps = xs /\ stands_at position A ps /\ inv A t.
Lemma scan_loop_ok : forall todo ps states q g t report position work, scanned ps states g t report position -> queue q (events_of 0 ps) ->
  (all_steps ps <= todo)%nat -> (all_steps ps <= rounds)%nat -> 0 <= rp_segments report -> rp_segments report + Z.of_nat (all_steps ps) < u64_max -> rp_source_ranges report = 0 ->
  ends cancelled (scan_loop cancelled rounds todo states q g t report position work) (fun '(states', g', t', report', position') => exists ps',
    scanned ps' states' g' t' report' position' /\ events_of 0 ps' = [] /\ 0 <= rp_segments report' < u64_max /\ rp_source_ranges report' = 0).
Proof using Type*.
  induction todo as [|todo IH]; intros ps states q g t report position work (A & Hw & Hxs & Hpos & Hi) Hq Hle Hrounds Hr0 Hr Hz; cbn [scan_loop];
    (destruct (pop_queue q _ Hq) as [[Hnil Ep] | (q' & e & rest & Ep & Hperm & Hq' & Hfirst)]; (eapply ends_run; [exact Ep |]);
     [apply ends_ret; exists ps; split; [by exists A |]; split; [done |]; split; [lia | done] |]);
    (assert (Hin : e ∈ events_of 0 ps) by (rewrite Hperm; left)); pose proof (event_steps _ _ _ Hin); [lia |].
  destruct (first_time e _ A Hfirst Hin (swept_times _ _ _ _ Hw)) as [Hlo Hhi]. pose proof Hq as (_ & Hok & _). rewrite Forall_forall in Hok. specialize (Hok e Hin).
  pose proof (key_num_range _ Hok) as Hkr. fold (time e) in Hkr. apply ends_event. intros w.
  eapply ends_bind; [apply (emit_before_ok A ps states g position (ev_at e)); [done | done | done | done | done | done | done | lia] |]. intros [t' report'] [Hi' [Hsame Hseg]].
  assert (HB : A <= time e <= key_top (K := K) + 1) by lia. destruct (parts_wait A _ HB ps 0 (wp_parts _ _ _ _ Hw) Hhi) as [Hparts _].
  assert (Hw' : swept (time e) ps states g) by (by destruct Hw; split).
  eapply ends_bind; [by apply (apply_boundary_ok (time e) ps states q' g e rest) |]. intros [[[s2 q2] g2] w2] (ps2 & (Hw2 & Hq2 & Hsrc2 & Hst2) & Hlt).
  apply (IH ps2); [| done | lia | lia | lia | lia | congruence]. exists (time e). split; [done |]. split; [congruence |]. done.
Qed.

Lemma terminal_found A i : forall ps states k, Forall2 sim ps states -> Forall (part_ok A) ps -> events_of k ps = [] -> 0 < total ps i ->
  exists to, terminal_range states = Some to /\ key_ok to /\ key_num to = key_top (K := K) /\ checked_next to = None.
Proof using Type*.
  induction ps as [|y ps IH]; intros states k Hs Hp He Hi; cbn [total] in Hi; [lia |]. apply Forall2_cons_inv_l in Hs as (s & states' & Hs & Hr & ->).
  apply Forall_cons in Hp as [Hy Hp]. cbn [events_of] in He. apply app_eq_nil in He as [Hey He]. pose proof Hs as (_ & Hact & Htodo).
  unfold terminal_range. cbn [list_find]. destruct (pt_todo y) as [|[c p] runs] eqn:Et.
  - rewrite decide_False by (rewrite Hact; pose proof (po_stand _ _ Hy) as Hst; rewrite Et in Hst; by rewrite Hst). unfold share in Hi. rewrite Et in Hi.
    assert (0 < total ps i) by (destruct (pt_active y); lia). destruct (IH states' (k + 1)) as (to & Eto & Hto); [done | done | done | done |]. exists to. split; [| done].
    rewrite <- Eto. unfold terminal_range. by destruct (list_find _ states') as [[n z]|].
  - destruct (no_event _ _ _ _ _ Hey Et) as [Ha Hn]. rewrite decide_True by (by rewrite Hact). cbn. destruct Htodo as [-> _]. exists (r_to c). split; [done |].
    pose proof (po_chain _ _ Hy) as Hc. rewrite Et in Hc. pose proof (chain_tail _ _ _ Hc) as ((_ & Hto & _) & _). pose proof (checked_next_num _ Hto) as Hnum. rewrite Hn in Hnum. done.
Qed.
Lemma some_present N g : global_ok F N g -> gl_present g <> [] -> exists i, 0 < N i.
Proof using Type. intros [_ _ _ Hp _] Hne. destruct (gl_present g) as [|i l]; [done |]. exists i. apply Hp. left. Qed.

Lemma emit_terminal_ok ps states g t report position : scanned ps states g t report position -> events_of 0 ps = [] -> 0 <= rp_segments report < u64_max ->
  ends cancelled (emit_terminal position states g t report) (fun '(t', report') => inv (key_top (K := K) + 1) t' /\ counted_to report report').
Proof using Type*.
  intros (A & Hw & Hxs & Hpos & Hi) He Hr. pose proof (wp_global _ _ _ _ Hw) as Hg.
  assert (HA : 0 <= A <= key_top (K := K)).
  { destruct position as [k|]; [destruct Hpos as [Hk <-]; by apply key_num_range | by destruct Hpos as [-> _]]. }
  assert (HB : A <= key_top (K := K) + 1 <= key_top (K := K) + 1) by lia. assert (Hev : Forall (fun e : Event K => key_top (K := K) + 1 <= time e) (events_of 0 ps)) by (rewrite He; constructor).
  destruct (parts_wait A _ HB ps 0 (wp_parts _ _ _ _ Hw) Hev) as [_ Hheld]. rewrite Hxs in Hheld.
  assert (Hempty : (forall i, 0 <= i < F -> total ps i = 0) -> inv (key_top (K := K) + 1) t).
  { intros Hz. apply (Hskip A); [done | lia |]. intros a i Ha Hi'. rewrite <- (Hheld a i Ha). by apply Hz. }
  assert (Hsame : counted_to report report) by (split; [done | lia]). unfold emit_terminal. destruct position as [from|].
  - destruct Hpos as [Hf Hn]. case_bool_decide as Hp; [apply ends_ret; split; [apply Hempty; intros i Hi'; by eapply nothing_held | done] |].
    destruct (some_present _ _ Hg Hp) as (i & Hpi). destruct (terminal_found A i ps states 0 (wp_sim _ _ _ _ Hw) (wp_parts _ _ _ _ Hw) He Hpi) as (to & Eto & Hto & Hlast & Hnext).
    eapply ends_run; [by rewrite Eto |]. apply ends_guard; [by rewrite Hnext |]. apply (segment_out A _ from to ps); try done; lia.
  - destruct Hpos as [-> Hidle]. apply ends_ret. split; [apply Hempty; intros i _; by apply idle_total | done].
Qed.

Lemma idle_steps ys : Z.of_nat (all_steps (idle <$> ys)) <= 2 * ranges_of ys.
Proof using Type.
  induction ys as [|x ys IH]; [done |]. cbn [fmap list_fmap all_steps ranges_of]. change (list_fmap Src Part idle ys) with (idle <$> ys).
  assert (Hl : (length (runs_of x) <= length (sx_es x))%nat) by (unfold runs_of; etrans; [apply select_length | done]). unfold steps, zlen. cbn [idle pt_todo pt_active]. lia.
Qed.

(** The sweep ends, and has given every address to its consumer. *)
Lemma scan_run_ok grants sizes a t h : (forall size n, grants size n = Some n) -> 0 <= size_state sizes -> 0 <= size_event sizes -> gives_sources a xs ->
  zlen (ma_inputs (ma_state a)) = zlen xs -> zlen (ma_names (ma_state a)) = F -> Forall src_ok xs -> zlen xs <= u32_max -> 0 <= F <= u32_max -> heap_ok h ->
  (size_state sizes + size_event sizes) * zlen xs + 10 * entries_of xs + 12 * F <= remaining h -> 2 * ranges_of xs <= Z.of_nat rounds -> 2 * ranges_of xs < u64_max ->
  inv 0 t -> (forall h bytes, sink_enable_cache h bytes t = Ok (t, h)) ->
  ends cancelled (scan_run cancelled grants sizes rounds a t h) (fun '(report, t', _) => inv (key_top (K := K) + 1) t' /\ rp_source_ranges report = ranges_of xs).
Proof using Type*.
  intros Hg Hz1 Hz2 Ha Hin Hnames Hok Hfew HF Hh Hroom Hrounds Hmax Hi Hcache. pose proof (zlen_nonneg xs) as Hn0. pose proof (entries_nonneg xs). pose proof (ranges_nonneg xs).
  unfold scan_run, initialize_sources. rewrite Hin. eapply ends_bind with (P := fun _ => True); [by apply ends_check |]. intros _ _.
  set (h2 := spend (zlen xs * size_event sizes) (spend (zlen xs * size_state sizes) h)). assert (Hh2 : heap_ok h2) by (apply spend_ok; [apply spend_ok |]; unfold spend; cbn; [done | lia | lia]).
  assert (Hr2 : remaining h2 = remaining h - (size_state sizes + size_event sizes) * zlen xs) by (unfold h2, spend; cbn; lia).
  eapply ends_bind with (P := fun '(states, q, h') => Forall2 sim (idle <$> xs) states /\ queue q (events_of 0 (idle <$> xs)) /\ exists n, h' = spend n h2 /\ 0 <= n <= 10 * entries_of xs).
  { eapply ends_run; [apply (vector_ok grants Hg); [done | done | done | lia] |]. eapply ends_run; [apply (vector_ok grants Hg); [apply spend_ok; [done | lia] | done | done | unfold spend; cbn; lia] |].
    rewrite zlen_nat. apply (initialize_loop_ok grants Hg a xs Ha Hok Hfew xs [] [] _ h2); [done | constructor | apply queue_empty | done | lia]. }
  intros [[states q] h3] (Hs & Hq & n & -> & Hn). destruct (global_new_ok F grants (spend n h2) Hg) as (g & Eg & Hglobal); [apply spend_ok; [done | lia] | done | unfold spend; cbn in *; lia |].
  eapply ends_run; [rewrite Hnames; exact Eg |]. cbv beta iota zeta. set (h4 := spend (12 * F) (spend n h2)). assert (Hh4 : heap_ok h4) by (unfold h4; apply spend_ok; [apply spend_ok; [done | lia] | unfold spend; cbn in *; lia]).
  assert (Heach : 0 <= remaining h4 / (zlen states + 1)) by (apply Z.div_pos; [apply Hh4 | pose proof (zlen_nonneg states); lia]).
  destruct (caches_ok grants Hg _ Heach (idle <$> xs) states h4 Hs Hh4) as (states' & m & Ec & _ & Hs'). eapply ends_run; [exact Ec |]. eapply ends_run; [apply Hcache |].
  pose proof (idle_steps xs) as Hsteps. assert (Hidle : Forall (fun y => pt_active y = false) (idle <$> xs)) by (by apply Forall_fmap, Forall_forall).
  assert (Hsrc : pt_src <$> (idle <$> xs) = xs) by (rewrite <- list_fmap_compose; apply list_fmap_id).
  eapply ends_bind; [apply (scan_loop_ok rounds (idle <$> xs) states' q g t report_default None 0); [| done | lia | lia | done | cbn; lia | done] |].
  { exists 0. split; [| done]. split; [done | | | unfold zlen; rewrite length_fmap; exact Hfew].
    - apply Forall_fmap. eapply Forall_impl; [exact Hok |]. intros x. apply idle_ok.
    - eapply global_ext; [| exact Hglobal]. intros i. by rewrite idle_total. }
  intros [[[[s2 g2] t2] r2] pos] (ps & Hscan & Hev & Hr2' & Hsr). eapply ends_bind; [by apply (emit_terminal_ok ps s2 g2 t2 r2 pos) |]. intros [t3 r3] [Ht3 [Hsr3 _]].
  destruct Hscan as (A & Hw & Hxs & _ & _). eapply ends_bind; [apply (finish_sources_ok A ps s2 0 0 r3 (wp_sim _ _ _ _ Hw) (wp_parts _ _ _ _ Hw) Hev); rewrite ?Hxs; lia |].
  intros report [Hrep _]. apply ends_ret. split; [done |]. rewrite Hrep, Hxs. lia.
Qed.
End Sinks.
End Sweep.
