(* ===== verification/AlgebraTheorems.v ===== *)
(** * What the set operations compute

    The catalog of several databases, selections of its feeds, the consumers
    of the segments: counts and comparisons are numbers of addresses, counted
    one by one. *)

From stdpp Require Import base tactics numbers list strings sorting.
From Stdlib Require Import ZArith Lia.
From S2P Require Import Prelude Errors Bytes Cardinality Key Codec Contract TreeInterface RangeMap Machine Mapping TreeQuery TreeFacts TreeRuns RangeCursor Compare CompareFacts.
From S2P Require Import MembershipScope MembershipFacts AlgebraScan AlgebraQueue AlgebraFacts.

#[local] Open Scope string_scope.
#[local] Open Scope list_scope.
#[local] Open Scope Z_scope.

(** ** Selections *)

Section Selections.
Context (cancelled : nat -> bool) (F : Z).

(** A selection picks the global feeds of these positions. *)
Definition picks (sel : Selection) (i : Z) : Prop := match sel with SelectAll _ => True | SelectNamed positions _ => i ∈ positions end.
Definition selection_ok (sel : Selection) : Prop :=
  match sel with
  | SelectAll _ => True
  | SelectNamed positions flags => Forall (fun i => 0 <= i < F) positions /\ zlen flags = F /\ forall i, 0 <= i < F -> get flags i = Some (if decide (i ∈ positions) then 1 else 0)
  end.

Lemma contains_present_ok N g : global_ok F N g -> forall positions work, Forall (fun i => 0 <= i < F) positions ->
  ends cancelled (contains_present cancelled positions work (gl_counts g)) (fun b => b = true <-> exists i, i ∈ positions /\ 0 < N i).
Proof using Type.
  intros Hg. induction positions as [|i positions IH]; intros work Hp; cbn [contains_present].
  { apply ends_ret. split; [done |]. by intros (i & Hi%elem_of_nil & _). }
  apply Forall_cons in Hp as [Hi Hp]. destruct (go_count _ _ _ Hg i Hi) as [Hget Hpos]. apply ends_checked.
  eapply ends_run; [apply (index_lookup _ i (N i)); [lia | exact Hget] |]. destruct (Z.eqb_spec (N i) 0) as [Hz | Hne]; cbn [negb].
  - eapply ends_mono; [by apply IH |]. intros b ->. split; intros (j & Hj & Hn); exists j; (split; [| done]); [by right |]. apply elem_of_cons in Hj as [-> | Hj]; [lia | done].
  - apply ends_ret. split; [intros _ | done]. exists i. split; [left | lia].
Qed.
Lemma contains_selected_ok flags (positions : list Z) : (forall i, 0 <= i < F -> get flags i = Some (if decide (i ∈ positions) then 1 else 0)) -> forall present work, Forall (fun i => 0 <= i < F) present ->
  ends cancelled (contains_selected cancelled present work flags) (fun b => b = true <-> exists i, i ∈ positions /\ i ∈ present).
Proof using Type.
  intros Hf. induction present as [|i present IH]; intros work Hp; cbn [contains_selected].
  { apply ends_ret. split; [done |]. by intros (i & _ & Hi%elem_of_nil). }
  apply Forall_cons in Hp as [Hi Hp]. apply ends_checked. eapply ends_run; [apply (index_lookup _ i); [lia | exact (Hf i Hi)] |]. destruct (decide (i ∈ positions)) as [Hin | Hno].
  - apply ends_ret. split; [intros _ | done]. exists i. split; [done | left].
  - cbn. eapply ends_mono; [by apply IH |]. intros b ->. split; intros (j & Hj & Hn); exists j; (split; [done |]); [by right |]. apply elem_of_cons in Hn as [-> | Hn]; [done | done].
Qed.
Lemma selection_any_ok sel N g : selection_ok sel -> global_ok F N g ->
  ends cancelled (selection_any cancelled sel (gl_present g) (gl_counts g)) (fun b => b = true <-> exists i, 0 <= i < F /\ picks sel i /\ 0 < N i).
Proof using Type.
  intros Hs Hg. pose proof (go_present _ _ _ Hg) as Hp. assert (Hr : Forall (fun i => 0 <= i < F) (gl_present g)) by (apply Forall_forall; intros i [? _]%Hp; done).
  destruct sel as [count | positions flags]; cbn [selection_any picks].
  - apply ends_ret. case_bool_decide as He; cbn [negb]; split; [done | | intros _ | done].
    + intros (i & Hi & _ & Hn). assert (Hin : i ∈ gl_present g) by by apply Hp. rewrite He in Hin. by apply elem_of_nil in Hin.
    + destruct (gl_present g) as [|i l]; [done |]. destruct (proj1 (Hp i) ltac:(left)) as [Hi Hn]. by exists i.
  - destruct Hs as (Hpos & _ & Hf). destruct (_ <? _).
    + eapply ends_mono; [by apply contains_present_ok |]. intros b ->. rewrite Forall_forall in Hpos. split; intros (i & Hi); exists i; [| tauto]. split; [apply Hpos, Hi | done].
    + eapply ends_mono; [by apply contains_selected_ok |]. intros b ->. split; intros (i & Hi); exists i; [destruct Hi as [? Hi%Hp]; tauto |]. split; [tauto |]. apply Hp. tauto.
Qed.

(** *** Resolving names *)

Section Resolve.
Context (names : list FeedName) (Hnames : zlen names = F) (HF : F <= u32_max).

Lemma search_name_ok name i : search_name names name = Some i -> 0 <= i < F /\ names !! Z.to_nat i = Some name.
Proof using Hnames.
  unfold search_name. intros ([k n] & E & [= <-])%bind_Some. apply list_find_Some in E as (Hk & <- & _). rewrite Nat2Z.id. split; [| done]. apply lookup_lt_Some in Hk. unfold zlen in Hnames. lia.
Qed.
Lemma search_name_found name : name ∈ names -> exists i, search_name names name = Some i.
Proof using Type. intros Hn. unfold search_name. destruct (list_find_elem_of (eq name) names name Hn eq_refl) as ([k n] & ->). by exists (Z.of_nat k). Qed.
Lemma search_name_same n m i : search_name names n = Some i -> search_name names m = Some i -> n = m.
Proof using Hnames. intros [_ Hn]%search_name_ok [_ Hm]%search_name_ok. congruence. Qed.

Lemma resolve_names_ok : forall wanted work positions, Forall (fun n => n ∈ names) wanted ->
  ends cancelled (resolve_names cancelled wanted work names positions) (fun l => l = positions ++ omap (search_name names) wanted).
Proof using Hnames HF.
  induction wanted as [|n wanted IH]; intros work positions Hw; cbn [resolve_names]; [apply ends_ret; by rewrite app_nil_r |]. apply Forall_cons in Hw as [Hn Hw].
  destruct (search_name_found n Hn) as (i & Ei). destruct (search_name_ok n i Ei) as [Hi _]. apply ends_checked. eapply ends_run; [by rewrite Ei |]. apply ends_guard; [apply Z.ltb_ge; lia |].
  eapply ends_mono; [by apply IH |]. intros l ->. cbn [omap list_omap]. rewrite Ei. by rewrite <- app_assoc.
Qed.
Lemma require_unique_ok : forall positions work, NoDup positions -> ends cancelled (require_unique cancelled positions work) (fun _ => True).
Proof using Type.
  induction positions as [|i [|j rest] IH]; intros work Hn; cbn [require_unique]; [by apply ends_ret | by apply ends_ret |]. apply NoDup_cons in Hn as [Hi Hn]. apply ends_checked.
  apply ends_guard; [apply Z.eqb_neq; intros ->; apply Hi; left |]. by apply IH.
Qed.
Lemma raise_flags_ok P : forall positions work flags, Forall (fun i => 0 <= i < F) positions -> zlen flags = F -> (forall i, 0 <= i < F -> get flags i = Some (if decide (i ∈ (P : list Z)) then 1 else 0)) ->
  ends cancelled (raise_flags cancelled positions work flags) (fun flags' => zlen flags' = F /\ forall i, 0 <= i < F -> get flags' i = Some (if decide (i ∈ P ++ positions) then 1 else 0)).
Proof using Type.
  intros positions. revert P. induction positions as [|j positions IH]; intros P work flags Hp Hl Hf; cbn [raise_flags]; [apply ends_ret; by rewrite app_nil_r |].
  apply Forall_cons in Hp as [Hj Hp]. apply ends_checked. eapply ends_run; [apply (set_index_ok flags); lia |].
  eapply ends_mono; [apply (IH (P ++ [j])); [done | by rewrite zlen_insert |] |].
  - intros i Hi. rewrite get_insert by lia. destruct (Z.eqb_spec i j) as [-> | Hne]; [rewrite decide_True by (apply elem_of_app; right; left); done |].
    rewrite Hf by done. f_equal. destruct (decide (i ∈ P)) as [Hin | Hno]; [rewrite decide_True by (apply elem_of_app; by left); done |].
    rewrite decide_False; [done |]. intros [? | ->%list_elem_of_singleton]%elem_of_app; done.
  - intros flags'. by rewrite <- app_assoc.
Qed.

(** Names a caller asks for: all, or some of the catalog, each once. *)
Definition askable (feeds : FeedSelection) : Prop :=
  match feeds with AllFeeds => True | NamedFeeds wanted => wanted <> [] /\ NoDup wanted /\ Forall (fun n => n ∈ names) wanted end.
Definition asks (feeds : FeedSelection) (name : FeedName) : bool := match feeds with AllFeeds => true | NamedFeeds wanted => bool_decide (name ∈ wanted) end.

Lemma resolve_ok a grants feeds h : (forall size n, grants size n = Some n) -> ma_names (ma_state a) = names -> askable feeds -> heap_ok h -> 5 * F <= remaining h ->
  ends cancelled (resolve cancelled grants a feeds h) (fun '(sel, h') => selection_ok sel /\ (forall name i, search_name names name = Some i -> picks sel i <-> asks feeds name = true)
    /\ exists n, h' = spend n h /\ 0 <= n <= 5 * F).
Proof using Hnames HF.
  intros Hg Ha Hask Hh Hr. pose proof (zlen_nonneg names). unfold resolve. rewrite Ha. destruct feeds as [|[|w wanted]].
  - apply ends_ret. split; [done |]. split; [done |]. exists 0. split; [unfold spend; destruct h; cbn; f_equal; lia | lia].
  - by destruct Hask.
  - destruct Hask as (_ & Hnd & Hin). cbn [asks]. set (all := w :: wanted) in *. cbv zeta.
    assert (Hlen : zlen all <= F).
    { rewrite <- Hnames. unfold zlen. apply Nat2Z.inj_le, submseteq_length, NoDup_submseteq; [done |]. intros n Hn. rewrite Forall_forall in Hin. by apply Hin. }
    pose proof (zlen_nonneg all). eapply ends_run; [apply (vector_ok grants Hg); [done | lia | lia | lia] |]. eapply ends_bind; [by apply resolve_names_ok |]. intros l ->. cbn [app].
    eapply ends_bind with (P := fun _ => True); [by apply ends_check |]. intros _ _. eapply ends_bind with (P := fun _ => True); [by apply ends_check |]. intros _ _.
    set (found := omap (search_name names) all). assert (Hperm : merge_sort Z.le found ≡ₚ found) by apply merge_sort_Permutation.
    assert (Hrange : Forall (fun i => 0 <= i < F) found) by (apply Forall_forall; intros i (n & _ & Hn)%list_elem_of_omap; by apply search_name_ok in Hn as [? _]).
    assert (Hfound : NoDup found).
    { unfold found. clear -Hnd Hnames. induction Hnd as [|n l Hn Hnd IH]; cbn; [constructor |]. destruct (search_name names n) as [i|] eqn:Ei; [| done]. constructor; [| done].
      intros (m & Hm & Em)%list_elem_of_omap. by rewrite (search_name_same n m i Ei Em) in Hn. }
    eapply ends_bind; [apply require_unique_ok; by rewrite Hperm |]. intros _ _.
    eapply ends_run; [apply (filled_ok grants Hg); [apply spend_ok; [done | lia] | lia | lia | unfold spend; cbn; lia] |].
    eapply ends_bind; [apply (raise_flags_ok []); [by rewrite Hperm | rewrite zlen_replicate; lia |] |].
    { intros i Hi. unfold get. rewrite decide_False by apply not_elem_of_nil. apply lookup_replicate. split; [done | lia]. }
    intros flags [Hfl Hflags]. apply ends_ret. split; [split; [by rewrite Hperm | done] |]. split; [| exists (zlen all * 4 + zlen names * 1); split; [unfold spend; cbn; f_equal; lia | lia]].
    intros name i Ei. cbn [picks]. rewrite Hperm, bool_decide_eq_true. unfold found. rewrite list_elem_of_omap. split; [intros (n & Hn & En); by rewrite (search_name_same _ _ _ Ei En) | by exists name].
Qed.
End Resolve.
End Selections.

(** ** Consumers *)

Lemma count_stretch (P : Z -> bool) b n : forall m, (forall a, Z.of_nat n <= a < Z.of_nat (n + m) -> P a = b) -> count_below P (n + m) = count_below P n + if b then Z.of_nat m else 0.
Proof.
  induction m as [|m IH]; intros Hp; [rewrite Nat.add_0_r; destruct b; lia |]. rewrite Nat.add_succ_r. cbn [count_below]. rewrite IH by (intros a Ha; apply Hp; lia). rewrite (Hp (Z.of_nat (n + m))) by lia.
  destruct b; lia.
Qed.

Section Consumers.
Context {K : Type} `{IpKeyLaws K} (cancelled : nat -> bool) (rounds : nat) (F : Z) (xs : list (Src (K := K))).
Notation top := (key_top (K := K)).

(** The counter has the addresses below the bound that have the property. *)
Definition counts (P : Z -> bool) (lo : Z) (c : Cardinality129) : Prop := card_ok c /\ val c = count_below P (Z.to_nat lo).

Lemma counts_none P : counts P 0 card_zero.
Proof using Type. done. Qed.
Lemma counts_over P b lo hi : 0 <= lo <= hi -> (forall a, lo <= a < hi -> P a = b) -> count_below P (Z.to_nat hi) = count_below P (Z.to_nat lo) + if b then hi - lo else 0.
Proof using Type.
  intros Hlo Hp. replace (Z.to_nat hi) with (Z.to_nat lo + Z.to_nat (hi - lo))%nat by lia. rewrite (count_stretch P b); [destruct b; lia |]. intros a Ha. apply Hp. lia.
Qed.
Lemma counts_keep P lo hi c : counts P lo c -> 0 <= lo <= hi -> (forall a, lo <= a < hi -> P a = false) -> counts P hi c.
Proof using Type. intros [Hc Hv] Hlo Hp. split; [done |]. rewrite Hv, (counts_over P false lo hi Hlo Hp). lia. Qed.
Lemma counts_add P lo hi c n : counts P lo c -> 0 <= lo <= hi -> hi <= top + 1 -> (forall a, lo <= a < hi -> P a = true) -> card_ok n -> val n = hi - lo ->
  exists c', algebra_add c n = Ok c' /\ counts P hi c'.
Proof using H0.
  intros [Hc Hv] Hlo Hhi Hp Hn Hvn. pose proof (counts_over P true lo hi Hlo Hp) as Hs. cbv iota in Hs. pose proof (count_bounds P (Z.to_nat hi)). pose proof (top_bound (K := K)).
  assert (Hsum : val c + val n < 2 ^ 129) by lia. destruct (add_ok c n Hc Hn Hsum) as (c' & E & Hc' & Hv'). exists c'. split; [| split; [done | lia]]. unfold algebra_add. unfold add in E. by destruct (card_checked_add c n) as [| |].
Qed.

(** The addresses at which a selected global feed is held. *)
Definition shows_hits (sel : Selection) (P : Z -> bool) : Prop := forall a, 0 <= a <= top -> P a = true <-> exists i, 0 <= i < F /\ picks sel i /\ 0 < held xs a i.

Lemma held_nothing sel P lo hi : shows_hits sel P -> 0 <= lo -> hi <= top + 1 -> (forall a i, lo <= a < hi -> 0 <= i < F -> held xs a i = 0) -> forall a, lo <= a < hi -> P a = false.
Proof using Type.
  intros Hp Hlo Hhi Hz a Ha. destruct (P a) eqn:E; [| done]. apply Hp in E as (i & Hi & _ & Hn); [| lia]. rewrite (Hz a i Ha Hi) in Hn. lia.
Qed.
Lemma held_selected sel P lo hi N g : shows_hits sel P -> selection_ok F sel -> 0 <= lo -> hi <= top + 1 -> global_ok F N g -> (forall a i, lo <= a < hi -> N i = held xs a i) ->
  ends cancelled (selection_any cancelled sel (gl_present g) (gl_counts g)) (fun b => forall a, lo <= a < hi -> P a = b).
Proof using Type.
  intros Hp Hs Hlo Hhi Hg Hn. eapply ends_mono; [by apply selection_any_ok |]. intros b Hb a Ha. specialize (Hp a ltac:(lia)).
  assert (Hiff : P a = true <-> b = true).
  { rewrite Hp, Hb. split; intros (i & Hi & Hpi & Hh); exists i; (split; [done |]); (split; [done |]); [by rewrite (Hn a i Ha) | by rewrite <- (Hn a i Ha)]. }
  destruct (P a), b; [done | by symmetry; apply Hiff | by apply Hiff | done].
Qed.

Definition count_inv (sel : Selection) (P : Z -> bool) (lo : Z) (t : CountSink) : Prop := 0 <= lo /\ cn_selection t = sel /\ counts P lo (cn_addresses t).
Lemma count_skip sel P lo hi t : shows_hits sel P -> count_inv sel P lo t -> lo <= hi <= top + 1 -> (forall a i, lo <= a < hi -> 0 <= i < F -> held xs a i = 0) -> count_inv sel P hi t.
Proof using Type.
  intros Hp (Hlo & Hs & Hc) Hhi Hz. split; [lia |]. split; [done |]. apply (counts_keep P lo); [done | lia |]. by apply (held_nothing sel P); [| | lia |].
Qed.
Lemma count_segment sel P lo hi (from to : K) N g t : shows_hits sel P -> selection_ok F sel -> count_inv sel P lo t -> key_ok from -> key_ok to -> key_num from = lo -> key_num to = hi - 1 -> lo < hi ->
  global_ok F N g -> (forall a i, lo <= a < hi -> N i = held xs a i) ->
  ends cancelled (segment (SegmentSink := CountSink_SegmentSink cancelled) from to (gl_present g) (gl_counts g) t) (count_inv sel P hi).
Proof using H0.
  intros Hp Hok (Hlo & Hs & Hc) Hf Ht Hfn Htn Hlt Hg Hn. pose proof (key_num_range _ Ht). cbn [segment CountSink_SegmentSink].
  assert (Hb : ends cancelled (selection_any cancelled (cn_selection t) (gl_present g) (gl_counts g)) (fun b => forall a, lo <= a < hi -> P a = b)) by (rewrite Hs; apply (held_selected sel P lo hi N g); try done; lia).
  eapply ends_bind; [exact Hb |]. intros b Hconst. destruct b.
  - destruct (span_ok from to Hf Ht ltac:(lia)) as (n & En & Hcn & Hvn). eapply ends_run; [exact En |].
    destruct (counts_add P lo hi _ n Hc ltac:(lia) ltac:(lia) Hconst Hcn ltac:(lia)) as (c & Ec & Hc'). eapply ends_run; [exact Ec |]. apply ends_ret. split; [lia |]. done.
  - apply ends_ret. split; [lia |]. split; [done |]. apply (counts_keep P lo); [done | lia | done].
Qed.

(** The addresses of one selection, of the other, and of both together. *)
Definition both (L R : Z -> bool) (a : Z) : bool := L a && R a.
Definition only (L R : Z -> bool) (a : Z) : bool := L a && negb (R a).
Definition either (L R : Z -> bool) (a : Z) : bool := L a || R a.
Record compare_inv (left_ right_ : Selection) (L R : Z -> bool) (lo : Z) (t : ComparisonSink) : Prop := {
  ci_lo : 0 <= lo;
  ci_selections : cp_left t = left_ /\ cp_right t = right_;
  ci_left : counts L lo (cp_left_addresses t);
  ci_right : counts R lo (cp_right_addresses t);
  ci_overlap : counts (both L R) lo (cp_overlap t);
  ci_left_only : counts (only L R) lo (cp_left_only t);
  ci_right_only : counts (only R L) lo (cp_right_only t);
  ci_union : counts (either L R) lo (cp_union t);
}.

Section Comparing.
Context (left_ right_ : Selection) (L R : Z -> bool) (HL : shows_hits left_ L) (HR : shows_hits right_ R).
Notation inv := (compare_inv left_ right_ L R).

Lemma compare_skip lo hi t : inv lo t -> lo <= hi <= top + 1 -> (forall a i, lo <= a < hi -> 0 <= i < F -> held xs a i = 0) -> inv hi t.
Proof using HL HR.
  intros [Hlo Hs C1 C2 C3 C4 C5 C6] Hhi Hz. pose proof (held_nothing left_ L lo hi HL Hlo ltac:(lia) Hz) as Hl. pose proof (held_nothing right_ R lo hi HR Hlo ltac:(lia) Hz) as Hr.
  split; [lia | done | | | | | |]; (eapply counts_keep; [eassumption | lia |]); intros a Ha; unfold both, only, either; rewrite ?(Hl a Ha), ?(Hr a Ha); done.
Qed.
Lemma compare_segment lo hi (from to : K) N g t : selection_ok F left_ -> selection_ok F right_ -> inv lo t -> key_ok from -> key_ok to -> key_num from = lo -> key_num to = hi - 1 -> lo < hi ->
  global_ok F N g -> (forall a i, lo <= a < hi -> N i = held xs a i) ->
  ends cancelled (segment (SegmentSink := ComparisonSink_SegmentSink cancelled) from to (gl_present g) (gl_counts g) t) (inv hi).
Proof using H0 HL HR.
  intros Hok1 Hok2 [Hlo [Hs1 Hs2] C1 C2 C3 C4 C5 C6] Hf Ht Hfn Htn Hlt Hg Hn. pose proof (key_num_range _ Ht). assert (Hhi : hi <= top + 1) by lia. assert (Hle : 0 <= lo <= hi) by lia.
  cbn [segment ComparisonSink_SegmentSink]. rewrite Hs1, Hs2. eapply ends_bind; [by apply (held_selected left_ L lo hi N g) |]. intros bl Hl. eapply ends_bind; [by apply (held_selected right_ R lo hi N g) |]. intros br Hr.
  assert (Hkeep : forall P c, counts P lo c -> (forall a, lo <= a < hi -> P a = false) -> counts P hi c) by (intros P c Hc Hp; by apply (counts_keep P lo)).
  destruct (span_ok from to Hf Ht ltac:(lia)) as (n & En & Hcn & Hvn). assert (Hsize : val n = hi - lo) by lia.
  assert (Hadd : forall P c, counts P lo c -> (forall a, lo <= a < hi -> P a = true) -> exists c', algebra_add c n = Ok c' /\ counts P hi c') by (intros P c Hc Hp; by apply (counts_add P lo hi c n)).
  destruct bl, br; cbn [negb andb].
  - eapply ends_run; [exact En |]. destruct (Hadd _ _ C6) as (u & Eu & Cu); [intros a Ha; unfold either; by rewrite Hl |]. eapply ends_run; [exact Eu |].
    destruct (Hadd _ _ C1) as (l & El & Cl); [done |]. eapply ends_run; [exact El |]. destruct (Hadd _ _ C2) as (r & Er & Cr); [done |]. eapply ends_run; [exact Er |].
    destruct (Hadd _ _ C3) as (o & Eo & Co); [intros a Ha; unfold both; by rewrite Hl, Hr |]. eapply ends_run; [exact Eo |]. apply ends_ret.
    split; cbn; [lia | done | done | done | done | | | done]; (apply Hkeep; [done |]); intros a Ha; unfold only; by rewrite Hl, Hr.
  - eapply ends_run; [exact En |]. destruct (Hadd _ _ C6) as (u & Eu & Cu); [intros a Ha; unfold either; by rewrite Hl |]. eapply ends_run; [exact Eu |].
    destruct (Hadd _ _ C1) as (l & El & Cl); [done |]. eapply ends_run; [exact El |]. destruct (Hadd _ _ C4) as (o & Eo & Co); [intros a Ha; unfold only; by rewrite Hl, Hr |]. eapply ends_run; [exact Eo |]. apply ends_ret.
    split; cbn; [lia | done | done | | | done | | done]; (apply Hkeep; [done |]); intros a Ha; unfold both, only; by rewrite ?Hl, ?Hr.
  - eapply ends_run; [exact En |]. destruct (Hadd _ _ C6) as (u & Eu & Cu); [intros a Ha; unfold either; by rewrite Hl, Hr |]. eapply ends_run; [exact Eu |].
    destruct (Hadd _ _ C2) as (r & Er & Cr); [done |]. eapply ends_run; [exact Er |]. destruct (Hadd _ _ C5) as (o & Eo & Co); [intros a Ha; unfold only; by rewrite Hl, Hr |]. eapply ends_run; [exact Eo |]. apply ends_ret.
    split; cbn; [lia | done | | done | | | done | done]; (apply Hkeep; [done |]); intros a Ha; unfold both, only; by rewrite ?Hl, ?Hr.
  - apply ends_ret. split; [lia | done | | | | | |]; (apply Hkeep; [done |]); intros a Ha; unfold both, only, either; by rewrite ?Hl, ?Hr.
Qed.
End Comparing.
End Consumers.

(** ** The virtual catalog *)

(** *** The order of names *)

Lemma bytes_compare_eq : forall a b, bytes_compare a b = Eq -> a = b.
Proof. induction a as [|x a IH]; intros [|y b]; cbn; try done. destruct (Z.compare_spec x y) as [-> | |]; [| done | done]. by intros ->%IH. Qed.
Lemma bytes_compare_opp : forall a b, bytes_compare b a = CompOpp (bytes_compare a b).
Proof. induction a as [|x a IH]; intros [|y b]; cbn; try done. rewrite Z.compare_antisym. destruct (x ?= y); cbn; [apply IH | done | done]. Qed.
Lemma bytes_compare_lt : forall a b c, bytes_compare a b = Lt -> bytes_compare b c <> Gt -> bytes_compare a c = Lt.
Proof.
  induction a as [|x a IH]; intros [|y b] [|z c]; cbn; try done. destruct (Z.compare_spec x y) as [-> | Hxy |]; [| | done].
  - intros Hab. destruct (y ?= z) eqn:E; [by apply IH | done | done].
  - intros _. destruct (Z.compare_spec y z) as [-> | Hyz | Hyz]; [| | done]; intros _; by rewrite (proj2 (Z.compare_lt_iff _ _)) by lia.
Qed.
Lemma name_compare_eq a b : name_compare a b = Eq -> a = b.
Proof. unfold name_compare. destruct (bytes_compare (fn_bytes a) (fn_bytes b)) eqn:E; [| done | done]. apply bytes_compare_eq in E. intros Hl%Z.compare_eq. destruct a, b; cbn in *. congruence. Qed.
Lemma name_compare_opp a b : name_compare b a = CompOpp (name_compare a b).
Proof. unfold name_compare. rewrite bytes_compare_opp. destruct (bytes_compare (fn_bytes a) (fn_bytes b)); cbn; [apply Z.compare_antisym | done | done]. Qed.
Lemma name_compare_trans a b c : name_compare a b = Lt -> name_compare b c <> Gt -> name_compare a c = Lt.
Proof.
  unfold name_compare. destruct (bytes_compare (fn_bytes a) (fn_bytes b)) eqn:Eab; [apply bytes_compare_eq in Eab; rewrite Eab | | done].
  - destruct (bytes_compare (fn_bytes b) (fn_bytes c)); [| done | done]. intros Hab Hbc. change (fn_len a < fn_len b) in Hab. change (fn_len b <= fn_len c) in Hbc. change (fn_len a < fn_len c). lia.
  - intros _ Hbc. rewrite (bytes_compare_lt _ (fn_bytes b)); [done | done |]. by destruct (bytes_compare (fn_bytes b) (fn_bytes c)).
Qed.
#[export] Instance name_le_trans : Transitive name_le.
Proof.
  intros a b c Hab Hbc. unfold name_le in *. destruct (name_compare a b) eqn:E; [apply name_compare_eq in E as -> | | done]; [done |]. by rewrite (name_compare_trans a b c).
Qed.
#[export] Instance name_le_total : Total name_le.
Proof. intros a b. unfold name_le. rewrite (name_compare_opp a b). destruct (name_compare a b); [by left | by left | by right]. Qed.

Definition name_lt (a b : FeedName) : Prop := name_compare a b = Lt.
Lemma dedup_elem names n : n ∈ dedup names <-> n ∈ names.
Proof.
  induction names as [|x names IH]; cbn [dedup]; [done |]. rewrite elem_of_cons, <- IH. destruct (dedup names) as [|y rest] eqn:E; [by rewrite elem_of_cons |].
  destruct (decide (x = y)) as [-> |]; rewrite !elem_of_cons; tauto.
Qed.
Lemma dedup_sorted names : StronglySorted name_le names -> StronglySorted name_lt (dedup names).
Proof.
  induction 1 as [|x names Hs IH Hx]; cbn [dedup]; [constructor |].
  assert (Hle : Forall (name_le x) (dedup names)) by (apply Forall_forall; intros n Hn; rewrite Forall_forall in Hx; by apply Hx, dedup_elem).
  destruct (dedup names) as [|y rest] eqn:E; [repeat constructor |]. destruct (decide (x = y)) as [-> | Hne]; [done |]. constructor; [done |].
  apply StronglySorted_inv in IH as [_ Hy]. apply Forall_cons in Hle as [Hxy _].
  assert (Hlt : name_lt x y) by (unfold name_le, name_lt in *; destruct (name_compare x y) eqn:Exy; [by apply name_compare_eq in Exy | done | done]).
  constructor; [done |]. eapply Forall_impl; [exact Hy |]. intros z Hz. unfold name_lt in *. apply (name_compare_trans x y); [done |]. by rewrite Hz.
Qed.

(** *** Building it *)

Section Build.
Context (cancelled : nat -> bool) (grants : Z -> Z -> option Z) (Hgrants : forall size n, grants size n = Some n) (sizes : Sizes).
Implicit Types (scopes : list MembershipScopeState).
Notation es_of s := (entries (ss_data s)).

Fixpoint feeds_total scopes : Z := match scopes with [] => 0 | s :: scopes => zlen (es_of s) + feeds_total scopes end.
Definition feed_names scopes : list FeedName := concat ((fun s => fe_name <$> es_of s) <$> scopes).
Lemma feeds_total_nonneg scopes : 0 <= feeds_total scopes.
Proof using Type. induction scopes as [|s scopes IH]; [done |]. cbn [feeds_total]. pose proof (zlen_nonneg (es_of s)). lia. Qed.

Lemma inspect_loop_ok family : forall scopes work total, Forall (fun s => ss_address_family s = family) scopes -> 0 <= total -> total + feeds_total scopes <= usize_max ->
  ends cancelled (inspect_loop cancelled scopes family work total) (fun n => n = total + feeds_total scopes).
Proof using Type.
  induction scopes as [|s scopes IH]; intros work total Hf H0 Hmax; cbn [inspect_loop]; [apply ends_ret; cbn; lia |]. apply Forall_cons in Hf as [Hs Hf]. cbn [feeds_total] in Hmax |- *.
  pose proof (feeds_total_nonneg scopes). pose proof (zlen_nonneg (es_of s)). apply ends_checked. apply ends_guard; [by rewrite bool_decide_true |].
  eapply ends_run; [unfold checked_add; rewrite (proj2 (Z.leb_le _ _)) by lia; done |]. eapply ends_mono; [apply IH; [done | lia | lia] |]. intros n ->. lia.
Qed.
Lemma chunks_concat {A} n : (0 < n)%nat -> forall rounds (l : list A), (length l <= rounds)%nat -> concat (chunks rounds n l) = l.
Proof using Type.
  intros Hn. induction rounds as [|rounds IH]; intros l Hl; [by destruct l; [| cbn in Hl; lia] |]. destruct l as [|x l]; [done |]. cbn [chunks concat].
  rewrite IH; [apply take_drop |]. rewrite length_drop. cbn in *. lia.
Qed.
Lemma take_names_ok : forall parts work names, ends cancelled (take_names cancelled parts work names) (fun '(l, _) => l = names ++ (fe_name <$> concat parts)).
Proof using Type.
  induction parts as [|part parts IH]; intros work names; cbn [take_names]; [apply ends_ret; cbn; by rewrite app_nil_r |]. cbv zeta. cbn [concat]. rewrite fmap_app, app_assoc.
  destruct (_ <=? _); [| apply IH]. eapply ends_bind with (P := fun _ => True); [by apply ends_check |]. intros _ _. apply IH.
Qed.
Lemma all_names_ok : forall scopes work entry_work names, ends cancelled (all_names cancelled scopes work entry_work names) (fun l => l = names ++ feed_names scopes).
Proof using Type.
  induction scopes as [|s scopes IH]; intros work entry_work names; cbn [all_names]; [apply ends_ret; by rewrite app_nil_r |]. apply ends_checked. cbv zeta.
  eapply ends_bind; [apply take_names_ok |]. intros [l w] ->. rewrite chunks_concat by lia. eapply ends_mono; [apply IH |]. intros l ->. unfold feed_names. cbn [fmap list_fmap concat]. by rewrite app_assoc.
Qed.

(** The global position of each entry. *)
Definition positioned (names : list FeedName) (es : list FeedEntry) (l : list Z) : Prop := Forall2 (fun e i => search_name names (fe_name e) = Some i) es l.
Lemma map_entries_ok names : zlen names <= u32_max -> forall es work l, Forall (fun e => fe_name e ∈ names) es ->
  ends cancelled (map_entries cancelled es work names l) (fun l' => exists more, l' = l ++ more /\ positioned names es more).
Proof using Type.
  intros Hmax. induction es as [|e es IH]; intros work l Hn; cbn [map_entries]; [apply ends_ret; exists []; split; [by rewrite app_nil_r | constructor] |]. apply Forall_cons in Hn as [He Hn].
  apply ends_checked. destruct (search_name_found names _ He) as (i & Ei). destruct (search_name_ok (zlen names) names eq_refl _ _ Ei) as [Hi _]. eapply ends_run; [by rewrite Ei |]. apply ends_guard; [apply Z.ltb_ge; lia |].
  eapply ends_mono; [by apply IH |]. intros l' (more & -> & Hm). exists (i :: more). split; [by rewrite <- app_assoc |]. by constructor.
Qed.
Definition described (names : list FeedName) (s : MembershipScopeState) (i : InputState) : Prop := in_expected_ranges i = ss_range_record_count s /\ positioned names (es_of s) (in_local_to_global i).
Lemma build_loop_ok names : zlen names <= u32_max -> forall scopes work h inputs, Forall (fun s => Forall (fun e => fe_name e ∈ names) (es_of s)) scopes -> heap_ok h -> 4 * feeds_total scopes <= remaining h ->
  ends cancelled (build_loop cancelled grants scopes work names h inputs) (fun '(l, h') => h' = spend (4 * feeds_total scopes) h /\ exists more, l = inputs ++ more /\ Forall2 (described names) scopes more).
Proof using Hgrants.
  intros Hmax. induction scopes as [|s scopes IH]; intros work h inputs Hn Hh Hr; cbn [build_loop].
  { apply ends_ret. split; [unfold spend; destruct h; cbn; f_equal; lia |]. exists []. split; [by rewrite app_nil_r | constructor]. }
  apply Forall_cons in Hn as [Hs Hn]. cbn [feeds_total] in Hr |- *. pose proof (feeds_total_nonneg scopes). pose proof (zlen_nonneg (es_of s)). apply ends_checked.
  eapply ends_run; [apply (vector_ok grants Hgrants); [done | done | lia | lia] |]. eapply ends_bind; [by apply map_entries_ok |]. intros l (more & -> & Hm). cbn [app].
  eapply ends_mono; [apply IH; [done | apply spend_ok; [done | lia] | unfold spend; cbn; lia] |]. intros [l' h'] (-> & more' & -> & Hm'). split; [unfold spend; cbn; f_equal; lia |].
  exists (mkInput (ss_range_record_count s) more :: more'). split; [by rewrite <- app_assoc |]. by constructor.
Qed.

Lemma reserve_ok n label h : heap_ok h -> 0 <= n <= remaining h -> reserve_bytes n label h = Ok (spend n h).
Proof using Type.
  intros (Hr & Hu & Hm) Hn. unfold reserve_bytes, checked_sub, checked_add. rewrite (proj2 (Z.leb_le _ _)) by lia. cbn. rewrite (proj2 (Z.leb_le _ _)) by lia. done.
Qed.

(** What the catalog takes of the budget. *)
Definition catalog_bytes scopes : Z := (size_source sizes + size_input sizes) * zlen scopes + 260 * feeds_total scopes.
Record catalogued scopes (family : AddressFamily) (budget : MembershipAlgebraBudget) (st : MembershipAlgebraState) : Prop := {
  ct_family : ma_family st = family;
  ct_sorted : StronglySorted name_lt (ma_names st);
  ct_names n : n ∈ ma_names st <-> n ∈ feed_names scopes;
  ct_few : zlen (ma_names st) <= feeds_total scopes;
  ct_inputs : Forall2 (described (ma_names st)) scopes (ma_inputs st);
  ct_heap : ma_max_heap_bytes st = ab_max_heap_bytes budget /\ ma_heap_used st = catalog_bytes scopes;
}.
Lemma dedup_length names : (length (dedup names) <= length names)%nat.
Proof using Type. induction names as [|x names IH]; cbn [dedup]; [done |]. destruct (dedup names) as [|y rest]; [cbn in *; lia |]. destruct (decide (x = y)); cbn in *; lia. Qed.
Lemma feed_names_length scopes : zlen (feed_names scopes) = feeds_total scopes.
Proof using Type. induction scopes as [|s scopes IH]; [done |]. unfold feed_names in *. cbn [fmap list_fmap concat feeds_total]. rewrite zlen_app, <- IH. unfold zlen at 1. by rewrite length_fmap. Qed.
Lemma in_feed_names scopes s e : s ∈ scopes -> e ∈ es_of s -> fe_name e ∈ feed_names scopes.
Proof using Type.
  intros Hs He. unfold feed_names. induction Hs as [scopes | s z scopes Hs IH]; cbn [fmap list_fmap concat]; apply elem_of_app; [left; by apply list_elem_of_fmap_2 | right; by apply IH].
Qed.

Lemma algebra_state_ok scopes family budget : Forall (fun s => ss_address_family s = family) scopes -> 0 < zlen scopes <= ab_max_sources budget -> 0 <= size_source sizes -> 0 <= size_input sizes ->
  feeds_total scopes <= u32_max -> catalog_bytes scopes <= ab_max_heap_bytes budget <= u64_max ->
  ends cancelled (algebra_state_new cancelled grants sizes scopes budget (zlen scopes * size_source sizes)) (catalogued scopes family budget).
Proof using Hgrants.
  intros Hf Hn Hz1 Hz2 Hfew Hb. pose proof (feeds_total_nonneg scopes) as Ht. unfold catalog_bytes in Hb. unfold algebra_state_new. eapply ends_bind with (P := fun _ => True); [by apply ends_check |]. intros _ _.
  eapply ends_run; [unfold require_source_count; rewrite (proj2 (Z.eqb_neq _ _)), (proj2 (Z.ltb_ge _ _)) by lia; done |].
  destruct scopes as [|s scopes]; [unfold zlen in Hn; cbn in Hn; lia |]. pose proof Hf as [Hs _]%Forall_cons. set (all := s :: scopes) in *.
  eapply ends_bind with (P := fun r => r = (family, feeds_total all)).
  { unfold inspect_sources. eapply ends_run; [apply (index_lookup all 0 s); [done | done] |]. rewrite Hs. eapply ends_bind; [apply inspect_loop_ok; [done | done | unfold usize_max, u64_max, u32_max in *; lia] |].
    intros n ->. by apply ends_ret. }
  intros r ->. set (h0 := heap_new (ab_max_heap_bytes budget)). assert (Hh0 : heap_ok h0) by (unfold heap_ok, h0, heap_new; cbn; lia).
  eapply ends_run; [apply reserve_ok; [done | unfold h0, heap_new; cbn; lia] |]. set (h1 := spend _ h0). assert (Hh1 : heap_ok h1) by (apply spend_ok; [done | unfold h0, heap_new; cbn; lia]).
  eapply ends_bind with (P := fun '(names, h) => names = dedup (merge_sort name_le (feed_names all)) /\ h = spend (feeds_total all * NAME_SIZE) h1).
  { unfold collect_names. eapply ends_run; [apply (vector_ok grants Hgrants); [done | done | done | unfold h1, h0, heap_new, spend, NAME_SIZE; cbn -[feeds_total zlen]; lia] |].
    eapply ends_bind; [apply all_names_ok |]. intros l ->. by apply ends_ret. }
  intros [names h2] [-> ->]. set (names := dedup (merge_sort name_le (feed_names all))). set (h2 := spend _ h1).
  assert (Hh2 : heap_ok h2) by (apply spend_ok; [done | unfold h1, h0, heap_new, spend, NAME_SIZE; cbn -[feeds_total zlen]; lia]).
  assert (Hnames : forall n, n ∈ names <-> n ∈ feed_names all) by (intros n; unfold names; by rewrite dedup_elem, merge_sort_Permutation).
  assert (Hlen : zlen names <= feeds_total all) by (rewrite <- feed_names_length; unfold names, zlen; pose proof (dedup_length (merge_sort name_le (feed_names all))) as Hd; rewrite (Permutation_length (merge_sort_Permutation _ _)) in Hd; lia).
  assert (Hin : Forall (fun s => Forall (fun e => fe_name e ∈ names) (es_of s)) all) by (apply Forall_forall; intros s' Hs'; apply Forall_forall; intros e He; apply Hnames; by eapply in_feed_names).
  eapply ends_bind with (P := fun '(inputs, h) => Forall2 (described names) all inputs /\ used h = catalog_bytes all).
  { unfold build_inputs. eapply ends_run; [apply (vector_ok grants Hgrants); [done | lia | done | unfold h2, h1, h0, heap_new, spend, NAME_SIZE; cbn -[feeds_total zlen]; lia] |].
    eapply ends_mono; [apply build_loop_ok; [lia | done | apply spend_ok; [done |] |]; unfold h2, h1, h0, heap_new, spend, NAME_SIZE; cbn -[feeds_total zlen]; lia |].
    intros [inputs h] (-> & more & -> & Hm). split; [done |]. unfold catalog_bytes, h2, h1, h0, heap_new, spend, NAME_SIZE. cbn -[feeds_total zlen]. lia. }
  intros [inputs h] [Hinputs Hused]. apply ends_ret. split; cbn [ma_family ma_names ma_inputs ma_max_heap_bytes ma_heap_used]; [done | | done | done | done | done].
  apply dedup_sorted, StronglySorted_merge_sort; apply _.
Qed.
End Build.

(** ** Databases and their feeds *)

Section Databases.
Context {K : Type} `{IpKeyLaws K} (cancelled : nat -> bool) (rounds : nat).

(** A scope over a database, and what the database holds: its ranges and the
    bitmap of each membership. *)
Record Database := mkDatabase { db_scope : MembershipScope; db_es : list (Range K); db_words : Z -> list Z }.
Implicit Types (d : Database) (dbs : list Database).
Notation data d := (ss_data (sc_state (db_scope d))).
Notation scopes dbs := (sc_state <$> (db_scope <$> dbs)).
Record database_ok d : Prop := {
  dk_source : source_ok (sc_reader (db_scope d)) (data d) (db_es d) (db_words d);
  dk_count : ss_range_record_count (sc_state (db_scope d)) = zlen (db_es d);
  dk_family : ss_address_family (sc_state (db_scope d)) = key_family (K := K);
  dk_names : NoDup (fe_name <$> entries (data d));
  dk_rounds : (length (db_es d) < rounds)%nat;
}.

(** The names of the feeds an address is in. *)
Definition feeds_in d (a : Z) : list FeedName :=
  match rng_lookup (db_es d) a with
  | Some membership => fe_name <$> filter (fun e => bit (db_words d membership) (fe_index e) = true) (entries (data d))
  | None => []
  end.
(** An address is in one of the feeds that are asked for, in some database. *)
Definition in_feeds dbs (feeds : FeedSelection) (a : Z) : bool := existsb (fun d => existsb (asks feeds) (feeds_in d a)) dbs.

Section Catalogued.
Context (names : list FeedName) (F : Z) (HF : zlen names = F).

Definition src_of d (i : InputState) : Src (K := K) := mkSrc (mkAlgebraInput (sc_reader (db_scope d)) (data d) (in_expected_ranges i) (in_local_to_global i)) (db_es d) (db_words d).
Lemma positioned_lookup es l (k : nat) i : positioned names es l -> l !! k = Some i <-> exists e, es !! k = Some e /\ search_name names (fe_name e) = Some i.
Proof using Type.
  intros Hp. split.
  - intros Hi. destruct (Forall2_lookup_r _ _ _ _ _ Hp Hi) as (e & He & Hs). by exists e.
  - intros (e & He & Hs). destruct (Forall2_lookup_l _ _ _ _ _ Hp He) as (j & Hj & Hs'). congruence.
Qed.
Lemma src_of_ok d i : database_ok d -> described names (sc_state (db_scope d)) i -> src_ok rounds F (src_of d i).
Proof using HF.
  intros [Hs Hc _ Hn Hr] [He Hp]. split; cbn; [done | congruence | | done]. split; [apply Forall2_length in Hp; unfold zlen; lia |]. split.
  - apply NoDup_alt. intros j k g Hj Hk. apply (positioned_lookup _ _ _ _ Hp) in Hj as (e & Ej & Hj). apply (positioned_lookup _ _ _ _ Hp) in Hk as (e' & Ek & Hk).
    pose proof (search_name_same F names HF _ _ _ Hj Hk) as Hsame. eapply (NoDup_lookup (fe_name <$> entries (data d))); [done | rewrite list_lookup_fmap, Ej; done | rewrite list_lookup_fmap, Ek; cbn; congruence].
  - apply Forall_forall. intros g (j & Hj)%list_elem_of_lookup. apply (positioned_lookup _ _ _ _ Hp) in Hj as (e & _ & Hj). by apply (search_name_ok F names HF) in Hj as [? _].
Qed.
(** The global feeds of a source at an address are those of the names. *)
Lemma src_of_feeds d i a g : database_ok d -> described names (sc_state (db_scope d)) i ->
  g ∈ globals_of (src_of d i) (run_at (runs_of (src_of d i)) a) <-> exists name, name ∈ feeds_in d a /\ search_name names name = Some g.
Proof using H0.
  intros Hd [_ Hp]. unfold runs_of. rewrite select_at by (cbn; apply canonical_chain; apply (dk_source _ Hd)). cbn [src_of sx_input sx_es sx_words ai_scope]. unfold feeds_at, feeds_in, globals_of, feeds_of.
  destruct (rng_lookup (db_es d) a) as [v|]; cbn [omap list_omap]; [| split; [by intros ?%elem_of_nil | by intros (? & ?%elem_of_nil & _)]].
  rewrite list_elem_of_omap. cbn [src_of sx_input ai_local_to_global]. pose proof (proj2 (named_decoded (entries (data d)) (db_words d v))) as Hnamed. unfold get. split.
  - intros (q & Hq & Hg). apply Hnamed in Hq as (_ & _ & e & He & Hb). apply (positioned_lookup _ _ _ _ Hp) in Hg as (e' & He' & Hs). simplify_eq. exists (fe_name e). split; [| done].
    apply list_elem_of_fmap_2, list_elem_of_filter. split; [done |]. by eapply list_elem_of_lookup_2.
  - intros (name & Hin & Hs). apply list_elem_of_fmap in Hin as (e & -> & [Hb He]%list_elem_of_filter). apply list_elem_of_lookup in He as (k & Hk). exists (Z.of_nat k).
    split; [apply Hnamed; split; [done |]; split; [lia |]; exists e; by rewrite Nat2Z.id |]. rewrite Nat2Z.id. apply (positioned_lookup _ _ _ _ Hp). by exists e.
Qed.
Lemma held_pos (xs : list (Src (K := K))) a g : 0 < held xs a g <-> exists x, x ∈ xs /\ g ∈ globals_of x (run_at (runs_of x) a).
Proof using Type.
  assert (Hnn : forall ys, 0 <= held ys a g) by (induction ys as [|y ys IH]; cbn [held]; [done |]; pose proof (one_if_range (globals_of y (run_at (runs_of y) a)) g); lia).
  induction xs as [|x xs IH]; cbn [held]; [split; [lia | by intros (? & ?%elem_of_nil & _)] |]. specialize (Hnn xs). unfold one_if. destruct (decide _) as [Hg | Hg].
  - split; [intros _; exists x; split; [left | done] | lia].
  - rewrite Z.add_0_l, IH. split; intros (y & Hy & Hin); exists y; (split; [| done]); [by right |]. apply elem_of_cons in Hy as [-> | Hy]; done.
Qed.

Definition sources dbs (inputs : list InputState) : list (Src (K := K)) := zip_with src_of dbs inputs.
Lemma sources_hits dbs inputs sel feeds : Forall database_ok dbs -> Forall2 (described names) (scopes dbs) inputs ->
  (forall name, name ∈ feed_names (scopes dbs) -> name ∈ names) -> (forall name i, search_name names name = Some i -> picks sel i <-> asks feeds name = true) ->
  shows_hits F (sources dbs inputs) sel (in_feeds dbs feeds).
Proof using H0 HF.
  intros Hok Hb Hnames Hsel a _. unfold in_feeds. rewrite existsb_exists. split.
  - intros (d & Hd & (name & Hn & Hask)%existsb_exists). apply list_elem_of_In in Hd, Hn. apply list_elem_of_lookup in Hd as (k & Hk).
    assert (Hk' : scopes dbs !! k = Some (sc_state (db_scope d))) by (by rewrite !list_lookup_fmap, Hk). destruct (Forall2_lookup_l _ _ _ _ _ Hb Hk') as (i & Hi & Hdescribed).
    assert (Hdok : database_ok d) by (rewrite Forall_forall in Hok; apply Hok; by eapply list_elem_of_lookup_2).
    assert (Hin : name ∈ names).
    { apply Hnames. unfold feeds_in in Hn. destruct (rng_lookup (db_es d) a); [| by apply elem_of_nil in Hn]. apply list_elem_of_fmap in Hn as (e & -> & [_ He]%list_elem_of_filter).
      eapply in_feed_names; [by eapply list_elem_of_lookup_2 | done]. }
    destruct (search_name_found names name Hin) as (g & Hg). exists g. split; [by apply (search_name_ok F names HF) in Hg as [? _] |]. split; [by eapply Hsel |].
    apply held_pos. exists (src_of d i). split; [apply (list_elem_of_lookup_2 _ k); unfold sources; by rewrite lookup_zip_with, Hk; cbn; rewrite Hi |]. apply src_of_feeds; [done | done |]. by exists name.
  - intros (g & Hg & Hpick & (x & Hx & Hin)%held_pos). apply list_elem_of_lookup in Hx as (k & Hk). unfold sources in Hk. apply lookup_zip_with_Some in Hk as (d & i & -> & Hd & Hi).
    assert (Hk' : scopes dbs !! k = Some (sc_state (db_scope d))) by (by rewrite !list_lookup_fmap, Hd). assert (Hdescribed : described names (sc_state (db_scope d)) i) by (by eapply Forall2_lookup_lr).
    assert (Hdok : database_ok d) by (rewrite Forall_forall in Hok; apply Hok; by eapply list_elem_of_lookup_2). apply src_of_feeds in Hin as (name & Hn & Hs); [| done | done].
    exists d. split; [apply list_elem_of_In; by eapply list_elem_of_lookup_2 |]. apply existsb_exists. exists name. split; [by apply list_elem_of_In |]. by apply (Hsel name g).
Qed.
Lemma sources_ok dbs inputs : Forall database_ok dbs -> Forall2 (described names) (scopes dbs) inputs -> Forall (src_ok rounds F) (sources dbs inputs).
Proof using HF.
  intros Hok Hb. apply Forall_lookup. intros k x Hk. apply lookup_zip_with_Some in Hk as (d & i & -> & Hd & Hi). apply src_of_ok; [by eapply Forall_lookup_1 |].
  eapply Forall2_lookup_lr; [exact Hb | | exact Hi]. by rewrite !list_lookup_fmap, Hd.
Qed.
End Catalogued.
End Databases.

(** ** Counting and comparing *)

Lemma count_zero P n : count_below P n = 0 <-> forall a, 0 <= a < Z.of_nat n -> P a = false.
Proof.
  induction n as [|n IH]; [split; [lia | done] |]. cbn [count_below]. pose proof (count_bounds P n). split.
  - intros Hz a Ha. destruct (P (Z.of_nat n)) eqn:E; [lia |]. destruct (Z.eq_dec a (Z.of_nat n)) as [-> | Hne]; [done |]. apply IH; lia.
  - intros Hp. rewrite (Hp (Z.of_nat n)) by lia. rewrite (proj2 IH); [done |]. intros a Ha. apply Hp. lia.
Qed.
Lemma zero_counted P n c : counts P n c -> 0 <= n -> card_is_zero c = true <-> forall a, 0 <= a < n -> P a = false.
Proof.
  intros [Hc Hv] Hn. transitivity (val c = 0).
  - destruct Hc as (Hb & Hh & Hl). unfold card_is_zero, val. rewrite !andb_true_iff, !Z.eqb_eq. unfold u64_max in *. lia.
  - rewrite Hv, count_zero. by rewrite Z2Nat.id.
Qed.
(** Two selections are equal when neither has an address of its own. *)
Lemma equal_nothing L R n c d : 0 <= n -> counts (only L R) n c -> counts (only R L) n d -> card_is_zero c = true /\ card_is_zero d = true <-> forall a, 0 <= a < n -> L a = R a.
Proof.
  intros Hn Hc Hd. rewrite (zero_counted _ _ _ Hc Hn), (zero_counted _ _ _ Hd Hn). unfold only. split.
  - intros [H1 H2] a Ha. specialize (H1 a Ha). specialize (H2 a Ha). by destruct (L a), (R a).
  - intros He. split; intros a Ha; rewrite (He a Ha); by destruct (R a).
Qed.

Section Analysis.
Context {K : Type} `{IpKeyLaws K} (cancelled : nat -> bool) (grants : Z -> Z -> option Z) (Hgrants : forall size n, grants size n = Some n) (sizes : Sizes) (rounds : nat).
Notation top := (key_top (K := K)).
Notation scopes dbs := (sc_state <$> (db_scope <$> dbs)).

Definition sizes_ok : Prop := 0 <= size_source sizes /\ 0 <= size_input sizes /\ 0 <= size_state sizes /\ 0 <= size_event sizes.
Definition all_ranges (dbs : list (Database (K := K))) : Z := foldr (fun d n => zlen (db_es d) + n) 0 dbs.
(** What an operation may take, the catalog included. *)
Definition operation_bytes (dbs : list (Database (K := K))) : Z :=
  (size_source sizes + size_input sizes + size_state sizes + size_event sizes) * zlen dbs + 292 * feeds_total (scopes dbs).
Record ready_to (dbs : list (Database (K := K))) (budget : MembershipAlgebraBudget) (reserved : Z) : Prop := {
  rt_databases : Forall (database_ok rounds) dbs;
  rt_sources : 0 < zlen dbs <= ab_max_sources budget /\ zlen dbs <= u32_max;
  rt_feeds : feeds_total (scopes dbs) <= u32_max;
  rt_heap : 0 <= reserved /\ operation_bytes dbs + reserved <= ab_max_heap_bytes budget <= u64_max;
  rt_rounds : 2 * all_ranges dbs <= Z.of_nat rounds /\ 2 * all_ranges dbs < u64_max;
}.
Lemma ranges_sources : forall (l : list (Database (K := K))) js, length js = length l -> ranges_of (sources l js) = all_ranges l.
Proof using Type.
  induction l as [|d l IH]; intros [|i js] Hl; cbn [length] in Hl; try lia; [done |]. unfold sources in *. cbn [zip_with ranges_of src_of sx_es all_ranges foldr]. by rewrite IH by lia.
Qed.
Lemma entries_sources : forall (l : list (Database (K := K))) js, length js = length l -> entries_of (sources l js) = feeds_total (scopes l).
Proof using Type.
  induction l as [|d l IH]; intros [|i js] Hl; cbn [length] in Hl; try lia; [done |]. unfold sources in *.
  cbn [zip_with entries_of src_of sx_input ai_scope feeds_total fmap list_fmap]. by rewrite IH by lia.
Qed.

(** A comparison counts the addresses of the two selections one by one. *)
Record compared (dbs : list (Database (K := K))) (L R : Z -> bool) (r : AlgebraComparisonReport) : Prop := {
  cd_sources : ar_source_count r = zlen dbs;
  cd_ranges : ar_source_range_count r = all_ranges dbs;
  cd_left : counts L (top + 1) (ar_left_addresses r);
  cd_right : counts R (top + 1) (ar_right_addresses r);
  cd_overlap : counts (both L R) (top + 1) (ar_overlap_addresses r);
  cd_left_only : counts (only L R) (top + 1) (ar_left_only_addresses r);
  cd_right_only : counts (only R L) (top + 1) (ar_right_only_addresses r);
  cd_union : counts (either L R) (top + 1) (ar_union_addresses r);
  cd_equal : ar_equal r = true <-> forall a, 0 <= a < top + 1 -> L a = R a;
}.

Context (Hsizes : sizes_ok) (Htop : 0 <= top).
Context (dbs : list (Database (K := K))) (budget : MembershipAlgebraBudget) (reserved : Z) (Hready : ready_to dbs budget reserved).

(** The algebra of the databases. *)
Record algebra_ok (a : MembershipAlgebra) : Prop := {
  ao_catalog : catalogued sizes (scopes dbs) (key_family (K := K)) budget (ma_state a);
  ao_sources : ma_sources a = (fun scope => mkSource (sc_reader scope) (ss_data (sc_state scope))) <$> (db_scope <$> dbs);
}.
Lemma scopes_length : zlen (scopes dbs) = zlen dbs.
Proof using Type. unfold zlen. by rewrite !length_fmap. Qed.

Lemma algebra_new_ok : ends cancelled (algebra_new cancelled grants sizes (db_scope <$> dbs) budget) algebra_ok.
Proof using Hgrants Hsizes Hready.
  destruct Hready as [Hdb [[Hn Hmax] Hfew] Hf [Hr Hb] _]. destruct Hsizes as (Z1 & Z2 & Z3 & Z4). pose proof (feeds_total_nonneg (scopes dbs)). pose proof scopes_length as Hlen. unfold operation_bytes in Hb.
  assert (Hlen' : zlen (db_scope <$> dbs) = zlen dbs) by (unfold zlen; by rewrite length_fmap). unfold algebra_new. cbv zeta. rewrite Hlen'.
  assert (Hprod : 0 <= zlen dbs * size_source sizes /\ 0 <= zlen dbs * size_input sizes /\ 0 <= zlen dbs * size_state sizes /\ 0 <= zlen dbs * size_event sizes) by (repeat split; apply Z.mul_nonneg_nonneg; lia).
  eapply ends_run; [unfold require_source_count; rewrite (proj2 (Z.eqb_neq _ _)), (proj2 (Z.ltb_ge _ _)) by lia; done |].
  eapply ends_run; [unfold checked_mul, usize_max; rewrite (proj2 (Z.leb_le _ _)) by lia; done |].
  eapply ends_run; [apply reserve_ok; [unfold heap_ok, heap_new; cbn; lia | unfold heap_new; cbn; lia] |]. eapply ends_run; [by rewrite Hgrants |].
  eapply ends_run; [unfold checked_mul, usize_max; rewrite (proj2 (Z.leb_le _ _)) by lia; done |]. rewrite <- Hlen.
  eapply ends_bind; [apply (algebra_state_ok cancelled grants Hgrants sizes (scopes dbs) key_family budget) |].
  - apply Forall_fmap, Forall_fmap. eapply Forall_impl; [exact Hdb |]. intros d Hd. apply Hd.
  - lia.
  - done.
  - done.
  - done.
  - unfold catalog_bytes. rewrite Hlen. lia.
  - intros st Hst. apply ends_ret. by split.
Qed.

(** *** An operation on it *)

Section Operation.
Context (a : MembershipAlgebra) (Ha : algebra_ok a).
Notation names := (ma_names (ma_state a)).
Notation xs := (sources dbs (ma_inputs (ma_state a))).
Notation F := (zlen names).

Lemma names_few : 0 <= F <= u32_max /\ F <= feeds_total (scopes dbs).
Proof using Hready Ha. pose proof (ct_few _ _ _ _ _ (ao_catalog _ Ha)). pose proof (rt_feeds _ _ _ Hready). pose proof (zlen_nonneg names). lia. Qed.
Lemma inputs_length : zlen (ma_inputs (ma_state a)) = zlen dbs.
Proof using Ha. pose proof (Forall2_length _ _ _ (ct_inputs _ _ _ _ _ (ao_catalog _ Ha))) as Hl. rewrite !length_fmap in Hl. unfold zlen. lia. Qed.
Lemma xs_length : zlen xs = zlen dbs.
Proof using Ha. pose proof inputs_length as Hl. unfold sources, zlen in *. rewrite length_zip_with. lia. Qed.
Lemma xs_ranges : ranges_of xs = all_ranges dbs.
Proof using Ha. apply ranges_sources. pose proof inputs_length as Hl. unfold zlen in Hl. lia. Qed.
Lemma xs_entries : entries_of xs = feeds_total (scopes dbs).
Proof using Ha. apply entries_sources. pose proof inputs_length as Hl. unfold zlen in Hl. lia. Qed.
Lemma xs_given : gives_sources a xs.
Proof using Ha.
  intros k x Hk. apply lookup_zip_with_Some in Hk as (d & i & -> & Hd & Hi). unfold algebra_source. rewrite (ao_sources _ Ha), !Nat2Z.id, !list_lookup_fmap, Hd, Hi. done.
Qed.
Lemma xs_good : Forall (src_ok rounds F) xs.
Proof using Ha Hready. apply (sources_ok rounds names F eq_refl); [apply Hready | apply (ao_catalog _ Ha)]. Qed.
Lemma xs_hits sel feeds : (forall name i, search_name names name = Some i -> picks sel i <-> asks feeds name = true) -> shows_hits F xs sel (in_feeds dbs feeds).
Proof using Ha Hready. intros Hsel. apply (sources_hits rounds names F eq_refl); [apply Hready | apply (ao_catalog _ Ha) | intros n; apply (ct_names _ _ _ _ _ (ao_catalog _ Ha)) | done]. Qed.
Lemma askable_names feeds : askable (feed_names (scopes dbs)) feeds -> askable names feeds.
Proof using Ha.
  destruct feeds as [|wanted]; [done |]. intros (Hne & Hn & Hin). split; [done |]. split; [done |]. eapply Forall_impl; [exact Hin |]. intros n. apply (ct_names _ _ _ _ _ (ao_catalog _ Ha)).
Qed.

(** The heap an operation starts with. *)
Lemma operation_heap_ok : exists h, algebra_operation_heap a reserved = Ok h /\ heap_ok h /\ (size_state sizes + size_event sizes) * zlen xs + 10 * entries_of xs + 22 * F <= remaining h.
Proof using Hready Ha Hsizes.
  destruct (ct_heap _ _ _ _ _ (ao_catalog _ Ha)) as [Hmax Hused]. destruct (rt_heap _ _ _ Hready) as [Hr Hb]. pose proof names_few as [HF Hle]. pose proof (feeds_total_nonneg (scopes dbs)).
  destruct Hsizes as (Z1 & Z2 & Z3 & Z4). unfold operation_bytes in Hb. unfold catalog_bytes in Hused. rewrite scopes_length in Hused. rewrite xs_length, xs_entries. unfold algebra_operation_heap, checked_sub. rewrite Hmax, Hused.
  pose proof (zlen_nonneg dbs). assert (0 <= size_state sizes * zlen dbs /\ 0 <= size_event sizes * zlen dbs /\ 0 <= size_source sizes * zlen dbs /\ 0 <= size_input sizes * zlen dbs) by (repeat split; by apply Z.mul_nonneg_nonneg).
  rewrite (proj2 (Z.leb_le _ _)) by lia. cbn -[Z.mul zlen feeds_total]. rewrite (proj2 (Z.leb_le _ _)) by lia. cbn -[Z.mul zlen feeds_total]. eexists. split; [done |].
  unfold heap_ok, heap_new. cbn -[Z.mul zlen feeds_total]. lia.
Qed.

Context (feeds left_ right_ : FeedSelection).
Notation asked fs := (askable (feed_names (scopes dbs)) fs).
Lemma resolved fs h : asked fs -> heap_ok h -> 5 * F <= remaining h ->
  ends cancelled (resolve cancelled grants a fs h) (fun '(sel, h') => selection_ok F sel /\ shows_hits F xs sel (in_feeds dbs fs) /\ exists n, h' = spend n h /\ 0 <= n <= 5 * F).
Proof using Ha Hready Hgrants.
  intros Hask Hh Hr. pose proof names_few as [HF _]. eapply ends_mono; [apply (resolve_ok cancelled F names eq_refl ltac:(lia) a grants fs h Hgrants eq_refl); [by apply askable_names | done | done] |].
  intros [sel h'] (Hs & Hp & Hn). split; [done |]. split; [by apply xs_hits | done].
Qed.

Lemma algebra_count_ok : asked feeds ->
  (forall sink h, scan_family (sink4 := CountSink_SegmentSink cancelled) (sink6 := CountSink_SegmentSink cancelled) cancelled grants sizes rounds a sink h
    = scan_run (K := K) (H0 := CountSink_SegmentSink cancelled) cancelled grants sizes rounds a sink h) ->
  ends cancelled (algebra_count cancelled grants sizes rounds a feeds reserved) (fun r => cr_source_count r = zlen dbs /\ cr_source_range_count r = all_ranges dbs
    /\ counts (in_feeds dbs feeds) (top + 1) (cr_addresses r)).
Proof using Type*.
  intros Hask Hfam. unfold algebra_count. eapply ends_bind with (P := fun _ => True); [by apply ends_check |]. intros _ _. destruct operation_heap_ok as (h & Eh & Hh & Hroom). eapply ends_run; [exact Eh |].
  pose proof names_few as [HF _]. destruct Hsizes as (_ & _ & Z3 & Z4). destruct (rt_rounds _ _ _ Hready) as [Hr1 Hr2]. rewrite <- xs_ranges in Hr1, Hr2. pose proof (rt_sources _ _ _ Hready) as [_ Hfew].
  pose proof (entries_nonneg xs). pose proof (zlen_nonneg xs). assert (0 <= (size_state sizes + size_event sizes) * zlen xs) by (apply Z.mul_nonneg_nonneg; lia).
  eapply ends_bind; [by apply resolved; [| | lia] |]. intros [sel h'] (Hsel & Hhits & n & -> & Hn). rewrite Hfam. eapply ends_bind.
  - apply (scan_run_ok cancelled rounds F xs (count_inv sel (in_feeds dbs feeds)) Htop); try done.
    + intros lo hi t. by apply count_skip.
    + intros lo hi from to N g t. by apply count_segment.
    + by apply xs_given.
    + rewrite inputs_length, xs_length. done.
    + apply xs_good.
    + by rewrite xs_length.
    + apply spend_ok; [done | lia].
    + unfold spend. cbn. lia.
  - intros [[report t] h2] [(_ & _ & Hc) Hrep]. apply ends_ret. cbn. rewrite inputs_length, Hrep, xs_ranges. done.
Qed.

Lemma algebra_compare_ok : asked left_ -> asked right_ ->
  (forall sink h, scan_family (sink4 := ComparisonSink_SegmentSink cancelled) (sink6 := ComparisonSink_SegmentSink cancelled) cancelled grants sizes rounds a sink h
    = scan_run (K := K) (H0 := ComparisonSink_SegmentSink cancelled) cancelled grants sizes rounds a sink h) ->
  ends cancelled (algebra_compare cancelled grants sizes rounds a left_ right_ reserved) (compared dbs (in_feeds dbs left_) (in_feeds dbs right_)).
Proof using Type*.
  intros HaskL HaskR Hfam. unfold algebra_compare. eapply ends_bind with (P := fun _ => True); [by apply ends_check |]. intros _ _. destruct operation_heap_ok as (h & Eh & Hh & Hroom). eapply ends_run; [exact Eh |].
  pose proof names_few as [HF _]. destruct Hsizes as (_ & _ & Z3 & Z4). destruct (rt_rounds _ _ _ Hready) as [Hr1 Hr2]. rewrite <- xs_ranges in Hr1, Hr2. pose proof (rt_sources _ _ _ Hready) as [_ Hfew].
  pose proof (entries_nonneg xs). pose proof (zlen_nonneg xs). assert (0 <= (size_state sizes + size_event sizes) * zlen xs) by (apply Z.mul_nonneg_nonneg; lia).
  eapply ends_bind; [by apply resolved; [| | lia] |]. intros [sel h'] (Hsel & Hhits & n & -> & Hn).
  eapply ends_bind; [apply resolved; [done | apply spend_ok; [done | lia] | unfold spend; cbn; lia] |]. intros [sel2 h'] (Hsel2 & Hhits2 & m & -> & Hm).
  rewrite Hfam. eapply ends_bind.
  - apply (scan_run_ok cancelled rounds F xs (compare_inv sel sel2 (in_feeds dbs left_) (in_feeds dbs right_)) Htop); try done.
    + intros lo hi t. by apply compare_skip.
    + intros lo hi from to N g t. by apply compare_segment.
    + by apply xs_given.
    + rewrite inputs_length, xs_length. done.
    + apply xs_good.
    + by rewrite xs_length.
    + apply spend_ok; [apply spend_ok; [done | lia] | unfold spend; cbn; lia].
    + unfold spend. cbn. lia.
  - intros [[report t] h2] [[_ _ C1 C2 C3 C4 C5 C6] Hrep]. apply ends_ret. cbn. split; cbn; try done; [apply inputs_length | by rewrite Hrep, xs_ranges |]. rewrite andb_true_iff. apply equal_nothing; [lia | done | done].
Qed.
End Operation.
End Analysis.

(** ** Both address families *)

Definition FamilyKey (f : AddressFamily) : Type := match f with Ipv4 => Ipv4Key | Ipv6 => Ipv6Key end.
#[export] Instance FamilyKey_key f : IpKey (FamilyKey f) := match f with Ipv4 => Ipv4Key_IpKey | Ipv6 => Ipv6Key_IpKey end.
#[export] Instance FamilyKey_laws f : IpKeyLaws (FamilyKey f) := match f with Ipv4 => Ipv4Key_laws | Ipv6 => Ipv6Key_laws end.

Section Families.
Context (f : AddressFamily) (cancelled : nat -> bool) (grants : Z -> Z -> option Z) (sizes : Sizes) (rounds : nat).
Notation Database := (Database (K := FamilyKey f)).
Notation scopes dbs := (sc_state <$> (db_scope <$> dbs)).
Lemma family_top : 0 <= key_top (K := FamilyKey f).
Proof using Type. by destruct f. Qed.
Lemma family_of (a : MembershipAlgebra) budget (l : list Database) : algebra_ok sizes l budget a -> ma_family (ma_state a) = f.
Proof using Type. intros [[-> _ _ _ _ _] _]. by destruct f. Qed.

(** C38: an algebra of several databases and a comparison of two selections of
    its feeds end, with a report or as cancelled, however the ranges of the
    databases meet.  The six counts are the numbers of addresses in the left
    selection, the right one, both, one only and either, where an address is in
    a selection when some database has it in a feed of that name; the selections
    are called equal exactly when they have the same addresses.  The databases
    are those whose memberships name no feed on which the lookup of their scope
    panics, and the budget covers the structures. *)
Theorem algebra_comparison_exact (dbs : list Database) budget reserved left_ right_ :
  (forall size n, grants size n = Some n) -> sizes_ok sizes -> ready_to sizes rounds dbs budget reserved ->
  askable (feed_names (scopes dbs)) left_ -> askable (feed_names (scopes dbs)) right_ ->
  ends cancelled (a ← algebra_new cancelled grants sizes (db_scope <$> dbs) budget; algebra_compare cancelled grants sizes rounds a left_ right_ reserved)
    (compared dbs (in_feeds dbs left_) (in_feeds dbs right_)).
Proof using Type.
  intros Hg Hs Hr Hl Hr'. eapply ends_bind; [by apply (algebra_new_ok cancelled grants Hg sizes rounds Hs dbs budget reserved Hr) |]. intros a Ha. pose proof (family_of _ _ _ Ha) as Hf.
  apply (algebra_compare_ok cancelled grants Hg sizes rounds Hs family_top dbs budget reserved Hr a Ha); [done | done |]. intros sink h. unfold scan_family. rewrite Hf. by destruct f.
Qed.
Theorem algebra_count_exact (dbs : list Database) budget reserved feeds :
  (forall size n, grants size n = Some n) -> sizes_ok sizes -> ready_to sizes rounds dbs budget reserved -> askable (feed_names (scopes dbs)) feeds ->
  ends cancelled (a ← algebra_new cancelled grants sizes (db_scope <$> dbs) budget; algebra_count cancelled grants sizes rounds a feeds reserved)
    (fun r => cr_source_count r = zlen dbs /\ cr_source_range_count r = all_ranges dbs /\ counts (in_feeds dbs feeds) (key_top (K := FamilyKey f) + 1) (cr_addresses r)).
Proof using Type.
  intros Hg Hs Hr Hl. eapply ends_bind; [by apply (algebra_new_ok cancelled grants Hg sizes rounds Hs dbs budget reserved Hr) |]. intros a Ha. pose proof (family_of _ _ _ Ha) as Hf.
  apply (algebra_count_ok cancelled grants Hg sizes rounds Hs family_top dbs budget reserved Hr a Ha); [done |]. intros sink h. unfold scan_family. rewrite Hf. by destruct f.
Qed.
End Families.

(** ** Two databases *)

Definition feed_meta (root count : Z) : MetaV4 := mkMetaV4 Ipv4 Membership 0 FIRST_SEEN (replicate 16 7) 5 (replicate 16 9) 5 count 0 0 0 0 0 0 0 root 0 0 0 0 0 0 0 0 0 [0; 0; 0; 0] 0 0 0 0 0.
(** Membership 8 names the feeds 0 and 1, any other only feed 0. *)
Definition word_of (membership : Z) : Z := if membership =? 8 then 3 else 1.
Definition feed_reader (root count : Z) : GenerationReader := mkReader tree_mapping (feed_meta root count) None (fun m => Ok (one_word_view (word_of m))).
Definition feed (name i : Z) : FeedEntry := mkFeedEntry (mkFeedName [name] 1) i.
Definition made_scope (fs : list FeedEntry) : ScopeData :=
  match scope_finish no_poll (fun _ n => Some n) fs false 4096 (heap_new 4096) 0%nat with (_, Ok s) => s | _ => mkScopeData [] IndexEmpty 0 false 0 0 end.
Definition feed_database (root : Z) (es : list (Range Ipv4Key)) (fs : list FeedEntry) : Database (K := FamilyKey Ipv4) :=
  mkDatabase (K := FamilyKey Ipv4) (mkScope (feed_reader root (zlen es)) (mkScopeState Ipv4 (zlen es) (made_scope fs))) es (fun m => [word_of m]).
Definition two_databases : list (Database (K := FamilyKey Ipv4)) := [feed_database 4 all_records [feed 97 0; feed 98 1]; feed_database 3 right_records [feed 98 0]].

Lemma made_scope_ok fs : ordered fs -> 32 * zlen fs <= 4096 -> entries (made_scope fs) = fs /\ index_answers (index (made_scope fs)) fs.
Proof.
  intros Ho Hl. pose proof (scope_finish_ok no_poll (fun _ n => Some n) fs false 4096 (heap_new 4096) (fun _ _ => eq_refl) Ho ltac:(unfold heap_ok, u64_max; cbn; lia) Hl) as He.
  destruct (ends_ok no_poll _ _ (fun _ => eq_refl) He 0%nat) as (asked & scope & E & Hs & Hix & _). unfold made_scope. rewrite E. done.
Qed.
Lemma word_bits w i : 0 < w < 4 -> 0 <= i -> bit [w] i = true -> i = 0 \/ i = 1 /\ w = 3 \/ i = 1 /\ w = 2.
Proof.
  intros Hw Hi. unfold bit. destruct (Z.to_nat (i / 64)) as [|n] eqn:En.
  - assert (Hlt : i < 64) by (apply Z.nle_gt; intros Hge; pose proof (Z.div_le_mono 64 i 64 ltac:(lia) Hge); change (64 / 64) with 1 in *; lia). rewrite Z.mod_small by lia. cbn [nth].
    destruct (Z.le_gt_cases 2 i) as [H2 | ?].
    + rewrite Z.bits_above_log2; [done | lia |]. assert (Z.log2 w < 2) by (apply Z.log2_lt_pow2; lia). lia.
    + destruct (Z.eq_dec i 0) as [-> |]; [by left |]. assert (i = 1) as -> by lia. intros Hb. right. assert (w = 1 \/ w = 2 \/ w = 3) as [-> | [-> | ->]] by lia; [done | by right | by left].
  - intros Hb. destruct n; cbn [nth] in Hb; by rewrite Z.bits_0 in Hb.
Qed.
Lemma feed_database_ok root es fs : (root = 4 /\ es = all_records) \/ (root = 3 /\ es = right_records) -> ordered fs -> 32 * zlen fs <= 4096 -> NoDup (fe_name <$> fs) ->
  (forall e i, e ∈ es -> 0 <= i -> bit [word_of (r_value e)] i = true -> exists p, selected_at fs i p) -> database_ok 16 (feed_database root es fs).
Proof.
  intros Hcase Ho Hl Hn Hsel. destruct (made_scope_ok fs Ho Hl) as [He Hix].
  assert (Hfacts : tree_holds (mkGeneration tree_mapping (feed_meta root (zlen es))) root es /\ canonical es /\ Forall (fun e => 0 < r_value e) es /\ (length es <= 3)%nat).
  { destruct Hcase as [[-> ->] | [-> ->]]; (split; [first [by apply tree_holds_in | by apply right_holds_in] |]); (split; [first [exact all_canonical | exact right_canonical] |]); (split; [repeat constructor | cbn; lia]). }
  destruct Hfacts as (Ht & Hc & Hv & Hlen). rewrite Forall_forall in Hv. split; cbn.
  - split; cbn; [by left | done | done | exact Ht | exact Hc | unfold u64_max, zlen; lia | by rewrite He |].
    intros e Hin. split; [by apply Hv |]. exists (one_word_view (word_of (r_value e))). split; [done |]. split; [apply one_word_shows |]. split.
    + split; [| unfold zlen; cbn; lia]. repeat constructor; unfold word_of; destruct (_ =? _); lia.
    + intros i Hi Hb. left. rewrite He. by apply (Hsel e).
  - done.
  - done.
  - by rewrite He.
  - lia.
Qed.

Lemma algebra_comparison_exact_witness : exists asked r,
  (a ← algebra_new no_poll (fun _ n => Some n) (mkSizes 64 32 128 16) (db_scope <$> two_databases) (mkAlgebraBudget 8192 4);
   algebra_compare no_poll (fun _ n => Some n) (mkSizes 64 32 128 16) 16 a (NamedFeeds [mkFeedName [97] 1]) (NamedFeeds [mkFeedName [98] 1]) 0) 0%nat = (asked, Ok r)
  /\ val (ar_left_addresses r) = 33 /\ val (ar_right_addresses r) = 22 /\ val (ar_left_only_addresses r) = 11 /\ ar_equal r = false
  /\ count_below (only (in_feeds two_databases (NamedFeeds [mkFeedName [97] 1])) (in_feeds two_databases (NamedFeeds [mkFeedName [98] 1]))) (Z.to_nat (2 ^ 32)) = 11.
Proof.
  assert (Hone : ordered [feed 98 0]) by (split; [repeat constructor |]; split; [repeat constructor; cbn; unfold u32_max; lia | unfold zlen, u32_max; cbn; lia]).
  assert (Htwo : ordered [feed 97 0; feed 98 1]) by (split; [repeat constructor; cbn; lia |]; split; [repeat constructor; cbn; unfold u32_max; lia | unfold zlen, u32_max; cbn; lia]).
  assert (Hdb : Forall (database_ok 16) two_databases).
  { constructor; [| constructor; [| constructor]]; (apply feed_database_ok; [tauto | done | unfold zlen; cbn; lia | apply (bool_decide_eq_true_1 _); vm_compute; reflexivity |]).
    - intros e i _ Hi Hb. destruct (word_bits (word_of (r_value e)) i) as [-> | [[-> _] | [-> _]]]; [unfold word_of; destruct (_ =? _); lia | done | done | exists 0%nat; by eexists | exists 1%nat; by eexists | exists 1%nat; by eexists].
    - intros e i He Hi Hb. apply list_elem_of_singleton in He as ->. destruct (word_bits (word_of 7) i) as [-> | [[_ Hw] | [_ Hw]]]; [unfold word_of; cbn; lia | done | done | exists 0%nat; by eexists | done | done]. }
  assert (Hready : ready_to (mkSizes 64 32 128 16) 16 two_databases (mkAlgebraBudget 8192 4) 0).
  { assert (Hft : feeds_total (sc_state <$> (db_scope <$> two_databases)) = 3) by (vm_compute; reflexivity). assert (Hz : zlen two_databases = 2) by reflexivity. assert (Har : all_ranges two_databases = 4) by reflexivity.
    split; rewrite ?Hz, ?Hft, ?Har; [exact Hdb | cbn; unfold u32_max; lia | unfold u32_max; lia | unfold operation_bytes; rewrite Hft, Hz; cbn; unfold u64_max; lia | unfold u64_max; lia]. }
  pose proof (algebra_comparison_exact Ipv4 no_poll (fun _ n => Some n) (mkSizes 64 32 128 16) 16 two_databases (mkAlgebraBudget 8192 4) 0 (NamedFeeds [mkFeedName [97] 1]) (NamedFeeds [mkFeedName [98] 1])
    (fun _ _ => eq_refl) ltac:(unfold sizes_ok; cbn; lia) Hready) as He.
  assert (Hask : forall n, n ∈ feed_names (sc_state <$> (db_scope <$> two_databases)) -> askable (feed_names (sc_state <$> (db_scope <$> two_databases))) (NamedFeeds [n])).
  { intros n Hn. split; [done |]. split; [apply NoDup_singleton | by apply Forall_singleton]. }
  specialize (He (Hask _ ltac:(vm_compute; left)) (Hask _ ltac:(vm_compute; right; left))).
  destruct (ends_ok no_poll _ _ (fun _ => eq_refl) He 0%nat) as (asked & r & E & Hc). exists asked, r. split; [exact E |].
  assert (Hr : r = mkComparisonReport 2 4 3 (mkCard 0 0 33) (mkCard 0 0 22) (mkCard 0 0 22) (mkCard 0 0 11) (mkCard 0 0 0) (mkCard 0 0 33) false).
  { apply (f_equal snd) in E. cbn [snd] in E. vm_compute in E. by injection E as <-. }
  do 4 (split; [by rewrite Hr |]). symmetry. replace 11 with (val (ar_left_only_addresses r)) by (by rewrite Hr). exact (proj2 (cd_left_only _ _ _ _ Hc)).
Defined.
